(* ===== verification/_CoqProject ===== *)
-Q . S2P
Prelude.v
Asm.v
Merkle.v
Sparse.v
SparseTrie.v
SparseProofs.v
SparseBuild.v
SparseSpec.v
MerkleProof.v
BinaryTree.v
Receipts.v
Memory.v
State.v
Gas.v
Alu.v
MemOps.v
WideInt.v
Storage.v
MemStorage.v
SlotStorage.v
Flow.v
Calls.v
Blockchain.v
BlockchainSafe.v
Effects.v
LoadCode.v
Crypto.v
Opcodes.v
Steps.v
Run.v
Ending.v
Authority.v
StateOps.v
Bisim.v
Canonical.v
TxTypes.v
TxCodec.v
TxInput.v
TxId.v
TxSign.v
TxFee.v
TxOffsets.v
TxFieldBytes.v
Gtf.v
TxBalances.v
Init.v
Prepared.v
Reuse.v
TxValidity.v
Predicates.v
Checked.v
TxExec.v
Upload.v
Transact.v
