(* ===== verification/Prelude.v ===== *)
(** * A verification of the Fuel virtual machine

    The repository (src/) is the FuelVM: an instruction set (fuel-asm), a register machine
    with one linear memory, gas metering, contract calls and asset balances (fuel-vm), the
    transactions it runs and the receipts it produces (fuel-tx), their canonical encoding
    (fuel-types, fuel-derive) and the Merkle trees that commit to them (fuel-merkle).
    This library models the execution core and the transactions as executable functions and
    proves what makes them correct.

    ** How the parts interact

    A script runs in a loop (executors/main.rs, [run_program]): fetch four bytes at [$pc],
    decode them, charge gas, run the instruction's handler. Handlers read and write registers
    and memory through ownership checks; [CALL] moves coins, pushes a call frame, copies the
    callee's code above the caller's stack and switches the context; [RET] pops the frame and
    restores the caller. Each event appends a receipt to a bounded log whose Merkle root is
    kept incrementally. A panic appends a panic receipt, and every run ends with a result
    receipt that accounts for the gas. Predicates run in a restricted loop.

    Around the loop, a transaction is checked (validity, signatures, predicates), made ready
    against the gas price, and executed: the machine is initialized with it, a script runs and
    the other kinds publish to the storage, and the outputs are settled and written back.

    ** Files

    - Prelude: results with host panics ([outcome]), machine integers with their wrap-around,
      checked and saturating operations, integer-indexed lists, big-endian bytes, tactics.
    - Asm: fuel-asm (lib.rs, macros.rs, pack.rs, unpack.rs, args/wideint.rs,
      panic_reason.rs): registers, opcodes, operand layouts, encoding and decoding.
    - Merkle: fuel-merkle, binary trees (common/position.rs, binary/hash.rs, node.rs,
      root_calculator.rs) against the recursive tree hash [mth]. MerkleProof: proof checking
      (binary/verify.rs) and the in-memory tree (binary/in_memory.rs). BinaryTree: the tree over
      a node storage (binary/merkle_tree.rs), its proofs and reloading.
    - Sparse: fuel-merkle, the sparse tree (sparse/merkle_tree.rs, node.rs, branch.rs,
      proof.rs, in_memory.rs) over any node storage; SparseTrie: the reference trie of a map
      of keys and the lemmas on insertion and deletion; SparseProofs: paths and proofs;
      SparseBuild: building from a set; SparseSpec: the theorems.
    - Receipts: fuel-tx receipt.rs, fuel-vm interpreter/receipts.rs, and the error types.
    - Memory: fuel-vm interpreter/memory.rs, [MemoryInstance]: the two buffers, reads, writes
      as borrowed slices, growth, [memcopy], equality, rollback.
    - State: the [Interpreter] record (interpreter.rs, context.rs, call.rs, internal.rs), the
      state-and-error monad [M] in which all handlers are written, and its weakest
      preconditions [wp].
    - Gas: gas.rs and the dependent costs of fuel-tx; the well-formedness invariant [vm_wf];
      the contract [local_step] of a handler that stays in its frame; Hoare triples [safe].
    - Alu, WideInt: interpreter/alu.rs, alu/muldiv.rs, alu/wideint.rs.
    - MemOps: the memory instructions of interpreter/memory.rs.
    - Storage: the storage interface (storage/interpreter.rs) as a class [InterpreterStorage]
      with laws [StorageLaws] and [StateLaws] (ranges of slots), and the balance operations of
      interpreter/contract.rs proved against the interface. MemStorage: the in-memory backend
      (storage/memory.rs), an instance of [StorageLaws]. SlotStorage: a backend that meets
      [StateLaws] too, for which the hypotheses of the theorems are shown to hold, and where
      the in-memory backend does not meet them.
    - Flow: interpreter/flow.rs, log.rs, balances.rs, verification.rs, and the transfers of
      contract.rs: jumps, calls, returns, panic receipts, payments ([pay_step], [pays]).
    - Calls: the call discipline [call_inv] (every active frame is intact in memory), the
      call/return round trip, and conservation of assets.
    - Blockchain: interpreter/blockchain.rs and blob.rs: block information, contract code,
      state slots, minting and burning, messages, blobs. BlockchainSafe: the handlers that
      stay in their frame; Effects: those that change storage or balances ([effect]);
      LoadCode: [LDC], which extends the running frame; StateOps: the state instructions
      against an abstract map of slots ([SlotSpec]).
    - Crypto: interpreter/crypto.rs over abstract primitives ([Crypto]), and [GM]
      (interpreter/metadata.rs).
    - Opcodes: executors/opcodes_impl.rs, one definition [exec_X] per instruction, and the
      dispatch of executors/instruction.rs.
    - Steps: each instruction is a local step, a code load, an effect, a call or a return
      ([step_rel]), and pays for itself ([good]).
    - Run: fetch-decode-execute, the script loop, the predicate loop, and executions.
      Ending: what is left of the machine when a script has ended.
      Authority: what an execution can do to a contract that does not run. Bisim: handlers and
      loops do not depend on what the heap buffer holds beyond the live heap ([mem_sim]).
    - Canonical: the serialization traits of fuel-types canonical.rs as records [Codec], their
      combinators, and what the derive macros of fuel-derive generate; [lawful] codecs.
    - TxTypes: the transactions of fuel-tx (types/*.rs, policies.rs) and their codecs; TxCodec:
      the codecs are lawful. TxInput: the accessors of inputs and the validity errors.
    - TxId: transaction ids (id.rs, types.rs); TxSign: signing inputs and checking signatures
      (id.rs, validity.rs, witness.rs); TxFee: gas and fee bounds (fee.rs).
    - TxOffsets: where the fields of a transaction lie in its encoding (repr.rs, consts.rs,
      metadata.rs, the [field] modules); TxFieldBytes: the bytes of inputs and outputs spelled
      out; Gtf: the instruction [GTF] (interpreter/metadata.rs) against the fields.
    - TxBalances: the free balances of a checked transaction (checked_transaction/balances.rs),
      the balances the machine starts with (interpreter/balances.rs) and the outputs filled in
      after execution (interpreter.rs, post_execution.rs).
    - Init: initializing the machine for scripts and predicates (interpreter/initialization.rs,
      predicate.rs): the [Machine] is the [Interpreter] with the transaction. Prepared: what
      preparing a transaction for signing, as initialization does, changes of its sizes, gas and
      balances. Reuse: a machine that is initialized again behaves as a fresh one.
    - TxValidity: the validity rules of all six kinds of transactions (validity.rs,
      [check_without_signatures] of types/*.rs) against a declarative [valid_tx].
    - Predicates: verifying and estimating the predicates of a transaction, one after the other
      and as parallel tasks (the module [predicates] of executors/main.rs), over the storage of
      predicates (storage/predicate.rs).
    - Checked: checked and ready transactions of every kind (checked_transaction.rs,
      checked_transaction/types.rs): metadata, the three checks and their bits, conversions.
    - TxExec: executing create, upgrade, upload and blob transactions on the ledger
      (executors/main.rs, [deploy_inner], [upgrade_inner], [upload_inner], [blob_inner]).
      Upload: splitting bytecode into subsections (types/upload.rs) and uploading them.
    - Transact: executing ready and checked transactions ([transact], [run] and the end of
      [run_program] in executors/main.rs, internal.rs, transactor.rs), where the parts meet.

    ** What the theorems show

    - Run: over any execution of modelled instructions the invariants hold, no instruction panics
      the host or reports an internal bug, callees cannot touch their callers' memory, coins
      change only by the mints, burns and messages the receipts announce, scripts and predicates
      terminate within their gas or stop at an unmodelled instruction, and the final receipts
      account for the gas. Authority: a contract that does not
      run keeps its slots and does not lose coins.
    - SparseSpec: the sparse tree refines a map, building at once equals inserting one by one,
      membership proofs are complete, and sound up to hash collisions.
    - StateOps: the state instructions refine a map of slots. LoadCode: [LDC] appends exactly
      the bytes of its source.
    - Calls: call and return are inverse up to the documented registers; calls and transfers
      move exactly the stated coins; gas charging never touches what callers reserved.
    - Memory, MemOps: isolation and read-back of writes, zeroed heap growth, exact copies,
      rollback, push/pop and store/load round trips.
    - Asm: encoding and decoding are inverse. Merkle, Receipts: roots are the tree hashes of
      what was appended, and the log always has room to finish.
    - Alu, Flow: exactness of arithmetic and jumps, with the precise panic conditions. WideInt:
      every wide handler, for both widths and all operand forms, computes the exact result that
      the instruction stands for, given that the integer crates keep to their documentation.
    - TxCodec: encoding and decoding of transactions are inverse. TxId: ids bind exactly the
      signed part. TxSign: the signature check is sound, and complete for signed transactions.
      TxFee: gas and fee bounds are ordered and exact. Gtf: every selector yields the field it
      names, as a value or as an address at which the memory holds its bytes.
    - TxBalances: free balances are exactly what the inputs bring less the fee limit and the
      outputs, and settlement pays out exactly what is left. Init: initialization establishes the
      invariants from which Run starts and the memory layout on which Gtf relies, and points the
      program counter at the code of the script or predicate. Reuse: runs do not depend on what
      the machine ran before.
    - Predicates: verification ends, accepts exactly if every predicate is owned, returns one and
      uses its declared gas, and the parallel verdict is the sequential one. Checked: all checks
      together accept exactly the transactions that are valid, funded, authorised and whose
      predicates accept, with the id and the free balances as metadata.
    - MerkleProof, BinaryTree: binary proofs are complete, and sound up to explicit collisions;
      the stored tree, reloaded at any point, equals the tree built at once.
    - TxValidity: the check accepts exactly the valid transactions. TxExec: publications refine
      a once-only registry, and completed uploads match their root. Upload: splitting and
      uploading all parts restores the bytecode; parts that mix two proofs of one root do not
      have to.
    - Transact: executing a checked script always ends, without a host panic, and accounts for
      every coin of the inputs, whose settled outputs the memory holds.

    ** Conventions and bounds

    A [w]-bit integer is a [Z] in range. [outcome] has three results: [Ok], [Err] and [Crash];
    [Crash] is a panic of the host (index out of range, failed [expect] or [assert]), and the
    theorems show that it does not happen. The debug assertion of
    [checked_nth_root], which release builds drop, is left out. Assumptions on code outside the repository are
    parameters: SHA-256 ([Sha256]), the floating-point power of [MROO] ([Powf], with
    [PowfLaw]), the crates ethnum and primitive_types for integers of 256 and 512 bits ([WideLib],
    with [WideLaws]), the curves and hashes of the cryptographic instructions ([Crypto]), the epoch of
    the clock library ([Tai64]), the signature scheme ([SigScheme], [SigLaws]), the capacity that
    the allocator gives to a vector ([Alloc], [ExactAlloc]), the storage backend
    ([StorageLaws], [StateLaws]), and, for predicates run in parallel, the executor, which
    answers in any order, and the pool of memories. The gas schedule is arbitrary; termination assumes that every cost is at least one. Loops over
    data are structural; [ilog_loop] has fuel for 64 digits, [mth_aux] for the number of
    leaves, and the program loops take fuel, for which the gas plus one is shown to be enough.

    ** Not modelled, and the plan

    Four instructions are not part of runs: TRO and GTF (the machine state does not hold the
    transaction; the handler of GTF is modelled by itself, in Gtf), ECAL (handlers supplied by
    the embedder) and EPAR (allocates a buffer of a program-supplied size before checking it).
    A run that reaches one of them stops in the state [Unmodelled]; the theorems about executions
    cover the iterations before it, and those about whole runs have it as one of their outcomes
    ([unmodelled] in Run names the four). The verifier [AttemptContinue], the debugger, profiler, state diffs,
    bindings, serde implementations, transaction builders and compression are left out; the
    wrappers of fuel-crypto call third-party primitives, which are parameters. Of the transactor,
    the fields with the last state or error and the accessors are left out, and nothing is said
    of the machine after an execution that fails. *)

From Stdlib Require Export ZArith Lia ZifyBool.
From Stdlib Require Import Strings.Byte.
From stdpp Require Export base tactics numbers list option gmap sets.

#[global] Set Default Goal Selector "!".
#[global] Open Scope Z_scope.

(** ** Results

    A Rust function returning [Result<A, E>] can end in three ways: [Ok], [Err], or with a
    host-level panic ([expect], [unwrap], [unreachable!], an index out of range). *)
Inductive outcome (E A : Type) : Type :=
| Ok (a : A)
| Err (e : E)
| Crash.
Arguments Ok {E A} _.
Arguments Err {E A} _.
Arguments Crash {E A}.

Definition obind {E A B} (x : outcome E A) (f : A -> outcome E B) : outcome E B :=
  match x with
  | Ok a => f a
  | Err e => Err e
  | Crash => Crash
  end.

Definition omap_err {E F A} (f : E -> F) (x : outcome E A) : outcome F A :=
  match x with
  | Ok a => Ok a
  | Err e => Err (f e)
  | Crash => Crash
  end.

(** [o.ok_or(e)?] *)
Definition ok_or {E A} (o : option A) (e : E) : outcome E A :=
  match o with
  | Some a => Ok a
  | None => Err e
  end.

(** [o.expect(..)] *)
Definition expect {E A} (o : option A) : outcome E A :=
  match o with
  | Some a => Ok a
  | None => Crash
  end.

Declare Scope outcome_scope.
Delimit Scope outcome_scope with out.
Notation "'let?' x ':=' c 'in' k" := (obind c (fun x => k))
  (at level 10, x name, c at level 100, k at level 200) : outcome_scope.
Notation "'let?' ' p ':=' c 'in' k" := (obind c (fun x => match x with p => k end))
  (at level 10, p pattern, c at level 100, k at level 200) : outcome_scope.
#[global] Open Scope outcome_scope.

Lemma obind_Ok_inv {E A B} (x : outcome E A) (f : A -> outcome E B) b :
  obind x f = Ok b -> exists a, x = Ok a /\ f a = Ok b.
Proof. destruct x; simpl; [eauto | discriminate | discriminate]. Qed.

(** ** Machine integers

    A [w]-bit unsigned integer is a [Z] in [0, 2^w). [usize] is 64 bits wide. *)
Abbreviation U64 := 18446744073709551616 (only parsing).
Abbreviation U128 := 340282366920938463463374607431768211456 (only parsing).
Abbreviation U32 := 4294967296 (only parsing).

Definition u64_ok (x : Z) : Prop := 0 <= x < U64.
Definition uw_ok (w x : Z) : Prop := 0 <= x < 2 ^ w.

Definition checked_add (a b : Z) : option Z := if a + b <? U64 then Some (a + b) else None.
Definition checked_sub (a b : Z) : option Z := if b <=? a then Some (a - b) else None.
Definition checked_div (a b : Z) : option Z := if b =? 0 then None else Some (a / b).
Definition saturating_add (a b : Z) : Z := Z.min (a + b) (U64 - 1).
Definition saturating_sub (a b : Z) : Z := Z.max (a - b) 0.
Definition saturating_mul (a b : Z) : Z := Z.min (a * b) (U64 - 1).
Definition bool_word (b : bool) : Z := if b then 1 else 0.

(** [overflowing_*] on a [w]-bit type: the wrapped result and the overflow flag. *)
Definition overflowing_add (w a b : Z) : Z * bool := ((a + b) mod 2 ^ w, 2 ^ w <=? a + b).
Definition overflowing_sub (w a b : Z) : Z * bool := ((a - b) mod 2 ^ w, a <? b).
Definition overflowing_mul (w a b : Z) : Z * bool := ((a * b) mod 2 ^ w, 2 ^ w <=? a * b).

(** [checked_shl] and [checked_shr] take a [u32] count and fail when it reaches the width. *)
Definition checked_shl (w a n : Z) : option Z :=
  if n <? w then Some (Z.shiftl a n mod 2 ^ w) else None.
Definition checked_shr (w a n : Z) : option Z :=
  if n <? w then Some (Z.shiftr a n) else None.

(** [u32::try_from] of a wider value. *)
Definition try_u32 (a : Z) : option Z := if a <? U32 then Some a else None.
(** Bitwise complement at width [w]. *)
Definition lnot_w (w a : Z) : Z := 2 ^ w - 1 - a.

(** ** Tactics *)

Create HintDb fuel discriminated.

(** Turn boolean comparisons in hypotheses and goal into propositions. *)
Ltac zbool :=
  repeat match goal with
  | H : (_ && _)%bool = true |- _ => apply andb_prop in H; destruct H
  | H : (_ && _)%bool = false |- _ => apply andb_false_iff in H
  | H : (_ || _)%bool = true |- _ => apply orb_true_iff in H
  | H : (_ || _)%bool = false |- _ => apply orb_false_iff in H; destruct H
  | H : negb _ = true |- _ => apply negb_true_iff in H
  | H : negb _ = false |- _ => apply negb_false_iff in H
  | H : (_ <? _) = true |- _ => apply Z.ltb_lt in H
  | H : (_ <? _) = false |- _ => apply Z.ltb_ge in H
  | H : (_ <=? _) = true |- _ => apply Z.leb_le in H
  | H : (_ <=? _) = false |- _ => apply Z.leb_gt in H
  | H : (_ =? _) = true |- _ => apply Z.eqb_eq in H
  | H : (_ =? _) = false |- _ => apply Z.eqb_neq in H
  end.

(** Case split on the boolean test of an [if] in the goal. *)
Ltac case_if :=
  match goal with
  | |- context [if ?b then _ else _] =>
      let E := fresh "E" in destruct b eqn:E; zbool
  end.

Ltac case_if_in H :=
  match type of H with
  | context [if ?b then _ else _] =>
      let E := fresh "E" in destruct b eqn:E; zbool
  end.

(** ** Checked arithmetic *)

Lemma checked_sub_Some a b : b <= a -> checked_sub a b = Some (a - b).
Proof. intros. unfold checked_sub. case_if; [done|lia]. Qed.

Lemma checked_sub_None a b : a < b -> checked_sub a b = None.
Proof. intros. unfold checked_sub. case_if; [lia|done]. Qed.

Lemma checked_add_Some a b : a + b < U64 -> checked_add a b = Some (a + b).
Proof. intros. unfold checked_add. case_if; [done|lia]. Qed.

Lemma checked_add_None a b : U64 <= a + b -> checked_add a b = None.
Proof. intros. unfold checked_add. case_if; [lia|done]. Qed.

(** ** Lists indexed by [Z] *)

Section ZList.
Context {A : Type}.
Implicit Types (l d : list A) (a b i : Z).

Definition zlen l : Z := Z.of_nat (length l).

Definition zget l i : option A := if i <? 0 then None else l !! Z.to_nat i.

Definition zslice l a b : list A := take (Z.to_nat (b - a)) (drop (Z.to_nat a) l).

(** [&v[a..b]]: panics unless [a <= b <= v.len()]. *)
Definition index_range {E} l a b : outcome E (list A) :=
  if (0 <=? a) && (a <=? b) && (b <=? zlen l) then Ok (zslice l a b) else Crash.

(** The list with the elements from [a] on overwritten by [d]. *)
Definition zsplice l a d : list A :=
  take (Z.to_nat a) l ++ d ++ drop (Z.to_nat a + length d) l.

(** [Vec::truncate] and [Vec::resize]. *)
Definition vec_truncate l (n : Z) : list A := take (Z.to_nat n) l.
Definition vec_resize l (n : Z) (x : A) : list A :=
  take (Z.to_nat n) l ++ replicate (Z.to_nat (n - zlen l)) x.

Lemma zlen_nonneg l : 0 <= zlen l.
Proof. unfold zlen. lia. Qed.

Lemma zlen_app l d : zlen (l ++ d) = zlen l + zlen d.
Proof. unfold zlen. rewrite length_app. lia. Qed.

Lemma zlen_replicate n (x : A) : zlen (replicate n x) = Z.of_nat n.
Proof. unfold zlen. by rewrite length_replicate. Qed.

Lemma zlen_slice l a b : 0 <= a <= b -> b <= zlen l -> zlen (zslice l a b) = b - a.
Proof. unfold zlen, zslice. rewrite length_take, length_drop. lia. Qed.

Lemma zlen_splice l a d : 0 <= a -> a + zlen d <= zlen l -> zlen (zsplice l a d) = zlen l.
Proof.
  unfold zlen, zsplice. rewrite !length_app, length_take, length_drop. lia.
Qed.

Lemma zlen_truncate l n : 0 <= n -> zlen (vec_truncate l n) = Z.min n (zlen l).
Proof. unfold zlen, vec_truncate. rewrite length_take. lia. Qed.

Lemma zlen_resize l n x : 0 <= n -> zlen (vec_resize l n x) = n.
Proof.
  unfold zlen, vec_resize. rewrite length_app, length_take, length_replicate.
  unfold zlen. lia.
Qed.

Lemma zget_Some_len l i x : zget l i = Some x -> 0 <= i < zlen l.
Proof.
  unfold zget, zlen. case_if; [done|]. intros H%lookup_lt_Some. lia.
Qed.

Lemma zget_is_Some l i : 0 <= i < zlen l -> is_Some (zget l i).
Proof.
  unfold zget, zlen. intros H. case_if; [lia|]. apply lookup_lt_is_Some. lia.
Qed.

Lemma zget_None l i : zget l i = None <-> i < 0 \/ zlen l <= i.
Proof.
  split.
  - intros H. destruct (decide (0 <= i < zlen l)) as [Hi|]; [|lia].
    apply zget_is_Some in Hi as [x Hx]. congruence.
  - unfold zget, zlen. intros H. case_if; [done|]. apply lookup_ge_None. lia.
Qed.

Lemma zget_slice l a b i :
  0 <= a <= b -> b <= zlen l ->
  zget (zslice l a b) i = if (0 <=? i) && (i <? b - a) then zget l (a + i) else None.
Proof.
  intros Ha Hb. case_if; zbool.
  - unfold zget, zslice. rewrite !(proj2 (Z.ltb_ge _ _)) by lia.
    rewrite lookup_take_lt, lookup_drop by lia. f_equal. lia.
  - apply zget_None. rewrite zlen_slice by lia. lia.
Qed.

Lemma zget_splice l a d i :
  0 <= a -> a + zlen d <= zlen l ->
  zget (zsplice l a d) i =
    if (a <=? i) && (i <? a + zlen d) then zget d (i - a) else zget l i.
Proof.
  intros Ha Hd. unfold zget, zsplice, zlen in *.
  case_if; zbool; repeat case_if; try lia; try done.
  - rewrite lookup_app_r by (rewrite length_take; lia).
    rewrite lookup_app_l by (rewrite length_take; lia).
    f_equal. rewrite length_take. lia.
  - destruct (decide (i < a)).
    + rewrite lookup_app_l by (rewrite length_take; lia). apply lookup_take_lt. lia.
    + rewrite lookup_app_r by (rewrite length_take; lia).
      rewrite lookup_app_r by (rewrite length_take; lia).
      rewrite lookup_drop. f_equal. rewrite length_take. lia.
Qed.

Lemma zget_truncate l n i :
  0 <= n -> zget (vec_truncate l n) i = if i <? n then zget l i else None.
Proof.
  intros Hn. unfold zget, vec_truncate. repeat case_if; try done.
  - apply lookup_take_lt. lia.
  - apply lookup_take_ge. lia.
Qed.

Lemma zget_replicate n (x : A) i :
  zget (replicate n x) i = if (0 <=? i) && (i <? Z.of_nat n) then Some x else None.
Proof.
  case_if; zbool.
  - unfold zget. case_if; [lia|]. apply lookup_replicate_2. lia.
  - apply zget_None. rewrite zlen_replicate. lia.
Qed.

Lemma zget_app l d i :
  zget (l ++ d) i = if i <? zlen l then zget l i else zget d (i - zlen l).
Proof.
  unfold zget, zlen. repeat case_if; try lia; try done.
  - rewrite lookup_app_l by lia. done.
  - rewrite lookup_app_r by lia. f_equal. lia.
Qed.

Lemma zget_resize l n x i :
  0 <= n ->
  zget (vec_resize l n x) i =
    if (0 <=? i) && (i <? n) then (if i <? zlen l then zget l i else Some x) else None.
Proof.
  intros Hn. unfold vec_resize.
  change (take (Z.to_nat n) l) with (vec_truncate l n).
  rewrite zget_app, zlen_truncate, zget_truncate, zget_replicate by lia.
  pose proof (zlen_nonneg l).
  repeat case_if; try done; try (exfalso; lia); apply zget_None; lia.
Qed.

Lemma zlist_eq l d :
  zlen l = zlen d -> (forall i, 0 <= i < zlen l -> zget l i = zget d i) -> l = d.
Proof.
  intros Hlen H. apply (list_eq_same_length l d (length l)); [unfold zlen in *; lia|done|].
  intros i x y Hi Hx Hy. unfold zlen in *. specialize (H (Z.of_nat i) ltac:(lia)).
  unfold zget in H. rewrite !(proj2 (Z.ltb_ge _ _)), !Nat2Z.id in H by lia. congruence.
Qed.

Lemma index_range_Ok {E} l a b :
  0 <= a <= b -> b <= zlen l -> index_range (E := E) l a b = Ok (zslice l a b).
Proof.
  intros. unfold index_range.
  rewrite !(proj2 (Z.leb_le _ _)) by lia. done.
Qed.
End ZList.

#[export] Hint Resolve zlen_nonneg : fuel.
Create Rewrite HintDb zlen.
#[export] Hint Rewrite @zlen_app @zlen_replicate : zlen.

(** ** Bytes and big-endian encodings *)

#[export] Instance byte_eq_dec : EqDecision byte := Byte.byte_eq_dec.

Definition byte_val (b : byte) : Z := Z.of_N (Byte.to_N b).

Definition byte_of (z : Z) : byte :=
  match Byte.of_N (Z.to_N (z mod 256)) with
  | Some b => b
  | None => x00
  end.

Lemma byte_val_range b : 0 <= byte_val b < 256.
Proof. unfold byte_val. pose proof (Byte.to_N_bounded b). lia. Qed.

Lemma byte_val_of z : byte_val (byte_of z) = z mod 256.
Proof.
  unfold byte_of, byte_val. pose proof (Z.mod_pos_bound z 256 ltac:(lia)).
  destruct (Byte.of_N (Z.to_N (z mod 256))) as [b|] eqn:E.
  - rewrite (Byte.to_of_N _ E). lia.
  - apply Byte.of_N_None_iff in E. lia.
Qed.

Lemma byte_of_val b : byte_of (byte_val b) = b.
Proof.
  unfold byte_of, byte_val. pose proof (Byte.to_N_bounded b).
  rewrite Z.mod_small by lia. rewrite N2Z.id, Byte.of_to_N. done.
Qed.

Lemma byte_val_inj b c : byte_val b = byte_val c -> b = c.
Proof. intros H. rewrite <- (byte_of_val b), <- (byte_of_val c). by f_equal. Qed.

#[export] Instance byte_countable : Countable byte :=
  inj_countable' byte_val byte_of byte_of_val.

(** [uN::to_be_bytes] (for [n] bytes) and [uN::from_be_bytes]. *)
Fixpoint to_be_bytes (n : nat) (z : Z) : list byte :=
  match n with
  | O => []
  | S m => byte_of (z / 256 ^ Z.of_nat m) :: to_be_bytes m z
  end.

Fixpoint from_be_bytes (l : list byte) : Z :=
  match l with
  | [] => 0
  | b :: t => byte_val b * 256 ^ Z.of_nat (length t) + from_be_bytes t
  end.

Lemma length_to_be_bytes n z : length (to_be_bytes n z) = n.
Proof. induction n; simpl; lia. Qed.

Lemma zlen_to_be_bytes n z : zlen (to_be_bytes n z) = Z.of_nat n.
Proof. unfold zlen. by rewrite length_to_be_bytes. Qed.

Lemma from_be_bytes_range l : 0 <= from_be_bytes l < 256 ^ Z.of_nat (length l).
Proof.
  induction l as [|b t IH]; simpl; [lia|].
  pose proof (byte_val_range b).
  rewrite Nat2Z.inj_succ, Z.pow_succ_r by lia. nia.
Qed.

Lemma to_from_be_bytes_mod n z : from_be_bytes (to_be_bytes n z) = z mod 256 ^ Z.of_nat n.
Proof.
  induction n as [|n IH].
  - simpl. by rewrite Z.mod_1_r.
  - cbn [to_be_bytes from_be_bytes].
    rewrite byte_val_of, length_to_be_bytes, IH.
    rewrite Nat2Z.inj_succ, Z.pow_succ_r by lia.
    rewrite (Z.mul_comm 256), Z.rem_mul_r by lia. lia.
Qed.

Lemma to_from_be_bytes n z :
  0 <= z < 256 ^ Z.of_nat n -> from_be_bytes (to_be_bytes n z) = z.
Proof. intros. rewrite to_from_be_bytes_mod. by apply Z.mod_small. Qed.

Lemma to_be_bytes_mod n z k :
  Z.of_nat n <= k -> to_be_bytes n (z mod 256 ^ k) = to_be_bytes n z.
Proof.
  induction n as [|n IH]; intros Hk; [done|]. cbn [to_be_bytes].
  f_equal; [|apply IH; lia].
  apply byte_val_inj. rewrite !byte_val_of.
  rewrite <- (Z.mod_small (z mod 256 ^ k / 256 ^ Z.of_nat n) (256 ^ (k - Z.of_nat n))).
  - replace (256 ^ k) with (256 ^ Z.of_nat n * 256 ^ (k - Z.of_nat n))
      by (rewrite <- Z.pow_add_r; f_equal; lia).
    rewrite Z.rem_mul_r by lia.
    rewrite Z.add_comm, Z.mul_comm, Z.div_add_l by lia.
    rewrite (Z.div_small (z mod _)) by (apply Z.mod_pos_bound; lia).
    rewrite Z.add_0_r, Z.mod_mod by lia.
    replace (256 ^ (k - Z.of_nat n)) with (256 * 256 ^ (k - Z.of_nat n - 1))
      by (rewrite <- Z.pow_succ_r by lia; f_equal; lia).
    rewrite Z.rem_mul_r by lia.
    rewrite (Z.mul_comm 256), Z_mod_plus_full. by rewrite Z.mod_mod by lia.
  - split; [apply Z.div_pos; [apply Z.mod_pos_bound|]; lia|].
    apply Z.div_lt_upper_bound; [lia|]. rewrite <- Z.pow_add_r by lia.
    replace (Z.of_nat n + (k - Z.of_nat n)) with k by lia. apply Z.mod_pos_bound. lia.
Qed.

Lemma from_to_be_bytes l : to_be_bytes (length l) (from_be_bytes l) = l.
Proof.
  induction l as [|b t IH]; [done|]. cbn [length to_be_bytes from_be_bytes].
  pose proof (from_be_bytes_range t). f_equal.
  - rewrite Z.div_add_l by lia. rewrite Z.div_small by lia.
    rewrite Z.add_0_r. apply byte_of_val.
  - rewrite <- (to_be_bytes_mod _ _ (Z.of_nat (length t))) by lia.
    rewrite Z.add_comm, Z_mod_plus_full, Z.mod_small by lia. done.
Qed.
