(* ===== verification/Asm.v ===== *)
(** * The instruction set: [fuel-asm]

    Register ids, immediates, the instruction table, packing and unpacking of operands,
    decoding of raw instructions, the immediate arguments of the wide-integer instructions,
    and the panic reasons (src/fuel-asm/src). *)

From Stdlib Require Import Strings.Byte.
From S2P Require Import Prelude.

(** ** Register ids and immediates (lib.rs)

    A [RegId] or [ImmN] is the integer it wraps; the constructors mask it. *)
Module RegId.

Definition ZERO : Z := 0.
Definition ONE : Z := 1.
Definition OF : Z := 2.
Definition PC : Z := 3.
Definition SSP : Z := 4.
Definition SP : Z := 5.
Definition FP : Z := 6.
Definition HP : Z := 7.
Definition ERR : Z := 8.
Definition GGAS : Z := 9.
Definition CGAS : Z := 10.
Definition BAL : Z := 11.
Definition IS : Z := 12.
Definition RET : Z := 13.
Definition RETL : Z := 14.
Definition FLAG : Z := 15.
Definition WRITABLE : Z := 16.

Definition new (u : Z) : Z := Z.land u 63.
Definition new_checked (u : Z) : option Z := if new u =? u then Some (new u) else None.
Definition ok (r : Z) : Prop := 0 <= r < 64.
End RegId.

Definition Imm06_new (u : Z) : Z := Z.land u 63.
Definition Imm12_new (u : Z) : Z := Z.land u 4095.
Definition Imm18_new (u : Z) : Z := Z.land u 262143.
Definition Imm24_new (u : Z) : Z := Z.land u 16777215.

(** ** Flags *)
Definition UNSAFEMATH : Z := 1.
Definition WRAPPING : Z := 2.
(** [Flags::from_bits]: no bit outside the declared ones. *)
Definition flags_from_bits (a : Z) : option Z :=
  if Z.land a (Z.lor UNSAFEMATH WRAPPING) =? a then Some a else None.
(** [Flags::from_bits_truncate]. *)
Definition flags_from_bits_truncate (a : Z) : Z := Z.land a (Z.lor UNSAFEMATH WRAPPING).
Definition flags_contains (fl bit : Z) : bool := Z.land fl bit =? bit.

(** ** Opcodes: the table of [impl_instructions!] *)
Module Opcode.

Inductive t : Type :=
  | ADD | AND | DIV | EQ | EXP | GT | LT | MLOG | MROO | MOD | MOVE | MUL | NOT | OR | SLL 
  | SRL | SUB | XOR | MLDV | RET | RETD | ALOC | MCL | MCP | MEQ | BHSH | BHEI | BURN 
  | CALL | CCP | CROO | CSIZ | CB | LDC | LOG | LOGD | MINT | RVRT | SCWQ | SRW | SRWQ 
  | SWW | SWWQ | TR | TRO | ECK1 | ECR1 | ED19 | K256 | S256 | TIME | NOOP | FLAG | BAL 
  | JMP | JNE | SMO | ADDI | ANDI | DIVI | EXPI | MODI | MULI | ORI | SLLI | SRLI | SUBI 
  | XORI | JNEI | LB | LW | SB | SW | MCPI | GTF | LQW | LHW | SQW | SHW | MCLI | GM | MOVI 
  | JNZI | JMPF | JMPB | JNZF | JNZB | JNEF | JNEB | JI | CFEI | CFSI | CFE | CFS | PSHL 
  | PSHH | POPL | POPH | JAL | WDCM | WQCM | WDOP | WQOP | WDML | WQML | WDDV | WQDV | WDMD 
  | WQMD | WDAM | WQAM | WDMM | WQMM | ECAL | BSIZ | BLDD | ECOP | EPAR.

(** The discriminant, [op as u8]. *)
Definition to_u8 (o : t) : Z :=
  match o with
  | ADD => 0x10 | AND => 0x11 | DIV => 0x12 | EQ => 0x13 | EXP => 0x14 | GT => 0x15 
  | LT => 0x16 | MLOG => 0x17 | MROO => 0x18 | MOD => 0x19 | MOVE => 0x1a | MUL => 0x1b 
  | NOT => 0x1c | OR => 0x1d | SLL => 0x1e | SRL => 0x1f | SUB => 0x20 | XOR => 0x21 
  | MLDV => 0x22 | RET => 0x24 | RETD => 0x25 | ALOC => 0x26 | MCL => 0x27 | MCP => 0x28 
  | MEQ => 0x29 | BHSH => 0x2a | BHEI => 0x2b | BURN => 0x2c | CALL => 0x2d | CCP => 0x2e 
  | CROO => 0x2f | CSIZ => 0x30 | CB => 0x31 | LDC => 0x32 | LOG => 0x33 | LOGD => 0x34 
  | MINT => 0x35 | RVRT => 0x36 | SCWQ => 0x37 | SRW => 0x38 | SRWQ => 0x39 | SWW => 0x3a 
  | SWWQ => 0x3b | TR => 0x3c | TRO => 0x3d | ECK1 => 0x3e | ECR1 => 0x3f | ED19 => 0x40 
  | K256 => 0x41 | S256 => 0x42 | TIME => 0x43 | NOOP => 0x47 | FLAG => 0x48 | BAL => 0x49 
  | JMP => 0x4a | JNE => 0x4b | SMO => 0x4c | ADDI => 0x50 | ANDI => 0x51 | DIVI => 0x52 
  | EXPI => 0x53 | MODI => 0x54 | MULI => 0x55 | ORI => 0x56 | SLLI => 0x57 | SRLI => 0x58 
  | SUBI => 0x59 | XORI => 0x5a | JNEI => 0x5b | LB => 0x5c | LW => 0x5d | SB => 0x5e 
  | SW => 0x5f | MCPI => 0x60 | GTF => 0x61 | LQW => 0x62 | LHW => 0x63 | SQW => 0x64 
  | SHW => 0x65 | MCLI => 0x70 | GM => 0x71 | MOVI => 0x72 | JNZI => 0x73 | JMPF => 0x74 
  | JMPB => 0x75 | JNZF => 0x76 | JNZB => 0x77 | JNEF => 0x78 | JNEB => 0x79 | JI => 0x90 
  | CFEI => 0x91 | CFSI => 0x92 | CFE => 0x93 | CFS => 0x94 | PSHL => 0x95 | PSHH => 0x96 
  | POPL => 0x97 | POPH => 0x98 | JAL => 0x99 | WDCM => 0xa0 | WQCM => 0xa1 | WDOP => 0xa2 
  | WQOP => 0xa3 | WDML => 0xa4 | WQML => 0xa5 | WDDV => 0xa6 | WQDV => 0xa7 | WDMD => 0xa8 
  | WQMD => 0xa9 | WDAM => 0xaa | WQAM => 0xab | WDMM => 0xac | WQMM => 0xad | ECAL => 0xb0 
  | BSIZ => 0xba | BLDD => 0xbb | ECOP => 0xbc | EPAR => 0xbe
  end.

(** [TryFrom<u8> for Opcode]. *)
Definition try_from (u : Z) : option t :=
  match u with
  | 0x10 => Some ADD | 0x11 => Some AND | 0x12 => Some DIV | 0x13 => Some EQ 
  | 0x14 => Some EXP | 0x15 => Some GT | 0x16 => Some LT | 0x17 => Some MLOG 
  | 0x18 => Some MROO | 0x19 => Some MOD | 0x1a => Some MOVE | 0x1b => Some MUL 
  | 0x1c => Some NOT | 0x1d => Some OR | 0x1e => Some SLL | 0x1f => Some SRL 
  | 0x20 => Some SUB | 0x21 => Some XOR | 0x22 => Some MLDV | 0x24 => Some RET 
  | 0x25 => Some RETD | 0x26 => Some ALOC | 0x27 => Some MCL | 0x28 => Some MCP 
  | 0x29 => Some MEQ | 0x2a => Some BHSH | 0x2b => Some BHEI | 0x2c => Some BURN 
  | 0x2d => Some CALL | 0x2e => Some CCP | 0x2f => Some CROO | 0x30 => Some CSIZ 
  | 0x31 => Some CB | 0x32 => Some LDC | 0x33 => Some LOG | 0x34 => Some LOGD 
  | 0x35 => Some MINT | 0x36 => Some RVRT | 0x37 => Some SCWQ | 0x38 => Some SRW 
  | 0x39 => Some SRWQ | 0x3a => Some SWW | 0x3b => Some SWWQ | 0x3c => Some TR 
  | 0x3d => Some TRO | 0x3e => Some ECK1 | 0x3f => Some ECR1 | 0x40 => Some ED19 
  | 0x41 => Some K256 | 0x42 => Some S256 | 0x43 => Some TIME | 0x47 => Some NOOP 
  | 0x48 => Some FLAG | 0x49 => Some BAL | 0x4a => Some JMP | 0x4b => Some JNE 
  | 0x4c => Some SMO | 0x50 => Some ADDI | 0x51 => Some ANDI | 0x52 => Some DIVI 
  | 0x53 => Some EXPI | 0x54 => Some MODI | 0x55 => Some MULI | 0x56 => Some ORI 
  | 0x57 => Some SLLI | 0x58 => Some SRLI | 0x59 => Some SUBI | 0x5a => Some XORI 
  | 0x5b => Some JNEI | 0x5c => Some LB | 0x5d => Some LW | 0x5e => Some SB 
  | 0x5f => Some SW | 0x60 => Some MCPI | 0x61 => Some GTF | 0x62 => Some LQW 
  | 0x63 => Some LHW | 0x64 => Some SQW | 0x65 => Some SHW | 0x70 => Some MCLI 
  | 0x71 => Some GM | 0x72 => Some MOVI | 0x73 => Some JNZI | 0x74 => Some JMPF 
  | 0x75 => Some JMPB | 0x76 => Some JNZF | 0x77 => Some JNZB | 0x78 => Some JNEF 
  | 0x79 => Some JNEB | 0x90 => Some JI | 0x91 => Some CFEI | 0x92 => Some CFSI 
  | 0x93 => Some CFE | 0x94 => Some CFS | 0x95 => Some PSHL | 0x96 => Some PSHH 
  | 0x97 => Some POPL | 0x98 => Some POPH | 0x99 => Some JAL | 0xa0 => Some WDCM 
  | 0xa1 => Some WQCM | 0xa2 => Some WDOP | 0xa3 => Some WQOP | 0xa4 => Some WDML 
  | 0xa5 => Some WQML | 0xa6 => Some WDDV | 0xa7 => Some WQDV | 0xa8 => Some WDMD 
  | 0xa9 => Some WQMD | 0xaa => Some WDAM | 0xab => Some WQAM | 0xac => Some WDMM 
  | 0xad => Some WQMM | 0xb0 => Some ECAL | 0xba => Some BSIZ | 0xbb => Some BLDD 
  | 0xbc => Some ECOP | 0xbe => Some EPAR
  | _ => None
  end.

(** [Opcode::is_predicate_allowed]. *)
Definition is_predicate_allowed (o : t) : bool :=
  match o with
  | ADD | AND | DIV | EQ | EXP | GT | LT | MLOG | MROO | MOD | MOVE | MUL | NOT | OR | SLL 
  | SRL | SUB | XOR | WDCM | WQCM | WDOP | WQOP | WDML | WQML | WDDV | WQDV | WDMD | WQMD 
  | WDAM | WQAM | WDMM | WQMM | PSHH | PSHL | POPH | POPL | RET | ALOC | MCL | MCP | MEQ 
  | ECK1 | ECR1 | ED19 | K256 | S256 | NOOP | FLAG | ADDI | ANDI | DIVI | EXPI | MODI 
  | MULI | MLDV | ORI | SLLI | SRLI | SUBI | XORI | JNEI | LB | LQW | LHW | LW | SB | SQW 
  | SHW | SW | MCPI | MCLI | GM | MOVI | JNZI | JI | JMP | JNE | JMPF | JMPB | JNZF | JNZB 
  | JNEF | JNEB | JAL | CFEI | CFSI | CFE | CFS | GTF | LDC | BSIZ | BLDD | ECOP | EPAR => true
  | _ => false
  end.

Lemma try_from_to_u8 o : try_from (to_u8 o) = Some o.
Proof. by destruct o. Qed.

Lemma to_u8_inj a b : to_u8 a = to_u8 b -> a = b.
Proof.
  intros H. apply (f_equal try_from) in H. rewrite !try_from_to_u8 in H. congruence.
Qed.

Lemma to_u8_range o : 0 <= to_u8 o < 256.
Proof. destruct o; split; (reflexivity || discriminate). Qed.

Lemma to_u8_try_from (b : byte) o :
  try_from (byte_val b) = Some o -> to_u8 o = byte_val b.
Proof. destruct b; intros [=]; subst; reflexivity. Qed.

#[export] Instance t_eq_dec : EqDecision t.
Proof.
  refine (fun a b => cast_if (decide (to_u8 a = to_u8 b)));
    [by apply to_u8_inj | congruence].
Defined.
End Opcode.

(** ** Operand layouts

    The bracketed part of each row of the table; every macro of macros.rs
    dispatches on it. *)
Inductive Layout : Type :=
  LNone | LR | LRR | LRRR | LRRRR | LRRRI06 | LRRI12 | LRI18 | LI24.

Definition layout (o : Opcode.t) : Layout :=
  match o with
  | Opcode.ADD | Opcode.AND | Opcode.DIV | Opcode.EQ | Opcode.EXP | Opcode.GT | Opcode.LT 
  | Opcode.MLOG | Opcode.MROO | Opcode.MOD | Opcode.MUL | Opcode.OR | Opcode.SLL 
  | Opcode.SRL | Opcode.SUB | Opcode.XOR | Opcode.MCP | Opcode.SCWQ | Opcode.SRW 
  | Opcode.SWW | Opcode.TR | Opcode.ECK1 | Opcode.ECR1 | Opcode.K256 | Opcode.S256 
  | Opcode.BAL | Opcode.JNE => LRRR
  | Opcode.MOVE | Opcode.NOT | Opcode.RETD | Opcode.MCL | Opcode.BHSH | Opcode.BURN 
  | Opcode.CROO | Opcode.CSIZ | Opcode.MINT | Opcode.TIME | Opcode.BSIZ => LRR
  | Opcode.MLDV | Opcode.MEQ | Opcode.CALL | Opcode.CCP | Opcode.LOG | Opcode.LOGD 
  | Opcode.SRWQ | Opcode.SWWQ | Opcode.TRO | Opcode.ED19 | Opcode.SMO | Opcode.WDMD 
  | Opcode.WQMD | Opcode.WDAM | Opcode.WQAM | Opcode.WDMM | Opcode.WQMM | Opcode.ECAL 
  | Opcode.BLDD | Opcode.ECOP | Opcode.EPAR => LRRRR
  | Opcode.RET | Opcode.ALOC | Opcode.BHEI | Opcode.CB | Opcode.RVRT | Opcode.FLAG 
  | Opcode.JMP | Opcode.CFE | Opcode.CFS => LR
  | Opcode.LDC | Opcode.JNEF | Opcode.JNEB | Opcode.WDCM | Opcode.WQCM | Opcode.WDOP 
  | Opcode.WQOP | Opcode.WDML | Opcode.WQML | Opcode.WDDV | Opcode.WQDV => LRRRI06
  | Opcode.NOOP => LNone
  | Opcode.ADDI | Opcode.ANDI | Opcode.DIVI | Opcode.EXPI | Opcode.MODI | Opcode.MULI 
  | Opcode.ORI | Opcode.SLLI | Opcode.SRLI | Opcode.SUBI | Opcode.XORI | Opcode.JNEI 
  | Opcode.LB | Opcode.LW | Opcode.SB | Opcode.SW | Opcode.MCPI | Opcode.GTF | Opcode.LQW 
  | Opcode.LHW | Opcode.SQW | Opcode.SHW | Opcode.JNZF | Opcode.JNZB | Opcode.JAL => LRRI12
  | Opcode.MCLI | Opcode.GM | Opcode.MOVI | Opcode.JNZI | Opcode.JMPF | Opcode.JMPB => LRI18
  | Opcode.JI | Opcode.CFEI | Opcode.CFSI | Opcode.PSHL | Opcode.PSHH | Opcode.POPL 
  | Opcode.POPH => LI24
  end.

(** ** Panic reasons (panic_reason.rs) *)
Inductive PanicReason : Type :=
  | UnknownPanicReason | Revert | OutOfGas | TransactionValidity | MemoryOverflow 
  | ArithmeticOverflow | ContractNotFound | MemoryOwnership | NotEnoughBalance 
  | ExpectedInternalContext | AssetIdNotFound | InputNotFound | OutputNotFound 
  | WitnessNotFound | TransactionMaturity | InvalidMetadataIdentifier 
  | MalformedCallStructure | ReservedRegisterNotWritable | InvalidFlags 
  | InvalidImmediateValue | ExpectedCoinInput | EcalError | MemoryWriteOverlap 
  | ContractNotInInputs | InternalBalanceOverflow | ContractMaxSize 
  | ExpectedUnallocatedStack | MaxStaticContractsReached | TransferAmountCannotBeZero 
  | ExpectedOutputVariable | ExpectedParentInternalContext | PredicateReturnedNonOne 
  | ContractIdAlreadyDeployed | ContractMismatch | MessageDataTooLong | ArithmeticError 
  | ContractInstructionNotAllowed | TransferZeroCoins | InvalidInstruction 
  | MemoryNotExecutable | PolicyIsNotSet | PolicyNotFound | TooManyReceipts 
  | BalanceOverflow | InvalidBlockHeight | TooManySlots | ExpectedNestedCaller 
  | MemoryGrowthOverlap | UninitalizedMemoryAccess | OverridingConsensusParameters 
  | UnknownStateTransactionBytecodeRoot | OverridingStateTransactionBytecode 
  | BytecodeAlreadyUploaded | ThePartIsNotSequentiallyConnected | BlobNotFound 
  | BlobIdAlreadyUploaded | GasCostNotDefined | UnsupportedCurveId 
  | UnsupportedOperationType | InvalidEllipticCurvePoint | InputContractDoesNotExist 
  | StorageSlotsNotFound | ProofInUploadNotFound | InvalidUpgradePurposeType 
  | CanNotGetGasPriceInPredicate.

Definition PanicReason_to_u8 (r : PanicReason) : Z :=
  match r with
  | UnknownPanicReason => 0x00 | Revert => 0x01 | OutOfGas => 0x02 
  | TransactionValidity => 0x03 | MemoryOverflow => 0x04 | ArithmeticOverflow => 0x05 
  | ContractNotFound => 0x06 | MemoryOwnership => 0x07 | NotEnoughBalance => 0x08 
  | ExpectedInternalContext => 0x09 | AssetIdNotFound => 0x0a | InputNotFound => 0x0b 
  | OutputNotFound => 0x0c | WitnessNotFound => 0x0d | TransactionMaturity => 0x0e 
  | InvalidMetadataIdentifier => 0x0f | MalformedCallStructure => 0x10 
  | ReservedRegisterNotWritable => 0x11 | InvalidFlags => 0x12 
  | InvalidImmediateValue => 0x13 | ExpectedCoinInput => 0x14 | EcalError => 0x15 
  | MemoryWriteOverlap => 0x16 | ContractNotInInputs => 0x17 
  | InternalBalanceOverflow => 0x18 | ContractMaxSize => 0x19 
  | ExpectedUnallocatedStack => 0x1a | MaxStaticContractsReached => 0x1b 
  | TransferAmountCannotBeZero => 0x1c | ExpectedOutputVariable => 0x1d 
  | ExpectedParentInternalContext => 0x1e | PredicateReturnedNonOne => 0x1f 
  | ContractIdAlreadyDeployed => 0x20 | ContractMismatch => 0x21 
  | MessageDataTooLong => 0x22 | ArithmeticError => 0x23 
  | ContractInstructionNotAllowed => 0x24 | TransferZeroCoins => 0x25 
  | InvalidInstruction => 0x26 | MemoryNotExecutable => 0x27 | PolicyIsNotSet => 0x28 
  | PolicyNotFound => 0x29 | TooManyReceipts => 0x2a | BalanceOverflow => 0x2b 
  | InvalidBlockHeight => 0x2c | TooManySlots => 0x2d | ExpectedNestedCaller => 0x2e 
  | MemoryGrowthOverlap => 0x2f | UninitalizedMemoryAccess => 0x30 
  | OverridingConsensusParameters => 0x31 | UnknownStateTransactionBytecodeRoot => 0x32 
  | OverridingStateTransactionBytecode => 0x33 | BytecodeAlreadyUploaded => 0x34 
  | ThePartIsNotSequentiallyConnected => 0x35 | BlobNotFound => 0x36 
  | BlobIdAlreadyUploaded => 0x37 | GasCostNotDefined => 0x38 | UnsupportedCurveId => 0x39 
  | UnsupportedOperationType => 0x3a | InvalidEllipticCurvePoint => 0x3b 
  | InputContractDoesNotExist => 0x3c | StorageSlotsNotFound => 0x3d 
  | ProofInUploadNotFound => 0x3e | InvalidUpgradePurposeType => 0x3f 
  | CanNotGetGasPriceInPredicate => 0x40
  end.

(** [From<u8> for PanicReason]. *)
Definition PanicReason_from_u8 (u : Z) : PanicReason :=
  match u with
  | 0x00 => UnknownPanicReason | 0x01 => Revert | 0x02 => OutOfGas 
  | 0x03 => TransactionValidity | 0x04 => MemoryOverflow | 0x05 => ArithmeticOverflow 
  | 0x06 => ContractNotFound | 0x07 => MemoryOwnership | 0x08 => NotEnoughBalance 
  | 0x09 => ExpectedInternalContext | 0x0a => AssetIdNotFound | 0x0b => InputNotFound 
  | 0x0c => OutputNotFound | 0x0d => WitnessNotFound | 0x0e => TransactionMaturity 
  | 0x0f => InvalidMetadataIdentifier | 0x10 => MalformedCallStructure 
  | 0x11 => ReservedRegisterNotWritable | 0x12 => InvalidFlags 
  | 0x13 => InvalidImmediateValue | 0x14 => ExpectedCoinInput | 0x15 => EcalError 
  | 0x16 => MemoryWriteOverlap | 0x17 => ContractNotInInputs 
  | 0x18 => InternalBalanceOverflow | 0x19 => ContractMaxSize 
  | 0x1a => ExpectedUnallocatedStack | 0x1b => MaxStaticContractsReached 
  | 0x1c => TransferAmountCannotBeZero | 0x1d => ExpectedOutputVariable 
  | 0x1e => ExpectedParentInternalContext | 0x1f => PredicateReturnedNonOne 
  | 0x20 => ContractIdAlreadyDeployed | 0x21 => ContractMismatch 
  | 0x22 => MessageDataTooLong | 0x23 => ArithmeticError 
  | 0x24 => ContractInstructionNotAllowed | 0x25 => TransferZeroCoins 
  | 0x26 => InvalidInstruction | 0x27 => MemoryNotExecutable | 0x28 => PolicyIsNotSet 
  | 0x29 => PolicyNotFound | 0x2a => TooManyReceipts | 0x2b => BalanceOverflow 
  | 0x2c => InvalidBlockHeight | 0x2d => TooManySlots | 0x2e => ExpectedNestedCaller 
  | 0x2f => MemoryGrowthOverlap | 0x30 => UninitalizedMemoryAccess 
  | 0x31 => OverridingConsensusParameters | 0x32 => UnknownStateTransactionBytecodeRoot 
  | 0x33 => OverridingStateTransactionBytecode | 0x34 => BytecodeAlreadyUploaded 
  | 0x35 => ThePartIsNotSequentiallyConnected | 0x36 => BlobNotFound 
  | 0x37 => BlobIdAlreadyUploaded | 0x38 => GasCostNotDefined | 0x39 => UnsupportedCurveId 
  | 0x3a => UnsupportedOperationType | 0x3b => InvalidEllipticCurvePoint 
  | 0x3c => InputContractDoesNotExist | 0x3d => StorageSlotsNotFound 
  | 0x3e => ProofInUploadNotFound | 0x3f => InvalidUpgradePurposeType 
  | 0x40 => CanNotGetGasPriceInPredicate
  | _ => UnknownPanicReason
  end.

Lemma PanicReason_from_to_u8 r : PanicReason_from_u8 (PanicReason_to_u8 r) = r.
Proof. by destruct r. Qed.

#[export] Instance PanicReason_eq_dec : EqDecision PanicReason.
Proof.
  refine (fun a b => cast_if (decide (PanicReason_to_u8 a = PanicReason_to_u8 b))).
  - rewrite <- (PanicReason_from_to_u8 a), <- (PanicReason_from_to_u8 b). by f_equal.
  - congruence.
Defined.

(** ** Packing operands into instruction bytes (pack.rs) *)

(** [[u8; 3]]: the three bytes after the opcode. *)
Definition bytes3 : Type := byte * byte * byte.

(** [u8x3_from_u8x4(u.to_be_bytes())]. *)
Definition u8x3_from_u32 (u : Z) : bytes3 :=
  (byte_of (u / 65536), byte_of (u / 256), byte_of u).

Definition u32_from_ra (r : Z) : Z := Z.shiftl r 18.
Definition u32_from_rb (r : Z) : Z := Z.shiftl r 12.
Definition u32_from_rc (r : Z) : Z := Z.shiftl r 6.
Definition u32_from_ra_rb (ra rb : Z) : Z := Z.lor (u32_from_ra ra) (u32_from_rb rb).
Definition u32_from_ra_rb_rc (ra rb rc : Z) : Z :=
  Z.lor (u32_from_ra_rb ra rb) (u32_from_rc rc).
Definition u32_from_ra_rb_rc_rd (ra rb rc rd : Z) : Z :=
  Z.lor (u32_from_ra_rb_rc ra rb rc) rd.
Definition u32_from_ra_rb_rc_imm06 (ra rb rc imm : Z) : Z :=
  Z.lor (u32_from_ra_rb_rc ra rb rc) imm.
Definition u32_from_ra_rb_imm12 (ra rb imm : Z) : Z := Z.lor (u32_from_ra_rb ra rb) imm.
Definition u32_from_ra_imm18 (ra imm : Z) : Z := Z.lor (u32_from_ra ra) imm.

Definition bytes_from_ra (ra : Z) : bytes3 := u8x3_from_u32 (u32_from_ra ra).
Definition bytes_from_ra_rb (ra rb : Z) : bytes3 := u8x3_from_u32 (u32_from_ra_rb ra rb).
Definition bytes_from_ra_rb_rc (ra rb rc : Z) : bytes3 :=
  u8x3_from_u32 (u32_from_ra_rb_rc ra rb rc).
Definition bytes_from_ra_rb_rc_rd (ra rb rc rd : Z) : bytes3 :=
  u8x3_from_u32 (u32_from_ra_rb_rc_rd ra rb rc rd).
Definition bytes_from_ra_rb_rc_imm06 (ra rb rc imm : Z) : bytes3 :=
  u8x3_from_u32 (u32_from_ra_rb_rc_imm06 ra rb rc imm).
Definition bytes_from_ra_rb_imm12 (ra rb imm : Z) : bytes3 :=
  u8x3_from_u32 (u32_from_ra_rb_imm12 ra rb imm).
Definition bytes_from_ra_imm18 (ra imm : Z) : bytes3 :=
  u8x3_from_u32 (u32_from_ra_imm18 ra imm).
Definition bytes_from_imm24 (imm : Z) : bytes3 := u8x3_from_u32 imm.

(** ** Unpacking (unpack.rs) *)

(** [u32::from_be_bytes(u8x4_from_u8x3(bs))]: the opcode byte is zeroed. *)
Definition u32_from_u8x3 (bs : bytes3) : Z :=
  let '(a, b, c) := bs in from_be_bytes [x00; a; b; c].

Definition as_u8 (u : Z) : Z := u mod 256.
Definition as_u16 (u : Z) : Z := u mod 65536.

Definition ra_from_u32 (u : Z) : Z := RegId.new (as_u8 (Z.shiftr u 18)).
Definition rb_from_u32 (u : Z) : Z := RegId.new (as_u8 (Z.shiftr u 12)).
Definition rc_from_u32 (u : Z) : Z := RegId.new (as_u8 (Z.shiftr u 6)).
Definition rd_from_u32 (u : Z) : Z := RegId.new (as_u8 u).
Definition imm06_from_u32 (u : Z) : Z := Imm06_new (as_u8 u).
Definition imm12_from_u32 (u : Z) : Z := Imm12_new (as_u16 u).
Definition imm18_from_u32 (u : Z) : Z := Imm18_new u.
Definition imm24_from_u32 (u : Z) : Z := Imm24_new u.

Definition ra_from_bytes (bs : bytes3) : Z := ra_from_u32 (u32_from_u8x3 bs).
Definition rb_from_bytes (bs : bytes3) : Z := rb_from_u32 (u32_from_u8x3 bs).
Definition rc_from_bytes (bs : bytes3) : Z := rc_from_u32 (u32_from_u8x3 bs).
Definition rd_from_bytes (bs : bytes3) : Z := rd_from_u32 (u32_from_u8x3 bs).
Definition imm06_from_bytes (bs : bytes3) : Z := imm06_from_u32 (u32_from_u8x3 bs).
Definition imm12_from_bytes (bs : bytes3) : Z := imm12_from_u32 (u32_from_u8x3 bs).
Definition imm18_from_bytes (bs : bytes3) : Z := imm18_from_u32 (u32_from_u8x3 bs).
Definition imm24_from_bytes (bs : bytes3) : Z := imm24_from_u32 (u32_from_u8x3 bs).

Definition ra_rb_from_bytes (bs : bytes3) : Z * Z := (ra_from_bytes bs, rb_from_bytes bs).
Definition ra_rb_rc_from_bytes (bs : bytes3) : Z * Z * Z :=
  (ra_from_bytes bs, rb_from_bytes bs, rc_from_bytes bs).
Definition ra_rb_rc_rd_from_bytes (bs : bytes3) : Z * Z * Z * Z :=
  (ra_from_bytes bs, rb_from_bytes bs, rc_from_bytes bs, rd_from_bytes bs).
Definition ra_rb_rc_imm06_from_bytes (bs : bytes3) : Z * Z * Z * Z :=
  (ra_from_bytes bs, rb_from_bytes bs, rc_from_bytes bs, imm06_from_bytes bs).
Definition ra_rb_imm12_from_bytes (bs : bytes3) : Z * Z * Z :=
  (ra_from_bytes bs, rb_from_bytes bs, imm12_from_bytes bs).
Definition ra_imm18_from_bytes (bs : bytes3) : Z * Z :=
  (ra_from_bytes bs, imm18_from_bytes bs).

(** ** Instructions (macros.rs)

    [Instruction::OP(op::OP([a, b, c]))] is the opcode with its three bytes. *)
Record Instruction : Type := mkInstruction {
  opcode : Opcode.t;
  op_bytes : bytes3
}.

(** The operands of an instruction, one constructor per layout. *)
Inductive Parts : Type :=
| PNone
| PR (ra : Z)
| PRR (ra rb : Z)
| PRRR (ra rb rc : Z)
| PRRRR (ra rb rc rd : Z)
| PRRRI06 (ra rb rc imm : Z)
| PRRI12 (ra rb imm : Z)
| PRI18 (ra imm : Z)
| PI24 (imm : Z).

(** [$Op::new]; [None] when the operands do not have the layout of the opcode, a type
    error in the source. *)
Definition op_new (o : Opcode.t) (p : Parts) : option Instruction :=
  match layout o, p with
  | LNone, PNone => Some (mkInstruction o (x00, x00, x00))
  | LR, PR ra => Some (mkInstruction o (bytes_from_ra ra))
  | LRR, PRR ra rb => Some (mkInstruction o (bytes_from_ra_rb ra rb))
  | LRRR, PRRR ra rb rc => Some (mkInstruction o (bytes_from_ra_rb_rc ra rb rc))
  | LRRRR, PRRRR ra rb rc rd => Some (mkInstruction o (bytes_from_ra_rb_rc_rd ra rb rc rd))
  | LRRRI06, PRRRI06 ra rb rc imm =>
      Some (mkInstruction o (bytes_from_ra_rb_rc_imm06 ra rb rc imm))
  | LRRI12, PRRI12 ra rb imm => Some (mkInstruction o (bytes_from_ra_rb_imm12 ra rb imm))
  | LRI18, PRI18 ra imm => Some (mkInstruction o (bytes_from_ra_imm18 ra imm))
  | LI24, PI24 imm => Some (mkInstruction o (bytes_from_imm24 imm))
  | _, _ => None
  end.

(** [$Op::unpack]. *)
Definition op_unpack (i : Instruction) : Parts :=
  let bs := op_bytes i in
  match layout (opcode i) with
  | LNone => PNone
  | LR => PR (ra_from_bytes bs)
  | LRR => let '(ra, rb) := ra_rb_from_bytes bs in PRR ra rb
  | LRRR => let '(ra, rb, rc) := ra_rb_rc_from_bytes bs in PRRR ra rb rc
  | LRRRR => let '(ra, rb, rc, rd) := ra_rb_rc_rd_from_bytes bs in PRRRR ra rb rc rd
  | LRRRI06 =>
      let '(ra, rb, rc, imm) := ra_rb_rc_imm06_from_bytes bs in PRRRI06 ra rb rc imm
  | LRRI12 => let '(ra, rb, imm) := ra_rb_imm12_from_bytes bs in PRRI12 ra rb imm
  | LRI18 => let '(ra, imm) := ra_imm18_from_bytes bs in PRI18 ra imm
  | LI24 => PI24 (imm24_from_bytes bs)
  end.

(** [$Op::reserved_part_is_zero]. *)
Definition reserved_part_is_zero (i : Instruction) : bool :=
  let bs := op_bytes i in
  match layout (opcode i) with
  | LR => let '(_, imm) := ra_imm18_from_bytes bs in imm =? 0
  | LRR => let '(_, _, imm) := ra_rb_imm12_from_bytes bs in imm =? 0
  | LRRR => let '(_, _, _, imm) := ra_rb_rc_imm06_from_bytes bs in imm =? 0
  | LRRRR | LRRRI06 | LRRI12 | LRI18 | LI24 => true
  | LNone => bool_decide (bs = (x00, x00, x00))
  end.

(** [Instruction::reg_ids]. *)
Definition reg_ids (i : Instruction) : list (option Z) :=
  match op_unpack i with
  | PR ra => [Some ra; None; None; None]
  | PRR ra rb => [Some ra; Some rb; None; None]
  | PRRR ra rb rc => [Some ra; Some rb; Some rc; None]
  | PRRRR ra rb rc rd => [Some ra; Some rb; Some rc; Some rd]
  | PRRRI06 ra rb rc _ => [Some ra; Some rb; Some rc; None]
  | PRRI12 ra rb _ => [Some ra; Some rb; None; None]
  | PRI18 ra _ => [Some ra; None; None; None]
  | PNone | PI24 _ => [None; None; None; None]
  end.

(** [From<Instruction> for [u8; 4]]. *)
Definition to_bytes (i : Instruction) : list byte :=
  let '(a, b, c) := op_bytes i in [byte_of (Opcode.to_u8 (opcode i)); a; b; c].

(** [TryFrom<[u8; 4]> for Instruction]; [None] is [InvalidOpcode], also when the argument
    is not four bytes long, which its type excludes. *)
Definition try_from (raw : list byte) : option Instruction :=
  match raw with
  | [op; a; b; c] =>
      match Opcode.try_from (byte_val op) with
      | Some o =>
          let i := mkInstruction o (a, b, c) in
          if negb (reserved_part_is_zero i) then None else Some i
      | None => None
      end
  | _ => None
  end.

(** [Instruction::SIZE]. *)
Definition Instruction_SIZE : Z := 4.

(** ** Immediate arguments of the wide-integer instructions (args/wideint.rs) *)
Module CompareMode.
Inductive t : Type := EQ | NE | LT | GT | LTE | GTE | LZC.
Definition to_u8 (m : t) : Z :=
  match m with EQ => 0 | NE => 1 | LT => 2 | GT => 3 | LTE => 4 | GTE => 5 | LZC => 6 end.
Definition from_repr (u : Z) : option t :=
  match u with
  | 0 => Some EQ | 1 => Some NE | 2 => Some LT | 3 => Some GT | 4 => Some LTE
  | 5 => Some GTE | 6 => Some LZC | _ => None
  end.
End CompareMode.

Module MathOp.
Inductive t : Type := ADD | SUB | NOT | OR | XOR | AND | SHL | SHR.
Definition to_u8 (m : t) : Z :=
  match m with
  | ADD => 0 | SUB => 1 | NOT => 2 | OR => 3 | XOR => 4 | AND => 5 | SHL => 6 | SHR => 7
  end.
Definition from_repr (u : Z) : option t :=
  match u with
  | 0 => Some ADD | 1 => Some SUB | 2 => Some NOT | 3 => Some OR | 4 => Some XOR
  | 5 => Some AND | 6 => Some SHL | 7 => Some SHR | _ => None
  end.
End MathOp.

Record CompareArgs : Type := mkCompareArgs { mode : CompareMode.t; cmp_indirect_rhs : bool }.
Record MathArgs : Type := mkMathArgs { op : MathOp.t; math_indirect_rhs : bool }.
Record MulArgs : Type := mkMulArgs { indirect_lhs : bool; mul_indirect_rhs : bool }.
Record DivArgs : Type := mkDivArgs { div_indirect_rhs : bool }.

Definition bit_set (bits n : Z) : bool := Z.land (Z.shiftr bits n) 1 =? 1.

Definition CompareArgs_to_imm (a : CompareArgs) : Z :=
  Z.lor (CompareMode.to_u8 (mode a)) (Z.shiftl (bool_word (cmp_indirect_rhs a)) 5).
Definition CompareArgs_from_imm (bits : Z) : option CompareArgs :=
  let indirect_rhs := bit_set bits 5 in
  let reserved := Z.land (Z.shiftr bits 3) 3 in
  if negb (reserved =? 0) then None
  else m ← CompareMode.from_repr (Z.land bits 7); Some (mkCompareArgs m indirect_rhs).

Definition MathArgs_to_imm (a : MathArgs) : Z :=
  Z.lor (MathOp.to_u8 (op a)) (Z.shiftl (bool_word (math_indirect_rhs a)) 5).
Definition MathArgs_from_imm (bits : Z) : option MathArgs :=
  let indirect_rhs := bit_set bits 5 in
  o ← MathOp.from_repr (Z.land bits 31); Some (mkMathArgs o indirect_rhs).

Definition MulArgs_to_imm (a : MulArgs) : Z :=
  Z.lor (Z.lor 0 (Z.shiftl (bool_word (indirect_lhs a)) 4))
    (Z.shiftl (bool_word (mul_indirect_rhs a)) 5).
Definition MulArgs_from_imm (bits : Z) : option MulArgs :=
  let indirect_lhs := bit_set bits 4 in
  let indirect_rhs := bit_set bits 5 in
  if negb (Z.land bits 15 =? 0) then None else Some (mkMulArgs indirect_lhs indirect_rhs).

Definition DivArgs_to_imm (a : DivArgs) : Z :=
  Z.lor 0 (Z.shiftl (bool_word (div_indirect_rhs a)) 5).
Definition DivArgs_from_imm (bits : Z) : option DivArgs :=
  let indirect_rhs := bit_set bits 5 in
  if negb (Z.land bits 31 =? 0) then None else Some (mkDivArgs indirect_rhs).

(** ** Lemmas on packing *)

Lemma lor_add x y n :
  0 <= n -> x mod 2 ^ n = 0 -> 0 <= y < 2 ^ n -> Z.lor x y = x + y.
Proof.
  intros Hn Hx Hy.
  enough (Z.land x y = 0) by (pose proof (Z.add_lor_land x y); lia).
  apply Z.bits_inj'. intros i Hi. rewrite Z.land_spec, Z.bits_0.
  destruct (decide (i < n)).
  - rewrite <- (Z.mod_pow2_bits_low x n i), Hx, Z.bits_0 by lia. done.
  - rewrite <- (Z.mod_small y (2 ^ n)), (Z.mod_pow2_bits_high y n i) by lia.
    apply andb_false_r.
Qed.

Lemma land_ones_mod x n m : 0 <= n -> m = 2 ^ n - 1 -> Z.land x m = x mod 2 ^ n.
Proof. intros Hn ->. rewrite <- Z.land_ones, Z.ones_equiv by lia. done. Qed.

Lemma u32_bytes_roundtrip u : u32_from_u8x3 (u8x3_from_u32 u) = u mod 16777216.
Proof.
  unfold u32_from_u8x3, u8x3_from_u32. cbn -[Z.mul Z.pow]. rewrite !byte_val_of.
  change (byte_val x00) with 0. cbn -[Z.mul Z.div Z.modulo].
  Z.div_mod_to_equations. lia.
Qed.

Lemma bytes_u32_roundtrip bs : u8x3_from_u32 (u32_from_u8x3 bs) = bs.
Proof.
  destruct bs as [[a b] c]. unfold u32_from_u8x3, u8x3_from_u32.
  cbn -[Z.mul Z.pow]. change (byte_val x00) with 0.
  pose proof (byte_val_range a). pose proof (byte_val_range b). pose proof (byte_val_range c).
  f_equal; [f_equal|]; apply byte_val_inj; rewrite byte_val_of; cbn -[Z.mul Z.div Z.modulo];
    Z.div_mod_to_equations; lia.
Qed.

Lemma u32_from_u8x3_range bs : 0 <= u32_from_u8x3 bs < 16777216.
Proof.
  destruct bs as [[a b] c]. unfold u32_from_u8x3. cbn -[Z.mul Z.pow].
  change (byte_val x00) with 0.
  pose proof (byte_val_range a). pose proof (byte_val_range b). pose proof (byte_val_range c).
  lia.
Qed.

(** Operand values within the range of their type. *)
Definition imm_ok (n : Z) (x : Z) : Prop := 0 <= x < 2 ^ n.
Definition parts_ok (p : Parts) : Prop :=
  match p with
  | PNone => True
  | PR ra => RegId.ok ra
  | PRR ra rb => RegId.ok ra /\ RegId.ok rb
  | PRRR ra rb rc => RegId.ok ra /\ RegId.ok rb /\ RegId.ok rc
  | PRRRR ra rb rc rd => RegId.ok ra /\ RegId.ok rb /\ RegId.ok rc /\ RegId.ok rd
  | PRRRI06 ra rb rc imm => RegId.ok ra /\ RegId.ok rb /\ RegId.ok rc /\ imm_ok 6 imm
  | PRRI12 ra rb imm => RegId.ok ra /\ RegId.ok rb /\ imm_ok 12 imm
  | PRI18 ra imm => RegId.ok ra /\ imm_ok 18 imm
  | PI24 imm => imm_ok 24 imm
  end.

(** Rewrite packing and unpacking to sums, quotients and remainders. *)
Ltac unfold_unpack :=
  unfold op_unpack, ra_rb_from_bytes, ra_rb_rc_from_bytes, ra_rb_rc_rd_from_bytes,
    ra_rb_rc_imm06_from_bytes, ra_rb_imm12_from_bytes, ra_imm18_from_bytes,
    ra_from_bytes, rb_from_bytes, rc_from_bytes, rd_from_bytes, imm06_from_bytes,
    imm12_from_bytes, imm18_from_bytes, imm24_from_bytes, ra_from_u32, rb_from_u32,
    rc_from_u32, rd_from_u32, imm06_from_u32, imm12_from_u32, imm18_from_u32,
    imm24_from_u32, RegId.new, Imm06_new, Imm12_new, Imm18_new, Imm24_new, as_u8, as_u16 in *;
  rewrite ?(land_ones_mod _ 6), ?(land_ones_mod _ 12), ?(land_ones_mod _ 18),
    ?(land_ones_mod _ 24) in * by lia;
  rewrite ?Z.shiftr_div_pow2 in * by lia.

Ltac unfold_pack :=
  unfold bytes_from_ra, bytes_from_ra_rb, bytes_from_ra_rb_rc, bytes_from_ra_rb_rc_rd,
    bytes_from_ra_rb_rc_imm06, bytes_from_ra_rb_imm12, bytes_from_ra_imm18,
    bytes_from_imm24, u32_from_ra_rb_rc_rd, u32_from_ra_rb_rc_imm06, u32_from_ra_rb_imm12,
    u32_from_ra_imm18, u32_from_ra_rb_rc, u32_from_ra_rb, u32_from_ra, u32_from_rb,
    u32_from_rc in *;
  rewrite ?Z.shiftl_mul_pow2 in * by lia;
  rewrite ?(lor_add (_ * 2 ^ 18) (_ * 2 ^ 12) 18),
    ?(lor_add (_ * 2 ^ 18 + _ * 2 ^ 12) (_ * 2 ^ 6) 12),
    ?(lor_add (_ * 2 ^ 18 + _ * 2 ^ 12 + _ * 2 ^ 6) _ 6),
    ?(lor_add (_ * 2 ^ 18 + _ * 2 ^ 12) _ 12), ?(lor_add (_ * 2 ^ 18) _ 18) in *
    by (Z.div_mod_to_equations; lia).

Ltac div_mod_lia := cbn -[Z.mul Z.div Z.modulo Z.add]; Z.div_mod_to_equations; lia.

Lemma op_unpack_new o p i :
  parts_ok p -> op_new o p = Some i ->
  opcode i = o /\ op_unpack i = p /\ reserved_part_is_zero i = true.
Proof.
  intros Hp Hi. unfold op_new in Hi.
  destruct (layout o) eqn:L, p; try discriminate; injection Hi as <-;
    cbn [opcode]; unfold op_unpack, reserved_part_is_zero; cbn [opcode op_bytes];
    rewrite ?L; cbn [parts_ok] in Hp; unfold RegId.ok, imm_ok in Hp;
    (split; [done|split; [|try done]]).
  all: unfold_pack; unfold_unpack; rewrite ?u32_bytes_roundtrip.
  all: try (f_equal; div_mod_lia).
  all: try (apply Z.eqb_eq; div_mod_lia).
  all: done.
Qed.

Lemma op_unpack_ok i : parts_ok (op_unpack i).
Proof.
  unfold op_unpack. destruct (layout (opcode i)); cbn; unfold RegId.ok, imm_ok; unfold_unpack;
    repeat split; Z.div_mod_to_equations; lia.
Qed.

Lemma op_new_unpack i :
  reserved_part_is_zero i = true -> op_new (opcode i) (op_unpack i) = Some i.
Proof.
  destruct i as [o bs]. unfold reserved_part_is_zero, op_new, op_unpack. cbn [opcode op_bytes].
  pose proof (u32_from_u8x3_range bs) as Hr.
  destruct (layout o); cbn; intros H; zbool; do 2 f_equal.
  1: by apply bool_decide_eq_true in H.
  all: transitivity (u8x3_from_u32 (u32_from_u8x3 bs)); [|apply bytes_u32_roundtrip].
  all: remember (u32_from_u8x3 bs) as u eqn:Hu.
  all: unfold_unpack; rewrite <- ?Hu in *; unfold_pack; f_equal; div_mod_lia.
Qed.

Lemma to_bytes_try_from raw i : try_from raw = Some i -> to_bytes i = raw.
Proof.
  unfold try_from. destruct raw as [|op [|a [|b [|c [|]]]]]; try discriminate.
  destruct (Opcode.try_from (byte_val op)) as [o|] eqn:E; [|discriminate].
  case_if; [discriminate|]. intros [= <-]. unfold to_bytes. cbn.
  rewrite (Opcode.to_u8_try_from _ _ E), byte_of_val. done.
Qed.

Lemma try_from_to_bytes i :
  try_from (to_bytes i) = if reserved_part_is_zero i then Some i else None.
Proof.
  destruct i as [o [[a b] c]]. unfold to_bytes, try_from. cbn [opcode op_bytes].
  rewrite byte_val_of, Z.mod_small by apply Opcode.to_u8_range.
  rewrite Opcode.try_from_to_u8. by destruct (reserved_part_is_zero _).
Qed.

Lemma try_from_reserved raw i : try_from raw = Some i -> reserved_part_is_zero i = true.
Proof.
  intros H. pose proof (to_bytes_try_from _ _ H) as <-. rewrite try_from_to_bytes in H.
  by destruct (reserved_part_is_zero i).
Qed.

(** C27: assembling an instruction from in-range operands and decoding the resulting four
    bytes gives back the opcode and exactly the operands: no operand bits are lost or
    mixed, for every opcode and layout of the instruction table. *)
Theorem assemble_decode o p i :
  parts_ok p -> op_new o p = Some i ->
  exists i', try_from (to_bytes i) = Some i' /\ opcode i' = o /\ op_unpack i' = p.
Proof.
  intros Hp Hi. destruct (op_unpack_new _ _ _ Hp Hi) as (Ho & Hu & Hr).
  exists i. rewrite try_from_to_bytes, Hr. done.
Qed.

Lemma assemble_decode_witness :
  exists i', try_from [x50; x41; x0c; xff] = Some i' /\
    opcode i' = Opcode.ADDI /\ op_unpack i' = PRRI12 16 16 3327.
Proof.
  apply (assemble_decode Opcode.ADDI (PRRI12 16 16 3327)
           (mkInstruction Opcode.ADDI (x41, x0c, xff))).
  - cbn. unfold RegId.ok, imm_ok. lia.
  - reflexivity.
Defined.

(** C28: decoding is injective and canonical: a raw word that decodes is exactly the
    assembly of its own opcode and (in-range) operands, so no two raw words decode to the
    same instruction and reserved bits are never silently dropped. *)
Theorem decode_assemble raw i :
  try_from raw = Some i ->
  to_bytes i = raw /\ parts_ok (op_unpack i) /\ op_new (opcode i) (op_unpack i) = Some i.
Proof.
  intros H. split; [by apply to_bytes_try_from|]. split; [apply op_unpack_ok|].
  by apply op_new_unpack, (try_from_reserved raw).
Qed.

Lemma decode_assemble_witness :
  to_bytes (mkInstruction Opcode.JI (x00, x10, x00)) = [x90; x00; x10; x00] /\
  parts_ok (PI24 4096) /\
  op_new Opcode.JI (PI24 4096) = Some (mkInstruction Opcode.JI (x00, x10, x00)).
Proof.
  apply (decode_assemble [x90; x00; x10; x00] (mkInstruction Opcode.JI (x00, x10, x00))).
  reflexivity.
Defined.

(** C40: The immediates of WDCM/WQCM, WDOP/WQOP, WDML/WQML and WDDV/WQDV round-trip in both
    directions: decoding an encoded argument gives it back, and a 6-bit immediate that is
    accepted is exactly the encoding of what it decodes to (reserved bits are rejected). *)
Theorem wideint_args_roundtrip :
  (forall a, CompareArgs_from_imm (CompareArgs_to_imm a) = Some a) /\
  (forall a, MathArgs_from_imm (MathArgs_to_imm a) = Some a) /\
  (forall a, MulArgs_from_imm (MulArgs_to_imm a) = Some a) /\
  (forall a, DivArgs_from_imm (DivArgs_to_imm a) = Some a) /\
  Forall (fun bits =>
      from_option (fun a => CompareArgs_to_imm a = bits) True (CompareArgs_from_imm bits) /\
      from_option (fun a => MathArgs_to_imm a = bits) True (MathArgs_from_imm bits) /\
      from_option (fun a => MulArgs_to_imm a = bits) True (MulArgs_from_imm bits) /\
      from_option (fun a => DivArgs_to_imm a = bits) True (DivArgs_from_imm bits))
    (seqZ 0 64).
Proof.
  split_and!.
  - by intros [[] []].
  - by intros [[] []].
  - by intros [[] []].
  - by intros [[]].
  - repeat constructor.
Qed.
