(* ===== verification/Merkle.v ===== *)
(** * Binary Merkle roots

    Tree positions (src/fuel-merkle/src/common/position.rs), nodes and their hashes
    (binary/node.rs, binary/hash.rs) and the incremental [MerkleRootCalculator]
    (binary/root_calculator.rs), which the VM uses for the receipts root; proof that it
    computes the recursive Merkle tree hash of its leaves. *)

From Stdlib Require Import Strings.Byte.
From S2P Require Import Prelude.

(** SHA-256 is a third-party function. *)
Class Sha256 := sha256 : list byte -> list byte.

(** ** Positions *)
Module Position.

Inductive Side : Type := Left | Right.
Inductive GetNodeError : Type := IsLeaf | CannotExist.

(** [u64::trailing_zeros], with the width as fuel. *)
Fixpoint trailing_zeros (n : nat) (z : Z) : Z :=
  match n with
  | O => 0
  | S n' => if Z.odd z then 0 else 1 + trailing_zeros n' (z / 2)
  end.

Definition from_leaf_index (index : Z) : option Z :=
  if index * 2 <? U64 then Some (index * 2) else None.

Definition height (p : Z) : Z := trailing_zeros 64 (lnot_w 64 p).

Definition is_leaf (p : Z) : bool := p mod 2 =? 0.
Definition is_node (p : Z) : bool := negb (is_leaf p).

Definition orientation (p : Z) : outcome GetNodeError Side :=
  let? shift := ok_or (checked_shl 64 1 (height p + 1)) CannotExist in
  Ok (if Z.land p shift =? 0 then Right else Left).

Definition parent (p : Z) : outcome GetNodeError Z :=
  let? shift := ok_or (checked_shl 64 1 (height p)) CannotExist in
  let? o := orientation p in
  match o with
  | Left => ok_or (checked_sub p shift) CannotExist
  | Right => ok_or (checked_add p shift) CannotExist
  end.

Definition child (p : Z) (side : Side) : outcome GetNodeError Z :=
  if negb (is_node p) then Err IsLeaf else
  let? h := ok_or (checked_sub (height p) 1) CannotExist in
  let? shift := ok_or (checked_shl 64 1 h) CannotExist in
  match side with
  | Left => ok_or (checked_sub p shift) CannotExist
  | Right => ok_or (checked_add p shift) CannotExist
  end.

Lemma trailing_zeros_pow (n : nat) (a h : Z) :
  0 <= h < Z.of_nat n -> Z.odd a = true -> trailing_zeros n (a * 2 ^ h) = h.
Proof.
  revert h. induction n as [|n IH]; intros h Hh Ha; [lia|]. cbn [trailing_zeros].
  destruct (decide (h = 0)) as [->|].
  - by rewrite Z.mul_1_r, Ha.
  - replace (2 ^ h) with (2 * 2 ^ (h - 1)) by (rewrite <- Z.pow_succ_r by lia; f_equal; lia).
    rewrite Z.mul_assoc, (Z.mul_comm a 2), <- Z.mul_assoc.
    rewrite Z.odd_mul. cbn. rewrite (Z.mul_comm 2), Z.div_mul by lia.
    rewrite IH by (done || lia). lia.
Qed.

(** The [k]-th position (from the left) of height [h]. *)
Definition pos (k h : Z) : Z := k * 2 ^ (h + 1) + 2 ^ h - 1.

Lemma height_eq (k h : Z) :
  0 <= h < 64 -> 0 <= k -> pos k h < U64 -> height (pos k h) = h.
Proof.
  intros Hh Hk Hlt. unfold height, lnot_w, pos.
  replace (2 ^ 64 - 1 - (k * 2 ^ (h + 1) + 2 ^ h - 1))
    with ((2 ^ (64 - h) - 2 * k - 1) * 2 ^ h).
  - apply trailing_zeros_pow; [lia|].
    replace (2 ^ (64 - h)) with (2 * 2 ^ (63 - h))
      by (rewrite <- Z.pow_succ_r by lia; f_equal; lia).
    replace (2 * 2 ^ (63 - h) - 2 * k - 1) with (2 * (2 ^ (63 - h) - k - 1) + 1) by lia.
    apply Z.odd_odd.
  - rewrite Z.pow_add_r by lia.
    replace (2 ^ 64) with (2 ^ (64 - h) * 2 ^ h) by (rewrite <- Z.pow_add_r by lia; f_equal; lia).
    lia.
Qed.

Lemma pow2_succ h : 0 <= h -> 2 ^ (h + 1) = 2 * 2 ^ h.
Proof. intros. by rewrite Z.pow_add_r, Z.mul_comm by lia. Qed.

Lemma pos_pow_lt k h : 0 <= h -> 0 <= k -> pos k h < U64 -> 2 ^ h <= U64.
Proof. unfold pos. intros. nia. Qed.

Lemma checked_shl_1 h : 0 <= h < 64 -> checked_shl 64 1 h = Some (2 ^ h).
Proof.
  intros Hh. unfold checked_shl. case_if; [|lia]. rewrite Z.shiftl_1_l, Z.mod_small; [done|].
  split; [lia|]. apply Z.pow_lt_mono_r; lia.
Qed.

(** The bit above the height is the parity of the index within the level. *)
Lemma orientation_pos k h :
  0 <= h < 63 -> 0 <= k -> pos k h < U64 ->
  orientation (pos k h) = Ok (if Z.even k then Right else Left).
Proof.
  intros Hh Hk Hlt. unfold orientation. rewrite height_eq, checked_shl_1 by (done || lia).
  cbn. f_equal. assert (Hb : Z.land (pos k h) (2 ^ (h + 1)) =
    if Z.even k then 0 else 2 ^ (h + 1)).
  { apply Z.bits_inj'. intros n Hn. rewrite Z.land_spec, Z.pow2_bits_eqb by lia.
    destruct (Z.eqb_spec (h + 1) n) as [<-|Hne].
    - rewrite andb_true_r, Z.testbit_odd, Z.shiftr_div_pow2 by lia. unfold pos.
      rewrite <- Z.add_sub_assoc, Z.div_add_l by lia.
      rewrite Z.div_small, Z.add_0_r, <- Z.negb_even by (rewrite pow2_succ by lia; lia).
      destruct (Z.even k); cbn; [by rewrite Z.bits_0|]. by rewrite Z.pow2_bits_true by lia.
    - rewrite andb_false_r. destruct (Z.even k); [by rewrite Z.bits_0|].
      by rewrite Z.pow2_bits_false. }
  rewrite Hb. destruct (Z.even k); cbn; [done|]. case_if; [lia|done].
Qed.

Lemma parent_pos k h :
  0 <= h < 63 -> 0 <= k -> pos k h < U64 -> pos (k / 2) (h + 1) < U64 ->
  parent (pos k h) = Ok (pos (k / 2) (h + 1)).
Proof.
  intros Hh Hk Hlt Hlt'. unfold parent.
  rewrite height_eq, checked_shl_1, orientation_pos by (done || lia). cbn [ok_or obind].
  pose proof (Z.div_mod k 2 ltac:(lia)) as Hd. rewrite Zmod_odd in Hd.
  assert (Hp : 2 ^ (h + 1 + 1) = 4 * 2 ^ h) by (rewrite !pow2_succ by lia; lia).
  unfold pos in *. rewrite Hp, pow2_succ in * by lia. rewrite <- Z.negb_even in Hd.
  destruct (Z.even k); cbn in Hd.
  - rewrite checked_add_Some by nia. cbn. f_equal. nia.
  - rewrite checked_sub_Some by nia. cbn. f_equal. nia.
Qed.

Lemma child_pos k h side :
  0 < h < 64 -> 0 <= k -> pos k h < U64 ->
  pos (match side with Left => 2 * k | Right => 2 * k + 1 end) (h - 1) < U64 ->
  child (pos k h) side = Ok (pos (match side with Left => 2 * k | Right => 2 * k + 1 end) (h - 1)).
Proof.
  intros Hh Hk Hlt Hlt'. unfold child.
  assert (Hp : 2 ^ h = 2 * 2 ^ (h - 1)) by (rewrite <- pow2_succ by lia; f_equal; lia).
  replace (is_node (pos k h)) with true.
  2:{ symmetry. unfold is_node, is_leaf, pos. apply negb_true_iff, Z.eqb_neq.
      rewrite pow2_succ, Hp by lia.
      replace (k * (2 * (2 * 2 ^ (h - 1))) + 2 * 2 ^ (h - 1) - 1)
        with (1 + (k * 2 * 2 ^ (h - 1) + 2 ^ (h - 1) - 1) * 2) by lia.
      rewrite Z_mod_plus_full. done. }
  cbn [negb]. rewrite height_eq by (done || lia). rewrite checked_sub_Some by lia.
  cbn [ok_or obind]. rewrite checked_shl_1 by lia. cbn [ok_or obind].
  unfold pos in *. replace (h - 1 + 1) with h in * by lia.
  rewrite pow2_succ, Hp in * by lia.
  destruct side; [rewrite checked_sub_Some by nia|rewrite checked_add_Some by nia];
    cbn; f_equal; nia.
Qed.
End Position.

(** ** Nodes *)

Section Merkle.
Context `{Sha256}.

Record Node : Type := mkNode { position : Z; hash : list byte }.

Definition PREFIX_NODE : byte := x01.
Definition PREFIX_LEAF : byte := x00.

Definition empty_sum : list byte :=
  [xe3; xb0; xc4; x42; x98; xfc; x1c; x14; x9a; xfb; xf4; xc8; x99;
   x6f; xb9; x24; x27; xae; x41; xe4; x64; x9b; x93; x4c; xa4; x95;
   x99; x1b; x78; x52; xb8; x55].
Definition node_sum (lhs_data rhs_data : list byte) : list byte :=
  sha256 ([PREFIX_NODE] ++ lhs_data ++ rhs_data).
Definition leaf_sum (data : list byte) : list byte := sha256 ([PREFIX_LEAF] ++ data).

Definition create_leaf (index : Z) (data : list byte) : option Node :=
  match Position.from_leaf_index index with
  | Some p => Some (mkNode p (leaf_sum data))
  | None => None
  end.
Definition create_node (p : Z) (left_child right_child : Node) : Node :=
  mkNode p (node_sum (hash left_child) (hash right_child)).
Definition node_height (n : Node) : Z := Position.height (position n).

(** ** [MerkleRootCalculator]

    The stack of nodes, top first. *)
Definition MerkleRootCalculator := list Node.

Definition calculator_new : MerkleRootCalculator := [].

(** The loop of [push_with_callback] on the stack [rhs :: stack]. *)
Fixpoint propagate_changes (rhs : Node) (stack : list Node)
  : outcome Position.GetNodeError MerkleRootCalculator :=
  match stack with
  | lhs :: rest =>
      if negb (node_height rhs =? node_height lhs) then Ok (rhs :: stack)
      else
        let? parent_pos := Position.parent (position lhs) in
        propagate_changes (create_node parent_pos lhs rhs) rest
  | [] => Ok [rhs]
  end.

(** [push_with_callback] with a callback that does nothing. *)
Definition push_node (c : MerkleRootCalculator) (node : Node)
  : outcome Position.GetNodeError MerkleRootCalculator := propagate_changes node c.

(** [push]: both failures are [expect]s. *)
Definition calculator_push (c : MerkleRootCalculator) (data : list byte)
  : outcome Position.GetNodeError MerkleRootCalculator :=
  let? node := expect (create_leaf 0 data) in
  match push_node c node with
  | Ok c' => Ok c'
  | Err _ | Crash => Crash
  end.

(** The loop of [root] on the stack [right_child :: stack]. *)
Fixpoint root_loop (right_child : Node) (stack : list Node)
  : outcome Position.GetNodeError (list byte) :=
  match stack with
  | left_child :: rest =>
      match Position.parent (position left_child) with
      | Ok merged_pos => root_loop (create_node merged_pos left_child right_child) rest
      | Err _ | Crash => Crash
      end
  | [] => Ok (hash right_child)
  end.

Definition calculator_root (c : MerkleRootCalculator)
  : outcome Position.GetNodeError (list byte) :=
  match c with
  | [] => Ok empty_sum
  | n :: stack => root_loop n stack
  end.

Fixpoint calculator_push_all (c : MerkleRootCalculator) (leaves : list (list byte))
  : outcome Position.GetNodeError MerkleRootCalculator :=
  match leaves with
  | [] => Ok c
  | d :: rest => let? c' := calculator_push c d in calculator_push_all c' rest
  end.

Definition root_from_iterator (leaves : list (list byte))
  : outcome Position.GetNodeError (list byte) :=
  let? c := calculator_push_all calculator_new leaves in
  calculator_root c.

(** ** Reference: the Merkle tree hash

    The hash of a list splits it at the largest power of two below its length, as the
    comments of binary/hash.rs specify. *)
Definition split_point (n : Z) : Z := 2 ^ (Z.log2_up n - 1).

Fixpoint mth_aux (fuel : nat) (leaves : list (list byte)) : list byte :=
  match leaves with
  | [] => empty_sum
  | [d] => leaf_sum d
  | _ =>
      match fuel with
      | O => []
      | S f =>
          let k := Z.to_nat (split_point (zlen leaves)) in
          node_sum (mth_aux f (take k leaves)) (mth_aux f (drop k leaves))
      end
  end.

Definition mth (leaves : list (list byte)) : list byte := mth_aux (length leaves) leaves.

Lemma split_point_range n : 2 <= n -> 1 <= split_point n < n.
Proof.
  intros Hn. unfold split_point. pose proof (Z.log2_up_spec n ltac:(lia)) as Hs.
  pose proof (Z.log2_up_pos n ltac:(lia)).
  replace (Z.pred (Z.log2_up n)) with (Z.log2_up n - 1) in Hs by lia.
  assert (0 < 2 ^ (Z.log2_up n - 1)) by (apply Z.pow_pos_nonneg; lia). lia.
Qed.

Lemma split_point_pow n h : 0 <= h -> 2 ^ h < n <= 2 ^ (h + 1) -> split_point n = 2 ^ h.
Proof.
  intros Hh Hn. unfold split_point. f_equal.
  rewrite (Z.log2_up_unique n (h + 1)); [lia|lia|]. by replace (Z.pred (h + 1)) with h by lia.
Qed.

(** The fuel does not matter once it reaches the number of leaves. *)
Lemma mth_aux_fuel f g leaves :
  (length leaves <= f)%nat -> (length leaves <= g)%nat -> mth_aux f leaves = mth_aux g leaves.
Proof.
  revert g leaves. induction f as [|f IH]; intros g leaves Hf Hg.
  - destruct leaves; [|cbn in Hf; lia]. by destruct g.
  - destruct leaves as [|a [|b l]]; [by destruct g..|].
    destruct g as [|g]; [cbn in Hg; lia|].
    cbn [mth_aux]. set (leaves := a :: b :: l) in *.
    pose proof (split_point_range (zlen leaves)) as Hs. unfold zlen in *.
    assert (2 <= Z.of_nat (length leaves)) by (subst leaves; cbn; lia).
    specialize (Hs ltac:(lia)).
    f_equal; apply IH; rewrite ?length_take, ?length_drop; lia.
Qed.

Lemma mth_aux_step f a b l :
  mth_aux (S f) (a :: b :: l) =
    let k := Z.to_nat (split_point (zlen (a :: b :: l))) in
    node_sum (mth_aux f (take k (a :: b :: l))) (mth_aux f (drop k (a :: b :: l))).
Proof. done. Qed.

Lemma mth_unfold leaves :
  2 <= zlen leaves ->
  mth leaves =
    let k := Z.to_nat (split_point (zlen leaves)) in
    node_sum (mth (take k leaves)) (mth (drop k leaves)).
Proof.
  intros Hl. pose proof (split_point_range (zlen leaves) Hl) as Hs. unfold mth at 1.
  destruct leaves as [|a [|b l]]; [unfold zlen in Hl; cbn in Hl; lia..|].
  change (length (a :: b :: l)) with (S (S (length l))). rewrite mth_aux_step.
  set (leaves := a :: b :: l) in *. unfold zlen in *.
  assert (length leaves = S (S (length l))) by done.
  f_equal; apply mth_aux_fuel; rewrite ?length_take, ?length_drop; lia.
Qed.

Lemma mth_split l1 l2 h :
  0 <= h -> zlen l1 = 2 ^ h -> 0 < zlen l2 <= 2 ^ h ->
  mth (l1 ++ l2) = node_sum (mth l1) (mth l2).
Proof.
  intros Hh H1 H2. assert (Hpos : 0 < 2 ^ h) by (apply Z.pow_pos_nonneg; lia).
  rewrite mth_unfold by (rewrite zlen_app; lia).
  rewrite (split_point_pow _ h) by (rewrite ?zlen_app, ?Position.pow2_succ by lia; lia).
  cbn zeta. replace (Z.to_nat (2 ^ h)) with (length l1) by (unfold zlen in H1; lia).
  by rewrite take_app_length, drop_app_length.
Qed.

(** ** The calculator computes the tree hash *)

(** The chunk of leaves below a node of the stack, with its height. *)
Definition node_for (h : Z) (chunk : list (list byte)) : Node :=
  mkNode (Position.pos 0 h) (mth chunk).

(** The stack (top first) holds perfect subtrees of strictly increasing height; [chunks] are
    the leaves below them, in stack order. *)
Inductive stack_ok : Z -> list Node -> list (list (list byte)) -> Prop :=
| stack_nil lo : stack_ok lo [] []
| stack_cons lo h c stack chunks :
    lo <= h -> 0 <= h -> zlen c = 2 ^ h -> stack_ok (h + 1) stack chunks ->
    stack_ok lo (node_for h c :: stack) (c :: chunks).

Definition chunks_len (chunks : list (list (list byte))) : Z := zlen (concat (rev chunks)).

Lemma concat_rev_cons {A} (c : list A) chunks :
  concat (rev (c :: chunks)) = concat (rev chunks) ++ c.
Proof. cbn. rewrite concat_app. cbn. by rewrite app_nil_r. Qed.

Lemma chunks_len_cons c chunks : chunks_len (c :: chunks) = chunks_len chunks + zlen c.
Proof.
  unfold chunks_len. by rewrite concat_rev_cons, zlen_app.
Qed.

Lemma chunks_len_nonneg chunks : 0 <= chunks_len chunks.
Proof. apply zlen_nonneg. Qed.

Lemma node_for_height h c : 0 <= h < 64 -> node_height (node_for h c) = h.
Proof.
  intros Hh. unfold node_height. cbn. apply Position.height_eq; [lia..|].
  unfold Position.pos. assert (2 ^ h <= 2 ^ 64) by (apply Z.pow_le_mono_r; lia). lia.
Qed.

Lemma parent_node_for h c :
  0 <= h < 63 -> Position.parent (position (node_for h c)) = Ok (Position.pos 0 (h + 1)).
Proof.
  intros Hh. cbn. rewrite Position.parent_pos; [done|lia..| |].
  - unfold Position.pos. assert (2 ^ h <= 2 ^ 64) by (apply Z.pow_le_mono_r; lia). lia.
  - unfold Position.pos. assert (2 ^ (h + 1) <= 2 ^ 64) by (apply Z.pow_le_mono_r; lia).
    change (0 / 2) with 0. lia.
Qed.

Lemma pow_lt_height h : 0 <= h -> 2 ^ h < 2 ^ 62 -> h < 62.
Proof. intros Hh Hlt. apply (Z.pow_lt_mono_r_iff 2); lia. Qed.

(** One push carries like a binary counter increment. *)
Lemma propagate_spec stack : forall h c chunks,
  0 <= h -> zlen c = 2 ^ h -> stack_ok h stack chunks ->
  chunks_len (c :: chunks) < 2 ^ 62 ->
  exists stack' chunks', propagate_changes (node_for h c) stack = Ok stack' /\
    stack_ok 0 stack' chunks' /\ concat (rev chunks') = concat (rev (c :: chunks)).
Proof.
  induction stack as [|lhs stack IH]; intros h c chunks Hh Hc Hst Hlen; inversion Hst; subst.
  - exists [node_for h c], [c]. split_and!; [done| |done].
    econstructor; [lia|done|done|constructor].
  - rename h0 into h', c0 into c', chunks0 into cs. rewrite !chunks_len_cons in Hlen.
    pose proof (chunks_len_nonneg cs).
    assert (h < 62) by (apply pow_lt_height; lia).
    assert (h' < 62) by (apply pow_lt_height; [done|pose proof (zlen_nonneg c); lia]).
    cbn [propagate_changes]. rewrite !node_for_height by lia.
    destruct (Z.eqb_spec h h') as [<-|Hne]; cbn [negb].
    + rewrite parent_node_for by lia. cbn [obind].
      assert (Hn : create_node (Position.pos 0 (h + 1)) (node_for h c') (node_for h c) =
        node_for (h + 1) (c' ++ c)).
      { unfold create_node, node_for. cbn. f_equal. symmetry. apply (mth_split _ _ h); [done..|].
        rewrite Hc. assert (0 < 2 ^ h) by (apply Z.pow_pos_nonneg; lia). lia. }
      rewrite Hn. destruct (IH (h + 1) (c' ++ c) cs) as (st' & cs' & E & Hok & Hcat);
        [lia|rewrite zlen_app, Position.pow2_succ; lia|done| |].
      { rewrite chunks_len_cons, zlen_app. lia. }
      exists st', cs'. split_and!; [done..|]. 
      by rewrite Hcat, !concat_rev_cons, app_assoc.
    + eexists _, (c :: c' :: cs). split_and!; [done| |done].
      repeat (econstructor; try done; try lia).
Qed.

Lemma calculator_push_spec c chunks d :
  stack_ok 0 c chunks -> chunks_len chunks + 1 < 2 ^ 62 ->
  exists c' chunks', calculator_push c d = Ok c' /\ stack_ok 0 c' chunks' /\
    concat (rev chunks') = concat (rev chunks) ++ [d].
Proof.
  intros Hok Hlen. unfold calculator_push.
  change (create_leaf 0 d) with (Some (node_for 0 [d])). cbn [expect obind].
  destruct (propagate_spec c 0 [d] chunks) as (c' & cs' & E & Hok' & Hcat);
    [lia|done|done|rewrite chunks_len_cons; unfold zlen; cbn; lia|].
  exists c', cs'. unfold push_node. rewrite E. split_and!; [done..|].
  by rewrite Hcat, concat_rev_cons.
Qed.

Lemma calculator_push_all_spec leaves : forall c chunks,
  stack_ok 0 c chunks -> chunks_len chunks + zlen leaves < 2 ^ 62 ->
  exists c' chunks', calculator_push_all c leaves = Ok c' /\ stack_ok 0 c' chunks' /\
    concat (rev chunks') = concat (rev chunks) ++ leaves.
Proof.
  induction leaves as [|d leaves IH]; intros c chunks Hok Hlen.
  - exists c, chunks. by rewrite app_nil_r.
  - unfold zlen in Hlen. cbn [length] in Hlen.
    destruct (calculator_push_spec c chunks d Hok) as (c1 & cs1 & E1 & Hok1 & Hcat1); [lia|].
    cbn [calculator_push_all]. rewrite E1. cbn [obind].
    destruct (IH c1 cs1 Hok1) as (c2 & cs2 & -> & Hok2 & Hcat2).
    { unfold chunks_len. rewrite Hcat1, zlen_app. unfold chunks_len, zlen in *. cbn. lia. }
    exists c2, cs2. split_and!; [done..|]. by rewrite Hcat2, Hcat1, <- app_assoc.
Qed.

(** Folding the remaining nodes from the right end gives the hash of the concatenation. *)
Lemma root_loop_spec stack : forall n l h chunks,
  0 <= h -> hash n = mth l -> 0 < zlen l <= 2 ^ h -> stack_ok h stack chunks ->
  chunks_len chunks + zlen l < 2 ^ 62 ->
  root_loop n stack = Ok (mth (concat (rev chunks) ++ l)).
Proof.
  induction stack as [|left stack IH]; intros n l h chunks Hh Hn Hl Hst Hlen;
    inversion Hst; subst.
  - cbn. by rewrite Hn.
  - rename h0 into h', c into c', chunks0 into cs. rewrite chunks_len_cons in Hlen.
    pose proof (chunks_len_nonneg cs).
    assert (h' < 62) by (apply pow_lt_height; [done|lia]).
    cbn [root_loop]. rewrite parent_node_for by lia.
    assert (2 ^ h <= 2 ^ h') by (apply Z.pow_le_mono_r; lia).
    rewrite (IH _ (c' ++ l) (h' + 1) cs); [|lia| | |done|rewrite zlen_app; lia].
    + by rewrite concat_rev_cons, app_assoc.
    + cbn. rewrite Hn. symmetry. apply (mth_split _ _ h'); [done..|lia].
    + rewrite zlen_app, Position.pow2_succ by lia. lia.
Qed.

Lemma calculator_root_spec c chunks :
  stack_ok 0 c chunks -> chunks_len chunks < 2 ^ 62 ->
  calculator_root c = Ok (mth (concat (rev chunks))).
Proof.
  intros Hok Hlen. destruct Hok as [|lo h c0 stack chunks Hlo Hh Hc Hst]; [done|].
  rewrite chunks_len_cons in Hlen. cbn [calculator_root].
  assert (0 < 2 ^ h) by (apply Z.pow_pos_nonneg; lia).
  rewrite concat_rev_cons. apply (root_loop_spec stack _ c0 (h + 1)); [lia|done| |done|lia].
  rewrite Position.pow2_succ by lia. lia.
Qed.

Lemma root_from_iterator_mth (leaves : list (list byte)) :
  zlen leaves < 2 ^ 62 -> root_from_iterator leaves = Ok (mth leaves).
Proof.
  intros Hlen. unfold root_from_iterator.
  destruct (calculator_push_all_spec leaves calculator_new []) as (c & cs & -> & Hok & Hcat);
    [constructor|done|].
  cbn in Hcat. cbn [obind]. rewrite <- Hcat. apply calculator_root_spec; [done|].
  unfold chunks_len. by rewrite Hcat.
Qed.

(** C29: the incremental root calculator computes the Merkle tree hash. For any sequence of
    fewer than 2^62 leaves, pushing them one by one and taking the root never panics and gives
    the recursively defined tree hash, which splits at the largest power of two below the
    number of leaves. *)
Theorem merkle_root_correct (leaves : list (list byte)) :
  zlen leaves < 2 ^ 62 -> root_from_iterator leaves = Ok (mth leaves).
Proof. apply root_from_iterator_mth. Qed.
End Merkle.

(** A stand-in for SHA-256 that keeps the shape of the tree visible. *)
#[local] Instance sha_witness : Sha256 := fun l => x28 :: l ++ [x29].

Lemma merkle_root_correct_witness :
  root_from_iterator [[x61]; [x62]; [x63]; [x64]; [x65]] =
    Ok (mth [[x61]; [x62]; [x63]; [x64]; [x65]]).
Proof. apply merkle_root_correct. reflexivity. Defined.

(** C30: Tree navigation round-trips. For the [k]-th position of height [h], going to either
    child and back to the parent returns to the position, the children have height [h - 1],
    and the left child precedes the right one; no operation fails inside the 64-bit index
    space. *)
Theorem position_child_parent (k h : Z) (side : Position.Side) :
  0 < h < 63 -> 0 <= k -> Position.pos (k + 1) h < U64 ->
  exists c, Position.child (Position.pos k h) side = Ok c /\
    Position.parent c = Ok (Position.pos k h) /\ Position.height c = h - 1 /\
    match side with
    | Position.Left => c < Position.pos k h
    | Position.Right => Position.pos k h < c
    end.
Proof.
  intros Hh Hk Hlt.
  assert (Hp : 2 ^ h = 2 * 2 ^ (h - 1))
    by (rewrite <- Position.pow2_succ by lia; f_equal; lia).
  assert (0 < 2 ^ (h - 1)) by (apply Z.pow_pos_nonneg; lia).
  assert (Hk' : Position.pos k h < U64)
    by (unfold Position.pos in *; rewrite Position.pow2_succ in * by lia; nia).
  assert (Hc : forall j, j = 2 * k \/ j = 2 * k + 1 -> Position.pos j (h - 1) < U64).
  { intros j Hj. unfold Position.pos in *. replace (h - 1 + 1) with h by lia.
    rewrite Position.pow2_succ, Hp in * by lia. nia. }
  set (j := match side with Position.Left => 2 * k | Position.Right => 2 * k + 1 end).
  assert (Hj : j = 2 * k \/ j = 2 * k + 1) by (destruct side; auto).
  assert (Hj2 : j / 2 = k) by (symmetry; destruct side; subst j;
    [apply (Z.div_unique _ _ _ 0)|apply (Z.div_unique _ _ _ 1)]; lia).
  exists (Position.pos j (h - 1)). split_and!.
  - apply Position.child_pos; [lia|done|done|by apply Hc].
  - replace (Position.pos k h) with (Position.pos (j / 2) (h - 1 + 1))
      by (rewrite Hj2; f_equal; lia).
    apply Position.parent_pos; [lia|lia|by apply Hc|].
    rewrite Hj2. by replace (h - 1 + 1) with h by lia.
  - apply Position.height_eq; [lia|lia|by apply Hc].
  - unfold Position.pos. replace (h - 1 + 1) with h by lia.
    destruct side; subst j; rewrite Position.pow2_succ, Hp by lia; nia.
Qed.

Lemma position_child_parent_witness :
  exists c, Position.child (Position.pos 1 2) Position.Right = Ok c /\
    Position.parent c = Ok 11.
Proof.
  destruct (position_child_parent 1 2 Position.Right ltac:(lia) ltac:(lia)
    ltac:(reflexivity)) as (c & H1 & H2 & _).
  exists c. split; assumption.
Defined.

(** The documentation of [orientation] lists position 0 as a left child; the function answers
    [Right] (and [parent] is written for that answer). *)
Lemma orientation_zero_is_right : Position.orientation 0 = Ok Position.Right.
Proof. reflexivity. Qed.
