(* ===== verification/Sparse.v ===== *)
(** * The sparse Merkle tree

    Bit paths (src/fuel-merkle/src/common/msb.rs, path.rs), nodes and their storage form
    (sparse/hash.rs, sparse/primitive.rs, sparse/merkle_tree/node.rs, common/prefix.rs), path
    iteration (common/path_iterator.rs), and the tree itself: [load], [insert], [delete],
    [from_set], [generate_proof] (sparse/merkle_tree.rs, merkle_tree/branch.rs), the proofs
    (sparse/proof.rs) and the in-memory wrappers (sparse/in_memory.rs,
    common/storage_map.rs). The theorems about them are in SparseTrie, SparseProofs,
    SparseBuild and SparseSpec. *)

From Stdlib Require Import Strings.Byte.
From S2P Require Import Prelude Merkle.

Module Sparse.

Abbreviation Bytes32 := (list byte) (only parsing).

(** ** Paths: the bits of a key, most significant first *)

Inductive Side : Type := Left | Right.

Definition side_of_bit (bit : bool) : Side := if bit then Right else Left.

Definition get_bit_at_index_from_msb (l : list byte) (index : Z) : option bool :=
  match zget l (index / 8) with
  | Some b => Some (negb (Z.land (byte_val b) (Z.shiftl 1 (7 - index mod 8)) =? 0))
  | None => None
  end.

(** [u8::leading_zeros] *)
Definition leading_zeros8 (z : Z) : Z := if z =? 0 then 8 else 7 - Z.log2 z.

Fixpoint common_prefix_count (l other : list byte) : Z :=
  match l, other with
  | b1 :: l, b2 :: other =>
      leading_zeros8 (Z.lxor (byte_val b1) (byte_val b2)) +
      if decide (b1 = b2) then common_prefix_count l other else 0
  | _, _ => 0
  end.

Definition get_instruction (path : list byte) (index : Z) : option Side :=
  side_of_bit <$> get_bit_at_index_from_msb path index.

(** ** Hashes and nodes *)

Inductive Prefix : Type := PrefixNode | PrefixLeaf.

Definition prefix_byte (p : Prefix) : byte :=
  match p with PrefixNode => PREFIX_NODE | PrefixLeaf => PREFIX_LEAF end.

#[export] Instance prefix_eq_dec : EqDecision Prefix.
Proof. solve_decision. Defined.

Definition zero_sum : Bytes32 := replicate 32 x00.
Definition empty_root : Bytes32 := zero_sum.

Section Hashes.
Context `{Sha256}.

Definition calculate_hash (prefix : Prefix) (bytes_lo bytes_hi : Bytes32) : Bytes32 :=
  sha256 ([prefix_byte prefix] ++ bytes_lo ++ bytes_hi).
Definition calculate_leaf_hash (leaf_key leaf_value : Bytes32) : Bytes32 :=
  calculate_hash PrefixLeaf leaf_key leaf_value.
Definition calculate_node_hash (left_child right_child : Bytes32) : Bytes32 :=
  calculate_hash PrefixNode left_child right_child.

Definition merkle_tree_key_new (storage_key : list byte) : Bytes32 := sha256 storage_key.
End Hashes.

Inductive Node : Type :=
| Node_ (hash : Bytes32) (height : Z) (prefix : Prefix) (bytes_lo bytes_hi : Bytes32)
| Placeholder.

#[export] Instance node_eq_dec : EqDecision Node.
Proof. solve_decision. Defined.

Definition max_height : Z := 256.

Definition node_height (n : Node) : Z :=
  match n with Node_ _ h _ _ _ => h | Placeholder => 0 end.
Definition node_prefix (n : Node) : Prefix :=
  match n with Node_ _ _ p _ _ => p | Placeholder => PrefixLeaf end.
Definition node_hash (n : Node) : Bytes32 :=
  match n with Node_ h _ _ _ _ => h | Placeholder => zero_sum end.
Definition bytes_lo (n : Node) : Bytes32 :=
  match n with Node_ _ _ _ lo _ => lo | Placeholder => zero_sum end.
Definition bytes_hi (n : Node) : Bytes32 :=
  match n with Node_ _ _ _ _ hi => hi | Placeholder => zero_sum end.

Definition is_placeholder (n : Node) : bool := bool_decide (Placeholder = n).
Definition is_leaf (n : Node) : bool :=
  bool_decide (node_prefix n = PrefixLeaf) || is_placeholder n.
Definition is_node (n : Node) : bool := bool_decide (node_prefix n = PrefixNode).

(** [leaf_key], [leaf_data], [left_child_key] and [right_child_key] differ from these
    accessors only in debug assertions. *)
Definition leaf_key (n : Node) : Bytes32 := bytes_lo n.
Definition leaf_data (n : Node) : Bytes32 := bytes_hi n.

Definition node_common_path_length (n other : Node) : Z :=
  if is_placeholder n || is_placeholder other then 0
  else common_prefix_count (leaf_key n) (leaf_key other).

(** ** Storage *)

(** (height, prefix, lo, hi) *)
Definition Primitive : Type := Z * byte * Bytes32 * Bytes32.

Definition prefix_try_from (b : byte) : option Prefix :=
  if decide (b = PREFIX_NODE) then Some PrefixNode
  else if decide (b = PREFIX_LEAF) then Some PrefixLeaf else None.

Definition node_to_primitive (n : Node) : Primitive :=
  (node_height n, prefix_byte (node_prefix n), bytes_lo n, bytes_hi n).

Inductive ChildError : Type :=
| ChildNotFound (key : Bytes32)
| NodeIsLeaf
| ChildStorageError
| ChildDeserializeError (prefix : byte).

Inductive MerkleTreeError : Type :=
| LoadError (key : Bytes32)
| StorageError
| DeserializeError (prefix : byte)
| MTChildError (e : ChildError).

(** [StorageInspect] and [StorageMutate] for a table of nodes; [Err tt] is the backend's own
    error. *)
Class StorageMutate (S : Type) : Type := {
  st_get : S -> Bytes32 -> outcome unit (option Primitive);
  st_insert : S -> Bytes32 -> Primitive -> outcome unit S;
  st_remove : S -> Bytes32 -> outcome unit S
}.

Section Tree.
Context `{Sha256} {S : Type} `{StorageMutate S}.
Implicit Types (s : S) (n : Node).

Definition node_new (height : Z) (prefix : Prefix) (bytes_lo bytes_hi : Bytes32) : Node :=
  Node_ (calculate_hash prefix bytes_lo bytes_hi) height prefix bytes_lo bytes_hi.
Definition create_leaf (key : Bytes32) (data : list byte) : Node :=
  let bytes_hi := sha256 data in
  Node_ (calculate_leaf_hash key bytes_hi) 0 PrefixLeaf key bytes_hi.
Definition create_node (left_child right_child : Node) (height : Z) : Node :=
  let bytes_lo := node_hash left_child in
  let bytes_hi := node_hash right_child in
  Node_ (calculate_node_hash bytes_lo bytes_hi) height PrefixNode bytes_lo bytes_hi.
Definition create_node_from_hashes (bytes_lo bytes_hi : Bytes32) (height : Z) : Node :=
  Node_ (calculate_node_hash bytes_lo bytes_hi) height PrefixNode bytes_lo bytes_hi.

(** [Crash] where the height leaves the tree: the depth underflows, and no instruction
    exists. *)
Definition create_node_on_path {E} (path : list byte) (path_node side_node : Node)
  : outcome E Node :=
  let '(parent_depth, parent_height) :=
    if is_leaf path_node && is_leaf side_node then
      let parent_depth := node_common_path_length path_node side_node in
      (parent_depth, max_height - parent_depth)
    else
      let parent_height := Z.max (node_height path_node) (node_height side_node) + 1 in
      (max_height - parent_height, parent_height) in
  if parent_depth <? 0 then Crash else
  match get_instruction path parent_depth with
  | Some Left => Ok (create_node path_node side_node parent_height)
  | Some Right => Ok (create_node side_node path_node parent_height)
  | None => Crash
  end.

Definition node_try_from (p : Primitive) : outcome byte Node :=
  let '(height, prefix, lo, hi) := p in
  let? pre := ok_or (prefix_try_from prefix) prefix in
  Ok (node_new height pre lo hi).

(** [storage.insert(node.hash(), &node.as_ref().into())?] *)
Definition store_node s n : outcome MerkleTreeError S :=
  omap_err (fun _ => StorageError) (st_insert s (node_hash n) (node_to_primitive n)).
Definition remove_node s (key : Bytes32) : outcome MerkleTreeError S :=
  omap_err (fun _ => StorageError) (st_remove s key).

(** ** Children and path iteration *)

Definition child_at s n (key : Bytes32) : outcome ChildError Node :=
  if is_leaf n then Err NodeIsLeaf
  else if decide (key = zero_sum) then Ok Placeholder
  else
    let? p := omap_err (fun _ => ChildStorageError) (st_get s key) in
    let? primitive := ok_or p (ChildNotFound key) in
    omap_err ChildDeserializeError (node_try_from primitive).
Definition left_child s n : outcome ChildError Node := child_at s n (bytes_lo n).
Definition right_child s n : outcome ChildError Node := child_at s n (bytes_hi n).
Definition left_child_key n : outcome ChildError Bytes32 :=
  if is_leaf n then Err NodeIsLeaf else Ok (bytes_lo n).
Definition right_child_key n : outcome ChildError Bytes32 :=
  if is_leaf n then Err NodeIsLeaf else Ok (bytes_hi n).

Definition PathItem : Type := outcome ChildError Node * outcome ChildError Bytes32.

(** The items the iterator yields from [current] on. Every step reads one more bit of the
    key, so as many steps as the key has bits are enough. *)
Fixpoint path_iter (fuel : nat) s (leaf_key : Bytes32) (current : PathItem) (offset : Z)
  : list PathItem :=
  current ::
  match fuel, current.1 with
  | Datatypes.S fuel', Ok path_node =>
      if is_node path_node then
        match get_instruction leaf_key offset with
        | Some Left =>
            path_iter fuel' s leaf_key
              (left_child s path_node, right_child_key path_node) (offset + 1)
        | Some Right =>
            path_iter fuel' s leaf_key
              (right_child s path_node, left_child_key path_node) (offset + 1)
        | None => []
        end
      else []
  | _, _ => []
  end.

Definition as_path_iter s (root : Node) (leaf_key : Bytes32)
  : outcome MerkleTreeError (list PathItem) :=
  let? offset := expect (checked_sub max_height (node_height root)) in
  Ok (path_iter (Z.to_nat max_height) s leaf_key (Ok root, Ok (node_hash root)) offset).

(** [collect::<Result<Vec<_>, _>>] of the unwrapped items. *)
Fixpoint collect_path (l : list PathItem) : outcome MerkleTreeError (list (Node * Bytes32)) :=
  match l with
  | [] => Ok []
  | (path_node, side_node) :: rest =>
      let? n := omap_err MTChildError path_node in
      let? k := omap_err MTChildError side_node in
      let? rest' := collect_path rest in
      Ok ((n, k) :: rest')
  end.

(** ** The tree *)

Record MerkleTree : Type := mkTree { root_node : Node; tree_storage : S }.

Definition root (t : MerkleTree) : Bytes32 := node_hash (root_node t).
Definition tree_new s : MerkleTree := mkTree Placeholder s.

Definition load s (r : Bytes32) : outcome MerkleTreeError MerkleTree :=
  if decide (r = empty_root) then Ok (tree_new s)
  else
    let? p := omap_err (fun _ => StorageError) (st_get s r) in
    let? primitive := ok_or p (LoadError r) in
    let? n := omap_err DeserializeError (node_try_from primitive) in
    Ok (mkTree n s).

Definition path_set (t : MerkleTree) (key : Bytes32)
  : outcome MerkleTreeError (list Node * list Bytes32) :=
  let? items := as_path_iter (tree_storage t) (root_node t) key in
  let? pairs := collect_path items in
  let path_nodes := reverse (fst <$> pairs) in
  let side_nodes := reverse (snd <$> pairs) in
  Ok (path_nodes, take (length side_nodes - 1) side_nodes).

(** Join [current] with placeholders, [count] times, storing each new node. *)
Fixpoint add_placeholders (count : nat) (path : Bytes32) (current : Node) s
  : outcome MerkleTreeError (Node * S) :=
  match count with
  | O => Ok (current, s)
  | Datatypes.S count' =>
      let? current' := create_node_on_path path current Placeholder in
      let? s' := store_node s current' in
      add_placeholders count' path current' s'
  end.

Definition new_parent (side_node : Bytes32) (current old_parent : Node) : Node :=
  if decide (bytes_lo old_parent = side_node) then
    create_node_from_hashes side_node (node_hash current) (node_height old_parent)
  else
    create_node_from_hashes (node_hash current) side_node (node_height old_parent).

(** The loop that merges side nodes; [drop_old] also removes the old parents. *)
Fixpoint merge_side_nodes (drop_old : bool) (l : list (Bytes32 * Node)) (current : Node) s
  : outcome MerkleTreeError (Node * S) :=
  match l with
  | [] => Ok (current, s)
  | (side_node, old_parent) :: rest =>
      let current' := new_parent side_node current old_parent in
      let? s1 := store_node s current' in
      let? s2 := if drop_old then remove_node s1 (node_hash old_parent) else Ok s1 in
      merge_side_nodes drop_old rest current' s2
  end.

(** The first half of [update_with_path_set]: the new leaf, joined with the leaf found at the
    end of its path and with the placeholders above their common ancestor, or replacing it. *)
Definition place_leaf s (requested_leaf_node actual_leaf_node : Node) (side_nodes : list Bytes32)
  : outcome MerkleTreeError (Node * S) :=
  let path := leaf_key requested_leaf_node in
  if decide (leaf_key requested_leaf_node <> leaf_key actual_leaf_node) then
    let? '(current, s) :=
      if negb (is_placeholder actual_leaf_node) then
        let? n := create_node_on_path path requested_leaf_node actual_leaf_node in
        let? s := store_node s n in
        Ok (n, s)
      else Ok (requested_leaf_node, s) in
    let ancestor_depth := node_common_path_length requested_leaf_node actual_leaf_node in
    let placeholders_count := saturating_sub ancestor_depth (zlen side_nodes) in
    add_placeholders (Z.to_nat placeholders_count) path current s
  else
    let? s := remove_node s (node_hash actual_leaf_node) in
    Ok (requested_leaf_node, s).

Definition update_with_path_set (t : MerkleTree) (requested_leaf_node : Node)
    (path_nodes : list Node) (side_nodes : list Bytes32) : outcome MerkleTreeError MerkleTree :=
  let? actual_leaf_node := expect (head path_nodes) in
  if decide (requested_leaf_node = actual_leaf_node) then Ok t
  else
    let? '(current, s) :=
      place_leaf (tree_storage t) requested_leaf_node actual_leaf_node side_nodes in
    let? '(current, s) := merge_side_nodes true (zip side_nodes (tail path_nodes)) current s in
    Ok (mkTree current s).

Definition tree_insert (t : MerkleTree) (key : Bytes32) (data : list byte)
  : outcome MerkleTreeError MerkleTree :=
  let leaf_node := create_leaf key data in
  let? s := store_node (tree_storage t) leaf_node in
  let t' := mkTree (root_node t) s in
  if is_placeholder (root_node t) then Ok (mkTree leaf_node s)
  else
    let? '(path_nodes, side_nodes) := path_set t' key in
    update_with_path_set t' leaf_node path_nodes side_nodes.

Fixpoint remove_all (l : list Node) s : outcome MerkleTreeError S :=
  match l with
  | [] => Ok s
  | n :: rest => let? s' := remove_node s (node_hash n) in remove_all rest s'
  end.

(** [Iterator::find]: the first match and what remains after it. *)
Fixpoint iter_find {A} (f : A -> bool) (l : list A) : option (A * list A) :=
  match l with
  | [] => None
  | x :: rest => if f x then Some (x, rest) else iter_find f rest
  end.

(** The orphaned leaf [current] joined with the next side node that is not a placeholder, and
    what the two iterators have left. *)
Definition attach_orphan (side_nodes : list Bytes32) (path_nodes : list Node) (current : Node) s
  : outcome MerkleTreeError (Node * S * list Bytes32 * list Node) :=
  match iter_find (fun h => bool_decide (h <> zero_sum)) side_nodes with
  | None => Ok (current, s, [], path_nodes)
  | Some (side_node, sides_rest) =>
      match iter_find (fun p => bool_decide (bytes_lo p = side_node) ||
                                bool_decide (bytes_hi p = side_node)) path_nodes with
      | None => Ok (current, s, sides_rest, [])
      | Some (old_parent, paths_rest) =>
          let current' := new_parent side_node current old_parent in
          let? s' := store_node s current' in
          Ok (current', s', sides_rest, paths_rest)
      end
  end.

Definition delete_with_path_set (t : MerkleTree) (path_nodes : list Node)
    (side_nodes : list Bytes32) : outcome MerkleTreeError MerkleTree :=
  let? s := remove_all path_nodes (tree_storage t) in
  let path_nodes_iter := tail path_nodes in
  let? '(current, s, sides, paths) :=
    match side_nodes with
    | [] => Ok (Placeholder, s, [], path_nodes_iter)
    | first_side_node :: side_rest =>
        let? p := omap_err (fun _ => StorageError) (st_get s first_side_node) in
        let? primitive := ok_or p (LoadError first_side_node) in
        let? n := omap_err DeserializeError (node_try_from primitive) in
        if is_leaf n then attach_orphan side_rest path_nodes_iter n s
        else Ok (Placeholder, s, side_nodes, path_nodes_iter)
    end in
  let? '(current, s) := merge_side_nodes false (zip sides paths) current s in
  Ok (mkTree current s).

Definition tree_delete (t : MerkleTree) (key : Bytes32) : outcome MerkleTreeError MerkleTree :=
  if decide (root t = empty_root) then Ok t
  else
    let? '(path_nodes, side_nodes) := path_set t key in
    match path_nodes with
    | n :: _ =>
        if decide (leaf_key n = key) then delete_with_path_set t path_nodes side_nodes
        else Ok t
    | [] => Ok t
    end.

(** ** Building a tree from a set *)

Record Branch : Type := mkBranch { bits : Bytes32; branch_node : Node }.

Definition branch_of_leaf (leaf : Node) : Branch := mkBranch (leaf_key leaf) leaf.

(** Raise an internal node below [ancestor_height] with placeholders. *)
Definition raise_branch (ancestor_height : Z) (b : Branch) s
  : outcome MerkleTreeError (Branch * S) :=
  if is_node (branch_node b) then
    let parent_height := node_height (branch_node b) + 1 in
    let? stale_depth := expect (checked_sub ancestor_height parent_height) in
    let? '(n, s') := add_placeholders (Z.to_nat stale_depth) (bits b) (branch_node b) s in
    Ok (mkBranch (bits b) n, s')
  else Ok (b, s).

Definition merge_branches s (left_branch right_branch : Branch)
  : outcome MerkleTreeError (Branch * S) :=
  let? '(l, r, ancestor_height, s) :=
    if is_leaf (branch_node left_branch) && is_leaf (branch_node right_branch) then
      let parent_depth :=
        node_common_path_length (branch_node left_branch) (branch_node right_branch) in
      Ok (left_branch, right_branch, max_height - parent_depth, s)
    else
      let ancestor_depth := common_prefix_count (bits left_branch) (bits right_branch) in
      let ancestor_height := max_height - ancestor_depth in
      let? '(r, s) := raise_branch ancestor_height right_branch s in
      let? '(l, s) := raise_branch ancestor_height left_branch s in
      Ok (l, r, ancestor_height, s) in
  let n := create_node (branch_node l) (branch_node r) ancestor_height in
  let? s := store_node s n in
  Ok (mkBranch (bits l) n, s).

(** The inner [while]: merge the top of the stack with its right neighbour as long as they
    are closer to each other than the top is to the new leaf. Stacks are listed top first. *)
Fixpoint merge_while (left_proximity : Z) (proximities : list Z) (nodes : list Branch) s
  : outcome MerkleTreeError (list Branch * list Z * S) :=
  match proximities with
  | right_proximity :: prest =>
      if left_proximity <? right_proximity then
        match nodes with
        | current :: right_ :: nrest =>
            let? '(merged, s') := merge_branches s current right_ in
            merge_while left_proximity prest (merged :: nrest) s'
        | _ => Crash
        end
      else Ok (nodes, proximities, s)
  | [] => Ok (nodes, proximities, s)
  end.

(** The outer [while], over the leaves from right to left. *)
Fixpoint scan_leaves (branches : list Branch) (nodes : list Branch) (proximities : list Z) s
  : outcome MerkleTreeError (list Branch * S) :=
  match branches with
  | [] => Ok (nodes, s)
  | left_ :: rest =>
      match nodes with
      | [] => scan_leaves rest [left_] proximities s
      | current :: _ =>
          let left_proximity :=
            node_common_path_length (branch_node current) (branch_node left_) in
          let? '(nodes', prox', s') := merge_while left_proximity proximities nodes s in
          scan_leaves rest (left_ :: nodes') (left_proximity :: prox') s'
      end
  end.

Fixpoint merge_stack (node : Branch) (nodes : list Branch) s
  : outcome MerkleTreeError (Branch * S) :=
  match nodes with
  | [] => Ok (node, s)
  | next :: rest =>
      let? '(merged, s') := merge_branches s node next in
      merge_stack merged rest s'
  end.

Fixpoint store_all (l : list Branch) s : outcome MerkleTreeError S :=
  match l with
  | [] => Ok s
  | b :: rest => let? s' := store_node s (branch_node b) in store_all rest s'
  end.

(** Lexicographic order of keys, and a [BTreeMap] as a sorted association list. *)
Fixpoint key_ltb (a b : list byte) : bool :=
  match a, b with
  | x :: a, y :: b => (byte_val x <? byte_val y) || (byte_val x =? byte_val y) && key_ltb a b
  | [], _ :: _ => true
  | _, [] => false
  end.

Fixpoint btree_insert {V} (k : Bytes32) (v : V) (l : list (Bytes32 * V))
  : list (Bytes32 * V) :=
  match l with
  | [] => [(k, v)]
  | (k', v') :: rest =>
      if decide (k = k') then (k, v) :: rest
      else if key_ltb k k' then (k, v) :: l
      else (k', v') :: btree_insert k v rest
  end.

Definition btree_collect {V} (l : list (Bytes32 * V)) : list (Bytes32 * V) :=
  foldl (fun acc kv => btree_insert kv.1 kv.2 acc) [] l.

Definition from_set s (set : list (Bytes32 * list byte))
  : outcome MerkleTreeError MerkleTree :=
  let sorted := btree_collect set in
  let branches := (fun kv => branch_of_leaf (create_leaf kv.1 kv.2)) <$> sorted in
  let? s := store_all branches s in
  match branches with
  | [] => Ok (tree_new s)
  | [b] => Ok (mkTree (branch_node b) s)
  | _ =>
      let? '(nodes, s) := scan_leaves (reverse branches) [] [] s in
      match nodes with
      | [] => Crash
      | node :: rest =>
          let? '(top, s) := merge_stack node rest s in
          let? depth := expect (checked_sub max_height (node_height (branch_node top))) in
          let? '(n, s) := add_placeholders (Z.to_nat depth) (bits top) (branch_node top) s in
          Ok (mkTree n s)
      end
  end.

(** ** Proofs *)

Inductive ExclusionLeaf : Type :=
| ExclusionLeaf_Leaf (leaf_key leaf_value : Bytes32)
| ExclusionLeaf_Placeholder.

Inductive Proof_ : Type :=
| Inclusion (proof_set : list Bytes32)
| Exclusion (proof_set : list Bytes32) (leaf : ExclusionLeaf).

Definition exclusion_leaf_hash (l : ExclusionLeaf) : Bytes32 :=
  match l with
  | ExclusionLeaf_Leaf k v => calculate_leaf_hash k v
  | ExclusionLeaf_Placeholder => zero_sum
  end.

Definition generate_proof (t : MerkleTree) (key : Bytes32) : outcome MerkleTreeError Proof_ :=
  let? '(path_nodes, side_nodes) := path_set t key in
  let? actual_leaf := expect (head path_nodes) in
  Ok (if negb (is_placeholder actual_leaf) && bool_decide (leaf_key actual_leaf = key) then
        Inclusion side_nodes
      else
        Exclusion side_nodes
          (if is_placeholder actual_leaf then ExclusionLeaf_Placeholder
           else ExclusionLeaf_Leaf (leaf_key actual_leaf) (leaf_data actual_leaf))).

(** The loop shared by both [verify] functions: the instruction for the side hash at [i] is
    the bit at [proof_set.len() - 1 - i], that is, at the number of hashes after it. *)
Fixpoint proof_root {E} (key : Bytes32) (current : Bytes32) (proof_set : list Bytes32)
  : outcome E Bytes32 :=
  match proof_set with
  | [] => Ok current
  | side_hash :: rest =>
      match get_instruction key (zlen rest) with
      | Some Left => proof_root key (calculate_node_hash current side_hash) rest
      | Some Right => proof_root key (calculate_node_hash side_hash current) rest
      | None => Crash
      end
  end.

Definition verify_inclusion (proof_set : list Bytes32) (root key : Bytes32) (value : list byte)
  : outcome MerkleTreeError bool :=
  if 256 <? zlen proof_set then Ok false
  else
    let? current := proof_root key (calculate_leaf_hash key (sha256 value)) proof_set in
    Ok (bool_decide (current = root)).

Definition verify_exclusion (proof_set : list Bytes32) (leaf : ExclusionLeaf)
    (root key : Bytes32) : outcome MerkleTreeError bool :=
  let same_key :=
    match leaf with
    | ExclusionLeaf_Leaf k _ => bool_decide (k = key)
    | ExclusionLeaf_Placeholder => false
    end in
  if same_key then Ok false
  else if 256 <? zlen proof_set then Ok false
  else
    let? current := proof_root key (exclusion_leaf_hash leaf) proof_set in
    Ok (bool_decide (current = root)).
End Tree.
Arguments MerkleTree : clear implicits.
Arguments mkTree {S} _ _.
Arguments root_node {S} _.
Arguments tree_storage {S} _.

(** ** Backends *)

(** [StorageMap] *)
#[export] Instance storage_map : StorageMutate (gmap Bytes32 Primitive) := {|
  st_get s k := Ok (s !! k);
  st_insert s k p := Ok (<[k := p]> s);
  st_remove s k := Ok (delete k s)
|}.

(** The storages of [root_from_set] and [nodes_from_set]. The reads and removals of the
    second one are [unimplemented!]. *)
Inductive EmptyStorage : Type := emptyStorage.
#[export] Instance empty_storage : StorageMutate EmptyStorage := {|
  st_get s k := Ok None;
  st_insert s k p := Ok s;
  st_remove s k := Ok s
|}.

Record VectorStorage : Type := mkVectorStorage { vec_nodes : list (Bytes32 * Primitive) }.
#[export] Instance vector_storage : StorageMutate VectorStorage := {|
  st_get s k := Crash;
  st_insert s k p := Ok (mkVectorStorage (vec_nodes s ++ [(k, p)]));
  st_remove s k := Crash
|}.

Section InMemory.
Context `{Sha256}.

Definition in_memory_new : MerkleTree (gmap Bytes32 Primitive) := tree_new ∅.

(** [expect("`Storage` can't return error")] *)
Definition expect_tree {A} (r : outcome MerkleTreeError A) : outcome MerkleTreeError A :=
  match r with Ok t => Ok t | Err _ | Crash => Crash end.

Definition in_memory_from_set (set : list (Bytes32 * list byte))
  : outcome MerkleTreeError (MerkleTree (gmap Bytes32 Primitive)) :=
  expect_tree (from_set ∅ set).

Definition root_from_set (set : list (Bytes32 * list byte)) : outcome MerkleTreeError Bytes32 :=
  let? t := expect_tree (from_set emptyStorage set) in
  Ok (root t).

Definition nodes_from_set (set : list (Bytes32 * list byte))
  : outcome MerkleTreeError (Bytes32 * list (Bytes32 * Primitive)) :=
  let? t := expect_tree (from_set (mkVectorStorage []) set) in
  Ok (root t, vec_nodes (tree_storage t)).
End InMemory.
End Sparse.
