(* ===== verification/SparseTrie.v ===== *)
(** * Compact tries

    The abstract side of the sparse Merkle tree: the bits of keys, the compact trie of a map
    from keys to value digests ([smt]: a subtree without bindings is a placeholder, one with
    a single binding is that leaf, a larger one branches on the next bit), its uniqueness, its
    hashes and nodes, and paths through it. SparseProofs relates the tree of Sparse to it. *)

From Stdlib Require Import Strings.Byte.
From S2P Require Import Prelude Merkle Sparse.
Import Sparse.

(** ** The bits of a key *)

Definition byte_bits (b : byte) : list bool :=
  (fun i => negb (Z.land (byte_val b) (Z.shiftl 1 (7 - i)) =? 0)) <$> [0; 1; 2; 3; 4; 5; 6; 7].

Fixpoint key_bits (l : list byte) : list bool :=
  match l with [] => [] | b :: l => byte_bits b ++ key_bits l end.

Lemma key_bits_length l : length (key_bits l) = (8 * length l)%nat.
Proof. induction l as [|b l IH]; [done|]. cbn [key_bits]. rewrite length_app, IH. cbn. lia. Qed.

Lemma get_bit_spec l i :
  0 <= i -> get_bit_at_index_from_msb l i = key_bits l !! Z.to_nat i.
Proof.
  revert i. induction l as [|b l IH]; intros i Hi.
  { unfold get_bit_at_index_from_msb, zget. case_if; [|by rewrite lookup_nil].
    pose proof (Z.div_pos i 8). lia. }
  cbn [key_bits]. destruct (decide (i < 8)) as [Hlt|Hge].
  - unfold get_bit_at_index_from_msb. rewrite Z.div_small, Z.mod_small by lia.
    rewrite lookup_app_l by (cbn; lia). unfold byte_bits. rewrite list_lookup_fmap.
    assert (i = 0 \/ i = 1 \/ i = 2 \/ i = 3 \/ i = 4 \/ i = 5 \/ i = 6 \/ i = 7) as Hc by lia.
    by destruct Hc as [->|[->|[->|[->|[->|[->|[->| ->]]]]]]].
  - rewrite lookup_app_r by (cbn; lia).
    replace (Z.to_nat i - length (byte_bits b))%nat with (Z.to_nat (i - 8)) by (cbn; lia).
    rewrite <- IH by lia. unfold get_bit_at_index_from_msb.
    replace (i / 8) with ((i - 8) / 8 + 1)
      by (rewrite <- (Z.div_add (i - 8) 1 8) by lia; f_equal; lia).
    replace (i mod 8) with ((i - 8) mod 8)
      by (rewrite <- (Z_mod_plus_full (i - 8) 1 8); f_equal; lia).
    pose proof (Z.div_pos (i - 8) 8 ltac:(lia) ltac:(lia)).
    unfold zget. rewrite !(proj2 (Z.ltb_ge _ _)) by lia.
    by rewrite Z2Nat.inj_add, Nat.add_comm by lia.
Qed.

Fixpoint lcp (a b : list bool) : nat :=
  match a, b with
  | x :: a, y :: b => if eqb x y then S (lcp a b) else O
  | _, _ => O
  end.

Lemma lcp_app (x y a b : list bool) :
  length x = length y ->
  lcp (x ++ a) (y ++ b) = if decide (x = y) then (length x + lcp a b)%nat else lcp x y.
Proof.
  revert y. induction x as [|u x IH]; intros [|w y] Hl; try done.
  cbn. injection Hl as Hl. rewrite (IH y Hl). destruct (eqb u w) eqn:E.
  - apply eqb_prop in E as ->. do 2 case_decide; naive_solver.
  - rewrite decide_False; [done|]. intros [= -> ->]. by rewrite eqb_reflx in E.
Qed.

Definition all_bytes : list byte := (fun n => byte_of (Z.of_nat n)) <$> seq 0 256.

Lemma elem_of_all_bytes b : b ∈ all_bytes.
Proof.
  unfold all_bytes. apply list_elem_of_fmap. exists (Z.to_nat (byte_val b)).
  pose proof (byte_val_range b). split.
  - rewrite Z2Nat.id by lia. by rewrite byte_of_val.
  - apply elem_of_seq. lia.
Qed.

(** Facts about pairs of bytes, checked on all of them. *)
Lemma byte_pairs b1 b2 :
  leading_zeros8 (Z.lxor (byte_val b1) (byte_val b2)) =
    Z.of_nat (if decide (b1 = b2) then 8 else lcp (byte_bits b1) (byte_bits b2))
  /\ (byte_bits b1 = byte_bits b2 -> b1 = b2)
  /\ (byte_val b1 < byte_val b2 -> byte_bits b1 !! lcp (byte_bits b1) (byte_bits b2) = Some false).
Proof.
  assert (Hall : forallb (fun b1 => forallb (fun b2 =>
    let n := lcp (byte_bits b1) (byte_bits b2) in
    (leading_zeros8 (Z.lxor (byte_val b1) (byte_val b2)) =?
      Z.of_nat (if decide (b1 = b2) then 8 else n))
    && (bool_decide (b1 = b2) || bool_decide (byte_bits b1 <> byte_bits b2))
    && ((byte_val b2 <=? byte_val b1) || bool_decide (byte_bits b1 !! n = Some false)))
    all_bytes) all_bytes = true) by (vm_compute; reflexivity).
  rewrite forallb_forall in Hall. specialize (Hall b1). rewrite forallb_forall in Hall.
  specialize (Hall (proj1 (list_elem_of_In _ _) (elem_of_all_bytes b1)) b2
    (proj1 (list_elem_of_In _ _) (elem_of_all_bytes b2))).
  rewrite !andb_true_iff, !orb_true_iff, !bool_decide_eq_true, Z.leb_le, Z.eqb_eq in Hall.
  destruct Hall as [[H1 H2] H3]. split_and!; [done|by destruct H2|].
  intros Hlt. destruct H3; [lia|done].
Qed.

Lemma common_prefix_count_spec l o :
  length l = length o -> common_prefix_count l o = Z.of_nat (lcp (key_bits l) (key_bits o)).
Proof.
  revert o. induction l as [|b l IH]; intros [|c o] Hl; try done.
  cbn [common_prefix_count key_bits]. rewrite lcp_app by done.
  destruct (byte_pairs b c) as (-> & Hinj & _). injection Hl as Hl. rewrite (IH o Hl).
  destruct (decide (b = c)) as [->|Hne].
  - rewrite decide_True by done. change (length (byte_bits c)) with 8%nat. lia.
  - rewrite decide_False by auto. lia.
Qed.

Lemma key_bits_inj l o : length l = length o -> key_bits l = key_bits o -> l = o.
Proof.
  revert o. induction l as [|b l IH]; intros [|c o] Hl; try done.
  cbn [key_bits]. intros [Hb Hk]%app_inj_1; [|done]. injection Hl as Hl.
  f_equal; [by apply byte_pairs|by apply IH].
Qed.

(** Two different keys part at the end of their common prefix. *)
Lemma lcp_take a b : take (lcp a b) a = take (lcp a b) b.
Proof.
  revert b. induction a as [|x a IH]; intros [|y b]; try done. cbn.
  destruct (eqb x y) eqn:E; [|done]. apply eqb_prop in E as ->. cbn. by rewrite IH.
Qed.

Lemma lcp_differ a b :
  length a = length b -> a <> b ->
  exists x, a !! lcp a b = Some x /\ b !! lcp a b = Some (negb x).
Proof.
  revert b. induction a as [|x a IH]; intros [|y b] Hl Hne; try done. cbn.
  destruct (eqb x y) eqn:E.
  - apply eqb_prop in E as ->. apply IH; [by injection Hl|congruence].
  - exists x. split; [done|]. cbn. by destruct x, y.
Qed.

Lemma lcp_comm a b : lcp a b = lcp b a.
Proof.
  revert b. induction a as [|x a IH]; intros [|y b]; try done. cbn.
  rewrite IH. by destruct x, y.
Qed.

Lemma prefix_lcp p a b : p `prefix_of` a -> p `prefix_of` b -> (length p <= lcp a b)%nat.
Proof.
  intros [a' ->] [b' ->]. rewrite lcp_app by done. rewrite decide_True by done. lia.
Qed.

(** ** Tries *)

Inductive trie : Type :=
| E
| L (k v : Bytes32)
| B (l r : trie).

#[export] Instance trie_eq_dec : EqDecision trie.
Proof. solve_decision. Defined.

Fixpoint tsize (t : trie) : nat :=
  match t with E => 0 | L _ _ => 1 | B l r => tsize l + tsize r end.

Fixpoint contents (t : trie) : gmap Bytes32 Bytes32 :=
  match t with E => ∅ | L k v => {[k := v]} | B l r => contents l ∪ contents r end.

(** The compact trie of the bindings below position [p]. *)
Fixpoint canon (p : list bool) (t : trie) : Prop :=
  match t with
  | E => True
  | L k v => length k = 32%nat /\ length v = 32%nat /\ p `prefix_of` key_bits k
  | B l r => canon (p ++ [false]) l /\ canon (p ++ [true]) r /\ (2 <= tsize l + tsize r)%nat
  end.

(** The reference: split on the bit at depth [d] as long as there are several bindings. *)
Fixpoint trie_of (fuel : nat) (d : nat) (l : list (Bytes32 * Bytes32)) : trie :=
  match l with
  | [] => E
  | [(k, v)] => L k v
  | _ =>
      match fuel with
      | O => E
      | S f =>
          let bit kv := default false (key_bits kv.1 !! d) in
          B (trie_of f (S d) (filter (fun kv => bit kv = false) l))
            (trie_of f (S d) (filter (fun kv => bit kv = true) l))
      end
  end.

Definition smt (m : gmap Bytes32 Bytes32) : trie := trie_of 256 0 (map_to_list m).

#[global] Arguments smt : simpl never.

Definition keys_ok (m : gmap Bytes32 Bytes32) : Prop :=
  map_Forall (fun k v => length k = 32%nat /\ length v = 32%nat) m.

Lemma canon_prefix p t k v :
  canon p t -> contents t !! k = Some v ->
  length k = 32%nat /\ length v = 32%nat /\ p `prefix_of` key_bits k.
Proof.
  revert p. induction t as [|k' v'|l IHl r IHr]; intros p Hc Hk; cbn in *.
  - by rewrite lookup_empty in Hk.
  - apply lookup_singleton_Some in Hk as [-> ->]. done.
  - destruct Hc as (Hl & Hr & _). apply lookup_union_Some_raw in Hk as [Hk|[_ Hk]].
    + destruct (IHl _ Hl Hk) as (? & ? & ?). split_and!; [done..|].
      by eapply prefix_app_l.
    + destruct (IHr _ Hr Hk) as (? & ? & ?). split_and!; [done..|].
      by eapply prefix_app_l.
Qed.

Lemma prefix_snoc_inv (p a : list bool) b :
  p ++ [b] `prefix_of` a -> p `prefix_of` a /\ a !! length p = Some b.
Proof.
  intros [a' ->]. rewrite <- app_assoc. split; [by eexists|].
  rewrite lookup_app_r, Nat.sub_diag by lia. done.
Qed.

Lemma prefix_snoc (p a : list bool) b :
  p `prefix_of` a -> a !! length p = Some b -> p ++ [b] `prefix_of` a.
Proof.
  intros [a' ->]. rewrite lookup_app_r, Nat.sub_diag by lia.
  destruct a' as [|x a']; [done|]. intros [= ->]. exists a'. by rewrite <- app_assoc.
Qed.

(** Looking a key up in a branch follows its next bit. *)
Lemma contents_B p l r k (b : bool) :
  canon p (B l r) -> key_bits k !! length p = Some b ->
  contents (B l r) !! k = contents (if b then r else l) !! k.
Proof.
  intros (Hl & Hr & _) Hb. cbn. rewrite lookup_union.
  assert (Hno : forall c t, canon (p ++ [c]) t -> b <> c -> contents t !! k = None).
  { intros c t Ht Hne. destruct (contents t !! k) as [v|] eqn:Hv; [|done].
    destruct (canon_prefix _ _ _ _ Ht Hv) as (_ & _ & [_ Hb']%prefix_snoc_inv). congruence. }
  destruct b.
  - rewrite (Hno false l) by done. by destruct (contents r !! k).
  - rewrite (Hno true r) by done. by destruct (contents l !! k).
Qed.

Lemma contents_disjoint p l r : canon p (B l r) -> contents l ##ₘ contents r.
Proof.
  intros (Hl & Hr & _). apply map_disjoint_spec. intros k v w Hv Hw.
  destruct (canon_prefix _ _ _ _ Hl Hv) as (_ & _ & [_ H1]%prefix_snoc_inv).
  destruct (canon_prefix _ _ _ _ Hr Hw) as (_ & _ & [_ H2]%prefix_snoc_inv). congruence.
Qed.

Lemma contents_size p t : canon p t -> size (contents t) = tsize t.
Proof.
  revert p. induction t as [|k v|l IHl r IHr]; intros p Hc.
  - apply map_size_empty.
  - apply map_size_singleton.
  - pose proof (contents_disjoint _ _ _ Hc). destruct Hc as (Hl & Hr & _).
    cbn. rewrite map_size_disj_union by done. by erewrite IHl, IHr.
Qed.

Lemma tsize_nonempty p t :
  canon p t -> (0 < tsize t)%nat -> exists k v, contents t !! k = Some v.
Proof.
  intros Hc Hs. rewrite <- (contents_size _ _ Hc) in Hs.
  destruct (map_choose (contents t)) as (k & v & ?); [|by eauto].
  intros H0. rewrite H0, map_size_empty in Hs. lia.
Qed.

(** A branch sits at one position only. *)
Lemma canon_B_position l r p q : canon p (B l r) -> canon q (B l r) -> p = q.
Proof.
  remember (B l r) as t eqn:Ht. revert l r p q Ht.
  induction t as [| |tl IHl tr IHr]; intros l r p q [= -> ->]. intros Hp Hq.
  destruct (decide (tsize l = 0)%nat) as [H0|Hl0]; [|destruct (decide (tsize r = 0)%nat) as [H0|Hr0]].
  - destruct Hp as (_ & Hp & Hs), Hq as (_ & Hq & _).
    destruct r as [| |r1 r2]; cbn in Hs; [lia|lia|].
    specialize (IHr _ _ _ _ eq_refl Hp Hq). by apply app_inj_2 in IHr as [-> _].
  - destruct Hp as (Hp & _ & Hs), Hq as (Hq & _ & _).
    destruct l as [| |l1 l2]; cbn in Hs; [lia|lia|].
    specialize (IHl _ _ _ _ eq_refl Hp Hq). by apply app_inj_2 in IHl as [-> _].
  - destruct Hp as (Hpl & Hpr & _), Hq as (Hql & Hqr & _).
    destruct (tsize_nonempty _ _ Hpl) as (k1 & v1 & H1); [lia|].
    destruct (tsize_nonempty _ _ Hpr) as (k2 & v2 & H2); [lia|].
    destruct (canon_prefix _ _ _ _ Hpl H1) as (_ & _ & [Pp1 Bp1]%prefix_snoc_inv).
    destruct (canon_prefix _ _ _ _ Hpr H2) as (_ & _ & [Pp2 Bp2]%prefix_snoc_inv).
    destruct (canon_prefix _ _ _ _ Hql H1) as (_ & _ & [Pq1 Bq1]%prefix_snoc_inv).
    destruct (canon_prefix _ _ _ _ Hqr H2) as (_ & _ & [Pq2 Bq2]%prefix_snoc_inv).
    assert (Hshort : forall a b : list bool, a `prefix_of` key_bits k1 ->
      a `prefix_of` key_bits k2 -> key_bits k1 !! length b = Some false ->
      key_bits k2 !! length b = Some true -> (length a <= length b)%nat).
    { intros a b [x1 Ha1] [x2 Ha2] Hb1 Hb2.
      destruct (decide (length a <= length b)%nat); [done|].
      rewrite Ha1, lookup_app_l in Hb1 by lia. rewrite Ha2, lookup_app_l in Hb2 by lia.
      congruence. }
    assert (length p = length q).
    { pose proof (Hshort p q). pose proof (Hshort q p). apply Nat.le_antisymm; auto. }
    destruct Pp1 as [x1 Hx1], Pq1 as [x2 Hx2]. rewrite Hx1 in Hx2.
    by apply app_inj_1 in Hx2 as [? _].
Qed.

(** Branches are above the last level. *)
Lemma canon_B_depth p l r : canon p (B l r) -> (length p < 256)%nat.
Proof.
  remember (B l r) as t eqn:Ht. revert l r p Ht.
  induction t as [| |tl IHl tr IHr]; intros l r p [= -> ->] Hc.
  pose proof Hc as (Hl & Hr & Hs).
  assert (Hany : forall b u k v, canon (p ++ [b]) u -> contents u !! k = Some v ->
    (length p < 256)%nat).
  { intros b u k v Hu Hk. destruct (canon_prefix _ _ _ _ Hu Hk) as (Hlen & _ & Hp).
    apply prefix_length in Hp. rewrite key_bits_length, length_app in Hp. cbn in Hp. lia. }
  destruct (decide (tsize l = 0)%nat).
  - destruct (tsize_nonempty _ _ Hr) as (? & ? & ?); [lia|]. eauto.
  - destruct (tsize_nonempty _ _ Hl) as (? & ? & ?); [lia|]. eauto.
Qed.

(** ** The trie of a map is unique *)

Lemma canon_small p t :
  canon p t -> (tsize t < 2)%nat -> t = E \/ exists k v, t = L k v.
Proof. destruct t as [|k v|l r]; [by left|by right; eauto|]. cbn. intros (_ & _ & ?). lia. Qed.

Lemma NoDup_fst_filter {A C} (P : A * C -> Prop) `{forall x, Decision (P x)} (l : list (A * C)) :
  NoDup l.*1 -> NoDup (filter P l).*1.
Proof. intros Hnd. eapply sublist_NoDup; [done|]. apply fmap_sublist, sublist_filter. Qed.

Lemma contents_half (l : list (Bytes32 * Bytes32)) p tl tr (b : bool) :
  canon p (B tl tr) -> NoDup l.*1 -> list_to_map l = contents (B tl tr) ->
  list_to_map (filter (fun kv => default false (key_bits kv.1 !! length p) = b) l) =
    contents (if b then tr else tl).
Proof.
  intros Hc Hnd Hl. apply map_eq. intros k. apply option_eq. intros v.
  rewrite <- elem_of_list_to_map, list_elem_of_filter by (done || by apply NoDup_fst_filter).
  rewrite elem_of_list_to_map, Hl by done. cbn [fst].
  assert (Hbit : forall v, contents (B tl tr) !! k = Some v ->
    exists c, key_bits k !! length p = Some c).
  { intros v' Hv. destruct (canon_prefix _ _ _ _ Hc Hv) as (Hk & _ & _).
    apply lookup_lt_is_Some. rewrite key_bits_length.
    pose proof (canon_B_depth _ _ _ Hc). lia. }
  split.
  - intros [Hb Hv]. destruct (Hbit v Hv) as [c Hcb]. rewrite Hcb in Hb. cbn in Hb. subst c.
    by rewrite (contents_B p _ _ _ b) in Hv.
  - intros Hv. assert (Hcb : key_bits k !! length p = Some b).
    { destruct Hc as (Hcl & Hcr & _).
      destruct b; [destruct (canon_prefix _ _ _ _ Hcr Hv) as (_ & _ & Hp)
                  |destruct (canon_prefix _ _ _ _ Hcl Hv) as (_ & _ & Hp)];
        by apply prefix_snoc_inv in Hp as [_ ?]. }
    rewrite Hcb. split; [done|]. by rewrite (contents_B p _ _ _ b).
Qed.

Lemma trie_of_unique fuel p t l :
  canon p t -> NoDup l.*1 -> list_to_map l = contents t -> (256 <= fuel + length p)%nat ->
  trie_of fuel (length p) l = t.
Proof.
  revert p t l. induction fuel as [|fuel IH]; intros p t l Hc Hnd Hl Hf;
    pose proof (contents_size _ _ Hc) as Hsz; rewrite <- Hl, map_size_list_to_map in Hsz by done;
    (destruct l as [|[k v] [|[k2 v2] l]];
      [ cbn in Hsz; destruct (canon_small _ _ Hc) as [->|(? & ? & ->)]; [lia|done|done]
      | cbn in Hsz; destruct (canon_small _ _ Hc) as [->|(k' & v' & ->)]; [lia|done|];
        cbn in Hl; rewrite insert_empty in Hl; assert (Hk : ({[k' := v']} : gmap Bytes32 Bytes32) !! k = Some v)
          by (rewrite <- Hl; apply lookup_singleton_eq);
        apply lookup_singleton_Some in Hk as [-> ->]; done | ]).
  - destruct t as [| |tl tr]; cbn in Hsz; [lia|lia|]. apply canon_B_depth in Hc. lia.
  - destruct t as [| |tl tr]; cbn in Hsz; [lia|lia|].
    set (l' := (k, v) :: (k2, v2) :: l) in *.
    change (trie_of (S fuel) (length p) l') with
      (B (trie_of fuel (S (length p)) (filter (fun kv => default false (key_bits kv.1 !! length p) = false) l'))
         (trie_of fuel (S (length p)) (filter (fun kv => default false (key_bits kv.1 !! length p) = true) l'))).
    assert (Hhalf : forall b : bool, trie_of fuel (S (length p))
      (filter (fun kv => default false (key_bits kv.1 !! length p) = b) l') = if b then tr else tl).
    { intros b. replace (S (length p)) with (length (p ++ [b])) by (rewrite length_app; cbn; lia).
      apply IH.
      - destruct Hc as (? & ? & _). by destruct b.
      - by apply NoDup_fst_filter.
      - by apply contents_half.
      - rewrite length_app. cbn. lia. }
    by rewrite (Hhalf false), (Hhalf true).
Qed.

Lemma smt_unique t m : canon [] t -> contents t = m -> smt m = t.
Proof.
  intros Hc Hm. apply (trie_of_unique 256 []); [done| |by rewrite list_to_map_to_list|cbn; lia].
  apply NoDup_fst_map_to_list.
Qed.

(** ** Hashes of tries *)

Section Hashing.
Context `{Sha256}.

(** [U] stands for the inputs ever hashed: digests have 32 bytes, and among the digests of
    [U] there is no collision and no zero. *)
Record collision_free (U : list byte -> Prop) : Prop := {
  cf_length a : length (sha256 a) = 32%nat;
  cf_inj a b : U a -> U b -> sha256 a = sha256 b -> a = b;
  cf_zero a : U a -> sha256 a <> zero_sum
}.

Fixpoint root_hash (t : trie) : Bytes32 :=
  match t with
  | E => zero_sum
  | L k v => calculate_leaf_hash k v
  | B l r => calculate_node_hash (root_hash l) (root_hash r)
  end.

(** All inputs hashed for the trie are in [U]. *)
Fixpoint hashed (U : list byte -> Prop) (t : trie) : Prop :=
  match t with
  | E => True
  | L k v => U ([PREFIX_LEAF] ++ k ++ v)
  | B l r => U ([PREFIX_NODE] ++ root_hash l ++ root_hash r) /\ hashed U l /\ hashed U r
  end.

Context (U : list byte -> Prop) (HU : collision_free U).

Lemma root_hash_length t : length (root_hash t) = 32%nat.
Proof. destruct t; [done|apply (cf_length U HU)..]. Qed.

Lemma root_hash_zero t : hashed U t -> root_hash t = zero_sum -> t = E.
Proof.
  destruct t; [done|..]; intros Ht H0; exfalso; revert H0; apply (cf_zero U HU); [done|].
  by destruct Ht.
Qed.

Lemma root_hash_inj t1 t2 p q :
  hashed U t1 -> hashed U t2 -> canon p t1 -> canon q t2 ->
  root_hash t1 = root_hash t2 -> t1 = t2.
Proof.
  revert t2 p q. induction t1 as [|k v|l1 IHl r1 IHr]; intros t2 p q H1 H2 C1 C2 Heq.
  - symmetry. apply root_hash_zero; [done|]. by rewrite <- Heq.
  - destruct t2 as [|k2 v2|l2 r2].
    + by apply root_hash_zero.
    + apply (cf_inj U HU) in Heq; [|done..]. injection Heq as Heq.
      destruct C1 as (L1 & _ & _), C2 as (L2 & _ & _).
      apply app_inj_1 in Heq as [-> ->]; [done|congruence].
    + apply (cf_inj U HU) in Heq; [done|done|apply H2].
  - destruct t2 as [|k2 v2|l2 r2].
    + by apply root_hash_zero.
    + apply (cf_inj U HU) in Heq; [done|apply H1|done].
    + destruct H1 as (U1 & Hl1 & Hr1), H2 as (U2 & Hl2 & Hr2).
      apply (cf_inj U HU) in Heq; [|done..]. injection Heq as Heq.
      apply app_inj_1 in Heq as [Hl Hr]; [|by rewrite !root_hash_length].
      destruct C1 as (? & ? & _), C2 as (? & ? & _).
      f_equal; [by eapply IHl|by eapply IHr].
Qed.

(** ** Nodes of a trie *)

(** The node at depth [d] whose subtree is [t]. *)
Definition tnode (d : nat) (t : trie) : Node :=
  match t with
  | E => Placeholder
  | L k v => Node_ (root_hash t) 0 PrefixLeaf k v
  | B l r => Node_ (root_hash t) (max_height - Z.of_nat d) PrefixNode (root_hash l) (root_hash r)
  end.

Lemma tnode_hash d t : node_hash (tnode d t) = root_hash t.
Proof. by destruct t. Qed.

(** [s] is the subtree of [t] at position [q], where [t] is at [p]. *)
Inductive sub : list bool -> trie -> list bool -> trie -> Prop :=
| sub_here p t : sub p t p t
| sub_l p l r q s : sub (p ++ [false]) l q s -> sub p (B l r) q s
| sub_r p l r q s : sub (p ++ [true]) r q s -> sub p (B l r) q s.

Lemma sub_canon p t q s : sub p t q s -> canon p t -> canon q s.
Proof. induction 1; [done|intros (? & ? & _); auto..]. Qed.

Lemma sub_trans p t q s q' s' : sub p t q s -> sub q s q' s' -> sub p t q' s'.
Proof. induction 1; intros; [done|apply sub_l; auto|apply sub_r; auto]. Qed.

Lemma sub_hashed p t q s : sub p t q s -> hashed U t -> hashed U s.
Proof. induction 1; [done|intros (? & ? & ?); auto..]. Qed.

Lemma sub_prefix p t q s : sub p t q s -> p `prefix_of` q.
Proof. induction 1; [done|by eapply prefix_app_l..]. Qed.

(** On the path of a key, the subtree holds the key's binding. *)
Lemma sub_lookup p t q s k :
  sub p t q s -> canon p t -> q `prefix_of` key_bits k -> contents s !! k = contents t !! k.
Proof.
  induction 1 as [|p l r q s Hs IH|p l r q s Hs IH]; intros Hc Hq; [done|..];
    pose proof Hc as (Hl & Hr & _); pose proof (sub_prefix _ _ _ _ Hs) as Hp;
    assert (Hb : p ++ _ `prefix_of` key_bits k) by (by etrans);
    apply prefix_snoc_inv in Hb as [_ Hb];
    rewrite (contents_B p _ _ _ _ Hc Hb); auto.
Qed.

Definition on_node (p : list bool) (t : trie) (h : Bytes32) (pr : Primitive) : Prop :=
  exists q s, sub p t q s /\ s <> E /\ h = root_hash s /\
    pr = node_to_primitive (tnode (length q) s).

Lemma on_node_here p t : t <> E -> on_node p t (root_hash t) (node_to_primitive (tnode (length p) t)).
Proof. intros. exists p, t. split_and!; [constructor|done..]. Qed.

Lemma on_node_E p h pr : ~ on_node p E h pr.
Proof. intros (q & s & Hs & Hne & _). inversion Hs; subst; done. Qed.

Lemma on_node_L p k v h pr :
  on_node p (L k v) h pr <->
  h = root_hash (L k v) /\ pr = node_to_primitive (tnode (length p) (L k v)).
Proof.
  split.
  - intros (q & s & Hs & _ & -> & ->). inversion Hs; subst. done.
  - intros [-> ->]. by apply on_node_here.
Qed.

Lemma on_node_B p l r h pr :
  on_node p (B l r) h pr <->
  (h = root_hash (B l r) /\ pr = node_to_primitive (tnode (length p) (B l r))) \/
  on_node (p ++ [false]) l h pr \/ on_node (p ++ [true]) r h pr.
Proof.
  split.
  - intros (q & s & Hs & Hne & -> & ->). inversion Hs; subst; [by left|..].
    + right. left. by exists q, s.
    + right. right. by exists q, s.
  - intros [[-> ->]|[(q & s & ? & ?)|(q & s & ? & ?)]]; [by apply on_node_here|..];
      exists q, s; (split; [by constructor|done]).
Qed.

(** A hash belongs to one node: equal hashes come from equal subtrees, and branches have one
    position. *)
Lemma on_node_functional p t h pr1 p' t' pr2 :
  canon p t -> canon p' t' -> hashed U t -> hashed U t' ->
  on_node p t h pr1 -> on_node p' t' h pr2 -> pr1 = pr2.
Proof.
  intros C1 C2 H1 H2 (q1 & s1 & Hs1 & Hn1 & -> & ->) (q2 & s2 & Hs2 & Hn2 & Hh & ->).
  pose proof (sub_canon _ _ _ _ Hs1 C1) as D1. pose proof (sub_canon _ _ _ _ Hs2 C2) as D2.
  apply root_hash_inj with (p := q1) (q := q2) in Hh;
    [|by eapply sub_hashed|by eapply sub_hashed|done|done]. subst s2.
  destruct s1 as [|k v|l r]; [done|done|]. by rewrite (canon_B_position _ _ _ _ D1 D2).
Qed.
End Hashing.

(** ** Paths through a trie

    A path is the list of the branches above a subtree, innermost first: the side taken and
    the sibling. *)

Definition plug (x : bool * trie) (t : trie) : trie := if x.1 then B x.2 t else B t x.2.
Definition plug_all (c : list (bool * trie)) (t : trie) : trie := foldl (fun t x => plug x t) t c.

(** Position of the hole of a path that starts at [p]. *)
Definition pos (p : list bool) (c : list (bool * trie)) : list bool := p ++ reverse c.*1.

Fixpoint descend (d : nat) (k : Bytes32) (t : trie) : list (bool * trie) * trie :=
  match t with
  | B l r =>
      let b := default false (key_bits k !! d) in
      let '(c, te) := descend (S d) k (if b then r else l) in
      (c ++ [(b, if b then l else r)], te)
  | _ => ([], t)
  end.

Fixpoint sides_canon (p : list bool) (c : list (bool * trie)) : Prop :=
  match c with
  | [] => True
  | (b, sib) :: c' => canon (pos p c' ++ [negb b]) sib /\ sides_canon p c'
  end.

Lemma pos_cons p b sib c : pos p ((b, sib) :: c) = pos p c ++ [b].
Proof. unfold pos. by rewrite fmap_cons, reverse_cons, app_assoc. Qed.

Lemma pos_length p c : length (pos p c) = (length p + length c)%nat.
Proof. unfold pos. by rewrite length_app, length_reverse, length_fmap. Qed.

Lemma plug_all_cons x c t : plug_all (x :: c) t = plug_all c (plug x t).
Proof. done. Qed.

Lemma plug_all_snoc c x t : plug_all (c ++ [x]) t = plug x (plug_all c t).
Proof. unfold plug_all. by rewrite foldl_app. Qed.

Lemma plug_size x t : tsize (plug x t) = (tsize x.2 + tsize t)%nat.
Proof. destruct x as [[] sib]; cbn; lia. Qed.

Lemma plug_canon p x t :
  canon p (plug x t) <->
  canon (p ++ [x.1]) t /\ canon (p ++ [negb x.1]) x.2 /\ (2 <= tsize x.2 + tsize t)%nat.
Proof. destruct x as [[] sib]; cbn; intuition lia. Qed.

Lemma plug_canon_inv p c t :
  canon p (plug_all c t) -> sides_canon p c /\ canon (pos p c) t.
Proof.
  revert t. induction c as [|[b sib] c IH]; intros t Hc.
  { unfold pos. cbn. by rewrite app_nil_r. }
  rewrite plug_all_cons in Hc. apply IH in Hc as [Hs Hc]. apply plug_canon in Hc as (Ht & Hsib & _).
  rewrite pos_cons. done.
Qed.

(** Replacing the subtree by one at least as large keeps the trie compact. *)
Lemma plug_canon_grow p c t t' :
  canon p (plug_all c t) -> canon (pos p c) t' -> (tsize t <= tsize t')%nat ->
  canon p (plug_all c t').
Proof.
  revert t t'. induction c as [|[b sib] c IH]; intros t t' Hc Ht' Hs.
  { unfold pos in Ht'. cbn in *. by rewrite app_nil_r in Ht'. }
  rewrite plug_all_cons in *. rewrite pos_cons in Ht'. apply (IH _ _ Hc).
  - apply plug_canon_inv in Hc as [_ Hc]. apply plug_canon in Hc as (_ & ? & ?).
    apply plug_canon. split_and!; [done..|]. cbn in *. lia.
  - rewrite !plug_size. lia.
Qed.

Lemma descend_plug d k t : plug_all (descend d k t).1 (descend d k t).2 = t.
Proof.
  revert d. induction t as [|k' v'|l IHl r IHr]; intros d; [done|done|]. cbn [descend].
  destruct (default false (key_bits k !! d)); [specialize (IHr (S d))|specialize (IHl (S d))];
    destruct (descend (S d) k _) as [c te]; cbn [fst snd] in *;
    rewrite plug_all_snoc; cbn; congruence.
Qed.

Lemma descend_end d k t : (descend d k t).2 = E \/ exists k' v', (descend d k t).2 = L k' v'.
Proof.
  revert d. induction t as [|k' v'|l IHl r IHr]; intros d; [by left|right; by eexists _, _|].
  cbn [descend]. destruct (default false (key_bits k !! d));
    [specialize (IHr (S d))|specialize (IHl (S d))]; by destruct (descend (S d) k _).
Qed.

Lemma pos_snoc p c b sib : pos p (c ++ [(b, sib)]) = pos (p ++ [b]) c.
Proof. unfold pos. rewrite fmap_app, reverse_app. by rewrite app_assoc. Qed.

Lemma key_bit k d : length k = 32%nat -> (d < 256)%nat -> exists b, key_bits k !! d = Some b.
Proof. intros. apply lookup_lt_is_Some. rewrite key_bits_length. lia. Qed.

Lemma descend_pos p k t :
  canon p t -> length k = 32%nat -> p `prefix_of` key_bits k ->
  pos p (descend (length p) k t).1 `prefix_of` key_bits k.
Proof.
  revert p. induction t as [|k' v'|l IHl r IHr]; intros p Hc Hk Hp;
    [by unfold pos; cbn; rewrite app_nil_r..|]. cbn [descend].
  destruct (key_bit k (length p) Hk (canon_B_depth _ _ _ Hc)) as [b Hb]. rewrite Hb. cbn [default].
  destruct Hc as (Hl & Hr & _). pose proof (prefix_snoc _ _ _ Hp Hb) as Hp'.
  replace (S (length p)) with (length (p ++ [b])) by (rewrite length_app; cbn; lia).
  destruct b; [specialize (IHr _ Hr Hk Hp')|specialize (IHl _ Hl Hk Hp')];
    destruct (descend _ k _) as [c te]; cbn [fst snd] in *; by rewrite pos_snoc.
Qed.

Section PathNodes.
Context `{Sha256}.

(** The nodes of a path, from the branch just above the hole to the root. *)
Fixpoint pnodes (p : list bool) (c : list (bool * trie)) (t : trie) : list Node :=
  match c with
  | [] => []
  | x :: c' => tnode (length p + length c') (plug x t) :: pnodes p c' (plug x t)
  end.

Definition side_hashes (c : list (bool * trie)) : list Bytes32 := (fun x => root_hash x.2) <$> c.

Fixpoint on_sides (p : list bool) (c : list (bool * trie)) (h : Bytes32) (pr : Primitive) : Prop :=
  match c with
  | [] => False
  | (b, sib) :: c' => on_node (pos p c' ++ [negb b]) sib h pr \/ on_sides p c' h pr
  end.

Lemma plug_not_E x t : plug x t <> E.
Proof. by destruct x as [[] ?]. Qed.

Lemma on_node_plug p x t h pr :
  on_node p (plug x t) h pr <->
  (h = root_hash (plug x t) /\ pr = node_to_primitive (tnode (length p) (plug x t))) \/
  on_node (p ++ [x.1]) t h pr \/ on_node (p ++ [negb x.1]) x.2 h pr.
Proof. destruct x as [[] sib]; cbn [plug fst snd negb]; rewrite on_node_B; tauto. Qed.

(** The nodes of a trie: those of the subtree at the hole, of the siblings, of the path. *)
Lemma on_node_plug_all p c t h pr :
  on_node p (plug_all c t) h pr <->
  on_node (pos p c) t h pr \/ on_sides p c h pr \/
  exists n, n ∈ pnodes p c t /\ h = node_hash n /\ pr = node_to_primitive n.
Proof.
  revert t. induction c as [|[b sib] c IH]; intros t.
  { unfold pos. cbn. rewrite app_nil_r. split; [by left|].
    intros [?|[[]|(n & ?%not_elem_of_nil & _)]]; done. }
  cbn [on_sides pnodes]. rewrite plug_all_cons, IH, on_node_plug, pos_cons. cbn [fst snd].
  rewrite pos_length. setoid_rewrite elem_of_cons.
  split.
  - intros [[[-> ->]|[?|?]]|[?|(n & ? & ?)]]; try tauto.
    + right; right. eexists. split; [by left|]. by rewrite tnode_hash.
    + right; right. exists n. tauto.
  - intros [?|[[?|?]|(n & [->|?] & -> & ->)]]; try tauto.
    + left; left. by rewrite tnode_hash.
    + right; right. by exists n.
Qed.

Lemma sub_step p t q x u :
  sub p t q (plug x u) -> sub p t (q ++ [x.1]) u.
Proof.
  remember (plug x u) as w eqn:Hw. induction 1; subst.
  - destruct x as [[] sib]; cbn; [apply sub_r|apply sub_l]; constructor.
  - apply sub_l. auto.
  - apply sub_r. auto.
Qed.

Lemma sub_plug_all p c t : sub p (plug_all c t) (pos p c) t.
Proof.
  revert t. induction c as [|[b sib] c IH]; intros t.
  { unfold pos. cbn. rewrite app_nil_r. constructor. }
  rewrite plug_all_cons, pos_cons. by apply (sub_step _ _ _ (b, sib)).
Qed.

(** Path nodes are branches at prefixes of the hole's position. *)
Lemma pnodes_sub p c t n :
  n ∈ pnodes p c t ->
  exists q l r, sub p (plug_all c t) q (B l r) /\ q `prefix_of` pos p c /\
    n = tnode (length q) (B l r).
Proof.
  revert t. induction c as [|[b sib] c IH]; intros t; cbn [pnodes];
    [by intros ?%not_elem_of_nil|].
  rewrite pos_cons. intros [->|Hn]%elem_of_cons.
  - assert (exists l r, plug (b, sib) t = B l r) as (l & r & Hp) by (destruct b; by eexists _, _).
    exists (pos p c), l, r. split_and!; [|by apply prefix_app_r|by rewrite pos_length, Hp].
    rewrite plug_all_cons, Hp. apply sub_plug_all.
  - destruct (IH _ Hn) as (q & l & r & ? & ? & ?). exists q, l, r.
    split_and!; [done|by apply prefix_app_r|done].
Qed.
End PathNodes.

(** ** Contents along a path *)

Fixpoint side_map (c : list (bool * trie)) : gmap Bytes32 Bytes32 :=
  match c with [] => ∅ | x :: c => contents x.2 ∪ side_map c end.

Lemma contents_plug p x t : canon p (plug x t) -> contents (plug x t) = contents t ∪ contents x.2.
Proof.
  destruct x as [[] sib]; intros Hc; [|done]. cbn. apply map_union_comm.
  by eapply contents_disjoint.
Qed.

Lemma contents_plug_all p c t :
  canon p (plug_all c t) -> contents (plug_all c t) = contents t ∪ side_map c.
Proof.
  revert t. induction c as [|x c IH]; intros t Hc; cbn [side_map].
  { by rewrite map_union_empty. }
  rewrite plug_all_cons in *. rewrite (IH _ Hc). apply plug_canon_inv in Hc as [_ Hc].
  rewrite (contents_plug _ _ _ Hc). by rewrite map_union_assoc.
Qed.

Lemma canon_off_path p t k :
  canon p t -> ~ p `prefix_of` key_bits k -> contents t !! k = None.
Proof.
  intros Hc Hp. destruct (contents t !! k) as [v|] eqn:Hv; [|done].
  by destruct (canon_prefix _ _ _ _ Hc Hv) as (_ & _ & ?).
Qed.

Lemma prefix_negb (p a : list bool) b : p ++ [b] `prefix_of` a -> ~ p ++ [negb b] `prefix_of` a.
Proof.
  intros [_ H1]%prefix_snoc_inv [_ H2]%prefix_snoc_inv. rewrite H1 in H2. by destruct b.
Qed.

Lemma side_map_off p c k :
  sides_canon p c -> pos p c `prefix_of` key_bits k -> side_map c !! k = None.
Proof.
  induction c as [|[b sib] c IH]; [done|]. intros [Hs Hc] Hp. rewrite pos_cons in Hp.
  cbn [side_map snd]. rewrite lookup_union, (canon_off_path _ _ _ Hs) by (by apply prefix_negb).
  rewrite IH; [done|done|]. by eapply prefix_app_l.
Qed.

(** A path from the root through placeholders, for [n] levels below depth [d]. *)
Fixpoint chain (k : Bytes32) (n d : nat) : list (bool * trie) :=
  match n with
  | O => []
  | S n' => (default false (key_bits k !! (d + n')%nat), E) :: chain k n' d
  end.

Lemma chain_length k n d : length (chain k n d) = n.
Proof. induction n; cbn; lia. Qed.

Lemma take_snoc_bit k d :
  length k = 32%nat -> (d < 256)%nat ->
  take (S d) (key_bits k) = take d (key_bits k) ++ [default false (key_bits k !! d)].
Proof.
  intros Hk Hd. destruct (key_bit k d Hk Hd) as [b Hb]. rewrite Hb. cbn.
  by apply take_S_r.
Qed.

Lemma chain_pos k n d :
  length k = 32%nat -> (d + n <= 256)%nat ->
  pos (take d (key_bits k)) (chain k n d) = take (d + n) (key_bits k).
Proof.
  intros Hk. induction n as [|n IH]; intros Hn.
  - unfold pos. cbn. by rewrite app_nil_r, Nat.add_0_r.
  - cbn [chain]. rewrite pos_cons, IH by lia. rewrite Nat.add_succ_r.
    by rewrite take_snoc_bit by lia.
Qed.

Lemma chain_side_map k n d : side_map (chain k n d) = ∅.
Proof. induction n; [done|]. cbn. by rewrite map_empty_union. Qed.

(** With two bindings or more, the branches above are compact whatever the siblings. *)
Lemma plug_canon_big p c t :
  sides_canon p c -> canon (pos p c) t -> (2 <= tsize t)%nat -> canon p (plug_all c t).
Proof.
  revert t. induction c as [|[b sib] c IH]; intros t Hs Hc Ht.
  { unfold pos in Hc. cbn in *. by rewrite app_nil_r in Hc. }
  rewrite plug_all_cons. rewrite pos_cons in Hc. destruct Hs as [Hsib Hs].
  apply IH; [done| |rewrite plug_size; cbn; lia]. apply plug_canon. split_and!; [done..|cbn; lia].
Qed.

Lemma chain_sides_canon p k n d : sides_canon p (chain k n d).
Proof. induction n; [done|]. by cbn. Qed.

Lemma sides_canon_app p c1 c2 :
  sides_canon p (c1 ++ c2) <-> sides_canon (pos p c2) c1 /\ sides_canon p c2.
Proof.
  induction c1 as [|[b sib] c1 IH]; cbn [app sides_canon]; [tauto|]. rewrite IH.
  assert (pos p (c1 ++ c2) = pos (pos p c2) c1) as ->; [|tauto].
  unfold pos. rewrite fmap_app, reverse_app. by rewrite app_assoc.
Qed.

Lemma pos_app p c1 c2 : pos p (c1 ++ c2) = pos (pos p c2) c1.
Proof. unfold pos. rewrite fmap_app, reverse_app. by rewrite app_assoc. Qed.

Lemma plug_all_app c1 c2 t : plug_all (c1 ++ c2) t = plug_all c2 (plug_all c1 t).
Proof. unfold plug_all. by rewrite foldl_app. Qed.

Lemma side_map_app c1 c2 : side_map (c1 ++ c2) = side_map c1 ∪ side_map c2.
Proof.
  induction c1 as [|x c1 IH]; cbn; [by rewrite map_empty_union|]. by rewrite IH, map_union_assoc.
Qed.

(** ** Insertion: the path to the new leaf *)

(** The branches created when [k] is inserted, given the path and the leaf the search ended
    in: the common ancestor of the two leaves and the placeholders above it. *)
Definition grow_pre (k : Bytes32) (c : list (bool * trie)) (te : trie) : list (bool * trie) :=
  match te with
  | L k' v' =>
      if decide (k = k') then []
      else
        let n := lcp (key_bits k) (key_bits k') in
        (default false (key_bits k !! n), te) :: chain k (n - length c) (length c)
  | _ => []
  end.

Definition grow (k : Bytes32) (c : list (bool * trie)) (te : trie) : list (bool * trie) :=
  grow_pre k c te ++ c.

Section Grow.
Context (k v : Bytes32) (c : list (bool * trie)) (te : trie).
Hypothesis Hk : length k = 32%nat.
Hypothesis Hv : length v = 32%nat.
Hypothesis Hc : canon [] (plug_all c te).
Hypothesis Hte : te = E \/ exists k' v', te = L k' v'.
Hypothesis Hp : pos [] c `prefix_of` key_bits k.

Lemma pos_take : pos [] c = take (length c) (key_bits k).
Proof.
  destruct Hp as [x ->]. by rewrite take_app_length' by (by rewrite pos_length).
Qed.

(** The two leaves part below the end of the search path. *)
Lemma join_facts k' v' :
  te = L k' v' -> k <> k' ->
  let n := lcp (key_bits k) (key_bits k') in
  (length c <= n < 256)%nat /\ exists b,
    key_bits k !! n = Some b /\
    canon (take n (key_bits k)) (plug (b, te) (L k v)) /\
    pos [] (chain k (n - length c) (length c) ++ c) = take n (key_bits k).
Proof.
  intros -> Hne n. apply plug_canon_inv in Hc as [Hs (Hk' & Hv' & Hp')].
  assert (Hlen : length (key_bits k) = length (key_bits k')) by (rewrite !key_bits_length; lia).
  destruct (lcp_differ _ _ Hlen) as (b & Hb & Hb').
  { intros ?%key_bits_inj; [done|lia]. }
  assert (Hn : (length c <= n < 256)%nat).
  { split.
    - change (length c) with (length (@nil bool) + length c)%nat. rewrite <- pos_length.
      by apply prefix_lcp.
    - apply lookup_lt_Some in Hb. rewrite key_bits_length in Hb. lia. }
  split; [done|]. exists b. split_and!; [done| |].
  - apply plug_canon. cbn [fst snd].
    assert (length (take n (key_bits k)) = n) as Hl by (rewrite length_take, key_bits_length; lia).
    split_and!.
    + cbn. split_and!; [done..|]. apply prefix_snoc; [apply prefix_take|by rewrite Hl].
    + cbn. split_and!; [done..|]. apply prefix_snoc; [|by rewrite Hl].
      unfold n. rewrite lcp_take. apply prefix_take.
    + cbn. lia.
  - rewrite pos_app, pos_take, chain_pos by lia. f_equal. lia.
Qed.

Lemma grow_canon : canon [] (plug_all (grow k c te) (L k v)).
Proof.
  unfold grow, grow_pre. destruct Hte as [He|(k' & v' & He)].
  { rewrite He. apply plug_canon_grow with (t := te); [done|done|rewrite He; cbn; lia]. }
  rewrite He. case_decide as Hkk.
  { apply plug_canon_grow with (t := te); [done|done|by rewrite He]. }
  destruct (join_facts k' v' He Hkk) as (Hn & b & Hb & Hcan & Hpos). rewrite <- He.
  rewrite <- app_comm_cons, plug_all_cons, Hb. cbn [default from_option id].
  apply plug_canon_big.
  - apply sides_canon_app. split; [apply chain_sides_canon|]. by apply plug_canon_inv in Hc as [? _].
  - by rewrite Hpos.
  - rewrite plug_size, He. cbn. lia.
Qed.

Lemma grow_contents : contents (plug_all (grow k c te) (L k v)) = <[k := v]> (contents (plug_all c te)).
Proof.
  rewrite (contents_plug_all _ _ _ grow_canon), (contents_plug_all _ _ _ Hc). cbn [contents].
  unfold grow, grow_pre. destruct Hte as [He|(k' & v' & He)]; rewrite He; cbn [contents].
  { by rewrite map_empty_union, insert_union_singleton_l. }
  case_decide as Hkk; [subst k'|].
  - by rewrite insert_union_l, insert_singleton_eq.
  - rewrite <- app_comm_cons. cbn [side_map snd contents]. rewrite side_map_app, chain_side_map, map_empty_union.
    by rewrite insert_union_singleton_l.
Qed.

Lemma grow_pos : pos [] (grow k c te) `prefix_of` key_bits k.
Proof.
  unfold grow, grow_pre. destruct Hte as [He|(k' & v' & He)]; [by rewrite He|]. rewrite He.
  case_decide as Hkk; [done|].
  destruct (join_facts k' v' He Hkk) as (Hn & b & Hb & Hcan & Hpos).
  rewrite <- app_comm_cons, pos_cons, Hpos, Hb. apply prefix_snoc; [apply prefix_take|].
  rewrite length_take, key_bits_length. cbn [default from_option id]. rewrite <- Hb. f_equal. lia.
Qed.
End Grow.

(** ** Every map has its trie *)

Lemma descend_facts k t :
  canon [] t -> length k = 32%nat ->
  exists c te, descend 0 k t = (c, te) /\ plug_all c te = t /\
    (te = E \/ exists k' v', te = L k' v') /\ pos [] c `prefix_of` key_bits k.
Proof.
  intros Hc Hk. pose proof (descend_plug 0 k t) as Hp. pose proof (descend_end 0 k t) as He.
  pose proof (descend_pos [] k t Hc Hk (prefix_nil _)) as Hpos. cbn [length] in Hpos.
  destruct (descend 0 k t) as [c te]. by exists c, te.
Qed.

Lemma canon_exists m : keys_ok m -> exists t, canon [] t /\ contents t = m.
Proof.
  induction m as [|k v m Hm IH] using map_ind; intros Hk.
  { by exists E. }
  apply map_Forall_insert in Hk as [[Hlk Hlv] Hk]; [|done].
  destruct (IH Hk) as (t & Hc & <-).
  destruct (descend_facts k t Hc Hlk) as (c & te & _ & Hp & Hte & Hpos).
  rewrite <- Hp in Hc. exists (plug_all (grow k c te) (L k v)).
  split; [by apply grow_canon|]. by rewrite grow_contents, Hp.
Qed.

Lemma smt_spec m : keys_ok m -> canon [] (smt m) /\ contents (smt m) = m.
Proof. intros (t & Hc & Hm)%canon_exists. by rewrite (smt_unique t m). Qed.

(** ** Deletion *)

(** A leaf moved up along its path, past placeholder siblings. *)
Fixpoint lift (c : list (bool * trie)) (t : trie) : trie :=
  match c with
  | (b, E) :: c' => lift c' t
  | _ => plug_all c t
  end.

(** The trie left when the subtree at the end of the path is removed. *)
Definition shrink (c : list (bool * trie)) : trie :=
  match c with
  | (b, L k v) :: c' => lift c' (L k v)
  | _ => plug_all c E
  end.

Lemma canon_L_up p q k v : p `prefix_of` q -> canon q (L k v) -> canon p (L k v).
Proof. intros Hp (? & ? & ?). split_and!; [done..|]. by etrans. Qed.

Lemma lift_facts c k v :
  sides_canon [] c -> canon (pos [] c) (L k v) ->
  exists c1 c2, c = c1 ++ c2 /\ Forall (fun x => x.2 = E) c1 /\
    lift c (L k v) = plug_all c2 (L k v) /\ canon [] (plug_all c2 (L k v)) /\
    match c2 with [] => True | x :: _ => x.2 <> E end.
Proof.
  induction c as [|[b sib] c IH]; intros Hs Hc.
  { exists [], []. split_and!; [done..|exact Hc|done]. }
  destruct Hs as [Hsib Hs]. rewrite pos_cons in Hc.
  destruct (decide (sib = E)) as [->|Hne].
  - destruct IH as (c1 & c2 & -> & H1 & H2 & H3 & H4); [done| |].
    { eapply canon_L_up; [|done]. by apply prefix_app_r. }
    exists ((b, E) :: c1), c2. split_and!; [done|by constructor|done..].
  - exists [], ((b, sib) :: c). split_and!; [done|done| | |done].
    + cbn [lift]. by destruct sib.
    + rewrite plug_all_cons. apply plug_canon_big; [done| |].
      * apply plug_canon. split_and!; [done|done|]. cbn. destruct sib; cbn in *; [done|lia|lia].
      * rewrite plug_size. cbn. destruct sib; cbn in *; [done|lia|lia].
Qed.

Lemma side_map_placeholders c : Forall (fun x => x.2 = E) c -> side_map c = ∅.
Proof.
  induction 1 as [|[b sib] c Hx _ IH]; [done|]. cbn [side_map snd] in *. subst. cbn [contents].
  by rewrite IH, map_empty_union.
Qed.

(** The sibling of a small subtree is not a placeholder. *)
Lemma first_sibling te b sib c' :
  canon [] (plug_all ((b, sib) :: c') te) -> (tsize te <= 1)%nat ->
  sib <> E /\ canon (pos [] c' ++ [negb b]) sib /\ sides_canon [] c'.
Proof.
  rewrite plug_all_cons. intros [Hs Hp]%plug_canon_inv Hte.
  apply plug_canon in Hp as (_ & Hsib & Hsz). split_and!; [|done|done].
  intros ->. cbn in Hsz. lia.
Qed.

Lemma shrink_facts c te :
  canon [] (plug_all c te) -> (tsize te <= 1)%nat ->
  canon [] (shrink c) /\ contents (shrink c) = side_map c.
Proof.
  intros Hc Hte. destruct c as [|[b sib] c']; [done|].
  destruct (first_sibling te b sib c' Hc Hte) as (Hne & Hsib & Hs).
  cbn [shrink]. destruct sib as [|k v|l r]; [done|..].
  - destruct (lift_facts c' k v) as (c1 & c2 & -> & H1 & -> & H3 & _); [done| |].
    { eapply canon_L_up; [|done]. by apply prefix_app_r. }
    split; [done|]. rewrite (contents_plug_all _ _ _ H3). cbn [contents side_map snd].
    by rewrite side_map_app, (side_map_placeholders _ H1), map_empty_union.
  - assert (Hcan : canon [] (plug_all ((b, B l r) :: c') E)).
    { rewrite plug_all_cons. destruct Hsib as (? & ? & ?). apply plug_canon_big; [done| |].
      - apply plug_canon. split_and!; [done|done|]. cbn. lia.
      - rewrite plug_size. cbn. lia. }
    split; [done|]. rewrite (contents_plug_all _ _ _ Hcan). cbn [contents].
    by rewrite map_empty_union.
Qed.
Lemma shrink_contents c k v :
  canon [] (plug_all c (L k v)) -> contents (shrink c) = delete k (contents (plug_all c (L k v))).
Proof.
  intros Hc. rewrite (proj2 (shrink_facts c (L k v) Hc ltac:(cbn; lia))).
  rewrite (contents_plug_all _ _ _ Hc). cbn [contents]. rewrite delete_union, delete_singleton_eq.
  rewrite map_empty_union, delete_id; [done|].
  apply plug_canon_inv in Hc as [Hs (_ & _ & Hp)]. by eapply side_map_off.
Qed.
