(* ===== verification/SparseProofs.v ===== *)
(** * Correctness of the sparse Merkle tree

    The operations of Sparse, on a storage that behaves like a map, refine a finite map: the
    tree always is the compact trie of the map (SparseTrie), and the storage holds exactly the
    nodes of that trie. *)

From Stdlib Require Import Strings.Byte.
From S2P Require Import Prelude Merkle Sparse SparseTrie.
Import Sparse.

(** ** Storage edits *)

Inductive edit : Type :=
| Ins (h : Bytes32) (pr : Primitive)
| Del (h : Bytes32).

#[export] Instance edit_eq_dec : EqDecision edit.
Proof. solve_decision. Defined.

Definition apply_edit (v : gmap Bytes32 Primitive) (e : edit) : gmap Bytes32 Primitive :=
  match e with Ins h pr => <[h := pr]> v | Del h => delete h v end.

(** The edits performed on a storage, one after the other. *)
Fixpoint runs {S} `{StorageMutate S} (es : list edit) (s s' : S) : Prop :=
  match es with
  | [] => s = s'
  | Ins h pr :: es => exists s1, st_insert s h pr = Ok s1 /\ runs es s1 s'
  | Del h :: es => exists s1, st_remove s h = Ok s1 /\ runs es s1 s'
  end.

(** A storage whose insertions succeed. *)
Class InsertStorage (S : Type) `{StorageMutate S} : Prop :=
  insert_total : forall (s : S) h pr, exists s', st_insert s h pr = Ok s'.

(** A storage that behaves like a map. *)
Class MapStorage (S : Type) `{StorageMutate S} : Type := {
  view : S -> gmap Bytes32 Primitive;
  get_view s h : st_get s h = Ok (view s !! h);
  insert_view s h pr :
    exists s', st_insert s h pr = Ok s' /\ view s' = <[h := pr]> (view s);
  remove_view s h : exists s', st_remove s h = Ok s' /\ view s' = delete h (view s)
}.

#[export] Instance storage_map_laws : MapStorage (gmap Bytes32 Primitive).
Proof.
  refine {| view s := s |}; [done|intros; by eexists..].
Defined.

#[export] Instance map_storage_insert S `{MapStorage S} : InsertStorage S.
Proof. intros s h pr. destruct (insert_view s h pr) as (s' & ? & _). eauto. Qed.
#[export] Instance empty_storage_insert : InsertStorage EmptyStorage.
Proof. intros s h pr. by eexists. Qed.
#[export] Instance vector_storage_insert : InsertStorage VectorStorage.
Proof. intros s h pr. by eexists. Qed.

Section Runs.
Context {S : Type} `{StorageMutate S}.
Implicit Types (s : S) (es : list edit).

Lemma runs_app es1 es2 s1 s2 s3 : runs es1 s1 s2 -> runs es2 s2 s3 -> runs (es1 ++ es2) s1 s3.
Proof.
  revert s1. induction es1 as [|[] es1 IH]; intros s1; cbn; [by intros ->|..];
    intros (s' & ? & ?) ?; eauto.
Qed.

Lemma runs_view `{!MapStorage S} es s s' : runs es s s' -> view s' = foldl apply_edit (view s) es.
Proof.
  revert s. induction es as [|[h pr|h] es IH]; intros s; cbn; [by intros ->|..];
    intros (s1 & E1 & ->%IH).
  - destruct (insert_view s h pr) as (s2 & E2 & Hv). congruence.
  - destruct (remove_view s h) as (s2 & E2 & Hv). congruence.
Qed.
End Runs.

Definition ins_only (es : list edit) : Prop := forall h, Del h ∉ es.
Definition functional (es : list edit) : Prop :=
  forall h p1 p2, Ins h p1 ∈ es -> Ins h p2 ∈ es -> p1 = p2.

(** What a sequence of edits leaves: deletions of [ds] first, then edits whose insertions are
    consistent and are not deleted among themselves. *)
Lemma edits_lookup es v h :
  functional es -> (forall h pr, Ins h pr ∈ es -> Del h ∉ es) ->
  (forall pr, Ins h pr ∈ es -> foldl apply_edit v es !! h = Some pr) /\
  (Del h ∈ es -> foldl apply_edit v es !! h = None) /\
  ((forall pr, Ins h pr ∉ es) -> Del h ∉ es -> foldl apply_edit v es !! h = v !! h).
Proof.
  induction es as [|e es IH] using rev_ind; intros Hf Hd.
  { split_and!; [by intros ? ?%not_elem_of_nil|by intros ?%not_elem_of_nil|done]. }
  rewrite foldl_app. cbn [foldl]. unfold functional in *.
  setoid_rewrite elem_of_app in Hf. setoid_rewrite elem_of_app in Hd.
  setoid_rewrite list_elem_of_singleton in Hf. setoid_rewrite list_elem_of_singleton in Hd.
  setoid_rewrite elem_of_app. setoid_rewrite list_elem_of_singleton.
  destruct IH as (IH1 & IH2 & IH3); [by eauto|by intros h' pr Hi Hx; eapply Hd; eauto|].
  destruct e as [h' pr'|h']; cbn [apply_edit]; (destruct (decide (h = h')) as [<-|Hne];
    [rewrite ?lookup_insert_eq, ?lookup_delete_eq
    |rewrite ?lookup_insert_ne, ?lookup_delete_ne by done]).
  - split_and!; [intros pr Hi; f_equal; eapply Hf; eauto|intros Hx; exfalso; eapply Hd; eauto|].
    intros Hn. exfalso. eapply Hn. eauto.
  - split_and!; [naive_solver..|intros Hn Hn']. apply IH3; [intros pr Hp; eapply Hn; eauto|auto].
  - split_and!; [intros pr Hi; exfalso; eapply Hd; eauto|done|]. intros _ Hn. exfalso. eauto.
  - split_and!; [naive_solver..|intros Hn Hn']. apply IH3; [intros pr Hp; eapply Hn; eauto|auto].
Qed.

Lemma dels_lookup ds v h :
  foldl apply_edit v (Del <$> ds) !! h = if decide (h ∈ ds) then None else v !! h.
Proof.
  revert v. induction ds as [|d ds IH]; intros v.
  { rewrite decide_False; [done|]. apply not_elem_of_nil. }
  cbn. rewrite IH. destruct (decide (h ∈ ds)); [by rewrite decide_True by (by right)|].
  destruct (decide (h = d)) as [<-|Hne].
  - rewrite decide_True by (by left). apply lookup_delete_eq.
  - rewrite decide_False by (by rewrite elem_of_cons; intros [?|?]).
    by rewrite lookup_delete_ne by done.
Qed.

(** ** Reading a path *)

Section Proofs.
Context `{Sha256} (U : list byte -> Prop) (HU : collision_free U).
Context {S : Type} `{MapStorage S}.
Implicit Types (s : S) (t : trie) (c : list (bool * trie)).

(** The storage has the nodes of the trie. *)
Definition holds (p : list bool) t s : Prop :=
  forall h pr, on_node p t h pr -> view s !! h = Some pr.

Lemma node_try_from_tnode d t : t <> E -> node_try_from (node_to_primitive (tnode d t)) = Ok (tnode d t).
Proof. by destruct t. Qed.

Lemma child_at_spec p t s n b key :
  hashed U t -> holds (p ++ [b]) t s -> is_leaf n = false -> key = root_hash t ->
  child_at s n key = Ok (tnode (Datatypes.S (length p)) t).
Proof.
  intros Ht Hh Hn ->. unfold child_at. rewrite Hn. case_decide as Hz.
  { by rewrite (root_hash_zero U HU t Ht Hz). }
  assert (Hne : t <> E) by (by intros ->).
  rewrite get_view, (Hh _ _ (on_node_here _ _ Hne)). cbn [omap_err obind ok_or].
  rewrite node_try_from_tnode by done. cbn. do 2 f_equal. rewrite length_app. cbn. lia.
Qed.

Lemma get_instruction_bit k d (b : bool) :
  key_bits k !! d = Some b -> get_instruction k (Z.of_nat d) = Some (side_of_bit b).
Proof. intros Hb. unfold get_instruction. rewrite get_bit_spec, Nat2Z.id by lia. by rewrite Hb. Qed.

Lemma pnodes_snoc p c b sib t :
  pnodes p (c ++ [(b, sib)]) t =
  pnodes (p ++ [b]) c t ++ [tnode (length p) (plug (b, sib) (plug_all c t))].
Proof.
  revert t. induction c as [|x c IH]; intros t.
  - cbn. by rewrite Nat.add_0_r.
  - cbn [pnodes app]. rewrite IH, plug_all_cons, !length_app. cbn. f_equal. f_equal. lia.
Qed.

Lemma path_iter_spec fuel p k t s sk :
  canon p t -> hashed U t -> holds p t s -> length k = 32%nat -> p `prefix_of` key_bits k ->
  (256 <= fuel + length p)%nat ->
  exists l,
    collect_path (path_iter fuel s k (Ok (tnode (length p) t), Ok sk) (Z.of_nat (length p))) = Ok l /\
    let '(c, te) := descend (length p) k t in
    reverse l.*1 = tnode (length p + length c) te :: pnodes p c te /\
    reverse l.*2 = side_hashes c ++ [sk].
Proof.
  revert fuel p sk. induction t as [|k' v'|l IHl r IHr]; intros fuel p sk Hc Hu Hh Hk Hp Hf.
  { exists [(Placeholder, sk)]. by destruct fuel. }
  { exists [(tnode (length p) (L k' v'), sk)].
    by destruct fuel. }
  pose proof (canon_B_depth _ _ _ Hc) as Hd.
  destruct (key_bit k (length p) Hk Hd) as [b Hb].
  destruct fuel as [|fuel]; [lia|]. cbn [path_iter fst].
  change (is_node (tnode (length p) (B l r))) with true. cbn iota.
  rewrite (get_instruction_bit _ _ _ Hb). cbn [descend]. rewrite Hb. cbn [default from_option id].
  set (ch := if b then r else l). set (sib := if b then l else r).
  assert (Hch : canon (p ++ [b]) ch /\ hashed U ch /\ holds (p ++ [b]) ch s).
  { destruct Hc as (? & ? & _), Hu as (_ & ? & ?). subst ch.
    destruct b; split_and!; try done; intros h pr Hn; apply Hh, on_node_B; auto. }
  destruct Hch as (Hcc & Hcu & Hchh).
  assert (IH : exists l0,
    collect_path (path_iter fuel s k (Ok (tnode (Datatypes.S (length p)) ch), Ok (root_hash sib))
      (Z.of_nat (length p) + 1)) = Ok l0 /\
    let '(c, te) := descend (Datatypes.S (length p)) k ch in
    reverse l0.*1 = tnode (Datatypes.S (length p) + length c) te :: pnodes (p ++ [b]) c te /\
    reverse l0.*2 = side_hashes c ++ [root_hash sib]).
  { replace (Z.of_nat (length p) + 1) with (Z.of_nat (length (p ++ [b])))
      by (rewrite length_app; cbn; lia).
    replace (Datatypes.S (length p)) with (length (p ++ [b])) by (rewrite length_app; cbn; lia).
    pose proof (prefix_snoc _ _ _ Hp Hb) as Hp'. subst ch.
    destruct b; [apply IHr|apply IHl]; try done; rewrite length_app; cbn; lia. }
  destruct IH as (l0 & Hl0 & Hdesc).
  exists ((tnode (length p) (B l r), sk) :: l0). split.
  - assert (Hpi : forall side, side = side_of_bit b ->
      match side with
      | Left => path_iter fuel s k (left_child s (tnode (length p) (B l r)),
          right_child_key (tnode (length p) (B l r))) (Z.of_nat (length p) + 1)
      | Right => path_iter fuel s k (right_child s (tnode (length p) (B l r)),
          left_child_key (tnode (length p) (B l r))) (Z.of_nat (length p) + 1)
      end = path_iter fuel s k (Ok (tnode (Datatypes.S (length p)) ch), Ok (root_hash sib))
          (Z.of_nat (length p) + 1)).
    { intros side ->. subst ch sib. destruct b; cbn [side_of_bit]; f_equal;
        unfold left_child, right_child; f_equal; by eapply child_at_spec. }
    cbn [collect_path omap_err obind]. rewrite (Hpi _ eq_refl), Hl0. done.
  - destruct (descend (Datatypes.S (length p)) k ch) as [c te] eqn:Ed.
    assert (Hplug : plug_all c te = ch).
    { pose proof (descend_plug (Datatypes.S (length p)) k ch) as Hpl. by rewrite Ed in Hpl. }
    destruct Hdesc as [Hr1 Hr2]. rewrite !fmap_cons, !reverse_cons, Hr1, Hr2. cbn beta iota zeta. cbn [fst snd]. split.
    + rewrite pnodes_snoc, Hplug, length_app. cbn [length app]. f_equal; [f_equal; lia|].
      f_equal. subst ch sib. by destruct b.
    + unfold side_hashes. by rewrite fmap_app.
Qed.

Lemma path_iter_leaf fuel s k n x off :
  is_node n = false -> path_iter fuel s k (Ok n, x) off = [(Ok n, x)].
Proof. intros Hn. destruct fuel; cbn [path_iter fst]; by rewrite ?Hn. Qed.

Lemma path_set_spec t k s :
  canon [] t -> hashed U t -> holds [] t s -> length k = 32%nat ->
  let '(c, te) := descend 0 k t in
  path_set (mkTree (tnode 0 t) s) k = Ok (tnode (length c) te :: pnodes [] c te, side_hashes c).
Proof.
  intros Hc Hu Hh Hk. unfold path_set, as_path_iter. cbn [root_node tree_storage].
  destruct (path_iter_spec 256 [] k t s (node_hash (tnode 0 t)) Hc Hu Hh Hk) as (l & Hl & Hr);
    [apply prefix_nil|cbn; lia|]. cbn [length Nat.add] in Hl, Hr.
  destruct (descend 0 k t) as [c te]. destruct Hr as [Hr1 Hr2].
  assert (Hoff : exists off, checked_sub max_height (node_height (tnode 0 t)) = Some off /\
    path_iter (Z.to_nat max_height) s k (Ok (tnode 0 t), Ok (node_hash (tnode 0 t))) off =
    path_iter 256 s k (Ok (tnode 0 t), Ok (node_hash (tnode 0 t))) (Z.of_nat 0)).
  { change (Z.to_nat max_height) with 256%nat.
    destruct t as [|k' v'|l' r']; [exists 256|exists 256|exists 0];
      (split; [done|rewrite ?path_iter_leaf by done; done]). }
  destruct Hoff as (off & -> & Hpi). cbn [expect obind]. rewrite Hpi, Hl. cbn [obind].
  rewrite Hr1, Hr2, length_app. cbn [length]. rewrite Nat.add_sub. by rewrite take_app_length.
Qed.

(** ** Exactness of the storage *)

(** The storage holds the nodes of the trie and nothing else. *)
Definition exact t s : Prop := forall h pr, view s !! h = Some pr <-> on_node [] t h pr.

Lemma ins_dec h (es : list edit) : {pr | Ins h pr ∈ es} + {forall pr, Ins h pr ∉ es}.
Proof.
  induction es as [|[h' pr'|h'] es IH].
  - right. intros pr. apply not_elem_of_nil.
  - destruct (decide (h = h')) as [->|Hne]; [left; exists pr'; by left|].
    destruct IH as [[pr Hpr]|Hn]; [left; exists pr; by right|right].
    intros pr [[= -> ->]|Hp]%elem_of_cons; [done|by apply (Hn pr)].
  - destruct IH as [[pr Hpr]|Hn]; [left; exists pr; by right|right].
    intros pr [[=]|Hp]%elem_of_cons. by apply (Hn pr).
Qed.

(** Deleting [ds] and then editing turns a storage exact for [T] into one exact for [T']. *)
Lemma exact_step T T' ds es s s' :
  exact T s -> runs ((Del <$> ds) ++ es) s s' -> canon [] T' -> hashed U T' ->
  (forall h pr, Ins h pr ∈ es -> on_node [] T' h pr) ->
  (forall h pr, Del h ∈ es -> ~ on_node [] T' h pr) ->
  (forall h pr, on_node [] T' h pr -> Ins h pr ∈ es \/ on_node [] T h pr /\ h ∉ ds) ->
  (forall h pr, on_node [] T h pr -> h ∉ ds -> on_node [] T' h pr \/ Del h ∈ es) ->
  exact T' s'.
Proof.
  intros Hx Hr Hc Hu Hins Hdel Hnew Hold h pr.
  rewrite (runs_view _ _ _ Hr), foldl_app.
  set (v := foldl apply_edit (view s) (Del <$> ds)).
  destruct (edits_lookup es v h) as (L1 & L2 & L3).
  { intros h' p1 p2 H1' H2'. by eapply (on_node_functional U HU [] T' h' p1 [] T'); eauto. }
  { intros h' pr' Hi Hd. by eapply Hdel; eauto. }
  assert (Hv : v !! h = if decide (h ∈ ds) then None else view s !! h) by apply dels_lookup.
  destruct (ins_dec h es) as [[pr' Hi]|Hni].
  { rewrite (L1 _ Hi). split; [intros [= ->]; auto|]. intros Hn. f_equal.
    by eapply (on_node_functional U HU [] T' h pr' [] T'); eauto. }
  destruct (decide (Del h ∈ es)) as [Hd|Hnd].
  { rewrite (L2 Hd). split; [done|]. intros Hn. by destruct (Hdel h pr Hd). }
  rewrite (L3 Hni Hnd), Hv. split.
  - case_decide as Hds; [done|]. intros Ho%Hx. by destruct (Hold h pr Ho Hds).
  - intros Hn. destruct (Hnew h pr Hn) as [Hi|[Ho Hds]]; [by destruct (Hni pr)|].
    rewrite decide_False by done. by apply Hx.
Qed.

(** An old path node is not part of a trie that disagrees on the key of the path. *)
Lemma path_node_gone c te T' k n pr :
  canon [] (plug_all c te) -> hashed U (plug_all c te) -> canon [] T' -> hashed U T' ->
  pos [] c `prefix_of` key_bits k ->
  contents (plug_all c te) !! k <> contents T' !! k ->
  n ∈ pnodes [] c te -> ~ on_node [] T' (node_hash n) pr.
Proof.
  intros C1 U1 C2 U2 Hp Hne (q & l & r & Hs & Hq & ->)%pnodes_sub (q' & u & Hs' & Hn' & Hh & _).
  pose proof (sub_canon _ _ _ _ Hs C1) as D1. pose proof (sub_canon _ _ _ _ Hs' C2) as D2.
  rewrite tnode_hash in Hh. apply (root_hash_inj U HU) with (p := q) (q := q') in Hh;
    [|by eapply sub_hashed|by eapply sub_hashed|done|done]. subst u.
  pose proof (canon_B_position _ _ _ _ D1 D2) as <-. apply Hne.
  assert (Hqk : q `prefix_of` key_bits k) by (by etrans).
  rewrite <- (sub_lookup _ _ _ _ k Hs C1 Hqk). by apply (sub_lookup _ _ _ _ k Hs').
Qed.

Lemma leaf_gone T' k v pr :
  canon [] T' -> hashed U T' -> length k = 32%nat -> length v = 32%nat ->
  hashed U (L k v) -> contents T' !! k <> Some v -> ~ on_node [] T' (root_hash (L k v)) pr.
Proof.
  intros C U' Hk Hv Hu Hne (q & u & Hs & Hn & Hh & _).
  pose proof (sub_canon _ _ _ _ Hs C) as D.
  apply (root_hash_inj U HU) with (p := []) (q := q) in Hh;
    [|done|by eapply sub_hashed|by split_and!; [..|apply prefix_nil]|done]. subst u.
  apply Hne. rewrite <- (sub_lookup _ _ _ _ k Hs C) by apply D. apply lookup_singleton_eq.
Qed.
End Proofs.

(** ** Building nodes *)

Definition ins_node (n : Node) : edit := Ins (node_hash n) (node_to_primitive n).

(** The edits of the loop over side nodes. *)
Fixpoint merge_edits (drop_old : bool) (news olds : list Node) : list edit :=
  match news, olds with
  | n :: news, o :: olds =>
      ins_node n :: (if drop_old then [Del (node_hash o)] else []) ++ merge_edits drop_old news olds
  | _, _ => []
  end.

Section Building.
Context `{Sha256} {S : Type} `{InsertStorage S}.
Implicit Types (s : S) (t : trie) (c : list (bool * trie)).

Lemma store_node_spec s n : exists s', store_node s n = Ok s' /\ runs [ins_node n] s s'.
Proof.
  unfold store_node. destruct (insert_total s (node_hash n) (node_to_primitive n)) as [s' Hs].
  rewrite Hs. exists s'. split; [done|]. by exists s'.
Qed.

Lemma create_leaf_tnode d k data : create_leaf k data = tnode d (L k (sha256 data)).
Proof. done. Qed.

Lemma node_height_B d l r : node_height (tnode d (B l r)) = max_height - Z.of_nat d.
Proof. done. Qed.

(** Joining a branch with a placeholder. *)
Lemma create_node_on_path_placeholder {Er} k d l r (b : bool) :
  (d < 256)%nat -> key_bits k !! d = Some b ->
  create_node_on_path (E := Er) k (tnode (Datatypes.S d) (B l r)) Placeholder =
    Ok (tnode d (plug (b, E) (B l r))).
Proof.
  intros Hd Hb. unfold create_node_on_path.
  change (is_leaf (tnode (Datatypes.S d) (B l r))) with false. cbn [andb].
  rewrite node_height_B. cbn [node_height]. unfold max_height in *.
  rewrite Z.max_l by lia.
  replace (256 - (256 - Z.of_nat (Datatypes.S d) + 1)) with (Z.of_nat d) by lia.
  case_if; [lia|]. rewrite (get_instruction_bit _ _ _ Hb).
  replace (256 - Z.of_nat (Datatypes.S d) + 1) with (256 - Z.of_nat d) by lia.
  destruct b; cbn; do 3 f_equal; by rewrite tnode_hash.
Qed.

Lemma add_placeholders_spec n d k t s :
  length k = 32%nat -> (d + n <= 256)%nat -> (2 <= tsize t)%nat ->
  exists s',
    add_placeholders n k (tnode (d + n) t) s = Ok (tnode d (plug_all (chain k n d) t), s') /\
    runs (ins_node <$> pnodes (replicate d false) (chain k n d) t) s s'.
Proof.
  intros Hk. revert t s. induction n as [|n IH]; intros t s Hd Ht.
  { exists s. rewrite Nat.add_0_r. done. }
  cbn [add_placeholders chain]. destruct (key_bit k (d + n) Hk) as [b Hb]; [lia|].
  destruct t as [|k' v'|l r]; [cbn in Ht; lia..|].
  rewrite Nat.add_succ_r, (create_node_on_path_placeholder k (d + n) l r b) by (done || lia).
  cbn [obind].
  rewrite Hb. cbn [default from_option id].
  destruct (store_node_spec s (tnode (d + n) (plug (b, E) (B l r)))) as (s1 & -> & R1).
  cbn [obind].
  destruct (IH (plug (b, E) (B l r)) s1) as (s2 & -> & R2); [lia|rewrite plug_size; cbn in *; lia|].
  exists s2. rewrite plug_all_cons. split; [done|]. cbn [pnodes fmap list_fmap].
  rewrite length_replicate, chain_length. by apply (runs_app [_]) with s1.
Qed.

(** At every branch of the path, the two children have different hashes. *)
Fixpoint sides_ok c t : Prop :=
  match c with
  | [] => True
  | x :: c => root_hash t <> root_hash x.2 /\ sides_ok c (plug x t)
  end.

Lemma new_parent_spec d x old t' cur :
  root_hash old <> root_hash x.2 -> node_hash cur = root_hash t' ->
  new_parent (root_hash x.2) cur (tnode d (plug x old)) = tnode d (plug x t').
Proof.
  intros Hne Hcur. destruct x as [[] sib]; unfold new_parent; cbn [plug fst snd tnode bytes_lo] in *.
  - rewrite decide_True by done. cbn. by rewrite Hcur.
  - rewrite decide_False by done. cbn. by rewrite Hcur.
Qed.

Lemma merge_side_nodes_keep p c old t' s :
  sides_ok c old ->
  exists s',
    merge_side_nodes false (zip (side_hashes c) (pnodes p c old)) (tnode (length p + length c) t') s
      = Ok (tnode (length p) (plug_all c t'), s') /\
    runs (merge_edits false (pnodes p c t') (pnodes p c old)) s s'.
Proof.
  revert old t' s. induction c as [|x c IH]; intros old t' s Hok.
  { exists s. cbn. by rewrite Nat.add_0_r. }
  destruct Hok as [Hne Hok]. cbn [side_hashes fmap list_fmap pnodes zip zip_with merge_side_nodes].
  rewrite (new_parent_spec _ _ _ t') by (done || by rewrite tnode_hash).
  destruct (store_node_spec s (tnode (length p + length c) (plug x t'))) as (s1 & -> & R1).
  cbn [obind]. destruct (IH (plug x old) (plug x t') s1 Hok) as (s2 & Hm & R2).
  unfold side_hashes in Hm. rewrite Hm. exists s2. split; [done|].
  cbn [merge_edits app]. by apply (runs_app [_]) with s1.
Qed.
End Building.

Section Inserting.
Context `{Sha256} (U : list byte -> Prop) (HU : collision_free U).
Context {S : Type} `{MapStorage S}.
Implicit Types (s : S) (t : trie) (c : list (bool * trie)).

Lemma remove_node_spec s h : exists s', remove_node s h = Ok s' /\ runs [Del h] s s'.
Proof.
  unfold remove_node. destruct (remove_view s h) as (s' & Hs & _). rewrite Hs. exists s'.
  split; [done|]. by exists s'.
Qed.

Lemma merge_side_nodes_drop p c old t' s :
  sides_ok c old ->
  exists s',
    merge_side_nodes true (zip (side_hashes c) (pnodes p c old)) (tnode (length p + length c) t') s
      = Ok (tnode (length p) (plug_all c t'), s') /\
    runs (merge_edits true (pnodes p c t') (pnodes p c old)) s s'.
Proof.
  revert old t' s. induction c as [|x c IH]; intros old t' s Hok.
  { exists s. cbn. by rewrite Nat.add_0_r. }
  destruct Hok as [Hne Hok]. cbn [side_hashes fmap list_fmap pnodes zip zip_with merge_side_nodes].
  rewrite (new_parent_spec _ _ _ t') by (done || by rewrite tnode_hash).
  destruct (store_node_spec s (tnode (length p + length c) (plug x t'))) as (s1 & -> & R1).
  cbn [obind].
  destruct (remove_node_spec s1 (node_hash (tnode (length p + length c) (plug x old)))) as (s2 & -> & R2).
  cbn [obind]. destruct (IH (plug x old) (plug x t') s2 Hok) as (s3 & Hm & R3).
  unfold side_hashes in Hm. rewrite Hm. exists s3. split; [done|].
  cbn [merge_edits app]. apply (runs_app [_]) with s1; [done|]. by apply (runs_app [_]) with s2.
Qed.

Lemma hashed_plug x t : hashed U (plug x t) -> hashed U t /\ hashed U x.2.
Proof. destruct x as [[] sib]; cbn; tauto. Qed.

Lemma sides_ok_canon p c t : canon p (plug_all c t) -> hashed U (plug_all c t) -> sides_ok c t.
Proof.
  revert t. induction c as [|x c IH]; intros t Hc Hu; [done|].
  rewrite plug_all_cons in *. cbn [sides_ok]. split; [|by apply IH].
  pose proof (proj2 (plug_canon_inv _ _ _ Hc)) as Hp.
  assert (Hs : sub p (plug_all c (plug x t)) (pos p c) (plug x t)) by apply sub_plug_all.
  pose proof (sub_hashed U _ _ _ _ Hs Hu) as Hpu. clear Hs Hc Hu.
  apply plug_canon in Hp as (C1 & C2 & Hsz). intros Heq.
  assert (t = x.2) as ->.
  { apply hashed_plug in Hpu as [? ?]. by eapply (root_hash_inj U HU). }
  destruct (tsize_nonempty _ _ C1) as (k & v & Hk); [lia|].
  destruct (canon_prefix _ _ _ _ C1 Hk) as (_ & _ & P1).
  destruct (canon_prefix _ _ _ _ C2 Hk) as (_ & _ & P2). by apply (prefix_negb _ _ _ P1).
Qed.

Lemma pnodes_same_depth p q c t : length p = length q -> pnodes p c t = pnodes q c t.
Proof. intros Hl. revert t. induction c as [|x c IH]; intros t; cbn; [done|]. by rewrite Hl, IH. Qed.

Lemma pnodes_app p c1 c2 t :
  pnodes p (c1 ++ c2) t = pnodes (pos p c2) c1 t ++ pnodes p c2 (plug_all c1 t).
Proof.
  revert t. induction c1 as [|x c1 IH]; intros t; [done|]. cbn [pnodes app].
  rewrite IH, plug_all_cons, length_app, pos_length. do 2 f_equal. lia.
Qed.

(** The edits of an insertion between storing the leaf and merging the side nodes. *)
Definition mid_edits (k v : Bytes32) c te : list edit :=
  match te with
  | E => if decide (k = zero_sum) then [Del zero_sum] else []
  | L k' _ =>
      if decide (k = k') then [Del (root_hash te)]
      else ins_node <$> pnodes (pos [] c) (grow_pre k c te) (L k v)
  | B _ _ => []
  end.

Lemma common_path_length_leaves d k v k' v' :
  length k = 32%nat -> length k' = 32%nat ->
  node_common_path_length (tnode d (L k v)) (tnode d (L k' v')) =
    Z.of_nat (lcp (key_bits k) (key_bits k')).
Proof.
  intros Hk Hk'. unfold node_common_path_length.
  change (is_placeholder (tnode d (L k v)) || is_placeholder (tnode d (L k' v'))) with false.
  cbn iota. apply common_prefix_count_spec. by rewrite Hk.
Qed.

(** Joining the new leaf with the one found at the end of the search. *)
Lemma create_node_on_path_leaves {Er} k v k' v' (b : bool) d :
  length k = 32%nat -> length k' = 32%nat ->
  let n := lcp (key_bits k) (key_bits k') in
  key_bits k !! n = Some b ->
  create_node_on_path (E := Er) k (tnode d (L k v)) (tnode d (L k' v')) =
    Ok (tnode n (plug (b, L k' v') (L k v))).
Proof.
  intros Hk Hk' n Hb. unfold create_node_on_path.
  change (is_leaf (tnode d (L k v)) && is_leaf (tnode d (L k' v'))) with true. cbn iota.
  rewrite common_path_length_leaves by done. fold n. case_if; [lia|]. rewrite (get_instruction_bit _ _ _ Hb). by destruct b.
Qed.

Lemma place_leaf_spec k v c te s :
  length k = 32%nat -> length v = 32%nat -> canon [] (plug_all c te) ->
  (te = E \/ exists k' v', te = L k' v') -> pos [] c `prefix_of` key_bits k ->
  exists s',
    place_leaf s (tnode 0 (L k v)) (tnode (length c) te) (side_hashes c) =
      Ok (tnode (length c) (plug_all (grow_pre k c te) (L k v)), s') /\
    runs (mid_edits k v c te) s s'.
Proof.
  intros Hk Hv Hc Hte Hp. unfold place_leaf. change (leaf_key (tnode 0 (L k v))) with k.
  destruct Hte as [->|(k' & v' & ->)].
  - cbn [tnode leaf_key bytes_lo mid_edits grow_pre plug_all foldl].
    destruct (decide (k = zero_sum)) as [->|Hz].
    + rewrite decide_False by (intros Hx; by apply Hx).
      destruct (remove_node_spec s zero_sum) as (s1 & Hs1 & R1). cbn [node_hash]. rewrite Hs1.
      by exists s1.
    + rewrite decide_True by done. exists s. split; [|done].
      unfold node_common_path_length. change (is_placeholder Placeholder) with true.
      cbn [negb obind]. rewrite orb_true_r. unfold saturating_sub.
      pose proof (zlen_nonneg (side_hashes c)). by rewrite Z.max_r by lia.
  - cbn [mid_edits grow_pre]. change (leaf_key (tnode (length c) (L k' v'))) with k'.
    destruct (decide (k = k')) as [<-|Hkk].
    + rewrite decide_False by (intros Hx; by apply Hx).
      destruct (remove_node_spec s (root_hash (L k v'))) as (s1 & Hs1 & R1).
      rewrite tnode_hash, Hs1. by exists s1.
    + rewrite decide_True by done. change (is_placeholder (tnode (length c) (L k' v'))) with false.
      destruct (join_facts k v c (L k' v') Hk Hv Hc
        (or_intror (ex_intro _ k' (ex_intro _ v' eq_refl))) Hp k' v' eq_refl Hkk)
        as (Hn & b & Hb & Hcan & Hpos).
      set (n := lcp (key_bits k) (key_bits k')) in *.
      assert (Hk' : length k' = 32%nat) by (apply plug_canon_inv in Hc as [_ Hc]; apply Hc).
      cbn [negb]. change (tnode 0 (L k v)) with (tnode (length c) (L k v)).
      rewrite (create_node_on_path_leaves k v k' v' b) by done. cbn [obind]. fold n.
      destruct (store_node_spec s (tnode n (plug (b, L k' v') (L k v)))) as (s1 & -> & R1).
      cbn [obind]. rewrite common_path_length_leaves by done. fold n.
      replace (Z.to_nat (saturating_sub (Z.of_nat n) (zlen (side_hashes c)))) with (n - length c)%nat
        by (unfold saturating_sub, zlen, side_hashes; rewrite length_fmap; lia).
      replace (tnode n) with (tnode (length c + (n - length c))) by (f_equal; lia).
      destruct (add_placeholders_spec (n - length c) (length c) k (plug (b, L k' v') (L k v)) s1)
        as (s2 & -> & R2); [done|lia|rewrite plug_size; cbn; lia|].
      exists s2. rewrite Hb. cbn [default from_option id]. split; [done|].
      cbn [pnodes fmap list_fmap]. apply (runs_app [_]) with s1.
      * rewrite chain_length, pos_length. cbn [length Nat.add].
        by replace (length c + (n - length c))%nat with n by lia.
      * erewrite (pnodes_same_depth (pos [] c)); [done|]. by rewrite pos_length, length_replicate.
Qed.

Lemma update_spec k v c te s root :
  length k = 32%nat -> length v = 32%nat -> canon [] (plug_all c te) ->
  hashed U (plug_all c te) -> (te = E \/ exists k' v', te = L k' v') ->
  pos [] c `prefix_of` key_bits k -> te <> L k v ->
  exists s',
    update_with_path_set (mkTree root s) (tnode 0 (L k v)) (tnode (length c) te :: pnodes [] c te)
      (side_hashes c) = Ok (mkTree (tnode 0 (plug_all (grow k c te) (L k v))) s') /\
    runs (mid_edits k v c te ++
      merge_edits true (pnodes [] c (plug_all (grow_pre k c te) (L k v))) (pnodes [] c te)) s s'.
Proof.
  intros Hk Hv Hc Hu Hte Hp Hne. unfold update_with_path_set.
  cbn [head expect obind tree_storage tail].
  rewrite decide_False by (destruct te; [done|intros Hx; injection Hx; congruence|done]).
  pose proof (sides_ok_canon _ _ _ Hc Hu) as Hok. unfold grow. rewrite plug_all_app.
  destruct (place_leaf_spec k v c te s Hk Hv Hc Hte Hp) as (s1 & -> & R1). cbn [obind].
  destruct (merge_side_nodes_drop [] c te (plug_all (grow_pre k c te) (L k v)) s1 Hok) as (s2 & Hm & R2).
  cbn [length Nat.add] in Hm. rewrite Hm. exists s2. split; [done|]. by apply runs_app with s1.
Qed.
End Inserting.

(** ** Insertion refines insertion into the map *)

Lemma merge_edits_ins drop news olds h pr :
  length news = length olds ->
  Ins h pr ∈ merge_edits drop news olds <->
  exists n, n ∈ news /\ h = node_hash n /\ pr = node_to_primitive n.
Proof.
  revert olds. induction news as [|n news IH]; intros [|o olds] Hl; try done; cbn [merge_edits].
  { setoid_rewrite elem_of_nil. naive_solver. }
  injection Hl as Hl. rewrite elem_of_cons, elem_of_app, (IH _ Hl). setoid_rewrite elem_of_cons.
  split.
  - intros [[= -> ->]|[Hi|(n' & ? & ?)]]; [by eauto| |by eauto].
    destruct drop; [|by apply elem_of_nil in Hi]. by apply list_elem_of_singleton in Hi.
  - intros (n' & [->|?] & -> & ->); [by left|]. right; right. eauto.
Qed.

Lemma merge_edits_del drop news olds h :
  Del h ∈ merge_edits drop news olds -> drop = true /\ exists o, o ∈ olds /\ h = node_hash o.
Proof.
  revert olds. induction news as [|n news IH]; intros [|o olds]; cbn [merge_edits];
    try (intros Hi; by apply elem_of_nil in Hi).
  intros [?|[Hi|Hi]%elem_of_app]%elem_of_cons; [done| |].
  - destruct drop; [|by apply elem_of_nil in Hi]. apply list_elem_of_singleton in Hi as [= ->].
    split; [done|]. exists o. split; [by left|done].
  - destruct (IH _ Hi) as (-> & o' & ? & ->). split; [done|]. exists o'. split; [by right|done].
Qed.

Lemma merge_edits_del_2 news olds o :
  length news = length olds -> o ∈ olds -> Del (node_hash o) ∈ merge_edits true news olds.
Proof.
  revert olds. induction news as [|n news IH]; intros [|o' olds] Hl; try done; cbn [merge_edits];
    [by intros ?%elem_of_nil|]. injection Hl as Hl.
  intros [->|Ho]%elem_of_cons; apply elem_of_cons; right; apply elem_of_app; [left|right; auto].
  by apply list_elem_of_singleton.
Qed.

Lemma pnodes_count `{Sha256} p c t t' : length (pnodes p c t) = length (pnodes p c t').
Proof. revert t t'. induction c; intros t t'; cbn; auto. Qed.

Section Refinement.
Context `{Sha256} (U : list byte -> Prop) (HU : collision_free U).
Context {S : Type} `{MapStorage S}.
Implicit Types (s : S) (t : trie) (c : list (bool * trie)).

(** The tree represents the map [m] of value digests: its root node is the one of the compact
    trie of [m], and its storage holds exactly the nodes of that trie. *)
Definition represents (m : gmap Bytes32 Bytes32) (tr : MerkleTree S) : Prop :=
  keys_ok m /\ hashed U (smt m) /\ root_node tr = tnode 0 (smt m) /\
  exact (smt m) (tree_storage tr).

Lemma on_node_sides c t' h pr :
  on_sides [] c h pr -> on_node [] (plug_all c t') h pr.
Proof. intros Hs. apply on_node_plug_all. auto. Qed.

Lemma on_sides_app p c1 c2 h pr :
  on_sides p (c1 ++ c2) h pr <-> on_sides (pos p c2) c1 h pr \/ on_sides p c2 h pr.
Proof.
  induction c1 as [|[b sib] c1 IH]; cbn [app on_sides]; [tauto|]. rewrite IH, pos_app. tauto.
Qed.

Lemma on_sides_chain p k n d h pr : ~ on_sides p (chain k n d) h pr.
Proof.
  induction n as [|n IH]; [by intros []|]. cbn [chain on_sides].
  intros [Hn|Hn]; [by apply on_node_E in Hn|by apply IH].
Qed.

(** Leaves are stored in the same form at every depth. *)
Lemma on_node_leaf p q k v h pr : on_node p (L k v) h pr -> on_node q (L k v) h pr.
Proof. by rewrite !on_node_L. Qed.

(** The sides of the path to the new leaf: those of the old path, and the old leaf. *)
Lemma grow_sides k c te h pr :
  (te = E \/ exists k' v', te = L k' v') ->
  on_sides [] (grow k c te) h pr <->
  on_sides [] c h pr \/
  (exists k' v', te = L k' v' /\ k <> k') /\ on_node (pos [] c) te h pr.
Proof.
  intros Hte. unfold grow. rewrite on_sides_app. unfold grow_pre.
  destruct Hte as [->|(k' & v' & ->)].
  { cbn [on_sides]. split; [tauto|]. intros [?|[(? & ? & [=] & _) _]]. tauto. }
  case_decide as Hkk; cbn [on_sides].
  - split; [tauto|]. intros [?|[(? & ? & [= <- <-] & ?) _]]; tauto.
  - split.
    + intros [[Hn|Hn]|?]; [|by apply on_sides_chain in Hn|tauto].
      right. split; [by eauto|]. by eapply on_node_leaf.
    + intros [?|[_ Hn]]; [tauto|]. left; left. by eapply on_node_leaf.
Qed.

(** The edits of an insertion: insertions are the new leaf and the nodes of its path, deletions
    are the nodes of the old path and a replaced leaf (or nothing, under the zero hash). *)
Definition insert_edits (k v : Bytes32) c te : list edit :=
  ins_node (tnode 0 (L k v)) :: mid_edits k v c te ++
  merge_edits true (pnodes [] c (plug_all (grow_pre k c te) (L k v))) (pnodes [] c te).

Lemma insert_edits_ins k v c te h pr :
  (te = E \/ exists k' v', te = L k' v') ->
  Ins h pr ∈ insert_edits k v c te <->
  on_node (pos [] (grow k c te)) (L k v) h pr \/
  exists n, n ∈ pnodes [] (grow k c te) (L k v) /\ h = node_hash n /\ pr = node_to_primitive n.
Proof.
  intros Hte. unfold insert_edits, grow. rewrite elem_of_cons, elem_of_app, pnodes_app, on_node_L.
  rewrite (merge_edits_ins _ _ _ _ _ (pnodes_count _ _ _ _)). setoid_rewrite elem_of_app.
  assert (Hmid : Ins h pr ∈ mid_edits k v c te <-> exists n,
    n ∈ pnodes (pos [] c) (grow_pre k c te) (L k v) /\ h = node_hash n /\ pr = node_to_primitive n).
  { unfold mid_edits, grow_pre. destruct Hte as [->|(k' & v' & ->)].
    - cbn [pnodes]. setoid_rewrite elem_of_nil. split; [|naive_solver].
      case_decide; rewrite ?list_elem_of_singleton, ?elem_of_nil; done.
    - case_decide.
      + cbn [pnodes]. setoid_rewrite elem_of_nil. rewrite list_elem_of_singleton. naive_solver.
      + rewrite list_elem_of_fmap. unfold ins_node. split.
        * intros (n & [= -> ->] & ?). eauto.
        * intros (n & ? & -> & ->). eauto. }
  rewrite Hmid. split.
  - intros [[= -> ->]|[(n & ? & ?)|(n & ? & ?)]]; [by left|right; by eauto..].
  - intros [[-> ->]|(n & [?|?] & ?)]; [by left|right; left; by eauto|right; right; by eauto].
Qed.

Lemma insert_edits_del k v c te h :
  (te = E \/ exists k' v', te = L k' v') ->
  Del h ∈ insert_edits k v c te ->
  (te = E /\ h = zero_sum) \/ (exists v', te = L k v' /\ h = root_hash te) \/
  exists o, o ∈ pnodes [] c te /\ h = node_hash o.
Proof.
  intros Hte. unfold insert_edits. intros [?|[Hi|Hi]%elem_of_app]%elem_of_cons; [done| |].
  - unfold mid_edits in Hi. destruct Hte as [->|(k' & v' & ->)].
    + case_decide; [apply list_elem_of_singleton in Hi as [= ->]; tauto|by apply elem_of_nil in Hi].
    + case_decide as Hkk; [subst; apply list_elem_of_singleton in Hi as [= ->]; eauto|].
      by apply list_elem_of_fmap in Hi as (n & ? & _).
  - apply merge_edits_del in Hi as (_ & Hi). auto.
Qed.

Lemma insert_exact k v c te s s' :
  length k = 32%nat -> length v = 32%nat -> canon [] (plug_all c te) -> hashed U (plug_all c te) ->
  (te = E \/ exists k' v', te = L k' v') -> pos [] c `prefix_of` key_bits k ->
  hashed U (plug_all (grow k c te) (L k v)) -> te <> L k v ->
  exact (plug_all c te) s -> runs (insert_edits k v c te) s s' ->
  exact (plug_all (grow k c te) (L k v)) s'.
Proof.
  intros Hk Hv Hc Hu Hte Hp Hu' Hne Hx Hr.
  pose proof (grow_canon k v c te Hk Hv Hc Hte Hp) as Hc'.
  assert (Hlook : contents (plug_all (grow k c te) (L k v)) !! k = Some v).
  { by rewrite grow_contents, lookup_insert_eq. }
  assert (Hold : contents (plug_all c te) !! k = contents te !! k).
  { symmetry. apply (sub_lookup [] _ (pos [] c)); [apply sub_plug_all|done|done]. }
  assert (Hte' : contents te !! k <> Some v).
  { destruct Hte as [->|(k' & v' & ->)]; [done|]. cbn. intros [-> ->]%lookup_singleton_Some. done. }
  apply (exact_step U HU (plug_all c te) _ [] (insert_edits k v c te) s); [done|done|done|done|..].
  - intros h pr Hi%insert_edits_ins; [|done]. apply on_node_plug_all. tauto.
  - intros h pr Hd Hn. apply insert_edits_del in Hd; [|done].
    destruct Hd as [[-> ->]|[(v' & -> & ->)|(o & Ho & ->)]].
    + destruct Hn as (q & u & Hs & Hnu & Hz & _). apply Hnu, (root_hash_zero U HU); [|done].
      by eapply sub_hashed.
    + pose proof (sub_hashed U _ _ _ _ (sub_plug_all [] c (L k v')) Hu) as Hul.
      pose proof (proj2 (plug_canon_inv _ _ _ Hc)) as (_ & Hlv & _).
      eapply (leaf_gone U HU _ k v'); [..|exact Hn]; try done. rewrite Hlook. naive_solver.
    + eapply (path_node_gone U HU c te); [..|exact Hn]; try done. rewrite Hold, Hlook. done.
  - intros h pr Hn. apply on_node_plug_all in Hn. rewrite insert_edits_ins by done.
    destruct Hn as [?|[Hs|?]]; [tauto| |tauto]. right. split; [|apply not_elem_of_nil].
    apply on_node_plug_all. apply grow_sides in Hs; [|done]. tauto.
  - intros h pr Hn _. apply on_node_plug_all in Hn as [Hn|[Hn|(n & Hn & -> & ->)]].
    + destruct Hte as [->|(k' & v' & ->)]; [by apply on_node_E in Hn|].
      destruct (decide (k = k')) as [<-|Hkk].
      * right. apply on_node_L in Hn as [-> _]. unfold insert_edits.
        apply elem_of_cons; right. apply elem_of_app; left. unfold mid_edits.
        rewrite decide_True by done. by apply list_elem_of_singleton.
      * left. apply on_node_plug_all. right; left. apply grow_sides; [by right; eauto|].
        right. by eauto.
    + left. apply on_node_plug_all. right; left. by apply grow_sides; [|left].
    + right. unfold insert_edits. apply elem_of_cons; right. apply elem_of_app; right.
      apply merge_edits_del_2; [apply pnodes_count|done].
Qed.

(** Storing the new leaf first does not disturb the nodes of the tree. *)
Lemma holds_after_leaf t k v s s1 :
  canon [] t -> hashed U t -> length k = 32%nat -> length v = 32%nat -> hashed U (L k v) ->
  exact t s -> runs [ins_node (tnode 0 (L k v))] s s1 -> holds [] t s1.
Proof.
  intros Hc Hu Hk Hv Hul Hx Hr h pr Hn. rewrite (runs_view _ _ _ Hr). cbn.
  destruct (decide (h = root_hash (L k v))) as [->|Hne].
  - rewrite lookup_insert_eq. f_equal.
    eapply (on_node_functional U HU [] (L k v) _ _ [] t); [|done|done|done| |done].
    + split_and!; [done..|apply prefix_nil].
    + by apply on_node_here.
  - rewrite lookup_insert_ne by done. by apply Hx.
Qed.

Lemma exact_same t h pr s s1 : exact t s -> on_node [] t h pr -> runs [Ins h pr] s s1 -> exact t s1.
Proof.
  intros Hx Hn Hr h' pr'. rewrite (runs_view _ _ _ Hr). cbn.
  rewrite insert_id by (by apply Hx). apply Hx.
Qed.

Lemma exact_first k v s s1 :
  exact E s -> runs [ins_node (tnode 0 (L k v))] s s1 -> exact (L k v) s1.
Proof.
  intros Hx Hr h pr. rewrite (runs_view _ _ _ Hr), on_node_L. cbn [foldl apply_edit ins_node].
  rewrite lookup_insert_Some, tnode_hash. split.
  - intros [[-> <-]|[_ Hn%Hx]]; [done|by apply on_node_E in Hn].
  - intros [-> ->]. by left.
Qed.

Lemma tree_insert_represents m tr key data :
  represents m tr -> length key = 32%nat -> hashed U (smt (<[key := sha256 data]> m)) ->
  exists tr', tree_insert tr key data = Ok tr' /\ represents (<[key := sha256 data]> m) tr'.
Proof.
  intros (Hm & Hu & Hroot & Hx) Hk Hu'. destruct tr as [rn s]. cbn [root_node tree_storage] in *. subst rn.
  set (v := sha256 data) in *. assert (Hv : length v = 32%nat) by apply (cf_length U HU).
  destruct (smt_spec m Hm) as [Hc Hcm].
  destruct (descend_facts key (smt m) Hc Hk) as (c & te & Hd & Hpl & Hte & Hp).
  rewrite <- Hpl in Hc. pose proof (grow_canon key v c te Hk Hv Hc Hte Hp) as Hc'.
  pose proof (grow_contents key v c te Hk Hv Hc Hte Hp) as Hct. rewrite Hpl, Hcm in Hct.
  assert (Hm' : keys_ok (<[key := v]> m)) by (apply map_Forall_insert_2; [done|exact Hm]).
  pose proof (smt_unique _ _ Hc' Hct) as HT'. rewrite HT' in Hu'.
  assert (Hul : hashed U (L key v)) by (eapply (sub_hashed U []); [apply sub_plug_all|exact Hu']).
  unfold tree_insert. cbn [tree_storage root_node]. rewrite (create_leaf_tnode 0). fold v.
  destruct (store_node_spec s (tnode 0 (L key v))) as (s1 & -> & R1). cbn [obind].
  assert (Hdone : forall tr' s', tr' = mkTree (tnode 0 (smt (<[key := v]> m))) s' ->
    exact (smt (<[key := v]> m)) s' -> represents (<[key := v]> m) tr').
  { intros tr' s' -> Hxx. split_and!; [done|by rewrite HT'|done|done]. }
  rewrite HT' in Hdone.
  destruct (is_placeholder (tnode 0 (smt m))) eqn:Hph.
  { assert (HE : smt m = E) by (by destruct (smt m)). rewrite HE in Hd. injection Hd as <- <-.
    exists (mkTree (tnode 0 (L key v)) s1). split; [done|]. apply (Hdone _ s1); [done|].
    rewrite HE in Hx. by eapply exact_first. }
  pose proof (path_set_spec U HU (smt m) key s1) as Hps. rewrite Hd in Hps.
  rewrite Hps; [|by rewrite <- Hpl|done| |done].
  2: { rewrite <- Hpl in *. by apply (holds_after_leaf _ key v s). }
  cbn [obind]. destruct (decide (te = L key v)) as [Heq|Hne].
  - exists (mkTree (tnode 0 (smt m)) s1). split.
    + unfold update_with_path_set. cbn [head expect obind]. rewrite decide_True; [done|].
      by rewrite Heq.
    + assert (HT : plug_all (grow key c te) (L key v) = smt m).
      { rewrite <- Hpl, Heq. unfold grow, grow_pre. by rewrite decide_True by done. }
      rewrite HT in Hdone. apply (Hdone _ s1); [done|]. eapply exact_same; [done| |exact R1].
      rewrite <- Hpl, Heq. apply on_node_plug_all. left. by apply on_node_L.
  - destruct (update_spec U HU key v c te s1 (tnode 0 (smt m))) as (s2 & -> & R2); try done;
      [by rewrite Hpl|].
    eexists. split; [done|]. apply (Hdone _ s2); [done|].
    eapply (insert_exact key v c te s); try done; [by rewrite Hpl..|].
    by apply (runs_app [_]) with s1.
Qed.
End Refinement.

(** ** Deletion refines deletion from the map *)

Lemma iter_find_app {A} (f : A -> bool) l1 x l2 :
  Forall (fun y => f y = false) l1 -> f x = true -> iter_find f (l1 ++ x :: l2) = Some (x, l2).
Proof. induction 1 as [|y l1 Hy _ IH]; cbn; [by intros ->|]. by rewrite Hy. Qed.

Lemma iter_find_none {A} (f : A -> bool) l :
  Forall (fun y => f y = false) l -> iter_find f l = None.
Proof. induction 1 as [|y l1 Hy _ IH]; cbn; [done|]. by rewrite Hy. Qed.

Section Deletion.
Context `{Sha256} (U : list byte -> Prop) (HU : collision_free U).
Context {S : Type} `{MapStorage S}.
Implicit Types (s : S) (t : trie) (c : list (bool * trie)).

Lemma remove_all_spec l s :
  exists s', remove_all l s = Ok s' /\ runs (Del <$> (node_hash <$> l)) s s'.
Proof.
  revert s. induction l as [|n l IH]; intros s; [by exists s|]. cbn [remove_all].
  destruct (remove_node_spec s (node_hash n)) as (s1 & -> & R1). cbn [obind].
  destruct (IH s1) as (s2 & -> & R2). exists s2. split; [done|].
  cbn [fmap list_fmap]. by apply (runs_app [_]) with s1.
Qed.

(** Sibling subtrees share no node with the other side of their branch. *)
Lemma sides_disjoint q (b : bool) u q' w sib :
  canon (q ++ [b]) u -> canon (q ++ [negb b]) sib -> hashed U u -> hashed U sib -> sib <> E ->
  sub (q ++ [b]) u q' w -> root_hash w <> root_hash sib.
Proof.
  intros C1 C2 U1 U2 Hne Hs Heq.
  pose proof (sub_canon _ _ _ _ Hs C1) as D. pose proof (sub_hashed U _ _ _ _ Hs U1) as Uw.
  apply (root_hash_inj U HU) with (p := q') (q := q ++ [negb b]) in Heq; [|done..]. subst w.
  destruct (tsize_nonempty _ _ C2) as (k & v & Hk); [destruct sib; cbn in *; [done|lia|lia]|].
  destruct (canon_prefix _ _ _ _ C2 Hk) as (_ & _ & P2).
  destruct (canon_prefix _ _ _ _ D Hk) as (_ & _ & P1).
  apply (prefix_negb q (key_bits k) b); [|done]. etrans; [|exact P1]. by eapply sub_prefix.
Qed.

Lemma on_sides_sub c t h pr k :
  pos [] c `prefix_of` key_bits k -> on_sides [] c h pr ->
  exists q w, sub [] (plug_all c t) q w /\ w <> E /\ h = root_hash w /\ ~ q `prefix_of` key_bits k.
Proof.
  revert t. induction c as [|[b sib] c IH]; intros t Hp; [done|]. rewrite pos_cons in Hp.
  cbn [on_sides]. rewrite plug_all_cons. intros [(q & w & Hs & Hne & -> & _)|Hs].
  - exists q, w. split_and!; [|done|done|].
    + assert (Hw : sub [] (plug_all c (plug (b, sib) t)) (pos [] c ++ [negb b]) sib).
      { apply (sub_step _ _ _ (negb b, t)). replace (plug (negb b, t) sib) with (plug (b, sib) t)
          by (by destruct b). apply sub_plug_all. }
      by eapply sub_trans.
    + intros Hq. apply (prefix_negb _ _ _ Hp). etrans; [|exact Hq]. by eapply sub_prefix.
  - apply IH; [|done]. by eapply prefix_app_l.
Qed.

(** Nodes off the path are not among those of the path. *)
Lemma off_path_kept c te k h pr :
  canon [] (plug_all c te) -> hashed U (plug_all c te) -> pos [] c `prefix_of` key_bits k ->
  (te = E \/ exists v, te = L k v) -> on_sides [] c h pr ->
  h ∉ node_hash <$> (tnode (length c) te :: pnodes [] c te).
Proof.
  intros Hc Hu Hp Hte Hs. destruct (on_sides_sub c te h pr k Hp Hs) as (q & w & Hsw & Hne & -> & Hq).
  pose proof (sub_canon _ _ _ _ Hsw Hc) as Cw. pose proof (sub_hashed U _ _ _ _ Hsw Hu) as Uw.
  pose proof (sub_canon _ _ _ _ (sub_plug_all [] c te) Hc) as Ct.
  pose proof (sub_hashed U _ _ _ _ (sub_plug_all [] c te) Hu) as Ut.
  rewrite fmap_cons, elem_of_cons, tnode_hash. intros [Heq|Hin].
  - apply (root_hash_inj U HU) with (p := q) (q := pos [] c) in Heq; [|done..]. subst w.
    destruct Hte as [->|(v & ->)]; [done|]. apply Hq, Cw.
  - apply list_elem_of_fmap in Hin as (n & Heq & Hn).
    apply pnodes_sub in Hn as (q' & l & r & Hs' & Hq' & ->). rewrite tnode_hash in Heq.
    pose proof (sub_canon _ _ _ _ Hs' Hc) as C'. pose proof (sub_hashed U _ _ _ _ Hs' Hu) as U'.
    apply (root_hash_inj U HU) with (p := q) (q := q') in Heq; [|done..]. subst w.
    rewrite (canon_B_position _ _ _ _ Cw C') in Hq. apply Hq. by etrans.
Qed.

(** No branch strictly inside a subtree mentions the hash of the subtree's sibling. *)
Lemma no_early_parent x c2 c1 te n :
  canon [] (plug_all (c1 ++ x :: c2) te) -> hashed U (plug_all (c1 ++ x :: c2) te) -> x.2 <> E ->
  n ∈ pnodes (pos [] (x :: c2)) c1 te ->
  bool_decide (bytes_lo n = root_hash x.2) || bool_decide (bytes_hi n = root_hash x.2) = false.
Proof.
  destruct x as [b sib]. cbn [snd]. rewrite plug_all_app, plug_all_cons. intros Hc Hu Hne Hn.
  apply plug_canon_inv in Hc as [_ Hc]. apply plug_canon in Hc as (C1 & C2 & _). cbn [fst snd] in *.
  assert (Hu1 : hashed U (plug (b, sib) (plug_all c1 te)))
    by (eapply (sub_hashed U []); [apply sub_plug_all|exact Hu]).
  apply hashed_plug in Hu1 as [U1 U2]. rewrite pos_cons in Hn.
  apply pnodes_sub in Hn as (q & l & r & Hs & _ & ->). cbn [tnode bytes_lo bytes_hi].
  rewrite !bool_decide_eq_false_2; [done|..]; eapply (sides_disjoint (pos [] c2) b); try done.
  - exact (sub_step _ _ _ (true, l) r Hs).
  - exact (sub_step _ _ _ (false, r) l Hs).
Qed.

(** The orphaned sibling [L k v], joined with the next sibling that is not a placeholder. *)
Lemma orphan_spec b k v c te c1 c2 s :
  canon [] (plug_all ((b, L k v) :: c) te) -> hashed U (plug_all ((b, L k v) :: c) te) ->
  c = c1 ++ c2 -> Forall (fun x => x.2 = E) c1 ->
  match c2 with [] => True | x :: _ => x.2 <> E end ->
  exists s' es,
    (let? '(current, s, sides, paths) :=
       attach_orphan (side_hashes c) (pnodes [] ((b, L k v) :: c) te) (tnode 0 (L k v)) s in
     merge_side_nodes false (zip sides paths) current s)
    = Ok (tnode 0 (plug_all c2 (L k v)), s') /\ runs es s s' /\ ins_only es /\
    forall h pr, Ins h pr ∈ es <->
      exists n, n ∈ pnodes [] c2 (L k v) /\ h = node_hash n /\ pr = node_to_primitive n.
Proof.
  intros Hc Hu Hceq Hf Hc2. unfold attach_orphan.
  assert (Hz : Forall (fun h => bool_decide (h <> zero_sum) = false) (side_hashes c1)).
  { apply Forall_fmap, (Forall_impl _ _ _ Hf). intros x Hx. cbn. rewrite Hx.
    apply bool_decide_eq_false_2. intros Hx0. by apply Hx0. }
  destruct c2 as [|x c2].
  { rewrite app_nil_r in Hceq. subst c. rewrite (iter_find_none _ _ Hz). cbn [obind zip zip_with].
    exists s, []. split_and!; [done|done|by intros ? ?%elem_of_nil|].
    intros h pr. cbn. setoid_rewrite elem_of_nil. naive_solver. }
  set (c0 := (b, L k v) :: c1).
  assert (Hc0 : (b, L k v) :: c = c0 ++ x :: c2) by (subst c c0; done). rewrite Hc0 in *.
  pose proof (sides_ok_canon U HU _ _ _ Hc Hu) as Hok0.
  assert (Hux : hashed U (plug x (plug_all c0 te))).
  { rewrite plug_all_app, plug_all_cons in Hu. eapply (sub_hashed U []); [apply sub_plug_all|exact Hu]. }
  pose proof Hux as [U1 U2]%hashed_plug.
  assert (Hside : side_hashes c = side_hashes c1 ++ root_hash x.2 :: side_hashes c2).
  { subst c. unfold side_hashes. by rewrite fmap_app. }
  rewrite Hside, (iter_find_app _ _ _ _ Hz).
  2: { apply bool_decide_eq_true_2. intros Hz0%(root_hash_zero U HU); done. }
  rewrite pnodes_app. cbn [pnodes]. erewrite iter_find_app; [|apply Forall_forall|].
  2: { intros n Hn. by eapply no_early_parent. }
  2: { destruct x as [[] sib]; cbn; rewrite (bool_decide_eq_true_2 (root_hash sib = _)) by done;
         by rewrite ?orb_true_r. }
  cbn [length Nat.add]. 
  assert (Hok : sides_ok (x :: c2) (plug_all c0 te)).
  { rewrite plug_all_app in Hc, Hu. by eapply (sides_ok_canon U HU []). }
  destruct Hok as [Hne Hok]. rewrite (new_parent_spec _ _ _ (L k v)) by done.
  destruct (store_node_spec s (tnode (length c2) (plug x (L k v)))) as (s1 & -> & R1). cbn [obind].
  destruct (merge_side_nodes_keep [] c2 _ (plug x (L k v)) s1 Hok) as (s2 & Hm & R2).
  cbn [length Nat.add] in Hm. rewrite Hm. eexists s2, (_ :: _).
  split_and!; [done|by apply (runs_app [_]) with s1|..].
  - intros h [?|Hd]%elem_of_cons; [done|]. by apply merge_edits_del in Hd as [? _].
  - intros h pr. rewrite elem_of_cons, (merge_edits_ins _ _ _ _ _ (pnodes_count _ _ _ _)).
    cbn [pnodes]. setoid_rewrite elem_of_cons. split.
    + intros [[= -> ->]|(n & ? & ?)]; eauto.
    + intros (n & [->|?] & -> & ->); [by left|]. right. eauto.
Qed.

Lemma on_sides_placeholders p c h pr : Forall (fun x => x.2 = E) c -> ~ on_sides p c h pr.
Proof.
  induction 1 as [|[b sib] c Hx _ IH]; [by intros []|]. cbn [on_sides snd] in *. subst.
  intros [Hn|Hn]; [by apply on_node_E in Hn|by apply IH].
Qed.

(** The sibling of the removed leaf is still stored. *)
Lemma first_side_node b sib c te k s s1 :
  let T := plug_all ((b, sib) :: c) te in
  canon [] T -> hashed U T -> exact T s -> sib <> E ->
  (te = E \/ exists v, te = L k v) -> pos [] ((b, sib) :: c) `prefix_of` key_bits k ->
  runs (Del <$> (node_hash <$> (tnode (Datatypes.S (length c)) te :: pnodes [] ((b, sib) :: c) te))) s s1 ->
  exists d, st_get s1 (root_hash sib) = Ok (Some (node_to_primitive (tnode d sib))).
Proof.
  intros T Hc Hu Hx Hne Hte Hp Hr. exists (length (pos [] c ++ [negb b])).
  rewrite get_view, (runs_view _ _ _ Hr), dels_lookup.
  assert (Hon : on_sides [] ((b, sib) :: c) (root_hash sib)
    (node_to_primitive (tnode (length (pos [] c ++ [negb b])) sib))) by (left; by apply on_node_here).
  rewrite decide_False by (by eapply (off_path_kept ((b, sib) :: c))).
  f_equal. apply Hx. by apply on_node_sides.
Qed.

Lemma delete_spec c te k s :
  canon [] (plug_all c te) -> hashed U (plug_all c te) -> exact (plug_all c te) s ->
  (te = E \/ exists v, te = L k v) -> pos [] c `prefix_of` key_bits k ->
  exists s' es,
    delete_with_path_set (mkTree (tnode 0 (plug_all c te)) s)
      (tnode (length c) te :: pnodes [] c te) (side_hashes c) = Ok (mkTree (tnode 0 (shrink c)) s') /\
    runs ((Del <$> (node_hash <$> (tnode (length c) te :: pnodes [] c te))) ++ es) s s' /\
    ins_only es /\
    (forall h pr, Ins h pr ∈ es -> on_node [] (shrink c) h pr) /\
    (forall h pr, on_node [] (shrink c) h pr -> Ins h pr ∈ es \/ on_sides [] c h pr) /\
    (forall h pr, on_sides [] c h pr -> on_node [] (shrink c) h pr).
Proof.
  intros Hc Hu Hx Hte Hp. unfold delete_with_path_set. cbn [tree_storage tail].
  destruct (remove_all_spec (tnode (length c) te :: pnodes [] c te) s) as (s1 & -> & R1).
  cbn [obind]. assert (Hsz : (tsize te <= 1)%nat) by (destruct Hte as [->|(v & ->)]; cbn; lia).
  destruct c as [|[b sib] c].
  { exists s1, []. split_and!; [done|by rewrite app_nil_r|by intros ? ?%elem_of_nil|..].
    - by intros ?? ?%elem_of_nil.
    - intros h pr Hn. by apply on_node_E in Hn.
    - done. }
  destruct (first_sibling te b sib c Hc Hsz) as (Hne & Hsib & Hs).
  destruct (first_side_node b sib c te k s s1 Hc Hu Hx Hne Hte Hp R1) as (d & Hget).
  change (side_hashes ((b, sib) :: c)) with (root_hash sib :: side_hashes c). cbn iota.
  rewrite Hget. cbn [omap_err obind ok_or]. rewrite node_try_from_tnode by done.
  cbn [omap_err obind]. destruct sib as [|k1 v1|l r]; [done|..].
  - change (is_leaf (tnode d (L k1 v1))) with true. cbn iota.
    destruct (lift_facts c k1 v1) as (c1 & c2 & Hceq & Hf & Hl & Hcl & Hc2); [done| |].
    { eapply canon_L_up; [|done]. by apply prefix_app_r. }
    destruct (orphan_spec b k1 v1 c te c1 c2 s1 Hc Hu Hceq Hf Hc2) as (s2 & es & Hm & R2 & Hio & Hins).
    cbn [shrink]. rewrite Hl. exists s2, es.
    change (tnode d (L k1 v1)) with (tnode 0 (L k1 v1)). split_and!.
    + destruct (attach_orphan _ _ _ _) as [[[[cur s0] sides] paths]| |]; cbn [obind] in *; [|done..].
      by rewrite Hm.
    + by apply runs_app with s1.
    + done.
    + intros h pr Hi%Hins. apply on_node_plug_all. auto.
    + intros h pr Hn. apply on_node_plug_all in Hn as [Hn|[Hn|Hn]].
      * right; left. by eapply on_node_leaf.
      * right; right. subst c. apply on_sides_app. by right.
      * left. by apply Hins.
    + intros h pr [Hn|Hn]; apply on_node_plug_all; [left; by eapply on_node_leaf|].
      subst c. apply on_sides_app in Hn as [Hn|Hn]; [by apply on_sides_placeholders in Hn|auto].
  - change (is_leaf (tnode d (B l r))) with false. cbn iota.
    destruct (merge_side_nodes_keep [] ((b, B l r) :: c) te E s1) as (s2 & Hm & R2).
    { by eapply (sides_ok_canon U HU []). }
    change (root_hash (B l r) :: side_hashes c) with (side_hashes ((b, B l r) :: c)).
    cbn [obind length Nat.add] in *. change (tnode (Datatypes.S (length c)) E) with Placeholder in Hm.
    rewrite Hm. cbn [obind shrink]. eexists s2, _.
    split_and!; [done|by apply runs_app with s1| | | |].
    + intros h Hd. by apply merge_edits_del in Hd as [? _].
    + intros h pr Hi. apply merge_edits_ins in Hi; [|apply pnodes_count].
      apply on_node_plug_all. auto.
    + intros h pr Hn. apply on_node_plug_all in Hn as [Hn|[Hn|Hn]]; [by apply on_node_E in Hn|auto|].
      left. apply merge_edits_ins; [apply pnodes_count|done].
    + intros h pr Hn. by apply on_node_sides.
Qed.

Lemma tree_delete_represents m tr key :
  represents U m tr -> length key = 32%nat -> hashed U (smt (delete key m)) ->
  exists tr', tree_delete tr key = Ok tr' /\ represents U (delete key m) tr'.
Proof.
  intros (Hm & Hu & Hroot & Hx) Hk Hu'. destruct tr as [rn s]. cbn [root_node tree_storage] in *. subst rn.
  destruct (smt_spec m Hm) as [Hc Hcm].
  destruct (descend_facts key (smt m) Hc Hk) as (c & te & Hd & Hpl & Hte & Hp).
  assert (Hsame : contents te !! key = None -> delete key m = m).
  { intros Hn. apply delete_id. rewrite <- Hcm, <- Hn. symmetry.
    apply (sub_lookup [] _ (pos [] c)); [rewrite <- Hpl; apply sub_plug_all|done|done]. }
  assert (Hkeep : represents U m (mkTree (tnode 0 (smt m)) s)) by (by split_and!).
  unfold tree_delete, root. cbn [root_node]. rewrite tnode_hash. case_decide as Hz.
  { apply (root_hash_zero U HU) in Hz; [|done]. rewrite Hz in Hd. injection Hd as <- <-.
    exists (mkTree (tnode 0 (smt m)) s). split; [done|]. by rewrite Hsame. }
  pose proof (path_set_spec U HU (smt m) key s Hc Hu) as Hps. rewrite Hd in Hps.
  rewrite Hps; [|by intros h pr ?%Hx|done]. cbn [obind].
  assert (Hm' : keys_ok (delete key m)) by (by apply map_Forall_delete).
  case_decide as Hleaf.
  2: { exists (mkTree (tnode 0 (smt m)) s). split; [done|]. rewrite Hsame; [done|].
       destruct Hte as [->|(k' & v' & ->)]; [done|]. cbn in Hleaf |- *.
       by apply lookup_singleton_ne. }
  assert (Hte' : te = E \/ exists v, te = L key v).
  { destruct Hte as [->|(k' & v' & ->)]; [by left|]. cbn in Hleaf. subst. by right; eauto. }
  rewrite <- Hpl in *. clear Hps.
  destruct (delete_spec c te key s Hc Hu Hx Hte' Hp) as (s' & es & -> & Hr & Hio & Hins & Hnew & Hside).
  assert (Hsz : (tsize te <= 1)%nat) by (destruct Hte' as [->|(v & ->)]; cbn; lia).
  destruct (shrink_facts c te Hc Hsz) as [Hcs Hsm].
  assert (Hcd : contents (shrink c) = delete key m).
  { destruct Hte' as [->|(v & ->)].
    - rewrite Hsame by done. rewrite <- Hcm, (contents_plug_all _ _ _ Hc), Hsm.
      cbn [contents]. by rewrite map_empty_union.
    - by rewrite (shrink_contents _ _ _ Hc), Hcm. }
  pose proof (smt_unique _ _ Hcs Hcd) as HT'. rewrite HT' in Hu'.
  exists (mkTree (tnode 0 (shrink c)) s'). split; [done|].
  split_and!; [done|by rewrite HT'|by rewrite HT'|]. rewrite HT'.
  cbn [tree_storage]. eapply (exact_step U HU); [exact Hx|exact Hr|done|done|done| | |].
  - intros h pr Hdel. by apply Hio in Hdel.
  - intros h pr Hn. destruct (Hnew h pr Hn) as [?|Hs]; [by left|right].
    split; [by apply on_node_sides|]. by eapply off_path_kept.
  - intros h pr Hn Hnd. left. apply on_node_plug_all in Hn as [Hn|[Hn|(n & Hn & -> & ->)]]; [|auto|].
    + exfalso. apply Hnd. destruct Hte' as [->|(v & ->)]; [by apply on_node_E in Hn|].
      apply on_node_L in Hn as [-> _]. by left.
    + exfalso. apply Hnd. right. apply list_elem_of_fmap. eauto.
Qed.
End Deletion.

(** ** Inclusion and exclusion proofs *)

Section MembershipProofs.
Context `{Sha256} (U : list byte -> Prop) (HU : collision_free U).
Context {S : Type} `{MapStorage S}.
Implicit Types (s : S) (t : trie) (c : list (bool * trie)).

Lemma proof_root_path {Er} k c t :
  pos [] c `prefix_of` key_bits k ->
  proof_root (E := Er) k (root_hash t) (side_hashes c) = Ok (root_hash (plug_all c t)).
Proof.
  revert t. induction c as [|[b sib] c IH]; intros t Hp; [done|].
  rewrite pos_cons in Hp. pose proof (prefix_snoc_inv _ _ _ Hp) as [Hp' Hb].
  change (side_hashes ((b, sib) :: c)) with (root_hash sib :: side_hashes c). cbn [proof_root].
  replace (zlen (side_hashes c)) with (Z.of_nat (length (pos [] c)))
    by (unfold zlen, side_hashes; by rewrite pos_length, length_fmap).
  rewrite (get_instruction_bit _ _ _ Hb), plug_all_cons.
  destruct b; cbn [side_of_bit]; by rewrite <- IH.
Qed.

Lemma side_hashes_short k c :
  length k = 32%nat -> pos [] c `prefix_of` key_bits k -> (256 <? zlen (side_hashes c)) = false.
Proof.
  intros Hk Hp%prefix_length. rewrite pos_length, key_bits_length in Hp. cbn in Hp.
  apply Z.ltb_ge. unfold zlen, side_hashes. rewrite length_fmap. lia.
Qed.

(** What [generate_proof] returns for a bound key, and for an unbound one. *)
Definition proof_for (m : gmap Bytes32 Bytes32) (tr : MerkleTree S) (key : Bytes32) : Prop :=
  match m !! key with
  | Some v => exists ps, generate_proof tr key = Ok (Inclusion ps) /\
      forall data, sha256 data = v -> verify_inclusion ps (root tr) key data = Ok true
  | None => exists ps leaf, generate_proof tr key = Ok (Exclusion ps leaf) /\
      verify_exclusion ps leaf (root tr) key = Ok true
  end.

Lemma generate_proof_complete m tr key :
  represents U m tr -> length key = 32%nat -> proof_for m tr key.
Proof.
  intros (Hm & Hu & Hroot & Hx) Hk. destruct tr as [rn s]. cbn [root_node tree_storage] in *. subst rn.
  destruct (smt_spec m Hm) as [Hc Hcm].
  destruct (descend_facts key (smt m) Hc Hk) as (c & te & Hd & Hpl & Hte & Hp).
  assert (Hlook : m !! key = contents te !! key).
  { rewrite <- Hcm. symmetry.
    apply (sub_lookup [] _ (pos [] c)); [rewrite <- Hpl; apply sub_plug_all|done|done]. }
  unfold proof_for, generate_proof, root. cbn [root_node]. rewrite tnode_hash, Hlook.
  pose proof (path_set_spec U HU (smt m) key s Hc Hu) as Hps. rewrite Hd in Hps.
  rewrite Hps by (done || by intros h pr ?%Hx). cbn [obind head expect].
  assert (Hroot : forall Er, proof_root (E := Er) key (root_hash te) (side_hashes c) = Ok (root_hash (smt m))).
  { intros Er. rewrite <- Hpl. by apply proof_root_path. }
  pose proof (side_hashes_short key c Hk Hp) as Hshort.
  destruct Hte as [->|(k' & v' & ->)].
  - cbn [contents]. rewrite lookup_empty. change (is_placeholder (tnode (length c) E)) with true.
    cbn [negb andb]. eexists _, _. split; [reflexivity|]. unfold verify_exclusion.
    rewrite Hshort. cbn [exclusion_leaf_hash].
    change zero_sum with (root_hash E). rewrite Hroot. cbn [obind]. by rewrite bool_decide_eq_true_2.
  - change (is_placeholder (tnode (length c) (L k' v'))) with false. cbn [negb andb].
    change (leaf_key (tnode (length c) (L k' v'))) with k'. cbn [contents].
    destruct (decide (k' = key)) as [->|Hne].
    + rewrite lookup_singleton_eq, bool_decide_eq_true_2 by done. eexists. split; [reflexivity|].
      intros data <-. unfold verify_inclusion. rewrite Hshort.
      change (calculate_leaf_hash key (sha256 data)) with (root_hash (L key (sha256 data))).
      rewrite Hroot. cbn [obind]. by rewrite bool_decide_eq_true_2.
    + rewrite lookup_singleton_ne, bool_decide_eq_false_2 by done. eexists _, _. split; [reflexivity|].
      unfold verify_exclusion. rewrite bool_decide_eq_false_2, Hshort by done.
      change (exclusion_leaf_hash _) with (root_hash (L k' v')).
      rewrite Hroot. cbn [obind]. by rewrite bool_decide_eq_true_2.
Qed.

(** The inputs hashed by a verification from [current] up are in [U]. *)
Fixpoint proof_hashed (key current : Bytes32) (ps : list Bytes32) : Prop :=
  match ps with
  | [] => True
  | h :: rest =>
      let '(lo, hi) :=
        match get_instruction key (zlen rest) with Some Right => (h, current) | _ => (current, h) end in
      U ([PREFIX_NODE] ++ lo ++ hi) /\ proof_hashed key (calculate_node_hash lo hi) rest
  end.

(** A verified path leads through the tree to a subtree with the hash it started from. *)
Lemma proof_root_sound {Er} key current ps t :
  canon [] t -> hashed U t -> length key = 32%nat -> length current = 32%nat ->
  Forall (fun h => length h = 32%nat) ps -> zlen ps <= 256 -> proof_hashed key current ps ->
  proof_root (E := Er) key current ps = Ok (root_hash t) ->
  exists w, sub [] t (take (length ps) (key_bits key)) w /\ root_hash w = current.
Proof.
  intros Hc Hu Hk. revert current. induction ps as [|h ps IH]; intros current Hcur Hps Hlen Hh Hr.
  { injection Hr as ->. exists t. split; [constructor|done]. }
  apply Forall_cons in Hps as [Hlh Hps]. unfold zlen in Hlen. cbn [length] in Hlen.
  destruct (key_bit key (length ps) Hk) as [b Hb]; [lia|].
  cbn [proof_root proof_hashed length] in *.
  rewrite (get_instruction_bit _ _ _ Hb : get_instruction key (zlen ps) = _) in Hr, Hh.
  set (lo := if b then h else current). set (hi := if b then current else h).
  assert (Hlo : length lo = 32%nat) by (subst lo; by destruct b).
  assert (Hin : U ([PREFIX_NODE] ++ lo ++ hi) /\ proof_hashed key (calculate_node_hash lo hi) ps /\
    proof_root (E := Er) key (calculate_node_hash lo hi) ps = Ok (root_hash t)).
  { subst lo hi. destruct b; cbn in *; tauto. }
  destruct Hin as (Hul & Hh' & Hr').
  destruct (IH (calculate_node_hash lo hi)) as (w & Hs & Hw);
    [apply (cf_length U HU)|done|unfold zlen; lia|done|done|].
  pose proof (sub_canon _ _ _ _ Hs Hc) as Cw. pose proof (sub_hashed U _ _ _ _ Hs Hu) as Uw.
  destruct w as [|k' v'|l r].
  - by destruct (cf_zero U HU _ Hul).
  - by apply (cf_inj U HU) in Hw.
  - destruct Uw as (Uw & _). apply (cf_inj U HU) in Hw; [|done..].
    injection Hw as Hw. apply app_inj_1 in Hw as [Hwl Hwr]; [|by rewrite (root_hash_length U HU), Hlo].
    rewrite (take_S_r _ _ _ Hb). subst lo hi. destruct b.
    + exists r. split; [exact (sub_step _ _ _ (true, l) r Hs)|done].
    + exists l. split; [exact (sub_step _ _ _ (false, r) l Hs)|done].
Qed.

Lemma prefix_take_bits n key : take n (key_bits key) `prefix_of` key_bits key.
Proof. apply prefix_take. Qed.

Lemma verify_inclusion_sound m ps key data :
  keys_ok m -> hashed U (smt m) -> length key = 32%nat ->
  Forall (fun h => length h = 32%nat) ps -> U ([PREFIX_LEAF] ++ key ++ sha256 data) ->
  proof_hashed key (calculate_leaf_hash key (sha256 data)) ps ->
  verify_inclusion ps (root_hash (smt m)) key data = Ok true -> m !! key = Some (sha256 data).
Proof.
  intros Hm Hu Hk Hps Hul Hh. unfold verify_inclusion. case_if; [done|].
  destruct (smt_spec m Hm) as [Hc Hcm].
  destruct (proof_root _ _ _) as [r| |] eqn:Hr; [|done..]. cbn [obind]. intros [= Heq%bool_decide_eq_true].
  subst r. apply proof_root_sound in Hr as (w & Hs & Hw); [|done|done|done|apply (cf_length U HU)|done|done|done].
  pose proof (sub_canon _ _ _ _ Hs Hc) as Cw. pose proof (sub_hashed U _ _ _ _ Hs Hu) as Uw.
  change (calculate_leaf_hash key (sha256 data)) with (root_hash (L key (sha256 data))) in Hw.
  apply (root_hash_inj U HU) with (p := take (length ps) (key_bits key)) (q := []) in Hw;
    [|done|done|done|split_and!; [done|apply (cf_length U HU)|apply prefix_nil]]. subst w.
  rewrite <- Hcm, <- (sub_lookup _ _ _ _ key Hs Hc (prefix_take_bits _ _)). apply lookup_singleton_eq.
Qed.

Definition leaf_ok (key : Bytes32) (leaf : ExclusionLeaf) : Prop :=
  match leaf with
  | ExclusionLeaf_Leaf k v =>
      length k = 32%nat /\ length v = 32%nat /\ U ([PREFIX_LEAF] ++ k ++ v)
  | ExclusionLeaf_Placeholder => True
  end.

Lemma verify_exclusion_sound m ps leaf key :
  keys_ok m -> hashed U (smt m) -> length key = 32%nat ->
  Forall (fun h => length h = 32%nat) ps -> leaf_ok key leaf ->
  proof_hashed key (exclusion_leaf_hash leaf) ps ->
  verify_exclusion ps leaf (root_hash (smt m)) key = Ok true -> m !! key = None.
Proof.
  intros Hm Hu Hk Hps Hlf Hh. unfold verify_exclusion.
  destruct (match leaf with ExclusionLeaf_Leaf k _ => _ | _ => _ end) eqn:Hsk; [done|]. case_if; [done|].
  destruct (smt_spec m Hm) as [Hc Hcm].
  destruct (proof_root _ _ _) as [r| |] eqn:Hr; [|done..]. cbn [obind]. intros [= Heq%bool_decide_eq_true].
  subst r. apply proof_root_sound in Hr as (w & Hs & Hw); [|done|done|done| |done|done|done].
  2: { destruct leaf; [apply (cf_length U HU)|done]. }
  pose proof (sub_canon _ _ _ _ Hs Hc) as Cw. pose proof (sub_hashed U _ _ _ _ Hs Hu) as Uw.
  rewrite <- Hcm, <- (sub_lookup _ _ _ _ key Hs Hc (prefix_take_bits _ _)).
  destruct leaf as [k v|]; cbn in Hw.
  - destruct Hlf as (Hlk & Hlv & Hul).
    change (calculate_leaf_hash k v) with (root_hash (L k v)) in Hw.
    apply (root_hash_inj U HU) with (p := take (length ps) (key_bits key)) (q := []) in Hw;
      [|done|done|done|split_and!; [done|done|apply prefix_nil]]. subst w.
    apply lookup_singleton_ne. intros ->. by rewrite bool_decide_eq_true_2 in Hsk.
  - by rewrite (root_hash_zero U HU w Uw Hw).
Qed.
End MembershipProofs.
