(* ===== verification/SparseBuild.v ===== *)
(** * Building a sparse Merkle tree from a set

    [from_set] merges the sorted leaves from right to left with a stack. This file shows that
    it builds the compact trie of the set (SparseTrie), whatever the storage, so that it
    agrees with inserting the bindings one by one. *)

From Stdlib Require Import Strings.Byte.
From stdpp Require Import sorting.
From S2P Require Import Prelude Merkle Sparse SparseTrie SparseProofs.
Import Sparse.

(** ** The order of keys *)

Lemma key_ltb_spec a b :
  length a = length b -> key_ltb a b = (from_be_bytes a <? from_be_bytes b).
Proof.
  revert b. induction a as [|x a IH]; intros [|y b] Hl; try done.
  injection Hl as Hl. cbn [key_ltb from_be_bytes]. rewrite (IH b Hl), <- Hl.
  pose proof (from_be_bytes_range a). pose proof (from_be_bytes_range b). rewrite <- Hl in *.
  apply eq_true_iff_eq. rewrite orb_true_iff, andb_true_iff, !Z.ltb_lt, Z.eqb_eq. nia.
Qed.

(** [a] goes left where [b] goes right. *)
Definition below (a b : list byte) : Prop :=
  key_bits a !! lcp (key_bits a) (key_bits b) = Some false /\
  key_bits b !! lcp (key_bits a) (key_bits b) = Some true.

Lemma key_ltb_below a b : length a = length b -> key_ltb a b = true -> below a b.
Proof.
  intros Hl Hlt. assert (Hne : key_bits a <> key_bits b).
  { intros ->%key_bits_inj; [|done]. rewrite key_ltb_spec in Hlt by done. lia. }
  destruct (lcp_differ (key_bits a) (key_bits b)) as (x & Ha & Hb); [by rewrite !key_bits_length, Hl|done|].
  unfold below. rewrite Ha, Hb. enough (x = false) as -> by done. clear Hb.
  revert b Hl Hlt Hne Ha. induction a as [|p a IH]; intros [|q b] Hl Hlt Hne Ha; try done.
  injection Hl as Hl. cbn [key_bits] in *. rewrite lcp_app in Ha by done.
  destruct (byte_pairs p q) as (_ & Hinj & Hbit). case_decide as Hpq.
  - apply Hinj in Hpq as ->. cbn [key_ltb] in Hlt. rewrite Z.ltb_irrefl, Z.eqb_refl in Hlt.
    rewrite lookup_app_r in Ha by lia. rewrite Nat.add_comm, Nat.add_sub in Ha.
    eapply (IH b); [done|done| |exact Ha]. intros ?. apply Hne. congruence.
  - cbn [key_ltb] in Hlt. apply orb_true_iff in Hlt as [Hlt%Z.ltb_lt|Hlt].
    + specialize (Hbit Hlt). rewrite lookup_app_l in Ha by (by eapply lookup_lt_Some). congruence.
    + apply andb_true_iff in Hlt as [->%Z.eqb_eq%byte_val_inj _]. done.
Qed.

Lemma lcp_prefix a b n : (n <= lcp a b)%nat -> take n a = take n b.
Proof.
  intros Hn. rewrite <- (Nat.min_l n (lcp a b)) by lia. rewrite <- !take_take. by rewrite lcp_take.
Qed.

Lemma lcp_lookup a b n : (n < lcp a b)%nat -> a !! n = b !! n.
Proof.
  intros Hn. rewrite <- (lookup_take_lt a (lcp a b)), <- (lookup_take_lt b (lcp a b)) by lia.
  by rewrite lcp_take.
Qed.

Lemma lcp_unique a b n x :
  take n a = take n b -> a !! n = Some x -> b !! n = Some (negb x) -> lcp a b = n.
Proof.
  revert a b. induction n as [|n IH]; intros [|p a] [|q b]; try done; cbn.
  - intros _ [= ->] [= ->]. by destruct x.
  - intros [= -> Ht] Ha Hb. rewrite eqb_reflx. f_equal. by apply IH.
Qed.

(** Going on to a key that parts earlier. *)
Lemma below_trans a b c :
  below a b -> below b c ->
  (lcp (key_bits b) (key_bits c) < lcp (key_bits a) (key_bits b))%nat ->
  below a c /\ lcp (key_bits a) (key_bits c) = lcp (key_bits b) (key_bits c).
Proof.
  intros [Ha Hb] [Hb' Hc] Hlt.
  assert (Heq : lcp (key_bits a) (key_bits c) = lcp (key_bits b) (key_bits c)).
  { apply lcp_unique with false; [|by rewrite (lcp_lookup _ _ _ Hlt)|done].
    rewrite (lcp_prefix (key_bits a) (key_bits b)) by lia. apply lcp_take. }
  split; [|done]. unfold below. rewrite Heq. split; [|done]. by rewrite (lcp_lookup _ _ _ Hlt).
Qed.

Lemma below_levels a b c :
  below a b -> below b c ->
  lcp (key_bits a) (key_bits b) <> lcp (key_bits b) (key_bits c).
Proof. intros [_ Hb] [Hb' _] Heq. rewrite Heq in Hb. congruence. Qed.

(** ** The sorted list of bindings *)

Section Sorted.
Context {V : Type}.
Implicit Types (l : list (Bytes32 * V)).

Definition klt (a b : Bytes32 * V) : Prop := from_be_bytes a.1 < from_be_bytes b.1.

Lemma btree_insert_keys k v l :
  Forall (fun kv => length kv.1 = 32%nat) l -> length k = 32%nat ->
  Forall (fun kv => length kv.1 = 32%nat) (btree_insert k v l).
Proof.
  intros Hl Hk. induction Hl as [|[k' v'] l Hk' Hl IH]; cbn [btree_insert].
  - by repeat constructor.
  - repeat case_decide; [by constructor|]. case_if; by repeat constructor.
Qed.

Lemma btree_insert_lookup k v l :
  list_to_map (M := gmap Bytes32 V) (btree_insert k v l) = <[k := v]> (list_to_map l).
Proof.
  induction l as [|[k' v'] l IH]; cbn [btree_insert]; [done|]. case_decide as Hk.
  - subst. cbn. by rewrite insert_insert_eq.
  - case_if; [done|]. cbn. rewrite IH. by apply insert_insert_ne.
Qed.

Lemma btree_insert_head k v l x :
  klt x (k, v) -> Forall (klt x) l -> Forall (klt x) (btree_insert k v l).
Proof.
  intros Hk Hl. induction Hl as [|[k' v'] l Hk' Hl IH]; cbn [btree_insert].
  - by repeat constructor.
  - repeat case_decide; [by constructor|]. case_if; by repeat constructor.
Qed.

Lemma btree_insert_sorted k v l :
  Forall (fun kv => length kv.1 = 32%nat) l -> length k = 32%nat ->
  StronglySorted klt l -> StronglySorted klt (btree_insert k v l).
Proof.
  intros Hl Hk Hs. induction Hs as [|[k' v'] l Hs IH Hf]; cbn [btree_insert].
  { by repeat constructor. }
  apply Forall_cons in Hl as [Hk' Hl]. cbn in Hk'. case_decide as Heq.
  { subst. by constructor. }
  rewrite key_ltb_spec by congruence. case_if.
  - constructor; [by constructor|]. constructor; [done|].
    eapply Forall_impl; [exact Hf|]. unfold klt. cbn. intros. lia.
  - constructor; [by apply IH|]. apply btree_insert_head; [|done]. unfold klt. cbn.
    assert (from_be_bytes k' <> from_be_bytes k); [|lia]. intros Hv. apply Heq.
    rewrite <- (from_to_be_bytes k), <- (from_to_be_bytes k'). by rewrite Hk, Hk', Hv.
Qed.

Lemma btree_collect_spec set :
  Forall (fun kv : Bytes32 * V => length kv.1 = 32%nat) set ->
  Forall (fun kv => length kv.1 = 32%nat) (btree_collect set) /\
  StronglySorted klt (btree_collect set) /\
  list_to_map (M := gmap Bytes32 V) (btree_collect set) =
    foldl (fun m kv => <[kv.1 := kv.2]> m) ∅ set.
Proof.
  intros Hf. induction set as [|[k v] set IH] using rev_ind.
  { split_and!; [done|constructor|done]. }
  apply Forall_app in Hf as [Hf [Hk _]%Forall_cons]. destruct (IH Hf) as (H1 & H2 & H3).
  unfold btree_collect in *. rewrite !foldl_app. cbn [foldl fst snd]. split_and!.
  - by apply btree_insert_keys.
  - by apply btree_insert_sorted.
  - by rewrite btree_insert_lookup, H3.
Qed.
End Sorted.

(** ** Merging neighbours *)

(** A branch of the stack: its first key, its trie, and the depth of the trie's root (256 for
    a leaf). *)
Record item : Type := mkItem { ik : Bytes32; it : trie; idep : nat }.

Definition at_depth (n : nat) (k : Bytes32) : list bool := take n (key_bits k).

Definition item_ok (i : item) : Prop :=
  length (ik i) = 32%nat /\ (idep i <= 256)%nat /\ canon (at_depth (idep i) (ik i)) (it i) /\
  match it i with E => False | L k _ => k = ik i /\ idep i = 256%nat | B _ _ => True end.

Lemma at_depth_length n k : length k = 32%nat -> (n <= 256)%nat -> length (at_depth n k) = n.
Proof. intros. unfold at_depth. rewrite length_take, key_bits_length. lia. Qed.

(** The trie of an item raised to just below depth [n]. *)
Definition raised (n : nat) (i : item) : trie :=
  match it i with
  | B _ _ => plug_all (chain (ik i) (idep i - S n) (S n)) (it i)
  | t => t
  end.

Definition join (n : nat) (i j : item) : item := mkItem (ik i) (B (raised n i) (raised n j)) n.

Definition prox (i j : item) : nat := lcp (key_bits (ik i)) (key_bits (ik j)).

Lemma canon_chain k n d t :
  length k = 32%nat -> (d + n <= 256)%nat -> canon (at_depth (d + n) k) t -> (2 <= tsize t)%nat ->
  canon (at_depth d k) (plug_all (chain k n d) t).
Proof.
  intros Hk Hd Hc Ht. apply plug_canon_big; [apply chain_sides_canon| |done].
  unfold at_depth. by rewrite chain_pos.
Qed.

Lemma item_branch_size i l r : item_ok i -> it i = B l r -> (2 <= tsize (it i))%nat.
Proof. intros (_ & _ & Hc & _) Hi. rewrite Hi in *. apply Hc. Qed.

Lemma raised_canon n i :
  item_ok i -> (n < idep i)%nat -> canon (at_depth (S n) (ik i)) (raised n i).
Proof.
  intros Hok Hn. pose proof Hok as (Hk & Hd & Hc & Hl). unfold raised.
  destruct (it i) as [|k v|l r] eqn:Hi; [done|..].
  - destruct Hl as [-> Hd']. destruct Hc as (? & ? & _). split_and!; [done..|apply prefix_take].
  - rewrite <- Hi. apply canon_chain; [done|lia| |by eapply item_branch_size].
    replace (S n + (idep i - S n))%nat with (idep i) by lia. by rewrite Hi.
Qed.

Lemma raised_size n i : item_ok i -> tsize (raised n i) = tsize (it i) /\ (1 <= tsize (it i))%nat.
Proof.
  intros Hok. pose proof Hok as (_ & _ & Hc & Hl). unfold raised.
  destruct (it i) as [|k v|l r] eqn:Hi; [done|done|].
  assert (Hch : forall m d t, tsize (plug_all (chain (ik i) m d) t) = tsize t).
  { induction m as [|m IH]; intros d t; [done|]. cbn [chain]. rewrite plug_all_cons, IH, plug_size. done. }
  rewrite Hch. destruct Hc as (_ & _ & Hs). split; [done|cbn; lia].
Qed.

Lemma raised_contents n i :
  item_ok i -> (n < idep i)%nat -> contents (raised n i) = contents (it i).
Proof.
  intros Hok Hn. pose proof (raised_canon n i Hok Hn) as Hc. unfold raised in *.
  destruct (it i) as [|k v|l r] eqn:Hi; [done|done|].
  rewrite (contents_plug_all _ _ _ Hc), chain_side_map. by rewrite map_union_empty.
Qed.

Lemma below_prefix a b : below a b ->
  at_depth (S (lcp (key_bits a) (key_bits b))) a = at_depth (lcp (key_bits a) (key_bits b)) a ++ [false] /\
  at_depth (S (lcp (key_bits a) (key_bits b))) b = at_depth (lcp (key_bits a) (key_bits b)) a ++ [true].
Proof.
  intros [Ha Hb]. unfold at_depth. rewrite (take_S_r _ _ _ Ha), (take_S_r _ _ _ Hb).
  split; [done|]. f_equal. symmetry. apply lcp_take.
Qed.

Lemma join_ok i j :
  item_ok i -> item_ok j -> below (ik i) (ik j) -> (prox i j < idep i)%nat -> (prox i j < idep j)%nat ->
  item_ok (join (prox i j) i j).
Proof.
  intros Hi Hj Hb Hni Hnj. destruct (below_prefix _ _ Hb) as [P1 P2].
  pose proof (raised_canon _ _ Hi Hni) as Ci. pose proof (raised_canon _ _ Hj Hnj) as Cj.
  unfold prox in Ci, Cj. rewrite P1 in Ci. rewrite P2 in Cj.
  destruct (raised_size (prox i j) i Hi) as [S1 ?], (raised_size (prox i j) j Hj) as [S2 ?].
  pose proof Hi as (Hk & Hd & _). unfold item_ok, join. cbn [ik it idep].
  split_and!; [done|lia| |done]. split_and!; [done..|]. unfold prox in *. lia.
Qed.

Section Merge.
Context `{Sha256} {S : Type} `{InsertStorage S}.
Implicit Types (s : S).

Definition branch_of (i : item) : Branch := mkBranch (ik i) (tnode (idep i) (it i)).

Definition item_node (i : item) : Bytes32 -> Primitive -> Prop :=
  on_node (at_depth (idep i) (ik i)) (it i).

(** The edits only insert, and exactly the nodes of [P]. *)
Definition inserts (es : list edit) (P : Bytes32 -> Primitive -> Prop) : Prop :=
  ins_only es /\ forall h pr, Ins h pr ∈ es <-> P h pr.

Lemma inserts_app es1 es2 P1 P2 :
  inserts es1 P1 -> inserts es2 P2 -> inserts (es1 ++ es2) (fun h pr => P1 h pr \/ P2 h pr).
Proof.
  intros [I1 H1'] [I2 H2']. split.
  - intros h [?|?]%elem_of_app; [by eapply I1|by eapply I2].
  - intros h pr. rewrite elem_of_app, H1', H2'. done.
Qed.

Lemma inserts_nodes l :
  inserts (ins_node <$> l)
    (fun h pr => exists n, n ∈ l /\ h = node_hash n /\ pr = node_to_primitive n).
Proof.
  split.
  - intros h (n & ? & _)%list_elem_of_fmap. done.
  - intros h pr. rewrite list_elem_of_fmap. unfold ins_node. split.
    + intros (n & [= -> ->] & ?). eauto.
    + intros (n & ? & -> & ->). eauto.
Qed.

Lemma inserts_ext es P Q : (forall h pr, P h pr <-> Q h pr) -> inserts es P -> inserts es Q.
Proof. intros HPQ [? Hi]. split; [done|]. intros h pr. by rewrite <- HPQ. Qed.

(** Raising the trie [t] at depth [d + n] to depth [d]: the new nodes are the inserted ones. *)
Lemma chain_inserts k n d t :
  length k = 32%nat -> (d + n <= 256)%nat ->
  exists P, inserts (ins_node <$> pnodes (replicate d false) (chain k n d) t) P /\
    forall h pr, on_node (at_depth d k) (plug_all (chain k n d) t) h pr <->
      P h pr \/ on_node (at_depth (d + n) k) t h pr.
Proof.
  intros Hk Hd. eexists. split; [apply inserts_nodes|]. intros h pr. cbn beta.
  rewrite on_node_plug_all.
  rewrite (pnodes_same_depth (at_depth d k) (replicate d false))
    by (rewrite at_depth_length, length_replicate; lia).
  unfold at_depth. rewrite chain_pos by done.
  pose proof (on_sides_chain (take d (key_bits k)) k n d h pr). tauto.
Qed.

Lemma raise_branch_spec n i s :
  item_ok i -> (n < idep i)%nat ->
  exists s' es P,
    raise_branch (max_height - Z.of_nat n) (branch_of i) s =
      Ok (mkBranch (ik i) (tnode (Datatypes.S n) (raised n i)), s') /\
    runs es s s' /\ inserts es P /\
    forall h pr, on_node (at_depth (Datatypes.S n) (ik i)) (raised n i) h pr <->
      P h pr \/ item_node i h pr.
Proof.
  intros Hok Hn. pose proof Hok as (Hk & Hd & Hc & Hl). unfold raise_branch, raised, item_node, branch_of.
  cbn [branch_node bits]. destruct (it i) as [|k v|l r] eqn:Hi; [done|..].
  - exists s, [], (fun _ _ => False). split_and!; [done|done| |].
    + split; [by intros ? ?%elem_of_nil|]. intros h pr. by rewrite elem_of_nil.
    + intros h pr. rewrite !on_node_L. tauto.
  - change (is_node (tnode (idep i) (B l r))) with true. cbn iota. rewrite node_height_B.
    unfold max_height. rewrite checked_sub_Some by lia. cbn [expect obind].
    replace (Z.to_nat (256 - Z.of_nat n - (256 - Z.of_nat (idep i) + 1)))
      with (idep i - Datatypes.S n)%nat by lia.
    destruct (add_placeholders_spec (idep i - Datatypes.S n) (Datatypes.S n) (ik i) (B l r) s)
      as (s' & Ha & R); [done|lia|by rewrite <- Hi; eapply item_branch_size|].
    replace (Datatypes.S n + (idep i - Datatypes.S n))%nat with (idep i) in Ha by lia.
    rewrite Ha. cbn [obind].
    destruct (chain_inserts (ik i) (idep i - Datatypes.S n) (Datatypes.S n) (B l r)) as (P & HP & Hiff);
      [done|lia|].
    replace (Datatypes.S n + (idep i - Datatypes.S n))%nat with (idep i) in Hiff by lia.
    by exists s', (ins_node <$> pnodes (replicate (Datatypes.S n) false)
      (chain (ik i) (idep i - Datatypes.S n) (Datatypes.S n)) (B l r)), P.
Qed.

(** Raising both branches; for two leaves the code skips it, with the same result. *)
Lemma raise_both_spec i j s :
  item_ok i -> item_ok j -> (prox i j < idep i)%nat -> (prox i j < idep j)%nat ->
  exists s' es P,
    (if is_leaf (branch_node (branch_of i)) && is_leaf (branch_node (branch_of j)) then
       Ok (branch_of i, branch_of j,
         max_height - node_common_path_length (branch_node (branch_of i)) (branch_node (branch_of j)), s)
     else
       let ancestor_height := max_height - common_prefix_count (bits (branch_of i)) (bits (branch_of j)) in
       let? '(r, s) := raise_branch ancestor_height (branch_of j) s in
       let? '(l, s) := raise_branch ancestor_height (branch_of i) s in
       Ok (l, r, ancestor_height, s)) =
    Ok (mkBranch (ik i) (tnode (Datatypes.S (prox i j)) (raised (prox i j) i)),
        mkBranch (ik j) (tnode (Datatypes.S (prox i j)) (raised (prox i j) j)),
        max_height - Z.of_nat (prox i j), s') /\
    runs es s s' /\ inserts es P /\
    forall h pr,
      on_node (at_depth (Datatypes.S (prox i j)) (ik i)) (raised (prox i j) i) h pr \/
      on_node (at_depth (Datatypes.S (prox i j)) (ik j)) (raised (prox i j) j) h pr <->
      P h pr \/ item_node i h pr \/ item_node j h pr.
Proof.
  intros Hi Hj Hni Hnj. pose proof Hi as (Hki & _). pose proof Hj as (Hkj & _).
  destruct (raise_branch_spec (prox i j) j s Hj Hnj) as (s1 & es1 & P1 & E1 & R1 & I1 & N1).
  destruct (raise_branch_spec (prox i j) i s1 Hi Hni) as (s2 & es2 & P2 & E2 & R2 & I2 & N2).
  assert (Hgen : forall (x : outcome MerkleTreeError (Branch * Branch * Z * S)),
    x = Ok (mkBranch (ik i) (tnode (Datatypes.S (prox i j)) (raised (prox i j) i)),
        mkBranch (ik j) (tnode (Datatypes.S (prox i j)) (raised (prox i j) j)),
        max_height - Z.of_nat (prox i j), s2) ->
    exists s' es P, x = Ok (mkBranch (ik i) (tnode (Datatypes.S (prox i j)) (raised (prox i j) i)),
        mkBranch (ik j) (tnode (Datatypes.S (prox i j)) (raised (prox i j) j)),
        max_height - Z.of_nat (prox i j), s') /\
    runs es s s' /\ inserts es P /\
    forall h pr,
      on_node (at_depth (Datatypes.S (prox i j)) (ik i)) (raised (prox i j) i) h pr \/
      on_node (at_depth (Datatypes.S (prox i j)) (ik j)) (raised (prox i j) j) h pr <->
      P h pr \/ item_node i h pr \/ item_node j h pr).
  { intros x Hx. exists s2, (es1 ++ es2), (fun h pr => P1 h pr \/ P2 h pr).
    split_and!; [done|by apply runs_app with s1|by apply inserts_app|].
    intros h pr. rewrite N1, N2. tauto. }
  destruct (is_leaf (branch_node (branch_of i)) && is_leaf (branch_node (branch_of j))) eqn:Hlf.
  - apply Hgen. apply andb_true_iff in Hlf as [L1 L2].
    destruct i as [ki ti di], j as [kj tj dj]. unfold item_ok, raised, branch_of, prox in *.
    cbn [ik it idep branch_node bits] in *.
    destruct ti as [|ki' vi|]; [tauto| |done]. destruct tj as [|kj' vj|]; [tauto| |done].
    destruct Hi as (_ & _ & _ & -> & ->), Hj as (_ & _ & _ & -> & ->).
    rewrite common_path_length_leaves by done.
    assert (s1 = s) as -> by (by injection E1). by injection E2 as ->.
  - apply Hgen. cbn [bits branch_of]. rewrite common_prefix_count_spec by congruence.
    fold (prox i j). fold (branch_of i) (branch_of j). rewrite E1. cbn [obind]. by rewrite E2.
Qed.

Lemma merge_branches_spec i j s :
  item_ok i -> item_ok j -> below (ik i) (ik j) -> (prox i j < idep i)%nat -> (prox i j < idep j)%nat ->
  exists s' es P,
    merge_branches s (branch_of i) (branch_of j) = Ok (branch_of (join (prox i j) i j), s') /\
    runs es s s' /\ inserts es P /\
    forall h pr, item_node (join (prox i j) i j) h pr <->
      P h pr \/ item_node i h pr \/ item_node j h pr.
Proof.
  intros Hi Hj Hb Hni Hnj. destruct (below_prefix _ _ Hb) as [P1 P2].
  destruct (raise_both_spec i j s Hi Hj Hni Hnj) as (s1 & es & P & Hr & R & I & N).
  unfold merge_branches. unfold prox in *. cbn zeta in Hr. rewrite Hr. cbn [obind branch_node bits].
  set (n := lcp (key_bits (ik i)) (key_bits (ik j))) in *.
  set (new := tnode n (B (raised n i) (raised n j))).
  assert (Hnew : create_node (tnode (Datatypes.S n) (raised n i)) (tnode (Datatypes.S n) (raised n j))
    (max_height - Z.of_nat n) = new) by (unfold create_node, new; by rewrite !tnode_hash).
  rewrite Hnew. destruct (store_node_spec s1 new) as (s2 & -> & R2). cbn [obind].
  exists s2, (es ++ [ins_node new]), (fun h pr => P h pr \/ h = node_hash new /\ pr = node_to_primitive new).
  split_and!; [done|by apply runs_app with s1| |].
  - apply inserts_app; [done|]. eapply inserts_ext; [|apply (inserts_nodes [new])].
    intros h pr. setoid_rewrite list_elem_of_singleton. naive_solver.
  - intros h pr. unfold item_node at 1. cbn [join ik it idep]. rewrite on_node_B.
    unfold at_depth in P1, P2. specialize (N h pr). unfold at_depth in *. rewrite P1, P2 in N.
    assert (Hnl : length (take n (key_bits (ik i))) = n).
    { destruct Hi as (Hk & Hd & _). rewrite length_take, key_bits_length. lia. }
    change (node_hash new) with (root_hash (B (raised n i) (raised n j))).
    rewrite Hnl, N. fold new. tauto.
Qed.
End Merge.

(** ** The stack

    From the top (leftmost) down, neighbours part ever earlier, and each trie starts below the
    levels at which it parts from its neighbours. *)
Fixpoint stack_ok (l : list item) : Prop :=
  match l with
  | [] => True
  | i :: l' =>
      item_ok i /\ stack_ok l' /\
      match l' with
      | [] => True
      | j :: l'' =>
          below (ik i) (ik j) /\ (prox i j < idep i)%nat /\ (prox i j < idep j)%nat /\
          match l'' with [] => True | m :: _ => (prox j m < prox i j)%nat end
      end
  end.

Fixpoint proxs (l : list item) : list Z :=
  match l with
  | i :: l' => match l' with j :: _ => [Z.of_nat (prox i j)] | [] => [] end ++ proxs l'
  | [] => []
  end.

Definition binds (l : list item) (k v : Bytes32) : Prop :=
  exists i, i ∈ l /\ contents (it i) !! k = Some v.

Lemma binds_cons i l k v : binds (i :: l) k v <-> contents (it i) !! k = Some v \/ binds l k v.
Proof. unfold binds. setoid_rewrite elem_of_cons. naive_solver. Qed.

Lemma binds_join i j l k v :
  item_ok i -> item_ok j -> below (ik i) (ik j) -> (prox i j < idep i)%nat -> (prox i j < idep j)%nat ->
  binds (join (prox i j) i j :: l) k v <-> binds (i :: j :: l) k v.
Proof.
  intros Hi Hj Hb Hni Hnj. rewrite !binds_cons. cbn [join it].
  pose proof (join_ok i j Hi Hj Hb Hni Hnj) as (_ & _ & Hc & _). cbn [join it ik idep] in Hc.
  pose proof (contents_disjoint _ _ _ Hc) as Hd. cbn [contents].
  rewrite lookup_union_Some by done. rewrite !raised_contents by done. tauto.
Qed.

(** Replacing two neighbours by their join keeps the stack ordered. *)
Lemma stack_ok_join i j r :
  stack_ok (i :: j :: r) ->
  stack_ok (join (prox i j) i j :: r) /\ proxs (join (prox i j) i j :: r) = proxs (j :: r).
Proof.
  intros (Hi & (Hj & Hr & Hjr) & Hb & Hni & Hnj & Hdec). pose proof (join_ok i j Hi Hj Hb Hni Hnj) as Hok.
  destruct r as [|m r]; [done|]. destruct Hjr as (Hb' & Hnj' & Hnm & Hdec').
  destruct (below_trans _ _ _ Hb Hb' Hdec) as [Hb2 Hlcp].
  assert (Hprox : prox (join (prox i j) i j) m = prox j m) by apply Hlcp.
  split; [|cbn [proxs]; by rewrite Hprox].
  cbn [stack_ok] in *. rewrite Hprox. change (idep (join (prox i j) i j)) with (prox i j). tauto.
Qed.

Section Stack.
Context `{Sha256} {S : Type} `{InsertStorage S}.
Implicit Types (s : S).

Definition nodes_of (l : list item) (h : Bytes32) (pr : Primitive) : Prop :=
  exists i, i ∈ l /\ item_node i h pr.

Lemma nodes_of_cons i l h pr : nodes_of (i :: l) h pr <-> item_node i h pr \/ nodes_of l h pr.
Proof. unfold nodes_of. setoid_rewrite elem_of_cons. naive_solver. Qed.

(** From [l] to [l'], with [es] storing the difference: same bindings, nodes accounted for. *)
Definition built (es : list edit) (l l' : list item) : Prop :=
  (forall k v, binds l' k v <-> binds l k v) /\
  exists P, inserts es P /\ forall h pr, nodes_of l' h pr <-> P h pr \/ nodes_of l h pr.

Lemma built_refl l : built [] l l.
Proof.
  split; [done|]. exists (fun _ _ => False). split; [|naive_solver].
  split; [by intros ? ?%elem_of_nil|]. intros h pr. by rewrite elem_of_nil.
Qed.

Lemma built_trans es1 es2 l1 l2 l3 : built es1 l1 l2 -> built es2 l2 l3 -> built (es1 ++ es2) l1 l3.
Proof.
  intros (B1 & P1 & I1 & N1) (B2 & P2 & I2 & N2). split; [intros k v; by rewrite B2, B1|].
  exists (fun h pr => P1 h pr \/ P2 h pr). split; [by apply inserts_app|].
  intros h pr. rewrite N2, N1. tauto.
Qed.

Lemma built_perm es l1 l2 l2' : (forall i, i ∈ l2 <-> i ∈ l2') -> built es l1 l2 -> built es l1 l2'.
Proof.
  intros Hp (Hb & P & I & N). split.
  - intros k v. rewrite <- Hb. unfold binds. setoid_rewrite Hp. done.
  - exists P. split; [done|]. intros h pr. rewrite <- N. unfold nodes_of. setoid_rewrite Hp. done.
Qed.

Lemma built_frame es l1 l2 c : built es l1 l2 -> built es (c ++ l1) (c ++ l2).
Proof.
  intros (Hb & P & I & N). split.
  - intros k v. unfold binds in *. setoid_rewrite elem_of_app. naive_solver.
  - exists P. split; [done|]. intros h pr. specialize (N h pr). unfold nodes_of in *.
    setoid_rewrite elem_of_app. naive_solver.
Qed.

Lemma merge_top_spec i j r s :
  stack_ok (i :: j :: r) ->
  exists s' es,
    merge_branches s (branch_of i) (branch_of j) = Ok (branch_of (join (prox i j) i j), s') /\
    runs es s s' /\ built es (i :: j :: r) (join (prox i j) i j :: r).
Proof.
  intros (Hi & (Hj & Hr & Hjr) & Hb & Hni & Hnj & _).
  destruct (merge_branches_spec i j s Hi Hj Hb Hni Hnj) as (s' & es & P & Hm & R & I & N).
  exists s', es. split_and!; [done|done|]. split; [intros; by apply binds_join|].
  exists P. split; [done|]. intros h pr. rewrite !nodes_of_cons, N. tauto.
Qed.

Lemma merge_while_spec x i r s :
  below (ik x) (ik i) -> (prox x i < idep i)%nat -> stack_ok (i :: r) ->
  exists s' es i' r',
    merge_while (Z.of_nat (prox x i)) (proxs (i :: r)) (branch_of <$> i :: r) s =
      Ok (branch_of <$> i' :: r', proxs (i' :: r'), s') /\
    runs es s s' /\ built es (i :: r) (i' :: r') /\ stack_ok (i' :: r') /\
    ik i' = ik i /\ (prox x i < idep i')%nat /\
    match r' with [] => True | j :: _ => (prox i' j < prox x i)%nat end.
Proof.
  intros Hb Hd. revert i s Hb Hd. induction r as [|j r IH]; intros i s Hb Hd Hst.
  { exists s, [], i, []. split_and!; try done. apply built_refl. }
  cbn [proxs app merge_while]. case_if.
  - destruct (merge_top_spec i j r s Hst) as (s1 & es1 & Hm & R1 & B1).
    destruct (stack_ok_join i j r Hst) as [Hst' Hpr].
    cbn [fmap list_fmap]. rewrite Hm. cbn [obind].
    destruct (IH (join (prox i j) i j) s1) as (s2 & es2 & i' & r' & Hw & R2 & B2 & Hst2 & Hk & Hd2 & Hlast);
      [done|cbn; unfold prox in *; cbn; lia|done|].
    cbn [proxs app] in Hpr. cbn [proxs app fmap list_fmap] in Hw. rewrite Hpr in Hw.
    exists s2, (es1 ++ es2), i', r'. split_and!; [exact Hw|by apply runs_app with s1| |done..].
    by eapply built_trans.
  - exists s, [], i, (j :: r). split_and!; try done; [apply built_refl|].
    destruct Hst as (_ & _ & Hb' & _). pose proof (below_levels _ _ _ Hb Hb').
    unfold prox in *. lia.
Qed.

Definition leaf_item (i : item) : Prop := item_ok i /\ exists k v, it i = L k v.

(** The leaves still to be scanned, from right to left, all left of the stack. *)
Fixpoint descending (top : item) (pending : list item) : Prop :=
  match pending with
  | [] => True
  | x :: rest => leaf_item x /\ below (ik x) (ik top) /\ descending x rest
  end.

Lemma leaf_prox x i :
  leaf_item x -> leaf_item i ->
  node_common_path_length (branch_node (branch_of i)) (branch_node (branch_of x)) =
    Z.of_nat (prox x i).
Proof.
  destruct x as [kx tx dx], i as [ki ti di]. unfold leaf_item, item_ok. cbn [ik it idep].
  intros ((Hx & _ & _ & Hlx) & kx' & vx & ->) ((Hi & _ & _ & Hli) & ki' & vi & ->).
  destruct Hlx as [-> ->], Hli as [-> ->]. unfold branch_of, prox. cbn [ik it idep branch_node].
  rewrite common_path_length_leaves by done. by rewrite lcp_comm.
Qed.

Lemma leaf_depth x : leaf_item x -> idep x = 256%nat.
Proof. intros ((_ & _ & _ & Hl) & k & v & Hi). rewrite Hi in Hl. tauto. Qed.

Lemma prox_bound x i : leaf_item x -> below (ik x) (ik i) -> (prox x i < 256)%nat.
Proof.
  intros ((Hk & _) & _) [Hb _]. apply lookup_lt_Some in Hb. rewrite key_bits_length, Hk in Hb.
  unfold prox. lia.
Qed.

Lemma scan_leaves_spec pending i r s :
  leaf_item i -> stack_ok (i :: r) -> descending i pending ->
  exists s' es l,
    scan_leaves (branch_of <$> pending) (branch_of <$> i :: r) (proxs (i :: r)) s =
      Ok (branch_of <$> l, s') /\
    runs es s s' /\ built es (pending ++ i :: r) l /\ stack_ok l /\ l <> [].
Proof.
  revert i r s. induction pending as [|x pending IH]; intros i r s Hi Hst Hdesc.
  { exists s, [], (i :: r). split_and!; try done. apply built_refl. }
  destruct Hdesc as (Hx & Hb & Hdesc).
  cbn [fmap list_fmap scan_leaves]. rewrite (leaf_prox x i Hx Hi).
  pose proof (prox_bound _ _ Hx Hb) as Hpb.
  destruct (merge_while_spec x i r s Hb) as (s1 & es1 & i' & r' & Hw & R1 & B1 & Hst1 & Hk & Hd1 & Hlast);
    [by rewrite (leaf_depth i Hi)|done|].
  cbn [fmap list_fmap] in Hw. rewrite Hw. cbn [obind].
  assert (Hpx : prox x i' = prox x i) by (unfold prox; by rewrite Hk).
  assert (Hst2 : stack_ok (x :: i' :: r')).
  { rewrite <- Hk in Hb. pose proof Hx as [Hox _]. cbn [stack_ok] in *.
    rewrite Hpx, (leaf_depth x) by done. tauto. }
  destruct (IH x (i' :: r') s1 Hx Hst2 Hdesc) as (s2 & es2 & l & Hs & R2 & B2 & Hst3 & Hne).
  cbn [proxs app fmap list_fmap] in Hs |- *. rewrite Hpx in Hs.
  exists s2, (es1 ++ es2), l. split_and!; [exact Hs|by apply runs_app with s1| |done|done].
  eapply built_trans; [|exact B2].
  eapply built_perm; [|exact (built_frame _ _ _ (x :: pending) B1)].
  intros y. rewrite <- app_comm_cons, !elem_of_cons, !elem_of_app, !elem_of_cons. tauto.
Qed.

Lemma merge_stack_spec i r s :
  stack_ok (i :: r) ->
  exists s' es m,
    merge_stack (branch_of i) (branch_of <$> r) s = Ok (branch_of m, s') /\
    runs es s s' /\ built es (i :: r) [m] /\ item_ok m.
Proof.
  revert i s. induction r as [|j r IH]; intros i s Hst.
  { exists s, [], i. split_and!; [done|done|apply built_refl|apply Hst]. }
  cbn [fmap list_fmap merge_stack].
  destruct (merge_top_spec i j r s Hst) as (s1 & es1 & -> & R1 & B1). cbn [obind].
  destruct (IH (join (prox i j) i j) s1) as (s2 & es2 & m & -> & R2 & B2 & Hm);
    [by apply stack_ok_join|].
  exists s2, (es1 ++ es2), m. split_and!; [done|by apply runs_app with s1|by eapply built_trans|done].
Qed.

Lemma store_all_spec l s :
  exists s', store_all l s = Ok s' /\ runs (ins_node <$> (branch_node <$> l)) s s'.
Proof.
  revert s. induction l as [|b l IH]; intros s; [by exists s|]. cbn [store_all].
  destruct (store_node_spec s (branch_node b)) as (s1 & -> & R1). cbn [obind].
  destruct (IH s1) as (s2 & -> & R2). exists s2. split; [done|].
  cbn [fmap list_fmap]. by apply (runs_app [_]) with s1.
Qed.
End Stack.

(** ** [from_set] *)

Section FromSet.
Context `{Sha256} (Hlen : forall a, length (sha256 a) = 32%nat).
Context {S : Type} `{InsertStorage S}.
Implicit Types (s : S).

(** The map a set of bindings stands for: later bindings win, values are kept as digests. *)
Definition set_map (set : list (Bytes32 * list byte)) : gmap Bytes32 Bytes32 :=
  foldl (fun m kv => <[kv.1 := sha256 kv.2]> m) ∅ set.

Definition leaf_of (kv : Bytes32 * list byte) : item := mkItem kv.1 (L kv.1 (sha256 kv.2)) 256.

Lemma leaf_of_ok kv : length kv.1 = 32%nat -> leaf_item (leaf_of kv).
Proof.
  intros Hk. split; [|by eexists _, _]. unfold item_ok, leaf_of, at_depth. cbn [ik it idep].
  refine (conj Hk (conj _ (conj _ (conj eq_refl eq_refl)))); [lia|].
  split_and!; [done|apply Hlen|apply prefix_take].
Qed.

Lemma set_map_collect set :
  (sha256 <$> list_to_map (M := gmap Bytes32 _) (btree_collect set)) = set_map set.
Proof.
  assert (Hc : list_to_map (M := gmap Bytes32 _) (btree_collect set) =
    foldl (fun m kv => <[kv.1 := kv.2]> m) ∅ set).
  { induction set as [|[k v] set IH] using rev_ind; [done|].
    unfold btree_collect in *. rewrite !foldl_app. cbn [foldl fst snd].
    by rewrite btree_insert_lookup, IH. }
  rewrite Hc. clear Hc. induction set as [|[k v] set IH] using rev_ind; [apply fmap_empty|].
  unfold set_map in *. rewrite !foldl_app. cbn [foldl fst snd]. by rewrite fmap_insert, IH.
Qed.

(** The scan starts from the rightmost leaf and meets the others in descending order. *)
Lemma sorted_descending l x :
  Forall (fun kv => length kv.1 = 32%nat) (l ++ [x]) -> StronglySorted klt (l ++ [x]) ->
  descending (leaf_of x) (leaf_of <$> reverse l).
Proof.
  revert x. induction l as [|y l IH] using rev_ind; intros x Hf Hs; [done|].
  rewrite reverse_app. cbn [fmap list_fmap app descending reverse rev_append].
  rewrite <- app_assoc in Hf, Hs. cbn [app] in Hf, Hs.
  assert (Hy : length y.1 = 32%nat /\ length x.1 = 32%nat /\ klt y x).
  { rewrite Forall_app, !Forall_cons in Hf. apply StronglySorted_app_1_r in Hs.
    apply StronglySorted_inv in Hs as [_ Hs]. rewrite Forall_cons in Hs. tauto. }
  destruct Hy as (Hy & Hx & Hlt). split_and!; [by apply leaf_of_ok| |].
  - cbn [leaf_of ik]. apply key_ltb_below; [congruence|]. rewrite key_ltb_spec by congruence. by apply Z.ltb_lt.
  - apply IH.
    + rewrite !Forall_app, ?Forall_cons in *. tauto.
    + replace (l ++ y :: [x]) with ((l ++ [y]) ++ [x]) in Hs by (by rewrite <- app_assoc).
      by apply StronglySorted_app_1_l in Hs.
Qed.

Lemma sorted_NoDup (l : list (Bytes32 * list byte)) : StronglySorted klt l -> NoDup l.*1.
Proof.
  induction 1 as [|x l Hs IH Hf]; cbn; constructor; [|done].
  intros (y & Hy & Hin)%list_elem_of_fmap. rewrite Forall_forall in Hf.
  specialize (Hf y Hin). unfold klt in Hf. rewrite Hy in Hf. lia.
Qed.

Lemma binds_leaves l k v :
  NoDup l.*1 ->
  binds (leaf_of <$> l) k v <-> (sha256 <$> list_to_map (M := gmap Bytes32 _) l) !! k = Some v.
Proof.
  intros Hnd. rewrite lookup_fmap, fmap_Some. unfold binds. split.
  - intros (i & ([k' d] & -> & Hin)%list_elem_of_fmap & Hk). cbn in Hk.
    apply lookup_singleton_Some in Hk as [<- <-]. exists d. split; [|done].
    by apply elem_of_list_to_map.
  - intros (d & Hd & ->). apply elem_of_list_to_map in Hd; [|done].
    exists (leaf_of (k, d)). split; [by apply list_elem_of_fmap; eauto|]. apply lookup_singleton_eq.
Qed.

(** The last item, padded to the root, is the trie of what it binds. *)
Lemma top_trie m mm :
  item_ok m -> (forall k v, binds [m] k v <-> mm !! k = Some v) -> (2 <= size mm)%nat ->
  (2 <= tsize (it m))%nat /\ smt mm = plug_all (chain (ik m) (idep m) 0) (it m).
Proof.
  intros (Hk & Hd & Hc & _) Hb Hs.
  assert (Hcm : contents (it m) = mm).
  { apply map_eq. intros k. apply option_eq. intros v. rewrite <- Hb. unfold binds.
    setoid_rewrite list_elem_of_singleton. naive_solver. }
  assert (Hsz : (2 <= tsize (it m))%nat) by (by rewrite <- (contents_size _ _ Hc), Hcm).
  split; [done|]. pose proof (canon_chain (ik m) (idep m) 0 (it m) Hk Hd Hc Hsz) as HT.
  unfold at_depth in HT. rewrite take_0 in HT. apply (smt_unique _ _ HT).
  by rewrite (contents_plug_all _ _ _ HT), chain_side_map, map_union_empty.
Qed.

Lemma leaves_nodes l :
  inserts (ins_node <$> (branch_node <$> (branch_of <$> (leaf_of <$> l)))) (nodes_of (leaf_of <$> l)).
Proof.
  eapply inserts_ext; [|apply inserts_nodes]. intros h pr. unfold nodes_of, item_node.
  split.
  - intros (n & Hn & -> & ->). rewrite <- !list_fmap_compose in Hn.
    apply list_elem_of_fmap in Hn as (kv & -> & Hin). exists (leaf_of kv).
    split; [by apply list_elem_of_fmap; eauto|]. cbn [leaf_of it idep ik compose]. by apply on_node_L.
  - intros (i & (kv & -> & Hin)%list_elem_of_fmap & Hn). cbn [leaf_of it] in Hn.
    apply on_node_L in Hn as [-> ->]. exists (tnode 256 (L kv.1 (sha256 kv.2))).
    split; [|done]. rewrite <- !list_fmap_compose. apply list_elem_of_fmap. by exists kv.
Qed.

(** Two leaves or more: scan, merge the stack, pad to the root. *)
Lemma from_leaves_spec l0 x mm s :
  Forall (fun kv => length kv.1 = 32%nat) (l0 ++ [x]) -> StronglySorted klt (l0 ++ [x]) ->
  (forall k v, binds (leaf_of <$> l0 ++ [x]) k v <-> mm !! k = Some v) -> (2 <= size mm)%nat ->
  exists s' es,
    (let? '(nodes, s) := scan_leaves (branch_of <$> (leaf_of <$> reverse (l0 ++ [x]))) [] [] s in
     match nodes with
     | [] => Crash
     | node :: rest =>
         let? '(top, s) := merge_stack node rest s in
         let? depth := expect (checked_sub max_height (node_height (branch_node top))) in
         let? '(n, s) := add_placeholders (Z.to_nat depth) (bits top) (branch_node top) s in
         Ok (mkTree n s)
     end) = Ok (mkTree (tnode 0 (smt mm)) s') /\ runs es s s' /\
    exists P, inserts es P /\ forall h pr, on_node [] (smt mm) h pr <->
      P h pr \/ nodes_of (leaf_of <$> l0 ++ [x]) h pr.
Proof.
  intros Hf Hs Hb Hsz. rewrite reverse_app. cbn [reverse rev_append app fmap list_fmap].
  cbn [scan_leaves]. pose proof (sorted_descending l0 x Hf Hs) as Hdesc.
  assert (Hx : leaf_item (leaf_of x)).
  { apply leaf_of_ok. apply Forall_app in Hf as [_ Hf]. by apply Forall_cons in Hf as [? _]. }
  destruct (scan_leaves_spec (leaf_of <$> reverse l0) (leaf_of x) [] s Hx) as
    (s1 & es1 & l & Hscan & R1 & B1 & Hst & Hne); [split; [apply Hx|done]|done|].
  cbn [fmap list_fmap proxs app] in Hscan.
  change (rev_append l0 []) with (reverse l0). rewrite Hscan. cbn [obind].
  destruct l as [|i r]; [done|]. cbn [fmap list_fmap].
  destruct (merge_stack_spec i r s1 Hst) as (s2 & es2 & m & -> & R2 & B2 & Hm). cbn [obind].
  pose proof (built_trans _ _ _ _ _ B1 B2) as (Hbind & P & I & N).
  assert (Hall : forall i, i ∈ (leaf_of <$> reverse l0) ++ [leaf_of x] <-> i ∈ leaf_of <$> l0 ++ [x]).
  { intros y. rewrite fmap_app, !elem_of_app, fmap_reverse, elem_of_reverse. done. }
  destruct (top_trie m mm Hm) as [Htm Hsmt]; [|done|].
  { intros k v. rewrite Hbind, <- Hb. unfold binds. setoid_rewrite Hall. done. }
  pose proof Hm as (Hk & Hd & _). destruct (it m) as [|k v|tl tr] eqn:Him; [cbn in Htm; lia..|].
  unfold branch_of. cbn [branch_node bits]. rewrite Him, node_height_B. unfold max_height.
  rewrite checked_sub_Some by lia. cbn [expect obind].
  replace (Z.to_nat (256 - (256 - Z.of_nat (idep m)))) with (idep m) by lia.
  destruct (add_placeholders_spec (idep m) 0 (ik m) (B tl tr) s2) as (s3 & Ha & R3); [done|lia|done|].
  rewrite Nat.add_0_l in Ha. rewrite Ha. cbn [obind]. rewrite <- Hsmt.
  destruct (chain_inserts (ik m) (idep m) 0 (B tl tr)) as (P' & I' & N'); [done|lia|].
  exists s3, ((es1 ++ es2) ++ (ins_node <$> pnodes (replicate 0 false) (chain (ik m) (idep m) 0) (B tl tr))).
  split_and!; [done|apply runs_app with s2; [by apply runs_app with s1|done]|].
  eexists. split; [by apply inserts_app|]. intros h pr. cbn beta. rewrite Hsmt.
  assert (Hn1 : nodes_of [m] h pr <-> on_node (at_depth (idep m) (ik m)) (B tl tr) h pr).
  { unfold nodes_of, item_node. setoid_rewrite list_elem_of_singleton. rewrite <- Him. naive_solver. }
  assert (Hn2 : nodes_of ((leaf_of <$> reverse l0) ++ [leaf_of x]) h pr <->
    nodes_of (leaf_of <$> l0 ++ [x]) h pr) by (unfold nodes_of; by setoid_rewrite Hall).
  specialize (N' h pr). unfold at_depth in N' at 1. rewrite take_0, Nat.add_0_l, <- Hn1, N, Hn2 in N'.
  rewrite N'. tauto.
Qed.

Lemma from_set_spec set s :
  Forall (fun kv => length kv.1 = 32%nat) set ->
  exists s' es, from_set s set = Ok (mkTree (tnode 0 (smt (set_map set))) s') /\ runs es s s' /\
    inserts es (on_node [] (smt (set_map set))).
Proof.
  intros Hset. destruct (btree_collect_spec set Hset) as (Hf & Hs & _).
  pose proof (set_map_collect set) as Hmap. pose proof (sorted_NoDup _ Hs) as Hnd.
  unfold from_set. set (l := btree_collect set) in *. set (mm := set_map set) in *.
  replace ((fun kv : Bytes32 * list byte => branch_of_leaf (create_leaf kv.1 kv.2)) <$> l)
    with (branch_of <$> (leaf_of <$> l)) by (by rewrite <- list_fmap_compose).
  destruct (store_all_spec (branch_of <$> (leaf_of <$> l)) s) as (s1 & -> & R1). cbn [obind].
  pose proof (leaves_nodes l) as I1.
  assert (Hb : forall k v, binds (leaf_of <$> l) k v <-> mm !! k = Some v).
  { intros k v. rewrite binds_leaves by done. by rewrite Hmap. }
  assert (Hsize : size mm = length l).
  { rewrite <- Hmap, map_size_fmap. by apply map_size_list_to_map. }
  destruct l as [|x0 [|x1 l]].
  - assert (mm = ∅) as -> by (by apply map_size_empty_inv). change (smt ∅) with E.
    exists s1, []. split_and!; [done|done|]. eapply inserts_ext; [|exact I1].
    intros h pr. split; [by intros (? & ?%elem_of_nil & _)|by intros ?%on_node_E].
  - assert (Hsm : smt mm = L x0.1 (sha256 x0.2)).
    { apply smt_unique; [apply Forall_cons in Hf as [Hf _]; split_and!; [done|apply Hlen|apply prefix_nil]|].
      rewrite <- Hmap. destruct x0 as [k d].
      by rewrite list_to_map_cons, list_to_map_nil, insert_empty, map_fmap_singleton. }
    rewrite Hsm. eexists s1, _. split_and!; [done|exact R1|]. eapply inserts_ext; [|exact I1].
    intros h pr. unfold nodes_of. cbn [fmap list_fmap]. setoid_rewrite list_elem_of_singleton.
    unfold item_node. rewrite on_node_L. split.
    + intros (i & -> & Hi). cbn [leaf_of it] in Hi. by apply on_node_L in Hi.
    + intros ?. exists (leaf_of x0). split; [done|]. by apply on_node_L.
  - destruct (exists_last (l := x0 :: x1 :: l)) as (l0 & x & Hl0); [done|].
    rewrite <- fmap_reverse, <- fmap_reverse.
    change (branch_of <$> (leaf_of <$> x0 :: x1 :: l)) with
      (branch_of (leaf_of x0) :: branch_of (leaf_of x1) :: (branch_of <$> (leaf_of <$> l))). cbn iota.
    rewrite Hl0 in *. cbn [length] in Hsize.
    destruct (from_leaves_spec l0 x mm s1 Hf Hs Hb) as (s2 & es2 & -> & R2 & P & I2 & N).
    { rewrite Hsize, <- Hl0. cbn. lia. }
    eexists s2, (_ ++ es2). split_and!; [done|by eapply runs_app|].
    eapply inserts_ext; [|by apply inserts_app]. intros h pr. cbn beta. rewrite N. tauto.
Qed.
End FromSet.
