(* ===== verification/SparseSpec.v ===== *)
(** * What the sparse Merkle tree promises

    The theorems about the operations of Sparse: any sequence of insertions and deletions
    refines the same sequence on a finite map, building from a set agrees with inserting one by
    one, and membership proofs are complete and sound. *)

From Stdlib Require Import Strings.Byte.
From S2P Require Import Prelude Merkle Sparse SparseTrie SparseProofs SparseBuild.
Import Sparse.

(** ** Sequences of operations *)

Inductive smt_op : Type :=
| OpInsert (key : Bytes32) (data : list byte)
| OpDelete (key : Bytes32).

Definition op_key (op : smt_op) : Bytes32 :=
  match op with OpInsert k _ | OpDelete k => k end.

Section Spec.
Context `{Sha256}.

Definition map_op (m : gmap Bytes32 Bytes32) (op : smt_op) : gmap Bytes32 Bytes32 :=
  match op with
  | OpInsert k data => <[k := sha256 data]> m
  | OpDelete k => delete k m
  end.

(** The tries after each operation hash inputs of [U] only. *)
Fixpoint ops_hashed (U : list byte -> Prop) (m : gmap Bytes32 Bytes32) (ops : list smt_op) : Prop :=
  match ops with
  | [] => True
  | op :: ops => hashed U (smt (map_op m op)) /\ ops_hashed U (map_op m op) ops
  end.

Context {S : Type} `{MapStorage S}.

Definition run_op (tr : MerkleTree S) (op : smt_op) : outcome MerkleTreeError (MerkleTree S) :=
  match op with
  | OpInsert k data => tree_insert tr k data
  | OpDelete k => tree_delete tr k
  end.

Fixpoint run_ops (tr : MerkleTree S) (ops : list smt_op) : outcome MerkleTreeError (MerkleTree S) :=
  match ops with
  | [] => Ok tr
  | op :: ops => let? tr' := run_op tr op in run_ops tr' ops
  end.

Context (U : list byte -> Prop) (HU : collision_free U).

Lemma new_represents (s : S) : view s = ∅ -> represents U ∅ (tree_new s).
Proof.
  intros Hs. split_and!; [apply map_Forall_empty|done|done|]. intros h pr. cbn [tree_storage tree_new].
  rewrite Hs, lookup_empty. split; [done|]. by intros ?%on_node_E.
Qed.

Lemma run_op_represents m tr op :
  represents U m tr -> length (op_key op) = 32%nat -> hashed U (smt (map_op m op)) ->
  exists tr', run_op tr op = Ok tr' /\ represents U (map_op m op) tr'.
Proof.
  intros Hr Hk Hh. destruct op as [k data|k]; cbn [op_key map_op run_op] in *.
  - by apply (tree_insert_represents U HU).
  - by apply (tree_delete_represents U HU).
Qed.

Lemma run_ops_represents m tr ops :
  represents U m tr -> Forall (fun op => length (op_key op) = 32%nat) ops -> ops_hashed U m ops ->
  exists tr', run_ops tr ops = Ok tr' /\ represents U (foldl map_op m ops) tr'.
Proof.
  revert m tr. induction ops as [|op ops IH]; intros m tr Hr Hk Hh; [by exists tr|].
  apply Forall_cons in Hk as [Hk Hks]. destruct Hh as [Hh Hhs].
  destruct (run_op_represents m tr op Hr Hk Hh) as (tr1 & E1 & Hr1).
  cbn [run_ops foldl]. rewrite E1. cbn [obind]. by apply IH.
Qed.

Lemma load_represents m tr : represents U m tr -> load (tree_storage tr) (root tr) = Ok tr.
Proof.
  intros (_ & Hu & Hroot & Hx). destruct tr as [rn s]. cbn [root_node tree_storage] in *. subst rn.
  unfold load, root. cbn [root_node]. rewrite tnode_hash. case_decide as Hz.
  - by rewrite (root_hash_zero U HU _ Hu Hz).
  - assert (Hne : smt m <> E) by (by intros HE; rewrite HE in Hz).
    rewrite get_view, (proj2 (Hx _ _) (on_node_here [] _ Hne)). cbn [omap_err obind ok_or].
    by rewrite node_try_from_tnode.
Qed.

Lemma represents_root m tr : represents U m tr -> root tr = root_hash (smt m).
Proof. intros (_ & _ & Hr & _). unfold root. by rewrite Hr, tnode_hash. Qed.

(** Two trees of the same map agree on the root and on everything stored. *)
Lemma represents_unique m tr tr' :
  represents U m tr -> represents U m tr' ->
  root_node tr = root_node tr' /\ view (tree_storage tr) = view (tree_storage tr').
Proof.
  intros (_ & _ & R1 & X1) (_ & _ & R2 & X2). split; [congruence|].
  apply map_eq. intros h. apply option_eq. intros pr. by rewrite (X1 h pr), (X2 h pr).
Qed.

Lemma build_exact t es s s' :
  canon [] t -> hashed U t -> view s = ∅ -> runs es s s' -> inserts es (on_node [] t) -> exact t s'.
Proof.
  intros Hc Hu Hs Hr [Hi Hn]. apply (exact_step U HU E t [] es s s'); try done.
  - intros h pr. rewrite Hs, lookup_empty. split; [done|by intros ?%on_node_E].
  - intros h pr. apply Hn.
  - intros h pr Hd. by apply Hi in Hd.
  - intros h pr Ho. left. by apply Hn.
  - intros h pr Ho. by apply on_node_E in Ho.
Qed.
End Spec.

(** What the recording storage of [nodes_from_set] holds after insertions. *)
Lemma vector_nodes es l s P :
  runs es (mkVectorStorage l) s -> inserts es P ->
  forall h pr, (h, pr) ∈ vec_nodes s <-> (h, pr) ∈ l \/ P h pr.
Proof.
  intros Hr [Hi Hn] h pr. rewrite <- Hn. clear Hn P. revert l Hr Hi.
  induction es as [|[h' pr'|h'] es IH]; intros l Hr Hi.
  - cbn in Hr. subst s. rewrite elem_of_nil. cbn. tauto.
  - destruct Hr as (s1 & [= <-] & Hr). apply IH in Hr; [|intros x Hx; apply (Hi x); by right].
    cbn [vec_nodes] in Hr. rewrite Hr, elem_of_app, list_elem_of_singleton, elem_of_cons. naive_solver.
  - by destruct (Hi h'); left.
Qed.

Lemma set_map_ops `{Sha256} set :
  foldl map_op ∅ ((fun kv => OpInsert kv.1 kv.2) <$> set) = set_map set.
Proof.
  unfold set_map. generalize (∅ : gmap Bytes32 Bytes32).
  induction set as [|[k d] set IH]; intros m; [done|]. cbn [fmap list_fmap foldl]. apply IH.
Qed.


(** Building a tree from a set of bindings is equivalent to inserting them one by one, as
    documented: same root node and same stored nodes. [root_from_set] returns that root
    without a storage, and [nodes_from_set] that root with exactly the nodes of the tree. *)
Theorem from_set_equivalent `{Sha256} {S} `{MapStorage S} (U : list byte -> Prop) (s : S)
    (set : list (Bytes32 * list byte)) :
  collision_free U -> view s = ∅ -> Forall (fun kv => length kv.1 = 32%nat) set ->
  ops_hashed U ∅ ((fun kv => OpInsert kv.1 kv.2) <$> set) ->
  exists tr tr' nodes,
    from_set s set = Ok tr /\
    run_ops (tree_new s) ((fun kv => OpInsert kv.1 kv.2) <$> set) = Ok tr' /\
    root_node tr = root_node tr' /\ view (tree_storage tr) = view (tree_storage tr') /\
    root_from_set set = Ok (root tr) /\ nodes_from_set set = Ok (root tr, nodes) /\
    forall h pr, (h, pr) ∈ nodes <-> view (tree_storage tr) !! h = Some pr.
Proof.
  intros HU Hs Hk Hh.
  destruct (run_ops_represents U HU ∅ (tree_new s) ((fun kv => OpInsert kv.1 kv.2) <$> set))
    as (tr' & Hrun & Hr); [by apply new_represents|by apply Forall_fmap|done|].
  rewrite set_map_ops in Hr. pose proof (cf_length U HU) as Hlen.
  destruct (from_set_spec Hlen set s Hk) as (s1 & es1 & E1 & R1 & I1).
  destruct (from_set_spec Hlen set emptyStorage Hk) as (s2 & es2 & E2 & _ & _).
  destruct (from_set_spec Hlen set (mkVectorStorage []) Hk) as (s3 & es3 & E3 & R3 & I3).
  destruct Hr as (Hkm & Hu & Hroot & Hx). destruct (smt_spec _ Hkm) as [Hc _].
  generalize dependent (smt (set_map set)). intros T Hu Hroot Hx E1 I1 E2 E3 I3 Hc.
  pose proof (build_exact U HU T es1 s s1 Hc Hu Hs R1 I1) as Hx1.
  exists (mkTree (tnode 0 T) s1), tr', (vec_nodes s3). split_and!; [done|done|done| | | |].
  - apply map_eq. intros h. apply option_eq. intros pr.
    cbn [tree_storage]. by rewrite (Hx1 h pr), (Hx h pr).
  - unfold root_from_set. by rewrite E2.
  - unfold nodes_from_set. by rewrite E3.
  - intros h pr. cbn [tree_storage]. rewrite (Hx1 h pr), (vector_nodes _ _ _ _ R3 I3), elem_of_nil.
    tauto.
Qed.

(** Membership proofs are complete: in a tree that represents [m], [generate_proof] returns
    an inclusion proof for a bound key, which verifies against the root with the key's data,
    and an exclusion proof for an unbound key, which verifies too. *)
Theorem membership_proofs_complete `{Sha256} {S} `{MapStorage S} (U : list byte -> Prop)
    (m : gmap Bytes32 Bytes32) (tr : MerkleTree S) (key : Bytes32) :
  collision_free U -> represents U m tr -> length key = 32%nat ->
  match m !! key with
  | Some v => exists ps, generate_proof tr key = Ok (Inclusion ps) /\
      forall data, sha256 data = v -> verify_inclusion ps (root tr) key data = Ok true
  | None => exists ps leaf, generate_proof tr key = Ok (Exclusion ps leaf) /\
      verify_exclusion ps leaf (root tr) key = Ok true
  end.
Proof. intros HU Hr Hk. by apply (generate_proof_complete U HU). Qed.

(** C10: Membership proofs are sound: whatever the proof, if inclusion of a key with some data
    verifies against the root of a map, the map binds the key to the digest of the data, and
    if exclusion verifies, the map does not bind the key. The hash is assumed free of collisions
    on a set [U] of inputs, and the inputs hashed for the tree and by the verification are
    in that set. *)
Theorem membership_proofs_sound `{Sha256} (U : list byte -> Prop) (m : gmap Bytes32 Bytes32)
    (key : Bytes32) (data : list byte) (ps : list Bytes32) (leaf : ExclusionLeaf) :
  collision_free U -> keys_ok m -> hashed U (smt m) -> length key = 32%nat ->
  Forall (fun h => length h = 32%nat) ps ->
  (U ([PREFIX_LEAF] ++ key ++ sha256 data) ->
   proof_hashed U key (calculate_leaf_hash key (sha256 data)) ps ->
   verify_inclusion ps (root_hash (smt m)) key data = Ok true -> m !! key = Some (sha256 data)) /\
  (leaf_ok U key leaf -> proof_hashed U key (exclusion_leaf_hash leaf) ps ->
   verify_exclusion ps leaf (root_hash (smt m)) key = Ok true -> m !! key = None).
Proof.
  intros HU Hm Hu Hk Hps. split; intros Hul Hh Hv.
  - by eapply (verify_inclusion_sound U HU m ps).
  - by eapply (verify_exclusion_sound U HU m ps leaf).
Qed.

(** ** Concrete trees *)

Module SparseExamples.

(** A 32-byte checksum in the place of SHA-256. *)
Definition checksum : Sha256 := fun x => to_be_bytes 32 (from_be_bytes x mod (2 ^ 256 - 189) + 1).

Definition inputs_of_trie `{Sha256} : trie -> list (list byte) :=
  fix go t :=
    match t with
    | E => []
    | L k v => [[PREFIX_LEAF] ++ k ++ v]
    | B l r => ([PREFIX_NODE] ++ root_hash l ++ root_hash r) :: go l ++ go r
    end.

Definition collision_check `{Sha256} (l : list (list byte)) : bool :=
  let digests := sha256 <$> l in
  bool_decide (NoDup digests) && bool_decide (zero_sum ∉ digests).

Lemma collision_free_list `{Sha256} l :
  (forall a, length (sha256 a) = 32%nat) -> collision_check l = true ->
  collision_free (fun x => x ∈ l).
Proof.
  intros Hlen [Hnd%bool_decide_eq_true Hz%bool_decide_eq_true]%andb_true_iff. split; [done|..].
  - intros a b [i Hi]%list_elem_of_lookup [j Hj]%list_elem_of_lookup Heq.
    assert (i = j) as ->; [|congruence]. apply (NoDup_lookup _ _ _ (sha256 a) Hnd).
    + by rewrite list_lookup_fmap, Hi.
    + by rewrite list_lookup_fmap, Hj, Heq.
  - intros a Ha Heq. apply Hz, list_elem_of_fmap. eauto.
Qed.

Lemma checksum_length a : length (checksum a) = 32%nat.
Proof. apply length_to_be_bytes. Qed.

Definition k0 : Bytes32 := replicate 32 x00.
Definition k1 : Bytes32 := x40 :: replicate 31 x00.
Definition k2 : Bytes32 := x60 :: replicate 31 x01.

Definition set3 : list (Bytes32 * list byte) := [(k2, [x07]); (k0, [x08; x09]); (k1, [])].
Definition ops4 : list smt_op := [OpInsert k2 [x07]; OpInsert k0 [x08; x09]; OpInsert k1 []; OpDelete k2].

Definition inputs4 : list (list byte) := Eval vm_compute in
  remove_dups (concat ((fun n => inputs_of_trie (H := checksum) (smt (foldl (map_op (H := checksum)) ∅ (take n ops4))))
    <$> [1; 2; 3; 4]%nat)).

Definition hashed_check `{Sha256} (l : list (list byte)) (t : trie) : bool :=
  forallb (fun x => bool_decide (x ∈ l)) (inputs_of_trie t).

Lemma hashed_list `{Sha256} l t : hashed_check l t = true -> hashed (fun x => x ∈ l) t.
Proof.
  unfold hashed_check. induction t as [|k v|tl IHl tr IHr]; cbn; [done|..].
  - rewrite andb_true_r. by intros ?%bool_decide_eq_true.
  - rewrite forallb_app, !andb_true_iff. intros (?%bool_decide_eq_true & ? & ?). auto.
Qed.

Lemma collision_free_4 : collision_free (H := checksum) (fun x => x ∈ inputs4).
Proof. apply collision_free_list; [apply checksum_length|vm_compute; reflexivity]. Qed.

Lemma ops4_hashed : ops_hashed (H := checksum) (fun x => x ∈ inputs4) ∅ ops4.
Proof.
  unfold ops4. cbn [ops_hashed].
  do 4 (split; [apply (hashed_list (H := checksum) inputs4); vm_compute; reflexivity|]). exact I.
Qed.

Lemma ops4_keys : Forall (fun op => length (op_key op) = 32%nat) ops4.
Proof. repeat constructor. Qed.

Lemma view_empty : view (∅ : gmap Bytes32 Primitive) = ∅.
Proof. reflexivity. Qed.

Definition U4 : list byte -> Prop := fun x => x ∈ inputs4.


Lemma set3_hashed :
  ops_hashed (H := checksum) U4 ∅ ((fun kv => OpInsert kv.1 kv.2) <$> set3).
Proof.
  unfold set3. cbn [fmap list_fmap fst snd ops_hashed].
  do 3 (split; [apply (hashed_list (H := checksum) inputs4); vm_compute; reflexivity|]). exact I.
Qed.

Lemma set3_keys : Forall (fun kv => length kv.1 = 32%nat) set3.
Proof. repeat constructor. Qed.

Lemma from_set_equivalent_witness :
  exists tr tr',
    from_set (H := checksum) (∅ : gmap Bytes32 Primitive) set3 = Ok tr /\
    run_ops (H := checksum) (tree_new ∅) ((fun kv => OpInsert kv.1 kv.2) <$> set3) = Ok tr' /\
    root_node tr = root_node tr' /\ root_from_set (H := checksum) set3 = Ok (root tr).
Proof.
  destruct (from_set_equivalent (H := checksum) U4 (∅ : gmap Bytes32 Primitive) set3 collision_free_4
    view_empty set3_keys set3_hashed) as (tr & tr' & nodes & H1 & H2 & H3 & _ & H5 & _).
  exists tr, tr'. split; [exact H1|split; [exact H2|split; [exact H3|exact H5]]].
Defined.

Definition map3_of : gmap Bytes32 Bytes32 := set_map (H := checksum) set3.

Lemma map3_represented :
  exists tr, run_ops (H := checksum) (tree_new (∅ : gmap Bytes32 Primitive))
    ((fun kv => OpInsert kv.1 kv.2) <$> set3) = Ok tr /\ represents (H := checksum) U4 map3_of tr.
Proof.
  destruct (run_ops_represents (H := checksum) U4 collision_free_4 ∅
    (tree_new (∅ : gmap Bytes32 Primitive)) ((fun kv => OpInsert kv.1 kv.2) <$> set3)) as (tr & H1 & H2).
  - by apply new_represents.
  - apply Forall_fmap, set3_keys.
  - apply set3_hashed.
  - exists tr. split; [exact H1|]. by rewrite set_map_ops in H2.
Qed.

Lemma membership_proofs_complete_witness :
  exists (tr : MerkleTree (gmap Bytes32 Primitive)) ps ps' leaf,
    represents (H := checksum) U4 map3_of tr /\
    generate_proof (H := checksum) tr k1 = Ok (Inclusion ps) /\
    verify_inclusion (H := checksum) ps (root tr) k1 [] = Ok true /\
    generate_proof (H := checksum) tr (replicate 32 xff) = Ok (Exclusion ps' leaf).
Proof.
  destruct map3_represented as (tr & _ & Hr). exists tr.
  pose proof (membership_proofs_complete (H := checksum) U4 map3_of tr k1 collision_free_4 Hr eq_refl) as H1.
  pose proof (membership_proofs_complete (H := checksum) U4 map3_of tr (replicate 32 xff)
    collision_free_4 Hr eq_refl) as H2.
  replace (map3_of !! k1) with (Some (checksum [])) in H1 by (vm_compute; reflexivity).
  replace (map3_of !! replicate 32 xff) with (@None Bytes32) in H2 by (vm_compute; reflexivity).
  destruct H1 as (ps & Hg & Hv), H2 as (ps' & leaf & Hg' & _). exists ps, ps', leaf.
  split; [exact Hr|split; [exact Hg|split; [|exact Hg']]]. apply Hv. reflexivity.
Defined.

(** The proof of [k1] in the tree of [set3]: the siblings [k2], [k0] and a placeholder. *)
Definition proof_k1 : list Bytes32 :=
  [calculate_leaf_hash (H := checksum) k2 (checksum [x07]);
   calculate_leaf_hash (H := checksum) k0 (checksum [x08; x09]); zero_sum].

Lemma membership_proofs_sound_witness :
  verify_inclusion (H := checksum) proof_k1 (root_hash (H := checksum) (smt map3_of)) k1 [] = Ok true /\
  map3_of !! k1 = Some (checksum []).
Proof.
  assert (Hv : verify_inclusion (H := checksum) proof_k1
    (root_hash (H := checksum) (smt map3_of)) k1 [] = Ok true) by (vm_compute; reflexivity).
  split; [exact Hv|]. destruct map3_represented as (tr & _ & Hkm & Hu & _).
  refine (proj1 (membership_proofs_sound (H := checksum) U4 map3_of k1 [] proof_k1
    ExclusionLeaf_Placeholder collision_free_4 Hkm Hu eq_refl _) _ _ Hv).
  - repeat constructor.
  - apply (bool_decide_unpack _). vm_compute. exact I.
  - do 3 (split; [apply (bool_decide_unpack _); vm_compute; exact I|]). exact I.
Defined.
End SparseExamples.
