(* ===== verification/MerkleProof.v ===== *)
(** * Proofs of membership in binary Merkle trees

    [verify] of src/fuel-merkle/src/binary/verify.rs: the path from a leaf to the root is
    climbed with the hashes of the siblings. The reference is the recursive tree hash [mth] and
    the list of siblings on the way to a leaf, [audit]. *)

From Stdlib Require Import Strings.Byte.
From S2P Require Import Prelude Merkle.

Section Verify.
Context `{Sha256}.

Definition is_power_of_two (n : Z) : bool := n =? 2 ^ Z.log2 n.

(** The recursion halves the number of leaves: 64 calls are enough for a word. *)
Fixpoint path_length_from_key (fuel : nat) (key num_leaves : Z) : outcome unit (option Z) :=
  match fuel with
  | O => Crash
  | S f =>
      if num_leaves =? 0 then Ok None
      else
        let path_length := if is_power_of_two num_leaves then Z.log2 num_leaves else Z.log2 num_leaves + 1 in
        let? shift := expect (checked_sub path_length 1) in
        let num_leaves_left_subtree := 2 ^ shift in
        let subtree_leaves := saturating_sub num_leaves num_leaves_left_subtree in
        match checked_sub key num_leaves_left_subtree with
        | None => Ok (Some path_length)
        | Some subtree_key =>
            if (num_leaves_left_subtree =? 1) || (subtree_leaves <=? 1) then Ok (Some 1)
            else
              let? r := path_length_from_key f subtree_key subtree_leaves in
              Ok (r ≫= fun n => checked_add n 1)
        end
  end.

(** The first loop of [verify]: it ends when a subtree leaves the tree, or with [None] when the
    proof is too short. Shifts of a word by 64 and sums past a word are panics. *)
Fixpoint verify_loop (fuel : nat) (proof_set : list (list byte)) (proof_index num_leaves parent stable_end : Z)
    (sum : list byte) : outcome unit (option (list byte * Z * Z)) :=
  match fuel with
  | O => Crash
  | S f =>
      let height := parent + 1 in
      if 64 <=? height then Crash
      else
        let subtree_size := 2 ^ height in
        let subtree_start_index := proof_index / subtree_size * subtree_size in
        let? subtree_end := expect (checked_add subtree_start_index subtree_size) in
        let subtree_end_index := subtree_end - 1 in
        if num_leaves <=? subtree_end_index then Ok (Some (sum, parent, stable_end))
        else if zlen proof_set <? height then Ok None
        else
          let? proof_data := expect (zget proof_set parent) in
          let sum :=
            if proof_index - subtree_start_index <? 2 ^ parent then node_sum sum proof_data
            else node_sum proof_data sum in
          verify_loop f proof_set proof_index num_leaves (parent + 1) subtree_end_index sum
  end.

(** The last loop: the rest of the proof are left siblings. *)
Fixpoint verify_rest (proof_set : list (list byte)) (sum : list byte) : list byte :=
  match proof_set with
  | [] => sum
  | proof_data :: rest => verify_rest rest (node_sum proof_data sum)
  end.

Definition verify (root data : list byte) (proof_set : list (list byte)) (proof_index num_leaves : Z)
  : outcome unit bool :=
  let? length_ok :=
    if num_leaves <=? 1 then Ok (zlen proof_set =? 0)
    else
      let? l := path_length_from_key 64 proof_index num_leaves in
      Ok (bool_decide (Some (zlen proof_set) = l)) in
  if negb length_ok then Ok false
  else if num_leaves <=? proof_index then Ok false
  else
    let sum := leaf_sum data in
    if zlen proof_set =? 0 then
      if num_leaves =? 1 then Ok (bool_decide (root = sum)) else Ok false
    else
      let? last_leaf := expect (checked_sub num_leaves 1) in
      let? r := verify_loop 64 proof_set proof_index num_leaves 0 proof_index sum in
      match r with
      | None => Ok false
      | Some (sum, parent, stable_end) =>
          if negb (stable_end =? last_leaf) then
            if zlen proof_set <=? parent then Ok false
            else
              let? proof_data := expect (zget proof_set parent) in
              let sum := node_sum sum proof_data in
              Ok (bool_decide (verify_rest (drop (Z.to_nat (parent + 1)) proof_set) sum = root))
          else Ok (bool_decide (verify_rest (drop (Z.to_nat parent) proof_set) sum = root))
      end.

(** ** Reference *)

(** The sides on which the siblings lie, from the leaf to the root. *)
Fixpoint sides_aux (fuel : nat) (n i : Z) : list Position.Side :=
  match fuel with
  | O => []
  | S f =>
      if n <=? 1 then []
      else
        let k := split_point n in
        if i <? k then sides_aux f k i ++ [Position.Right]
        else sides_aux f (n - k) (i - k) ++ [Position.Left]
  end.
Definition sides (n i : Z) : list Position.Side := sides_aux (Z.to_nat n) n i.

Fixpoint climb (sum : list byte) (s : list Position.Side) (proof : list (list byte)) : list byte :=
  match s, proof with
  | Position.Right :: s, p :: proof => climb (node_sum sum p) s proof
  | Position.Left :: s, p :: proof => climb (node_sum p sum) s proof
  | _, _ => sum
  end.

(** The hashes of the siblings, from the leaf to the root. *)
Fixpoint audit_aux (fuel : nat) (leaves : list (list byte)) (i : Z) : list (list byte) :=
  match fuel with
  | O => []
  | S f =>
      if zlen leaves <=? 1 then []
      else
        let k := split_point (zlen leaves) in
        let l := take (Z.to_nat k) leaves in
        let r := drop (Z.to_nat k) leaves in
        if i <? k then audit_aux f l i ++ [mth r] else audit_aux f r (i - k) ++ [mth l]
  end.
Definition audit (leaves : list (list byte)) (i : Z) : list (list byte) := audit_aux (length leaves) leaves i.

(** ** Lemmas on the reference *)

Lemma sides_aux_fuel f g n i :
  n <= Z.of_nat f -> n <= Z.of_nat g -> sides_aux f n i = sides_aux g n i.
Proof.
  revert g n i. induction f as [|f IH]; intros g n i Hf Hg.
  - destruct g as [|g]; [done|]. cbn [sides_aux]. case_if; [done|lia].
  - destruct g as [|g].
    + cbn [sides_aux]. case_if; [done|lia].
    + cbn [sides_aux]. case_if; [done|]. pose proof (split_point_range n ltac:(lia)).
      case_if; f_equal; apply IH; lia.
Qed.

Lemma sides_unfold n i :
  2 <= n ->
  sides n i =
    let k := split_point n in
    if i <? k then sides k i ++ [Position.Right] else sides (n - k) (i - k) ++ [Position.Left].
Proof.
  intros Hn. pose proof (split_point_range n Hn). unfold sides at 1.
  destruct (Z.to_nat n) as [|f] eqn:E; [lia|]. cbn [sides_aux]. case_if; [lia|].
  cbn zeta. case_if; f_equal; apply sides_aux_fuel; lia.
Qed.

Lemma sides_small n i : n <= 1 -> sides n i = [].
Proof. intros Hn. unfold sides. destruct (Z.to_nat n); [done|]. cbn. case_if; [done|lia]. Qed.

Lemma audit_aux_fuel f g leaves i :
  (length leaves <= f)%nat -> (length leaves <= g)%nat -> audit_aux f leaves i = audit_aux g leaves i.
Proof.
  revert g leaves i. induction f as [|f IH]; intros g leaves i Hf Hg.
  - destruct g as [|g]; [done|]. cbn [audit_aux]. case_if; [done|unfold zlen in *; lia].
  - destruct g as [|g].
    + cbn [audit_aux]. case_if; [done|unfold zlen in *; lia].
    + cbn [audit_aux]. case_if; [done|]. pose proof (split_point_range (zlen leaves) ltac:(lia)). unfold zlen in *.
      case_if; f_equal; apply IH; rewrite ?length_take, ?length_drop; lia.
Qed.

Lemma audit_unfold leaves i :
  2 <= zlen leaves ->
  audit leaves i =
    let k := split_point (zlen leaves) in
    let l := take (Z.to_nat k) leaves in
    let r := drop (Z.to_nat k) leaves in
    if i <? k then audit l i ++ [mth r] else audit r (i - k) ++ [mth l].
Proof.
  intros Hn. pose proof (split_point_range (zlen leaves) Hn) as Hs. unfold audit at 1.
  destruct (length leaves) as [|f] eqn:E; [unfold zlen in Hn; lia|]. cbn [audit_aux]. case_if; [lia|].
  cbn zeta. unfold zlen in *. case_if; f_equal; apply audit_aux_fuel; rewrite ?length_take, ?length_drop; lia.
Qed.

Lemma climb_app sum s1 s2 p1 p2 :
  length s1 = length p1 -> climb sum (s1 ++ s2) (p1 ++ p2) = climb (climb sum s1 p1) s2 p2.
Proof.
  revert sum p1. induction s1 as [|s s1 IH]; intros sum [|p p1] Hl; try done.
  destruct s; cbn; apply IH; cbn in Hl; lia.
Qed.

(** Halving a list of leaves. *)
Lemma leaves_ind (P : list (list byte) -> Prop) :
  (forall l, zlen l <= 1 -> P l) ->
  (forall l, 2 <= zlen l ->
    P (take (Z.to_nat (split_point (zlen l))) l) -> P (drop (Z.to_nat (split_point (zlen l))) l) -> P l) ->
  forall l, P l.
Proof.
  intros Hs Hb l. assert (forall n l, (length l < n)%nat -> P l) as Hall; [|by apply (Hall (S (length l))); lia].
  clear l. induction n as [|n IH]; intros l Hl; [lia|]. destruct (Z.le_gt_cases (zlen l) 1) as [Hz|Hz]; [by apply Hs|].
  pose proof (split_point_range (zlen l) ltac:(lia)) as Hk. unfold zlen in *.
  apply Hb; [unfold zlen; lia|..]; unfold zlen; apply IH; rewrite ?length_take, ?length_drop; lia.
Qed.

Lemma zlen_take_split (l : list (list byte)) (k := split_point (zlen l)) : 2 <= zlen l ->
  zlen (take (Z.to_nat k) l) = k /\ zlen (drop (Z.to_nat k) l) = zlen l - k.
Proof.
  intros Hl. pose proof (split_point_range (zlen l) Hl) as Hk. fold k in Hk. unfold zlen in *.
  rewrite length_take, length_drop. lia.
Qed.

Lemma zget_take_split (l : list (list byte)) i (k := split_point (zlen l)) : 2 <= zlen l -> 0 <= i ->
  zget l i = if i <? k then zget (take (Z.to_nat k) l) i else zget (drop (Z.to_nat k) l) (i - k).
Proof.
  intros Hl Hi. pose proof (split_point_range (zlen l) Hl) as Hk. fold k in Hk.
  destruct (zlen_take_split l Hl) as [E _]. fold k in E. rewrite <- (take_drop (Z.to_nat k) l) at 1. by rewrite zget_app, E.
Qed.

Lemma audit_length leaves : forall i, 0 <= i < zlen leaves -> length (audit leaves i) = length (sides (zlen leaves) i).
Proof.
  induction leaves as [l Hl|l Hl IH1 IH2] using leaves_ind; intros i Hi.
  - rewrite sides_small by lia. unfold audit. destruct (length l) eqn:E; [done|]. cbn. case_if; [done|lia].
  - rewrite audit_unfold, sides_unfold by lia. cbn zeta. destruct (zlen_take_split l Hl) as [E1 E2].
    rewrite E1 in IH1. rewrite E2 in IH2. pose proof (split_point_range (zlen l) Hl).
    case_if; rewrite !length_app; f_equal; [apply IH1|apply IH2]; lia.
Qed.

(** The siblings of a leaf lead to the tree hash. *)
Lemma audit_climb leaves : forall i d,
  zget leaves i = Some d -> climb (leaf_sum d) (sides (zlen leaves) i) (audit leaves i) = mth leaves.
Proof.
  induction leaves as [l Hl|l Hl IH1 IH2] using leaves_ind; intros i d Hd.
  - rewrite sides_small by lia. apply zget_Some_len in Hd as Hr. cbn.
    destruct l as [|x [|y l]]; unfold zlen in *; cbn in *; [lia| |lia].
    assert (i = 0) as -> by lia. cbn in Hd. by injection Hd as ->.
  - pose proof (zget_Some_len _ _ _ Hd) as Hr. rewrite audit_unfold, sides_unfold, mth_unfold by lia. cbn zeta.
    rewrite zget_take_split in Hd by lia. destruct (zlen_take_split l Hl) as [E1 E2]. rewrite E1 in IH1. rewrite E2 in IH2.
    pose proof (split_point_range (zlen l) Hl). case_if.
    + rewrite climb_app, (IH1 i d Hd) by (rewrite audit_length, E1 by lia; done). done.
    + rewrite climb_app, (IH2 _ d Hd) by (rewrite audit_length, E2 by lia; done). done.
Qed.

(** The strings that computing the tree hash and climbing with a proof feed to the hash. *)
Fixpoint tree_inputs_aux (fuel : nat) (leaves : list (list byte)) : list (list byte) :=
  match fuel with
  | O => []
  | S f =>
      if zlen leaves <=? 1 then map (fun d => [PREFIX_LEAF] ++ d) leaves
      else
        let k := split_point (zlen leaves) in
        let l := take (Z.to_nat k) leaves in
        let r := drop (Z.to_nat k) leaves in
        ([PREFIX_NODE] ++ mth l ++ mth r) :: tree_inputs_aux f l ++ tree_inputs_aux f r
  end.
Definition tree_inputs (leaves : list (list byte)) : list (list byte) := tree_inputs_aux (length leaves) leaves.

Fixpoint climb_inputs (sum : list byte) (s : list Position.Side) (proof : list (list byte)) : list (list byte) :=
  match s, proof with
  | Position.Right :: s, p :: proof => ([PREFIX_NODE] ++ sum ++ p) :: climb_inputs (node_sum sum p) s proof
  | Position.Left :: s, p :: proof => ([PREFIX_NODE] ++ p ++ sum) :: climb_inputs (node_sum p sum) s proof
  | _, _ => []
  end.
Definition proof_inputs (d : list byte) (s : list Position.Side) (proof : list (list byte)) : list (list byte) :=
  ([PREFIX_LEAF] ++ d) :: climb_inputs (leaf_sum d) s proof.

Lemma tree_inputs_aux_fuel f g leaves :
  (length leaves <= f)%nat -> (length leaves <= g)%nat -> tree_inputs_aux f leaves = tree_inputs_aux g leaves.
Proof.
  revert g leaves. induction f as [|f IH]; intros g leaves Hf Hg.
  - destruct leaves; [|cbn in Hf; lia]. by destruct g.
  - destruct g as [|g]; [destruct leaves; [done|cbn in Hg; lia]|]. cbn [tree_inputs_aux]. case_if; [done|].
    pose proof (split_point_range (zlen leaves) ltac:(lia)). unfold zlen in *. f_equal. f_equal; apply IH;
      rewrite ?length_take, ?length_drop; lia.
Qed.

Lemma tree_inputs_unfold leaves :
  2 <= zlen leaves ->
  tree_inputs leaves =
    let k := split_point (zlen leaves) in
    let l := take (Z.to_nat k) leaves in
    let r := drop (Z.to_nat k) leaves in
    ([PREFIX_NODE] ++ mth l ++ mth r) :: tree_inputs l ++ tree_inputs r.
Proof.
  intros Hn. pose proof (split_point_range (zlen leaves) Hn) as Hs. unfold tree_inputs at 1.
  destruct (length leaves) as [|f] eqn:E; [unfold zlen in Hn; lia|]. cbn [tree_inputs_aux]. case_if; [lia|].
  cbn zeta. unfold zlen in *. f_equal. f_equal; apply tree_inputs_aux_fuel; rewrite ?length_take, ?length_drop; lia.
Qed.

Lemma climb_inputs_app s1 s2 p1 p2 : forall sum,
  length s1 = length p1 ->
  climb_inputs sum (s1 ++ s2) (p1 ++ p2) = climb_inputs sum s1 p1 ++ climb_inputs (climb sum s1 p1) s2 p2.
Proof.
  revert p1. induction s1 as [|s s1 IH]; intros [|p p1] sum Hl; try done. destruct s; cbn; f_equal; apply IH; cbn in Hl; lia.
Qed.

(** Two strings among those hashed have the same hash. *)
Definition collides (U : list byte -> Prop) : Prop := exists x y, U x /\ U y /\ x <> y /\ sha256 x = sha256 y.

Section Sound.
Hypothesis Hsha : forall l, length (sha256 l) = 32%nat.
Context (U : list byte -> Prop).

Lemma sum_injective x y : U x -> U y -> sha256 x = sha256 y -> x = y \/ collides U.
Proof. intros Hx Hy E. destruct (decide (x = y)); [by left|]. right. by exists x, y. Qed.

Lemma node_sum_inj a b c d :
  U ([PREFIX_NODE] ++ a ++ b) -> U ([PREFIX_NODE] ++ c ++ d) ->
  length a = length c -> node_sum a b = node_sum c d -> a = c /\ b = d \/ collides U.
Proof.
  intros Hx Hy Hl E. apply sum_injective in E as [E|E]; [left|by right|done|done]. injection E as E. by apply app_inj_1.
Qed.

Lemma climb_length s : forall sum proof,
  length sum = 32%nat -> Forall (fun p => length p = 32%nat) proof -> length (climb sum s proof) = 32%nat.
Proof.
  induction s as [|[] s IH]; intros sum [|p proof] Hs Hp; cbn; try done; apply Forall_cons in Hp as [? ?]; apply IH; try done; apply Hsha.
Qed.

Lemma mth_length leaves : leaves <> [] -> length (mth leaves) = 32%nat.
Proof.
  intros Hne. destruct leaves as [|x [|y l]]; [done|apply Hsha|]. rewrite mth_unfold by (unfold zlen; cbn; lia). apply Hsha.
Qed.

(** The last step of a climb. *)
Lemma climb_last d s side proof :
  length proof = length (s ++ [side]) -> Forall (fun p => length p = 32%nat) proof -> Forall U (proof_inputs d (s ++ [side]) proof) ->
  exists q rest, proof = rest ++ [q] /\ length rest = length s /\ length q = 32%nat /\
    Forall (fun p => length p = 32%nat) rest /\ Forall U (proof_inputs d s rest) /\
    length (climb (leaf_sum d) s rest) = 32%nat /\
    match side with
    | Position.Right => U ([PREFIX_NODE] ++ climb (leaf_sum d) s rest ++ q) /\
        climb (leaf_sum d) (s ++ [side]) proof = node_sum (climb (leaf_sum d) s rest) q
    | Position.Left => U ([PREFIX_NODE] ++ q ++ climb (leaf_sum d) s rest) /\
        climb (leaf_sum d) (s ++ [side]) proof = node_sum q (climb (leaf_sum d) s rest)
    end.
Proof.
  intros Hlen Hp HU. rewrite length_app in Hlen. cbn in Hlen.
  destruct proof as [|q rest _] using rev_ind; [cbn in Hlen; lia|]. rewrite length_app in Hlen. cbn in Hlen.
  apply Forall_app in Hp as [Hp Hq]. apply Forall_cons in Hq as [Hq _]. exists q, rest.
  unfold proof_inputs in *. rewrite climb_inputs_app in HU by lia. rewrite climb_app by lia.
  apply Forall_cons in HU as [Hd HU]. apply Forall_app in HU as [HU Hlast].
  split_and!; [done|lia|done|done|by constructor|apply climb_length; [apply Hsha|done]|].
  destruct side; cbn in Hlast |- *; apply Forall_cons in Hlast as [Hlast _]; done.
Qed.

(** Whatever leads to the tree hash is a leaf with its siblings. *)
Lemma climb_sound leaves : forall i d proof,
  0 <= i < zlen leaves -> Forall (fun p => length p = 32%nat) proof -> length proof = length (sides (zlen leaves) i) ->
  Forall U (tree_inputs leaves) -> Forall U (proof_inputs d (sides (zlen leaves) i) proof) ->
  climb (leaf_sum d) (sides (zlen leaves) i) proof = mth leaves ->
  (zget leaves i = Some d /\ proof = audit leaves i) \/ collides U.
Proof.
  induction leaves as [l Hl|l Hl IH1 IH2] using leaves_ind; intros i d proof Hi Hp Hlen Ht Hd Hc.
  - rewrite sides_small in * by lia. destruct proof; [|done]. cbn in Hc.
    destruct l as [|x [|y l]]; unfold zlen in *; cbn in Hi, Hl; [lia| |lia]. assert (i = 0) as -> by lia.
    apply Forall_cons in Ht as [Ht _]. apply Forall_cons in Hd as [Hd _].
    apply sum_injective in Hc as [E|E]; [left|by right|done|done]. injection E as ->. done.
  - rewrite sides_unfold in * by lia. rewrite mth_unfold in Hc by lia. rewrite tree_inputs_unfold in Ht by lia. cbn zeta in *.
    rewrite zget_take_split, audit_unfold by lia. cbn zeta.
    destruct (zlen_take_split l Hl) as [E1 E2]. rewrite E1 in IH1. rewrite E2 in IH2.
    pose proof (split_point_range (zlen l) Hl) as Hk. set (k := split_point (zlen l)) in *.
    set (L := take (Z.to_nat k) l) in *. set (R := drop (Z.to_nat k) l) in *.
    assert (HL : length (mth L) = 32%nat) by (apply mth_length; intros E; rewrite E in E1; unfold zlen in E1; cbn in E1; lia).
    apply Forall_cons in Ht as [Hn Ht]. apply Forall_app in Ht as [HtL HtR].
    destruct (i <? k) eqn:Ei; zbool;
      apply (climb_last d _ _ proof Hlen Hp) in Hd as (q & rest & -> & Hlr & Hq & Hpr & Hd & Hcl & HU & Ec); rewrite Ec in Hc.
    + apply node_sum_inj in Hc as [[Hc ->]|Hc]; [|by right|done|done|lia].
      apply IH1 in Hc as [[? ->]|?]; [by left|by right|lia|done|done|done|done].
    + apply node_sum_inj in Hc as [[-> Hc]|Hc]; [|by right|done|done|lia].
      apply IH2 in Hc as [[? ->]|?]; [by left|by right|lia|done|done|done|done].
Qed.

(** Proofs of all the indices of a tree, for the same root, determine its leaves. *)
Lemma climbs_determine leaves : ~ collides U -> forall root,
  leaves <> [] ->
  (forall i d, zget leaves i = Some d -> exists proof,
    Forall (fun p => length p = 32%nat) proof /\ length proof = length (sides (zlen leaves) i) /\
    Forall U (proof_inputs d (sides (zlen leaves) i) proof) /\ climb (leaf_sum d) (sides (zlen leaves) i) proof = root) ->
  root = mth leaves.
Proof.
  intros HU. induction leaves as [l Hl|l Hl IH1 IH2] using leaves_ind; intros root Hne Hall.
  - destruct l as [|x [|y l]]; [done| |unfold zlen in Hl; cbn in Hl; lia].
    destruct (Hall 0 x eq_refl) as (p & _ & Hp & _ & <-). rewrite sides_small in * by (unfold zlen; cbn; lia).
    by destruct p.
  - destruct (zlen_take_split l Hl) as [E1 E2]. rewrite E1 in IH1. rewrite E2 in IH2.
    pose proof (split_point_range (zlen l) Hl) as Hk. rewrite mth_unfold by lia. cbn zeta. set (k := split_point (zlen l)) in *.
    set (L := take (Z.to_nat k) l) in *. set (R := drop (Z.to_nat k) l) in *.
    assert (Hl' : forall i d, zget L i = Some d -> exists p a b, length a = 32%nat /\ U ([PREFIX_NODE] ++ a ++ b) /\ root = node_sum a b /\
      Forall (fun p => length p = 32%nat) p /\ length p = length (sides k i) /\ Forall U (proof_inputs d (sides k i) p) /\
      climb (leaf_sum d) (sides k i) p = a).
    { intros i d Hd. pose proof (zget_Some_len _ _ _ Hd) as Hi. rewrite E1 in Hi.
      destruct (Hall i d) as (p & H1 & H2 & H3 & <-); [rewrite zget_take_split by lia; fold k; by rewrite (proj2 (Z.ltb_lt i k)) by lia|].
      rewrite sides_unfold in * by lia. cbn zeta in *. fold k in H2, H3 |- *. rewrite (proj2 (Z.ltb_lt i k)) in * by lia.
      apply (climb_last d _ _ p H2 H1) in H3 as (q & rest & -> & Hlr & Hq & Hpr & Hd' & Hcl & HU' & Ec).
      by exists rest, (climb (leaf_sum d) (sides k i) rest), q. }
    assert (Hr' : forall i d, zget R i = Some d -> exists p a b, length a = 32%nat /\ U ([PREFIX_NODE] ++ a ++ b) /\ root = node_sum a b /\
      Forall (fun p => length p = 32%nat) p /\ length p = length (sides (zlen l - k) i) /\ Forall U (proof_inputs d (sides (zlen l - k) i) p) /\
      climb (leaf_sum d) (sides (zlen l - k) i) p = b).
    { intros i d Hd. pose proof (zget_Some_len _ _ _ Hd) as Hi. rewrite E2 in Hi.
      destruct (Hall (i + k) d) as (p & H1 & H2 & H3 & <-).
      { rewrite zget_take_split by lia. fold k. rewrite (proj2 (Z.ltb_ge (i + k) k)) by lia. by replace (i + k - k) with i by lia. }
      rewrite sides_unfold in * by lia. cbn zeta in *. fold k in H2, H3 |- *. rewrite (proj2 (Z.ltb_ge (i + k) k)) in * by lia.
      replace (i + k - k) with i in * by lia.
      apply (climb_last d _ _ p H2 H1) in H3 as (q & rest & -> & Hlr & Hq & Hpr & Hd' & Hcl & HU' & Ec).
      by exists rest, q, (climb (leaf_sum d) (sides (zlen l - k) i) rest). }
    destruct (zget_is_Some L 0) as [d0 Hd0]; [lia|]. destruct (Hl' 0 d0 Hd0) as (p0 & a0 & b0 & Ha0 & HU0 & E0 & _).
    destruct (zget_is_Some R 0) as [d1 Hd1]; [lia|].
    assert (Hsame : forall a b, length a = 32%nat -> U ([PREFIX_NODE] ++ a ++ b) -> root = node_sum a b -> a = a0 /\ b = b0).
    { intros a b Ha Hab E. rewrite E in E0. apply node_sum_inj in E0 as [?|?]; [done|done|done|done|lia]. }
    rewrite E0. f_equal.
    + apply IH1; [intros E; rewrite E in Hd0; done|]. intros i d Hd. destruct (Hl' i d Hd) as (p & a & b & Ha & Hab & E & Hp).
      destruct (Hsame a b Ha Hab E) as [-> _]. by exists p.
    + apply IH2; [intros E; rewrite E in Hd1; done|]. intros i d Hd. destruct (Hr' i d Hd) as (p & a & b & Ha & Hab & E & Hp).
      destruct (Hsame a b Ha Hab E) as [_ ->]. by exists p.
Qed.
End Sound.
End Verify.

(** ** The sides in closed form *)

(** The aligned block of [2 ^ j] leaves around leaf [i] is part of the tree. *)
Definition inside (n i : Z) (j : nat) : Prop := (i / 2 ^ Z.of_nat j + 1) * 2 ^ Z.of_nat j <= n.
Definition bit_side (i : Z) (j : nat) : Position.Side :=
  if (i / 2 ^ Z.of_nat j) mod 2 =? 0 then Position.Right else Position.Left.
Definition low (i : Z) (p : nat) : list Position.Side := map (bit_side i) (seq 0 p).

Lemma low_S i p : low i (S p) = low i p ++ [bit_side i p].
Proof. unfold low. by rewrite seq_S, map_app. Qed.

Lemma pow2_pos (h : nat) : 0 < 2 ^ Z.of_nat h.
Proof. apply Z.pow_pos_nonneg; lia. Qed.
Lemma pow2_S (h : nat) : 2 ^ Z.of_nat (S h) = 2 * 2 ^ Z.of_nat h.
Proof. rewrite Nat2Z.inj_succ, Z.pow_succ_r; lia. Qed.

Lemma bit_side_shift i (j h : nat) : (j < h)%nat -> bit_side (i - 2 ^ Z.of_nat h) j = bit_side i j.
Proof.
  intros Hj. unfold bit_side. replace (i - 2 ^ Z.of_nat h) with (i + (- 2 ^ (Z.of_nat h - Z.of_nat j)) * 2 ^ Z.of_nat j).
  - rewrite Z.div_add by (pose proof (pow2_pos j); lia).
    replace (Z.of_nat h - Z.of_nat j) with (Z.of_nat (S (h - j - 1))) by lia. rewrite pow2_S.
    replace (i / 2 ^ Z.of_nat j + - (2 * 2 ^ Z.of_nat (h - j - 1)))
      with (i / 2 ^ Z.of_nat j + - 2 ^ Z.of_nat (h - j - 1) * 2) by lia. by rewrite Z.mod_add by lia.
  - rewrite Z.mul_opp_l, <- Z.pow_add_r by lia. replace (Z.of_nat h - Z.of_nat j + Z.of_nat j) with (Z.of_nat h) by lia. lia.
Qed.
Lemma low_shift i (p h : nat) : (p <= h)%nat -> low (i - 2 ^ Z.of_nat h) p = low i p.
Proof.
  intros Hp. apply map_ext_in. intros j Hj. apply bit_side_shift. apply in_seq in Hj. lia.
Qed.

(** Between two powers of two. *)
Lemma between n : 2 <= n -> exists h : nat, 2 ^ Z.of_nat h < n <= 2 ^ Z.of_nat (S h) /\ split_point n = 2 ^ Z.of_nat h.
Proof.
  intros Hn. pose proof (Z.log2_up_spec n ltac:(lia)) as Hs. pose proof (Z.log2_up_pos n ltac:(lia)).
  exists (Z.to_nat (Z.log2_up n - 1)). unfold split_point. rewrite Nat2Z.inj_succ, Z2Nat.id by lia.
  replace (Z.succ (Z.log2_up n - 1)) with (Z.log2_up n) by lia. replace (Z.pred (Z.log2_up n)) with (Z.log2_up n - 1) in Hs by lia.
  done.
Qed.

Lemma sides_perfect (h : nat) : forall i, 0 <= i < 2 ^ Z.of_nat h -> sides (2 ^ Z.of_nat h) i = low i h.
Proof.
  induction h as [|h IH]; intros i Hi; [by rewrite sides_small|].
  pose proof (pow2_pos h) as Hpos. rewrite pow2_S in *. rewrite sides_unfold by lia.
  assert (Ek : split_point (2 * 2 ^ Z.of_nat h) = 2 ^ Z.of_nat h).
  { apply split_point_pow; [lia|]. rewrite Z.pow_add_r by lia. lia. }
  rewrite Ek, low_S. cbn zeta. case_if; zbool; unfold bit_side.
  - rewrite IH by lia. rewrite Z.div_small by lia. done.
  - replace (2 * 2 ^ Z.of_nat h - 2 ^ Z.of_nat h) with (2 ^ Z.of_nat h) by lia. rewrite IH, low_shift by lia.
    assert (i / 2 ^ Z.of_nat h = 1) as -> by (symmetry; apply (Z.div_unique _ _ _ (i - 2 ^ Z.of_nat h)); lia). done.
Qed.

Lemma inside_shift n i (j h : nat) : (j <= h)%nat ->
  inside (n - 2 ^ Z.of_nat h) (i - 2 ^ Z.of_nat h) j <-> inside n i j.
Proof.
  intros Hj. unfold inside. pose proof (pow2_pos j).
  assert (E : 2 ^ Z.of_nat h = 2 ^ Z.of_nat (h - j) * 2 ^ Z.of_nat j) by (rewrite <- Z.pow_add_r by lia; f_equal; lia).
  rewrite E. replace (i - 2 ^ Z.of_nat (h - j) * 2 ^ Z.of_nat j) with (i + (- 2 ^ Z.of_nat (h - j)) * 2 ^ Z.of_nat j) by lia.
  rewrite Z.div_add by lia. nia.
Qed.

Definition block_end (i : Z) (p : nat) : Z := (i / 2 ^ Z.of_nat p + 1) * 2 ^ Z.of_nat p.

(** Inside the largest aligned block the bits decide; above it there is at most one sibling on
    the right, and then only siblings on the left. *)
Lemma sides_closed (m : nat) : forall n i (p : nat),
  n <= Z.of_nat m -> 0 <= i < n -> inside n i p -> ~ inside n i (S p) ->
  exists r, sides n i = low i p ++ (if block_end i p =? n then [] else [Position.Right]) ++ replicate r Position.Left.
Proof.
  induction m as [|m IH]; intros n i p Hm Hi Hp Hp'; [lia|].
  assert (Hle : 2 ^ Z.of_nat p <= n).
  { unfold inside in Hp. pose proof (pow2_pos p). pose proof (Z.div_pos i (2 ^ Z.of_nat p) ltac:(lia) ltac:(lia)). nia. }
  destruct (Z.le_gt_cases n 1) as [Hn|Hn].
  { assert (n = 1 /\ i = 0) as [-> ->] by lia. destruct p as [|p]; [by exists 0%nat|].
    rewrite pow2_S in Hle. pose proof (pow2_pos p). lia. }
  destruct (between n ltac:(lia)) as (h & Hh & Ek). pose proof (pow2_pos h) as Hpos. rewrite pow2_S in Hh.
  assert (Hd : forall j : nat, i < 2 ^ Z.of_nat j -> block_end i j = 2 ^ Z.of_nat j)
    by (intros j Hj; unfold block_end; rewrite Z.div_small by lia; lia).
  assert (Hup : forall j : nat, (j <= p)%nat -> 2 ^ Z.of_nat j <= n)
    by (intros j Hj; etrans; [|exact Hle]; apply Z.pow_le_mono_r; lia).
  destruct (decide (n = 2 ^ Z.of_nat (S h))) as [->|Hne].
  - assert (p = S h) as ->.
    { destruct (Nat.lt_trichotomy p (S h)) as [Hlt|[?|Hgt]]; [|done|].
      - exfalso. apply Hp'. unfold inside.
        assert (E : 2 ^ Z.of_nat (S h) = 2 ^ Z.of_nat (h - p) * 2 ^ Z.of_nat (S p)) by (rewrite <- Z.pow_add_r by lia; f_equal; lia).
        pose proof (pow2_pos (S p)). rewrite E in *. apply Z.mul_le_mono_nonneg_r; [lia|].
        pose proof (Z.div_lt_upper_bound i (2 ^ Z.of_nat (S p)) (2 ^ Z.of_nat (h - p)) ltac:(lia) ltac:(lia)). lia.
      - specialize (Hup (S (S h)) Hgt). rewrite (pow2_S (S h)) in Hup. lia. }
    exists 0%nat. rewrite sides_perfect, Hd by lia. by rewrite Z.eqb_refl, !app_nil_r.
  - rewrite pow2_S in Hne.
    assert (Hph : (p <= h)%nat).
    { apply Nat.nlt_ge. intros Hgt. specialize (Hup (S h) Hgt). rewrite pow2_S in Hup. lia. }
    rewrite sides_unfold, Ek by lia. cbn zeta. destruct (i <? 2 ^ Z.of_nat h) eqn:Eik; zbool.
    + assert (p = h) as ->.
      { destruct (Nat.lt_trichotomy p h) as [Hlt|[?|Hgt]]; [|done|lia]. exfalso. apply Hp'. unfold inside.
        assert (E : 2 ^ Z.of_nat h = 2 ^ Z.of_nat (h - S p) * 2 ^ Z.of_nat (S p)) by (rewrite <- Z.pow_add_r by lia; f_equal; lia).
        pose proof (pow2_pos (S p)). rewrite E in *.
        pose proof (Z.div_lt_upper_bound i (2 ^ Z.of_nat (S p)) (2 ^ Z.of_nat (h - S p)) ltac:(lia) ltac:(lia)). nia. }
      exists 0%nat. rewrite sides_perfect, Hd by lia. case_if; zbool; [lia|done].
    + assert (Hlt : (p < h)%nat).
      { destruct (decide (p = h)) as [->|]; [|lia]. exfalso. unfold inside in Hp.
        assert (i / 2 ^ Z.of_nat h = 1) as E by (symmetry; apply (Z.div_unique _ _ _ (i - 2 ^ Z.of_nat h)); lia).
        rewrite E in Hp. lia. }
      destruct (IH (n - 2 ^ Z.of_nat h) (i - 2 ^ Z.of_nat h) p) as [r Hr]; [lia|lia| | |].
      * by apply inside_shift; [lia|].
      * rewrite inside_shift by lia. done.
      * exists (r + 1)%nat. rewrite Hr, low_shift by lia. rewrite replicate_add, <- !app_assoc. do 2 f_equal.
        assert (block_end (i - 2 ^ Z.of_nat h) p = block_end i p - 2 ^ Z.of_nat h) as ->.
        { unfold block_end. assert (E : 2 ^ Z.of_nat h = 2 ^ Z.of_nat (h - p) * 2 ^ Z.of_nat p) by (rewrite <- Z.pow_add_r by lia; f_equal; lia).
          rewrite E. replace (i - 2 ^ Z.of_nat (h - p) * 2 ^ Z.of_nat p) with (i + (- 2 ^ Z.of_nat (h - p)) * 2 ^ Z.of_nat p) by lia.
          pose proof (pow2_pos p). rewrite Z.div_add by lia. lia. }
        repeat case_if; zbool; try lia; done.
Qed.

Lemma inside_level n i : 0 <= i < n -> exists p, inside n i p /\ ~ inside n i (S p).
Proof.
  intros Hi. assert (H0 : inside n i 0) by (unfold inside; cbn; rewrite Z.div_1_r; lia).
  assert (Hend : ~ inside n i (Z.to_nat n)).
  { unfold inside. pose proof (Z.pow_gt_lin_r 2 n ltac:(lia) ltac:(lia)). rewrite Z2Nat.id by lia.
    pose proof (Z.div_pos i (2 ^ n) ltac:(lia) ltac:(lia)). nia. }
  induction (Z.to_nat n) as [|b IH]; [done|]. destruct (decide ((i / 2 ^ Z.of_nat b + 1) * 2 ^ Z.of_nat b <= n)) as [Hb|Hb].
  - by exists b.
  - by apply IH.
Qed.

(** ** The code computes the climb *)

Lemma power_of_two_log n (h : nat) :
  2 ^ Z.of_nat h < n <= 2 ^ Z.of_nat (S h) ->
  (if is_power_of_two n then Z.log2 n else Z.log2 n + 1) = Z.of_nat (S h).
Proof.
  intros Hn. pose proof (pow2_pos h). unfold is_power_of_two. destruct (decide (n = 2 ^ Z.of_nat (S h))) as [->|Hne].
  - rewrite Z.log2_pow2, Z.eqb_refl by lia. done.
  - rewrite (Z.log2_unique n (Z.of_nat h)); [|lia|rewrite <- Nat2Z.inj_succ; lia]. case_if; zbool; lia.
Qed.

Lemma path_length_spec (f : nat) : forall i n,
  0 <= i -> 2 <= n <= 2 ^ Z.of_nat f -> Z.of_nat f <= 64 ->
  exists r, path_length_from_key f i n = Ok (Some r) /\ 0 <= r <= Z.of_nat f /\ (i < n -> r = zlen (sides n i)).
Proof.
  induction f as [|f IH]; intros i n Hi Hn Hf; [cbn in Hn; lia|].
  destruct (between n ltac:(lia)) as (h & Hh & Ek). pose proof (pow2_pos h) as Hpos.
  assert (Hhf : (h <= f)%nat).
  { apply Nat.nlt_ge. intros Hlt. assert (2 ^ Z.of_nat (S f) <= 2 ^ Z.of_nat h) by (apply Z.pow_le_mono_r; lia). lia. }
  cbn [path_length_from_key]. rewrite (proj2 (Z.eqb_neq n 0)), (power_of_two_log n h Hh) by lia.
  rewrite checked_sub_Some by lia. cbn [expect obind]. replace (Z.of_nat (S h) - 1) with (Z.of_nat h) by lia.
  assert (Esub : saturating_sub n (2 ^ Z.of_nat h) = n - 2 ^ Z.of_nat h) by (unfold saturating_sub; lia). rewrite Esub.
  destruct (Z.lt_ge_cases i (2 ^ Z.of_nat h)) as [Hlt|Hge].
  - rewrite checked_sub_None by lia. exists (Z.of_nat (S h)). split_and!; [done|lia|lia|]. intros _.
    rewrite sides_unfold, Ek by lia. cbn zeta. rewrite (proj2 (Z.ltb_lt i _)), sides_perfect, zlen_app by lia.
    unfold zlen, low. rewrite length_map, length_seq. cbn. lia.
  - rewrite checked_sub_Some by lia. rewrite pow2_S in Hh.
    destruct ((2 ^ Z.of_nat h =? 1) || (n - 2 ^ Z.of_nat h <=? 1)) eqn:Eb.
    + exists 1. split_and!; [done|lia|lia|]. intros Hin. rewrite sides_unfold, Ek by lia. cbn zeta.
      rewrite (proj2 (Z.ltb_ge i _)), (sides_small (n - _)) by lia. done.
    + destruct (IH (i - 2 ^ Z.of_nat h) (n - 2 ^ Z.of_nat h)) as (r & -> & Hr & Hs); [lia| |lia|].
      { assert (2 ^ Z.of_nat h <= 2 ^ Z.of_nat f) by (apply Z.pow_le_mono_r; lia). lia. }
      cbn [obind mbind option_bind]. rewrite checked_add_Some by lia. exists (r + 1). split_and!; [done|lia|lia|].
      intros Hin. rewrite sides_unfold, Ek by lia. cbn zeta. rewrite (proj2 (Z.ltb_ge i _)), zlen_app by lia.
      rewrite <- Hs by lia. done.
Qed.

Section Spec.
Context `{Sha256}.

Lemma inside_mono n i (p q : nat) : 0 <= i -> (q <= p)%nat -> inside n i p -> inside n i q.
Proof.
  intros Hi Hq. unfold inside. replace p with (q + (p - q))%nat by lia. generalize (p - q)%nat as d. intros d.
  rewrite Nat2Z.inj_add, Z.pow_add_r by lia. pose proof (pow2_pos q). pose proof (pow2_pos d).
  rewrite <- Z.div_div by lia. set (a := i / 2 ^ Z.of_nat q). pose proof (Z.mul_div_le a (2 ^ Z.of_nat d) ltac:(lia)).
  pose proof (Z.mul_succ_div_gt a (2 ^ Z.of_nat d) ltac:(lia)). nia.
Qed.

(** One level of the loop: the bit decides on which side the sibling lies. *)
Lemma below_parent i (q : nat) : 0 <= i ->
  (i - i / 2 ^ Z.of_nat (S q) * 2 ^ Z.of_nat (S q) <? 2 ^ Z.of_nat q) = ((i / 2 ^ Z.of_nat q) mod 2 =? 0).
Proof.
  intros Hi. pose proof (pow2_pos q) as Hq. rewrite pow2_S, (Z.mul_comm 2), <- Z.div_div by lia.
  set (P := 2 ^ Z.of_nat q) in *. set (a := i / P).
  pose proof (Z.div_mod i P ltac:(lia)) as E1. pose proof (Z.mod_pos_bound i P Hq).
  pose proof (Z.div_mod a 2 ltac:(lia)) as E2. pose proof (Z.mod_pos_bound a 2 ltac:(lia)). fold a in E1.
  set (b := a / 2) in *. set (c := a mod 2) in *. set (r := i mod P) in *.
  destruct (Z.eqb_spec c 0); destruct (Z.ltb_spec (i - b * (P * 2)) P); try done; nia.
Qed.

Lemma verify_loop_spec n i proof (m : nat) : forall (q : nat) sum (f : nat),
  0 <= i < n -> n < 2 ^ 63 -> inside n i (q + m) -> ~ inside n i (S (q + m)) -> (m < f)%nat ->
  Z.of_nat (q + m) <= zlen proof ->
  verify_loop f proof i n (Z.of_nat q) (block_end i q - 1) sum =
    Ok (Some (climb sum (map (bit_side i) (seq q m)) (take m (drop q proof)), Z.of_nat (q + m), block_end i (q + m) - 1)).
Proof.
  induction m as [|m IH]; intros q sum f Hi Hn Hin Hout Hf Hlen; (destruct f as [|f]; [lia|]); cbn [verify_loop].
  all: assert (Hq : inside n i q) by (refine (inside_mono _ _ _ _ _ _ Hin); lia).
  all: assert (Hsz : 2 ^ Z.of_nat q <= n) by (unfold inside in Hq; pose proof (pow2_pos q); pose proof (Z.div_pos i (2 ^ Z.of_nat q) ltac:(lia) ltac:(lia)); nia).
  all: assert (Hq63 : Z.of_nat q < 63) by (apply (Z.pow_lt_mono_r_iff 2); lia).
  all: rewrite (proj2 (Z.leb_gt 64 _)) by lia; replace (Z.of_nat q + 1) with (Z.of_nat (S q)) by lia.
  all: assert (Hstart : 0 <= i / 2 ^ Z.of_nat (S q) * 2 ^ Z.of_nat (S q) <= i)
    by (pose proof (pow2_pos (S q)); pose proof (Z.mul_div_le i (2 ^ Z.of_nat (S q)) ltac:(lia));
        pose proof (Z.div_pos i (2 ^ Z.of_nat (S q)) ltac:(lia) ltac:(lia)); nia).
  all: assert (Hpow : 2 ^ Z.of_nat (S q) <= 2 ^ 63) by (apply Z.pow_le_mono_r; lia).
  all: rewrite checked_add_Some by lia; cbn [expect obind].
  all: assert (Eend : i / 2 ^ Z.of_nat (S q) * 2 ^ Z.of_nat (S q) + 2 ^ Z.of_nat (S q) = block_end i (S q)) by (unfold block_end; lia).
  all: rewrite Eend.
  - rewrite Nat.add_0_r in *. rewrite (proj2 (Z.leb_le _ _)); [done|]. unfold inside in Hout. fold (block_end i (S q)) in Hout. lia.
  - assert (Hq' : inside n i (S q)) by (refine (inside_mono _ _ _ _ _ _ Hin); lia).
    unfold inside in Hq'. fold (block_end i (S q)) in Hq'. rewrite (proj2 (Z.leb_gt _ _)) by lia.
    rewrite (proj2 (Z.ltb_ge _ _)) by lia.
    destruct (lookup_lt_is_Some_2 proof q) as [p Hp]; [unfold zlen in Hlen; lia|].
    assert (Hz : zget proof (Z.of_nat q) = Some p) by (unfold zget; rewrite (proj2 (Z.ltb_ge _ _)), Nat2Z.id by lia; done).
    rewrite Hz. cbn [expect obind]. rewrite below_parent by lia.
    rewrite (drop_S proof p q Hp). cbn [seq map take].
    rewrite IH; [|done|done|by replace (S q + m)%nat with (q + S m)%nat by lia..|lia|lia].
    replace (S q + m)%nat with (q + S m)%nat by lia. unfold bit_side at 2. case_if; done.
Qed.

Lemma verify_rest_climb proof : forall sum, verify_rest proof sum = climb sum (replicate (length proof) Position.Left) proof.
Proof. induction proof; intros sum; cbn; auto. Qed.

(** [verify] accepts exactly what climbs to the root. *)
Lemma verify_climb root d proof i n :
  0 <= i -> 0 <= n < 2 ^ 63 ->
  verify root d proof i n =
    Ok (bool_decide (i < n /\ zlen proof = zlen (sides n i) /\ climb (leaf_sum d) (sides n i) proof = root)).
Proof.
  intros Hi Hn. unfold verify. destruct (Z.le_gt_cases n 1) as [Hn1|Hn1].
  - rewrite (proj2 (Z.leb_le _ _)), (sides_small n i) by lia. cbn [obind].
    destruct (zlen proof =? 0) eqn:Ez; cbn [negb]; zbool; cycle 1.
    { rewrite bool_decide_false; [done|]. intros (_ & E & _). unfold zlen in *. cbn in E. lia. }
    case_if; zbool.
    { rewrite bool_decide_false; [done|]. lia. }
    assert (n = 1) as -> by lia. cbn. f_equal. apply bool_decide_ext. split; [|intuition congruence].
    intros ->. split_and!; [lia|done|done].
  - rewrite (proj2 (Z.leb_gt _ _)) by lia. destruct (path_length_spec 64 i n) as (r & -> & Hr & Hs); [lia| |lia|].
    { cbn. lia. }
    cbn [obind]. destruct (Z.le_gt_cases n i) as [Hni|Hni].
    { rewrite (bool_decide_false (i < n /\ _)) by lia. case_bool_decide; cbn [negb]; [|done].
      by rewrite (proj2 (Z.leb_le _ _)). }
    rewrite (Hs Hni). case_bool_decide as El; cbn [negb]; cycle 1.
    { rewrite bool_decide_false; [done|]. intros (_ & E & _). by rewrite E in El. }
    injection El as El. rewrite (proj2 (Z.leb_gt n i)) by lia.
    destruct (inside_level n i ltac:(lia)) as (p & Hp & Hp').
    destruct (sides_closed (Z.to_nat n) n i p ltac:(lia) ltac:(lia) Hp Hp') as [k Hk].
    assert (Hlow : length (low i p) = p) by (unfold low; by rewrite length_map, length_seq).
    assert (Hlen : (length (sides n i) = p + length (if (block_end i p =? n)%Z then [] else [Position.Right]) + k)%nat)
      by (rewrite Hk, !length_app, length_replicate, Hlow; lia).
    assert (Hne : zlen proof <> 0).
    { rewrite El, sides_unfold by lia. cbn zeta. unfold zlen. case_if; rewrite length_app; cbn; lia. }
    rewrite (proj2 (Z.eqb_neq _ 0)) by done. rewrite checked_sub_Some by lia. cbn [expect obind].
    assert (Hp64 : (p < 64)%nat).
    { apply Nat.nle_gt. intros Hge. unfold inside in Hp. pose proof (Z.pow_le_mono_r 2 63 (Z.of_nat p) ltac:(lia) ltac:(lia)).
      pose proof (Z.div_pos i (2 ^ Z.of_nat p) ltac:(lia) (pow2_pos p)). nia. }
    pose proof (verify_loop_spec n i proof p 0 (leaf_sum d) 64) as Hloop. cbn [Nat.add] in Hloop.
    assert (E0 : block_end i 0 - 1 = i) by (unfold block_end; cbn; rewrite Z.div_1_r; lia). rewrite E0 in Hloop.
    change (Z.of_nat 0) with 0 in Hloop. unfold zlen in El, Hne.
    rewrite Hloop; [|lia|lia|done|done|lia|unfold zlen; lia]. clear Hloop. cbn [obind drop]. fold (low i p).
    rewrite Hk in El |- *. rewrite !length_app, length_replicate, Hlow in El.
    assert (Hclimb : forall s, climb (leaf_sum d) (low i p ++ s) proof = climb (climb (leaf_sum d) (low i p) (take p proof)) s (drop p proof)).
    { intros s. rewrite <- (take_drop p proof) at 1. apply climb_app. rewrite length_take, Hlow. lia. }
    rewrite Hclimb. set (sum := climb (leaf_sum d) (low i p) (take p proof)).
    rewrite (Z.eqb_sym (block_end i p - 1)).
    destruct (block_end i p =? n) eqn:Ee; zbool.
    + assert ((n - 1 =? block_end i p - 1) = true) as -> by lia. cbn [negb app length] in *. rewrite Nat2Z.id, verify_rest_climb.
      rewrite length_drop. replace (length proof - p)%nat with k by lia. f_equal. apply bool_decide_ext.
      split; [|tauto]. intros Hroot. split_and!; [lia| |done]. unfold zlen. rewrite length_app, length_replicate, Hlow. lia.
    + assert ((n - 1 =? block_end i p - 1) = false) as -> by lia. cbn [negb app length] in *.
      rewrite (proj2 (Z.leb_gt _ _)) by (unfold zlen; lia).
      destruct (lookup_lt_is_Some_2 proof p) as [x Hx]; [lia|].
      assert (Hz : zget proof (Z.of_nat p) = Some x) by (unfold zget; rewrite (proj2 (Z.ltb_ge _ _)), Nat2Z.id by lia; done).
      rewrite Hz. cbn [expect obind]. rewrite (drop_S proof x p Hx). cbn [climb]. rewrite verify_rest_climb.
      replace (Z.to_nat (Z.of_nat p + 1)) with (S p) by lia. rewrite length_drop. replace (length proof - S p)%nat with k by lia.
      f_equal. apply bool_decide_ext. split; [|tauto]. intros Hroot. split_and!; [lia| |done].
      unfold zlen. rewrite length_app. cbn. rewrite length_replicate, Hlow. lia.
Qed.

(** The siblings of a leaf are accepted for it. *)
Lemma verify_accepts leaves i d :
  zget leaves i = Some d -> zlen leaves < 2 ^ 63 -> verify (mth leaves) d (audit leaves i) i (zlen leaves) = Ok true.
Proof.
  intros Hd Hlen. pose proof (zget_Some_len _ _ _ Hd) as Hi. rewrite verify_climb by lia. rewrite bool_decide_true; [done|].
  split_and!; [lia|unfold zlen at 1 2; by rewrite audit_length|by apply audit_climb].
Qed.
End Spec.

(** Verifying a proof of membership in a binary Merkle tree never panics, accepts the
    siblings of a leaf, and accepts nothing else: an accepted proof for an index is the list of
    siblings of the leaf at that index, with its data, or two of the strings hashed for the
    tree and the proof collide. *)
Theorem binary_proofs_exact `{Sha256} (leaves : list (list byte)) (d : list byte) (proof : list (list byte)) (i : Z) :
  (forall l, length (sha256 l) = 32%nat) -> zlen leaves < 2 ^ 63 -> 0 <= i -> Forall (fun p => length p = 32%nat) proof ->
  match verify (mth leaves) d proof i (zlen leaves) with
  | Ok true => zget leaves i = Some d /\ proof = audit leaves i \/
      collides (fun x => x ∈ tree_inputs leaves ++ proof_inputs d (sides (zlen leaves) i) proof)
  | Ok false => ~ (zget leaves i = Some d /\ proof = audit leaves i)
  | _ => False
  end.
Proof.
  intros Hsha Hlen Hi Hp. pose proof (zlen_nonneg leaves). rewrite verify_climb by lia. case_bool_decide as Hv.
  - destruct Hv as (Hlt & El & Hc). apply climb_sound; [done|lia|done|apply Nat2Z.inj; exact El|..|done]; apply Forall_forall; set_solver.
  - intros [Hd ->]. apply Hv. pose proof (zget_Some_len _ _ _ Hd).
    split_and!; [lia|unfold zlen at 1 2; by rewrite audit_length|by apply audit_climb].
Qed.

(** A hash that keeps 32 bytes, a tree of three leaves and the proof of the last one. *)
Module ProofExample.
#[local] Instance sha : Sha256 := fun l => take 32 (l ++ replicate 32 x00).
Definition leaves : list (list byte) := [[x0a]; [x0b]; [x0c]].
Definition proof : list (list byte) := [node_sum (leaf_sum [x0a]) (leaf_sum [x0b])].
Lemma sha_32 : forall l, length (sha256 l) = 32%nat.
Proof. intros l. unfold sha256, sha. rewrite length_take, length_app, length_replicate. lia. Qed.
End ProofExample.

Lemma binary_proofs_exact_witness :
  @verify ProofExample.sha (@mth ProofExample.sha ProofExample.leaves) [x0c] ProofExample.proof 2 3 = Ok true /\
  (zget ProofExample.leaves 2 = Some [x0c] /\ ProofExample.proof = @audit ProofExample.sha ProofExample.leaves 2 \/
   @collides ProofExample.sha (fun x => x ∈ @tree_inputs ProofExample.sha ProofExample.leaves ++
     @proof_inputs ProofExample.sha [x0c] (sides 3 2) ProofExample.proof)).
Proof.
  pose proof (@binary_proofs_exact ProofExample.sha ProofExample.leaves [x0c] ProofExample.proof 2 ProofExample.sha_32) as Hx.
  assert (E : @verify ProofExample.sha (@mth ProofExample.sha ProofExample.leaves) [x0c] ProofExample.proof 2 3 = Ok true)
    by (vm_compute; reflexivity).
  change (zlen ProofExample.leaves) with 3 in Hx. rewrite E in Hx. split; [exact E|]. apply Hx; [reflexivity|lia|].
  repeat constructor.
Defined.
