(* ===== verification/BinaryTree.v ===== *)
(** * Storage-backed binary Merkle trees

    [MerkleTree] of src/fuel-merkle/src/binary/merkle_tree.rs over the in-memory node storage
    ([StorageMap], in_memory.rs): [push], [root], [prove] and [load], with the iteration over
    the path from the root position to a leaf (common/path_iterator.rs at positions, and
    common/position_path.rs). The tree refines the list of its leaves: its root is their tree
    hash [mth], and its proofs are their siblings [audit], which [verify] accepts.

    The storage holds a node for each complete aligned block of leaves; the nodes above the
    peaks are rebuilt in a scratch storage. *)

From Stdlib Require Import Strings.Byte.
From S2P Require Import Prelude Merkle Sparse MerkleProof.

(** ** Paths of positions *)

Inductive ChildError : Type := ChildCannotExist | NodeIsLeaf.

Definition position_child (p : Z) (side : Position.Side) : outcome ChildError Z :=
  omap_err (fun e => match e with Position.IsLeaf => NodeIsLeaf | Position.CannotExist => ChildCannotExist end)
    (Position.child p side).

(** [Position::leaf_index] asserts that the position is a leaf. *)
Definition leaf_index (p : Z) : outcome unit Z := if Position.is_leaf p then Ok (p / 2) else Crash.
Definition leaf_key (p : Z) : outcome unit (list byte) :=
  let? i := leaf_index p in Ok (to_be_bytes 8 i).

(** A path and a side node, each found or not. *)
Definition PathItem : Type := outcome ChildError Z * outcome ChildError Z.

(** [PathIter::next], as the list of all items; the height of the root bounds their number. *)
Fixpoint path_iter (fuel : nat) (leaf_key : list byte) (current : PathItem) (offset : Z) : list PathItem :=
  current ::
    match fuel, current.1 with
    | S f, Ok path_node =>
        if Position.is_node path_node then
          match Sparse.get_instruction leaf_key offset with
          | Some Sparse.Left =>
              path_iter f leaf_key (position_child path_node Position.Left, position_child path_node Position.Right) (offset + 1)
          | Some Sparse.Right =>
              path_iter f leaf_key (position_child path_node Position.Right, position_child path_node Position.Left) (offset + 1)
          | None => []
          end
        else []
    | _, _ => []
    end.

Definition as_path_iter (root : Z) (leaf_key : list byte) : outcome unit (list PathItem) :=
  let? initial_offset := expect (checked_sub 64 (Position.height root)) in
  Ok (path_iter 64 leaf_key (Ok root, Ok root) initial_offset).

(** [while side > rightmost { side = side.child(Left).expect(..) }]; a step lowers the height. *)
Fixpoint descend (fuel : nat) (rightmost side : Z) : outcome unit Z :=
  if rightmost <? side then
    match fuel with
    | O => Crash
    | S f => match Position.child side Position.Left with Ok s => descend f rightmost s | _ => Crash end
    end
  else Ok side.

(** [PositionPathIter::next], as the list of all items. *)
Fixpoint position_path (rightmost : Z) (current_side_node : option Z) (items : list PathItem)
  : outcome unit (list (Z * Z)) :=
  match items with
  | [] => Ok []
  | (path, side) :: rest =>
      match path, side with
      | Ok path, Ok side =>
          if path <=? rightmost then
            let? side := descend 64 rightmost (default side current_side_node) in
            let? rest := position_path rightmost None rest in
            Ok ((path, side) :: rest)
          else
            position_path rightmost (Some (default side current_side_node)) rest
      | _, _ => Crash
      end
  end.

(** [Position::path(..).iter()] *)
Definition path_positions (root leaf leaves_count : Z) : outcome unit (list (Z * Z)) :=
  let? last := expect (checked_sub leaves_count 1) in
  let? rightmost := expect (Position.from_leaf_index last) in
  let? key := leaf_key leaf in
  let? items := as_path_iter root key in
  position_path rightmost None items.

(** [u64::next_power_of_two]: an overflow is a panic. *)
Definition next_power_of_two (n : Z) : option Z :=
  let p := 2 ^ Z.log2_up n in if p <? U64 then Some p else None.

Definition root_position (leaves_count : Z) : outcome unit (option Z) :=
  match checked_add leaves_count 1 with
  | None => Ok None
  | Some n => let? p := expect (next_power_of_two n) in Ok (Some (p - 1))
  end.

Definition peak_positions (leaves_count : Z) : outcome unit (option (list Z)) :=
  match Position.from_leaf_index leaves_count with
  | None => Ok None
  | Some leaf_position =>
      let? r := root_position leaves_count in
      match r with
      | None => Ok None
      | Some root_position =>
          let? items := path_positions root_position leaf_position (leaves_count + 1) in
          Ok (Some (map snd (drop 1 items)))
      end
  end.

(** ** The tree *)

Inductive MerkleTreeError : Type :=
| InvalidProofIndex (index : Z)
| LoadError (key : Z)
| TooLarge.

Abbreviation Primitive := (Z * list byte)%type (only parsing).
Abbreviation NodesTable := (gmap Z Primitive) (only parsing).

Definition primitive_of (n : Node) : Primitive := (position n, hash n).
Definition node_of (p : Primitive) : Node := mkNode p.1 p.2.
Definition node_key (n : Node) : Z := position n.

Section Tree.
Context `{Sha256}.

(** The nodes are the stack of the calculator, top first. *)
Record MerkleTree : Type := mkTree {
  tree_storage : NodesTable;
  tree_nodes : MerkleRootCalculator;
  tree_leaves_count : Z
}.

Definition tree_new : MerkleTree := mkTree ∅ calculator_new 0.

(** The scratch storage keeps the nodes above the peaks. *)
Fixpoint root_node_loop (head : Node) (nodes : list Node) (scratch : NodesTable)
  : outcome MerkleTreeError (Node * NodesTable) :=
  match nodes with
  | [] => Ok (head, scratch)
  | node :: rest =>
      match Position.parent (position node) with
      | Ok parent =>
          let head := create_node parent node head in
          root_node_loop head rest (<[node_key head := primitive_of head]> scratch)
      | _ => Err TooLarge
      end
  end.
Definition root_node (t : MerkleTree) (scratch : NodesTable) : outcome MerkleTreeError (option Node * NodesTable) :=
  match tree_nodes t with
  | [] => Ok (None, scratch)
  | head :: nodes =>
      let? '(node, scratch) := root_node_loop head nodes scratch in Ok (Some node, scratch)
  end.

Definition tree_root (t : MerkleTree) : outcome MerkleTreeError (list byte) :=
  match root_node t ∅ with
  | Ok (None, _) => Ok empty_sum
  | Ok (Some node, _) => Ok (hash node)
  | _ => Crash
  end.

(** [push_with_callback] with the callback that stores each node. *)
Fixpoint push_store (rhs : Node) (stack : list Node) (s : NodesTable)
  : outcome MerkleTreeError MerkleRootCalculator * NodesTable :=
  match stack with
  | lhs :: rest =>
      if negb (node_height rhs =? node_height lhs) then (Ok (rhs :: stack), s)
      else
        match Position.parent (position lhs) with
        | Ok parent_pos =>
            let new := create_node parent_pos lhs rhs in
            push_store new rest (<[node_key new := primitive_of new]> s)
        | _ => (Err TooLarge, s)
        end
  | [] => (Ok [rhs], s)
  end.

(** An error leaves the storage modified. *)
Definition tree_push (t : MerkleTree) (data : list byte) : outcome MerkleTreeError unit * MerkleTree :=
  match create_leaf (tree_leaves_count t) data with
  | None => (Err TooLarge, t)
  | Some new_node =>
      let s := <[node_key new_node := primitive_of new_node]> (tree_storage t) in
      match push_store new_node (tree_nodes t) s with
      | (Ok nodes, s) => (Ok tt, mkTree s nodes (tree_leaves_count t + 1))
      | (_, s) => (Err TooLarge, mkTree s (tree_nodes t) (tree_leaves_count t + 1))
      end
  end.

Fixpoint load_nodes (s : NodesTable) (keys : list Z) : outcome MerkleTreeError (list Node) :=
  match keys with
  | [] => Ok []
  | key :: rest =>
      let? p := ok_or (s !! key) (LoadError key) in
      let? nodes := load_nodes s rest in
      Ok (node_of p :: nodes)
  end.
Definition tree_load (s : NodesTable) (leaves_count : Z) : outcome MerkleTreeError MerkleTree :=
  match peak_positions leaves_count with
  | Ok (Some peaks) => let? nodes := load_nodes s peaks in Ok (mkTree s (rev nodes) leaves_count)
  | Ok None => Err TooLarge
  | _ => Crash
  end.

Fixpoint side_hashes (scratch s : NodesTable) (positions : list Z) : outcome MerkleTreeError (list (list byte)) :=
  match positions with
  | [] => Ok []
  | key :: rest =>
      let? p := ok_or (match scratch !! key with Some p => Some p | None => s !! key end) (LoadError key) in
      let? proof_set := side_hashes scratch s rest in
      Ok (hash (node_of p) :: proof_set)
  end.

Definition prove (t : MerkleTree) (proof_index : Z) : outcome MerkleTreeError (list byte * list (list byte)) :=
  if tree_leaves_count t <=? proof_index then Err (InvalidProofIndex proof_index)
  else
    match root_position (tree_leaves_count t), Position.from_leaf_index proof_index with
    | Ok (Some root_position), Some leaf_position =>
        match path_positions root_position leaf_position (tree_leaves_count t) with
        | Ok items =>
            let side_positions := removelast (rev (map snd items)) in
            let? '(root, scratch) := root_node t ∅ in
            let? root := expect root in
            let? proof_set := side_hashes scratch (tree_storage t) side_positions in
            Ok (hash root, proof_set)
        | _ => Crash
        end
    | _, _ => Crash
    end.

Definition tree_reset (t : MerkleTree) : MerkleTree := mkTree (tree_storage t) [] (tree_leaves_count t).

Fixpoint push_all (t : MerkleTree) (leaves : list (list byte)) : outcome MerkleTreeError unit * MerkleTree :=
  match leaves with
  | [] => (Ok tt, t)
  | d :: rest =>
      match tree_push t d with
      | (Ok _, t) => push_all t rest
      | r => r
      end
  end.
End Tree.


(** ** Blocks of leaves *)

(** The leaves from [a] on, [m] of them. *)
Definition block (leaves : list (list byte)) (a m : Z) : list (list byte) :=
  take (Z.to_nat m) (drop (Z.to_nat a) leaves).

Lemma zlen_block leaves a m : 0 <= a -> 0 <= m -> a + m <= zlen leaves -> zlen (block leaves a m) = m.
Proof. intros Ha Hm Hle. unfold block, zlen in *. rewrite length_take, length_drop. lia. Qed.

Lemma block_app leaves a m1 m2 : 0 <= a -> 0 <= m1 -> 0 <= m2 ->
  block leaves a (m1 + m2) = block leaves a m1 ++ block leaves (a + m1) m2.
Proof.
  intros Ha H1 H2. unfold block. rewrite !Z2Nat.inj_add by lia. rewrite <- drop_drop. symmetry. apply take_take_drop.
Qed.

Lemma block_all leaves : block leaves 0 (zlen leaves) = leaves.
Proof. unfold block, zlen. rewrite Nat2Z.id. by rewrite take_ge. Qed.

Lemma block_snoc leaves d a m : 0 <= a -> 0 <= m -> a + m <= zlen leaves -> block (leaves ++ [d]) a m = block leaves a m.
Proof.
  intros Ha Hm Hle. unfold block, zlen in *. rewrite drop_app_le by lia. apply take_app_le. rewrite length_drop. lia.
Qed.

Lemma pow_pos h : 0 <= h -> 0 < 2 ^ h.
Proof. intros. apply Z.pow_pos_nonneg; lia. Qed.

(** The positions of complete blocks are words, and differ. *)
Lemma pos_word k h : 0 <= k -> 0 <= h -> (k + 1) * 2 ^ h <= 2 ^ 63 -> h <= 63 /\ Position.pos k h < U64.
Proof.
  intros Hk Hh Hle. pose proof (pow_pos h Hh). split.
  - apply (Z.pow_le_mono_r_iff 2); [lia..|]. nia.
  - unfold Position.pos. rewrite Position.pow2_succ by lia. nia.
Qed.

Lemma pos_inj k h k' h' :
  0 <= k -> 0 <= h <= 63 -> Position.pos k h < U64 -> 0 <= k' -> 0 <= h' <= 63 -> Position.pos k' h' < U64 ->
  Position.pos k h = Position.pos k' h' -> k = k' /\ h = h'.
Proof.
  intros Hk Hh Hp Hk' Hh' Hp' E. assert (h = h') as <-.
  { rewrite <- (Position.height_eq k h), E by lia. by apply Position.height_eq; lia. }
  split; [|done]. unfold Position.pos in E. pose proof (pow_pos (h + 1) ltac:(lia)). nia.
Qed.

Section Blocks.
Context `{Sha256}.
Implicit Types (leaves : list (list byte)) (s : NodesTable).

Lemma mth_block leaves a h m :
  0 <= a -> 0 <= h -> 0 < m <= 2 ^ h -> a + 2 ^ h + m <= zlen leaves ->
  mth (block leaves a (2 ^ h + m)) = node_sum (mth (block leaves a (2 ^ h))) (mth (block leaves (a + 2 ^ h) m)).
Proof.
  intros Ha Hh Hm Hle. pose proof (pow_pos h Hh). rewrite block_app by lia.
  apply (mth_split _ _ h); [lia|rewrite zlen_block by lia; lia|rewrite zlen_block by lia; lia].
Qed.

(** The node of the [k]-th block of height [h]. *)
Definition node_at leaves (k h : Z) : Node := mkNode (Position.pos k h) (mth (block leaves (k * 2 ^ h) (2 ^ h))).

Lemma node_at_snoc leaves d k h : 0 <= k -> 0 <= h -> (k + 1) * 2 ^ h <= zlen leaves ->
  node_at (leaves ++ [d]) k h = node_at leaves k h.
Proof. intros Hk Hh Hle. pose proof (pow_pos h Hh). unfold node_at. by rewrite block_snoc by nia. Qed.

(** Two sibling blocks make the next one. *)
Lemma node_at_merge leaves k h :
  0 <= k -> 0 <= h -> Z.even k = true -> (k + 2) * 2 ^ h <= zlen leaves ->
  create_node (Position.pos (k / 2) (h + 1)) (node_at leaves k h) (node_at leaves (k + 1) h) = node_at leaves (k / 2) (h + 1).
Proof.
  intros Hk Hh He Hle. pose proof (pow_pos h Hh). unfold create_node, node_at. cbn [hash]. f_equal.
  assert (Ek : k / 2 * 2 ^ (h + 1) = k * 2 ^ h).
  { rewrite Position.pow2_succ by lia. apply Z.even_spec in He as [c ->]. rewrite (Z.mul_comm 2 c), Z.div_mul by lia. lia. }
  rewrite Ek, Position.pow2_succ by lia. replace (2 * 2 ^ h) with (2 ^ h + 2 ^ h) by lia.
  rewrite mth_block by nia. do 3 f_equal. lia.
Qed.

(** ** The peaks *)

(** The stack (top first) holds the nodes of the blocks that make up the first [e] leaves, with
    heights from [lo] on. *)
Inductive peaks leaves : Z -> Z -> list Node -> Prop :=
| peaks_nil lo : peaks leaves 0 lo []
| peaks_cons k h lo rest :
    0 <= lo <= h -> 0 <= k -> peaks leaves (k * 2 ^ h) (h + 1) rest ->
    peaks leaves ((k + 1) * 2 ^ h) lo (node_at leaves k h :: rest).

Lemma peaks_divide leaves e lo stack : 0 <= lo -> peaks leaves e lo stack -> (2 ^ lo | e).
Proof.
  intros Hlo Hp. destruct Hp as [lo|k h lo rest Hle Hk _]; [apply Z.divide_0_r|]. apply Z.divide_mul_r.
  exists (2 ^ (h - lo)). rewrite <- Z.pow_add_r by lia. f_equal. lia.
Qed.

Lemma even_of_divide k h : 0 <= h -> (2 ^ (h + 1) | k * 2 ^ h) -> Z.even k = true.
Proof.
  intros Hh [c Hc]. rewrite Position.pow2_succ in Hc by lia. pose proof (pow_pos h Hh).
  assert (k = 2 * c) as -> by nia. by rewrite Z.even_mul.
Qed.
Lemma peaks_even leaves k h rest : 0 <= h -> peaks leaves (k * 2 ^ h) (h + 1) rest -> Z.even k = true.
Proof. intros Hh Hp. apply (even_of_divide k h Hh), (peaks_divide leaves _ _ rest); [lia|done]. Qed.

Lemma peaks_lower leaves e lo lo' stack : 0 <= lo' <= lo -> peaks leaves e lo stack -> peaks leaves e lo' stack.
Proof. intros Hlo Hp. destruct Hp; constructor; lia || done. Qed.

Lemma peaks_snoc leaves d e lo stack : 0 <= lo -> e <= zlen leaves -> peaks leaves e lo stack -> peaks (leaves ++ [d]) e lo stack.
Proof.
  intros Hlo He Hp. induction Hp as [lo|k h lo rest Hle Hk Hp IH]; [constructor|]. pose proof (pow_pos h ltac:(lia)).
  rewrite <- (node_at_snoc leaves d) by lia. constructor; [lia|lia|]. apply IH; nia.
Qed.

(** ** Pushing *)

(** The storage holds the complete blocks up to [e], those that end at [e] up to height [h]. *)
Definition stored leaves s (e h : Z) : Prop := forall k' h',
  0 <= k' -> 0 <= h' -> (k' + 1) * 2 ^ h' < e \/ (k' + 1) * 2 ^ h' = e /\ h' <= h ->
  s !! Position.pos k' h' = Some (primitive_of (node_at leaves k' h')).

Lemma stored_insert leaves s k h e :
  e = (k + 1) * 2 ^ h -> e <= 2 ^ 63 -> 0 <= k -> 0 <= h ->
  (forall k' h', 0 <= k' -> 0 <= h' -> (k' + 1) * 2 ^ h' < e \/ (k' + 1) * 2 ^ h' = e /\ h' < h ->
    s !! Position.pos k' h' = Some (primitive_of (node_at leaves k' h'))) ->
  stored leaves (<[Position.pos k h := primitive_of (node_at leaves k h)]> s) e h.
Proof.
  intros -> He Hk Hh Hs k' h' Hk' Hh' Hcase. pose proof (pow_pos h Hh). pose proof (pow_pos h' Hh').
  destruct (decide (k = k' /\ h = h')) as [[<- <-]|Hne]; [by rewrite lookup_insert_eq|].
  destruct (pos_word k h) as [? ?]; [lia..|]. destruct (pos_word k' h') as [? ?]; [lia..|].
  rewrite lookup_insert_ne; cycle 1.
  { intros E. apply Hne. by apply pos_inj. }
  apply Hs; [done|done|]. destruct Hcase as [?|[Ee Hle]]; [by left|]. right. split; [done|].
  destruct (decide (h' = h)) as [->|]; [|lia]. exfalso. apply Hne. split; [nia|done].
Qed.

Lemma push_store_spec leaves stack : forall k h s,
  0 <= k -> 0 <= h -> zlen leaves = (k + 1) * 2 ^ h -> zlen leaves <= 2 ^ 63 ->
  peaks leaves (k * 2 ^ h) h stack -> stored leaves s (zlen leaves) h ->
  exists stack' s', push_store (node_at leaves k h) stack s = (Ok stack', s') /\
    peaks leaves (zlen leaves) 0 stack' /\ forall h', stored leaves s' (zlen leaves) h'.
Proof.
  induction stack as [|lhs rest IH]; intros k h s Hk Hh Hlen Hmax Hp Hs; cbn [push_store].
  all: pose proof (pow_pos h Hh) as Hpos; destruct (pos_word k h) as [Hh63 Hword]; [lia..|].
  all: assert (Hdone : Z.even k = true -> forall h', stored leaves s (zlen leaves) h').
  1,3: intros Hev h' k' h1 Hk' Hh1 Hcase; apply Hs; [done|done|]; destruct Hcase as [?|[E _]]; [by left|right; split; [done|]];
    apply Z.nlt_ge; intros Hlt; assert (Hdiv : (2 ^ (h + 1) | (k + 1) * 2 ^ h))
      by (rewrite <- Hlen, <- E; apply Z.divide_mul_r; exists (2 ^ (h1 - (h + 1))); rewrite <- Z.pow_add_r by lia; f_equal; lia);
    apply even_of_divide in Hdiv; [|lia]; rewrite Z.even_add, Hev in Hdiv; done.
  - inversion Hp; subst. assert (k = 0) as -> by nia. exists [node_at leaves 0 h], s. split_and!; [done| |by apply Hdone].
    rewrite Hlen. apply peaks_cons; [lia|lia|]. rewrite Z.mul_0_l. constructor.
  - remember (k * 2 ^ h) as e eqn:Ee. inversion Hp as [|k2 h2 lo rest' Hle Hk2 Hp' E1 E2 E3]. subst lo rest' lhs.
    pose proof (pow_pos h2 ltac:(lia)) as Hpos2. destruct (pos_word k2 h2) as [Hh263 Hword2]; [lia|lia|nia|].
    unfold node_height. cbn [position node_at]. rewrite !Position.height_eq by lia.
    destruct (Z.eqb_spec h h2) as [<-|Hne]; cbn [negb].
    + assert (k = k2 + 1) as -> by nia. pose proof (peaks_even _ _ _ _ Hh Hp') as Hev.
      assert (Hhalf : k2 / 2 * 2 ^ (h + 1) = k2 * 2 ^ h).
      { rewrite Position.pow2_succ by lia. apply Z.even_spec in Hev as [c ->]. rewrite (Z.mul_comm 2 c), Z.div_mul by lia. lia. }
      assert (Hhalf' : (k2 / 2 + 1) * 2 ^ (h + 1) = zlen leaves) by (rewrite Z.mul_add_distr_r, Hhalf, Position.pow2_succ by lia; lia).
      pose proof (Z.div_pos k2 2 ltac:(lia) ltac:(lia)) as Hk20.
      destruct (pos_word (k2 / 2) (h + 1)) as [Hh63' Hword']; [lia|lia|lia|].
      rewrite Position.parent_pos by lia. rewrite node_at_merge by (done || lia).
      destruct (IH (k2 / 2) (h + 1) (<[Position.pos (k2 / 2) (h + 1) := primitive_of (node_at leaves (k2 / 2) (h + 1))]> s))
        as (st & s' & E & Hst); [lia|lia|lia|lia|by rewrite Hhalf| |by exists st, s'].
      apply stored_insert; [lia|lia|lia|lia|]. intros k' h' Hk' Hh' Hc. apply Hs; [done|done|]. destruct Hc as [?|[? ?]]; [by left|right; lia].
    + assert (Hp2 : peaks leaves e (h + 1) (node_at leaves k2 h2 :: rest)) by (rewrite <- E1; constructor; [lia|lia|done]).
      exists (node_at leaves k h :: node_at leaves k2 h2 :: rest), s. rewrite Ee in Hp2. split_and!; [done| |].
      * rewrite Hlen. constructor; [lia|lia|done].
      * apply Hdone. by apply (peaks_even leaves k h (node_at leaves k2 h2 :: rest)).
Qed.

(** What the tree is, for its leaves. *)
Record represents leaves (t : MerkleTree) : Prop := {
  rep_count : tree_leaves_count t = zlen leaves;
  rep_peaks : peaks leaves (zlen leaves) 0 (tree_nodes t);
  rep_stored k h : 0 <= k -> 0 <= h -> (k + 1) * 2 ^ h <= zlen leaves ->
    tree_storage t !! Position.pos k h = Some (primitive_of (node_at leaves k h))
}.

Lemma represents_new : represents [] tree_new.
Proof.
  split; [done|constructor|]. intros k h Hk Hh Hle. pose proof (pow_pos h Hh). change (zlen []) with 0 in Hle. nia.
Qed.

Lemma represents_push leaves t d :
  represents leaves t -> zlen leaves < 2 ^ 63 ->
  exists t', tree_push t d = (Ok tt, t') /\ represents (leaves ++ [d]) t'.
Proof.
  intros [Hc Hp Hs] Hlen. pose proof (zlen_nonneg leaves) as Hnn. set (L := leaves ++ [d]).
  assert (HL : zlen L = zlen leaves + 1) by (subst L; by rewrite zlen_app).
  assert (Enew : create_leaf (tree_leaves_count t) d = Some (node_at L (zlen leaves) 0)).
  { unfold create_leaf, Position.from_leaf_index. rewrite Hc, (proj2 (Z.ltb_lt _ _)) by lia. unfold node_at. do 2 f_equal.
    - unfold Position.pos. lia.
    - assert (Eb : block L (zlen leaves * 2 ^ 0) (2 ^ 0) = [d]); [|by rewrite Eb].
      unfold block, L, zlen. cbn. rewrite Z.mul_1_r, Nat2Z.id. by rewrite drop_app_length. }
  unfold tree_push. rewrite Enew.
  destruct (push_store_spec L (tree_nodes t) (zlen leaves) 0
    (<[node_key (node_at L (zlen leaves) 0) := primitive_of (node_at L (zlen leaves) 0)]> (tree_storage t)))
    as (st & s' & E & Hst & Hs'); [lia|lia|lia|lia| | |].
  - rewrite Z.pow_0_r, Z.mul_1_r. apply peaks_snoc; [lia|lia|done].
  - apply stored_insert; [lia|lia|lia|lia|]. intros k' h' Hk' Hh' Hcase.
    assert ((k' + 1) * 2 ^ h' <= zlen leaves) by lia. subst L. rewrite node_at_snoc by done. by apply Hs.
  - rewrite E. eexists. split; [reflexivity|]. split; cbn; [lia|done|].
    intros k h Hk Hh Hle. apply (Hs' h); [done|done|]. lia.
Qed.

Lemma push_all_spec rest : forall leaves t,
  represents leaves t -> zlen (leaves ++ rest) <= 2 ^ 63 ->
  exists t', push_all t rest = (Ok tt, t') /\ represents (leaves ++ rest) t'.
Proof.
  induction rest as [|d rest IH]; intros leaves t Ht Hle; cbn [push_all]; [exists t; by rewrite app_nil_r|].
  destruct (represents_push leaves t d Ht) as (t1 & E1 & H1).
  { rewrite zlen_app in Hle. unfold zlen in *. cbn in Hle. lia. }
  rewrite E1. destruct (IH (leaves ++ [d]) t1 H1) as (t2 & E2 & H2); [by rewrite <- app_assoc|].
  exists t2. rewrite <- app_assoc in H2. done.
Qed.
End Blocks.

(** ** The root and the scratch storage *)

(** The [k]-th block of height [h] is a peak of the first [e] leaves: it is complete, and the
    block it would make with its right sibling is not. *)
Definition peak_at (e k h : Z) : Prop :=
  0 <= k /\ 0 <= h /\ Z.even k = true /\ (k + 1) * 2 ^ h <= e < (k + 2) * 2 ^ h.

(** A multiple of [2 ^ (h + 1)] is not between two even multiples of [2 ^ h]. *)
Lemma even_multiple_gap a k h :
  0 <= h -> Z.even k = true -> (2 ^ (h + 1) | a) -> a < (k + 2) * 2 ^ h -> a <= k * 2 ^ h.
Proof.
  intros Hh He [c ->] Hlt. apply Z.even_spec in He as [j ->]. rewrite Position.pow2_succ in * by lia. pose proof (pow_pos h Hh).
  assert (c <= j) by nia. nia.
Qed.

Lemma pow_divide a b : 0 <= a <= b -> (2 ^ a | 2 ^ b).
Proof. intros Hab. exists (2 ^ (b - a)). rewrite <- Z.pow_add_r by lia. f_equal. lia. Qed.

(** The peaks of a stack are its top and the peaks below it. *)
Lemma peak_cons k0 h0 k h :
  0 <= k0 -> 0 <= h0 -> Z.even k0 = true -> peak_at ((k0 + 1) * 2 ^ h0) k h ->
  k = k0 /\ h = h0 \/ peak_at (k0 * 2 ^ h0) k h /\ h0 < h.
Proof.
  intros Hk0 Hh0 He0 (Hk & Hh & He & Hle & Hlt). pose proof (pow_pos h Hh). pose proof (pow_pos h0 Hh0).
  destruct (Z.lt_trichotomy h h0) as [Hl|[<-|Hg]].
  - exfalso. apply (even_multiple_gap _ k h) in Hlt; [nia|lia|done|]. apply Z.divide_mul_r, pow_divide. lia.
  - left. split; [nia|done].
  - right. split; [|done]. split_and!; [done|done|done| |nia]. apply (even_multiple_gap _ k0 h0); [lia|done| |nia].
    apply Z.divide_mul_r, pow_divide. lia.
Qed.

Section Root.
Context `{Sha256}.
Implicit Types (leaves : list (list byte)) (s scratch : NodesTable).

(** The node above a peak covers the leaves from the peak to the end. *)
Definition above leaves (k h : Z) : Primitive :=
  (Position.pos (k / 2) (h + 1), mth (block leaves (k * 2 ^ h) (zlen leaves - k * 2 ^ h))).

Lemma root_node_loop_spec leaves e lo stack :
  peaks leaves e lo stack -> forall head scratch,
  0 <= lo -> zlen leaves <= 2 ^ 63 -> 0 < zlen leaves - e < 2 ^ lo ->
  hash head = mth (block leaves e (zlen leaves - e)) ->
  exists root scratch', root_node_loop head stack scratch = Ok (root, scratch') /\ hash root = mth leaves /\
    (forall k h, peak_at e k h -> lo <= h -> scratch' !! Position.pos (k / 2) (h + 1) = Some (above leaves k h)) /\
    (forall key, scratch' !! key = scratch !! key \/
      exists k h, key = Position.pos k h /\ 0 <= k /\ lo < h <= 63 /\ key < U64 /\ zlen leaves < (k + 1) * 2 ^ h).
Proof.
  induction 1 as [lo|k h lo rest Hle Hk Hp IH]; intros head scratch Hlo Hmax Hend Hhead; cbn [root_node_loop].
  - exists head, scratch. split_and!; [done| | |by left].
    + by rewrite Hhead, Z.sub_0_r, block_all.
    + intros k h (Hk & Hh & _ & Hle & _). pose proof (pow_pos h Hh). nia.
  - pose proof (pow_pos h ltac:(lia)) as Hpos. pose proof (peaks_even leaves k h rest ltac:(lia) Hp) as Hev.
    assert (Hmono : 2 ^ lo <= 2 ^ h) by (apply Z.pow_le_mono_r; lia).
    destruct (pos_word k h) as [Hh63 Hword]; [lia|lia|nia|].
    assert (Hhalf : k / 2 * 2 ^ (h + 1) = k * 2 ^ h).
    { rewrite Position.pow2_succ by lia. apply Z.even_spec in Hev as [c ->]. rewrite (Z.mul_comm 2 c), Z.div_mul by lia. lia. }
    pose proof (Z.div_pos k 2 ltac:(lia) ltac:(lia)) as Hk2.
    assert (Hh62 : h < 63).
    { apply Z.nle_gt. intros Hge. assert (2 ^ 63 <= 2 ^ h) by (apply Z.pow_le_mono_r; lia). nia. }
    assert (Hup : (k / 2 + 1) * 2 ^ (h + 1) <= 2 ^ 63).
    { assert (Hd : (2 ^ (h + 1) | 2 ^ 63)) by (apply pow_divide; lia). destruct Hd as [q Hq]. rewrite Hq.
      pose proof (pow_pos (h + 1) ltac:(lia)). apply Z.mul_le_mono_nonneg_r; [lia|].
      assert (k / 2 < q) by (apply (Z.mul_lt_mono_pos_r (2 ^ (h + 1))); lia). lia. }
    destruct (pos_word (k / 2) (h + 1)) as [Hh63' Hword']; [lia..|].
    cbn [position node_at]. rewrite Position.parent_pos by lia.
    set (head' := create_node (Position.pos (k / 2) (h + 1)) (node_at leaves k h) head).
    assert (Hhash : hash head' = mth (block leaves (k * 2 ^ h) (zlen leaves - k * 2 ^ h))).
    { subst head'. cbn [create_node hash node_at]. rewrite Hhead.
      replace (zlen leaves - k * 2 ^ h) with (2 ^ h + (zlen leaves - (k + 1) * 2 ^ h)) by lia.
      rewrite mth_block by nia. do 3 f_equal. lia. }
    assert (Hprim : primitive_of head' = above leaves k h) by (unfold primitive_of, above; by rewrite Hhash).
    rewrite Hprim. change (node_key head') with (Position.pos (k / 2) (h + 1)).
    rewrite Position.pow2_succ in IH by lia.
    destruct (IH head' (<[Position.pos (k / 2) (h + 1) := above leaves k h]> scratch)) as (root & scr & E & Hr & Hs1 & Hs2);
      [lia|lia|nia|done|].
    exists root, scr. split_and!; [exact E|done| |].
    + intros k' h' Hpk Hlo'. apply (peak_cons k h k' h') in Hpk; [|lia|lia|done]. destruct Hpk as [[-> ->]|[Hpk Hlt]].
      * destruct (Hs2 (Position.pos (k / 2) (h + 1))) as [->|(k1 & h1 & Ekey & Hk1 & Hh1 & Hlt1 & _)];
          [by rewrite lookup_insert_eq|].
        apply pos_inj in Ekey as [_ Eh]; lia.
      * by apply Hs1; [|lia].
    + intros key. destruct (Hs2 key) as [->|(k1 & h1 & Hk1)].
      * destruct (decide (key = Position.pos (k / 2) (h + 1))) as [->|Hne]; [|left; by rewrite lookup_insert_ne].
        right. exists (k / 2), (h + 1). split_and!; [done|lia|lia|lia|lia|].
        rewrite Z.mul_add_distr_r, Hhalf, Position.pow2_succ by lia. lia.
      * right. exists k1, h1. intuition lia.
Qed.
End Root.

(** ** Nodes of the tree, and the siblings on a path *)

(** The position of the subtree of [m] leaves from [a] on. *)
Definition node_pos (a m : Z) : Z := Position.pos (a / 2 ^ Z.log2_up m) (Z.log2_up m).

(** A subtree: an aligned block that is complete, or reaches the last of the [n] leaves. *)
Definition subtree (n a m h : Z) : Prop :=
  0 <= a /\ 0 <= h /\ (2 ^ h | a) /\ 1 <= m <= 2 ^ h /\ a + m <= n /\ (m = 2 ^ h \/ a + m = n).

Lemma subtree_left n a m h : 1 <= h -> subtree n a m h -> 2 ^ (h - 1) < m -> subtree n a (2 ^ (h - 1)) (h - 1).
Proof.
  intros Hh (Ha & _ & Hd & Hm & Hle & _) Hlt. pose proof (pow_pos (h - 1) ltac:(lia)).
  split_and!; [done|lia| |lia|lia|lia|by left]. etrans; [apply (pow_divide (h - 1) h); lia|done].
Qed.
Lemma subtree_right n a m h : 1 <= h -> subtree n a m h -> 2 ^ (h - 1) < m ->
  subtree n (a + 2 ^ (h - 1)) (m - 2 ^ (h - 1)) (h - 1).
Proof.
  intros Hh (Ha & _ & Hd & Hm & Hle & Hc) Hlt. pose proof (pow_pos (h - 1) ltac:(lia)).
  assert (E : 2 ^ h = 2 * 2 ^ (h - 1)) by (rewrite <- Position.pow2_succ by lia; f_equal; lia).
  split_and!; [lia|lia| |lia|lia|lia|lia]. apply Z.divide_add_r; [|apply Z.divide_refl].
  etrans; [apply (pow_divide (h - 1) h); lia|done].
Qed.
(** A short subtree lies in the left half of its block. *)
Lemma subtree_shrink n a m h : 1 <= h -> subtree n a m h -> m <= 2 ^ (h - 1) -> subtree n a m (h - 1).
Proof.
  intros Hh (Ha & _ & Hd & Hm & Hle & Hc) Hs. pose proof (pow_pos (h - 1) ltac:(lia)).
  assert (E : 2 ^ h = 2 * 2 ^ (h - 1)) by (rewrite <- Position.pow2_succ by lia; f_equal; lia).
  split_and!; [lia|lia| |lia|lia|lia|lia]. etrans; [apply (pow_divide (h - 1) h); lia|done].
Qed.

(** The height of a subtree that is more than half of its block, and where it splits. *)
Lemma full_height m h : 0 <= h -> m <= 2 ^ h -> h = 0 \/ 2 ^ (h - 1) < m -> 1 <= m -> Z.log2_up m = h.
Proof.
  intros Hh Hle Hc Hm. destruct (decide (h = 0)) as [->|Hne]; [by assert (m = 1) as -> by lia|].
  apply Z.log2_up_unique; [lia|]. replace (Z.pred h) with (h - 1) by lia. lia.
Qed.
Lemma split_at m h : 1 <= h -> 2 ^ (h - 1) < m <= 2 ^ h -> split_point m = 2 ^ (h - 1).
Proof. intros Hh Hm. apply split_point_pow; [lia|]. by replace (h - 1 + 1) with h by lia. Qed.

(** The subtree's own node is in the tree exactly when it is more than half of its block. *)
Lemma node_inside n a m h : subtree n a m h ->
  (Position.pos (a / 2 ^ h) h <=? (n - 1) * 2) = (h =? 0) || (2 ^ (h - 1) <? m).
Proof.
  intros (Ha & Hh & [c ->] & Hm & Hle & Hc). pose proof (pow_pos h Hh). rewrite Z.div_mul by lia.
  unfold Position.pos. rewrite Position.pow2_succ by lia. destruct (Z.eqb_spec h 0) as [->|Hne]; cbn [orb].
  - cbn in *. lia.
  - assert (E : 2 ^ h = 2 * 2 ^ (h - 1)) by (rewrite <- Position.pow2_succ by lia; f_equal; lia). rewrite E in *.
    destruct (Z.ltb_spec (2 ^ (h - 1)) m); lia.
Qed.

Lemma subtree_word n a m h : n <= 2 ^ 63 -> h <= 63 -> subtree n a m h -> Position.pos (a / 2 ^ h) h < U64 /\ 0 <= a / 2 ^ h.
Proof.
  intros Hn Hh63 (Ha & Hh & [c ->] & Hm & Hle & Hc). pose proof (pow_pos h Hh). rewrite Z.div_mul by lia.
  assert (0 <= c) by nia. split; [|done]. apply pos_word; [done|done|].
  destruct (pow_divide h 63 ltac:(lia)) as [q Hq]. rewrite Hq in *. assert (c < q) by (apply (Z.mul_lt_mono_pos_r (2 ^ h)); lia). nia.
Qed.

Lemma descend_spec n m (h : nat) : forall a (f : nat),
  n <= 2 ^ 63 -> subtree n a m (Z.of_nat h) -> (h <= f)%nat -> Z.of_nat h <= 63 ->
  descend f ((n - 1) * 2) (Position.pos (a / 2 ^ Z.of_nat h) (Z.of_nat h)) = Ok (node_pos a m).
Proof.
  induction h as [|h IH]; intros a f Hn Hs Hf Hh63.
  all: pose proof (node_inside n a m _ Hs) as Hin; pose proof (subtree_word n a m _ Hn Hh63 Hs) as [Hw Hc0].
  all: pose proof Hs as (Ha & _ & Hd & Hm & Hle & _).
  - destruct f; cbn [descend]; rewrite (proj2 (Z.ltb_ge _ _)) by (cbn in *; lia);
      unfold node_pos; by rewrite (full_height m 0) by (cbn in *; lia).
  - destruct f as [|f]; [lia|]. cbn [descend]. rewrite (proj2 (Z.eqb_neq _ 0)) in Hin by lia. cbn [orb] in Hin.
    destruct (Z.ltb_spec (2 ^ (Z.of_nat (S h) - 1)) m) as [Hlt|Hge].
    + rewrite (proj2 (Z.ltb_ge _ _)) by lia. unfold node_pos. by rewrite (full_height m (Z.of_nat (S h))) by lia.
    + rewrite (proj2 (Z.ltb_lt _ _)) by lia. apply subtree_shrink in Hs; [|lia|lia].
      replace (Z.of_nat (S h) - 1) with (Z.of_nat h) in Hs by lia.
      pose proof (subtree_word n a m (Z.of_nat h) Hn ltac:(lia) Hs) as [Hw' _].
      assert (Eh : 2 * (a / 2 ^ Z.of_nat (S h)) = a / 2 ^ Z.of_nat h).
      { destruct Hd as [c ->]. rewrite pow2_S. pose proof (pow2_pos h).
        rewrite Z.div_mul by lia. replace (c * (2 * 2 ^ Z.of_nat h)) with (2 * c * 2 ^ Z.of_nat h) by lia. by rewrite Z.div_mul by lia. }
      rewrite Position.child_pos; cycle 1; [lia|lia|lia| |].
      { replace (Z.of_nat (S h) - 1) with (Z.of_nat h) by lia. by rewrite Eh. }
      replace (Z.of_nat (S h) - 1) with (Z.of_nat h) by lia. rewrite Eh. apply IH; [done|done|lia|lia].
Qed.

(** The siblings' positions, from the leaf to the root of a subtree. *)
Fixpoint side_pos_aux (fuel : nat) (a m i : Z) : list Z :=
  match fuel with
  | O => []
  | S f =>
      if m <=? 1 then []
      else
        let k := split_point m in
        if i <? a + k then side_pos_aux f a k i ++ [node_pos (a + k) (m - k)]
        else side_pos_aux f (a + k) (m - k) i ++ [node_pos a k]
  end.
Definition side_pos (a m i : Z) : list Z := side_pos_aux (Z.to_nat m) a m i.

Lemma side_pos_fuel f g a m i :
  m <= Z.of_nat f -> m <= Z.of_nat g -> side_pos_aux f a m i = side_pos_aux g a m i.
Proof.
  revert g a m. induction f as [|f IH]; intros g a m Hf Hg.
  - destruct g as [|g]; [done|]. cbn [side_pos_aux]. case_if; [done|lia].
  - destruct g as [|g].
    + cbn [side_pos_aux]. case_if; [done|lia].
    + cbn [side_pos_aux]. case_if; [done|]. pose proof (split_point_range m ltac:(lia)). case_if; f_equal; apply IH; lia.
Qed.
Lemma side_pos_unfold a m i :
  2 <= m ->
  side_pos a m i =
    let k := split_point m in
    if i <? a + k then side_pos a k i ++ [node_pos (a + k) (m - k)] else side_pos (a + k) (m - k) i ++ [node_pos a k].
Proof.
  intros Hm. pose proof (split_point_range m Hm). unfold side_pos at 1. destruct (Z.to_nat m) as [|f] eqn:E; [lia|].
  cbn [side_pos_aux]. case_if; [lia|]. cbn zeta. case_if; f_equal; apply side_pos_fuel; lia.
Qed.
Lemma side_pos_small a m i : m <= 1 -> side_pos a m i = [].
Proof. intros Hm. unfold side_pos. destruct (Z.to_nat m); [done|]. cbn. case_if; [done|lia]. Qed.

(** The raw items of the path below height [h]. *)
Definition sib (k : Z) : Z := if Z.even k then k + 1 else k - 1.
Fixpoint below (i : Z) (h : nat) : list PathItem :=
  match h with
  | O => []
  | S h =>
      let k := i / 2 ^ Z.of_nat h in
      (Ok (Position.pos k (Z.of_nat h)), Ok (Position.pos (sib k) (Z.of_nat h))) :: below i h
  end.

Lemma in_block i a h : 0 <= h -> (2 ^ h | a) -> a <= i < a + 2 ^ h -> i / 2 ^ h = a / 2 ^ h.
Proof.
  intros Hh [c ->] Hi. pose proof (pow_pos h Hh). rewrite Z.div_mul by lia.
  symmetry. apply (Z.div_unique _ _ _ (i - c * 2 ^ h)); lia.
Qed.

(** From the node of a block on, the iteration yields the node of the subtree and below it the
    siblings; nodes that are not in the tree are passed over, keeping their side. *)
Lemma position_path_spec n i (h : nat) : forall a m cur side c,
  n <= 2 ^ 63 -> Z.of_nat h <= 63 -> subtree n a m (Z.of_nat h) -> a <= i < a + m ->
  descend 64 ((n - 1) * 2) (default side cur) = Ok c ->
  exists l, position_path ((n - 1) * 2) cur
      ((Ok (Position.pos (i / 2 ^ Z.of_nat h) (Z.of_nat h)), Ok side) :: below i h) = Ok ((node_pos a m, c) :: l) /\
    map snd l = rev (side_pos a m i).
Proof.
  induction h as [|h IH]; intros a m cur side c Hn Hh63 Hs Hi Hdesc;
    pose proof (node_inside n a m _ Hs) as Hin; pose proof Hs as (Ha & _ & Hd & Hm & Hle & _);
    rewrite (in_block i a) by (done || lia); cbn [position_path]; rewrite Hin.
  - cbn [Z.of_nat Z.eqb orb]. rewrite Hdesc. cbn [obind below position_path]. exists [].
    rewrite (side_pos_small a m) by (cbn in *; lia). split; [|done]. unfold node_pos. by rewrite (full_height m 0) by (cbn in *; lia).
  - rewrite (proj2 (Z.eqb_neq _ 0)) by lia. cbn [orb]. set (h' := Z.of_nat (S h)) in *.
    assert (Eh : h' - 1 = Z.of_nat h) by lia. pose proof (pow2_pos h) as Hpos. pose proof (pow2_S h) as HS. fold h' in HS. rewrite Eh in *.
    destruct (Z.ltb_spec (2 ^ Z.of_nat h) m) as [Hlt|Hge].
    + rewrite Hdesc. cbn [obind]. pose proof (subtree_left n a m h' ltac:(lia) Hs) as HL. pose proof (subtree_right n a m h' ltac:(lia) Hs) as HR.
      rewrite Eh in *. specialize (HL Hlt). specialize (HR Hlt).
      assert (Hnode : node_pos a m = Position.pos (a / 2 ^ h') h') by (unfold node_pos; rewrite (full_height m h'); [done|lia|lia|rewrite Eh; lia|lia]).
      assert (Hspl : split_point m = 2 ^ Z.of_nat h) by (rewrite (split_at m h'); [by rewrite Eh|lia|rewrite Eh; lia]).
      assert (Hev : Z.even (a / 2 ^ Z.of_nat h) = true).
      { destruct Hd as [q ->]. rewrite HS. replace (q * (2 * 2 ^ Z.of_nat h)) with (2 * q * 2 ^ Z.of_nat h) by lia.
        rewrite Z.div_mul by lia. by rewrite Z.even_mul. }
      assert (Hnext : (a + 2 ^ Z.of_nat h) / 2 ^ Z.of_nat h = a / 2 ^ Z.of_nat h + 1)
        by (rewrite <- (Z.mul_1_l (2 ^ Z.of_nat h)) at 1; by rewrite Z.div_add by lia).
      rewrite Hnode. cbn [below]. rewrite side_pos_unfold, Hspl by lia. cbn zeta.
      destruct (Z.ltb_spec i (a + 2 ^ Z.of_nat h)) as [Hil|Hir].
      * destruct (IH a (2 ^ Z.of_nat h) None (Position.pos (sib (i / 2 ^ Z.of_nat h)) (Z.of_nat h))
          (node_pos (a + 2 ^ Z.of_nat h) (m - 2 ^ Z.of_nat h))) as (l & E & El); [done|lia|done|lia| |].
        { cbn [default]. rewrite (in_block i a) by (lia || apply HL). unfold sib. rewrite Hev, <- Hnext. apply descend_spec; [done|done|lia|lia]. }
        rewrite E. eexists. split; [reflexivity|]. cbn [map snd]. rewrite El, rev_app_distr. done.
      * destruct (IH (a + 2 ^ Z.of_nat h) (m - 2 ^ Z.of_nat h) None (Position.pos (sib (i / 2 ^ Z.of_nat h)) (Z.of_nat h))
          (node_pos a (2 ^ Z.of_nat h))) as (l & E & El); [done|lia|done|lia| |].
        { cbn [default]. rewrite (in_block i (a + 2 ^ Z.of_nat h)), Hnext by (lia || apply HR). unfold sib.
          assert (Z.even (a / 2 ^ Z.of_nat h + 1) = false) as -> by (by rewrite Z.even_add, Hev).
          replace (a / 2 ^ Z.of_nat h + 1 - 1) with (a / 2 ^ Z.of_nat h) by lia.
          apply descend_spec; [done|done|lia|lia]. }
        rewrite E. eexists. split; [reflexivity|]. cbn [map snd]. rewrite El, rev_app_distr. done.
    + cbn [below]. apply subtree_shrink in Hs; [|lia|rewrite Eh; lia]. rewrite Eh in Hs.
      apply (IH a m (Some (default side cur))); [done|lia|done|lia|done].
Qed.

(** ** The path iteration *)

Lemma lookup_be_bytes (n : nat) z : forall j : nat, (j < n)%nat ->
  to_be_bytes n z !! j = Some (byte_of (z / 256 ^ (Z.of_nat n - 1 - Z.of_nat j))).
Proof.
  induction n as [|n IH]; intros j Hj; [lia|]. cbn [to_be_bytes]. destruct j as [|j].
  - cbn. do 3 f_equal. f_equal. lia.
  - change (to_be_bytes n z !! j = Some (byte_of (z / 256 ^ (Z.of_nat (S n) - 1 - Z.of_nat (S j))))).
    rewrite IH by lia. do 3 f_equal. f_equal. lia.
Qed.
Lemma zget_be_bytes (n : nat) z (j : nat) : (j < n)%nat ->
  zget (to_be_bytes n z) (Z.of_nat j) = Some (byte_of (z / 256 ^ (Z.of_nat n - 1 - Z.of_nat j))).
Proof. intros Hj. unfold zget. rewrite (proj2 (Z.ltb_ge _ _)), Nat2Z.id by lia. by apply lookup_be_bytes. Qed.

Lemma get_instruction_word i (b : nat) : (b < 64)%nat ->
  Sparse.get_instruction (to_be_bytes 8 i) (63 - Z.of_nat b) =
    Some (if Z.testbit i (Z.of_nat b) then Sparse.Right else Sparse.Left).
Proof.
  intros Hb. unfold Sparse.get_instruction, Sparse.get_bit_at_index_from_msb, Sparse.side_of_bit.
  set (j := 63 - Z.of_nat b). assert (Hj : 0 <= j < 64) by lia.
  pose proof (Z.div_mod j 8 ltac:(lia)) as Hdm. pose proof (Z.mod_pos_bound j 8 ltac:(lia)) as Hmod.
  pose proof (Z.div_pos j 8 ltac:(lia) ltac:(lia)). replace (j / 8) with (Z.of_nat (Z.to_nat (j / 8))) by lia.
  rewrite zget_be_bytes by lia. cbn [fmap option_fmap option_map]. rewrite byte_val_of.
  rewrite Z.shiftl_1_l. set (r := j mod 8) in *. set (q := Z.of_nat (Z.to_nat (j / 8))).
  assert (Hq : q = j / 8) by lia.
  assert (Et : Z.testbit ((i / 256 ^ (Z.of_nat 8 - 1 - q)) mod 256) (7 - r) = Z.testbit i (Z.of_nat b)).
  { change 256 with (2 ^ 8) at 2. rewrite Z.mod_pow2_bits_low by lia.
    change 256 with (2 ^ 8). rewrite <- Z.pow_mul_r, <- Z.shiftr_div_pow2, Z.shiftr_spec by lia. f_equal. lia. }
  rewrite <- Et. generalize ((i / 256 ^ (Z.of_nat 8 - 1 - q)) mod 256) as x. intros x.
  assert (El : (Z.land x (2 ^ (7 - r)) =? 0) = negb (Z.testbit x (7 - r))); [|by rewrite El, negb_involutive].
  destruct (Z.testbit x (7 - r)) eqn:Ex; cbn [negb]; apply Z.eqb_eq || apply Z.eqb_neq.
  - intros E. assert (E' : Z.testbit (Z.land x (2 ^ (7 - r))) (7 - r) = false) by (by rewrite E, Z.bits_0).
    rewrite Z.land_spec, Ex, Z.pow2_bits_true in E' by lia. done.
  - apply Z.bits_inj'. intros k Hk. rewrite Z.land_spec, Z.bits_0, Z.pow2_bits_eqb by lia.
    destruct (Z.eqb_spec (7 - r) k) as [<-|]; [by rewrite Ex|by rewrite andb_false_r].
Qed.

Lemma path_iter_below i (h : nat) : forall (f : nat) s,
  0 <= i -> (i / 2 ^ Z.of_nat h + 1) * 2 ^ Z.of_nat h <= 2 ^ 63 -> (h <= f)%nat ->
  path_iter f (to_be_bytes 8 i) (Ok (Position.pos (i / 2 ^ Z.of_nat h) (Z.of_nat h)), s) (64 - Z.of_nat h) =
    (Ok (Position.pos (i / 2 ^ Z.of_nat h) (Z.of_nat h)), s) :: below i h.
Proof.
  induction h as [|h IH]; intros f s Hi Hle Hf.
  - destruct f; cbn [path_iter fst below]; [done|].
    assert (E : Position.is_node (Position.pos (i / 2 ^ Z.of_nat 0) (Z.of_nat 0)) = false); [|by rewrite E].
    unfold Position.is_node, Position.is_leaf, Position.pos. apply negb_false_iff, Z.eqb_eq.
    change (2 ^ Z.of_nat 0) with 1. change (2 ^ (Z.of_nat 0 + 1)) with 2. rewrite Z.div_1_r.
    replace (i * 2 + 1 - 1) with (i * 2) by lia. apply Z.mod_mul. lia.
  - destruct f as [|f]; [lia|]. pose proof (pow2_pos h) as Hpos. pose proof (pow2_S h) as HS.
    set (k := i / 2 ^ Z.of_nat h). assert (Hk : 0 <= k) by (apply Z.div_pos; lia).
    assert (Ek : i / 2 ^ Z.of_nat (S h) = k / 2) by (rewrite HS, (Z.mul_comm 2), <- Z.div_div by lia; done). rewrite Ek in *.
    assert (Hk2 : 0 <= k / 2) by (apply Z.div_pos; lia).
    destruct (pos_word (k / 2) (Z.of_nat (S h))) as [Hh63 Hw]; [done|lia|done|].
    pose proof (Z.div_mod k 2 ltac:(lia)) as Hdm. pose proof (Z.mod_pos_bound k 2 ltac:(lia)) as Hmod.
    assert (Hchild : forall side, position_child (Position.pos (k / 2) (Z.of_nat (S h))) side =
      Ok (Position.pos (match side with Position.Left => 2 * (k / 2) | Position.Right => 2 * (k / 2) + 1 end) (Z.of_nat h))).
    { intros side. unfold position_child. rewrite Position.child_pos; [|lia|lia|lia|].
      - cbn [omap_err]. do 2 f_equal. lia.
      - replace (Z.of_nat (S h) - 1) with (Z.of_nat h) by lia. apply pos_word; [destruct side; lia|lia|]. destruct side; nia. }
    assert (Hnode : Position.is_node (Position.pos (k / 2) (Z.of_nat (S h))) = true).
    { unfold position_child, Position.child in Hchild. specialize (Hchild Position.Left). destruct (Position.is_node _); done. }
    cbn [path_iter fst]. rewrite Hnode. replace (64 - Z.of_nat (S h)) with (63 - Z.of_nat h) by lia.
    rewrite get_instruction_word by lia.
    assert (Hbit : Z.testbit i (Z.of_nat h) = negb (k mod 2 =? 0)).
    { rewrite Z.testbit_odd, Z.shiftr_div_pow2 by lia. fold k. rewrite Zmod_odd. by destruct (Z.odd k). }
    assert (Hev : Z.even k = (k mod 2 =? 0)) by (rewrite Zmod_even; by destruct (Z.even k)).
    replace (63 - Z.of_nat h + 1) with (64 - Z.of_nat h) by lia.
    assert (Hk' : (k + 1) * 2 ^ Z.of_nat h <= 2 ^ 63) by nia.
    rewrite Hbit. cbn [below]. fold k. unfold sib. rewrite Hev. f_equal.
    destruct (Z.eqb_spec (k mod 2) 0) as [E0|E0]; cbn [negb]; rewrite !Hchild.
    + replace (2 * (k / 2)) with k by lia. by apply IH; [| |lia].
    + replace (2 * (k / 2) + 1) with k by lia. replace (2 * (k / 2)) with (k - 1) by lia. by apply IH; [| |lia].
Qed.

(** The whole path: the root first, with itself as its side, then the siblings. *)
Lemma path_positions_spec N i (H : nat) :
  0 <= i < N -> N <= 2 ^ Z.of_nat H -> Z.of_nat H <= 63 ->
  exists l, path_positions (Position.pos 0 (Z.of_nat H)) (i * 2) N = Ok ((node_pos 0 N, node_pos 0 N) :: l) /\
    map snd l = rev (side_pos 0 N i).
Proof.
  intros Hi HN HH. assert (Hmax : 2 ^ Z.of_nat H <= 2 ^ 63) by (apply Z.pow_le_mono_r; lia).
  unfold path_positions. rewrite checked_sub_Some by lia. cbn [expect obind].
  unfold Position.from_leaf_index. rewrite (proj2 (Z.ltb_lt _ _)) by lia. cbn [expect obind].
  assert (Eleaf : leaf_key (i * 2) = Ok (to_be_bytes 8 i)).
  { unfold leaf_key, leaf_index, Position.is_leaf. rewrite Z.mod_mul, Z.eqb_refl by lia. cbn [obind]. by rewrite Z.div_mul by lia. }
  rewrite Eleaf. cbn [obind]. unfold as_path_iter.
  destruct (pos_word 0 (Z.of_nat H)) as [_ Hw]; [lia..|]. rewrite Position.height_eq by lia.
  rewrite checked_sub_Some by lia. cbn [expect obind].
  assert (E0 : i / 2 ^ Z.of_nat H = 0) by (apply Z.div_small; lia).
  pose proof (path_iter_below i H 64 (Ok (Position.pos 0 (Z.of_nat H)))) as Hiter. rewrite E0 in Hiter.
  rewrite Hiter by lia. pose proof (position_path_spec N i H 0 N None (Position.pos 0 (Z.of_nat H)) (node_pos 0 N)) as Hp.
  rewrite E0 in Hp.
  assert (Hsub : subtree N 0 N (Z.of_nat H)) by (split_and!; [lia|lia|apply Z.divide_0_r|lia|lia|lia|lia]).
  apply Hp; [lia|lia|done|lia|]. cbn [default].
  pose proof (descend_spec N N H 0 64 ltac:(lia) Hsub ltac:(lia) HH) as Hdesc. rewrite Z.div_0_l in Hdesc by lia. exact Hdesc.
Qed.

Lemma root_position_spec n : 0 <= n < 2 ^ 63 ->
  exists H : nat, root_position n = Ok (Some (Position.pos 0 (Z.of_nat H))) /\ n + 1 <= 2 ^ Z.of_nat H /\ Z.of_nat H <= 63.
Proof.
  intros Hn. pose proof (Z.log2_up_nonneg (n + 1)) as H0. exists (Z.to_nat (Z.log2_up (n + 1))). rewrite Z2Nat.id by done.
  assert (H63 : Z.log2_up (n + 1) <= 63) by (apply Z.log2_up_le_pow2; lia).
  assert (Hpow : 2 ^ Z.log2_up (n + 1) <= 2 ^ 63) by (apply Z.pow_le_mono_r; lia).
  split_and!; [|by apply Z.log2_up_le_pow2; lia|done].
  unfold root_position. rewrite checked_add_Some by lia. unfold next_power_of_two. rewrite (proj2 (Z.ltb_lt _ _)) by lia.
  cbn [expect obind]. unfold Position.pos. do 2 f_equal.
Qed.

(** ** Proofs and loading *)

Section Refine.
Context `{Sha256}.
Implicit Types (leaves : list (list byte)) (s scratch : NodesTable) (t : MerkleTree).

(** Every node of the tree is found, in the scratch storage or in the storage. *)
Definition found (scratch s : NodesTable) leaves : Prop := forall a m h,
  subtree (zlen leaves) a m h -> h = 0 \/ 2 ^ (h - 1) < m ->
  match scratch !! node_pos a m with Some p => Some p | None => s !! node_pos a m end =
    Some (node_pos a m, mth (block leaves a m)).

Lemma peaks_inv leaves e lo n stack : peaks leaves e lo (n :: stack) ->
  exists k h, n = node_at leaves k h /\ e = (k + 1) * 2 ^ h /\ 0 <= lo <= h /\ 0 <= k /\ peaks leaves (k * 2 ^ h) (h + 1) stack.
Proof. intros Hp. inversion Hp; subst. by eexists _, _. Qed.

Lemma root_node_spec leaves t :
  represents leaves t -> leaves <> [] -> zlen leaves <= 2 ^ 63 ->
  exists root scratch, root_node t ∅ = Ok (Some root, scratch) /\ hash root = mth leaves /\ found scratch (tree_storage t) leaves.
Proof.
  intros [Hc Hp Hs] Hne Hmax. assert (Hpos : 0 < zlen leaves) by (destruct leaves; [done|unfold zlen; cbn; lia]).
  unfold root_node. destruct (tree_nodes t) as [|top rest]; [inversion Hp; lia|].
  apply peaks_inv in Hp as (k & h & -> & He & Hh & Hk & Hp). pose proof (pow_pos h ltac:(lia)) as Hph.
  destruct (root_node_loop_spec leaves (k * 2 ^ h) (h + 1) rest Hp (node_at leaves k h) ∅) as (root & scr & E & Hr & H1 & H2);
    [lia|done|rewrite Position.pow2_succ by lia; nia| |].
  { cbn [hash node_at]. do 2 f_equal. lia. }
  rewrite E. cbn [obind]. exists root, scr. split_and!; [done|done|]. intros a m h' Hsub Hfull.
  pose proof Hsub as (Ha & Hh' & [c ->] & Hm & Hle & Hcase). pose proof (pow_pos h' Hh') as Hph'.
  assert (Eh : Z.log2_up m = h') by (by apply full_height; lia).
  assert (En : node_pos (c * 2 ^ h') m = Position.pos c h') by (unfold node_pos; by rewrite Eh, Z.div_mul by lia).
  assert (Hc0 : 0 <= c) by nia. rewrite En.
  destruct (decide (m = 2 ^ h')) as [->|Hne'].
  - destruct (pos_word c h') as [? ?]; [lia|lia|lia|].
    destruct (H2 (Position.pos c h')) as [->|(k1 & h1 & Ekey & Hk1 & Hh1 & Hlt1 & Hout)]; cycle 1.
    { rewrite Ekey in Hlt1. apply pos_inj in Ekey as [-> ->]; lia. }
    rewrite lookup_empty. rewrite Hs by lia. done.
  - destruct Hcase as [?|Hend]; [done|]. destruct Hfull as [->|Hfull]; [cbn in *; lia|].
    assert (1 <= h') by (destruct (decide (h' = 0)) as [->|]; [cbn in *; lia|lia]).
    assert (E2 : 2 ^ h' = 2 * 2 ^ (h' - 1)) by (rewrite <- Position.pow2_succ by lia; f_equal; lia).
    assert (Hpk : peak_at ((k + 1) * 2 ^ h) (2 * c) (h' - 1)).
    { rewrite <- He. split_and!; [lia|lia|by rewrite Z.even_mul|lia|lia]. }
    pose proof (peaks_even leaves k h rest ltac:(lia) Hp) as Hev.
    apply peak_cons in Hpk as [[Ek Eh']|[Hpk Hlt]]; [exfalso; subst k h; lia| |lia|lia|done].
    specialize (H1 _ _ Hpk ltac:(lia)). rewrite (Z.mul_comm 2 c), Z.div_mul in H1 by lia.
    replace (h' - 1 + 1) with h' in H1 by lia. rewrite H1. unfold above.
    replace (c * 2 * 2 ^ (h' - 1)) with (c * 2 ^ h') by lia. rewrite (Z.mul_comm c 2), (Z.mul_comm 2 c), Z.div_mul by lia.
    replace (h' - 1 + 1) with h' by lia. do 4 f_equal. lia.
Qed.

Lemma side_hashes_app scratch s l1 : forall l2 p1 p2,
  side_hashes scratch s l1 = Ok p1 -> side_hashes scratch s l2 = Ok p2 -> side_hashes scratch s (l1 ++ l2) = Ok (p1 ++ p2).
Proof.
  induction l1 as [|k l1 IH]; intros l2 p1 p2 H1 H2; cbn [side_hashes app] in *; [by injection H1 as <-|].
  destruct (match scratch !! k with Some p => Some p | None => s !! k end) as [p|]; [|done]. cbn [ok_or obind] in *.
  destruct (side_hashes scratch s l1) as [q| |] eqn:Eq; cbn [obind] in H1; [|done|done]. injection H1 as <-.
  by rewrite (IH l2 q p2).
Qed.

Lemma block_block leaves a m b k : 0 <= a -> 0 <= b -> 0 <= k -> b + k <= m -> a + m <= zlen leaves ->
  block (block leaves a m) b k = block leaves (a + b) k.
Proof.
  intros Ha Hb Hk Hle Hlen. unfold block. rewrite Z2Nat.inj_add by lia. rewrite <- drop_drop.
  set (l := drop (Z.to_nat a) leaves). rewrite <- (take_drop (Z.to_nat b + Z.to_nat k) (take (Z.to_nat m) l)).
  rewrite take_take, Nat.min_l by lia. rewrite drop_app_le by (rewrite length_take; subst l; rewrite length_drop; unfold zlen in *; lia).
  rewrite take_app_le by (rewrite length_drop, length_take; subst l; rewrite length_drop; unfold zlen in *; lia).
  rewrite <- (take_take_drop l (Z.to_nat b)). rewrite drop_app_length' by (rewrite length_take; subst l; rewrite length_drop; unfold zlen in *; lia).
  by rewrite take_take, Nat.min_id.
Qed.

Lemma side_hashes_spec scratch s leaves (h : nat) : forall a m i,
  found scratch s leaves -> subtree (zlen leaves) a m (Z.of_nat h) -> a <= i < a + m ->
  side_hashes scratch s (side_pos a m i) = Ok (audit (block leaves a m) (i - a)).
Proof.
  induction h as [|h IH]; intros a m i Hf Hs Hi; pose proof Hs as (Ha & _ & Hd & Hm & Hle & _).
  - rewrite side_pos_small by (cbn in *; lia). unfold audit.
    assert (El : length (block leaves a m) = 1%nat) by (pose proof (zlen_block leaves a m); unfold zlen in *; cbn in *; lia).
    rewrite El. cbn [audit_aux side_hashes]. unfold zlen. rewrite El. done.
  - pose proof (pow2_pos h) as Hpos. pose proof (pow2_S h) as HS. assert (Eh : Z.of_nat (S h) - 1 = Z.of_nat h) by lia.
    destruct (Z.le_gt_cases m (2 ^ Z.of_nat h)) as [Hshort|Hlong].
    { apply IH; [done| |done]. rewrite <- Eh. apply subtree_shrink; [lia|done|by rewrite Eh]. }
    pose proof (subtree_left (zlen leaves) a m (Z.of_nat (S h)) ltac:(lia) Hs) as HL.
    pose proof (subtree_right (zlen leaves) a m (Z.of_nat (S h)) ltac:(lia) Hs) as HR.
    rewrite Eh in HL, HR. specialize (HL Hlong). specialize (HR Hlong).
    assert (Hspl : split_point m = 2 ^ Z.of_nat h) by (rewrite (split_at m (Z.of_nat (S h))); [by rewrite Eh|lia|rewrite Eh; lia]).
    assert (Hlen : zlen (block leaves a m) = m) by (apply zlen_block; lia).
    rewrite side_pos_unfold, audit_unfold, Hlen, Hspl by lia. cbn zeta.
    set (k := 2 ^ Z.of_nat h) in *.
    assert (EL : take (Z.to_nat k) (block leaves a m) = block leaves a k).
    { change (take (Z.to_nat k) (block leaves a m)) with (block (block leaves a m) 0 k). rewrite block_block by lia. f_equal. lia. }
    assert (ER : drop (Z.to_nat k) (block leaves a m) = block leaves (a + k) (m - k)).
    { rewrite <- (block_block leaves a m k (m - k)) by lia. unfold block at 2. rewrite take_ge; [done|].
      rewrite length_drop. unfold zlen in Hlen. lia. }
    rewrite EL, ER. replace (i - a <? k) with (i <? a + k) by lia.
    assert (Hone : forall a' m', subtree (zlen leaves) a' m' (Z.of_nat h) ->
      side_hashes scratch s [node_pos a' m'] = Ok [mth (block leaves a' m')]).
    { intros a' m' Hsub. cbn [side_hashes].
      assert (Hn : exists h', subtree (zlen leaves) a' m' h' /\ (h' = 0 \/ 2 ^ (h' - 1) < m')).
      { clear -Hsub. induction h as [|h IHh].
        - exists 0. split; [done|by left].
        - destruct (Z.le_gt_cases m' (2 ^ (Z.of_nat (S h) - 1))) as [Hle|Hgt]; [|exists (Z.of_nat (S h)); split; [done|by right]].
          apply IHh. replace (Z.of_nat h) with (Z.of_nat (S h) - 1) by lia. apply subtree_shrink; [lia|done|done]. }
      destruct Hn as (h' & Hsub' & Hfull). rewrite (Hf a' m' h' Hsub' Hfull). done. }
    case_if; zbool.
    + apply side_hashes_app; [|by apply Hone]. by apply IH; [|done|lia].
    + replace (i - a - k) with (i - (a + k)) by lia. apply side_hashes_app; [|by apply Hone]. apply IH; [done|done|lia].
Qed.

Lemma removelast_snoc {A} (l : list A) x : removelast (l ++ [x]) = l.
Proof. rewrite removelast_app by done. cbn. by rewrite app_nil_r. Qed.

(** Proving gives the siblings. *)
Lemma prove_spec leaves t i :
  represents leaves t -> zlen leaves < 2 ^ 63 -> 0 <= i ->
  prove t i = if i <? zlen leaves then Ok (mth leaves, audit leaves i) else Err (InvalidProofIndex i).
Proof.
  intros Ht Hmax Hi. unfold prove. rewrite (rep_count _ _ Ht). pose proof (zlen_nonneg leaves) as Hnn.
  destruct (Z.leb_spec (zlen leaves) i) as [Hge|Hlt]; [by rewrite (proj2 (Z.ltb_ge _ _))|].
  rewrite (proj2 (Z.ltb_lt _ _)) by lia. destruct (root_position_spec (zlen leaves)) as (h & -> & Hh & Hh63); [lia|].
  unfold Position.from_leaf_index. rewrite (proj2 (Z.ltb_lt _ _)) by lia.
  destruct (path_positions_spec (zlen leaves) i h) as (l & -> & El); [lia|lia|lia|]. cbn [map snd rev].
  rewrite El, rev_involutive, removelast_snoc.
  destruct (root_node_spec leaves t Ht) as (root & scr & -> & Hr & Hf); [intros ->; unfold zlen in *; cbn in *; lia|lia|].
  cbn [obind expect]. rewrite (side_hashes_spec scr (tree_storage t) leaves h 0 (zlen leaves) i Hf); [|split_and!; [lia|lia|apply Z.divide_0_r|lia|lia|lia|lia]|lia].
  cbn [obind]. by rewrite Hr, block_all, Z.sub_0_r.
Qed.

(** ** Loading *)

Lemma peaks_unique leaves e : forall lo lo' (s1 s2 : list Node), 0 <= lo -> 0 <= lo' ->
  peaks leaves e lo s1 -> peaks leaves e lo' s2 -> s1 = s2.
Proof.
  intros lo lo' s1. revert e lo lo'. induction s1 as [|n1 s1 IH]; intros e lo lo' [|n2 s2] Hlo Hlo' H1 H2; [done| | |].
  - apply peaks_inv in H2 as (k & h & _ & E & Hh & Hk & _). inversion H1; subst. pose proof (pow_pos h ltac:(lia)). nia.
  - apply peaks_inv in H1 as (k & h & _ & E & Hh & Hk & _). inversion H2; subst. pose proof (pow_pos h ltac:(lia)). nia.
  - apply peaks_inv in H1 as (k & h & -> & E & Hh & Hk & Hp). apply peaks_inv in H2 as (k' & h' & -> & E' & Hh' & Hk' & Hp').
    pose proof (peaks_even leaves k h s1 ltac:(lia) Hp) as Hev. pose proof (peaks_even leaves k' h' s2 ltac:(lia) Hp') as Hev'.
    pose proof (pow_pos h ltac:(lia)). pose proof (pow_pos h' ltac:(lia)).
    assert (Hpk : peak_at ((k + 1) * 2 ^ h) k' h') by (rewrite <- E, E'; split_and!; [done|lia|done|lia|lia]).
    assert (Hpk' : peak_at ((k' + 1) * 2 ^ h') k h) by (rewrite <- E', E; split_and!; [done|lia|done|lia|lia]).
    apply peak_cons in Hpk; [|lia|lia|done]. apply peak_cons in Hpk'; [|lia|lia|done].
    assert (k' = k /\ h' = h) as [-> ->] by (destruct Hpk as [?|[_ ?]], Hpk' as [?|[_ ?]]; lia).
    f_equal. by apply (IH (k * 2 ^ h) (h + 1) (h + 1)); [lia|lia| |].
Qed.

(** The left siblings on the way to the place of the next leaf are the peaks. *)
Lemma side_pos_peaks leaves n (h : nat) : forall a m rest,
  subtree (n + 1) a m (Z.of_nat h) -> a + m = n + 1 -> peaks leaves a (Z.of_nat h) rest ->
  exists stack, map position stack = side_pos a m n /\ peaks leaves n 0 (stack ++ rest).
Proof.
  induction h as [|h IH]; intros a m rest Hs Hend Hp; pose proof Hs as (Ha & _ & Hd & Hm & Hle & _).
  - exists []. rewrite side_pos_small by (cbn in *; lia). split; [done|]. assert (a = n) as -> by (cbn in *; lia). done.
  - pose proof (pow2_pos h) as Hpos. pose proof (pow2_S h) as HS. assert (Eh : Z.of_nat (S h) - 1 = Z.of_nat h) by lia.
    destruct (Z.le_gt_cases m (2 ^ Z.of_nat h)) as [Hshort|Hlong].
    { apply IH; [|done|by apply (peaks_lower leaves a (Z.of_nat (S h))); [lia|]].
      rewrite <- Eh. apply subtree_shrink; [lia|done|by rewrite Eh]. }
    pose proof (subtree_right (n + 1) a m (Z.of_nat (S h)) ltac:(lia) Hs) as HR. rewrite Eh in HR. specialize (HR Hlong).
    assert (Hspl : split_point m = 2 ^ Z.of_nat h) by (rewrite (split_at m (Z.of_nat (S h))); [by rewrite Eh|lia|rewrite Eh; lia]).
    rewrite side_pos_unfold, Hspl by lia. cbn zeta. rewrite (proj2 (Z.ltb_ge _ _)) by lia.
    set (c := a / 2 ^ Z.of_nat h).
    assert (Ec : c * 2 ^ Z.of_nat h = a).
    { subst c. destruct Hd as [q ->]. rewrite HS. replace (q * (2 * 2 ^ Z.of_nat h)) with (2 * q * 2 ^ Z.of_nat h) by lia.
      by rewrite Z.div_mul by lia. }
    destruct (IH (a + 2 ^ Z.of_nat h) (m - 2 ^ Z.of_nat h) (node_at leaves c (Z.of_nat h) :: rest)) as (stack & E & Hst); [done|lia| |].
    { replace (a + 2 ^ Z.of_nat h) with ((c + 1) * 2 ^ Z.of_nat h) by lia. constructor; [lia|nia|].
      rewrite Ec. by replace (Z.of_nat h + 1) with (Z.of_nat (S h)) by lia. }
    exists (stack ++ [node_at leaves c (Z.of_nat h)]). rewrite map_app, E, <- app_assoc. split; [|done]. cbn [map position node_at].
    unfold node_pos. by rewrite (full_height (2 ^ Z.of_nat h) (Z.of_nat h)) by (rewrite ?Z.log2_up_pow2; first [lia|right; apply Z.pow_lt_mono_r; lia]).
Qed.

Lemma peaks_stored leaves e lo stack s :
  peaks leaves e lo stack -> 0 <= lo ->
  (forall k h, 0 <= k -> 0 <= h -> (k + 1) * 2 ^ h <= e -> s !! Position.pos k h = Some (primitive_of (node_at leaves k h))) ->
  Forall (fun n => s !! position n = Some (primitive_of n)) stack.
Proof.
  induction 1 as [lo|k h lo rest Hle Hk Hp IH]; intros Hlo Hs; constructor.
  - apply Hs; lia.
  - apply IH; [lia|]. intros k' h' Hk' Hh' Hle'. apply Hs; [done|done|]. pose proof (pow_pos h ltac:(lia)). lia.
Qed.

Lemma load_nodes_spec s stack : Forall (fun n => s !! position n = Some (primitive_of n)) stack ->
  load_nodes s (map position stack) = Ok stack.
Proof.
  induction 1 as [|n stack Hn Hs IH]; [done|]. cbn [map load_nodes]. rewrite Hn. cbn [ok_or obind]. rewrite IH. by destruct n.
Qed.

Lemma tree_load_spec leaves t : represents leaves t -> zlen leaves < 2 ^ 63 -> tree_load (tree_storage t) (zlen leaves) = Ok t.
Proof.
  intros [Hc Hp Hs] Hmax. pose proof (zlen_nonneg leaves) as Hnn. unfold tree_load, peak_positions, Position.from_leaf_index.
  rewrite (proj2 (Z.ltb_lt _ _)) by lia. destruct (root_position_spec (zlen leaves)) as (h & -> & Hh & Hh63); [lia|].
  cbn [obind]. destruct (path_positions_spec (zlen leaves + 1) (zlen leaves) h) as (l & -> & El); [lia|lia|lia|].
  cbn [obind drop]. rewrite drop_0, El.
  destruct (side_pos_peaks leaves (zlen leaves) h 0 (zlen leaves + 1) []) as (stack & E & Hst).
  { split_and!; [lia|lia|apply Z.divide_0_r|lia|lia|lia|lia]. }
  { lia. }
  { constructor. }
  rewrite app_nil_r in Hst.
  assert (stack = tree_nodes t) as -> by (by apply (peaks_unique leaves (zlen leaves) 0 0)). rewrite <- E, <- map_rev.
  rewrite load_nodes_spec; [|apply Forall_rev, (peaks_stored leaves (zlen leaves) 0); done].
  cbn [obind]. rewrite rev_involutive, <- Hc. by destruct t.
Qed.

Lemma tree_root_spec leaves t : represents leaves t -> zlen leaves <= 2 ^ 63 -> tree_root t = Ok (mth leaves).
Proof.
  intros Ht Hmax. destruct (decide (leaves = [])) as [->|Hne].
  - destruct Ht as [_ Hp _]. unfold tree_root, root_node. destruct (tree_nodes t) as [|n st]; [done|].
    apply peaks_inv in Hp as (k & h & _ & E & Hh & Hk & _). pose proof (pow_pos h ltac:(lia)). change (zlen []) with 0 in E. nia.
  - destruct (root_node_spec leaves t Ht Hne Hmax) as (root & scr & E & Hr & _). unfold tree_root. by rewrite E, Hr.
Qed.
End Refine.

(** A binary Merkle tree over a storage refines the list of its leaves. Pushing leaves one
    by one onto a new tree succeeds; the root is their tree hash; loading the tree again from its
    storage and the number of leaves gives the same tree; and proving an index gives the hashes
    of the siblings on the way to that leaf, which are accepted for it, or fails exactly because
    there is no such leaf. *)
Theorem binary_tree_refines `{Sha256} (leaves : list (list byte)) :
  zlen leaves < 2 ^ 63 ->
  exists t, push_all tree_new leaves = (Ok tt, t) /\ tree_root t = Ok (mth leaves) /\
    tree_load (tree_storage t) (zlen leaves) = Ok t /\
    forall i, 0 <= i ->
      match prove t i with
      | Ok (root, proof) => root = mth leaves /\ proof = audit leaves i /\
          exists d, zget leaves i = Some d /\ verify root d proof i (zlen leaves) = Ok true
      | Err e => e = InvalidProofIndex i /\ zlen leaves <= i
      | Crash => False
      end.
Proof.
  intros Hlen. destruct (push_all_spec leaves [] tree_new represents_new) as (t & E & Ht); [cbn; lia|]. cbn in Ht.
  exists t. split_and!; [done|apply (tree_root_spec leaves); [done|lia]|by apply tree_load_spec|]. intros i Hi.
  rewrite (prove_spec leaves t i Ht Hlen Hi). destruct (Z.ltb_spec i (zlen leaves)) as [Hlt|Hge]; [|done].
  split_and!; [done|done|]. destruct (zget_is_Some leaves i) as [d Hd]; [lia|]. exists d. split; [done|].
  apply verify_accepts; [done|lia].
Qed.

(** ** An example of seven leaves *)

Module TreeExample.
#[local] Instance sha : Sha256 := fun l => x28 :: l ++ [x29].
Definition leaves : list (list byte) := [[x00]; [x01]; [x02]; [x03]; [x04]; [x05]; [x06]].

(** Resetting a tree does not reset the number of its leaves: after a reset the proof for the
    first leaf that is pushed is not accepted. *)
Lemma reset_breaks_proofs :
  let t := (tree_push (tree_reset (tree_push tree_new [x00]).2) [x01]).2 in
  tree_root t = Ok (mth [[x01]]) /\
  match prove t 0 with
  | Ok (root, proof) => verify root [x01] proof 0 1 = Ok false /\ verify root [x01] proof 0 2 = Ok false
  | _ => False
  end.
Proof. vm_compute. done. Qed.
End TreeExample.

Lemma binary_tree_refines_witness :
  exists t, @push_all TreeExample.sha tree_new TreeExample.leaves = (Ok tt, t) /\
    match @prove TreeExample.sha t 4 with
    | Ok (root, proof) => @verify TreeExample.sha root [x04] proof 4 7 = Ok true
    | _ => False
    end.
Proof.
  destruct (@binary_tree_refines TreeExample.sha TreeExample.leaves) as (t & E & _ & _ & Hp); [reflexivity|].
  exists t. split; [exact E|]. specialize (Hp 4 ltac:(lia)). destruct (@prove TreeExample.sha t 4) as [[root proof]|e|].
  - destruct Hp as (_ & _ & d & Hd & Hv). injection Hd as <-. exact Hv.
  - destruct Hp as [_ Hp]. vm_compute in Hp. by destruct Hp.
  - exact Hp.
Defined.
