(* ===== verification/Receipts.v ===== *)
(** * Receipts

    The receipt data type with its canonical encoding (src/fuel-tx/src/receipt.rs and the
    derived [Serialize]) and the bounded receipt log with its Merkle tree,
    [ReceiptsCtx] (src/fuel-vm/src/interpreter/receipts.rs). *)

From Stdlib Require Import Strings.Byte.
From S2P Require Import Prelude Asm Merkle.

(** ** Errors of the interpreter (error.rs) *)

Inductive BugVariant : Type :=
| ContextGasOverflow
| ContextGasUnderflow
| GlobalGasUnderflow
| GlobalGasLessThanContext
| StackPointerOverflow
| CodeSizeOverflow
| UncomputableRefund
| ReceiptsCtxFull
| WitnessIndexOutOfBounds
| NextSubsectionIndexIsHigherThanTotalNumberOfParts
| InputIndexMoreThanU16Max.

Inductive RuntimeError : Type :=
| Recoverable (reason : PanicReason)
| Bug (bug : BugVariant)
| Storage.

Definition is_recoverable (e : RuntimeError) : bool :=
  match e with Recoverable _ => true | _ => false end.

(** ** Receipts *)

(** 32-byte identifiers: [ContractId], [AssetId], [Address], [Bytes32], ... *)
Definition Bytes32 := list byte.
Definition ContractId := Bytes32.
Definition AssetId := Bytes32.
Definition BlobId := Bytes32.
Definition zeroed : Bytes32 := replicate 32 x00.
Definition bytes32_ok (b : Bytes32) : Prop := zlen b = 32.

Record PanicInstruction : Type := mkPanic { p_reason : PanicReason; p_instruction : Z }.

Inductive ScriptExecutionResult : Type :=
| Success
| Revert_
| Panic_
| GenericFailure (value : Z).

Inductive Receipt : Type :=
| Receipt_Call (id to : ContractId) (amount : Z) (asset_id : AssetId)
    (gas param1 param2 pc is_ : Z)
| Receipt_Return (id : ContractId) (val pc is_ : Z)
| Receipt_ReturnData (id : ContractId) (ptr len : Z) (digest : Bytes32) (pc is_ : Z)
    (data : option (list byte))
| Receipt_Panic (id : ContractId) (reason : PanicInstruction) (pc is_ : Z)
    (contract_id : option ContractId)
| Receipt_Revert (id : ContractId) (ra pc is_ : Z)
| Receipt_Log (id : ContractId) (ra rb rc rd pc is_ : Z)
| Receipt_LogData (id : ContractId) (ra rb ptr len : Z) (digest : Bytes32) (pc is_ : Z)
    (data : option (list byte))
| Receipt_Transfer (id to : ContractId) (amount : Z) (asset_id : AssetId) (pc is_ : Z)
| Receipt_TransferOut (id : ContractId) (to : Bytes32) (amount : Z) (asset_id : AssetId)
    (pc is_ : Z)
| Receipt_ScriptResult (result : ScriptExecutionResult) (gas_used : Z)
| Receipt_MessageOut (sender recipient : Bytes32) (amount : Z) (nonce : Bytes32) (len : Z)
    (digest : Bytes32) (data : option (list byte))
| Receipt_Mint (sub_id : Bytes32) (contract_id : ContractId) (val pc is_ : Z)
| Receipt_Burn (sub_id : Bytes32) (contract_id : ContractId) (val pc is_ : Z).

(** ** Canonical encoding

    The derived [Serialize]: the variant index as a word, then the fields in order, skipping
    those marked [canonical(skip)]; a word is eight big-endian bytes, and a [u32] is padded
    to a word. *)
Definition enc_word (z : Z) : list byte := to_be_bytes 8 z.

Definition encode_script_result (r : ScriptExecutionResult) : list byte :=
  match r with
  | Success => enc_word 0
  | Revert_ => enc_word 1
  | Panic_ => enc_word 2
  | GenericFailure v => enc_word 3 ++ enc_word v
  end.

Definition receipt_to_bytes (r : Receipt) : list byte :=
  match r with
  | Receipt_Call id to amount asset_id gas p1 p2 pc is_ =>
      enc_word 0 ++ id ++ to ++ enc_word amount ++ asset_id ++ enc_word gas ++
      enc_word p1 ++ enc_word p2 ++ enc_word pc ++ enc_word is_
  | Receipt_Return id val pc is_ =>
      enc_word 1 ++ id ++ enc_word val ++ enc_word pc ++ enc_word is_
  | Receipt_ReturnData id ptr len digest pc is_ _ =>
      enc_word 2 ++ id ++ enc_word ptr ++ enc_word len ++ digest ++ enc_word pc ++
      enc_word is_
  | Receipt_Panic id reason pc is_ _ =>
      enc_word 3 ++ id ++ enc_word (p_instruction reason) ++ enc_word pc ++ enc_word is_
  | Receipt_Revert id ra pc is_ =>
      enc_word 4 ++ id ++ enc_word ra ++ enc_word pc ++ enc_word is_
  | Receipt_Log id ra rb rc rd pc is_ =>
      enc_word 5 ++ id ++ enc_word ra ++ enc_word rb ++ enc_word rc ++ enc_word rd ++
      enc_word pc ++ enc_word is_
  | Receipt_LogData id ra rb ptr len digest pc is_ _ =>
      enc_word 6 ++ id ++ enc_word ra ++ enc_word rb ++ enc_word ptr ++ enc_word len ++
      digest ++ enc_word pc ++ enc_word is_
  | Receipt_Transfer id to amount asset_id pc is_ =>
      enc_word 7 ++ id ++ to ++ enc_word amount ++ asset_id ++ enc_word pc ++ enc_word is_
  | Receipt_TransferOut id to amount asset_id pc is_ =>
      enc_word 8 ++ id ++ to ++ enc_word amount ++ asset_id ++ enc_word pc ++ enc_word is_
  | Receipt_ScriptResult result gas_used =>
      enc_word 9 ++ encode_script_result result ++ enc_word gas_used
  | Receipt_MessageOut sender recipient amount nonce len digest _ =>
      enc_word 10 ++ sender ++ recipient ++ enc_word amount ++ nonce ++ enc_word len ++
      digest
  | Receipt_Mint sub_id contract_id val pc is_ =>
      enc_word 11 ++ sub_id ++ contract_id ++ enc_word val ++ enc_word pc ++ enc_word is_
  | Receipt_Burn sub_id contract_id val pc is_ =>
      enc_word 12 ++ sub_id ++ contract_id ++ enc_word val ++ enc_word pc ++ enc_word is_
  end.

Definition with_panic_contract_id (r : Receipt) (c : option ContractId) : Receipt :=
  match r with
  | Receipt_Panic id reason pc is_ _ => Receipt_Panic id reason pc is_ c
  | r => r
  end.

Section Receipts.
Context `{Sha256}.

Definition receipt_return_data (id : ContractId) (ptr pc is_ : Z) (data : list byte)
  : Receipt :=
  Receipt_ReturnData id ptr (zlen data) (sha256 data) pc is_ (Some data).
Definition receipt_log_data (id : ContractId) (ra rb ptr pc is_ : Z) (data : list byte)
  : Receipt :=
  Receipt_LogData id ra rb ptr (zlen data) (sha256 data) pc is_ (Some data).

(** ** [ReceiptsCtx] *)

Record ReceiptsCtx : Type := mkReceipts {
  rx_receipts : list Receipt;
  receipts_tree : MerkleRootCalculator
}.

Definition MAX_RECEIPTS : Z := 65535.

Definition receipts_default : ReceiptsCtx := mkReceipts [] calculator_new.

Definition is_script_result (r : Receipt) : bool :=
  match r with Receipt_ScriptResult _ _ => true | _ => false end.
Definition is_panic (r : Receipt) : bool :=
  match r with Receipt_Panic _ _ _ _ _ => true | _ => false end.

(** A failure inside the Merkle tree is a host panic. *)
Definition receipts_push (ctx : ReceiptsCtx) (receipt : Receipt)
  : outcome RuntimeError ReceiptsCtx :=
  if zlen (rx_receipts ctx) =? MAX_RECEIPTS then Err (Bug ReceiptsCtxFull)
  else if ((zlen (rx_receipts ctx) =? MAX_RECEIPTS - 1) && negb (is_script_result receipt))
       || ((zlen (rx_receipts ctx) =? MAX_RECEIPTS - 2)
           && negb (is_script_result receipt || is_panic receipt))
  then Err (Recoverable TooManyReceipts)
  else
    match calculator_push (receipts_tree ctx) (receipt_to_bytes receipt) with
    | Ok tree => Ok (mkReceipts (rx_receipts ctx ++ [receipt]) tree)
    | Err _ | Crash => Crash
    end.

Definition receipts_clear (ctx : ReceiptsCtx) : ReceiptsCtx := mkReceipts [] calculator_new.

Definition receipts_root (ctx : ReceiptsCtx) : outcome Position.GetNodeError Bytes32 :=
  calculator_root (receipts_tree ctx).

(** [recalculate_root]: rebuild the tree from the list. *)
Definition recalculate_root (ctx : ReceiptsCtx) : outcome Position.GetNodeError ReceiptsCtx :=
  let? tree := calculator_push_all calculator_new (map receipt_to_bytes (rx_receipts ctx)) in
  Ok (mkReceipts (rx_receipts ctx) tree).

(** ** Invariant: the tree is the tree of the receipts, and the log is bounded. *)
Record receipts_ok (ctx : ReceiptsCtx) : Prop := {
  rx_len : zlen (rx_receipts ctx) <= MAX_RECEIPTS;
  rx_tree : exists chunks, stack_ok 0 (receipts_tree ctx) chunks /\
    concat (rev chunks) = map receipt_to_bytes (rx_receipts ctx)
}.

Lemma receipts_default_ok : receipts_ok receipts_default.
Proof.
  split; [unfold zlen; cbn; unfold MAX_RECEIPTS; lia|]. exists []. split; [constructor|done].
Qed.

Lemma zlen_map {A B} (f : A -> B) l : zlen (map f l) = zlen l.
Proof. unfold zlen. by rewrite length_map. Qed.

(** The result of every push, by the number of receipts already present. *)
Lemma receipts_push_spec ctx r :
  receipts_ok ctx ->
  match receipts_push ctx r with
  | Ok ctx' => receipts_ok ctx' /\ rx_receipts ctx' = rx_receipts ctx ++ [r] /\
      zlen (rx_receipts ctx) < MAX_RECEIPTS /\
      (MAX_RECEIPTS - 2 <= zlen (rx_receipts ctx) ->
       is_script_result r = true \/ is_panic r = true) /\
      (MAX_RECEIPTS - 1 <= zlen (rx_receipts ctx) -> is_script_result r = true)
  | Err e => (e = Bug ReceiptsCtxFull /\ zlen (rx_receipts ctx) = MAX_RECEIPTS) \/
      (e = Recoverable TooManyReceipts /\ MAX_RECEIPTS - 2 <= zlen (rx_receipts ctx) /\
       is_script_result r = false)
  | Crash => False
  end.
Proof.
  intros [Hlen (chunks & Hok & Hcat)]. unfold receipts_push.
  destruct (Z.eqb_spec (zlen (rx_receipts ctx)) MAX_RECEIPTS) as [|Hne]; [by left|].
  destruct (calculator_push_spec (receipts_tree ctx) chunks (receipt_to_bytes r) Hok)
    as (tree & chunks' & Epush & Hok' & Hcat').
  { unfold chunks_len. rewrite Hcat, zlen_map. unfold MAX_RECEIPTS in *. lia. }
  rewrite Epush. case_if.
  - right. split; [done|]. destruct (is_script_result r), (is_panic r); cbn in E; lia.
  - split_and!; try done; try lia.
    split; cbn.
    + rewrite zlen_app. unfold zlen at 2. cbn. lia.
    + exists chunks'. split; [done|]. rewrite Hcat', Hcat. by rewrite map_app.
Qed.

Lemma receipts_root_spec ctx :
  receipts_ok ctx -> receipts_root ctx = Ok (mth (map receipt_to_bytes (rx_receipts ctx))).
Proof.
  intros [Hlen (chunks & Hok & Hcat)]. unfold receipts_root. rewrite <- Hcat.
  apply calculator_root_spec; [done|].
  unfold chunks_len. rewrite Hcat, zlen_map. unfold MAX_RECEIPTS in *. lia.
Qed.

Lemma receipts_push_Ok ctx r :
  receipts_ok ctx ->
  zlen (rx_receipts ctx) < MAX_RECEIPTS - 2 \/
  (zlen (rx_receipts ctx) < MAX_RECEIPTS - 1 /\ is_panic r = true) \/
  (zlen (rx_receipts ctx) < MAX_RECEIPTS /\ is_script_result r = true) ->
  exists ctx', receipts_push ctx r = Ok ctx' /\ receipts_ok ctx' /\
    rx_receipts ctx' = rx_receipts ctx ++ [r].
Proof.
  intros Hok Hc. pose proof (receipts_push_spec ctx r Hok) as H'.
  destruct (receipts_push ctx r) as [ctx'|e|] eqn:Ep; [naive_solver| |done].
  exfalso. destruct H' as [[_ ?]|(_ & ? & Hs)]; [lia|].
  unfold receipts_push in Ep. destruct Hc as [?|[[? Hp]|[? Hs']]]; [lia| |congruence].
  rewrite Hp, orb_true_r, andb_false_r, orb_false_r in Ep.
  repeat case_if_in Ep; try lia.
  destruct (calculator_push _ _); discriminate.
Qed.

(** The contexts a VM run produces. *)
Inductive receipts_reachable : ReceiptsCtx -> Prop :=
| reach_default : receipts_reachable receipts_default
| reach_push ctx r ctx' :
    receipts_reachable ctx -> receipts_push ctx r = Ok ctx' -> receipts_reachable ctx'
| reach_clear ctx : receipts_reachable ctx -> receipts_reachable (receipts_clear ctx).

Definition is_final (r : Receipt) : bool := is_script_result r || is_panic r.

Lemma receipts_reachable_ok ctx :
  receipts_reachable ctx ->
  receipts_ok ctx /\
  (Forall (fun r => is_final r = false) (rx_receipts ctx) ->
   zlen (rx_receipts ctx) <= MAX_RECEIPTS - 2).
Proof.
  induction 1 as [|ctx r ctx' Hr [Hok IH] Hp|ctx Hr IH].
  - split; [apply receipts_default_ok|]. cbn. unfold zlen, MAX_RECEIPTS. cbn. lia.
  - pose proof (receipts_push_spec ctx r Hok) as Hs. rewrite Hp in Hs.
    destruct Hs as (Hok' & Hrx & Hlt & H2 & _). split; [done|].
    rewrite Hrx, zlen_app, Forall_app, Forall_singleton. intros [Hf Hr'].
    unfold zlen at 2. cbn. apply IH in Hf. unfold is_final in Hr'.
    destruct (decide (MAX_RECEIPTS - 2 <= zlen (rx_receipts ctx))) as [Hge|]; [|lia].
    destruct (H2 Hge) as [Ht|Ht]; rewrite Ht in Hr'; [done|by rewrite orb_true_r in Hr'].
  - split; [apply receipts_default_ok|]. cbn. unfold zlen, MAX_RECEIPTS. cbn. lia.
Qed.

(** C31: the receipt log stays consistent with its Merkle root and always has room to finish.
    In every reachable context the root is the Merkle tree hash of the encoded receipts, in
    order, and rebuilding the tree from the list gives the same root; and as long as no final
    receipt has been appended, a panic receipt and then a script result can still be
    appended, however many receipts the program produced. *)
Theorem receipts_consistent (ctx : ReceiptsCtx) :
  receipts_reachable ctx ->
  receipts_root ctx = Ok (mth (map receipt_to_bytes (rx_receipts ctx))) /\
  (exists ctx', recalculate_root ctx = Ok ctx' /\ receipts_root ctx' = receipts_root ctx) /\
  (Forall (fun r => is_final r = false) (rx_receipts ctx) ->
   forall p s, is_panic p = true -> is_script_result s = true ->
   exists ctx1 ctx2, receipts_push ctx p = Ok ctx1 /\ receipts_push ctx1 s = Ok ctx2 /\
     rx_receipts ctx2 = rx_receipts ctx ++ [p; s]).
Proof.
  intros Hr. destruct (receipts_reachable_ok ctx Hr) as [Hok Hfin]. pose proof Hok as [Hlen _].
  split; [by apply receipts_root_spec|]. split.
  - unfold recalculate_root.
    destruct (calculator_push_all_spec (map receipt_to_bytes (rx_receipts ctx))
      calculator_new []) as (c & cs & -> & Hst & Hcat);
      [constructor|rewrite zlen_map; unfold MAX_RECEIPTS in *; unfold chunks_len, zlen at 1; cbn; lia|].
    cbn [obind]. eexists; split; [done|].
    rewrite (receipts_root_spec ctx Hok), receipts_root_spec; [done|].
    split; cbn; [done|]. by exists cs.
  - intros Hf p s Hp Hs. specialize (Hfin Hf).
    destruct (receipts_push_Ok ctx p Hok) as (c1 & E1 & Hok1 & Hr1); [lia|].
    destruct (receipts_push_Ok c1 s Hok1) as (c2 & E2 & _ & Hr2).
    { rewrite Hr1, zlen_app. unfold zlen at 2 4 6. cbn. lia. }
    exists c1, c2. split_and!; [done..|]. by rewrite Hr2, Hr1, <- app_assoc.
Qed.
End Receipts.

#[local] Instance sha_witness : Sha256 := fun l => x28 :: l ++ [x29].

Lemma receipts_consistent_witness :
  exists ctx, receipts_push receipts_default (Receipt_Return zeroed 1 0 0) = Ok ctx /\
    receipts_root ctx = Ok (mth [receipt_to_bytes (Receipt_Return zeroed 1 0 0)]).
Proof.
  destruct (receipts_push receipts_default (Receipt_Return zeroed 1 0 0)) as [ctx| |] eqn:E;
    [|vm_compute in E; discriminate|vm_compute in E; discriminate].
  exists ctx. split; [reflexivity|].
  destruct (receipts_consistent ctx (reach_push _ _ _ reach_default E)) as [H _].
  rewrite H. vm_compute in E. injection E as <-. reflexivity.
Defined.
