(* ===== verification/Memory.v ===== *)
(** * The VM memory: [MemoryInstance]

    The stack and heap buffers, their growth, range verification, reads and writes with and
    without ownership checks, [memcopy], and rollback
    (src/fuel-vm/src/interpreter/memory.rs). *)

From Stdlib Require Import Strings.Byte.
From S2P Require Import Prelude Asm.

(** ** Constants (consts.rs) *)
Definition VM_REGISTER_COUNT : Z := 64.
Definition VM_REGISTER_SYSTEM_COUNT : Z := 16.
Definition WORD_SIZE : Z := 8.
Definition VM_MAX_RAM : Z := 67108864.
Definition MEM_SIZE : Z := VM_MAX_RAM.

(** Arithmetic with the memory size. *)
Ltac mem_lia := unfold MEM_SIZE, VM_MAX_RAM in *; lia.

(** ** State *)
Record MemoryInstance : Type := mkMemory {
  stack : list byte;
  heap : list byte;
  mhp : Z
}.

Definition mem_new : MemoryInstance := mkMemory [] [] MEM_SIZE.

Definition reset (m : MemoryInstance) : MemoryInstance :=
  mkMemory (vec_truncate (stack m) 0) (heap m) MEM_SIZE.

Definition heap_offset (m : MemoryInstance) : Z := saturating_sub MEM_SIZE (zlen (heap m)).

(** ** Helpers for the slice operations of the standard library *)

(** [a - b] on unsigned integers in code that relies on [b <= a]. *)
Definition usub {E} (a b : Z) : outcome E Z := if b <=? a then Ok (a - b) else Crash.

(** [v[a..b].fill(x)]. *)
Definition vec_fill {E} (l : list byte) (a b : Z) (x : byte) : outcome E (list byte) :=
  if (0 <=? a) && (a <=? b) && (b <=? zlen l)
  then Ok (zsplice l a (replicate (Z.to_nat (b - a)) x)) else Crash.

(** [v.copy_within(a..b, dest)]. *)
Definition copy_within {E} (l : list byte) (a b dest : Z) : outcome E (list byte) :=
  if (0 <=? a) && (a <=? b) && (b <=? zlen l) && (0 <=? dest) && (dest + (b - a) <=? zlen l)
  then Ok (zsplice l dest (zslice l a b)) else Crash.

(** [v[a..b].copy_from_slice(d)]. *)
Definition copy_from_slice {E} (l : list byte) (a b : Z) (d : list byte)
  : outcome E (list byte) :=
  if (0 <=? a) && (a <=? b) && (b <=? zlen l) && (zlen d =? b - a)
  then Ok (zsplice l a d) else Crash.

(** [usize::next_power_of_two] and [Ord::clamp]. *)
Definition next_power_of_two (n : Z) : Z := 2 ^ Z.log2_up n.
Definition clamp (x lo hi : Z) : Z := Z.min (Z.max x lo) hi.

(** ** Growing the stack and the heap *)

Definition grow_stack (m : MemoryInstance) (new_sp : Z) : outcome PanicReason MemoryInstance :=
  if VM_MAX_RAM <? new_sp then Err MemoryOverflow
  else if zlen (stack m) <? new_sp then
    if mhp m <? new_sp then Err MemoryGrowthOverlap
    else Ok (mkMemory (vec_resize (stack m) new_sp x00) (heap m) (mhp m))
  else Ok m.

(** Returns the memory and the new value of the [$hp] register. *)
Definition grow_heap_by (m : MemoryInstance) (sp_reg amount : Z)
  : outcome PanicReason (MemoryInstance * Z) :=
  let? new_hp := ok_or (checked_sub (mhp m) amount) MemoryOverflow in
  if new_hp <? sp_reg then Err MemoryGrowthOverlap else
  let? new_len := usub MEM_SIZE new_hp in
  let? heap' :=
    if new_len <=? zlen (heap m) then
      let? start := usub new_hp (heap_offset m) in
      let? end_ := usub (mhp m) (heap_offset m) in
      vec_fill (heap m) start end_ x00
    else
      let? cleared :=
        match checked_sub (mhp m) (heap_offset m) with
        | Some end_ => vec_fill (heap m) 0 end_ x00
        | None => Ok (heap m)
        end in
      let cap := clamp (next_power_of_two new_len) 256 MEM_SIZE in
      let old_len := zlen cleared in
      let? prefix_zeroes := usub cap old_len in
      let resized := vec_resize cleared cap x00 in
      let? moved := copy_within resized 0 old_len prefix_zeroes in
      vec_fill moved 0 prefix_zeroes x00 in
  Ok (mkMemory (vec_truncate (stack m) new_hp) heap' new_hp, new_hp).

(** ** Ranges *)

Record MemoryRange : Type := mkRange { r_start : Z; r_end : Z }.

Definition range_new (start len : Z) : MemoryRange := mkRange start (saturating_add start len).
(** [Range::len] of a [Range<usize>]. *)
Definition range_len (r : MemoryRange) : Z :=
  if r_start r <? r_end r then r_end r - r_start r else 0.
Definition range_is_empty (r : MemoryRange) : bool := range_len r =? 0.

(** [ToAddr for Word] (and for [usize]): on a 64-bit target the conversion to [usize]
    cannot fail. *)
Definition to_addr (v : Z) : outcome PanicReason Z :=
  if MEM_SIZE <? v then Err MemoryOverflow else Ok v.

Definition verify (m : MemoryInstance) (addr count : Z) : outcome PanicReason MemoryRange :=
  let? start := to_addr addr in
  let? len := to_addr count in
  let end_ := saturating_add start len in
  if MEM_SIZE <? end_ then Err MemoryOverflow
  else if (end_ <=? zlen (stack m)) || (mhp m <=? start) then Ok (mkRange start end_)
  else Err UninitalizedMemoryAccess.

(** ** Reading *)

Definition read (m : MemoryInstance) (addr count : Z) : outcome PanicReason (list byte) :=
  let? range := verify m addr count in
  if r_end range <=? zlen (stack m) then index_range (stack m) (r_start range) (r_end range)
  else if heap_offset m <=? r_start range then
    let? start := usub (r_start range) (heap_offset m) in
    let? end_ := usub (r_end range) (heap_offset m) in
    index_range (heap m) start end_
  else Crash.

(** [read_bytes::<C>]: [copy_from_slice] checks the length. *)
Definition read_bytes (m : MemoryInstance) (at_ c : Z) : outcome PanicReason (list byte) :=
  let? bs := read m at_ c in
  if zlen bs =? c then Ok bs else Crash.

(** ** Writing

    A [&mut [u8]] into the memory is a region and an index range of its buffer. *)
Inductive Region : Type := StackRegion | HeapRegion.
Record SliceMut : Type := mkSlice { s_region : Region; s_start : Z; s_end : Z }.

Definition slice_len (s : SliceMut) : Z := s_end s - s_start s.

(** [slice.copy_from_slice(data)] and [slice.fill(x)]. *)
Definition slice_copy_from_slice (m : MemoryInstance) (s : SliceMut) (data : list byte)
  : outcome PanicReason MemoryInstance :=
  match s_region s with
  | StackRegion =>
      let? st := copy_from_slice (stack m) (s_start s) (s_end s) data in
      Ok (mkMemory st (heap m) (mhp m))
  | HeapRegion =>
      let? h := copy_from_slice (heap m) (s_start s) (s_end s) data in
      Ok (mkMemory (stack m) h (mhp m))
  end.
Definition slice_fill (m : MemoryInstance) (s : SliceMut) (x : byte)
  : outcome PanicReason MemoryInstance :=
  slice_copy_from_slice m s (replicate (Z.to_nat (slice_len s)) x).

Definition write_noownerchecks (m : MemoryInstance) (addr len : Z)
  : outcome PanicReason SliceMut :=
  let? range := verify m addr len in
  if r_end range <=? zlen (stack m) then
    Ok (mkSlice StackRegion (r_start range) (r_end range))
  else if heap_offset m <=? r_start range then
    let? start := usub (r_start range) (heap_offset m) in
    let? end_ := usub (r_end range) (heap_offset m) in
    Ok (mkSlice HeapRegion start end_)
  else Crash.

Definition write_bytes_noownerchecks (m : MemoryInstance) (addr : Z) (data : list byte)
  : outcome PanicReason MemoryInstance :=
  let? s := write_noownerchecks m addr (zlen data) in
  slice_copy_from_slice m s data.

(** ** Ownership *)

Record OwnershipRegisters : Type := mkOwner {
  o_sp : Z;
  o_ssp : Z;
  o_hp : Z;
  o_prev_hp : Z
}.

Definition only_allow_stack_write (sp ssp hp : Z) : OwnershipRegisters :=
  mkOwner sp ssp hp hp.

Definition has_ownership_stack (o : OwnershipRegisters) (r : MemoryRange) : bool :=
  if negb (r_start r <? r_end r) && (r_start r =? o_ssp o) then true
  else if negb ((o_ssp o <=? r_start r) && (r_start r <? o_sp o)) then false
  else if VM_MAX_RAM <? r_end r then false
  else (o_ssp o <=? r_end r) && (r_end r <=? o_sp o).

Definition has_ownership_heap (o : OwnershipRegisters) (r : MemoryRange) : bool :=
  if negb (r_start r <? r_end r) && (r_start r =? o_hp o) then true
  else if r_start r <? o_hp o then false
  else negb (o_hp o =? o_prev_hp o) && (r_end r <=? o_prev_hp o).

Definition has_ownership_range (o : OwnershipRegisters) (r : MemoryRange) : bool :=
  has_ownership_stack o r || has_ownership_heap o r.

Definition verify_ownership (o : OwnershipRegisters) (r : MemoryRange)
  : outcome PanicReason unit :=
  if has_ownership_range o r then Ok tt else Err MemoryOwnership.

Definition write (m : MemoryInstance) (owner : OwnershipRegisters) (addr len : Z)
  : outcome PanicReason SliceMut :=
  let? range := verify m addr len in
  let? _ := verify_ownership owner range in
  write_noownerchecks m (r_start range) (range_len range).

Definition write_bytes (m : MemoryInstance) (owner : OwnershipRegisters) (addr : Z)
    (data : list byte) : outcome PanicReason MemoryInstance :=
  let? s := write m owner addr (zlen data) in
  slice_copy_from_slice m s data.

(** ** [memcopy] *)

(** The test that rejects a copy between intersecting ranges. *)
Definition ranges_overlap (dst src : MemoryRange) : bool :=
  (r_start dst <=? r_start src) && (r_start src <? r_end dst)
  || (r_start src <=? r_start dst) && (r_start dst <? r_end src)
  || (r_start dst <? r_end src) && (r_end src <=? r_end dst)
  || (r_start src <? r_end dst) && (r_end dst <=? r_end src).

Definition memcopy (m : MemoryInstance) (dst src length : Z) (owner : OwnershipRegisters)
  : outcome PanicReason MemoryInstance :=
  let? dst_range := verify m dst length in
  let? src_range := verify m src length in
  if ranges_overlap dst_range src_range then Err MemoryWriteOverlap else
  let? _ := verify_ownership owner dst_range in
  if r_end src_range <=? zlen (stack m) then
    if r_end dst_range <=? zlen (stack m) then
      let? st := copy_within (stack m) (r_start src_range) (r_end src_range)
                   (r_start dst_range) in
      Ok (mkMemory st (heap m) (mhp m))
    else if heap_offset m <=? r_start dst_range then
      let? dst_start := usub (r_start dst_range) (heap_offset m) in
      let? dst_end := usub (r_end dst_range) (heap_offset m) in
      let? src_array := index_range (stack m) (r_start src_range) (r_end src_range) in
      let? h := copy_from_slice (heap m) dst_start dst_end src_array in
      Ok (mkMemory (stack m) h (mhp m))
    else Crash
  else if heap_offset m <=? r_start src_range then
    let? src_start := usub (r_start src_range) (heap_offset m) in
    let? src_end := usub (r_end src_range) (heap_offset m) in
    if r_end dst_range <=? zlen (stack m) then
      let? src_array := index_range (heap m) src_start src_end in
      let? st := copy_from_slice (stack m) (r_start dst_range) (r_end dst_range) src_array in
      Ok (mkMemory st (heap m) (mhp m))
    else if heap_offset m <=? r_start dst_range then
      let? dst_start := usub (r_start dst_range) (heap_offset m) in
      let? h := copy_within (heap m) src_start src_end dst_start in
      Ok (mkMemory (stack m) h (mhp m))
    else Crash
  else Crash.

(** ** Equality of the accessible memory ([PartialEq]) *)

Definition mem_eqb (m other : MemoryInstance) : outcome PanicReason bool :=
  if bool_decide (stack m = stack other) && (mhp m =? mhp other) then
    let? self_hs := usub (mhp m) (heap_offset m) in
    let? other_hs := usub (mhp other) (heap_offset other) in
    let? h := index_range (heap m) self_hs (zlen (heap m)) in
    let? h' := index_range (heap other) other_hs (zlen (heap other)) in
    Ok (bool_decide (h = h'))
  else Ok false.

(** ** Rollback *)

Record MemorySliceChange : Type := mkChange { global_start : Z; change_data : list byte }.

Record MemoryRollbackData : Type := mkRollback {
  rb_sp : Z;
  rb_hp : Z;
  stack_changes : list MemorySliceChange;
  heap_changes : list MemorySliceChange
}.

(** Close the pending range of differing bytes. *)
Definition push_change (desired_array : list byte) (offset : Z)
    (changes : list MemorySliceChange) (range : option (Z * Z))
  : outcome PanicReason (list MemorySliceChange) :=
  match range with
  | Some (start, count) =>
      let? d := index_range desired_array start (saturating_add start count) in
      Ok (changes ++ [mkChange (saturating_add offset start) d])
  | None => Ok changes
  end.

(** The loop of [get_changes] over the zipped arrays from index [i] on. *)
Fixpoint get_changes_loop (desired_array : list byte) (offset i : Z)
    (zipped : list (byte * byte)) (changes : list MemorySliceChange)
    (range : option (Z * Z)) : outcome PanicReason (list MemorySliceChange) :=
  match zipped with
  | [] => push_change desired_array offset changes range
  | (old, new) :: rest =>
      if negb (bool_decide (old = new)) then
        get_changes_loop desired_array offset (i + 1) rest changes
          (match range with
           | None => Some (i, 1)
           | Some (start, count) => Some (start, saturating_add count 1)
           end)
      else
        let? changes' := push_change desired_array offset changes range in
        get_changes_loop desired_array offset (i + 1) rest changes' None
  end.

Definition get_changes (latest_array desired_array : list byte) (offset : Z)
  : outcome PanicReason (list MemorySliceChange) :=
  get_changes_loop desired_array offset 0 (zip latest_array desired_array) [] None.

Definition collect_rollback_data (m desired : MemoryInstance)
  : outcome PanicReason (option MemoryRollbackData) :=
  let? same := mem_eqb m desired in
  if (same : bool) then Ok None else
  let sp := zlen (stack desired) in
  let hp := mhp desired in
  if negb (mhp m <=? hp) then Crash else
  let? latest_stack := index_range (stack m) 0 sp in
  let? desired_stack := index_range (stack desired) 0 sp in
  let? stack_changes := get_changes latest_stack desired_stack 0 in
  let? heap_start := expect (checked_sub hp (heap_offset m)) in
  let? h := index_range (heap m) heap_start (zlen (heap m)) in
  let? desired_heap_start := expect (checked_sub hp (heap_offset desired)) in
  let? desired_heap :=
    index_range (heap desired) desired_heap_start (zlen (heap desired)) in
  let? heap_changes := get_changes h desired_heap hp in
  Ok (Some (mkRollback sp hp stack_changes heap_changes)).

(** The two loops of [rollback]. *)
Fixpoint rollback_stack (st : list byte) (changes : list MemorySliceChange)
  : outcome PanicReason (list byte) :=
  match changes with
  | [] => Ok st
  | c :: rest =>
      let? st' := copy_from_slice st (global_start c)
        (saturating_add (global_start c) (zlen (change_data c))) (change_data c) in
      rollback_stack st' rest
  end.

Fixpoint rollback_heap (offset : Z) (h : list byte) (changes : list MemorySliceChange)
  : outcome PanicReason (list byte) :=
  match changes with
  | [] => Ok h
  | c :: rest =>
      let? local_start := expect (checked_sub (global_start c) offset) in
      let? h' := copy_from_slice h local_start
        (saturating_add local_start (zlen (change_data c))) (change_data c) in
      rollback_heap offset h' rest
  end.

Definition rollback (m : MemoryInstance) (data : MemoryRollbackData)
  : outcome PanicReason MemoryInstance :=
  let resized := vec_resize (stack m) (rb_sp data) x00 in
  if negb (mhp m <=? rb_hp data) then Crash else
  let? st := rollback_stack resized (stack_changes data) in
  let? h := rollback_heap (heap_offset m) (heap m) (heap_changes data) in
  Ok (mkMemory st h (rb_hp data)).

(** ** Well-formedness and the abstract view

    The heap buffer may be larger than the live heap [[hp, MEM_SIZE)] (it is kept across
    resets and grown geometrically); the stack buffer never reaches into the live heap. *)
Record mem_wf (m : MemoryInstance) : Prop := {
  wf_hp : 0 <= mhp m <= MEM_SIZE;
  wf_stack : zlen (stack m) <= mhp m;
  wf_heap : MEM_SIZE - mhp m <= zlen (heap m) <= MEM_SIZE
}.

(** What the program sees at an address: a byte of the stack, a byte of the live heap, or
    nothing. *)
Definition mem_get (m : MemoryInstance) (a : Z) : option byte :=
  if a <? zlen (stack m) then zget (stack m) a
  else if mhp m <=? a then zget (heap m) (a - heap_offset m)
  else None.

Definition accessible (m : MemoryInstance) (a n : Z) : Prop :=
  0 <= a /\ 0 <= n /\ a + n <= MEM_SIZE /\ (a + n <= zlen (stack m) \/ mhp m <= a).

(** Same buffer sizes and heap pointer. *)
Definition same_shape (m m' : MemoryInstance) : Prop :=
  zlen (stack m') = zlen (stack m) /\ zlen (heap m') = zlen (heap m) /\ mhp m' = mhp m.

(** [m'] is [m] with the bytes [d] at address [a]. *)
Definition mem_upd (m : MemoryInstance) (a : Z) (d : list byte) (m' : MemoryInstance) : Prop :=
  same_shape m m' /\
  forall x, mem_get m' x =
    if (a <=? x) && (x <? a + zlen d) then zget d (x - a) else mem_get m x.

Lemma heap_offset_wf m : mem_wf m -> heap_offset m = MEM_SIZE - zlen (heap m).
Proof. intros []. unfold heap_offset, saturating_sub. lia. Qed.

Lemma same_shape_wf m m' : same_shape m m' -> mem_wf m -> mem_wf m'.
Proof. intros (Hs & Hh & Hp) []. split; rewrite ?Hs, ?Hh, ?Hp; lia. Qed.

Lemma same_shape_accessible m m' a n :
  same_shape m m' -> accessible m a n -> accessible m' a n.
Proof. intros (Hs & Hh & Hp). unfold accessible. rewrite Hs, Hp. done. Qed.

Lemma mem_new_wf : mem_wf mem_new.
Proof. split; cbn; unfold zlen; cbn; mem_lia. Qed.

Lemma reset_wf m : mem_wf m -> mem_wf (reset m).
Proof.
  intros []. split; cbn; rewrite ?zlen_truncate by lia; mem_lia.
Qed.

(** Nothing is visible after a reset, whatever the buffers still hold. *)
Lemma reset_get m a : mem_wf m -> mem_get (reset m) a = None.
Proof.
  intros Hm. unfold mem_get. rewrite heap_offset_wf by by apply reset_wf.
  destruct Hm. cbn. rewrite zlen_truncate, zget_truncate by lia.
  repeat case_if; try done; apply zget_None; lia.
Qed.

#[export] Hint Resolve mem_new_wf reset_wf same_shape_wf : fuel.

Lemma verify_Ok m a n :
  0 <= a -> 0 <= n -> accessible m a n -> verify m a n = Ok (mkRange a (a + n)).
Proof.
  intros Ha Hn (_ & _ & Hle & Hor). unfold verify, to_addr, obind, saturating_add.
  repeat (case_if; try mem_lia). rewrite Z.min_l by mem_lia. done.
Qed.

Lemma verify_inv m a n r :
  0 <= a -> 0 <= n -> verify m a n = Ok r -> accessible m a n /\ r = mkRange a (a + n).
Proof.
  intros Ha Hn. unfold verify, to_addr, obind, saturating_add.
  repeat (case_if; try done). intros [= <-].
  rewrite Z.min_l in * by mem_lia. split; [|done]. unfold accessible. lia.
Qed.

Lemma verify_Err m a n :
  0 <= a -> 0 <= n -> ~ accessible m a n ->
  verify m a n =
    Err (if (MEM_SIZE <? a + n) then MemoryOverflow else UninitalizedMemoryAccess).
Proof.
  intros Ha Hn Hacc. unfold verify, to_addr, obind, saturating_add.
  repeat (case_if; try done; try lia); exfalso; apply Hacc; unfold accessible; mem_lia.
Qed.

Lemma accessible_dec m a n : Decision (accessible m a n).
Proof. unfold accessible. apply _. Qed.
#[export] Existing Instance accessible_dec.

(** A slice denotes the addresses [[a, a + n)]. *)
Definition slice_denotes (m : MemoryInstance) (s : SliceMut) (a n : Z) : Prop :=
  0 <= a /\ 0 <= n /\
  match s_region s with
  | StackRegion => s_start s = a /\ s_end s = a + n /\ a + n <= zlen (stack m)
  | HeapRegion => s_start s = a - heap_offset m /\ s_end s = a + n - heap_offset m /\
      mhp m <= a /\ a + n <= MEM_SIZE
  end.

Lemma write_noownerchecks_Ok m a n :
  mem_wf m -> accessible m a n ->
  exists s, write_noownerchecks m a n = Ok s /\ slice_denotes m s a n.
Proof.
  intros Hm Hacc. pose proof (heap_offset_wf m Hm) as Ho. destruct Hm.
  destruct Hacc as (Ha & Hn & Hle & Hor) eqn:E. clear E.
  unfold write_noownerchecks. rewrite verify_Ok by (unfold accessible; lia). cbn.
  case_if.
  - eexists; split; [done|]. unfold slice_denotes; cbn. lia.
  - rewrite (proj2 (Z.leb_le _ _)) by lia.
    unfold usub. rewrite !(proj2 (Z.leb_le _ _)) by lia. cbn.
    eexists; split; [done|]. unfold slice_denotes; cbn. lia.
Qed.

Lemma write_noownerchecks_inv m a n s :
  mem_wf m -> 0 <= a -> 0 <= n -> write_noownerchecks m a n = Ok s ->
  accessible m a n /\ slice_denotes m s a n.
Proof.
  intros Hm Ha Hn H. destruct (decide (accessible m a n)) as [Hacc|Hacc].
  - destruct (write_noownerchecks_Ok m a n Hm Hacc) as (s' & Hs' & Hd). split; [done|congruence].
  - unfold write_noownerchecks in H. rewrite verify_Err in H by done. done.
Qed.

Lemma write_noownerchecks_no_crash m a n :
  mem_wf m -> 0 <= a -> 0 <= n -> write_noownerchecks m a n <> Crash.
Proof.
  intros Hm Ha Hn. destruct (decide (accessible m a n)) as [Hacc|Hacc].
  - destruct (write_noownerchecks_Ok m a n Hm Hacc) as (s & -> & _). done.
  - unfold write_noownerchecks. by rewrite verify_Err.
Qed.

Lemma slice_copy_Ok m s a n d :
  mem_wf m -> slice_denotes m s a n -> zlen d = n ->
  exists m', slice_copy_from_slice m s d = Ok m' /\ mem_upd m a d m'.
Proof.
  intros Hm (Ha & Hn & Hs) Hd. pose proof (heap_offset_wf m Hm) as Ho. destruct Hm.
  unfold slice_copy_from_slice, copy_from_slice. destruct (s_region s).
  - destruct Hs as (-> & -> & Hle).
    rewrite !(proj2 (Z.leb_le _ _)), (proj2 (Z.eqb_eq _ _)) by lia. cbn.
    eexists; split; [done|]. split; [split_and!; cbn; rewrite ?zlen_splice; lia|].
    intros x. unfold mem_get, heap_offset. cbn. rewrite zlen_splice, zget_splice by lia.
    repeat case_if; try done; lia.
  - destruct Hs as (-> & -> & Hle & Hm).
    rewrite !(proj2 (Z.leb_le _ _)), (proj2 (Z.eqb_eq _ _)) by lia. cbn.
    eexists; split; [done|]. split; [split_and!; cbn; rewrite ?zlen_splice; lia|].
    intros x. unfold mem_get, heap_offset, saturating_sub in *. cbn.
    rewrite zlen_splice, zget_splice by lia.
    repeat case_if; try done; try lia. f_equal. lia.
Qed.

(** ** Reads *)

(** [bs] are the bytes visible at [[a, a + zlen bs)]. *)
Definition mem_shows (m : MemoryInstance) (a : Z) (bs : list byte) : Prop :=
  forall i, 0 <= i < zlen bs -> mem_get m (a + i) = zget bs i.

Lemma mem_shows_inj m a bs bs' :
  mem_shows m a bs -> mem_shows m a bs' -> zlen bs = zlen bs' -> bs = bs'.
Proof.
  intros H H' Hl. apply zlist_eq; [done|]. intros i Hi. rewrite <- H, H' by lia. done.
Qed.

Lemma read_Ok m a n :
  mem_wf m -> accessible m a n ->
  exists bs, read m a n = Ok bs /\ zlen bs = n /\ mem_shows m a bs.
Proof.
  intros Hm Hacc. pose proof (heap_offset_wf m Hm) as Ho. destruct Hm.
  assert (Hacc' := Hacc). destruct Hacc' as (Ha & Hn & Hle & Hor).
  unfold read. rewrite verify_Ok by done. cbn. case_if.
  - rewrite index_range_Ok by lia. eexists; split; [done|].
    rewrite zlen_slice by lia. split; [lia|]. intros i Hi. rewrite zlen_slice in Hi by lia.
    rewrite zget_slice by lia. unfold mem_get. repeat case_if; try lia. done.
  - rewrite (proj2 (Z.leb_le _ _)) by lia.
    unfold usub. rewrite !(proj2 (Z.leb_le _ _)) by lia. cbn.
    rewrite index_range_Ok by lia. eexists; split; [done|].
    rewrite zlen_slice by lia. split; [lia|]. intros i Hi. rewrite zlen_slice in Hi by lia.
    rewrite zget_slice by lia. unfold mem_get. repeat case_if; try lia. f_equal. lia.
Qed.

Lemma read_Err m a n :
  0 <= a -> 0 <= n -> ~ accessible m a n ->
  read m a n = Err (if MEM_SIZE <? a + n then MemoryOverflow else UninitalizedMemoryAccess).
Proof. intros. unfold read. by rewrite verify_Err. Qed.

Lemma read_inv m a n bs :
  mem_wf m -> 0 <= a -> 0 <= n -> read m a n = Ok bs ->
  accessible m a n /\ zlen bs = n /\ mem_shows m a bs.
Proof.
  intros Hm Ha Hn H. destruct (decide (accessible m a n)) as [Hacc|Hacc].
  - destruct (read_Ok m a n Hm Hacc) as (bs' & Hb & Hl & Hs).
    rewrite H in Hb. by simplify_eq.
  - rewrite read_Err in H by done. done.
Qed.

Lemma read_no_crash m a n : mem_wf m -> 0 <= a -> 0 <= n -> read m a n <> Crash.
Proof.
  intros Hm Ha Hn. destruct (decide (accessible m a n)) as [Hacc|Hacc].
  - destruct (read_Ok m a n Hm Hacc) as (bs & -> & _). done.
  - by rewrite read_Err.
Qed.

Lemma read_bytes_eq m a n :
  mem_wf m -> 0 <= a -> 0 <= n -> read_bytes m a n = read m a n.
Proof.
  intros Hm Ha Hn. unfold read_bytes.
  destruct (read m a n) as [bs| |] eqn:E; [|done|done]. cbn.
  apply read_inv in E as (_ & -> & _); [|done..]. by rewrite Z.eqb_refl.
Qed.

(** ** Writes *)

Lemma mem_upd_wf m a d m' : mem_upd m a d m' -> mem_wf m -> mem_wf m'.
Proof. intros [? _]. eauto with fuel. Qed.

Lemma mem_upd_shows m a d m' : mem_upd m a d m' -> mem_shows m' a d.
Proof.
  intros [_ H] i Hi. rewrite H. replace (a + i - a) with i by lia. case_if; [done|lia].
Qed.

Lemma mem_upd_frame m a d m' b bs :
  mem_upd m a d m' -> mem_shows m b bs ->
  b + zlen bs <= a \/ a + zlen d <= b -> mem_shows m' b bs.
Proof.
  intros [_ H] Hb Hdis i Hi. rewrite H. case_if; [lia|]. by apply Hb.
Qed.

Lemma write_bytes_noownerchecks_Ok m a d :
  mem_wf m -> accessible m a (zlen d) ->
  exists m', write_bytes_noownerchecks m a d = Ok m' /\ mem_upd m a d m'.
Proof.
  intros Hm Hacc. unfold write_bytes_noownerchecks.
  destruct (write_noownerchecks_Ok m a _ Hm Hacc) as (s & -> & Hs). cbn.
  by apply (slice_copy_Ok m s a (zlen d) d).
Qed.

(** The addresses a context may write: its own stack frame and the heap it allocated. *)
Definition owned (o : OwnershipRegisters) (x : Z) : Prop :=
  o_ssp o <= x < o_sp o \/ o_hp o <= x < o_prev_hp o.

Lemma has_ownership_range_owned o a n x :
  has_ownership_range o (mkRange a (a + n)) = true -> a <= x < a + n -> owned o x.
Proof.
  unfold has_ownership_range, has_ownership_stack, has_ownership_heap, owned. cbn.
  intros H Hx. repeat case_if_in H; lia.
Qed.

Lemma write_Ok m o a n :
  mem_wf m -> accessible m a n -> has_ownership_range o (mkRange a (a + n)) = true ->
  exists s, write m o a n = Ok s /\ slice_denotes m s a n.
Proof.
  intros Hm Hacc Hown. assert (Hacc' := Hacc). destruct Hacc' as (Ha & Hn & _).
  unfold write. rewrite verify_Ok by done. cbn.
  unfold verify_ownership. rewrite Hown. cbn. unfold range_len. cbn.
  replace (if a <? a + n then a + n - a else 0) with n by (case_if; lia).
  by apply write_noownerchecks_Ok.
Qed.

Lemma write_inv m o a n s :
  mem_wf m -> 0 <= a -> 0 <= n -> write m o a n = Ok s ->
  accessible m a n /\ has_ownership_range o (mkRange a (a + n)) = true /\
  slice_denotes m s a n.
Proof.
  intros Hm Ha Hn H. destruct (decide (accessible m a n)) as [Hacc|Hacc].
  - split; [done|]. destruct (has_ownership_range o (mkRange a (a + n))) eqn:Hown.
    + split; [done|]. destruct (write_Ok m o a n Hm Hacc Hown) as (s' & Hs & Hd). congruence.
    + unfold write in H. rewrite verify_Ok in H by done. cbn in H.
      unfold verify_ownership in H. rewrite Hown in H. done.
  - unfold write in H. rewrite verify_Err in H by done. done.
Qed.

Lemma write_no_crash m o a n : mem_wf m -> 0 <= a -> 0 <= n -> write m o a n <> Crash.
Proof.
  intros Hm Ha Hn. destruct (decide (accessible m a n)) as [Hacc|Hacc].
  - destruct (has_ownership_range o (mkRange a (a + n))) eqn:Hown.
    + destruct (write_Ok m o a n Hm Hacc Hown) as (s & -> & _). done.
    + unfold write. rewrite verify_Ok by done. cbn. unfold verify_ownership. by rewrite Hown.
  - unfold write. by rewrite verify_Err.
Qed.

(** Every [write_bytes] either updates exactly the addressed, owned range, or reports an
    error. *)
Lemma write_bytes_spec m o a d :
  mem_wf m -> 0 <= a ->
  match write_bytes m o a d with
  | Ok m' => accessible m a (zlen d) /\ mem_upd m a d m' /\
             has_ownership_range o (mkRange a (a + zlen d)) = true
  | Err e => e = MemoryOverflow \/ e = UninitalizedMemoryAccess \/ e = MemoryOwnership
  | Crash => False
  end.
Proof.
  intros Hm Ha. unfold write_bytes. pose proof (zlen_nonneg d).
  destruct (write m o a (zlen d)) as [s|e|] eqn:E.
  - apply write_inv in E as (Hacc & Hown & Hs); [|done..]. cbn.
    destruct (slice_copy_Ok m s a (zlen d) d Hm Hs eq_refl) as (m' & -> & Hu). done.
  - cbn. unfold write in E. destruct (decide (accessible m a (zlen d))) as [Hacc|Hacc].
    + rewrite verify_Ok in E by done. cbn in E. unfold verify_ownership in E.
      case_if_in E; cbn in E.
      * unfold range_len in E; cbn in E.
        replace (if a <? a + zlen d then a + zlen d - a else 0) with (zlen d) in E
          by (case_if; lia).
        destruct (write_noownerchecks_Ok m a _ Hm Hacc) as (s & Hs & _). congruence.
      * naive_solver.
    + rewrite verify_Err in E by done. cbn in E. simplify_eq. case_if; auto.
  - by apply write_no_crash in E.
Qed.

(** ** [memcopy] *)

Lemma ranges_overlap_spec d s n :
  0 <= n ->
  ranges_overlap (mkRange d (d + n)) (mkRange s (s + n)) = true <->
  exists x, d <= x < d + n /\ s <= x < s + n.
Proof.
  intros Hn. unfold ranges_overlap. cbn. split.
  - intros H. exists (Z.max d s). zbool. lia.
  - intros (x & Hd & Hs). apply not_false_iff_true. intros H. zbool. lia.
Qed.

Lemma mem_get_stack m x : x < zlen (stack m) -> mem_get m x = zget (stack m) x.
Proof. intros. unfold mem_get. case_if; [done|lia]. Qed.

Lemma mem_get_heap m x :
  mem_wf m -> mhp m <= x -> mem_get m x = zget (heap m) (x - heap_offset m).
Proof. intros [] ?. unfold mem_get. repeat case_if; done || lia. Qed.

(** Splicing at a denoted slice is an update of the view. *)
Lemma stack_splice_upd m a d :
  mem_wf m -> 0 <= a -> a + zlen d <= zlen (stack m) ->
  mem_upd m a d (mkMemory (zsplice (stack m) a d) (heap m) (mhp m)).
Proof.
  intros Hm Ha Hd.
  destruct (slice_copy_Ok m (mkSlice StackRegion a (a + zlen d)) a (zlen d) d) as (m' & E & Hu).
  - done.
  - unfold slice_denotes; cbn. pose proof (zlen_nonneg d). lia.
  - done.
  - unfold slice_copy_from_slice, copy_from_slice in E. cbn in E.
    case_if_in E; [|done]. cbn in E. by injection E as <-.
Qed.

Lemma heap_splice_upd m a d :
  mem_wf m -> mhp m <= a -> a + zlen d <= MEM_SIZE ->
  mem_upd m a d (mkMemory (stack m) (zsplice (heap m) (a - heap_offset m) d) (mhp m)).
Proof.
  intros Hm Ha Hd.
  destruct (slice_copy_Ok m
    (mkSlice HeapRegion (a - heap_offset m) (a + zlen d - heap_offset m)) a (zlen d) d)
    as (m' & E & Hu).
  - done.
  - unfold slice_denotes; cbn. pose proof (zlen_nonneg d). destruct Hm. lia.
  - done.
  - unfold slice_copy_from_slice, copy_from_slice in E. cbn in E.
    case_if_in E; [|done]. cbn in E. by injection E as <-.
Qed.

Lemma stack_slice_shows m a b :
  mem_wf m -> 0 <= a <= b -> b <= zlen (stack m) -> mem_shows m a (zslice (stack m) a b).
Proof.
  intros Hm Ha Hb i Hi. rewrite zlen_slice in Hi by lia.
  rewrite zget_slice, mem_get_stack by lia. case_if; [done|lia].
Qed.

Lemma heap_slice_shows m a b :
  mem_wf m -> mhp m <= a <= b -> b <= MEM_SIZE ->
  mem_shows m a (zslice (heap m) (a - heap_offset m) (b - heap_offset m)).
Proof.
  intros Hm Ha Hb i. pose proof (heap_offset_wf m Hm). assert (Hm' := Hm). destruct Hm'.
  rewrite zlen_slice by lia. intros Hi.
  rewrite zget_slice by lia. rewrite mem_get_heap by (done || lia).
  case_if; [f_equal; lia|lia].
Qed.

(** The memory with [d] written at [a], in whichever buffer holds that range. *)
Definition mem_after_copy (m : MemoryInstance) (a : Z) (d : list byte) : MemoryInstance :=
  if a + zlen d <=? zlen (stack m) then mkMemory (zsplice (stack m) a d) (heap m) (mhp m)
  else mkMemory (stack m) (zsplice (heap m) (a - heap_offset m) d) (mhp m).

Lemma mem_after_copy_upd m a d :
  mem_wf m -> accessible m a (zlen d) -> mem_upd m a d (mem_after_copy m a d).
Proof.
  intros Hm (? & ? & ? & ?). unfold mem_after_copy. case_if.
  - by apply stack_splice_upd.
  - apply heap_splice_upd; done || lia.
Qed.

Lemma memcopy_Ok m dst src n o :
  mem_wf m -> accessible m dst n -> accessible m src n ->
  (forall x, ~ (dst <= x < dst + n /\ src <= x < src + n)) ->
  has_ownership_range o (mkRange dst (dst + n)) = true ->
  exists m' bs, memcopy m dst src n o = Ok m' /\ zlen bs = n /\
    mem_shows m src bs /\ mem_upd m dst bs m'.
Proof.
  intros Hm Hd Hs Hdis Hown. unfold memcopy.
  assert (Hd' := Hd). assert (Hs' := Hs).
  destruct Hd' as (? & Hn & ? & ?), Hs' as (? & _ & ? & ?).
  rewrite (verify_Ok m dst), (verify_Ok m src) by done. cbn.
  destruct (ranges_overlap _ _) eqn:Ho.
  { apply ranges_overlap_spec in Ho as (x & ? & ?); [|lia]. exfalso. by apply (Hdis x). }
  unfold verify_ownership. rewrite Hown. cbn.
  pose proof (heap_offset_wf m Hm). assert (Hm' := Hm). destruct Hm'.
  unfold usub, copy_within, copy_from_slice, index_range.
  destruct (src + n <=? zlen (stack m)) eqn:Es; zbool.
  - exists (mem_after_copy m dst (zslice (stack m) src (src + n))),
      (zslice (stack m) src (src + n)).
    assert (Hl : zlen (zslice (stack m) src (src + n)) = n) by (rewrite zlen_slice; lia).
    rewrite Hl. split_and!; [|done|apply stack_slice_shows; done || lia|
      apply mem_after_copy_upd; [done|by rewrite Hl]].
    unfold mem_after_copy. rewrite Hl. repeat (case_if; cbn; try lia); done.
  - exists (mem_after_copy m dst (zslice (heap m) (src - heap_offset m)
        (src + n - heap_offset m))),
      (zslice (heap m) (src - heap_offset m) (src + n - heap_offset m)).
    assert (Hl : zlen (zslice (heap m) (src - heap_offset m) (src + n - heap_offset m)) = n)
      by (rewrite zlen_slice; lia).
    rewrite Hl. split_and!; [|done|apply heap_slice_shows; done || lia|
      apply mem_after_copy_upd; [done|by rewrite Hl]].
    unfold mem_after_copy. rewrite Hl. repeat (case_if; cbn; try lia); done.
Qed.

(** ** Growth *)

Lemma grow_stack_spec m new_sp :
  mem_wf m -> 0 <= new_sp ->
  match grow_stack m new_sp with
  | Ok m' => mem_wf m' /\ new_sp <= VM_MAX_RAM /\ mhp m' = mhp m /\
      zlen (stack m') = Z.max new_sp (zlen (stack m)) /\
      (forall x, mem_get m' x =
         if (zlen (stack m) <=? x) && (x <? new_sp) then Some x00 else mem_get m x)
  | Err e => e = (if VM_MAX_RAM <? new_sp then MemoryOverflow else MemoryGrowthOverlap) /\
      mhp m < new_sp
  | Crash => False
  end.
Proof.
  intros Hm Hsp. assert (Hm' := Hm). destruct Hm'. unfold grow_stack.
  repeat case_if.
  - split; [done|mem_lia].
  - done.
  - cbn. split_and!; cbn; rewrite ?zlen_resize by lia; try lia; try done.
    + split; cbn; rewrite ?zlen_resize by lia; lia.
    + intros x. unfold mem_get. cbn. rewrite zlen_resize, zget_resize by lia.
      pose proof (zlen_nonneg (stack m)). unfold heap_offset; cbn.
      repeat case_if; try done; try lia. symmetry. apply zget_None. lia.
  - split_and!; try done; try lia. intros x. case_if; [lia|done].
Qed.

Lemma next_power_of_two_ge n : n <= next_power_of_two n.
Proof.
  unfold next_power_of_two. destruct (decide (n <= 1)).
  - rewrite Z.log2_up_eqn0 by lia. lia.
  - pose proof (Z.log2_up_spec n ltac:(lia)). lia.
Qed.

Lemma vec_fill_spec {E} (l : list byte) a b x :
  0 <= a <= b -> b <= zlen l ->
  exists l', vec_fill (E := E) l a b x = Ok l' /\ zlen l' = zlen l /\
    forall i, zget l' i = if (a <=? i) && (i <? b) then Some x else zget l i.
Proof.
  intros Ha Hb. unfold vec_fill. case_if; [|lia]. eexists; split; [done|].
  assert (Hl : zlen (replicate (Z.to_nat (b - a)) x) = b - a) by (rewrite zlen_replicate; lia).
  split; [apply zlen_splice; lia|]. intros i.
  rewrite zget_splice, Hl, zget_replicate by lia. repeat case_if; done || lia.
Qed.

Lemma copy_within_spec {E} (l : list byte) a b d :
  0 <= a <= b -> b <= zlen l -> 0 <= d -> d + (b - a) <= zlen l ->
  exists l', copy_within (E := E) l a b d = Ok l' /\ zlen l' = zlen l /\
    forall i, zget l' i =
      if (d <=? i) && (i <? d + (b - a)) then zget l (a + (i - d)) else zget l i.
Proof.
  intros Ha Hb Hd Hdb. unfold copy_within. case_if; [|lia]. eexists; split; [done|].
  assert (Hl : zlen (zslice l a b) = b - a) by by apply zlen_slice.
  split; [apply zlen_splice; lia|]. intros i.
  rewrite zget_splice, Hl, zget_slice by lia. repeat case_if; done || lia.
Qed.

(** [heap'] is the buffer after the heap has grown to [new_hp]: bytes at and above the old
    heap pointer are kept, those between the new and the old one are zero. *)
Definition heap_grown (m : MemoryInstance) (new_hp : Z) (heap' : list byte) : Prop :=
  MEM_SIZE - new_hp <= zlen heap' <= MEM_SIZE /\
  forall x, new_hp <= x < MEM_SIZE ->
    zget heap' (x - (MEM_SIZE - zlen heap')) =
      if x <? mhp m then Some x00 else mem_get m x.

Lemma heap_grown_in_place m new_hp :
  mem_wf m -> 0 <= new_hp <= mhp m -> MEM_SIZE - new_hp <= zlen (heap m) ->
  exists h', vec_fill (E := PanicReason) (heap m) (new_hp - heap_offset m)
      (mhp m - heap_offset m) x00 = Ok h' /\ heap_grown m new_hp h'.
Proof.
  intros Hm Hhp Hlen. pose proof (heap_offset_wf m Hm) as Ho. assert (Hm' := Hm). destruct Hm'.
  destruct (vec_fill_spec (E := PanicReason) (heap m) (new_hp - heap_offset m)
    (mhp m - heap_offset m) x00) as (h' & -> & Hl & Hg); [lia..|].
  exists h'. split; [done|]. split; [lia|]. intros x Hx. rewrite Hg, Hl.
  repeat case_if; try lia; try done. rewrite mem_get_heap by (done || lia). f_equal. lia.
Qed.

(** The reallocating branch: the old buffer, cleared below the heap pointer, is moved to the
    end of the new one and everything before it is zeroed. *)
Lemma heap_grown_realloc m new_hp cap :
  mem_wf m -> 0 <= new_hp <= mhp m -> zlen (heap m) <= cap ->
  MEM_SIZE - new_hp <= cap <= MEM_SIZE ->
  exists h0 h1 h2,
    vec_fill (E := PanicReason) (heap m) 0 (mhp m - heap_offset m) x00 = Ok h0 /\
    zlen h0 = zlen (heap m) /\
    copy_within (E := PanicReason) (vec_resize h0 cap x00) 0 (zlen h0) (cap - zlen h0)
      = Ok h1 /\
    vec_fill (E := PanicReason) h1 0 (cap - zlen h0) x00 = Ok h2 /\
    heap_grown m new_hp h2.
Proof.
  intros Hm Hhp Hlen Hcap. pose proof (heap_offset_wf m Hm) as Ho.
  assert (Hm' := Hm). destruct Hm'. pose proof (zlen_nonneg (heap m)).
  destruct (vec_fill_spec (E := PanicReason) (heap m) 0 (mhp m - heap_offset m) x00)
    as (h0 & -> & Hl0 & Hg0); [lia..|].
  assert (Hr : zlen (vec_resize h0 cap x00) = cap) by (apply zlen_resize; lia).
  destruct (copy_within_spec (E := PanicReason) (vec_resize h0 cap x00) 0 (zlen h0)
    (cap - zlen h0)) as (h1 & E1 & Hl1 & Hg1); [lia..|].
  destruct (vec_fill_spec (E := PanicReason) h1 0 (cap - zlen h0) x00)
    as (h2 & E2 & Hl2 & Hg2); [lia..|].
  exists h0, h1, h2. split_and!; try done. rewrite Hr in Hl1.
  split; [lia|]. intros x Hx. rewrite Hg2, Hg1, zget_resize, Hg0 by lia.
  repeat case_if; try lia; try done. rewrite mem_get_heap by (done || lia). f_equal. lia.
Qed.

Lemma grow_heap_by_Ok m sp amount :
  mem_wf m -> 0 <= amount <= mhp m -> sp <= mhp m - amount ->
  exists h', heap_grown m (mhp m - amount) h' /\
    grow_heap_by m sp amount =
      Ok (mkMemory (vec_truncate (stack m) (mhp m - amount)) h' (mhp m - amount),
          mhp m - amount).
Proof.
  intros Hm Ha Hsp. pose proof (heap_offset_wf m Hm) as Ho.
  assert (Hm' := Hm). destruct Hm'. unfold grow_heap_by, usub.
  rewrite checked_sub_Some by lia. cbn. set (new_hp := mhp m - amount) in *. case_if; [lia|]. case_if; [|lia]. cbn.
  destruct (MEM_SIZE - new_hp <=? zlen (heap m)) eqn:El; zbool.
  - destruct (heap_grown_in_place m new_hp) as (h' & Eg & Hg); [done|lia..|].
    exists h'. split; [done|]. case_if; [|lia]. cbn. case_if; [|lia]. cbn. by rewrite Eg.
  - assert (Hcap : MEM_SIZE - new_hp <=
      clamp (next_power_of_two (MEM_SIZE - new_hp)) 256 MEM_SIZE <= MEM_SIZE).
    { pose proof (next_power_of_two_ge (MEM_SIZE - new_hp)). unfold clamp. mem_lia. }
    destruct (heap_grown_realloc m new_hp
      (clamp (next_power_of_two (MEM_SIZE - new_hp)) 256 MEM_SIZE))
      as (h0 & h1 & h2 & Ef0 & Hl & Ef1 & Ef2 & Hg); [done|lia..|].
    exists h2. split; [done|]. rewrite checked_sub_Some by lia. rewrite Ef0. cbn.
    case_if; [|lia]. cbn. rewrite Ef1. cbn. by rewrite Ef2.
Qed.

(** Heap growth: fresh memory reads as zero whatever the buffer held, the rest of the view is
    kept except that a stack buffer reaching into the new heap loses those bytes. *)
Lemma grow_heap_by_spec m sp amount :
  mem_wf m -> 0 <= amount ->
  match grow_heap_by m sp amount with
  | Ok (m', hp') => mem_wf m' /\ hp' = mhp m - amount /\ 0 <= hp' /\ mhp m' = hp' /\ sp <= hp' /\
      zlen (stack m') = Z.min hp' (zlen (stack m)) /\
      (forall x, mem_get m' x =
         if (hp' <=? x) && (x <? mhp m) then Some x00 else mem_get m x)
  | Err e => e = (if mhp m <? amount then MemoryOverflow else MemoryGrowthOverlap) /\
      (mhp m < amount \/ mhp m - amount < sp)
  | Crash => False
  end.
Proof.
  intros Hm Ha. destruct (decide (amount <= mhp m)) as [Hle|Hgt].
  - destruct (decide (sp <= mhp m - amount)) as [Hsp|Hsp].
    + destruct (grow_heap_by_Ok m sp amount) as (h' & Hg & ->); [done|lia..|].
      assert (Hm' := Hm). destruct Hm', Hg as [Hl Hg]. cbn.
      rewrite zlen_truncate by lia. split_and!; try lia.
      * split; cbn; rewrite ?zlen_truncate by lia; lia.
      * intros x. unfold mem_get at 1, heap_offset, saturating_sub. cbn.
        rewrite zlen_truncate, zget_truncate by lia.
        destruct (decide (x < mhp m - amount)) as [Hx|Hx].
        -- unfold mem_get. repeat case_if; try done; try lia.
        -- rewrite Z.max_l by lia. case_if; [lia|]. case_if; [|lia].
           destruct (decide (x < MEM_SIZE)) as [Hx'|Hx'].
           ++ rewrite Hg by lia. repeat case_if; done || lia.
           ++ unfold mem_get. rewrite heap_offset_wf by done.
              repeat case_if; try lia; [|done..].
              etrans; [|symmetry]; apply zget_None; lia.
    + unfold grow_heap_by, checked_sub. case_if; [|lia]. cbn. case_if; [|lia].
      case_if; [lia|]. split; [done|lia].
  - unfold grow_heap_by, checked_sub. case_if; [lia|]. cbn. case_if; [|lia]. split; [done|lia].
Qed.

(** ** Equality *)

(** [PartialEq] compares the stack, the heap pointer and the live heap, that is, the stack
    length, the heap pointer and the view. *)
Definition mem_equiv (m m' : MemoryInstance) : Prop :=
  zlen (stack m) = zlen (stack m') /\ mhp m = mhp m' /\ forall x, mem_get m x = mem_get m' x.

#[export] Instance mem_equiv_equivalence : Equivalence mem_equiv.
Proof.
  split.
  - done.
  - intros m m' (? & ? & ?). done.
  - intros m1 m2 m3 (? & ? & H1) (? & ? & H2). split_and!; [congruence..|].
    intros x. by rewrite H1.
Qed.

#[export] Instance accessible_proper : Proper (mem_equiv ==> eq ==> eq ==> iff) accessible.
Proof. intros m m' (Hs & Hh & _) a ? <- n ? <-. unfold accessible. by rewrite Hs, Hh. Qed.

#[export] Instance mem_shows_proper : Proper (mem_equiv ==> eq ==> eq ==> iff) mem_shows.
Proof.
  intros m m' (_ & _ & H) a ? <- n ? <-. unfold mem_shows.
  split; intros Hs i Hi; [rewrite <- H|rewrite H]; by apply Hs.
Qed.

(** The live part of the heap buffer. *)
Definition live_heap (m : MemoryInstance) : list byte :=
  zslice (heap m) (mhp m - heap_offset m) (zlen (heap m)).

Lemma zlen_live_heap m : mem_wf m -> zlen (live_heap m) = MEM_SIZE - mhp m.
Proof.
  intros Hm. pose proof (heap_offset_wf m Hm). destruct Hm. unfold live_heap.
  rewrite zlen_slice; lia.
Qed.

Lemma mem_get_live m x :
  mem_wf m -> mhp m <= x -> mem_get m x = zget (live_heap m) (x - mhp m).
Proof.
  intros Hm Hx. pose proof (heap_offset_wf m Hm). pose proof Hm as [].
  rewrite mem_get_heap by done. unfold live_heap.
  rewrite zget_slice by lia. case_if; [f_equal; lia|]. apply zget_None. lia.
Qed.

Lemma mem_equiv_iff m m' :
  mem_wf m -> mem_wf m' ->
  mem_equiv m m' <-> stack m = stack m' /\ mhp m = mhp m' /\ live_heap m = live_heap m'.
Proof.
  intros Hm Hm'. split.
  - intros (Hs & Hp & Hx). split_and!; [|done|].
    + apply zlist_eq; [done|]. intros i Hi. specialize (Hx i).
      rewrite !mem_get_stack in Hx by lia. done.
    + apply zlist_eq; rewrite !zlen_live_heap by done; [lia|]. intros i Hi.
      specialize (Hx (i + mhp m)). rewrite !mem_get_live in Hx by (done || lia).
      replace (i + mhp m - mhp m) with i in Hx by lia.
      replace (i + mhp m - mhp m') with i in Hx by lia. done.
  - intros (Hs & Hp & Hl). split_and!; [by rewrite Hs|done|]. intros x.
    destruct (decide (mhp m <= x)) as [Hx|Hx].
    + rewrite !mem_get_live by (done || lia). by rewrite Hl, Hp.
    + unfold mem_get. rewrite Hs, Hp. repeat case_if; done || lia.
Qed.

Lemma live_heap_index m :
  mem_wf m ->
  usub (E := PanicReason) (mhp m) (heap_offset m) = Ok (mhp m - heap_offset m) /\
  index_range (E := PanicReason) (heap m) (mhp m - heap_offset m) (zlen (heap m)) =
    Ok (live_heap m).
Proof.
  intros Hm. pose proof (heap_offset_wf m Hm) as Ho. pose proof Hm as [].
  split; [unfold usub; case_if; [done|lia]|]. apply index_range_Ok; lia.
Qed.

Lemma mem_eqb_spec m m' :
  mem_wf m -> mem_wf m' ->
  exists b, mem_eqb m m' = Ok b /\ (b = true <-> mem_equiv m m').
Proof.
  intros Hm Hm'. pose proof (mem_equiv_iff m m' Hm Hm') as Hiff. unfold mem_eqb.
  destruct (live_heap_index m Hm) as [-> E], (live_heap_index m' Hm') as [-> E'].
  destruct (bool_decide_reflect (stack m = stack m')) as [Hs|Hs]; cbn [andb].
  - case_if.
    + cbn. rewrite E, E'. cbn. eexists; split; [done|].
      rewrite bool_decide_eq_true, Hiff. tauto.
    + eexists; split; [done|]. rewrite Hiff. split; [done|tauto].
  - eexists; split; [done|]. rewrite Hiff. split; [done|tauto].
Qed.

(** ** Rollback *)

Section Changes.
Context (d : list byte) (off : Z).

(** A change carries bytes of the desired array at their own position. *)
Definition change_ok (c : MemorySliceChange) : Prop :=
  off <= global_start c /\ global_start c - off + zlen (change_data c) <= zlen d /\
  forall i, 0 <= i < zlen (change_data c) ->
    zget (change_data c) i = zget d (global_start c - off + i).

(** Some change overwrites local index [j]. *)
Definition covered (cs : list MemorySliceChange) (j : Z) : Prop :=
  Exists (fun c => global_start c <= off + j < global_start c + zlen (change_data c)) cs.

Lemma rollback_heap_spec o cs l :
  0 <= off -> off + zlen d < U64 -> 0 <= o <= off ->
  Forall change_ok cs -> zlen d + (off - o) <= zlen l ->
  exists l', rollback_heap o l cs = Ok l' /\ zlen l' = zlen l /\
    (forall j, j < off - o -> zget l' j = zget l j) /\
    forall j, 0 <= j < zlen d ->
      zget l' (off - o + j) = zget d j \/
      (~ covered cs j /\ zget l' (off - o + j) = zget l (off - o + j)).
Proof.
  intros Ho Hd Hoo Hcs. revert l. induction Hcs as [|c cs Hc Hcs IH]; intros l Hl; cbn.
  { exists l. split_and!; try done. intros j Hj. right. split; [|done].
    unfold covered. rewrite Exists_nil. tauto. }
  destruct Hc as (Hs & Hlen & Hdat). pose proof (zlen_nonneg (change_data c)).
  pose proof (zlen_nonneg d).
  rewrite checked_sub_Some by lia. cbn. unfold copy_from_slice, saturating_add.
  rewrite Z.min_l by lia. case_if; [|lia]. cbn.
  set (l1 := zsplice l (global_start c - o) (change_data c)).
  assert (Hl1 : zlen l1 = zlen l) by (apply zlen_splice; lia).
  destruct (IH l1) as (l' & -> & Hl' & Hlow & Hd'); [lia|].
  assert (Hget : forall j, zget l1 j = if (global_start c - o <=? j) &&
    (j <? global_start c - o + zlen (change_data c))
    then zget (change_data c) (j - (global_start c - o)) else zget l j).
  { intros j. apply zget_splice; lia. }
  exists l'. split_and!; [done|lia| |].
  - intros j Hj. rewrite Hlow, Hget by lia. case_if; [lia|done].
  - intros j Hj. destruct (Hd' j Hj) as [?|[Hnc Hj']]; [by left|]. rewrite Hj', Hget.
    case_if.
    + left. rewrite Hdat by lia. f_equal. lia.
    + right. split; [|done]. unfold covered. rewrite Exists_cons. intros [?|?]; [lia|done].
Qed.

Lemma push_change_ok cs start count :
  0 <= off -> off + zlen d < U64 -> 0 <= start -> 0 <= count -> start + count <= zlen d ->
  Forall change_ok cs ->
  exists cs', push_change d off cs (Some (start, count)) = Ok cs' /\
    Forall change_ok cs' /\
    forall j, covered cs j \/ start <= j < start + count -> covered cs' j.
Proof.
  intros Ho Hd Hs Hc Hsc Hcs. unfold push_change, saturating_add.
  rewrite !Z.min_l by lia. rewrite index_range_Ok by lia. cbn.
  eexists; split; [done|]. split.
  - apply Forall_app. split; [done|]. constructor; [|done].
    split_and!; cbn; [lia|rewrite zlen_slice; lia|]. intros i.
    rewrite zlen_slice by lia. intros Hi. rewrite zget_slice by lia.
    case_if; [f_equal; lia|lia].
  - intros j Hj. unfold covered in *. rewrite Exists_app, Exists_cons. cbn.
    rewrite zlen_slice by lia. destruct Hj; [by left|right; left; lia].
Qed.

Lemma get_changes_loop_ok (latest : list byte) zipped i cs range :
  0 <= off -> off + zlen d < U64 -> zlen latest = zlen d ->
  0 <= i -> zipped = drop (Z.to_nat i) (zip latest d) ->
  Forall change_ok cs ->
  match range with
  | Some (start, count) => 0 <= start /\ 0 <= count /\ start + count = i /\ i <= zlen d
  | None => True
  end ->
  (forall j, 0 <= j < Z.min i (zlen d) -> zget latest j <> zget d j ->
    covered cs j \/
    match range with Some (start, count) => start <= j < start + count | None => False end) ->
  exists cs', get_changes_loop d off i zipped cs range = Ok cs' /\ Forall change_ok cs' /\
    forall j, 0 <= j < zlen d -> zget latest j <> zget d j -> covered cs' j.
Proof.
  intros Ho Hd Hlat. revert i cs range.
  induction zipped as [|[old new] zs IH]; intros i cs range Hi Hz Hcs Hr Hcov; cbn.
  - assert (Hend : zlen d <= i).
    { apply (f_equal length) in Hz. rewrite length_drop, length_zip_with in Hz.
      unfold zlen in *. cbn in Hz. lia. }
    destruct range as [[start count]|].
    + destruct Hr as (? & ? & ? & ?).
      destruct (push_change_ok cs start count) as (cs' & -> & Hcs' & Hc'); [lia..|done|].
      exists cs'. split_and!; [done..|]. intros j Hj Hne. apply Hc', Hcov; [lia|done].
    + cbn. exists cs. split_and!; [done..|]. intros j Hj Hne.
      destruct (Hcov j) as [|[]]; [lia|done|done].
  - assert (Hzi : zip latest d !! Z.to_nat i = Some (old, new)).
    { rewrite <- (Nat.add_0_r (Z.to_nat i)), <- lookup_drop, <- Hz. done. }
    apply lookup_zip_with_Some in Hzi as (o' & n' & [= <- <-] & Ho' & Hn').
    assert (Hi' : i < zlen d) by (apply lookup_lt_Some in Hn'; unfold zlen; lia).
    assert (Hzs : zs = drop (Z.to_nat (i + 1)) (zip latest d)).
    { replace (Z.to_nat (i + 1)) with (Z.to_nat i + 1)%nat by lia.
      rewrite <- drop_drop, <- Hz. done. }
    assert (Hgo : zget latest i = Some old) by (unfold zget; case_if; [lia|done]).
    assert (Hgn : zget d i = Some new) by (unfold zget; case_if; [lia|done]).
    destruct (bool_decide_reflect (old = new)) as [Heq|Hneq]; cbn [negb].
    + destruct range as [[start count]|].
      * destruct Hr as (? & ? & ? & ?).
        destruct (push_change_ok cs start count) as (cs' & -> & Hcs' & Hc'); [lia..|done|].
        cbn. apply IH; try done; [lia|]. intros j Hj Hne. left. apply Hc', Hcov; [|done].
        destruct (decide (j = i)); [congruence|lia].
      * cbn. apply IH; try done; [lia|]. intros j Hj Hne. apply Hcov; [|done].
        destruct (decide (j = i)); [congruence|lia].
    + apply IH; try done; [lia| |].
      * destruct range as [[start count]|]; [|lia].
        unfold saturating_add. rewrite Z.min_l by lia. lia.
      * intros j Hj Hne. destruct (decide (j = i)) as [->|].
        -- right. destruct range as [[start count]|]; [|lia].
           unfold saturating_add. rewrite Z.min_l by lia. lia.
        -- destruct (Hcov j) as [?|Hin]; [lia|done|by left|]. right.
           destruct range as [[start count]|]; [|done].
           unfold saturating_add. rewrite Z.min_l by lia. lia.
Qed.

Lemma get_changes_ok (latest : list byte) :
  0 <= off -> off + zlen d < U64 -> zlen latest = zlen d ->
  exists cs, get_changes latest d off = Ok cs /\ Forall change_ok cs /\
    forall j, 0 <= j < zlen d -> zget latest j <> zget d j -> covered cs j.
Proof.
  intros. apply (get_changes_loop_ok latest); try done; lia.
Qed.
End Changes.

Lemma rollback_stack_heap cs l :
  Forall (fun c => 0 <= global_start c) cs -> rollback_stack l cs = rollback_heap 0 l cs.
Proof.
  intros Hcs. revert l. induction Hcs as [|c cs Hc Hcs IH]; intros l; cbn; [done|].
  rewrite checked_sub_Some by lia. cbn. rewrite Z.sub_0_r.
  destruct (copy_from_slice _ _ _ _); cbn; done.
Qed.

Lemma vec_resize_shrink (l : list byte) n x :
  0 <= n <= zlen l -> vec_resize l n x = zslice l 0 n.
Proof.
  intros Hn. apply zlist_eq; rewrite zlen_resize by lia; [rewrite zlen_slice; lia|].
  intros i Hi. rewrite zget_resize, zget_slice by lia. repeat case_if; done || lia.
Qed.

Lemma zslice_all {A} (l : list A) : zslice l 0 (zlen l) = l.
Proof.
  unfold zslice, zlen. rewrite Z.sub_0_r, Nat2Z.id. cbn. by rewrite drop_0, firstn_all.
Qed.

(** Applying the recorded changes of an array yields the desired array. *)
Lemma rollback_stack_changes st d cs :
  zlen d < U64 -> zlen d <= zlen st ->
  Forall (change_ok d 0) cs ->
  (forall j, 0 <= j < zlen d -> zget (zslice st 0 (zlen d)) j <> zget d j -> covered 0 cs j) ->
  rollback_stack (vec_resize st (zlen d) x00) cs = Ok d.
Proof.
  intros Hd Hl Hcs Hcov. pose proof (zlen_nonneg d).
  rewrite vec_resize_shrink by lia.
  assert (Hz : zlen (zslice st 0 (zlen d)) = zlen d) by (rewrite zlen_slice; lia).
  rewrite rollback_stack_heap by (eapply Forall_impl; [done|]; intros c [? _]; lia).
  destruct (rollback_heap_spec d 0 0 cs (zslice st 0 (zlen d)))
    as (l' & -> & Hl' & _ & Hj); [lia..|done|lia|].
  f_equal. apply zlist_eq; [lia|]. intros j Hjr.
  specialize (Hj j). rewrite Z.sub_diag, !Z.add_0_l in Hj.
  destruct Hj as [?|[Hn Hj']]; [lia|done|]. rewrite Hj'.
  destruct (decide (zget (zslice st 0 (zlen d)) j = zget d j)); [done|].
  by destruct Hn; apply Hcov; [lia|].
Qed.

Lemma rollback_heap_changes m desired cs :
  mem_wf m -> mem_wf desired -> mhp m <= mhp desired ->
  Forall (change_ok (live_heap desired) (mhp desired)) cs ->
  (forall j, 0 <= j < MEM_SIZE - mhp desired ->
     mem_get m (mhp desired + j) <> mem_get desired (mhp desired + j) ->
     covered (mhp desired) cs j) ->
  exists h, rollback_heap (heap_offset m) (heap m) cs = Ok h /\ zlen h = zlen (heap m) /\
    forall x, mhp desired <= x < MEM_SIZE ->
      zget h (x - heap_offset m) = mem_get desired x.
Proof.
  intros Hm Hd Hp Hcs Hcov. pose proof (heap_offset_wf m Hm) as Ho.
  pose proof (zlen_live_heap desired Hd) as Hll. pose proof Hm as []. pose proof Hd as [].
  destruct (rollback_heap_spec (live_heap desired) (mhp desired) (heap_offset m) cs (heap m))
    as (h & -> & Hl & _ & Hj); [mem_lia..|done|lia|].
  exists h. split_and!; [done|done|]. intros x Hx. rewrite (mem_get_live desired) by (done || lia).
  specialize (Hj (x - mhp desired)).
  replace (mhp desired - heap_offset m + (x - mhp desired)) with (x - heap_offset m) in Hj
    by lia.
  destruct Hj as [?|[Hn Hj]]; [lia|done|]. rewrite Hj, <- mem_get_heap by (done || lia).
  destruct (decide (mem_get m x = zget (live_heap desired) (x - mhp desired))); [done|].
  destruct Hn. apply Hcov; [lia|].
  replace (mhp desired + (x - mhp desired)) with x by lia.
  by rewrite (mem_get_live desired) by (done || lia).
Qed.

Lemma heap_tail_index m hp :
  mem_wf m -> mhp m <= hp <= MEM_SIZE ->
  checked_sub hp (heap_offset m) = Some (hp - heap_offset m) /\
  exists h, index_range (E := PanicReason) (heap m) (hp - heap_offset m) (zlen (heap m)) = Ok h /\
    zlen h = MEM_SIZE - hp /\ forall j, 0 <= j -> zget h j = mem_get m (hp + j).
Proof.
  intros Hm Hhp. pose proof (heap_offset_wf m Hm) as Ho. pose proof Hm as [].
  split; [apply checked_sub_Some; lia|]. rewrite index_range_Ok by lia.
  eexists; split; [done|]. rewrite zlen_slice by lia. split; [lia|].
  intros j Hj. rewrite zget_slice, mem_get_heap by (done || lia).
  case_if; [f_equal; lia|]. symmetry. apply zget_None. lia.
Qed.

(** C26: rollback restores a recorded memory. For any two well-formed memories such that the
    heap of the current one has only grown and its stack buffer is at least as long,
    [collect_rollback_data] either reports that they are equal or returns data with which
    [rollback] turns the current memory into one equal (in the sense of [PartialEq]) to the
    desired one; neither panics. *)
Theorem rollback_restores m desired :
  mem_wf m -> mem_wf desired ->
  mhp m <= mhp desired -> zlen (stack desired) <= zlen (stack m) ->
  match collect_rollback_data m desired with
  | Ok None => mem_eqb m desired = Ok true
  | Ok (Some data) => mem_eqb m desired = Ok false /\
      exists m', rollback m data = Ok m' /\ mem_wf m' /\ mem_equiv m' desired
  | _ => False
  end.
Proof.
  intros Hm Hd Hp Hs. unfold collect_rollback_data.
  destruct (mem_eqb_spec m desired Hm Hd) as (b & -> & _). cbn.
  destruct b; [done|]. case_if; [lia|]. pose proof Hm as []. pose proof Hd as [].
  pose proof (zlen_nonneg (stack desired)).
  rewrite !index_range_Ok by lia. cbn. rewrite zslice_all.
  assert (Hsl : zlen (zslice (stack m) 0 (zlen (stack desired))) = zlen (stack desired))
    by (rewrite zlen_slice; lia).
  destruct (get_changes_ok (stack desired) 0 (zslice (stack m) 0 (zlen (stack desired))))
    as (scs & -> & Hscs & Hscov); [mem_lia..|]. cbn.
  destruct (heap_tail_index m (mhp desired)) as (-> & h & Eh & Hlh & Hgh); [done|lia|].
  cbn. rewrite Eh. cbn. clear Eh.
  destruct (live_heap_index desired Hd) as [_ Ed].
  pose proof (heap_offset_wf desired Hd). rewrite checked_sub_Some by lia. cbn. rewrite Ed. cbn.
  pose proof (zlen_live_heap desired Hd) as Hll.
  destruct (get_changes_ok (live_heap desired) (mhp desired) h)
    as (hcs & -> & Hhcs & Hhcov); [mem_lia..|]. cbn. split; [done|].
  unfold rollback. cbn. case_if; [lia|].
  rewrite (rollback_stack_changes (stack m) (stack desired)) by (done || mem_lia). cbn.
  destruct (rollback_heap_changes m desired hcs) as (h' & -> & Hl' & Hg'); try done.
  { intros j Hj Hne. apply Hhcov; [lia|].
    rewrite Hgh by lia. rewrite (mem_get_live desired) in Hne by (done || lia).
    replace (mhp desired + j - mhp desired) with j in Hne by lia. done. }
  cbn. eexists; split; [done|].
  assert (Hwf : mem_wf (mkMemory (stack desired) h' (mhp desired))).
  { split; cbn; lia. }
  split; [done|]. split_and!; [done|done|]. intros x.
  destruct (decide (mhp desired <= x)) as [Hx|Hx].
  - rewrite mem_get_heap by done. unfold heap_offset at 1. cbn. rewrite Hl'.
    fold (heap_offset m). destruct (decide (x < MEM_SIZE)); [by apply Hg'; lia|].
    rewrite (mem_get_live desired) by (done || lia).
    pose proof (heap_offset_wf m Hm). etrans; [|symmetry]; apply zget_None; lia.
  - unfold mem_get. cbn. repeat case_if; done || lia.
Qed.

(** A stack buffer shortened by heap growth makes [collect_rollback_data] slice out of range:
    [&self.stack[..sp]] with [sp] the length of the longer desired stack. *)
Lemma collect_rollback_data_crash m desired :
  mem_wf m -> mem_wf desired -> zlen (stack m) < zlen (stack desired) ->
  collect_rollback_data m desired = Crash.
Proof.
  intros Hm Hd Hs. unfold collect_rollback_data.
  destruct (mem_eqb_spec m desired Hm Hd) as (b & -> & Hb). cbn.
  destruct b.
  - destruct (proj1 Hb eq_refl) as (? & _). lia.
  - case_if; [done|]. unfold index_range at 1. case_if; [lia|done].
Qed.

(** ** Summary theorems *)

Lemma mem_shows_read m a bs :
  mem_wf m -> accessible m a (zlen bs) -> mem_shows m a bs -> read m a (zlen bs) = Ok bs.
Proof.
  intros Hm Ha Hs. destruct (read_Ok m a _ Hm Ha) as (bs' & -> & Hl & Hs').
  f_equal. by apply (mem_shows_inj m a).
Qed.

Lemma read_shows m a n bs m' :
  mem_wf m -> mem_wf m' -> accessible m' a n ->
  (forall x, a <= x < a + n -> mem_get m' x = mem_get m x) ->
  read m a n = Ok bs -> read m' a n = Ok bs.
Proof.
  intros Hm Hm' Ha Hx Hr. pose proof Ha as (? & ? & _).
  apply read_inv in Hr as (_ & <- & Hs); [|done..].
  apply mem_shows_read; [done..|]. intros i Hi. rewrite Hx by lia. by apply Hs.
Qed.

Lemma memcopy_conditions m dst src n o :
  0 <= dst -> 0 <= src -> 0 <= n ->
  (match memcopy m dst src n o with Err _ => False | _ => True end) ->
  accessible m dst n /\ accessible m src n /\
  (forall x, ~ (dst <= x < dst + n /\ src <= x < src + n)) /\
  has_ownership_range o (mkRange dst (dst + n)) = true.
Proof.
  intros Hd Hs Hn. unfold memcopy.
  destruct (decide (accessible m dst n)) as [Ad|Ad];
    [rewrite (verify_Ok m dst) by done|by rewrite (verify_Err m dst) by done].
  destruct (decide (accessible m src n)) as [As|As];
    [rewrite (verify_Ok m src) by done|by rewrite (verify_Err m src) by done].
  cbn. destruct (ranges_overlap _ _) eqn:Ho; [done|].
  unfold verify_ownership. destruct (has_ownership_range _ _) eqn:Hw; [|done].
  intros _. split_and!; try done. intros x Hx.
  apply not_true_iff_false in Ho. apply Ho, ranges_overlap_spec; eauto.
Qed.

Lemma memcopy_Err m dst src n o e :
  0 <= dst -> 0 <= src -> 0 <= n -> memcopy m dst src n o = Err e ->
  (e = MemoryOverflow /\ (MEM_SIZE < dst + n \/ MEM_SIZE < src + n)) \/
  (e = UninitalizedMemoryAccess /\ ~ (accessible m dst n /\ accessible m src n)) \/
  (e = MemoryWriteOverlap /\ exists x, dst <= x < dst + n /\ src <= x < src + n) \/
  (e = MemoryOwnership /\ has_ownership_range o (mkRange dst (dst + n)) = false).
Proof.
  intros Hd Hs Hn. unfold memcopy.
  destruct (decide (accessible m dst n)) as [Ad|Ad];
    [rewrite (verify_Ok m dst) by done|rewrite (verify_Err m dst) by done; cbn;
      intros [= <-]; case_if; naive_solver].
  destruct (decide (accessible m src n)) as [As|As];
    [rewrite (verify_Ok m src) by done|rewrite (verify_Err m src) by done; cbn;
      intros [= <-]; case_if; naive_solver].
  cbn. destruct (ranges_overlap _ _) eqn:Ho.
  { intros [= <-]. apply ranges_overlap_spec in Ho; [|done]. naive_solver. }
  unfold verify_ownership. destruct (has_ownership_range _ _) eqn:Hw; cbn.
  - unfold usub, copy_within, copy_from_slice, index_range.
    repeat (case_if; cbn); discriminate.
  - intros [= <-]. naive_solver.
Qed.

(** Heap growth leaves the error and crash cases of [grow_heap_by_spec]. *)
Lemma fresh_heap_bytes m sp amount m' hp' :
  mem_wf m -> 0 <= amount -> grow_heap_by m sp amount = Ok (m', hp') ->
  read m' hp' amount = Ok (replicate (Z.to_nat amount) x00).
Proof.
  intros Hm Ha E. pose proof (grow_heap_by_spec m sp amount Hm Ha) as H. rewrite E in H.
  destruct H as (Hm' & -> & ? & Hp & ? & ? & Hg). pose proof Hm as [].
  pose proof (zlen_replicate (Z.to_nat amount) x00) as Hl. rewrite Z2Nat.id in Hl by done.
  rewrite <- Hl at 2. apply mem_shows_read; rewrite ?Hl; [done|unfold accessible; lia|].
  intros i Hi. rewrite Hg, zget_replicate. repeat case_if; done || lia.
Qed.

(** C23: writes are isolated and read back. On a well-formed memory [write_bytes] never
    panics; when it succeeds, the memory stays well-formed, the written bytes read back, every
    written address belongs to the owner's stack frame or heap, and every read of a disjoint
    range is unchanged; when it fails, the error says why. *)
Theorem write_bytes_isolated m o a d :
  mem_wf m -> 0 <= a ->
  match write_bytes m o a d with
  | Ok m' => mem_wf m' /\ read m' a (zlen d) = Ok d /\
      (forall x, a <= x < a + zlen d -> owned o x) /\
      (forall b n, 0 <= b -> 0 <= n -> b + n <= a \/ a + zlen d <= b ->
         read m' b n = read m b n)
  | Err e => (e = MemoryOverflow \/ e = UninitalizedMemoryAccess \/ e = MemoryOwnership) /\
      ~ (accessible m a (zlen d) /\ has_ownership_range o (mkRange a (a + zlen d)) = true)
  | Crash => False
  end.
Proof.
  intros Hm Ha. pose proof (write_bytes_spec m o a d Hm Ha) as H.
  destruct (write_bytes m o a d) as [m'|e|] eqn:E; [|split; [done|]|done].
  - destruct H as (Hacc & Hu & Hown). pose proof (mem_upd_wf _ _ _ _ Hu Hm) as Hm'.
    pose proof Hu as [Hsh Hx]. split_and!; [done| | |].
    + apply mem_shows_read; [done|by eapply same_shape_accessible|by eapply mem_upd_shows].
    + intros x. by apply has_ownership_range_owned.
    + intros b n Hb Hn Hdis. destruct (decide (accessible m b n)) as [Hacc'|Hacc'].
      * destruct (read_Ok m b n Hm Hacc') as (bs & Hr & _). rewrite Hr.
        eapply read_shows; [exact Hm|done|by eapply same_shape_accessible| |done].
        intros x Hxr. rewrite Hx. case_if; [lia|done].
      * rewrite !read_Err; try done. intros Hc. apply Hacc'.
        destruct Hsh as (Hs1 & _ & Hs3). unfold accessible in *. by rewrite Hs1, Hs3 in Hc.
  - intros [Hacc Hown]. destruct (write_Ok m o a _ Hm Hacc Hown) as (s & Hs & Hd).
    destruct (slice_copy_Ok m s a _ d Hm Hd eq_refl) as (m' & Hc & _).
    unfold write_bytes in E. rewrite Hs in E. cbn in E. congruence.
Qed.

(** A memory of eight stack bytes and an empty heap. *)
Definition memory_8 : MemoryInstance :=
  mkMemory [x00; x01; x02; x03; x04; x05; x06; x07] [] MEM_SIZE.

Lemma memory_8_wf : mem_wf memory_8.
Proof. split; cbn; unfold zlen; cbn; mem_lia. Defined.

Lemma write_bytes_isolated_witness :
  exists m', write_bytes memory_8 (mkOwner 8 4 MEM_SIZE MEM_SIZE) 5 [xff; xfe] = Ok m' /\
    read m' 5 2 = Ok [xff; xfe] /\ read m' 0 5 = read memory_8 0 5.
Proof.
  pose proof (write_bytes_isolated memory_8 (mkOwner 8 4 MEM_SIZE MEM_SIZE) 5 [xff; xfe]
    memory_8_wf ltac:(lia)) as H.
  destruct (write_bytes memory_8 (mkOwner 8 4 MEM_SIZE MEM_SIZE) 5 [xff; xfe])
    as [m'| |] eqn:E; [|vm_compute in E; discriminate|destruct H].
  exists m'. destruct H as (_ & H1 & _ & H2). split; [reflexivity|]. split; [exact H1|].
  apply H2; unfold zlen; cbn; lia.
Defined.

(** C24: Heap growth hands out zeroed memory. Whatever the heap buffer still holds (it is kept
    by [reset]), growing the heap either fails with the documented error or returns a
    well-formed memory whose fresh range [[hp', hp)] reads as zeroes, whose other bytes are
    kept, and whose stack ends below the new heap; it never panics. *)
Theorem grow_heap_by_fresh m sp amount :
  mem_wf m -> 0 <= amount ->
  match grow_heap_by m sp amount with
  | Ok (m', hp') => mem_wf m' /\ hp' = mhp m - amount /\ sp <= hp' /\ mhp m' = hp' /\
      read m' hp' amount = Ok (replicate (Z.to_nat amount) x00) /\
      zlen (stack m') = Z.min hp' (zlen (stack m)) /\
      (forall x, x < hp' \/ mhp m <= x -> mem_get m' x = mem_get m x)
  | Err e => (e = MemoryOverflow /\ mhp m < amount) \/
      (e = MemoryGrowthOverlap /\ amount <= mhp m /\ mhp m - amount < sp)
  | Crash => False
  end.
Proof.
  intros Hm Ha. pose proof (grow_heap_by_spec m sp amount Hm Ha) as H.
  destruct (grow_heap_by m sp amount) as [[m' hp']|e|] eqn:E; [| |done].
  - pose proof (fresh_heap_bytes _ _ _ _ _ Hm Ha E) as Hr.
    destruct H as (? & -> & ? & ? & ? & ? & Hg). split_and!; try done.
    intros x Hx. rewrite Hg. case_if; [lia|done].
  - destruct H as [-> H]. case_if; [left|right]; (split; [done|lia]).
Qed.

(** A reset memory whose heap buffer still holds old bytes. *)
Definition memory_dirty : MemoryInstance := mkMemory [] (replicate 16 xff) MEM_SIZE.

Lemma grow_heap_by_fresh_witness :
  exists m', grow_heap_by memory_dirty 0 5 = Ok (m', MEM_SIZE - 5) /\
    read m' (MEM_SIZE - 5) 5 = Ok [x00; x00; x00; x00; x00].
Proof.
  pose proof (grow_heap_by_fresh memory_dirty 0 5
    ltac:(split; cbn; unfold zlen; cbn; mem_lia) ltac:(lia)) as H.
  destruct (grow_heap_by memory_dirty 0 5) as [[m' hp']| |] eqn:E;
    [|destruct H as [[_ H]|(_ & _ & H)]; cbn [mhp memory_dirty] in H; mem_lia|destruct H].
  exists m'. destruct H as (_ & -> & _ & _ & H & _). split; [reflexivity|exact H].
Defined.

Lemma rollback_restores_witness :
  exists data m', collect_rollback_data memory_8
      (mkMemory [x00; xff; xfe; x03] [] MEM_SIZE) = Ok (Some data) /\
    rollback memory_8 data = Ok m' /\ mem_equiv m' (mkMemory [x00; xff; xfe; x03] [] MEM_SIZE).
Proof.
  pose proof (rollback_restores memory_8 (mkMemory [x00; xff; xfe; x03] [] MEM_SIZE)
    memory_8_wf ltac:(split; cbn; unfold zlen; cbn; mem_lia) ltac:(cbn; lia)
    ltac:(unfold zlen; cbn; lia)) as H.
  destruct (collect_rollback_data _ _) as [[data|]| |] eqn:E;
    [|vm_compute in E; discriminate|destruct H|destruct H].
  destruct H as (_ & m' & H1 & _ & H2). exists data, m'. split; [reflexivity|]. split; assumption.
Defined.

(** C25: [memcopy] copies exactly the source bytes. It succeeds exactly when both ranges are
    accessible, disjoint and the destination is owned; then the destination reads as the
    source did, nothing else changes, and only owned addresses are written; it never panics
    in any of its four stack/heap cases. *)
Theorem memcopy_correct m dst src n o :
  mem_wf m -> 0 <= dst -> 0 <= src -> 0 <= n ->
  match memcopy m dst src n o with
  | Ok m' => mem_wf m' /\ read m' dst n = read m src n /\
      (forall x, dst <= x < dst + n -> owned o x) /\
      (forall x, ~ dst <= x < dst + n -> mem_get m' x = mem_get m x)
  | Err e =>
      (e = MemoryOverflow /\ (MEM_SIZE < dst + n \/ MEM_SIZE < src + n)) \/
      (e = UninitalizedMemoryAccess /\ ~ (accessible m dst n /\ accessible m src n)) \/
      (e = MemoryWriteOverlap /\ exists x, dst <= x < dst + n /\ src <= x < src + n) \/
      (e = MemoryOwnership /\ has_ownership_range o (mkRange dst (dst + n)) = false)
  | Crash => False
  end.
Proof.
  intros Hm Hd Hs Hn. destruct (memcopy m dst src n o) as [m'|e|] eqn:E.
  - pose proof (memcopy_conditions m dst src n o Hd Hs Hn ltac:(by rewrite E))
      as (Ad & As & Hdis & Hown).
    destruct (memcopy_Ok m dst src n o Hm Ad As Hdis Hown) as (m1 & bs & E1 & <- & Hbs & Hu).
    assert (m1 = m') as -> by congruence. pose proof (mem_upd_wf _ _ _ _ Hu Hm) as Hm'.
    pose proof Hu as [Hsh Hx]. split_and!; [done| | |].
    + rewrite (mem_shows_read m src bs) by done.
      apply mem_shows_read; [done|by eapply same_shape_accessible|by eapply mem_upd_shows].
    + intros x. by apply has_ownership_range_owned.
    + intros x Hxr. rewrite Hx. case_if; [lia|done].
  - by apply memcopy_Err.
  - pose proof (memcopy_conditions m dst src n o Hd Hs Hn ltac:(by rewrite E))
      as (Ad & As & Hdis & Hown).
    destruct (memcopy_Ok m dst src n o Hm Ad As Hdis Hown) as (m1 & bs & E1 & _). congruence.
Qed.

Lemma memcopy_correct_witness :
  exists m', memcopy memory_8 4 0 3 (mkOwner 8 4 MEM_SIZE MEM_SIZE) = Ok m' /\
    read m' 4 3 = read memory_8 0 3 /\ mem_get m' 7 = Some x07.
Proof.
  pose proof (memcopy_correct memory_8 4 0 3 (mkOwner 8 4 MEM_SIZE MEM_SIZE)
    memory_8_wf ltac:(lia) ltac:(lia) ltac:(lia)) as H.
  destruct (memcopy memory_8 4 0 3 (mkOwner 8 4 MEM_SIZE MEM_SIZE)) as [m'| |] eqn:E;
    [|vm_compute in E; discriminate|destruct H].
  exists m'. destruct H as (_ & H1 & _ & H2). split; [reflexivity|]. split; [exact H1|].
  rewrite H2 by lia. reflexivity.
Defined.

(** C39: a memory whose stack buffer was shortened by heap growth cannot be rolled back. If
    growing the heap of [m] reaches below the end of its stack buffer (allowed whenever the
    stack pointer lies below), collecting the data to return from the grown memory to [m]
    panics the host: it slices the shortened stack with the length of the longer one. *)
Theorem rollback_after_growth_crashes m sp amount m' hp' :
  mem_wf m -> 0 <= amount -> grow_heap_by m sp amount = Ok (m', hp') -> hp' < zlen (stack m) ->
  collect_rollback_data m' m = Crash.
Proof.
  intros Hm Ha Hg Hlt. pose proof (grow_heap_by_spec m sp amount Hm Ha) as Hs. rewrite Hg in Hs.
  destruct Hs as (Hm' & _ & _ & _ & _ & Hl & _). apply collect_rollback_data_crash; [done|done|lia].
Qed.

Lemma rollback_after_growth_crashes_witness :
  exists m' hp', grow_heap_by memory_8 2 (MEM_SIZE - 4) = Ok (m', hp') /\
    collect_rollback_data m' memory_8 = Crash.
Proof.
  pose proof (grow_heap_by_spec memory_8 2 (MEM_SIZE - 4) memory_8_wf ltac:(discriminate)) as Hs.
  destruct (grow_heap_by memory_8 2 (MEM_SIZE - 4)) as [[m' hp']|e|] eqn:E.
  - exists m', hp'. split; [reflexivity|].
    apply (rollback_after_growth_crashes memory_8 2 (MEM_SIZE - 4) m' hp' memory_8_wf
      ltac:(discriminate) E).
    destruct Hs as (_ & -> & _). reflexivity.
  - exfalso. destruct Hs as [_ [Hs|Hs]]; cbn in Hs; lia.
  - exfalso. exact Hs.
Defined.
