(* ===== verification/State.v ===== *)
(** * Interpreter state and effects

    The interpreter's registers, call frames, context and remaining state
    (src/fuel-vm/src/interpreter.rs, call.rs, context.rs, constraints/reg_key.rs,
    interpreter/internal.rs), a state-and-error monad in which the handlers are written, and
    the weakest-precondition rules used to reason about them. *)

From Stdlib Require Import Strings.Byte.
From S2P Require Import Prelude Asm Merkle Receipts Memory.

(** ** Execution contexts (context.rs) *)

(** [RuntimePredicate] (predicate.rs): where the program is, and the input it guards. *)
Record RuntimePredicate : Type := mkRuntimePredicate {
  rp_range : MemoryRange;
  rp_idx : Z
}.

Inductive Context_ : Type :=
| PredicateEstimation (program : RuntimePredicate)
| PredicateVerification (program : RuntimePredicate)
| Script_ (block_height : Z)
| Call_ (block_height : Z)
| NotInitialized.

Definition context_is_predicate (c : Context_) : bool :=
  match c with PredicateEstimation _ | PredicateVerification _ => true | _ => false end.
Definition context_is_external (c : Context_) : bool :=
  match c with
  | PredicateEstimation _ | PredicateVerification _ | Script_ _ => true
  | _ => false
  end.
Definition context_is_internal (c : Context_) : bool := negb (context_is_external c).
Definition context_predicate (c : Context_) : option RuntimePredicate :=
  match c with
  | PredicateEstimation program | PredicateVerification program => Some program
  | _ => None
  end.
Definition context_block_height (c : Context_) : option Z :=
  match c with Script_ h | Call_ h => Some h | _ => None end.

Definition update_from_frame_pointer (c : Context_) (fp : Z) : Context_ :=
  match c with
  | Script_ h => if negb (fp =? 0) then Call_ h else c
  | Call_ h => if fp =? 0 then Script_ h else c
  | _ => c
  end.

(** ** Calls and call frames (call.rs) *)

Record Call : Type := mkCall { call_to : ContractId; call_a : Z; call_b : Z }.

Definition Call_LEN : Z := 48.

(** [Call::try_from]: the derived decoder reads the fields in order and fails when the input
    is too short. *)
Definition call_try_from (value : list byte) : outcome PanicReason Call :=
  if zlen value <? Call_LEN then Err MalformedCallStructure
  else Ok (mkCall (zslice value 0 32) (from_be_bytes (zslice value 32 40))
             (from_be_bytes (zslice value 40 48))).

Definition call_to_bytes (c : Call) : list byte :=
  call_to c ++ enc_word (call_a c) ++ enc_word (call_b c).

Record CallFrame : Type := mkFrame {
  f_to : ContractId;
  f_asset_id : AssetId;
  f_registers : list Z;
  f_code_size_padded : Z;
  f_a : Z;
  f_b : Z
}.

(** bytes.rs *)
Definition padded_len_usize (len : Z) : option Z :=
  let modulo := len mod WORD_SIZE in
  if modulo =? 0 then Some len else checked_add len (WORD_SIZE - modulo).

Definition frame_new (to : ContractId) (asset_id : AssetId) (registers : list Z)
    (code_size a b : Z) : option CallFrame :=
  match padded_len_usize code_size with
  | Some padded => Some (mkFrame to asset_id registers padded a b)
  | None => None
  end.

Definition contract_id_offset : Z := 0.
Definition asset_id_offset : Z := saturating_add contract_id_offset 32.
Definition registers_offset : Z := saturating_add asset_id_offset 32.
Definition code_size_offset : Z :=
  saturating_add registers_offset (WORD_SIZE * VM_REGISTER_COUNT).
Definition a_offset : Z := saturating_add code_size_offset WORD_SIZE.
Definition b_offset : Z := saturating_add a_offset WORD_SIZE.
Definition serialized_size : Z := saturating_add b_offset WORD_SIZE.

Definition frame_to_bytes (f : CallFrame) : list byte :=
  f_to f ++ f_asset_id f ++ concat (map enc_word (f_registers f)) ++
  enc_word (f_code_size_padded f) ++ enc_word (f_a f) ++ enc_word (f_b f).

(** ** Register files

    An array of 64 words; [RegId] is six bits wide, so an access is always in range. *)
Definition reg_get (regs : list Z) (i : Z) : Z := default 0 (zget regs i).
Definition reg_put (regs : list Z) (i v : Z) : list Z := <[Z.to_nat i := v]> regs.

Definition context_gas (f : CallFrame) : Z := reg_get (f_registers f) RegId.CGAS.
Definition set_context_gas (f : CallFrame) (v : Z) : CallFrame :=
  mkFrame (f_to f) (f_asset_id f) (reg_put (f_registers f) RegId.CGAS v)
    (f_code_size_padded f) (f_a f) (f_b f).
Definition set_global_gas (f : CallFrame) (v : Z) : CallFrame :=
  mkFrame (f_to f) (f_asset_id f) (reg_put (f_registers f) RegId.GGAS v)
    (f_code_size_padded f) (f_a f) (f_b f).

(** ** Runtime balances (balances.rs) *)

Record Balance : Type := mkBalance { bal_value : Z; bal_offset : Z }.
Definition RuntimeBalances := gmap AssetId Balance.

(** ** Gas costs (fuel-tx consensus_parameters/gas.rs) *)

Inductive DependentCost : Type :=
| LightOperation (base units_per_gas : Z)
| HeavyOperation (base gas_per_unit : Z).

(** The fields of [GasCostsValuesV5] of type [Word]. *)
Inductive WordCost : Type :=
| g_add | g_addi | g_and | g_andi | g_bal | g_bhei | g_bhsh | g_burn | g_cb | g_cfsi | g_div
| g_divi | g_eck1 | g_ecr1 | g_eq | g_exp | g_expi | g_flag | g_gm | g_gt | g_gtf | g_ji
| g_jmp | g_jne | g_jnei | g_jnzi | g_jmpf | g_jmpb | g_jnzf | g_jnzb | g_jnef | g_jneb | g_lb
| g_log | g_lt | g_lw | g_mint | g_mlog | g_mod_op | g_modi | g_move_op | g_movi | g_mroo
| g_mul | g_muli | g_mldv | g_noop | g_not | g_or | g_ori | g_poph | g_popl | g_pshh | g_pshl
| g_ret | g_rvrt | g_sb | g_sll | g_slli | g_srl | g_srli | g_srw | g_sub | g_subi | g_sw
| g_sww | g_time | g_tr | g_tro | g_wdcm | g_wqcm | g_wdop | g_wqop | g_wdml | g_wqml | g_wddv
| g_wqdv | g_wdmd | g_wqmd | g_wdam | g_wqam | g_wdmm | g_wqmm | g_xor | g_xori | g_ecop
| g_new_storage_per_byte.

(** The fields of [GasCostsValuesV5] of type [DependentCost]. *)
Inductive DepCost : Type :=
| d_aloc | d_bsiz | d_bldd | d_cfe | d_cfei | d_call | d_ccp | d_croo | d_csiz | d_ed19
| d_k256 | d_ldc | d_logd | d_mcl | d_mcli | d_mcp | d_mcpi | d_meq | d_retd | d_s256 | d_scwq
| d_smo | d_srwq | d_swwq | d_epar | d_contract_root | d_state_root | d_vm_initialization.

Record GasCosts : Type := mkGasCosts {
  word_cost : WordCost -> Z;
  dep_cost : DepCost -> DependentCost
}.

(** ** The interpreter *)

(** [InterpreterParams], without the fee parameters. *)
Record InterpreterParams : Type := mkParams {
  gas_price : Z;
  param_gas_costs : GasCosts;
  max_inputs : Z;
  contract_max_size : Z;
  tx_offset : Z;
  max_message_data_length : Z;
  chain_id : Z;
  base_asset_id : AssetId
}.

Inductive PanicContext : Type :=
| PanicContext_None
| PanicContext_ContractId (id : ContractId).

(** [S] is the storage backend. [frames] lists the call frames from the innermost one out
    (the last element of the vector first). *)
Record Interpreter (S : Type) : Type := mkVM {
  registers : list Z;
  memory : MemoryInstance;
  frames : list CallFrame;
  receipts : ReceiptsCtx;
  input_contracts : gset ContractId;
  storage : S;
  context : Context_;
  balances : RuntimeBalances;
  interpreter_params : InterpreterParams;
  panic_context : PanicContext
}.
Arguments mkVM {S} _ _ _ _ _ _ _ _ _ _.
Arguments registers {S} _.
Arguments memory {S} _.
Arguments frames {S} _.
Arguments receipts {S} _.
Arguments input_contracts {S} _.
Arguments storage {S} _.
Arguments context {S} _.
Arguments balances {S} _.
Arguments interpreter_params {S} _.
Arguments panic_context {S} _.

Section Setters.
Context {S : Type}.
Implicit Types (vm : Interpreter S).

Definition gas_costs vm : GasCosts := param_gas_costs (interpreter_params vm).

Definition set_registers vm x : Interpreter S :=
  mkVM x (memory vm) (frames vm) (receipts vm) (input_contracts vm) (storage vm) (context vm)
    (balances vm) (interpreter_params vm) (panic_context vm).
Definition set_memory vm x : Interpreter S :=
  mkVM (registers vm) x (frames vm) (receipts vm) (input_contracts vm) (storage vm)
    (context vm) (balances vm) (interpreter_params vm) (panic_context vm).
Definition set_frames vm x : Interpreter S :=
  mkVM (registers vm) (memory vm) x (receipts vm) (input_contracts vm) (storage vm)
    (context vm) (balances vm) (interpreter_params vm) (panic_context vm).
Definition set_receipts vm x : Interpreter S :=
  mkVM (registers vm) (memory vm) (frames vm) x (input_contracts vm) (storage vm)
    (context vm) (balances vm) (interpreter_params vm) (panic_context vm).
Definition set_storage vm x : Interpreter S :=
  mkVM (registers vm) (memory vm) (frames vm) (receipts vm) (input_contracts vm) x
    (context vm) (balances vm) (interpreter_params vm) (panic_context vm).
Definition set_context vm x : Interpreter S :=
  mkVM (registers vm) (memory vm) (frames vm) (receipts vm) (input_contracts vm) (storage vm)
    x (balances vm) (interpreter_params vm) (panic_context vm).
Definition set_balances vm x : Interpreter S :=
  mkVM (registers vm) (memory vm) (frames vm) (receipts vm) (input_contracts vm) (storage vm)
    (context vm) x (interpreter_params vm) (panic_context vm).
Definition set_panic_context vm x : Interpreter S :=
  mkVM (registers vm) (memory vm) (frames vm) (receipts vm) (input_contracts vm) (storage vm)
    (context vm) (balances vm) (interpreter_params vm) x.

Definition reg vm (i : Z) : Z := reg_get (registers vm) i.
Definition set_reg vm (i v : Z) : Interpreter S :=
  set_registers vm (reg_put (registers vm) i v).
End Setters.

(** ** Handlers: state and error

    A handler runs on the interpreter; changes made before an error are kept, as they are
    in the source. *)
Definition M (S A : Type) : Type := Interpreter S -> outcome RuntimeError A * Interpreter S.

Section Monad.
Context {S : Type}.

Definition mret {A} (a : A) : M S A := fun vm => (Ok a, vm).
Definition mbind_ {A B} (m : M S A) (f : A -> M S B) : M S B :=
  fun vm =>
    match m vm with
    | (Ok a, vm') => f a vm'
    | (Err e, vm') => (Err e, vm')
    | (Crash, vm') => (Crash, vm')
    end.
Definition merr {A} (e : RuntimeError) : M S A := fun vm => (Err e, vm).
Definition mpanic {A} (r : PanicReason) : M S A := merr (Recoverable r).
Definition mcrash {A} : M S A := fun vm => (Crash, vm).
Definition gets {A} (f : Interpreter S -> A) : M S A := fun vm => (Ok (f vm), vm).
Definition modify (f : Interpreter S -> Interpreter S) : M S unit :=
  fun vm => (Ok tt, f vm).
(** A computation that does not touch the state. *)
Definition lift {A} (x : outcome RuntimeError A) : M S A := fun vm => (x, vm).
Definition lift_panic {A} (x : outcome PanicReason A) : M S A :=
  lift (omap_err Recoverable x).
Definition get_reg (i : Z) : M S Z := gets (fun vm => reg vm i).
Definition put_reg (i v : Z) : M S unit := modify (fun vm => set_reg vm i v).
(** Run a fallible memory update; on failure the memory is unchanged. *)
Definition update_memory (f : MemoryInstance -> outcome PanicReason MemoryInstance)
  : M S unit :=
  fun vm =>
    match f (memory vm) with
    | Ok m => (Ok tt, set_memory vm m)
    | Err e => (Err (Recoverable e), vm)
    | Crash => (Crash, vm)
    end.
Definition push_receipt `{Sha256} (r : Receipt) : M S unit :=
  fun vm =>
    match receipts_push (receipts vm) r with
    | Ok rx => (Ok tt, set_receipts vm rx)
    | Err e => (Err e, vm)
    | Crash => (Crash, vm)
    end.
End Monad.

Declare Scope handler_scope.
Delimit Scope handler_scope with handler.
Notation "x <- c ;; k" := (mbind_ c (fun x => k))
  (at level 100, c at next level, right associativity) : handler_scope.
Notation "c ;;; k" := (mbind_ c (fun _ => k))
  (at level 100, right associativity) : handler_scope.
#[global] Open Scope handler_scope.

(** ** Shared operations (interpreter.rs, internal.rs, reg_key.rs) *)

Section Internal.
Context {S : Type}.

(** [WriteRegKey::new] *)
Definition write_reg_key (k : Z) : outcome PanicReason Z :=
  if RegId.WRITABLE <=? k then Ok k else Err ReservedRegisterNotWritable.

Definition is_wrapping (flag : Z) : bool :=
  flags_contains (flags_from_bits_truncate flag) WRAPPING.
Definition is_unsafe_math (flag : Z) : bool :=
  flags_contains (flags_from_bits_truncate flag) UNSAFEMATH.

Definition inc_pc : M S unit :=
  pc <- get_reg RegId.PC ;;
  i <- lift_panic (ok_or (checked_add pc Instruction_SIZE) MemoryOverflow) ;;
  put_reg RegId.PC i.

Definition set_flag (a : Z) : M S unit :=
  match flags_from_bits a with
  | None => mpanic InvalidFlags
  | Some flags => put_reg RegId.FLAG flags ;;; inc_pc
  end.

Definition clear_err : M S unit := put_reg RegId.ERR 0.
Definition set_err : M S unit := put_reg RegId.ERR 1.

Definition set_user_reg_or_discard (r val : Z) : M S unit :=
  if r =? RegId.ZERO then mret tt
  else if r <? RegId.WRITABLE then mpanic ReservedRegisterNotWritable
  else put_reg r val.

Definition current_contract (vm : Interpreter S) : outcome PanicReason (option ContractId) :=
  if context_is_internal (context vm) then
    let? id := read_bytes (memory vm) (reg vm RegId.FP) 32 in
    Ok (Some id)
  else Ok None.

Definition internal_contract (vm : Interpreter S) : outcome PanicReason ContractId :=
  let? c := current_contract vm in
  ok_or c ExpectedInternalContext.

(** [internal_contract(..).unwrap_or_default()]; a host panic is not an [Err]. *)
Definition internal_contract_or_default (vm : Interpreter S) : outcome RuntimeError ContractId :=
  match internal_contract vm with
  | Ok id => Ok id
  | Err _ => Ok zeroed
  | Crash => Crash
  end.

Definition set_frame_pointer (fp : Z) : M S unit :=
  modify (fun vm => set_context vm (update_from_frame_pointer (context vm) fp)) ;;;
  put_reg RegId.FP fp.

(** [OwnershipRegisters::new] *)
Definition ownership_registers (vm : Interpreter S) : OwnershipRegisters :=
  mkOwner (reg vm RegId.SP) (reg vm RegId.SSP) (reg vm RegId.HP)
    (match frames vm with
     | f :: _ => reg_get (f_registers f) RegId.HP
     | [] => VM_MAX_RAM
     end).
End Internal.

(** ** Weakest preconditions

    [wp m Q E vm]: run on [vm], [m] does not panic the host; if it succeeds with [a], the
    final state satisfies [Q a]; if it fails with [e], it satisfies [E e]. *)
Definition wp {S A} (m : M S A) (Q : A -> Interpreter S -> Prop)
    (E : RuntimeError -> Interpreter S -> Prop) (vm : Interpreter S) : Prop :=
  match m vm with
  | (Ok a, vm') => Q a vm'
  | (Err e, vm') => E e vm'
  | (Crash, _) => False
  end.

Section Wp.
Context {S : Type}.
Implicit Types (vm : Interpreter S).

Lemma wp_mono {A} (m : M S A) (Q Q' : A -> Interpreter S -> Prop) E E' vm :
  wp m Q E vm -> (forall a vm', Q a vm' -> Q' a vm') -> (forall e vm', E e vm' -> E' e vm') ->
  wp m Q' E' vm.
Proof. unfold wp. destruct (m vm) as [[] ?]; naive_solver. Qed.

Lemma mbind_Ok {A B} (m : M S A) (f : A -> M S B) vm a vm' :
  m vm = (Ok a, vm') -> mbind_ m f vm = f a vm'.
Proof. unfold mbind_. by intros ->. Qed.

Lemma wp_mret {A} (a : A) Q E vm : Q a vm -> wp (mret a) Q E vm.
Proof. done. Qed.

Lemma wp_merr {A} e (Q : A -> _) E vm : E e vm -> wp (merr e) Q E vm.
Proof. done. Qed.

Lemma wp_bind {A B} (m : M S A) (f : A -> M S B) Q E vm :
  wp m (fun a => wp (f a) Q E) E vm -> wp (mbind_ m f) Q E vm.
Proof. unfold wp, mbind_. destruct (m vm) as [[] ?]; done. Qed.

Lemma wp_bind_inv {A B} (m : M S A) (f : A -> M S B) Q E vm :
  wp (mbind_ m f) Q E vm -> wp m (fun a => wp (f a) Q E) E vm.
Proof. unfold wp, mbind_. destruct (m vm) as [[] ?]; done. Qed.

Lemma wp_gets {A} (f : Interpreter S -> A) Q E vm : Q (f vm) vm -> wp (gets f) Q E vm.
Proof. done. Qed.

Lemma wp_get_reg i Q E vm : Q (reg vm i) vm -> wp (get_reg i) Q E vm.
Proof. done. Qed.

Lemma wp_modify f (Q : unit -> Interpreter S -> Prop) E vm :
  Q tt (f vm) -> wp (modify f) Q E vm.
Proof. done. Qed.

Lemma wp_put_reg i v (Q : unit -> Interpreter S -> Prop) E vm :
  Q tt (set_reg vm i v) -> wp (put_reg i v) Q E vm.
Proof. done. Qed.

Lemma wp_lift {A} (x : outcome RuntimeError A) Q E vm :
  match x with Ok a => Q a vm | Err e => E e vm | Crash => False end -> wp (lift x) Q E vm.
Proof. unfold wp, lift. destruct x; done. Qed.

Lemma wp_lift_panic {A} (x : outcome PanicReason A) Q E vm :
  match x with Ok a => Q a vm | Err e => E (Recoverable e) vm | Crash => False end ->
  wp (lift_panic x) Q E vm.
Proof. unfold wp, lift_panic, lift. destruct x; done. Qed.

Lemma wp_update_memory f (Q : unit -> Interpreter S -> Prop) E vm :
  match f (memory vm) with
  | Ok m => Q tt (set_memory vm m)
  | Err e => E (Recoverable e) vm
  | Crash => False
  end -> wp (update_memory f) Q E vm.
Proof. unfold wp, update_memory. destruct (f (memory vm)); done. Qed.
End Wp.

(** Evaluate the head of a handler under [wp]. *)
Ltac wp_step :=
  match goal with
  | |- wp (mbind_ _ _) _ _ _ => apply wp_bind
  | |- wp (mret _) _ _ _ => apply wp_mret
  | |- wp (mpanic _) _ _ _ => apply wp_merr
  | |- wp (merr _) _ _ _ => apply wp_merr
  | |- wp (gets _) _ _ _ => apply wp_gets
  | |- wp (get_reg _) _ _ _ => apply wp_get_reg
  | |- wp (put_reg _ _) _ _ _ => apply wp_put_reg
  | |- wp (modify _) _ _ _ => apply wp_modify
  | |- wp (lift_panic _) _ _ _ => apply wp_lift_panic
  | |- wp (lift _) _ _ _ => apply wp_lift
  | |- wp (update_memory _) _ _ _ => apply wp_update_memory
  end.

(** ** Registers: reading after writing *)

#[global] Arguments reg : simpl never.
#[global] Arguments set_reg : simpl never.
#[global] Arguments reg_get : simpl never.
#[global] Arguments reg_put : simpl never.

(** Decide comparisons between register names. *)
Ltac reg_eqb :=
  repeat match goal with
  | |- context [?a =? ?b] =>
      let v := eval vm_compute in (a =? b) in
      match v with
      | true => change (a =? b) with true
      | false => change (a =? b) with false
      end
  end; cbv iota.

Section RegLemmas.
Context {S : Type}.
Implicit Types (vm : Interpreter S) (regs : list Z).

Definition regs_ok regs : Prop := zlen regs = VM_REGISTER_COUNT /\ Forall u64_ok regs.

Lemma reg_get_put_eq regs i v : 0 <= i < zlen regs -> reg_get (reg_put regs i v) i = v.
Proof.
  intros Hi. unfold reg_get, reg_put, zget, zlen in *. case_if; [lia|].
  rewrite list_lookup_insert_eq by lia. done.
Qed.

Lemma reg_get_put_ne regs i j v :
  0 <= i -> i <> j -> reg_get (reg_put regs i v) j = reg_get regs j.
Proof.
  intros Hi Hne. unfold reg_get, reg_put, zget. case_if; [done|].
  rewrite list_lookup_insert_ne by lia. done.
Qed.

Lemma zlen_reg_put regs i v : zlen (reg_put regs i v) = zlen regs.
Proof. unfold zlen, reg_put. by rewrite length_insert. Qed.

Lemma reg_get_u64 regs i : Forall u64_ok regs -> u64_ok (reg_get regs i).
Proof.
  intros H. unfold reg_get, zget. case_if; [done|].
  destruct (regs !! Z.to_nat i) eqn:El; [|done]. cbn. by eapply Forall_lookup_1.
Qed.

Lemma regs_ok_put regs i v : regs_ok regs -> u64_ok v -> regs_ok (reg_put regs i v).
Proof.
  intros [Hl Hu] Hv. split; [by rewrite zlen_reg_put|]. by apply Forall_insert.
Qed.

Lemma reg_set_eq vm i v :
  zlen (registers vm) = VM_REGISTER_COUNT -> 0 <= i < 64 -> reg (set_reg vm i v) i = v.
Proof. intros Hl Hi. apply reg_get_put_eq. rewrite Hl. exact Hi. Qed.

Lemma reg_set_ne vm i j v : 0 <= i -> i <> j -> reg (set_reg vm i v) j = reg vm j.
Proof. apply reg_get_put_ne. Qed.

Lemma zlen_set_reg vm i v : zlen (registers (set_reg vm i v)) = zlen (registers vm).
Proof. apply zlen_reg_put. Qed.

(** The other fields after a register write. *)
Lemma memory_set_reg vm i v : memory (set_reg vm i v) = memory vm.
Proof. done. Qed.
Lemma frames_set_reg vm i v : frames (set_reg vm i v) = frames vm.
Proof. done. Qed.
Lemma receipts_set_reg vm i v : receipts (set_reg vm i v) = receipts vm.
Proof. done. Qed.
Lemma context_set_reg vm i v : context (set_reg vm i v) = context vm.
Proof. done. Qed.
Lemma storage_set_reg vm i v : storage (set_reg vm i v) = storage vm.
Proof. done. Qed.
Lemma balances_set_reg vm i v : balances (set_reg vm i v) = balances vm.
Proof. done. Qed.
Lemma params_set_reg vm i v :
  interpreter_params (set_reg vm i v) = interpreter_params vm.
Proof. done. Qed.
Lemma registers_set_memory vm m : registers (set_memory vm m) = registers vm.
Proof. done. Qed.

Lemma reg_set_memory vm m i : reg (set_memory vm m) i = reg vm i.
Proof. done. Qed.
End RegLemmas.

Create Rewrite HintDb vm.
#[export] Hint Rewrite @memory_set_reg @frames_set_reg @receipts_set_reg @context_set_reg
  @storage_set_reg @balances_set_reg @params_set_reg @registers_set_memory @reg_set_memory
  : vm.
