(* ===== verification/Gas.v ===== *)
(** * Gas, and the interpreter invariant

    Dependent costs (src/fuel-tx/src/transaction/consensus_parameters/gas.rs) and the gas
    charging functions (src/fuel-vm/src/interpreter/gas.rs), preceded by the well-formedness
    invariant of the interpreter and the local-step contract that every handler which stays
    inside its call frame fulfils. *)

From Stdlib Require Import Strings.Byte.
From S2P Require Import Prelude Asm Merkle Receipts Memory State.

(** ** Dependent costs *)

Definition cost_base (c : DependentCost) : Z :=
  match c with LightOperation base _ => base | HeavyOperation base _ => base end.

(** [units_per_gas] of zero is an [expect] failure. *)
Definition resolve_without_base (c : DependentCost) (units : Z) : outcome RuntimeError Z :=
  match c with
  | LightOperation _ units_per_gas => expect (checked_div units units_per_gas)
  | HeavyOperation _ gas_per_unit => Ok (saturating_mul units gas_per_unit)
  end.

Definition resolve (c : DependentCost) (units : Z) : outcome RuntimeError Z :=
  let? dependent_value := resolve_without_base c units in
  Ok (saturating_add (cost_base c) dependent_value).

Definition cost_ok (c : DependentCost) : Prop :=
  match c with
  | LightOperation base upg => u64_ok base /\ 0 < upg < U64
  | HeavyOperation base gpu => u64_ok base /\ u64_ok gpu
  end.

Definition costs_ok (g : GasCosts) : Prop :=
  (forall c, u64_ok (word_cost g c)) /\ (forall c, cost_ok (dep_cost g c)).

Lemma resolve_without_base_ok c units :
  cost_ok c -> u64_ok units ->
  exists v, resolve_without_base c units = Ok v /\ u64_ok v.
Proof.
  intros Hc Hu. destruct c as [base upg|base gpu]; cbn in *.
  - unfold checked_div. case_if; [lia|]. eexists; split; [done|].
    unfold u64_ok in *. split; [apply Z.div_pos; lia|].
    apply Z.le_lt_trans with units; [|lia]. apply Z.div_le_upper_bound; nia.
  - eexists; split; [done|]. unfold saturating_mul, u64_ok in *. nia.
Qed.

Lemma resolve_ok c units :
  cost_ok c -> u64_ok units ->
  exists v, resolve c units = Ok v /\ u64_ok v /\ cost_base c <= v.
Proof.
  intros Hc Hu. destruct (resolve_without_base_ok c units Hc Hu) as (v & Hv & Hr).
  unfold resolve. rewrite Hv. cbn. eexists; split; [done|].
  assert (u64_ok (cost_base c)) by (destruct c; cbn in *; tauto).
  unfold saturating_add, u64_ok in *. lia.
Qed.

(** ** Well-formed interpreters *)

(** The saved registers of the frames, innermost first: each caller's stack frame lies below
    the callee's, and each caller's heap above the callee's. *)
Fixpoint frames_ok (ssp hp : Z) (fs : list CallFrame) : Prop :=
  match fs with
  | [] => True
  | f :: rest =>
      let r := reg_get (f_registers f) in
      regs_ok (f_registers f) /\ r RegId.ZERO = 0 /\ r RegId.ONE = 1 /\
      r RegId.SSP <= r RegId.SP <= ssp /\ hp <= r RegId.HP <= MEM_SIZE /\
      frames_ok (r RegId.SSP) (r RegId.HP) rest
  end.

(** Gas reserved for the callers. *)
Fixpoint frames_gas (fs : list CallFrame) : Z :=
  match fs with
  | [] => 0
  | f :: rest => context_gas f + frames_gas rest
  end.

Section Inv.
Context {S : Type} `{Sha256}.
Implicit Types (vm : Interpreter S).

(** The parameters are words, and so are the heights and indices of the context. *)
Definition params_ok (p : InterpreterParams) : Prop :=
  costs_ok (param_gas_costs p) /\ u64_ok (gas_price p) /\ u64_ok (tx_offset p) /\
  u64_ok (chain_id p).

Definition context_ok (c : Context_) : Prop :=
  match c with
  | PredicateEstimation p | PredicateVerification p => u64_ok (rp_idx p)
  | Script_ h | Call_ h => 0 <= h < U32
  | NotInitialized => True
  end.

Lemma context_ok_update c fp : context_ok c -> context_ok (update_from_frame_pointer c fp).
Proof. destruct c; cbn; try done; by case_if. Qed.

Record vm_wf vm : Prop := {
  wf_regs : regs_ok (registers vm);
  wf_zero : reg vm RegId.ZERO = 0;
  wf_one : reg vm RegId.ONE = 1;
  wf_mem : mem_wf (memory vm);
  wf_hp_reg : reg vm RegId.HP = mhp (memory vm);
  wf_ssp : reg vm RegId.SSP <= reg vm RegId.SP;
  wf_sp : reg vm RegId.SP <= reg vm RegId.HP;
  wf_sp_stack : reg vm RegId.SP <= zlen (stack (memory vm));
  wf_gas : reg vm RegId.CGAS + frames_gas (frames vm) = reg vm RegId.GGAS;
  wf_frames : frames_ok (reg vm RegId.SSP) (reg vm RegId.HP) (frames vm);
  wf_receipts : receipts_ok (receipts vm);
  wf_receipts_len : zlen (rx_receipts (receipts vm)) <= MAX_RECEIPTS - 2;
  wf_context : context_ok (context vm);
  wf_params : params_ok (interpreter_params vm)
}.

Lemma wf_costs vm : vm_wf vm -> costs_ok (gas_costs vm).
Proof. intros Hwf. apply (wf_params _ Hwf). Qed.

Definition prev_hp vm : Z := o_prev_hp (ownership_registers vm).

(** Receipts that do not announce coins created, destroyed or sent away. *)
Definition quiet (r : Receipt) : Prop :=
  match r with
  | Receipt_Mint _ _ _ _ _ | Receipt_Burn _ _ _ _ _ | Receipt_MessageOut _ _ _ _ _ _ _
  | Receipt_TransferOut _ _ _ _ _ _ => False
  | _ => True
  end.

(** What a handler that neither calls nor returns may change: it stays in its frame, never
    gains gas, keeps every byte below its stack frame and every byte of the callers' heaps,
    and only appends receipts that announce no change of supply. *)
Record local_step vm vm' : Prop := {
  ls_frames : frames vm' = frames vm;
  ls_ssp : reg vm' RegId.SSP = reg vm RegId.SSP;
  ls_fp : reg vm' RegId.FP = reg vm RegId.FP;
  ls_is : reg vm' RegId.IS = reg vm RegId.IS;
  ls_hp : reg vm' RegId.HP <= reg vm RegId.HP;
  ls_gas : reg vm' RegId.GGAS <= reg vm RegId.GGAS;
  ls_mem : forall x, x < reg vm RegId.SSP \/ prev_hp vm <= x ->
    mem_get (memory vm') x = mem_get (memory vm) x;
  ls_storage : storage vm' = storage vm;
  ls_context : context vm' = context vm;
  ls_balances : balances vm' = balances vm;
  ls_inputs : input_contracts vm' = input_contracts vm;
  ls_params : interpreter_params vm' = interpreter_params vm;
  ls_receipts : exists l, rx_receipts (receipts vm') = rx_receipts (receipts vm) ++ l /\
    Forall quiet l
}.

Lemma ls_costs vm vm' : local_step vm vm' -> gas_costs vm' = gas_costs vm.
Proof. intros Hl. unfold gas_costs. by rewrite (ls_params _ _ Hl). Qed.

#[export] Instance local_step_preorder : PreOrder local_step.
Proof.
  split.
  - intros vm. split; try done. exists []. by rewrite app_nil_r, Forall_nil.
  - intros v1 v2 v3 H1 H2. destruct H1, H2.
    assert (prev_hp v2 = prev_hp v1)
      by (unfold prev_hp, ownership_registers; cbn; by rewrite ls_frames0).
    split; try congruence; try lia.
    + intros x Hx. rewrite ls_mem1, ls_mem0 by lia. done.
    + destruct ls_receipts0 as (l0 & E0 & Q0), ls_receipts1 as (l1 & E1 & Q1).
      exists (l0 ++ l1). rewrite E1, E0, app_assoc. split; [done|by apply Forall_app].
Qed.

(** What holds after an error: enough to append a panic receipt and account for the gas. *)
Record local_err (e : RuntimeError) vm vm' : Prop := {
  le_nobug : forall b, e <> Bug b;
  le_gas : 0 <= reg vm' RegId.GGAS <= reg vm RegId.GGAS;
  le_regs : regs_ok (registers vm');
  le_mem : mem_wf (memory vm');
  le_stack : reg vm RegId.SSP <= zlen (stack (memory vm'));
  le_params : interpreter_params vm' = interpreter_params vm;
  le_receipts : receipts_ok (receipts vm');
  le_receipts_len : zlen (rx_receipts (receipts vm')) <= MAX_RECEIPTS - 2
}.

Lemma local_step_err e v1 v2 v3 :
  local_step v1 v2 -> local_err e v2 v3 -> local_err e v1 v3.
Proof. intros [] []. split; try done; [lia|lia|congruence]. Qed.

Lemma wf_err vm r : vm_wf vm -> local_err (Recoverable r) vm vm.
Proof.
  intros []. split; try done; [|lia]. destruct wf_regs0 as [_ Hu].
  pose proof (reg_get_u64 _ RegId.GGAS Hu). unfold reg, u64_ok in *. lia.
Qed.

(** Hoare triples for local handlers; well-formedness and the local-step contract are built
    in. *)
Definition local {A} (Pre : Interpreter S -> Prop) (m : M S A)
    (Post : A -> Interpreter S -> Prop) : Prop :=
  forall vm, vm_wf vm -> Pre vm ->
    wp m (fun a vm' => vm_wf vm' /\ local_step vm vm' /\ Post a vm')
       (fun e vm' => local_err e vm vm') vm.

Lemma local_bind {A B} Pre (m : M S A) Mid (f : A -> M S B) Post :
  local Pre m Mid -> (forall a, local (Mid a) (f a) Post) -> local Pre (mbind_ m f) Post.
Proof.
  intros Hm Hf vm Hwf Hpre. apply wp_bind.
  eapply wp_mono; [by apply Hm| |done].
  intros a v1 (Hwf1 & Hs1 & Hmid). eapply wp_mono; [by apply Hf| |].
  - intros b v2 (Hwf2 & Hs2 & Hpost). split_and!; [done| |done]. by etrans.
  - intros e v2. by apply local_step_err.
Qed.

Lemma local_mret {A} (Pre : Interpreter S -> Prop) (a : A) Post :
  (forall vm, Pre vm -> Post a vm) -> local Pre (mret a) Post.
Proof. intros HP vm Hwf Hpre. apply wp_mret. split_and!; [done|done|auto]. Qed.

Lemma local_mpanic {A} Pre r (Post : A -> _ -> Prop) : local Pre (mpanic r) Post.
Proof. intros vm Hwf Hpre. apply wp_merr. by apply wf_err. Qed.

Lemma local_conseq {A} (Pre Pre' : _ -> Prop) (m : M S A) (Post Post' : A -> _ -> Prop) :
  local Pre m Post -> (forall vm, vm_wf vm -> Pre' vm -> Pre vm) ->
  (forall a vm, vm_wf vm -> Post a vm -> Post' a vm) -> local Pre' m Post'.
Proof.
  intros Hm HP HQ vm Hwf Hpre. eapply wp_mono; [by apply Hm; auto| |done].
  intros a v1 (? & ? & ?). auto.
Qed.

(** A computation on values: its errors are VM panics. *)
Lemma local_lift_panic {A} (Pre : _ -> Prop) (x : outcome PanicReason A) (Post : A -> _ -> Prop) :
  (forall vm, vm_wf vm -> Pre vm ->
     match x with Ok a => Post a vm | Err _ => True | Crash => False end) ->
  local Pre (lift_panic x) Post.
Proof.
  intros HP vm Hwf Hpre. specialize (HP vm Hwf Hpre). apply wp_lift_panic.
  destruct x; [done|by apply wf_err|done].
Qed.

Lemma local_gets {A} (Pre : _ -> Prop) (f : Interpreter S -> A) (Post : A -> _ -> Prop) :
  (forall vm, vm_wf vm -> Pre vm -> Post (f vm) vm) -> local Pre (gets f) Post.
Proof. intros HP vm Hwf Hpre. apply wp_gets. split_and!; [done|done|auto]. Qed.

Lemma wf_reg_u64 vm i : vm_wf vm -> u64_ok (reg vm i).
Proof. intros [[_ Hu]]. by apply reg_get_u64. Qed.

Lemma local_get_reg (Pre : _ -> Prop) i :
  local Pre (get_reg i) (fun v vm => Pre vm /\ u64_ok v /\ v = reg vm i).
Proof. apply local_gets. intros vm Hwf Hpre. split_and!; [done|by apply wf_reg_u64|done]. Qed.

(** Registers whose value the invariant does not constrain. *)
Definition free_reg (i : Z) : Prop :=
  0 <= i < 64 /\ i <> RegId.ZERO /\ i <> RegId.ONE /\ i <> RegId.SSP /\ i <> RegId.SP /\
  i <> RegId.HP /\ i <> RegId.GGAS /\ i <> RegId.CGAS /\ i <> RegId.FP /\ i <> RegId.IS.

Lemma local_put_reg (Pre : _ -> Prop) i v (Post : unit -> _ -> Prop) :
  free_reg i -> u64_ok v ->
  (forall vm, vm_wf vm -> Pre vm -> Post tt (set_reg vm i v)) ->
  local Pre (put_reg i v) Post.
Proof.
  intros (Hi & H0 & H1 & Hssp & Hsp & Hhp & Hg & Hc & Hfp & His) Hv HP vm Hwf Hpre.
  apply wp_put_reg. specialize (HP vm Hwf Hpre).
  assert (Hr : forall j, i <> j -> reg (set_reg vm i v) j = reg vm j)
    by (intros; apply reg_set_ne; lia).
  split_and!; [| |done].
  - destruct Hwf. split; rewrite ?Hr by congruence; try done. by apply regs_ok_put.
  - split; rewrite ?Hr by congruence; try done; try lia. exists []. by rewrite app_nil_r, Forall_nil.
Qed.
End Inv.

(** ** Charging gas *)

Section Charge.
Context {S : Type} `{Sha256}.
Implicit Types (vm : Interpreter S).

Definition gas_charge (gas : Z) : M S unit :=
  cgas <- get_reg RegId.CGAS ;;
  ggas <- get_reg RegId.GGAS ;;
  if ggas <? cgas then merr (Bug GlobalGasLessThanContext)
  else if cgas <? gas then
    g <- lift (ok_or (checked_sub ggas cgas) (Bug GlobalGasUnderflow)) ;;
    put_reg RegId.GGAS g ;;;
    put_reg RegId.CGAS 0 ;;;
    mpanic OutOfGas
  else
    c <- lift (ok_or (checked_sub cgas gas) (Bug ContextGasUnderflow)) ;;
    put_reg RegId.CGAS c ;;;
    g <- lift (ok_or (checked_sub ggas gas) (Bug GlobalGasUnderflow)) ;;
    put_reg RegId.GGAS g.

Definition dependent_gas_charge (gas_cost : DependentCost) (arg : Z) : M S unit :=
  cost <- lift (resolve gas_cost arg) ;;
  gas_charge cost.

Definition dependent_gas_charge_without_base (gas_cost : DependentCost) (arg : Z) : M S unit :=
  cost <- lift (resolve_without_base gas_cost arg) ;;
  gas_charge cost.

(** [gas_costs().x()] *)
Definition get_word_cost (c : WordCost) : M S Z := gets (fun vm => word_cost (gas_costs vm) c).
Definition get_dep_cost (c : DepCost) : M S DependentCost :=
  gets (fun vm => dep_cost (gas_costs vm) c).

(** [interpreter.gas_charge(interpreter.gas_costs().x())] *)
Definition charge (c : WordCost) : M S unit := g <- get_word_cost c ;; gas_charge g.
(** [interpreter.dependent_gas_charge(interpreter.gas_costs().x(), arg)] *)
Definition charge_dep (c : DepCost) (arg : Z) : M S unit :=
  g <- get_dep_cost c ;; dependent_gas_charge g arg.

Definition remaining_gas vm : Z := reg vm RegId.GGAS.
Definition set_gas (gas : Z) : M S unit :=
  put_reg RegId.GGAS gas ;;; put_reg RegId.CGAS gas.

Lemma frames_gas_nonneg ssp hp fs : frames_ok ssp hp fs -> 0 <= frames_gas fs.
Proof.
  revert ssp hp. induction fs as [|f fs IH]; intros ssp hp Hf; cbn [frames_gas]; [lia|].
  destruct Hf as ([_ Hu] & _ & _ & _ & _ & Hf). apply IH in Hf.
  pose proof (reg_get_u64 _ RegId.CGAS Hu). unfold context_gas, u64_ok in *. lia.
Qed.

Lemma wf_cgas_le vm : vm_wf vm -> reg vm RegId.CGAS <= reg vm RegId.GGAS.
Proof. intros []. pose proof (frames_gas_nonneg _ _ _ wf_frames0). lia. Qed.

(** The state after the registers [$cgas] and [$ggas] have been written. *)
Definition set_gas_regs vm (c g : Z) : Interpreter S :=
  set_reg (set_reg vm RegId.CGAS c) RegId.GGAS g.

Lemma reg_set_gas_regs vm c g i :
  zlen (registers vm) = VM_REGISTER_COUNT ->
  reg (set_gas_regs vm c g) i =
    if i =? RegId.GGAS then g else if i =? RegId.CGAS then c else reg vm i.
Proof.
  intros Hl. unfold set_gas_regs. repeat case_if; subst.
  - apply reg_set_eq; [|done]. by rewrite zlen_set_reg.
  - rewrite reg_set_ne by done. by apply reg_set_eq.
  - rewrite !reg_set_ne; done.
Qed.

Lemma set_gas_regs_comm vm c g :
  set_reg (set_reg vm RegId.GGAS g) RegId.CGAS c = set_gas_regs vm c g.
Proof.
  unfold set_gas_regs, set_reg, set_registers, reg_put. cbn. f_equal.
  by rewrite list_insert_insert_ne.
Qed.

(** Charging against a well-formed state: the same amount leaves both registers, or the
    whole context gas is burnt. *)
Lemma gas_charge_eq vm gas :
  vm_wf vm -> 0 <= gas ->
  gas_charge gas vm =
    if gas <=? reg vm RegId.CGAS
    then (Ok tt, set_gas_regs vm (reg vm RegId.CGAS - gas) (reg vm RegId.GGAS - gas))
    else (Err (Recoverable OutOfGas),
          set_gas_regs vm 0 (reg vm RegId.GGAS - reg vm RegId.CGAS)).
Proof.
  intros Hwf Hg. pose proof (wf_cgas_le vm Hwf). unfold gas_charge, mbind_, get_reg, gets.
  case_if; [lia|]. case_if.
  - case_if; [lia|]. rewrite checked_sub_Some by lia. cbn [ok_or].
    unfold lift, put_reg, modify, mpanic, merr. by rewrite set_gas_regs_comm.
  - case_if; [|lia]. rewrite checked_sub_Some by lia. cbn [ok_or].
    unfold lift, put_reg, modify. by rewrite checked_sub_Some by lia.
Qed.

(** Moving gas out of the context keeps the invariant when both registers move alike. *)
Lemma wf_set_gas_regs vm g :
  vm_wf vm -> 0 <= g <= reg vm RegId.CGAS ->
  vm_wf (set_gas_regs vm (reg vm RegId.CGAS - g) (reg vm RegId.GGAS - g)) /\
  local_step vm (set_gas_regs vm (reg vm RegId.CGAS - g) (reg vm RegId.GGAS - g)).
Proof.
  intros Hwf Hg. pose proof (wf_cgas_le vm Hwf).
  pose proof (wf_reg_u64 vm RegId.CGAS Hwf). pose proof (wf_reg_u64 vm RegId.GGAS Hwf).
  assert (Hr := reg_set_gas_regs vm (reg vm RegId.CGAS - g) (reg vm RegId.GGAS - g)).
  destruct Hwf. destruct wf_regs0 as [Hl Hu]. split.
  - split; rewrite ?Hr by done; reg_eqb; try done; unfold set_gas_regs;
      autorewrite with vm; try lia.
    apply regs_ok_put; [apply regs_ok_put; [done|]|]; unfold u64_ok in *; lia.
  - split; rewrite ?Hr by done; reg_eqb; try done; try lia. exists []. by rewrite app_nil_r, Forall_nil.
Qed.

Lemma local_gas_charge vm gas :
  vm_wf vm -> 0 <= gas ->
  wp (gas_charge gas)
    (fun _ vm' => vm_wf vm' /\ local_step vm vm' /\
                  reg vm' RegId.GGAS + gas = reg vm RegId.GGAS)
    (fun e vm' => local_err e vm vm') vm.
Proof.
  intros Hwf Hg. unfold wp. rewrite gas_charge_eq by done.
  pose proof (wf_reg_u64 vm RegId.CGAS Hwf) as Hc. pose proof (wf_regs vm Hwf) as [Hl _].
  case_if.
  - destruct (wf_set_gas_regs vm gas Hwf) as [? ?]; [lia|]. split_and!; [done..|].
    rewrite reg_set_gas_regs by done. reg_eqb. lia.
  - destruct (wf_set_gas_regs vm (reg vm RegId.CGAS) Hwf) as [Hwf' Hs]; [unfold u64_ok in Hc; lia|].
    rewrite Z.sub_diag in *. eapply local_step_err; [done|]. by apply wf_err.
Qed.

End Charge.

(** ** Safe handlers

    The common case of [local]: no precondition, and a fact about the returned value. *)
Section Safe.
Context {S : Type} `{Sha256}.

Definition safe {A} (P : A -> Prop) (m : M S A) : Prop :=
  local (fun _ => True) m (fun a _ => P a).

Definition any {A} (_ : A) : Prop := True.

Lemma safe_bind {A B} (P : A -> Prop) (Q : B -> Prop) (m : M S A) (f : A -> M S B) :
  safe P m -> (forall a, P a -> safe Q (f a)) -> safe Q (mbind_ m f).
Proof.
  intros Hm Hf. eapply local_bind; [exact Hm|]. intros a vm Hwf Ha.
  by apply (Hf a Ha).
Qed.

(** Continue with a safe handler after a local step. *)
Lemma safe_after {A} (P : A -> Prop) (m : M S A) vm vm1 :
  safe P m -> vm_wf vm1 -> local_step vm vm1 ->
  wp m (fun a vm' => vm_wf vm' /\ local_step vm vm' /\ P a)
       (fun e vm' => local_err e vm vm') vm1.
Proof.
  intros Hm Hw Hs. eapply wp_mono; [by apply Hm| |].
  - intros a v2 (? & ? & ?). split_and!; [done|by etrans|done].
  - intros e v2. by apply local_step_err.
Qed.

Lemma safe_weaken {A} (P Q : A -> Prop) (m : M S A) :
  safe P m -> (forall a, P a -> Q a) -> safe Q m.
Proof. intros Hm HPQ. eapply local_conseq; [exact Hm|done|]. intros a vm _. apply HPQ. Qed.

Lemma safe_mret {A} (P : A -> Prop) (a : A) : P a -> safe P (mret a).
Proof. intros HP. by apply local_mret. Qed.

Lemma safe_mpanic {A} (P : A -> Prop) r : safe P (mpanic r).
Proof. apply local_mpanic. Qed.

Lemma safe_get_reg i : safe u64_ok (get_reg (S := S) i).
Proof. eapply local_conseq; [apply (local_get_reg (fun _ => True))|done|]. naive_solver. Qed.

Lemma safe_gets {A} (P : A -> Prop) (f : Interpreter S -> A) :
  (forall vm, vm_wf vm -> P (f vm)) -> safe P (gets f).
Proof. intros HP. apply local_gets. auto. Qed.

Lemma safe_put_reg i v : free_reg i -> u64_ok v -> safe any (put_reg (S := S) i v).
Proof. intros. by apply local_put_reg. Qed.

Lemma safe_lift_panic {A} (P : A -> Prop) (x : outcome PanicReason A) :
  match x with Ok a => P a | Err _ => True | Crash => False end -> safe P (lift_panic x).
Proof. intros HP. by apply local_lift_panic. Qed.

Lemma safe_lift {A} (P : A -> Prop) (x : outcome RuntimeError A) :
  (exists a, x = Ok a /\ P a) -> safe P (lift x).
Proof.
  intros (a & -> & Ha) vm Hwf _. apply wp_lift. split_and!; done.
Qed.

Lemma write_reg_key_ok k r : write_reg_key k = Ok r -> k < 64 -> free_reg r.
Proof.
  unfold write_reg_key. case_if; [|done]. intros [= <-] Hk. unfold free_reg.
  change RegId.WRITABLE with 16 in *.
  repeat split; try lia; intros ->; vm_compute in E; done.
Qed.

Lemma safe_write_reg_key k : RegId.ok k -> safe free_reg (lift_panic (S := S) (write_reg_key k)).
Proof.
  intros Hk. apply safe_lift_panic. destruct (write_reg_key k) eqn:E; [|done|].
  - eapply write_reg_key_ok; [done|]. unfold RegId.ok in Hk. lia.
  - unfold write_reg_key in E. by case_if_in E.
Qed.

Lemma free_OF : free_reg RegId.OF. Proof. unfold free_reg; vm_compute; intuition discriminate. Qed.
Lemma free_ERR : free_reg RegId.ERR. Proof. unfold free_reg; vm_compute; intuition discriminate. Qed.
Lemma free_PC : free_reg RegId.PC. Proof. unfold free_reg; vm_compute; intuition discriminate. Qed.
Lemma free_FLAG : free_reg RegId.FLAG. Proof. unfold free_reg; vm_compute; intuition discriminate. Qed.
Lemma free_RET : free_reg RegId.RET. Proof. unfold free_reg; vm_compute; intuition discriminate. Qed.
Lemma free_RETL : free_reg RegId.RETL. Proof. unfold free_reg; vm_compute; intuition discriminate. Qed.

Lemma safe_inc_pc : safe any (inc_pc (S := S)).
Proof.
  unfold inc_pc. eapply safe_bind; [apply safe_get_reg|]. intros pc Hpc.
  eapply (safe_bind u64_ok); [apply safe_lift_panic|].
  - unfold checked_add, Instruction_SIZE, u64_ok in *. case_if; cbn; lia.
  - intros i Hi. apply safe_put_reg; [apply free_PC|done].
Qed.

End Safe.

#[export] Hint Resolve free_OF free_ERR free_PC free_FLAG free_RET free_RETL : fuel.

(** Discharge the next operation of a handler. *)
Ltac safe_step :=
  match goal with
  | |- safe _ (mbind_ (get_reg _) _) =>
      eapply safe_bind; [apply safe_get_reg|intros ? ?]
  | |- safe _ (mbind_ (put_reg _ _) _) =>
      eapply safe_bind; [apply safe_put_reg; eauto with fuel|intros ? _]
  | |- safe _ (mbind_ (lift_panic (write_reg_key _)) _) =>
      eapply safe_bind; [apply safe_write_reg_key; eauto with fuel|intros ? ?]
  | |- safe _ inc_pc => apply safe_inc_pc
  | |- safe _ (mpanic _) => apply safe_mpanic
  | |- safe _ (mret _) => apply safe_mret
  | |- safe _ (put_reg _ _) => apply safe_put_reg; eauto with fuel
  | |- safe _ (if _ then _ else _) => case_if
  end.
