(* ===== verification/Alu.v ===== *)
(** * Arithmetic on words

    The arithmetic helpers of the interpreter: overflow capture, boolean overflow and error
    modes, exponentiation, fused multiply-divide, integer roots and logarithms
    (src/fuel-vm/src/interpreter/alu.rs, alu/muldiv.rs, executors/instruction.rs). *)

From Stdlib Require Import Strings.Byte.
From S2P Require Import Prelude Asm Merkle Receipts Memory State Gas.

(** ** Standard-library arithmetic *)

(** The square-and-multiply loop of [u64::overflowing_pow], structural in the exponent. *)
Fixpoint overflowing_pow_loop (acc base : Z) (overflown : bool) (exp : positive) : Z * bool :=
  match exp with
  | xH =>
      let '(r, o) := overflowing_mul 64 acc base in
      (r, o || overflown)
  | xO exp' =>
      let '(base', o) := overflowing_mul 64 base base in
      overflowing_pow_loop acc base' (overflown || o) exp'
  | xI exp' =>
      let '(acc', o1) := overflowing_mul 64 acc base in
      let '(base', o2) := overflowing_mul 64 base base in
      overflowing_pow_loop acc' base' (overflown || o1 || o2) exp'
  end.

Definition overflowing_pow (base exp : Z) : Z * bool :=
  match exp with
  | Zpos p => overflowing_pow_loop 1 base false p
  | _ => (1, false)
  end.

Definition checked_pow (base exp : Z) : option Z :=
  let '(r, o) := overflowing_pow base exp in
  if o : bool then None else Some r.

(** The loop of [u64::checked_ilog]; a base of at least two needs at most 64 rounds. *)
Fixpoint ilog_loop (fuel : nat) (self base n r : Z) : option Z :=
  match fuel with
  | O => None
  | S f => if r <=? self / base then ilog_loop f self base (n + 1) (r * base) else Some n
  end.

Definition checked_ilog (self base : Z) : option Z :=
  if (self <=? 0) || (base <=? 1) then None
  else if self <? base then Some 0
  else ilog_loop 64 self base 1 base.

(** ** Pure functions of the interpreter *)

Definition exp (b c : Z) : Z * bool :=
  match try_u32 c with
  | Some expo => overflowing_pow b expo
  | None => if b <? 2 then (b, false) else (0, true)
  end.

Definition muldiv (lhs rhs divider : Z) : outcome RuntimeError (Z * Z) :=
  let? intermediate := expect (if lhs * rhs <? U128 then Some (lhs * rhs) else None) in
  match checked_div intermediate divider with
  | Some result => Ok (result mod U64, Z.shiftr result 64 mod U64)
  | None => Ok (Z.shiftr intermediate 64 mod U64, 0)
  end.

(** [powf(target as f64, (nth_root as f64).recip()) as u64]: floating point. *)
Class Powf := powf_guess : Z -> Z -> Z.

Definition is_nth_power_below_target (target nth_root v : Z) : bool :=
  match checked_pow v nth_root with
  | Some pow => target <? pow
  | None => true
  end.

(** As a release build has it: [debug_assert!(guess != 0)], which release builds drop, is not part
    of the function. *)
Definition checked_nth_root `{Powf} (target nth_root : Z) : outcome RuntimeError (option Z) :=
  if nth_root =? 0 then Ok None
  else if (nth_root =? 1) || (target <=? 1) then Ok (Some target)
  else if (target <=? nth_root) || (64 <? nth_root) then Ok (Some 1)
  else
    let? nth_root := expect (try_u32 nth_root) in
    let guess := powf_guess target nth_root in
    if is_nth_power_below_target target nth_root guess then
      Ok (Some (saturating_sub guess 1))
    else
      let? guess_plus_one := expect (checked_add guess 1) in
      if is_nth_power_below_target target nth_root guess_plus_one then Ok (Some guess)
      else Ok (Some guess_plus_one).

(** ** Handlers *)

Section Alu.
Context {S : Type} `{Sha256}.

Definition alu_capture_overflow (ra : Z) (f : Z -> Z -> Z * bool) (b c : Z) : M S unit :=
  dest <- lift_panic (write_reg_key ra) ;;
  flag <- get_reg RegId.FLAG ;;
  let result := fst (f b c) in
  if (U64 - 1 <? result) && negb (is_wrapping flag) then mpanic ArithmeticOverflow
  else
    put_reg RegId.OF (Z.shiftr result 64 mod U64) ;;;
    put_reg RegId.ERR 0 ;;;
    put_reg dest (Z.land result (U64 - 1)) ;;;
    inc_pc.

Definition alu_boolean_overflow (ra : Z) (f : Z -> Z -> Z * bool) (b c : Z) : M S unit :=
  dest <- lift_panic (write_reg_key ra) ;;
  flag <- get_reg RegId.FLAG ;;
  let result := fst (f b c) in
  let overflow := snd (f b c) in
  if overflow && negb (is_wrapping flag) then mpanic ArithmeticOverflow
  else
    put_reg RegId.OF (bool_word overflow) ;;;
    put_reg RegId.ERR 0 ;;;
    put_reg dest (if overflow then 0 else result) ;;;
    inc_pc.

(** [f] runs only when there is no error; it may be an [expect]. *)
Definition alu_error (ra : Z) (f : Z -> Z -> outcome RuntimeError Z) (b c : Z)
    (err_bool : bool) : M S unit :=
  dest <- lift_panic (write_reg_key ra) ;;
  flag <- get_reg RegId.FLAG ;;
  if err_bool && negb (is_unsafe_math flag) then mpanic ArithmeticError
  else
    put_reg RegId.OF 0 ;;;
    put_reg RegId.ERR (bool_word err_bool) ;;;
    v <- lift (if err_bool then Ok 0 else f b c) ;;
    put_reg dest v ;;;
    inc_pc.

Definition alu_set (ra b : Z) : M S unit :=
  dest <- lift_panic (write_reg_key ra) ;;
  put_reg RegId.OF 0 ;;;
  put_reg RegId.ERR 0 ;;;
  put_reg dest b ;;;
  inc_pc.

Definition alu_clear : M S unit :=
  put_reg RegId.OF 0 ;;;
  put_reg RegId.ERR 0 ;;;
  inc_pc.

Definition alu_muldiv (ra lhs rhs divider : Z) : M S unit :=
  dest <- lift_panic (write_reg_key ra) ;;
  flag <- get_reg RegId.FLAG ;;
  r <- lift (muldiv lhs rhs divider) ;;
  if negb (snd r =? 0) && negb (is_wrapping flag) then mpanic ArithmeticOverflow
  else
    put_reg RegId.OF (snd r) ;;;
    put_reg RegId.ERR 0 ;;;
    put_reg dest (fst r) ;;;
    inc_pc.
End Alu.

(** ** Exponentiation is exact *)

Lemma overflowing_mul_fst w a b : fst (overflowing_mul w a b) = (a * b) mod 2 ^ w.
Proof. done. Qed.

Lemma pow_loop_overflown p acc base : snd (overflowing_pow_loop acc base true p) = true.
Proof.
  revert acc base. induction p as [p IH|p IH|]; intros acc base; cbn -[Z.pow].
  - apply IH.
  - apply IH.
  - by rewrite orb_true_r.
Qed.

Lemma pow_pos_ge1 b (p : positive) : 1 <= b -> b <= b ^ Zpos p.
Proof.
  intros Hb. rewrite <- (Z.pow_1_r b) at 1. apply Z.pow_le_mono_r; lia.
Qed.

Lemma mul_ge_trans a b x : U64 <= a * b -> 0 <= a -> b <= x -> U64 <= a * x.
Proof. nia. Qed.

(** Without an overflow flag the loop computes [acc * base ^ exp] exactly, and the flag is
    raised exactly when it was already set or that value does not fit. *)
Lemma overflowing_pow_loop_spec p : forall acc base,
  1 <= acc < U64 -> 1 <= base < U64 ->
  if acc * base ^ Zpos p <? U64
  then overflowing_pow_loop acc base false p = (acc * base ^ Zpos p, false)
  else snd (overflowing_pow_loop acc base false p) = true.
Proof.
  induction p as [p IH|p IH|]; intros acc base Hacc Hbase; cbn -[Z.pow Z.ltb];
    change (2 ^ 64) with U64.
  - assert (Hp : base ^ Zpos p~1 = base * (base * base) ^ Zpos p).
    { rewrite Pos2Z.inj_xI, Z.pow_add_r, Z.pow_mul_r, Z.pow_1_r, Z.pow_2_r by lia. lia. }
    rewrite Hp, Z.mul_assoc. pose proof (pow_pos_ge1 (base * base) p ltac:(nia)).
    destruct (Z.leb_spec U64 (acc * base)) as [H1|H1].
    { case_if; [nia|]. apply pow_loop_overflown. }
    destruct (Z.leb_spec U64 (base * base)) as [H2|H2].
    { case_if; [|rewrite ?orb_true_r; apply pow_loop_overflown].
      pose proof (mul_ge_trans 1 (base * base) (acc * base * (base * base) ^ Zpos p)). nia. }
    rewrite !Z.mod_small by nia. apply IH; nia.
  - assert (Hp : base ^ Zpos p~0 = (base * base) ^ Zpos p).
    { by rewrite Pos2Z.inj_xO, Z.pow_mul_r, Z.pow_2_r by lia. }
    rewrite Hp. pose proof (pow_pos_ge1 (base * base) p ltac:(nia)).
    destruct (Z.leb_spec U64 (base * base)) as [H2|H2].
    { case_if; [nia|]. apply pow_loop_overflown. }
    rewrite !Z.mod_small by nia. apply IH; nia.
  - rewrite Z.pow_1_r, orb_false_r. case_if.
    + rewrite Z.mod_small by nia. f_equal. apply Z.leb_gt. lia.
    + apply Z.leb_le. lia.
Qed.

Lemma overflowing_pow_spec b e :
  0 <= b < U64 -> 0 <= e ->
  if b ^ e <? U64 then overflowing_pow b e = (b ^ e, false)
  else snd (overflowing_pow b e) = true.
Proof.
  intros Hb He. destruct e as [|p|p]; [done| |lia]. unfold overflowing_pow.
  destruct (decide (b = 0)) as [->|].
  - rewrite Z.pow_0_l by lia. cbn [Z.ltb Z.compare]. generalize 1.
    induction p as [p IH|p IH|]; intros a; cbn -[Z.pow]; rewrite ?Z.mul_0_r; [apply IH; lia..|done].
  - pose proof (overflowing_pow_loop_spec p 1 b ltac:(lia) ltac:(lia)) as Hs.
    by rewrite Z.mul_1_l in Hs.
Qed.

Lemma checked_pow_spec b e :
  0 <= b < U64 -> 0 <= e ->
  checked_pow b e = if b ^ e <? U64 then Some (b ^ e) else None.
Proof.
  intros Hb He. pose proof (overflowing_pow_spec b e Hb He) as Hs. unfold checked_pow.
  case_if.
  - by rewrite Hs.
  - destruct (overflowing_pow b e) as [r o]. cbn in Hs. by subst o.
Qed.

Lemma exp_spec b c :
  u64_ok b -> u64_ok c ->
  if b ^ c <? U64 then exp b c = (b ^ c, false) else snd (exp b c) = true.
Proof.
  intros Hb Hc. unfold exp, try_u32, u64_ok in *. destruct (c <? U32) eqn:Ec; zbool.
  - apply overflowing_pow_spec; lia.
  - destruct (b <? 2) eqn:Eb; zbool.
    + assert (b = 0 \/ b = 1) as [-> | ->] by lia.
      * by rewrite Z.pow_0_l by lia.
      * by rewrite Z.pow_1_l by lia.
    + case_if; [|done]. exfalso.
      assert (2 ^ 64 <= 2 ^ c) by (apply Z.pow_le_mono_r; lia).
      assert (2 ^ c <= b ^ c) by (apply Z.pow_le_mono_l; lia). lia.
Qed.

(** ** Logarithms and roots *)

Lemma ilog_loop_spec fuel self base : forall n,
  0 < self < U64 -> 2 <= base -> 1 <= n -> base ^ n <= self -> 64 < n + Z.of_nat fuel ->
  exists k, ilog_loop fuel self base n (base ^ n) = Some k /\ n <= k /\
    base ^ k <= self < base ^ (k + 1).
Proof.
  induction fuel as [|f IH]; intros n Hs Hb Hn Hle Hf.
  - exfalso. assert (2 ^ n <= base ^ n) by (apply Z.pow_le_mono_l; lia).
    assert (2 ^ 64 < 2 ^ n) by (apply Z.pow_lt_mono_r; lia). lia.
  - cbn [ilog_loop]. assert (Hsucc : base ^ (n + 1) = base ^ n * base)
      by (rewrite Z.pow_add_r, Z.pow_1_r by lia; done).
    case_if.
    + rewrite <- Hsucc. destruct (IH (n + 1)) as (k & -> & ? & ?); try lia.
      * rewrite Hsucc. pose proof (Z.mul_div_le self base ltac:(lia)). nia.
      * exists k. split_and!; [done|lia|lia|lia].
    + exists n. split_and!; [done|lia|lia|]. rewrite Hsucc.
      pose proof (Z.mul_succ_div_gt self base ltac:(lia)). nia.
Qed.

Lemma checked_ilog_spec self base :
  0 < self < U64 -> 2 <= base ->
  exists k, checked_ilog self base = Some k /\ 0 <= k < 64 /\
    base ^ k <= self < base ^ (k + 1).
Proof.
  intros Hs Hb. unfold checked_ilog. case_if; [lia|]. case_if.
  - exists 0. rewrite Z.pow_0_r, Z.pow_1_r. split_and!; lia || done.
  - destruct (ilog_loop_spec 64 self base 1) as (k & Hk & Hn & Hr); try lia.
    rewrite Z.pow_1_r in Hk. exists k. split_and!; [done|lia| |lia|lia].
    assert (2 ^ k <= base ^ k) by (apply Z.pow_le_mono_l; lia).
    apply (Z.pow_lt_mono_r_iff 2); lia.
Qed.

(** [r] is the integer part of the [n]-th root of [t]. *)
Definition is_root (t n r : Z) : Prop := 0 <= r /\ r ^ n <= t < (r + 1) ^ n.

Lemma is_root_lt t n r : 2 <= n -> 2 <= t < U64 -> is_root t n r -> r < 4294967296.
Proof.
  intros Hn Ht (Hr & Hle & _). destruct (decide (r < 4294967296)); [done|].
  assert (4294967296 ^ 2 <= r ^ 2) by (apply Z.pow_le_mono_l; lia).
  assert (r ^ 2 <= r ^ n) by (apply Z.pow_le_mono_r; lia). lia.
Qed.

Lemma power_below t n v :
  0 <= t < U64 -> 0 <= v < U64 -> 0 <= n -> is_nth_power_below_target t n v = (t <? v ^ n).
Proof.
  intros Ht Hv Hn. unfold is_nth_power_below_target. rewrite checked_pow_spec by done.
  case_if; [done|]. symmetry. apply Z.ltb_lt. lia.
Qed.

Lemma checked_nth_root_spec `{Powf} t n r :
  u64_ok t -> u64_ok n -> 1 <= n -> is_root t n r ->
  (2 <= n <= 64 -> n < t -> r - 1 <= powf_guess t n <= r + 1 /\ 0 <= powf_guess t n) ->
  checked_nth_root t n = Ok (Some r).
Proof.
  intros Ht Hn Hn1 Hroot Hguess. unfold u64_ok in *. unfold checked_nth_root.
  pose proof Hroot as (Hr0 & Hle & Hlt).
  case_if; [lia|]. case_if.
  - do 2 f_equal. destruct (decide (n = 1)) as [->|].
    + rewrite !Z.pow_1_r in *. lia.
    + assert (t = 0 \/ t = 1) as [-> | ->] by lia.
      * destruct (decide (r = 0)); [done|]. pose proof (Z.pow_pos_nonneg r n). lia.
      * destruct (decide (r = 1)); [done|]. destruct (decide (r = 0)) as [->|].
        -- rewrite Z.pow_1_l in Hlt by lia. lia.
        -- assert (2 ^ n <= r ^ n) by (apply Z.pow_le_mono_l; lia).
           pose proof (Z.pow_gt_1 2 n). lia.
  - zbool. destruct ((t <=? n) || (64 <? n)) eqn:Ebig; zbool.
    + do 2 f_equal. assert (Hone : 1 ^ n <= t) by (rewrite Z.pow_1_l by lia; lia).
      assert (Htwo : t < 2 ^ n).
      { destruct Ebig as [?|?]; zbool.
        - pose proof (Z.pow_gt_lin_r 2 n ltac:(lia) ltac:(lia)). lia.
        - assert (2 ^ 64 <= 2 ^ n) by (apply Z.pow_le_mono_r; lia). lia. }
      destruct (decide (r = 1)); [done|]. destruct (decide (r = 0)) as [->|].
      * rewrite Z.pow_1_l in Hlt by lia. lia.
      * assert (2 ^ n <= r ^ n) by (apply Z.pow_le_mono_l; lia). lia.
    + zbool. specialize (Hguess ltac:(lia) ltac:(lia)).
      pose proof (is_root_lt t n r ltac:(lia) ltac:(lia) Hroot).
      unfold try_u32. case_if; [|lia]. cbn [expect obind].
      assert (Hr1 : forall v, 0 <= v <= r -> v ^ n <= t).
      { intros v Hv. assert (v ^ n <= r ^ n) by (apply Z.pow_le_mono_l; lia). lia. }
      rewrite !power_below by lia. case_if.
      * unfold saturating_sub. do 2 f_equal.
        destruct (decide (powf_guess t n <= r)); [specialize (Hr1 (powf_guess t n)); lia|lia].
      * rewrite checked_add_Some by lia. cbn [expect obind]. rewrite power_below by lia.
        case_if; do 2 f_equal.
        -- destruct (decide (powf_guess t n + 1 <= r)); [specialize (Hr1 (powf_guess t n + 1)); lia|].
           destruct (decide (powf_guess t n = r)); [done|].
           assert ((r + 1) ^ n <= powf_guess t n ^ n) by (apply Z.pow_le_mono_l; lia). lia.
        -- destruct (decide (powf_guess t n + 1 = r)); [done|].
           assert ((r + 1) ^ n <= (powf_guess t n + 1) ^ n)
             by (apply Z.pow_le_mono_l; lia). lia.
Qed.

Lemma shiftr_64 x : Z.shiftr x 64 = x / U64.
Proof. by rewrite Z.shiftr_div_pow2 by lia. Qed.

Lemma land_u64 x : Z.land x (U64 - 1) = x mod U64.
Proof. change (U64 - 1) with (Z.ones 64). by rewrite Z.land_ones by lia. Qed.

Lemma mod_u64_ok x : u64_ok (x mod U64).
Proof. apply Z.mod_pos_bound. lia. Qed.

Lemma muldiv_spec lhs rhs d :
  u64_ok lhs -> u64_ok rhs -> u64_ok d ->
  let q := if d =? 0 then lhs * rhs / U64 else lhs * rhs / d in
  muldiv lhs rhs d = Ok (q mod U64, q / U64) /\ u64_ok (q / U64).
Proof.
  intros Hl Hr Hd q. unfold u64_ok in *. unfold muldiv. case_if; [|nia]. cbn [expect obind].
  unfold checked_div. subst q. case_if.
  - assert (0 <= lhs * rhs / U64 < U64).
    { split; [apply Z.div_pos; nia|apply Z.div_lt_upper_bound; nia]. }
    rewrite shiftr_64, (Z.div_small (lhs * rhs / U64)) by lia. split; [done|lia].
  - assert (Hq : 0 <= lhs * rhs / d < U64 * U64).
    { split; [apply Z.div_pos; nia|apply Z.div_lt_upper_bound; nia]. }
    assert (0 <= lhs * rhs / d / U64 < U64).
    { split; [apply Z.div_pos; nia|apply Z.div_lt_upper_bound; lia]. }
    rewrite shiftr_64, (Z.mod_small (lhs * rhs / d / U64)) by lia. split; [done|lia].
Qed.

(** ** The handlers preserve the invariant *)

#[export] Hint Resolve mod_u64_ok : fuel.

Lemma u64_0 : u64_ok 0. Proof. done. Qed.
Lemma u64_bool b : u64_ok (bool_word b). Proof. by destruct b. Qed.
#[export] Hint Resolve u64_0 u64_bool : fuel.

Section AluSafe.
Context {S : Type} `{Sha256}.

Lemma safe_alu_capture_overflow ra f b c :
  RegId.ok ra -> safe any (alu_capture_overflow (S := S) ra f b c).
Proof.
  intros Hra. unfold alu_capture_overflow. rewrite land_u64. repeat safe_step.
Qed.

Lemma safe_alu_boolean_overflow ra f b c :
  RegId.ok ra -> (snd (f b c) = false -> u64_ok (fst (f b c))) ->
  safe any (alu_boolean_overflow (S := S) ra f b c).
Proof.
  intros Hra Hf. unfold alu_boolean_overflow. repeat safe_step.
  destruct (snd (f b c)) eqn:Eo; [done|auto].
Qed.

Lemma safe_alu_error ra f b c err :
  RegId.ok ra -> (err = false -> exists v, f b c = Ok v /\ u64_ok v) ->
  safe any (alu_error (S := S) ra f b c err).
Proof.
  intros Hra Hf. unfold alu_error. repeat safe_step.
  eapply (safe_bind u64_ok); [apply safe_lift|intros v Hv; repeat safe_step].
  destruct err; [by exists 0|auto].
Qed.

Lemma safe_alu_set ra b : RegId.ok ra -> u64_ok b -> safe any (alu_set (S := S) ra b).
Proof. intros. unfold alu_set. repeat safe_step. Qed.

Lemma safe_alu_clear : safe any (alu_clear (S := S)).
Proof. unfold alu_clear. repeat safe_step. Qed.

Lemma safe_alu_muldiv ra l r d :
  RegId.ok ra -> u64_ok l -> u64_ok r -> u64_ok d -> safe any (alu_muldiv (S := S) ra l r d).
Proof.
  intros Hra Hl Hr Hd. unfold alu_muldiv. do 2 safe_step.
  eapply (safe_bind (fun p => u64_ok (fst p) /\ u64_ok (snd p))).
  - apply safe_lift. destruct (muldiv_spec l r d) as [-> Hq]; [done..|].
    eexists; split; [done|]. cbn [fst snd]. eauto with fuel.
  - intros [q o] [Hq Ho]. cbn [fst snd] in *. repeat safe_step.
Qed.
End AluSafe.

(** ** Summary theorems *)

(** The overflow-capturing word operations. *)
Inductive WordOp : Type := WAdd | WSub | WMul.
Definition word_op (o : WordOp) : Z -> Z -> Z * bool :=
  match o with
  | WAdd => overflowing_add 128
  | WSub => overflowing_sub 128
  | WMul => overflowing_mul 128
  end.
Definition word_op_value (o : WordOp) (b c : Z) : Z :=
  match o with WAdd => b + c | WSub => b - c | WMul => b * c end.

(** The state after an arithmetic instruction. *)
Definition alu_result {S} (vm : Interpreter S) (dest v of_ err : Z) : Interpreter S :=
  let vm1 := set_reg (set_reg (set_reg vm RegId.OF of_) RegId.ERR err) dest v in
  set_reg vm1 RegId.PC (reg vm RegId.PC + Instruction_SIZE).

Lemma inc_pc_eq {S} (vm : Interpreter S) :
  reg vm RegId.PC + Instruction_SIZE < U64 ->
  inc_pc vm = (Ok tt, set_reg vm RegId.PC (reg vm RegId.PC + Instruction_SIZE)).
Proof.
  intros Hpc. unfold inc_pc, mbind_, get_reg, gets, lift_panic, lift, put_reg, modify.
  by rewrite checked_add_Some by done.
Qed.

(** C32: Addition, subtraction and multiplication are exact with captured overflow. When the
    true result fits a word, or wrapping is enabled, the destination receives the low 64 bits
    of the result, [$of] the next 64 bits (all ones after a borrow), [$err] is cleared and the
    program counter advances; otherwise the instruction panics with [ArithmeticOverflow] and
    changes nothing. *)
Theorem alu_capture_exact {S} (vm : Interpreter S) (o : WordOp) (ra b c : Z) :
  u64_ok b -> u64_ok c -> RegId.WRITABLE <= ra < 64 ->
  reg vm RegId.PC + Instruction_SIZE < U64 ->
  let v := word_op_value o b c in
  alu_capture_overflow ra (word_op o) b c vm =
    if (0 <=? v) && (v <? U64) || is_wrapping (reg vm RegId.FLAG)
    then (Ok tt, alu_result vm ra (v mod U64) (v / U64 mod U64) 0)
    else (Err (Recoverable ArithmeticOverflow), vm).
Proof.
  intros Hb Hc Hra Hpc v. unfold u64_ok in *.
  assert (Hres : fst (word_op o b c) = v mod U128).
  { by destruct o. }
  assert (Hv : - U128 < v < U128) by (subst v; destruct o; cbn; nia).
  unfold alu_capture_overflow, write_reg_key. case_if; [|lia].
  unfold mbind_, lift_panic, lift, get_reg, gets. cbn [omap_err].
  rewrite Hres, shiftr_64, land_u64.
  replace (U64 - 1 <? v mod U128) with (negb ((0 <=? v) && (v <? U64))).
  2:{ destruct (decide (0 <= v)); [rewrite Z.mod_small by lia; lia|].
      rewrite <- (Z_mod_plus_full v 1), Z.mod_small by lia.
      assert (- (U64 * U64 - 2 * U64) <= v) by (subst v; destruct o; cbn in *; nia). lia. }
  rewrite <- negb_orb. destruct (_ || _); cbn [negb]; [|done].
  replace (v mod U128 / U64 mod U64) with (v / U64 mod U64).
  2:{ change U128 with (U64 * U64). rewrite Z.rem_mul_r by lia.
      rewrite Z.add_comm, Z.mul_comm, Z.div_add_l by lia.
      rewrite (Z.div_small (v mod U64)) by (apply Z.mod_pos_bound; lia).
      by rewrite Z.add_0_r, Z.mod_mod by lia. }
  replace (v mod U128 mod U64) with (v mod U64).
  2:{ change U128 with (U64 * U64). rewrite Z.rem_mul_r by lia.
      rewrite Z.mul_comm, Z_mod_plus_full. by rewrite Z.mod_mod by lia. }
  unfold put_reg, modify. change RegId.WRITABLE with 16 in *.
  rewrite inc_pc_eq; rewrite !reg_set_ne; try done; change RegId.PC with 3; lia.
Qed.

(** An interpreter with the given registers and an empty memory. *)
Definition free_costs : GasCosts := mkGasCosts (fun _ => 1) (fun _ => HeavyOperation 1 0).
Definition params_default : InterpreterParams :=
  mkParams 0 free_costs 255 1048576 10368 1024 0 zeroed.
Definition vm_with (regs : list Z) (m : MemoryInstance) : Interpreter unit :=
  mkVM regs m [] receipts_default ∅ tt NotInitialized ∅ params_default PanicContext_None.
Definition regs_init : list Z :=
  [0; 1; 0; 0; 0; 0; 0; VM_MAX_RAM; 0; 1000; 1000; 0; 0; 0; 0; 0] ++ replicate 48 0.

Lemma alu_capture_exact_witness :
  alu_capture_overflow 20 (word_op WSub) 5 7 (vm_with (reg_put regs_init RegId.FLAG 2) mem_new) =
    (Ok tt, alu_result (vm_with (reg_put regs_init RegId.FLAG 2) mem_new) 20
      18446744073709551614 18446744073709551615 0) /\
  alu_capture_overflow 20 (word_op WSub) 5 7 (vm_with regs_init mem_new) =
    (Err (Recoverable ArithmeticOverflow), vm_with regs_init mem_new).
Proof.
  split.
  - rewrite (alu_capture_exact (vm_with (reg_put regs_init RegId.FLAG 2) mem_new) WSub 20 5 7);
      [reflexivity|split; reflexivity || discriminate|split; reflexivity || discriminate|
       split; [discriminate|reflexivity]|reflexivity].
  - rewrite (alu_capture_exact (vm_with regs_init mem_new) WSub 20 5 7);
      [reflexivity|split; reflexivity || discriminate|split; reflexivity || discriminate|
       split; [discriminate|reflexivity]|reflexivity].
Defined.

(** C33: Exponentiation by squaring is exact, for every exponent. When [b^c] fits a word the
    destination receives it and [$of] is cleared; otherwise the instruction panics, or under
    wrapping stores zero and sets [$of] to one. *)
Theorem alu_exp_exact {S} (vm : Interpreter S) (ra b c : Z) :
  u64_ok b -> u64_ok c -> RegId.WRITABLE <= ra < 64 ->
  reg vm RegId.PC + Instruction_SIZE < U64 ->
  alu_boolean_overflow ra exp b c vm =
    if b ^ c <? U64 then (Ok tt, alu_result vm ra (b ^ c) 0 0)
    else if is_wrapping (reg vm RegId.FLAG) then (Ok tt, alu_result vm ra 0 1 0)
    else (Err (Recoverable ArithmeticOverflow), vm).
Proof.
  intros Hb Hc Hra Hpc. pose proof (exp_spec b c Hb Hc) as Hs.
  unfold alu_boolean_overflow, write_reg_key. case_if; [|lia].
  unfold mbind_, lift_panic, lift, get_reg, gets. cbn [omap_err].
  change RegId.WRITABLE with 16 in *. unfold put_reg, modify.
  destruct (b ^ c <? U64).
  - rewrite Hs. cbn [fst snd andb]. cbn [bool_word].
    rewrite inc_pc_eq; rewrite !reg_set_ne; try done; change RegId.PC with 3; lia.
  - rewrite Hs. cbn [andb bool_word]. destruct (is_wrapping _); cbn [negb]; [|done].
    rewrite inc_pc_eq; rewrite !reg_set_ne; try done; change RegId.PC with 3; lia.
Qed.

Lemma alu_exp_exact_witness :
  alu_boolean_overflow 20 exp 3 40 (vm_with regs_init mem_new) =
    (Ok tt, alu_result (vm_with regs_init mem_new) 20 12157665459056928801 0 0).
Proof.
  rewrite (alu_exp_exact (vm_with regs_init mem_new) 20 3 40);
    [reflexivity|split; reflexivity || discriminate|split; reflexivity || discriminate|
     split; [discriminate|reflexivity]|reflexivity].
Defined.

(** C34: Fused multiply-divide has full intermediate precision. The quotient of the 128-bit
    product (a divisor of zero stands for 2^64) is returned as low word and overflow word;
    the two words together are the exact quotient, and the [expect] on the product never
    fails. *)
Theorem muldiv_exact (lhs rhs d : Z) :
  u64_ok lhs -> u64_ok rhs -> u64_ok d ->
  exists lo hi, muldiv lhs rhs d = Ok (lo, hi) /\ u64_ok lo /\ u64_ok hi /\
    lo + U64 * hi = lhs * rhs / (if d =? 0 then U64 else d).
Proof.
  intros Hl Hr Hd. destruct (muldiv_spec lhs rhs d Hl Hr Hd) as [E Ho]. cbn zeta in *.
  do 2 eexists. split; [exact E|]. split; [apply mod_u64_ok|]. split; [done|].
  rewrite (Z.add_comm _ (U64 * _)), <- Z.div_mod by lia. case_if; done.
Qed.

Lemma muldiv_exact_witness :
  exists lo hi, muldiv 18446744073709551615 4 2 = Ok (lo, hi) /\
    lo + U64 * hi = 36893488147419103230.
Proof.
  destruct (muldiv_exact 18446744073709551615 4 2) as (lo & hi & E & _ & _ & H);
    [split; reflexivity || discriminate..|].
  exists lo, hi. split; [exact E|]. rewrite H. reflexivity.
Defined.

(** C35: Integer roots and logarithms are exact. The logarithm returned for valid arguments
    is the integer part of the true one; and if the floating-point guess is off by at most
    one, as the code documents, the corrected root is the integer part of the true root, for
    every 64-bit radicand and degree. *)
Theorem root_log_exact `{Powf} (t n : Z) :
  u64_ok t -> u64_ok n -> 1 <= n ->
  (2 <= n -> 0 < t -> exists k, checked_ilog t n = Some k /\ n ^ k <= t < n ^ (k + 1)) /\
  (forall r, is_root t n r ->
    (2 <= n <= 64 -> n < t -> r - 1 <= powf_guess t n <= r + 1 /\ 0 <= powf_guess t n) ->
    checked_nth_root t n = Ok (Some r)).
Proof.
  intros Ht Hn Hn1. split.
  - intros Hn2 Ht0. destruct (checked_ilog_spec t n) as (k & E & _ & Hk);
      [unfold u64_ok in *; lia..|]. eauto.
  - intros r Hroot Hg. by apply checked_nth_root_spec.
Qed.

(** A guess that is one too large. *)
#[local] Instance powf_witness : Powf := fun _ _ => 11.

Lemma root_log_exact_witness :
  checked_nth_root 1007 3 = Ok (Some 10) /\
  exists k, checked_ilog 1007 3 = Some k /\ 3 ^ k <= 1007 < 3 ^ (k + 1).
Proof.
  destruct (root_log_exact 1007 3 ltac:(split; reflexivity || discriminate)
    ltac:(split; reflexivity || discriminate) ltac:(lia)) as [H1 H2].
  split.
  - apply (H2 10); [unfold is_root; lia|]. intros _ _. unfold powf_guess, powf_witness. lia.
  - apply H1; lia.
Defined.
