(* ===== verification/MemOps.v ===== *)
(** * Memory instructions

    The stack pointer, pushing and popping register segments, loads and stores, allocation,
    clearing, copying and comparing memory (the handlers of
    src/fuel-vm/src/interpreter/memory.rs), with their preservation of the invariant and the
    push/pop and store/load round trips. *)

From Stdlib Require Import Strings.Byte.
From S2P Require Import Prelude Asm Merkle Receipts Memory State Gas Alu.

(** [u32::count_ones], on the low [n] bits. *)
Fixpoint count_ones (n : nat) (x : Z) : Z :=
  match n with
  | O => 0
  | S n' => bool_word (Z.odd x) + count_ones n' (x / 2)
  end.

(** The loop reading the selected registers back from consecutive chunks; [base] is the
    absolute index of the register for bit [i]. *)
Fixpoint pop_loop (n : nat) (bs : list byte) (bitmask : Z) (base i k : Z) (regs : list Z)
  : outcome RuntimeError (list Z) :=
  match n with
  | O => Ok regs
  | S n' =>
      if negb (Z.land bitmask (Z.shiftl 1 i) =? 0) then
        if zlen bs <? (k + 1) * WORD_SIZE then Crash
        else
          let v := from_be_bytes (zslice bs (k * WORD_SIZE) ((k + 1) * WORD_SIZE)) in
          pop_loop n' bs bitmask base (i + 1) (k + 1) (reg_put regs (base + i) v)
      else pop_loop n' bs bitmask base (i + 1) k regs
  end.

Section Handlers.
Context {S : Type}.

(** [self.memory.as_ref().read_bytes(addr)] and [.read(addr, len)]. *)
Definition mem_read_bytes (addr n : Z) : M S (list byte) :=
  m <- gets memory ;; lift_panic (read_bytes m addr n).
Definition mem_read (addr n : Z) : M S (list byte) :=
  m <- gets memory ;; lift_panic (read m addr n).

Definition try_update_stack_pointer (new_sp : Z) : M S unit :=
  ssp <- get_reg RegId.SSP ;;
  hp <- get_reg RegId.HP ;;
  if new_sp <? ssp then mpanic MemoryOverflow
  else if hp <? new_sp then mpanic MemoryGrowthOverlap
  else
    put_reg RegId.SP new_sp ;;;
    update_memory (fun m => grow_stack m new_sp).

Definition stack_pointer_overflow (f : Z -> Z -> Z * bool) (v : Z) : M S unit :=
  sp <- get_reg RegId.SP ;;
  let new_sp := fst (f sp v) in
  if snd (f sp v) then mpanic MemoryOverflow
  else
    try_update_stack_pointer new_sp ;;;
    inc_pc.

(** ** Pushing and popping register segments *)

Inductive ProgramRegistersSegment : Type := Low | High.

(** Absolute index of the first of the segment's 24 registers. *)
Definition segment_base (s : ProgramRegistersSegment) : Z :=
  match s with Low => 16 | High => 40 end.
Definition segment (s : ProgramRegistersSegment) (regs : list Z) : list Z :=
  zslice regs (segment_base s) (segment_base s + 24).

(** The loop writing the selected registers to consecutive eight-byte chunks of the slice;
    [k] is the index of the next chunk. *)
Fixpoint push_loop (m : MemoryInstance) (s : SliceMut) (bitmask : Z) (i k : Z)
    (regs : list Z) : outcome PanicReason MemoryInstance :=
  match regs with
  | [] => Ok m
  | r :: rest =>
      if negb (Z.land bitmask (Z.shiftl 1 i) =? 0) then
        if slice_len s <? (k + 1) * WORD_SIZE then Crash
        else
          let item := mkSlice (s_region s) (s_start s + k * WORD_SIZE)
                        (s_start s + (k + 1) * WORD_SIZE) in
          let? m' := slice_copy_from_slice m item (to_be_bytes 8 r) in
          push_loop m' s bitmask (i + 1) (k + 1) rest
      else push_loop m s bitmask (i + 1) k rest
  end.

Definition push_selected_registers (seg : ProgramRegistersSegment) (bitmask : Z) : M S unit :=
  let count := count_ones 32 bitmask in
  write_size <- lift (expect (if count * WORD_SIZE <? U64 then Some (count * WORD_SIZE)
                              else None)) ;;
  write_at <- get_reg RegId.SP ;;
  let new_sp := saturating_add write_at write_size in
  try_update_stack_pointer new_sp ;;;
  regs <- gets registers ;;
  update_memory (fun m =>
    let? s := write_noownerchecks m write_at write_size in
    push_loop m s bitmask 0 0 (segment seg regs)) ;;;
  inc_pc.

Definition pop_selected_registers (seg : ProgramRegistersSegment) (bitmask : Z) : M S unit :=
  let count := count_ones 32 bitmask in
  size_in_stack <- lift (expect (if count * WORD_SIZE <? U64 then Some (count * WORD_SIZE)
                                 else None)) ;;
  sp <- get_reg RegId.SP ;;
  new_sp <- lift_panic (ok_or (checked_sub sp size_in_stack) MemoryOverflow) ;;
  try_update_stack_pointer new_sp ;;;
  bs <- mem_read new_sp size_in_stack ;;
  regs <- gets registers ;;
  regs' <- lift (pop_loop 24 bs bitmask (segment_base seg) 0 0 regs) ;;
  modify (fun vm => set_registers vm regs') ;;;
  inc_pc.

(** ** Loads and stores

    [store_u8], ..., [store_u64] and [load_u8], ..., [load_u64]; [n] is the size of the type
    in bytes. *)
Definition store (n : nat) (dst_addr value offset : Z) : M S unit :=
  owner <- gets ownership_registers ;;
  offset <- lift (expect (if offset * Z.of_nat n <? U64 then Some (offset * Z.of_nat n)
                          else None)) ;;
  addr <- lift_panic (ok_or (checked_add dst_addr offset) MemoryOverflow) ;;
  let value := value mod 256 ^ Z.of_nat n in
  update_memory (fun m => write_bytes m owner addr (to_be_bytes n value)) ;;;
  inc_pc.

Definition load (n : nat) (result src_addr offset : Z) : M S unit :=
  result <- lift_panic (write_reg_key result) ;;
  offset <- lift (expect (if offset * Z.of_nat n <? U64 then Some (offset * Z.of_nat n)
                          else None)) ;;
  addr <- lift_panic (ok_or (checked_add src_addr offset) MemoryOverflow) ;;
  bs <- mem_read_bytes addr (Z.of_nat n) ;;
  put_reg result (from_be_bytes bs) ;;;
  inc_pc.

(** ** Allocation, clearing, copying, comparing *)

(** [memory.grow_heap_by(sp, hp, amount)] with the heap pointer register. *)
Definition vm_grow_heap_by (amount : Z) : M S unit :=
  fun vm =>
    match grow_heap_by (memory vm) (reg vm RegId.SP) amount with
    | Ok (m, hp) => (Ok tt, set_reg (set_memory vm m) RegId.HP hp)
    | Err e => (Err (Recoverable e), vm)
    | Crash => (Crash, vm)
    end.

Definition malloc (a : Z) : M S unit := vm_grow_heap_by a ;;; inc_pc.

Definition memclear (a b : Z) : M S unit :=
  owner <- gets ownership_registers ;;
  update_memory (fun m => let? s := write m owner a b in slice_fill m s x00) ;;;
  inc_pc.

Definition memcopy_op (a b c : Z) : M S unit :=
  owner <- gets ownership_registers ;;
  update_memory (fun m => memcopy m a b c owner) ;;;
  inc_pc.

Definition memeq (ra b c d : Z) : M S unit :=
  result <- lift_panic (write_reg_key ra) ;;
  x <- mem_read b d ;;
  y <- mem_read c d ;;
  put_reg result (bool_word (bool_decide (x = y))) ;;;
  inc_pc.
End Handlers.

(** ** Memory updates and the invariant *)

Section MemSafe.
Context {S : Type} `{Sha256}.
Implicit Types (vm : Interpreter S).

Lemma wf_prev_hp vm : vm_wf vm -> reg vm RegId.HP <= prev_hp vm.
Proof.
  intros Hwf. unfold prev_hp, ownership_registers. cbn. pose proof (wf_hp _ (wf_mem _ Hwf)).
  pose proof (wf_frames _ Hwf) as Hf. rewrite (wf_hp_reg _ Hwf) in *.
  destruct (frames vm); [unfold MEM_SIZE in *; lia|]. cbn in Hf. lia.
Qed.

Lemma wf_set_memory vm m :
  vm_wf vm -> mem_wf m -> mhp m = mhp (memory vm) -> reg vm RegId.SP <= zlen (stack m) ->
  (forall x, x < reg vm RegId.SSP \/ prev_hp vm <= x -> mem_get m x = mem_get (memory vm) x) ->
  vm_wf (set_memory vm m) /\ local_step vm (set_memory vm m).
Proof.
  intros Hwf Hm Hhp Hsp Hx. split.
  - destruct Hwf. split; autorewrite with vm; try done. cbn. lia.
  - split; autorewrite with vm; try done. exists []. by rewrite app_nil_r.
Qed.

(** An update of an owned range. *)
Lemma wf_mem_upd vm a d m :
  vm_wf vm -> mem_upd (memory vm) a d m ->
  (forall x, a <= x < a + zlen d -> owned (ownership_registers vm) x) ->
  vm_wf (set_memory vm m) /\ local_step vm (set_memory vm m).
Proof.
  intros Hwf Hu Hown. pose proof (wf_prev_hp vm Hwf). pose proof (mem_upd_wf _ _ _ _ Hu (wf_mem _ Hwf)).
  destruct Hu as [(Hs & _ & Hp) Hx]. apply wf_set_memory; [done|done|done| |].
  - rewrite Hs. apply (wf_sp_stack _ Hwf).
  - intros x Hxr. rewrite Hx. case_if; [|done]. exfalso.
    destruct (Hown x) as [Ho|Ho]; [lia|..]; unfold ownership_registers in Ho; cbn in Ho.
    + pose proof (wf_sp _ Hwf). lia.
    + fold (ownership_registers vm) in *. unfold prev_hp, ownership_registers in *. cbn in *.
      pose proof (wf_sp _ Hwf). pose proof (wf_ssp _ Hwf). lia.
Qed.

(** Handlers that keep the ownership registers they were given. *)
Definition held {A} (o : OwnershipRegisters) (P : A -> Prop) (m : M S A) : Prop :=
  local (fun vm => ownership_registers vm = o) m
        (fun a vm => P a /\ ownership_registers vm = o).

Lemma held_bind {A B} o (P : A -> Prop) (Q : B -> Prop) (m : M S A) (f : A -> M S B) :
  held o P m -> (forall a, P a -> held o Q (f a)) -> held o Q (mbind_ m f).
Proof.
  intros Hm Hf. eapply local_bind; [exact Hm|]. intros a vm Hwf [Ha Ho]. by apply Hf.
Qed.

(** After the last use of the ownership registers any safe handler may follow. *)
Lemma held_then {A B} o (P : A -> Prop) (Q : B -> Prop) (m : M S A) (f : A -> M S B) :
  held o P m -> (forall a, P a -> safe Q (f a)) ->
  local (fun vm => ownership_registers vm = o) (mbind_ m f) (fun b _ => Q b).
Proof.
  intros Hm Hf. eapply local_bind; [exact Hm|]. intros a vm Hwf [Ha Ho]. by apply Hf.
Qed.

Lemma held_bind_then {A B} o (P : A -> Prop) (Q : B -> Prop) (m : M S A) (f : A -> M S B) :
  held o P m ->
  (forall a, P a -> local (fun vm => ownership_registers vm = o) (f a) (fun b _ => Q b)) ->
  local (fun vm => ownership_registers vm = o) (mbind_ m f) (fun b _ => Q b).
Proof.
  intros Hm Hf. eapply local_bind; [exact Hm|]. intros a vm Hwf [Ha Ho]. by apply (Hf a Ha).
Qed.

Lemma safe_owner {A} (P : A -> Prop) (f : OwnershipRegisters -> M S A) :
  (forall o, local (fun vm => ownership_registers vm = o) (f o) (fun a _ => P a)) ->
  safe P (o <- gets ownership_registers ;; f o).
Proof.
  intros Hf. eapply local_bind.
  - apply (local_gets _ _ (fun o vm => ownership_registers vm = o)). done.
  - intros o. apply Hf.
Qed.

Lemma held_put_reg o i v : free_reg i -> u64_ok v -> held o any (put_reg (S := S) i v).
Proof.
  intros Hi Hv. apply local_put_reg; [done|done|]. intros vm Hwf Ho. split; [done|].
  destruct Hi as (? & ? & ? & ? & ? & ? & _). rewrite <- Ho.
  unfold ownership_registers. autorewrite with vm.
  rewrite !reg_set_ne by (done || lia). done.
Qed.

Lemma held_pure {A} o (P : A -> Prop) (m : M S A) :
  (forall vm, snd (m vm) = vm) -> safe P m -> held o P m.
Proof.
  intros Hpure Hm vm Hwf Ho. pose proof (Hm vm Hwf I) as Hw. unfold wp in *.
  pose proof (Hpure vm) as Hp. destruct (m vm) as [[] v1]; cbn in Hp; subst v1; naive_solver.
Qed.

Lemma held_write_bytes o a d :
  0 <= a -> held o any (update_memory (S := S) (fun m => write_bytes m o a d)).
Proof.
  intros Ha vm Hwf Ho. apply wp_update_memory.
  pose proof (write_bytes_spec (memory vm) o a d (wf_mem _ Hwf) Ha) as Hs.
  destruct (write_bytes (memory vm) o a d) as [m'|e|]; [|by apply wf_err|done].
  destruct Hs as (_ & Hu & Hown).
  destruct (wf_mem_upd vm a d m' Hwf Hu) as [Hw Hl]; [|by split_and!].
  intros x Hx. rewrite Ho. by eapply has_ownership_range_owned.
Qed.

Lemma frames_ok_hp ssp hp hp' fs : frames_ok ssp hp fs -> hp' <= hp -> frames_ok ssp hp' fs.
Proof. destruct fs; cbn; [done|]. intuition lia. Qed.

Lemma frames_ok_ssp ssp ssp' hp fs : frames_ok ssp hp fs -> ssp <= ssp' -> frames_ok ssp' hp fs.
Proof. destruct fs; cbn; [done|]. intuition lia. Qed.

(** Clearing an owned range. *)
Lemma memclear_spec (m : MemoryInstance) o a n :
  mem_wf m -> 0 <= a -> 0 <= n ->
  match (let? s := write m o a n in slice_fill m s x00) with
  | Ok m' => accessible m a n /\ has_ownership_range o (mkRange a (a + n)) = true /\
      mem_upd m a (replicate (Z.to_nat n) x00) m'
  | Err e => True
  | Crash => False
  end.
Proof.
  intros Hm Ha Hn. destruct (write m o a n) as [s|e|] eqn:E; cbn [obind]; [|done|].
  - apply write_inv in E as (Hacc & Hown & Hs); [|done..].
    unfold slice_fill. replace (slice_len s) with n.
    2:{ unfold slice_len. destruct Hs as (_ & _ & Hs). destruct (s_region s); lia. }
    destruct (slice_copy_Ok m s a n (replicate (Z.to_nat n) x00) Hm Hs) as (m' & -> & Hu);
      [rewrite zlen_replicate; lia|]. done.
  - by apply write_no_crash in E.
Qed.

Lemma held_memclear o a n :
  u64_ok a -> u64_ok n ->
  held o any (update_memory (S := S) (fun m => let? s := write m o a n in slice_fill m s x00)).
Proof.
  intros [Ha _] [Hn _] vm Hwf Ho. apply wp_update_memory.
  pose proof (memclear_spec (memory vm) o a n (wf_mem _ Hwf) Ha Hn) as Hs.
  destruct (let? s := _ in _) as [m'|e|]; [|by apply wf_err|done].
  destruct Hs as (_ & Hown & Hu).
  destruct (wf_mem_upd vm a _ m' Hwf Hu) as [Hw Hl]; [|by split_and!].
  intros x. rewrite zlen_replicate, Z2Nat.id by done. rewrite Ho.
  by apply has_ownership_range_owned.
Qed.

Lemma held_memcopy o a b n :
  u64_ok a -> u64_ok b -> u64_ok n ->
  held o any (update_memory (S := S) (fun m => memcopy m a b n o)).
Proof.
  intros [Ha _] [Hb _] [Hn _] vm Hwf Ho. apply wp_update_memory.
  destruct (memcopy (memory vm) a b n o) as [m'|e|] eqn:E; [|by apply wf_err|].
  - destruct (memcopy_conditions (memory vm) a b n o) as (Aa & Ab & Hd & Hown); [done..|by rewrite E|].
    destruct (memcopy_Ok (memory vm) a b n o (wf_mem _ Hwf) Aa Ab Hd Hown)
      as (m1 & bs & E1 & <- & _ & Hu).
    assert (m1 = m') as -> by congruence.
    destruct (wf_mem_upd vm a bs m' Hwf Hu) as [Hw Hl]; [|by split_and!].
    intros x. rewrite Ho. by apply has_ownership_range_owned.
  - destruct (memcopy_conditions (memory vm) a b n o) as (Aa & Ab & Hd & Hown); [done..|by rewrite E|].
    destruct (memcopy_Ok (memory vm) a b n o (wf_mem _ Hwf) Aa Ab Hd Hown)
      as (m1 & bs & E1 & _). congruence.
Qed.

Lemma safe_mem_read a n :
  u64_ok a -> 0 <= n -> safe (fun bs => zlen bs = n) (mem_read (S := S) a n).
Proof.
  intros [Ha _] Hn vm Hwf _. unfold mem_read. apply wp_bind, wp_gets, wp_lift_panic.
  destruct (read (memory vm) a n) as [bs|e|] eqn:E; [|by apply wf_err|].
  - apply read_inv in E as (_ & ? & _); [|by apply wf_mem|done..]. by split_and!.
  - by apply read_no_crash in E; [|apply wf_mem|..].
Qed.

Lemma safe_mem_read_bytes a n :
  u64_ok a -> 0 <= n -> safe (fun bs => zlen bs = n) (mem_read_bytes (S := S) a n).
Proof.
  intros Ha Hn vm Hwf _. unfold mem_read_bytes, wp, mbind_, gets.
  rewrite (read_bytes_eq _ a n (wf_mem _ Hwf) (proj1 Ha) Hn). by apply (safe_mem_read a n).
Qed.

(** ** The handlers *)

(** Moving the stack pointer within the frame. *)
Lemma wf_set_sp vm sp m :
  vm_wf vm -> reg vm RegId.SSP <= sp <= reg vm RegId.HP -> mem_wf m ->
  mhp m = mhp (memory vm) -> sp <= zlen (stack m) ->
  (forall x, x < reg vm RegId.SSP \/ prev_hp vm <= x -> mem_get m x = mem_get (memory vm) x) ->
  vm_wf (set_memory (set_reg vm RegId.SP sp) m) /\
  local_step vm (set_memory (set_reg vm RegId.SP sp) m).
Proof.
  intros Hwf Hsp Hm Hhp Hlen Hx.
  assert (Hr : forall j, RegId.SP <> j ->
    reg (set_memory (set_reg vm RegId.SP sp) m) j = reg vm j)
    by (intros; rewrite reg_set_memory; by apply reg_set_ne).
  assert (Hs : reg (set_memory (set_reg vm RegId.SP sp) m) RegId.SP = sp).
  { rewrite reg_set_memory. apply reg_set_eq; [apply (wf_regs _ Hwf)|done]. }
  pose proof (wf_reg_u64 vm RegId.HP Hwf). pose proof (wf_reg_u64 vm RegId.SSP Hwf).
  split.
  - destruct Hwf. split; rewrite ?Hs, ?Hr by done; try done; cbn; try lia.
    apply regs_ok_put; [done|]. unfold u64_ok in *. lia.
  - split; rewrite ?Hr by done; try done. exists []. by rewrite app_nil_r.
Qed.

Lemma try_update_sp_wp vm new_sp (Q : unit -> Interpreter S -> Prop)
    (E : RuntimeError -> Interpreter S -> Prop) :
  vm_wf vm -> 0 <= new_sp ->
  (forall m, grow_stack (memory vm) new_sp = Ok m ->
    reg vm RegId.SSP <= new_sp <= reg vm RegId.HP -> mem_wf m ->
    mhp m = mhp (memory vm) -> zlen (stack m) = Z.max new_sp (zlen (stack (memory vm))) ->
    (forall x, mem_get m x = if (zlen (stack (memory vm)) <=? x) && (x <? new_sp) then Some x00
                             else mem_get (memory vm) x) ->
    vm_wf (set_memory (set_reg vm RegId.SP new_sp) m) ->
    local_step vm (set_memory (set_reg vm RegId.SP new_sp) m) ->
    Q tt (set_memory (set_reg vm RegId.SP new_sp) m)) ->
  (forall r, ~ (reg vm RegId.SSP <= new_sp <= reg vm RegId.HP) ->
    local_err (Recoverable r) vm vm -> E (Recoverable r) vm) ->
  wp (try_update_stack_pointer new_sp) Q E vm.
Proof.
  intros Hwf Hn HQ HE. unfold try_update_stack_pointer. do 2 (apply wp_bind, wp_get_reg).
  case_if; [by apply wp_merr, HE; [lia|apply wf_err]|].
  case_if; [by apply wp_merr, HE; [lia|apply wf_err]|].
  apply wp_bind, wp_put_reg, wp_update_memory. autorewrite with vm.
  pose proof (grow_stack_spec (memory vm) new_sp (wf_mem _ Hwf) Hn) as Hg.
  pose proof (wf_hp_reg _ Hwf).
  destruct (grow_stack (memory vm) new_sp) as [m|e|] eqn:Eg; [|lia|done].
  destruct Hg as (Hm & _ & Hp & Hl & Hx).
  assert (Hx' : forall x, x < reg vm RegId.SSP \/ prev_hp vm <= x ->
    mem_get m x = mem_get (memory vm) x).
  { intros x Hxr. rewrite Hx. case_if; [|done]. pose proof (wf_prev_hp vm Hwf).
    pose proof (wf_sp_stack _ Hwf). pose proof (wf_ssp _ Hwf). lia. }
  destruct (wf_set_sp vm new_sp m) as [Hw Hs]; try done; try lia. by apply HQ; try lia.
Qed.

Lemma safe_try_update_stack_pointer new_sp :
  0 <= new_sp -> safe any (try_update_stack_pointer (S := S) new_sp).
Proof.
  intros Hn vm Hwf _. apply try_update_sp_wp; [done|done| |done].
  intros m _ _ _ _ _ _ Hw Hs. by split_and!.
Qed.

Lemma safe_stack_pointer_overflow f v :
  (forall sp, u64_ok sp -> 0 <= fst (f sp v)) ->
  safe any (stack_pointer_overflow (S := S) f v).
Proof.
  intros Hf. unfold stack_pointer_overflow. safe_step. safe_step; [safe_step|].
  eapply safe_bind; [apply safe_try_update_stack_pointer; auto|]. intros _ _. safe_step.
Qed.

Lemma safe_expect_mul a b :
  0 <= a -> 0 <= b -> a * b < U64 ->
  safe (fun v => v = a * b)
    (lift (S := S) (expect (if a * b <? U64 then Some (a * b) else None))).
Proof. intros. apply safe_lift. case_if; [|lia]. eexists. done. Qed.

Lemma safe_checked_add a b :
  u64_ok a -> 0 <= b ->
  safe u64_ok (lift_panic (S := S) (ok_or (checked_add a b) MemoryOverflow)).
Proof.
  intros [Ha _] Hb. apply safe_lift_panic. unfold checked_add. case_if; cbn; [|done].
  unfold u64_ok. lia.
Qed.

Lemma safe_store n a v off :
  u64_ok a -> 0 <= off < 4096 -> (n <= 8)%nat -> safe any (store (S := S) n a v off).
Proof.
  intros Ha Hoff Hn. unfold store. apply safe_owner. intros o.
  assert (Hm : 0 <= off * Z.of_nat n < U64) by nia.
  eapply held_bind_then.
  { apply held_pure; [done|]. apply (safe_expect_mul off (Z.of_nat n)); lia. }
  intros _ ->. eapply held_bind_then.
  { apply held_pure; [done|]. apply safe_checked_add; [done|lia]. }
  intros addr Haddr. eapply held_then; [apply held_write_bytes; apply Haddr|].
  intros _ _. safe_step.
Qed.

Lemma safe_load n ra a off :
  RegId.ok ra -> u64_ok a -> 0 <= off < 4096 -> (n <= 8)%nat ->
  safe any (load (S := S) n ra a off).
Proof.
  intros Hra Ha Hoff Hn. unfold load. safe_step.
  assert (Hm : 0 <= off * Z.of_nat n < U64) by nia.
  eapply safe_bind; [apply (safe_expect_mul off (Z.of_nat n)); lia|]. intros _ ->.
  eapply safe_bind; [apply safe_checked_add; [done|lia]|]. intros addr Haddr.
  eapply safe_bind; [apply safe_mem_read_bytes; [done|lia]|]. intros bs Hbs.
  pose proof (from_be_bytes_range bs) as Hr. unfold zlen in Hbs. rewrite Hbs in Hr.
  assert (256 ^ Z.of_nat n <= 256 ^ 8) by (apply Z.pow_le_mono_r; lia).
  eapply safe_bind; [apply safe_put_reg; [done|unfold u64_ok; lia]|].
  intros _ _. safe_step.
Qed.

Lemma safe_vm_grow_heap_by amount : u64_ok amount -> safe any (vm_grow_heap_by (S := S) amount).
Proof.
  intros [Ha _] vm Hwf _. unfold wp, vm_grow_heap_by.
  pose proof (grow_heap_by_spec (memory vm) (reg vm RegId.SP) amount (wf_mem _ Hwf) Ha) as Hg.
  destruct (grow_heap_by _ _ _) as [[m hp]|e|]; [|by apply wf_err|done].
  destruct Hg as (Hm & Hhp & Hhp0 & Hmhp & Hsp & Hl & Hx).
  pose proof (wf_hp_reg _ Hwf) as Hreg. pose proof (wf_prev_hp vm Hwf).
  assert (Hr : forall j, RegId.HP <> j ->
    reg (set_reg (set_memory vm m) RegId.HP hp) j = reg vm j)
    by (intros; rewrite reg_set_ne by done; apply reg_set_memory).
  assert (Hs : reg (set_reg (set_memory vm m) RegId.HP hp) RegId.HP = hp)
    by (apply reg_set_eq; [apply (wf_regs _ Hwf)|done]).
  pose proof (wf_reg_u64 vm RegId.HP Hwf). split_and!; [| |done].
  - destruct Hwf. split; rewrite ?Hs, ?Hr by done; autorewrite with vm; try done; cbn; try lia.
    + apply regs_ok_put; [done|]. unfold u64_ok in *. lia.
    + eapply frames_ok_hp; [done|lia].
  - destruct Hwf. split; rewrite ?Hs, ?Hr by done; autorewrite with vm; try done; try lia.
    + intros x Hxr. cbn. rewrite Hx. case_if; [|done]. lia.
    + exists []. by rewrite app_nil_r.
Qed.

Lemma safe_malloc amount : u64_ok amount -> safe any (malloc (S := S) amount).
Proof.
  intros Ha. unfold malloc. eapply safe_bind; [by apply safe_vm_grow_heap_by|].
  intros _ _. safe_step.
Qed.

Lemma safe_memclear a b : u64_ok a -> u64_ok b -> safe any (memclear (S := S) a b).
Proof.
  intros Ha Hb. unfold memclear. apply safe_owner. intros o.
  eapply held_then; [by apply held_memclear|]. intros _ _. safe_step.
Qed.

Lemma safe_memcopy_op a b c :
  u64_ok a -> u64_ok b -> u64_ok c -> safe any (memcopy_op (S := S) a b c).
Proof.
  intros Ha Hb Hc. unfold memcopy_op. apply safe_owner. intros o.
  eapply held_then; [by apply held_memcopy|]. intros _ _. safe_step.
Qed.

Lemma safe_memeq ra b c d :
  RegId.ok ra -> u64_ok b -> u64_ok c -> u64_ok d -> safe any (memeq (S := S) ra b c d).
Proof.
  intros Hra Hb Hc Hd. unfold memeq. safe_step.
  eapply safe_bind; [apply safe_mem_read; [done|apply Hd]|]. intros x _.
  eapply safe_bind; [apply safe_mem_read; [done|apply Hd]|]. intros y _.
  repeat safe_step.
Qed.
End MemSafe.

(** ** Pushing and popping *)

(** The registers selected by the mask, starting at bit [i]. *)
Fixpoint selected (bitmask i : Z) (regs : list Z) : list Z :=
  match regs with
  | [] => []
  | r :: rest =>
      if Z.testbit bitmask i then r :: selected bitmask (i + 1) rest
      else selected bitmask (i + 1) rest
  end.

Definition words_bytes (l : list Z) : list byte := concat (map (to_be_bytes 8) l).

Lemma zlen_words_bytes l : zlen (words_bytes l) = 8 * zlen l.
Proof.
  induction l as [|x l IH]; [done|]. unfold words_bytes in *. cbn [map concat].
  rewrite zlen_app, IH, zlen_to_be_bytes. unfold zlen. cbn [length]. lia.
Qed.

Lemma land_bit b i : 0 <= i -> negb (Z.land b (Z.shiftl 1 i) =? 0) = Z.testbit b i.
Proof.
  intros Hi. rewrite Z.shiftl_1_l.
  assert (Hb : Z.land b (2 ^ i) = if Z.testbit b i then 2 ^ i else 0).
  { apply Z.bits_inj'. intros n Hn. rewrite Z.land_spec, Z.pow2_bits_eqb by lia.
    destruct (Z.eqb_spec i n) as [<-|Hne].
    - destruct (Z.testbit b i); [by rewrite Z.pow2_bits_true by lia|by rewrite Z.bits_0].
    - rewrite andb_false_r. destruct (Z.testbit b i); [|by rewrite Z.bits_0].
      by rewrite Z.pow2_bits_false. }
  rewrite Hb. destruct (Z.testbit b i); [|done]. pose proof (Z.pow_pos_nonneg 2 i).
  destruct (Z.eqb_spec (2 ^ i) 0); [lia|done].
Qed.

Lemma mem_upd_app m a d1 m1 d2 m2 :
  mem_upd m a d1 m1 -> mem_upd m1 (a + zlen d1) d2 m2 -> mem_upd m a (d1 ++ d2) m2.
Proof.
  intros [(Hs1 & Hh1 & Hp1) Hx1] [(Hs2 & Hh2 & Hp2) Hx2].
  split; [split_and!; congruence|]. intros x. rewrite Hx2, Hx1, zlen_app, zget_app.
  pose proof (zlen_nonneg d1). pose proof (zlen_nonneg d2).
  repeat case_if; try done; try lia. f_equal. lia.
Qed.

Lemma slice_denotes_shape m m' s a n :
  same_shape m m' -> slice_denotes m s a n -> slice_denotes m' s a n.
Proof.
  intros (Hs & Hh & Hp). unfold slice_denotes, heap_offset. by rewrite Hs, Hh, Hp.
Qed.

Lemma slice_denotes_sub m s a n k l :
  slice_denotes m s a n -> 0 <= k -> 0 <= l -> k + l <= n ->
  slice_denotes m (mkSlice (s_region s) (s_start s + k) (s_start s + k + l)) (a + k) l.
Proof.
  unfold slice_denotes. cbn. intros (Ha & Hn & Hs) Hk Hl Hkl.
  destruct (s_region s); lia.
Qed.

Lemma mem_upd_nil m a : mem_upd m a [] m.
Proof.
  split; [done|]. intros x. unfold zlen. cbn. case_if; [lia|done].
Qed.

Lemma push_loop_spec regs : forall m s a n bm i k,
  mem_wf m -> slice_denotes m s a n -> 0 <= i -> 0 <= k ->
  8 * (k + zlen (selected bm i regs)) <= n ->
  exists m', push_loop m s bm i k regs = Ok m' /\
    mem_upd m (a + 8 * k) (words_bytes (selected bm i regs)) m'.
Proof.
  induction regs as [|r regs IH]; intros m s a n bm i k Hm Hs Hi Hk Hn; cbn [push_loop selected] in *.
  - exists m. split; [done|]. apply mem_upd_nil.
  - rewrite land_bit by done. destruct (Z.testbit bm i).
    + unfold zlen in Hn at 1. cbn [length] in Hn. unfold WORD_SIZE.
      pose proof (zlen_nonneg (selected bm (i + 1) regs)) as Hnn. unfold zlen in Hnn.
      assert (Hlen : slice_len s = n).
      { unfold slice_len. destruct Hs as (_ & _ & Hs). destruct (s_region s); lia. }
      case_if; [lia|].
      pose proof (slice_denotes_sub m s a n (k * 8) 8 Hs) as Hsub.
      replace (s_start s + (k + 1) * 8) with (s_start s + k * 8 + 8) by lia.
      destruct (slice_copy_Ok m _ _ 8 (to_be_bytes 8 r) Hm (Hsub ltac:(lia) ltac:(lia) ltac:(lia)))
        as (m1 & -> & Hu1); [by rewrite zlen_to_be_bytes|]. cbn [obind].
      destruct (IH m1 s a n bm (i + 1) (k + 1)) as (m2 & -> & Hu2).
      * by eapply mem_upd_wf.
      * eapply slice_denotes_shape; [apply Hu1|done].
      * lia.
      * lia.
      * unfold zlen. lia.
      * exists m2. split; [done|]. unfold words_bytes. cbn [map concat].
        eapply mem_upd_app; [replace (a + 8 * k) with (a + k * 8) by lia; done|].
        rewrite zlen_to_be_bytes. by replace (a + 8 * k + Z.of_nat 8) with (a + 8 * (k + 1)) by lia.
    + apply (IH m s a n); [done|done|lia|done|done].
Qed.

(** ** Counting the selected registers *)

Lemma zlen_selected regs : forall bm i,
  0 <= i -> zlen (selected bm i regs) = count_ones (length regs) (bm / 2 ^ i).
Proof.
  induction regs as [|r regs IH]; intros bm i Hi; [done|]. cbn [selected length count_ones].
  assert (Hp : 0 < 2 ^ i) by (apply Z.pow_pos_nonneg; lia).
  rewrite Z.div_div by lia. replace (2 ^ i * 2) with (2 ^ (i + 1))
    by (rewrite Z.pow_add_r by lia; done).
  rewrite <- IH by lia. rewrite Z.testbit_odd, Z.shiftr_div_pow2 by lia.
  destruct (Z.odd _); cbn [bool_word]; unfold zlen; cbn [length]; lia.
Qed.

Lemma count_ones_zero n : count_ones n 0 = 0.
Proof. induction n as [|n IH]; [done|]. cbn [count_ones]. change (0 / 2) with 0. by rewrite IH. Qed.

Lemma count_ones_trunc n k x :
  0 <= x < 2 ^ Z.of_nat n -> count_ones (n + k) x = count_ones n x.
Proof.
  revert x. induction n as [|n IH]; intros x Hx.
  - cbn in Hx. assert (x = 0) as -> by lia. apply count_ones_zero.
  - cbn [Nat.add count_ones]. rewrite IH; [done|].
    rewrite Nat2Z.inj_succ, Z.pow_succ_r in Hx by lia.
    split; [apply Z.div_pos; lia|apply Z.div_lt_upper_bound; lia].
Qed.

Lemma count_ones_bound n x : 0 <= count_ones n x <= Z.of_nat n.
Proof.
  revert x. induction n as [|n IH]; intros x; [done|]. cbn [count_ones].
  specialize (IH (x / 2)). destruct (Z.odd x); cbn [bool_word]; lia.
Qed.

Lemma length_segment seg regs :
  zlen regs = VM_REGISTER_COUNT -> length (segment seg regs) = 24%nat.
Proof.
  intros Hl. unfold segment. assert (zlen (zslice regs (segment_base seg) (segment_base seg + 24)) = 24).
  { unfold VM_REGISTER_COUNT in Hl. rewrite zlen_slice; destruct seg; cbn; lia. }
  unfold zlen in *. lia.
Qed.

Lemma count_selected seg regs bm :
  zlen regs = VM_REGISTER_COUNT -> 0 <= bm < 2 ^ 24 ->
  count_ones 32 bm = zlen (selected bm 0 (segment seg regs)).
Proof.
  intros Hl Hbm. rewrite zlen_selected by lia. rewrite Z.pow_0_r, Z.div_1_r.
  rewrite (length_segment seg regs Hl). apply (count_ones_trunc 24 8). exact Hbm.
Qed.

(** ** Reading the words back *)

(** The first word of a chunked slice, and the slice after it. *)
Lemma words_chunk (bs rest : list byte) r k :
  0 <= k -> zlen bs = 8 * (k + 1) + zlen rest ->
  zslice bs (8 * k) (zlen bs) = to_be_bytes 8 r ++ rest ->
  zslice bs (k * 8) ((k + 1) * 8) = to_be_bytes 8 r /\
  zslice bs (8 * (k + 1)) (zlen bs) = rest.
Proof.
  intros Hk Hl Hbs. pose proof (zlen_nonneg rest).
  assert (Hget : forall j, 0 <= j < 8 + zlen rest ->
    zget bs (8 * k + j) = if j <? 8 then zget (to_be_bytes 8 r) j else zget rest (j - 8)).
  { intros j Hj. apply (f_equal (fun t => zget t j)) in Hbs.
    rewrite zget_slice, zget_app, zlen_to_be_bytes in Hbs by lia.
    rewrite (proj2 (Z.leb_le _ _)), (proj2 (Z.ltb_lt _ _)) in Hbs by lia. done. }
  split; apply zlist_eq; rewrite zlen_slice by lia; rewrite ?zlen_to_be_bytes; try lia;
    intros j Hj; rewrite zget_slice by lia; (case_if; [|lia]).
  - replace (k * 8 + j) with (8 * k + j) by lia. rewrite Hget by lia. case_if; [done|lia].
  - replace (8 * (k + 1) + j) with (8 * k + (j + 8)) by lia. rewrite Hget by lia.
    case_if; [lia|]. f_equal. lia.
Qed.

Lemma reg_get_cons r l x :
  reg_get (r :: l) x = if x =? 0 then r else reg_get l (x - 1).
Proof.
  unfold reg_get, zget. repeat case_if; try lia; try done.
  - by subst x.
  - by replace (Z.to_nat x) with (Datatypes.S (Z.to_nat (x - 1))) by lia.
Qed.

Lemma zlen_cons {A} (x : A) l : zlen (x :: l) = 1 + zlen l.
Proof. unfold zlen. cbn. lia. Qed.

Lemma pop_loop_spec l : forall bs bm base i k regs,
  0 <= i -> 0 <= k -> 0 <= base -> Forall u64_ok l ->
  base + i + zlen l <= zlen regs ->
  zlen bs = 8 * (k + zlen (selected bm i l)) ->
  zslice bs (8 * k) (zlen bs) = words_bytes (selected bm i l) ->
  exists regs', pop_loop (length l) bs bm base i k regs = Ok regs' /\
    zlen regs' = zlen regs /\ (Forall u64_ok regs -> Forall u64_ok regs') /\
    forall j, reg_get regs' j =
      if (base + i <=? j) && (j <? base + i + zlen l) && Z.testbit bm (j - base)
      then reg_get l (j - base - i) else reg_get regs j.
Proof.
  induction l as [|r l IH]; intros bs bm base i k regs Hi Hk Hb Hu Hlr Hlen Hbs;
    cbn [length pop_loop selected] in *.
  - exists regs. split_and!; try done. intros j. unfold zlen. cbn. case_if; [lia|done].
  - apply Forall_cons in Hu as [Hr Hu]. rewrite zlen_cons in *. rewrite land_bit by done.
    pose proof (zlen_nonneg l). set (sel := selected bm (i + 1) l) in *.
    destruct (Z.testbit bm i) eqn:Et.
    + rewrite zlen_cons in Hlen. pose proof (zlen_nonneg sel). unfold WORD_SIZE.
      case_if; [lia|]. change (words_bytes (r :: sel)) with (to_be_bytes 8 r ++ words_bytes sel) in Hbs.
      destruct (words_chunk bs (words_bytes sel) r k) as [-> Hrest];
        [lia|rewrite zlen_words_bytes; lia|done|].
      rewrite to_from_be_bytes by (unfold u64_ok in Hr; change (256 ^ Z.of_nat 8) with U64; lia).
      destruct (IH bs bm base (i + 1) (k + 1) (reg_put regs (base + i) r))
        as (regs' & -> & Hl' & Hu' & Hg'); try lia; try done;
        [rewrite zlen_reg_put; lia|fold sel; lia|].
      exists regs'. split_and!; [done|by rewrite Hl', zlen_reg_put| |].
      { intros Hf. apply Hu', Forall_insert; done. }
      intros j. rewrite Hg', reg_get_cons. destruct (decide (j = base + i)) as [->|Hne].
      * rewrite reg_get_put_eq by lia. replace (base + i - base) with i by lia.
        rewrite Et. repeat case_if; done || lia.
      * rewrite reg_get_put_ne by lia.
        replace (j - base - i - 1) with (j - base - (i + 1)) by lia. repeat case_if; done || lia.
    + destruct (IH bs bm base (i + 1) k regs) as (regs' & -> & Hl' & Hu' & Hg'); try lia; try done.
      exists regs'. split_and!; [done..|]. intros j. rewrite Hg', reg_get_cons.
      replace (j - base - i - 1) with (j - base - (i + 1)) by lia.
      destruct (decide (j = base + i)) as [->|Hne].
      * replace (base + i - base) with i by lia. rewrite Et, !andb_false_r. done.
      * repeat case_if; done || lia.
Qed.

Section PushPop.
Context {S : Type} `{Sha256}.
Implicit Types (vm : Interpreter S).

(** The interpreter after [sp] has been moved and the memory replaced. *)
Definition with_sp vm sp m : Interpreter S := set_memory (set_reg vm RegId.SP sp) m.

Lemma reg_with_sp vm sp m i :
  zlen (registers vm) = VM_REGISTER_COUNT ->
  reg (with_sp vm sp m) i = if i =? RegId.SP then sp else reg vm i.
Proof.
  intros Hl. unfold with_sp. rewrite reg_set_memory. case_if.
  - subst i. by apply reg_set_eq.
  - apply reg_set_ne; [done|congruence].
Qed.

Definition pushed vm seg bm : list Z := selected bm 0 (segment seg (registers vm)).

Lemma segment_set_sp regs seg sp :
  segment seg (reg_put regs RegId.SP sp) = segment seg regs.
Proof.
  unfold segment, zslice, reg_put. rewrite drop_insert_lt; [done|].
  destruct seg; vm_compute; lia.
Qed.

(** Pushing: the stack pointer moves up by eight bytes per selected register, and the new
    bytes are the selected registers in order. *)
Lemma push_wp vm seg bm (Q : unit -> Interpreter S -> Prop) E :
  vm_wf vm -> 0 <= bm < 2 ^ 24 ->
  (forall m, let sp' := reg vm RegId.SP + 8 * zlen (pushed vm seg bm) in
    sp' <= reg vm RegId.HP -> sp' <= zlen (stack m) ->
    mem_shows m (reg vm RegId.SP) (words_bytes (pushed vm seg bm)) ->
    vm_wf (with_sp vm sp' m) -> local_step vm (with_sp vm sp' m) ->
    wp inc_pc Q E (with_sp vm sp' m)) ->
  (forall r vm', local_err (Recoverable r) vm vm' -> E (Recoverable r) vm') ->
  wp (push_selected_registers seg bm) Q E vm.
Proof.
  intros Hwf Hbm HQ HE. pose proof (wf_regs _ Hwf) as [Hl _].
  unfold push_selected_registers. rewrite (count_selected seg (registers vm)) by done.
  fold (pushed vm seg bm). set (n := zlen (pushed vm seg bm)) in *.
  assert (Hn : 0 <= n <= 24).
  { unfold n, pushed. rewrite zlen_selected, length_segment by done. apply count_ones_bound. }
  pose proof (wf_reg_u64 vm RegId.SP Hwf) as [Hsp0 _]. pose proof (wf_hp _ (wf_mem _ Hwf)).
  pose proof (wf_sp _ Hwf). pose proof (wf_hp_reg _ Hwf).
  apply wp_bind, wp_lift. unfold WORD_SIZE. case_if; [|lia]. cbn [expect].
  apply wp_bind, wp_get_reg, wp_bind. unfold saturating_add.
  rewrite Z.min_l by mem_lia. replace (n * 8) with (8 * n) by lia.
  apply try_update_sp_wp; [done|lia| |by intros r Hr; apply HE].
  intros m Hg Hr Hm Hmhp Hst Hx Hw1 Hs1. fold (with_sp vm (reg vm RegId.SP + 8 * n) m) in *.
  set (vm1 := with_sp vm (reg vm RegId.SP + 8 * n) m) in *.
  apply wp_bind, wp_gets, wp_bind, wp_update_memory. cbn [memory vm1 with_sp set_memory].
  destruct (write_noownerchecks_Ok m (reg vm RegId.SP) (8 * n) Hm) as (s & -> & Hs);
    [unfold accessible; mem_lia|]. cbn [obind].
  change (registers vm1) with (reg_put (registers vm) RegId.SP (reg vm RegId.SP + 8 * n)).
  rewrite segment_set_sp.
  destruct (push_loop_spec (segment seg (registers vm)) m s (reg vm RegId.SP) (8 * n) bm 0 0)
    as (m2 & -> & Hu); [done|done|lia|lia|unfold n, pushed; lia|].
  rewrite Z.add_0_r in Hu. fold (pushed vm seg bm) in Hu.
  change (set_memory vm1 m2) with (with_sp vm (reg vm RegId.SP + 8 * n) m2).
  destruct (wf_mem_upd vm1 (reg vm RegId.SP) (words_bytes (pushed vm seg bm)) m2 Hw1 Hu)
    as [Hw2 Hs2].
  { intros x. rewrite zlen_words_bytes. fold n. intros Hxr. left.
    unfold ownership_registers. cbn [o_ssp o_sp]. unfold vm1. rewrite !reg_with_sp by done.
    reg_eqb. pose proof (wf_ssp _ Hwf). lia. }
  apply HQ; [lia| |by eapply mem_upd_shows|exact Hw2|].
  - destruct Hu as [(-> & _) _]. lia.
  - etrans; [exact Hs1|exact Hs2].
Qed.

Lemma safe_push_selected_registers seg bm :
  0 <= bm < 2 ^ 24 -> safe any (push_selected_registers (S := S) seg bm).
Proof.
  intros Hbm vm Hwf _. apply push_wp; [done|done| |done].
  intros m sp' _ _ _ Hw Hs. by apply (safe_after any inc_pc); [apply safe_inc_pc|..].
Qed.

(** Replacing program registers keeps the invariant. *)
Lemma wf_set_registers vm regs :
  vm_wf vm -> regs_ok regs -> (forall i, i < 16 -> reg_get regs i = reg vm i) ->
  vm_wf (set_registers vm regs) /\ local_step vm (set_registers vm regs).
Proof.
  intros Hwf Hr Hi.
  assert (Hreg : forall i, i < 16 -> reg (set_registers vm regs) i = reg vm i) by done.
  split.
  - destruct Hwf. split; rewrite ?Hreg by done; done.
  - split; rewrite ?Hreg by done; try done. exists []. by rewrite app_nil_r.
Qed.

(** Shrinking the stack pointer leaves the buffer alone. *)
Lemma grow_stack_shrink (m : MemoryInstance) sp :
  mem_wf m -> 0 <= sp <= zlen (stack m) -> grow_stack m sp = Ok m.
Proof.
  intros [] Hsp. unfold grow_stack. repeat case_if; mem_lia || done.
Qed.

Lemma count_ones_selected bm vals :
  0 <= bm < 2 ^ 24 -> length vals = 24%nat ->
  count_ones 32 bm = zlen (selected bm 0 vals) /\ 0 <= zlen (selected bm 0 vals) <= 24.
Proof.
  intros Hbm Hl. rewrite zlen_selected, Hl, Z.pow_0_r, Z.div_1_r by lia.
  split; [by apply (count_ones_trunc 24 8)|apply count_ones_bound].
Qed.

(** The register file after popping [vals]. *)
Definition popped vm seg bm (vals : list Z) (sp j : Z) : Z :=
  if j =? RegId.SP then sp
  else if (segment_base seg <=? j) && (j <? segment_base seg + 24)
          && Z.testbit bm (j - segment_base seg)
  then reg_get vals (j - segment_base seg) else reg vm j.

Lemma pop_registers vm seg bm vals sp m :
  vm_wf vm -> length vals = 24%nat -> Forall u64_ok vals -> vm_wf (with_sp vm sp m) ->
  exists regs, pop_loop 24 (words_bytes (selected bm 0 vals)) bm (segment_base seg) 0 0
      (registers (with_sp vm sp m)) = Ok regs /\
    (forall j, reg_get regs j = popped vm seg bm vals sp j) /\
    vm_wf (set_registers (with_sp vm sp m) regs) /\
    local_step (with_sp vm sp m) (set_registers (with_sp vm sp m) regs).
Proof.
  intros Hwf Hvl Hvu Hw1. pose proof (wf_regs _ Hwf) as [Hl _]. pose proof (wf_regs _ Hw1) as [Hl1 Hu1].
  destruct (pop_loop_spec vals (words_bytes (selected bm 0 vals)) bm (segment_base seg) 0 0
    (registers (with_sp vm sp m))) as (regs & E & Hl' & Hu' & Hg);
    [lia|lia|destruct seg; done|done|rewrite Hl1; unfold zlen; rewrite Hvl; destruct seg; done|
     rewrite zlen_words_bytes; lia|apply zslice_all|].
  rewrite Hvl in E. exists regs. split; [done|].
  assert (Hp : forall j, reg_get regs j = popped vm seg bm vals sp j).
  { intros j. rewrite Hg. unfold zlen. rewrite Hvl, Z.add_0_r, Z.sub_0_r.
    change (reg_get (registers (with_sp vm sp m)) j) with (reg (with_sp vm sp m) j).
    rewrite reg_with_sp by done. unfold popped. change RegId.SP with 5.
    destruct seg; cbn [segment_base]; repeat case_if; done || lia. }
  split; [done|]. apply wf_set_registers; [done|split; [by rewrite Hl'|auto]|].
  intros i Hi. rewrite Hp, reg_with_sp by done. unfold popped.
  destruct seg; cbn [segment_base]; repeat case_if; done || lia.
Qed.

(** Popping when the stack top holds the words of [vals]. *)
Lemma pop_wp vm seg bm vals (Q : unit -> Interpreter S -> Prop) E :
  let sp := reg vm RegId.SP - 8 * zlen (selected bm 0 vals) in
  vm_wf vm -> 0 <= bm < 2 ^ 24 -> length vals = 24%nat -> Forall u64_ok vals ->
  reg vm RegId.SSP <= sp ->
  mem_shows (memory vm) sp (words_bytes (selected bm 0 vals)) ->
  (forall regs, (forall j, reg_get regs j = popped vm seg bm vals sp j) ->
    vm_wf (set_registers (with_sp vm sp (memory vm)) regs) ->
    local_step vm (set_registers (with_sp vm sp (memory vm)) regs) ->
    wp inc_pc Q E (set_registers (with_sp vm sp (memory vm)) regs)) ->
  wp (pop_selected_registers seg bm) Q E vm.
Proof.
  intros sp Hwf Hbm Hvl Hvu Hssp Hshow HQ.
  destruct (count_ones_selected bm vals Hbm Hvl) as [Hcount Hn].
  pose proof (wf_reg_u64 vm RegId.SSP Hwf) as [Hssp0 _]. pose proof (wf_sp_stack _ Hwf).
  pose proof (wf_hp _ (wf_mem _ Hwf)). pose proof (wf_sp _ Hwf). pose proof (wf_hp_reg _ Hwf).
  unfold pop_selected_registers. rewrite Hcount. unfold WORD_SIZE.
  apply wp_bind, wp_lift. case_if; [|lia]. cbn [expect]. rewrite (Z.mul_comm _ 8).
  apply wp_bind, wp_get_reg, wp_bind, wp_lift_panic. rewrite checked_sub_Some by lia.
  cbn [ok_or]. fold sp. apply wp_bind, try_update_sp_wp; [done|lia| |intros r Hr; lia].
  intros m Hg _ Hm _ _ _ Hw1 Hs1. rewrite grow_stack_shrink in Hg by (apply (wf_mem _ Hwf) || lia).
  injection Hg as <-. fold (with_sp vm sp (memory vm)) in *.
  apply wp_bind, wp_bind, wp_gets, wp_lift_panic.
  change (memory (with_sp vm sp (memory vm))) with (memory vm).
  rewrite <- zlen_words_bytes, mem_shows_read;
    [|done|rewrite zlen_words_bytes; unfold accessible; mem_lia|done].
  destruct (pop_registers vm seg bm vals sp (memory vm)) as (regs & Ep & Hp & Hw2 & Hs2); [done..|].
  apply wp_bind, wp_gets, wp_bind, wp_lift. rewrite Ep. apply wp_bind, wp_modify.
  apply HQ; [done|done|by etrans].
Qed.

(** Any bytes of the right length are the words of some registers. *)
Lemma words_decode n : forall bm i bs,
  0 <= i -> zlen bs = 8 * count_ones n (bm / 2 ^ i) ->
  exists vals, length vals = n /\ Forall u64_ok vals /\ words_bytes (selected bm i vals) = bs.
Proof.
  induction n as [|n IH]; intros bm i bs Hi Hl; cbn [count_ones] in Hl.
  - exists []. destruct bs; [done|]. unfold zlen in Hl. cbn in Hl. lia.
  - assert (Hp : 0 < 2 ^ i) by (apply Z.pow_pos_nonneg; lia).
    rewrite Z.div_div in Hl by lia. replace (2 ^ i * 2) with (2 ^ (i + 1)) in Hl
      by (rewrite Z.pow_add_r by lia; done).
    replace (Z.odd (bm / 2 ^ i)) with (Z.testbit bm i) in Hl
      by (by rewrite Z.testbit_odd, Z.shiftr_div_pow2 by lia).
    pose proof (count_ones_bound n (bm / 2 ^ (i + 1))).
    destruct (Z.testbit bm i) eqn:Et; cbn [bool_word] in Hl.
    + destruct (IH bm (i + 1) (drop 8 bs)) as (vals & Hvl & Hu & Hw);
        [lia|unfold zlen in *; rewrite length_drop; lia|].
      exists (from_be_bytes (take 8 bs) :: vals). cbn [length selected]. rewrite Et.
      assert (H8 : length (take 8 bs) = 8%nat) by (rewrite length_take; unfold zlen in Hl; lia).
      split_and!; [lia| |].
      * constructor; [|done]. pose proof (from_be_bytes_range (take 8 bs)) as Hr.
        by rewrite H8 in Hr.
      * change (to_be_bytes 8 (from_be_bytes (take 8 bs)) ++ words_bytes (selected bm (i + 1) vals) = bs).
        rewrite Hw. rewrite <- H8 at 1. rewrite from_to_be_bytes. apply take_drop.
    + destruct (IH bm (i + 1) bs) as (vals & Hvl & Hu & Hw); [lia|lia|].
      exists (0 :: vals). cbn [length selected]. rewrite Et.
      split_and!; [lia|by constructor|done].
Qed.

Lemma safe_pop_selected_registers seg bm :
  0 <= bm < 2 ^ 24 -> safe any (pop_selected_registers (S := S) seg bm).
Proof.
  intros Hbm vm Hwf _. pose proof (wf_reg_u64 vm RegId.SSP Hwf) as [Hssp0 _].
  pose proof (wf_sp_stack _ Hwf). pose proof (wf_mem _ Hwf) as Hm. pose proof Hm as [].
  pose proof (wf_sp _ Hwf). pose proof (wf_hp_reg _ Hwf). pose proof (count_ones_bound 24 bm).
  assert (Hc : count_ones 32 bm = count_ones 24 bm) by by apply (count_ones_trunc 24 8).
  set (sp := reg vm RegId.SP - 8 * count_ones 24 bm).
  destruct (decide (reg vm RegId.SSP <= sp)) as [Hle|Hgt].
  - destruct (read_Ok (memory vm) sp (8 * count_ones 24 bm) Hm) as (bs & _ & Hl & Hs);
      [unfold accessible; subst sp; mem_lia|].
    destruct (words_decode 24 bm 0 bs) as (vals & Hvl & Hu & <-);
      [lia|by rewrite Z.pow_0_r, Z.div_1_r|].
    rewrite zlen_words_bytes in Hl.
    assert (Hn : 8 * zlen (selected bm 0 vals) = 8 * count_ones 24 bm) by lia.
    apply (pop_wp vm seg bm vals); rewrite ?Hn; fold sp; try done.
    intros regs _ Hw Hs'. by apply (safe_after any inc_pc); [apply safe_inc_pc|..].
  - unfold pop_selected_registers. rewrite Hc. unfold WORD_SIZE.
    apply wp_bind, wp_lift. case_if; [|lia]. cbn [expect].
    apply wp_bind, wp_get_reg, wp_bind, wp_lift_panic. rewrite (Z.mul_comm _ 8).
    destruct (decide (8 * count_ones 24 bm <= reg vm RegId.SP)) as [Hle|];
      [rewrite checked_sub_Some by lia; cbn [ok_or]
      |rewrite checked_sub_None by lia; cbn [ok_or]; by apply wf_err].
    apply wp_bind. unfold try_update_stack_pointer. do 2 (apply wp_bind, wp_get_reg).
    case_if; [by apply wp_merr, wf_err|subst sp; lia].
Qed.

(** C37: Popping restores what was pushed. After pushing any selection of a register segment,
    however the program registers are overwritten in between, popping the same selection from
    the unchanged stack succeeds, restores exactly the selected registers and the stack
    pointer, and changes no other program register and no memory. *)
Theorem push_pop_roundtrip vm seg bm vm1 regs :
  vm_wf vm -> 0 <= bm < 2 ^ 24 ->
  push_selected_registers seg bm vm = (Ok tt, vm1) ->
  regs_ok regs -> (forall i, i < 16 -> reg_get regs i = reg vm1 i) ->
  reg vm1 RegId.PC + Instruction_SIZE < U64 ->
  exists vm2, pop_selected_registers seg bm (set_registers vm1 regs) = (Ok tt, vm2) /\
    memory vm2 = memory vm1 /\ reg vm2 RegId.SP = reg vm RegId.SP /\
    forall j, 16 <= j < 64 ->
      reg vm2 j = if (segment_base seg <=? j) && (j <? segment_base seg + 24)
                     && Z.testbit bm (j - segment_base seg)
                  then reg vm j else reg_get regs j.
Proof.
  intros Hwf Hbm Hpush Hregs Hsys Hpc.
  assert (Hp : wp (push_selected_registers seg bm)
    (fun _ v1 => vm_wf v1 /\ local_step vm v1 /\
      reg v1 RegId.SP = reg vm RegId.SP + 8 * zlen (pushed vm seg bm) /\
      mem_shows (memory v1) (reg vm RegId.SP) (words_bytes (pushed vm seg bm)))
    (fun _ _ => True) vm).
  { apply push_wp; [done|done| |done]. intros m sp' Hhp Hst Hsh Hw Hs.
    pose proof (safe_after any inc_pc vm _ safe_inc_pc Hw Hs) as Hi.
    unfold wp, inc_pc, mbind_, get_reg, gets, lift_panic, lift, put_reg, modify in *.
    destruct (ok_or _ _) as [pc'| |]; cbn [omap_err] in *; [|done|done].
    destruct Hi as (? & ? & _). split_and!; [done|done| |done].
    rewrite reg_set_ne by done. by rewrite reg_with_sp by apply (wf_regs _ Hwf). }
  unfold wp in Hp. rewrite Hpush in Hp. destruct Hp as (Hw1 & Hs1 & Hsp1 & Hsh).
  pose proof (wf_regs _ Hwf) as [Hl Hu].
  destruct (wf_set_registers vm1 regs Hw1 Hregs Hsys) as [Hw1' _].
  assert (Hr1 : forall i, i < 16 -> reg (set_registers vm1 regs) i = reg vm1 i) by done.
  assert (Hpop : wp (pop_selected_registers seg bm)
    (fun _ v2 => memory v2 = memory vm1 /\ forall j, j <> RegId.PC ->
       reg v2 j = popped (set_registers vm1 regs) seg bm (segment seg (registers vm))
                    (reg vm RegId.SP) j)
    (fun _ _ => False) (set_registers vm1 regs)).
  { apply (pop_wp _ seg bm (segment seg (registers vm))); fold (pushed vm seg bm);
      rewrite ?Hr1, ?Hsp1 by done; rewrite ?Z.add_simpl_r; try done.
    - by apply length_segment.
    - by apply Forall_take, Forall_drop.
    - rewrite (ls_ssp _ _ Hs1). apply (wf_ssp _ Hwf).
    - intros regs2 Hg Hw2 Hs2. unfold wp. rewrite inc_pc_eq; [split; [done|]|].
      + intros j Hj. rewrite reg_set_ne by done. apply Hg.
      + change (reg_get regs2 RegId.PC + Instruction_SIZE < U64). rewrite Hg. unfold popped.
        change RegId.PC with 3 in *. change RegId.SP with 5.
        destruct seg; cbn; rewrite Hr1 by done; done. }
  unfold wp in Hpop. destruct (pop_selected_registers seg bm _) as [[[]| |] vm2]; try done.
  exists vm2. destruct Hpop as [Hm2 Hr2]. split_and!; [done|done| |].
  - by rewrite Hr2.
  - intros j Hj. rewrite Hr2 by (change RegId.PC with 3; lia). unfold popped.
    change RegId.SP with 5. case_if; [lia|]. case_if; [|done].
    zbool. unfold segment, reg_get, reg. rewrite zget_slice.
    + case_if; [by replace (segment_base seg + (j - segment_base seg)) with j by lia|lia].
    + destruct seg; cbn; lia.
    + rewrite Hl. unfold VM_REGISTER_COUNT. destruct seg; cbn; lia.
Qed.
End PushPop.

#[local] Instance sha_identity : Sha256 := fun l => l.

(** A small machine: 64 bytes of stack above a 16-byte system area, and 1000 gas. *)
Definition memory_64 : MemoryInstance := mkMemory (replicate 64 x00) [] MEM_SIZE.
Definition regs_64 : list Z :=
  reg_put (reg_put (reg_put (reg_put regs_init RegId.SSP 16) RegId.SP 32) 16 7) 18 9.
Definition vm_64 : Interpreter unit := vm_with regs_64 memory_64.

Lemma regs_ok_compute regs :
  (zlen regs =? 64) && forallb (fun v => (0 <=? v) && (v <? U64)) regs = true -> regs_ok regs.
Proof.
  intros H. apply andb_prop in H as [Hl Hf]. apply Z.eqb_eq in Hl. split; [exact Hl|].
  apply Forall_forall. intros v Hv. rewrite forallb_forall in Hf.
  specialize (Hf v (proj1 (list_elem_of_In _ _) Hv)). unfold u64_ok. lia.
Defined.

Lemma free_costs_ok : costs_ok free_costs.
Proof. split; intros c; repeat split; discriminate. Defined.

Lemma params_default_ok : params_ok params_default.
Proof.
  split; [exact free_costs_ok|]. repeat split; reflexivity || discriminate.
Defined.

Lemma memory_64_wf : mem_wf memory_64.
Proof. split; vm_compute; repeat split; discriminate. Defined.

Lemma vm_64_wf : vm_wf vm_64.
Proof.
  split.
  - apply regs_ok_compute. vm_compute. reflexivity.
  - reflexivity.
  - reflexivity.
  - exact memory_64_wf.
  - reflexivity.
  - vm_compute. discriminate.
  - vm_compute. discriminate.
  - vm_compute. discriminate.
  - reflexivity.
  - exact I.
  - apply receipts_default_ok.
  - vm_compute. discriminate.
  - exact I || (split; reflexivity || discriminate).
  - exact params_default_ok.
Defined.

Lemma push_pop_roundtrip_witness :
  exists vm1 vm2, push_selected_registers Low 5 vm_64 = (Ok tt, vm1) /\
    pop_selected_registers Low 5
      (set_registers vm1 (reg_put (reg_put (registers vm1) 16 100) 18 200)) = (Ok tt, vm2) /\
    reg vm2 16 = 7 /\ reg vm2 18 = 9.
Proof.
  destruct (push_selected_registers Low 5 vm_64) as [[[]| |] vm1] eqn:E;
    [|vm_compute in E; discriminate|vm_compute in E; discriminate].
  pose proof E as E'. vm_compute in E'. injection E' as E'. exists vm1.
  destruct (push_pop_roundtrip vm_64 Low 5 vm1
    (reg_put (reg_put (registers vm1) 16 100) 18 200)) as (vm2 & H1 & _ & _ & H2).
  - exact vm_64_wf.
  - split; [discriminate|reflexivity].
  - exact E.
  - rewrite <- E'. apply regs_ok_compute. reflexivity.
  - intros i Hi. rewrite !reg_get_put_ne by lia. reflexivity.
  - rewrite <- E'. reflexivity.
  - exists vm2. split; [reflexivity|]. split; [exact H1|].
    rewrite !H2 by lia. split; reflexivity.
Defined.

(** C38: A load reads back what a store wrote. For each width, after a successful store a load
    from the same address and offset succeeds and returns the stored value truncated to the
    width. *)
Theorem store_load_roundtrip {S} (vm vm1 : Interpreter S) (n : nat) (a v off r : Z) :
  mem_wf (memory vm) -> zlen (registers vm) = VM_REGISTER_COUNT ->
  u64_ok a -> u64_ok v -> 0 <= off < 4096 -> (n <= 8)%nat ->
  RegId.WRITABLE <= r < 64 ->
  store n a v off vm = (Ok tt, vm1) -> reg vm1 RegId.PC + Instruction_SIZE < U64 ->
  exists vm2, load n r a off vm1 = (Ok tt, vm2) /\ reg vm2 r = v mod 256 ^ Z.of_nat n.
Proof.
  intros Hm Hl Ha Hv Hoff Hn Hr Hst Hpc. unfold u64_ok in *.
  assert (Hmul : 0 <= off * Z.of_nat n < U64) by nia.
  unfold store, load, mem_read_bytes, mbind_, gets, lift_panic, lift, update_memory in *.
  rewrite (proj2 (Z.ltb_lt (off * Z.of_nat n) U64)) in * by lia. cbn [expect] in *.
  destruct (checked_add a (off * Z.of_nat n)) as [addr|] eqn:Eadd; cbn [ok_or omap_err] in *; [|done].
  assert (Haddr : 0 <= addr) by (unfold checked_add in Eadd; case_if_in Eadd; [|done];
    injection Eadd as <-; lia).
  set (d := to_be_bytes n (v mod 256 ^ Z.of_nat n)) in *.
  pose proof (write_bytes_spec (memory vm) (ownership_registers vm) addr d Hm Haddr) as Hw.
  destruct (write_bytes _ _ _ _) as [m'|e|]; [|done|done].
  destruct Hw as (Hacc & Hu & _). pose proof (mem_upd_wf _ _ _ _ Hu Hm) as Hm'.
  unfold inc_pc, mbind_, get_reg, gets, lift_panic, lift, put_reg, modify in Hst.
  destruct (ok_or _ _) as [pc'| |]; cbn [omap_err] in Hst; [|done|done]. injection Hst as <-.
  assert (Hread : read m' addr (Z.of_nat n) = Ok d).
  { rewrite <- (zlen_to_be_bytes n (v mod 256 ^ Z.of_nat n)). apply mem_shows_read; [done| |].
    - eapply same_shape_accessible; [apply Hu|exact Hacc].
    - by eapply mem_upd_shows. }
  unfold write_reg_key. case_if; [|lia]. cbn [omap_err]. autorewrite with vm.
  cbn [memory set_memory]. rewrite read_bytes_eq, Hread by (done || lia). cbn [omap_err].
  unfold put_reg, modify. change RegId.WRITABLE with 16 in *.
  assert (Hne : r <> RegId.PC) by (change RegId.PC with 3; lia).
  rewrite inc_pc_eq by (rewrite reg_set_ne by (done || lia); exact Hpc).
  eexists; split; [reflexivity|]. rewrite reg_set_ne by done.
  rewrite reg_set_eq by (rewrite ?zlen_set_reg; done || lia).
  unfold d. rewrite to_from_be_bytes; [done|]. apply Z.mod_pos_bound. lia.
Qed.

Lemma store_load_roundtrip_witness :
  exists vm1 vm2, store 2 16 70000 3 vm_64 = (Ok tt, vm1) /\
    load 2 20 16 3 vm1 = (Ok tt, vm2) /\ reg vm2 20 = 4464.
Proof.
  destruct (store 2 16 70000 3 vm_64) as [[[]| |] vm1] eqn:E;
    [|vm_compute in E; discriminate|vm_compute in E; discriminate].
  pose proof E as E'. vm_compute in E'. injection E' as E'. exists vm1.
  destruct (store_load_roundtrip vm_64 vm1 2 16 70000 3 20) as (vm2 & H1 & H2).
  - exact memory_64_wf.
  - reflexivity.
  - split; [discriminate|reflexivity].
  - split; [discriminate|reflexivity].
  - split; [discriminate|reflexivity].
  - lia.
  - split; [discriminate|reflexivity].
  - exact E.
  - rewrite <- E'. reflexivity.
  - exists vm2. split; [reflexivity|]. split; [exact H1|]. rewrite H2. reflexivity.
Defined.
