(* ===== verification/WideInt.v ===== *)
(** * 128- and 256-bit arithmetic

    The wide-integer instructions (src/fuel-vm/src/interpreter/alu/wideint.rs). The source
    instantiates one macro at [u128] and at [ethnum::U256]; here the width [w] is a parameter and
    [int_ops w] are the operations of the type [$t]. Those of [u128] are the standard library's;
    those of [U256], and the type [Prim] of the crate [primitive_types] that serves for division
    and double-width products, are not part of the repository: they are a parameter ([WideLib]),
    with what their documentation promises as laws ([WideLaws]). The values of [$t] are integers
    below [2^w]. The repository's conversions between the types go through little-endian bytes,
    and are modelled so. Operands are big-endian in memory, results are written back with
    ownership checks. *)

From Stdlib Require Import Strings.Byte.
From S2P Require Import Prelude Asm Merkle Receipts Memory State Gas Alu MemOps.

(** ** The integer types *)

Definition from_le_bytes (l : list byte) : Z := from_be_bytes (rev l).
Definition to_le_bytes (n : nat) (z : Z) : list byte := rev (to_be_bytes n z).
(** [size_of::<$t>()] *)
Definition size_of (w : Z) : nat := Z.to_nat (w / 8).

(** The operations of [$t] that the macro uses. *)
Record IntOps : Type := mkIntOps {
  t_default : Z;
  t_from_word : Z -> Z;
  t_from_be_bytes : list byte -> Z;
  t_to_be_bytes : Z -> list byte;
  t_from_le_bytes : list byte -> Z;
  t_to_le_bytes : Z -> list byte;
  t_eq : Z -> Z -> bool;
  t_cmp : Z -> Z -> comparison;
  t_leading_zeros : Z -> Z;
  t_overflowing_add : Z -> Z -> Z * bool;
  t_overflowing_sub : Z -> Z -> Z * bool;
  t_overflowing_mul : Z -> Z -> Z * bool;
  t_bitor : Z -> Z -> Z;
  t_bitxor : Z -> Z -> Z;
  t_bitand : Z -> Z -> Z;
  t_not : Z -> Z;
  t_try_into_u32 : Z -> option Z;
  t_checked_shl : Z -> Z -> option Z;
  t_checked_shr : Z -> Z -> option Z
}.

(** [leading_zeros] at width [w]. *)
Definition leading_zeros (w x : Z) : Z := if x =? 0 then w else w - 1 - Z.log2 x.

(** An unsigned integer type of [w] bits as the standard library has it *)
Definition std_ops (w : Z) : IntOps := {|
  t_default := 0;
  t_from_word v := v;
  t_from_be_bytes := from_be_bytes;
  t_to_be_bytes := to_be_bytes (size_of w);
  t_from_le_bytes := from_le_bytes;
  t_to_le_bytes := to_le_bytes (size_of w);
  t_eq := Z.eqb;
  t_cmp := Z.compare;
  t_leading_zeros := leading_zeros w;
  t_overflowing_add := overflowing_add w;
  t_overflowing_sub := overflowing_sub w;
  t_overflowing_mul := overflowing_mul w;
  t_bitor := Z.lor;
  t_bitxor := Z.lxor;
  t_bitand := Z.land;
  t_not := lnot_w w;
  t_try_into_u32 := try_u32;
  t_checked_shl := checked_shl w;
  t_checked_shr := checked_shr w
|}.
Definition u128_ops : IntOps := std_ops 128.

(** The integer crates: [ethnum::U256] and [primitive_types::{U128, U256, U512}]. [Prim w] is the
    type of [w] bits of the latter; [prim_to_little_endian] is what it writes to a buffer. *)
Class WideLib : Type := {
  u256_ops : IntOps;
  Prim : Z -> Type;
  prim_from_little_endian (w : Z) : list byte -> Prim w;
  prim_to_little_endian {w : Z} : Prim w -> list byte;
  prim_checked_add {w : Z} : Prim w -> Prim w -> option (Prim w);
  prim_checked_div {w : Z} : Prim w -> Prim w -> option (Prim w);
  prim_checked_rem {w : Z} : Prim w -> Prim w -> option (Prim w);
  prim_full_mul {w : Z} : Prim w -> Prim w -> Prim (2 * w);
  prim_shr {w : Z} : Prim w -> Z -> Prim w
}.

(** The integer a [Prim] stands for *)
Definition prim_value `{WideLib} {w : Z} (x : Prim w) : Z := from_le_bytes (prim_to_little_endian x).
Arguments prim_value : simpl never.
Definition prim_width (w : Z) : Prop := w = 128 \/ w = 256 \/ w = 512.

(** An implementation of a type of [w] bits agrees with the standard library's conventions. *)
Record ops_exact (w : Z) (o : IntOps) : Prop := {
  ox_default : t_default o = 0;
  ox_from_word v : u64_ok v -> t_from_word o v = v;
  ox_from_be bs : length bs = size_of w -> t_from_be_bytes o bs = from_be_bytes bs;
  ox_to_be v : uw_ok w v -> t_to_be_bytes o v = to_be_bytes (size_of w) v;
  ox_from_le bs : length bs = size_of w -> t_from_le_bytes o bs = from_le_bytes bs;
  ox_to_le v : uw_ok w v -> t_to_le_bytes o v = to_le_bytes (size_of w) v;
  ox_eq l r : uw_ok w l -> uw_ok w r -> t_eq o l r = (l =? r);
  ox_cmp l r : uw_ok w l -> uw_ok w r -> t_cmp o l r = (l ?= r);
  ox_leading_zeros l : uw_ok w l -> t_leading_zeros o l = leading_zeros w l;
  ox_add l r : uw_ok w l -> uw_ok w r -> t_overflowing_add o l r = overflowing_add w l r;
  ox_sub l r : uw_ok w l -> uw_ok w r -> t_overflowing_sub o l r = overflowing_sub w l r;
  ox_mul l r : uw_ok w l -> uw_ok w r -> t_overflowing_mul o l r = overflowing_mul w l r;
  ox_or l r : uw_ok w l -> uw_ok w r -> t_bitor o l r = Z.lor l r;
  ox_xor l r : uw_ok w l -> uw_ok w r -> t_bitxor o l r = Z.lxor l r;
  ox_and l r : uw_ok w l -> uw_ok w r -> t_bitand o l r = Z.land l r;
  ox_not l : uw_ok w l -> t_not o l = lnot_w w l;
  ox_try_u32 r : uw_ok w r -> t_try_into_u32 o r = try_u32 r;
  ox_shl l n : uw_ok w l -> 0 <= n < U32 -> t_checked_shl o l n = checked_shl w l n;
  ox_shr l n : uw_ok w l -> 0 <= n < U32 -> t_checked_shr o l n = checked_shr w l n
}.

Class WideLaws `{WideLib} : Prop := {
  u256_exact : ops_exact 256 u256_ops;
  prim_bytes w (x : Prim w) : prim_width w -> length (prim_to_little_endian x) = size_of w;
  prim_read w bs : prim_width w -> length bs = size_of w -> prim_value (prim_from_little_endian w bs) = from_le_bytes bs;
  prim_add w (x y : Prim w) : prim_width w ->
    match prim_checked_add x y with
    | Some z => prim_value z = prim_value x + prim_value y
    | None => 2 ^ w <= prim_value x + prim_value y
    end;
  prim_div w (x y : Prim w) : prim_width w ->
    match prim_checked_div x y with
    | Some z => prim_value y <> 0 /\ prim_value z = prim_value x / prim_value y
    | None => prim_value y = 0
    end;
  prim_rem w (x y : Prim w) : prim_width w ->
    match prim_checked_rem x y with
    | Some z => prim_value y <> 0 /\ prim_value z = prim_value x mod prim_value y
    | None => prim_value y = 0
    end;
  prim_mul w (x y : Prim w) : prim_width (2 * w) -> prim_value (prim_full_mul x y) = prim_value x * prim_value y;
  prim_shift w (x : Prim w) n : prim_width w -> 0 <= n < w -> prim_value (prim_shr x n) = Z.shiftr (prim_value x) n
}.

(** ** The macro *)

Section WideInt.
Context {S : Type} `{WideLib}.

(** The type [$t] *)
Definition int_ops (w : Z) : IntOps := if w =? 128 then u128_ops else u256_ops.

Definition to_prim (w value : Z) : Prim w := prim_from_little_endian w (t_to_le_bytes (int_ops w) value).
Definition to_wider_prim (w value : Z) : Prim (2 * w) :=
  prim_from_little_endian (2 * w) (t_to_le_bytes (int_ops w) value ++ replicate (size_of w) x00).
Definition from_prim (w : Z) (value : Prim w) : Z := t_from_le_bytes (int_ops w) (prim_to_little_endian value).
Definition truncate_from_prim (w : Z) (value : Prim (2 * w)) : Z :=
  t_from_le_bytes (int_ops w) (take (size_of w) (prim_to_little_endian value)).

Definition cmp_wide (w lhs rhs : Z) (mode : CompareMode.t) : Z :=
  let o := int_ops w in
  match mode with
  | CompareMode.EQ => bool_word (t_eq o lhs rhs)
  | CompareMode.NE => bool_word (negb (t_eq o lhs rhs))
  | CompareMode.GT => bool_word (match t_cmp o lhs rhs with Gt => true | _ => false end)
  | CompareMode.LT => bool_word (match t_cmp o lhs rhs with Lt => true | _ => false end)
  | CompareMode.GTE => bool_word (match t_cmp o lhs rhs with Lt => false | _ => true end)
  | CompareMode.LTE => bool_word (match t_cmp o lhs rhs with Gt => false | _ => true end)
  | CompareMode.LZC => t_leading_zeros o lhs
  end.

Definition op_overflowing_wide (w lhs rhs : Z) (args : MathArgs) : Z * bool :=
  let o := int_ops w in
  match op args with
  | MathOp.ADD => t_overflowing_add o lhs rhs
  | MathOp.SUB => t_overflowing_sub o lhs rhs
  | MathOp.OR => (t_bitor o lhs rhs, false)
  | MathOp.XOR => (t_bitxor o lhs rhs, false)
  | MathOp.AND => (t_bitand o lhs rhs, false)
  | MathOp.NOT => (t_not o lhs, false)
  | MathOp.SHL =>
      match t_try_into_u32 o rhs with
      | Some rhs => (default (t_default o) (t_checked_shl o lhs rhs), false)
      | None => (t_default o, false)
      end
  | MathOp.SHR =>
      match t_try_into_u32 o rhs with
      | Some rhs => (default (t_default o) (t_checked_shr o lhs rhs), false)
      | None => (t_default o, false)
      end
  end.

(** [$t::from_be_bytes(memory.read_bytes(addr)?)] *)
Definition load_wide (w addr : Z) : M S Z :=
  bs <- mem_read_bytes addr (w / 8) ;; mret (t_from_be_bytes (int_ops w) bs).

(** An operand that is in memory if [indirect], else the register value. *)
Definition load_operand (w : Z) (indirect : bool) (v : Z) : M S Z :=
  if indirect then load_wide w v else mret (t_from_word (int_ops w) v).

(** [memory.write_bytes(owner, dest_addr, value.to_be_bytes())?] *)
Definition store_wide (w : Z) (owner : OwnershipRegisters) (dest_addr value : Z) : M S unit :=
  update_memory (fun m => write_bytes m owner dest_addr (t_to_be_bytes (int_ops w) value)).

Definition alu_wideint_cmp (w ra b c : Z) (args : CompareArgs) : M S unit :=
  dest <- lift_panic (write_reg_key ra) ;;
  lhs <- load_wide w b ;;
  rhs <- load_operand w (cmp_indirect_rhs args) c ;;
  put_reg dest (cmp_wide w lhs rhs (mode args)) ;;;
  put_reg RegId.OF 0 ;;;
  put_reg RegId.ERR 0 ;;;
  inc_pc.

Definition alu_wideint_op (w dest_addr b c : Z) (args : MathArgs) : M S unit :=
  owner_regs <- gets ownership_registers ;;
  flag <- get_reg RegId.FLAG ;;
  lhs <- load_wide w b ;;
  rhs <- load_operand w (math_indirect_rhs args) c ;;
  let wrapped := fst (op_overflowing_wide w lhs rhs args) in
  let overflow := snd (op_overflowing_wide w lhs rhs args) in
  if overflow && negb (is_wrapping flag) then mpanic ArithmeticOverflow
  else
    put_reg RegId.OF (bool_word overflow) ;;;
    put_reg RegId.ERR 0 ;;;
    store_wide w owner_regs dest_addr wrapped ;;;
    inc_pc.

Definition alu_wideint_mul (w dest_addr b c : Z) (args : MulArgs) : M S unit :=
  owner_regs <- gets ownership_registers ;;
  flag <- get_reg RegId.FLAG ;;
  lhs <- load_operand w (indirect_lhs args) b ;;
  rhs <- load_operand w (mul_indirect_rhs args) c ;;
  let wrapped := fst (t_overflowing_mul (int_ops w) lhs rhs) in
  let overflow := snd (t_overflowing_mul (int_ops w) lhs rhs) in
  if overflow && negb (is_wrapping flag) then mpanic ArithmeticOverflow
  else
    put_reg RegId.OF (bool_word overflow) ;;;
    put_reg RegId.ERR 0 ;;;
    store_wide w owner_regs dest_addr wrapped ;;;
    inc_pc.

(** The result of a checked operation: [$err] is cleared, or set if unsafe math allows it *)
Definition checked_result {A} (w flag : Z) (x : option A) (convert : A -> Z) : M S Z :=
  match x with
  | Some d => put_reg RegId.ERR 0 ;;; mret (convert d)
  | None =>
      if is_unsafe_math flag then put_reg RegId.ERR 1 ;;; mret (t_default (int_ops w))
      else mpanic ArithmeticError
  end.

Definition alu_wideint_div (w dest_addr b c : Z) (args : DivArgs) : M S unit :=
  owner_regs <- gets ownership_registers ;;
  flag <- get_reg RegId.FLAG ;;
  lhs <- load_wide w b ;;
  rhs <- load_operand w (div_indirect_rhs args) c ;;
  result <- checked_result w flag (prim_checked_div (to_prim w lhs) (to_prim w rhs)) (from_prim w) ;;
  put_reg RegId.OF 0 ;;;
  store_wide w owner_regs dest_addr result ;;;
  inc_pc.

Definition alu_wideint_addmod (w dest_addr b c d : Z) : M S unit :=
  owner_regs <- gets ownership_registers ;;
  flag <- get_reg RegId.FLAG ;;
  lhs <- load_wide w b ;;
  rhs <- load_wide w c ;;
  modulus <- load_wide w d ;;
  pre_mod <- lift (expect (prim_checked_add (to_wider_prim w lhs) (to_wider_prim w rhs))) ;;
  result <- checked_result w flag (prim_checked_rem pre_mod (to_wider_prim w modulus)) (truncate_from_prim w) ;;
  put_reg RegId.OF 0 ;;;
  store_wide w owner_regs dest_addr result ;;;
  inc_pc.

Definition alu_wideint_mulmod (w dest_addr b c d : Z) : M S unit :=
  owner_regs <- gets ownership_registers ;;
  flag <- get_reg RegId.FLAG ;;
  lhs <- load_wide w b ;;
  rhs <- load_wide w c ;;
  modulus <- load_wide w d ;;
  result <- checked_result w flag
    (prim_checked_rem (prim_full_mul (to_prim w lhs) (to_prim w rhs)) (to_wider_prim w modulus)) (truncate_from_prim w) ;;
  put_reg RegId.OF 0 ;;;
  store_wide w owner_regs dest_addr result ;;;
  inc_pc.

(** The bytes of the double-width quotient of [muldiv] *)
Definition muldiv_buffer (w lhs rhs divider : Z) : list byte :=
  let product := prim_full_mul (to_prim w lhs) (to_prim w rhs) in
  let product_div_max := prim_shr product (Z.of_nat (size_of w) * 8) in
  prim_to_little_endian (default product_div_max (prim_checked_div product (to_wider_prim w divider))).

Definition alu_wideint_muldiv (w dest_addr b c d : Z) : M S unit :=
  owner_regs <- gets ownership_registers ;;
  flag <- get_reg RegId.FLAG ;;
  lhs <- load_wide w b ;;
  rhs <- load_wide w c ;;
  divider <- load_wide w d ;;
  let buffer := muldiv_buffer w lhs rhs divider in
  let lower_half := take (size_of w) buffer in
  let higher_half := drop (size_of w) buffer in
  let result := t_from_le_bytes (int_ops w) lower_half in
  let overflows := negb (bool_decide (higher_half = replicate (size_of w) x00)) in
  if overflows && negb (is_wrapping flag) then mpanic ArithmeticOverflow
  else
    put_reg RegId.OF (bool_word overflows) ;;;
    put_reg RegId.ERR 0 ;;;
    store_wide w owner_regs dest_addr result ;;;
    inc_pc.
End WideInt.

(** ** What the conversions compute *)

Lemma from_be_bytes_app l r :
  from_be_bytes (l ++ r) = from_be_bytes l * 256 ^ Z.of_nat (length r) + from_be_bytes r.
Proof.
  induction l as [|b l IH]; [done|]. cbn [app from_be_bytes]. rewrite IH, length_app, Nat2Z.inj_add, Z.pow_add_r by lia. ring.
Qed.
Lemma from_le_bytes_app l r :
  from_le_bytes (l ++ r) = from_le_bytes l + 256 ^ Z.of_nat (length l) * from_le_bytes r.
Proof. unfold from_le_bytes. rewrite rev_app_distr, from_be_bytes_app, length_rev. lia. Qed.
Lemma from_le_bytes_range l : 0 <= from_le_bytes l < 256 ^ Z.of_nat (length l).
Proof. unfold from_le_bytes. rewrite <- length_rev. apply from_be_bytes_range. Qed.
Lemma from_be_bytes_zeros n : from_be_bytes (replicate n x00) = 0.
Proof. induction n as [|n IH]; [done|]. cbn [replicate from_be_bytes]. by rewrite IH. Qed.
Lemma rev_replicate {A} n (x : A) : rev (replicate n x) = replicate n x.
Proof. rewrite rev_alt. apply reverse_replicate. Qed.
Lemma from_le_bytes_zeros n : from_le_bytes (replicate n x00) = 0.
Proof. unfold from_le_bytes. rewrite rev_replicate. apply from_be_bytes_zeros. Qed.
Lemma from_to_le_bytes n z : 0 <= z < 256 ^ Z.of_nat n -> from_le_bytes (to_le_bytes n z) = z.
Proof. intros. unfold from_le_bytes, to_le_bytes. rewrite rev_involutive. by apply to_from_be_bytes. Qed.
Lemma length_to_le_bytes n z : length (to_le_bytes n z) = n.
Proof. unfold to_le_bytes. by rewrite length_rev, length_to_be_bytes. Qed.
Lemma to_le_bytes_zero l : from_le_bytes l = 0 -> l = replicate (length l) x00.
Proof.
  unfold from_le_bytes. intros E. pose proof (from_to_be_bytes (rev l)) as H. rewrite E, length_rev in H.
  pose proof (from_to_be_bytes (replicate (length l) x00)) as H0. rewrite from_be_bytes_zeros, length_replicate in H0.
  rewrite H0 in H. by rewrite <- (rev_involutive l), <- H, length_rev, length_replicate, rev_replicate.
Qed.

Definition width_ok (w : Z) : Prop := w = 128 \/ w = 256.
Lemma width_size w : width_ok w -> 256 ^ Z.of_nat (size_of w) = 2 ^ w /\ Z.of_nat (size_of w) * 8 = w /\ Z.of_nat (size_of w) = w / 8.
Proof. by intros [-> | ->]. Qed.
Lemma width_prim w : width_ok w -> prim_width w /\ prim_width (2 * w).
Proof. unfold prim_width. intros [-> | ->]; lia. Qed.
Lemma width_double w : width_ok w -> size_of (2 * w) = (size_of w + size_of w)%nat /\ 2 ^ (2 * w) = 2 ^ w * 2 ^ w /\ 2 <= 2 ^ w.
Proof. intros [-> | ->]; split_and!; reflexivity || discriminate. Qed.

Lemma std_exact w : ops_exact w (std_ops w).
Proof. by split. Qed.

Section Conversions.
Context `{WideLaws}.
Implicit Types (w v : Z).

Lemma int_exact w : width_ok w -> ops_exact w (int_ops w).
Proof. intros [-> | ->]; [apply std_exact|apply u256_exact]. Qed.

Lemma prim_range w (x : Prim w) : prim_width w -> 0 <= prim_value x < 256 ^ Z.of_nat (size_of w).
Proof. intros Hw. unfold prim_value. rewrite <- (prim_bytes w x Hw). apply from_le_bytes_range. Qed.

Lemma to_prim_value w v : width_ok w -> uw_ok w v -> prim_value (to_prim w v) = v.
Proof.
  intros Hw Hv. unfold to_prim. rewrite (ox_to_le _ _ (int_exact w Hw)) by done.
  rewrite prim_read by (apply width_prim, Hw || apply length_to_le_bytes). apply from_to_le_bytes.
  by rewrite (proj1 (width_size w Hw)).
Qed.
Lemma to_wider_prim_value w v : width_ok w -> uw_ok w v -> prim_value (to_wider_prim w v) = v.
Proof.
  intros Hw Hv. unfold to_wider_prim. rewrite (ox_to_le _ _ (int_exact w Hw)) by done. rewrite prim_read.
  - rewrite from_le_bytes_app, from_le_bytes_zeros, Z.mul_0_r, Z.add_0_r. apply from_to_le_bytes. by rewrite (proj1 (width_size w Hw)).
  - apply width_prim, Hw.
  - by rewrite length_app, length_to_le_bytes, length_replicate, (proj1 (width_double w Hw)).
Qed.
Lemma from_prim_value w (x : Prim w) : width_ok w -> from_prim w x = prim_value x.
Proof.
  intros Hw. unfold from_prim. apply (ox_from_le _ _ (int_exact w Hw)). apply prim_bytes, width_prim, Hw.
Qed.

(** The halves of a double-width buffer *)
Lemma halves w (x : Prim (2 * w)) :
  width_ok w ->
  let bs := prim_to_little_endian x in
  t_from_le_bytes (int_ops w) (take (size_of w) bs) = prim_value x mod 2 ^ w /\
  (drop (size_of w) bs = replicate (size_of w) x00 <-> prim_value x < 2 ^ w).
Proof.
  intros Hw bs. assert (El : length bs = (size_of w + size_of w)%nat).
  { subst bs. rewrite prim_bytes by apply width_prim, Hw. apply width_double, Hw. }
  assert (Et : length (take (size_of w) bs) = size_of w) by (rewrite length_take; lia).
  assert (Ed : length (drop (size_of w) bs) = size_of w) by (rewrite length_drop; lia).
  assert (Ev : prim_value x = from_le_bytes (take (size_of w) bs) + 2 ^ w * from_le_bytes (drop (size_of w) bs)).
  { unfold prim_value. fold bs. rewrite <- (take_drop (size_of w) bs) at 1. by rewrite from_le_bytes_app, Et, (proj1 (width_size w Hw)). }
  pose proof (from_le_bytes_range (take (size_of w) bs)) as Hlo. rewrite Et, (proj1 (width_size w Hw)) in Hlo.
  pose proof (from_le_bytes_range (drop (size_of w) bs)) as Hhi. destruct (width_double w Hw) as (_ & _ & H2). split.
  - rewrite (ox_from_le _ _ (int_exact w Hw)) by done. rewrite Ev, Z.mul_comm, Z_mod_plus_full. symmetry. by apply Z.mod_small.
  - rewrite Ev. split.
    + intros E. rewrite E, from_le_bytes_zeros. lia.
    + intros Hlt. rewrite <- Ed at 2. apply to_le_bytes_zero. nia.
Qed.
Lemma truncate_from_prim_value w (x : Prim (2 * w)) : width_ok w -> truncate_from_prim w x = prim_value x mod 2 ^ w.
Proof. intros Hw. apply (halves w x Hw). Qed.

Lemma checked_add_wider w l r :
  width_ok w -> uw_ok w l -> uw_ok w r ->
  exists z, prim_checked_add (to_wider_prim w l) (to_wider_prim w r) = Some z /\ prim_value z = l + r.
Proof.
  intros Hw Hl Hr. pose proof (prim_add _ (to_wider_prim w l) (to_wider_prim w r) (proj2 (width_prim w Hw))) as Ha.
  rewrite !to_wider_prim_value in Ha by done. destruct (width_double w Hw) as (_ & E2 & H2). unfold uw_ok in *.
  destruct (prim_checked_add _ _) as [z|]; [by exists z|]. rewrite E2 in Ha. nia.
Qed.
Lemma full_mul_value w l r :
  width_ok w -> uw_ok w l -> uw_ok w r -> prim_value (prim_full_mul (to_prim w l) (to_prim w r)) = l * r.
Proof. intros Hw Hl Hr. rewrite prim_mul by apply width_prim, Hw. by rewrite !to_prim_value. Qed.

(** The quotient of [muldiv]; a divider of zero stands for [2^w]. *)
Lemma muldiv_value w l r d :
  width_ok w -> uw_ok w l -> uw_ok w r -> uw_ok w d ->
  let q := l * r / (if d =? 0 then 2 ^ w else d) in
  t_from_le_bytes (int_ops w) (take (size_of w) (muldiv_buffer w l r d)) = q mod 2 ^ w /\
  bool_decide (drop (size_of w) (muldiv_buffer w l r d) = replicate (size_of w) x00) = (q <? 2 ^ w).
Proof.
  intros Hw Hl Hr Hd q. unfold muldiv_buffer. set (p := prim_full_mul _ _). set (x := default _ _).
  assert (Ex : prim_value x = q).
  { pose proof (prim_div _ p (to_wider_prim w d) (proj2 (width_prim w Hw))) as Hdiv. rewrite to_wider_prim_value in Hdiv by done.
    unfold x, q. rewrite <- (full_mul_value w l r) by done. fold p. destruct (prim_checked_div _ _) as [z|]; cbn [from_option]; unfold id.
    - destruct Hdiv as [Hne ->]. case_if; [lia|done].
    - rewrite Hdiv. rewrite prim_shift; [|apply width_prim, Hw|rewrite (proj1 (proj2 (width_size w Hw))); destruct Hw as [-> | ->]; lia].
      rewrite (proj1 (proj2 (width_size w Hw))). apply Z.shiftr_div_pow2. destruct Hw as [-> | ->]; lia. }
  destruct (halves w x Hw) as [E1 E2]. rewrite Ex in E1, E2. split; [exact E1|].
  apply Bool.eq_iff_eq_true. rewrite bool_decide_eq_true, E2. symmetry. apply Z.ltb_lt.
Qed.

(** Shifting by the width or more leaves nothing. *)
Lemma shiftl_wide w l r : 0 <= w <= r -> Z.shiftl l r mod 2 ^ w = 0.
Proof.
  intros Hw. rewrite Z.shiftl_mul_pow2 by lia. replace r with (w + (r - w)) by lia.
  rewrite Z.pow_add_r by lia. rewrite (Z.mul_comm (2 ^ w)), Z.mul_assoc. apply Z.mod_mul. lia.
Qed.
Lemma shiftr_wide w l r : 0 <= l < 2 ^ w -> 0 <= w <= r -> Z.shiftr l r = 0.
Proof.
  intros Hl Hw. rewrite Z.shiftr_div_pow2 by lia. apply Z.div_small.
  pose proof (Z.pow_le_mono_r 2 w r ltac:(lia) ltac:(lia)). lia.
Qed.

Lemma op_overflowing_exact w l r args :
  width_ok w -> uw_ok w l -> uw_ok w r ->
  op_overflowing_wide w l r args =
    match op args with
    | MathOp.ADD => overflowing_add w l r
    | MathOp.SUB => overflowing_sub w l r
    | MathOp.OR => (Z.lor l r, false)
    | MathOp.XOR => (Z.lxor l r, false)
    | MathOp.AND => (Z.land l r, false)
    | MathOp.NOT => (lnot_w w l, false)
    | MathOp.SHL => (Z.shiftl l r mod 2 ^ w, false)
    | MathOp.SHR => (Z.shiftr l r, false)
    end.
Proof.
  intros Hw Hl Hr. pose proof (int_exact w Hw) as Ho. destruct (width_double w Hw) as (_ & _ & H2).
  assert (H32 : w < U32) by (destruct Hw as [-> | ->]; done). assert (Hw0 : 0 <= w) by (destruct Hw as [-> | ->]; done).
  unfold op_overflowing_wide. destruct (op args).
  - by apply ox_add.
  - by apply ox_sub.
  - by rewrite (ox_not _ _ Ho).
  - by rewrite (ox_or _ _ Ho).
  - by rewrite (ox_xor _ _ Ho).
  - by rewrite (ox_and _ _ Ho).
  - rewrite (ox_try_u32 _ _ Ho), (ox_default _ _ Ho) by done. unfold try_u32. unfold uw_ok in *.
    case_if; zbool; [rewrite (ox_shl _ _ Ho) by (unfold uw_ok; lia); unfold checked_shl; case_if; [done|]|]; zbool; cbn [from_option]; unfold id;
      rewrite shiftl_wide; done || lia.
  - rewrite (ox_try_u32 _ _ Ho), (ox_default _ _ Ho) by done. unfold try_u32. unfold uw_ok in *.
    case_if; zbool; [rewrite (ox_shr _ _ Ho) by (unfold uw_ok; lia); unfold checked_shr; case_if; [done|]|]; zbool; cbn [from_option]; unfold id;
      rewrite (shiftr_wide w); done || lia.
Qed.
End Conversions.

(** ** The handlers preserve the invariant *)

Section WideSafe.
Context {S : Type} `{Sha256} `{WideLaws}.

Lemma from_be_bytes_ok w bs : width_ok w -> zlen bs = w / 8 -> uw_ok w (t_from_be_bytes (int_ops w) bs).
Proof.
  intros Hw Hl. assert (El : length bs = size_of w) by (unfold size_of, zlen in *; lia).
  rewrite (ox_from_be _ _ (int_exact w Hw)) by done. pose proof (from_be_bytes_range bs) as Hr.
  rewrite El, (proj1 (width_size w Hw)) in Hr. exact Hr.
Qed.
Lemma from_word_ok w v : width_ok w -> u64_ok v -> t_from_word (int_ops w) v = v /\ uw_ok w v.
Proof.
  intros Hw Hv. rewrite (ox_from_word _ _ (int_exact w Hw)) by done. split; [done|]. unfold uw_ok, u64_ok in *.
  destruct Hw as [-> | ->]; split; try lia; eapply Z.lt_trans; try apply Hv; reflexivity.
Qed.

Lemma safe_load_wide w a :
  width_ok w -> u64_ok a -> safe (uw_ok w) (load_wide (S := S) w a).
Proof.
  intros Hw Ha. unfold load_wide. eapply safe_bind.
  - apply safe_mem_read_bytes; [done|]. destruct Hw as [-> | ->]; vm_compute; discriminate.
  - intros bs Hl. apply safe_mret. by apply from_be_bytes_ok.
Qed.

Lemma safe_load_operand w i a :
  width_ok w -> u64_ok a -> safe (uw_ok w) (load_operand (S := S) w i a).
Proof.
  intros Hw Ha. unfold load_operand. destruct i; [by apply safe_load_wide|].
  apply safe_mret. destruct (from_word_ok w a Hw Ha) as [-> ?]. done.
Qed.

Lemma load_wide_pure w a vm : snd (load_wide (S := S) w a vm) = vm.
Proof.
  unfold load_wide, mem_read_bytes, mbind_, gets, lift_panic, lift.
  by destruct (omap_err _ _).
Qed.

Lemma load_operand_pure w i a vm : snd (load_operand (S := S) w i a vm) = vm.
Proof. destruct i; [apply load_wide_pure|done]. Qed.

Lemma held_load_wide o w a :
  width_ok w -> u64_ok a -> held o (uw_ok w) (load_wide (S := S) w a).
Proof. intros. apply held_pure; [apply load_wide_pure|by apply safe_load_wide]. Qed.

Lemma held_load_operand o w i a :
  width_ok w -> u64_ok a -> held o (uw_ok w) (load_operand (S := S) w i a).
Proof. intros. apply held_pure; [apply load_operand_pure|by apply safe_load_operand]. Qed.

Lemma held_get_reg o i : held o u64_ok (get_reg (S := S) i).
Proof. apply held_pure; [done|apply safe_get_reg]. Qed.

Lemma held_mpanic {A} o (P : A -> Prop) r : held o P (mpanic (S := S) r).
Proof. apply local_mpanic. Qed.

Lemma held_mret {A} o (P : A -> Prop) (a : A) : P a -> held o P (mret (S := S) a).
Proof. intros. apply held_pure; [done|by apply safe_mret]. Qed.

Lemma held_checked_result {A} o w flag (x : option A) (convert : A -> Z) :
  held o any (checked_result (S := S) w flag x convert).
Proof.
  unfold checked_result. destruct x; [|destruct (is_unsafe_math flag); [|apply held_mpanic]].
  - eapply held_bind; [apply held_put_reg; eauto with fuel|]. intros _ _. by apply held_mret.
  - eapply held_bind; [apply held_put_reg; [eauto with fuel|done]|]. intros _ _. by apply held_mret.
Qed.

(** Writing the result ends every wide handler. *)
Lemma local_store_wide o w a v :
  u64_ok a ->
  local (fun vm => ownership_registers vm = o) (store_wide (S := S) w o a v ;;; inc_pc)
        (fun _ _ => True).
Proof.
  intros [Ha _]. eapply held_then; [by apply held_write_bytes|]. intros _ _. apply safe_inc_pc.
Qed.

Lemma safe_alu_wideint_cmp w ra b c args :
  width_ok w -> RegId.ok ra -> u64_ok b -> u64_ok c ->
  safe any (alu_wideint_cmp (S := S) w ra b c args).
Proof.
  intros Hw Hra Hb Hc. unfold alu_wideint_cmp. safe_step.
  eapply safe_bind; [by apply safe_load_wide|]. intros lhs Hl.
  eapply safe_bind; [by apply safe_load_operand|]. intros rhs Hr.
  assert (u64_ok (cmp_wide w lhs rhs (mode args))).
  { unfold cmp_wide. destruct (mode args); try apply u64_bool. rewrite (ox_leading_zeros _ _ (int_exact w Hw)) by done.
    unfold leading_zeros, uw_ok, u64_ok in *. case_if; [destruct Hw; lia|]. assert (0 < lhs) by lia.
    pose proof (Z.log2_nonneg lhs). pose proof (proj1 (Z.log2_lt_pow2 lhs w ltac:(lia)) (proj2 Hl)).
    destruct Hw; lia. }
  repeat safe_step.
Qed.

(** Step through a handler that holds the ownership registers. *)
Ltac held_step :=
  match goal with
  | |- local _ (mbind_ (get_reg _) _) _ =>
      eapply held_bind_then; [apply held_get_reg|intros ? ?]
  | |- local _ (mbind_ (load_wide _ _) _) _ =>
      eapply held_bind_then; [by apply held_load_wide|intros ? ?]
  | |- local _ (mbind_ (load_operand _ _ _) _) _ =>
      eapply held_bind_then; [by apply held_load_operand|intros ? ?]
  | |- local _ (mbind_ (put_reg _ _) _) _ =>
      eapply held_bind_then; [apply held_put_reg; eauto with fuel|intros ? _]
  | |- local _ (mpanic _) _ => apply local_mpanic
  | |- local _ (mbind_ (store_wide _ _ _ _) _) _ => by apply local_store_wide
  | |- local _ (if _ then _ else _) _ => case_if
  end.

Lemma safe_alu_wideint_op w a b c args :
  width_ok w -> u64_ok a -> u64_ok b -> u64_ok c ->
  safe any (alu_wideint_op (S := S) w a b c args).
Proof.
  intros Hw Ha Hb Hc. unfold alu_wideint_op. apply safe_owner. intros o.
  repeat held_step.
Qed.

Lemma safe_alu_wideint_mul w a b c args :
  width_ok w -> u64_ok a -> u64_ok b -> u64_ok c ->
  safe any (alu_wideint_mul (S := S) w a b c args).
Proof.
  intros Hw Ha Hb Hc. unfold alu_wideint_mul. apply safe_owner. intros o.
  repeat held_step.
Qed.

Lemma safe_alu_wideint_div w a b c args :
  width_ok w -> u64_ok a -> u64_ok b -> u64_ok c ->
  safe any (alu_wideint_div (S := S) w a b c args).
Proof.
  intros Hw Ha Hb Hc. unfold alu_wideint_div. apply safe_owner. intros o.
  repeat held_step. eapply held_bind_then; [apply held_checked_result|].
  intros r _. repeat held_step.
Qed.

Lemma safe_alu_wideint_addmod w a b c d :
  width_ok w -> u64_ok a -> u64_ok b -> u64_ok c -> u64_ok d ->
  safe any (alu_wideint_addmod (S := S) w a b c d).
Proof.
  intros Hw Ha Hb Hc Hd. unfold alu_wideint_addmod. apply safe_owner. intros o.
  repeat held_step. eapply held_bind_then.
  { apply held_pure; [done|]. apply (safe_lift any).
    match goal with |- context [prim_checked_add (to_wider_prim _ ?x) (to_wider_prim _ ?y)] =>
      destruct (checked_add_wider w x y) as (z & -> & _); [done..|by eexists] end. }
  intros pre _. eapply held_bind_then; [apply held_checked_result|].
  intros r _. repeat held_step.
Qed.

Lemma safe_alu_wideint_mulmod w a b c d :
  width_ok w -> u64_ok a -> u64_ok b -> u64_ok c -> u64_ok d ->
  safe any (alu_wideint_mulmod (S := S) w a b c d).
Proof.
  intros Hw Ha Hb Hc Hd. unfold alu_wideint_mulmod. apply safe_owner. intros o.
  repeat held_step. eapply held_bind_then; [apply held_checked_result|].
  intros r _. repeat held_step.
Qed.

Lemma safe_alu_wideint_muldiv w a b c d :
  width_ok w -> u64_ok a -> u64_ok b -> u64_ok c -> u64_ok d ->
  safe any (alu_wideint_muldiv (S := S) w a b c d).
Proof.
  intros Hw Ha Hb Hc Hd. unfold alu_wideint_muldiv. apply safe_owner. intros o.
  repeat held_step.
Qed.
End WideSafe.


(** ** Exact results *)

(** The handlers that write a wide result, with their immediate arguments *)
Inductive WideHandler : Type :=
| HOp (args : MathArgs) | HMul (args : MulArgs) | HDiv (args : DivArgs) | HAddMod | HMulMod | HMulDiv.

Definition run_wide {S} `{WideLib} (h : WideHandler) (w a b c d : Z) : M S unit :=
  match h with
  | HOp args => alu_wideint_op w a b c args
  | HMul args => alu_wideint_mul w a b c args
  | HDiv args => alu_wideint_div w a b c args
  | HAddMod => alu_wideint_addmod w a b c d
  | HMulMod => alu_wideint_mulmod w a b c d
  | HMulDiv => alu_wideint_muldiv w a b c d
  end.

(** *** The specification, on integers *)

(** An operand: the big-endian integer in memory, or the value of the register *)
Definition wide_operand (mem : MemoryInstance) (w : Z) (indirect : bool) (v : Z) : outcome PanicReason Z :=
  if indirect then let? bs := read_bytes mem v (w / 8) in Ok (from_be_bytes bs) else Ok v.
Definition lhs_indirect (h : WideHandler) : bool := match h with HMul args => indirect_lhs args | _ => true end.
Definition rhs_indirect (h : WideHandler) : bool :=
  match h with
  | HOp args => math_indirect_rhs args
  | HMul args => mul_indirect_rhs args
  | HDiv args => div_indirect_rhs args
  | _ => true
  end.
Definition ternary (h : WideHandler) : bool := match h with HAddMod | HMulMod | HMulDiv => true | _ => false end.
Definition wide_operands (h : WideHandler) (mem : MemoryInstance) (w b c d : Z) : outcome PanicReason (Z * Z * Z) :=
  let? l := wide_operand mem w (lhs_indirect h) b in
  let? r := wide_operand mem w (rhs_indirect h) c in
  let? m := if ternary h then wide_operand mem w true d else Ok 0 in
  Ok (l, r, m).

(** A mathematical result that wraps, or panics when wrapping is off. *)
Definition wrapping_result (w flag x : Z) : outcome PanicReason (Z * Z * Z) :=
  if (0 <=? x) && (x <? 2 ^ w) then Ok (x, 0, 0)
  else if is_wrapping flag then Ok (x mod 2 ^ w, 1, 0) else Err ArithmeticOverflow.

(** A partial result that is zero with [$err] set, or panics when unsafe math is off. *)
Definition partial_result (flag : Z) (defined : bool) (x : Z) : outcome PanicReason (Z * Z * Z) :=
  if defined then Ok (x, 0, 0)
  else if is_unsafe_math flag then Ok (0, 0, 1) else Err ArithmeticError.

(** The value, [$of] and [$err] each handler should produce on the integers [l], [r], [m]. *)
Definition wide_spec (h : WideHandler) (w flag l r m : Z) : outcome PanicReason (Z * Z * Z) :=
  match h with
  | HOp args =>
      match op args with
      | MathOp.ADD => wrapping_result w flag (l + r)
      | MathOp.SUB => wrapping_result w flag (l - r)
      | MathOp.NOT => Ok (2 ^ w - 1 - l, 0, 0)
      | MathOp.OR => Ok (Z.lor l r, 0, 0)
      | MathOp.XOR => Ok (Z.lxor l r, 0, 0)
      | MathOp.AND => Ok (Z.land l r, 0, 0)
      | MathOp.SHL => Ok ((l * 2 ^ r) mod 2 ^ w, 0, 0)
      | MathOp.SHR => Ok (l / 2 ^ r, 0, 0)
      end
  | HMul _ => wrapping_result w flag (l * r)
  | HDiv _ => partial_result flag (negb (r =? 0)) (l / r)
  | HAddMod => partial_result flag (negb (m =? 0)) ((l + r) mod m)
  | HMulMod => partial_result flag (negb (m =? 0)) ((l * r) mod m)
  | HMulDiv => wrapping_result w flag (l * r / if m =? 0 then 2 ^ w else m)
  end.

(** What a specified result does to the machine: the flags, the bytes of the value at [a], the
    next instruction *)
Definition wide_outcome {S} (w a : Z) (x : outcome PanicReason (Z * Z * Z)) : M S unit := fun vm =>
  match x with
  | Ok (v, ofl, err) =>
      let flagged := set_reg (set_reg vm RegId.OF ofl) RegId.ERR err in
      match write_bytes (memory vm) (ownership_registers vm) a (to_be_bytes (size_of w) v) with
      | Ok mem => (Ok tt, set_reg (set_memory flagged mem) RegId.PC (reg vm RegId.PC + Instruction_SIZE))
      | Err e => (Err (Recoverable e), flagged)
      | Crash => (Crash, flagged)
      end
  | Err e => (Err (Recoverable e), vm)
  | Crash => (Crash, vm)
  end.
Definition wide_result {S} (h : WideHandler) (w a b c d : Z) : M S unit := fun vm =>
  match wide_operands h (memory vm) w b c d with
  | Ok (l, r, m) => wide_outcome w a (wide_spec h w (reg vm RegId.FLAG) l r m) vm
  | Err e => (Err (Recoverable e), vm)
  | Crash => (Crash, vm)
  end.

(** Bitwise operations stay within the width. *)
Lemma high_bits w x : 0 <= w -> uw_ok w x <-> 0 <= x /\ forall i, w <= i -> Z.testbit x i = false.
Proof.
  intros Hw. unfold uw_ok. assert (H2 : 0 < 2 ^ w) by (apply Z.pow_pos_nonneg; lia). split.
  - intros Hx. split; [lia|]. intros i Hi. rewrite <- (Z.mod_small x (2 ^ w)) by done. apply Z.mod_pow2_bits_high. lia.
  - intros [Hx Hb]. assert (E : x mod 2 ^ w = x).
    { apply Z.bits_inj'. intros i Hi. destruct (Z.lt_ge_cases i w); [by apply Z.mod_pow2_bits_low|].
      rewrite Z.mod_pow2_bits_high by lia. by rewrite Hb. }
    pose proof (Z.mod_pos_bound x (2 ^ w)). lia.
Qed.
Lemma lor_range w l r : 0 <= w -> uw_ok w l -> uw_ok w r -> uw_ok w (Z.lor l r).
Proof.
  intros Hw [Hl Bl]%high_bits [Hr Br]%high_bits; [|done..]. apply high_bits; [done|]. split; [by apply Z.lor_nonneg|].
  intros i Hi. by rewrite Z.lor_spec, Bl, Br.
Qed.
Lemma lxor_range w l r : 0 <= w -> uw_ok w l -> uw_ok w r -> uw_ok w (Z.lxor l r).
Proof.
  intros Hw [Hl Bl]%high_bits [Hr Br]%high_bits; [|done..]. apply high_bits; [done|]. split; [by apply Z.lxor_nonneg|].
  intros i Hi. by rewrite Z.lxor_spec, Bl, Br.
Qed.
Lemma land_range w l r : 0 <= w -> uw_ok w l -> uw_ok w r -> uw_ok w (Z.land l r).
Proof.
  intros Hw [Hl Bl]%high_bits [Hr Br]%high_bits; [|done..]. apply high_bits; [done|]. split; [apply Z.land_nonneg; by left|].
  intros i Hi. by rewrite Z.land_spec, Bl.
Qed.

Section WideExact.
Context {S : Type} `{WideLaws}.
Implicit Types (vm : Interpreter S).

Lemma read_operand mem w v :
  width_ok w -> mem_wf mem -> 0 <= v ->
  match wide_operand mem w true v with
  | Ok x => exists bs, read_bytes mem v (w / 8) = Ok bs /\ length bs = size_of w /\ x = from_be_bytes bs
  | Err e => read_bytes mem v (w / 8) = Err e
  | Crash => False
  end.
Proof.
  intros Hw Hm Hv. unfold wide_operand. assert (Hn : 0 <= w / 8) by (destruct Hw as [-> | ->]; done).
  destruct (read_bytes mem v (w / 8)) as [bs|e|] eqn:E; cbn [obind]; [|done|].
  - exists bs. split_and!; [done| |done]. unfold read_bytes in E. destruct (read mem v (w / 8)) as [bs'| |]; [|done..].
    cbn [obind] in E. case_if_in E; [|done]. injection E as ->. unfold size_of, zlen in *. lia.
  - rewrite read_bytes_eq in E by done. by apply read_no_crash in E.
Qed.
Lemma operand_range mem w i v x :
  width_ok w -> mem_wf mem -> u64_ok v -> wide_operand mem w i v = Ok x -> uw_ok w x.
Proof.
  intros Hw Hm Hv E. destruct i.
  - pose proof (read_operand mem w v Hw Hm (proj1 Hv)) as Hr. rewrite E in Hr. destruct Hr as (bs & _ & El & ->).
    pose proof (from_be_bytes_range bs) as Hr. by rewrite El, (proj1 (width_size w Hw)) in Hr.
  - injection E as <-. by destruct (from_word_ok w v Hw Hv) as [E ?].
Qed.

(** Loading an operand and going on *)
Lemma load_operand_bind {A} w i v (k : Z -> M S A) vm :
  width_ok w -> mem_wf (memory vm) -> u64_ok v ->
  (x <- load_operand w i v ;; k x) vm =
    match wide_operand (memory vm) w i v with
    | Ok x => k x vm
    | Err e => (Err (Recoverable e), vm)
    | Crash => (Crash, vm)
    end.
Proof.
  intros Hw Hm Hv. destruct i.
  - pose proof (read_operand (memory vm) w v Hw Hm (proj1 Hv)) as Hr.
    unfold load_operand, load_wide, mem_read_bytes, mbind_, gets, lift_panic, lift.
    destruct (wide_operand _ _ _ _) as [x|e|] eqn:E; [|by rewrite Hr|done].
    destruct Hr as (bs & -> & El & ->). cbn. unfold mret. by rewrite (ox_from_be _ _ (int_exact w Hw)).
  - unfold load_operand. destruct (from_word_ok w v Hw Hv) as [-> _]. done.
Qed.

(** The common end of the handlers: flags, result, next instruction. *)
Lemma wide_finish w a v ofl err vm :
  width_ok w -> uw_ok w v -> reg vm RegId.PC + Instruction_SIZE < U64 ->
  (put_reg RegId.OF ofl ;;; put_reg RegId.ERR err ;;; store_wide w (ownership_registers vm) a v ;;; inc_pc) vm =
  wide_outcome w a (Ok (v, ofl, err)) vm.
Proof.
  intros Hw Hv Hpc. unfold wide_outcome, store_wide, mbind_, put_reg, modify, update_memory. autorewrite with vm.
  rewrite (ox_to_be _ _ (int_exact w Hw)) by done.
  destruct (write_bytes _ _ _ _) as [m'| |]; [|done..]. rewrite inc_pc_eq; rewrite reg_set_memory, !reg_set_ne; done.
Qed.

Lemma set_of_err_comm vm ofl err :
  set_reg (set_reg vm RegId.ERR err) RegId.OF ofl = set_reg (set_reg vm RegId.OF ofl) RegId.ERR err.
Proof.
  unfold set_reg, set_registers, reg_put. cbn. f_equal. by rewrite list_insert_insert_ne.
Qed.

Lemma wrapping_range w flag x v ofl err : 0 < 2 ^ w -> wrapping_result w flag x = Ok (v, ofl, err) -> uw_ok w v.
Proof. unfold wrapping_result, uw_ok. intros Hw. repeat case_if; intros [= <- <- <-]; [lia|]. by apply Z.mod_pos_bound. Qed.

(** A handler that wraps, from its result and overflow flag *)
Lemma wrapping_tail w a x v (ov : bool) vm :
  width_ok w -> reg vm RegId.PC + Instruction_SIZE < U64 ->
  v = x mod 2 ^ w -> ov = negb ((0 <=? x) && (x <? 2 ^ w)) ->
  (if ov && negb (is_wrapping (reg vm RegId.FLAG)) then mpanic ArithmeticOverflow
   else put_reg RegId.OF (bool_word ov) ;;; put_reg RegId.ERR 0 ;;;
        store_wide w (ownership_registers vm) a v ;;; inc_pc) vm =
  wide_outcome w a (wrapping_result w (reg vm RegId.FLAG) x) vm.
Proof.
  intros Hw Hpc -> ->. destruct (width_double w Hw) as (_ & _ & H2).
  assert (Hv : uw_ok w (x mod 2 ^ w)) by (apply Z.mod_pos_bound; lia). unfold wrapping_result.
  destruct ((0 <=? x) && (x <? 2 ^ w)) eqn:E; cbn [negb andb].
  - rewrite wide_finish by done. zbool. by rewrite Z.mod_small by lia.
  - destruct (is_wrapping _); cbn [negb]; [by apply wide_finish|done].
Qed.

(** A handler that checks its divisor, from what the checked operation gives *)
Lemma partial_tail {A} w a (x : option A) (convert : A -> Z) defined y vm :
  width_ok w -> reg vm RegId.PC + Instruction_SIZE < U64 ->
  match x with Some z => defined = true /\ convert z = y /\ uw_ok w y | None => defined = false end ->
  (result <- checked_result w (reg vm RegId.FLAG) x convert ;;
   put_reg RegId.OF 0 ;;; store_wide w (ownership_registers vm) a result ;;; inc_pc) vm =
  wide_outcome w a (partial_result (reg vm RegId.FLAG) defined y) vm.
Proof.
  intros Hw Hpc Hx. assert (H0' : uw_ok w 0) by (destruct (width_double w Hw) as (_ & _ & ?); unfold uw_ok; lia).
  unfold checked_result, partial_result. destruct x as [z|]; [destruct Hx as (-> & -> & Hy)|rewrite Hx; destruct (is_unsafe_math _); [|done]].
  - rewrite <- wide_finish by done. unfold mbind_, put_reg, modify, mret. by rewrite set_of_err_comm.
  - rewrite (ox_default _ _ (int_exact w Hw)), <- wide_finish by done. unfold mbind_, put_reg, modify, mret. by rewrite set_of_err_comm.
Qed.

Lemma op_range w l r args :
  width_ok w -> uw_ok w l -> uw_ok w r ->
  match op args with
  | MathOp.ADD | MathOp.SUB => True
  | MathOp.NOT => uw_ok w (2 ^ w - 1 - l)
  | MathOp.OR => uw_ok w (Z.lor l r)
  | MathOp.XOR => uw_ok w (Z.lxor l r)
  | MathOp.AND => uw_ok w (Z.land l r)
  | MathOp.SHL => uw_ok w ((l * 2 ^ r) mod 2 ^ w)
  | MathOp.SHR => uw_ok w (l / 2 ^ r)
  end.
Proof.
  intros Hw Hl Hr. destruct (width_double w Hw) as (_ & _ & H2). assert (Hw0 : 0 <= w) by (destruct Hw as [-> | ->]; done).
  destruct (op args); try done; [by unfold uw_ok in *; lia|by apply lor_range|by apply lxor_range|by apply land_range| |].
  - apply Z.mod_pos_bound. lia.
  - unfold uw_ok in *. pose proof (Z.pow_pos_nonneg 2 r ltac:(lia) ltac:(lia)).
    split; [apply Z.div_pos; lia|]. apply Z.div_lt_upper_bound; nia.
Qed.

(** The results of the operations, as the tails of the handlers use them *)
Lemma op_spec w a l r args vm :
  width_ok w -> uw_ok w l -> uw_ok w r -> reg vm RegId.PC + Instruction_SIZE < U64 ->
  (let wrapped := fst (op_overflowing_wide w l r args) in
   let overflow := snd (op_overflowing_wide w l r args) in
   if overflow && negb (is_wrapping (reg vm RegId.FLAG)) then mpanic ArithmeticOverflow
   else put_reg RegId.OF (bool_word overflow) ;;; put_reg RegId.ERR 0 ;;;
        store_wide w (ownership_registers vm) a wrapped ;;; inc_pc) vm =
  wide_outcome w a (wide_spec (HOp args) w (reg vm RegId.FLAG) l r 0) vm.
Proof.
  intros Hw Hl Hr Hpc. rewrite op_overflowing_exact by done. destruct (width_double w Hw) as (_ & _ & H2).
  assert (Hw0 : 0 <= w) by (destruct Hw as [-> | ->]; done). cbn [wide_spec].
  assert (Hbits : forall x, uw_ok w x -> forall ov, ov = false ->
    (if ov && negb (is_wrapping (reg vm RegId.FLAG)) then mpanic ArithmeticOverflow
     else put_reg RegId.OF (bool_word ov) ;;; put_reg RegId.ERR 0 ;;;
          store_wide w (ownership_registers vm) a x ;;; inc_pc) vm = wide_outcome w a (Ok (x, 0, 0)) vm).
  { intros x Hx ov ->. by apply wide_finish. }
  pose proof (op_range w l r args Hw Hl Hr) as Ho. destruct (op args); cbn [fst snd overflowing_add overflowing_sub];
    try (apply Hbits; [|done]; exact Ho).
  - apply wrapping_tail; try done. unfold uw_ok in *. lia.
  - apply wrapping_tail; try done. unfold uw_ok in *. lia.
  - unfold uw_ok in Hr. rewrite Z.shiftl_mul_pow2 by lia. by apply Hbits.
  - unfold uw_ok in Hr. rewrite Z.shiftr_div_pow2 by lia. by apply Hbits.
Qed.

Lemma div_spec w l r :
  width_ok w -> uw_ok w l -> uw_ok w r ->
  match prim_checked_div (to_prim w l) (to_prim w r) with
  | Some z => negb (r =? 0) = true /\ from_prim w z = l / r /\ uw_ok w (l / r)
  | None => negb (r =? 0) = false
  end.
Proof.
  intros Hw Hl Hr. pose proof (prim_div w (to_prim w l) (to_prim w r) (proj1 (width_prim w Hw))) as Hd.
  rewrite !to_prim_value in Hd by done. destruct (prim_checked_div _ _) as [z|]; [|by rewrite Hd].
  destruct Hd as [Hne Ez]. rewrite from_prim_value by done. unfold uw_ok in *. split_and!; [lia|done|apply Z.div_pos; lia|].
  apply Z.div_lt_upper_bound; nia.
Qed.
Lemma rem_spec w (x : Prim (2 * w)) v m :
  width_ok w -> uw_ok w m -> prim_value x = v ->
  match prim_checked_rem x (to_wider_prim w m) with
  | Some z => negb (m =? 0) = true /\ truncate_from_prim w z = v mod m /\ uw_ok w (v mod m)
  | None => negb (m =? 0) = false
  end.
Proof.
  intros Hw Hm <-. pose proof (prim_rem _ x (to_wider_prim w m) (proj2 (width_prim w Hw))) as Hd.
  rewrite to_wider_prim_value in Hd by done. destruct (prim_checked_rem _ _) as [z|]; [|by rewrite Hd].
  destruct Hd as [Hne Ez]. unfold uw_ok in *. pose proof (Z.mod_pos_bound (prim_value x) m ltac:(lia)).
  rewrite truncate_from_prim_value, Ez by done. split_and!; [lia| |lia|lia]. apply Z.mod_small. lia.
Qed.

(** Each handler loads its operands, computes its specification and finishes. *)
Lemma run_wide_eq h w a b c d vm :
  width_ok w -> mem_wf (memory vm) -> u64_ok b -> u64_ok c -> u64_ok d -> reg vm RegId.PC + Instruction_SIZE < U64 ->
  run_wide h w a b c d vm = wide_result h w a b c d vm.
Proof.
  intros Hw Hm Hb Hc Hd Hpc. unfold wide_result, wide_operands. destruct (width_double w Hw) as (_ & _ & H2).
  assert (Hin : forall i v x, u64_ok v -> wide_operand (memory vm) w i v = Ok x -> uw_ok w x) by (intros; by eapply operand_range).
  assert (Hload : forall A v (k : Z -> M S A), u64_ok v -> (x <- load_wide w v ;; k x) vm =
    match wide_operand (memory vm) w true v with Ok x => k x vm | Err e => (Err (Recoverable e), vm) | Crash => (Crash, vm) end).
  { intros A v k Hv. by apply (load_operand_bind w true). }
  destruct h as [args|args|args| | |]; cbn [run_wide lhs_indirect rhs_indirect ternary];
    unfold alu_wideint_op, alu_wideint_mul, alu_wideint_div, alu_wideint_addmod, alu_wideint_mulmod, alu_wideint_muldiv;
    do 2 (erewrite mbind_Ok by reflexivity); rewrite ?Hload, ?load_operand_bind by done;
    (destruct (wide_operand (memory vm) w _ b) as [l|e|] eqn:El; cbn [obind]; [|done|done]);
    rewrite ?Hload, ?load_operand_bind by done;
    (destruct (wide_operand (memory vm) w _ c) as [r|e|] eqn:Er; cbn [obind]; [|done|done]);
    rewrite ?Hload by done;
    try (destruct (wide_operand (memory vm) w _ d) as [m|e|] eqn:Em; cbn [obind]; [|done|done]);
    apply Hin in El; try done; apply Hin in Er; try done; try (apply Hin in Em; [|done]).
  - by apply op_spec.
  - rewrite (ox_mul _ _ (int_exact w Hw)) by done. apply wrapping_tail; try done. unfold uw_ok in *. cbn [snd overflowing_mul]. nia.
  - apply partial_tail; try done. by apply div_spec.
  - destruct (checked_add_wider w l r Hw El Er) as (z & -> & Ez). erewrite mbind_Ok by reflexivity.
    apply partial_tail; try done. by apply rem_spec.
  - apply partial_tail; try done. apply rem_spec; try done. by apply full_mul_value.
  - destruct (muldiv_value w l r m Hw El Er Em) as [Ev Eo]. cbn zeta. set (q := l * r / _) in *. cbn zeta in Ev, Eo. fold q in Ev, Eo.
    rewrite Ev, Eo. apply wrapping_tail; try done. unfold uw_ok in *.
    assert (0 <= q) by (unfold q; case_if; apply Z.div_pos; nia). lia.
Qed.

Lemma wide_spec_range h w flag l r m v ofl err :
  width_ok w -> uw_ok w l -> uw_ok w r -> uw_ok w m ->
  wide_spec h w flag l r m = Ok (v, ofl, err) -> uw_ok w v.
Proof.
  intros Hw Hl Hr Hm Hs. destruct (width_double w Hw) as (_ & _ & H2). assert (Hw0 : 0 <= w) by (destruct Hw as [-> | ->]; done).
  assert (Hpart : forall b x, (b = true -> uw_ok w x) -> partial_result flag b x = Ok (v, ofl, err) -> uw_ok w v).
  { intros b x Hx. unfold partial_result. destruct b; [intros [= <- <- <-]; auto|].
    case_if; intros [= <- <- <-]. unfold uw_ok. lia. }
  destruct h as [args|args|args| | |]; cbn [wide_spec] in Hs; try (eapply wrapping_range; [|exact Hs]; lia);
    try (eapply Hpart; [|exact Hs]; intros Hb; zbool; unfold uw_ok in *).
  - pose proof (op_range w l r args Hw Hl Hr) as Ho. unfold uw_ok in *. destruct (op args);
      try (eapply wrapping_range; [|exact Hs]; lia); by injection Hs as <- _ _.
  - split; [apply Z.div_pos; lia|]. apply Z.div_lt_upper_bound; nia.
  - pose proof (Z.mod_pos_bound (l + r) m). lia.
  - pose proof (Z.mod_pos_bound (l * r) m). lia.
Qed.

Lemma wide_spec_no_crash h w flag l r m : wide_spec h w flag l r m <> Crash.
Proof.
  destruct h; cbn [wide_spec]; try destruct (op args); unfold wrapping_result, partial_result; repeat case_if; done.
Qed.
Lemma wide_operands_range h w b c d mem :
  width_ok w -> mem_wf mem -> u64_ok b -> u64_ok c -> u64_ok d ->
  match wide_operands h mem w b c d with
  | Ok (l, r, m) => uw_ok w l /\ uw_ok w r /\ uw_ok w m
  | Err _ => True
  | Crash => False
  end.
Proof.
  intros Hw Hm Hb Hc Hd. assert (Ho : forall i v, u64_ok v ->
    match wide_operand mem w i v with Ok x => uw_ok w x | Err _ => True | Crash => False end).
  { intros i v Hv. pose proof (operand_range mem w i v) as Hr. pose proof (read_operand mem w v Hw Hm (proj1 Hv)) as Hn.
    destruct i; [|by apply Hr]. destruct (wide_operand mem w true v); [by apply Hr|done|done]. }
  assert (H0' : uw_ok w 0) by (destruct (width_double w Hw) as (_ & _ & ?); unfold uw_ok; lia).
  unfold wide_operands. pose proof (Ho (lhs_indirect h) b Hb) as Hl. destruct (wide_operand mem w _ b) as [l|e|]; cbn [obind]; [|done|done].
  pose proof (Ho (rhs_indirect h) c Hc) as Hr. destruct (wide_operand mem w _ c) as [r|e|]; cbn [obind]; [|done|done].
  destruct (ternary h); [|done]. pose proof (Ho true d Hd) as Hx. by destruct (wide_operand mem w _ d).
Qed.

(** A specified result is written and reads back. *)
Lemma wide_outcome_spec h w a l r m vm :
  width_ok w -> mem_wf (memory vm) -> 0 <= a -> uw_ok w l -> uw_ok w r -> uw_ok w m ->
  match wide_outcome w a (wide_spec h w (reg vm RegId.FLAG) l r m) vm with
  | (Ok _, vm') => exists v ofl err, wide_spec h w (reg vm RegId.FLAG) l r m = Ok (v, ofl, err) /\ uw_ok w v /\
      mem_upd (memory vm) a (to_be_bytes (size_of w) v) (memory vm') /\
      read_bytes (memory vm') a (w / 8) = Ok (to_be_bytes (size_of w) v)
  | (Err _, vm') => memory vm' = memory vm
  | (Crash, _) => False
  end.
Proof.
  intros Hw Hm Ha Hl Hr Hmm. unfold wide_outcome.
  destruct (wide_spec h w _ l r m) as [[[v ofl] err]|e|] eqn:Es; [|done|by apply wide_spec_no_crash in Es].
  pose proof (write_bytes_spec (memory vm) (ownership_registers vm) a (to_be_bytes (size_of w) v) Hm Ha) as Hb.
  destruct (write_bytes _ _ _ _) as [m'|e|]; [|done..]. destruct Hb as (Hacc & Hu & _). pose proof (mem_upd_wf _ _ _ _ Hu Hm) as Hm'.
  exists v, ofl, err. split_and!; [done|exact (wide_spec_range _ _ _ _ _ _ _ _ _ Hw Hl Hr Hmm Es)|done|].
  assert (En : w / 8 = zlen (to_be_bytes (size_of w) v)) by (rewrite zlen_to_be_bytes; symmetry; by apply width_size).
  cbn [memory set_memory set_reg set_registers]. rewrite En, read_bytes_eq by (done || apply zlen_nonneg).
  apply mem_shows_read; [done| |by eapply mem_upd_shows]. eapply same_shape_accessible; [apply Hu|exact Hacc].
Qed.

Lemma cmp_wide_exact w l r mode :
  width_ok w -> uw_ok w l -> uw_ok w r ->
  cmp_wide w l r mode =
    match mode with
    | CompareMode.EQ => bool_word (l =? r)
    | CompareMode.NE => bool_word (negb (l =? r))
    | CompareMode.LT => bool_word (l <? r)
    | CompareMode.GT => bool_word (r <? l)
    | CompareMode.LTE => bool_word (l <=? r)
    | CompareMode.GTE => bool_word (r <=? l)
    | CompareMode.LZC => if l =? 0 then w else w - 1 - Z.log2 l
    end.
Proof.
  intros Hw Hl Hr. pose proof (int_exact w Hw) as Ho. unfold cmp_wide. rewrite (ox_eq _ _ Ho), (ox_cmp _ _ Ho) by done.
  destruct mode; try done; [..|by apply (ox_leading_zeros _ _ Ho)]; f_equal; destruct (Z.compare_spec l r); lia.
Qed.
End WideExact.


(** Wide comparisons are exact at 128 and 256 bits. With readable operands and a writable
    destination register, the register receives one or zero as the integers compare (or the
    number of leading zeros of the left one), [$of] and [$err] are cleared, and nothing else
    changes but [$pc]. An operand that cannot be read or a reserved destination panics and
    changes nothing. *)
Theorem wide_compare_exact {S} `{WideLaws} (w ra b c : Z) (args : CompareArgs) (vm : Interpreter S) :
  width_ok w -> mem_wf (memory vm) -> RegId.ok ra -> u64_ok b -> u64_ok c -> reg vm RegId.PC + Instruction_SIZE < U64 ->
  alu_wideint_cmp w ra b c args vm =
    match (let? dest := write_reg_key ra in
           let? l := wide_operand (memory vm) w true b in
           let? r := wide_operand (memory vm) w (cmp_indirect_rhs args) c in Ok (dest, l, r)) with
    | Ok (dest, l, r) =>
        let x := match mode args with
                 | CompareMode.EQ => bool_word (l =? r)
                 | CompareMode.NE => bool_word (negb (l =? r))
                 | CompareMode.LT => bool_word (l <? r)
                 | CompareMode.GT => bool_word (r <? l)
                 | CompareMode.LTE => bool_word (l <=? r)
                 | CompareMode.GTE => bool_word (r <=? l)
                 | CompareMode.LZC => if l =? 0 then w else w - 1 - Z.log2 l
                 end in
        (Ok tt, set_reg (set_reg (set_reg (set_reg vm dest x) RegId.OF 0) RegId.ERR 0) RegId.PC
                  (reg vm RegId.PC + Instruction_SIZE))
    | Err e => (Err (Recoverable e), vm)
    | Crash => (Crash, vm)
    end.
Proof.
  intros Hw Hm Hra Hb Hc Hpc. unfold alu_wideint_cmp.
  destruct (write_reg_key ra) as [dest|e|] eqn:Ed; cbn [obind]; [|done|done]. erewrite mbind_Ok by reflexivity.
  assert (Hload : forall A (k : Z -> M S A), (x <- load_wide w b ;; k x) vm =
    match wide_operand (memory vm) w true b with Ok x => k x vm | Err e => (Err (Recoverable e), vm) | Crash => (Crash, vm) end)
    by (intros; by apply (load_operand_bind w true)).
  rewrite Hload. destruct (wide_operand (memory vm) w true b) as [l|e|] eqn:El; cbn [obind]; [|done|done].
  rewrite load_operand_bind by done. destruct (wide_operand (memory vm) w _ c) as [r|e|] eqn:Er; cbn [obind]; [|done|done].
  apply operand_range in El; [|done..]. apply operand_range in Er; [|done..]. rewrite cmp_wide_exact by done.
  unfold write_reg_key in Ed. case_if_in Ed; [|done]. injection Ed as <-. unfold mbind_, put_reg, modify.
  assert (Hne : 0 <= ra /\ ra <> RegId.PC) by (unfold RegId.WRITABLE, RegId.PC in *; lia). destruct Hne as [Hra0 Hne].
  rewrite inc_pc_eq; rewrite !reg_set_ne by done; done.
Qed.

(** Integer crates whose values are integers *)
#[local] Instance wide_std : WideLib := {|
  u256_ops := std_ops 256;
  Prim _ := Z;
  prim_from_little_endian _ bs := from_le_bytes bs;
  prim_to_little_endian w x := to_le_bytes (size_of w) x;
  prim_checked_add w x y := let s := x mod 2 ^ w + y mod 2 ^ w in if s <? 2 ^ w then Some s else None;
  prim_checked_div w x y := checked_div (x mod 2 ^ w) (y mod 2 ^ w);
  prim_checked_rem w x y := if y mod 2 ^ w =? 0 then None else Some ((x mod 2 ^ w) mod (y mod 2 ^ w));
  prim_full_mul w x y := (x mod 2 ^ w) * (y mod 2 ^ w);
  prim_shr w x n := Z.shiftr (x mod 2 ^ w) n
|}.
#[local] Instance wide_std_laws : WideLaws.
Proof.
  assert (Hsize : forall w, prim_width w -> 256 ^ Z.of_nat (size_of w) = 2 ^ w) by (by intros w [-> |[-> | ->]]).
  assert (Hpos : forall w, prim_width w -> 2 <= 2 ^ w) by (intros w [-> |[-> | ->]]; discriminate).
  assert (Hv : forall w (x : Z), prim_width w -> prim_value (w := w) x = x mod 2 ^ w).
  { intros w x Hw. unfold prim_value. cbn. unfold from_le_bytes, to_le_bytes. rewrite rev_involutive, to_from_be_bytes_mod. by rewrite Hsize. }
  split.
  - apply std_exact.
  - intros w x Hw. apply length_to_le_bytes.
  - intros w bs Hw El. rewrite Hv by done. cbn. apply Z.mod_small. rewrite <- Hsize, <- El by done. apply from_le_bytes_range.
  - intros w x y Hw. rewrite !Hv by done. cbn. pose proof (Hpos w Hw). pose proof (Z.mod_pos_bound x (2 ^ w)). pose proof (Z.mod_pos_bound y (2 ^ w)).
    case_if; [|lia]. rewrite Hv by done. apply Z.mod_small. lia.
  - intros w x y Hw. rewrite !Hv by done. cbn. pose proof (Hpos w Hw). pose proof (Z.mod_pos_bound x (2 ^ w)). pose proof (Z.mod_pos_bound y (2 ^ w)).
    unfold checked_div. case_if; [done|]. split; [done|]. rewrite Hv by done. apply Z.mod_small. split; [apply Z.div_pos; lia|].
    apply Z.div_lt_upper_bound; nia.
  - intros w x y Hw. rewrite !Hv by done. cbn. pose proof (Hpos w Hw). pose proof (Z.mod_pos_bound x (2 ^ w)). pose proof (Z.mod_pos_bound y (2 ^ w)).
    case_if; [done|]. split; [done|]. rewrite Hv by done. apply Z.mod_small. pose proof (Z.mod_pos_bound (x mod 2 ^ w) (y mod 2 ^ w)). lia.
  - intros w x y Hw. assert (Hw' : prim_width w \/ w = 64) by (unfold prim_width in *; lia). assert (H2 : 2 ^ (2 * w) = 2 ^ w * 2 ^ w /\ 2 <= 2 ^ w).
    { destruct Hw' as [[-> |[-> | ->]]| ->]; split; reflexivity || discriminate. }
    assert (Hvw : forall z, prim_value (w := w) z = z mod 2 ^ w).
    { intros z. destruct Hw' as [Hw'| ->]; [by apply Hv|]. unfold prim_value. cbn. unfold from_le_bytes, to_le_bytes. by rewrite rev_involutive, to_from_be_bytes_mod. }
    rewrite !Hvw, Hv by done. cbn. pose proof (Z.mod_pos_bound x (2 ^ w)). pose proof (Z.mod_pos_bound y (2 ^ w)). apply Z.mod_small. nia.
  - intros w x n Hw Hn. rewrite !Hv by done. cbn. pose proof (Hpos w Hw). pose proof (Z.mod_pos_bound x (2 ^ w)).
    apply Z.mod_small. rewrite Z.shiftr_div_pow2 by lia. pose proof (Z.pow_pos_nonneg 2 n ltac:(lia) ltac:(lia)).
    split; [apply Z.div_pos; lia|]. apply Z.div_lt_upper_bound; nia.
Qed.

(** Zero less the immediate seven wraps at 128 bits; without the flag it would panic. *)
Definition vm_wrapping : Interpreter unit := set_reg vm_64 RegId.FLAG 2.

Lemma wide_compare_exact_witness :
  alu_wideint_cmp 256 20 0 7 (mkCompareArgs CompareMode.LT false) vm_64 =
    (Ok tt, set_reg (set_reg (set_reg (set_reg vm_64 20 1) RegId.OF 0) RegId.ERR 0) RegId.PC 4).
Proof.
  rewrite (wide_compare_exact 256 20 0 7 (mkCompareArgs CompareMode.LT false) vm_64) by
    (try exact memory_64_wf; by right || done).
  vm_compute. reflexivity.
Defined.
