(* ===== verification/Storage.v ===== *)
(** * Contract storage

    What the interpreter needs from its storage backend
    (src/fuel-vm/src/storage/interpreter.rs, the traits of src/fuel-storage/src/lib.rs) as a
    class of operations and classes of laws, and the asset-balance operations built on the
    interface (src/fuel-vm/src/interpreter/contract.rs), with the conservation law of a
    transfer. MemStorage.v and SlotStorage.v have backends. *)

From Stdlib Require Import Strings.Byte.
From S2P Require Import Prelude Asm Merkle Receipts.

(** ** The interface

    The result is [None] where the backend reports its own error ([DataError]). *)
Class InterpreterStorage (S : Type) : Type := {
  (** [StorageInspect<ContractsRawCode>::get] *)
  storage_contract : S -> ContractId -> option (option (list byte));
  (** [StorageSize<ContractsRawCode>::size_of_value] *)
  storage_contract_size : S -> ContractId -> option (option Z);
  (** [StorageRead<ContractsRawCode>::read(key, offset, buf)]: the bytes put in a buffer of
      the given length, or [Some None] where the key is absent. *)
  storage_contract_read : S -> ContractId -> Z -> Z -> option (option (list byte));
  (** The same for [BlobData]. *)
  storage_blob_size : S -> BlobId -> option (option Z);
  storage_blob_read : S -> BlobId -> Z -> Z -> option (option (list byte));
  (** [ContractsAssetsStorage] *)
  contract_asset_id_balance : S -> ContractId -> AssetId -> option (option Z);
  contract_asset_id_balance_replace :
    S -> ContractId -> AssetId -> Z -> option (option Z * S);
  (** Contract state: slots addressed by a contract and a key. *)
  contract_state : S -> ContractId -> Bytes32 -> option (option (list byte));
  contract_state_replace :
    S -> ContractId -> Bytes32 -> list byte -> option (option (list byte) * S);
  contract_state_range : S -> ContractId -> Bytes32 -> Z -> option (list (option (list byte)));
  (** Returns the number of slots that were unset before. *)
  contract_state_insert_range :
    S -> ContractId -> Bytes32 -> list (list byte) -> option (Z * S);
  (** Returns whether all the slots were set before. *)
  contract_state_remove_range : S -> ContractId -> Bytes32 -> Z -> option (bool * S);
  (** Block information *)
  timestamp_at : S -> Z -> option Z;
  block_hash_at : S -> Z -> option Bytes32;
  storage_coinbase : S -> option ContractId
}.

(** [contract_asset_id_balance_insert], by the default [StorageMutate::insert]. *)
Definition contract_asset_id_balance_insert {S} `{InterpreterStorage S}
    (s : S) (c : ContractId) (a : AssetId) (v : Z) : option S :=
  match contract_asset_id_balance_replace s c a v with
  | Some (_, s') => Some s'
  | None => None
  end.

(** What an update of one table leaves alone. *)
Section Same.
Context {S : Type} `{InterpreterStorage S}.
Implicit Types (s : S).

Definition same_code s s' : Prop :=
  forall c, storage_contract s' c = storage_contract s c /\
    storage_contract_size s' c = storage_contract_size s c /\
    forall off len, storage_contract_read s' c off len = storage_contract_read s c off len.

Definition same_state s s' : Prop :=
  forall c k, contract_state s' c k = contract_state s c k.

Definition same_balances s s' : Prop :=
  forall c a, contract_asset_id_balance s' c a = contract_asset_id_balance s c a.

(** Only slots of the contract [c] differ. *)
Definition state_of_others s c s' : Prop :=
  forall c' k, c' <> c -> contract_state s' c' k = contract_state s c' k.

#[export] Instance same_code_preorder : PreOrder same_code.
Proof.
  split; [done|]. intros s1 s2 s3 H1 H2 c.
  destruct (H1 c) as (? & ? & Hr1), (H2 c) as (? & ? & Hr2).
  split_and!; [congruence|congruence|]. intros. by rewrite Hr2, Hr1.
Qed.

#[export] Instance same_state_preorder : PreOrder same_state.
Proof. split; [done|]. intros s1 s2 s3 H1 H2 c k. by rewrite H2, H1. Qed.
End Same.

(** A slot holds 32 bytes. *)
Definition slot_ok (v : list byte) : Prop := zlen v = 32.

(** What the traits document: sizes are sizes of allocations, a read fills the buffer, a
    replace returns the old value and affects only its key, and an update of one table or of
    one contract's slots leaves the others alone. [storage_wf] says that the stored words are
    words and the stored slots are slots. *)
Class StorageLaws (S : Type) `{InterpreterStorage S} : Type := {
  storage_wf : S -> Prop;
  size_range s c n :
    storage_wf s -> storage_contract_size s c = Some (Some n) -> 0 <= n < 2 ^ 63;
  code_range s c code :
    storage_wf s -> storage_contract s c = Some (Some code) -> zlen code < 2 ^ 63;
  read_fills s c off len bs :
    storage_wf s -> 0 <= off -> 0 <= len ->
    storage_contract_read s c off len = Some (Some bs) -> zlen bs = len;
  blob_range s b n :
    storage_wf s -> storage_blob_size s b = Some (Some n) -> 0 <= n < 2 ^ 63;
  blob_fills s b off len bs :
    storage_wf s -> 0 <= off -> 0 <= len ->
    storage_blob_read s b off len = Some (Some bs) -> zlen bs = len;
  balance_word s c a v :
    storage_wf s -> contract_asset_id_balance s c a = Some (Some v) -> u64_ok v;
  replace_wf s c a v o s' :
    storage_wf s -> u64_ok v ->
    contract_asset_id_balance_replace s c a v = Some (o, s') -> storage_wf s';
  replace_old s c a v o s' :
    contract_asset_id_balance_replace s c a v = Some (o, s') ->
    contract_asset_id_balance s c a = Some o;
  replace_get s c a v o s' :
    contract_asset_id_balance_replace s c a v = Some (o, s') ->
    contract_asset_id_balance s' c a = Some (Some v);
  replace_frame s c a v o s' c' a' :
    contract_asset_id_balance_replace s c a v = Some (o, s') -> (c', a') <> (c, a) ->
    contract_asset_id_balance s' c' a' = contract_asset_id_balance s c' a';
  replace_code s c a v o s' :
    contract_asset_id_balance_replace s c a v = Some (o, s') ->
    same_code s s' /\ same_state s s';
  slot_range s c k v :
    storage_wf s -> contract_state s c k = Some (Some v) -> slot_ok v;
  range_slots s c k n l :
    storage_wf s -> contract_state_range s c k n = Some l -> Forall (fun o => forall v, o = Some v -> slot_ok v) l;
  slot_replace_spec s c k v o s' :
    storage_wf s -> slot_ok v -> contract_state_replace s c k v = Some (o, s') ->
    storage_wf s' /\ same_code s s' /\ same_balances s s' /\
    contract_state s c k = Some o /\ contract_state s' c k = Some (Some v) /\
    forall c' k', (c', k') <> (c, k) -> contract_state s' c' k' = contract_state s c' k';
  insert_range_frame s c k l n s' :
    storage_wf s -> Forall slot_ok l -> contract_state_insert_range s c k l = Some (n, s') ->
    storage_wf s' /\ same_code s s' /\ same_balances s s' /\ state_of_others s c s' /\
    0 <= n <= zlen l;
  remove_range_frame s c k n b s' :
    storage_wf s -> contract_state_remove_range s c k n = Some (b, s') ->
    storage_wf s' /\ same_code s s' /\ same_balances s s' /\ state_of_others s c s';
  timestamp_word s h t :
    storage_wf s -> 0 <= h < U32 -> timestamp_at s h = Some t -> u64_ok t
}.

(** What the traits document of the operations on ranges of slots: a range is returned in
    full, whether or not its slots are set; an insertion counts the slots that were unset, a
    removal tells whether all were set, and neither touches slots outside the range. *)
Definition key_add (k : Bytes32) (i : Z) : Bytes32 := to_be_bytes 32 (from_be_bytes k + i).

Definition key_space : Z := 2 ^ 256.

Definition slot {S} `{InterpreterStorage S} (s : S) (c : ContractId) (k : Bytes32)
  : option (list byte) := default None (contract_state s c k).

(** Slots at the keys [k], [k + 1], .. *)
Definition slots {S} `{InterpreterStorage S} (s : S) (c : ContractId) (k : Bytes32) (n : Z)
  : list (option (list byte)) := map (fun i => slot s c (key_add k i)) (seqZ 0 n).

(** Only the slots of [c] in the range from [k] differ, and they are now [l]. *)
Definition slots_set {S} `{InterpreterStorage S} (s : S) (c : ContractId) (k : Bytes32)
    (l : list (option (list byte))) (s' : S) : Prop :=
  slots s' c k (zlen l) = l /\
  forall k', (forall i, 0 <= i < zlen l -> k' <> key_add k i) -> slot s' c k' = slot s c k'.

Class StateLaws (S : Type) `{StorageLaws S} : Prop := {
  range_full s c k n l :
    storage_wf s -> zlen k = 32 -> 0 <= n -> contract_state_range s c k n = Some l -> zlen l = n;
  range_exact s c k n l :
    storage_wf s -> zlen k = 32 -> 0 <= n -> from_be_bytes k + n <= key_space ->
    contract_state_range s c k n = Some l -> l = slots s c k n;
  insert_range_exact s c k l n s' :
    storage_wf s -> zlen k = 32 -> Forall slot_ok l -> from_be_bytes k + zlen l <= key_space ->
    contract_state_insert_range s c k l = Some (n, s') ->
    n = zlen (filter (fun o => o = None) (slots s c k (zlen l))) /\ slots_set s c k (map Some l) s';
  remove_range_exact s c k n b s' :
    storage_wf s -> zlen k = 32 -> 0 <= n -> from_be_bytes k + n <= key_space ->
    contract_state_remove_range s c k n = Some (b, s') ->
    b = forallb (fun o => bool_decide (is_Some o)) (slots s c k n) /\
    slots_set s c k (replicate (Z.to_nat n) None) s'
}.

(** ** Asset balances (contract.rs) *)

Section Balances.
Context {S : Type} `{InterpreterStorage S}.
Implicit Types (s : S).

(** [map_err(RuntimeError::Storage)?] *)
Definition storage_result {A} (x : option A) : outcome RuntimeError A := ok_or x Storage.

Definition contract_size s (contract : ContractId) : outcome RuntimeError Z :=
  let? size := storage_result (storage_contract_size s contract) in
  ok_or size (Recoverable ContractNotFound).

(** [blob_size] (contract.rs) *)
Definition blob_size_of s (blob_id : BlobId) : outcome RuntimeError Z :=
  let? size := storage_result (storage_blob_size s blob_id) in
  ok_or size (Recoverable BlobNotFound).

Definition balance s (contract : ContractId) (asset_id : AssetId) : outcome RuntimeError Z :=
  let? b := storage_result (contract_asset_id_balance s contract asset_id) in
  Ok (default 0 b).

Definition balance_increase s (contract : ContractId) (asset_id : AssetId) (amount : Z)
  : outcome RuntimeError (bool * S) :=
  if amount =? 0 then Ok (false, s)
  else
    let? b := balance s contract asset_id in
    let? b := ok_or (checked_add b amount) (Recoverable BalanceOverflow) in
    let? '(old_value, s') :=
      storage_result (contract_asset_id_balance_replace s contract asset_id b) in
    Ok (match old_value with None => true | Some _ => false end, s').

Definition balance_decrease s (contract : ContractId) (asset_id : AssetId) (amount : Z)
  : outcome RuntimeError S :=
  if amount =? 0 then Ok s
  else
    let? b := balance s contract asset_id in
    let? b := ok_or (checked_sub b amount) (Recoverable NotEnoughBalance) in
    storage_result (contract_asset_id_balance_insert s contract asset_id b).

(** [read_contract] (flow.rs): the bytes read into the destination buffer. *)
Definition read_contract s (contract : ContractId) (len : Z) : outcome RuntimeError (list byte) :=
  let? r := storage_result (storage_contract_read s contract 0 len) in
  ok_or r (Recoverable ContractNotFound).
End Balances.

Section BalanceLaws.
Context {S : Type} `{StorageLaws S}.
Implicit Types (s : S).

(** The balance as the program sees it; zero where nothing is stored. *)
Definition bal s (c : ContractId) (a : AssetId) : Z :=
  match contract_asset_id_balance s c a with Some (Some v) => v | _ => 0 end.

(** [s'] is [s] with the balance of [(c, a)] replaced by [v]. *)
Definition bal_upd s c a v s' : Prop :=
  storage_wf s' /\ same_code s s' /\ same_state s s' /\
  forall c' a', bal s' c' a' = if decide ((c', a') = (c, a)) then v else bal s c' a'.

Lemma bal_upd_refl s c a : storage_wf s -> bal_upd s c a (bal s c a) s.
Proof.
  intros Hs. split_and!; [done|done|done|]. intros c' a'. case_decide; [|done]. by simplify_eq.
Qed.

Lemma replace_bal_upd s c a v o s' :
  storage_wf s -> u64_ok v -> contract_asset_id_balance_replace s c a v = Some (o, s') ->
  bal_upd s c a v s'.
Proof.
  intros Hs Hv E. destruct (replace_code _ _ _ _ _ _ E).
  split_and!; [by eapply replace_wf|done|done|].
  intros c' a'. unfold bal. case_decide as Hd.
  - injection Hd as -> ->. by erewrite replace_get by done.
  - by erewrite replace_frame by done.
Qed.

Lemma bal_word s c a : storage_wf s -> u64_ok (bal s c a).
Proof.
  intros Hs. unfold bal. destruct (contract_asset_id_balance s c a) as [[v|]|] eqn:E; [|done..].
  by eapply balance_word.
Qed.

Lemma balance_spec s c a :
  balance s c a = match contract_asset_id_balance s c a with
                  | Some _ => Ok (bal s c a) | None => Err Storage end.
Proof. unfold balance, bal, storage_result. by destruct (contract_asset_id_balance s c a) as [[]|]. Qed.

(** Crediting and debiting: the exact new balance, or the reason for the failure. *)
Lemma balance_increase_spec s c a n :
  storage_wf s -> u64_ok n ->
  match balance_increase s c a n with
  | Ok (_, s') => bal_upd s c a (bal s c a + n) s'
  | Err (Recoverable e) => e = BalanceOverflow /\ U64 <= bal s c a + n
  | Err (Bug _) => False
  | Err Storage => True
  | Crash => False
  end.
Proof.
  intros Hs Hn. unfold balance_increase. case_if.
  { subst. rewrite Z.add_0_r. by apply bal_upd_refl. }
  rewrite balance_spec. destruct (contract_asset_id_balance s c a); [|done]. cbn [obind].
  pose proof (bal_word s c a Hs). unfold checked_add. case_if; cbn [ok_or obind]; [|split; [done|lia]].
  unfold storage_result. destruct (contract_asset_id_balance_replace _ _ _ _) as [[o' s']|] eqn:Er;
    [|done]. cbn. eapply replace_bal_upd; [done| |done]. unfold u64_ok in *. lia.
Qed.

Lemma balance_decrease_spec s c a n :
  storage_wf s -> u64_ok n ->
  match balance_decrease s c a n with
  | Ok s' => n <= bal s c a /\ bal_upd s c a (bal s c a - n) s'
  | Err (Recoverable e) => e = NotEnoughBalance /\ bal s c a < n
  | Err (Bug _) => False
  | Err Storage => True
  | Crash => False
  end.
Proof.
  intros Hs Hn. unfold balance_decrease. pose proof (bal_word s c a Hs) as Hb. case_if.
  { subst. rewrite Z.sub_0_r. split; [apply Hb|by apply bal_upd_refl]. }
  rewrite balance_spec. destruct (contract_asset_id_balance s c a); [|done]. cbn [obind].
  unfold checked_sub. case_if; cbn [ok_or obind]; [|split; [done|lia]].
  unfold storage_result, contract_asset_id_balance_insert.
  destruct (contract_asset_id_balance_replace _ _ _ _) as [[o' s']|] eqn:Er; [|done]. cbn.
  split; [done|]. eapply replace_bal_upd; [done| |done]. unfold u64_ok in *. lia.
Qed.

(** Sum of an asset over a list of contracts. *)
Fixpoint total s (a : AssetId) (l : list ContractId) : Z :=
  match l with [] => 0 | c :: l => bal s c a + total s a l end.

Lemma total_upd s c a v s' l :
  bal_upd s c a v s' -> NoDup l ->
  total s' a l = total s a l + if decide (c ∈ l) then v - bal s c a else 0.
Proof.
  intros (_ & _ & _ & Hb). induction l as [|d l IH]; intros Hnd; cbn [total].
  { case_decide as Hd; [by apply elem_of_nil in Hd|done]. }
  apply NoDup_cons in Hnd as [Hd Hnd]. rewrite (IH Hnd), Hb.
  destruct (decide ((d, a) = (c, a))) as [[= ->]|Hne].
  - rewrite decide_False by done. rewrite decide_True by set_solver. lia.
  - destruct (decide (c ∈ l)); [rewrite decide_True by set_solver; lia|].
    rewrite decide_False by set_solver. lia.
Qed.

Lemma total_other s c a v s' b l : bal_upd s c a v s' -> a <> b -> total s' b l = total s b l.
Proof.
  intros (_ & _ & _ & Hb) Hne. induction l as [|d l IH]; cbn [total]; [done|].
  rewrite IH, Hb, decide_False by congruence. done.
Qed.
End BalanceLaws.

