(* ===== verification/MemStorage.v ===== *)
(** * The in-memory storage backend

    [MemoryStorage] (src/fuel-vm/src/storage/memory.rs): contract code, balances, contract
    state and blobs in ordered maps, in three generations; the range operations on contract
    state walk the ordered map as the source does. It satisfies [StorageLaws]. *)

From Stdlib Require Import Strings.Byte.
From stdpp Require Import sorting.
From S2P Require Import Prelude Asm Merkle Receipts Storage.

(** The TAI64 label of the Unix epoch, of the [tai64] crate. *)
Class Tai64 : Type := {
  UNIX_EPOCH : Z;
  UNIX_EPOCH_range : 0 <= UNIX_EPOCH <= 2 ^ 63
}.

(** ** State *)

(** The tables for consensus parameters and uploaded bytecode are part of the ledger that
    TxExec models. *)
Record MemoryStorageInner : Type := mkInner {
  contracts : gmap ContractId (list byte);
  inner_balances : gmap (ContractId * AssetId) Z;
  inner_state : gmap (ContractId * Bytes32) (list byte);
  blobs : gmap BlobId (list byte)
}.

Record MemoryStorage : Type := mkMemoryStorage {
  ms_block_height : Z;
  ms_coinbase : ContractId;
  ms_memory : MemoryStorageInner;
  ms_transacted : MemoryStorageInner;
  ms_persisted : MemoryStorageInner
}.

Definition inner_default : MemoryStorageInner := mkInner ∅ ∅ ∅ ∅.
Definition memory_storage_new (block_height : Z) (coinbase : ContractId) : MemoryStorage :=
  mkMemoryStorage block_height coinbase inner_default inner_default inner_default.

Section Generations.
Implicit Types (s : MemoryStorage).

Definition commit s : MemoryStorage :=
  mkMemoryStorage (ms_block_height s) (ms_coinbase s)
    (ms_memory s) (ms_memory s) (ms_persisted s).
Definition revert_storage s : MemoryStorage :=
  mkMemoryStorage (ms_block_height s) (ms_coinbase s)
    (ms_transacted s) (ms_transacted s) (ms_persisted s).
Definition rollback_storage s : MemoryStorage :=
  mkMemoryStorage (ms_block_height s) (ms_coinbase s)
    (ms_persisted s) (ms_persisted s) (ms_persisted s).
Definition persist s : MemoryStorage :=
  mkMemoryStorage (ms_block_height s) (ms_coinbase s)
    (ms_transacted s) (ms_transacted s) (ms_transacted s).

Definition set_inner s (i : MemoryStorageInner) : MemoryStorage :=
  mkMemoryStorage (ms_block_height s) (ms_coinbase s) i (ms_transacted s) (ms_persisted s).
End Generations.

Definition set_contracts (i : MemoryStorageInner) x : MemoryStorageInner :=
  mkInner x (inner_balances i) (inner_state i) (blobs i).
Definition set_inner_balances (i : MemoryStorageInner) x : MemoryStorageInner :=
  mkInner (contracts i) x (inner_state i) (blobs i).
Definition set_inner_state (i : MemoryStorageInner) x : MemoryStorageInner :=
  mkInner (contracts i) (inner_balances i) x (blobs i).
Definition set_blobs (i : MemoryStorageInner) x : MemoryStorageInner :=
  mkInner (contracts i) (inner_balances i) (inner_state i) x.

(** ** Code, blobs and balances *)

Definition contract_code_replace (s : MemoryStorage) (key : ContractId) (value : list byte)
  : option (list byte) * MemoryStorage :=
  (contracts (ms_memory s) !! key,
   set_inner s (set_contracts (ms_memory s) (<[key := value]> (contracts (ms_memory s))))).

(** Both tables read a range that must lie within the value. *)
Definition read_within (value : option (list byte)) (offset len : Z)
  : option (option (list byte)) :=
  match value with
  | Some c =>
      let end_ := saturating_add offset len in
      if zlen c <? end_ then None
      else Some (Some (zslice c offset end_))
  | None => Some None
  end.

Definition contract_code_read (s : MemoryStorage) (key : ContractId) (offset len : Z)
  : option (option (list byte)) := read_within (contracts (ms_memory s) !! key) offset len.

Definition blob_read (s : MemoryStorage) (key : BlobId) (offset len : Z)
  : option (option (list byte)) := read_within (blobs (ms_memory s) !! key) offset len.

Definition blob_replace (s : MemoryStorage) (key : BlobId) (value : list byte)
  : option (list byte) * MemoryStorage :=
  (blobs (ms_memory s) !! key,
   set_inner s (set_blobs (ms_memory s) (<[key := value]> (blobs (ms_memory s))))).

Definition balance_replace (s : MemoryStorage) (c : ContractId) (a : AssetId) (v : Z)
  : option Z * MemoryStorage :=
  (inner_balances (ms_memory s) !! (c, a),
   set_inner s (set_inner_balances (ms_memory s)
                  (<[(c, a) := v]> (inner_balances (ms_memory s))))).

(** ** Contract state *)

Definition state_replace (s : MemoryStorage) (c : ContractId) (k : Bytes32) (v : list byte)
  : option (list byte) * MemoryStorage :=
  (inner_state (ms_memory s) !! (c, k),
   set_inner s (set_inner_state (ms_memory s) (<[(c, k) := v]> (inner_state (ms_memory s))))).

(** [add_one]: increment a key; the flag is the overflow of the whole key. *)
Definition add_one (a : Bytes32) : Bytes32 * bool :=
  let '(right_half, overflow) := overflowing_add 128 (from_be_bytes (drop 16 a)) 1 in
  if overflow then
    let '(left_half, overflow) := overflowing_add 128 (from_be_bytes (take 16 a)) 1 in
    (to_be_bytes 16 left_half ++ to_be_bytes 16 right_half, overflow)
  else (take 16 a ++ to_be_bytes 16 right_half, false).

(** [successors(Some(start), ..).take(n)] *)
Fixpoint key_successors (start : Bytes32) (n : nat) : list Bytes32 :=
  match n with
  | O => []
  | S n =>
      let '(next, overflow) := add_one start in
      start :: if overflow then [] else key_successors next n
  end.

(** A key of the ordered map: the contract, then the slot. *)
Definition StateEntry : Type := (ContractId * Bytes32) * list byte.
Definition state_key_val (p : ContractId * Bytes32) : Z := from_be_bytes (p.1 ++ p.2).
Definition entry_le (x y : StateEntry) : Prop := state_key_val x.1 <= state_key_val y.1.
#[export] Instance entry_le_dec : RelDecision entry_le.
Proof. intros x y. unfold entry_le. apply _. Defined.

(** [BTreeMap::iter] *)
Definition sorted_entries (m : gmap (ContractId * Bytes32) (list byte)) : list StateEntry :=
  merge_sort entry_le (map_to_list m).

(** [BTreeMap::range(start..end)] *)
Definition btree_range (m : gmap (ContractId * Bytes32) (list byte)) (start end_ : ContractId * Bytes32)
  : list StateEntry :=
  filter (fun e => state_key_val start <= state_key_val e.1 < state_key_val end_)
    (sorted_entries m).

(** The closure that pairs the requested keys with the entries of the map. *)
Fixpoint range_walk (keys : list Bytes32) (next_item : option StateEntry) (iter : list StateEntry)
  : list (option (list byte)) :=
  match keys with
  | [] => []
  | next_key :: keys =>
      match next_item with
      | Some (k, v) =>
          match from_be_bytes next_key ?= from_be_bytes k.2 with
          | Lt => None :: range_walk keys next_item iter
          | Eq => Some v :: range_walk keys (head iter) (tail iter)
          | Gt => None :: range_walk keys None iter
          end
      | None => None :: range_walk keys None iter
      end
  end.

Definition state_range (s : MemoryStorage) (id : ContractId) (start_key : Bytes32) (range : Z)
  : list (option (list byte)) :=
  let iter := btree_range (inner_state (ms_memory s)) (id, start_key) (id, replicate 32 xff) in
  range_walk (key_successors start_key (Z.to_nat range)) (head iter) (tail iter).

Definition state_insert_one (contract : ContractId)
    (acc : Z * gmap (ContractId * Bytes32) (list byte)) (kv : Bytes32 * list byte)
  : Z * gmap (ContractId * Bytes32) (list byte) :=
  let '(unset_count, m) := acc in
  let key := (contract, kv.1) in
  (if bool_decide (is_Some (m !! key)) then unset_count else unset_count + 1,
   <[key := kv.2]> m).

Definition state_insert_range (s : MemoryStorage) (contract : ContractId) (start_key : Bytes32)
    (values : list (list byte)) : Z * MemoryStorage :=
  let '(unset_count, m) :=
    foldl (state_insert_one contract) (0, inner_state (ms_memory s))
      (zip (key_successors start_key (length values)) values) in
  (unset_count, set_inner s (set_inner_state (ms_memory s) m)).

(** The closure of [retain]; the requested keys are removed from [values] as they are met. *)
Definition state_retain_one (contract : ContractId)
    (acc : gset Bytes32 * bool * gmap (ContractId * Bytes32) (list byte)) (e : StateEntry)
  : gset Bytes32 * bool * gmap (ContractId * Bytes32) (list byte) :=
  let '(values, all_set_key, m) := acc in
  let '(c, k) := e.1 in
  let r := bool_decide (k ∈ values) in
  (values ∖ {[k]}, all_set_key && (bool_decide (c = contract) && r),
   if bool_decide (c <> contract) || negb r then m else delete (c, k) m).

Definition state_remove_range (s : MemoryStorage) (contract : ContractId) (start_key : Bytes32)
    (range : Z) : bool * MemoryStorage :=
  let values : gset Bytes32 := list_to_set (key_successors start_key (Z.to_nat range)) in
  let '(values, all_set_key, m) :=
    foldl (state_retain_one contract) (values, true, inner_state (ms_memory s))
      (sorted_entries (inner_state (ms_memory s))) in
  (all_set_key && bool_decide (values = ∅),
   set_inner s (set_inner_state (ms_memory s) m)).

(** ** Blocks *)

Definition memory_timestamp `{Tai64} (height : Z) : Z := UNIX_EPOCH + height * 10.
Definition memory_block_hash `{Sha256} (block_height : Z) : Bytes32 :=
  sha256 (to_be_bytes 4 block_height).

#[export] Instance memory_storage_interface `{Sha256} `{Tai64} : InterpreterStorage MemoryStorage := {|
  storage_contract s c := Some (contracts (ms_memory s) !! c);
  storage_contract_size s c := Some (zlen <$> contracts (ms_memory s) !! c);
  storage_contract_read := contract_code_read;
  storage_blob_size s b := Some (zlen <$> blobs (ms_memory s) !! b);
  storage_blob_read := blob_read;
  contract_asset_id_balance s c a := Some (inner_balances (ms_memory s) !! (c, a));
  contract_asset_id_balance_replace s c a v := Some (balance_replace s c a v);
  contract_state s c k := Some (inner_state (ms_memory s) !! (c, k));
  contract_state_replace s c k v := Some (state_replace s c k v);
  contract_state_range s c k n := Some (state_range s c k n);
  contract_state_insert_range s c k l := Some (state_insert_range s c k l);
  contract_state_remove_range s c k n := Some (state_remove_range s c k n);
  timestamp_at s h := Some (memory_timestamp h);
  block_hash_at s h := Some (memory_block_hash h);
  storage_coinbase s := Some (ms_coinbase s)
|}.

(** ** Laws *)

(** Stored code is shorter than the largest allocation, stored balances are words, slots have
    32 bytes. *)
Definition inner_wf (i : MemoryStorageInner) : Prop :=
  map_Forall (fun _ c => zlen c < 2 ^ 63) (contracts i) /\
  map_Forall (fun _ v => u64_ok v) (inner_balances i) /\
  map_Forall (fun _ v => slot_ok v) (inner_state i) /\
  map_Forall (fun _ c => zlen c < 2 ^ 63) (blobs i).
Definition memory_storage_wf (s : MemoryStorage) : Prop := inner_wf (ms_memory s).

Lemma read_within_fills (o : option (list byte)) off len bs :
  (forall c, o = Some c -> zlen c < 2 ^ 63) -> 0 <= off -> 0 <= len ->
  read_within o off len = Some (Some bs) -> zlen bs = len.
Proof.
  intros Hc Ho Hl. unfold read_within. destruct o as [code|]; [|done].
  specialize (Hc code eq_refl). unfold saturating_add. case_if; [done|].
  intros [= <-]. rewrite zlen_slice; lia.
Qed.

Lemma range_walk_values (P : list byte -> Prop) keys : forall next iter,
  (forall e, next = Some e -> P e.2) -> Forall (fun e => P e.2) iter ->
  Forall (fun o => forall v, o = Some v -> P v) (range_walk keys next iter).
Proof.
  induction keys as [|k keys IH]; intros next iter Hn Hi; cbn [range_walk]; [constructor|].
  destruct next as [[k' v]|]; [|constructor; [done|by apply IH]].
  destruct (_ ?= _).
  - constructor; [intros ? [= <-]; by apply (Hn (k', v))|].
    apply IH; [|by destruct Hi]. intros e He. destruct iter; [done|].
    injection He as ->. by inversion Hi.
  - constructor; [done|]. by apply IH.
  - constructor; [done|]. by apply IH.
Qed.

Lemma sorted_entries_in (m : gmap (ContractId * Bytes32) (list byte)) (e : StateEntry) :
  e ∈ sorted_entries m <-> m !! e.1 = Some e.2.
Proof.
  unfold sorted_entries. rewrite merge_sort_Permutation. destruct e. apply elem_of_map_to_list.
Qed.

Lemma state_range_slots s c k n :
  map_Forall (fun _ v => slot_ok v) (inner_state (ms_memory s)) ->
  Forall (fun o => forall v, o = Some v -> slot_ok v) (state_range s c k n).
Proof.
  intros Hs. unfold state_range.
  assert (Hf : Forall (fun e => slot_ok e.2)
    (btree_range (inner_state (ms_memory s)) (c, k) (c, replicate 32 xff))).
  { apply Forall_forall. intros e [_ He]%list_elem_of_filter.
    apply sorted_entries_in in He. by apply (Hs e.1). }
  destruct (btree_range _ _ _) as [|e l]; apply range_walk_values; cbn; try done.
  - intros x [= <-]. by inversion Hf.
  - by inversion Hf.
Qed.

(** Inserting slots one after the other. *)
Lemma state_insert_fold contract kvs : forall n m n' m',
  foldl (state_insert_one contract) (n, m) kvs = (n', m') ->
  map_Forall (fun _ v => slot_ok v) m -> Forall (fun kv => slot_ok kv.2) kvs ->
  map_Forall (fun _ v => slot_ok v) m' /\ n <= n' <= n + zlen kvs /\
  forall c k, c <> contract -> m' !! (c, k) = m !! (c, k).
Proof.
  induction kvs as [|[k v] kvs IH]; intros n m n' m' E Hm Hv; cbn [foldl state_insert_one] in E.
  { injection E as <- <-. split_and!; [done|lia|unfold zlen; cbn; lia|done]. }
  inversion Hv as [|? ? Hv1 Hvs]; subst.
  destruct (IH _ _ _ _ E) as (Hm' & Hn & Hf); [by apply map_Forall_insert_2|done|].
  change (zlen ((k, v) :: kvs)) with (zlen ([(k, v)] ++ kvs)). rewrite zlen_app.
  change (zlen [(k, v)]) with 1. pose proof (zlen_nonneg kvs).
  split_and!; [done|destruct (bool_decide _); lia..|].
  intros c k' Hc. rewrite Hf by done. cbn. by rewrite lookup_insert_ne by congruence.
Qed.

(** Removing slots only deletes entries of the contract. *)
Lemma state_retain_fold contract es : forall vals b m vals' b' m',
  foldl (state_retain_one contract) (vals, b, m) es = (vals', b', m') ->
  m' ⊆ m /\ forall c k, c <> contract -> m' !! (c, k) = m !! (c, k).
Proof.
  induction es as [|[[c k] v] es IH]; intros vals b m vals' b' m' E; cbn [foldl] in E.
  { injection E as <- <- <-. done. }
  apply IH in E as [Hs Hf]. case_match eqn:Hr; [done|].
  apply orb_false_iff in Hr as [Hc _]. apply bool_decide_eq_false, dec_stable in Hc as ->.
  split; [etrans; [exact Hs|apply delete_subseteq]|]. intros c' k' Hne.
  rewrite Hf by done. by rewrite lookup_delete_ne by congruence.
Qed.

Lemma length_key_successors_le start n : (length (key_successors start n) <= n)%nat.
Proof.
  revert start. induction n as [|n IH]; intros start; cbn [key_successors]; [cbn; lia|].
  destruct (add_one start) as [next []]; cbn; [lia|]. specialize (IH next). lia.
Qed.

Lemma state_insert_range_frame s c k l :
  memory_storage_wf s -> Forall slot_ok l ->
  memory_storage_wf (state_insert_range s c k l).2 /\
  (forall c' k', c' <> c -> inner_state (ms_memory (state_insert_range s c k l).2) !! (c', k') =
     inner_state (ms_memory s) !! (c', k')) /\
  contracts (ms_memory (state_insert_range s c k l).2) = contracts (ms_memory s) /\
  inner_balances (ms_memory (state_insert_range s c k l).2) = inner_balances (ms_memory s) /\
  0 <= (state_insert_range s c k l).1 <= zlen l.
Proof.
  intros (Hc & Hb & Hs & Hbl) Hl. unfold state_insert_range.
  destruct (foldl _ _ _) as [n m] eqn:E. cbn.
  destruct (state_insert_fold c _ _ _ _ _ E Hs) as (Hm & Hn & Hf).
  { apply Forall_forall. intros [k' v] Hin%elem_of_zip_r. by eapply Forall_forall in Hl. }
  split; [split_and!; assumption|]. split; [exact Hf|]. split; [done|]. split; [done|]. split; [lia|].
  etrans; [apply Hn|]. unfold zlen. rewrite length_zip_with. lia.
Qed.

Lemma state_remove_range_frame s c k n :
  memory_storage_wf s ->
  memory_storage_wf (state_remove_range s c k n).2 /\
  (forall c' k', c' <> c -> inner_state (ms_memory (state_remove_range s c k n).2) !! (c', k') =
     inner_state (ms_memory s) !! (c', k')) /\
  contracts (ms_memory (state_remove_range s c k n).2) = contracts (ms_memory s) /\
  inner_balances (ms_memory (state_remove_range s c k n).2) = inner_balances (ms_memory s).
Proof.
  intros (Hc & Hb & Hs & Hbl). unfold state_remove_range.
  destruct (foldl _ _ _) as [[vals b] m] eqn:E. cbn.
  apply state_retain_fold in E as [Hsub Hf].
  split_and!; try done. split_and!; try done. cbn.
  intros i v Hi. apply (Hs i). by eapply lookup_weaken.
Qed.

#[export] Instance memory_storage_laws `{Sha256} `{Tai64} : StorageLaws MemoryStorage.
Proof.
  refine {| storage_wf := memory_storage_wf |}.
  - intros s c n (Hc & _). cbn. destruct (contracts (ms_memory s) !! c) as [code|] eqn:E; [|done].
    intros [= <-]. specialize (Hc c code E). cbn in Hc. pose proof (zlen_nonneg code). lia.
  - intros s c code (Hc & _) [= E]. by apply (Hc c).
  - intros s c off len bs (Hc & _). apply read_within_fills. intros code. apply Hc.
  - intros s b n (_ & _ & _ & Hb). cbn. destruct (blobs (ms_memory s) !! b) as [code|] eqn:E; [|done].
    intros [= <-]. specialize (Hb b code E). cbn in Hb. pose proof (zlen_nonneg code). lia.
  - intros s b off len bs (_ & _ & _ & Hb). apply read_within_fills. intros code. apply Hb.
  - intros s c a v (_ & Hb & _) [= E]. by apply (Hb (c, a)).
  - intros s c a v o s' (? & ? & ? & ?) Hv [= <- <-].
    split; [done|]. split; [by apply map_Forall_insert_2|done].
  - intros s c a v o s' [= <- <-]. done.
  - intros s c a v o s' [= <- <-]. cbn. by rewrite lookup_insert_eq.
  - intros s c a v o s' c' a' [= <- <-] Hne. cbn. by rewrite lookup_insert_ne by congruence.
  - intros s c a v o s' [= <- <-]. done.
  - intros s c k v (_ & _ & Hs & _) [= E]. by apply (Hs (c, k)).
  - intros s c k n l (_ & _ & Hs & _) [= <-]. by apply state_range_slots.
  - intros s c k v o s' (? & ? & Hs & ?) Hv [= <- <-].
    split; [|split_and!; [done|done|done| |]].
    + do 2 (split; [done|]). split; [by apply map_Forall_insert_2|done].
    + cbn. by rewrite lookup_insert_eq.
    + intros c' k' Hne. cbn. by rewrite lookup_insert_ne by congruence.
  - intros s c k l n s' Hw Hl [= E].
    destruct (state_insert_range_frame s c k l Hw Hl) as (? & Hf & Hc & Hb & Hn). rewrite E in *.
    cbn in Hf, Hc, Hb, Hn. split_and!; [done| |intros c' a'; cbn; by rewrite Hb| |lia|lia].
    + intros c'. unfold storage_contract, storage_contract_size, storage_contract_read. cbn.
      unfold contract_code_read. by rewrite Hc.
    + intros c' k' Hne. cbn. by rewrite Hf.
  - intros s c k n b s' Hw [= E].
    destruct (state_remove_range_frame s c k n Hw) as (? & Hf & Hc & Hb). rewrite E in *.
    cbn in Hf, Hc, Hb. split_and!; [done| |intros c' a'; cbn; by rewrite Hb|].
    + intros c'. unfold storage_contract, storage_contract_size, storage_contract_read. cbn.
      unfold contract_code_read. by rewrite Hc.
    + intros c' k' Hne. cbn. by rewrite Hf.
  - intros s h t _ Hh [= <-]. pose proof UNIX_EPOCH_range. unfold memory_timestamp, u64_ok. lia.
Defined.

(** Building well-formed storages. *)
Lemma memory_storage_new_wf height coinbase : memory_storage_wf (memory_storage_new height coinbase).
Proof. split_and!; apply map_Forall_empty. Qed.

Lemma contract_code_replace_wf s k v :
  memory_storage_wf s -> zlen v < 2 ^ 63 -> memory_storage_wf (contract_code_replace s k v).2.
Proof.
  intros (? & ? & ? & ?) Hv. split; [by apply map_Forall_insert_2|]. by split_and!.
Qed.
