(* ===== verification/SlotStorage.v ===== *)
(** * A storage whose slot ranges behave as documented

    The in-memory backend departs from the documentation of the range operations
    ([memory_range_last_slot] and [memory_remove_other_contract] below). [SlotStorage] has the
    same tables and implements the ranges slot by slot, refusing ranges beyond the last key;
    it shows that the laws can be met. *)

From Stdlib Require Import Strings.Byte.
From S2P Require Import Prelude Asm Merkle Receipts Storage MemStorage.

Record SlotStorage : Type := mkSlots { slot_memory : MemoryStorage }.

Abbreviation StateTable := (gmap (ContractId * Bytes32) (list byte)) (only parsing).
Definition state_table (s : SlotStorage) : StateTable := inner_state (ms_memory (slot_memory s)).
Definition set_state_table (s : SlotStorage) (m : StateTable) : SlotStorage :=
  mkSlots (set_inner (slot_memory s) (set_inner_state (ms_memory (slot_memory s)) m)).

Definition in_space (k : Bytes32) (n : Z) : bool := from_be_bytes k + n <=? key_space.

Definition range_keys (c : ContractId) (k : Bytes32) (n : Z) : list (ContractId * Bytes32) :=
  map (fun i => (c, key_add k i)) (seqZ 0 n).

Definition table_slots (m : StateTable) (c : ContractId) (k : Bytes32) (n : Z)
  : list (option (list byte)) := map (fun key => m !! key) (range_keys c k n).

Definition insert_slots (m : StateTable) (c : ContractId) (k : Bytes32) (l : list (list byte))
  : StateTable := list_to_map (zip (range_keys c k (zlen l)) l) ∪ m.

Definition remove_slots (m : StateTable) (c : ContractId) (k : Bytes32) (n : Z) : StateTable :=
  filter (fun e => e.1 ∉ range_keys c k n) m.

Definition slots_insert_range (s : SlotStorage) (c : ContractId) (k : Bytes32) (l : list (list byte))
  : option (Z * SlotStorage) :=
  if in_space k (zlen l) then
    Some (zlen (filter (fun o => o = None) (table_slots (state_table s) c k (zlen l))),
          set_state_table s (insert_slots (state_table s) c k l))
  else None.

Definition slots_remove_range (s : SlotStorage) (c : ContractId) (k : Bytes32) (n : Z)
  : option (bool * SlotStorage) :=
  if in_space k n then
    Some (forallb (fun o => bool_decide (is_Some o)) (table_slots (state_table s) c k n),
          set_state_table s (remove_slots (state_table s) c k n))
  else None.

Definition lift_storage {A} (x : option (A * MemoryStorage)) : option (A * SlotStorage) :=
  prod_map id mkSlots <$> x.

#[export] Instance slot_storage_interface `{Sha256} `{Tai64} : InterpreterStorage SlotStorage := {|
  storage_contract s := storage_contract (slot_memory s);
  storage_contract_size s := storage_contract_size (slot_memory s);
  storage_contract_read s := storage_contract_read (slot_memory s);
  storage_blob_size s := storage_blob_size (slot_memory s);
  storage_blob_read s := storage_blob_read (slot_memory s);
  contract_asset_id_balance s := contract_asset_id_balance (slot_memory s);
  contract_asset_id_balance_replace s c a v :=
    lift_storage (contract_asset_id_balance_replace (slot_memory s) c a v);
  contract_state s := contract_state (slot_memory s);
  contract_state_replace s c k v := lift_storage (contract_state_replace (slot_memory s) c k v);
  contract_state_range s c k n :=
    if in_space k n then Some (table_slots (state_table s) c k n) else None;
  contract_state_insert_range := slots_insert_range;
  contract_state_remove_range := slots_remove_range;
  timestamp_at s := timestamp_at (slot_memory s);
  block_hash_at s := block_hash_at (slot_memory s);
  storage_coinbase s := storage_coinbase (slot_memory s)
|}.

(** ** Keys of a range *)

Lemma key_add_val k i :
  0 <= i -> from_be_bytes k + i < key_space -> from_be_bytes (key_add k i) = from_be_bytes k + i.
Proof.
  intros Hi Hk. unfold key_add. apply to_from_be_bytes. pose proof (from_be_bytes_range k).
  unfold key_space in Hk. change (256 ^ Z.of_nat 32) with (2 ^ 256). lia.
Qed.

Lemma key_add_inj k n i j :
  from_be_bytes k + n <= key_space -> 0 <= i < n -> 0 <= j < n -> key_add k i = key_add k j -> i = j.
Proof.
  intros Hk Hi Hj E. apply (f_equal from_be_bytes) in E. rewrite !key_add_val in E by lia. lia.
Qed.

Lemma range_keys_in c k n key :
  key ∈ range_keys c k n <-> exists i, 0 <= i < n /\ key = (c, key_add k i).
Proof.
  unfold range_keys. rewrite list_elem_of_In, in_map_iff. split.
  - intros (i & <- & Hi). exists i. split; [|done].
    apply list_elem_of_In, elem_of_seqZ in Hi. lia.
  - intros (i & Hi & ->). exists i. split; [done|]. apply list_elem_of_In, elem_of_seqZ. lia.
Qed.

Lemma range_keys_NoDup c k n : from_be_bytes k + n <= key_space -> NoDup (range_keys c k n).
Proof.
  intros Hk. unfold range_keys. apply NoDup_fmap_2_strong; [|apply NoDup_seqZ].
  intros i j Hi Hj E%(f_equal snd). rewrite elem_of_seqZ in Hi, Hj.
  apply (key_add_inj k n i j Hk); [lia|lia|done].
Qed.

Lemma zlen_range_keys c k n : 0 <= n -> zlen (range_keys c k n) = n.
Proof. intros Hn. unfold zlen, range_keys. rewrite length_map, length_seqZ. lia. Qed.

(** ** Laws *)

Lemma insert_slots_get m c k l i v :
  from_be_bytes k + zlen l <= key_space -> 0 <= i -> zget l i = Some v ->
  insert_slots m c k l !! (c, key_add k i) = Some v.
Proof.
  intros Hk Hi Hv. unfold insert_slots. apply lookup_union_Some_l.
  apply elem_of_list_to_map_1.
  - rewrite fst_zip; [by apply range_keys_NoDup|].
    pose proof (zlen_range_keys c k (zlen l) (zlen_nonneg l)). unfold zlen in *. lia.
  - assert (Hil : i < zlen l) by (apply zget_Some_len in Hv; lia).
    apply list_elem_of_lookup. exists (Z.to_nat i). apply lookup_zip_Some. split.
    + unfold range_keys. rewrite list_lookup_fmap, lookup_seqZ_lt by lia. cbn [fmap option_fmap option_map].
      by replace (0 + Z.of_nat (Z.to_nat i)) with i by lia.
    + unfold zget in Hv. by destruct (i <? 0).
Qed.

Lemma insert_slots_frame m c k l key :
  (forall i, 0 <= i < zlen l -> key <> (c, key_add k i)) ->
  insert_slots m c k l !! key = m !! key.
Proof.
  intros Hk. unfold insert_slots. rewrite lookup_union_r; [done|].
  apply not_elem_of_list_to_map_1. intros Hin.
  apply list_elem_of_fmap in Hin as ([k' v] & -> & Hin).
  apply elem_of_zip_l, range_keys_in in Hin as (i & Hi & E). by apply (Hk i).
Qed.

Lemma remove_slots_get m c k n key :
  remove_slots m c k n !! key = if decide (key ∈ range_keys c k n) then None else m !! key.
Proof.
  unfold remove_slots. case_decide as Hd.
  - apply map_lookup_filter_None. right. intros v _. cbn. tauto.
  - destruct (m !! key) as [v|] eqn:E.
    + apply map_lookup_filter_Some. by split.
    + apply map_lookup_filter_None. by left.
Qed.

Definition slot_storage_wf (s : SlotStorage) : Prop := memory_storage_wf (slot_memory s).

Lemma set_state_table_wf s m :
  slot_storage_wf s -> map_Forall (fun _ v => slot_ok v) m -> slot_storage_wf (set_state_table s m).
Proof. intros (? & ? & _ & ?) Hm. by split_and!. Qed.

Lemma insert_slots_ok m c k l :
  map_Forall (fun _ v => slot_ok v) m -> Forall slot_ok l ->
  map_Forall (fun _ v => slot_ok v) (insert_slots m c k l).
Proof.
  intros Hm Hl. unfold insert_slots. apply map_Forall_union_2; [|done].
  intros key v Hv. apply elem_of_list_to_map_2, elem_of_zip_r in Hv.
  by eapply Forall_forall in Hl.
Qed.

Lemma remove_slots_ok m c k n :
  map_Forall (fun _ v => slot_ok v) m -> map_Forall (fun _ v => slot_ok v) (remove_slots m c k n).
Proof.
  intros Hm key v. rewrite remove_slots_get. case_decide; [done|]. apply Hm.
Qed.

Lemma zlen_filter_le {A} (P : A -> Prop) `{!forall x, Decision (P x)} (l : list A) :
  zlen (filter P l) <= zlen l.
Proof. unfold zlen. pose proof (length_filter P l). lia. Qed.

Lemma lift_storage_Some {A} (x : option (A * MemoryStorage)) a s' :
  lift_storage x = Some (a, s') -> x = Some (a, slot_memory s').
Proof. destruct x as [[? ?]|]; [|done]. by intros [= <- <-]. Qed.

#[export] Instance slot_storage_laws `{Sha256} `{Tai64} : StorageLaws SlotStorage.
Proof.
  refine {| storage_wf := slot_storage_wf |}.
  - intros s. exact (size_range (slot_memory s)).
  - intros s. exact (code_range (slot_memory s)).
  - intros s. exact (read_fills (slot_memory s)).
  - intros s. exact (blob_range (slot_memory s)).
  - intros s. exact (blob_fills (slot_memory s)).
  - intros s. exact (balance_word (slot_memory s)).
  - intros s c a v o s' Hs Hv E%lift_storage_Some. exact (replace_wf (slot_memory s) c a v o (slot_memory s') Hs Hv E).
  - intros s c a v o s' E%lift_storage_Some. exact (replace_old (slot_memory s) c a v o _ E).
  - intros s c a v o s' E%lift_storage_Some. exact (replace_get (slot_memory s) c a v o _ E).
  - intros s c a v o s' c' a' E%lift_storage_Some. exact (replace_frame (slot_memory s) c a v o _ c' a' E).
  - intros s c a v o s' E%lift_storage_Some. exact (replace_code (slot_memory s) c a v o _ E).
  - intros s. exact (slot_range (slot_memory s)).
  - intros s c k n l (_ & _ & Hs & _) E. cbn in E. destruct (in_space k n); [|done].
    injection E as <-. apply Forall_forall. intros o Ho v ->.
    apply list_elem_of_In, in_map_iff in Ho as (key & E & _). by apply (Hs key).
  - intros s c k v o s' Hs Hv E%lift_storage_Some. exact (slot_replace_spec (slot_memory s) c k v o _ Hs Hv E).
  - intros s c k l n s' Hs Hl E. cbn in E. unfold slots_insert_range in E.
    destruct (in_space k (zlen l)); [|done]. injection E as <- <-.
    split; [by apply set_state_table_wf, insert_slots_ok; [done|apply Hs|]|].
    split_and!; try done; [|apply zlen_nonneg|].
    + intros c' k' Hne. cbn. rewrite insert_slots_frame; [done|]. congruence.
    + etrans; [apply zlen_filter_le|]. unfold table_slots, zlen. rewrite length_map.
      pose proof (zlen_range_keys c k (zlen l) (zlen_nonneg l)). unfold zlen in *. lia.
  - intros s c k n b s' Hs E. cbn in E. unfold slots_remove_range in E.
    destruct (in_space k n); [|done]. injection E as <- <-.
    split; [by apply set_state_table_wf, remove_slots_ok, Hs|].
    split_and!; try done. intros c' k' Hne. cbn. rewrite remove_slots_get.
    rewrite decide_False; [done|]. intros (i & _ & E)%range_keys_in. congruence.
  - intros s. exact (timestamp_word (slot_memory s)).
Defined.

#[local] Arguments key_add : simpl never.
#[local] Arguments to_be_bytes : simpl never.

Lemma table_slots_eq `{Sha256} `{Tai64} s c k n :
  table_slots (state_table s) c k n = slots s c k n.
Proof. unfold table_slots, range_keys, slots. rewrite map_map. done. Qed.

#[export] Instance slot_storage_state_laws `{Sha256} `{Tai64} : StateLaws SlotStorage.
Proof.
  split.
  - intros s c k n l _ _ Hn E. cbn in E. destruct (in_space k n); [|done]. injection E as <-.
    unfold table_slots, zlen. rewrite length_map. by apply zlen_range_keys.
  - intros s c k n l _ _ _ Hk E. cbn in E. destruct (in_space k n); [|done]. injection E as <-.
    apply table_slots_eq.
  - intros s c k l n s' _ _ _ Hk E. cbn in E. unfold slots_insert_range in E.
    destruct (in_space k (zlen l)); [|done]. injection E as <- <-.
    split; [by rewrite table_slots_eq|]. unfold slots_set. rewrite zlen_map. split.
    + apply (list_eq_same_length _ _ (length l)).
      * by rewrite length_map.
      * unfold slots. rewrite length_map, length_seqZ. unfold zlen. lia.
      * intros i x y Hi. unfold slots. rewrite !list_lookup_fmap, lookup_seqZ_lt by (unfold zlen; lia).
        cbn. destruct (l !! i) as [v|] eqn:Ev; [|done]. intros [= <-] [= <-].
        unfold slot. cbn.
        rewrite (insert_slots_get _ c k l _ v); [done|done|lia|].
        unfold zget. destruct (Z.ltb_spec (0 + Z.of_nat i) 0); [lia|].
        by replace (Z.to_nat (0 + Z.of_nat i)) with i by lia.
    + intros k' Hk'. unfold slot. cbn. rewrite insert_slots_frame; [done|].
      intros i Hi E%(f_equal snd). by apply (Hk' i).
  - intros s c k n b s' _ _ Hn Hk E. cbn in E. unfold slots_remove_range in E.
    destruct (in_space k n); [|done]. injection E as <- <-.
    split; [by rewrite table_slots_eq|]. unfold slots_set. rewrite zlen_replicate, Z2Nat.id by done.
    split.
    + apply (list_eq_same_length _ _ (Z.to_nat n)).
      * by rewrite length_replicate.
      * unfold slots. by rewrite length_map, length_seqZ.
      * intros i x y Hi. unfold slots.
        rewrite list_lookup_fmap, lookup_seqZ_lt, lookup_replicate_2 by lia. cbn.
        intros [= <-] [= <-]. unfold slot. cbn. rewrite remove_slots_get, decide_True; [done|].
        apply range_keys_in. exists (0 + Z.of_nat i). split; [lia|done].
    + intros k' Hk'. unfold slot. cbn. rewrite remove_slots_get, decide_False; [done|].
      intros (i & Hi & E%(f_equal snd))%range_keys_in. by apply (Hk' i).
Qed.

(** ** Where the in-memory backend departs from the documentation *)

Definition last_key : Bytes32 := replicate 32 xff.
Definition one_slot (c : ContractId) (k : Bytes32) (s : MemoryStorage) : MemoryStorage :=
  (state_replace s c k (replicate 32 x01)).2.

(** If an earlier contract has a slot at the same key, clearing a slot leaves it in place and
    reports that it was not set. *)
Lemma memory_remove_other_contract :
  let c := replicate 32 x01 in
  let s := one_slot c zeroed (one_slot zeroed zeroed (memory_storage_new 0 zeroed)) in
  inner_state (ms_memory s) !! (c, zeroed) = Some (replicate 32 x01) /\
  (state_remove_range s c zeroed 1).1 = false /\
  inner_state (ms_memory (state_remove_range s c zeroed 1).2) !! (c, zeroed) =
    Some (replicate 32 x01).
Proof. split_and!; vm_compute; reflexivity. Qed.

Lemma btree_range_empty m p : btree_range m p p = [].
Proof.
  unfold btree_range. induction (sorted_entries m) as [|e l IH]; [done|].
  rewrite filter_cons_False by lia. exact IH.
Qed.

(** The in-memory backend never returns the slot at the last key in a range, and cuts a
    range that passes it short: whatever is stored and however many slots are requested, the
    range from the last key is one unset slot. *)
Theorem memory_range_last (s : MemoryStorage) (c : ContractId) (n : Z) :
  1 <= n -> state_range s c last_key n = [None].
Proof.
  intros Hn. unfold state_range. rewrite btree_range_empty.
  destruct (Z.to_nat n) as [|k] eqn:E; [lia|]. cbn [key_successors].
  assert (Ha : (add_one last_key).2 = true) by (vm_compute; reflexivity).
  destruct (add_one last_key) as [next o]. cbn in Ha. by subst o.
Qed.

Lemma memory_range_last_witness :
  let s := one_slot zeroed last_key (memory_storage_new 0 zeroed) in
  inner_state (ms_memory s) !! (zeroed, last_key) = Some (replicate 32 x01) /\
  state_range s zeroed last_key 2 = [None].
Proof. split; [vm_compute; reflexivity|]. apply memory_range_last. discriminate. Defined.
