(* ===== verification/Flow.v ===== *)
(** * Control flow and calls

    Jumps, returns, reverts and calls (src/fuel-vm/src/interpreter/flow.rs), logging
    (log.rs), the free balances of a script (balances.rs) and transfers (contract.rs). The
    call/return discipline is stated as an invariant on the frames: every active frame's
    serialised header is intact in memory, so the identity of the running contract cannot be
    forged, and a return restores the caller exactly. *)

From Stdlib Require Import Strings.Byte.
From S2P Require Import Prelude Asm Merkle Receipts Memory State Gas Alu MemOps Storage.

(** ** Jumps *)

Inductive JumpMode : Type := Assign | RelativeIS | RelativeForwards | RelativeBackwards.

Record JumpArgs : Type := mkJump {
  condition : bool;
  jump_mode : JumpMode;
  dynamic : Z;
  fixed : Z
}.

Definition jump_new (m : JumpMode) : JumpArgs := mkJump true m 0 0.
Definition with_condition (j : JumpArgs) (c : bool) : JumpArgs :=
  mkJump c (jump_mode j) (dynamic j) (fixed j).
Definition to_address (j : JumpArgs) (addr : Z) : JumpArgs :=
  mkJump (condition j) (jump_mode j) addr (fixed j).
Definition plus_fixed (j : JumpArgs) (addr : Z) : JumpArgs :=
  mkJump (condition j) (jump_mode j) (dynamic j) addr.

Definition jump_target (j : JumpArgs) (is_ pc : Z) : outcome PanicReason Z :=
  match jump_mode j with
  | Assign => Ok (saturating_add (dynamic j) (saturating_mul (fixed j) Instruction_SIZE))
  | RelativeIS =>
      let offset_instructions := saturating_add (dynamic j) (fixed j) in
      let offset_bytes := saturating_mul offset_instructions Instruction_SIZE in
      Ok (saturating_add is_ offset_bytes)
  | RelativeForwards =>
      let offset_instructions := saturating_add (saturating_add (dynamic j) (fixed j)) 1 in
      let offset_bytes := saturating_mul offset_instructions Instruction_SIZE in
      Ok (saturating_add pc offset_bytes)
  | RelativeBackwards =>
      let offset_instructions := saturating_add (saturating_add (dynamic j) (fixed j)) 1 in
      let offset_bytes := saturating_mul offset_instructions Instruction_SIZE in
      ok_or (checked_sub pc offset_bytes) MemoryOverflow
  end.

Section Flow.
Context {S : Type} `{Sha256}.

Definition jump (j : JumpArgs) : M S unit :=
  if negb (condition j) then inc_pc
  else
    is_ <- get_reg RegId.IS ;;
    pc <- get_reg RegId.PC ;;
    target_addr <- lift_panic (jump_target j is_ pc) ;;
    if VM_MAX_RAM <=? target_addr then mpanic MemoryOverflow
    else put_reg RegId.PC target_addr.

(** ** Returning *)

Definition get_current_contract : M S (option ContractId) :=
  c <- gets current_contract ;; lift_panic c.

(** The registers after a return: those of the frame, except the gas, the return value and
    the heap pointer. *)
Definition restore_registers (saved current : list Z) : list Z :=
  reg_put (reg_put (reg_put (reg_put (reg_put saved
    RegId.CGAS (reg_get current RegId.CGAS))
    RegId.GGAS (reg_get current RegId.GGAS))
    RegId.RET (reg_get current RegId.RET))
    RegId.RETL (reg_get current RegId.RETL))
    RegId.HP (reg_get current RegId.HP).

Definition pop_frame : M S (option CallFrame) :=
  fun vm =>
    match frames vm with
    | [] => (Ok None, vm)
    | f :: rest => (Ok (Some f), set_frames vm rest)
    end.

Definition return_from_context (receipt : Receipt) : M S unit :=
  frame <- pop_frame ;;
  match frame with
  | Some frame =>
      cgas <- get_reg RegId.CGAS ;;
      cgas <- lift (ok_or (checked_add cgas (context_gas frame)) (Bug ContextGasOverflow)) ;;
      put_reg RegId.CGAS cgas ;;;
      modify (fun vm => set_registers vm (restore_registers (f_registers frame) (registers vm))) ;;;
      fp <- get_reg RegId.FP ;;
      set_frame_pointer fp
  | None => mret tt
  end ;;;
  push_receipt receipt ;;;
  inc_pc.

Definition ret (a : Z) : M S unit :=
  current <- get_current_contract ;;
  pc <- get_reg RegId.PC ;;
  is_ <- get_reg RegId.IS ;;
  let receipt := Receipt_Return (default zeroed current) a pc is_ in
  put_reg RegId.RET a ;;;
  put_reg RegId.RETL 0 ;;;
  return_from_context receipt.

Definition ret_data (a b : Z) : M S Bytes32 :=
  current <- get_current_contract ;;
  data <- mem_read a b ;;
  pc <- get_reg RegId.PC ;;
  is_ <- get_reg RegId.IS ;;
  let receipt := receipt_return_data (default zeroed current) a pc is_ data in
  let digest := sha256 data in
  put_reg RegId.RET a ;;;
  put_reg RegId.RETL b ;;;
  return_from_context receipt ;;;
  mret digest.

Definition revert (a : Z) : M S unit :=
  current <- gets current_contract ;;
  current <- lift (match current with
                   | Ok c => Ok c
                   | Err _ => Ok (Some zeroed)
                   | Crash => Crash
                   end) ;;
  pc <- get_reg RegId.PC ;;
  is_ <- get_reg RegId.IS ;;
  push_receipt (Receipt_Revert (default zeroed current) a pc is_).

Definition get_internal_contract_or_default : M S ContractId :=
  c <- gets internal_contract_or_default ;; lift c.

Definition append_panic_receipt (result : PanicInstruction) : M S unit :=
  pc <- get_reg RegId.PC ;;
  is_ <- get_reg RegId.IS ;;
  id <- get_internal_contract_or_default ;;
  pctx <- gets panic_context ;;
  let receipt := Receipt_Panic id result pc is_ None in
  let receipt := match pctx with
                 | PanicContext_None => receipt
                 | PanicContext_ContractId c => with_panic_contract_id receipt (Some c)
                 end in
  modify (fun vm => set_panic_context vm PanicContext_None) ;;;
  fun vm =>
    match receipts_push (receipts vm) receipt with
    | Ok rx => (Ok tt, set_receipts vm rx)
    | _ => (Crash, vm)
    end.

(** ** Logging *)

Definition log (a b c d : Z) : M S unit :=
  id <- get_internal_contract_or_default ;;
  pc <- get_reg RegId.PC ;;
  is_ <- get_reg RegId.IS ;;
  push_receipt (Receipt_Log id a b c d pc is_) ;;;
  inc_pc.

Definition log_data (a b c d : Z) : M S unit :=
  data <- mem_read c d ;;
  id <- get_internal_contract_or_default ;;
  pc <- get_reg RegId.PC ;;
  is_ <- get_reg RegId.IS ;;
  push_receipt (receipt_log_data id a b c pc is_ data) ;;;
  inc_pc.

(** ** Free balances *)

Definition set_memory_balance_inner (b : Balance) (m : MemoryInstance)
  : outcome PanicReason MemoryInstance :=
  let offset := saturating_add (bal_offset b) 32 in
  write_bytes_noownerchecks m offset (to_be_bytes 8 (bal_value b)).

(** [checked_balance_sub] with its effects: the balance is updated before its copy in
    memory is, and is kept if that fails. A host panic is passed on. *)
Definition checked_balance_sub (asset : AssetId) (value : Z) : M S (option Z) :=
  fun vm =>
    let none := (Ok (if value =? 0 then Some 0 else None), vm) in
    match balances vm !! asset with
    | None => none
    | Some b =>
        match checked_sub (bal_value b) value with
        | None => none
        | Some v =>
            let b' := mkBalance v (bal_offset b) in
            let vm' := set_balances vm (<[asset := b']> (balances vm)) in
            match set_memory_balance_inner b' (memory vm) with
            | Ok m => (Ok (Some v), set_memory vm' m)
            | Err _ => (Ok None, vm')
            | Crash => (Crash, vm')
            end
        end
    end.

Definition external_asset_id_balance_sub (asset : AssetId) (value : Z) : M S unit :=
  r <- checked_balance_sub asset value ;;
  r <- lift_panic (ok_or r NotEnoughBalance) ;;
  mret tt.

(** ** Contracts *)

(** [Normal::check_contract_in_inputs] (verification.rs), the verifier that executes transactions.
    The other one, [AttemptContinue], records missing contracts for a dry run and goes on. *)
Definition check_contract_in_inputs (contract_id : ContractId) : M S unit :=
  inputs <- gets input_contracts ;;
  if bool_decide (contract_id ∈ inputs) then mret tt
  else
    modify (fun vm => set_panic_context vm (PanicContext_ContractId contract_id)) ;;;
    mpanic ContractNotInInputs.
End Flow.

Section Calls.
Context {S : Type} `{Sha256} `{InterpreterStorage S}.

(** Run a fallible update of the storage. *)
Definition update_storage {A} (f : S -> outcome RuntimeError (A * S)) : M S A :=
  fun vm =>
    match f (storage vm) with
    | Ok (a, s) => (Ok a, set_storage vm s)
    | Err e => (Err e, vm)
    | Crash => (Crash, vm)
    end.

Definition vm_balance_increase (c : ContractId) (a : AssetId) (amount : Z) : M S bool :=
  update_storage (fun s => balance_increase s c a amount).
Definition vm_balance_decrease (c : ContractId) (a : AssetId) (amount : Z) : M S unit :=
  update_storage (fun s => let? s' := balance_decrease s c a amount in Ok (tt, s')).

(** Gas for a newly created balance entry: [(Bytes32::LEN + WORD_SIZE) * per_byte]. *)
Definition charge_new_entry (new_storage_gas_per_byte : Z) (created : bool) : M S unit :=
  if created then gas_charge (saturating_mul (32 + WORD_SIZE) new_storage_gas_per_byte)
  else mret tt.

Definition contract_balance (ra b c : Z) : M S unit :=
  result <- lift_panic (write_reg_key ra) ;;
  asset_id <- mem_read_bytes b 32 ;;
  contract_id <- mem_read_bytes c 32 ;;
  check_contract_in_inputs contract_id ;;;
  s <- gets storage ;;
  v <- lift (balance s contract_id asset_id) ;;
  put_reg result v ;;;
  inc_pc.

(** [internal_contract] as an option; only the wrong context counts as external. *)
Definition internal_context : M S (option ContractId) :=
  c <- gets internal_contract ;;
  match c with
  | Ok source_contract => mret (Some source_contract)
  | Err ExpectedInternalContext => mret None
  | Err e => mpanic e
  | Crash => mcrash
  end.

Definition debit (source : option ContractId) (asset_id : AssetId) (amount : Z) : M S unit :=
  match source with
  | Some source_contract => vm_balance_decrease source_contract asset_id amount
  | None => external_asset_id_balance_sub asset_id amount
  end.

Definition transfer (recipient_contract_id_offset transfer_amount asset_id_offset : Z)
  : M S unit :=
  new_storage_gas_per_byte <- get_word_cost g_new_storage_per_byte ;;
  destination <- mem_read_bytes recipient_contract_id_offset 32 ;;
  asset_id <- mem_read_bytes asset_id_offset 32 ;;
  check_contract_in_inputs destination ;;;
  if transfer_amount =? 0 then mpanic TransferZeroCoins
  else
    source <- internal_context ;;
    debit source asset_id transfer_amount ;;;
    created_new_entry <- vm_balance_increase destination asset_id transfer_amount ;;
    charge_new_entry new_storage_gas_per_byte created_new_entry ;;;
    pc <- get_reg RegId.PC ;;
    is_ <- get_reg RegId.IS ;;
    push_receipt (Receipt_Transfer (default zeroed source) destination transfer_amount
                    asset_id pc is_) ;;;
    inc_pc.

(** ** Calling *)

(** [split_at_mut(mid)] *)
Definition split_at_mut (s : SliceMut) (mid : Z) : outcome PanicReason (SliceMut * SliceMut) :=
  if (0 <=? mid) && (mid <=? slice_len s)
  then Ok (mkSlice (s_region s) (s_start s) (s_start s + mid),
           mkSlice (s_region s) (s_start s + mid) (s_end s))
  else Crash.

(** What the first half of [prepare_call] hands to the second. *)
Record CallInfo : Type := mkCallInfo {
  ci_call : Call;
  ci_asset_id : AssetId;
  ci_code_size : Z;
  ci_code_size_padded : Z;
  ci_total_size_in_stack : Z
}.

(** The first half of [PrepareCallCtx::prepare_call]: decode the operands, charge for the
    size of the callee and move the coins. *)
Definition call_pay (current : option ContractId) (gas_cost : DependentCost)
    (new_storage_gas_per_byte call_params_pointer amount_of_coins_to_forward
     asset_id_pointer : Z) : M S CallInfo :=
  call_bytes <- mem_read call_params_pointer Call_LEN ;;
  call <- lift_panic (call_try_from call_bytes) ;;
  asset_id <- mem_read_bytes asset_id_pointer 32 ;;
  s <- gets storage ;;
  code_size <- lift (contract_size s (call_to call)) ;;
  code_size_padded <- lift_panic (ok_or (padded_len_usize code_size) MemoryOverflow) ;;
  total_size_in_stack <-
    lift (ok_or (checked_add serialized_size code_size_padded) (Bug CodeSizeOverflow)) ;;
  dependent_gas_charge_without_base gas_cost code_size_padded ;;;
  debit current asset_id amount_of_coins_to_forward ;;;
  check_contract_in_inputs (call_to call) ;;;
  created_new_entry <- vm_balance_increase (call_to call) asset_id amount_of_coins_to_forward ;;
  charge_new_entry new_storage_gas_per_byte created_new_entry ;;;
  mret (mkCallInfo call asset_id code_size code_size_padded total_size_in_stack).

(** The gas and the frame: what is forwarded leaves the caller's context. *)
Definition call_frame (ci : CallInfo) (amount_of_gas_to_forward : Z) : M S (Z * CallFrame) :=
  cgas <- get_reg RegId.CGAS ;;
  let forward_gas_amount := Z.min cgas amount_of_gas_to_forward in
  cgas <- lift (ok_or (checked_sub cgas forward_gas_amount) (Bug ContextGasUnderflow)) ;;
  put_reg RegId.CGAS cgas ;;;
  regs <- gets registers ;;
  frame <- lift_panic (ok_or (frame_new (call_to (ci_call ci)) (ci_asset_id ci) regs
                                (ci_code_size_padded ci) (call_a (ci_call ci))
                                (call_b (ci_call ci))) MemoryOverflow) ;;
  let frame := set_context_gas frame (reg_get regs RegId.CGAS) in
  let frame := set_global_gas frame (reg_get regs RegId.GGAS) in
  mret (forward_gas_amount, frame).

(** Write the frame, the code and the padding at the frame pointer. *)
Definition call_write (ci : CallInfo) (frame : CallFrame) : M S unit :=
  fp <- get_reg RegId.FP ;;
  m <- gets memory ;;
  dst <- lift_panic (write_noownerchecks m fp (ci_total_size_in_stack ci)) ;;
  parts <- lift_panic (split_at_mut dst serialized_size) ;;
  update_memory (fun m => slice_copy_from_slice m (fst parts) (frame_to_bytes frame)) ;;;
  code_parts <- lift_panic (split_at_mut (snd parts) (ci_code_size ci)) ;;
  s <- gets storage ;;
  code <- lift (read_contract s (call_to (ci_call ci)) (ci_code_size ci)) ;;
  update_memory (fun m => slice_copy_from_slice m (fst code_parts) code) ;;;
  update_memory (fun m => slice_fill m (snd code_parts) x00).

(** The second half: forward the gas, allocate and write the frame, enter the callee. *)
Definition call_enter (ci : CallInfo) (amount_of_coins_to_forward amount_of_gas_to_forward : Z)
  : M S unit :=
  gf <- call_frame ci amount_of_gas_to_forward ;;
  old_sp <- get_reg RegId.SP ;;
  let new_sp := saturating_add old_sp (ci_total_size_in_stack ci) in
  update_memory (fun m => grow_stack m new_sp) ;;;
  put_reg RegId.SP new_sp ;;;
  put_reg RegId.SSP new_sp ;;;
  id <- get_internal_contract_or_default ;;
  set_frame_pointer old_sp ;;;
  call_write ci (snd gf) ;;;
  fp <- get_reg RegId.FP ;;
  put_reg RegId.PC (fp + serialized_size) ;;;
  put_reg RegId.BAL amount_of_coins_to_forward ;;;
  pc <- get_reg RegId.PC ;;
  put_reg RegId.IS pc ;;;
  put_reg RegId.CGAS (fst gf) ;;;
  put_reg RegId.FLAG 0 ;;;
  pc <- get_reg RegId.PC ;;
  is_ <- get_reg RegId.IS ;;
  push_receipt (Receipt_Call id (call_to (ci_call ci)) amount_of_coins_to_forward
                  (ci_asset_id ci) (fst gf) (call_a (ci_call ci)) (call_b (ci_call ci))
                  pc is_) ;;;
  modify (fun vm => set_frames vm (snd gf :: frames vm)).

Definition prepare_call_inner (call_params_pointer amount_of_coins_to_forward asset_id_pointer
    amount_of_gas_to_forward : Z) : M S unit :=
  gas_cost <- get_dep_cost d_call ;;
  new_storage_gas_per_byte <- get_word_cost g_new_storage_per_byte ;;
  gas_charge (cost_base gas_cost) ;;;
  current <- get_current_contract ;;
  ci <- call_pay current gas_cost new_storage_gas_per_byte call_params_pointer
          amount_of_coins_to_forward asset_id_pointer ;;
  call_enter ci amount_of_coins_to_forward amount_of_gas_to_forward.

(** [prepare_call]: the operands are registers. *)
Definition prepare_call (ra rb rc rd : Z) : M S unit :=
  a <- get_reg ra ;;
  b <- get_reg rb ;;
  c <- get_reg rc ;;
  d <- get_reg rd ;;
  prepare_call_inner a b c d.
End Calls.

(** ** Jumps, logs and reverts are local *)

Section FlowSafe.
Context {S : Type} `{Sha256}.
Implicit Types (vm : Interpreter S).

Lemma jump_target_range j is_ pc t :
  u64_ok (dynamic j) -> u64_ok (fixed j) -> u64_ok is_ -> u64_ok pc ->
  jump_target j is_ pc = Ok t -> u64_ok t.
Proof.
  unfold jump_target, saturating_add, saturating_mul, checked_sub, Instruction_SIZE, u64_ok.
  intros Hd Hf Hi Hp. destruct (jump_mode j); repeat case_if; intros [= <-]; lia.
Qed.

Definition jump_ok (j : JumpArgs) : Prop := u64_ok (dynamic j) /\ u64_ok (fixed j).

Lemma safe_jump j : jump_ok j -> safe any (jump (S := S) j).
Proof.
  intros [Hd Hf]. unfold jump. case_if; [apply safe_inc_pc|]. repeat safe_step.
  eapply (safe_bind u64_ok).
  - apply safe_lift_panic. destruct (jump_target j _ _) eqn:Ej; [|done|].
    + by apply (jump_target_range j a a0).
    + unfold jump_target in Ej. destruct (jump_mode j); try done. unfold checked_sub in Ej.
      by case_if_in Ej.
  - intros t Ht. repeat safe_step.
Qed.

(** The integer a taken jump aims at. *)
Definition exact_target (j : JumpArgs) (is_ pc : Z) : Z :=
  match jump_mode j with
  | Assign => dynamic j + Instruction_SIZE * fixed j
  | RelativeIS => is_ + Instruction_SIZE * (dynamic j + fixed j)
  | RelativeForwards => pc + Instruction_SIZE * (dynamic j + fixed j + 1)
  | RelativeBackwards => pc - Instruction_SIZE * (dynamic j + fixed j + 1)
  end.

Lemma current_contract_spec vm :
  vm_wf vm ->
  match current_contract vm with
  | Ok None => context_is_internal (context vm) = false
  | Ok (Some id) => context_is_internal (context vm) = true /\ zlen id = 32 /\
      mem_shows (memory vm) (reg vm RegId.FP) id
  | Err _ => True
  | Crash => False
  end.
Proof.
  intros Hwf. unfold current_contract. case_if; [|done].
  pose proof (wf_reg_u64 vm RegId.FP Hwf) as [Hfp _].
  rewrite read_bytes_eq by (apply Hwf || done || lia).
  destruct (read (memory vm) _ 32) as [bs|e|] eqn:Er; cbn; [|done|].
  - apply read_inv in Er as (_ & ? & ?); [done|apply Hwf|done|done].
  - by apply read_no_crash in Er; [|apply Hwf|..].
Qed.

(** A receipt that is neither a panic nor a script result leaves room for both. *)
Definition is_plain (r : Receipt) : Prop := is_script_result r = false /\ is_panic r = false.

Lemma push_receipt_spec vm r :
  receipts_ok (receipts vm) -> zlen (rx_receipts (receipts vm)) <= MAX_RECEIPTS - 2 ->
  is_plain r ->
  match push_receipt r vm with
  | (Ok tt, vm') => exists rx, vm' = set_receipts vm rx /\ receipts_ok rx /\
      rx_receipts rx = rx_receipts (receipts vm) ++ [r] /\ zlen (rx_receipts rx) <= MAX_RECEIPTS - 2
  | (Err e, vm') => e = Recoverable TooManyReceipts /\ vm' = vm
  | (Crash, _) => False
  end.
Proof.
  intros Hok Hlen [Hs Hp]. unfold push_receipt.
  pose proof (receipts_push_spec (receipts vm) r Hok) as Hr.
  destruct (receipts_push (receipts vm) r) as [rx|e|]; [|split; [|done]|done].
  - destruct Hr as (Hok' & Hl' & _ & Hfull & _). exists rx. split_and!; try done.
    rewrite Hl', zlen_app. change (zlen [r]) with 1.
    destruct (decide (MAX_RECEIPTS - 2 <= zlen (rx_receipts (receipts vm)))) as [Hd|]; [|lia].
    destruct (Hfull Hd); congruence.
  - destruct Hr as [[_ Hf]|[-> _]]; [unfold MAX_RECEIPTS in *; lia|done].
Qed.

Lemma wf_set_receipts vm rx :
  vm_wf vm -> receipts_ok rx -> zlen (rx_receipts rx) <= MAX_RECEIPTS - 2 ->
  vm_wf (set_receipts vm rx).
Proof. intros [] Hok Hlen. by split. Qed.

Lemma safe_push_receipt r : is_plain r -> quiet r -> safe any (push_receipt (S := S) r).
Proof.
  intros Hr Hq vm Hwf _. unfold wp.
  pose proof (push_receipt_spec vm r (wf_receipts _ Hwf) (wf_receipts_len _ Hwf) Hr) as Hp.
  destruct (push_receipt r vm) as [[[]|e|] vm']; [|destruct Hp as [-> ->]; by apply wf_err|done].
  destruct Hp as (rx & -> & Hok & Hl & Hlen). split_and!; [by apply wf_set_receipts| |done].
  split; try done. exists [r]. by rewrite Forall_singleton.
Qed.

Lemma safe_internal_contract : safe any (get_internal_contract_or_default (S := S)).
Proof.
  intros vm Hwf _. unfold get_internal_contract_or_default, internal_contract_or_default,
    internal_contract. repeat wp_step.
  pose proof (current_contract_spec vm Hwf) as Hc.
  destruct (current_contract vm) as [[id|]|e|]; cbn; done.
Qed.

Lemma safe_log a b c d : safe any (log (S := S) a b c d).
Proof.
  unfold log. eapply safe_bind; [apply safe_internal_contract|intros id _]. repeat safe_step.
  eapply safe_bind; [by apply safe_push_receipt|intros _ _]. apply safe_inc_pc.
Qed.

Lemma safe_log_data a b c d : u64_ok c -> u64_ok d -> safe any (log_data (S := S) a b c d).
Proof.
  intros Hc [Hd _]. unfold log_data. eapply safe_bind; [by apply safe_mem_read|intros data _].
  eapply safe_bind; [apply safe_internal_contract|intros id _]. repeat safe_step.
  eapply safe_bind; [by apply safe_push_receipt|intros _ _]. apply safe_inc_pc.
Qed.

Lemma safe_revert a : safe any (revert (S := S) a).
Proof.
  unfold revert. eapply (safe_bind (fun c => exists o, c <> Crash /\ o = c)).
  - apply safe_gets. intros vm Hwf. pose proof (current_contract_spec vm Hwf).
    eexists; split; [|done]. by intros E; rewrite E in *.
  - intros c (_ & Hc & _). eapply (safe_bind any).
    + apply safe_lift. destruct c; [by eexists|by eexists|done].
    + intros c' _. repeat safe_step. by apply safe_push_receipt.
Qed.
End FlowSafe.

(** C36: Jumps land exactly where they aim. Although the target is computed with saturating
    arithmetic, a taken jump sets [$pc] to the exact integer target if it lies within the
    address space and otherwise panics with [MemoryOverflow] and changes nothing; a jump whose
    condition is false goes on to the next instruction. *)
Theorem jump_exact {S} (vm : Interpreter S) (j : JumpArgs) :
  u64_ok (dynamic j) -> u64_ok (fixed j) -> u64_ok (reg vm RegId.IS) ->
  0 <= reg vm RegId.PC < U64 - 1 ->
  let t := exact_target j (reg vm RegId.IS) (reg vm RegId.PC) in
  jump j vm =
    if condition j then
      if (0 <=? t) && (t <? VM_MAX_RAM) then (Ok tt, set_reg vm RegId.PC t)
      else (Err (Recoverable MemoryOverflow), vm)
    else inc_pc vm.
Proof.
  intros Hd Hf Hi Hp t. unfold u64_ok in *. unfold jump. destruct (condition j); [|done]. cbn [negb].
  unfold mbind_, get_reg, gets, lift_panic, lift, jump_target. subst t.
  unfold exact_target, saturating_add, saturating_mul, checked_sub, put_reg, modify,
    Instruction_SIZE, VM_MAX_RAM.
  destruct (jump_mode j); repeat (case_if; cbn [ok_or omap_err]); try done; try lia;
    unfold put_reg, modify; do 2 f_equal; lia.
Qed.

Lemma jump_exact_witness :
  jump (plus_fixed (jump_new RelativeForwards) 3) vm_64 =
    (Ok tt, set_reg vm_64 RegId.PC (reg vm_64 RegId.PC + 16)).
Proof.
  rewrite (jump_exact vm_64 (plus_fixed (jump_new RelativeForwards) 3));
    [reflexivity|split; reflexivity || discriminate|split; reflexivity || discriminate
    |split; reflexivity || discriminate|split; reflexivity || discriminate].
Defined.

(** ** Returning from a call *)

Section Return.
Context {S : Type} `{Sha256}.
Implicit Types (vm : Interpreter S).

Definition kept_by_return (i : Z) : bool :=
  (i =? RegId.CGAS) || (i =? RegId.GGAS) || (i =? RegId.RET) || (i =? RegId.RETL)
  || (i =? RegId.HP).

Lemma reg_get_restore saved current i :
  zlen saved = VM_REGISTER_COUNT ->
  reg_get (restore_registers saved current) i =
    if kept_by_return i then reg_get current i else reg_get saved i.
Proof.
  intros Hl. unfold restore_registers, kept_by_return.
  destruct (i =? RegId.CGAS) eqn:E1; zbool;
  [|destruct (i =? RegId.GGAS) eqn:E2; zbool;
    [|destruct (i =? RegId.RET) eqn:E3; zbool;
      [|destruct (i =? RegId.RETL) eqn:E4; zbool;
        [|destruct (i =? RegId.HP) eqn:E5; zbool]]]]; cbn [orb]; subst;
  repeat first [rewrite reg_get_put_eq by (rewrite ?zlen_reg_put, Hl; done)
               |rewrite reg_get_put_ne by (done || congruence)]; done.
Qed.

Lemma restore_registers_ok saved current :
  regs_ok saved -> regs_ok current -> regs_ok (restore_registers saved current).
Proof.
  intros Hs [_ Hc]. unfold restore_registers.
  repeat apply regs_ok_put; try done; by apply reg_get_u64.
Qed.

(** What a return to the frame [f] does. *)
Record return_step vm (f : CallFrame) (rest : list CallFrame) (r : Receipt) vm' : Prop := {
  rs_frames : frames vm' = rest;
  rs_memory : memory vm' = memory vm;
  rs_context : context vm' =
    update_from_frame_pointer (context vm) (reg_get (f_registers f) RegId.FP);
  rs_storage : storage vm' = storage vm;
  rs_balances : balances vm' = balances vm;
  rs_inputs : input_contracts vm' = input_contracts vm;
  rs_params : interpreter_params vm' = interpreter_params vm;
  rs_receipts : rx_receipts (receipts vm') = rx_receipts (receipts vm) ++ [r];
  rs_regs : forall i, i <> RegId.PC -> kept_by_return i = false ->
    reg vm' i = reg_get (f_registers f) i;
  rs_pc : reg vm' RegId.PC = reg_get (f_registers f) RegId.PC + Instruction_SIZE;
  rs_cgas : reg vm' RegId.CGAS = reg vm RegId.CGAS + context_gas f;
  rs_kept : forall i, kept_by_return i = true -> i <> RegId.CGAS -> reg vm' i = reg vm i;
  rs_quiet : quiet r
}.

Lemma wp_inc_pc vm (Q : unit -> Interpreter S -> Prop) E :
  (reg vm RegId.PC + Instruction_SIZE < U64 ->
   Q tt (set_reg vm RegId.PC (reg vm RegId.PC + Instruction_SIZE))) ->
  E (Recoverable MemoryOverflow) vm -> wp inc_pc Q E vm.
Proof.
  intros HQ HE. unfold wp, inc_pc, mbind_, get_reg, gets, lift_panic, lift, checked_add.
  case_if; cbn; auto.
Qed.

(** The state right after the frame has been restored. *)
Definition resumed vm (f : CallFrame) (rest : list CallFrame) : Interpreter S :=
  let regs := reg_put (registers vm) RegId.CGAS (reg vm RegId.CGAS + context_gas f) in
  set_reg (set_context (set_registers (set_frames vm rest)
                          (restore_registers (f_registers f) regs))
             (update_from_frame_pointer (context vm) (reg_get (f_registers f) RegId.FP)))
    RegId.FP (reg_get (f_registers f) RegId.FP).

Lemma reg_resumed vm f rest i :
  regs_ok (registers vm) -> regs_ok (f_registers f) ->
  reg (resumed vm f rest) i =
    if i =? RegId.CGAS then reg vm RegId.CGAS + context_gas f
    else if kept_by_return i then reg vm i else reg_get (f_registers f) i.
Proof.
  intros [Hl _] [Hlf _]. unfold resumed. destruct (decide (i = RegId.FP)) as [->|Hne].
  - rewrite reg_set_eq; [done| |done]. cbn. unfold restore_registers. by rewrite !zlen_reg_put.
  - rewrite reg_set_ne by done. unfold reg at 1. cbn [registers set_context set_registers].
    rewrite reg_get_restore by done. destruct (i =? RegId.CGAS) eqn:Ei; zbool; subst.
    + cbn. by rewrite reg_get_put_eq by (rewrite Hl; done).
    + case_if; [|done]. by rewrite reg_get_put_ne by done.
Qed.

Lemma wf_resumed vm f rest :
  vm_wf vm -> frames vm = f :: rest -> vm_wf (resumed vm f rest).
Proof.
  intros Hwf Hf.
  destruct Hwf as [Hregs Hz0 Ho0 Hm Hhpr Hss Hsp Hst Hgas Hfr Hrx Hrxl Hctx Hpar].
  rewrite Hf in Hfr, Hgas. cbn [frames_ok frames_gas] in Hfr, Hgas.
  destruct Hfr as (Hrf & Hz & Ho & Hssp & Hhp & Hrest).
  pose proof (frames_gas_nonneg _ _ _ Hrest) as Hg. pose proof Hrf as [_ Huf].
  pose proof Hregs as [_ Hu].
  pose proof (reg_get_u64 _ RegId.GGAS Hu). pose proof (reg_get_u64 _ RegId.CGAS Hu).
  pose proof (reg_get_u64 _ RegId.CGAS Huf). unfold context_gas, reg, u64_ok in *.
  split; try (rewrite !reg_resumed by done; cbn -[Z.add]; reg_eqb); try done;
    unfold context_gas, reg in *; try lia.
  - unfold resumed, set_reg, set_registers. cbn. apply regs_ok_put.
    + apply restore_registers_ok; [done|]. apply regs_ok_put; [done|].
      unfold u64_ok, reg, context_gas. lia.
    + by apply reg_get_u64.
  - change (memory (resumed vm f rest)) with (memory vm). lia.
  - change (frames (resumed vm f rest)) with rest. lia.
  - eapply frames_ok_hp; [exact Hrest|]. lia.
  - by apply context_ok_update.
Qed.

Lemma wp_pop_frame vm f rest (Q : option CallFrame -> Interpreter S -> Prop) E :
  frames vm = f :: rest -> wp pop_frame Q E vm = Q (Some f) (set_frames vm rest).
Proof. unfold wp, pop_frame. by intros ->. Qed.

Lemma resume_eq vm f rest :
  zlen (f_registers f) = VM_REGISTER_COUNT -> reg vm RegId.CGAS + context_gas f < U64 ->
  (cgas <- get_reg RegId.CGAS ;;
   cgas <- lift (ok_or (checked_add cgas (context_gas f)) (Bug ContextGasOverflow)) ;;
   put_reg RegId.CGAS cgas ;;;
   modify (fun vm => set_registers vm (restore_registers (f_registers f) (registers vm))) ;;;
   fp <- get_reg RegId.FP ;; set_frame_pointer fp) (set_frames vm rest) =
  (Ok tt, resumed vm f rest).
Proof.
  intros Hl Hg. unfold mbind_, get_reg, gets.
  change (reg (set_frames vm rest) RegId.CGAS) with (reg vm RegId.CGAS).
  rewrite checked_add_Some by done.
  assert (Hfp : forall v : Interpreter S,
    reg (set_registers v (restore_registers (f_registers f) (registers v))) RegId.FP =
    reg_get (f_registers f) RegId.FP).
  { intros v. unfold reg. cbn [registers set_registers]. by rewrite reg_get_restore. }
  unfold lift, put_reg, modify, set_frame_pointer, mbind_. cbn [ok_or]. by rewrite Hfp.
Qed.

(** Returning to a frame always succeeds, up to the receipt limit and the program counter. *)
Lemma return_from_context_spec vm f rest r :
  vm_wf vm -> frames vm = f :: rest -> is_plain r -> quiet r ->
  wp (return_from_context r)
    (fun _ vm' => vm_wf vm' /\ return_step vm f rest r vm')
    (fun e vm' => local_err e vm vm') vm.
Proof.
  intros Hwf Hf Hr Hq. pose proof (wf_resumed vm f rest Hwf Hf) as Hwf1.
  pose proof (wf_frames _ Hwf) as Hfr. rewrite Hf in Hfr. destruct Hfr as (Hrf & _).
  assert (Hreg := fun i => reg_resumed vm f rest i (wf_regs _ Hwf) Hrf).
  assert (Hgas : reg vm RegId.CGAS + context_gas f < U64).
  { pose proof (wf_reg_u64 (resumed vm f rest) RegId.CGAS Hwf1) as [_ Hc].
    by rewrite Hreg in Hc. }
  assert (Herr : forall r', local_err (Recoverable r') vm (resumed vm f rest)).
  { intros r'. destruct (wf_err _ r' Hwf1), (wf_err _ r' Hwf). split; try done. by rewrite Hreg. }
  unfold return_from_context. apply wp_bind.
  rewrite (wp_pop_frame vm f rest) by done. apply wp_bind.
  assert (Hres : (cgas <- get_reg RegId.CGAS ;;
      cgas <- lift (ok_or (checked_add cgas (context_gas f)) (Bug ContextGasOverflow)) ;;
      put_reg RegId.CGAS cgas ;;;
      modify (fun vm => set_registers vm (restore_registers (f_registers f) (registers vm))) ;;;
      fp <- get_reg RegId.FP ;; set_frame_pointer fp) (set_frames vm rest) =
    (Ok tt, resumed vm f rest)).
  { apply resume_eq; [apply Hrf|done]. }
  unfold wp at 1. rewrite Hres. apply wp_bind. unfold wp at 1.
  pose proof (push_receipt_spec _ r (wf_receipts _ Hwf1) (wf_receipts_len _ Hwf1) Hr) as Hp.
  destruct (push_receipt r _) as [[[]|e|] v2]; [|destruct Hp as [-> ->]; apply Herr|done].
  destruct Hp as (rx & -> & Hok & Hrx & Hlen).
  pose proof (wf_set_receipts _ _ Hwf1 Hok Hlen) as Hwf2.
  pose proof (safe_inc_pc (set_receipts (resumed vm f rest) rx) Hwf2 I) as Hsafe.
  assert (Hreg2 : forall i, reg (set_receipts (resumed vm f rest) rx) i = reg (resumed vm f rest) i)
    by done.
  apply wp_inc_pc.
  - intros Hpc. unfold wp in Hsafe. rewrite inc_pc_eq in Hsafe by exact Hpc.
    destruct Hsafe as (Hwf3 & _ & _). split; [exact Hwf3|].
    split; try done.
    + intros i Hi Hk. rewrite reg_set_ne, Hreg2, Hreg by done. rewrite Hk. case_if; [|done].
      by subst.
    + rewrite reg_set_eq by (apply Hwf2 || done). rewrite Hreg2, Hreg. reg_eqb. done.
    + rewrite reg_set_ne, Hreg2, Hreg by done. reg_eqb. done.
    + intros i Hk Hc. assert (i <> RegId.PC) by (intros ->; done).
      rewrite reg_set_ne, Hreg2, Hreg by done. rewrite Hk. case_if; done.
  - destruct (Herr MemoryOverflow). by split.
Qed.
End Return.

Section Ret.
Context {S : Type} `{Sha256}.
Implicit Types (vm : Interpreter S).

Lemma wp_get_current_contract vm (Q : option ContractId -> Interpreter S -> Prop) E :
  vm_wf vm ->
  (forall c, current_contract vm = Ok c -> Q c vm) ->
  (forall e, E (Recoverable e) vm) -> wp get_current_contract Q E vm.
Proof.
  intros Hwf HQ HE. unfold get_current_contract. do 3 wp_step.
  pose proof (current_contract_spec vm Hwf). destruct (current_contract vm); auto.
Qed.

(** The registers [$ret] and [$retl] as a return sets them. *)
Definition with_ret vm (a b : Z) : Interpreter S :=
  set_reg (set_reg vm RegId.RET a) RegId.RETL b.

Lemma wf_with_ret vm a b :
  vm_wf vm -> u64_ok a -> u64_ok b ->
  vm_wf (with_ret vm a b) /\ local_step vm (with_ret vm a b).
Proof.
  intros Hwf Ha Hb.
  assert (Hs : safe any (put_reg (S := S) RegId.RET a ;;; put_reg RegId.RETL b))
    by repeat safe_step.
  destruct (Hs vm Hwf I) as (? & ? & _). done.
Qed.

(** Both kinds of return set [$ret] and [$retl], then leave the context. *)
Definition returning (a b : Z) (r : Receipt) : M S unit :=
  put_reg RegId.RET a ;;; put_reg RegId.RETL b ;;; return_from_context r.

Lemma wp_returning vm a b r (Q : unit -> Interpreter S -> Prop) :
  vm_wf vm -> u64_ok a -> u64_ok b -> is_plain r -> quiet r ->
  (forall vm', vm_wf vm' ->
     match frames vm with
     | [] => local_step vm vm'
     | f :: rest => return_step (with_ret vm a b) f rest r vm'
     end -> Q tt vm') ->
  wp (returning a b r) Q (fun e vm' => local_err e vm vm') vm.
Proof.
  intros Hwf Ha Hb Hr Hq HQ. unfold returning. do 4 wp_step.
  fold (with_ret vm a b). destruct (wf_with_ret vm a b Hwf Ha Hb) as [Hwf1 Hs1].
  destruct (frames vm) as [|f rest] eqn:Ef.
  - unfold return_from_context. apply wp_bind. unfold wp at 1, pop_frame.
    change (frames (with_ret vm a b)) with (frames vm). rewrite Ef. apply wp_bind, wp_mret.
    assert (Hsafe : safe any (push_receipt (S := S) r ;;; inc_pc)).
    { eapply safe_bind; [by apply safe_push_receipt|intros _ _]. apply safe_inc_pc. }
    eapply wp_mono; [by apply (safe_after any _ vm _ Hsafe Hwf1 Hs1)| |done].
    intros [] v (? & ? & _). auto.
  - eapply wp_mono; [by apply (return_from_context_spec _ f rest)| |].
    + intros [] v (? & ?). auto.
    + intros e v. by apply local_step_err.
Qed.

(** [return_step] from the state before [$ret] and [$retl] were set. *)
Lemma wp_ret vm a (Q : unit -> Interpreter S -> Prop) :
  vm_wf vm -> u64_ok a ->
  (forall c vm', current_contract vm = Ok c -> vm_wf vm' ->
     match frames vm with
     | [] => local_step vm vm'
     | f :: rest => return_step (with_ret vm a 0) f rest
         (Receipt_Return (default zeroed c) a (reg vm RegId.PC) (reg vm RegId.IS)) vm'
     end -> Q tt vm') ->
  wp (ret a) Q (fun e vm' => local_err e vm vm') vm.
Proof.
  intros Hwf Ha HQ. unfold ret. apply wp_bind, wp_get_current_contract;
    [done| |intros e; by apply wf_err].
  intros c Hc. do 4 wp_step. by apply wp_returning; [..|intros; eapply HQ].
Qed.

Lemma wp_ret_data vm a b (Q : Bytes32 -> Interpreter S -> Prop) :
  vm_wf vm -> u64_ok a -> u64_ok b ->
  (forall c data vm', current_contract vm = Ok c -> read (memory vm) a b = Ok data ->
     vm_wf vm' ->
     match frames vm with
     | [] => local_step vm vm'
     | f :: rest => return_step (with_ret vm a b) f rest
         (receipt_return_data (default zeroed c) a (reg vm RegId.PC) (reg vm RegId.IS) data) vm'
     end -> Q (sha256 data) vm') ->
  wp (ret_data a b) Q (fun e vm' => local_err e vm vm') vm.
Proof.
  intros Hwf Ha Hb HQ. unfold ret_data. apply wp_bind, wp_get_current_contract;
    [done| |intros e; by apply wf_err].
  intros c Hc. apply wp_bind. unfold mem_read. do 3 wp_step.
  destruct (read (memory vm) a b) as [data|e|] eqn:Er;
    [|by apply wf_err|by apply read_no_crash in Er; [|apply Hwf|apply Ha|apply Hb]].
  do 4 wp_step.
  change (wp (returning a b (receipt_return_data (default zeroed c) a (reg vm RegId.PC)
    (reg vm RegId.IS) data) ;;; mret (sha256 data)) Q (fun e vm' => local_err e vm vm') vm).
  apply wp_bind. apply wp_returning; [done..|]. intros. apply wp_mret. by eapply HQ.
Qed.
End Ret.

(** ** Paying for a call or a transfer *)

Section Pay.
Context {S : Type} `{Sha256} `{StorageLaws S}.
Implicit Types (vm : Interpreter S).

(** What the paying part of a call or transfer may change: gas, coins, and, in the external
    context, the copies of the free balances in memory. *)
Record pay_step vm vm' : Prop := {
  ps_frames : frames vm' = frames vm;
  ps_regs : forall i, i <> RegId.CGAS -> i <> RegId.GGAS -> reg vm' i = reg vm i;
  ps_gas : reg vm' RegId.GGAS <= reg vm RegId.GGAS;
  ps_shape : same_shape (memory vm) (memory vm');
  ps_memory : context_is_internal (context vm) = true -> memory vm' = memory vm;
  ps_code : same_code (storage vm) (storage vm');
  ps_context : context vm' = context vm;
  ps_inputs : input_contracts vm' = input_contracts vm;
  ps_params : interpreter_params vm' = interpreter_params vm;
  ps_receipts : receipts vm' = receipts vm
}.

#[export] Instance pay_step_preorder : PreOrder pay_step.
Proof.
  split; [by intros vm; split|]. intros v1 v2 v3 [] []. split; try congruence; try lia.
  - intros i ? ?. rewrite ps_regs1, ps_regs0 by done. done.
  - destruct ps_shape0 as (? & ? & ?), ps_shape1 as (? & ? & ?). split_and!; congruence.
  - intros Hc. rewrite ps_memory1, ps_memory0 by congruence. done.
  - by etrans.
Qed.

(** Stored and free balances are words at valid offsets. *)
Definition balances_ok (b : RuntimeBalances) : Prop :=
  map_Forall (fun _ x => u64_ok (bal_value x) /\ 0 <= bal_offset x) b.
Definition money_wf vm : Prop := storage_wf (storage vm) /\ balances_ok (balances vm).

(** Triples for the paying part, relative to its initial state [vm0]; the assertions speak
    about the storage and the free balances. *)
Definition pays {A} vm0 (Q : S -> RuntimeBalances -> Prop) (m : M S A)
    (R : A -> S -> RuntimeBalances -> Prop) : Prop :=
  forall vm, vm_wf vm -> money_wf vm -> pay_step vm0 vm ->
    Q (storage vm) (balances vm) ->
    wp m (fun a vm' => vm_wf vm' /\ money_wf vm' /\ pay_step vm0 vm' /\
                       R a (storage vm') (balances vm'))
       (fun e vm' => local_err e vm0 vm') vm.

Lemma pay_step_err e v1 v2 v3 : pay_step v1 v2 -> local_err e v2 v3 -> local_err e v1 v3.
Proof. intros [] []. split; try done; [lia|by rewrite <- ps_regs0|congruence]. Qed.

Lemma pays_bind {A B} vm0 Q (m : M S A) R (f : A -> M S B) T :
  pays vm0 Q m R -> (forall a, pays vm0 (R a) (f a) T) -> pays vm0 Q (mbind_ m f) T.
Proof.
  intros Hm Hf vm Hwf Hs Hp HQ. apply wp_bind. eapply wp_mono; [by apply Hm| |done].
  intros a v1 (? & ? & ? & ?). by apply Hf.
Qed.

Lemma pays_mret {A} vm0 Q (a : A) (R : A -> _ -> _ -> Prop) :
  (forall s b, Q s b -> R a s b) -> pays vm0 Q (mret a) R.
Proof. intros HR vm Hwf Hs Hp HQ. apply wp_mret. auto. Qed.

(** Computations that only look at the state. *)
Lemma pays_pure {A} vm0 (Q : S -> RuntimeBalances -> Prop) (m : M S A) (P : A -> Prop) :
  (forall vm, snd (m vm) = vm) -> safe P m -> pays vm0 Q m (fun a s b => Q s b /\ P a).
Proof.
  intros Hpure Hm vm Hwf Hs Hp HQ. pose proof (Hm vm Hwf I) as Hw. unfold wp in *.
  pose proof (Hpure vm) as Hv. destruct (m vm) as [[] v1]; cbn in Hv; subst v1; [|
    by eapply pay_step_err|done]. naive_solver.
Qed.

Lemma pays_gets {A} vm0 (Q : S -> RuntimeBalances -> Prop) (f : Interpreter S -> A)
    (P : A -> S -> RuntimeBalances -> Prop) :
  (forall vm, vm_wf vm -> money_wf vm -> pay_step vm0 vm ->
     Q (storage vm) (balances vm) -> P (f vm) (storage vm) (balances vm)) ->
  pays vm0 Q (gets f) P.
Proof. intros HP vm Hwf Hs Hp HQ. apply wp_gets. auto. Qed.

(** A failure that is not a bug. *)
Lemma pays_lift {A} vm0 (Q : S -> RuntimeBalances -> Prop) (x : outcome RuntimeError A) (P : A -> Prop) :
  (forall s b, Q s b -> storage_wf s ->
     match x with Ok a => P a | Err (Bug _) => False | Err _ => True | Crash => False end) ->
  pays vm0 Q (lift x) (fun a s b => Q s b /\ P a).
Proof.
  intros HP vm Hwf Hs Hp HQ. specialize (HP _ _ HQ (proj1 Hs)). apply wp_lift.
  destruct x as [a|e|]; [by split_and!| |done]. eapply pay_step_err; [done|].
  destruct (wf_err vm OutOfGas Hwf). split; try done. by intros b ->.
Qed.

Lemma pays_charge vm0 Q g :
  0 <= g -> pays vm0 Q (gas_charge g) (fun _ s b => Q s b).
Proof.
  intros Hg vm Hwf Hs Hp HQ. pose proof (local_gas_charge vm g Hwf Hg) as Hc.
  unfold wp in *. rewrite gas_charge_eq in * by done. case_if; [|by eapply pay_step_err].
  destruct Hc as (Hw & Hl & _). split_and!; try done. etrans; [exact Hp|].
  pose proof (wf_regs _ Hwf) as [Hlen _]. split; try done.
  - intros i ? ?. rewrite reg_set_gas_regs by done. by repeat case_if.
  - rewrite reg_set_gas_regs by done. reg_eqb. lia.
Qed.

Lemma pays_put_err {A} vm0 Q r (R : A -> _ -> _ -> Prop) : pays vm0 Q (mpanic (S := S) r) R.
Proof.
  intros vm Hwf Hs Hp HQ. apply wp_merr. eapply pay_step_err; [done|]. by apply wf_err.
Qed.

Lemma pays_check vm0 (Q : S -> RuntimeBalances -> Prop) c :
  pays vm0 Q (check_contract_in_inputs c)
    (fun _ s b => Q s b /\ c ∈ input_contracts vm0).
Proof.
  intros vm Hwf Hs Hp HQ. unfold check_contract_in_inputs. do 2 wp_step.
  case_bool_decide as Hc.
  - apply wp_mret. split_and!; try done. by rewrite <- (ps_inputs _ _ Hp).
  - do 3 wp_step. eapply pay_step_err; [done|].
    destruct (wf_err vm ContractNotInInputs Hwf). by split.
Qed.

Lemma pays_storage {A} vm0 (Q : S -> RuntimeBalances -> Prop) (f : S -> outcome RuntimeError (A * S))
    (R : A -> S -> RuntimeBalances -> Prop) :
  (forall s b, Q s b -> storage_wf s ->
     match f s with
     | Ok (a, s') => storage_wf s' /\ same_code s s' /\ R a s' b
     | Err (Bug _) | Crash => False
     | Err _ => True
     end) ->
  pays vm0 Q (update_storage f) R.
Proof.
  intros Hf vm Hwf [Hs Hb] Hp HQ. specialize (Hf _ _ HQ Hs). unfold wp, update_storage.
  destruct (f (storage vm)) as [[a s']|e|]; [| |done].
  - destruct Hf as (Hs' & Hc & HR). split_and!; try done; [by destruct Hwf|].
    etrans; [exact Hp|]. by split.
  - eapply pay_step_err; [done|]. destruct (wf_err vm OutOfGas Hwf). split; try done.
    by intros b ->.
Qed.

(** The free balance of an asset. *)
Definition free (b : RuntimeBalances) (a : AssetId) : Z :=
  match b !! a with Some x => bal_value x | None => 0 end.

(** [b'] is [b] after [n] coins of [a] were taken from it. *)
Definition free_sub (b : RuntimeBalances) (a : AssetId) (n : Z) (b' : RuntimeBalances) : Prop :=
  n <= free b a /\ free b' a = free b a - n /\ (forall a', a' <> a -> b' !! a' = b !! a') /\
  forall a', is_Some (b' !! a') <-> is_Some (b !! a').

Lemma checked_balance_sub_spec vm a n :
  vm_wf vm -> money_wf vm -> u64_ok n ->
  match checked_balance_sub a n vm with
  | (Ok r, vm') => exists b m, vm' = set_memory (set_balances vm b) m /\ balances_ok b /\
      same_shape (memory vm) m /\ (is_Some r -> free_sub (balances vm) a n b)
  | _ => False
  end.
Proof.
  intros Hwf [Hs Hb] Hn. unfold checked_balance_sub.
  assert (Hnone : (n = 0 -> free_sub (balances vm) a n (balances vm)) -> exists b m,
    vm = set_memory (set_balances vm b) m /\ balances_ok b /\ same_shape (memory vm) m /\
    (is_Some (if n =? 0 then Some 0 else None) -> free_sub (balances vm) a n b)).
  { intros Hz. exists (balances vm), (memory vm). split_and!; try done; [by destruct vm|].
    case_if; [auto|]. by intros [? ?]. }
  destruct (balances vm !! a) as [x|] eqn:Ea.
  2:{ apply Hnone. intros ->. unfold free_sub, free. rewrite Ea. split_and!; done || lia. }
  destruct (Hb a x Ea) as [[Hx0 Hx1] Hoff]. unfold checked_sub. case_if.
  2:{ apply Hnone. intros ->. lia. }
  assert (Hb' : balances_ok (<[a := mkBalance (bal_value x - n) (bal_offset x)]> (balances vm))).
  { apply map_Forall_insert_2; [|done]. cbn. unfold u64_ok in *. lia. }
  assert (Hfree : free_sub (balances vm) a n
    (<[a := mkBalance (bal_value x - n) (bal_offset x)]> (balances vm))).
  { unfold free_sub, free, RuntimeBalances in *. rewrite lookup_insert_eq, Ea. cbn. split_and!; [done|done| |].
    - intros a' Ha. by rewrite lookup_insert_ne by done.
    - intros a'. rewrite lookup_insert_is_Some'. split; [|by right]. intros [<-|Ha]; [by eexists|done]. }
  unfold set_memory_balance_inner, write_bytes_noownerchecks. cbn [bal_offset bal_value].
  set (d := to_be_bytes 8 _). assert (0 <= saturating_add (bal_offset x) 32)
    by (unfold saturating_add; lia).
  destruct (write_noownerchecks (memory vm) _ (zlen d)) as [sl|e|] eqn:Ew; cbn [obind].
  - apply write_noownerchecks_inv in Ew as [Hacc Hd]; [|apply Hwf|done|apply zlen_nonneg].
    destruct (slice_copy_Ok (memory vm) sl _ (zlen d) d (wf_mem _ Hwf) Hd eq_refl)
      as (m' & -> & [Hsh _]). eexists _, m'. split_and!; try done.
  - eexists _, (memory vm). split_and!; try done.
  - apply write_noownerchecks_no_crash in Ew; [done|apply Hwf|done|apply zlen_nonneg].
Qed.

Lemma pays_external vm0 b0 s0 a n :
  context_is_internal (context vm0) = false -> u64_ok n ->
  pays vm0 (fun s b => s = s0 /\ b = b0) (external_asset_id_balance_sub a n)
    (fun _ s b => s = s0 /\ free_sub b0 a n b).
Proof.
  intros Hctx Hn vm Hwf Hm Hp [<- <-]. unfold external_asset_id_balance_sub. apply wp_bind.
  pose proof (checked_balance_sub_spec vm a n Hwf Hm Hn) as Hc. unfold wp at 1.
  destruct (checked_balance_sub a n vm) as [[r|e|] vm1]; [|done|done].
  destruct Hc as (b & m & -> & Hb & Hsh & Hr). apply wp_bind, wp_lift_panic.
  assert (Hwf1 : vm_wf (set_memory (set_balances vm b) m)).
  { pose proof Hsh as (? & ? & ?). destruct Hwf.
    split; autorewrite with vm; change (reg (set_balances vm b)) with (reg vm); try done.
    - by eapply same_shape_wf.
    - cbn. lia.
    - cbn. lia. }
  assert (Hps : pay_step vm0 (set_memory (set_balances vm b) m)).
  { etrans; [exact Hp|]. split; try done. rewrite (ps_context _ _ Hp). congruence. }
  destruct r as [v|]; cbn [ok_or].
  - apply wp_mret. split_and!; try done; [by split; [apply Hm|]|]. apply Hr. by eexists.
  - eapply pay_step_err; [exact Hps|]. by apply wf_err.
Qed.

(** Coins leave the running contract, or the free balance in the external context. *)
Definition debited (source : option ContractId) (a : AssetId) (n : Z)
    (s : S) (b : RuntimeBalances) (s' : S) (b' : RuntimeBalances) : Prop :=
  match source with
  | Some c => n <= bal s c a /\ bal_upd s c a (bal s c a - n) s' /\ b' = b
  | None => s' = s /\ free_sub b a n b'
  end.

Lemma pays_debit vm0 source s0 b0 a n :
  context_is_internal (context vm0) = bool_decide (is_Some source) -> u64_ok n ->
  pays vm0 (fun s b => s = s0 /\ b = b0) (debit source a n)
    (fun _ => debited source a n s0 b0).
Proof.
  intros Hctx Hn. destruct source as [c|]; [|by apply pays_external].
  apply pays_storage. intros s b [-> ->] Hs.
  pose proof (balance_decrease_spec s0 c a n Hs Hn) as Hd.
  destruct (balance_decrease s0 c a n) as [s'|[|?|]|]; cbn [obind]; try done.
  destruct Hd as (Hle & Hu). pose proof Hu as (? & ? & _). by split_and!.
Qed.

(** Coins move from a source to a contract. *)
Definition moved (source : option ContractId) (a : AssetId) (n : Z) (to : ContractId)
    (s : S) (b : RuntimeBalances) (s' : S) (b' : RuntimeBalances) : Prop :=
  exists s1, debited source a n s b s1 b' /\ bal_upd s1 to a (bal s1 to a + n) s'.

Lemma pays_increase vm0 source s0 b0 a n to :
  u64_ok n ->
  pays vm0 (debited source a n s0 b0) (vm_balance_increase to a n)
    (fun _ => moved source a n to s0 b0).
Proof.
  intros Hn. apply pays_storage. intros s b Hd Hs.
  pose proof (balance_increase_spec s to a n Hs Hn) as Hi.
  destruct (balance_increase s to a n) as [[? s']|[|?|]|]; try done.
  pose proof Hi as (? & ? & _). split_and!; try done. by exists s.
Qed.

Lemma pays_new_entry vm0 Q g created :
  0 <= g -> pays vm0 Q (charge_new_entry g created) (fun _ s b => Q s b).
Proof.
  intros Hg. destruct created; [|by apply pays_mret]. apply pays_charge.
  unfold saturating_mul, WORD_SIZE. lia.
Qed.
End Pay.

Section CallPay.
Context {S : Type} `{Sha256} `{StorageLaws S}.
Implicit Types (vm : Interpreter S).

Definition call_ok (c : Call) : Prop := zlen (call_to c) = 32 /\ u64_ok (call_a c) /\ u64_ok (call_b c).

(** What the first half of a call establishes about its result. *)
Record call_info_ok (ci : CallInfo) : Prop := {
  cio_call : call_ok (ci_call ci);
  cio_asset : zlen (ci_asset_id ci) = 32;
  cio_size : 0 <= ci_code_size ci <= ci_code_size_padded ci;
  cio_padded : ci_code_size_padded ci mod WORD_SIZE = 0 /\ ci_code_size_padded ci < U64;
  cio_total : ci_total_size_in_stack ci = serialized_size + ci_code_size_padded ci /\
              ci_total_size_in_stack ci < U64
}.

Lemma call_try_from_ok bs :
  zlen bs = Call_LEN -> exists c, call_try_from bs = Ok c /\ call_ok c.
Proof.
  intros Hl. unfold call_try_from. case_if; [lia|]. eexists; split; [done|].
  change Call_LEN with 48 in Hl. assert (Hlen : forall a b, 0 <= a <= b -> b <= 48 ->
    length (zslice bs a b) = Z.to_nat (b - a)).
  { intros a b Ha Hb. pose proof (zlen_slice bs a b Ha ltac:(lia)). unfold zlen in *. lia. }
  split_and!; cbn.
  - rewrite zlen_slice; lia.
  - pose proof (from_be_bytes_range (zslice bs 32 40)) as Hr. by rewrite Hlen in Hr.
  - pose proof (from_be_bytes_range (zslice bs 40 48)) as Hr. by rewrite Hlen in Hr.
Qed.

Lemma padded_len_usize_ok n p :
  0 <= n < U64 -> padded_len_usize n = Some p -> n <= p < n + 8 /\ p mod WORD_SIZE = 0 /\ p < U64.
Proof.
  intros Hn. unfold padded_len_usize, checked_add, WORD_SIZE.
  pose proof (Z.mod_pos_bound n 8). case_if; [intros [= <-]; lia|].
  case_if; [|done]. intros [= <-]. split_and!; try lia.
  replace (n + (8 - n mod 8)) with ((n / 8 + 1) * 8) by (pose proof (Z.div_mod n 8); lia).
  apply Z.mod_mul. lia.
Qed.

Lemma padded_len_usize_id p : p mod WORD_SIZE = 0 -> padded_len_usize p = Some p.
Proof. intros E. unfold padded_len_usize. by rewrite E. Qed.

(** Reads inside the paying part. *)
Lemma pays_read {A B} vm0 (Q : S -> RuntimeBalances -> Prop) (m : M S A) (P : A -> Prop)
    (f : A -> M S B) R :
  (forall vm, snd (m vm) = vm) -> safe P m -> (forall a, P a -> pays vm0 Q (f a) R) ->
  pays vm0 Q (mbind_ m f) R.
Proof.
  intros Hp Hs Hf. eapply pays_bind; [by apply (pays_pure _ _ _ P)|].
  intros a vm Hwf Hm Hst [HQ Ha]. by apply (Hf a Ha).
Qed.

Lemma pays_fact {A B} vm0 (Q : S -> RuntimeBalances -> Prop) (x : outcome RuntimeError A)
    (P : A -> Prop) (f : A -> M S B) R :
  (forall s b, Q s b -> storage_wf s ->
     match x with Ok a => P a | Err (Bug _) => False | Err _ => True | Crash => False end) ->
  (forall a, P a -> pays vm0 Q (f a) R) -> pays vm0 Q (mbind_ (lift x) f) R.
Proof.
  intros Hx Hf. eapply pays_bind; [by apply (pays_lift _ _ _ P)|].
  intros a vm Hwf Hm Hst [HQ Ha]. by apply (Hf a Ha).
Qed.

Lemma mem_read_pure a n vm : snd (mem_read a n vm) = vm.
Proof. unfold mem_read, mbind_, gets, lift_panic, lift. by destruct (omap_err _ _). Qed.

Lemma mem_read_bytes_pure a n vm : snd (mem_read_bytes a n vm) = vm.
Proof. unfold mem_read_bytes, mbind_, gets, lift_panic, lift. by destruct (omap_err _ _). Qed.

Lemma contract_size_ok (s : S) c :
  storage_wf s ->
  match contract_size s c with
  | Ok n => 0 <= n < 2 ^ 63 | Err (Bug _) => False | Err _ => True | Crash => False
  end.
Proof.
  intros Hs. unfold contract_size, storage_result.
  destruct (storage_contract_size s c) as [[n|]|] eqn:E; cbn; try done. by eapply size_range.
Qed.

(** From the size of the code on: charge for it and move the coins. *)
Lemma call_settle_spec vm0 source s0 b0 gc ng call asset n size :
  context_is_internal (context vm0) = bool_decide (is_Some source) ->
  cost_ok gc -> 0 <= ng -> u64_ok n -> call_ok call -> zlen asset = 32 -> 0 <= size < 2 ^ 63 ->
  pays vm0 (fun s b => s = s0 /\ b = b0)
    (code_size_padded <- lift_panic (ok_or (padded_len_usize size) MemoryOverflow) ;;
     total <- lift (ok_or (checked_add serialized_size code_size_padded) (Bug CodeSizeOverflow)) ;;
     dependent_gas_charge_without_base gc code_size_padded ;;;
     debit source asset n ;;;
     check_contract_in_inputs (call_to call) ;;;
     created_new_entry <- vm_balance_increase (call_to call) asset n ;;
     charge_new_entry ng created_new_entry ;;;
     mret (mkCallInfo call asset size code_size_padded total))
    (fun ci s b => call_info_ok ci /\ call_to (ci_call ci) ∈ input_contracts vm0 /\
       moved source (ci_asset_id ci) n (call_to (ci_call ci)) s0 b0 s b).
Proof.
  intros Hctx Hgc Hng Hn Hcall Hasset Hsize.
  eapply pays_read; [done| |].
  { apply (safe_lift_panic (fun p => padded_len_usize size = Some p)).
    by destruct (padded_len_usize size). }
  intros p Hp. apply padded_len_usize_ok in Hp as (Hp1 & Hp2 & Hp3); [|lia].
  change serialized_size with 600.
  eapply (pays_fact _ _ _ (fun t => t = 600 + p)).
  { intros _ _ _ _. rewrite checked_add_Some by lia. done. }
  intros t Ht. cbn beta in Ht. subst t. destruct (resolve_without_base_ok gc p Hgc ltac:(unfold u64_ok; lia)) as (g & Hg & Hg').
  eapply pays_bind.
  { unfold dependent_gas_charge_without_base. rewrite Hg.
    eapply (pays_fact _ _ _ (fun x => x = g)); [done|].
    intros x Hx. cbn beta in Hx. subst x. apply pays_charge, Hg'. }
  intros []. eapply pays_bind; [by apply pays_debit|]. intros [].
  eapply pays_bind; [apply pays_check|]. intros [].
  eapply (pays_bind _ _ _ (fun _ s b => moved source asset n (call_to call) s0 b0 s b /\
    call_to call ∈ input_contracts vm0)).
  { intros vm Hwf Hm Hst [HQ Hin]. eapply wp_mono; [by apply (pays_increase vm0 source s0 b0)| |done].
    naive_solver. }
  intros created. eapply pays_bind; [by apply pays_new_entry|]. intros []. apply pays_mret.
  intros s' b' [Hmv Hin]. split_and!; try done. split; cbn; try done; change serialized_size with 600; lia.
Qed.
Lemma call_pay_spec vm0 source s0 b0 gc ng ptr n aptr :
  context_is_internal (context vm0) = bool_decide (is_Some source) ->
  cost_ok gc -> 0 <= ng -> u64_ok ptr -> u64_ok n -> u64_ok aptr ->
  pays vm0 (fun s b => s = s0 /\ b = b0) (call_pay source gc ng ptr n aptr)
    (fun ci s b => call_info_ok ci /\ call_to (ci_call ci) ∈ input_contracts vm0 /\
       moved source (ci_asset_id ci) n (call_to (ci_call ci)) s0 b0 s b).
Proof.
  intros Hctx Hgc Hng Hptr Hn Haptr. unfold call_pay.
  eapply pays_read; [apply mem_read_pure|by apply safe_mem_read|]. intros bs Hbs.
  eapply pays_read; [done| |].
  { apply (safe_lift_panic call_ok). destruct (call_try_from_ok bs Hbs) as (c & -> & Hc). done. }
  intros call Hcall.
  eapply pays_read; [apply mem_read_bytes_pure|by apply safe_mem_read_bytes|]. intros asset Hasset.
  eapply pays_bind.
  { apply (pays_gets _ _ _ (fun s' s b => (s = s0 /\ b = b0) /\ s' = s0)). naive_solver. }
  intros s. eapply (pays_bind _ _ _ (fun x s' b => (s' = s0 /\ b = b0) /\ 0 <= x < 2 ^ 63)).
  { intros vm Hwf Hm Hp [HQ ->].
    apply (pays_lift vm0 (fun s b => s = s0 /\ b = b0) _ (fun x => 0 <= x < 2 ^ 63)); [|done..].
    intros ? ? [-> ->] Hs. by apply contract_size_ok. }
  intros size vm Hwf Hm Hp [HQ Hsize]. revert vm Hwf Hm Hp HQ.
  by apply call_settle_spec.
Qed.
End CallPay.

(** ** Entering the callee *)

Section CallEnter.
Context {S : Type} `{Sha256} `{StorageLaws S}.
Implicit Types (vm : Interpreter S).

Lemma zlen_concat_words l : zlen (concat (map enc_word l)) = 8 * zlen l.
Proof.
  induction l as [|x l IH]; [done|]. cbn [map concat]. rewrite zlen_app, IH.
  unfold enc_word. rewrite zlen_to_be_bytes. unfold zlen. cbn [length]. lia.
Qed.

Definition frame_ok (f : CallFrame) : Prop :=
  zlen (f_to f) = 32 /\ zlen (f_asset_id f) = 32 /\ zlen (f_registers f) = VM_REGISTER_COUNT.

Lemma zlen_frame_to_bytes f : frame_ok f -> zlen (frame_to_bytes f) = serialized_size.
Proof.
  intros (Hto & Has & Hr). unfold frame_to_bytes, enc_word.
  rewrite !zlen_app, Hto, Has, zlen_concat_words, Hr, !zlen_to_be_bytes. done.
Qed.

Lemma split_at_mut_spec m s a n mid :
  slice_denotes m s a n -> 0 <= mid <= n ->
  exists s1 s2, split_at_mut s mid = Ok (s1, s2) /\ slice_denotes m s1 a mid /\
    slice_denotes m s2 (a + mid) (n - mid).
Proof.
  intros (Ha & Hn & Hs) Hmid. unfold split_at_mut.
  assert (Hl : slice_len s = n).
  { unfold slice_len. destruct (s_region s); lia. }
  rewrite Hl. case_if; [|lia]. eexists _, _. split; [done|].
  unfold slice_denotes. cbn. destruct (s_region s); lia.
Qed.

Lemma read_contract_spec (s : S) c n :
  storage_wf s -> 0 <= n ->
  match read_contract s c n with
  | Ok code => zlen code = n
  | Err (Bug _) | Crash => False
  | Err _ => True
  end.
Proof.
  intros Hs Hn. unfold read_contract, storage_result.
  destruct (storage_contract_read s c 0 n) as [[code|]|] eqn:E; cbn; try done.
  by eapply read_fills in E.
Qed.

(** What a call writes above the caller's stack. *)
Definition call_image (f : CallFrame) (code : list byte) (ci : CallInfo) : list byte :=
  frame_to_bytes f ++ code ++
  replicate (Z.to_nat (ci_code_size_padded ci - ci_code_size ci)) x00.

Lemma call_write_spec vm ci f :
  mem_wf (memory vm) -> storage_wf (storage vm) -> call_info_ok ci -> frame_ok f ->
  accessible (memory vm) (reg vm RegId.FP) (ci_total_size_in_stack ci) ->
  wp (call_write ci f)
    (fun _ vm' => exists m code, vm' = set_memory vm m /\
       read_contract (storage vm) (call_to (ci_call ci)) (ci_code_size ci) = Ok code /\
       zlen code = ci_code_size ci /\
       mem_upd (memory vm) (reg vm RegId.FP) (call_image f code ci) m)
    (fun e vm' => (forall b, e <> Bug b) /\
       exists m, vm' = set_memory vm m /\ same_shape (memory vm) m) vm.
Proof.
  intros Hm Hs Hci Hf Hacc. destruct Hci as [_ _ Hsize Hpad [Htot _]].
  unfold call_write. repeat wp_step.
  destruct (write_noownerchecks_Ok _ _ _ Hm Hacc) as (dst & -> & Hd).
  rewrite Htot in Hd. change serialized_size with 600 in *.
  repeat wp_step. destruct (split_at_mut_spec _ _ _ _ 600 Hd) as (s1 & s2 & -> & Hd1 & Hd2); [lia|].
  replace (600 + ci_code_size_padded ci - 600) with (ci_code_size_padded ci) in Hd2 by lia.
  repeat wp_step. cbn [fst snd].
  destruct (slice_copy_Ok _ s1 _ _ (frame_to_bytes f) Hm Hd1) as (m1 & -> & Hu1);
    [by apply zlen_frame_to_bytes|].
  pose proof (mem_upd_wf _ _ _ _ Hu1 Hm) as Hm1.
  assert (Hd2' : slice_denotes m1 s2 (reg vm RegId.FP + 600) (ci_code_size_padded ci))
    by (eapply slice_denotes_shape; [apply Hu1|exact Hd2]).
  repeat wp_step.
  destruct (split_at_mut_spec _ _ _ _ (ci_code_size ci) Hd2') as (s3 & s4 & -> & Hd3 & Hd4); [lia|].
  repeat wp_step. cbn [storage set_memory].
  pose proof (read_contract_spec (storage vm) (call_to (ci_call ci)) _ Hs (proj1 Hsize)) as Hr.
  destruct (read_contract _ _ _) as [code|e|] eqn:Erc; [| |done].
  2:{ split; [by intros b ->|]. exists m1. split; [done|apply Hu1]. }
  repeat wp_step. cbn [fst snd memory set_memory].
  destruct (slice_copy_Ok m1 s3 _ _ code Hm1 Hd3 Hr) as (m2 & -> & Hu2).
  pose proof (mem_upd_wf _ _ _ _ Hu2 Hm1) as Hm2.
  assert (Hd4' := slice_denotes_shape _ _ _ _ _ (proj1 Hu2) Hd4).
  repeat wp_step. cbn [memory set_memory]. unfold slice_fill.
  assert (Hl : slice_len s4 = ci_code_size_padded ci - ci_code_size ci).
  { unfold slice_len. destruct Hd4' as (_ & _ & Hd'). destruct (s_region s4); lia. }
  rewrite Hl. destruct (slice_copy_Ok m2 s4 _ _
    (replicate (Z.to_nat (ci_code_size_padded ci - ci_code_size ci)) x00) Hm2 Hd4')
    as (m3 & -> & Hu3); [rewrite zlen_replicate; lia|].
  exists m3, code. split_and!; try done. unfold call_image.
  eapply mem_upd_app; [exact Hu1|]. rewrite (zlen_frame_to_bytes f Hf).
  change serialized_size with 600. eapply mem_upd_app; [exact Hu2|]. by rewrite Hr.
Qed.

(** Registers on entry to the callee. *)
Definition entered_regs (regs : list Z) (total amount fwd : Z) : list Z :=
  let sp := reg_get regs RegId.SP in
  let nsp := saturating_add sp total in
  reg_put (reg_put (reg_put (reg_put (reg_put (reg_put (reg_put (reg_put (reg_put regs
    RegId.CGAS (reg_get regs RegId.CGAS - fwd)) RegId.SP nsp) RegId.SSP nsp) RegId.FP sp)
    RegId.PC (sp + serialized_size)) RegId.BAL amount) RegId.IS (sp + serialized_size))
    RegId.CGAS fwd) RegId.FLAG 0.

Lemma reg_get_put regs i v j :
  0 <= i < zlen regs -> reg_get (reg_put regs i v) j = if j =? i then v else reg_get regs j.
Proof.
  intros Hi. case_if; [subst; by apply reg_get_put_eq|apply reg_get_put_ne; lia].
Qed.

Lemma entered_regs_get regs total amount fwd i :
  zlen regs = VM_REGISTER_COUNT ->
  let sp := reg_get regs RegId.SP in
  reg_get (entered_regs regs total amount fwd) i =
    if i =? RegId.FLAG then 0 else if i =? RegId.CGAS then fwd
    else if (i =? RegId.IS) || (i =? RegId.PC) then sp + serialized_size
    else if i =? RegId.BAL then amount
    else if i =? RegId.FP then sp
    else if (i =? RegId.SSP) || (i =? RegId.SP) then saturating_add sp total
    else reg_get regs i.
Proof.
  intros Hl sp. change VM_REGISTER_COUNT with 64 in Hl. unfold entered_regs. fold sp.
  change RegId.FLAG with 15 in *. change RegId.CGAS with 10. change RegId.IS with 12.
  change RegId.PC with 3. change RegId.BAL with 11. change RegId.FP with 6.
  change RegId.SSP with 4. change RegId.SP with 5.
  rewrite !reg_get_put by (rewrite ?zlen_reg_put; lia). repeat case_if; done || lia.
Qed.

(** The frame saved for the caller: its registers, less the forwarded gas. *)
Record saved_frame vm (ci : CallInfo) (fwd : Z) (f : CallFrame) : Prop := {
  sf_to : f_to f = call_to (ci_call ci);
  sf_asset : f_asset_id f = ci_asset_id ci;
  sf_code : f_code_size_padded f = ci_code_size_padded ci;
  sf_a : f_a f = call_a (ci_call ci);
  sf_b : f_b f = call_b (ci_call ci);
  sf_ok : regs_ok (f_registers f);
  sf_regs : forall i, reg_get (f_registers f) i =
    if i =? RegId.CGAS then reg vm RegId.CGAS - fwd else reg vm i
}.

Lemma saved_frame_ok vm ci fwd f : saved_frame vm ci fwd f -> call_info_ok ci -> frame_ok f.
Proof.
  intros Hf Hci. split_and!; [rewrite (sf_to _ _ _ _ Hf); apply Hci| |apply (sf_ok _ _ _ _ Hf)].
  rewrite (sf_asset _ _ _ _ Hf). apply Hci.
Qed.

Lemma call_frame_spec vm ci gas :
  vm_wf vm -> call_info_ok ci -> u64_ok gas ->
  let fwd := Z.min (reg vm RegId.CGAS) gas in
  exists f, call_frame ci gas vm =
      (Ok (fwd, f), set_reg vm RegId.CGAS (reg vm RegId.CGAS - fwd)) /\ saved_frame vm ci fwd f.
Proof.
  intros Hwf Hci Hg fwd. pose proof (wf_reg_u64 vm RegId.CGAS Hwf) as Hc.
  pose proof (wf_regs _ Hwf) as [Hl Hu]. unfold call_frame, mbind_, get_reg, gets. fold fwd.
  rewrite checked_sub_Some by lia. unfold lift, put_reg, modify, frame_new. cbn [ok_or].
  rewrite padded_len_usize_id by apply (cio_padded _ Hci). eexists; split; [reflexivity|].
  assert (Hr1 : regs_ok (registers (set_reg vm RegId.CGAS (reg vm RegId.CGAS - fwd)))).
  { apply regs_ok_put; [done|]. unfold u64_ok in *. lia. }
  split; try done.
  - cbn. repeat apply regs_ok_put; try done; [unfold u64_ok in *; lia|apply reg_get_u64, Hr1..].
  - intros i. cbn. rewrite !reg_get_put by (rewrite ?zlen_reg_put; rewrite (proj1 Hr1); done).
    repeat case_if; subst; try done;
      first [apply reg_get_put_eq; by rewrite Hl|by apply reg_get_put_ne].
Qed.

(** The state on entry to the callee. *)
Definition entered vm (ci : CallInfo) (amount fwd : Z) (f : CallFrame) (m : MemoryInstance)
    (rx : ReceiptsCtx) : Interpreter S :=
  mkVM (entered_regs (registers vm) (ci_total_size_in_stack ci) amount fwd) m (f :: frames vm) rx
    (input_contracts vm) (storage vm)
    (update_from_frame_pointer (context vm) (reg vm RegId.SP)) (balances vm) (interpreter_params vm)
    (panic_context vm).

Lemma wf_entered vm ci amount fwd f m rx :
  vm_wf vm -> call_info_ok ci -> u64_ok amount -> 0 <= fwd <= reg vm RegId.CGAS ->
  saved_frame vm ci fwd f -> mem_wf m -> mhp m = mhp (memory vm) ->
  reg vm RegId.SP + ci_total_size_in_stack ci <= zlen (stack m) ->
  receipts_ok rx -> zlen (rx_receipts rx) <= MAX_RECEIPTS - 2 ->
  vm_wf (entered vm ci amount fwd f m rx).
Proof.
  intros Hwf Hci Ha Hfwd Hf Hm Hhp Hst Hrx Hlen.
  pose proof (wf_regs _ Hwf) as [Hl Hu]. pose proof (wf_hp _ Hm) as Hhp'.
  pose proof (wf_stack _ Hm) as Hst'. pose proof (wf_reg_u64 vm RegId.SP Hwf) as Hsp.
  pose proof (cio_total _ Hci) as [Htot _]. pose proof (cio_size _ Hci) as Hsz.
  change serialized_size with 600 in Htot. unfold MEM_SIZE, VM_MAX_RAM in *.
  assert (Hsat : saturating_add (reg vm RegId.SP) (ci_total_size_in_stack ci) =
    reg vm RegId.SP + ci_total_size_in_stack ci) by (unfold saturating_add; lia).
  pose proof (wf_reg_u64 vm RegId.CGAS Hwf) as Hc.
  assert (Hg := fun i => entered_regs_get (registers vm) (ci_total_size_in_stack ci) amount fwd i Hl).
  cbn zeta in Hg. fold (reg vm RegId.SP) in Hg. rewrite Hsat in Hg.
  change serialized_size with 600 in Hg. unfold u64_ok in *.
  split; unfold entered; unfold reg; cbn [registers memory frames receipts interpreter_params];
    rewrite ?Hg; reg_eqb; cbn [orb]; cbv iota; try done; try apply Hwf.
  - unfold entered_regs. repeat apply regs_ok_put; try done; unfold reg, u64_ok in *;
      change serialized_size with 600; rewrite ?Hsat; try lia.
  - rewrite Hhp. apply (wf_hp_reg _ Hwf).
  - fold (reg vm RegId.HP). rewrite (wf_hp_reg _ Hwf). lia.
  - cbn [frames_gas]. unfold context_gas. rewrite (sf_regs _ _ _ _ Hf). reg_eqb.
    fold (reg vm RegId.GGAS). rewrite <- (wf_gas _ Hwf). lia.
  - cbn [frames_ok]. rewrite !(sf_regs _ _ _ _ Hf). reg_eqb. fold (reg vm RegId.HP).
    pose proof (wf_ssp _ Hwf). pose proof (wf_hp_reg _ Hwf). pose proof (wf_frames _ Hwf).
    split_and!; try apply Hwf; try apply Hf; unfold MEM_SIZE, VM_MAX_RAM; lia.
  - apply context_ok_update, Hwf.
Qed.

(** An error after which nothing but registers, memory and context may have changed. *)
Lemma err_of e vm vm' :
  vm_wf vm -> (forall b, e <> Bug b) -> regs_ok (registers vm') ->
  reg vm' RegId.GGAS = reg vm RegId.GGAS -> mem_wf (memory vm') ->
  reg vm RegId.SSP <= zlen (stack (memory vm')) -> interpreter_params vm' = interpreter_params vm ->
  receipts vm' = receipts vm -> local_err e vm vm'.
Proof.
  intros Hwf He Hr Hg Hm Hst Hp Hrx. destruct (wf_err vm OutOfGas Hwf).
  split; rewrite ?Hg, ?Hrx; done.
Qed.

(** The identity reported in the call receipt. *)
Lemma internal_contract_grown vm c m (v1 : Interpreter S) :
  vm_wf vm -> current_contract vm = Ok c -> mem_wf m -> mhp m = mhp (memory vm) ->
  zlen (stack (memory vm)) <= zlen (stack m) ->
  (forall x, x < zlen (stack (memory vm)) \/ mhp m <= x -> mem_get m x = mem_get (memory vm) x) ->
  memory v1 = m -> context v1 = context vm -> reg v1 RegId.FP = reg vm RegId.FP ->
  internal_contract_or_default v1 = Ok (default zeroed c).
Proof.
  intros Hwf Hc Hm Hhp Hst Hx Ev Ec Ef. pose proof (wf_reg_u64 vm RegId.FP Hwf) as [Hfp _].
  unfold internal_contract_or_default, internal_contract, current_contract in *.
  rewrite Ec, Ef, Ev. case_if; cbn [obind]; [|by simplify_eq].
  rewrite read_bytes_eq in * by (done || lia || apply Hwf).
  destruct (read (memory vm) (reg vm RegId.FP) 32) as [id| |] eqn:Er; cbn in Hc; try done.
  injection Hc as <-. pose proof Er as Er'.
  apply read_inv in Er' as ((? & ? & ? & Hor) & _ & _); [|apply Hwf|done|done].
  erewrite (read_shows (memory vm)); [done|apply Hwf|done| |..|exact Er].
  - unfold accessible. lia.
  - intros x Hr. apply Hx. lia.
Qed.

Definition call_receipt (id : ContractId) (ci : CallInfo) (amount fwd sp : Z) : Receipt :=
  Receipt_Call id (call_to (ci_call ci)) amount (ci_asset_id ci) fwd (call_a (ci_call ci))
    (call_b (ci_call ci)) (sp + serialized_size) (sp + serialized_size).

(** After the allocation: gas split, new stack pointers, new frame pointer. *)
Definition allocated vm (ci : CallInfo) (fwd : Z) (m : MemoryInstance) : Interpreter S :=
  let sp := reg vm RegId.SP in
  let nsp := saturating_add sp (ci_total_size_in_stack ci) in
  set_reg (set_context
    (set_reg (set_reg (set_memory (set_reg vm RegId.CGAS (reg vm RegId.CGAS - fwd)) m)
       RegId.SP nsp) RegId.SSP nsp)
    (update_from_frame_pointer (context vm) sp)) RegId.FP sp.

Lemma allocated_facts vm ci fwd m :
  vm_wf vm -> 0 <= fwd <= reg vm RegId.CGAS -> call_info_ok ci ->
  regs_ok (registers (allocated vm ci fwd m)) /\
  reg (allocated vm ci fwd m) RegId.GGAS = reg vm RegId.GGAS /\
  reg (allocated vm ci fwd m) RegId.FP = reg vm RegId.SP.
Proof.
  intros Hwf Hfwd Hci. pose proof (wf_regs _ Hwf) as [Hl Hu].
  pose proof (wf_reg_u64 vm RegId.SP Hwf) as Hsp. pose proof (wf_reg_u64 vm RegId.CGAS Hwf) as Hc.
  pose proof (cio_total _ Hci) as [Htot _]. pose proof (cio_size _ Hci).
  change serialized_size with 600 in Htot.
  unfold allocated. split_and!.
  - unfold set_reg. cbn. repeat apply regs_ok_put; try done; unfold saturating_add, u64_ok in *; lia.
  - rewrite reg_set_ne by done. change (reg (set_context ?v ?x)) with (reg v).
    rewrite !reg_set_ne by done. autorewrite with vm. by rewrite reg_set_ne.
  - rewrite reg_set_eq; [done| |done]. unfold set_reg. cbn. by rewrite !zlen_reg_put.
Qed.

(** The last steps of a call, from the state in which the frame has been written. *)
Lemma call_finish_spec vm ci amount fwd f m1 m id :
  vm_wf vm -> 0 <= fwd <= reg vm RegId.CGAS -> call_info_ok ci -> u64_ok amount -> mem_wf m ->
  reg vm RegId.SSP <= zlen (stack m) -> reg vm RegId.SP + serialized_size < U64 ->
  wp (fp <- get_reg RegId.FP ;;
      put_reg RegId.PC (fp + serialized_size) ;;;
      put_reg RegId.BAL amount ;;;
      pc <- get_reg RegId.PC ;;
      put_reg RegId.IS pc ;;;
      put_reg RegId.CGAS fwd ;;;
      put_reg RegId.FLAG 0 ;;;
      pc <- get_reg RegId.PC ;;
      is_ <- get_reg RegId.IS ;;
      push_receipt (Receipt_Call id (call_to (ci_call ci)) amount (ci_asset_id ci) fwd
                      (call_a (ci_call ci)) (call_b (ci_call ci)) pc is_) ;;;
      modify (fun vm => set_frames vm (f :: frames vm)))
    (fun _ vm' => exists rx, vm' = entered vm ci amount fwd f m rx /\ receipts_ok rx /\
       zlen (rx_receipts rx) <= MAX_RECEIPTS - 2 /\
       rx_receipts rx = rx_receipts (receipts vm) ++
         [call_receipt id ci amount fwd (reg vm RegId.SP)])
    (fun e vm' => local_err e vm vm') (set_memory (allocated vm ci fwd m1) m).
Proof.
  intros Hwf Hfwd Hci Ha Hm Hssp Hsp.
  destruct (allocated_facts vm ci fwd m1 Hwf Hfwd Hci) as ([Hl Hu] & Hgg & Hfp).
  pose proof (wf_reg_u64 vm RegId.SP Hwf) as Hsp0. pose proof (wf_reg_u64 vm RegId.CGAS Hwf) as Hc.
  change serialized_size with 600 in *.
  set (v4 := set_memory (allocated vm ci fwd m1) m).
  assert (Hl4 : zlen (registers v4) = VM_REGISTER_COUNT) by exact Hl.
  repeat wp_step. change (reg v4 RegId.FP) with (reg (allocated vm ci fwd m1) RegId.FP).
  rewrite Hfp.
  repeat first [rewrite reg_set_eq by (rewrite ?zlen_set_reg; done)|rewrite reg_set_ne by done].
  unfold wp at 1. set (v5 := set_reg _ RegId.FLAG 0).
  pose proof (push_receipt_spec v5 (call_receipt id ci amount fwd (reg vm RegId.SP))
    (wf_receipts _ Hwf) (wf_receipts_len _ Hwf) ltac:(done)) as Hp.
  unfold call_receipt in Hp. change serialized_size with 600 in Hp.
  destruct (push_receipt _ v5) as [[[]|e|] v6]; [| |done].
  - destruct Hp as (rx & -> & Hok & Hrx & Hlen). wp_step. exists rx. split_and!; done.
  - destruct Hp as [-> ->]. apply err_of; try done.
    + do 5 (apply regs_ok_put; [|unfold u64_ok in *; lia]). done.
    + subst v5 v4. rewrite !reg_set_ne by done. exact Hgg.
Qed.

(** Entering: the state is [entered], the frame and the code are in memory above the
    caller's stack pointer, and no other byte changed. *)
Lemma call_enter_spec vm ci amount gas c :
  vm_wf vm -> storage_wf (storage vm) -> call_info_ok ci -> u64_ok amount -> u64_ok gas ->
  current_contract vm = Ok c ->
  let fwd := Z.min (reg vm RegId.CGAS) gas in
  wp (call_enter ci amount gas)
    (fun _ vm' => exists f m rx code, vm' = entered vm ci amount fwd f m rx /\ vm_wf vm' /\
       saved_frame vm ci fwd f /\
       read_contract (storage vm) (call_to (ci_call ci)) (ci_code_size ci) = Ok code /\
       mem_shows m (reg vm RegId.SP) (call_image f code ci) /\
       (forall x, x < reg vm RegId.SP \/ reg vm RegId.HP <= x ->
          mem_get m x = mem_get (memory vm) x) /\
       rx_receipts rx = rx_receipts (receipts vm) ++
         [call_receipt (default zeroed c) ci amount fwd (reg vm RegId.SP)])
    (fun e vm' => local_err e vm vm') vm.
Proof.
  intros Hwf Hs Hci Ha Hg Hc fwd.
  destruct (call_frame_spec vm ci gas Hwf Hci Hg) as (f & Hcf & Hf). fold fwd in Hcf, Hf.
  pose proof (wf_reg_u64 vm RegId.SP Hwf) as Hsp. pose proof (wf_reg_u64 vm RegId.CGAS Hwf) as Hcg.
  pose proof (cio_total _ Hci) as [Htot _]. pose proof (cio_size _ Hci) as Hsz.
  pose proof (wf_mem _ Hwf) as Hm. pose proof (wf_sp_stack _ Hwf) as Hst0. pose proof (wf_ssp _ Hwf) as Hssp.
  assert (Hfwd : 0 <= fwd <= reg vm RegId.CGAS) by (unfold u64_ok in *; lia).
  pose proof (wf_regs _ Hwf) as Hregs. change serialized_size with 600 in Htot.
  unfold call_enter. apply wp_bind. unfold wp at 1. rewrite Hcf. cbn [fst snd].
  repeat wp_step. rewrite reg_set_ne by done. autorewrite with vm.
  pose proof (grow_stack_spec (memory vm)
    (saturating_add (reg vm RegId.SP) (ci_total_size_in_stack ci)) Hm) as Hgrow.
  destruct (grow_stack _ _) as [m1|e|];
    [|apply err_of; try done; [by apply regs_ok_put; [|unfold u64_ok in *; lia]|by rewrite reg_set_ne|exact (Z.le_trans _ _ _ Hssp Hst0)]
     |apply Hgrow; unfold saturating_add, u64_ok in *; lia].
  destruct Hgrow as (Hm1 & Hmax & Hhp1 & Hst1 & Hx1);
    [unfold saturating_add, u64_ok in *; lia|].
  assert (Hsat : saturating_add (reg vm RegId.SP) (ci_total_size_in_stack ci) =
    reg vm RegId.SP + ci_total_size_in_stack ci).
  { unfold saturating_add, VM_MAX_RAM in *. lia. }
  destruct (allocated_facts vm ci fwd m1 Hwf Hfwd Hci) as (Hr3 & Hgg3 & Hfp3).
  repeat wp_step. unfold get_internal_contract_or_default. repeat wp_step.
  rewrite (internal_contract_grown vm c m1); try done; [|lia| |].
  2:{ intros x Hx. rewrite Hx1. case_if; [|done]. pose proof (wf_stack _ Hm1). lia. }
  2:{ rewrite !reg_set_ne by done. autorewrite with vm. by rewrite reg_set_ne. }
  unfold set_frame_pointer. repeat wp_step.
  change (set_reg _ RegId.FP _) with (allocated vm ci fwd m1).
  eapply wp_mono.
  - apply call_write_spec; try done.
    + by eapply saved_frame_ok.
    + rewrite Hfp3. change (memory (allocated vm ci fwd m1)) with m1. pose proof (wf_stack _ Hm1).
      pose proof (wf_hp _ Hm1). unfold accessible, u64_ok in *. lia.
  - intros [] v4 (m & code & -> & Hcode & Hlen & Hu).
    change (memory (allocated vm ci fwd m1)) with m1 in Hu. rewrite Hfp3 in Hu.
    pose proof (mem_upd_wf _ _ _ _ Hu Hm1) as Hm4. pose proof Hu as [(Hs4 & _ & Hh4) Hx4].
    assert (Hil : zlen (call_image f code ci) = ci_total_size_in_stack ci).
    { unfold call_image. rewrite !zlen_app, Hlen, zlen_replicate, zlen_frame_to_bytes
        by by eapply saved_frame_ok. change serialized_size with 600. lia. }
    eapply wp_mono; [apply (call_finish_spec vm ci amount fwd f m1 m); try done; [lia|]|..|done].
    { change serialized_size with 600. unfold VM_MAX_RAM in *. lia. }
    intros [] v5 (rx & -> & Hrx & Hrl & Happ). exists f, m, rx, code. split_and!; try done.
    + apply wf_entered; try done; lia.
    + by eapply mem_upd_shows.
    + intros x Hx. pose proof (wf_hp_reg _ Hwf). pose proof (wf_stack _ Hm1).
      rewrite Hx4, Hil, Hx1. repeat case_if; try done; lia.
  - intros e v4 (He & m & -> & Hsh). apply err_of; try done; [by eapply same_shape_wf|].
    destruct Hsh as (Hl & _). cbn [memory set_memory]. rewrite Hl. change (memory (allocated vm ci fwd m1)) with m1. lia.
Qed.
End CallEnter.

(** ** The whole call *)

Section CallSpec.
Context {S : Type} `{Sha256} `{StorageLaws S}.
Implicit Types (vm : Interpreter S).

(** Paying does not change which contract is running. *)
Lemma current_contract_pay vm vm1 :
  pay_step vm vm1 -> current_contract vm1 = current_contract vm.
Proof.
  intros Hp. unfold current_contract. rewrite (ps_context _ _ Hp). case_if; [|done].
  by rewrite (ps_memory _ _ Hp), (ps_regs _ _ Hp).
Qed.

(** A call from [vm] to [vm'] with [n] coins and a gas request [g]: [vm1] is the state after
    paying. *)
Record called vm (n g : Z) vm' vm1 (c : option ContractId) (ci : CallInfo) (f : CallFrame)
    (m : MemoryInstance) (rx : ReceiptsCtx) (code : list byte) : Prop := {
  cd_current : current_contract vm = Ok c;
  cd_pay : pay_step vm vm1;
  cd_wf1 : vm_wf vm1;
  cd_money : money_wf vm1;
  cd_gas : reg vm1 RegId.GGAS + cost_base (dep_cost (gas_costs vm) d_call) <= reg vm RegId.GGAS;
  cd_info : call_info_ok ci;
  cd_input : call_to (ci_call ci) ∈ input_contracts vm;
  cd_moved : moved c (ci_asset_id ci) n (call_to (ci_call ci)) (storage vm) (balances vm)
               (storage vm1) (balances vm1);
  cd_entered : vm' = entered vm1 ci n (Z.min (reg vm1 RegId.CGAS) g) f m rx;
  cd_wf : vm_wf vm';
  cd_frame : saved_frame vm1 ci (Z.min (reg vm1 RegId.CGAS) g) f;
  cd_code : read_contract (storage vm1) (call_to (ci_call ci)) (ci_code_size ci) = Ok code;
  cd_image : mem_shows m (reg vm RegId.SP) (call_image f code ci);
  cd_memory : forall x, x < reg vm RegId.SP \/ reg vm RegId.HP <= x ->
    mem_get m x = mem_get (memory vm1) x;
  cd_receipt : rx_receipts rx = rx_receipts (receipts vm) ++
    [call_receipt (default zeroed c) ci n (Z.min (reg vm1 RegId.CGAS) g) (reg vm RegId.SP)]
}.

Lemma wp_charge_pay vm g :
  vm_wf vm -> money_wf vm -> 0 <= g ->
  wp (gas_charge g)
    (fun _ v1 => vm_wf v1 /\ money_wf v1 /\ pay_step vm v1 /\ memory v1 = memory vm /\
       storage v1 = storage vm /\ balances v1 = balances vm /\
       reg v1 RegId.GGAS + g = reg vm RegId.GGAS)
    (fun e vm' => local_err e vm vm') vm.
Proof.
  intros Hwf Hm Hg.
  pose proof (local_gas_charge vm g Hwf Hg) as Hc.
  pose proof (pays_charge vm (fun _ _ => True) g Hg vm Hwf Hm (reflexivity vm) I) as Hp.
  unfold wp in *. rewrite gas_charge_eq in Hc by done. rewrite gas_charge_eq in Hp by done.
  rewrite gas_charge_eq by done. destruct (g <=? reg vm RegId.CGAS); [|exact Hc].
  destruct Hp as (? & ? & ? & _), Hc as (_ & _ & ?). split_and!; done.
Qed.

Lemma prepare_call_inner_spec vm ptr n aptr g :
  vm_wf vm -> money_wf vm -> u64_ok ptr -> u64_ok n -> u64_ok aptr -> u64_ok g ->
  wp (prepare_call_inner ptr n aptr g)
    (fun _ vm' => exists vm1 c ci f m rx code, called vm n g vm' vm1 c ci f m rx code)
    (fun e vm' => local_err e vm vm') vm.
Proof.
  intros Hwf Hm Hptr Hn Haptr Hg. destruct (wf_costs _ Hwf) as [Hwc Hdc].
  unfold prepare_call_inner, get_dep_cost, get_word_cost. do 5 wp_step.
  eapply wp_mono; [apply wp_charge_pay; [done|done|]| |done].
  { specialize (Hdc d_call). destruct (dep_cost (gas_costs vm) d_call); apply Hdc. }
  intros [] v0 (Hwf0 & Hm0 & Hp0 & Hmem0 & Hst0 & Hb0 & Hg0). apply wp_bind.
  apply wp_get_current_contract; [done| |].
  2:{ intros e. eapply pay_step_err; [exact Hp0|]. by apply wf_err. }
  intros c Hc. pose proof (current_contract_spec v0 Hwf0) as Hcs. rewrite Hc in Hcs.
  rewrite (current_contract_pay vm v0 Hp0) in Hc. apply wp_bind.
  eapply wp_mono.
  { apply (call_pay_spec v0 c (storage vm) (balances vm)); try done.
    - destruct c; [rewrite bool_decide_true by done; apply Hcs|by rewrite bool_decide_false].
    - apply Hwc. }
  2:{ intros e v. by apply pay_step_err. }
  intros ci vm1 (Hwf1 & Hm1 & Hp1 & Hci & Hin & Hmv).
  assert (Hp : pay_step vm vm1) by by etrans.
  eapply wp_mono; [apply (call_enter_spec vm1 ci n g c); try done; [apply Hm1|]|..].
  { by rewrite (current_contract_pay vm vm1 Hp). }
  2:{ intros e v. by apply pay_step_err. }
  intros [] vm' (f & m & rx & code & Hent & Hwf' & Hf & Hcode & Himg & Hx & Hrx).
  rewrite (ps_regs _ _ Hp RegId.SP) in Himg, Hx, Hrx by done. rewrite (ps_receipts _ _ Hp) in Hrx.
  exists vm1, c, ci, f, m, rx, code. split; try done.
  - pose proof (ps_gas _ _ Hp1). lia.
  - by rewrite <- (ps_inputs _ _ Hp0).
  - intros x. rewrite <- (ps_regs _ _ Hp RegId.HP) by done. apply Hx.
Qed.
End CallSpec.
