(* ===== verification/Calls.v ===== *)
(** * The call discipline

    The invariant on the call stack of a running script: every active frame's header is
    intact in memory at its frame pointer, frame pointers chain to the script's zero frame
    pointer, and the context is internal exactly when a frame is active. It is preserved by
    local steps, calls and returns; it fixes the identity of the running contract, and with
    it follow the call/return round trip and the conservation of assets
    (src/fuel-vm/src/interpreter/flow.rs, contract.rs, internal.rs). *)

From Stdlib Require Import Strings.Byte.
From S2P Require Import Prelude Asm Merkle Receipts Memory State Gas Alu MemOps Storage MemStorage Flow.

(** The code size in the header of the frame at [fp]: a whole number of words, counting code
    that lies between the header and the stack start. *)
Definition code_size_shown (m : MemoryInstance) (ssp fp : Z) : Prop :=
  exists v, mem_shows m (fp + code_size_offset) (enc_word v) /\ v mod WORD_SIZE = 0 /\
    0 <= v /\ fp + serialized_size + v <= ssp.

(** The frame's identifiers and registers are in memory at [fp]; only the code size may have
    grown since the frame was written. *)
Definition frame_shown (m : MemoryInstance) (ssp fp : Z) (f : CallFrame) : Prop :=
  mem_shows m fp (zslice (frame_to_bytes f) 0 code_size_offset) /\ code_size_shown m ssp fp.

Fixpoint frames_shown (m : MemoryInstance) (ssp fp : Z) (fs : list CallFrame) : Prop :=
  match fs with
  | [] => fp = 0
  | f :: rest =>
      let r := reg_get (f_registers f) in
      0 < fp /\ r RegId.SSP <= fp /\ fp + serialized_size <= ssp /\ frame_shown m ssp fp f /\
      frame_ok f /\ 32 <= r RegId.SSP /\ frames_shown m (r RegId.SSP) (r RegId.FP) rest
  end.

(** The invariant of a script and the contracts it calls. *)
Record call_inv {S} (vm : Interpreter S) : Prop := {
  cv_ssp : 32 <= reg vm RegId.SSP;
  cv_context : exists h,
    context vm = match frames vm with [] => Script_ h | _ => Call_ h end;
  cv_shown : frames_shown (memory vm) (reg vm RegId.SSP) (reg vm RegId.FP) (frames vm)
}.

Section Inv.
Context {S : Type} `{Sha256}.
Implicit Types (vm : Interpreter S).

Lemma mem_shows_ext m m' a bs :
  (forall x, a <= x < a + zlen bs -> mem_get m' x = mem_get m x) ->
  mem_shows m a bs -> mem_shows m' a bs.
Proof. intros Hx Hs i Hi. rewrite Hx by lia. by apply Hs. Qed.

Lemma zlen_frame_head f :
  frame_ok f -> zlen (zslice (frame_to_bytes f) 0 code_size_offset) = code_size_offset.
Proof.
  intros Hf. rewrite zlen_slice; [done|done|]. by rewrite zlen_frame_to_bytes.
Qed.

Lemma code_size_shown_ext m m' ssp fp :
  (forall x, fp + code_size_offset <= x < fp + code_size_offset + 8 -> mem_get m' x = mem_get m x) ->
  code_size_shown m ssp fp -> code_size_shown m' ssp fp.
Proof.
  intros Hx (v & Hv & ?). exists v. split; [|done]. eapply mem_shows_ext; [|exact Hv].
  intros x. unfold enc_word. rewrite zlen_to_be_bytes. apply Hx.
Qed.

(** Frames depend only on the memory below the stack frame. *)
Lemma frames_shown_ext m m' fs : forall ssp fp hp,
  frames_ok ssp hp fs -> (forall x, x < ssp -> mem_get m' x = mem_get m x) ->
  frames_shown m ssp fp fs -> frames_shown m' ssp fp fs.
Proof.
  induction fs as [|f fs IH]; intros ssp fp hp Hok Hx; cbn; [done|].
  destruct Hok as (_ & _ & _ & Hle & _ & Hok).
  intros (Hfp & Hab & Hsz & [Hsh Hcs] & Hf & Hssp & Hrest).
  change serialized_size with 600 in *. split_and!; try done; [split|].
  - eapply mem_shows_ext; [|exact Hsh]. rewrite zlen_frame_head by done.
    change code_size_offset with 576. intros x ?. apply Hx. lia.
  - eapply code_size_shown_ext; [|exact Hcs]. change code_size_offset with 576.
    intros x ?. apply Hx. lia.
  - eapply IH; [done| |done]. intros x Hxl. apply Hx. lia.
Qed.

Lemma call_inv_local vm vm' :
  vm_wf vm -> call_inv vm -> local_step vm vm' -> call_inv vm'.
Proof.
  intros Hwf [Hssp Hctx Hsh] []. split.
  - by rewrite ls_ssp.
  - by rewrite ls_context, ls_frames.
  - rewrite ls_ssp, ls_fp, ls_frames. eapply frames_shown_ext; [apply Hwf| |done].
    intros x Hx. apply ls_mem. by left.
Qed.

(** The running contract is the one the innermost frame was created for. *)
Lemma call_inv_current vm :
  vm_wf vm -> call_inv vm -> current_contract vm = Ok (f_to <$> head (frames vm)).
Proof.
  intros Hwf [Hssp [h Hctx] Hsh]. unfold current_contract. rewrite Hctx.
  destruct (frames vm) as [|f rest]; [done|]. cbn [context_is_internal context_is_external negb].
  destruct Hsh as (Hfp & _ & Hsz & [Hshow _] & Hf & _). change serialized_size with 600 in Hsz.
  rewrite read_bytes_eq by (apply Hwf || lia).
  pose proof Hf as (Hto & _ & _). pose proof (wf_ssp _ Hwf). pose proof (wf_sp_stack _ Hwf).
  pose proof (wf_mem _ Hwf) as []. rewrite <- Hto. rewrite mem_shows_read; [done|apply Hwf| |].
  - unfold accessible. rewrite Hto. lia.
  - intros i Hi. rewrite Hshow by (rewrite zlen_frame_head by done; change code_size_offset with 576; lia).
    pose proof (zlen_frame_to_bytes f Hf) as Hl. change serialized_size with 600 in Hl.
    rewrite zget_slice by (change code_size_offset with 576; lia).
    change code_size_offset with 576. case_if; [|lia].
    unfold frame_to_bytes. rewrite zget_app. case_if; [done|lia].
Qed.

Lemma call_inv_return vm a b f rest r vm' :
  call_inv vm -> frames vm = f :: rest -> return_step (with_ret vm a b) f rest r vm' ->
  call_inv vm'.
Proof.
  intros [Hssp [h Hctx] Hsh] Hf Hr. rewrite Hf in Hctx, Hsh.
  destruct Hsh as (Hfp & _ & Hsz & Hshow & Hfo & Hssp' & Hrest). destruct Hr.
  split.
  - rewrite rs_regs by done. done.
  - exists h. rewrite rs_context, rs_frames. change (context (with_ret vm a b)) with (context vm).
    rewrite Hctx. cbn. destruct rest as [|g rest]; cbn in Hrest.
    + by rewrite Hrest.
    + destruct Hrest as (Hg & _). case_if; [lia|done].
  - rewrite rs_memory, rs_frames, !rs_regs by done. exact Hrest.
Qed.
End Inv.

(** Setting the frame pointer to a new frame and back restores the context. *)
Lemma context_call_return {S} (vm : Interpreter S) sp :
  call_inv vm -> 0 < sp ->
  update_from_frame_pointer (update_from_frame_pointer (context vm) sp) (reg vm RegId.FP) =
  context vm.
Proof.
  intros [_ [h ->] Hsh] Hsp. destruct (frames vm) as [|f rest]; cbn in Hsh |- *.
  - rewrite Hsh. case_if; [done|lia].
  - destruct Hsh as (? & _). case_if; [lia|]. cbn. case_if; [lia|done].
Qed.

Section InvCall.
Context {S : Type} `{Sha256} `{StorageLaws S}.
Implicit Types (vm : Interpreter S).

Lemma reg_entered vm ci amount fwd f m rx i :
  zlen (registers vm) = VM_REGISTER_COUNT ->
  reg (entered vm ci amount fwd f m rx) i =
    if i =? RegId.FLAG then 0 else if i =? RegId.CGAS then fwd
    else if (i =? RegId.IS) || (i =? RegId.PC) then reg vm RegId.SP + serialized_size
    else if i =? RegId.BAL then amount
    else if i =? RegId.FP then reg vm RegId.SP
    else if (i =? RegId.SSP) || (i =? RegId.SP)
    then saturating_add (reg vm RegId.SP) (ci_total_size_in_stack ci)
    else reg vm i.
Proof. intros Hl. apply (entered_regs_get (registers vm)). done. Qed.

(** While a frame is active, paying does not touch memory. *)
Lemma call_inv_pay vm vm1 :
  vm_wf vm -> call_inv vm -> pay_step vm vm1 ->
  frames_shown (memory vm1) (reg vm RegId.SSP) (reg vm RegId.FP) (frames vm).
Proof.
  intros Hwf [Hssp [h Hctx] Hsh] Hp. destruct (frames vm) as [|f rest] eqn:Ef; [done|].
  rewrite (ps_memory _ _ Hp); [done|]. by rewrite Hctx.
Qed.

(** The registers of the callee, in terms of the caller's. *)
Lemma called_sp vm n g vm' vm1 c ci f m rx code :
  vm_wf vm -> called vm n g vm' vm1 c ci f m rx code ->
  reg vm' RegId.SSP = reg vm RegId.SP + ci_total_size_in_stack ci /\
  reg vm' RegId.FP = reg vm RegId.SP /\ reg vm' RegId.HP = reg vm RegId.HP.
Proof.
  intros Hwf Hcd. pose proof (wf_regs _ (cd_wf1 _ _ _ _ _ _ _ _ _ _ _ Hcd)) as [Hl1 _].
  pose proof (wf_sp _ (cd_wf _ _ _ _ _ _ _ _ _ _ _ Hcd)) as Hhp.
  pose proof (wf_hp _ (wf_mem _ (cd_wf _ _ _ _ _ _ _ _ _ _ _ Hcd))) as Hmax.
  pose proof (wf_hp_reg _ (cd_wf _ _ _ _ _ _ _ _ _ _ _ Hcd)) as Hreg. rewrite <- Hreg in Hmax.
  pose proof (ps_regs _ _ (cd_pay _ _ _ _ _ _ _ _ _ _ _ Hcd)) as Hr.
  rewrite (cd_entered _ _ _ _ _ _ _ _ _ _ _ Hcd) in *.
  rewrite !reg_entered in * by done. revert Hhp Hmax. reg_eqb. cbn [orb]. cbv iota.
  rewrite !Hr by done. unfold saturating_add, MEM_SIZE, VM_MAX_RAM. intros Hhp Hmax.
  split_and!; [lia|done|done].
Qed.

Lemma call_image_shows m a f code ci :
  mem_shows m a (call_image f code ci) -> mem_shows m a (frame_to_bytes f).
Proof.
  intros Hs i Hi. rewrite Hs.
  - unfold call_image. rewrite zget_app. case_if; [done|lia].
  - unfold call_image. rewrite zlen_app.
    pose proof (zlen_nonneg (code ++ replicate (Z.to_nat (ci_code_size_padded ci - ci_code_size ci)) x00)).
    lia.
Qed.

(** A header just written is shown. *)
Lemma frame_shown_new m ssp fp f :
  mem_shows m fp (frame_to_bytes f) -> frame_ok f -> f_code_size_padded f mod WORD_SIZE = 0 ->
  0 <= f_code_size_padded f -> fp + serialized_size + f_code_size_padded f <= ssp ->
  frame_shown m ssp fp f.
Proof.
  intros Hs Hf Hm H0' Hle. pose proof (zlen_frame_to_bytes f Hf) as Hl.
  change serialized_size with 600 in *. split.
  - intros i. rewrite zlen_frame_head by done. change code_size_offset with 576. intros Hi.
    rewrite Hs, zget_slice by lia. case_if; [done|lia].
  - exists (f_code_size_padded f). split_and!; try done. intros i. unfold enc_word at 1.
    rewrite zlen_to_be_bytes. change code_size_offset with 576. intros Hi.
    rewrite <- Z.add_assoc, Hs by lia. destruct Hf as (Hto & Has & Hr).
    unfold frame_to_bytes. pose proof (zlen_concat_words (f_registers f)) as Hw. rewrite Hr in Hw.
    change (8 * VM_REGISTER_COUNT) with 512 in Hw.
    rewrite zget_app, Hto. case_if; [lia|]. rewrite zget_app, Has. case_if; [lia|].
    rewrite zget_app, Hw. case_if; [lia|]. unfold enc_word at 1 2. rewrite zget_app, zlen_to_be_bytes.
    case_if; [|lia]. unfold enc_word. f_equal. lia.
Qed.

Lemma call_inv_call vm n g vm' vm1 c ci f m rx code :
  vm_wf vm -> call_inv vm -> called vm n g vm' vm1 c ci f m rx code -> call_inv vm'.
Proof.
  intros Hwf Hcv Hcd.
  pose proof (call_inv_pay vm vm1 Hwf Hcv (cd_pay _ _ _ _ _ _ _ _ _ _ _ Hcd)) as Hsh1.
  destruct (called_sp vm n g vm' vm1 c ci f m rx code Hwf Hcd) as (Hssp' & Hfp' & _).
  destruct Hcv as [Hssp [h Hctx] _]. pose proof (wf_ssp _ Hwf) as Hle.
  pose proof (cd_pay _ _ _ _ _ _ _ _ _ _ _ Hcd) as Hp.
  pose proof (ps_regs _ _ Hp) as Hr. pose proof (cd_frame _ _ _ _ _ _ _ _ _ _ _ Hcd) as Hf.
  pose proof (cd_info _ _ _ _ _ _ _ _ _ _ _ Hcd) as Hci.
  pose proof (cio_total _ Hci) as [Htot _]. pose proof (cio_size _ Hci) as Hsize.
  assert (Hent := cd_entered _ _ _ _ _ _ _ _ _ _ _ Hcd).
  change serialized_size with 600 in *.
  assert (Hfr : frames vm' = f :: frames vm) by (rewrite Hent; cbn; by rewrite (ps_frames _ _ Hp)).
  assert (Hmm : memory vm' = m) by by rewrite Hent.
  split; rewrite ?Hssp', ?Hfp', ?Hfr, ?Hmm.
  - lia.
  - exists h. rewrite Hent. cbn. rewrite (ps_context _ _ Hp), Hctx, Hr by done.
    destruct (frames vm); cbn; case_if; done || lia.
  - cbn [frames_shown]. rewrite !(sf_regs _ _ _ _ Hf). reg_eqb. rewrite !Hr by done.
    change serialized_size with 600. split_and!; try lia; [|by eapply saved_frame_ok|].
    + pose proof (sf_code _ _ _ _ Hf) as Hcode. pose proof (cio_padded _ Hci) as [Hmod _].
      apply frame_shown_new; rewrite ?Hcode; try done; [eapply call_image_shows, Hcd
        |by eapply saved_frame_ok|lia|change serialized_size with 600; lia].
    + eapply frames_shown_ext; [apply Hwf| |exact Hsh1]. intros x Hx.
      apply (cd_memory _ _ _ _ _ _ _ _ _ _ _ Hcd). lia.
Qed.
End InvCall.

(** ** Conservation of assets *)

Section Conservation.
Context {S : Type} `{Sha256} `{StorageLaws S}.
Implicit Types (vm : Interpreter S) (s : S).

(** Coins are neither created nor destroyed, and no bystander is affected: over any set of
    contracts that contains both ends, the total of the asset together with the free balance
    is unchanged. *)
Definition conserves (source : option ContractId) (a : AssetId) (n : Z) (to : ContractId)
    s (b : RuntimeBalances) s' (b' : RuntimeBalances) : Prop :=
  (forall l, NoDup l -> to ∈ l -> (forall c, source = Some c -> c ∈ l) ->
     total s' a l + free b' a = total s a l + free b a) /\
  (forall l x, x <> a -> total s' x l + free b' x = total s x l + free b x) /\
  (forall c, c <> to -> source <> Some c -> bal s' c a = bal s c a) /\
  (source <> Some to -> bal s' to a = bal s to a + n) /\
  (forall c, source = Some c -> c <> to -> bal s' c a = bal s c a - n /\ n <= bal s c a).

Lemma bal_upd_get s c a v s' c' :
  bal_upd s c a v s' -> bal s' c' a = if decide (c' = c) then v else bal s c' a.
Proof.
  intros (_ & _ & _ & Hb). rewrite Hb. destruct (decide (c' = c)) as [->|Hne].
  - by rewrite decide_True.
  - by rewrite decide_False by congruence.
Qed.

Lemma free_other (b b' : RuntimeBalances) (a x : AssetId) n :
  free_sub b a n b' -> x <> a -> free b' x = free b x.
Proof. intros (_ & _ & Hx & _) Hne. unfold free. by rewrite Hx. Qed.

Lemma moved_conserves source a n to s b s' b' :
  moved source a n to s b s' b' -> conserves source a n to s b s' b'.
Proof.
  intros (s1 & Hd & Hi). destruct source as [c|]; cbn in Hd.
  - destruct Hd as (Hn & Hd & ->). pose proof (bal_upd_get _ _ _ _ _ to Hd) as Hto.
    split_and!.
    + intros l Hnd Hin Hc. rewrite (total_upd _ _ _ _ _ l Hi Hnd), (total_upd _ _ _ _ _ l Hd Hnd).
      rewrite (decide_True (P := to ∈ l)) by done. rewrite decide_True by auto. lia.
    + intros l x Hx. by rewrite (total_other _ _ _ _ _ x l Hi), (total_other _ _ _ _ _ x l Hd) by done.
    + intros d Hdt Hdc. rewrite (bal_upd_get _ _ _ _ _ d Hi), (bal_upd_get _ _ _ _ _ d Hd).
      rewrite !decide_False by congruence. done.
    + intros Hne. rewrite (bal_upd_get _ _ _ _ _ to Hi), decide_True, Hto, decide_False by congruence.
      done.
    + intros d [= ->] Hne. rewrite (bal_upd_get _ _ _ _ _ d Hi), (bal_upd_get _ _ _ _ _ d Hd).
      rewrite decide_False by done. by rewrite decide_True.
  - destruct Hd as [-> Hf]. split_and!.
    + intros l Hnd Hin _. rewrite (total_upd _ _ _ _ _ l Hi Hnd), decide_True by done.
      destruct Hf as (_ & -> & _). lia.
    + intros l x Hx. rewrite (total_other _ _ _ _ _ x l Hi) by done.
      by rewrite (free_other _ _ _ _ _ Hf Hx).
    + intros d Hdt _. by rewrite (bal_upd_get _ _ _ _ _ d Hi), decide_False by done.
    + intros _. by rewrite (bal_upd_get _ _ _ _ _ to Hi), decide_True by done.
    + done.
Qed.
End Conservation.

(** C19: a call followed by the matching return restores the caller. Whatever the callee did
    in between (it is only required to have returned to its own frame), after the return the
    caller's frames, context and registers are what they were, apart from the program counter,
    which is on the next instruction, the return value, the heap pointer and the gas; the
    caller's own callers' gas is untouched; and the receipt names the called contract. *)
Theorem call_return_roundtrip {S} `{Sha256} `{StorageLaws S}
    (vm vm1 vm2 vm3 : Interpreter S) ptr n aptr g a :
  vm_wf vm -> money_wf vm -> call_inv vm ->
  u64_ok ptr -> u64_ok n -> u64_ok aptr -> u64_ok g -> u64_ok a ->
  prepare_call_inner ptr n aptr g vm = (Ok tt, vm1) ->
  vm_wf vm2 -> call_inv vm2 -> frames vm2 = frames vm1 -> context vm2 = context vm1 ->
  ret a vm2 = (Ok tt, vm3) ->
  frames vm3 = frames vm /\ context vm3 = context vm /\ memory vm3 = memory vm2 /\
  reg vm3 RegId.PC = reg vm RegId.PC + Instruction_SIZE /\
  reg vm3 RegId.RET = a /\ reg vm3 RegId.RETL = 0 /\ reg vm3 RegId.HP = reg vm2 RegId.HP /\
  (forall i, i <> RegId.PC -> kept_by_return i = false -> reg vm3 i = reg vm i) /\
  reg vm3 RegId.GGAS = reg vm2 RegId.GGAS /\
  reg vm3 RegId.GGAS - reg vm3 RegId.CGAS = reg vm RegId.GGAS - reg vm RegId.CGAS /\
  exists id, f_to <$> head (frames vm1) = Some id /\
    last (rx_receipts (receipts vm3)) =
      Some (Receipt_Return id a (reg vm2 RegId.PC) (reg vm2 RegId.IS)).
Proof.
  intros Hwf Hm Hcv Hptr Hn Haptr Hg Ha Hcall Hwf2 Hcv2 Hf2 Hctx2 Hret.
  pose proof (prepare_call_inner_spec vm ptr n aptr g Hwf Hm Hptr Hn Haptr Hg) as Hc.
  unfold wp in Hc. rewrite Hcall in Hc. destruct Hc as (vp & c & ci & f & m & rx & code & Hcd).
  pose proof (cd_pay _ _ _ _ _ _ _ _ _ _ _ Hcd) as Hp. pose proof (ps_regs _ _ Hp) as Hr.
  pose proof (cd_frame _ _ _ _ _ _ _ _ _ _ _ Hcd) as Hf.
  pose proof (cd_entered _ _ _ _ _ _ _ _ _ _ _ Hcd) as Hent.
  assert (Hfr1 : frames vm1 = f :: frames vm) by (rewrite Hent; cbn; by rewrite (ps_frames _ _ Hp)).
  assert (Hrw : wp (ret a) (fun _ v => vm_wf v /\ return_step (with_ret vm2 a 0) f (frames vm)
    (Receipt_Return (f_to f) a (reg vm2 RegId.PC) (reg vm2 RegId.IS)) v) (fun e v => local_err e vm2 v) vm2).
  { apply wp_ret; [done..|]. rewrite call_inv_current, Hf2, Hfr1 by done.
    intros c' v [= <-] Hv Hst. done. }
  unfold wp in Hrw. rewrite Hret in Hrw. destruct Hrw as [Hwf3 [] ].
  pose proof (wf_regs _ Hwf2) as [Hl2 _].
  assert (Hkept : forall i, kept_by_return i = true -> i <> RegId.CGAS -> i <> RegId.RET ->
    i <> RegId.RETL -> reg vm3 i = reg vm2 i).
  { intros i ? ? ? ?. rewrite rs_kept by done. unfold with_ret. by rewrite !reg_set_ne. }
  assert (Hcv' := call_inv_call _ _ _ _ _ _ _ _ _ _ _ Hwf Hcv Hcd).
  split_and!; try done.
  - rewrite rs_context. change (context (with_ret vm2 a 0)) with (context vm2). rewrite Hctx2.
    rewrite (sf_regs _ _ _ _ Hf). reg_eqb. rewrite Hr, Hent by done. cbn.
    rewrite (ps_context _ _ Hp), Hr by done. apply context_call_return; [done|].
    pose proof (wf_ssp _ Hwf). pose proof (cv_ssp _ Hcv). lia.
  - rewrite rs_pc, (sf_regs _ _ _ _ Hf). reg_eqb. by rewrite Hr.
  - rewrite rs_kept by done. unfold with_ret. rewrite reg_set_ne by done. by apply reg_set_eq.
  - rewrite rs_kept by done. unfold with_ret. apply reg_set_eq; [by rewrite zlen_set_reg|done].
  - by apply Hkept.
  - intros i Hi Hk. rewrite rs_regs, (sf_regs _ _ _ _ Hf) by done. case_if; [by subst|].
    apply Hr; [done|]. by intros ->.
  - by apply Hkept.
  - pose proof (wf_gas _ Hwf3) as H3. pose proof (wf_gas _ Hwf) as H0'. rewrite rs_frames in H3. lia.
  - exists (f_to f). rewrite Hfr1. split; [done|]. by rewrite rs_receipts, last_snoc.
Qed.

#[local] Instance sha_identity : Sha256 := fun l => l.
#[local] Instance tai64_zero : Tai64.
Proof. refine {| UNIX_EPOCH := 0 |}. split; discriminate. Defined.

(** A script about to call the contract with the zero identifier, whose code is four bytes. *)
Definition storage_1 : MemoryStorage :=
  snd (contract_code_replace (memory_storage_new 5 zeroed) zeroed (replicate 4 x00)).
Definition regs_script : list Z :=
  reg_put (reg_put regs_init RegId.SSP 32) RegId.SP 128.
Definition memory_script : MemoryInstance := mkMemory (replicate 128 x00) [] MEM_SIZE.
Definition vm_script : Interpreter MemoryStorage :=
  mkVM regs_script memory_script [] receipts_default {[ zeroed ]} storage_1 (Script_ 5)
    {[ zeroed := mkBalance 100 64 ]} params_default PanicContext_None.

Lemma vm_script_wf : vm_wf vm_script.
Proof.
  split.
  - apply regs_ok_compute. vm_compute. reflexivity.
  - reflexivity.
  - reflexivity.
  - split; vm_compute; repeat split; discriminate.
  - reflexivity.
  - vm_compute. discriminate.
  - vm_compute. discriminate.
  - vm_compute. discriminate.
  - reflexivity.
  - exact I.
  - apply receipts_default_ok.
  - vm_compute. discriminate.
  - exact I || (split; reflexivity || discriminate).
  - exact params_default_ok.
Defined.

Lemma vm_script_money : money_wf vm_script.
Proof.
  split.
  - apply contract_code_replace_wf; [apply memory_storage_new_wf|reflexivity].
  - apply map_Forall_insert_2; [split; [split|]; reflexivity || discriminate|apply map_Forall_empty].
Defined.

Lemma vm_script_inv : call_inv vm_script.
Proof. split; [discriminate|by exists 5|reflexivity]. Defined.

Lemma u64_ok_compute x : (0 <=? x) && (x <? U64) = true -> u64_ok x.
Proof. unfold u64_ok. lia. Defined.

(** Did a handler succeed, and did the next one after it? *)
Definition succeeds {S A} (m : M S A) (vm : Interpreter S) : bool :=
  match m vm with (Ok _, _) => true | _ => false end.

Lemma succeeds_Ok {S A} (m : M S A) (vm : Interpreter S) :
  succeeds m vm = true -> exists a vm', m vm = (Ok a, vm').
Proof. unfold succeeds. destruct (m vm) as [[a| |] vm']; [|discriminate..]. eauto. Defined.

Lemma call_return_roundtrip_witness :
  exists vm1 vm3, prepare_call_inner 8 0 8 10 vm_script = (Ok tt, vm1) /\
    ret 7 vm1 = (Ok tt, vm3) /\ reg vm3 RegId.PC = 4 /\ reg vm3 RegId.SP = 128 /\
    reg vm3 RegId.RET = 7.
Proof.
  pose proof (prepare_call_inner_spec vm_script 8 0 8 10 vm_script_wf vm_script_money
    (u64_ok_compute 8 eq_refl) (u64_ok_compute 0 eq_refl) (u64_ok_compute 8 eq_refl)
    (u64_ok_compute 10 eq_refl)) as Hs. unfold wp in Hs.
  destruct (succeeds_Ok (prepare_call_inner 8 0 8 10 ;;; ret 7) vm_script) as ([] & vm3 & E3);
    [vm_compute; reflexivity|].
  unfold mbind_ in E3.
  destruct (prepare_call_inner 8 0 8 10 vm_script) as [[[]| |] vm1] eqn:E; [|discriminate..].
  destruct Hs as (vp & c & ci & f & m & rx & code & Hcd).
  pose proof (cd_wf _ _ _ _ _ _ _ _ _ _ _ Hcd) as Hwf1.
  pose proof (call_inv_call _ _ _ _ _ _ _ _ _ _ _ vm_script_wf vm_script_inv Hcd) as Hcv1.
  destruct (call_return_roundtrip vm_script vm1 vm1 vm3 8 0 8 10 7 vm_script_wf vm_script_money
    vm_script_inv (u64_ok_compute 8 eq_refl) (u64_ok_compute 0 eq_refl)
    (u64_ok_compute 8 eq_refl) (u64_ok_compute 10 eq_refl) (u64_ok_compute 7 eq_refl) E Hwf1 Hcv1
    eq_refl eq_refl E3) as (_ & _ & _ & Hpc & Hret & _ & _ & Hregs & _).
  exists vm1, vm3. split; [reflexivity|]. split; [exact E3|]. split; [exact Hpc|].
  split; [|exact Hret]. rewrite Hregs by (reflexivity || discriminate). reflexivity.
Defined.

(** C20: A call moves coins and nothing else. If a call succeeds, the receipt it appends names
    the running contract (the zero identifier for a script), the called contract, the asset
    and the amount; the callee is one of the declared inputs; and exactly that amount of that
    asset moved from the running contract's balance (or the free balance of the script) to
    the callee's: no coin of any asset is created or destroyed and no other contract's
    balance changes. *)
Theorem call_conserves_assets {S} `{Sha256} `{StorageLaws S} (vm vm1 : Interpreter S) ptr n aptr g :
  vm_wf vm -> money_wf vm -> call_inv vm ->
  u64_ok ptr -> u64_ok n -> u64_ok aptr -> u64_ok g ->
  prepare_call_inner ptr n aptr g vm = (Ok tt, vm1) ->
  let source := f_to <$> head (frames vm) in
  exists to asset gas p1 p2 pc is_,
    rx_receipts (receipts vm1) = rx_receipts (receipts vm) ++
      [Receipt_Call (default zeroed source) to n asset gas p1 p2 pc is_] /\
    to ∈ input_contracts vm /\ f_to <$> head (frames vm1) = Some to /\
    money_wf vm1 /\
    conserves source asset n to (storage vm) (balances vm) (storage vm1) (balances vm1).
Proof.
  intros Hwf Hm Hcv Hptr Hn Haptr Hg Hcall source.
  pose proof (prepare_call_inner_spec vm ptr n aptr g Hwf Hm Hptr Hn Haptr Hg) as Hc.
  unfold wp in Hc. rewrite Hcall in Hc. destruct Hc as (vp & c & ci & f & m & rx & code & Hcd).
  pose proof (cd_current _ _ _ _ _ _ _ _ _ _ _ Hcd) as Hcur.
  rewrite call_inv_current in Hcur by done. injection Hcur as Hcur. fold source in Hcur.
  pose proof (cd_moved _ _ _ _ _ _ _ _ _ _ _ Hcd) as Hmv.
  pose proof (cd_receipt _ _ _ _ _ _ _ _ _ _ _ Hcd) as Hrx.
  pose proof (cd_money _ _ _ _ _ _ _ _ _ _ _ Hcd) as Hm1.
  rewrite (cd_entered _ _ _ _ _ _ _ _ _ _ _ Hcd). rewrite <- Hcur in Hmv, Hrx.
  do 7 eexists. split; [exact Hrx|]. split_and!; [apply Hcd| |exact Hm1|].
  - cbn. by rewrite (sf_to _ _ _ _ (cd_frame _ _ _ _ _ _ _ _ _ _ _ Hcd)).
  - apply moved_conserves, Hmv.
Qed.

Lemma call_conserves_assets_witness :
  exists vm1 to asset, prepare_call_inner 8 30 8 10 vm_script = (Ok tt, vm1) /\
    total (storage vm1) asset [to] + free (balances vm1) asset =
    total (storage vm_script) asset [to] + free (balances vm_script) asset.
Proof.
  destruct (succeeds_Ok (prepare_call_inner 8 30 8 10) vm_script) as ([] & vm1 & E);
    [vm_compute; reflexivity|].
  destruct (call_conserves_assets vm_script vm1 8 30 8 10 vm_script_wf vm_script_money
    vm_script_inv (u64_ok_compute 8 eq_refl) (u64_ok_compute 30 eq_refl)
    (u64_ok_compute 8 eq_refl) (u64_ok_compute 10 eq_refl) E)
    as (to & asset & gas & p1 & p2 & pc & is_ & _ & _ & _ & _ & Hc & _).
  exists vm1, to, asset. split; [exact E|]. apply Hc.
  - apply NoDup_singleton.
  - apply list_elem_of_singleton. reflexivity.
  - discriminate.
Defined.

(** ** Transfers *)

Section Transfer.
Context {S : Type} `{Sha256} `{StorageLaws S}.
Implicit Types (vm : Interpreter S).

(** Continue after a part that pays. *)
Lemma pays_then {A B} vm0 Q (m : M S A) R (f : A -> M S B) vm Post :
  pays vm0 Q m R -> vm_wf vm -> money_wf vm -> pay_step vm0 vm -> Q (storage vm) (balances vm) ->
  (forall a vm1, vm_wf vm1 -> money_wf vm1 -> pay_step vm0 vm1 ->
     R a (storage vm1) (balances vm1) ->
     wp (f a) Post (fun e v => local_err e vm0 v) vm1) ->
  wp (mbind_ m f) Post (fun e v => local_err e vm0 v) vm.
Proof.
  intros Hm Hwf Hmo Hp HQ Hf. apply wp_bind. eapply wp_mono; [by apply Hm| |done].
  intros a v (? & ? & ? & ?). by apply Hf.
Qed.

Lemma money_local vm vm' : money_wf vm -> local_step vm vm' -> money_wf vm'.
Proof.
  intros [Hs Hb] Hl. split; [by rewrite (ls_storage _ _ Hl)|by rewrite (ls_balances _ _ Hl)].
Qed.

(** What a transfer of [n] coins does: [vm1] is the state after paying. *)
Record transferred vm (n : Z) vm' vm1 (c : option ContractId) (to : ContractId)
    (asset : AssetId) : Prop := {
  tf_current : current_contract vm = Ok c;
  tf_pay : pay_step vm vm1;
  tf_wf1 : vm_wf vm1;
  tf_money : money_wf vm1;
  tf_amount : n <> 0;
  tf_input : to ∈ input_contracts vm;
  tf_moved : moved c asset n to (storage vm) (balances vm) (storage vm1) (balances vm1);
  tf_wf : vm_wf vm';
  tf_local : local_step vm1 vm';
  tf_receipt : rx_receipts (receipts vm') = rx_receipts (receipts vm) ++
    [Receipt_Transfer (default zeroed c) to n asset (reg vm RegId.PC) (reg vm RegId.IS)]
}.

Lemma pays_internal_context vm0 c Q :
  current_contract vm0 = Ok c ->
  pays vm0 Q internal_context (fun c' s b => Q s b /\ c' = c).
Proof.
  intros Hc vm Hwf Hm Hp HQ. unfold internal_context, internal_contract. do 2 wp_step.
  rewrite (current_contract_pay vm0 vm Hp), Hc. cbn. by destruct c.
Qed.

(** The last part of a transfer: its receipt and the next instruction. *)
Lemma receipt_next_spec vm r :
  vm_wf vm -> is_plain r -> quiet r ->
  wp (push_receipt r ;;; inc_pc)
    (fun _ v => vm_wf v /\ local_step vm v /\
                rx_receipts (receipts v) = rx_receipts (receipts vm) ++ [r])
    (fun e v => local_err e vm v) vm.
Proof.
  intros Hwf Hr Hq.
  assert (Hs : safe any (push_receipt (S := S) r ;;; inc_pc)).
  { eapply safe_bind; [by apply safe_push_receipt|intros _ _]. apply safe_inc_pc. }
  specialize (Hs vm Hwf I).
  pose proof (push_receipt_spec vm r (wf_receipts _ Hwf) (wf_receipts_len _ Hwf) Hr) as Hp.
  unfold wp, mbind_ in *. destruct (push_receipt r vm) as [[[]| |] v1]; try done.
  destruct Hp as (rx & -> & _ & Hrx & _).
  unfold inc_pc, mbind_, get_reg, gets, lift_panic, lift, checked_add in *.
  case_if; cbn in Hs |- *; [|done]. destruct Hs as (? & ? & _). by split_and!.
Qed.

Lemma pays_mem_read_bytes vm0 (Q : S -> RuntimeBalances -> Prop) a n :
  u64_ok a -> 0 <= n -> pays vm0 Q (mem_read_bytes a n) (fun _ => Q).
Proof.
  intros Ha Hn vm Hwf Hm Hp HQ.
  pose proof (pays_pure vm0 Q _ _ (mem_read_bytes_pure a n) (safe_mem_read_bytes a n Ha Hn)) as Hr.
  eapply wp_mono; [by apply Hr| |done]. intros bs v (? & ? & ? & ? & _). by split_and!.
Qed.

(** Failing to read the identity is a memory error, never mistaken for the external context. *)
Lemma current_contract_error vm e :
  vm_wf vm -> current_contract vm = Err e -> e <> ExpectedInternalContext.
Proof.
  intros Hwf. unfold current_contract. case_if; [|done].
  pose proof (wf_reg_u64 vm RegId.FP Hwf) as [Hfp _].
  rewrite read_bytes_eq by (apply Hwf || done).
  destruct (decide (accessible (memory vm) (reg vm RegId.FP) 32)) as [Ha|Ha].
  - destruct (read_Ok _ _ _ (wf_mem _ Hwf) Ha) as (bs & -> & _). done.
  - rewrite read_Err by done. case_if; cbn; intros [= <-]; done.
Qed.

Lemma transfer_spec vm p n q :
  vm_wf vm -> money_wf vm -> u64_ok p -> u64_ok n -> u64_ok q ->
  wp (transfer p n q)
    (fun _ vm' => exists vm1 c to asset, transferred vm n vm' vm1 c to asset)
    (fun e vm' => local_err e vm vm') vm.
Proof.
  intros Hwf Hm Hp Hn Hq. destruct (wf_costs _ Hwf) as [Hwc _].
  pose proof (current_contract_spec vm Hwf) as Hcs.
  unfold transfer, get_word_cost. do 2 wp_step.
  eapply (pays_then vm (fun s b => s = storage vm /\ b = balances vm));
    [by apply pays_mem_read_bytes|done..|]. intros to v1 Hwf1 Hm1 Hp1 HQ1.
  eapply (pays_then vm (fun s b => s = storage vm /\ b = balances vm));
    [by apply pays_mem_read_bytes|done..|].
  clear v1 Hwf1 Hm1 Hp1 HQ1. intros asset v1 Hwf1 Hm1 Hp1 HQ1.
  eapply (pays_then vm (fun s b => s = storage vm /\ b = balances vm));
    [apply pays_check|done..|].
  clear v1 Hwf1 Hm1 Hp1 HQ1. intros _ v1 Hwf1 Hm1 Hp1 [HQ1 Hin]. case_if; zbool.
  { apply wp_merr. eapply pay_step_err; [done|by apply wf_err]. }
  destruct (current_contract vm) as [c|e|] eqn:Hc; [| |done].
  2:{ apply wp_bind. unfold internal_context, internal_contract. do 2 wp_step.
      rewrite (current_contract_pay vm v1 Hp1), Hc. cbn.
      pose proof (current_contract_error vm e Hwf Hc).
      destruct e; try done; (eapply pay_step_err; [done|by apply wf_err]). }
  eapply (pays_then vm (fun s b => s = storage vm /\ b = balances vm));
    [by apply pays_internal_context|done..|].
  clear v1 Hwf1 Hm1 Hp1 HQ1. intros c' v1 Hwf1 Hm1 Hp1 [HQ1 ->].
  eapply pays_then; [apply pays_debit; [|done]|done..|exact HQ1|].
  { by destruct c; [rewrite bool_decide_true by done; apply Hcs|rewrite bool_decide_false]. }
  clear v1 Hwf1 Hm1 Hp1 HQ1. intros [] v2 Hwf2 Hm2 Hp2 Hd.
  eapply pays_then; [by apply pays_increase|done..|exact Hd|].
  clear v2 Hwf2 Hm2 Hp2 Hd. intros created v2 Hwf2 Hm2 Hp2 Hmv.
  eapply pays_then; [apply pays_new_entry; apply Hwc|done..|exact Hmv|].
  clear v2 Hwf2 Hm2 Hp2 Hmv. intros [] v1 Hwf1 Hm1 Hp1 Hmv. do 4 wp_step.
  eapply wp_mono; [by apply receipt_next_spec| |intros e v; by apply pay_step_err].
  intros [] v (Hwf2 & Hl & Hrx). exists v1, c, to, asset. split; try done.
  by rewrite Hrx, (ps_receipts _ _ Hp1), !(ps_regs _ _ Hp1).
Qed.
End Transfer.

(** C21: A transfer moves coins and nothing else. If [transfer] succeeds, the amount is not
    zero, the recipient is one of the declared inputs, the receipt it appends names the
    running contract, the recipient, the asset and the amount, and exactly that amount of
    that asset moved from the running contract's balance (the script's free balance in the
    external context) to the recipient: no coin of any asset is created or destroyed and no
    bystander's balance changes. *)
Theorem transfer_conserves_assets {S} `{Sha256} `{StorageLaws S} (vm vm1 : Interpreter S) p n q :
  vm_wf vm -> money_wf vm -> call_inv vm -> u64_ok p -> u64_ok n -> u64_ok q ->
  transfer p n q vm = (Ok tt, vm1) ->
  let source := f_to <$> head (frames vm) in
  exists to asset,
    n <> 0 /\ to ∈ input_contracts vm /\
    rx_receipts (receipts vm1) = rx_receipts (receipts vm) ++
      [Receipt_Transfer (default zeroed source) to n asset (reg vm RegId.PC) (reg vm RegId.IS)] /\
    money_wf vm1 /\
    conserves source asset n to (storage vm) (balances vm) (storage vm1) (balances vm1).
Proof.
  intros Hwf Hm Hcv Hp Hn Hq Ht source.
  pose proof (transfer_spec vm p n q Hwf Hm Hp Hn Hq) as Hs. unfold wp in Hs. rewrite Ht in Hs.
  destruct Hs as (v & c & to & asset & []). rewrite call_inv_current in * by done.
  injection tf_current0 as <-. pose proof (money_local _ _ tf_money0 tf_local0) as Hm1.
  exists to, asset. do 4 (split; [done|]).
  rewrite (ls_storage _ _ tf_local0), (ls_balances _ _ tf_local0). by apply moved_conserves.
Qed.

Lemma transfer_conserves_assets_witness :
  exists vm1 to asset, transfer 8 30 8 vm_script = (Ok tt, vm1) /\
    total (storage vm1) asset [to] + free (balances vm1) asset =
    total (storage vm_script) asset [to] + free (balances vm_script) asset.
Proof.
  destruct (succeeds_Ok (transfer 8 30 8) vm_script) as ([] & vm1 & E);
    [vm_compute; reflexivity|].
  destruct (transfer_conserves_assets vm_script vm1 8 30 8 vm_script_wf vm_script_money
    vm_script_inv (u64_ok_compute 8 eq_refl) (u64_ok_compute 30 eq_refl)
    (u64_ok_compute 8 eq_refl) E) as (to & asset & _ & _ & _ & _ & Hc & _).
  exists vm1, to, asset. split; [exact E|]. apply Hc.
  - apply NoDup_singleton.
  - apply list_elem_of_singleton. reflexivity.
  - discriminate.
Defined.

(** C22: Charging gas is exact and never touches what callers reserved. The same amount leaves
    the context gas and the global gas; if the context cannot pay, exactly its own gas is
    burnt and the instruction panics with [OutOfGas]. Either way the state stays well-formed,
    the difference between the two registers is the gas reserved by the active frames, and
    nothing but the two gas registers changes. *)
Theorem gas_charge_exact {S} `{Sha256} (vm : Interpreter S) (gas : Z) :
  vm_wf vm -> 0 <= gas ->
  exists vm', gas_charge gas vm =
      (if gas <=? reg vm RegId.CGAS then Ok tt else Err (Recoverable OutOfGas), vm') /\
    vm_wf vm' /\
    reg vm' RegId.CGAS = reg vm RegId.CGAS - Z.min gas (reg vm RegId.CGAS) /\
    reg vm' RegId.GGAS = reg vm RegId.GGAS - Z.min gas (reg vm RegId.CGAS) /\
    reg vm' RegId.GGAS - reg vm' RegId.CGAS = frames_gas (frames vm) /\
    (forall i, i <> RegId.CGAS -> i <> RegId.GGAS -> reg vm' i = reg vm i) /\
    memory vm' = memory vm /\ frames vm' = frames vm /\ storage vm' = storage vm /\
    receipts vm' = receipts vm.
Proof.
  intros Hwf Hg. set (n := Z.min gas (reg vm RegId.CGAS)).
  pose proof (wf_reg_u64 vm RegId.CGAS Hwf) as Hc. unfold u64_ok in Hc.
  pose proof (wf_regs _ Hwf) as [Hl _]. pose proof (wf_gas _ Hwf).
  exists (set_gas_regs vm (reg vm RegId.CGAS - n) (reg vm RegId.GGAS - n)).
  split; [|split; [apply wf_set_gas_regs; [done|lia]|]].
  - rewrite gas_charge_eq by done. case_if; subst n.
    + by rewrite Z.min_l by lia.
    + by rewrite Z.min_r, Z.sub_diag by lia.
  - rewrite !reg_set_gas_regs by done. reg_eqb. split_and!; try done; [lia|].
    intros i ? ?. rewrite reg_set_gas_regs by done. by repeat case_if.
Qed.

Lemma gas_charge_exact_witness :
  exists vm', gas_charge 1001 vm_script = (Err (Recoverable OutOfGas), vm') /\
    reg vm' RegId.CGAS = 0 /\ reg vm' RegId.GGAS = 0.
Proof.
  destruct (gas_charge_exact vm_script 1001 vm_script_wf ltac:(discriminate))
    as (vm' & E & _ & Hc & Hg & _).
  exists vm'. split; [exact E|]. rewrite Hc, Hg. split; reflexivity.
Defined.
