(* ===== verification/Blockchain.v ===== *)
(** * Blockchain and blob instructions

    The handlers of src/fuel-vm/src/interpreter/blockchain.rs and blob.rs: block information,
    contract code (size, root, copy, load), contract state, minting and burning, message
    outputs, and blobs, with [copy_from_storage_zero_fill] of interpreter/memory.rs and
    [Contract::root_from_code] of fuel-tx/src/contract.rs. *)

From Stdlib Require Import Strings.Byte.
From S2P Require Import Prelude Asm Merkle Receipts Memory State Gas Alu MemOps Storage Flow.

(** [convert::to_usize]: values beyond 32 bits are refused on every platform. *)
Definition to_usize (value : Z) : option Z := try_u32 value.

(** [padded_len_word] (fuel-types bytes.rs) *)
Definition padded_len_word (len : Z) : option Z :=
  let modulo := len mod WORD_SIZE in
  if modulo =? 0 then Some len else checked_add len (WORD_SIZE - modulo).

(** [slice.chunks(n)] *)
Fixpoint chunks_fuel {A} (fuel : nat) (n : nat) (l : list A) : list (list A) :=
  match fuel, l with
  | O, _ | _, [] => []
  | Datatypes.S fuel, _ => take n l :: chunks_fuel fuel n (drop n l)
  end.
Definition chunks {A} (n : Z) (l : list A) : list (list A) :=
  chunks_fuel (length l) (Z.to_nat n) l.

(** [slice.chunks_exact(n)]: an incomplete last chunk is left out. *)
Definition chunks_exact {A} (n : Z) (l : list A) : list (list A) :=
  filter (fun c => zlen c = n) (chunks n l).

(** ** The code root of a contract (contract.rs) *)

Definition LEAF_SIZE : Z := 16 * 1024.
Definition MULTIPLE : Z := 8.

Definition code_leaf (leaf : list byte) : list byte :=
  let len := zlen leaf in
  if (len =? LEAF_SIZE) || (len mod MULTIPLE =? 0) then leaf
  else leaf ++ replicate (Z.to_nat (MULTIPLE - len mod MULTIPLE)) x00.

Definition root_from_code `{Sha256} (bytes : list byte)
  : outcome Position.GetNodeError (list byte) :=
  root_from_iterator (map code_leaf (chunks LEAF_SIZE bytes)).

(** [ContractIdExt::asset_id] (fuel-tx lib.rs) *)
Definition contract_asset_id `{Sha256} (c : ContractId) (sub_id : Bytes32) : AssetId :=
  sha256 (c ++ sub_id).

(** [Receipt::message_out] (receipt.rs) with the nonce and digest of output.rs *)
Definition message_nonce `{Sha256} (txid : Bytes32) (idx : Z) : Bytes32 :=
  sha256 (txid ++ enc_word idx).
Definition receipt_message_out `{Sha256} (txid : Bytes32) (idx : Z) (sender recipient : Bytes32)
    (amount : Z) (data : list byte) : Receipt :=
  Receipt_MessageOut sender recipient amount (message_nonce txid idx) (zlen data) (sha256 data)
    (Some data).

(** The copy of [copy_from_storage_zero_fill]; [rd offset len] reads the stored value. *)
Definition copy_from_storage_zero_fill (rd : Z -> Z -> option (option (list byte)))
    (m : MemoryInstance) (owner : OwnershipRegisters) (dst_addr dst_len src_offset src_len : Z)
    (not_found_error : PanicReason) : outcome RuntimeError MemoryInstance :=
  let? write_buffer := omap_err Recoverable (write m owner dst_addr dst_len) in
  let? '(m, empty_offset) :=
    if src_offset <? src_len then
      let? src_offset := ok_or (try_u32 src_offset) (Recoverable MemoryOverflow) in
      let src_read_length := saturating_sub src_len src_offset in
      let src_read_length := Z.min src_read_length (slice_len write_buffer) in
      let? parts := omap_err Recoverable (split_at_mut write_buffer src_read_length) in
      let? found := storage_result (rd src_offset src_read_length) in
      let? bs := ok_or found (Recoverable not_found_error) in
      let? m := omap_err Recoverable (slice_copy_from_slice m (fst parts) bs) in
      Ok (m, src_read_length)
    else Ok (m, 0) in
  let? parts := omap_err Recoverable (split_at_mut write_buffer empty_offset) in
  omap_err Recoverable (slice_fill m (snd parts) x00).

Section Handlers.
Context {S : Type} `{Sha256} `{InterpreterStorage S}.

(** Run a fallible memory update that may consult the storage. *)
Definition update_memory_from (f : S -> MemoryInstance -> outcome RuntimeError MemoryInstance)
  : M S unit :=
  fun vm =>
    match f (storage vm) (memory vm) with
    | Ok m => (Ok tt, set_memory vm m)
    | Err e => (Err e, vm)
    | Crash => (Crash, vm)
    end.

Definition copy_contract (owner : OwnershipRegisters) (dst_addr dst_len : Z)
    (contract_id : ContractId) (src_offset src_len : Z) : M S unit :=
  update_memory_from (fun s m =>
    copy_from_storage_zero_fill (storage_contract_read s contract_id) m owner dst_addr dst_len
      src_offset src_len ContractNotFound).

Definition copy_blob (owner : OwnershipRegisters) (dst_addr dst_len : Z)
    (blob_id : BlobId) (src_offset src_len : Z) : M S unit :=
  update_memory_from (fun s m =>
    copy_from_storage_zero_fill (storage_blob_read s blob_id) m owner dst_addr dst_len
      src_offset src_len BlobNotFound).

Definition get_internal_contract : M S ContractId :=
  c <- gets internal_contract ;; lift_panic c.

Definition get_contract_size (c : ContractId) : M S Z :=
  s <- gets storage ;; lift (contract_size s c).
Definition get_blob_size (b : BlobId) : M S Z :=
  s <- gets storage ;; lift (blob_size_of s b).

(** ** Loading code: LDC *)

(** Grow the stack by [length] bytes at [$ssp]; returns the ownership registers that allow
    writing there. *)
Definition ldc_grow (length : Z) : M S (OwnershipRegisters * Z) :=
  ssp <- get_reg RegId.SSP ;;
  let new_sp := saturating_add ssp length in
  update_memory (fun m => grow_stack m new_sp) ;;;
  hp <- get_reg RegId.HP ;;
  mret (only_allow_stack_write new_sp ssp hp, new_sp).

(** Mark the stack space as allocated. *)
Definition ldc_allocate (new_sp : Z) : M S unit :=
  put_reg RegId.SP new_sp ;;; put_reg RegId.SSP new_sp.

(** Update the code size in the frame header, if there is a frame; [pad] says what happens
    when padding overflows. *)
Definition ldc_frame_size (pad : Z -> outcome RuntimeError Z) (length : Z) : M S unit :=
  c <- gets context ;;
  if context_is_internal c then
    fp <- get_reg RegId.FP ;;
    let code_size_ptr := saturating_add fp code_size_offset in
    bs <- mem_read_bytes code_size_ptr 8 ;;
    old_code_size <- lift (pad (from_be_bytes bs)) ;;
    new_code_size <- lift_panic (ok_or (checked_add old_code_size length) MemoryOverflow) ;;
    update_memory (fun m => write_bytes_noownerchecks m code_size_ptr (to_be_bytes 8 new_code_size))
  else mret tt.

Definition pad_or_panic (len : Z) : outcome RuntimeError Z :=
  ok_or (padded_len_word len) (Recoverable MemoryOverflow).
Definition pad_or_crash (len : Z) : outcome RuntimeError Z := expect (padded_len_word len).

Definition load_contract_code (gas_cost : DependentCost)
    (contract_id_addr contract_offset length_unpadded : Z) : M S unit :=
  ssp <- get_reg RegId.SSP ;;
  sp <- get_reg RegId.SP ;;
  c <- gets context ;;
  if context_is_predicate c then mpanic ContractInstructionNotAllowed
  else if negb (ssp =? sp) then mpanic ExpectedUnallocatedStack
  else
    contract_id <- mem_read_bytes contract_id_addr 32 ;;
    length <- lift_panic (ok_or (padded_len_word length_unpadded) MemoryOverflow) ;;
    contract_max_size <- gets (fun vm => contract_max_size (interpreter_params vm)) ;;
    if contract_max_size <? length then mpanic ContractMaxSize
    else
      check_contract_in_inputs contract_id ;;;
      contract_len <- get_contract_size contract_id ;;
      dependent_gas_charge_without_base gas_cost (Z.max contract_len length) ;;;
      grown <- ldc_grow length ;;
      ldc_allocate (snd grown) ;;;
      copy_contract (fst grown) ssp length contract_id contract_offset contract_len ;;;
      ldc_frame_size pad_or_panic length ;;;
      inc_pc.

Definition load_blob_code (gas_cost : DependentCost) (blob_id_addr blob_offset length_unpadded : Z)
  : M S unit :=
  ssp <- get_reg RegId.SSP ;;
  sp <- get_reg RegId.SP ;;
  if negb (ssp =? sp) then mpanic ExpectedUnallocatedStack
  else
    blob_id <- mem_read_bytes blob_id_addr 32 ;;
    let length := default (U64 - 1) (padded_len_word length_unpadded) in
    blob_len <- get_blob_size blob_id ;;
    dependent_gas_charge_without_base gas_cost (Z.max blob_len length) ;;;
    grown <- ldc_grow length ;;
    ldc_allocate (snd grown) ;;;
    copy_blob (fst grown) ssp length blob_id blob_offset blob_len ;;;
    ldc_frame_size pad_or_crash length ;;;
    inc_pc.

Definition load_memory_code (gas_cost : DependentCost)
    (input_src_addr input_offset length_unpadded : Z) : M S unit :=
  ssp <- get_reg RegId.SSP ;;
  sp <- get_reg RegId.SP ;;
  if negb (ssp =? sp) then mpanic ExpectedUnallocatedStack
  else if length_unpadded =? 0 then inc_pc
  else
    let length := default (U64 - 1) (padded_len_word length_unpadded) in
    let length_padding := saturating_sub length length_unpadded in
    dependent_gas_charge_without_base gas_cost length ;;;
    grown <- ldc_grow length ;;
    let owner := fst grown in
    let src := saturating_add input_src_addr input_offset in
    update_memory (fun m => memcopy m ssp src length_unpadded owner) ;;;
    (if 0 <? length_padding then
       update_memory (fun m =>
         let? s := write m owner (saturating_add ssp length_unpadded) length_padding in
         slice_fill m s x00)
     else mret tt) ;;;
    ldc_allocate (snd grown) ;;;
    ldc_frame_size pad_or_crash length ;;;
    inc_pc.

Definition load_code (addr offset length_unpadded mode : Z) : M S unit :=
  gas_cost <- get_dep_cost d_ldc ;;
  gas_charge (cost_base gas_cost) ;;;
  if mode =? 0 then load_contract_code gas_cost addr offset length_unpadded
  else if mode =? 1 then load_blob_code gas_cost addr offset length_unpadded
  else if mode =? 2 then load_memory_code gas_cost addr offset length_unpadded
  else mpanic InvalidImmediateValue.

(** ** Minting and burning *)

Definition burn (a b : Z) : M S unit :=
  contract_id <- get_internal_contract ;;
  sub_id <- mem_read_bytes b 32 ;;
  let asset_id := contract_asset_id contract_id sub_id in
  update_storage (fun s =>
    let? bal := balance s contract_id asset_id in
    let? bal := ok_or (checked_sub bal a) (Recoverable NotEnoughBalance) in
    let? s := storage_result (contract_asset_id_balance_insert s contract_id asset_id bal) in
    Ok (tt, s)) ;;;
  pc <- get_reg RegId.PC ;;
  is_ <- get_reg RegId.IS ;;
  push_receipt (Receipt_Burn sub_id contract_id a pc is_) ;;;
  inc_pc.

Definition mint (a b : Z) : M S unit :=
  new_storage_gas_per_byte <- get_word_cost g_new_storage_per_byte ;;
  contract_id <- get_internal_contract ;;
  sub_id <- mem_read_bytes b 32 ;;
  let asset_id := contract_asset_id contract_id sub_id in
  old_value <- update_storage (fun s =>
    let? bal := balance s contract_id asset_id in
    let? bal := ok_or (checked_add bal a) (Recoverable BalanceOverflow) in
    storage_result (contract_asset_id_balance_replace s contract_id asset_id bal)) ;;
  charge_new_entry new_storage_gas_per_byte (match old_value with None => true | Some _ => false end) ;;;
  pc <- get_reg RegId.PC ;;
  is_ <- get_reg RegId.IS ;;
  push_receipt (Receipt_Mint sub_id contract_id a pc is_) ;;;
  inc_pc.

(** ** Contract code and blobs *)

Definition code_copy (dst_addr contract_id_addr contract_offset length : Z) : M S unit :=
  gas_cost <- get_dep_cost d_ccp ;;
  gas_charge (cost_base gas_cost) ;;;
  owner <- gets ownership_registers ;;
  contract_id <- mem_read_bytes contract_id_addr 32 ;;
  m <- gets memory ;;
  lift_panic (write m owner dst_addr length) ;;;
  check_contract_in_inputs contract_id ;;;
  contract_len <- get_contract_size contract_id ;;
  dependent_gas_charge_without_base gas_cost (Z.max contract_len length) ;;;
  copy_contract owner dst_addr length contract_id contract_offset contract_len ;;;
  inc_pc.

Definition code_root (a b : Z) : M S unit :=
  gas_cost <- get_dep_cost d_croo ;;
  gas_charge (cost_base gas_cost) ;;;
  owner <- gets ownership_registers ;;
  m <- gets memory ;;
  lift_panic (write_noownerchecks m a 32) ;;;
  contract_id <- mem_read_bytes b 32 ;;
  check_contract_in_inputs contract_id ;;;
  len <- get_contract_size contract_id ;;
  dependent_gas_charge_without_base gas_cost len ;;;
  s <- gets storage ;;
  code <- lift (let? c := storage_result (storage_contract s contract_id) in
                ok_or c (Recoverable ContractNotFound)) ;;
  root <- lift (match root_from_code code with Ok r => Ok r | _ => Crash end) ;;
  update_memory (fun m => write_bytes m owner a root) ;;;
  inc_pc.

Definition code_size (ra b : Z) : M S unit :=
  gas_cost <- get_dep_cost d_csiz ;;
  gas_charge (cost_base gas_cost) ;;;
  result <- lift_panic (write_reg_key ra) ;;
  contract_id <- mem_read_bytes b 32 ;;
  check_contract_in_inputs contract_id ;;;
  len <- get_contract_size contract_id ;;
  dependent_gas_charge_without_base gas_cost len ;;;
  put_reg result len ;;;
  inc_pc.

Definition blob_size (dst blob_id_ptr : Z) : M S unit :=
  gas_cost <- get_dep_cost d_bsiz ;;
  gas_charge (cost_base gas_cost) ;;;
  blob_id <- mem_read_bytes blob_id_ptr 32 ;;
  size <- get_blob_size blob_id ;;
  dependent_gas_charge_without_base gas_cost size ;;;
  result <- lift_panic (write_reg_key dst) ;;
  put_reg result size ;;;
  inc_pc.

Definition blob_load_data (dst_ptr blob_id_ptr blob_offset len : Z) : M S unit :=
  gas_cost <- get_dep_cost d_bldd ;;
  gas_charge (cost_base gas_cost) ;;;
  blob_id <- mem_read_bytes blob_id_ptr 32 ;;
  owner <- gets ownership_registers ;;
  blob_len <- get_blob_size blob_id ;;
  dependent_gas_charge_without_base gas_cost (Z.max len blob_len) ;;;
  copy_blob owner dst_ptr len blob_id blob_offset blob_len ;;;
  inc_pc.

(** ** Block information *)

Definition block_hash (a b : Z) : M S unit :=
  owner <- gets ownership_registers ;;
  height <- lift_panic (ok_or (try_u32 b) InvalidBlockHeight) ;;
  s <- gets storage ;;
  hash <- lift (storage_result (block_hash_at s height)) ;;
  update_memory (fun m => write_bytes m owner a hash) ;;;
  inc_pc.

Definition block_height (ra : Z) : M S unit :=
  result <- lift_panic (write_reg_key ra) ;;
  c <- gets context ;;
  h <- lift_panic (ok_or (context_block_height c) TransactionValidity) ;;
  put_reg result h ;;;
  inc_pc.

Definition coinbase (a : Z) : M S unit :=
  owner <- gets ownership_registers ;;
  s <- gets storage ;;
  id <- lift (storage_result (storage_coinbase s)) ;;
  update_memory (fun m => write_bytes m owner a id) ;;;
  inc_pc.

Definition timestamp (ra b : Z) : M S unit :=
  c <- gets context ;;
  height <- lift_panic (ok_or (context_block_height c) TransactionValidity) ;;
  result <- lift_panic (write_reg_key ra) ;;
  b <- lift_panic (ok_or (try_u32 b) InvalidBlockHeight) ;;
  if height <? b then mpanic TransactionValidity
  else
    s <- gets storage ;;
    t <- lift (storage_result (timestamp_at s b)) ;;
    put_reg result t ;;;
    inc_pc.

(** ** Contract state *)

Definition state_read_word (ra rb c : Z) : M S unit :=
  result <- lift_panic (write_reg_key ra) ;;
  got_result <- lift_panic (write_reg_key rb) ;;
  if result =? got_result then mpanic ReservedRegisterNotWritable
  else
    key <- mem_read_bytes c 32 ;;
    contract <- get_internal_contract ;;
    s <- gets storage ;;
    slot <- lift (storage_result (contract_state s contract key)) ;;
    value <- match slot with
             | Some bytes =>
                 bs <- lift (index_range bytes 0 8) ;;
                 mret (Some (from_be_bytes bs))
             | None => mret None
             end ;;
    put_reg result (default 0 value) ;;;
    put_reg got_result (bool_word (bool_decide (is_Some value))) ;;;
    inc_pc.

Definition state_write_word (a rb c : Z) : M S unit :=
  new_storage_gas_per_byte <- get_word_cost g_new_storage_per_byte ;;
  created_new <- lift_panic (write_reg_key rb) ;;
  key <- mem_read_bytes a 32 ;;
  contract <- get_internal_contract ;;
  let value := to_be_bytes 8 c ++ replicate 24 x00 in
  prev <- update_storage (fun s => storage_result (contract_state_replace s contract key value)) ;;
  put_reg created_new (bool_word (bool_decide (prev = None))) ;;;
  (if bool_decide (prev = None) then
     gas_charge (saturating_mul (saturating_mul 32 2) new_storage_gas_per_byte)
   else mret tt) ;;;
  inc_pc.

Definition state_read_qword (destination_pointer rb origin_key_pointer num_slots : Z) : M S unit :=
  owner <- gets ownership_registers ;;
  result <- lift_panic (write_reg_key rb) ;;
  contract_id <- get_internal_contract ;;
  num_slots <- lift_panic (ok_or (to_usize num_slots) TooManySlots) ;;
  let slots_len := saturating_mul 32 num_slots in
  origin_key <- mem_read_bytes origin_key_pointer 32 ;;
  m <- gets memory ;;
  dst <- lift_panic (write m owner destination_pointer slots_len) ;;
  s <- gets storage ;;
  slots <- lift (storage_result (contract_state_range s contract_id origin_key num_slots)) ;;
  put_reg result (bool_word (forallb (fun o => bool_decide (is_Some o)) slots)) ;;;
  update_memory (fun m => slice_copy_from_slice m dst (concat (map (default zeroed) slots))) ;;;
  inc_pc.

Definition state_write_qword (starting_storage_key_pointer rb source_pointer num_slots : Z)
  : M S unit :=
  new_storage_per_byte <- get_word_cost g_new_storage_per_byte ;;
  result <- lift_panic (write_reg_key rb) ;;
  contract_id <- get_internal_contract ;;
  destination_key <- mem_read_bytes starting_storage_key_pointer 32 ;;
  bs <- mem_read source_pointer (saturating_mul 32 num_slots) ;;
  unset_count <- update_storage (fun s =>
    storage_result (contract_state_insert_range s contract_id destination_key (chunks_exact 32 bs))) ;;
  put_reg result unset_count ;;;
  (if 0 <? unset_count then
     gas_charge (saturating_mul (saturating_mul (saturating_mul unset_count 2) 32)
                   new_storage_per_byte)
   else mret tt) ;;;
  inc_pc.

Definition state_clear_qword (start_storage_key_pointer rb num_slots : Z) : M S unit :=
  result <- lift_panic (write_reg_key rb) ;;
  num_slots <- lift_panic (ok_or (to_usize num_slots) TooManySlots) ;;
  contract_id <- get_internal_contract ;;
  start_key <- mem_read_bytes start_storage_key_pointer 32 ;;
  all_previously_set <- update_storage (fun s =>
    storage_result (contract_state_remove_range s contract_id start_key num_slots)) ;;
  put_reg result (bool_word all_previously_set) ;;;
  inc_pc.

(** ** Messages *)

Definition message_output (recipient_mem_address msg_data_ptr msg_data_len amount : Z) : M S unit :=
  params <- gets interpreter_params ;;
  current <- gets (fun vm => f_to <$> head (frames vm)) ;;
  if max_message_data_length params <? msg_data_len then mpanic MessageDataTooLong
  else
    msg_data <- mem_read msg_data_ptr msg_data_len ;;
    recipient <- mem_read_bytes recipient_mem_address 32 ;;
    fp <- get_reg RegId.FP ;;
    sender <- mem_read_bytes fp 32 ;;
    debit current (base_asset_id params) amount ;;;
    txid <- (m <- gets memory ;;
             lift (match read_bytes m 0 32 with Ok bs => Ok bs | _ => Crash end)) ;;
    rx <- gets receipts ;;
    push_receipt (receipt_message_out txid (zlen (rx_receipts rx)) sender recipient amount msg_data) ;;;
    inc_pc.
End Handlers.
