(* ===== verification/BlockchainSafe.v ===== *)
(** * Blockchain instructions preserve the invariants

    Handlers that only read the storage are local steps; the triples [kept] of this file add
    to [local] that the storage is well-formed and that the ownership registers a handler
    captured are still current. Minting, burning, messages and state updates are payments in
    the sense of [pay_step] followed by a local part; loading code moves the stack start. *)

From Stdlib Require Import Strings.Byte.
From S2P Require Import Prelude Asm Merkle Receipts Memory State Gas Alu MemOps Storage Flow.
From S2P Require Import Calls Blockchain.

(** ** Local handlers that read the storage *)

Section Kept.
Context {S : Type} `{Sha256} `{StorageLaws S}.
Implicit Types (vm : Interpreter S) (o : OwnershipRegisters).

Definition kept {A} o (P : A -> Prop) (m : M S A) : Prop :=
  local (fun vm => storage_wf (storage vm) /\ ownership_registers vm = o) m
        (fun a vm => P a /\ ownership_registers vm = o).

(** No ownership registers are captured yet. *)
Definition stored {A} (P : A -> Prop) (m : M S A) : Prop :=
  local (fun vm => storage_wf (storage vm)) m (fun a _ => P a).

Lemma stored_kept {A} (P : A -> Prop) (m : M S A) : (forall o, kept o P m) -> stored P m.
Proof.
  intros Hm vm Hwf Hs. eapply wp_mono; [by apply (Hm _ vm Hwf (conj Hs eq_refl))| |done].
  intros a v (? & ? & ? & ?). done.
Qed.

Lemma stored_safe {A} (P : A -> Prop) (m : M S A) : safe P m -> stored P m.
Proof. intros Hm. by eapply local_conseq. Qed.

Lemma kept_held {A} o (P : A -> Prop) (m : M S A) : held o P m -> kept o P m.
Proof. intros Hm. eapply local_conseq; [exact Hm|naive_solver|done]. Qed.

Lemma kept_bind {A B} o (P : A -> Prop) (Q : B -> Prop) (m : M S A) (f : A -> M S B) :
  kept o P m -> (forall a, P a -> kept o Q (f a)) -> kept o Q (mbind_ m f).
Proof.
  intros Hm Hf vm Hwf [Hs Ho]. apply wp_bind. eapply wp_mono; [by apply Hm| |done].
  intros a v (Hwf1 & Hl1 & Ha & Ho1). eapply wp_mono.
  - apply (Hf a Ha v Hwf1). split; [by rewrite (ls_storage _ _ Hl1)|done].
  - intros b v2 (? & ? & ?). split_and!; [done|by etrans|naive_solver..].
  - intros e v2. by apply local_step_err.
Qed.

Lemma kept_mret {A} o (P : A -> Prop) (a : A) : P a -> kept o P (mret a).
Proof. intros HP vm Hwf [_ Ho]. apply wp_mret. by split_and!. Qed.

Lemma kept_mpanic {A} o (P : A -> Prop) r : kept o P (mpanic r).
Proof. apply local_mpanic. Qed.

(** A computation that leaves the state alone and fails, if it does, with a panic or a
    storage error. *)
Lemma kept_gets_lift {A} o (P : A -> Prop) (f : Interpreter S -> outcome RuntimeError A) :
  (forall vm, vm_wf vm -> storage_wf (storage vm) -> ownership_registers vm = o ->
     match f vm with Ok a => P a | Err (Bug _) | Crash => False | Err _ => True end) ->
  kept o P (x <- gets f ;; lift x).
Proof.
  intros HP vm Hwf [Hs Ho]. specialize (HP vm Hwf Hs Ho). do 2 wp_step. apply wp_lift.
  destruct (f vm) as [a|[r|b|]|]; try done; destruct (wf_err vm OutOfGas Hwf); by split.
Qed.

Lemma kept_lift {A} o (P : A -> Prop) (x : outcome RuntimeError A) :
  match x with Ok a => P a | Err (Bug _) | Crash => False | Err _ => True end ->
  kept o P (lift x).
Proof. intros Hx. apply (kept_gets_lift o P (fun _ => x)). done. Qed.

Lemma kept_lift_panic {A} o (P : A -> Prop) (x : outcome PanicReason A) :
  match x with Ok a => P a | Err _ => True | Crash => False end -> kept o P (lift_panic x).
Proof. intros Hx. apply kept_lift. by destruct x. Qed.

Lemma kept_gets {A} o (P : A -> Prop) (f : Interpreter S -> A) :
  (forall vm, vm_wf vm -> storage_wf (storage vm) -> ownership_registers vm = o -> P (f vm)) ->
  kept o P (gets f).
Proof. intros HP vm Hwf [Hs Ho]. wp_step. split_and!; auto. done. Qed.

Lemma kept_pure {A} o (P : A -> Prop) (m : M S A) :
  (forall vm, snd (m vm) = vm) -> safe P m -> kept o P m.
Proof. intros Hm Hs. by apply kept_held, held_pure. Qed.

Lemma kept_get_reg o i : kept o u64_ok (get_reg (S := S) i).
Proof. by apply kept_gets; intros; apply wf_reg_u64. Qed.

Lemma kept_put_reg o i v : free_reg i -> u64_ok v -> kept o any (put_reg (S := S) i v).
Proof. intros. by apply kept_held, held_put_reg. Qed.

Lemma kept_write_reg_key o k :
  RegId.ok k -> kept o free_reg (lift_panic (S := S) (write_reg_key k)).
Proof. intros Hk. apply kept_pure; [done|by apply safe_write_reg_key]. Qed.

Lemma kept_inc_pc o : kept o any (inc_pc (S := S)).
Proof.
  unfold inc_pc. eapply kept_bind; [apply kept_get_reg|intros pc Hpc].
  eapply (kept_bind _ u64_ok).
  - apply kept_lift_panic. unfold checked_add, Instruction_SIZE, u64_ok in *. case_if; cbn; lia.
  - intros i Hi. apply kept_put_reg; [apply free_PC|done].
Qed.

Lemma kept_mem_read o a n :
  u64_ok a -> 0 <= n -> kept o (fun bs => zlen bs = n) (mem_read (S := S) a n).
Proof. intros. apply kept_pure; [apply mem_read_pure|by apply safe_mem_read]. Qed.

Lemma kept_mem_read_bytes o a n :
  u64_ok a -> 0 <= n -> kept o (fun bs => zlen bs = n) (mem_read_bytes (S := S) a n).
Proof. intros. apply kept_pure; [apply mem_read_bytes_pure|by apply safe_mem_read_bytes]. Qed.

Lemma ownership_gas vm c g :
  zlen (registers vm) = VM_REGISTER_COUNT ->
  ownership_registers (set_gas_regs vm c g) = ownership_registers vm.
Proof. intros Hl. unfold ownership_registers. by rewrite !reg_set_gas_regs by done. Qed.

Lemma kept_gas_charge o g : 0 <= g -> kept o any (gas_charge (S := S) g).
Proof.
  intros Hg vm Hwf [Hs Ho]. pose proof (local_gas_charge vm g Hwf Hg) as Hc.
  pose proof (wf_regs _ Hwf) as [Hl _]. unfold wp in *. rewrite gas_charge_eq in * by done.
  case_if; [|done]. destruct Hc as (? & ? & _). split_and!; try done. by rewrite ownership_gas.
Qed.

Lemma kept_dep_charge o c arg :
  cost_ok c -> u64_ok arg -> kept o any (dependent_gas_charge_without_base (S := S) c arg).
Proof.
  intros Hc Ha. unfold dependent_gas_charge_without_base.
  destruct (resolve_without_base_ok c arg Hc Ha) as (v & -> & Hv & _).
  eapply (kept_bind _ (fun x => 0 <= x)); [by apply kept_lift|]. intros x Hx. by apply kept_gas_charge.
Qed.

Lemma kept_dep_cost o c : kept o cost_ok (get_dep_cost (S := S) c).
Proof. apply kept_gets. intros vm Hwf _ _. by apply (wf_costs _ Hwf). Qed.

Lemma kept_word_cost o c : kept o u64_ok (get_word_cost (S := S) c).
Proof. apply kept_gets. intros vm Hwf _ _. by apply (wf_costs _ Hwf). Qed.

Lemma cost_base_nonneg c : cost_ok c -> 0 <= cost_base c.
Proof. destruct c; cbn; unfold u64_ok; lia. Qed.

Lemma kept_check o c : kept o any (check_contract_in_inputs (S := S) c).
Proof.
  intros vm Hwf [Hs Ho]. unfold check_contract_in_inputs. do 2 wp_step.
  case_bool_decide; [by apply wp_mret|]. do 3 wp_step.
  destruct (wf_err vm ContractNotInInputs Hwf). by split.
Qed.

Lemma kept_contract_size o c : kept o (fun n => 0 <= n < 2 ^ 63) (get_contract_size c).
Proof.
  apply (kept_gets_lift o _ (fun vm => contract_size (storage vm) c)).
  intros vm _ Hs _. unfold contract_size, storage_result.
  destruct (storage_contract_size (storage vm) c) as [[n|]|] eqn:E; cbn; try done.
  by eapply size_range.
Qed.

Lemma kept_blob_size o b : kept o (fun n => 0 <= n < 2 ^ 63) (get_blob_size b).
Proof.
  apply (kept_gets_lift o _ (fun vm => blob_size_of (storage vm) b)).
  intros vm _ Hs _. unfold blob_size_of, storage_result.
  destruct (storage_blob_size (storage vm) b) as [[n|]|] eqn:E; cbn; try done.
  by eapply blob_range.
Qed.

Lemma kept_internal_contract o : kept o (fun id => zlen id = 32) (get_internal_contract (S := S)).
Proof.
  apply kept_pure; [done|]. intros vm Hwf _. unfold get_internal_contract, internal_contract.
  do 3 wp_step. pose proof (current_contract_spec vm Hwf) as Hc.
  destruct (current_contract vm) as [[id|]|e|]; cbn; [|by apply wf_err..|done].
  split_and!; [done|done|]. apply Hc.
Qed.

Lemma kept_write_bytes o a d :
  0 <= a -> kept o any (update_memory (S := S) (fun m => write_bytes m o a d)).
Proof. intros. by apply kept_held, held_write_bytes. Qed.
End Kept.

(** ** Copying from the storage *)

(** What a zero-filled copy of [n] bytes at [off] of a value of [len] bytes puts in memory. *)
Definition zero_filled (rd : Z -> Z -> option (option (list byte))) (off len n : Z)
    (bs : list byte) : Prop :=
  if off <? len then
    let k := Z.min (len - off) n in
    exists code, rd off k = Some (Some code) /\ zlen code = k /\
      bs = code ++ replicate (Z.to_nat (n - k)) x00
  else bs = replicate (Z.to_nat n) x00.

Lemma zero_fill_spec rd m o a n off len nf :
  mem_wf m -> 0 <= a -> 0 <= n -> 0 <= off ->
  (forall i k bs, 0 <= i -> 0 <= k -> rd i k = Some (Some bs) -> zlen bs = k) ->
  match copy_from_storage_zero_fill rd m o a n off len nf with
  | Ok m' => accessible m a n /\ has_ownership_range o (mkRange a (a + n)) = true /\
      exists bs, zlen bs = n /\ zero_filled rd off len n bs /\ mem_upd m a bs m'
  | Err (Bug _) | Crash => False
  | Err _ => True
  end.
Proof.
  intros Hm Ha Hn Hoff Hrd. unfold copy_from_storage_zero_fill, zero_filled.
  destruct (write m o a n) as [buf|e|] eqn:Ew; cbn [omap_err obind]; [|done|by apply write_no_crash in Ew].
  apply write_inv in Ew as (Hacc & Hown & Hd); [|done..].
  assert (Hl : slice_len buf = n).
  { unfold slice_len. destruct Hd as (_ & _ & Hd). destruct (s_region buf); lia. }
  assert (Hfill : forall m1 k, mem_wf m1 -> same_shape m m1 -> 0 <= k <= n ->
    exists s1 s2 m2, split_at_mut buf k = Ok (s1, s2) /\ slice_denotes m1 s1 a k /\
      slice_fill m1 s2 x00 = Ok m2 /\
      mem_upd m1 (a + k) (replicate (Z.to_nat (n - k)) x00) m2).
  { intros m1 k Hm1 Hsh Hk. pose proof (slice_denotes_shape _ _ _ _ _ Hsh Hd) as Hd1.
    destruct (split_at_mut_spec _ _ _ _ k Hd1) as (s1 & s2 & -> & H1 & H2); [lia|].
    exists s1, s2. unfold slice_fill.
    assert (slice_len s2 = n - k) as ->.
    { unfold slice_len. destruct H2 as (_ & _ & H2). destruct (s_region s2); lia. }
    destruct (slice_copy_Ok m1 s2 _ _ (replicate (Z.to_nat (n - k)) x00) Hm1 H2) as (m2 & -> & Hu);
      [rewrite zlen_replicate; lia|]. by exists m2. }
  destruct (off <? len) eqn:Eo; zbool.
  - unfold try_u32. case_if; cbn [ok_or obind]; [|done].
    unfold saturating_sub. rewrite Hl, Z.max_l by lia. set (k := Z.min (len - off) n).
    destruct (Hfill m k Hm) as (s1 & s2 & _ & Es & Hs1 & _); [done|lia|]. rewrite Es.
    cbn [omap_err obind fst snd]. unfold storage_result.
    destruct (rd off k) as [[code|]|] eqn:Er; cbn [ok_or obind]; [|done..].
    assert (Hc : zlen code = k) by (eapply Hrd; [| |done]; lia).
    destruct (slice_copy_Ok m s1 a k code Hm Hs1 Hc) as (m1 & -> & Hu1). cbn [omap_err obind].
    destruct (Hfill m1 k) as (s1' & s2' & m2 & Es' & _ & Ef & Hu2);
      [by eapply mem_upd_wf|apply Hu1|lia|]. rewrite Es'. cbn [omap_err obind fst snd].
    rewrite Ef. cbn. split_and!; [done|done|]. eexists. split_and!; [|by exists code|].
    + rewrite zlen_app, zlen_replicate, Hc. lia.
    + eapply mem_upd_app; [exact Hu1|]. by rewrite Hc.
  - cbn [obind]. destruct (Hfill m 0 Hm) as (s1 & s2 & m2 & -> & _ & Ef & Hu); [done|lia|].
    cbn [omap_err obind fst snd]. rewrite Ef. cbn. rewrite Z.sub_0_r, Z.add_0_r in Hu.
    split_and!; [done|done|]. exists (replicate (Z.to_nat n) x00).
    split_and!; [rewrite zlen_replicate; lia|done|done].
Qed.

Section LocalHandlers.
Context {S : Type} `{Sha256} `{StorageLaws S}.
Implicit Types (vm : Interpreter S) (o : OwnershipRegisters).

Lemma kept_copy o (f : S -> Z -> Z -> option (option (list byte))) a n off len nf :
  (forall s i k bs, storage_wf s -> 0 <= i -> 0 <= k -> f s i k = Some (Some bs) -> zlen bs = k) ->
  u64_ok a -> u64_ok n -> u64_ok off ->
  kept o any (update_memory_from (fun s m =>
    copy_from_storage_zero_fill (f s) m o a n off len nf)).
Proof.
  intros Hf [Ha _] [Hn _] [Hoff _] vm Hwf [Hs Ho]. unfold wp, update_memory_from.
  pose proof (zero_fill_spec (f (storage vm)) (memory vm) o a n off len nf (wf_mem _ Hwf) Ha Hn Hoff
    (fun i k bs => Hf (storage vm) i k bs Hs)) as Hc.
  destruct (copy_from_storage_zero_fill _ _ _ _ _ _ _ _) as [m'|e|]; [| |done].
  - destruct Hc as (_ & Hown & bs & Hl & _ & Hu).
    destruct (wf_mem_upd vm a bs m' Hwf Hu) as [Hw Hls]; [|by split_and!].
    intros x Hx. rewrite Ho. rewrite <- Hl in Hown. by eapply has_ownership_range_owned.
  - destruct (wf_err vm OutOfGas Hwf). split; try done. by intros b ->.
Qed.

Lemma kept_copy_contract o a n c off len :
  u64_ok a -> u64_ok n -> u64_ok off -> kept o any (copy_contract o a n c off len).
Proof.
  intros. apply (kept_copy o (fun s => storage_contract_read s c)); [|done..].
  intros s i k bs Hs Hi Hk E. exact (read_fills s c i k bs Hs Hi Hk E).
Qed.

Lemma kept_copy_blob o a n b off len :
  u64_ok a -> u64_ok n -> u64_ok off -> kept o any (copy_blob o a n b off len).
Proof.
  intros. apply (kept_copy o (fun s => storage_blob_read s b)); [|done..].
  intros s i k bs Hs Hi Hk E. exact (blob_fills s b i k bs Hs Hi Hk E).
Qed.
End LocalHandlers.

(** Discharge the next operation of a handler under [kept]. *)
Ltac kept_step :=
  lazymatch goal with
  | |- kept _ _ (mbind_ (get_reg _) _) => eapply kept_bind; [apply kept_get_reg|intros ? ?]
  | |- kept _ _ (mbind_ (put_reg _ _) _) =>
      eapply kept_bind; [apply kept_put_reg; eauto with fuel|intros ? _]
  | |- kept _ _ (mbind_ (get_dep_cost _) _) =>
      eapply kept_bind; [apply kept_dep_cost|intros ? ?]
  | |- kept _ _ (mbind_ (get_word_cost _) _) =>
      eapply kept_bind; [apply kept_word_cost|intros ? ?]
  | |- kept _ _ (mbind_ (gas_charge _) _) =>
      eapply kept_bind; [apply kept_gas_charge; eauto with fuel|intros ? _]
  | |- kept _ _ (mbind_ (dependent_gas_charge_without_base _ _) _) =>
      eapply kept_bind; [apply kept_dep_charge; eauto with fuel|intros ? _]
  | |- kept ?o _ (mbind_ (gets ownership_registers) _) =>
      eapply (kept_bind _ (fun x => x = o)); [by apply kept_gets|intros ? ->]
  | |- kept _ _ (mbind_ (gets storage) _) =>
      eapply (kept_bind _ storage_wf); [apply kept_gets; by intros|intros ? ?]
  | |- kept _ _ (mbind_ (lift_panic (write_reg_key _)) _) =>
      eapply kept_bind; [apply kept_write_reg_key; eauto with fuel|intros ? ?]
  | |- kept _ _ (mbind_ (mem_read_bytes _ _) _) =>
      eapply kept_bind; [apply kept_mem_read_bytes; [eauto with fuel|lia]|intros ? ?]
  | |- kept _ _ (mbind_ (mem_read _ _) _) =>
      eapply kept_bind; [apply kept_mem_read; [eauto with fuel|eauto with fuel]|intros ? ?]
  | |- kept _ _ (mbind_ get_internal_contract _) =>
      eapply kept_bind; [apply kept_internal_contract|intros ? ?]
  | |- kept _ _ (mbind_ (check_contract_in_inputs _) _) =>
      eapply kept_bind; [apply kept_check|intros ? _]
  | |- kept _ _ (mbind_ (get_contract_size _) _) =>
      eapply kept_bind; [apply kept_contract_size|intros ? ?]
  | |- kept _ _ (mbind_ (get_blob_size _) _) =>
      eapply kept_bind; [apply kept_blob_size|intros ? ?]
  | |- kept _ _ (mbind_ (update_memory (fun m => write_bytes m _ _ _)) _) =>
      eapply kept_bind; [apply kept_write_bytes; eauto with fuel|intros ? _]
  | |- kept _ _ (mbind_ (copy_contract _ _ _ _ _ _) _) =>
      eapply kept_bind; [apply kept_copy_contract; eauto with fuel|intros ? _]
  | |- kept _ _ (mbind_ (copy_blob _ _ _ _ _ _) _) =>
      eapply kept_bind; [apply kept_copy_blob; eauto with fuel|intros ? _]
  | |- kept _ _ inc_pc => apply kept_inc_pc
  | |- kept _ _ (mpanic _) => apply kept_mpanic
  | |- kept _ _ (mret _) => by apply kept_mret
  end.

(** ** Code and blobs *)

Lemma length_chunks_fuel {A} n fuel : forall l : list A,
  (0 < n)%nat -> (length (chunks_fuel fuel n l) * n <= length l + n - 1)%nat.
Proof.
  induction fuel as [|fuel IH]; intros [|a l] Hn; cbn [chunks_fuel]; try (cbn; lia).
  set (r := a :: l). specialize (IH (drop n r) Hn). rewrite length_drop in IH. cbn [length].
  destruct (le_lt_dec n (length r)); [lia|].
  assert (length (chunks_fuel fuel n (drop n r)) = 0)%nat as ->; [|unfold r; cbn; lia].
  rewrite drop_ge by lia. by destruct fuel.
Qed.

Lemma root_from_code_Ok `{Sha256} code :
  zlen code < 2 ^ 63 ->
  root_from_code code = Ok (mth (map code_leaf (chunks LEAF_SIZE code))).
Proof.
  intros Hc. apply root_from_iterator_mth. unfold zlen, chunks in *. rewrite length_map.
  pose proof (length_chunks_fuel (Z.to_nat LEAF_SIZE) (length code) code ltac:(unfold LEAF_SIZE; lia)).
  unfold LEAF_SIZE in *. lia.
Qed.

Section LocalOps.
Context {S : Type} `{Sha256} `{StorageLaws S}.
Implicit Types (vm : Interpreter S) (o : OwnershipRegisters).

Ltac kept_steps := repeat kept_step.

(** A handler that first charges the base of a dependent cost. *)
Definition based (c : DepCost) (m : M S unit) : Prop :=
  exists f, m = (gas_cost <- get_dep_cost c ;; gas_charge (cost_base gas_cost) ;;; f gas_cost) /\
    forall gas_cost, cost_ok gas_cost -> stored any (f gas_cost).

Lemma kept_check_write {A} o a n (f : M S A) (P : A -> Prop) :
  u64_ok a -> 0 <= n -> kept o P f ->
  kept o P (m <- gets memory ;; lift_panic (write m o a n) ;;; f).
Proof.
  intros [Ha _] Hn Hf. eapply (kept_bind _ mem_wf).
  { apply kept_gets. intros vm Hwf _ _. apply Hwf. }
  intros m Hm. eapply (kept_bind _ any); [|by intros].
  apply kept_lift_panic. destruct (write m o a n) eqn:E; try done. by apply write_no_crash in E.
Qed.

Lemma kept_check_write_noowner {A} o a n (f : M S A) (P : A -> Prop) :
  u64_ok a -> 0 <= n -> kept o P f ->
  kept o P (m <- gets memory ;; lift_panic (write_noownerchecks m a n) ;;; f).
Proof.
  intros [Ha _] Hn Hf. eapply (kept_bind _ mem_wf).
  { apply kept_gets. intros vm Hwf _ _. apply Hwf. }
  intros m Hm. eapply (kept_bind _ any); [|by intros].
  apply kept_lift_panic. destruct (write_noownerchecks m a n) eqn:E; try done.
  by apply write_noownerchecks_no_crash in E.
Qed.

Lemma size_word n : 0 <= n < 2 ^ 63 -> u64_ok n.
Proof. unfold u64_ok. lia. Qed.

Lemma max_word a b : u64_ok a -> u64_ok b -> u64_ok (Z.max a b).
Proof. unfold u64_ok. lia. Qed.

#[local] Hint Resolve cost_base_nonneg size_word max_word : fuel.

Lemma based_code_copy a b c d :
  u64_ok a -> u64_ok b -> u64_ok c -> u64_ok d -> based d_ccp (code_copy (S := S) a b c d).
Proof.
  intros Ha Hb Hc Hd. eexists; split; [reflexivity|].
  intros gc Hgc. apply stored_kept. intros o. kept_steps.
  apply kept_check_write; [done|apply Hd|]. kept_steps.
Qed.

Lemma based_code_root a b :
  u64_ok a -> u64_ok b -> based d_croo (code_root (S := S) a b).
Proof.
  intros Ha Hb. eexists; split; [reflexivity|].
  intros gc Hgc. apply stored_kept. intros o. kept_steps.
  apply kept_check_write_noowner; [done|lia|]. kept_steps.
  eapply (kept_bind _ (fun code => zlen code < 2 ^ 63)).
  { apply kept_lift. unfold storage_result. destruct (storage_contract _ _) as [[code|]|] eqn:E; try done.
    cbn. by eapply code_range. }
  intros code Hcode. rewrite root_from_code_Ok by done.
  eapply (kept_bind _ any); [by apply kept_lift|intros root _].
  eapply kept_bind; [apply kept_write_bytes, Ha|intros _ _]. kept_steps.
Qed.

Lemma based_code_size a b :
  RegId.ok a -> u64_ok b -> based d_csiz (code_size (S := S) a b).
Proof.
  intros Ha Hb. eexists; split; [reflexivity|].
  intros gc Hgc. apply stored_kept. intros o. kept_steps.
Qed.

Lemma based_blob_size a b :
  RegId.ok a -> u64_ok b -> based d_bsiz (blob_size (S := S) a b).
Proof.
  intros Ha Hb. eexists; split; [reflexivity|].
  intros gc Hgc. apply stored_kept. intros o. kept_steps.
Qed.

Lemma based_blob_load_data a b c d :
  u64_ok a -> u64_ok b -> u64_ok c -> u64_ok d -> based d_bldd (blob_load_data (S := S) a b c d).
Proof.
  intros Ha Hb Hc Hd. eexists; split; [reflexivity|].
  intros gc Hgc. apply stored_kept. intros o. kept_steps.
Qed.
End LocalOps.

(** ** Block information and reading the state *)

#[export] Hint Resolve cost_base_nonneg size_word max_word : fuel.

Section BlockOps.
Context {S : Type} `{Sha256} `{StorageLaws S}.
Implicit Types (vm : Interpreter S) (o : OwnershipRegisters).

Lemma u32_word n : 0 <= n < U32 -> u64_ok n.
Proof. unfold u64_ok. lia. Qed.

Lemma kept_u32 o b r :
  u64_ok b -> kept o (fun h => 0 <= h < U32) (lift_panic (S := S) (ok_or (try_u32 b) r)).
Proof.
  intros [Hb _]. apply kept_lift_panic. unfold try_u32. case_if; cbn; [|done].
  zbool. lia.
Qed.

(** The height the context knows. *)
Lemma kept_height {A} o (f : Z -> M S A) (P : A -> Prop) :
  (forall h, 0 <= h < U32 -> kept o P (f h)) ->
  kept o P (c <- gets context ;; h <- lift_panic (ok_or (context_block_height c) TransactionValidity) ;; f h).
Proof.
  intros Hf. eapply (kept_bind _ context_ok); [apply kept_gets; intros vm Hwf _ _; apply Hwf|].
  intros c Hc. eapply kept_bind; [|exact Hf]. apply kept_lift_panic.
  destruct c; cbn in *; done.
Qed.

Lemma stored_block_hash a b : u64_ok a -> u64_ok b -> stored any (block_hash (S := S) a b).
Proof.
  intros Ha Hb. apply stored_kept. intros o. unfold block_hash. kept_step.
  eapply kept_bind; [by apply kept_u32|intros h Hh]. kept_step.
  eapply (kept_bind _ any); [apply kept_lift; by destruct (block_hash_at _ _)|intros hash _].
  eapply kept_bind; [apply kept_write_bytes, Ha|intros _ _]. kept_step.
Qed.

Lemma stored_block_height ra : RegId.ok ra -> stored any (block_height (S := S) ra).
Proof.
  intros Ha. apply stored_kept. intros o. unfold block_height. kept_step.
  apply kept_height. intros h Hh%u32_word. repeat kept_step.
Qed.

Lemma stored_coinbase a : u64_ok a -> stored any (coinbase (S := S) a).
Proof.
  intros Ha. apply stored_kept. intros o. unfold coinbase. do 2 kept_step.
  eapply (kept_bind _ any); [apply kept_lift; by destruct (storage_coinbase _)|intros id _].
  eapply kept_bind; [apply kept_write_bytes, Ha|intros _ _]. kept_step.
Qed.

Lemma stored_timestamp ra b : RegId.ok ra -> u64_ok b -> stored any (timestamp (S := S) ra b).
Proof.
  intros Ha Hb. apply stored_kept. intros o. unfold timestamp.
  apply kept_height. intros h Hh. kept_step.
  eapply kept_bind; [by apply kept_u32|intros b' Hb']. case_if; [kept_step|]. kept_step.
  eapply (kept_bind _ u64_ok).
  - apply kept_lift. unfold storage_result. destruct (timestamp_at _ _) eqn:Et; cbn; [|done].
    eapply timestamp_word; [| |exact Et]; done.
  - intros t Ht. repeat kept_step.
Qed.

Lemma from_be_u64 bs : zlen bs = 8 -> u64_ok (from_be_bytes bs).
Proof.
  intros Hl. pose proof (from_be_bytes_range bs) as Hb. unfold zlen in Hl. rewrite Hl in Hb.
  exact Hb.
Qed.

Lemma bool_word_ok b : u64_ok (bool_word b).
Proof. by destruct b. Qed.

Lemma stored_state_read_word ra rb c :
  RegId.ok ra -> RegId.ok rb -> u64_ok c -> stored any (state_read_word (S := S) ra rb c).
Proof.
  intros Ha Hb Hc. apply stored_kept. intros o. unfold state_read_word. do 2 kept_step.
  case_if; [kept_step|]. do 3 kept_step.
  eapply (kept_bind _ (fun v => forall x, v = Some x -> slot_ok x)).
  { apply kept_lift. unfold storage_result. destruct (contract_state _ _ _) as [[v|]|] eqn:Es; cbn; try done.
    intros x [= ->]. eapply slot_range; [|exact Es]; done. }
  intros slot Hslot. eapply (kept_bind _ (fun v => u64_ok (default 0 v))).
  - destruct slot as [bytes|]; [|by apply kept_mret]. specialize (Hslot _ eq_refl).
    unfold index_range. case_if; [|zbool; unfold slot_ok in Hslot; lia].
    eapply (kept_bind _ (fun bs => zlen bs = 8)).
    + apply kept_lift. unfold slot_ok in Hslot. rewrite zlen_slice; lia.
    + intros bs Hbs. apply kept_mret. by apply from_be_u64.
  - intros v Hv. pose proof (bool_word_ok (bool_decide (is_Some v))). repeat kept_step.
Qed.
End BlockOps.

(** ** Reading a range of slots *)

Lemma zlen_concat_slots (l : list (option (list byte))) :
  Forall (fun o => forall v, o = Some v -> slot_ok v) l ->
  zlen (concat (map (default zeroed) l)) = 32 * zlen l.
Proof.
  induction 1 as [|x l Hx Hl IH]; [done|]. cbn [map concat]. rewrite zlen_app, IH.
  change (zlen (x :: l)) with (zlen ([x] ++ l)). rewrite zlen_app. change (zlen [x]) with 1.
  assert (zlen (default zeroed x) = 32) as ->; [|lia].
  destruct x as [v|]; [by apply Hx|done].
Qed.

Section ReadRange.
Context {S : Type} `{Sha256} `{StateLaws S}.
Implicit Types (vm : Interpreter S) (o : OwnershipRegisters).

Lemma kept_read_slots o r a n c k :
  free_reg r -> u64_ok a -> 0 <= n < U32 -> zlen k = 32 ->
  kept o any (
    m <- gets memory ;;
    dst <- lift_panic (write m o a (saturating_mul 32 n)) ;;
    s <- gets storage ;;
    slots <- lift (storage_result (contract_state_range s c k n)) ;;
    put_reg r (bool_word (forallb (fun x => bool_decide (is_Some x)) slots)) ;;;
    update_memory (S := S) (fun m => slice_copy_from_slice m dst (concat (map (default zeroed) slots))) ;;;
    inc_pc).
Proof.
  intros Hr [Ha _] Hn Hk vm Hwf [Hs Ho]. pose proof (wf_mem _ Hwf) as Hm.
  assert (saturating_mul 32 n = 32 * n) as -> by (unfold saturating_mul; lia).
  do 2 wp_step. apply wp_bind, wp_lift_panic.
  destruct (write (memory vm) o a (32 * n)) as [dst|e|] eqn:Ew;
    [|by apply wf_err|apply write_no_crash in Ew; (done || lia)].
  apply write_inv in Ew as (_ & Hown & Hd); [|done|done|lia].
  do 2 wp_step. apply wp_bind, wp_lift. unfold storage_result.
  destruct (contract_state_range (storage vm) c k n) as [l|] eqn:El; cbn [ok_or];
    [|by destruct (wf_err vm OutOfGas Hwf)].
  pose proof (range_slots _ _ _ _ _ Hs El) as Hl.
  pose proof (range_full _ _ _ _ _ Hs Hk (proj1 Hn) El) as Hln.
  set (b := bool_word _). assert (Hb : u64_ok b) by apply bool_word_ok.
  set (bs := concat (map (default zeroed) l)).
  assert (Hbs : zlen bs = 32 * n) by (unfold bs; rewrite zlen_concat_slots by done; lia).
  clearbody bs. apply wp_bind.
  destruct (kept_put_reg o r b Hr Hb vm Hwf (conj Hs Ho)) as (Hwf1 & Hl1 & _ & Ho1).
  apply wp_put_reg, wp_bind, wp_update_memory. change (memory (set_reg vm r b)) with (memory vm).
  destruct (slice_copy_Ok _ _ _ _ bs Hm Hd Hbs) as (m' & -> & Hu).
  destruct (wf_mem_upd (set_reg vm r b) a bs m' Hwf1 Hu) as [Hwf2 Hl2].
  { intros x. rewrite Hbs, Ho1. by apply has_ownership_range_owned. }
  assert (Hl12 : local_step vm (set_memory (set_reg vm r b) m')) by by etrans.
  eapply wp_mono; [apply (kept_inc_pc o _ Hwf2); split; [done|exact Ho1]| |].
  - intros [] v (? & ? & ? & ?). split_and!; [done|by etrans|done|done].
  - intros e v. by apply local_step_err.
Qed.

Lemma stored_state_read_qword a rb c d :
  u64_ok a -> RegId.ok rb -> u64_ok c -> u64_ok d ->
  stored any (state_read_qword (S := S) a rb c d).
Proof.
  intros Ha Hb Hc Hd. apply stored_kept. intros o. unfold state_read_qword, to_usize.
  do 3 kept_step. eapply kept_bind; [by apply kept_u32|intros n Hn]. kept_step.
  by apply kept_read_slots.
Qed.
End ReadRange.
