(* ===== verification/Effects.v ===== *)
(** * Instructions with effects on the storage

    Transfers, mints, burns, messages and state updates, as one kind of step: a paying part
    that has one of the effects below, its receipt, and a local rest (src/fuel-vm/src/interpreter/blockchain.rs, contract.rs). *)

From Stdlib Require Import Strings.Byte.
From S2P Require Import Prelude Asm Merkle Receipts Memory State Gas Alu MemOps Storage Flow.
From S2P Require Import Calls Blockchain BlockchainSafe.

Section Effect.
Context {S : Type} `{Sha256} `{StorageLaws S}.
Implicit Types (vm : Interpreter S).

(** The stack starts above the transaction identifier, and either no frame is active and the
    context is external, or the call discipline holds. *)
Definition frame_inv vm : Prop :=
  32 <= reg vm RegId.SSP /\
  ((frames vm = [] /\ context_is_internal (context vm) = false) \/ call_inv vm).

(** The running contract, if any. *)
Definition running vm : option ContractId := f_to <$> head (frames vm).

Lemma call_inv_frame_inv vm : call_inv vm -> frame_inv vm.
Proof. intros Hc. split; [apply Hc|by right]. Qed.

Lemma frame_inv_current vm :
  vm_wf vm -> frame_inv vm -> current_contract vm = Ok (running vm).
Proof.
  intros Hwf [_ [[Hf Hc]|Hc]]; [|by apply call_inv_current].
  unfold current_contract, running. by rewrite Hc, Hf.
Qed.

Lemma frame_inv_local vm vm' : vm_wf vm -> frame_inv vm -> local_step vm vm' -> frame_inv vm'.
Proof.
  intros Hwf [Hs Hor] Hl. split; [by rewrite (ls_ssp _ _ Hl)|].
  destruct Hor as [Hf|Hc]; [left|right; by eapply call_inv_local].
  by rewrite (ls_frames _ _ Hl), (ls_context _ _ Hl).
Qed.

(** What an instruction may do to the storage and the free balances, on behalf of the running
    contract [c], and the receipts that announce it. *)
Inductive effect vm (c : option ContractId) (s' : S) (b' : RuntimeBalances)
  : list Receipt -> Prop :=
| eff_transfer a n to :
    0 <= n -> to ∈ input_contracts vm -> moved c a n to (storage vm) (balances vm) s' b' ->
    effect vm c s' b' [Receipt_Transfer (default zeroed c) to n a (reg vm RegId.PC) (reg vm RegId.IS)]
| eff_mint d sub_id n :
    c = Some d -> b' = balances vm ->
    bal_upd (storage vm) d (contract_asset_id d sub_id)
      (bal (storage vm) d (contract_asset_id d sub_id) + n) s' ->
    effect vm c s' b' [Receipt_Mint sub_id d n (reg vm RegId.PC) (reg vm RegId.IS)]
| eff_burn d sub_id n :
    c = Some d -> b' = balances vm -> n <= bal (storage vm) d (contract_asset_id d sub_id) ->
    bal_upd (storage vm) d (contract_asset_id d sub_id)
      (bal (storage vm) d (contract_asset_id d sub_id) - n) s' ->
    effect vm c s' b' [Receipt_Burn sub_id d n (reg vm RegId.PC) (reg vm RegId.IS)]
| eff_message txid idx sender recipient n data :
    0 <= n -> debited c (base_asset_id (interpreter_params vm)) n (storage vm) (balances vm) s' b' ->
    effect vm c s' b' [receipt_message_out txid idx sender recipient n data]
| eff_state d :
    c = Some d -> b' = balances vm -> same_balances (storage vm) s' ->
    state_of_others (storage vm) d s' -> effect vm c s' b' [].

(** A step with an effect: [v] is the state after the paying part. *)
Record affected vm vm' v (rs : list Receipt) (rx : ReceiptsCtx) : Prop := {
  af_pay : pay_step vm v;
  af_wf1 : vm_wf (set_receipts v rx);
  af_money : money_wf v;
  af_effect : effect vm (running vm) (storage v) (balances v) rs;
  af_wf : vm_wf vm';
  af_receipts : rx_receipts rx = rx_receipts (receipts vm) ++ rs;
  af_local : local_step (set_receipts v rx) vm'
}.

Lemma af_gas vm vm' v rs rx : affected vm vm' v rs rx -> reg vm' RegId.GGAS <= reg vm RegId.GGAS.
Proof.
  intros []. pose proof (ps_gas _ _ af_pay0). pose proof (ls_gas _ _ af_local0) as Hg.
  change (reg (set_receipts v rx)) with (reg v) in Hg. lia.
Qed.

Lemma af_money_wf vm vm' v rs rx : affected vm vm' v rs rx -> money_wf vm'.
Proof. intros []. by apply (money_local (set_receipts v rx)). Qed.

Lemma set_receipts_id vm : set_receipts vm (receipts vm) = vm.
Proof. by destruct vm. Qed.

(** A paying part followed by a local part without receipts. *)
Lemma affected_quiet vm vm' v :
  pay_step vm v -> vm_wf v -> money_wf v ->
  effect vm (running vm) (storage v) (balances v) [] -> vm_wf vm' -> local_step v vm' ->
  affected vm vm' v [] (receipts v).
Proof.
  intros Hp Hw Hm He Hw' Hl. split; rewrite ?set_receipts_id; try done.
  by rewrite (ps_receipts _ _ Hp), app_nil_r.
Qed.

Lemma transferred_affected vm n vm' v c to a :
  vm_wf vm -> frame_inv vm -> 0 <= n -> transferred vm n vm' v c to a ->
  exists rs, affected vm vm' v rs (receipts vm').
Proof.
  intros Hwf Hfi Hn []. rewrite frame_inv_current in tf_current by done. injection tf_current as <-.
  eexists. split; [done| |done|by apply eff_transfer|done|exact tf_receipt|].
  - destruct tf_wf. by apply wf_set_receipts.
  - destruct tf_local. split; try done. exists []. by rewrite app_nil_r.
Qed.

(** The end of an instruction with a receipt. *)
Lemma receipt_affected vm v r :
  pay_step vm v -> vm_wf v -> money_wf v ->
  effect vm (running vm) (storage v) (balances v) [r] -> is_plain r ->
  wp (push_receipt r ;;; inc_pc)
    (fun _ vm' => exists rx, affected vm vm' v [r] rx)
    (fun e v => local_err e vm v) v.
Proof.
  intros Hp Hwf Hm He Hr. apply wp_bind.
  pose proof (push_receipt_spec v r (wf_receipts _ Hwf) (wf_receipts_len _ Hwf) Hr) as Hpr.
  unfold wp at 1. destruct (push_receipt r v) as [[[]|e|] v1]; [| |done].
  - destruct Hpr as (rx & -> & Hok & Hl & Hlen).
    assert (Hwf1 : vm_wf (set_receipts v rx)) by by apply wf_set_receipts.
    eapply wp_mono; [by apply (safe_inc_pc _ Hwf1)| |].
    + intros [] v' (Hw' & Hl' & _). exists rx. split; try done.
      by rewrite Hl, (ps_receipts _ _ Hp).
    + intros e v' Herr. eapply (pay_step_err _ _ v); [done|]. destruct Herr. by split.
  - destruct Hpr as [-> ->]. eapply pay_step_err; [done|]. by apply wf_err.
Qed.

Lemma pays_internal_contract vm0 (Q : S -> RuntimeBalances -> Prop) :
  vm_wf vm0 -> frame_inv vm0 ->
  pays vm0 Q get_internal_contract (fun d s b => Q s b /\ running vm0 = Some d).
Proof.
  intros Hwf0 Hfi vm Hwf Hm Hp HQ. unfold get_internal_contract, internal_contract. do 2 wp_step.
  rewrite (current_contract_pay vm0 vm Hp), frame_inv_current by done. apply wp_lift_panic.
  destruct (running vm0) as [d|]; cbn; [done|]. eapply pay_step_err; [done|]. by apply wf_err.
Qed.
End Effect.

(** ** Minting, burning, messages *)

Section EffectOps.
Context {S : Type} `{Sha256} `{StorageLaws S}.
Implicit Types (vm : Interpreter S).

(** What the handlers with effects guarantee. *)
Definition affects {A} (m : M S A) : Prop :=
  forall vm, vm_wf vm -> money_wf vm -> frame_inv vm ->
    wp m (fun _ vm' => exists v rs rx, affected vm vm' v rs rx)
       (fun e vm' => local_err e vm vm') vm.

(** The assertion that nothing has been paid yet. *)
Definition unpaid vm : S -> RuntimeBalances -> Prop := fun s b => s = storage vm /\ b = balances vm.

Lemma pays_unpaid {A B} vm0 (m : M S A) R (f : A -> M S B) Post :
  pays vm0 (unpaid vm0) m R -> vm_wf vm0 -> money_wf vm0 ->
  (forall a vm1, vm_wf vm1 -> money_wf vm1 -> pay_step vm0 vm1 ->
     R a (storage vm1) (balances vm1) ->
     wp (f a) Post (fun e v => local_err e vm0 v) vm1) ->
  wp (mbind_ m f) Post (fun e v => local_err e vm0 v) vm0.
Proof. intros. by eapply pays_then. Qed.

(** Forget the state before the last operation of the paying part. *)
Ltac pay_next := match goal with Hp : pay_step _ ?v |- _ => clear dependent v end.

Lemma pays_word_cost vm0 (Q : S -> RuntimeBalances -> Prop) c :
  pays vm0 Q (get_word_cost c) (fun g s b => Q s b /\ u64_ok g).
Proof.
  apply pays_gets. intros vm Hwf _ _ HQ. split; [done|]. apply (wf_costs _ Hwf).
Qed.

Lemma burn_affects a b : u64_ok a -> u64_ok b -> affects (burn (S := S) a b).
Proof.
  intros Ha Hb vm Hwf Hm Hfi. unfold burn.
  eapply pays_unpaid; [by apply pays_internal_contract|done..|].
  intros d v1 Hw1 Hm1 Hp1 [HQ1 Hd].
  eapply (pays_then vm (unpaid vm)); [by apply pays_mem_read_bytes|done..|].
  pay_next. intros sub v1 Hw1 Hm1 Hp1 HQ1.
  eapply (pays_then vm (unpaid vm) _ (fun _ s' b' => b' = balances vm /\
    a <= bal (storage vm) d (contract_asset_id d sub) /\
    bal_upd (storage vm) d (contract_asset_id d sub)
      (bal (storage vm) d (contract_asset_id d sub) - a) s')); [|done..|].
  { apply pays_storage. intros s b' [-> ->] Hs. rewrite balance_spec.
    destruct (contract_asset_id_balance _ _ _); [|done]. cbn [obind].
    pose proof (bal_word (storage vm) d (contract_asset_id d sub) Hs) as Hw.
    unfold checked_sub. case_if; cbn [ok_or obind]; [|done].
    unfold storage_result, contract_asset_id_balance_insert.
    destruct (contract_asset_id_balance_replace _ _ _ _) as [[old_value s']|] eqn:Er; [|done]. cbn.
    eapply replace_bal_upd in Er; [|done|unfold u64_ok in *; lia].
    pose proof Er as (? & ? & _). by split_and!. }
  pay_next. intros _ v1 Hw1 Hm1 Hp1 (Hb1 & Hle & Hu). do 4 wp_step.
  rewrite !(ps_regs _ _ Hp1) by done.
  eapply wp_mono; [apply (receipt_affected vm); try done; by eapply eff_burn| |done].
  intros [] vm' [rx Hrx]. by exists v1, [Receipt_Burn sub d a (reg vm RegId.PC) (reg vm RegId.IS)], rx.
Qed.

Lemma mint_affects a b : u64_ok a -> u64_ok b -> affects (mint (S := S) a b).
Proof.
  intros Ha Hb vm Hwf Hm Hfi. unfold mint.
  eapply pays_unpaid; [apply pays_word_cost|done..|]. intros g v1 Hw1 Hm1 Hp1 [HQ1 [Hg _]].
  eapply (pays_then vm (unpaid vm)); [by apply pays_internal_contract|done..|].
  pay_next. intros d v1 Hw1 Hm1 Hp1 [HQ1 Hd].
  eapply (pays_then vm (unpaid vm)); [by apply pays_mem_read_bytes|done..|].
  pay_next. intros sub v1 Hw1 Hm1 Hp1 HQ1.
  set (R := fun s' (b' : RuntimeBalances) => b' = balances vm /\
    bal_upd (storage vm) d (contract_asset_id d sub)
      (bal (storage vm) d (contract_asset_id d sub) + a) s').
  eapply (pays_then vm (unpaid vm) _ (fun _ => R)); [|done..|].
  { apply pays_storage. intros s b' [-> ->] Hs. rewrite balance_spec.
    destruct (contract_asset_id_balance _ _ _); [|done]. cbn [obind].
    pose proof (bal_word (storage vm) d (contract_asset_id d sub) Hs) as Hw.
    unfold checked_add. case_if; cbn [ok_or obind]; [|done]. unfold storage_result.
    destruct (contract_asset_id_balance_replace _ _ _ _) as [[old_value s']|] eqn:Er; [|done]. cbn.
    eapply replace_bal_upd in Er; [|done|unfold u64_ok in *; lia].
    pose proof Er as (? & ? & _). by split_and!. }
  pay_next. intros old v1 Hw1 Hm1 Hp1 HR.
  eapply (pays_then vm R); [by apply pays_new_entry|done..|].
  pay_next. intros _ v1 Hw1 Hm1 Hp1 [Hb1 Hu]. do 4 wp_step.
  rewrite !(ps_regs _ _ Hp1) by done.
  eapply wp_mono; [apply (receipt_affected vm); try done; by eapply eff_mint| |done].
  intros [] vm' [rx Hrx]. by exists v1, [Receipt_Mint sub d a (reg vm RegId.PC) (reg vm RegId.IS)], rx.
Qed.

(** The transaction identifier at the start of memory can always be read. *)
Lemma txid_read vm :
  vm_wf vm -> 32 <= reg vm RegId.SSP -> exists bs, read_bytes (memory vm) 0 32 = Ok bs.
Proof.
  intros Hwf Hs. rewrite read_bytes_eq by (apply Hwf || done).
  pose proof (wf_ssp _ Hwf). pose proof (wf_sp_stack _ Hwf). pose proof (wf_mem _ Hwf) as Hm.
  destruct (read_Ok (memory vm) 0 32 Hm) as (bs & -> & _); [|by eexists].
  destruct Hm. unfold accessible. lia.
Qed.

Lemma pays_mem_read vm0 (Q : S -> RuntimeBalances -> Prop) a n :
  u64_ok a -> 0 <= n -> pays vm0 Q (mem_read a n) (fun _ => Q).
Proof.
  intros Ha Hn vm Hwf Hm Hp HQ.
  pose proof (pays_pure vm0 Q _ _ (mem_read_pure a n) (safe_mem_read a n Ha Hn)) as Hr.
  eapply wp_mono; [by apply Hr| |done]. intros bs v (? & ? & ? & ? & _). by split_and!.
Qed.

Lemma frame_inv_internal vm :
  frame_inv vm -> context_is_internal (context vm) = bool_decide (is_Some (running vm)).
Proof.
  unfold running. intros [_ [[-> ->]|[_ [h ->] _]]]; [done|]. by destruct (frames vm).
Qed.

Lemma message_output_affects a b c d :
  u64_ok a -> u64_ok b -> u64_ok c -> u64_ok d -> affects (message_output (S := S) a b c d).
Proof.
  intros Ha Hb Hc Hd vm Hwf Hm Hfi. unfold message_output. do 4 wp_step.
  change (f_to <$> head (frames vm)) with (running vm).
  case_if; [apply wp_merr; by apply wf_err|].
  eapply pays_unpaid; [apply pays_mem_read; [done|apply Hc]|done..|].
  intros data v1 Hw1 Hm1 Hp1 HQ1.
  eapply (pays_then vm (unpaid vm)); [by apply pays_mem_read_bytes|done..|].
  pay_next. intros recipient v1 Hw1 Hm1 Hp1 HQ1. do 2 wp_step.
  eapply (pays_then vm (unpaid vm)); [apply pays_mem_read_bytes; [by apply wf_reg_u64|done]|done..|].
  pay_next. intros sender v1 Hw1 Hm1 Hp1 HQ1.
  eapply (pays_then vm (unpaid vm)); [apply pays_debit; [by apply frame_inv_internal|done]|done..|].
  pay_next. intros [] v1 Hw1 Hm1 Hp1 He.
  destruct (txid_read v1 Hw1) as [txid Htx]; [rewrite (ps_regs _ _ Hp1) by done; apply Hfi|].
  do 3 wp_step. rewrite Htx. apply wp_lift. do 2 wp_step.
  eapply wp_mono; [apply (receipt_affected vm); try done; eapply eff_message; [apply Hd|done]| |done].
  intros [] vm' [rx Hrx]. eexists v1, _, rx. exact Hrx.
Qed.

(** ** Contract state *)

(** A state update of the running contract followed by a local part. *)
Lemma update_state_affects {A} vm0 d (f : S -> outcome RuntimeError (A * S)) (P : A -> Prop)
    (g : A -> M S unit) vm :
  (forall s, storage_wf s ->
     match f s with
     | Ok (a, s') => storage_wf s' /\ same_code s s' /\ same_balances s s' /\
         state_of_others s d s' /\ P a
     | Err (Bug _) | Crash => False
     | Err _ => True
     end) ->
  (forall a, P a -> safe any (g a)) ->
  running vm0 = Some d -> vm_wf vm -> money_wf vm -> pay_step vm0 vm ->
  unpaid vm0 (storage vm) (balances vm) ->
  wp (mbind_ (update_storage f) g)
    (fun _ vm' => exists v rs rx, affected vm0 vm' v rs rx) (fun e vm' => local_err e vm0 vm') vm.
Proof.
  intros Hf Hg Hd Hw Hm Hp HQ.
  eapply (pays_then vm0 (unpaid vm0) _ (fun a s' b' =>
    (same_balances (storage vm0) s' /\ state_of_others (storage vm0) d s' /\ b' = balances vm0) /\ P a));
    [|done..|].
  { apply pays_storage. intros s b [-> ->] Hs. specialize (Hf _ Hs).
    destruct (f (storage vm0)) as [[a s']|[]|]; try done.
    destruct Hf as (? & ? & ? & ? & ?). by split_and!. }
  pay_next. intros a v1 Hw1 Hm1 Hp1 [(Hb & Ho & Heq) Ha].
  eapply wp_mono; [by apply (Hg a Ha)| |intros e v; by apply pay_step_err].
  intros [] vm' (Hw' & Hl & _). exists v1, [], (receipts v1). apply affected_quiet; try done.
  by eapply eff_state.
Qed.

Lemma pays_write_reg_key vm0 (Q : S -> RuntimeBalances -> Prop) r :
  RegId.ok r -> pays vm0 Q (lift_panic (write_reg_key r)) (fun i s b => Q s b /\ free_reg i).
Proof. intros Hr. apply pays_pure; [done|by apply safe_write_reg_key]. Qed.

Lemma safe_gas_charge g : 0 <= g -> safe any (gas_charge (S := S) g).
Proof.
  intros Hg vm Hwf _. eapply wp_mono; [by apply local_gas_charge| |done].
  intros [] v (? & ? & _). by split_and!.
Qed.

Lemma state_write_word_affects a rb c :
  u64_ok a -> RegId.ok rb -> u64_ok c -> affects (state_write_word (S := S) a rb c).
Proof.
  intros Ha Hb Hc vm Hwf Hm Hfi. unfold state_write_word.
  eapply pays_unpaid; [apply pays_word_cost|done..|]. intros g v1 Hw1 Hm1 Hp1 [HQ1 Hg].
  eapply (pays_then vm (unpaid vm)); [by apply pays_write_reg_key|done..|].
  pay_next. intros i v1 Hw1 Hm1 Hp1 [HQ1 Hi].
  eapply (pays_then vm (unpaid vm)); [by apply pays_mem_read_bytes|done..|].
  pay_next. intros key v1 Hw1 Hm1 Hp1 HQ1.
  eapply (pays_then vm (unpaid vm)); [by apply pays_internal_contract|done..|].
  pay_next. intros d v1 Hw1 Hm1 Hp1 [HQ1 Hd].
  apply (update_state_affects vm d _ any); try done.
  - intros s Hs. unfold storage_result.
    destruct (contract_state_replace s d key _) as [[prev s']|] eqn:Er; [|done]. cbn.
    apply slot_replace_spec in Er as (? & ? & ? & _ & _ & Ho); [|done|].
    + split_and!; try done. intros c' k' Hne. apply Ho. congruence.
    + unfold slot_ok. rewrite zlen_app, zlen_to_be_bytes. done.
  - intros prev _.
    eapply safe_bind; [apply safe_put_reg; [done|apply bool_word_ok]|intros _ _].
    eapply (safe_bind any); [|intros _ _; apply safe_inc_pc].
    case_bool_decide; [|by apply safe_mret]. apply safe_gas_charge.
    unfold saturating_mul, u64_ok in *. lia.
Qed.

Lemma length_chunks_le {A} fuel n : forall l : list A, (length (chunks_fuel fuel n l) <= fuel)%nat.
Proof.
  induction fuel as [|fuel IH]; intros l; cbn; [by destruct l|].
  destruct l; cbn; [lia|]. specialize (IH (drop n (a :: l))). lia.
Qed.

Lemma chunks_exact_slots (l : list byte) : Forall slot_ok (chunks_exact 32 l).
Proof. apply Forall_forall. by intros c [Hc _]%list_elem_of_filter. Qed.

Lemma zlen_chunks_exact (n : Z) (l : list byte) : zlen (chunks_exact n l) <= zlen l.
Proof.
  unfold zlen, chunks_exact, chunks.
  pose proof (length_chunks_le (length l) (Z.to_nat n) l).
  pose proof (length_filter (fun c => zlen c = n) (chunks_fuel (length l) (Z.to_nat n) l)). lia.
Qed.

Lemma state_write_qword_affects a rb c d :
  u64_ok a -> RegId.ok rb -> u64_ok c -> u64_ok d -> affects (state_write_qword (S := S) a rb c d).
Proof.
  intros Ha Hb Hc Hd vm Hwf Hm Hfi. unfold state_write_qword.
  eapply pays_unpaid; [apply pays_word_cost|done..|]. intros g v1 Hw1 Hm1 Hp1 [HQ1 Hg].
  eapply (pays_then vm (unpaid vm)); [by apply pays_write_reg_key|done..|].
  pay_next. intros i v1 Hw1 Hm1 Hp1 [HQ1 Hi].
  eapply (pays_then vm (unpaid vm)); [by apply pays_internal_contract|done..|].
  pay_next. intros e v1 Hw1 Hm1 Hp1 [HQ1 He].
  eapply (pays_then vm (unpaid vm)); [by apply pays_mem_read_bytes|done..|].
  pay_next. intros key v1 Hw1 Hm1 Hp1 HQ1.
  assert (Hsm : u64_ok (saturating_mul 32 d)) by (unfold saturating_mul, u64_ok in *; lia).
  eapply (pays_then vm (unpaid vm));
    [apply pays_pure; [apply mem_read_pure|apply safe_mem_read; [done|apply Hsm]]|done..|].
  pay_next. intros bs v1 Hw1 Hm1 Hp1 [HQ1 Hbs].
  apply (update_state_affects vm e _ u64_ok); try done.
  - intros s Hs. unfold storage_result.
    destruct (contract_state_insert_range s e key _) as [[n s']|] eqn:Er; [|done]. cbn.
    apply insert_range_frame in Er as (? & ? & ? & ? & Hn); [|done|apply chunks_exact_slots].
    split_and!; try done. pose proof (zlen_chunks_exact 32 bs). unfold u64_ok in *. lia.
  - intros n Hn. eapply safe_bind; [by apply safe_put_reg|intros _ _].
    eapply (safe_bind any); [|intros _ _; apply safe_inc_pc].
    case_if; [|by apply safe_mret]. apply safe_gas_charge. unfold saturating_mul, u64_ok in *. lia.
Qed.

Lemma state_clear_qword_affects a rb c :
  u64_ok a -> RegId.ok rb -> u64_ok c -> affects (state_clear_qword (S := S) a rb c).
Proof.
  intros Ha Hb Hc vm Hwf Hm Hfi. unfold state_clear_qword.
  eapply pays_unpaid; [by apply pays_write_reg_key|done..|]. intros i v1 Hw1 Hm1 Hp1 [HQ1 Hi].
  eapply (pays_then vm (unpaid vm)); [apply (pays_pure _ _ _ any); [done|]|done..|].
  { apply safe_lift_panic. by destruct (to_usize c). }
  pay_next. intros n v1 Hw1 Hm1 Hp1 [HQ1 _].
  eapply (pays_then vm (unpaid vm)); [by apply pays_internal_contract|done..|].
  pay_next. intros d v1 Hw1 Hm1 Hp1 [HQ1 Hd].
  eapply (pays_then vm (unpaid vm)); [by apply pays_mem_read_bytes|done..|].
  pay_next. intros key v1 Hw1 Hm1 Hp1 HQ1.
  apply (update_state_affects vm d _ any); try done.
  - intros s Hs. unfold storage_result.
    destruct (contract_state_remove_range s d key n) as [[b s']|] eqn:Er; [|done]. cbn.
    apply remove_range_frame in Er as (? & ? & ? & ?); [by split_and!|done].
  - intros all _. eapply safe_bind; [apply safe_put_reg; [done|apply bool_word_ok]|intros _ _].
    apply safe_inc_pc.
Qed.
End EffectOps.
