(* ===== verification/LoadCode.v ===== *)
(** * Loading code

    [LDC] extends the code of the running program: it copies code from a contract, a blob or
    memory to the start of the stack, moves the start behind it and, inside a call, adds its
    size to the frame header (src/fuel-vm/src/interpreter/blockchain.rs,
    [load_contract_code], [load_blob_code], [load_memory_code]). *)

From Stdlib Require Import Strings.Byte.
From S2P Require Import Prelude Asm Merkle Receipts Memory State Gas Alu MemOps Storage Flow.
From S2P Require Import MemStorage Calls Blockchain BlockchainSafe Effects.

Section Load.
Context {S : Type} `{Sha256} `{StorageLaws S}.
Implicit Types (vm : Interpreter S).

(** The code-size field of the running frame. *)
Definition in_size_field vm (x : Z) : Prop :=
  context_is_internal (context vm) = true /\
  reg vm RegId.FP + code_size_offset <= x < reg vm RegId.FP + code_size_offset + 8.

(** What loading code may change: like a local step, but the stack starts higher, and the
    code size of the running frame has grown by as much. *)
Record loaded vm vm' : Prop := {
  ld_frames : frames vm' = frames vm;
  ld_ssp : reg vm RegId.SSP <= reg vm' RegId.SSP;
  ld_words : (reg vm' RegId.SSP - reg vm RegId.SSP) mod WORD_SIZE = 0;
  ld_fp : reg vm' RegId.FP = reg vm RegId.FP;
  ld_is : reg vm' RegId.IS = reg vm RegId.IS;
  ld_hp : reg vm' RegId.HP <= reg vm RegId.HP;
  ld_gas : reg vm' RegId.GGAS <= reg vm RegId.GGAS;
  ld_mem : forall x, x < reg vm RegId.SSP \/ prev_hp vm <= x -> ~ in_size_field vm x ->
    mem_get (memory vm') x = mem_get (memory vm) x;
  ld_size : context_is_internal (context vm) = true ->
    code_size_shown (memory vm') (reg vm' RegId.SSP) (reg vm RegId.FP);
  ld_storage : storage vm' = storage vm;
  ld_context : context vm' = context vm;
  ld_balances : balances vm' = balances vm;
  ld_inputs : input_contracts vm' = input_contracts vm;
  ld_params : interpreter_params vm' = interpreter_params vm;
  ld_receipts : exists l, rx_receipts (receipts vm') = rx_receipts (receipts vm) ++ l /\
    Forall quiet l
}.

(** The state once [n] is the start and the end of the stack and [m] the memory. *)
Definition stack_at vm (n : Z) (m : MemoryInstance) : Interpreter S :=
  set_memory (set_reg (set_reg vm RegId.SP n) RegId.SSP n) m.

Lemma reg_stack_at vm n m i :
  zlen (registers vm) = VM_REGISTER_COUNT ->
  reg (stack_at vm n m) i = if (i =? RegId.SSP) || (i =? RegId.SP) then n else reg vm i.
Proof.
  intros Hl. change (reg (stack_at vm n m) i) with
    (reg (set_reg (set_reg vm RegId.SP n) RegId.SSP n) i).
  destruct (Z.eqb_spec i RegId.SSP) as [->|]; [apply reg_set_eq; by rewrite ?zlen_set_reg|].
  rewrite reg_set_ne by done.
  destruct (Z.eqb_spec i RegId.SP) as [->|]; cbn [orb]; [by apply reg_set_eq|].
  rewrite reg_set_ne by done. done.
Qed.

Lemma wf_stack_at vm n m :
  vm_wf vm -> mem_wf m -> mhp m = mhp (memory vm) -> reg vm RegId.SSP <= n ->
  n <= reg vm RegId.HP -> n <= zlen (stack m) -> vm_wf (stack_at vm n m).
Proof.
  intros Hwf Hm Hhp Hn Hh Hs. pose proof (wf_regs _ Hwf) as [Hl Hu].
  pose proof (wf_reg_u64 vm RegId.SSP Hwf) as [? _]. pose proof (wf_reg_u64 vm RegId.HP Hwf) as [_ ?].
  assert (Hnu : u64_ok n) by (split; lia).
  destruct Hwf. split; rewrite ?reg_stack_at by done; reg_eqb; cbn [orb]; try done; try lia.
  - cbn. by repeat apply regs_ok_put.
  - cbn. lia.
  - change (frames (stack_at vm n m)) with (frames vm).
    destruct (frames vm) as [|f fs]; [done|]. cbn in *. intuition lia.
Qed.

(** The memory [m] is [m0] with the stack grown to hold [n] bytes from [a], whose contents are
    left open. *)
Definition stack_room (m0 : MemoryInstance) (a n : Z) (m : MemoryInstance) : Prop :=
  mem_wf m /\ mhp m = mhp m0 /\ a + n <= zlen (stack m) /\ a + n <= mhp m /\
  forall x, ~ (a <= x < a + n) -> mem_get m x = mem_get m0 x.

Lemma stack_room_upd m0 a n m bs m' :
  stack_room m0 a n m -> zlen bs = n -> mem_upd m a bs m' -> stack_room m0 a n m'.
Proof.
  intros (Hm & Hh & Hs & Hle & Hx) Hl Hu. pose proof (mem_upd_wf _ _ _ _ Hu Hm).
  destruct Hu as [(Hss & _ & Hhh) Hg]. split_and!; [done|congruence|lia|lia|].
  intros x Hn. rewrite Hg, <- Hx by done. case_if; [lia|done].
Qed.

Lemma ldc_grow_spec vm0 vm len (Q : OwnershipRegisters * Z -> Interpreter S -> Prop) :
  vm_wf vm -> local_step vm0 vm -> reg vm RegId.SSP = reg vm RegId.SP -> 0 <= len ->
  (forall m, len <= VM_MAX_RAM -> stack_room (memory vm) (reg vm RegId.SSP) len m ->
     vm_wf (set_memory vm m) ->
     Q (only_allow_stack_write (reg vm RegId.SSP + len) (reg vm RegId.SSP) (reg vm RegId.HP),
        reg vm RegId.SSP + len) (set_memory vm m)) ->
  wp (ldc_grow len) Q (fun e v => local_err e vm0 v) vm.
Proof.
  intros Hwf Hl0 Hsp Hlen HQ. pose proof (wf_reg_u64 vm RegId.SSP Hwf) as [Hs0 Hs1].
  pose proof (wf_sp_stack _ Hwf). unfold ldc_grow. do 4 wp_step.
  set (n := saturating_add _ _). assert (0 <= n) by (unfold n, saturating_add; lia).
  pose proof (grow_stack_spec (memory vm) n (wf_mem _ Hwf)) as Hg.
  destruct (grow_stack (memory vm) n) as [m|e|];
    [|eapply local_step_err; [done|]; by apply wf_err|by apply Hg].
  destruct Hg as (Hm & Hmax & Hhp & Hst & Hx); [done|].
  assert (n = reg vm RegId.SSP + len) as Hn
    by (unfold n, saturating_add, VM_MAX_RAM in *; lia). clearbody n. subst n.
  do 3 wp_step. change (reg (set_memory vm m)) with (reg vm).
  apply HQ; [lia| |].
  - split_and!; [done|done|lia| |].
    + destruct Hm. lia.
    + intros x Hxn. rewrite Hx. case_if; [lia|done].
  - apply wf_set_memory; [done..|lia|].
    intros x Hor. rewrite Hx. case_if; [|done]. pose proof (wf_prev_hp vm Hwf).
    pose proof (wf_hp_reg _ Hwf). destruct Hm. lia.
Qed.

Lemma loaded_after_local vm v vm' : local_step vm v -> loaded v vm' -> loaded vm vm'.
Proof.
  intros Hl []. pose proof Hl as [].
  assert (Hp : prev_hp v = prev_hp vm)
    by (unfold prev_hp, ownership_registers; cbn; by rewrite ls_frames).
  split; try congruence; try lia.
  - intros x Hx Hn. rewrite ld_mem0; [by apply ls_mem|by rewrite ls_ssp, Hp|].
    unfold in_size_field in *. by rewrite ls_context, ls_fp.
  - rewrite <- ls_context, <- ls_fp. exact ld_size0.
  - destruct ls_receipts as (l1 & E1 & Q1), ld_receipts0 as (l2 & E2 & Q2).
    exists (l1 ++ l2). rewrite E2, E1, app_assoc. split; [done|by apply Forall_app].
Qed.

(** What loading [len] bytes does once they are in the memory [m]. *)
Record load_result vm (len : Z) (m : MemoryInstance) vm' : Prop := {
  lr_wf : vm_wf vm';
  lr_loaded : loaded vm vm';
  lr_ssp : reg vm' RegId.SSP = reg vm RegId.SSP + len;
  lr_sp : reg vm' RegId.SP = reg vm RegId.SSP + len;
  lr_pc : reg vm' RegId.PC = reg vm RegId.PC + Instruction_SIZE;
  lr_mem : forall x, reg vm RegId.SSP <= x -> mem_get (memory vm') x = mem_get m x
}.

(** The frame header lies below the stack. *)
Lemma frame_inv_size vm :
  frame_inv vm -> context_is_internal (context vm) = true ->
  0 < reg vm RegId.FP /\ reg vm RegId.FP + serialized_size <= reg vm RegId.SSP /\
  code_size_shown (memory vm) (reg vm RegId.SSP) (reg vm RegId.FP).
Proof.
  intros [_ [[_ Hc]|[_ [h Hc] Hsh]]] Hint; [congruence|]. rewrite Hc in Hint.
  destruct (frames vm) as [|f fs]; [done|]. destruct Hsh as (? & _ & ? & [_ ?] & _). done.
Qed.


(** Raising the stack start, with a memory that shows the grown code size. *)
Lemma load_result_intro vm len m m' :
  vm_wf vm -> frame_inv vm -> 0 <= len -> len mod WORD_SIZE = 0 ->
  stack_room (memory vm) (reg vm RegId.SSP) len m -> same_shape m m' ->
  (forall x, ~ in_size_field vm x -> mem_get m' x = mem_get m x) ->
  (context_is_internal (context vm) = true ->
     code_size_shown m' (reg vm RegId.SSP + len) (reg vm RegId.FP)) ->
  reg vm RegId.PC + Instruction_SIZE < U64 ->
  load_result vm len m
    (set_reg (stack_at vm (reg vm RegId.SSP + len) m') RegId.PC (reg vm RegId.PC + Instruction_SIZE)).
Proof.
  intros Hwf Hfi Hlen Hmod (Hm & Hhp & Hst & Hle & Hx) Hsh Hsame Hsize Hpc.
  pose proof (wf_regs _ Hwf) as [Hl _]. pose proof (wf_hp_reg _ Hwf) as Hhr.
  pose proof (wf_prev_hp vm Hwf). pose proof (wf_reg_u64 vm RegId.PC Hwf) as [? _].
  pose proof Hsh as (Hss & Hsh1 & Hsh2).
  assert (Hwf' : vm_wf (stack_at vm (reg vm RegId.SSP + len) m')).
  { apply wf_stack_at; try done; try lia; by eapply same_shape_wf. }
  set (n := reg vm RegId.SSP + len) in *.
  pose proof (local_put_reg (S := S) (fun _ => True) RegId.PC (reg vm RegId.PC + Instruction_SIZE)
    (fun _ _ => True) free_PC) as Hput.
  destruct (Hput ltac:(unfold u64_ok, Instruction_SIZE in *; lia) ltac:(done) _ Hwf' I) as (Hwf2 & Hl2 & _).
  assert (Hr : forall i, i <> RegId.PC -> reg (set_reg (stack_at vm n m') RegId.PC
    (reg vm RegId.PC + Instruction_SIZE)) i =
    if (i =? RegId.SSP) || (i =? RegId.SP) then n else reg vm i).
  { intros i Hi. rewrite reg_set_ne by (done || congruence). by apply reg_stack_at. }
  assert (Hhigh : forall x, in_size_field vm x -> x < reg vm RegId.SSP).
  { intros x [Hint Hf]. destruct (frame_inv_size vm Hfi Hint) as (_ & Hb & _).
    change serialized_size with 600 in Hb. change code_size_offset with 576 in Hf. lia. }
  split; [done| | | | |].
  - split; rewrite ?Hr by done; reg_eqb; cbn [orb]; try done; try lia.
    + unfold n. by replace (reg vm RegId.SSP + len - reg vm RegId.SSP) with len by lia.
    + intros x Hor Hn. cbn. rewrite Hsame by done. apply Hx. unfold n in *. lia.
    + exists []. by rewrite app_nil_r.
  - by rewrite Hr.
  - by rewrite Hr.
  - apply reg_set_eq; [|done]. cbn. by rewrite !zlen_set_reg.
  - intros x Hxs. cbn. apply Hsame. intros Hf%Hhigh. lia.
Qed.

Lemma pad_or_panic_id v : v mod WORD_SIZE = 0 -> pad_or_panic v = Ok v.
Proof. intros Hv. unfold pad_or_panic, padded_len_word. by rewrite Hv. Qed.

Lemma pad_or_crash_id v : v mod WORD_SIZE = 0 -> pad_or_crash v = Ok v.
Proof. intros Hv. unfold pad_or_crash, padded_len_word. by rewrite Hv. Qed.

Lemma stack_at_err e vm n m :
  vm_wf vm -> vm_wf (stack_at vm n m) -> reg vm RegId.SSP <= n ->
  local_err e (stack_at vm n m) (stack_at vm n m) -> local_err e vm (stack_at vm n m).
Proof.
  intros Hwf Hwf' Hn []. pose proof (wf_regs _ Hwf) as [Hl _].
  rewrite !reg_stack_at in * by done. revert le_gas le_stack. reg_eqb. cbn [orb]. intros. split; try done; [rewrite reg_stack_at by done; by reg_eqb|lia].
Qed.

(** The end of the instruction: the next one, or an overflowing program counter. *)
Lemma load_next vm len m m' :
  vm_wf vm -> frame_inv vm -> 0 <= len -> len mod WORD_SIZE = 0 ->
  stack_room (memory vm) (reg vm RegId.SSP) len m -> same_shape m m' ->
  (forall x, ~ in_size_field vm x -> mem_get m' x = mem_get m x) ->
  (context_is_internal (context vm) = true ->
     code_size_shown m' (reg vm RegId.SSP + len) (reg vm RegId.FP)) ->
  wp inc_pc (fun _ => load_result vm len m) (fun e v => local_err e vm v)
    (stack_at vm (reg vm RegId.SSP + len) m').
Proof.
  intros Hwf Hfi Hlen Hmod Hroom Hsh Hsame Hsize. pose proof (wf_regs _ Hwf) as [Hl _].
  apply wp_inc_pc.
  - rewrite reg_stack_at by done. reg_eqb. intros Hpc. by apply load_result_intro.
  - destruct Hroom as (Hm & Hhp & Hst & Hle & _). pose proof Hsh as (? & ? & ?).
    pose proof (wf_hp_reg _ Hwf). assert (Hwf' : vm_wf (stack_at vm (reg vm RegId.SSP + len) m')).
    { apply wf_stack_at; try done; try lia; by eapply same_shape_wf. }
    apply stack_at_err; [done|done|lia|]. by apply wf_err.
Qed.

Lemma ldc_finish_spec pad vm len m :
  (forall v, v mod WORD_SIZE = 0 -> pad v = Ok v) ->
  vm_wf vm -> frame_inv vm -> 0 <= len -> len mod WORD_SIZE = 0 ->
  stack_room (memory vm) (reg vm RegId.SSP) len m ->
  wp (ldc_frame_size pad len ;;; inc_pc) (fun _ => load_result vm len m)
     (fun e v => local_err e vm v) (stack_at vm (reg vm RegId.SSP + len) m).
Proof.
  intros Hpad Hwf Hfi Hlen Hmod Hroom. pose proof (wf_regs _ Hwf) as [Hl _].
  apply wp_bind. unfold ldc_frame_size. do 2 wp_step.
  change (context (stack_at vm _ m)) with (context vm).
  destruct (context_is_internal (context vm)) eqn:Hint.
  2:{ apply wp_mret, load_next; try done. congruence. }
  destruct (frame_inv_size vm Hfi Hint) as (Hfp & Hb & v & Hv & Hvm & Hv0 & Hvb).
  do 2 wp_step. rewrite reg_stack_at by done. reg_eqb. cbn [orb]. cbv iota.
  pose proof Hroom as (Hm & Hhp & Hst & Hle & Hx). pose proof (wf_reg_u64 vm RegId.SSP Hwf) as [_ Hs1].
  change serialized_size with 600 in *. pose proof (wf_hp _ Hm). unfold MEM_SIZE, VM_MAX_RAM in *.
  assert (saturating_add (reg vm RegId.FP) code_size_offset = reg vm RegId.FP + code_size_offset) as ->
    by (unfold saturating_add; change code_size_offset with 576; lia).
  set (p := reg vm RegId.FP + code_size_offset) in *.
  assert (Hp : 0 <= p /\ p + 8 <= reg vm RegId.SSP)
    by (unfold p; change code_size_offset with 576; lia).
  assert (Hacc : forall m', same_shape m m' -> accessible m' p 8)
    by (intros m' (? & ? & ?); unfold accessible, MEM_SIZE, VM_MAX_RAM; lia).
  assert (Hshow : mem_shows m p (enc_word v)).
  { eapply mem_shows_ext; [|exact Hv]. unfold enc_word. rewrite zlen_to_be_bytes. intros x Hxp. apply Hx. lia. }
  assert (Hrd : read_bytes m p 8 = Ok (enc_word v)).
  { rewrite read_bytes_eq by (done || lia). change 8 with (zlen (enc_word v)) at 1.
    apply mem_shows_read; [done|by apply Hacc|done]. }
  unfold mem_read_bytes. do 4 wp_step. cbn [memory stack_at]. change (memory (stack_at vm _ m)) with m. rewrite Hrd.
  do 2 wp_step. unfold enc_word at 1. rewrite to_from_be_bytes by (change (256 ^ Z.of_nat 8) with U64; lia).
  rewrite Hpad by done. do 2 wp_step. rewrite checked_add_Some by lia. cbn [ok_or].
  apply wp_update_memory. change (memory (stack_at vm _ m)) with m.
  destruct (write_bytes_noownerchecks_Ok m p (to_be_bytes 8 (v + len)) Hm) as (m' & -> & Hu).
  { by apply Hacc. }
  apply (load_next vm len m m'); try done.
  - apply Hu.
  - intros x Hn. rewrite (proj2 Hu), zlen_to_be_bytes.
    case_if; [|done]. destruct Hn. split; [done|fold p; lia].
  - intros _. exists (v + len). split_and!; [by eapply mem_upd_shows| |lia|change serialized_size with 600; lia].
    rewrite Z.add_mod, Hvm, Hmod by done. done.
Qed.

(** ** The three sources of code *)

Lemma kept_then {A B} o (P : A -> Prop) (m : M S A) (f : A -> M S B) Q vm0 vm :
  kept o P m -> vm_wf vm -> storage_wf (storage vm) -> ownership_registers vm = o ->
  local_step vm0 vm ->
  (forall a v, P a -> vm_wf v -> storage_wf (storage v) -> ownership_registers v = o ->
     local_step vm0 v -> wp (f a) Q (fun e v => local_err e vm0 v) v) ->
  wp (mbind_ m f) Q (fun e v => local_err e vm0 v) vm.
Proof.
  intros Hm Hwf Hs Ho Hl Hf. apply wp_bind. eapply wp_mono; [by apply (Hm vm Hwf)| |].
  - intros a v (? & Hl1 & ? & ?). apply Hf; try done; [by rewrite (ls_storage _ _ Hl1)|by etrans].
  - intros e v. by apply local_step_err.
Qed.

(** [bs] has been loaded: [v] is the state once the gas is paid, [m] the memory that holds
    the code. *)
Definition code_loaded vm (src : list byte -> Prop) vm' : Prop :=
  exists v m bs, vm_wf v /\ local_step vm v /\ reg v RegId.SSP = reg v RegId.SP /\
    load_result v (zlen bs) m vm' /\ mem_shows m (reg v RegId.SSP) bs /\ src bs.

Lemma padded_len_word_ok n p :
  u64_ok n -> padded_len_word n = Some p -> n <= p < n + 8 /\ p mod WORD_SIZE = 0 /\ p < U64.
Proof. apply padded_len_usize_ok. Qed.

(** The padded length, where it exists. *)
Lemma padded_default n :
  u64_ok n -> default (U64 - 1) (padded_len_word n) <= VM_MAX_RAM ->
  padded_len_word n = Some (default (U64 - 1) (padded_len_word n)) /\
  default (U64 - 1) (padded_len_word n) mod WORD_SIZE = 0.
Proof.
  intros Hn. destruct (padded_len_word n) as [p|] eqn:E; cbn.
  - intros _. split; [done|]. by apply (padded_len_word_ok n p).
  - unfold VM_MAX_RAM. lia.
Qed.

Lemma padded_default_word n : u64_ok n -> u64_ok (default (U64 - 1) (padded_len_word n)).
Proof.
  intros Hn. destruct (padded_len_word n) as [p|] eqn:E; cbn; [|done].
  destruct (padded_len_word_ok n p Hn E) as (? & _ & ?). unfold u64_ok in *. lia.
Qed.

(** Growing, allocating and copying from the storage. *)
Lemma load_from_storage pad (f : S -> Z -> Z -> option (option (list byte))) nf vm0 vm len off slen :
  (forall v, v mod WORD_SIZE = 0 -> pad v = Ok v) ->
  (forall s i k bs, storage_wf s -> 0 <= i -> 0 <= k -> f s i k = Some (Some bs) -> zlen bs = k) ->
  vm_wf vm -> storage_wf (storage vm) -> frame_inv vm -> local_step vm0 vm ->
  reg vm RegId.SSP = reg vm RegId.SP -> 0 <= len -> (len <= VM_MAX_RAM -> len mod WORD_SIZE = 0) ->
  u64_ok off ->
  wp (grown <- ldc_grow len ;;
      ldc_allocate (snd grown) ;;;
      update_memory_from (fun s m => copy_from_storage_zero_fill (f s) m (fst grown)
        (reg vm RegId.SSP) len off slen nf) ;;;
      ldc_frame_size pad len ;;;
      inc_pc)
    (fun _ => code_loaded vm0 (fun bs => zlen bs = len /\ zero_filled (f (storage vm0)) off slen len bs))
    (fun e v => local_err e vm0 v) vm.
Proof.
  intros Hpad Hf Hwf Hs Hfi Hl Hsp Hlen Hmod Hoff. apply wp_bind.
  apply (ldc_grow_spec vm0 vm); [done..|]. intros m Hram Hroom Hwm. cbn [fst snd].
  unfold ldc_allocate.
  do 4 wp_step. apply wp_bind.
  change (set_reg (set_reg (set_memory vm m) RegId.SP (reg vm RegId.SSP + len)) RegId.SSP
    (reg vm RegId.SSP + len)) with (stack_at vm (reg vm RegId.SSP + len) m).
  pose proof Hroom as (Hm & Hhp & Hst & Hle & _). pose proof (wf_reg_u64 vm RegId.SSP Hwf) as [Hs0 _].
  pose proof (wf_hp_reg _ Hwf) as Hhr.
  set (o := only_allow_stack_write _ _ _).
  pose proof (zero_fill_spec (f (storage vm)) m o (reg vm RegId.SSP) len off slen nf Hm Hs0 Hlen
    (proj1 Hoff) (fun i k bs => Hf (storage vm) i k bs Hs)) as Hc.
  unfold wp at 1, update_memory_from.
  change (storage (stack_at vm _ m)) with (storage vm). change (memory (stack_at vm _ m)) with m.
  destruct (copy_from_storage_zero_fill _ _ _ _ _ _ _ _) as [m'|e|]; [| |done].
  - destruct Hc as (_ & _ & bs & Hbl & Hz & Hu).
    change (set_memory (stack_at vm _ m) m') with (stack_at vm (reg vm RegId.SSP + len) m').
    eapply wp_mono; [apply (ldc_finish_spec pad vm len m')|..]; try done; auto.
    + by eapply stack_room_upd.
    + intros [] vm' Hr. exists vm, m', bs. rewrite Hbl. rewrite <- (ls_storage _ _ Hl).
      split_and!; try done. by eapply mem_upd_shows.
    + intros e v. by apply local_step_err.
  - assert (Hwa : vm_wf (stack_at vm (reg vm RegId.SSP + len) m))
      by (apply wf_stack_at; try done; lia).
    eapply local_step_err; [done|]. apply stack_at_err; [done|done|lia|].
    destruct (wf_err _ OutOfGas Hwa). split; try done. by intros b ->.
Qed.

Lemma wp_mem_read_bytes vm a n (Q : list byte -> Interpreter S -> Prop) :
  vm_wf vm -> u64_ok a -> 0 <= n ->
  (forall bs, read_bytes (memory vm) a n = Ok bs -> zlen bs = n -> Q bs vm) ->
  wp (mem_read_bytes a n) Q (fun e v => local_err e vm v) vm.
Proof.
  intros Hwf Ha Hn HQ. pose proof (safe_mem_read_bytes a n Ha Hn vm Hwf I) as Hs.
  unfold wp, mem_read_bytes, mbind_, gets, lift_panic, lift in *.
  destruct (read_bytes (memory vm) a n); cbn in *; [|done..]. apply HQ; [done|]. apply Hs.
Qed.

(** What a load from a contract copies. *)
Definition contract_source vm (addr off len : Z) (bs : list byte) : Prop :=
  exists id size n, read_bytes (memory vm) addr 32 = Ok id /\ id ∈ input_contracts vm /\
    contract_size (storage vm) id = Ok size /\ padded_len_word len = Some n /\
    n <= contract_max_size (interpreter_params vm) /\ zlen bs = n /\
    zero_filled (storage_contract_read (storage vm) id) off size n bs.

Lemma same_owner_stack (vm v : Interpreter S) :
  ownership_registers v = ownership_registers vm -> reg vm RegId.SSP = reg vm RegId.SP ->
  reg v RegId.SSP = reg v RegId.SP /\ reg v RegId.SSP = reg vm RegId.SSP.
Proof.
  intros Ho Hs. pose proof (f_equal o_ssp Ho) as H1'. pose proof (f_equal o_sp Ho) as H2'.
  cbn in H1', H2'. lia.
Qed.

Lemma input_of_check vm c (Q : unit -> Interpreter S -> Prop) :
  vm_wf vm -> (c ∈ input_contracts vm -> Q tt vm) ->
  wp (check_contract_in_inputs c) Q (fun e v => local_err e vm v) vm.
Proof.
  intros Hwf HQ. unfold check_contract_in_inputs. do 2 wp_step.
  case_bool_decide; [apply wp_mret; auto|]. do 3 wp_step.
  destruct (wf_err vm ContractNotInInputs Hwf). by split.
Qed.

Lemma code_loaded_mono vm (P Q : list byte -> Prop) vm' :
  (forall v m bs, vm_wf v -> load_result v (zlen bs) m vm' -> P bs -> Q bs) ->
  code_loaded vm P vm' -> code_loaded vm Q vm'.
Proof.
  intros HPQ (v & m & bs & ? & ? & ? & ? & ? & ?). exists v, m, bs. split_and!; try done. by eapply HPQ.
Qed.

(** What fits was not saturated. *)
Lemma load_result_fits vm len m vm' : load_result vm len m vm' -> vm_wf vm -> len <= VM_MAX_RAM.
Proof.
  intros Hr Hwf. pose proof (lr_ssp _ _ _ _ Hr). pose proof (lr_wf _ _ _ _ Hr) as Hwf'.
  pose proof (wf_ssp _ Hwf'). pose proof (wf_sp _ Hwf'). pose proof (wf_hp_reg _ Hwf').
  pose proof (wf_hp _ (wf_mem _ Hwf')). pose proof (wf_reg_u64 vm RegId.SSP Hwf) as [? _].
  unfold MEM_SIZE in *. lia.
Qed.

Lemma load_contract_code_spec vm gc addr off len :
  vm_wf vm -> storage_wf (storage vm) -> frame_inv vm -> cost_ok gc ->
  u64_ok addr -> u64_ok off -> u64_ok len ->
  wp (load_contract_code gc addr off len)
    (fun _ => code_loaded vm (contract_source vm addr off len))
    (fun e v => local_err e vm v) vm.
Proof.
  intros Hwf Hs Hfi Hgc Ha Ho Hlen. unfold load_contract_code. do 6 wp_step.
  case_if; [apply wp_merr; by apply wf_err|]. case_if; [apply wp_merr; by apply wf_err|].
  zbool. apply wp_bind, wp_mem_read_bytes; [done|done|lia|]. intros id Hid Hidl.
  do 2 wp_step. destruct (padded_len_word len) as [n|] eqn:En; cbn [ok_or]; [|by apply wf_err].
  destruct (padded_len_word_ok len n Hlen En) as (Hn1 & Hn2 & Hn3). unfold u64_ok in Hlen.
  do 2 wp_step. case_if; [apply wp_merr; by apply wf_err|].
  apply wp_bind, input_of_check; [done|]. intros Hin.
  apply wp_bind. unfold get_contract_size. do 3 wp_step.
  pose proof (contract_size_ok (storage vm) id Hs) as Hcs.
  destruct (contract_size (storage vm) id) as [size|e|] eqn:Esz; [| |done].
  2:{ destruct (wf_err vm OutOfGas Hwf). split; try done. by intros b ->. }
  assert (Hz : u64_ok (Z.max size n)) by (unfold u64_ok; lia).
  eapply (kept_then (ownership_registers vm)); [by apply kept_dep_charge|done..|].
  intros _ v _ Hwv Hsv Hov Hlv.
  destruct (same_owner_stack vm v Hov) as [Hsp' Hss']; [done|]. rewrite <- Hss'.
  eapply wp_mono; [apply (load_from_storage pad_or_panic (fun s => storage_contract_read s id)
    ContractNotFound vm v n off size)| |done]; try done; try lia.
  - apply pad_or_panic_id.
  - intros s i k bs. apply read_fills.
  - exact (frame_inv_local vm v Hwf Hfi Hlv).
  - intros [] vm'. apply code_loaded_mono. intros v' m bs _ _ [Hbl Hz']. exists id, size, n.
    by split_and!.
Qed.

(** What a load from a blob copies. *)
Definition blob_source vm (addr off len : Z) (bs : list byte) : Prop :=
  exists id size n, read_bytes (memory vm) addr 32 = Ok id /\
    blob_size_of (storage vm) id = Ok size /\ padded_len_word len = Some n /\ zlen bs = n /\
    zero_filled (storage_blob_read (storage vm) id) off size n bs.

Lemma blob_size_ok (s : S) b :
  storage_wf s ->
  match blob_size_of s b with
  | Ok n => 0 <= n < 2 ^ 63 | Err (Bug _) => False | Err _ => True | Crash => False
  end.
Proof.
  intros Hs. unfold blob_size_of, storage_result.
  destruct (storage_blob_size s b) as [[n|]|] eqn:E; cbn; try done. by eapply blob_range.
Qed.

Lemma load_blob_code_spec vm gc addr off len :
  vm_wf vm -> storage_wf (storage vm) -> frame_inv vm -> cost_ok gc ->
  u64_ok addr -> u64_ok off -> u64_ok len ->
  wp (load_blob_code gc addr off len)
    (fun _ => code_loaded vm (blob_source vm addr off len))
    (fun e v => local_err e vm v) vm.
Proof.
  intros Hwf Hs Hfi Hgc Ha Ho Hlen. unfold load_blob_code. do 4 wp_step.
  case_if; [apply wp_merr; by apply wf_err|].
  zbool. apply wp_bind, wp_mem_read_bytes; [done|done|lia|]. intros id Hid Hidl.
  set (n := default _ _). pose proof (padded_default_word len Hlen) as Hn. fold n in Hn.
  pose proof (padded_default len Hlen) as Hpd. fold n in Hpd.
  apply wp_bind. unfold get_blob_size. do 3 wp_step.
  pose proof (blob_size_ok (storage vm) id Hs) as Hcs.
  destruct (blob_size_of (storage vm) id) as [size|e|] eqn:Esz; [| |done].
  2:{ destruct (wf_err vm OutOfGas Hwf). split; try done. by intros b ->. }
  assert (Hz : u64_ok (Z.max size n)) by (unfold u64_ok in *; lia).
  eapply (kept_then (ownership_registers vm)); [by apply kept_dep_charge|done..|].
  intros _ v _ Hwv Hsv Hov Hlv.
  destruct (same_owner_stack vm v Hov) as [Hsp' Hss']; [done|]. rewrite <- Hss'.
  eapply wp_mono; [apply (load_from_storage pad_or_crash (fun s => storage_blob_read s id)
    BlobNotFound vm v n off size)| |done]; try done; try apply Hn.
  - apply pad_or_crash_id.
  - intros s i k bs. apply blob_fills.
  - exact (frame_inv_local vm v Hwf Hfi Hlv).
  - intros Hram. by apply Hpd.
  - intros [] vm'. apply code_loaded_mono. intros v' m bs Hwv' Hr [Hbl Hz'].
    exists id, size, n. rewrite Hbl in Hr. split_and!; try done.
    apply Hpd. by eapply load_result_fits.
Qed.

(** What a load from memory copies: the bytes at the source, wherever it lies outside the
    room made for the new code. *)
Definition memory_source vm (addr off len : Z) (bs : list byte) : Prop :=
  exists code n, padded_len_word len = Some n /\ zlen code = len /\
    bs = code ++ replicate (Z.to_nat (n - len)) x00 /\
    forall i, 0 <= i < len -> ~ (reg vm RegId.SSP <= addr + off + i < reg vm RegId.SSP + n) ->
      mem_get (memory vm) (addr + off + i) = zget code i.

(** The copy and the padding of [load_memory_code]. *)
Lemma load_memory_copy m0 m a src len n o (Q : MemoryInstance -> Prop) vm :
  vm_wf vm -> memory vm = m -> stack_room m0 a n m -> 0 <= a -> 0 <= src -> 0 < len <= n ->
  n < U64 ->
  (forall code m', zlen code = len -> mem_shows m src code -> src + len <= MEM_SIZE ->
     mem_upd m a (code ++ replicate (Z.to_nat (n - len)) x00) m' -> Q m') ->
  wp (update_memory (fun m => memcopy m a src len o) ;;;
      (if 0 <? saturating_sub n len then
         update_memory (fun m =>
           let? s := write m o (saturating_add a len) (saturating_sub n len) in
           slice_fill m s x00)
       else mret tt))
    (fun _ v => exists m', v = set_memory vm m' /\ Q m')
    (fun e v => local_err e vm v) vm.
Proof.
  intros Hwf Hmv Hroom Ha Hsrc Hlen Hn HQ. pose proof Hroom as (Hm & _ & Hst & Hle & _).
  pose proof (wf_hp _ Hm) as Hmax. unfold saturating_sub. rewrite Z.max_l by lia.
  apply wp_bind, wp_update_memory. rewrite Hmv.
  destruct (memcopy m a src len o) as [m1|e|] eqn:E; [|by apply wf_err|];
    destruct (memcopy_conditions m a src len o) as (Aa & Ab & Hd & Hown);
    try lia; try (by rewrite E); destruct (memcopy_Ok m a src len o Hm Aa Ab Hd Hown)
      as (m1' & code & E1 & Hcl & Hsh & Hu); [|congruence].
  assert (m1' = m1) as -> by congruence. pose proof Ab as (_ & _ & Hsl & _).
  pose proof (mem_upd_wf _ _ _ _ Hu Hm) as Hm1. case_if; zbool.
  - assert (saturating_add a len = a + len) as ->
      by (unfold saturating_add, MEM_SIZE, VM_MAX_RAM in *; lia).
    apply wp_update_memory. change (memory (set_memory vm m1)) with m1.
    pose proof (memclear_spec m1 o (a + len) (n - len) Hm1) as Hc.
    destruct (let? s := _ in _) as [m2|e|]; [| |destruct Hc; lia].
    + destruct Hc as (_ & _ & Hu2); [lia..|]. exists m2. split; [done|].
      apply (HQ code); try done. eapply mem_upd_app; [exact Hu|]. by rewrite Hcl.
    + assert (Hw1 : vm_wf (set_memory vm m1)).
      { subst m. destruct Hu as [(Hs1 & _ & Hh1) _]. destruct Hwf.
        split; autorewrite with vm; try done; cbn; lia. }
      destruct (wf_err _ e Hw1). by split.
  - apply wp_mret. exists m1. split; [done|]. apply (HQ code); try done.
    assert (n - len = 0) as -> by lia. by rewrite app_nil_r.
Qed.

(** Charging changes only the gas registers. *)
Lemma wp_dep_charge_exact vm c arg (Q : unit -> Interpreter S -> Prop) :
  vm_wf vm -> cost_ok c -> u64_ok arg ->
  (forall v, vm_wf v -> local_step vm v -> memory v = memory vm ->
     (forall i, i <> RegId.CGAS -> i <> RegId.GGAS -> reg v i = reg vm i) -> Q tt v) ->
  wp (dependent_gas_charge_without_base c arg) Q (fun e v => local_err e vm v) vm.
Proof.
  intros Hwf Hc Ha HQ. unfold dependent_gas_charge_without_base.
  destruct (resolve_without_base_ok c arg Hc Ha) as (g & -> & Hg & _). do 2 wp_step.
  pose proof (local_gas_charge vm g Hwf Hg) as Hl. pose proof (wf_regs _ Hwf) as [Hlen _].
  unfold wp in *. rewrite gas_charge_eq in * by done. case_if; [|done].
  apply HQ; try done; try apply Hl. intros i ? ?. rewrite reg_set_gas_regs by done. by repeat case_if.
Qed.

Lemma wp_assoc {A B C} (m : M S A) (f : A -> M S B) (g : B -> M S C) Q E vm :
  wp (mbind_ (mbind_ m f) g) Q E vm -> wp (mbind_ m (fun a => mbind_ (f a) g)) Q E vm.
Proof. unfold wp, mbind_. by destruct (m vm) as [[a| |] v]. Qed.

Lemma load_memory_code_spec vm gc addr off len :
  vm_wf vm -> frame_inv vm -> cost_ok gc -> u64_ok addr -> u64_ok off -> u64_ok len ->
  wp (load_memory_code gc addr off len)
    (fun _ vm' => if len =? 0 then vm_wf vm' /\ local_step vm vm'
                  else code_loaded vm (memory_source vm addr off len) vm')
    (fun e v => local_err e vm v) vm.
Proof.
  intros Hwf Hfi Hgc Ha Ho Hlen. unfold load_memory_code. do 4 wp_step.
  case_if; [apply wp_merr; by apply wf_err|]. zbool. destruct (Z.eqb_spec len 0) as [|Hne].
  { eapply wp_mono; [by apply (safe_inc_pc vm Hwf)| |done]. intros [] v (? & ? & _). done. }
  set (n := default _ _). pose proof (padded_default_word len Hlen) as Hn. fold n in Hn.
  pose proof (padded_default len Hlen) as Hpd. fold n in Hpd.
  apply wp_bind, wp_dep_charge_exact; [done..|]. intros v Hwv Hlv Hmv Hrv.
  pose proof (frame_inv_local vm v Hwf Hfi Hlv) as Hfv. apply wp_bind.
  pose proof (wf_reg_u64 v RegId.SSP Hwv) as [Hs0 _].
  assert (Hsp : reg v RegId.SSP = reg v RegId.SP) by by rewrite !Hrv.
  rewrite <- (Hrv RegId.SSP) by done. unfold u64_ok in *.
  apply (ldc_grow_spec vm v); [done|done|done|lia|]. intros m Hram Hroom Hwm. cbn [fst snd].
  set (o := only_allow_stack_write _ _ _). destruct (Hpd Hram) as [Hpad Hmod].
  destruct (padded_len_word_ok len n Hlen Hpad) as (Hn1 & _ & _).
  set (src := saturating_add addr off).
  assert (0 <= src) by (unfold src, saturating_add; lia).
  pose proof Hroom as (Hm & Hhp & Hst & Hle & Hx). pose proof (wf_hp _ Hm) as Hmax.
  apply wp_assoc, wp_bind. eapply wp_mono.
  - apply (load_memory_copy (memory v) m (reg v RegId.SSP) src len n o (fun m' => exists code,
      zlen code = len /\ mem_shows m src code /\ src + len <= MEM_SIZE /\
      mem_upd m (reg v RegId.SSP) (code ++ replicate (Z.to_nat (n - len)) x00) m')); try done; try lia.
    intros code m' ? ? ? ?. by exists code.
  - intros [] v' (m' & -> & code & Hcl & Hsh & Hsrc & Hu). unfold ldc_allocate. do 4 wp_step.
    change (set_reg (set_reg (set_memory (set_memory v m) m') RegId.SP (reg v RegId.SSP + n)) RegId.SSP
      (reg v RegId.SSP + n)) with (stack_at v (reg v RegId.SSP + n) m').
    assert (Hbl : zlen (code ++ replicate (Z.to_nat (n - len)) x00) = n)
      by (rewrite zlen_app, zlen_replicate; lia).
    eapply wp_mono; [apply (ldc_finish_spec pad_or_crash v n m')|..]; try done; try lia.
    + apply pad_or_crash_id.
    + by eapply stack_room_upd.
    + intros [] vm' Hr. exists v, m', (code ++ replicate (Z.to_nat (n - len)) x00).
      rewrite Hbl. split_and!; try done; [by eapply mem_upd_shows|].
      exists code, n. split_and!; try done. assert (src = addr + off) as Hsa
        by (unfold src, saturating_add, MEM_SIZE, VM_MAX_RAM in *; lia).
      rewrite <- (ls_ssp _ _ Hlv), <- Hmv, <- Hsa. intros i Hi Hni.
      rewrite <- Hx by done. apply Hsh. lia.
    + intros e v'. by apply local_step_err.
  - intros e v' He. eapply local_step_err; [done|]. destruct He. by split.
Qed.

(** What each mode loads. *)
Definition code_source vm (mode addr off len : Z) : list byte -> Prop :=
  if mode =? 0 then contract_source vm addr off len
  else if mode =? 1 then blob_source vm addr off len
  else memory_source vm addr off len.

(** The outcome of [load_code], from the state [v] in which the base cost is paid. *)
Lemma load_code_wp vm k addr off len mode :
  vm_wf vm -> storage_wf (storage vm) -> frame_inv vm -> k <= cost_base (dep_cost (gas_costs vm) d_ldc) ->
  u64_ok addr -> u64_ok off -> u64_ok len ->
  wp (load_code addr off len mode)
    (fun _ vm' => exists v, vm_wf v /\ local_step vm v /\ memory v = memory vm /\
       reg v RegId.GGAS + k <= reg vm RegId.GGAS /\
       if (mode =? 2) && (len =? 0) then vm_wf vm' /\ local_step v vm'
       else code_loaded v (code_source v mode addr off len) vm')
    (fun e v => local_err e vm v) vm.
Proof.
  intros Hwf Hs Hfi Hk Ha Ho Hlen. unfold load_code, get_dep_cost. do 3 wp_step.
  destruct (wf_costs _ Hwf) as [_ Hd]. set (gc := dep_cost (gas_costs vm) d_ldc) in *.
  assert (Hgc : cost_ok gc) by apply Hd. pose proof (cost_base_nonneg gc Hgc) as Hb.
  pose proof (local_gas_charge vm _ Hwf Hb) as Hc. unfold wp at 1 in Hc. unfold wp at 1.
  rewrite gas_charge_eq in * by done. case_if; [|done]. destruct Hc as (Hwv & Hlv & Hgv).
  set (v := set_gas_regs _ _ _) in *.
  assert (Hfv : frame_inv v) by exact (frame_inv_local vm v Hwf Hfi Hlv).
  assert (Hsv : storage_wf (storage v)) by done.
  assert (Hpost : forall m R, wp m (fun (_ : unit) vm' => R v vm') (fun e w => local_err e v w) v ->
    wp m (fun _ vm' => exists v, vm_wf v /\ local_step vm v /\ memory v = memory vm /\
       reg v RegId.GGAS + k <= reg vm RegId.GGAS /\ R v vm') (fun e v => local_err e vm v) v).
  { intros m R Hm. eapply wp_mono; [exact Hm| |intros e w; by apply local_step_err].
    intros [] vm' Hr. exists v. split_and!; try done. lia. }
  clearbody v. unfold code_source.
  destruct (Z.eqb_spec mode 0) as [->|]; 
    [by apply (Hpost _ (fun v => code_loaded v (contract_source v addr off len))), load_contract_code_spec|].
  destruct (Z.eqb_spec mode 1) as [->|]; 
    [by apply (Hpost _ (fun v => code_loaded v (blob_source v addr off len))), load_blob_code_spec|].
  destruct (Z.eqb_spec mode 2) as [->|]; [|apply wp_merr; eapply local_step_err; [done|by apply wf_err]].
  cbn [andb].
  apply (Hpost _ (fun v vm' => if len =? 0 then vm_wf vm' /\ local_step v vm'
    else code_loaded v (memory_source v addr off len) vm')).
  by apply load_memory_code_spec.
Qed.

(** Loading code keeps the call discipline. *)
Lemma call_inv_loaded vm vm' : vm_wf vm -> call_inv vm -> loaded vm vm' -> call_inv vm'.
Proof.
  intros Hwf [Hssp [h Hctx] Hsh] Hld. pose proof (wf_frames _ Hwf) as Hok. destruct Hld. split.
  - lia.
  - exists h. by rewrite ld_context0, ld_frames0.
  - rewrite ld_fp0, ld_frames0. destruct (frames vm) as [|f rest]; [done|].
    assert (Hint : context_is_internal (context vm) = true) by by rewrite Hctx.
    destruct Hok as (_ & _ & _ & _ & _ & Hok).
    destruct Hsh as (Hfp & Hab & Hsz & [Hhead _] & Hf & Hs & Hrest).
    change serialized_size with 600 in *. unfold in_size_field in ld_mem0.
    change code_size_offset with 576 in *. cbn [frames_shown].
    change serialized_size with 600. split_and!; try done; try lia.
    + split; [|by apply ld_size0]. eapply mem_shows_ext; [|exact Hhead].
      rewrite zlen_frame_head by done. change code_size_offset with 576.
      intros x Hx. apply ld_mem0; lia.
    + eapply frames_shown_ext; [exact Hok| |done]. intros x Hx. apply ld_mem0; lia.
Qed.

Lemma code_loaded_step vm src vm' : code_loaded vm src vm' -> vm_wf vm' /\ loaded vm vm'.
Proof.
  intros (v & m & bs & _ & Hl & _ & [] & _). split; [done|]. by eapply loaded_after_local.
Qed.
End Load.

(** ** The exact effect *)

Section LoadExact.
Context {S : Type} `{Sha256} `{StorageLaws S}.
Implicit Types (vm : Interpreter S).

Lemma code_source_same vm v mode addr off len bs :
  local_step vm v -> memory v = memory vm -> code_source v mode addr off len bs ->
  code_source vm mode addr off len bs.
Proof.
  intros Hl Hm. unfold code_source, contract_source, blob_source, memory_source.
  by rewrite Hm, (ls_inputs _ _ Hl), (ls_storage _ _ Hl), (ls_params _ _ Hl), (ls_ssp _ _ Hl).
Qed.

Lemma code_source_len vm mode addr off len bs :
  u64_ok len -> code_source vm mode addr off len bs -> padded_len_word len = Some (zlen bs).
Proof.
  intros Hlen. unfold code_source, contract_source, blob_source, memory_source. repeat case_if.
  - by intros (id & size & n & _ & _ & _ & -> & _ & -> & _).
  - by intros (id & size & n & _ & _ & -> & -> & _).
  - intros (code & n & Hp & Hc & -> & _). rewrite Hp. f_equal.
    destruct (padded_len_word_ok len n Hlen Hp) as (? & _). rewrite zlen_app, zlen_replicate. lia.
Qed.
End LoadExact.

(** Loading code appends exactly the requested code. If [LDC] succeeds with a positive
    length in a state where the invariants hold, the padded length is a whole number of words
    and the bytes at the old stack start are: for a contract (mode 0), which must be a declared
    input, the requested part of its code and zeros beyond its end;
    for a blob (mode 1) the same of the blob; for memory (mode 2) the source bytes padded with
    zeros. The stack now starts, and ends, right behind them, the next instruction follows,
    nothing below the old stack start changed except the size field of the running frame, and
    that field still counts code that lies between the header and the stack start. *)
Theorem load_code_exact {S} `{Sha256} `{StorageLaws S} (vm vm' : Interpreter S) addr off len mode :
  vm_wf vm -> storage_wf (storage vm) -> frame_inv vm ->
  u64_ok addr -> u64_ok off -> u64_ok len -> 0 < len ->
  load_code addr off len mode vm = (Ok tt, vm') ->
  exists bs, padded_len_word len = Some (zlen bs) /\ zlen bs mod WORD_SIZE = 0 /\
    code_source vm mode addr off len bs /\
    mem_shows (memory vm') (reg vm RegId.SSP) bs /\
    reg vm' RegId.SSP = reg vm RegId.SSP + zlen bs /\ reg vm' RegId.SP = reg vm' RegId.SSP /\
    (forall x, x < reg vm RegId.SSP -> ~ in_size_field vm x ->
       mem_get (memory vm') x = mem_get (memory vm) x) /\
    (context_is_internal (context vm) = true ->
       code_size_shown (memory vm') (reg vm' RegId.SSP) (reg vm RegId.FP)).
Proof.
  intros Hwf Hs Hfi Ha Ho Hlen Hpos E.
  pose proof (load_code_wp vm 0 addr off len mode Hwf Hs Hfi) as Hw. unfold wp in Hw. rewrite E in Hw.
  destruct Hw as (v & Hv & Hl & Hm & _ & Hr); [|done..|].
  { apply cost_base_nonneg, (wf_costs _ Hwf). }
  rewrite (proj2 (Z.eqb_neq len 0)), andb_false_r in Hr by lia.
  destruct Hr as (w & m & bs & Hw' & Hlw & _ & Hr & Hsh & Hsrc). exists bs.
  pose proof (code_source_len _ _ _ _ _ _ Hlen Hsrc) as Hpad.
  pose proof (lr_ssp _ _ _ _ Hr) as Hssp. pose proof (ls_ssp _ _ Hl). pose proof (ls_ssp _ _ Hlw).
  assert (Hl2 : local_step vm w) by by etrans.
  pose proof (loaded_after_local _ _ _ Hl2 (lr_loaded _ _ _ _ Hr)) as Hld.
  split; [done|]. split; [apply (padded_len_word_ok len _ Hlen Hpad)|]. split; [exact (code_source_same vm v _ _ _ _ _ Hl Hm Hsrc)|].
  split; [|split_and!; [lia|pose proof (lr_sp _ _ _ _ Hr); lia| |by apply Hld]].
  - intros i Hi. rewrite (lr_mem _ _ _ _ Hr) by lia.
    replace (reg vm RegId.SSP) with (reg w RegId.SSP) by lia. by apply Hsh.
  - intros x Hx Hn. apply Hld; [by left|done].
Qed.

#[local] Existing Instances sha_identity tai64_zero.

(** The script of [vm_script] with an empty stack. *)
Definition vm_loader : Interpreter MemoryStorage := stack_at vm_script 32 (memory vm_script).

Lemma vm_loader_wf : vm_wf vm_loader.
Proof.
  apply (wf_stack_at vm_script 32 (memory vm_script) vm_script_wf (wf_mem _ vm_script_wf) eq_refl);
    vm_compute; discriminate.
Defined.

Lemma load_code_exact_witness :
  exists vm' bs, load_code 0 2 7 0 vm_loader = (Ok tt, vm') /\ zlen bs = 8 /\
    mem_shows (memory vm') 32 bs /\ reg vm' RegId.SSP = 40.
Proof.
  destruct (succeeds_Ok (load_code 0 2 7 0) vm_loader) as ([] & vm' & E);
    [vm_compute; reflexivity|].
  assert (Hfi : frame_inv vm_loader) by (split; [discriminate|left; split; reflexivity]).
  destruct (load_code_exact vm_loader vm' 0 2 7 0 vm_loader_wf (proj1 vm_script_money) Hfi
    (u64_ok_compute 0 eq_refl) (u64_ok_compute 2 eq_refl) (u64_ok_compute 7 eq_refl)
    ltac:(reflexivity) E) as (bs & Hp & _ & _ & Hsh & Hssp & _).
  assert (Hl : zlen bs = 8) by (injection Hp as Hl; symmetry; exact Hl).
  exists vm', bs. split; [exact E|]. split; [exact Hl|]. split; [exact Hsh|].
  rewrite Hssp, Hl. reflexivity.
Defined.
