(* ===== verification/Crypto.v ===== *)
(** * Cryptographic and metadata instructions

    The handlers of src/fuel-vm/src/interpreter/crypto.rs over the primitives they call
    (hashing, signature recovery and verification, the curve alt_bn128), and [metadata] of
    interpreter/metadata.rs with the selectors of src/fuel-asm/src/args.rs. *)

From Stdlib Require Import Strings.Byte.
From S2P Require Import Prelude Asm Merkle Receipts Memory State Gas Alu MemOps Storage Flow.
From S2P Require Import Calls Blockchain BlockchainSafe.

(** The primitives, by what the handlers use of them: recovery and parsing may fail. *)
Class Crypto : Type := {
  Keccak256 : list byte -> list byte;
  (** [Signature::recover] of a message; the public key has 64 bytes. *)
  k1_recover : list byte -> Bytes32 -> option (list byte);
  (** [secp256r1::recover] *)
  r1_recover : list byte -> Bytes32 -> option (list byte);
  (** [ed25519::verify] of a public key, a signature and a message *)
  ed25519_ok : Bytes32 -> list byte -> list byte -> bool;
  (** alt_bn128 *)
  Fq : Type;
  Fr : Type;
  G1 : Type;
  Fq_from_slice : list byte -> option Fq;
  Fr_from_slice : list byte -> option Fr;
  Fq_is_zero : Fq -> bool;
  Fq_to_big_endian : Fq -> list byte;
  G1_zero : G1;
  (** [AffineG1::new], into [G1] *)
  G1_new : Fq -> Fq -> option G1;
  G1_add : G1 -> G1 -> G1;
  G1_mul : G1 -> Fr -> G1;
  (** [AffineG1::from_jacobian]: the coordinates, unless the point is at infinity *)
  G1_affine : G1 -> option (Fq * Fq)
}.

(** [GMArgs] *)
Inductive GMArgs : Type :=
| IsCallerExternal | GetCaller | GetVerifyingPredicate | GetChainId | TxStart | BaseAssetId
| GetGasPrice.

Definition gm_try_from (v : Z) : option GMArgs :=
  match v with
  | 1 => Some IsCallerExternal
  | 2 => Some GetCaller
  | 3 => Some GetVerifyingPredicate
  | 4 => Some GetChainId
  | 5 => Some TxStart
  | 6 => Some BaseAssetId
  | 7 => Some GetGasPrice
  | _ => None
  end.

Definition VM_MEMORY_BASE_ASSET_ID_OFFSET : Z := 32.

Section Handlers.
Context {S : Type} `{Sha256} `{Crypto}.


(** Write the recovered key, or zeros. *)
Definition write_recovered (owner : OwnershipRegisters) (a : Z) (key : option (list byte)) : M S unit :=
  match key with
  | Some pub_key => update_memory (fun m => write_bytes m owner a pub_key) ;;; clear_err
  | None => update_memory (fun m => write_bytes m owner a (replicate 64 x00)) ;;; set_err
  end ;;;
  inc_pc.

Definition secp256k1_recover (a b c : Z) : M S unit :=
  owner <- gets ownership_registers ;;
  sig <- mem_read_bytes b 64 ;;
  msg <- mem_read_bytes c 32 ;;
  write_recovered owner a (k1_recover sig msg).

Definition secp256r1_recover (a b c : Z) : M S unit :=
  owner <- gets ownership_registers ;;
  sig <- mem_read_bytes b 64 ;;
  msg <- mem_read_bytes c 32 ;;
  write_recovered owner a (r1_recover sig msg).

Definition ed25519_verify (a b c len : Z) : M S unit :=
  pub_key <- mem_read_bytes a 32 ;;
  sig <- mem_read_bytes b 64 ;;
  msg <- mem_read c len ;;
  (if ed25519_ok pub_key sig msg then clear_err else set_err) ;;;
  inc_pc.

Definition keccak256 (a b c : Z) : M S unit :=
  owner <- gets ownership_registers ;;
  data <- mem_read b c ;;
  update_memory (fun m => write_bytes m owner a (Keccak256 data)) ;;;
  inc_pc.

Definition sha256_op (a b c : Z) : M S unit :=
  owner <- gets ownership_registers ;;
  data <- mem_read b c ;;
  update_memory (fun m => write_bytes m owner a (sha256 data)) ;;;
  inc_pc.

Definition read_g1_point_alt_bn_128 (point_ptr : Z) : M S G1 :=
  arg_bytes <- mem_read_bytes point_ptr 64 ;;
  px <- lift_panic (ok_or (Fq_from_slice (take 32 arg_bytes)) InvalidEllipticCurvePoint) ;;
  py <- lift_panic (ok_or (Fq_from_slice (drop 32 arg_bytes)) InvalidEllipticCurvePoint) ;;
  if Fq_is_zero px && Fq_is_zero py then mret G1_zero
  else lift_panic (ok_or (G1_new px py) InvalidEllipticCurvePoint).

(** The 64 bytes written for a point. *)
Definition g1_output (p : G1) : list byte :=
  match G1_affine p with
  | Some (x, y) => Fq_to_big_endian x ++ Fq_to_big_endian y
  | None => replicate 64 x00
  end.

Definition ec_operation (dst curve_id operation_type points_ptr : Z) : M S unit :=
  owner <- gets ownership_registers ;;
  (if curve_id =? 0 then
     if operation_type =? 0 then
       point1 <- read_g1_point_alt_bn_128 points_ptr ;;
       second <- lift_panic (ok_or (checked_add points_ptr 64) MemoryOverflow) ;;
       point2 <- read_g1_point_alt_bn_128 second ;;
       update_memory (fun m => write_bytes m owner dst (g1_output (G1_add point1 point2)))
     else if operation_type =? 1 then
       point <- read_g1_point_alt_bn_128 points_ptr ;;
       second <- lift_panic (ok_or (checked_add points_ptr 64) MemoryOverflow) ;;
       bs <- mem_read second 32 ;;
       scalar <- lift_panic (ok_or (Fr_from_slice bs) InvalidEllipticCurvePoint) ;;
       update_memory (fun m => write_bytes m owner dst (g1_output (G1_mul point scalar)))
     else mpanic UnsupportedOperationType
   else mpanic UnsupportedCurveId) ;;;
  inc_pc.

(** [metadata] *)
Definition metadata_value (vm : Interpreter S) (arg : GMArgs) : outcome PanicReason Z :=
  let parent :=
    if context_is_internal (context vm)
    then (fun f => reg_get (f_registers f) RegId.FP) <$> head (frames vm)
    else None in
  let params := interpreter_params vm in
  match arg with
  | GetVerifyingPredicate => ok_or (rp_idx <$> context_predicate (context vm)) TransactionValidity
  | GetChainId => Ok (chain_id params)
  | BaseAssetId => Ok VM_MEMORY_BASE_ASSET_ID_OFFSET
  | TxStart => Ok (tx_offset params)
  | GetCaller =>
      match parent with
      | Some p => if p =? 0 then Err ExpectedNestedCaller else Ok p
      | None => Err ExpectedInternalContext
      end
  | IsCallerExternal =>
      match parent with
      | Some p => Ok (bool_word (p =? 0))
      | None => Err ExpectedInternalContext
      end
  | GetGasPrice =>
      match context vm with
      | PredicateVerification _ | PredicateEstimation _ => Err CanNotGetGasPriceInPredicate
      | _ => Ok (gas_price params)
      end
  end.

Definition metadata (ra imm : Z) : M S unit :=
  result <- lift_panic (write_reg_key ra) ;;
  arg <- lift_panic (ok_or (gm_try_from imm) InvalidMetadataIdentifier) ;;
  v <- gets (fun vm => metadata_value vm arg) ;;
  a <- lift_panic v ;;
  put_reg result a ;;;
  inc_pc.
End Handlers.

(** ** All of them are local *)

Section Safe.
Context {S : Type} `{Sha256} `{Crypto} `{StorageLaws S}.

Lemma kept_set_err o : kept o any (set_err (S := S)).
Proof. apply kept_put_reg; [|done]. eauto with fuel. Qed.

Lemma kept_clear_err o : kept o any (clear_err (S := S)).
Proof. apply kept_put_reg; [|done]. eauto with fuel. Qed.

Lemma kept_write_recovered o a key : u64_ok a -> kept o any (write_recovered (S := S) o a key).
Proof.
  intros [Ha _]. unfold write_recovered. eapply (kept_bind _ any); [|intros _ _; apply kept_inc_pc].
  destruct key; (eapply kept_bind; [by apply kept_write_bytes|intros _ _]);
    [apply kept_clear_err|apply kept_set_err].
Qed.

Lemma stored_secp256k1_recover a b c :
  u64_ok a -> u64_ok b -> u64_ok c -> stored any (secp256k1_recover (S := S) a b c).
Proof.
  intros. apply stored_kept. intros o. unfold secp256k1_recover. repeat kept_step.
  by apply kept_write_recovered.
Qed.

Lemma stored_secp256r1_recover a b c :
  u64_ok a -> u64_ok b -> u64_ok c -> stored any (secp256r1_recover (S := S) a b c).
Proof.
  intros. apply stored_kept. intros o. unfold secp256r1_recover. repeat kept_step.
  by apply kept_write_recovered.
Qed.

Lemma stored_ed25519_verify a b c d :
  u64_ok a -> u64_ok b -> u64_ok c -> u64_ok d -> stored any (ed25519_verify (S := S) a b c d).
Proof.
  intros ? ? ? [Hd _]. apply stored_kept. intros o. unfold ed25519_verify. repeat kept_step.
  eapply (kept_bind _ any); [|intros _ _; apply kept_inc_pc].
  case_if; [apply kept_clear_err|apply kept_set_err].
Qed.

Lemma stored_keccak256 a b c :
  u64_ok a -> u64_ok b -> u64_ok c -> stored any (keccak256 (S := S) a b c).
Proof.
  intros [Ha _] ? [Hc _]. apply stored_kept. intros o. unfold keccak256. repeat kept_step.
Qed.

Lemma stored_sha256_op a b c :
  u64_ok a -> u64_ok b -> u64_ok c -> stored any (sha256_op (S := S) a b c).
Proof.
  intros [Ha _] ? [Hc _]. apply stored_kept. intros o. unfold sha256_op. repeat kept_step.
Qed.

Lemma kept_some {A} o (x : option A) r : kept o any (lift_panic (S := S) (ok_or x r)).
Proof. apply kept_lift_panic. by destruct x. Qed.

Lemma kept_read_g1 o p : u64_ok p -> kept o any (read_g1_point_alt_bn_128 (S := S) p).
Proof.
  intros Hp. unfold read_g1_point_alt_bn_128. kept_step.
  do 2 (eapply kept_bind; [apply kept_some|intros ? _]).
  case_if; [by apply kept_mret|apply kept_some].
Qed.

Lemma kept_checked_add o a b r :
  u64_ok a -> 0 <= b -> kept o u64_ok (lift_panic (S := S) (ok_or (checked_add a b) r)).
Proof.
  intros Ha Hb. apply kept_lift_panic. unfold checked_add, u64_ok in *. case_if; cbn; [lia|done].
Qed.

Lemma stored_ec_operation a b c d :
  u64_ok a -> u64_ok d -> stored any (ec_operation (S := S) a b c d).
Proof.
  intros [Ha _] Hd. apply stored_kept. intros o. unfold ec_operation. kept_step.
  eapply (kept_bind _ any); [|intros _ _; apply kept_inc_pc].
  case_if; [|kept_step]. case_if; [|case_if; [|kept_step]].
  - eapply kept_bind; [by apply kept_read_g1|intros p1 _].
    eapply kept_bind; [by apply kept_checked_add|intros q Hq].
    eapply kept_bind; [by apply kept_read_g1|intros p2 _]. by apply kept_write_bytes.
  - eapply kept_bind; [by apply kept_read_g1|intros p1 _].
    eapply kept_bind; [by apply kept_checked_add|intros q Hq].
    eapply kept_bind; [by apply kept_mem_read|intros bs _].
    eapply kept_bind; [apply kept_some|intros x _]. by apply kept_write_bytes.
Qed.

Lemma metadata_value_word (vm : Interpreter S) arg :
  vm_wf vm ->
  match metadata_value vm arg with Ok a => u64_ok a | Err _ => True | Crash => False end.
Proof.
  intros Hwf. destruct (wf_params _ Hwf) as (_ & Hg & Ht & Hc). pose proof (wf_context _ Hwf) as Hx.
  pose proof (wf_frames _ Hwf) as Hf.
  assert (Hp : forall p, (fun f => reg_get (f_registers f) RegId.FP) <$> head (frames vm) = Some p ->
    u64_ok p).
  { destruct (frames vm) as [|f fs]; [done|]. intros p [= <-]. destruct Hf as [[_ Hu] _].
    by apply reg_get_u64. }
  destruct arg; cbn [metadata_value]; try done.
  - case_if; [|done]. destruct (_ <$> head (frames vm)); [|done]. apply bool_word_ok.
  - case_if; [|done]. destruct (_ <$> head (frames vm)) as [p|]; [|done]. case_if; [done|auto].
  - destruct (context vm); cbn in *; done.
  - by destruct (context vm).
Qed.

Lemma stored_metadata ra imm : RegId.ok ra -> stored any (metadata (S := S) ra imm).
Proof.
  intros Hr. apply stored_kept. intros o. unfold metadata. kept_step.
  eapply kept_bind; [apply kept_some|intros arg _].
  eapply (kept_bind _ (fun x => match x with Ok a => u64_ok a | Err _ => True | Crash => False end)).
  { apply kept_gets. intros vm Hwf _ _. by apply metadata_value_word. }
  intros x Hx. eapply (kept_bind _ u64_ok); [by apply kept_lift_panic|intros val Hval]. repeat kept_step.
Qed.
End Safe.
