(* ===== verification/Opcodes.v ===== *)
(** * One definition per instruction

    The [Execute] implementations of src/fuel-vm/src/interpreter/executors/opcodes_impl.rs
    and the dispatch of executors/instruction.rs. Each instruction charges its gas, reads its
    operands and runs its handler, in the order of the source: a dependent cost reads its
    length operand before charging, everything else reads after. *)

From Stdlib Require Import Strings.Byte.
From S2P Require Import Prelude Asm Merkle Receipts Memory State Gas.
From S2P Require Import Alu MemOps WideInt Storage Flow Calls Blockchain Crypto.

(** [ExecuteState] (state.rs), without the debugger's events; [Unmodelled] marks an
    instruction outside the modelled set. *)
Inductive ExecuteState : Type :=
| Proceed
| Return (w : Z)
| ReturnData (digest : Bytes32)
| RevertState (w : Z)
| Unmodelled (o : Opcode.t).

Section Opcodes.
Context {S : Type} `{Sha256} `{Powf} `{WideLib} `{Crypto} `{InterpreterStorage S}.

Definition exec_ADD (a b c : Z) : M S ExecuteState :=
  charge g_add ;;;
  vb <- get_reg b ;;
  vc <- get_reg c ;;
  alu_capture_overflow a (overflowing_add 128) vb vc ;;;
  mret Proceed.

Definition exec_ADDI (a b imm : Z) : M S ExecuteState :=
  charge g_addi ;;;
  vb <- get_reg b ;;
  alu_capture_overflow a (overflowing_add 128) vb imm ;;;
  mret Proceed.

Definition exec_AND (a b c : Z) : M S ExecuteState :=
  charge g_and ;;;
  vb <- get_reg b ;;
  vc <- get_reg c ;;
  alu_set a (Z.land vb vc) ;;;
  mret Proceed.

Definition exec_ANDI (a b imm : Z) : M S ExecuteState :=
  charge g_andi ;;;
  vb <- get_reg b ;;
  alu_set a (Z.land vb imm) ;;;
  mret Proceed.

Definition exec_DIV (a b c : Z) : M S ExecuteState :=
  charge g_div ;;;
  vb <- get_reg b ;;
  vc <- get_reg c ;;
  alu_error a (fun l r => Ok (l / r)) vb vc (vc =? 0) ;;;
  mret Proceed.

Definition exec_DIVI (a b imm : Z) : M S ExecuteState :=
  charge g_divi ;;;
  vb <- get_reg b ;;
  alu_error a (fun l r => Ok (l / r)) vb imm (imm =? 0) ;;;
  mret Proceed.

Definition exec_EQ (a b c : Z) : M S ExecuteState :=
  charge g_eq ;;;
  vb <- get_reg b ;;
  vc <- get_reg c ;;
  alu_set a (bool_word (vb =? vc)) ;;;
  mret Proceed.

Definition exec_EXP (a b c : Z) : M S ExecuteState :=
  charge g_exp ;;;
  vb <- get_reg b ;;
  vc <- get_reg c ;;
  alu_boolean_overflow a exp vb vc ;;;
  mret Proceed.

Definition exec_EXPI (a b imm : Z) : M S ExecuteState :=
  charge g_expi ;;;
  vb <- get_reg b ;;
  alu_boolean_overflow a overflowing_pow vb imm ;;;
  mret Proceed.

Definition exec_GT (a b c : Z) : M S ExecuteState :=
  charge g_gt ;;;
  vb <- get_reg b ;;
  vc <- get_reg c ;;
  alu_set a (bool_word (vc <? vb)) ;;;
  mret Proceed.

Definition exec_LT (a b c : Z) : M S ExecuteState :=
  charge g_lt ;;;
  vb <- get_reg b ;;
  vc <- get_reg c ;;
  alu_set a (bool_word (vb <? vc)) ;;;
  mret Proceed.

Definition exec_WDCM (a b c imm : Z) : M S ExecuteState :=
  charge g_wdcm ;;;
  args <- lift_panic (ok_or (CompareArgs_from_imm imm) InvalidImmediateValue) ;;
  vb <- get_reg b ;;
  vc <- get_reg c ;;
  alu_wideint_cmp 128 a vb vc args ;;;
  mret Proceed.

Definition exec_WQCM (a b c imm : Z) : M S ExecuteState :=
  charge g_wqcm ;;;
  args <- lift_panic (ok_or (CompareArgs_from_imm imm) InvalidImmediateValue) ;;
  vb <- get_reg b ;;
  vc <- get_reg c ;;
  alu_wideint_cmp 256 a vb vc args ;;;
  mret Proceed.

Definition exec_WDOP (a b c imm : Z) : M S ExecuteState :=
  charge g_wdop ;;;
  args <- lift_panic (ok_or (MathArgs_from_imm imm) InvalidImmediateValue) ;;
  va <- get_reg a ;;
  vb <- get_reg b ;;
  vc <- get_reg c ;;
  alu_wideint_op 128 va vb vc args ;;;
  mret Proceed.

Definition exec_WQOP (a b c imm : Z) : M S ExecuteState :=
  charge g_wqop ;;;
  args <- lift_panic (ok_or (MathArgs_from_imm imm) InvalidImmediateValue) ;;
  va <- get_reg a ;;
  vb <- get_reg b ;;
  vc <- get_reg c ;;
  alu_wideint_op 256 va vb vc args ;;;
  mret Proceed.

Definition exec_WDML (a b c imm : Z) : M S ExecuteState :=
  charge g_wdml ;;;
  args <- lift_panic (ok_or (MulArgs_from_imm imm) InvalidImmediateValue) ;;
  va <- get_reg a ;;
  vb <- get_reg b ;;
  vc <- get_reg c ;;
  alu_wideint_mul 128 va vb vc args ;;;
  mret Proceed.

Definition exec_WQML (a b c imm : Z) : M S ExecuteState :=
  charge g_wqml ;;;
  args <- lift_panic (ok_or (MulArgs_from_imm imm) InvalidImmediateValue) ;;
  va <- get_reg a ;;
  vb <- get_reg b ;;
  vc <- get_reg c ;;
  alu_wideint_mul 256 va vb vc args ;;;
  mret Proceed.

Definition exec_WDDV (a b c imm : Z) : M S ExecuteState :=
  charge g_wddv ;;;
  args <- lift_panic (ok_or (DivArgs_from_imm imm) InvalidImmediateValue) ;;
  va <- get_reg a ;;
  vb <- get_reg b ;;
  vc <- get_reg c ;;
  alu_wideint_div 128 va vb vc args ;;;
  mret Proceed.

Definition exec_WQDV (a b c imm : Z) : M S ExecuteState :=
  charge g_wqdv ;;;
  args <- lift_panic (ok_or (DivArgs_from_imm imm) InvalidImmediateValue) ;;
  va <- get_reg a ;;
  vb <- get_reg b ;;
  vc <- get_reg c ;;
  alu_wideint_div 256 va vb vc args ;;;
  mret Proceed.

Definition exec_WDMD (a b c d : Z) : M S ExecuteState :=
  charge g_wdmd ;;;
  va <- get_reg a ;;
  vb <- get_reg b ;;
  vc <- get_reg c ;;
  vd <- get_reg d ;;
  alu_wideint_muldiv 128 va vb vc vd ;;;
  mret Proceed.

Definition exec_WQMD (a b c d : Z) : M S ExecuteState :=
  charge g_wqmd ;;;
  va <- get_reg a ;;
  vb <- get_reg b ;;
  vc <- get_reg c ;;
  vd <- get_reg d ;;
  alu_wideint_muldiv 256 va vb vc vd ;;;
  mret Proceed.

Definition exec_WDAM (a b c d : Z) : M S ExecuteState :=
  charge g_wdam ;;;
  va <- get_reg a ;;
  vb <- get_reg b ;;
  vc <- get_reg c ;;
  vd <- get_reg d ;;
  alu_wideint_addmod 128 va vb vc vd ;;;
  mret Proceed.

Definition exec_WQAM (a b c d : Z) : M S ExecuteState :=
  charge g_wqam ;;;
  va <- get_reg a ;;
  vb <- get_reg b ;;
  vc <- get_reg c ;;
  vd <- get_reg d ;;
  alu_wideint_addmod 256 va vb vc vd ;;;
  mret Proceed.

Definition exec_WDMM (a b c d : Z) : M S ExecuteState :=
  charge g_wdmm ;;;
  va <- get_reg a ;;
  vb <- get_reg b ;;
  vc <- get_reg c ;;
  vd <- get_reg d ;;
  alu_wideint_mulmod 128 va vb vc vd ;;;
  mret Proceed.

Definition exec_WQMM (a b c d : Z) : M S ExecuteState :=
  charge g_wqmm ;;;
  va <- get_reg a ;;
  vb <- get_reg b ;;
  vc <- get_reg c ;;
  vd <- get_reg d ;;
  alu_wideint_mulmod 256 va vb vc vd ;;;
  mret Proceed.

Definition exec_MLOG (a b c : Z) : M S ExecuteState :=
  charge g_mlog ;;;
  vb <- get_reg b ;;
  vc <- get_reg c ;;
  alu_error a (fun l r => expect (checked_ilog l r)) vb vc ((vb =? 0) || (vc <=? 1)) ;;;
  mret Proceed.

Definition exec_MOD (a b c : Z) : M S ExecuteState :=
  charge g_mod_op ;;;
  vb <- get_reg b ;;
  vc <- get_reg c ;;
  alu_error a (fun l r => Ok (l mod r)) vb vc (vc =? 0) ;;;
  mret Proceed.

Definition exec_MODI (a b imm : Z) : M S ExecuteState :=
  charge g_modi ;;;
  vb <- get_reg b ;;
  alu_error a (fun l r => Ok (l mod r)) vb imm (imm =? 0) ;;;
  mret Proceed.

Definition exec_MOVE (a b : Z) : M S ExecuteState :=
  charge g_move_op ;;;
  vb <- get_reg b ;;
  alu_set a vb ;;;
  mret Proceed.

Definition exec_MOVI (a imm : Z) : M S ExecuteState :=
  charge g_movi ;;;
  alu_set a imm ;;;
  mret Proceed.

Definition exec_MROO (a b c : Z) : M S ExecuteState :=
  charge g_mroo ;;;
  vb <- get_reg b ;;
  vc <- get_reg c ;;
  alu_error a (fun l r => let? x := checked_nth_root l r in expect x) vb vc (vc =? 0) ;;;
  mret Proceed.

Definition exec_MUL (a b c : Z) : M S ExecuteState :=
  charge g_mul ;;;
  vb <- get_reg b ;;
  vc <- get_reg c ;;
  alu_capture_overflow a (overflowing_mul 128) vb vc ;;;
  mret Proceed.

Definition exec_MULI (a b imm : Z) : M S ExecuteState :=
  charge g_muli ;;;
  vb <- get_reg b ;;
  alu_capture_overflow a (overflowing_mul 128) vb imm ;;;
  mret Proceed.

Definition exec_MLDV (a b c d : Z) : M S ExecuteState :=
  charge g_mldv ;;;
  vb <- get_reg b ;;
  vc <- get_reg c ;;
  vd <- get_reg d ;;
  alu_muldiv a vb vc vd ;;;
  mret Proceed.

Definition exec_NOOP : M S ExecuteState :=
  charge g_noop ;;;
  alu_clear ;;;
  mret Proceed.

Definition exec_NOT (a b : Z) : M S ExecuteState :=
  charge g_not ;;;
  vb <- get_reg b ;;
  alu_set a (lnot_w 64 vb) ;;;
  mret Proceed.

Definition exec_OR (a b c : Z) : M S ExecuteState :=
  charge g_or ;;;
  vb <- get_reg b ;;
  vc <- get_reg c ;;
  alu_set a (Z.lor vb vc) ;;;
  mret Proceed.

Definition exec_ORI (a b imm : Z) : M S ExecuteState :=
  charge g_ori ;;;
  vb <- get_reg b ;;
  alu_set a (Z.lor vb imm) ;;;
  mret Proceed.

Definition exec_SLL (a b c : Z) : M S ExecuteState :=
  charge g_sll ;;;
  vb <- get_reg b ;;
  vc <- get_reg c ;;
  alu_set a (match try_u32 vc with Some c => default 0 (checked_shl 64 vb c) | None => 0 end) ;;;
  mret Proceed.

Definition exec_SLLI (a b imm : Z) : M S ExecuteState :=
  charge g_slli ;;;
  vb <- get_reg b ;;
  alu_set a (default 0 (checked_shl 64 vb imm)) ;;;
  mret Proceed.

Definition exec_SRL (a b c : Z) : M S ExecuteState :=
  charge g_srl ;;;
  vb <- get_reg b ;;
  vc <- get_reg c ;;
  alu_set a (match try_u32 vc with Some c => default 0 (checked_shr 64 vb c) | None => 0 end) ;;;
  mret Proceed.

Definition exec_SRLI (a b imm : Z) : M S ExecuteState :=
  charge g_srli ;;;
  vb <- get_reg b ;;
  alu_set a (default 0 (checked_shr 64 vb imm)) ;;;
  mret Proceed.

Definition exec_SUB (a b c : Z) : M S ExecuteState :=
  charge g_sub ;;;
  vb <- get_reg b ;;
  vc <- get_reg c ;;
  alu_capture_overflow a (overflowing_sub 128) vb vc ;;;
  mret Proceed.

Definition exec_SUBI (a b imm : Z) : M S ExecuteState :=
  charge g_subi ;;;
  vb <- get_reg b ;;
  alu_capture_overflow a (overflowing_sub 128) vb imm ;;;
  mret Proceed.

Definition exec_XOR (a b c : Z) : M S ExecuteState :=
  charge g_xor ;;;
  vb <- get_reg b ;;
  vc <- get_reg c ;;
  alu_set a (Z.lxor vb vc) ;;;
  mret Proceed.

Definition exec_XORI (a b imm : Z) : M S ExecuteState :=
  charge g_xori ;;;
  vb <- get_reg b ;;
  alu_set a (Z.lxor vb imm) ;;;
  mret Proceed.

Definition exec_JI (imm : Z) : M S ExecuteState :=
  charge g_ji ;;;
  jump (to_address (jump_new RelativeIS) imm) ;;;
  mret Proceed.

Definition exec_JNEI (a b imm : Z) : M S ExecuteState :=
  charge g_jnei ;;;
  va <- get_reg a ;;
  vb <- get_reg b ;;
  jump (to_address (with_condition (jump_new RelativeIS) (negb (va =? vb))) imm) ;;;
  mret Proceed.

Definition exec_JNZI (a imm : Z) : M S ExecuteState :=
  charge g_jnzi ;;;
  va <- get_reg a ;;
  jump (to_address (with_condition (jump_new RelativeIS) (negb (va =? 0))) imm) ;;;
  mret Proceed.

Definition exec_JMP (a : Z) : M S ExecuteState :=
  charge g_jmp ;;;
  va <- get_reg a ;;
  jump (to_address (jump_new RelativeIS) va) ;;;
  mret Proceed.

Definition exec_JNE (a b c : Z) : M S ExecuteState :=
  charge g_jne ;;;
  va <- get_reg a ;;
  vb <- get_reg b ;;
  vc <- get_reg c ;;
  jump (to_address (with_condition (jump_new RelativeIS) (negb (va =? vb))) vc) ;;;
  mret Proceed.

Definition exec_JMPF (a offset : Z) : M S ExecuteState :=
  charge g_jmpf ;;;
  va <- get_reg a ;;
  jump (plus_fixed (to_address (jump_new RelativeForwards) va) offset) ;;;
  mret Proceed.

Definition exec_JMPB (a offset : Z) : M S ExecuteState :=
  charge g_jmpb ;;;
  va <- get_reg a ;;
  jump (plus_fixed (to_address (jump_new RelativeBackwards) va) offset) ;;;
  mret Proceed.

Definition exec_JNZF (a b offset : Z) : M S ExecuteState :=
  charge g_jnzf ;;;
  va <- get_reg a ;;
  vb <- get_reg b ;;
  jump (plus_fixed (to_address (with_condition (jump_new RelativeForwards) (negb (va =? 0))) vb) offset) ;;;
  mret Proceed.

Definition exec_JNZB (a b offset : Z) : M S ExecuteState :=
  charge g_jnzb ;;;
  va <- get_reg a ;;
  vb <- get_reg b ;;
  jump (plus_fixed (to_address (with_condition (jump_new RelativeBackwards) (negb (va =? 0))) vb) offset) ;;;
  mret Proceed.

Definition exec_JNEF (a b c offset : Z) : M S ExecuteState :=
  charge g_jnef ;;;
  va <- get_reg a ;;
  vb <- get_reg b ;;
  vc <- get_reg c ;;
  jump (plus_fixed (to_address (with_condition (jump_new RelativeForwards) (negb (va =? vb))) vc) offset) ;;;
  mret Proceed.

Definition exec_JNEB (a b c offset : Z) : M S ExecuteState :=
  charge g_jneb ;;;
  va <- get_reg a ;;
  vb <- get_reg b ;;
  vc <- get_reg c ;;
  jump (plus_fixed (to_address (with_condition (jump_new RelativeBackwards) (negb (va =? vb))) vc) offset) ;;;
  mret Proceed.

Definition exec_JAL (reg_ret_addr reg_target offset : Z) : M S ExecuteState :=
  charge g_jmp ;;;
  pc <- get_reg RegId.PC ;;
  set_user_reg_or_discard reg_ret_addr (saturating_add pc Instruction_SIZE) ;;;
  target <- get_reg reg_target ;;
  jump (plus_fixed (to_address (jump_new Assign) target) offset) ;;;
  mret Proceed.

Definition exec_RET (a : Z) : M S ExecuteState :=
  charge g_ret ;;;
  ra <- get_reg a ;;
  ret ra ;;;
  mret (Return ra).

Definition exec_RETD (a b : Z) : M S ExecuteState :=
  len <- get_reg b ;;
  charge_dep d_retd len ;;;
  va <- get_reg a ;;
  digest <- ret_data va len ;;
  mret (ReturnData digest).

Definition exec_RVRT (a : Z) : M S ExecuteState :=
  charge g_rvrt ;;;
  ra <- get_reg a ;;
  revert ra ;;;
  mret (RevertState ra).

Definition exec_ALOC (a : Z) : M S ExecuteState :=
  number_of_bytes <- get_reg a ;;
  charge_dep d_aloc number_of_bytes ;;;
  malloc number_of_bytes ;;;
  mret Proceed.

Definition exec_CFEI (imm : Z) : M S ExecuteState :=
  charge_dep d_cfei imm ;;;
  stack_pointer_overflow (overflowing_add 64) imm ;;;
  mret Proceed.

Definition exec_CFE (a : Z) : M S ExecuteState :=
  number_of_bytes <- get_reg a ;;
  charge_dep d_cfe number_of_bytes ;;;
  stack_pointer_overflow (overflowing_add 64) number_of_bytes ;;;
  mret Proceed.

Definition exec_CFSI (imm : Z) : M S ExecuteState :=
  charge g_cfsi ;;;
  stack_pointer_overflow (overflowing_sub 64) imm ;;;
  mret Proceed.

Definition exec_CFS (a : Z) : M S ExecuteState :=
  charge g_cfsi ;;;
  va <- get_reg a ;;
  stack_pointer_overflow (overflowing_sub 64) va ;;;
  mret Proceed.

Definition exec_PSHL (bitmask : Z) : M S ExecuteState :=
  charge g_pshl ;;;
  push_selected_registers Low bitmask ;;;
  mret Proceed.

Definition exec_PSHH (bitmask : Z) : M S ExecuteState :=
  charge g_pshh ;;;
  push_selected_registers High bitmask ;;;
  mret Proceed.

Definition exec_POPL (bitmask : Z) : M S ExecuteState :=
  charge g_popl ;;;
  pop_selected_registers Low bitmask ;;;
  mret Proceed.

Definition exec_POPH (bitmask : Z) : M S ExecuteState :=
  charge g_poph ;;;
  pop_selected_registers High bitmask ;;;
  mret Proceed.

Definition exec_LB (a b imm : Z) : M S ExecuteState :=
  charge g_lb ;;;
  vb <- get_reg b ;;
  load 1 a vb imm ;;;
  mret Proceed.

Definition exec_LQW (a b imm : Z) : M S ExecuteState :=
  charge g_lw ;;;
  vb <- get_reg b ;;
  load 2 a vb imm ;;;
  mret Proceed.

Definition exec_LHW (a b imm : Z) : M S ExecuteState :=
  charge g_lw ;;;
  vb <- get_reg b ;;
  load 4 a vb imm ;;;
  mret Proceed.

Definition exec_LW (a b imm : Z) : M S ExecuteState :=
  charge g_lw ;;;
  vb <- get_reg b ;;
  load 8 a vb imm ;;;
  mret Proceed.

Definition exec_MCL (a b : Z) : M S ExecuteState :=
  len <- get_reg b ;;
  charge_dep d_mcl len ;;;
  va <- get_reg a ;;
  memclear va len ;;;
  mret Proceed.

Definition exec_MCLI (a imm : Z) : M S ExecuteState :=
  charge_dep d_mcli imm ;;;
  va <- get_reg a ;;
  memclear va imm ;;;
  mret Proceed.

Definition exec_MCP (a b c : Z) : M S ExecuteState :=
  len <- get_reg c ;;
  charge_dep d_mcp len ;;;
  va <- get_reg a ;;
  vb <- get_reg b ;;
  memcopy_op va vb len ;;;
  mret Proceed.

Definition exec_MCPI (a b imm : Z) : M S ExecuteState :=
  charge_dep d_mcpi imm ;;;
  va <- get_reg a ;;
  vb <- get_reg b ;;
  memcopy_op va vb imm ;;;
  mret Proceed.

Definition exec_MEQ (a b c d : Z) : M S ExecuteState :=
  len <- get_reg d ;;
  charge_dep d_meq len ;;;
  vb <- get_reg b ;;
  vc <- get_reg c ;;
  memeq a vb vc len ;;;
  mret Proceed.

Definition exec_SB (a b imm : Z) : M S ExecuteState :=
  charge g_sb ;;;
  va <- get_reg a ;;
  vb <- get_reg b ;;
  store 1 va vb imm ;;;
  mret Proceed.

Definition exec_SQW (a b imm : Z) : M S ExecuteState :=
  charge g_sw ;;;
  va <- get_reg a ;;
  vb <- get_reg b ;;
  store 2 va vb imm ;;;
  mret Proceed.

Definition exec_SHW (a b imm : Z) : M S ExecuteState :=
  charge g_sw ;;;
  va <- get_reg a ;;
  vb <- get_reg b ;;
  store 4 va vb imm ;;;
  mret Proceed.

Definition exec_SW (a b imm : Z) : M S ExecuteState :=
  charge g_sw ;;;
  va <- get_reg a ;;
  vb <- get_reg b ;;
  store 8 va vb imm ;;;
  mret Proceed.

Definition exec_BAL (a b c : Z) : M S ExecuteState :=
  charge g_bal ;;;
  vb <- get_reg b ;;
  vc <- get_reg c ;;
  contract_balance a vb vc ;;;
  mret Proceed.

Definition exec_CALL (a b c d : Z) : M S ExecuteState :=
  prepare_call a b c d ;;;
  mret Proceed.

Definition exec_LOG (a b c d : Z) : M S ExecuteState :=
  charge g_log ;;;
  va <- get_reg a ;;
  vb <- get_reg b ;;
  vc <- get_reg c ;;
  vd <- get_reg d ;;
  log va vb vc vd ;;;
  mret Proceed.

Definition exec_LOGD (a b c d : Z) : M S ExecuteState :=
  len <- get_reg d ;;
  charge_dep d_logd len ;;;
  va <- get_reg a ;;
  vb <- get_reg b ;;
  vc <- get_reg c ;;
  vd <- get_reg d ;;
  log_data va vb vc vd ;;;
  mret Proceed.

Definition exec_FLAG (a : Z) : M S ExecuteState :=
  charge g_flag ;;;
  va <- get_reg a ;;
  set_flag va ;;;
  mret Proceed.

Definition exec_TR (a b c : Z) : M S ExecuteState :=
  charge g_tr ;;;
  va <- get_reg a ;;
  vb <- get_reg b ;;
  vc <- get_reg c ;;
  transfer va vb vc ;;;
  mret Proceed.

Definition exec_SMO (a b c d : Z) : M S ExecuteState :=
  len <- get_reg c ;;
  charge_dep d_smo len ;;;
  va <- get_reg a ;;
  vb <- get_reg b ;;
  vc <- get_reg c ;;
  vd <- get_reg d ;;
  message_output va vb vc vd ;;;
  mret Proceed.

Definition exec_BHEI (a : Z) : M S ExecuteState :=
  charge g_bhei ;;;
  block_height a ;;;
  mret Proceed.

Definition exec_BHSH (a b : Z) : M S ExecuteState :=
  charge g_bhsh ;;;
  va <- get_reg a ;;
  vb <- get_reg b ;;
  block_hash va vb ;;;
  mret Proceed.

Definition exec_BURN (a b : Z) : M S ExecuteState :=
  charge g_burn ;;;
  va <- get_reg a ;;
  vb <- get_reg b ;;
  burn va vb ;;;
  mret Proceed.

Definition exec_CB (a : Z) : M S ExecuteState :=
  charge g_cb ;;;
  va <- get_reg a ;;
  coinbase va ;;;
  mret Proceed.

Definition exec_CCP (a b c d : Z) : M S ExecuteState :=
  va <- get_reg a ;;
  vb <- get_reg b ;;
  vc <- get_reg c ;;
  vd <- get_reg d ;;
  code_copy va vb vc vd ;;;
  mret Proceed.

Definition exec_CROO (a b : Z) : M S ExecuteState :=
  va <- get_reg a ;;
  vb <- get_reg b ;;
  code_root va vb ;;;
  mret Proceed.

Definition exec_CSIZ (a b : Z) : M S ExecuteState :=
  vb <- get_reg b ;;
  code_size a vb ;;;
  mret Proceed.

Definition exec_LDC (a b c mode : Z) : M S ExecuteState :=
  va <- get_reg a ;;
  vb <- get_reg b ;;
  vc <- get_reg c ;;
  load_code va vb vc mode ;;;
  mret Proceed.

Definition exec_MINT (a b : Z) : M S ExecuteState :=
  charge g_mint ;;;
  va <- get_reg a ;;
  vb <- get_reg b ;;
  mint va vb ;;;
  mret Proceed.

Definition exec_SCWQ (a b c : Z) : M S ExecuteState :=
  len <- get_reg c ;;
  charge_dep d_scwq len ;;;
  va <- get_reg a ;;
  vc <- get_reg c ;;
  state_clear_qword va b vc ;;;
  mret Proceed.

Definition exec_SRW (a b c : Z) : M S ExecuteState :=
  charge g_srw ;;;
  vc <- get_reg c ;;
  state_read_word a b vc ;;;
  mret Proceed.

Definition exec_SRWQ (a b c d : Z) : M S ExecuteState :=
  len <- get_reg d ;;
  charge_dep d_srwq len ;;;
  va <- get_reg a ;;
  vc <- get_reg c ;;
  vd <- get_reg d ;;
  state_read_qword va b vc vd ;;;
  mret Proceed.

Definition exec_SWW (a b c : Z) : M S ExecuteState :=
  charge g_sww ;;;
  va <- get_reg a ;;
  vc <- get_reg c ;;
  state_write_word va b vc ;;;
  mret Proceed.

Definition exec_SWWQ (a b c d : Z) : M S ExecuteState :=
  len <- get_reg d ;;
  charge_dep d_swwq len ;;;
  va <- get_reg a ;;
  vc <- get_reg c ;;
  vd <- get_reg d ;;
  state_write_qword va b vc vd ;;;
  mret Proceed.

Definition exec_TIME (a b : Z) : M S ExecuteState :=
  charge g_time ;;;
  vb <- get_reg b ;;
  timestamp a vb ;;;
  mret Proceed.

Definition exec_ECK1 (a b c : Z) : M S ExecuteState :=
  charge g_eck1 ;;;
  va <- get_reg a ;;
  vb <- get_reg b ;;
  vc <- get_reg c ;;
  secp256k1_recover va vb vc ;;;
  mret Proceed.

Definition exec_ECR1 (a b c : Z) : M S ExecuteState :=
  charge g_ecr1 ;;;
  va <- get_reg a ;;
  vb <- get_reg b ;;
  vc <- get_reg c ;;
  secp256r1_recover va vb vc ;;;
  mret Proceed.

Definition exec_ED19 (a b c d : Z) : M S ExecuteState :=
  len <- get_reg d ;;
  let len := if len =? 0 then 32 else len in
  charge_dep d_ed19 len ;;;
  va <- get_reg a ;;
  vb <- get_reg b ;;
  vc <- get_reg c ;;
  ed25519_verify va vb vc len ;;;
  mret Proceed.

Definition exec_K256 (a b c : Z) : M S ExecuteState :=
  len <- get_reg c ;;
  charge_dep d_k256 len ;;;
  va <- get_reg a ;;
  vb <- get_reg b ;;
  keccak256 va vb len ;;;
  mret Proceed.

Definition exec_S256 (a b c : Z) : M S ExecuteState :=
  len <- get_reg c ;;
  charge_dep d_s256 len ;;;
  va <- get_reg a ;;
  vb <- get_reg b ;;
  sha256_op va vb len ;;;
  mret Proceed.

Definition exec_GM (a imm : Z) : M S ExecuteState :=
  charge g_gm ;;;
  metadata a imm ;;;
  mret Proceed.

Definition exec_BSIZ (a b : Z) : M S ExecuteState :=
  vb <- get_reg b ;;
  blob_size a vb ;;;
  mret Proceed.

Definition exec_BLDD (a b c d : Z) : M S ExecuteState :=
  va <- get_reg a ;;
  vb <- get_reg b ;;
  vc <- get_reg c ;;
  vd <- get_reg d ;;
  blob_load_data va vb vc vd ;;;
  mret Proceed.

Definition exec_ECOP (a b c d : Z) : M S ExecuteState :=
  charge g_ecop ;;;
  va <- get_reg a ;;
  vb <- get_reg b ;;
  vc <- get_reg c ;;
  vd <- get_reg d ;;
  ec_operation va vb vc vd ;;;
  mret Proceed.

(** [Instruction::execute]. *)
Definition execute_instruction (i : Instruction) : M S ExecuteState :=
  match opcode i, op_unpack i with
  | Opcode.ADD, PRRR a b c => exec_ADD a b c
  | Opcode.ADDI, PRRI12 a b imm => exec_ADDI a b imm
  | Opcode.AND, PRRR a b c => exec_AND a b c
  | Opcode.ANDI, PRRI12 a b imm => exec_ANDI a b imm
  | Opcode.DIV, PRRR a b c => exec_DIV a b c
  | Opcode.DIVI, PRRI12 a b imm => exec_DIVI a b imm
  | Opcode.EQ, PRRR a b c => exec_EQ a b c
  | Opcode.EXP, PRRR a b c => exec_EXP a b c
  | Opcode.EXPI, PRRI12 a b imm => exec_EXPI a b imm
  | Opcode.GT, PRRR a b c => exec_GT a b c
  | Opcode.LT, PRRR a b c => exec_LT a b c
  | Opcode.WDCM, PRRRI06 a b c imm => exec_WDCM a b c imm
  | Opcode.WQCM, PRRRI06 a b c imm => exec_WQCM a b c imm
  | Opcode.WDOP, PRRRI06 a b c imm => exec_WDOP a b c imm
  | Opcode.WQOP, PRRRI06 a b c imm => exec_WQOP a b c imm
  | Opcode.WDML, PRRRI06 a b c imm => exec_WDML a b c imm
  | Opcode.WQML, PRRRI06 a b c imm => exec_WQML a b c imm
  | Opcode.WDDV, PRRRI06 a b c imm => exec_WDDV a b c imm
  | Opcode.WQDV, PRRRI06 a b c imm => exec_WQDV a b c imm
  | Opcode.WDMD, PRRRR a b c d => exec_WDMD a b c d
  | Opcode.WQMD, PRRRR a b c d => exec_WQMD a b c d
  | Opcode.WDAM, PRRRR a b c d => exec_WDAM a b c d
  | Opcode.WQAM, PRRRR a b c d => exec_WQAM a b c d
  | Opcode.WDMM, PRRRR a b c d => exec_WDMM a b c d
  | Opcode.WQMM, PRRRR a b c d => exec_WQMM a b c d
  | Opcode.MLOG, PRRR a b c => exec_MLOG a b c
  | Opcode.MOD, PRRR a b c => exec_MOD a b c
  | Opcode.MODI, PRRI12 a b imm => exec_MODI a b imm
  | Opcode.MOVE, PRR a b => exec_MOVE a b
  | Opcode.MOVI, PRI18 a imm => exec_MOVI a imm
  | Opcode.MROO, PRRR a b c => exec_MROO a b c
  | Opcode.MUL, PRRR a b c => exec_MUL a b c
  | Opcode.MULI, PRRI12 a b imm => exec_MULI a b imm
  | Opcode.MLDV, PRRRR a b c d => exec_MLDV a b c d
  | Opcode.NOOP, PNone => exec_NOOP
  | Opcode.NOT, PRR a b => exec_NOT a b
  | Opcode.OR, PRRR a b c => exec_OR a b c
  | Opcode.ORI, PRRI12 a b imm => exec_ORI a b imm
  | Opcode.SLL, PRRR a b c => exec_SLL a b c
  | Opcode.SLLI, PRRI12 a b imm => exec_SLLI a b imm
  | Opcode.SRL, PRRR a b c => exec_SRL a b c
  | Opcode.SRLI, PRRI12 a b imm => exec_SRLI a b imm
  | Opcode.SUB, PRRR a b c => exec_SUB a b c
  | Opcode.SUBI, PRRI12 a b imm => exec_SUBI a b imm
  | Opcode.XOR, PRRR a b c => exec_XOR a b c
  | Opcode.XORI, PRRI12 a b imm => exec_XORI a b imm
  | Opcode.JI, PI24 imm => exec_JI imm
  | Opcode.JNEI, PRRI12 a b imm => exec_JNEI a b imm
  | Opcode.JNZI, PRI18 a imm => exec_JNZI a imm
  | Opcode.JMP, PR a => exec_JMP a
  | Opcode.JNE, PRRR a b c => exec_JNE a b c
  | Opcode.JMPF, PRI18 a offset => exec_JMPF a offset
  | Opcode.JMPB, PRI18 a offset => exec_JMPB a offset
  | Opcode.JNZF, PRRI12 a b offset => exec_JNZF a b offset
  | Opcode.JNZB, PRRI12 a b offset => exec_JNZB a b offset
  | Opcode.JNEF, PRRRI06 a b c offset => exec_JNEF a b c offset
  | Opcode.JNEB, PRRRI06 a b c offset => exec_JNEB a b c offset
  | Opcode.JAL, PRRI12 reg_ret_addr reg_target offset => exec_JAL reg_ret_addr reg_target offset
  | Opcode.RET, PR a => exec_RET a
  | Opcode.RETD, PRR a b => exec_RETD a b
  | Opcode.RVRT, PR a => exec_RVRT a
  | Opcode.ALOC, PR a => exec_ALOC a
  | Opcode.CFEI, PI24 imm => exec_CFEI imm
  | Opcode.CFE, PR a => exec_CFE a
  | Opcode.CFSI, PI24 imm => exec_CFSI imm
  | Opcode.CFS, PR a => exec_CFS a
  | Opcode.PSHL, PI24 bitmask => exec_PSHL bitmask
  | Opcode.PSHH, PI24 bitmask => exec_PSHH bitmask
  | Opcode.POPL, PI24 bitmask => exec_POPL bitmask
  | Opcode.POPH, PI24 bitmask => exec_POPH bitmask
  | Opcode.LB, PRRI12 a b imm => exec_LB a b imm
  | Opcode.LQW, PRRI12 a b imm => exec_LQW a b imm
  | Opcode.LHW, PRRI12 a b imm => exec_LHW a b imm
  | Opcode.LW, PRRI12 a b imm => exec_LW a b imm
  | Opcode.MCL, PRR a b => exec_MCL a b
  | Opcode.MCLI, PRI18 a imm => exec_MCLI a imm
  | Opcode.MCP, PRRR a b c => exec_MCP a b c
  | Opcode.MCPI, PRRI12 a b imm => exec_MCPI a b imm
  | Opcode.MEQ, PRRRR a b c d => exec_MEQ a b c d
  | Opcode.SB, PRRI12 a b imm => exec_SB a b imm
  | Opcode.SQW, PRRI12 a b imm => exec_SQW a b imm
  | Opcode.SHW, PRRI12 a b imm => exec_SHW a b imm
  | Opcode.SW, PRRI12 a b imm => exec_SW a b imm
  | Opcode.BAL, PRRR a b c => exec_BAL a b c
  | Opcode.CALL, PRRRR a b c d => exec_CALL a b c d
  | Opcode.LOG, PRRRR a b c d => exec_LOG a b c d
  | Opcode.LOGD, PRRRR a b c d => exec_LOGD a b c d
  | Opcode.FLAG, PR a => exec_FLAG a
  | Opcode.TR, PRRR a b c => exec_TR a b c
  | Opcode.SMO, PRRRR a b c d => exec_SMO a b c d
  | Opcode.BHEI, PR a => exec_BHEI a
  | Opcode.BHSH, PRR a b => exec_BHSH a b
  | Opcode.BURN, PRR a b => exec_BURN a b
  | Opcode.CB, PR a => exec_CB a
  | Opcode.CCP, PRRRR a b c d => exec_CCP a b c d
  | Opcode.CROO, PRR a b => exec_CROO a b
  | Opcode.CSIZ, PRR a b => exec_CSIZ a b
  | Opcode.LDC, PRRRI06 a b c mode => exec_LDC a b c mode
  | Opcode.MINT, PRR a b => exec_MINT a b
  | Opcode.SCWQ, PRRR a b c => exec_SCWQ a b c
  | Opcode.SRW, PRRR a b c => exec_SRW a b c
  | Opcode.SRWQ, PRRRR a b c d => exec_SRWQ a b c d
  | Opcode.SWW, PRRR a b c => exec_SWW a b c
  | Opcode.SWWQ, PRRRR a b c d => exec_SWWQ a b c d
  | Opcode.TIME, PRR a b => exec_TIME a b
  | Opcode.ECK1, PRRR a b c => exec_ECK1 a b c
  | Opcode.ECR1, PRRR a b c => exec_ECR1 a b c
  | Opcode.ED19, PRRRR a b c d => exec_ED19 a b c d
  | Opcode.K256, PRRR a b c => exec_K256 a b c
  | Opcode.S256, PRRR a b c => exec_S256 a b c
  | Opcode.GM, PRI18 a imm => exec_GM a imm
  | Opcode.BSIZ, PRR a b => exec_BSIZ a b
  | Opcode.BLDD, PRRRR a b c d => exec_BLDD a b c d
  | Opcode.ECOP, PRRRR a b c d => exec_ECOP a b c d
  | o, _ => mret (Unmodelled o)
  end.
End Opcodes.
