(* ===== verification/Steps.v ===== *)
(** * What one instruction may do

    Every modelled instruction is one of five kinds of step: local to its frame, an effect on
    the storage (a transfer, a mint, a burn, a message, a state update), loading code, a call
    or a return. Each pays for itself, preserves the invariants and never panics the
    host; the isolation of callers and the identity of contracts follow by induction over
    executions. *)

From Stdlib Require Import Strings.Byte.
From S2P Require Import Prelude Asm Merkle Receipts Memory State Gas Alu.
From S2P Require Import MemOps WideInt Storage Flow Calls Blockchain BlockchainSafe Effects.
From S2P Require Import LoadCode Crypto Opcodes.

(** What the floating-point power used by [MROO] must satisfy: the approximate root is an
    unsigned integer below [u64::MAX]. *)
Class PowfLaw `{Powf} : Prop :=
  powf_range : forall t n, u64_ok t -> 2 <= n <= 64 -> n < t -> 0 <= powf_guess t n < U64 - 1.

(** A lower bound on every gas cost. *)
Definition costs_at_least (k : Z) (g : GasCosts) : Prop :=
  (forall c, k <= word_cost g c) /\ (forall c, k <= cost_base (dep_cost g c)).

Section Steps.
Context {S : Type} `{Sha256} `{StorageLaws S}.
Implicit Types (vm : Interpreter S).

(** The kinds of step; only the instructions that change the storage ([pay]) may have an
    effect or call. *)
Inductive step_rel (pay : bool) vm vm' : Prop :=
| step_local : local_step vm vm' -> step_rel pay vm vm'
| step_load : loaded vm vm' -> step_rel pay vm vm'
| step_pay v0 v rs rx :
    pay = true -> local_step vm v0 -> vm_wf v0 -> affected v0 vm' v rs rx -> step_rel pay vm vm'
| step_call n g vm1 c ci f m rx code :
    pay = true -> 0 <= n -> called vm n g vm' vm1 c ci f m rx code -> step_rel pay vm vm'
| step_return vm1 a b f rest r :
    local_step vm vm1 -> vm_wf vm1 -> frames vm1 = f :: rest ->
    return_step (with_ret vm1 a b) f rest r vm' -> step_rel pay vm vm'.

Definition state_ok (pay : bool) (st : ExecuteState) vm vm' : Prop :=
  match st with
  | Unmodelled _ => vm' = vm
  | _ => step_rel pay vm vm'
  end.

(** A step that pays at least [k] gas. *)
Definition good (k : Z) (pay : bool) (m : M S ExecuteState) : Prop :=
  forall vm, vm_wf vm -> money_wf vm -> frame_inv vm -> costs_at_least k (gas_costs vm) ->
    wp m (fun st vm' => vm_wf vm' /\ money_wf vm' /\ state_ok pay st vm vm' /\
                        ((exists o, st = Unmodelled o) \/
                         reg vm' RegId.GGAS + k <= reg vm RegId.GGAS))
       (fun e vm' => local_err e vm vm') vm.

Definition modelled_state (st : ExecuteState) : Prop := match st with Unmodelled _ => False | _ => True end.

Lemma wp_charge k c vm :
  vm_wf vm -> costs_at_least k (gas_costs vm) ->
  wp (charge c) (fun _ v => vm_wf v /\ local_step vm v /\ reg v RegId.GGAS + k <= reg vm RegId.GGAS)
     (fun e v => local_err e vm v) vm.
Proof.
  intros Hwf [Hk _]. unfold charge, get_word_cost. do 2 wp_step.
  destruct (wf_costs _ Hwf) as [Hw _].
  eapply wp_mono; [apply local_gas_charge; [done|apply Hw]| |done].
  cbn. intros _ v (? & ? & ?). split_and!; try done. specialize (Hk c). lia.
Qed.

Lemma wp_charge_dep k c arg vm :
  vm_wf vm -> costs_at_least k (gas_costs vm) -> u64_ok arg ->
  wp (charge_dep c arg)
     (fun _ v => vm_wf v /\ local_step vm v /\ reg v RegId.GGAS + k <= reg vm RegId.GGAS)
     (fun e v => local_err e vm v) vm.
Proof.
  intros Hwf [_ Hk] Ha. unfold charge_dep, get_dep_cost, dependent_gas_charge. repeat wp_step.
  destruct (wf_costs _ Hwf) as [_ Hd].
  destruct (resolve_ok (dep_cost (gas_costs vm) c) arg (Hd c) Ha) as (v & -> & Hv & Hb).
  eapply wp_mono; [apply local_gas_charge; [done|apply Hv]| |done].
  cbn. intros _ v' (? & ? & ?). split_and!; try done. specialize (Hk c). lia.
Qed.

(** Charge, then a body that only reads the storage. *)
Lemma good_after k pay (m : M S ExecuteState) vm v :
  stored modelled_state m -> vm_wf v -> money_wf vm -> local_step vm v ->
  reg v RegId.GGAS + k <= reg vm RegId.GGAS ->
  wp m (fun st vm' => vm_wf vm' /\ money_wf vm' /\ state_ok pay st vm vm' /\
                      ((exists o, st = Unmodelled o) \/
                       reg vm' RegId.GGAS + k <= reg vm RegId.GGAS))
       (fun e vm' => local_err e vm vm') v.
Proof.
  intros Hm Hv Hmo Hs Hg. eapply wp_mono.
  - apply (Hm v Hv). rewrite (ls_storage _ _ Hs). apply Hmo.
  - intros st v' (Hw' & Hs' & Hst). assert (local_step vm v') by by etrans.
    split_and!; [done|by eapply money_local| |right; pose proof (ls_gas _ _ Hs'); lia].
    destruct st; try done; by apply step_local.
  - intros e v'. by apply local_step_err.
Qed.

Lemma good_charge_stored k pay c (m : M S ExecuteState) :
  stored modelled_state m -> good k pay (charge c ;;; m).
Proof.
  intros Hm vm Hwf Hmo Hfi Hk. apply wp_bind. eapply wp_mono; [by apply (wp_charge k)| |done].
  intros [] v (? & ? & ?). by apply good_after.
Qed.

Lemma good_charge_dep_stored k pay c arg (m : M S ExecuteState) :
  u64_ok arg -> stored modelled_state m -> good k pay (charge_dep c arg ;;; m).
Proof.
  intros Ha Hm vm Hwf Hmo Hfi Hk. apply wp_bind. eapply wp_mono; [by apply (wp_charge_dep k)| |done].
  intros [] v (? & ? & ?). by apply good_after.
Qed.

Lemma good_charge k pay c (m : M S ExecuteState) :
  safe modelled_state m -> good k pay (charge c ;;; m).
Proof. intros Hm. by apply good_charge_stored, stored_safe. Qed.

Lemma good_charge_dep k pay c arg (m : M S ExecuteState) :
  u64_ok arg -> safe modelled_state m -> good k pay (charge_dep c arg ;;; m).
Proof. intros Ha Hm. by apply good_charge_dep_stored, stored_safe. Qed.

Lemma good_get_reg k pay i (f : Z -> M S ExecuteState) :
  (forall v, u64_ok v -> good k pay (f v)) -> good k pay (v <- get_reg i ;; f v).
Proof. intros Hf vm Hwf Hmo Hfi Hk. do 2 wp_step. apply Hf; try done. by apply wf_reg_u64. Qed.

Lemma good_unmodelled k pay o : good k pay (mret (Unmodelled o)).
Proof. intros vm Hwf Hmo Hfi Hk. wp_step. split_and!; try done. left. by eexists. Qed.

Lemma wp_flatten {A B C} (m : M S A) (f : A -> M S B) (g : B -> M S C) Q E vm :
  wp (mbind_ m (fun a => mbind_ (f a) g)) Q E vm -> wp (mbind_ (mbind_ m f) g) Q E vm.
Proof. unfold wp, mbind_. by destruct (m vm) as [[a| |] v]. Qed.

Lemma stored_proceed (m : M S unit) : stored any m -> stored modelled_state (m ;;; mret Proceed).
Proof.
  intros Hm vm Hwf Hs. apply wp_bind. eapply wp_mono; [by apply Hm| |done].
  intros [] v (? & ? & _). by apply wp_mret.
Qed.

Lemma stored_get_reg {A} P i (f : Z -> M S A) :
  (forall v, u64_ok v -> stored P (f v)) -> stored P (v <- get_reg i ;; f v).
Proof. intros Hf vm Hwf Hs. do 2 wp_step. apply Hf; try done. by apply wf_reg_u64. Qed.

(** A handler that charges the base of its cost itself. *)
Lemma good_based k pay c (m : M S unit) : based c m -> good k pay (m ;;; mret Proceed).
Proof.
  intros (f & -> & Hf) vm Hwf Hmo Hfi [_ Hk]. apply wp_flatten. unfold get_dep_cost.
  do 2 wp_step. apply wp_flatten, wp_bind. destruct (wf_costs _ Hwf) as [_ Hd].
  eapply wp_mono; [apply local_gas_charge; [done|by apply cost_base_nonneg]| |done].
  intros [] v (Hv & Hl & Hg). specialize (Hk c).
  apply good_after; [by apply stored_proceed, Hf|done..|lia].
Qed.

(** A handler with an effect, after its charge. *)
Definition acts (m : M S ExecuteState) : Prop :=
  forall vm, vm_wf vm -> money_wf vm -> frame_inv vm ->
    wp m (fun st vm' => modelled_state st /\ exists v rs rx, affected vm vm' v rs rx)
       (fun e vm' => local_err e vm vm') vm.

Lemma acts_proceed {A} (m : M S A) : affects m -> acts (m ;;; mret Proceed).
Proof.
  intros Hm vm Hwf Hmo Hfi. apply wp_bind. eapply wp_mono; [by apply Hm| |done].
  intros x v He. by apply wp_mret.
Qed.

Lemma acts_get_reg i (f : Z -> M S ExecuteState) :
  (forall v, u64_ok v -> acts (f v)) -> acts (v <- get_reg i ;; f v).
Proof. intros Hf vm Hwf Hmo Hfi. do 2 wp_step. apply Hf; try done. by apply wf_reg_u64. Qed.

Lemma good_acts k (m : M S ExecuteState) vm v :
  acts m -> vm_wf vm -> vm_wf v -> money_wf vm -> frame_inv vm -> local_step vm v ->
  reg v RegId.GGAS + k <= reg vm RegId.GGAS ->
  wp m (fun st vm' => vm_wf vm' /\ money_wf vm' /\ state_ok true st vm vm' /\
                      ((exists o, st = Unmodelled o) \/
                       reg vm' RegId.GGAS + k <= reg vm RegId.GGAS))
       (fun e vm' => local_err e vm vm') v.
Proof.
  intros Hm Hwf Hv Hmo Hfi Hl Hg. eapply wp_mono.
  - apply Hm; [done|by eapply money_local|exact (frame_inv_local vm v Hwf Hfi Hl)].
  - intros st vm' (Hst & w & rs & rx & Ha). pose proof (af_gas _ _ _ _ _ Ha).
    split_and!; [apply Ha|by eapply af_money_wf| |right; lia].
    assert (step_rel true vm vm') by (by eapply step_pay). by destruct st.
  - intros e v'. by apply local_step_err.
Qed.

Lemma good_charge_acts k c (m : M S ExecuteState) : acts m -> good k true (charge c ;;; m).
Proof.
  intros Hm vm Hwf Hmo Hfi Hk. apply wp_bind. eapply wp_mono; [by apply (wp_charge k)| |done].
  intros [] v (? & ? & ?). by apply good_acts.
Qed.

Lemma good_charge_dep_acts k c arg (m : M S ExecuteState) :
  u64_ok arg -> acts m -> good k true (charge_dep c arg ;;; m).
Proof.
  intros Ha Hm vm Hwf Hmo Hfi Hk. apply wp_bind. eapply wp_mono; [by apply (wp_charge_dep k)| |done].
  intros [] v (? & ? & ?). by apply good_acts.
Qed.

(** A handler, then [Proceed]. *)
Lemma safe_proceed (m : M S unit) : safe any m -> safe modelled_state (m ;;; mret Proceed).
Proof. intros Hm. eapply safe_bind; [exact Hm|]. intros _ _. by apply safe_mret. Qed.
End Steps.

(** ** Words are closed under the word operations *)

Lemma u64_bits x : 0 <= x -> (forall i, 64 <= i -> Z.testbit x i = false) -> u64_ok x.
Proof.
  intros Hx Hb. split; [done|]. change U64 with (2 ^ 64). by apply Z.bounded_iff_bits_nonneg.
Qed.

Lemma u64_high x i : u64_ok x -> 64 <= i -> Z.testbit x i = false.
Proof. intros [H0 H1] Hi. by apply (Z.bounded_iff_bits_nonneg 64 x). Qed.

Lemma u64_land a b : u64_ok a -> u64_ok b -> u64_ok (Z.land a b).
Proof.
  intros Ha Hb. apply u64_bits; [apply Z.land_nonneg; left; apply Ha|].
  intros i Hi. by rewrite Z.land_spec, (u64_high a).
Qed.

Lemma u64_lor a b : u64_ok a -> u64_ok b -> u64_ok (Z.lor a b).
Proof.
  intros Ha Hb. apply u64_bits; [apply Z.lor_nonneg; split; [apply Ha|apply Hb]|].
  intros i Hi. by rewrite Z.lor_spec, (u64_high a), (u64_high b).
Qed.

Lemma u64_lxor a b : u64_ok a -> u64_ok b -> u64_ok (Z.lxor a b).
Proof.
  intros Ha Hb. apply u64_bits; [apply Z.lxor_nonneg; split; intros _; [apply Hb|apply Ha]|].
  intros i Hi. by rewrite Z.lxor_spec, (u64_high a), (u64_high b).
Qed.

Lemma u64_not a : u64_ok a -> u64_ok (lnot_w 64 a).
Proof. unfold u64_ok, lnot_w. change (2 ^ 64) with U64. lia. Qed.

Lemma u64_shl a n : u64_ok (default 0 (checked_shl 64 a n)).
Proof.
  unfold checked_shl. case_if; [|done]. cbn. change (2 ^ 64) with U64. apply mod_u64_ok.
Qed.

Lemma u64_shr a n : u64_ok a -> 0 <= n -> u64_ok (default 0 (checked_shr 64 a n)).
Proof.
  intros Ha Hn. unfold checked_shr. case_if; [|done]. cbn.
  apply u64_bits; [apply Z.shiftr_nonneg, Ha|]. intros i Hi.
  rewrite Z.shiftr_spec by lia. apply u64_high; [done|lia].
Qed.

Lemma u64_div a b : u64_ok a -> u64_ok b -> b <> 0 -> u64_ok (a / b).
Proof.
  intros [Ha Ha'] [Hb _] Hne. split; [apply Z.div_pos; lia|].
  apply Z.div_lt_upper_bound; nia.
Qed.

Lemma u64_mod a b : u64_ok b -> b <> 0 -> u64_ok (a mod b).
Proof. intros [Hb Hb'] Hne. pose proof (Z.mod_pos_bound a b). unfold u64_ok. lia. Qed.

Lemma imm_u64 n imm : imm_ok n imm -> 0 <= n <= 24 -> u64_ok imm.
Proof.
  unfold imm_ok, u64_ok. intros Hi Hn. split; [lia|].
  eapply Z.lt_le_trans; [apply Hi|]. transitivity (2 ^ 24); [|discriminate].
  apply Z.pow_le_mono_r; lia.
Qed.

Lemma imm_u64_06 imm : imm_ok 6 imm -> u64_ok imm. Proof. intros. by apply (imm_u64 6). Qed.
Lemma imm_u64_12 imm : imm_ok 12 imm -> u64_ok imm. Proof. intros. by apply (imm_u64 12). Qed.
Lemma imm_u64_18 imm : imm_ok 18 imm -> u64_ok imm. Proof. intros. by apply (imm_u64 18). Qed.
Lemma imm_u64_24 imm : imm_ok 24 imm -> u64_ok imm. Proof. intros. by apply (imm_u64 24). Qed.

#[export] Hint Resolve u64_land u64_lor u64_lxor u64_not u64_shl u64_div u64_mod
  imm_u64_06 imm_u64_12 imm_u64_18 imm_u64_24 : fuel.

(** ** The remaining handlers *)

Section LocalOps.
Context {S : Type} `{Sha256} `{Powf} `{WideLib} `{!PowfLaw} `{!WideLaws}.

Lemma width_128 : width_ok 128. Proof. by left. Qed.
Lemma width_256 : width_ok 256. Proof. by right. Qed.

Lemma safe_args {A} (x : option A) r : safe any (lift_panic (S := S) (ok_or x r)).
Proof. apply safe_lift_panic. by destruct x. Qed.

Lemma safe_set_flag a : u64_ok a -> safe any (set_flag (S := S) a).
Proof.
  intros Ha. unfold set_flag, flags_from_bits. destruct (_ =? _); [|apply safe_mpanic].
  eapply safe_bind; [apply safe_put_reg; eauto with fuel|intros _ _]. apply safe_inc_pc.
Qed.

Lemma safe_set_user_reg r v :
  RegId.ok r -> u64_ok v -> safe any (set_user_reg_or_discard (S := S) r v).
Proof.
  intros Hr Hv. unfold set_user_reg_or_discard. case_if; [by apply safe_mret|].
  case_if; [apply safe_mpanic|]. apply safe_put_reg; [|done].
  apply (write_reg_key_ok r); [|apply Hr]. unfold write_reg_key. case_if; [done|lia].
Qed.

(** Side conditions of the arithmetic handlers. *)
Lemma exp_word b c : u64_ok b -> u64_ok c -> snd (exp b c) = false -> u64_ok (fst (exp b c)).
Proof.
  intros Hb Hc Ho. pose proof (exp_spec b c Hb Hc) as Hs. destruct (b ^ c <? U64) eqn:E; zbool.
  - rewrite Hs. cbn. split; [|done]. apply Z.pow_nonneg, Hb.
  - congruence.
Qed.

Lemma pow_word b e :
  u64_ok b -> u64_ok e -> snd (overflowing_pow b e) = false -> u64_ok (fst (overflowing_pow b e)).
Proof.
  intros Hb He Ho. pose proof (overflowing_pow_spec b e Hb (proj1 He)) as Hs.
  destruct (b ^ e <? U64) eqn:E; zbool; [|congruence].
  rewrite Hs. cbn. split; [|done]. apply Z.pow_nonneg, Hb.
Qed.

Lemma div_word b c :
  u64_ok b -> u64_ok c -> (c =? 0) = false ->
  exists v, Ok (E := RuntimeError) (b / c) = Ok v /\ u64_ok v.
Proof. intros. zbool. eexists; split; [done|]. eauto with fuel. Qed.

Lemma mod_word b c :
  u64_ok b -> u64_ok c -> (c =? 0) = false ->
  exists v, Ok (E := RuntimeError) (b mod c) = Ok v /\ u64_ok v.
Proof. intros. zbool. eexists; split; [done|]. eauto with fuel. Qed.

Lemma ilog_word b c :
  u64_ok b -> u64_ok c -> (b =? 0) || (c <=? 1) = false ->
  exists v, expect (E := RuntimeError) (checked_ilog b c) = Ok v /\ u64_ok v.
Proof.
  intros Hb Hc E. zbool. unfold u64_ok in *.
  destruct (checked_ilog_spec b c) as (k & -> & Hk & _); [lia..|].
  eexists; split; [done|]. lia.
Qed.

Lemma root_word b c :
  u64_ok b -> u64_ok c -> (c =? 0) = false ->
  exists v, (let? x := checked_nth_root b c in expect x) = Ok v /\ u64_ok v.
Proof.
  intros Hb Hc E. zbool. unfold checked_nth_root. case_if; [lia|].
  case_if; [by eexists|]. case_if; [eexists; split; [done|]; by unfold u64_ok|].
  unfold u64_ok in *. unfold try_u32. case_if; [|lia]. cbn [expect obind].
  pose proof (powf_range b c Hb ltac:(lia) ltac:(lia)) as Hg.
  case_if; [eexists; split; [done|]; unfold saturating_sub; lia|].
  rewrite checked_add_Some by lia. cbn [expect obind]. case_if; eexists; (split; [done|lia]).
Qed.

Lemma shr_word b c : u64_ok b -> u64_ok c ->
  u64_ok (match try_u32 c with Some c => default 0 (checked_shr 64 b c) | None => 0 end).
Proof.
  intros Hb [Hc _]. unfold try_u32. case_if; [|done]. by apply u64_shr.
Qed.

Lemma shl_word b c :
  u64_ok (match try_u32 c with Some c => default 0 (checked_shl 64 b c) | None => 0 end).
Proof. unfold try_u32. case_if; [|done]. apply u64_shl. Qed.

Lemma sp_add v sp : u64_ok sp -> 0 <= fst (overflowing_add 64 sp v).
Proof. intros _. cbn. apply Z.mod_pos_bound. done. Qed.

Lemma sp_sub v sp : u64_ok sp -> 0 <= fst (overflowing_sub 64 sp v).
Proof. intros _. cbn. apply Z.mod_pos_bound. done. Qed.

Lemma imm12_range imm : imm_ok 12 imm -> 0 <= imm < 4096.
Proof. done. Qed.

Lemma imm24_range imm : imm_ok 24 imm -> 0 <= imm < 2 ^ 24.
Proof. done. Qed.

Lemma sat_add_word a b : 0 <= a -> 0 <= b -> u64_ok (saturating_add a b).
Proof. unfold saturating_add, u64_ok. lia. Qed.

Lemma pc_word pc : u64_ok pc -> u64_ok (saturating_add pc Instruction_SIZE).
Proof. intros [Hpc _]. by apply sat_add_word. Qed.

Lemma jump_ok_intro j : u64_ok (dynamic j) -> u64_ok (fixed j) -> jump_ok j.
Proof. by split. Qed.
End LocalOps.

Create HintDb exec discriminated.
#[export] Hint Resolve safe_alu_capture_overflow safe_alu_boolean_overflow safe_alu_error
  safe_alu_set safe_alu_clear safe_alu_muldiv safe_alu_wideint_cmp safe_alu_wideint_op
  safe_alu_wideint_mul safe_alu_wideint_div safe_alu_wideint_addmod safe_alu_wideint_mulmod
  safe_alu_wideint_muldiv width_128 width_256 safe_jump safe_malloc safe_stack_pointer_overflow
  safe_push_selected_registers safe_pop_selected_registers safe_load safe_store safe_memclear
  safe_memcopy_op safe_memeq safe_log safe_log_data safe_set_flag safe_set_user_reg exp_word
  pow_word div_word mod_word ilog_word root_word shr_word shl_word sp_add sp_sub imm12_range
  imm24_range : exec.
#[export] Hint Resolve u64_shr pc_word : exec.
#[export] Hint Extern 1 (_ <= _)%nat => lia : exec.
#[export] Hint Extern 1 (0 <= _) => eapply proj1 : exec.

Ltac unfold_head t :=
  lazymatch t with
  | ?f _ => unfold_head f
  | ?f => unfold f
  end.

(** Walk through the body of an instruction. *)
Ltac safe_body :=
  repeat lazymatch goal with
  | |- safe _ (mbind_ (get_reg _) _) =>
      eapply safe_bind; [apply safe_get_reg|intros ? ?; cbv beta]
  | |- safe _ (mbind_ (lift_panic (ok_or _ _)) _) =>
      eapply safe_bind; [apply safe_args|intros ? _; cbv beta]
  | |- safe modelled_state (mbind_ _ (fun _ => mret Proceed)) => apply safe_proceed
  | |- safe modelled_state (mbind_ (set_user_reg_or_discard _ _) _) =>
      eapply (safe_bind any); [|intros ? _; cbv beta]
  | |- safe any (jump _) => apply safe_jump, jump_ok_intro; cbn [dynamic fixed to_address plus_fixed with_condition jump_new]
  | |- safe any _ => solve [eauto 7 with exec fuel]
  | |- u64_ok _ => solve [eauto with exec fuel]
  end.

Ltac good_local :=
  lazymatch goal with |- good _ _ ?m => unfold_head m end;
  repeat (apply good_get_reg; intros ? ?);
  first [apply good_charge|apply good_charge_dep; [solve [eauto with fuel]|]]; safe_body.

#[export] Hint Resolve stored_block_hash stored_block_height stored_coinbase stored_timestamp
  stored_state_read_word stored_state_read_qword stored_secp256k1_recover stored_secp256r1_recover
  stored_ed25519_verify stored_keccak256 stored_sha256_op stored_ec_operation stored_metadata
  based_code_copy based_code_root based_code_size based_blob_size based_blob_load_data
  burn_affects mint_affects message_output_affects state_write_word_affects
  state_write_qword_affects state_clear_qword_affects : exec.

Lemma ed19_len len : u64_ok len -> u64_ok (if len =? 0 then 32 else len).
Proof. by case_if. Qed.
#[export] Hint Resolve ed19_len : fuel exec.

(** Instructions that read the storage. *)
Ltac good_reads :=
  lazymatch goal with |- good _ _ ?m => unfold_head m end; cbv zeta;
  repeat (apply good_get_reg; intros ? ?; cbv beta zeta);
  first
    [ eapply good_based; eauto with exec
    | first [apply good_charge_stored|apply good_charge_dep_stored; [solve [eauto with fuel]|]];
      repeat (apply stored_get_reg; intros ? ?; cbv beta);
      apply stored_proceed; eauto with exec fuel ].

(** Instructions with effects. *)
Ltac good_acts :=
  lazymatch goal with |- good _ _ ?m => unfold_head m end;
  repeat (apply good_get_reg; intros ? ?; cbv beta);
  first [apply good_charge_acts|apply good_charge_dep_acts; [solve [eauto with fuel]|]];
  repeat (apply acts_get_reg; intros ? ?; cbv beta);
  apply acts_proceed; eauto with exec fuel.

(** ** The instructions that are not local *)

Section Execute.
Context {S : Type} `{Sha256} `{Powf} `{WideLib} `{!PowfLaw} `{!WideLaws} `{Crypto} `{StateLaws S}.
Implicit Types (vm : Interpreter S).

(** The outcome of a return instruction. *)
Definition returned v a b vm' : Prop :=
  vm_wf vm' /\ exists r,
    match frames v with
    | [] => local_step v vm'
    | f :: rest => return_step (with_ret v a b) f rest r vm'
    end.

(** A return after the gas charge that led to [v]. *)
Lemma good_returned k pay vm v a b st vm' :
  money_wf vm -> vm_wf v -> local_step vm v -> reg v RegId.GGAS + k <= reg vm RegId.GGAS ->
  modelled_state st -> returned v a b vm' ->
  vm_wf vm' /\ money_wf vm' /\ state_ok pay st vm vm' /\
  ((exists o, st = Unmodelled o) \/ reg vm' RegId.GGAS + k <= reg vm RegId.GGAS).
Proof.
  intros Hmo Hv Hs Hg Hst (Hwf' & r & Hr). destruct (frames v) as [|f rest] eqn:Ef.
  - assert (local_step vm vm') by by etrans. pose proof (ls_gas _ _ Hr).
    split_and!; [done|by eapply money_local| |right; lia].
    destruct st; try done; by apply step_local.
  - assert (Hgas : reg vm' RegId.GGAS = reg v RegId.GGAS).
    { rewrite (rs_kept _ _ _ _ _ Hr) by done. unfold with_ret. by rewrite !reg_set_ne. }
    split; [done|]. split; [|split; [|right; lia]].
    + destruct (money_local _ _ Hmo Hs) as [? ?].
      split; [by rewrite (rs_storage _ _ _ _ _ Hr)|by rewrite (rs_balances _ _ _ _ _ Hr)].
    + assert (step_rel pay vm vm') by by eapply step_return. by destruct st.
Qed.

Lemma good_RET k pay a : good k pay (exec_RET (S := S) a).
Proof.
  intros vm Hwf Hmo Hfi Hk. unfold exec_RET. apply wp_bind.
  eapply wp_mono; [by apply (wp_charge k)| |done]. intros [] v (Hv & Hs & Hg). do 2 wp_step.
  apply wp_bind. eapply wp_mono.
  - apply (wp_ret v (reg v a) (fun _ => returned v (reg v a) 0)); [done|by apply wf_reg_u64|].
    intros c vm' _ ? ?. split; [done|by eexists].
  - intros [] vm' Hr. apply wp_mret. by eapply good_returned.
  - intros e v'. by apply local_step_err.
Qed.

Lemma good_RETD k pay a b : good k pay (exec_RETD (S := S) a b).
Proof.
  apply good_get_reg. intros len Hlen vm Hwf Hmo Hfi Hk. apply wp_bind.
  eapply wp_mono; [by apply (wp_charge_dep k)| |done]. intros [] v (Hv & Hs & Hg). do 2 wp_step.
  apply wp_bind. eapply wp_mono.
  - apply (wp_ret_data v (reg v a) len (fun _ => returned v (reg v a) len));
      [done|by apply wf_reg_u64|done|]. intros c data vm' _ _ ? ?. split; [done|by eexists].
  - intros digest vm' Hr. apply wp_mret. by eapply good_returned, Hr.
  - intros e v'. by apply local_step_err.
Qed.

Lemma good_RVRT k pay a : good k pay (exec_RVRT (S := S) a).
Proof.
  apply good_charge. eapply safe_bind; [apply safe_get_reg|intros ra _].
  eapply safe_bind; [apply safe_revert|intros _ _]. by apply safe_mret.
Qed.

Lemma good_CALL k a b c d : good k true (exec_CALL (S := S) a b c d).
Proof.
  intros vm Hwf Hmo Hfi [_ Hk]. unfold exec_CALL, prepare_call. apply wp_bind. do 8 wp_step.
  eapply wp_mono; [apply prepare_call_inner_spec; first [done|by apply wf_reg_u64]| |done].
  intros [] vm' (v1 & cc & ci & f & m & rx & code & Hcd). apply wp_mret.
  pose proof (cd_wf1 _ _ _ _ _ _ _ _ _ _ _ Hcd) as Hwf1.
  split; [apply Hcd|]. split; [|split; [eapply step_call; [done| |done]; by apply wf_reg_u64|right]].
  - rewrite (cd_entered _ _ _ _ _ _ _ _ _ _ _ Hcd). apply (cd_money _ _ _ _ _ _ _ _ _ _ _ Hcd).
  - pose proof (cd_gas _ _ _ _ _ _ _ _ _ _ _ Hcd). specialize (Hk d_call).
    rewrite (cd_entered _ _ _ _ _ _ _ _ _ _ _ Hcd), reg_entered by apply Hwf1. reg_eqb.
    cbn [orb]. cbv iota. lia.
Qed.

Lemma transfer_affects p n q :
  u64_ok p -> u64_ok n -> u64_ok q -> affects (transfer (S := S) p n q).
Proof.
  intros Hp Hn Hq vm Hwf Hmo Hfi. eapply wp_mono; [by apply transfer_spec| |done].
  intros [] vm' (v & c & to & a & Ht). exists v.
  destruct (transferred_affected _ _ _ _ _ _ _ Hwf Hfi (proj1 Hn) Ht) as [rs Ha]. by eexists _, _.
Qed.

Lemma stored_contract_balance ra b c :
  RegId.ok ra -> u64_ok b -> u64_ok c -> stored any (contract_balance (S := S) ra b c).
Proof.
  intros Hra Hb Hc. apply stored_kept. intros o. unfold contract_balance. repeat kept_step.
  eapply (kept_bind _ u64_ok).
  - apply kept_lift. rewrite balance_spec. destruct (contract_asset_id_balance _ _ _); [|done].
    by apply bal_word.
  - intros amount Hamount. repeat kept_step.
Qed.

#[local] Hint Resolve transfer_affects stored_contract_balance : exec.

Lemma good_LDC k pay a b c mode : good k pay (exec_LDC (S := S) a b c mode).
Proof.
  unfold exec_LDC. do 3 (apply good_get_reg; intros ? ?). intros vm Hwf Hmo Hfi [_ Hk].
  apply wp_bind. eapply wp_mono; [apply (load_code_wp vm k); try done; apply Hmo| |done].
  intros [] vm' (w & Hv & Hl & _ & Hg & Hr). apply wp_mret. match type of Hr with if ?x then _ else _ => destruct x end.
  - destruct Hr as [Hwf' Hl']. assert (local_step vm vm') by by etrans. pose proof (ls_gas _ _ Hl').
    split_and!; [done|by eapply money_local|by apply step_local|right; lia].
  - apply code_loaded_step in Hr as [Hwf' Hld]. pose proof (ld_gas _ _ Hld).
    pose proof (loaded_after_local _ _ _ Hl Hld) as Hld'.
    split_and!; [done| |by apply step_load|right; lia].
    split; [by rewrite (ld_storage _ _ Hld'); apply Hmo|by rewrite (ld_balances _ _ Hld'); apply Hmo].
Qed.

Lemma good_LOGD k pay a b c d : good k pay (exec_LOGD (S := S) a b c d).
Proof.
  unfold exec_LOGD. repeat (apply good_get_reg; intros ? ?).
  apply good_charge_dep; [done|]. safe_body.
Qed.

(** The modelled instructions that change the storage or the free balances. *)
Definition has_effect (o : Opcode.t) : bool :=
  match o with
  | Opcode.CALL | Opcode.TR | Opcode.MINT | Opcode.BURN | Opcode.SMO | Opcode.SWW
  | Opcode.SWWQ | Opcode.SCWQ => true
  | _ => false
  end.

(** Every instruction, at any cost schedule whose costs are at least [k]. *)
Lemma execute_good k i : good k (has_effect (opcode i)) (execute_instruction (S := S) i).
Proof.
  pose proof (op_unpack_ok i) as Hp. unfold execute_instruction.
  destruct i as [o bs]. cbn [opcode]. unfold op_unpack in *. cbn [opcode op_bytes] in *.
  destruct o; cbn [layout has_effect] in *; cbn in Hp;
    repeat match goal with H : _ /\ _ |- _ => destruct H end.
  all: cbn [ra_rb_rc_from_bytes ra_rb_from_bytes ra_rb_rc_rd_from_bytes
    ra_rb_rc_imm06_from_bytes ra_rb_imm12_from_bytes ra_imm18_from_bytes].
  all: try apply good_unmodelled.
  all: lazymatch goal with
    | |- good _ _ (exec_LOGD _ _ _ _) => apply good_LOGD
    | |- good _ _ (exec_RET _) => apply good_RET
    | |- good _ _ (exec_RETD _ _) => apply good_RETD
    | |- good _ _ (exec_RVRT _) => apply good_RVRT
    | |- good _ _ (exec_CALL _ _ _ _) => apply good_CALL
    | |- good _ _ (exec_LDC _ _ _ _) => apply good_LDC
    | |- good _ true _ => good_acts
    | |- _ => first [solve [good_local]|solve [good_reads]]
    end.
Qed.
End Execute.
