(* ===== verification/Run.v ===== *)
(** * Running a program

    Fetching, decoding and executing the instruction at [$pc]
    (src/fuel-vm/src/interpreter/executors/instruction.rs), the script loop [run_program]
    (executors/main.rs) with its panic and result receipts, and the predicate loop
    [verify_predicate] (executors/predicate.rs). The debugger is inactive. The loops take
    fuel; every instruction costs gas, so the gas bounds the fuel. *)

From Stdlib Require Import Strings.Byte.
From stdpp Require Import relations.
From S2P Require Import Prelude Asm Merkle Receipts Memory State Gas Alu.
From S2P Require Import MemOps WideInt Storage MemStorage SlotStorage Flow Calls Blockchain.
From S2P Require Import BlockchainSafe Effects LoadCode Crypto Opcodes Steps.

(** [InterpreterError] (error.rs), the variants that arise while running. *)
Inductive InterpreterError : Type :=
| IE_PanicInstruction (result : PanicInstruction)
| IE_Panic (reason : PanicReason)
| IE_Storage
| IE_Bug (bug : BugVariant).

Definition interpreter_error_from (e : RuntimeError) : InterpreterError :=
  match e with
  | Recoverable r => IE_Panic r
  | Bug b => IE_Bug b
  | Storage => IE_Storage
  end.

Definition from_runtime (e : RuntimeError) (instruction : Z) : InterpreterError :=
  match e with
  | Recoverable reason => IE_PanicInstruction (mkPanic reason instruction)
  | _ => interpreter_error_from e
  end.

Definition instruction_result (e : InterpreterError) : option PanicInstruction :=
  match e with IE_PanicInstruction r => Some r | _ => None end.

(** [ProgramState] (state.rs), without the debugger's suspensions. *)
Inductive ProgramState : Type :=
| PS_Return (w : Z)
| PS_ReturnData (digest : Bytes32)
| PS_Revert (w : Z).

(** How a bounded run ends: with a result, with an error, in a panic of the host, at an
    instruction outside the modelled set, or for lack of fuel. *)
Inductive RunOutcome (A : Type) : Type :=
| Finished (a : A)
| Failed (e : InterpreterError)
| HostPanic
| Outside (o : Opcode.t)
| OutOfFuel.
Arguments Finished {A} _.
Arguments Failed {A} _.
Arguments HostPanic {A}.
Arguments Outside {A} _.
Arguments OutOfFuel {A}.

Section Run.
Context {S : Type} `{Sha256} `{Powf} `{WideLib} `{Crypto} `{InterpreterStorage S}.
Implicit Types (vm : Interpreter S).

Definition fetch_instruction vm : outcome InterpreterError (list byte) :=
  let pc := reg vm RegId.PC in
  match read_bytes (memory vm) pc 4 with
  | Ok raw =>
      if (pc <? reg vm RegId.IS) || (reg vm RegId.SSP <=? pc)
      then Err (IE_PanicInstruction (mkPanic MemoryNotExecutable (from_be_bytes raw)))
      else Ok raw
  | Err reason => Err (IE_PanicInstruction (mkPanic reason 0))
  | Crash => Crash
  end.

Definition instruction_inner (predicate : bool) (raw : list byte) : M S ExecuteState :=
  instruction <- lift_panic (ok_or (try_from raw) InvalidInstruction) ;;
  if predicate && negb (Opcode.is_predicate_allowed (opcode instruction))
  then mpanic ContractInstructionNotAllowed
  else execute_instruction instruction.

(** [execute::<PREDICATE>], without a debugger attached *)
Definition execute (predicate : bool) vm : outcome InterpreterError ExecuteState * Interpreter S :=
  match fetch_instruction vm with
  | Ok raw =>
      let (r, vm') := instruction_inner predicate raw vm in
      (omap_err (fun e => from_runtime e (from_be_bytes raw)) r, vm')
  | Err e => (Err e, vm)
  | Crash => (Crash, vm)
  end.

(** The loop of [run_program]. *)
Fixpoint run_loop (fuel : nat) vm
  : RunOutcome (ScriptExecutionResult * ProgramState) * Interpreter S :=
  match fuel with
  | O => (OutOfFuel, vm)
  | Datatypes.S fuel =>
      let in_call := negb (bool_decide (frames vm = [])) in
      match execute false vm with
      | (Ok Proceed, vm') => run_loop fuel vm'
      | (Ok (Unmodelled o), vm') => (Outside o, vm')
      | (Ok (RevertState r), vm') => (Finished (Revert_, PS_Revert r), vm')
      | (Ok (Return r), vm') =>
          if in_call then run_loop fuel vm' else (Finished (Success, PS_Return r), vm')
      | (Ok (ReturnData d), vm') =>
          if in_call then run_loop fuel vm' else (Finished (Success, PS_ReturnData d), vm')
      | (Err e, vm') =>
          match instruction_result e with
          | Some result =>
              match append_panic_receipt result vm' with
              | (Ok tt, vm'') => (Finished (Panic_, PS_Revert 0), vm'')
              | (_, vm'') => (HostPanic, vm'')
              end
          | None => (Failed e, vm')
          end
      | (Crash, vm') => (HostPanic, vm')
      end
  end.

(** The result receipt, after the loop. *)
Definition result_receipt (gas_limit : Z) (result : ScriptExecutionResult) (state : ProgramState) vm
  : RunOutcome ProgramState * Interpreter S :=
  match checked_sub gas_limit (remaining_gas vm) with
  | None => (Failed (IE_Bug GlobalGasUnderflow), vm)
  | Some gas_used =>
      match receipts_push (receipts vm) (Receipt_ScriptResult result gas_used) with
      | Ok rx => (Finished state, set_receipts vm rx)
      | Err e => (Failed (interpreter_error_from e), vm)
      | Crash => (HostPanic, vm)
      end
  end.

(** [run_program] up to the finalization of the transaction's outputs, which needs the transaction:
    [finalize_script], and the two together [run_script], are in Transact. *)
Definition run_program (script_is_empty : bool) (gas_limit : Z) (fuel : nat) vm
  : RunOutcome ProgramState * Interpreter S :=
  if script_is_empty then
    match ret 1 vm with
    | (Ok tt, vm') => result_receipt gas_limit Success (PS_Return 1) vm'
    | (Err e, vm') => (Failed (interpreter_error_from e), vm')
    | (Crash, vm') => (HostPanic, vm')
    end
  else
    match run_loop fuel vm with
    | (Finished (result, state), vm') => result_receipt gas_limit result state vm'
    | (Failed e, vm') => (Failed e, vm')
    | (HostPanic, vm') => (HostPanic, vm')
    | (Outside o, vm') => (Outside o, vm')
    | (OutOfFuel, vm') => (OutOfFuel, vm')
    end.

Fixpoint verify_predicate (fuel : nat) vm : RunOutcome ProgramState * Interpreter S :=
  match fuel with
  | O => (OutOfFuel, vm)
  | Datatypes.S fuel =>
      match execute true vm with
      | (Ok (Return r), vm') =>
          if r =? 1 then (Finished (PS_Return r), vm')
          else (Failed (IE_Panic PredicateReturnedNonOne), vm')
      | (Ok (ReturnData _), vm') => (Failed (IE_Panic ContractInstructionNotAllowed), vm')
      | (Ok (RevertState r), vm') => (Finished (PS_Revert r), vm')
      | (Ok Proceed, vm') => verify_predicate fuel vm'
      | (Ok (Unmodelled o), vm') => (Outside o, vm')
      | (Err e, vm') => (Failed e, vm')
      | (Crash, vm') => (HostPanic, vm')
      end
  end.
End Run.

(** ** One instruction *)

(** Which states an instruction can yield. *)
Definition yields {S A} (P : A -> Prop) (m : M S A) : Prop :=
  forall vm, match m vm with (Ok a, _) => P a | _ => True end.

Lemma yields_bind {S A B} P (m : M S A) (f : A -> M S B) :
  (forall a, yields P (f a)) -> yields P (mbind_ m f).
Proof. intros Hf vm. unfold mbind_. destruct (m vm) as [[a| |] v]; [apply Hf|done..]. Qed.

Lemma yields_mret {S A} (P : A -> Prop) (a : A) : P a -> yields P (mret (S := S) a).
Proof. by intros Ha vm. Qed.

(** The instructions that the model does not execute: a modelled run stops at them. *)
Definition unmodelled (o : Opcode.t) : bool :=
  match o with Opcode.TRO | Opcode.GTF | Opcode.ECAL | Opcode.EPAR => true | _ => false end.

Definition yielded_by (o : Opcode.t) (st : ExecuteState) : Prop :=
  match st with
  | Proceed => True
  | Return _ => o = Opcode.RET
  | ReturnData _ => o = Opcode.RETD
  | RevertState _ => o = Opcode.RVRT
  | Unmodelled o' => o' = o /\ unmodelled o = true
  end.

Section Step.
Context {S : Type} `{Sha256} `{Powf} `{WideLib} `{!PowfLaw} `{!WideLaws} `{Crypto} `{StateLaws S}.
Implicit Types (vm : Interpreter S).

Lemma execute_yields i : yields (yielded_by (opcode i)) (execute_instruction (S := S) i).
Proof.
  unfold execute_instruction. destruct i as [o bs]. cbn [opcode]. unfold op_unpack.
  cbn [opcode op_bytes]. destruct o; cbn [layout];
    cbn [ra_rb_rc_from_bytes ra_rb_from_bytes ra_rb_rc_rd_from_bytes
      ra_rb_rc_imm06_from_bytes ra_rb_imm12_from_bytes ra_imm18_from_bytes].
  all: try by apply yields_mret.
  all: lazymatch goal with |- yields _ ?m => unfold_head m end.
  all: repeat (apply yields_bind; intros ?); by apply yields_mret.
Qed.

(** Only the four unmodelled instructions stop a run. *)
Lemma execute_outside predicate vm :
  match fst (execute predicate vm) with Ok (Unmodelled o) => unmodelled o = true | _ => True end.
Proof.
  unfold execute, instruction_inner, mbind_. destruct (fetch_instruction vm) as [raw| |]; [|done..].
  unfold lift_panic, lift. destruct (try_from raw) as [i|]; [|done]. cbn.
  destruct (predicate && _); [done|]. pose proof (execute_yields i vm) as Hy.
  destruct (execute_instruction i vm) as [[[]| |] v]; cbn; try done. by destruct Hy as [-> ?].
Qed.

(** The errors that reach the loop: well-formed panics and storage failures. *)
Definition run_error (e : InterpreterError) : Prop :=
  match e with IE_PanicInstruction _ | IE_Storage => True | _ => False end.

Definition step_out (k : Z) (predicate : bool) vm (st : ExecuteState) vm' : Prop :=
  vm_wf vm' /\ money_wf vm' /\ state_ok (negb predicate) st vm vm' /\
  ((exists o, st = Unmodelled o) \/ reg vm' RegId.GGAS + k <= reg vm RegId.GGAS) /\
  (predicate = true -> match st with Proceed | Return _ | Unmodelled _ => True | _ => False end).

Lemma step_rel_weaken pay pay' vm vm' :
  (pay = true -> pay' = true) -> step_rel pay vm vm' -> step_rel pay' vm vm'.
Proof.
  intros Hp []; [by apply step_local|by apply step_load|eapply step_pay; [by apply Hp|..]; done
    |eapply step_call; [by apply Hp|..]; done|].
  by eapply step_return.
Qed.

Lemma state_ok_weaken pay pay' st vm vm' :
  (pay = true -> pay' = true) -> state_ok pay st vm vm' -> state_ok pay' st vm vm'.
Proof. intros Hp. destruct st; cbn; try done; by apply step_rel_weaken. Qed.

Lemma predicate_allowed_coins o :
  Opcode.is_predicate_allowed o = true ->
  has_effect o = false /\ o <> Opcode.RETD /\ o <> Opcode.RVRT.
Proof. by destruct o. Qed.

Lemma instruction_inner_spec k predicate raw vm :
  vm_wf vm -> money_wf vm -> frame_inv vm -> costs_at_least k (gas_costs vm) ->
  wp (instruction_inner predicate raw) (step_out k predicate vm)
     (fun e vm' => local_err e vm vm') vm.
Proof.
  intros Hwf Hm Hfi Hk. unfold instruction_inner. apply wp_bind, wp_lift_panic.
  destruct (try_from raw) as [i|]; cbn; [|by apply wf_err].
  destruct (predicate && negb (Opcode.is_predicate_allowed (opcode i))) eqn:Ep;
    [apply wp_merr; by apply wf_err|].
  pose proof (execute_good k i vm Hwf Hm Hfi Hk) as Hg. pose proof (execute_yields i vm) as Hy.
  unfold wp in *. destruct (execute_instruction i vm) as [[st|e|] vm']; [|done..].
  destruct Hg as (Hwf' & Hm' & Hst & Hgas). destruct predicate; cbn in Ep.
  - apply negb_false_iff, predicate_allowed_coins in Ep as (Hc & Hd & Hr).
    split; [done|]. split; [done|]. split; [|split; [done|]].
    + eapply state_ok_weaken; [|done]. congruence.
    + intros _. destruct st; try done; by cbn in Hy.
  - split; [done|]. split; [done|]. split; [eapply state_ok_weaken; [|exact Hst]; done|done].
Qed.

Lemma execute_spec k predicate vm :
  vm_wf vm -> money_wf vm -> frame_inv vm -> costs_at_least k (gas_costs vm) ->
  match execute predicate vm with
  | (Ok st, vm') => step_out k predicate vm st vm'
  | (Err e, vm') => run_error e /\ exists r, local_err r vm vm'
  | (Crash, _) => False
  end.
Proof.
  intros Hwf Hm Hfi Hk. unfold execute, fetch_instruction.
  pose proof (wf_reg_u64 vm RegId.PC Hwf) as [Hpc _].
  rewrite read_bytes_eq by (apply Hwf || done).
  destruct (read (memory vm) _ 4) as [raw|e|] eqn:Er.
  - case_if.
    + split; [done|]. exists (Recoverable MemoryNotExecutable). by apply wf_err.
    + pose proof (instruction_inner_spec k predicate raw vm Hwf Hm Hfi Hk) as Hs. unfold wp in Hs.
      destruct (instruction_inner predicate raw vm) as [[st|e|] vm']; cbn; [done| |done].
      split; [|by exists e]. destruct e as [|b|]; cbn; try done. by apply (le_nobug _ _ _ Hs b).
  - split; [done|]. exists (Recoverable e). by apply wf_err.
  - by apply read_no_crash in Er; [|apply Hwf|..].
Qed.
End Step.

(** ** Executions *)

Section Executions.
Context {S : Type} `{Sha256} `{Powf} `{WideLib} `{!PowfLaw} `{!WideLaws} `{Crypto} `{StateLaws S}.
Implicit Types (vm : Interpreter S).

Lemma run_loop_outside fuel : forall vm,
  match fst (run_loop fuel vm) with Outside o => unmodelled o = true | _ => True end.
Proof.
  induction fuel as [|fuel IH]; intros vm; [done|]. cbn [run_loop]. pose proof (execute_outside false vm) as Hx.
  destruct (execute false vm) as [[st|e|] vm']; cbn in Hx; [|destruct (instruction_result e); [|done]|done].
  - destruct st; try done; try apply IH; case_if; done || apply IH.
  - by destruct (append_panic_receipt _ _) as [[[]| |] ?].
Qed.
Lemma verify_predicate_outside fuel : forall vm,
  match fst (verify_predicate fuel vm) with Outside o => unmodelled o = true | _ => True end.
Proof.
  induction fuel as [|fuel IH]; intros vm; [done|]. cbn [verify_predicate]. pose proof (execute_outside true vm) as Hx.
  destruct (execute true vm) as [[st|e|] vm']; cbn in Hx; [|done..]. destruct st; try done; [apply IH|by case_if].
Qed.

(** After which states the script loop goes on. *)
Definition continues vm (st : ExecuteState) : bool :=
  match st with
  | Proceed => true
  | Return _ | ReturnData _ => negb (bool_decide (frames vm = []))
  | _ => false
  end.

(** One iteration of the script loop. *)
Inductive vm_step vm vm' : Prop :=
| vm_step_intro st : execute false vm = (Ok st, vm') -> continues vm st = true -> vm_step vm vm'.

(** The invariant of a running script. *)
Record script_inv vm : Prop := {
  si_wf : vm_wf vm;
  si_money : money_wf vm;
  si_call : call_inv vm;
  si_inputs : Forall (fun f => f_to f ∈ input_contracts vm) (frames vm)
}.

Lemma call_inv_paid vm vm1 : vm_wf vm -> call_inv vm -> pay_step vm vm1 -> call_inv vm1.
Proof.
  intros Hwf Hcv Hp. pose proof (call_inv_pay vm vm1 Hwf Hcv Hp) as Hsh.
  destruct Hcv as [Hssp Hctx _]. destruct Hp. split.
  - by rewrite ps_regs.
  - by rewrite ps_context, ps_frames.
  - rewrite !ps_regs, ps_frames by done. exact Hsh.
Qed.

Lemma called_frames vm n g vm' vm1 c ci f m rx code :
  called vm n g vm' vm1 c ci f m rx code -> frames vm' = f :: frames vm.
Proof.
  intros Hcd. rewrite (cd_entered _ _ _ _ _ _ _ _ _ _ _ Hcd). cbn.
  by rewrite (ps_frames _ _ (cd_pay _ _ _ _ _ _ _ _ _ _ _ Hcd)).
Qed.

(** An effect on the storage keeps the call discipline. *)
Lemma call_inv_affected vm vm' v rs rx :
  vm_wf vm -> call_inv vm -> affected vm vm' v rs rx -> call_inv vm'.
Proof.
  intros Hwf Hcv []. apply (call_inv_local (set_receipts v rx)); [done| |done].
  destruct (call_inv_paid vm v Hwf Hcv af_pay). by split.
Qed.

Lemma step_call_inv pay vm vm' :
  vm_wf vm -> call_inv vm -> step_rel pay vm vm' -> call_inv vm'.
Proof.
  intros Hwf Hcv [Hl|Hl|v0 v rs rx _ Hl Hw0 Ha|n g v1 c ci f m rx code _ Hn0 Hcd|v1 a b f rest r Hl Hw1 Hf Hr].
  - by apply (call_inv_local vm).
  - by apply (call_inv_loaded vm).
  - eapply (call_inv_affected v0); [done| |done]. by apply (call_inv_local vm).
  - by eapply call_inv_call.
  - eapply (call_inv_return v1); [|done..]. by apply (call_inv_local vm).
Qed.

(** Inputs and parameters never change. *)
Lemma step_const pay vm vm' :
  step_rel pay vm vm' ->
  input_contracts vm' = input_contracts vm /\ interpreter_params vm' = interpreter_params vm.
Proof.
  intros [Hl|Hl|v0 v rs rx _ Hl Hw0 Ha|n g v1 c ci f m rx code _ Hn0 Hcd|v1 a b f rest r Hl Hw1 Hf Hr].
  - by destruct Hl.
  - by destruct Hl.
  - destruct Hl, Ha as [[] _ _ _ _ _ []]. cbn in *. split; congruence.
  - rewrite (cd_entered _ _ _ _ _ _ _ _ _ _ _ Hcd). cbn.
    destruct (cd_pay _ _ _ _ _ _ _ _ _ _ _ Hcd). split; congruence.
  - rewrite (rs_inputs _ _ _ _ _ Hr), (rs_params _ _ _ _ _ Hr). apply (conj (ls_inputs _ _ Hl)), Hl.
Qed.

Lemma step_costs pay vm vm' : step_rel pay vm vm' -> gas_costs vm' = gas_costs vm.
Proof. intros Hs. unfold gas_costs. by rewrite (proj2 (step_const _ _ _ Hs)). Qed.

(** The frames of the successor. *)
Lemma step_frames pay vm vm' :
  step_rel pay vm vm' ->
  frames vm' = frames vm \/ (exists f, frames vm' = f :: frames vm /\ f_to f ∈ input_contracts vm) \/
  (exists f, frames vm = f :: frames vm').
Proof.
  intros [Hl|Hl|v0 v rs rx _ Hl Hw0 Ha|n g v1 c ci f m rx code _ Hn0 Hcd|v1 a b f rest r Hl Hw1 Hf Hr].
  - left. apply Hl.
  - left. apply Hl.
  - left. destruct Hl, Ha as [[] _ _ _ _ _ []]. cbn in *. congruence.
  - right; left. exists f. split; [by eapply called_frames|].
    rewrite (sf_to _ _ _ _ (cd_frame _ _ _ _ _ _ _ _ _ _ _ Hcd)). apply Hcd.
  - right; right. exists f. rewrite (rs_frames _ _ _ _ _ Hr), <- (ls_frames _ _ Hl). done.
Qed.

Lemma script_inv_step pay vm vm' :
  script_inv vm -> step_rel pay vm vm' -> vm_wf vm' -> money_wf vm' -> script_inv vm'.
Proof.
  intros [Hwf Hm Hcv Hin] Hs Hwf' Hm'. split; [done|done|by apply (step_call_inv pay vm)|].
  rewrite (proj1 (step_const _ _ _ Hs)).
  destruct (step_frames _ _ _ Hs) as [->|[(f & -> & Hf)|(f & Ef)]]; [done|by constructor|].
  rewrite Ef in Hin. by inversion Hin.
Qed.

(** What one iteration guarantees. *)
Lemma vm_step_rel k vm vm' :
  vm_wf vm -> money_wf vm -> frame_inv vm -> costs_at_least k (gas_costs vm) -> vm_step vm vm' ->
  vm_wf vm' /\ money_wf vm' /\ step_rel true vm vm' /\
  reg vm' RegId.GGAS + k <= reg vm RegId.GGAS.
Proof.
  intros Hwf Hm Hfi Hk [st He Hc]. pose proof (execute_spec k false vm Hwf Hm Hfi Hk) as Hs.
  rewrite He in Hs. destruct Hs as (Hwf' & Hm' & Hst & Hg & _).
  destruct st; try done; (split; [done|]; split; [done|]; split; [done|]);
    destruct Hg as [[? ?]|?]; done.
Qed.

Lemma costs_nonneg vm : vm_wf vm -> costs_at_least 0 (gas_costs vm).
Proof.
  intros Hwf. destruct (wf_costs _ Hwf) as [Hw Hd]. split; intros c; [apply Hw|].
  specialize (Hd c). destruct (dep_cost (gas_costs vm) c); apply Hd.
Qed.

Lemma si_frame vm : script_inv vm -> frame_inv vm.
Proof. intros Hi. apply call_inv_frame_inv, Hi. Qed.

(** One iteration from a state that satisfies the invariant. *)
Lemma script_step vm vm' :
  script_inv vm -> vm_step vm vm' ->
  script_inv vm' /\ step_rel true vm vm' /\ reg vm' RegId.GGAS <= reg vm RegId.GGAS.
Proof.
  intros Hi Hs.
  destruct (vm_step_rel 0 vm vm' (si_wf _ Hi) (si_money _ Hi) (si_frame _ Hi)
    (costs_nonneg _ (si_wf _ Hi)) Hs) as (Hwf2 & Hm2 & Hst & Hg).
  split; [by eapply (script_inv_step true vm)|]. split; [done|lia].
Qed.

Lemma reachable_inv vm vm' :
  script_inv vm -> rtc vm_step vm vm' ->
  script_inv vm' /\ input_contracts vm' = input_contracts vm /\
  interpreter_params vm' = interpreter_params vm /\ reg vm' RegId.GGAS <= reg vm RegId.GGAS.
Proof.
  intros Hi Hr. revert Hi. induction Hr as [v|v1 v2 v3 Hs Hr IH]; intros Hi; [done|].
  destruct (script_step v1 v2 Hi Hs) as (Hi2 & Hst & Hg). destruct (IH Hi2) as (? & ? & ? & ?).
  destruct (step_const _ _ _ Hst). split_and!; [done|congruence|congruence|lia].
Qed.
End Executions.

(** C1: no execution of a script goes wrong. From a state in which the invariants hold
    (registers are words, memory, gas, frames, receipts and balances are well-formed, active
    frames are intact in memory, apart from the count of loaded code), every state the script
    loop reaches by executing modelled instructions, through any nesting of calls, satisfies them
    again; the contract identity read from memory is the one the innermost frame was created for,
    and it is one of the declared inputs; gas never increases. Whatever bytes are at [$pc] then,
    the next iteration neither panics the host nor reports an internal bug: it executes an
    instruction, panics with a reason, fails in the storage backend, or meets one of the four
    instructions that are not modelled (TRO, GTF, ECAL, EPAR), where the modelled run stops. *)
Theorem execution_safe {S} `{Sha256} `{Powf} `{WideLib} `{!PowfLaw} `{!WideLaws} `{Crypto} `{StateLaws S} (vm vm' : Interpreter S) :
  script_inv vm -> rtc vm_step vm vm' ->
  script_inv vm' /\
  current_contract vm' = Ok (f_to <$> head (frames vm')) /\
  (forall c, current_contract vm' = Ok (Some c) -> c ∈ input_contracts vm) /\
  reg vm' RegId.GGAS <= reg vm RegId.GGAS /\
  match fst (execute false vm') with
  | Ok (Unmodelled o) => unmodelled o = true
  | Ok _ => True
  | Err e => run_error e
  | Crash => False
  end.
Proof.
  intros Hi Hr. destruct (reachable_inv vm vm' Hi Hr) as (Hi' & Hin & _ & Hg).
  pose proof (call_inv_current vm' (si_wf _ Hi') (si_call _ Hi')) as Hc.
  split_and!; try done.
  - intros c. rewrite Hc. intros [= Hh]. pose proof (si_inputs _ Hi') as Hf. rewrite Hin in Hf.
    destruct (frames vm') as [|f fs]; [done|]. injection Hh as <-. by inversion Hf.
  - pose proof (execute_spec 0 false vm' (si_wf _ Hi') (si_money _ Hi') (si_frame _ Hi')
      (costs_nonneg _ (si_wf _ Hi'))) as Hs. pose proof (execute_outside false vm') as Hx.
    destruct (execute false vm') as [[st| |] v]; cbn in *; [by destruct st|apply Hs|done].
Qed.

(** A script of two instructions, [CALL 16 17 16 17] and [RET $one], and a contract whose
    code is [NOOP] and [RET $one]. *)
#[local] Instance sha_identity : Sha256 := fun l => l.
#[local] Instance powf_zero : Powf := fun _ _ => 0.
#[local] Existing Instances wide_std wide_std_laws.
#[local] Instance powf_zero_law : PowfLaw.
Proof. intros t n _ _ _. split; [discriminate|reflexivity]. Defined.

#[local] Instance tai64_zero : Tai64.
Proof. refine {| UNIX_EPOCH := 0 |}. split; discriminate. Defined.
(** Primitives that recover nothing and verify nothing. *)
#[local] Instance crypto_none : Crypto := {|
  Keccak256 := fun l => l; k1_recover := fun _ _ => None; r1_recover := fun _ _ => None;
  ed25519_ok := fun _ _ _ => false; Fq := unit; Fr := unit; G1 := unit;
  Fq_from_slice := fun _ => None; Fr_from_slice := fun _ => None; Fq_is_zero := fun _ => true;
  Fq_to_big_endian := fun _ => replicate 32 x00; G1_zero := tt; G1_new := fun _ _ => None;
  G1_add := fun _ _ => tt; G1_mul := fun _ _ => tt; G1_affine := fun _ => None
|}.

Definition code_ret : list byte := [x24; x04; x00; x00].
Definition code_call : list byte := [x2d; x41; x14; x11].
Definition code_noop : list byte := [x47; x00; x00; x00].
Definition storage_2 : SlotStorage :=
  mkSlots (contract_code_replace (memory_storage_new 5 zeroed) zeroed (code_noop ++ code_ret)).2.
Definition regs_run : list Z :=
  reg_put (reg_put (reg_put (reg_put regs_script RegId.GGAS 1000) RegId.CGAS 1000) 16 8) 17 90.
Definition vm_run : Interpreter SlotStorage :=
  mkVM regs_run (mkMemory (code_call ++ code_ret ++ replicate 120 x00) [] MEM_SIZE) []
    receipts_default {[ zeroed ]} storage_2 (Script_ 5) {[ zeroed := mkBalance 100 64 ]}
    params_default PanicContext_None.

Lemma vm_run_inv : script_inv vm_run.
Proof.
  split.
  - split.
    + apply regs_ok_compute. vm_compute. reflexivity.
    + reflexivity.
    + reflexivity.
    + split; vm_compute; repeat split; discriminate.
    + reflexivity.
    + vm_compute. discriminate.
    + vm_compute. discriminate.
    + vm_compute. discriminate.
    + reflexivity.
    + exact I.
    + apply receipts_default_ok.
    + vm_compute. discriminate.
    + exact I || (split; reflexivity || discriminate).
    + exact params_default_ok.
  - split.
    + apply contract_code_replace_wf; [apply memory_storage_new_wf|reflexivity].
    + apply map_Forall_insert_2; [split; [split|]; reflexivity || discriminate|apply map_Forall_empty].
  - split; [discriminate|by exists 5|reflexivity].
  - constructor.
Defined.

(** Running [n] iterations, for concrete executions. *)
Fixpoint iterate {S} `{Sha256} `{Powf} `{WideLib} `{Crypto} `{InterpreterStorage S} (n : nat) (vm : Interpreter S)
  : option (Interpreter S) :=
  match n with
  | O => Some vm
  | Datatypes.S n =>
      match execute false vm with
      | (Ok st, vm') => if continues vm st then iterate n vm' else None
      | _ => None
      end
  end.

Lemma iterate_rtc {S} `{Sha256} `{Powf} `{WideLib} `{Crypto} `{InterpreterStorage S} n : forall (vm vm' : Interpreter S),
  iterate n vm = Some vm' -> rtc vm_step vm vm'.
Proof.
  induction n as [|n IH]; intros vm vm' Hi; cbn in Hi; [injection Hi as ->; apply rtc_refl|].
  destruct (execute false vm) as [[st| |] v] eqn:E; [|discriminate..].
  destruct (continues vm st) eqn:Ec; [|discriminate].
  eapply rtc_l; [by exists st|]. by apply IH.
Defined.

Lemma iterate_some {S} `{Sha256} `{Powf} `{WideLib} `{Crypto} `{InterpreterStorage S} n (vm : Interpreter S) :
  bool_decide (is_Some (iterate n vm)) = true -> exists vm', iterate n vm = Some vm'.
Proof. destruct (iterate n vm) as [v|]; [by exists v|discriminate]. Defined.

Lemma execution_safe_witness :
  exists vm', rtc vm_step vm_run vm' /\ script_inv vm' /\
    current_contract vm' = Ok (f_to <$> head (frames vm')).
Proof.
  destruct (iterate_some 2 vm_run) as [vm' E]; [vm_compute; reflexivity|].
  destruct (execution_safe vm_run vm' vm_run_inv (iterate_rtc 2 _ _ E)) as (Hi & Hc & _).
  exists vm'. split; [exact (iterate_rtc 2 _ _ E)|]. split; [exact Hi|exact Hc].
Defined.

(** ** Isolation of callers *)

Section Isolation.
Context {S : Type} `{Sha256} `{Powf} `{WideLib} `{!PowfLaw} `{!WideLaws} `{Crypto} `{StateLaws S}.
Implicit Types (vm : Interpreter S).

(** An iteration that does not return past the frames [fs]. *)
Definition step_inside (fs : list CallFrame) vm vm' : Prop :=
  vm_step vm vm' /\ fs `suffix_of` frames vm'.

Lemma prev_hp_frames vm vm' : frames vm' = frames vm -> prev_hp vm' = prev_hp vm.
Proof. intros E. unfold prev_hp, ownership_registers. cbn. by rewrite E. Qed.

Lemma prev_hp_ge vm : vm_wf vm -> reg vm RegId.HP <= prev_hp vm.
Proof.
  intros Hwf. pose proof (wf_frames _ Hwf) as Hf. pose proof (wf_hp _ (wf_mem _ Hwf)).
  pose proof (wf_hp_reg _ Hwf). unfold prev_hp, ownership_registers. cbn.
  destruct (frames vm) as [|f fs]; [unfold MEM_SIZE in *; lia|]. cbn in Hf. tauto || lia.
Qed.

(** While a frame is active, no step touches the memory outside the frame's own, apart from
    the code size in the frame's header. *)
Lemma step_mem pay vm vm' x :
  vm_wf vm -> call_inv vm -> frames vm <> [] -> step_rel pay vm vm' ->
  x < reg vm RegId.SSP \/ prev_hp vm <= x -> ~ in_size_field vm x ->
  mem_get (memory vm') x = mem_get (memory vm) x.
Proof.
  intros Hwf Hcv Hne Hs Hx Hn.
  assert (Hint : context_is_internal (context vm) = true).
  { destruct (cv_context _ Hcv) as [h ->]. by destruct (frames vm). }
  destruct Hs as [Hl|Hl|v0 v rs rx _ Hl Hw0 Ha|n g v1 c ci f m rx code _ Hn0 Hcd|v1 a b f rest r Hl Hw1 Hf Hr].
  - by apply Hl.
  - by apply Hl.
  - destruct Ha. rewrite (ls_mem _ _ af_local); cbn [memory set_receipts].
    + rewrite (ps_memory _ _ af_pay) by (by rewrite (ls_context _ _ Hl)). by apply Hl.
    + change (reg (set_receipts v rx)) with (reg v).
      rewrite (ps_regs _ _ af_pay), (ls_ssp _ _ Hl) by done.
      change (prev_hp (set_receipts v rx)) with (prev_hp v).
      by rewrite (prev_hp_frames v0 v (ps_frames _ _ af_pay)), (prev_hp_frames vm v0 (ls_frames _ _ Hl)).
  - pose proof (prev_hp_ge vm Hwf). pose proof (wf_ssp _ Hwf).
    rewrite (cd_entered _ _ _ _ _ _ _ _ _ _ _ Hcd). cbn.
    rewrite (cd_memory _ _ _ _ _ _ _ _ _ _ _ Hcd) by lia.
    by rewrite (ps_memory _ _ (cd_pay _ _ _ _ _ _ _ _ _ _ _ Hcd)).
  - rewrite (rs_memory _ _ _ _ _ Hr). by apply Hl.
Qed.

(** The registers a frame is entered with: [$fp] and [$is] never change, [$ssp] only grows. *)
Definition frame_reg (i : Z) : Prop := i = RegId.SSP \/ i = RegId.FP \/ i = RegId.IS.

Definition reg_kept (i old new : Z) : Prop := if i =? RegId.SSP then old <= new else new = old.

(** Such a register of the frame below the frames [l]. *)
Definition base_reg (i : Z) (l : list CallFrame) vm : Z :=
  match last l with Some f => reg_get (f_registers f) i | None => reg vm i end.

Lemma reg_kept_refl i v : reg_kept i v v.
Proof. unfold reg_kept. case_if; [lia|done]. Qed.

Lemma reg_kept_trans i a b c : reg_kept i a b -> reg_kept i b c -> reg_kept i a c.
Proof. unfold reg_kept. case_if; [lia|congruence]. Qed.

Lemma frame_reg_local vm vm' i : frame_reg i -> local_step vm vm' -> reg vm' i = reg vm i.
Proof. intros [->|[->| ->]] []; done. Qed.

Lemma step_base_reg pay vm vm' i l l' fs :
  frame_reg i -> step_rel pay vm vm' -> frames vm = l ++ fs -> frames vm' = l' ++ fs ->
  reg_kept i (base_reg i l vm) (base_reg i l' vm').
Proof.
  intros Hi Hs Hf Hf'.
  assert (Hn : i <> RegId.CGAS /\ i <> RegId.GGAS /\ i <> RegId.PC /\ kept_by_return i = false).
  { by destruct Hi as [->|[->| ->]]. }
  destruct Hn as (? & ? & ? & ?).
  destruct Hs as [Hl|Hl|v0 v rs rx _ Hl Hw0 Ha|n g v1 c ci f m rx code _ Hn0 Hcd|v1 a b f rest r Hl Hw1 Hfr Hr].
  - rewrite (ls_frames _ _ Hl), Hf in Hf'. apply app_inv_tail in Hf' as <-.
    unfold base_reg. destruct (last l); [apply reg_kept_refl|]. rewrite (frame_reg_local vm vm') by done.
    apply reg_kept_refl.
  - rewrite (ld_frames _ _ Hl), Hf in Hf'. apply app_inv_tail in Hf' as <-.
    unfold base_reg. destruct (last l); [apply reg_kept_refl|].
    destruct Hi as [->|[->| ->]]; apply Hl.
  - destruct Ha. rewrite (ls_frames _ _ af_local) in Hf'. cbn [frames set_receipts] in Hf'.
    rewrite (ps_frames _ _ af_pay), (ls_frames _ _ Hl), Hf in Hf'.
    apply app_inv_tail in Hf' as <-. unfold base_reg. destruct (last l); [apply reg_kept_refl|].
    rewrite (frame_reg_local (set_receipts v rx) vm') by done.
    change (reg (set_receipts v rx)) with (reg v). rewrite (ps_regs _ _ af_pay) by done.
    rewrite (frame_reg_local vm v0) by done. apply reg_kept_refl.
  - rewrite (called_frames _ _ _ _ _ _ _ _ _ _ _ Hcd), Hf in Hf'.
    change (f :: l ++ fs) with ((f :: l) ++ fs) in Hf'. apply app_inv_tail in Hf' as <-.
    unfold base_reg. rewrite last_cons. destruct (last l); [apply reg_kept_refl|].
    rewrite (sf_regs _ _ _ _ (cd_frame _ _ _ _ _ _ _ _ _ _ _ Hcd)). case_if; [zbool; done|].
    rewrite (ps_regs _ _ (cd_pay _ _ _ _ _ _ _ _ _ _ _ Hcd)) by done. apply reg_kept_refl.
  - rewrite (rs_frames _ _ _ _ _ Hr) in Hf'. rewrite (ls_frames _ _ Hl), Hf, Hf' in Hfr.
    change (f :: l' ++ fs) with ((f :: l') ++ fs) in Hfr. apply app_inv_tail in Hfr as ->.
    unfold base_reg. rewrite last_cons. destruct (last l'); [apply reg_kept_refl|].
    rewrite (rs_regs _ _ _ _ _ Hr) by done. apply reg_kept_refl.
Qed.

(** Callees lie above their callers on the stack and below them on the heap. *)
Lemma frames_above l : forall ssp hp fs,
  frames_ok ssp hp (l ++ fs) ->
  match last l with Some f => reg_get (f_registers f) RegId.SSP <= ssp | None => True end /\
  match l ++ fs, fs with
  | f :: _, f0 :: _ => reg_get (f_registers f) RegId.HP <= reg_get (f_registers f0) RegId.HP
  | _, _ => True
  end.
Proof.
  induction l as [|f l IH]; intros ssp hp fs Hok; [destruct fs; cbn; split; done || lia|].
  cbn in Hok. destruct Hok as (_ & _ & _ & Hssp & _ & Hok). destruct (IH _ _ _ Hok) as [Hs1 Hh1].
  split.
  - rewrite last_cons. destruct (last l); lia.
  - cbn. destruct fs as [|f0 fs]; [done|]. destruct l as [|g l]; cbn in *; [lia|].
    destruct Hok as (_ & _ & _ & _ & ? & _). lia.
Qed.

Lemma inside_bounds vm l fs :
  vm_wf vm -> frames vm = l ++ fs -> fs <> [] ->
  base_reg RegId.SSP l vm <= reg vm RegId.SSP /\
  match fs with f0 :: _ => prev_hp vm <= reg_get (f_registers f0) RegId.HP | [] => True end.
Proof.
  intros Hwf Hf Hne. pose proof (wf_frames _ Hwf) as Hok. rewrite Hf in Hok.
  destruct (frames_above _ _ _ _ Hok) as [Hs1 Hh1]. split.
  - unfold base_reg. destruct (last l); lia.
  - unfold prev_hp, ownership_registers. cbn. rewrite Hf. destruct fs as [|f0 fs]; [done|].
    by destruct l.
Qed.

(** The code-size field written from a nested frame is not visible from the frames below. *)
Lemma inside_field vm0 v l x :
  vm_wf v -> call_inv v -> call_inv vm0 -> frames v = l ++ frames vm0 -> frames vm0 <> [] ->
  reg vm0 RegId.SSP <= base_reg RegId.SSP l v -> base_reg RegId.FP l v = reg vm0 RegId.FP ->
  x < reg vm0 RegId.SSP \/ prev_hp vm0 <= x -> ~ in_size_field vm0 x -> ~ in_size_field v x.
Proof.
  intros Hwf Hcv Hcv0 Hf Hne Hssp Hfp Hx Hn Hfield. destruct (inside_bounds v l _ Hwf Hf Hne) as [_ Hb].
  destruct (frame_inv_size v (call_inv_frame_inv _ Hcv) (proj1 Hfield)) as (_ & Hs & _).
  destruct Hfield as [Hint Hfield]. change serialized_size with 600 in Hs.
  pose proof (prev_hp_ge v Hwf). pose proof (wf_ssp _ Hwf). pose proof (wf_sp _ Hwf).
  destruct Hx as [Hx|Hx].
  2:{ unfold prev_hp, ownership_registers in Hx. cbn in Hx. change code_size_offset with 576 in *.
      destruct (frames vm0); [done|]. lia. }
  destruct l as [|f l].
  - apply Hn. cbn in Hfp. split; [|by rewrite <- Hfp].
    destruct (cv_context _ Hcv0) as [h ->]. by destruct (frames vm0).
  - pose proof (cv_shown _ Hcv) as Hsh. pose proof (wf_frames _ Hwf) as Hok. rewrite Hf in Hsh, Hok.
    destruct Hsh as (_ & Hab & _). destruct Hok as (_ & _ & _ & _ & _ & Hok).
    destruct (frames_above _ _ _ _ Hok) as [Hl _].
    unfold base_reg in Hssp. rewrite last_cons in Hssp. change code_size_offset with 576 in *.
    destruct (last l); lia.
Qed.

(** What holds throughout an execution above the frames of [vm0]. *)
Definition inside_ok vm0 vm : Prop :=
  script_inv vm /\ exists l, frames vm = l ++ frames vm0 /\
    (forall i, frame_reg i -> reg_kept i (reg vm0 i) (base_reg i l vm)) /\
    forall x, x < reg vm0 RegId.SSP \/ prev_hp vm0 <= x -> ~ in_size_field vm0 x ->
      mem_get (memory vm) x = mem_get (memory vm0) x.

Lemma inside_inv vm0 vm :
  script_inv vm0 -> frames vm0 <> [] -> rtc (step_inside (frames vm0)) vm0 vm ->
  inside_ok vm0 vm.
Proof.
  intros Hi0 Hne. revert vm. apply rtc_ind_r.
  { split; [done|]. exists []. split_and!; try done. intros i _. apply reg_kept_refl. }
  intros v v' Hr [Hs [l' Hl']] IH.
  destruct IH as (Hi & l & Hl & Hb & Hm). destruct (script_step v v' Hi Hs) as (Hi' & Hst & _).
  split; [done|]. exists l'. split; [done|]. split.
  - intros i Hri. eapply reg_kept_trans; [by apply Hb|]. by eapply step_base_reg.
  - intros x Hx Hn. rewrite <- Hm by done.
    pose proof (Hb RegId.SSP (or_introl eq_refl)) as Hssp.
    pose proof (Hb RegId.FP (or_intror (or_introl eq_refl))) as Hfp.
    change (reg vm0 RegId.SSP <= base_reg RegId.SSP l v) in Hssp.
    change (base_reg RegId.FP l v = reg vm0 RegId.FP) in Hfp.
    destruct (inside_bounds v l _ (si_wf _ Hi) Hl Hne) as [Hb1 Hb2].
    eapply (step_mem true v v'); [apply Hi|apply Hi| |done| |].
    + rewrite Hl. by destruct l, (frames vm0).
    + destruct Hx as [Hx|Hx]; [left; lia|right].
      unfold prev_hp, ownership_registers in Hx. cbn in Hx.
      destruct (frames vm0) as [|f0 fs]; [done|]. lia.
    + by apply (inside_field vm0 v l); try done; [apply Hi|apply Hi|apply Hi0].
Qed.
End Isolation.

(** C2: a called contract cannot touch its callers. From the moment a contract runs with its
    frame on the call stack until it returns, whatever modelled instructions it executes (all but
    TRO, GTF, ECAL and EPAR, at which a modelled run stops), with any nesting of further calls,
    re-entrant ones included, every byte below its own stack frame (the callers' stacks, the
    script and the transaction, the call frames and the code) and every byte of the callers'
    heap keeps its value, apart from the field of its own frame
    header that counts the code it loads; and whenever control is back in the frame, [$fp] and
    [$is] are what they were and [$ssp] is no lower. *)
Theorem callee_isolated {S} `{Sha256} `{Powf} `{WideLib} `{!PowfLaw} `{!WideLaws} `{Crypto} `{StateLaws S}
    (vm0 vm : Interpreter S) :
  script_inv vm0 -> frames vm0 <> [] -> rtc (step_inside (frames vm0)) vm0 vm ->
  (forall x, x < reg vm0 RegId.SSP \/ prev_hp vm0 <= x -> ~ in_size_field vm0 x ->
     mem_get (memory vm) x = mem_get (memory vm0) x) /\
  (frames vm = frames vm0 ->
     reg vm RegId.FP = reg vm0 RegId.FP /\ reg vm RegId.IS = reg vm0 RegId.IS /\
     reg vm0 RegId.SSP <= reg vm RegId.SSP).
Proof.
  intros Hi Hne Hr. destruct (inside_inv vm0 vm Hi Hne Hr) as (_ & l & Hl & Hb & Hm).
  split; [done|]. intros Hf. rewrite Hf in Hl. apply (app_inv_tail _ []) in Hl as <-.
  split_and!; [apply (Hb RegId.FP)|apply (Hb RegId.IS)|apply (Hb RegId.SSP)]; unfold frame_reg; auto.
Qed.

(** Does the next iteration stay in the frame or enter another? *)
Definition stays {S} `{Sha256} `{Powf} `{WideLib} `{Crypto} `{InterpreterStorage S} (vm : Interpreter S) : bool :=
  match execute false vm with
  | (Ok st, vm') => continues vm st && (length (frames vm) <=? length (frames vm'))%nat
  | _ => false
  end.

Lemma stays_inside {S} `{Sha256} `{Powf} `{WideLib} `{!PowfLaw} `{!WideLaws} `{Crypto} `{StateLaws S} (vm : Interpreter S) :
  script_inv vm -> stays vm = true -> exists vm', step_inside (frames vm) vm vm'.
Proof.
  unfold stays. intros Hi Hs. destruct (execute false vm) as [[st| |] vm'] eqn:E; [|discriminate..].
  apply andb_prop in Hs as [Hc Hl]. apply Nat.leb_le in Hl. exists vm'.
  assert (Hst : vm_step vm vm') by (by exists st). split; [exact Hst|].
  destruct (script_step vm vm' Hi Hst) as (_ & Hr & _).
  destruct (step_frames _ _ _ Hr) as [->|[(f & -> & _)|(f & Ef)]];
    [done|by exists [f]|rewrite Ef in Hl; cbn in Hl; lia].
Defined.

Definition after {S} `{Sha256} `{Powf} `{WideLib} `{Crypto} `{InterpreterStorage S} (n : nat)
    (P : Interpreter S -> bool) (vm : Interpreter S) : bool :=
  match iterate n vm with Some vm' => P vm' | None => false end.

Lemma callee_isolated_witness :
  exists vm0 vm, rtc vm_step vm_run vm0 /\ step_inside (frames vm0) vm0 vm /\
    mem_get (memory vm) 40 = mem_get (memory vm0) 40.
Proof.
  assert (Hc : after 1 (fun v => negb (bool_decide (frames v = [])) && stays v &&
    (40 <? reg v RegId.SSP)) vm_run = true) by (vm_compute; reflexivity).
  unfold after in Hc. destruct (iterate 1 vm_run) as [vm0|] eqn:E; [|discriminate].
  pose proof (iterate_rtc 1 _ _ E) as Hr. destruct (reachable_inv vm_run vm0 vm_run_inv Hr) as [Hi _].
  apply andb_prop in Hc as [Hc Hssp]. apply andb_prop in Hc as [Hf Hs].
  destruct (stays_inside vm0 Hi Hs) as [vm Hin]. exists vm0, vm. split; [exact Hr|].
  split; [exact Hin|]. apply (callee_isolated vm0 vm Hi).
  - apply negb_true_iff, bool_decide_eq_false in Hf. exact Hf.
  - apply rtc_once. exact Hin.
  - left. apply Z.ltb_lt. exact Hssp.
  - intros [_ Hf']. pose proof (wf_reg_u64 vm0 RegId.FP (si_wf _ Hi)) as [Hfp _].
    change code_size_offset with 576 in Hf'. lia.
Defined.

(** ** Conservation over a whole execution *)

Section ConservationRun.
Context {S : Type} `{Sha256} `{Powf} `{WideLib} `{!PowfLaw} `{!WideLaws} `{Crypto} `{StateLaws S}.
Implicit Types (vm : Interpreter S).

(** All coins of an asset a script and its input contracts hold. *)
Definition coins vm (a : AssetId) : Z :=
  total (storage vm) a (elements (input_contracts vm)) + free (balances vm) a.

(** The change in the supply of the asset [a] that a receipt announces; messages take coins
    of the base asset out of the chain. *)
Definition issued (base a : AssetId) (r : Receipt) : Z :=
  match r with
  | Receipt_Mint sub_id c n _ _ => if decide (contract_asset_id c sub_id = a) then n else 0
  | Receipt_Burn sub_id c n _ _ => if decide (contract_asset_id c sub_id = a) then - n else 0
  | Receipt_MessageOut _ _ n _ _ _ _ => if decide (base = a) then - n else 0
  | _ => 0
  end.
Fixpoint issued_all (base a : AssetId) (l : list Receipt) : Z :=
  match l with [] => 0 | r :: l => issued base a r + issued_all base a l end.

Lemma issued_all_app base a l1 l2 :
  issued_all base a (l1 ++ l2) = issued_all base a l1 + issued_all base a l2.
Proof. induction l1; cbn; lia. Qed.

Lemma issued_quiet base a l : Forall quiet l -> issued_all base a l = 0.
Proof. induction 1 as [|r l Hr Hl IH]; cbn; [done|]. rewrite IH. by destruct r. Qed.

(** What a step leaves alone outside the inputs. *)
Definition outside_same vm vm' : Prop :=
  forall c, c ∉ input_contracts vm ->
    (forall a, bal (storage vm') c a = bal (storage vm) c a) /\
    (forall k, contract_state (storage vm') c k = contract_state (storage vm) c k).

Lemma total_same (s s' : S) x l : same_balances s s' -> total s' x l = total s x l.
Proof.
  intros Hb. induction l as [|c l IH]; cbn [total]; [done|]. rewrite IH. unfold bal. by rewrite Hb.
Qed.

Lemma bal_upd_other (s : S) c a v s' d :
  bal_upd s c a v s' -> d <> c ->
  (forall x, bal s' d x = bal s d x) /\ (forall k, contract_state s' d k = contract_state s d k).
Proof.
  intros (_ & _ & Hst & Hb) Hd. split; [|intros k; apply Hst].
  intros x. by rewrite Hb, decide_False by congruence.
Qed.

Lemma debited_other source a n (s : S) b s' b' d :
  debited source a n s b s' b' -> source <> Some d ->
  (forall x, bal s' d x = bal s d x) /\ (forall k, contract_state s' d k = contract_state s d k).
Proof.
  destruct source as [c|]; cbn; [|by intros [-> _]].
  intros (_ & Hu & _) Hd. eapply bal_upd_other; [done|congruence].
Qed.

Lemma moved_other source a n to (s : S) b s' b' d :
  moved source a n to s b s' b' -> d <> to -> source <> Some d ->
  (forall x, bal s' d x = bal s d x) /\ (forall k, contract_state s' d k = contract_state s d k).
Proof.
  intros (s1 & Hd & Hi) Hto Hsrc. destruct (debited_other _ _ _ _ _ _ _ _ Hd Hsrc) as [Hb1 Hs1].
  destruct (bal_upd_other _ _ _ _ _ _ Hi Hto) as [Hb2 Hs2].
  split; intros x; [by rewrite Hb2, Hb1|by rewrite Hs2, Hs1].
Qed.

Lemma moved_coins (source : option ContractId) (a : AssetId) (n : Z) (to : ContractId) (s : S)
    (b : RuntimeBalances) (s' : S) (b' : RuntimeBalances) (inputs : gset ContractId) (x : AssetId) :
  moved source a n to s b s' b' -> to ∈ inputs -> (forall c : ContractId, source = Some c -> c ∈ inputs) ->
  total s' x (elements inputs) + free b' x = total s x (elements inputs) + free b x.
Proof.
  intros Hm Hto Hsrc. destruct (moved_conserves _ _ _ _ _ _ _ _ Hm) as (Ha & Hx & _).
  destruct (decide (x = a)) as [->|Hne]; [|by apply Hx].
  apply Ha; [apply NoDup_elements|by apply elem_of_elements|].
  intros c Hc. apply elem_of_elements. auto.
Qed.

(** A change of one balance of an input contract. *)
Lemma bal_upd_coins (s s' : S) (d : ContractId) (a x : AssetId) (v : Z) (inputs : gset ContractId) :
  bal_upd s d a v s' -> d ∈ inputs ->
  total s' x (elements inputs) = total s x (elements inputs) + if decide (a = x) then v - bal s d a else 0.
Proof.
  intros Hu Hd. case_decide as Hx.
  - subst. rewrite (total_upd _ _ _ _ _ _ Hu (NoDup_elements _)).
    rewrite decide_True by (by apply elem_of_elements). done.
  - rewrite (total_other _ _ _ _ _ _ _ Hu) by done. lia.
Qed.

Lemma debited_coins (source : option ContractId) (a x : AssetId) (n : Z) (s s' : S)
    (b b' : RuntimeBalances) (inputs : gset ContractId) :
  debited source a n s b s' b' -> (forall c : ContractId, source = Some c -> c ∈ inputs) ->
  total s' x (elements inputs) + free b' x =
  total s x (elements inputs) + free b x + if decide (a = x) then - n else 0.
Proof.
  intros Hd Hsrc. destruct source as [c|]; cbn in Hd.
  - destruct Hd as (_ & Hu & ->). rewrite (bal_upd_coins _ _ _ _ x _ inputs Hu) by auto.
    case_decide; lia.
  - destruct Hd as [-> Hf]. case_decide as Hx.
    + subst. destruct Hf as (_ & -> & _). lia.
    + rewrite (free_other _ _ _ _ _ Hf) by done. lia.
Qed.

(** The supply changes by what the receipts announce, and only inputs are touched. *)
Lemma effect_coins vm (c : option ContractId) (s' : S) (b' : RuntimeBalances) rs (x : AssetId) :
  effect vm c s' b' rs -> (forall d : ContractId, c = Some d -> d ∈ input_contracts vm) ->
  total s' x (elements (input_contracts vm)) + free b' x =
    coins vm x + issued_all (base_asset_id (interpreter_params vm)) x rs /\
  forall d, d ∉ input_contracts vm -> (forall a, bal s' d a = bal (storage vm) d a) /\
    (forall k, contract_state s' d k = contract_state (storage vm) d k).
Proof.
  unfold coins. intros He Hin. destruct He as [a n to _ Hto Hm|d sub n -> -> Hu|d sub n -> -> Hle Hu
    |txid idx sender recipient n data _ Hd|d -> -> Hb Hst]; cbn [issued_all issued receipt_message_out].
  - split; [rewrite (moved_coins _ _ _ _ _ _ _ _ _ x Hm) by done; lia|]. intros d Hd.
    eapply moved_other; [done|by intros ->|]. intros E. by apply Hd, Hin.
  - specialize (Hin d eq_refl). split.
    + rewrite (bal_upd_coins _ _ _ _ x _ _ Hu) by done. case_decide; lia.
    + intros e He. eapply bal_upd_other; [done|by intros ->].
  - specialize (Hin d eq_refl). split.
    + rewrite (bal_upd_coins _ _ _ _ x _ _ Hu) by done. case_decide; lia.
    + intros e He. eapply bal_upd_other; [done|by intros ->].
  - split; [rewrite (debited_coins _ _ x _ _ _ _ _ _ Hd) by done; lia|]. intros e He.
    eapply debited_other; [done|]. intros E. by apply He, Hin.
  - specialize (Hin d eq_refl). split; [rewrite (total_same _ _ x _ Hb); lia|]. intros e He.
    split; [intros a; unfold bal; by rewrite Hb|]. intros k. apply Hst. by intros ->.
Qed.

(** The outcome of a step: receipts [l], coins and bystanders. *)
Definition accounts vm vm' : Prop :=
  outside_same vm vm' /\
  exists l, rx_receipts (receipts vm') = rx_receipts (receipts vm) ++ l /\
    forall a, coins vm' a = coins vm a + issued_all (base_asset_id (interpreter_params vm)) a l.

Lemma step_accounts vm vm' : script_inv vm -> step_rel true vm vm' -> accounts vm vm'.
Proof.
  intros [Hwf Hm Hcv Hin] Hs. pose proof (proj1 (step_const _ _ _ Hs)) as Hic.
  unfold accounts, outside_same, coins. rewrite Hic.
  assert (Hrun : forall d : ContractId, running vm = Some d -> d ∈ input_contracts vm).
  { unfold running. destruct (frames vm) as [|f fs]; [done|]. intros d [= <-]. by inversion Hin. }
  destruct Hs as [Hl|Hl|v0 v rs rx _ Hl Hw0 Ha|n g v1 c ci f m rx code _ Hn0 Hcd|v1 a b f rest r Hl Hw1 Hf Hr].
  - rewrite (ls_storage _ _ Hl), (ls_balances _ _ Hl). split; [done|].
    destruct (ls_receipts _ _ Hl) as (l & E & Hq). exists l. split; [done|]. intros a.
    rewrite issued_quiet by done. lia.
  - rewrite (ld_storage _ _ Hl), (ld_balances _ _ Hl). split; [done|].
    destruct (ld_receipts _ _ Hl) as (l & E & Hq). exists l. split; [done|]. intros a.
    rewrite issued_quiet by done. lia.
  - destruct Ha. assert (Hr0 : running v0 = running vm) by (unfold running; by rewrite (ls_frames _ _ Hl)).
    rewrite Hr0 in af_effect.
    assert (He : forall x, _) by (intros x; apply (effect_coins _ _ _ _ _ x af_effect);
      by rewrite (ls_inputs _ _ Hl)).
    unfold coins in He. rewrite (ls_inputs _ _ Hl), (ls_storage _ _ Hl), (ls_balances _ _ Hl),
      (ls_params _ _ Hl) in He.
    rewrite (ls_storage _ _ af_local), (ls_balances _ _ af_local). cbn [storage balances set_receipts].
    split; [apply (He zeroed)|].
    destruct (ls_receipts _ _ Hl) as (l0 & E0 & Hq0), (ls_receipts _ _ af_local) as (l1 & E1 & Hq1).
    cbn [receipts set_receipts] in E1.
    exists (l0 ++ rs ++ l1). rewrite E1, af_receipts, E0, !app_assoc. split; [done|]. intros x.
    rewrite <- app_assoc, !issued_all_app, (issued_quiet _ _ l0), (issued_quiet _ _ l1) by done.
    rewrite (proj1 (He x)). lia.
  - pose proof (cd_current _ _ _ _ _ _ _ _ _ _ _ Hcd) as Hcur.
    rewrite (frame_inv_current vm Hwf (call_inv_frame_inv _ Hcv)) in Hcur. injection Hcur as <-.
    pose proof (cd_moved _ _ _ _ _ _ _ _ _ _ _ Hcd) as Hmv.
    pose proof (cd_input _ _ _ _ _ _ _ _ _ _ _ Hcd) as Hto.
    pose proof (cd_receipt _ _ _ _ _ _ _ _ _ _ _ Hcd) as Hrx.
    rewrite (cd_entered _ _ _ _ _ _ _ _ _ _ _ Hcd). cbn [storage balances receipts entered].
    split; [|eexists; split; [exact Hrx|]; intros x; cbn; rewrite (moved_coins _ _ _ _ _ _ _ _ _ x Hmv); by auto || lia].
    intros d Hd. eapply moved_other; [done|by intros ->|]. intros E. by apply Hd, Hrun.
  - rewrite (rs_storage _ _ _ _ _ Hr), (rs_balances _ _ _ _ _ Hr).
    change (storage (with_ret v1 a b)) with (storage v1).
    change (balances (with_ret v1 a b)) with (balances v1).
    rewrite (ls_storage _ _ Hl), (ls_balances _ _ Hl). split; [done|].
    destruct (ls_receipts _ _ Hl) as (l0 & E0 & Hq0).
    exists (l0 ++ [r]). rewrite (rs_receipts _ _ _ _ _ Hr).
    change (receipts (with_ret v1 a b)) with (receipts v1). rewrite E0, app_assoc. split; [done|].
    intros x. rewrite issued_quiet; [lia|]. apply Forall_app. split; [done|].
    apply Forall_singleton, (rs_quiet _ _ _ _ _ Hr).
Qed.

Lemma accounts_trans v1 v2 v3 :
  input_contracts v2 = input_contracts v1 -> interpreter_params v2 = interpreter_params v1 ->
  accounts v1 v2 -> accounts v2 v3 -> accounts v1 v3.
Proof.
  intros Hi Hp [Ho1 (l1 & E1 & Hc1)] [Ho2 (l2 & E2 & Hc2)]. rewrite Hp in Hc2. split.
  - intros c Hc. destruct (Ho1 c Hc) as [Hb1 Hs1]. rewrite <- Hi in Hc.
    destruct (Ho2 c Hc) as [Hb2 Hs2]. split; intros x; [by rewrite Hb2, Hb1|by rewrite Hs2, Hs1].
  - exists (l1 ++ l2). rewrite E2, E1, app_assoc. split; [done|]. intros a.
    rewrite Hc2, Hc1, issued_all_app. lia.
Qed.
End ConservationRun.

(** C3: no execution creates or destroys coins unannounced. Along every execution of a script
    by modelled instructions (all but TRO, GTF, ECAL and EPAR, at which a modelled run stops),
    through any sequence of calls, transfers, mints, burns and messages, for every asset the
    balances of the declared input contracts together with the script's free balance change
    exactly by what the appended receipts announce: a mint or burn receipt of a contract
    counts for the asset derived from that contract and the sub-identifier, a message for the
    base asset, and every other receipt for nothing. No contract outside the declared inputs
    has any balance or any storage slot changed. *)
Theorem execution_conserves_assets {S} `{Sha256} `{Powf} `{WideLib} `{!PowfLaw} `{!WideLaws} `{Crypto} `{StateLaws S}
    (vm vm' : Interpreter S) :
  script_inv vm -> rtc vm_step vm vm' ->
  (exists l, rx_receipts (receipts vm') = rx_receipts (receipts vm) ++ l /\
     forall a, coins vm' a = coins vm a + issued_all (base_asset_id (interpreter_params vm)) a l) /\
  (forall c, c ∉ input_contracts vm ->
     (forall a, bal (storage vm') c a = bal (storage vm) c a) /\
     (forall k, contract_state (storage vm') c k = contract_state (storage vm) c k)).
Proof.
  intros Hi Hr. cut (accounts vm vm'); [by intros [? ?]|]. revert Hi.
  induction Hr as [v|v1 v2 v3 Hs Hr IH]; intros Hi.
  - split; [done|]. exists []. rewrite app_nil_r. split; [done|]. intros a. cbn. lia.
  - destruct (script_step v1 v2 Hi Hs) as (Hi2 & Hst & _). destruct (step_const _ _ _ Hst).
    eapply accounts_trans; [done|done|by apply step_accounts|by apply IH].
Qed.

Lemma execution_conserves_assets_witness :
  exists vm' l, rtc vm_step vm_run vm' /\
    rx_receipts (receipts vm') = rx_receipts (receipts vm_run) ++ l /\
    coins vm' zeroed = coins vm_run zeroed + issued_all zeroed zeroed l.
Proof.
  destruct (iterate_some 2 vm_run) as [vm' E]; [vm_compute; reflexivity|].
  destruct (execution_conserves_assets vm_run vm' vm_run_inv (iterate_rtc 2 _ _ E))
    as [(l & Hl & Hc) _].
  exists vm', l. split; [exact (iterate_rtc 2 _ _ E)|]. split; [exact Hl|apply Hc].
Defined.

(** ** Termination and the final receipts *)

Section Termination.
Context {S : Type} `{Sha256} `{Powf} `{WideLib} `{!PowfLaw} `{!WideLaws} `{Crypto} `{StateLaws S}.
Implicit Types (vm : Interpreter S).

(** The state after the loop: room for the result receipt, and the gas accounted for. *)
Record loop_end vm vm' : Prop := {
  lp_gas : 0 <= reg vm' RegId.GGAS <= reg vm RegId.GGAS;
  lp_receipts : receipts_ok (receipts vm');
  lp_len : zlen (rx_receipts (receipts vm')) <= MAX_RECEIPTS - 1
}.

(** Results and program states that belong together; a panic leaves its receipt. *)
Definition result_ok (result : ScriptExecutionResult) (state : ProgramState) (l : list Receipt)
  : Prop :=
  match result, state with
  | Success, PS_Return _ | Success, PS_ReturnData _ => True
  | Revert_, PS_Revert _ => True
  | Panic_, PS_Revert w => w = 0 /\ exists id r pc is_ c, last l = Some (Receipt_Panic id r pc is_ c)
  | _, _ => False
  end.

Lemma internal_contract_default_ok vm :
  regs_ok (registers vm) -> mem_wf (memory vm) ->
  exists id, internal_contract_or_default vm = Ok id.
Proof.
  intros Hr Hm. unfold internal_contract_or_default, internal_contract, current_contract.
  case_if; cbn; [|by eexists].
  pose proof (reg_get_u64 _ RegId.FP (proj2 Hr)) as [Hfp _]. fold (reg vm RegId.FP) in Hfp.
  rewrite read_bytes_eq by done.
  destruct (read (memory vm) (reg vm RegId.FP) 32) eqn:Er; cbn; [by eexists..|].
  by apply read_no_crash in Er.
Qed.

Lemma append_panic_receipt_spec e vm vm' result :
  local_err e vm vm' ->
  exists vm'', append_panic_receipt result vm' = (Ok tt, vm'') /\ loop_end vm vm'' /\
    exists id pc is_ c, last (rx_receipts (receipts vm'')) = Some (Receipt_Panic id result pc is_ c).
Proof.
  intros [Hbug Hgas Hregs Hmem Hst Hpar Hrx Hlen].
  destruct (internal_contract_default_ok vm' Hregs Hmem) as [id Hid].
  unfold append_panic_receipt, get_internal_contract_or_default, mbind_, get_reg, gets, lift,
    modify. rewrite Hid. cbn [receipts set_panic_context].
  set (rc := match panic_context vm' with
             | PanicContext_None => _ | PanicContext_ContractId _ => _ end).
  assert (Hp : exists c, rc = Receipt_Panic id result (reg vm' RegId.PC) (reg vm' RegId.IS) c)
    by (unfold rc; destruct (panic_context vm'); by eexists).
  clearbody rc. destruct Hp as [c ->].
  destruct (receipts_push_Ok (receipts vm')
    (Receipt_Panic id result (reg vm' RegId.PC) (reg vm' RegId.IS) c) Hrx) as (rx & Ep & Hok & El).
  { right; left. split; [lia|done]. }
  rewrite Ep. eexists. split; [done|]. split; [split; cbn|cbn].
  - exact Hgas.
  - exact Hok.
  - rewrite El, zlen_app. change (zlen [_]) with 1. lia.
  - rewrite El. do 4 eexists. apply last_snoc.
Qed.

Lemma wf_loop_end vm vm' :
  vm_wf vm' -> reg vm' RegId.GGAS <= reg vm RegId.GGAS -> loop_end vm vm'.
Proof.
  intros Hwf Hg. pose proof (wf_reg_u64 vm' RegId.GGAS Hwf) as [? _].
  destruct Hwf. split; [lia|done|lia].
Qed.

Lemma loop_end_trans v1 v2 v3 :
  reg v2 RegId.GGAS <= reg v1 RegId.GGAS -> loop_end v2 v3 -> loop_end v1 v3.
Proof. intros Hg []. split; [lia|done|done]. Qed.

(** What the loop guarantees, once there is fuel for the gas. *)
Definition loop_spec vm (r : RunOutcome (ScriptExecutionResult * ProgramState) * Interpreter S)
  : Prop :=
  match r with
  | (Finished (result, state), vm') =>
      loop_end vm vm' /\ result_ok result state (rx_receipts (receipts vm'))
  | (Failed e, _) => e = IE_Storage
  | (Outside _, _) => True
  | _ => False
  end.

Lemma loop_spec_trans v1 v2 r :
  reg v2 RegId.GGAS <= reg v1 RegId.GGAS -> loop_spec v2 r -> loop_spec v1 r.
Proof.
  intros Hg. destruct r as [[[]| | | |] v3]; cbn; try done. intros [? ?].
  split; [by eapply loop_end_trans|done].
Qed.

Lemma run_loop_spec fuel : forall vm,
  script_inv vm -> costs_at_least 1 (gas_costs vm) ->
  reg vm RegId.GGAS < Z.of_nat fuel -> loop_spec vm (run_loop fuel vm).
Proof.
  induction fuel as [|fuel IH]; intros vm Hi Hk Hfuel; pose proof (si_wf _ Hi) as Hwf.
  { pose proof (wf_reg_u64 vm RegId.GGAS Hwf) as [? _]. lia. }
  cbn [run_loop]. pose proof (execute_spec 1 false vm Hwf (si_money _ Hi) (si_frame _ Hi) Hk) as Hs.
  destruct (execute false vm) as [[st|e|] vm']; [| |done].
  - destruct Hs as (Hwf' & Hm' & Hst & Hg & _).
    assert (Hnext : step_rel true vm vm' -> reg vm' RegId.GGAS + 1 <= reg vm RegId.GGAS ->
      loop_spec vm (run_loop fuel vm')).
    { intros Hst' Hg'. eapply (loop_spec_trans vm vm'); [lia|]. apply IH; [| |lia].
      - by eapply (script_inv_step true vm).
      - by rewrite (step_costs _ _ _ Hst'). }
    assert (Hend : reg vm' RegId.GGAS + 1 <= reg vm RegId.GGAS -> loop_end vm vm').
    { intros. apply wf_loop_end; [done|lia]. }
    destruct st; try (destruct Hg as [[? [=]]|Hg]); cbn in Hst; auto;
      try (case_bool_decide; cbn; auto; fail); cbn; auto.
  - destruct Hs as [He [r Hr]]. destruct e as [result| | |]; cbn [instruction_result]; try done.
    destruct (append_panic_receipt_spec r vm vm' result Hr)
      as (vm'' & -> & Hend & id & pc & is_ & c & Hl).
    split; [done|]. cbn. split; [done|]. by do 5 eexists.
Qed.

(** The result receipt always fits. *)
Lemma result_receipt_spec vm0 gas_limit result state vm :
  loop_end vm0 vm -> reg vm0 RegId.GGAS <= gas_limit ->
  exists rx, result_receipt gas_limit result state vm = (Finished state, set_receipts vm rx) /\
    receipts_ok rx /\ rx_receipts rx = rx_receipts (receipts vm) ++
      [Receipt_ScriptResult result (gas_limit - reg vm RegId.GGAS)].
Proof.
  intros [Hg Hok Hlen] Hl. unfold result_receipt, remaining_gas.
  unfold checked_sub. case_if; [|lia].
  destruct (receipts_push_Ok (receipts vm)
    (Receipt_ScriptResult result (gas_limit - reg vm RegId.GGAS)) Hok) as (rx & -> & ? & ?).
  { right; right. split; [unfold MAX_RECEIPTS in *; lia|done]. }
  by exists rx.
Qed.
End Termination.

(** How a finished run accounts for itself, relative to the initial state [vm]. *)
Definition accounted {S} `{Sha256} (gas_limit : Z) (vm : Interpreter S) (state : ProgramState)
    (vm' : Interpreter S) : Prop :=
  exists result l,
    let gas_used := gas_limit - reg vm' RegId.GGAS in
    rx_receipts (receipts vm') = l ++ [Receipt_ScriptResult result gas_used] /\
    gas_limit - reg vm RegId.GGAS <= gas_used <= gas_limit /\
    result_ok result state l /\
    receipts_root (receipts vm') = Ok (mth (map receipt_to_bytes (rx_receipts (receipts vm')))).

Lemma result_receipt_accounted {S} `{Sha256} gas_limit result state (vm vm' : Interpreter S) :
  loop_end vm vm' -> reg vm RegId.GGAS <= gas_limit ->
  result_ok result state (rx_receipts (receipts vm')) ->
  exists v, result_receipt gas_limit result state vm' = (Finished state, v) /\
    accounted gas_limit vm state v.
Proof.
  intros He Hlim Hres.
  destruct (result_receipt_spec vm gas_limit result state vm' He Hlim) as (rx & -> & Hok & El).
  eexists. split; [done|]. exists result, (rx_receipts (receipts vm')). split; [exact El|].
  pose proof (lp_gas _ _ He). split; [change (reg (set_receipts vm' rx)) with (reg vm'); lia|].
  split; [done|by apply receipts_root_spec].
Qed.

(** How a script run ends *)
Lemma run_program_ends {S} `{Sha256} `{Powf} `{WideLib} `{!PowfLaw} `{!WideLaws} `{Crypto} `{StateLaws S}
    (script_is_empty : bool) (gas_limit : Z) (fuel : nat) (vm : Interpreter S) :
  script_inv vm -> costs_at_least 1 (gas_costs vm) -> reg vm RegId.GGAS <= gas_limit ->
  reg vm RegId.GGAS < Z.of_nat fuel ->
  match run_program script_is_empty gas_limit fuel vm with
  | (Finished state, vm') => accounted gas_limit vm state vm'
  | (Failed e, _) => e = IE_Storage \/ (script_is_empty = true /\ exists r, e = IE_Panic r)
  | (Outside o, _) => script_is_empty = false /\ unmodelled o = true
  | _ => False
  end.
Proof.
  intros Hi Hk Hlim Hfuel. pose proof (si_wf _ Hi) as Hwf.
  unfold run_program. destruct script_is_empty.
  - assert (Hret : wp (ret 1) (fun _ => loop_end vm) (fun e v => local_err e vm v) vm).
    { apply wp_ret; [done|by split|]. intros c vm' _ Hwf' Hr. apply wf_loop_end; [done|].
      destruct (frames vm); [apply Hr|]. rewrite (rs_kept _ _ _ _ _ Hr) by done.
      unfold with_ret. by rewrite !reg_set_ne. }
    unfold wp in Hret. destruct (ret 1 vm) as [[[]|e|] vm']; [| |done].
    + by destruct (result_receipt_accounted gas_limit Success (PS_Return 1) vm vm' Hret Hlim I)
        as (v & -> & Ha).
    + destruct e as [r|b|]; cbn; [right; by eauto|by destruct (le_nobug _ _ _ Hret b)|by left].
  - pose proof (run_loop_spec fuel vm Hi Hk Hfuel) as Hl.
    pose proof (run_loop_outside fuel vm) as Ho.
    destruct (run_loop fuel vm) as [[[result state]| | | |] vm']; cbn in Hl, Ho; try done; [|by left].
    destruct Hl as [He Hr].
    by destruct (result_receipt_accounted gas_limit result state vm vm' He Hlim Hr)
      as (v & -> & Ha).
Qed.

(** C4: running a script always ends, and ends accounted for. With a positive cost for every
    instruction, as many iterations as the script has gas (plus one) suffice: the loop never
    runs out of fuel, never panics the host and never reports an internal bug. If it finishes,
    the last receipt is the script result with [gas_used] exactly the gas limit less the gas
    left, between zero and the limit; the receipt before it is the panic receipt if the script
    panicked; the result fits the returned program state; and the receipts root is the
    Merkle root of the encoded receipts. The only other outcomes are a failure of the storage
    backend, one of the four instructions outside the model (TRO, GTF, ECAL, EPAR) and, for an
    empty script, a failure of its implicit return. *)
Theorem run_program_terminates {S} `{Sha256} `{Powf} `{WideLib} `{!PowfLaw} `{!WideLaws} `{Crypto} `{StateLaws S}
    (script_is_empty : bool) (gas_limit : Z) (fuel : nat) (vm : Interpreter S) :
  script_inv vm -> costs_at_least 1 (gas_costs vm) -> reg vm RegId.GGAS <= gas_limit ->
  reg vm RegId.GGAS < Z.of_nat fuel ->
  match run_program script_is_empty gas_limit fuel vm with
  | (Finished state, vm') => accounted gas_limit vm state vm'
  | (Failed e, _) => e = IE_Storage \/ (script_is_empty = true /\ exists r, e = IE_Panic r)
  | (Outside o, _) => script_is_empty = false /\ unmodelled o = true
  | _ => False
  end.
Proof. apply run_program_ends. Qed.

Lemma run_program_terminates_witness :
  exists vm' result l,
    run_program false 1000 1001 vm_run = (Finished (PS_Return 1), vm') /\
    rx_receipts (receipts vm') =
      l ++ [Receipt_ScriptResult result (1000 - reg vm' RegId.GGAS)].
Proof.
  assert (Hok : match run_program false 1000 1001 vm_run with
                | (Finished (PS_Return 1), _) => true | _ => false end = true)
    by (vm_compute; reflexivity).
  assert (Hk : costs_at_least 1 (gas_costs vm_run)) by (split; intros c; discriminate).
  pose proof (run_program_terminates false 1000 1001 vm_run vm_run_inv Hk) as Ht.
  specialize (Ht ltac:(vm_compute; discriminate) ltac:(vm_compute; reflexivity)).
  destruct (run_program false 1000 1001 vm_run) as [[st|e| |o|] vm']; try discriminate.
  destruct st as [w|d|w]; [|discriminate..].
  destruct Ht as (result & l & Hr & _). exists vm', result, l.
  split; [|exact Hr]. do 2 f_equal. destruct w as [|[]|]; (discriminate || reflexivity).
Defined.

(** ** Predicates *)

Section Predicates.
Context {S : Type} `{Sha256} `{Powf} `{WideLib} `{!PowfLaw} `{!WideLaws} `{Crypto} `{StateLaws S}.
Implicit Types (vm : Interpreter S).

(** What a predicate may change: like a local step outside any call, but it may load code. *)
Record predicate_step vm vm' : Prop := {
  pr_frames : frames vm' = frames vm;
  pr_ssp : reg vm RegId.SSP <= reg vm' RegId.SSP;
  pr_mem : forall x, x < reg vm RegId.SSP -> mem_get (memory vm') x = mem_get (memory vm) x;
  pr_storage : storage vm' = storage vm;
  pr_context : context vm' = context vm;
  pr_balances : balances vm' = balances vm;
  pr_params : interpreter_params vm' = interpreter_params vm;
  pr_gas : reg vm' RegId.GGAS <= reg vm RegId.GGAS
}.

#[local] Instance predicate_step_preorder : PreOrder predicate_step.
Proof.
  split; [by intros vm; split|]. intros v1 v2 v3 [] []. split; try congruence; try lia.
  intros x Hx. rewrite pr_mem1, pr_mem0 by lia. done.
Qed.

(** The state of a running predicate. *)
Definition predicate_inv vm : Prop :=
  frames vm = [] /\ context_is_internal (context vm) = false /\ 32 <= reg vm RegId.SSP.

Lemma predicate_inv_frame vm : predicate_inv vm -> frame_inv vm.
Proof. intros (? & ? & ?). split; [done|by left]. Qed.

(** Outside any call, an instruction allowed in predicates is local or loads code. *)
Lemma predicate_local vm vm' : predicate_inv vm -> step_rel false vm vm' -> predicate_step vm vm'.
Proof.
  intros (Hf & Hc & _) [Hl|Hl|? ? ? ? [=]|? ? ? ? ? ? ? ? ? [=] _|v1 a b f rest r Hl _ Hf1 _].
  - pose proof Hl as []. split; try done; [by rewrite ls_ssp|]. intros x Hx. apply ls_mem. by left.
  - pose proof Hl as []. split; try done. intros x Hx. apply ld_mem; [by left|]. intros [? _]. congruence.
  - rewrite (ls_frames _ _ Hl) in Hf1. congruence.
Qed.

Definition predicate_spec vm (r : RunOutcome ProgramState * Interpreter S) : Prop :=
  match r with
  | (Finished st, vm') => st = PS_Return 1 /\ vm_wf vm' /\ predicate_step vm vm'
  | (Failed e, vm') => (e = IE_Panic PredicateReturnedNonOne \/ run_error e) /\
      0 <= reg vm' RegId.GGAS <= reg vm RegId.GGAS
  | (Outside _, vm') => predicate_step vm vm'
  | _ => False
  end.

Lemma predicate_spec_trans v1 v2 r :
  predicate_step v1 v2 -> predicate_spec v2 r -> predicate_spec v1 r.
Proof.
  intros Hl. destruct r as [[| | | |] v3]; cbn; try done.
  - intros (? & ? & ?). split_and!; [done|done|by etrans].
  - pose proof (pr_gas _ _ Hl). intros [? ?]. split; [done|lia].
  - by intros; etrans.
Qed.

Lemma predicate_step_inv vm vm' : predicate_inv vm -> predicate_step vm vm' -> predicate_inv vm'.
Proof.
  intros (Hf & Hc & Hs) []. split_and!; [congruence|congruence|lia].
Qed.

Lemma verify_predicate_spec fuel : forall vm,
  vm_wf vm -> money_wf vm -> predicate_inv vm -> costs_at_least 1 (gas_costs vm) ->
  reg vm RegId.GGAS < Z.of_nat fuel -> predicate_spec vm (verify_predicate fuel vm).
Proof.
  induction fuel as [|fuel IH]; intros vm Hwf Hm Hf Hk Hfuel.
  { pose proof (wf_reg_u64 vm RegId.GGAS Hwf) as [? _]. lia. }
  cbn [verify_predicate].
  pose proof (execute_spec 1 true vm Hwf Hm (predicate_inv_frame _ Hf) Hk) as Hs.
  destruct (execute true vm) as [[st|e|] vm']; [| |done].
  - destruct Hs as (Hwf' & Hm' & Hst & Hg & Hp). specialize (Hp eq_refl). destruct st; try done.
    + destruct Hg as [[? [=]]|Hg]. apply (predicate_local vm vm' Hf) in Hst.
      apply (predicate_spec_trans vm vm'); [done|]. apply IH; try done; [| |lia].
      * by eapply predicate_step_inv.
      * unfold gas_costs. by rewrite (pr_params _ _ Hst).
    + apply (predicate_local vm vm' Hf) in Hst. pose proof (wf_reg_u64 vm' RegId.GGAS Hwf') as [? _].
      pose proof (pr_gas _ _ Hst). case_if; zbool; cbn; [by subst|split; [by left|lia]].
    + cbn in Hst. subst. cbn. reflexivity.
  - destruct Hs as [He [x Hx]]. cbn. split; [by right|]. apply Hx.
Qed.
End Predicates.

(** C5: verifying a predicate is total and harmless. With a positive cost for every
    instruction and as much fuel as gas (plus one), verification never runs out of fuel, never
    panics the host and never reports an internal bug; it accepts only by a program that
    returned one, and then the contract storage, the free balances, the call frames and every
    byte below the stack start are untouched; otherwise it fails with a panic reason, having used
    no more than its gas, or meets an instruction outside the model (TRO, GTF, ECAL or EPAR), up
    to which it has changed nothing of these either. *)
Theorem verify_predicate_total {S} `{Sha256} `{Powf} `{WideLib} `{!PowfLaw} `{!WideLaws} `{Crypto} `{StateLaws S}
    (fuel : nat) (vm : Interpreter S) :
  vm_wf vm -> money_wf vm -> predicate_inv vm -> costs_at_least 1 (gas_costs vm) ->
  reg vm RegId.GGAS < Z.of_nat fuel ->
  match verify_predicate fuel vm with
  | (Finished st, vm') =>
      st = PS_Return 1 /\ storage vm' = storage vm /\ balances vm' = balances vm /\
      frames vm' = [] /\ 0 <= reg vm' RegId.GGAS <= reg vm RegId.GGAS /\
      forall x, x < reg vm RegId.SSP -> mem_get (memory vm') x = mem_get (memory vm) x
  | (Failed e, vm') => (e = IE_Panic PredicateReturnedNonOne \/ run_error e) /\ 0 <= reg vm' RegId.GGAS <= reg vm RegId.GGAS
  | (Outside o, vm') =>
      unmodelled o = true /\ storage vm' = storage vm /\ balances vm' = balances vm /\ frames vm' = [] /\
      forall x, x < reg vm RegId.SSP -> mem_get (memory vm') x = mem_get (memory vm) x
  | _ => False
  end.
Proof.
  intros Hwf Hm Hf Hk Hfuel. pose proof (verify_predicate_spec fuel vm Hwf Hm Hf Hk Hfuel) as Hp.
  pose proof (verify_predicate_outside fuel vm) as Ho.
  destruct (verify_predicate fuel vm) as [[st| | | |] vm']; cbn in Hp, Ho; try done; destruct Hf as (Hf & _).
  - destruct Hp as (-> & Hwf' & []). pose proof (wf_reg_u64 vm' RegId.GGAS Hwf') as [? _]. split_and!; try done. congruence.
  - destruct Hp. split_and!; try done. congruence.
Qed.

(** A predicate consisting of [RET $one]. *)
Definition vm_predicate : Interpreter SlotStorage :=
  set_memory vm_run (mkMemory (code_ret ++ replicate 124 x00) [] MEM_SIZE).

Lemma vm_predicate_wf : vm_wf vm_predicate.
Proof.
  destruct (si_wf _ vm_run_inv). split; try assumption.
  - split; vm_compute; repeat split; discriminate.
Defined.

Lemma verify_predicate_total_witness :
  exists vm', verify_predicate 1001 vm_predicate = (Finished (PS_Return 1), vm') /\
    storage vm' = storage vm_predicate.
Proof.
  assert (Hok : match verify_predicate 1001 vm_predicate with
                | (Finished _, _) => true | _ => false end = true)
    by (vm_compute; reflexivity).
  assert (Hk : costs_at_least 1 (gas_costs vm_predicate)) by (split; intros c; discriminate).
  assert (Hm : money_wf vm_predicate) by exact (si_money _ vm_run_inv).
  assert (Hp : predicate_inv vm_predicate) by (split; [|split]; reflexivity || discriminate).
  pose proof (verify_predicate_total 1001 vm_predicate vm_predicate_wf Hm Hp Hk) as Ht.
  specialize (Ht ltac:(vm_compute; reflexivity)).
  destruct (verify_predicate 1001 vm_predicate) as [[st|e| |o|] vm']; try discriminate.
  destruct Ht as (-> & Hs & _). by exists vm'.
Defined.
