(* ===== verification/Ending.v ===== *)
(** * How a script ends

    What is left of the machine when the loop of [run_program]
    (src/fuel-vm/src/interpreter/executors/main.rs) has ended, for the work that follows: the
    outputs of the transaction are settled from the balances and written back to memory. The
    stack buffer still covers the transaction ([floor_ok]), the parameters are those the machine
    started with, and a script that did not revert knows the same assets as before. *)

From Stdlib Require Import Strings.Byte.
From S2P Require Import Prelude Asm Merkle Receipts Memory State Gas Alu.
From S2P Require Import MemOps WideInt Storage Flow Calls Blockchain Effects LoadCode Crypto Opcodes Steps Run.

Section Ending.
Context {S : Type} `{Sha256} `{Powf} `{WideLib} `{!PowfLaw} `{!WideLaws} `{Crypto} `{StateLaws S}.
Implicit Types (vm : Interpreter S).

(** No context uses the stack below [k]. *)
Definition floor_ok (k : Z) vm : Prop :=
  k <= reg vm RegId.SSP /\ Forall (fun f => k <= reg_get (f_registers f) RegId.SSP) (frames vm).

(** The free balances are of the same assets, and no larger. *)
Definition same_assets vm vm' : Prop :=
  forall a, (is_Some (balances vm' !! a) <-> is_Some (balances vm !! a)) /\ free (balances vm') a <= free (balances vm) a.

#[export] Instance same_assets_preorder : PreOrder same_assets.
Proof.
  split; [by intros vm a|]. intros v1 v2 v3 H12 H23 a. destruct (H12 a) as [E1 L1], (H23 a) as [E2 L2].
  split; [by rewrite E2|lia].
Qed.

Lemma same_assets_eq vm vm' : balances vm' = balances vm -> same_assets vm vm'.
Proof. intros E a. by rewrite E. Qed.

Lemma free_sub_assets a n vm v : 0 <= n -> free_sub (balances vm) a n (balances v) -> same_assets vm v.
Proof.
  intros Hn (_ & Ea & Ho & Hs) x. split; [apply Hs|]. destruct (decide (x = a)) as [->|Hne]; [lia|].
  unfold free. by rewrite (Ho x Hne).
Qed.
Lemma debited_assets source a n vm v :
  0 <= n -> debited source a n (storage vm) (balances vm) (storage v) (balances v) -> same_assets vm v.
Proof.
  intros Hn. destruct source; intros Hd; [destruct Hd as (_ & _ & E); by apply same_assets_eq|].
  destruct Hd as [_ Hd]. by eapply free_sub_assets.
Qed.
Lemma moved_assets source a n to vm v :
  0 <= n -> moved source a n to (storage vm) (balances vm) (storage v) (balances v) -> same_assets vm v.
Proof.
  intros Hn (s1 & Hd & _). destruct source; [destruct Hd as (_ & _ & E); by apply same_assets_eq|].
  destruct Hd as [_ Hd]. by eapply free_sub_assets.
Qed.

Lemma step_assets pay vm vm' : step_rel pay vm vm' -> same_assets vm vm'.
Proof.
  intros [Hl|Hl|v0 v rs rx _ Hl Hw0 Ha|n g v1 c ci f m rx code _ Hn0 Hcd|v1 a b f rest r Hl Hw1 Hf Hr].
  - apply same_assets_eq, Hl.
  - apply same_assets_eq, Hl.
  - transitivity v0; [apply same_assets_eq, Hl|]. destruct Ha. transitivity v.
    + destruct af_effect as [x y z ? ? Hmv|? ? ? ? E|? ? ? ? E ?|? ? ? ? ? ? ? Hd|? ? E];
        [by eapply moved_assets|by apply same_assets_eq..|by eapply debited_assets|by apply same_assets_eq].
    + by apply same_assets_eq, (ls_balances _ _ af_local).
  - destruct Hcd. subst vm'. transitivity v1; [by eapply moved_assets|by apply same_assets_eq].
  - apply same_assets_eq. rewrite (rs_balances _ _ _ _ _ Hr). apply Hl.
Qed.

Lemma step_floor pay k vm vm' : step_rel pay vm vm' -> floor_ok k vm -> floor_ok k vm'.
Proof.
  intros [Hl|Hl|v0 v rs rx _ Hl Hw0 Ha|n g v1 c ci f m rx code _ Hn0 Hcd|v1 a b f rest r Hl Hw1 Hf Hr] [Hk Hfs].
  - unfold floor_ok. by rewrite (ls_ssp _ _ Hl), (ls_frames _ _ Hl).
  - unfold floor_ok. rewrite (ld_frames _ _ Hl). pose proof (ld_ssp _ _ Hl). split; [lia|done].
  - unfold floor_ok. destruct Ha. rewrite (ls_ssp _ _ af_local), (ls_frames _ _ af_local).
    change (reg (set_receipts v rx)) with (reg v). cbn [frames set_receipts].
    rewrite (ps_regs _ _ af_pay), (ps_frames _ _ af_pay) by done. by rewrite (ls_ssp _ _ Hl), (ls_frames _ _ Hl).
  - pose proof (called_frames _ _ _ _ _ _ _ _ _ _ _ Hcd) as Ef. destruct Hcd. unfold floor_ok. rewrite Ef.
    assert (Hsf : k <= reg_get (f_registers f) RegId.SSP).
    { rewrite (sf_regs _ _ _ _ cd_frame). cbn. by rewrite (ps_regs _ _ cd_pay). }
    pose proof (wf_frames _ cd_wf) as Hok. rewrite Ef in Hok. destruct Hok as (_ & _ & _ & Hssp & _).
    split; [lia|by constructor].
  - pose proof (ls_frames _ _ Hl) as Ef. rewrite Hf in Ef. rewrite <- Ef in Hfs. apply Forall_cons in Hfs as [Hkf Hfs].
    unfold floor_ok. rewrite (rs_frames _ _ _ _ _ Hr), (rs_regs _ _ _ _ _ Hr) by done. done.
Qed.

(** The machine after the loop, relative to the machine before it. *)
Record ended (k : Z) vm (state : ProgramState) vm' : Prop := {
  en_mem : mem_wf (memory vm');
  en_stack : k <= zlen (stack (memory vm'));
  en_params : interpreter_params vm' = interpreter_params vm;
  en_assets : (forall w, state <> PS_Revert w) -> same_assets vm vm' /\ balances_ok (balances vm')
}.

Lemma ended_wf k vm vm' state :
  vm_wf vm' -> money_wf vm' -> floor_ok k vm' -> interpreter_params vm' = interpreter_params vm ->
  same_assets vm vm' -> ended k vm state vm'.
Proof.
  intros Hwf [_ Hb] [Hk _] Hp Ha. pose proof (wf_ssp _ Hwf). pose proof (wf_sp_stack _ Hwf).
  split; [apply Hwf|lia|done|done].
Qed.

Lemma append_panic_receipt_keeps result vm :
  snd (append_panic_receipt result vm) = vm \/
  exists rx c, snd (append_panic_receipt result vm) = set_receipts (set_panic_context vm c) rx.
Proof.
  unfold append_panic_receipt, get_internal_contract_or_default, mbind_, get_reg, gets, lift, modify.
  destruct (internal_contract_or_default vm); cbn; [|by left..]. right.
  destruct (receipts_push _ _); cbn; [by eexists _, _|by exists (receipts vm), PanicContext_None; destruct vm..].
Qed.

Lemma run_loop_ended k vm0 fuel : forall vm,
  script_inv vm -> floor_ok k vm -> interpreter_params vm = interpreter_params vm0 -> same_assets vm0 vm ->
  match run_loop fuel vm with
  | (Finished (result, state), vm') => ended k vm0 state vm'
  | _ => True
  end.
Proof.
  induction fuel as [|fuel IH]; intros vm Hi Hfl Hp Ha; [done|]. cbn [run_loop].
  pose proof (execute_spec 0 false vm (si_wf _ Hi) (si_money _ Hi) (si_frame _ Hi) (costs_nonneg _ (si_wf _ Hi))) as Hs.
  destruct (execute false vm) as [[st|e|] vm']; [| |done].
  - destruct Hs as (Hwf & Hm & Hst & _).
    assert (Hnext : step_rel true vm vm' -> script_inv vm' /\ floor_ok k vm' /\
      interpreter_params vm' = interpreter_params vm0 /\ same_assets vm0 vm').
    { intros Hr. split_and!; [by eapply script_inv_step|by eapply step_floor|by rewrite (proj2 (step_const _ _ _ Hr))|].
      etrans; [exact Ha|by eapply step_assets]. }
    assert (Hend : forall state, step_rel true vm vm' -> ended k vm0 state vm').
    { intros state Hr. destruct (Hnext Hr) as (? & ? & ? & ?). by apply ended_wf. }
    destruct st; cbn in Hst; try done; try (destruct (Hnext Hst) as (? & ? & ? & ?));
      try case_bool_decide; cbn [negb]; first [by apply Hend|by apply IH].
  - destruct Hs as [_ [r Hr]]. destruct (instruction_result e) as [p|]; [|done].
    destruct (append_panic_receipt_spec r vm vm' p Hr) as (v & Ev & _).
    pose proof (append_panic_receipt_keeps p vm') as Hk. rewrite Ev in *. cbn [snd] in Hk.
    assert (Hmp : memory v = memory vm' /\ interpreter_params v = interpreter_params vm').
    { by destruct Hk as [->|(rx & c & ->)]. }
    destruct Hmp as [Em Ep], Hr, Hfl. split; rewrite ?Em, ?Ep; [done|lia|congruence|]. intros Hw. by destruct (Hw 0).
Qed.

(** Running a script leaves the machine as settling the outputs needs it. *)
Lemma run_program_ended k is_empty limit fuel vm :
  script_inv vm -> frames vm = [] -> k <= reg vm RegId.SSP ->
  match run_program is_empty limit fuel vm with
  | (Finished state, vm') => ended k vm state vm'
  | _ => True
  end.
Proof.
  intros Hi Hf Hk. pose proof (si_wf _ Hi) as Hwf.
  assert (Hfl : floor_ok k vm) by (split; [done|by rewrite Hf]).
  assert (Hrr : forall result state v, ended k vm state v ->
    match result_receipt limit result state v with (Finished st, vm') => ended k vm st vm' | _ => True end).
  { intros result state v He. unfold result_receipt. destruct (checked_sub _ _); [|done].
    destruct (receipts_push _ _); [|done..]. destruct He. by split. }
  unfold run_program. destruct is_empty.
  - assert (Hret : wp (ret 1) (fun _ v => ended k vm (PS_Return 1) v) (fun e v => local_err e vm v) vm).
    { apply wp_ret; [done|by split|]. rewrite Hf. intros c v _ Hwfv Hl. apply ended_wf; [done| | |apply Hl|].
      - destruct (si_money _ Hi). split; [by rewrite (ls_storage _ _ Hl)|by rewrite (ls_balances _ _ Hl)].
      - eapply (step_floor true); [by apply step_local|done].
      - apply same_assets_eq, Hl. }
    unfold wp in Hret. destruct (ret 1 vm) as [[[]|e|] v]; try done. by apply Hrr.
  - pose proof (run_loop_ended k vm fuel vm Hi Hfl eq_refl ltac:(done)) as Hl.
    destruct (run_loop fuel vm) as [[[result state]| | | |] v]; try done. by apply Hrr.
Qed.
End Ending.
