(* ===== verification/Authority.v ===== *)
(** * Authority over a contract's state and coins

    Only the running contract can change its storage slots or spend its balances: while a
    contract does not run, whatever else runs leaves its slots alone and can only credit it
    (src/fuel-vm/src/interpreter/contract.rs, blockchain.rs, flow.rs). *)

From Stdlib Require Import Strings.Byte.
From stdpp Require Import relations.
From S2P Require Import Prelude Asm Merkle Receipts Memory State Gas Alu MemOps WideInt Storage.
From S2P Require Import MemStorage SlotStorage Flow Calls Blockchain BlockchainSafe Effects.
From S2P Require Import LoadCode Crypto Opcodes Steps Run.

Section Authority.
Context {S : Type} `{Sha256} `{Powf} `{WideLib} `{!PowfLaw} `{!WideLaws} `{Crypto} `{StateLaws S}.
Implicit Types (vm : Interpreter S) (s : S).

(** From [s] to [s'] the contract [c] keeps its slots and loses no coins. *)
Definition untouched (c : ContractId) s s' : Prop :=
  (forall k, contract_state s' c k = contract_state s c k) /\
  forall a, bal s c a <= bal s' c a.

#[export] Instance untouched_preorder c : PreOrder (untouched c).
Proof.
  split; [done|]. intros s1 s2 s3 [Hs1 B1] [Hs2 B2]. split; [intros k; by rewrite Hs2, Hs1|].
  intros a. specialize (B1 a). specialize (B2 a). lia.
Qed.

Lemma debited_untouched source a n s b s' b' c :
  debited source a n s b s' b' -> source <> Some c -> untouched c s s'.
Proof.
  intros Hd Hc. destruct (debited_other _ _ _ _ _ _ _ _ Hd Hc) as [Hb Hs].
  split; [done|]. intros x. by rewrite Hb.
Qed.

Lemma moved_untouched source a n to s b s' b' c :
  0 <= n -> moved source a n to s b s' b' -> source <> Some c -> untouched c s s'.
Proof.
  intros Hn (s1 & Hd & (_ & _ & Hst & Hb)) Hc.
  etrans; [by eapply debited_untouched|]. split; [intros k; apply Hst|].
  intros x. rewrite Hb. case_decide as E; [injection E as -> ->; lia|lia].
Qed.

Lemma effect_untouched vm r s' b' rs c :
  effect vm r s' b' rs -> r <> Some c -> untouched c (storage vm) s'.
Proof.
  intros [a n to Hn _ Hm|d sub n -> _ Hu|d sub n -> _ _ Hu|txid idx sender recipient n data _ Hd
    |d -> _ Hb Hst] Hc.
  - by eapply moved_untouched.
  - destruct (bal_upd_other _ _ _ _ _ c Hu) as [Hb Hst]; [congruence|].
    split; [done|]. intros x. by rewrite Hb.
  - destruct (bal_upd_other _ _ _ _ _ c Hu) as [Hb Hst]; [congruence|].
    split; [done|]. intros x. by rewrite Hb.
  - by eapply debited_untouched.
  - split; [intros k; apply Hst; congruence|]. intros x. unfold bal. by rewrite Hb.
Qed.

Lemma step_untouched vm vm' c :
  script_inv vm -> step_rel true vm vm' -> running vm <> Some c ->
  untouched c (storage vm) (storage vm').
Proof.
  intros Hi Hs Hc.
  destruct Hs as [Hl|Hl|v0 v rs rx _ Hl Hw0 Ha|n g v1 d ci f m rx code _ Hn0 Hcd|v1 a b f rest r Hl Hw1 Hf Hr].
  - by rewrite (ls_storage _ _ Hl).
  - by rewrite (ld_storage _ _ Hl).
  - destruct Ha. rewrite (ls_storage _ _ af_local), <- (ls_storage _ _ Hl).
    eapply effect_untouched; [done|]. unfold running in *. by rewrite (ls_frames _ _ Hl).
  - pose proof (cd_current _ _ _ _ _ _ _ _ _ _ _ Hcd) as Hcur.
    rewrite (frame_inv_current vm (si_wf _ Hi) (si_frame _ Hi)) in Hcur. injection Hcur as <-.
    rewrite (cd_entered _ _ _ _ _ _ _ _ _ _ _ Hcd).
    eapply moved_untouched; [exact Hn0|apply (cd_moved _ _ _ _ _ _ _ _ _ _ _ Hcd)|done].
  - rewrite (rs_storage _ _ _ _ _ Hr). change (storage (with_ret v1 a b)) with (storage v1).
    by rewrite (ls_storage _ _ Hl).
Qed.

(** An iteration of the script loop during which [c] does not run. *)
Definition step_without (c : ContractId) vm vm' : Prop := vm_step vm vm' /\ running vm <> Some c.
End Authority.

(** C6: a contract that does not run cannot be tampered with or robbed. Along any sequence of
    iterations of the script loop over modelled instructions (all but TRO, GTF, ECAL and EPAR;
    an execution that reaches one of these is considered up to it) in which the contract [c] is
    never the running one, through any calls, transfers, mints, burns, messages, code loads and
    state updates of others, every storage slot of [c] keeps its value and no balance of [c]
    decreases. *)
Theorem execution_authority {S} `{Sha256} `{Powf} `{WideLib} `{!PowfLaw} `{!WideLaws} `{Crypto} `{StateLaws S}
    (vm vm' : Interpreter S) (c : ContractId) :
  script_inv vm -> rtc (step_without c) vm vm' ->
  (forall k, contract_state (storage vm') c k = contract_state (storage vm) c k) /\
  (forall a, bal (storage vm) c a <= bal (storage vm') c a).
Proof.
  intros Hi Hr. cut (untouched c (storage vm) (storage vm')); [done|]. revert Hi.
  induction Hr as [v|v1 v2 v3 [Hs Hc] Hr IH]; intros Hi; [done|].
  destruct (script_step v1 v2 Hi Hs) as (Hi2 & Hst & _).
  etrans; [by apply step_untouched|by apply IH].
Qed.

#[local] Existing Instances sha_identity powf_zero powf_zero_law wide_std wide_std_laws tai64_zero crypto_none.

Lemma execution_authority_witness :
  exists vm', rtc (step_without zeroed) vm_run vm' /\
    bal (storage vm_run) zeroed zeroed <= bal (storage vm') zeroed zeroed /\
    contract_state (storage vm') zeroed zeroed = contract_state (storage vm_run) zeroed zeroed.
Proof.
  destruct (iterate_some 1 vm_run) as [vm' E]; [vm_compute; reflexivity|].
  assert (Hr : rtc (step_without zeroed) vm_run vm').
  { cbn [iterate] in E. destruct (execute false vm_run) as [[st| |] v] eqn:Ex; [|discriminate..].
    destruct (continues vm_run st) eqn:Ec; [|discriminate]. injection E as ->.
    apply rtc_once. split; [exists st; [exact Ex|exact Ec]|discriminate]. }
  exists vm'. split; [exact Hr|].
  destruct (execution_authority vm_run vm' zeroed vm_run_inv Hr) as [Hs Hb].
  split; [apply Hb|apply Hs].
Defined.
