(* ===== verification/StateOps.v ===== *)
(** * Contract state as a map of slots

    The abstract contract of the state instructions: the slots of a contract are a map from
    32-byte keys to 32-byte values, and [SRW], [SWW], [SRWQ], [SWWQ], [SCWQ] read, write and
    clear words and ranges of it (src/fuel-vm/src/interpreter/blockchain.rs,
    [state_read_word] .. [state_clear_qword]). The handlers refine these operations. *)

From Stdlib Require Import Strings.Byte.
From S2P Require Import Prelude Asm Merkle Receipts Memory State Gas Alu MemOps WideInt Storage Flow.
From S2P Require Import MemStorage SlotStorage Calls Blockchain BlockchainSafe Effects LoadCode Crypto Opcodes Steps Run.

(** ** The abstract operations *)

Definition Slots : Type := Bytes32 -> option (list byte).

Module SlotSpec.

(** The first word of a slot, and whether it is set. *)
Definition read_word (σ : Slots) (k : Bytes32) : Z * bool :=
  match σ k with
  | Some v => (from_be_bytes (take 8 v), true)
  | None => (0, false)
  end.

(** A word is stored in the first eight bytes of the slot. *)
Definition word_slot (w : Z) : list byte := to_be_bytes 8 w ++ replicate 24 x00.

Definition range (σ : Slots) (k : Bytes32) (n : Z) : list (option (list byte)) :=
  map (fun i => σ (key_add k i)) (seqZ 0 n).

(** [σ'] is [σ] with the slots from [k] replaced by [l]. *)
Definition update (σ : Slots) (k : Bytes32) (l : list (option (list byte))) (σ' : Slots) : Prop :=
  range σ' k (zlen l) = l /\
  forall k', (forall i, 0 <= i < zlen l -> k' <> key_add k i) -> σ' k' = σ k'.

(** The bytes of a range, zeros where a slot is unset, and whether all are set. *)
Definition range_bytes (l : list (option (list byte))) : list byte :=
  concat (map (default zeroed) l).
Definition all_set (l : list (option (list byte))) : bool :=
  forallb (fun o => bool_decide (is_Some o)) l.
Definition unset_count (l : list (option (list byte))) : Z := zlen (filter (fun o => o = None) l).
End SlotSpec.

Lemma update_single (σ σ' : Slots) k v :
  zlen k = 32 -> σ' k = Some v -> (forall k', k' <> k -> σ' k' = σ k') ->
  SlotSpec.update σ k [Some v] σ'.
Proof.
  intros Hk Hn Ho. assert (Hk0 : key_add k 0 = k).
  { unfold key_add. rewrite Z.add_0_r. replace 32%nat with (length k) by (unfold zlen in Hk; lia).
    apply from_to_be_bytes. }
  split.
  - unfold SlotSpec.range. change (seqZ 0 (zlen [Some v])) with [0]. cbn [map]. by rewrite Hk0, Hn.
  - intros k' Hk'. apply Ho. rewrite <- Hk0. apply Hk'. by vm_compute.
Qed.

(** ** Inverting successful runs *)

Section Invert.
Context {S : Type} `{Sha256}.
Implicit Types (vm v : Interpreter S).

Lemma bind_inv {A B} (m : M S A) (f : A -> M S B) vm b v' :
  mbind_ m f vm = (Ok b, v') -> exists a v, m vm = (Ok a, v) /\ f a v = (Ok b, v').
Proof. unfold mbind_. destruct (m vm) as [[a| |] v]; [eauto|done..]. Qed.

Lemma lift_panic_Ok {A} (x : outcome PanicReason A) vm a v :
  lift_panic x vm = (Ok a, v) -> x = Ok a /\ v = vm.
Proof. unfold lift_panic, lift. by destruct x; intros [= <- <-]. Qed.

Lemma lift_Ok {A} (x : outcome RuntimeError A) vm a v :
  lift x vm = (Ok a, v) -> x = Ok a /\ v = vm.
Proof. unfold lift. by destruct x; intros [= <- <-]. Qed.

Lemma update_storage_Ok {A} (f : S -> outcome RuntimeError (A * S)) vm a v :
  update_storage f vm = (Ok a, v) ->
  exists s, f (storage vm) = Ok (a, s) /\ v = set_storage vm s.
Proof.
  unfold update_storage. destruct (f (storage vm)) as [[a' s]| |]; [|done..].
  intros [= <- <-]. by exists s.
Qed.

Lemma update_memory_Ok f vm a v :
  update_memory f vm = (Ok a, v) -> exists m, f (memory vm) = Ok m /\ v = set_memory vm m.
Proof. unfold update_memory. destruct (f (memory vm)); [|done..]. intros [= <-]. by eexists. Qed.

Lemma mem_read_bytes_Ok a n vm bs v :
  mem_read_bytes a n vm = (Ok bs, v) -> read_bytes (memory vm) a n = Ok bs /\ v = vm.
Proof.
  unfold mem_read_bytes. intros (m & w & [= <- <-] & E)%bind_inv. by apply lift_panic_Ok in E.
Qed.

Lemma mem_read_Ok a n vm bs v :
  mem_read a n vm = (Ok bs, v) -> read (memory vm) a n = Ok bs /\ v = vm.
Proof.
  unfold mem_read. intros (m & w & [= <- <-] & E)%bind_inv. by apply lift_panic_Ok in E.
Qed.

Lemma inc_pc_Ok vm a v :
  inc_pc vm = (Ok a, v) -> v = set_reg vm RegId.PC (reg vm RegId.PC + Instruction_SIZE).
Proof.
  unfold inc_pc. intros (pc & w & [= <- <-] & E)%bind_inv.
  apply bind_inv in E as (i & w & E1 & [= _ <-]). apply lift_panic_Ok in E1 as [E1 ->].
  unfold checked_add in E1. case_if_in E1; cbn in E1; [|done]. by injection E1 as <-.
Qed.

(** Charging only moves the gas registers. *)
Definition gas_moved vm v : Prop :=
  (forall i, i <> RegId.CGAS -> i <> RegId.GGAS -> reg v i = reg vm i) /\
  memory v = memory vm /\ storage v = storage vm /\ frames v = frames vm /\
  context v = context vm /\ zlen (registers v) = zlen (registers vm).

Lemma gas_charge_Ok g vm a v :
  zlen (registers vm) = VM_REGISTER_COUNT -> gas_charge g vm = (Ok a, v) -> gas_moved vm v.
Proof.
  intros Hl Hrun. unfold gas_charge in Hrun. apply bind_inv in Hrun as (c & w & [= <- <-] & Hrun).
  apply bind_inv in Hrun as (gg & w & [= <- <-] & Hrun). case_if_in Hrun; [done|]. case_if_in Hrun.
  { apply bind_inv in Hrun as (x & w & Hx & Hrun). apply lift_Ok in Hx as [_ ->].
    by apply bind_inv in Hrun as (? & ? & _ & (? & ? & _ & ?)%bind_inv). }
  apply bind_inv in Hrun as (x & w & Hx & Hrun). apply lift_Ok in Hx as [_ ->].
  apply bind_inv in Hrun as (y & w & [= _ <-] & Hrun). apply bind_inv in Hrun as (z & w & Hx & Hrun).
  apply lift_Ok in Hx as [_ ->]. injection Hrun as _ <-. split_and!; try done.
  - intros i ? ?. by rewrite !reg_set_ne by done.
  - by rewrite !zlen_set_reg.
Qed.

Lemma internal_contract_Ok vm c v :
  vm_wf vm -> frame_inv vm -> get_internal_contract vm = (Ok c, v) ->
  running vm = Some c /\ v = vm.
Proof.
  intros Hwf Hfi. unfold get_internal_contract. intros (x & w & [= <- <-] & E)%bind_inv.
  apply lift_panic_Ok in E as [E ->]. split; [|done]. unfold internal_contract in E.
  rewrite frame_inv_current in E by done. destruct (running vm); cbn in E; [by injection E as ->|done].
Qed.
End Invert.

(** ** Words *)

Section Words.
Context {S : Type} `{Sha256} `{StorageLaws S}.
Implicit Types (vm v : Interpreter S).

Lemma write_reg_key_Ok r vm i v :
  lift_panic (S := S) (write_reg_key r) vm = (Ok i, v) -> i = r /\ 16 <= r /\ v = vm.
Proof.
  intros [E ->]%lift_panic_Ok. unfold write_reg_key in E. case_if_in E; [|done].
  injection E as <-. split; [done|]. split; [|done]. unfold RegId.WRITABLE in *. lia.
Qed.

Lemma word_slot_read w : u64_ok w -> from_be_bytes (take 8 (SlotSpec.word_slot w)) = w.
Proof.
  intros Hw. unfold SlotSpec.word_slot. rewrite take_app_length' by (by rewrite length_to_be_bytes).
  by apply to_from_be_bytes.
Qed.

(** The value [SRW] takes from a slot. *)
Definition slot_word (slot : option (list byte)) : M S (option Z) :=
  match slot with
  | Some bytes => bs <- lift (index_range bytes 0 8) ;; mret (Some (from_be_bytes bs))
  | None => mret None
  end.

Lemma state_read_word_exact ra rb c vm vm' :
  vm_wf vm -> storage_wf (storage vm) -> frame_inv vm -> RegId.ok ra -> RegId.ok rb ->
  state_read_word ra rb c vm = (Ok tt, vm') ->
  exists d key, running vm = Some d /\ read_bytes (memory vm) c 32 = Ok key /\
    SlotSpec.read_word (slot (storage vm) d) key = (reg vm' ra, negb (reg vm' rb =? 0)) /\
    storage vm' = storage vm /\ memory vm' = memory vm.
Proof.
  intros Hwf Hs Hfi Hra Hrb E. unfold state_read_word in E.
  apply bind_inv in E as (i & v & E1 & E). apply write_reg_key_Ok in E1 as (-> & Hi & ->).
  apply bind_inv in E as (j & v & E1 & E). apply write_reg_key_Ok in E1 as (-> & Hj & ->).
  destruct (Z.eqb_spec ra rb) as [|Hne]; [done|].
  apply bind_inv in E as (key & v & E1 & E). apply mem_read_bytes_Ok in E1 as (Hkey & ->).
  apply bind_inv in E as (d & v & E1 & E). apply internal_contract_Ok in E1 as (Hd & ->); [|done..].
  apply bind_inv in E as (s & v & [= <- <-] & E).
  apply bind_inv in E as (o & v & E1 & E). apply lift_Ok in E1 as (Ho & ->).
  unfold storage_result in Ho. destruct (contract_state (storage vm) d key) as [o'|] eqn:Es; [|done].
  injection Ho as ->.
  apply bind_inv in E as (w & v & E1 & E). change (slot_word o vm = (Ok w, v)) in E1.
  apply bind_inv in E as (u1 & v1 & [= _ <-] & E). apply bind_inv in E as (u2 & v2 & [= _ <-] & E).
  apply inc_pc_Ok in E as ->.
  assert (Hw : v = vm /\ w = (fun bs => from_be_bytes (take 8 bs)) <$> o).
  { destruct o as [bytes|]; unfold slot_word in E1; [|by injection E1 as <- <-].
    apply bind_inv in E1 as (bs & v' & E1 & [= <- <-]). apply lift_Ok in E1 as [E1 ->].
    split; [done|]. unfold index_range in E1. case_if_in E1; [|done]. injection E1 as <-.
    cbn. unfold zslice. by rewrite drop_0. }
  destruct Hw as [-> ->]. pose proof (wf_regs _ Hwf) as [Hl _]. unfold RegId.ok in *.
  exists d, key. split_and!; try done. unfold SlotSpec.read_word, slot. rewrite Es. cbn [default].
  rewrite !(reg_set_ne _ RegId.PC) by (change RegId.PC with 3; lia).
  rewrite (reg_set_ne _ rb ra), !reg_set_eq by (rewrite ?zlen_set_reg; (done || lia)).
  by destruct o as [bytes|].
Qed.

(** What a state update leaves alone: code, balances and the slots of other contracts. *)
Definition only_slots (d : ContractId) vm vm' : Prop :=
  storage_wf (storage vm') /\ same_code (storage vm) (storage vm') /\
  same_balances (storage vm) (storage vm') /\ state_of_others (storage vm) d (storage vm').

(** The end of an update: maybe a charge, then the next instruction. *)
Lemma update_tail r x (b : bool) g vm vm' :
  zlen (registers vm) = VM_REGISTER_COUNT -> 16 <= r < 64 ->
  (put_reg r x ;;; (if b then gas_charge g else mret tt) ;;; inc_pc) vm = (Ok tt, vm') ->
  reg vm' r = x /\ storage vm' = storage vm /\ memory vm' = memory vm.
Proof.
  intros Hl Hr E. apply bind_inv in E as (u & v & [= _ <-] & E).
  apply bind_inv in E as (u2 & v & E1 & E). apply inc_pc_Ok in E as ->.
  assert (Hg : gas_moved (set_reg vm r x) v).
  { destruct b; [by eapply gas_charge_Ok; [rewrite zlen_set_reg|]|]. injection E1 as _ <-. done. }
  destruct Hg as (Hreg & Hm & Hs & _). split_and!; [|exact Hs|exact Hm].
  rewrite reg_set_ne by (change RegId.PC with 3; lia).
  rewrite Hreg by (change RegId.CGAS with 10; change RegId.GGAS with 9; lia).
  apply reg_set_eq; [done|lia].
Qed.

Lemma state_write_word_exact a rb c vm vm' :
  vm_wf vm -> storage_wf (storage vm) -> frame_inv vm -> RegId.ok rb -> u64_ok c ->
  state_write_word a rb c vm = (Ok tt, vm') ->
  exists d key, running vm = Some d /\ read_bytes (memory vm) a 32 = Ok key /\
    SlotSpec.read_word (slot (storage vm') d) key = (c, true) /\
    slot (storage vm') d key = Some (SlotSpec.word_slot c) /\
    (forall k, k <> key -> slot (storage vm') d k = slot (storage vm) d k) /\
    reg vm' rb = bool_word (bool_decide (slot (storage vm) d key = None)) /\
    only_slots d vm vm' /\ memory vm' = memory vm.
Proof.
  intros Hwf Hs Hfi Hrb Hc E. unfold state_write_word in E.
  apply bind_inv in E as (g & v & [= <- <-] & E).
  apply bind_inv in E as (i & v & E1 & E). apply write_reg_key_Ok in E1 as (-> & Hi & ->).
  apply bind_inv in E as (key & v & E1 & E). apply mem_read_bytes_Ok in E1 as (Hkey & ->).
  apply bind_inv in E as (d & v & E1 & E). apply internal_contract_Ok in E1 as (Hd & ->); [|done..].
  apply bind_inv in E as (prev & v & E1 & E). apply update_storage_Ok in E1 as (s' & E1 & ->).
  unfold storage_result in E1.
  destruct (contract_state_replace _ _ _ _) as [[o s2]|] eqn:Er; [|done]. injection E1 as -> ->.
  change (to_be_bytes 8 c ++ replicate 24 x00) with (SlotSpec.word_slot c) in Er.
  apply slot_replace_spec in Er as (Hw' & Hcode & Hb & Hold & Hnew & Hother); [|done|].
  2:{ unfold slot_ok, SlotSpec.word_slot. by rewrite zlen_app, zlen_to_be_bytes. }
  pose proof (wf_regs _ Hwf) as [Hl _]. unfold RegId.ok in *.
  apply update_tail in E as (Hreg & Hst & Hm); [|done|lia].
  change (storage (set_storage vm s')) with s' in Hst. rewrite Hst, Hm, Hreg.
  assert (Hslot : slot s' d key = Some (SlotSpec.word_slot c)) by (unfold slot; by rewrite Hnew).
  exists d, key. split_and!; try done.
  - unfold SlotSpec.read_word. rewrite Hslot. by rewrite word_slot_read.
  - intros k Hk. unfold slot. rewrite Hother; [done|]. congruence.
  - unfold slot. rewrite Hold. done.
  - unfold only_slots. rewrite Hst. split_and!; try done. intros c' k Hne. apply Hother. congruence.
Qed.
End Words.

(** ** Ranges *)

(** Cutting a whole number of pieces. *)
Lemma chunks_fuel_exact {A} (n : nat) k : forall fuel (l : list A),
  (0 < n)%nat -> length l = (n * k)%nat -> (k <= fuel)%nat ->
  Forall (fun c => length c = n) (chunks_fuel fuel n l) /\
  length (chunks_fuel fuel n l) = k /\ concat (chunks_fuel fuel n l) = l.
Proof.
  induction k as [|k IH]; intros fuel l Hn Hl Hk.
  { rewrite Nat.mul_0_r in Hl. apply nil_length_inv in Hl as ->. by destruct fuel. }
  destruct fuel as [|fuel]; [lia|]. destruct l as [|a l]; [cbn in Hl; lia|].
  cbn [chunks_fuel]. set (r := a :: l) in *.
  destruct (IH fuel (drop n r) Hn) as (Hf & Hlen & Hc); [rewrite length_drop; lia|lia|].
  split_and!; [|cbn; lia|cbn [concat]; by rewrite Hc, take_drop].
  constructor; [|done]. rewrite length_take. lia.
Qed.

Lemma filter_keeps {A} (P : A -> Prop) `{forall x, Decision (P x)} (l : list A) :
  Forall P l -> filter P l = l.
Proof. induction 1; [done|]. rewrite filter_cons_True by done. by f_equal. Qed.

Lemma chunks_exact_whole (l : list byte) k :
  zlen l = 32 * k -> 0 <= k ->
  zlen (chunks_exact 32 l) = k /\ concat (chunks_exact 32 l) = l.
Proof.
  intros Hl Hk. unfold chunks_exact, chunks, zlen in *.
  destruct (chunks_fuel_exact (Z.to_nat 32) (Z.to_nat k) (length l) l) as (Hf & Hlen & Hc); [lia..|].
  rewrite filter_keeps; [split; [lia|done]|].
  eapply Forall_impl; [exact Hf|]. intros c. unfold zlen. cbn. lia.
Qed.

Section Ranges.
Context {S : Type} `{Sha256} `{StateLaws S}.
Implicit Types (vm v : Interpreter S).

Lemma to_usize_Ok x r vm n v :
  lift_panic (S := S) (ok_or (to_usize x) r) vm = (Ok n, v) -> n = x /\ x < U32 /\ v = vm.
Proof.
  intros [E ->]%lift_panic_Ok. unfold to_usize, try_u32 in E. case_if_in E; cbn in E; [|done].
  injection E as <-. split_and!; [done|lia|done].
Qed.

Lemma read_bytes_len a n vm bs :
  vm_wf vm -> u64_ok a -> 0 <= n -> read_bytes (memory vm) a n = Ok bs -> zlen bs = n.
Proof.
  intros Hwf [Ha _] Hn. rewrite read_bytes_eq by (done || apply Hwf).
  by intros (_ & ? & _)%read_inv; [|apply Hwf|..].
Qed.

Lemma state_read_qword_exact a rb c n vm vm' :
  vm_wf vm -> storage_wf (storage vm) -> frame_inv vm -> u64_ok a -> RegId.ok rb -> u64_ok c -> 0 <= n ->
  state_read_qword a rb c n vm = (Ok tt, vm') ->
  exists d key, running vm = Some d /\ read_bytes (memory vm) c 32 = Ok key /\
    storage vm' = storage vm /\
    (from_be_bytes key + n <= key_space ->
     let l := SlotSpec.range (slot (storage vm) d) key n in
     mem_upd (memory vm) a (SlotSpec.range_bytes l) (memory vm') /\
     zlen (SlotSpec.range_bytes l) = 32 * n /\ reg vm' rb = bool_word (SlotSpec.all_set l)).
Proof.
  intros Hwf Hs Hfi [Ha _] Hrb Hc Hn E. unfold state_read_qword in E.
  apply bind_inv in E as (o & v & [= <- <-] & E).
  apply bind_inv in E as (i & v & E1 & E). apply write_reg_key_Ok in E1 as (-> & Hi & ->).
  apply bind_inv in E as (d & v & E1 & E). apply internal_contract_Ok in E1 as (Hd & ->); [|done..].
  apply bind_inv in E as (n' & v & E1 & E). apply to_usize_Ok in E1 as (-> & Hn32 & ->).
  assert (saturating_mul 32 n = 32 * n) as Hsat by (unfold saturating_mul; lia). rewrite Hsat in E.
  apply bind_inv in E as (key & v & E1 & E). apply mem_read_bytes_Ok in E1 as (Hkey & ->).
  assert (Hkl : zlen key = 32) by (by eapply read_bytes_len).
  apply bind_inv in E as (m & v & [= <- <-] & E).
  apply bind_inv in E as (dst & v & E1 & E). apply lift_panic_Ok in E1 as (Hw & ->).
  apply bind_inv in E as (s & v & [= <- <-] & E).
  apply bind_inv in E as (l & v & E1 & E). apply lift_Ok in E1 as (El & ->).
  unfold storage_result in El.
  destruct (contract_state_range (storage vm) d key n) as [l'|] eqn:Er; [|done]. injection El as ->.
  apply bind_inv in E as (u & v & [= _ <-] & E).
  apply bind_inv in E as (u2 & v & E1 & E). apply update_memory_Ok in E1 as (m' & Em & ->).
  apply inc_pc_Ok in E as ->.
  exists d, key. split_and!; try done. intros Hspace.
  pose proof (range_slots _ _ _ _ _ Hs Er) as Hsl. pose proof (range_full _ _ _ _ _ Hs Hkl Hn Er) as Hln.
  apply range_exact in Er; [|done..]. change (slots (storage vm) d key n)
    with (SlotSpec.range (slot (storage vm) d) key n) in Er. subst l. cbn zeta.
  set (l := SlotSpec.range _ _ _) in *.
  assert (Hbl : zlen (SlotSpec.range_bytes l) = 32 * n)
    by (unfold SlotSpec.range_bytes; rewrite zlen_concat_slots by done; lia).
  apply write_inv in Hw as (_ & _ & Hden); [|apply Hwf|done|lia].
  destruct (slice_copy_Ok (memory vm) dst a (32 * n) (SlotSpec.range_bytes l) (wf_mem _ Hwf) Hden Hbl)
    as (m2 & E2 & Hu).
  change (slice_copy_from_slice (memory vm) dst (SlotSpec.range_bytes l) = Ok m') in Em.
  assert (m2 = m') as -> by congruence. split; [exact Hu|]. split; [done|].
  pose proof (wf_regs _ Hwf) as [Hl _]. unfold RegId.ok in *.
  rewrite reg_set_ne by (change RegId.PC with 3; lia).
  change (reg (set_memory (set_reg vm rb _) m') rb) with
    (reg (set_reg vm rb (bool_word (SlotSpec.all_set l))) rb). apply reg_set_eq; [done|lia].
Qed.

Lemma slots_set_update s c k l s' :
  slots_set (S := S) s c k l s' -> SlotSpec.update (slot s c) k l (slot s' c).
Proof. done. Qed.

Lemma state_write_qword_exact a rb c n vm vm' :
  vm_wf vm -> storage_wf (storage vm) -> frame_inv vm -> u64_ok a -> RegId.ok rb -> u64_ok c -> 0 <= n ->
  state_write_qword a rb c n vm = (Ok tt, vm') ->
  exists d key bs, running vm = Some d /\ read_bytes (memory vm) a 32 = Ok key /\
    read (memory vm) c (32 * n) = Ok bs /\ only_slots d vm vm' /\ memory vm' = memory vm /\
    (from_be_bytes key + n <= key_space ->
     exists l, concat l = bs /\ zlen l = n /\ Forall slot_ok l /\
       SlotSpec.update (slot (storage vm) d) key (map Some l) (slot (storage vm') d) /\
       reg vm' rb = SlotSpec.unset_count (SlotSpec.range (slot (storage vm) d) key n)).
Proof.
  intros Hwf Hs Hfi Ha Hrb [Hc Hc'] Hn E. unfold state_write_qword in E.
  apply bind_inv in E as (g & v & [= <- <-] & E).
  apply bind_inv in E as (i & v & E1 & E). apply write_reg_key_Ok in E1 as (-> & Hi & ->).
  apply bind_inv in E as (d & v & E1 & E). apply internal_contract_Ok in E1 as (Hd & ->); [|done..].
  apply bind_inv in E as (key & v & E1 & E). apply mem_read_bytes_Ok in E1 as (Hkey & ->).
  apply bind_inv in E as (bs & v & E1 & E). apply mem_read_Ok in E1 as (Hbs & ->).
  apply bind_inv in E as (k & v & E1 & E). apply update_storage_Ok in E1 as (s' & E1 & ->).
  pose proof (read_bytes_len a 32 vm key Hwf Ha ltac:(lia) Hkey) as Hkl.
  apply read_inv in Hbs as Hlen; [|apply Hwf|done|unfold saturating_mul; lia].
  destruct Hlen as (Hacc & Hlen & _).
  assert (saturating_mul 32 n = 32 * n) as Hsat.
  { destruct Hacc as (_ & _ & Hle & _). change MEM_SIZE with 67108864 in Hle.
    unfold saturating_mul in *. lia. }
  rewrite Hsat in *. destruct (chunks_exact_whole bs n Hlen Hn) as [Hcl Hcc].
  unfold storage_result in E1.
  destruct (contract_state_insert_range _ _ _ _) as [[k' s2]|] eqn:Er; [|done]. injection E1 as -> ->.
  pose proof (chunks_exact_slots bs) as Hok.
  pose proof Er as (Hw' & Hcode & Hb & Hst' & _)%insert_range_frame; [|done..].
  pose proof (wf_regs _ Hwf) as [Hl _]. unfold RegId.ok in *.
  apply update_tail in E as (Hreg & Hst & Hm); [|done|lia].
  change (storage (set_storage vm s')) with s' in Hst.
  exists d, key, bs. unfold only_slots. rewrite Hst, Hm, Hreg. split_and!; try done. intros Hspace.
  apply insert_range_exact in Er as [Hk Hup]; [|done..|lia]. rewrite Hcl in Hk.
  exists (chunks_exact 32 bs). split_and!; try done.
Qed.

Lemma state_clear_qword_exact a rb n vm vm' :
  vm_wf vm -> storage_wf (storage vm) -> frame_inv vm -> u64_ok a -> RegId.ok rb -> 0 <= n ->
  state_clear_qword a rb n vm = (Ok tt, vm') ->
  exists d key, running vm = Some d /\ read_bytes (memory vm) a 32 = Ok key /\
    only_slots d vm vm' /\ memory vm' = memory vm /\
    (from_be_bytes key + n <= key_space ->
     SlotSpec.update (slot (storage vm) d) key (replicate (Z.to_nat n) None) (slot (storage vm') d) /\
     reg vm' rb = bool_word (SlotSpec.all_set (SlotSpec.range (slot (storage vm) d) key n))).
Proof.
  intros Hwf Hs Hfi Ha Hrb Hn E. unfold state_clear_qword in E.
  apply bind_inv in E as (i & v & E1 & E). apply write_reg_key_Ok in E1 as (-> & Hi & ->).
  apply bind_inv in E as (n' & v & E1 & E). apply to_usize_Ok in E1 as (-> & Hn32 & ->).
  apply bind_inv in E as (d & v & E1 & E). apply internal_contract_Ok in E1 as (Hd & ->); [|done..].
  apply bind_inv in E as (key & v & E1 & E). apply mem_read_bytes_Ok in E1 as (Hkey & ->).
  apply bind_inv in E as (b & v & E1 & E). apply update_storage_Ok in E1 as (s' & E1 & ->).
  pose proof (read_bytes_len a 32 vm key Hwf Ha ltac:(lia) Hkey) as Hkl.
  unfold storage_result in E1.
  destruct (contract_state_remove_range _ _ _ _) as [[b' s2]|] eqn:Er; [|done]. injection E1 as -> ->.
  pose proof Er as (Hw' & Hcode & Hb & Hst')%remove_range_frame; [|done..].
  pose proof (wf_regs _ Hwf) as [Hl _]. unfold RegId.ok in *.
  apply (update_tail _ _ false 0) in E as (Hreg & Hst & Hm); [|done|lia].
  change (storage (set_storage vm s')) with s' in Hst.
  exists d, key. unfold only_slots. rewrite Hst, Hm, Hreg. split_and!; try done. intros Hspace.
  by apply remove_range_exact in Er as [-> Hup].
Qed.
End Ranges.

(** ** When the handlers return *)

Section Runs.
Context {S : Type} `{Sha256} `{StateLaws S}.
Implicit Types (vm v : Interpreter S).

(** A contract is running, and the program counter can advance. *)
Record in_contract vm (d : ContractId) : Prop := {
  ic_wf : vm_wf vm;
  ic_storage : storage_wf (storage vm);
  ic_frame : frame_inv vm;
  ic_running : running vm = Some d;
  ic_pc : reg vm RegId.PC + Instruction_SIZE < U64
}.

(** Writable registers are not the reserved ones. *)
#[local] Ltac low_reg := intros ->; match goal with Hr : context [16 <= ?i] |- _ =>
  assert (16 <= i) as Hlow by lia; by apply Hlow end.

Lemma internal_contract_run vm d : in_contract vm d -> get_internal_contract vm = (Ok d, vm).
Proof.
  intros Hi. unfold get_internal_contract, mbind_, gets, internal_contract.
  rewrite frame_inv_current by apply Hi. cbn. by rewrite (ic_running _ _ Hi).
Qed.

Lemma write_reg_key_run r vm :
  16 <= r -> lift_panic (S := S) (write_reg_key r) vm = (Ok r, vm).
Proof. intros Hr. unfold write_reg_key. by case_if; [|unfold RegId.WRITABLE in *; lia]. Qed.

Lemma mem_read_run a n vm bs :
  read (memory vm) a n = Ok bs -> mem_read a n vm = (Ok bs, vm).
Proof. intros E. unfold mem_read, mbind_, gets, lift_panic, lift. by rewrite E. Qed.

Lemma mem_read_bytes_run a n vm bs :
  read_bytes (memory vm) a n = Ok bs -> mem_read_bytes a n vm = (Ok bs, vm).
Proof. intros E. unfold mem_read_bytes, mbind_, gets, lift_panic, lift. by rewrite E. Qed.

Lemma vm_wf_set_storage vm s : vm_wf vm -> vm_wf (set_storage vm s).
Proof. intros []. by split. Qed.

(** The end of an update returns when the charge can be paid. *)
Lemma update_tail_run r x (b : bool) g vm :
  vm_wf vm -> reg vm RegId.PC + Instruction_SIZE < U64 -> 16 <= r < 64 -> u64_ok x -> 0 <= g ->
  (b = true -> g <= reg vm RegId.CGAS) ->
  exists vm', (put_reg r x ;;; (if b then gas_charge g else mret tt) ;;; inc_pc) vm = (Ok tt, vm').
Proof.
  intros Hwf Hpc Hr Hx Hg Hb.
  assert (Hf : free_reg r) by (unfold free_reg; split_and!; [lia|lia|low_reg..]).
  destruct (safe_put_reg (S := S) r x Hf Hx vm Hwf I) as [Hwf' _].
  erewrite mbind_Ok by done.
  assert (Hc : reg (set_reg vm r x) RegId.CGAS = reg vm RegId.CGAS)
    by (apply reg_set_ne; [lia|low_reg]).
  assert (Hp : reg (set_reg vm r x) RegId.PC = reg vm RegId.PC)
    by (apply reg_set_ne; [lia|low_reg]).
  destruct b; [|erewrite mbind_Ok by done; rewrite inc_pc_eq; [eauto|by rewrite Hp]].
  erewrite mbind_Ok.
  2:{ rewrite gas_charge_eq by done. rewrite Hc. case_if; [done|]. specialize (Hb eq_refl). lia. }
  rewrite inc_pc_eq; [eauto|]. rewrite reg_set_gas_regs; [|apply wf_regs; exact Hwf'].
  case_if; [done|]. case_if; [done|]. by rewrite Hp.
Qed.

Lemma state_read_word_run ra rb c vm d key o :
  in_contract vm d -> 16 <= ra -> 16 <= rb -> ra <> rb -> ra < 64 -> rb < 64 ->
  read_bytes (memory vm) c 32 = Ok key -> contract_state (storage vm) d key = Some o ->
  exists vm', state_read_word ra rb c vm = (Ok tt, vm').
Proof.
  intros Hi Ha Hb Hne Ha' Hb' Hk Ho. unfold state_read_word.
  erewrite mbind_Ok by (by apply write_reg_key_run).
  erewrite mbind_Ok by (by apply write_reg_key_run).
  case_if; [lia|]. erewrite mbind_Ok by (by apply mem_read_bytes_run).
  erewrite mbind_Ok by (by apply internal_contract_run). erewrite mbind_Ok by done.
  erewrite mbind_Ok by (unfold storage_result; by rewrite Ho).
  change (match o with Some bytes => _ | None => _ end) with (slot_word (S := S) o).
  assert (exists w, slot_word o vm = (Ok w, vm)) as [w Hw].
  { destruct o as [bs|]; [|by eexists]. unfold slot_word.
    assert (Hbs : slot_ok bs) by (eapply slot_range; [apply Hi|done]). unfold slot_ok in Hbs.
    unfold index_range. rewrite (proj2 (Z.leb_le 8 (zlen bs))) by lia. by eexists. }
  erewrite mbind_Ok by done. erewrite mbind_Ok by done. erewrite mbind_Ok by done.
  rewrite inc_pc_eq; [eauto|]. rewrite !reg_set_ne; [apply Hi|lia|low_reg|lia|low_reg].
Qed.

Lemma state_write_word_run a rb c vm d key p :
  in_contract vm d -> 16 <= rb < 64 -> read_bytes (memory vm) a 32 = Ok key ->
  contract_state_replace (storage vm) d key (SlotSpec.word_slot c) = Some p ->
  saturating_mul 64 (word_cost (gas_costs vm) g_new_storage_per_byte) <= reg vm RegId.CGAS ->
  exists vm', state_write_word a rb c vm = (Ok tt, vm').
Proof.
  intros Hi Hb Hk Hp Hg. unfold state_write_word. erewrite mbind_Ok by done.
  erewrite mbind_Ok by (apply write_reg_key_run; lia). erewrite mbind_Ok by (by apply mem_read_bytes_run).
  erewrite mbind_Ok by (by apply internal_contract_run). cbn zeta.
  change (to_be_bytes 8 c ++ replicate 24 x00) with (SlotSpec.word_slot c).
  destruct p as [prev s']. erewrite mbind_Ok by (unfold update_storage; by rewrite Hp).
  change (saturating_mul 32 2) with 64. pose proof (proj1 (wf_costs vm (ic_wf _ _ Hi)) g_new_storage_per_byte).
  apply update_tail_run; [apply vm_wf_set_storage, Hi|apply Hi|done| |unfold saturating_mul, u64_ok in *; lia|done].
  unfold u64_ok. by case_bool_decide.
Qed.

Lemma to_usize_run x r vm : x < U32 -> lift_panic (S := S) (ok_or (to_usize x) r) vm = (Ok x, vm).
Proof. intros Hx. unfold to_usize, try_u32. by case_if; [|lia]. Qed.

Lemma state_read_qword_run a rb c n vm d key l :
  in_contract vm d -> u64_ok c -> 16 <= rb < 64 -> 0 <= n < U32 -> read_bytes (memory vm) c 32 = Ok key ->
  accessible (memory vm) a (32 * n) ->
  has_ownership_range (ownership_registers vm) (mkRange a (a + 32 * n)) = true ->
  contract_state_range (storage vm) d key n = Some l ->
  exists vm', state_read_qword a rb c n vm = (Ok tt, vm').
Proof.
  intros Hi Hc Hb Hn Hk Hacc Hown Hl. unfold state_read_qword.
  erewrite mbind_Ok by done. erewrite mbind_Ok by (apply write_reg_key_run; lia).
  erewrite mbind_Ok by (by apply internal_contract_run).
  erewrite mbind_Ok by (apply to_usize_run; lia). cbn zeta.
  assert (saturating_mul 32 n = 32 * n) as Hsat by (unfold saturating_mul; lia).
  rewrite Hsat. erewrite mbind_Ok by (by apply mem_read_bytes_run). erewrite mbind_Ok by done.
  destruct (write_Ok (memory vm) (ownership_registers vm) a (32 * n) (wf_mem _ (ic_wf _ _ Hi)) Hacc Hown)
    as (dst & Hw & Hden).
  erewrite mbind_Ok by (unfold lift_panic, lift; by rewrite Hw). erewrite mbind_Ok by done.
  erewrite mbind_Ok by (unfold storage_result; by rewrite Hl). erewrite mbind_Ok by done.
  assert (Hkl : zlen key = 32) by (by eapply read_bytes_len; [apply Hi|..]).
  pose proof (range_slots _ _ _ _ _ (ic_storage _ _ Hi) Hl) as Hsl.
  pose proof (range_full _ _ _ _ _ (ic_storage _ _ Hi) Hkl (proj1 Hn) Hl) as Hln.
  destruct (slice_copy_Ok (memory vm) dst a (32 * n) (concat (map (default zeroed) l))
    (wf_mem _ (ic_wf _ _ Hi)) Hden) as (m2 & E2 & _); [rewrite zlen_concat_slots by done; lia|].
  erewrite mbind_Ok by (unfold update_memory; change (memory (set_reg _ _ _)) with (memory vm); by rewrite E2).
  rewrite inc_pc_eq; [eauto|]. change (reg (set_memory ?v m2)) with (reg v).
  rewrite reg_set_ne; [apply Hi|lia|low_reg].
Qed.

Lemma state_write_qword_run a rb c n vm d key bs k s' :
  in_contract vm d -> 16 <= rb < 64 -> 0 <= n -> read_bytes (memory vm) a 32 = Ok key ->
  read (memory vm) c (saturating_mul 32 n) = Ok bs ->
  contract_state_insert_range (storage vm) d key (chunks_exact 32 bs) = Some (k, s') -> u64_ok k ->
  saturating_mul (saturating_mul (saturating_mul k 2) 32)
    (word_cost (gas_costs vm) g_new_storage_per_byte) <= reg vm RegId.CGAS ->
  exists vm', state_write_qword a rb c n vm = (Ok tt, vm').
Proof.
  intros Hi Hb Hn Hk Hbs Hp Hk' Hg. unfold state_write_qword. erewrite mbind_Ok by done.
  erewrite mbind_Ok by (apply write_reg_key_run; lia).
  erewrite mbind_Ok by (by apply internal_contract_run). erewrite mbind_Ok by (by apply mem_read_bytes_run).
  erewrite mbind_Ok by (by apply mem_read_run).
  erewrite mbind_Ok by (unfold update_storage; by rewrite Hp).
  pose proof (proj1 (wf_costs vm (ic_wf _ _ Hi)) g_new_storage_per_byte).
  apply update_tail_run; [apply vm_wf_set_storage, Hi|apply Hi|done|done| |done].
  unfold saturating_mul, u64_ok in *. nia.
Qed.

(** What an insertion of [n] whole slots may cost. *)
Lemma insert_run_gas vm c n bs k key d s' :
  in_contract vm d -> u64_ok c -> 0 <= n -> read (memory vm) c (32 * n) = Ok bs ->
  contract_state_insert_range (storage vm) d key (chunks_exact 32 bs) = Some (k, s') ->
  saturating_mul (64 * n) (word_cost (gas_costs vm) g_new_storage_per_byte) <= reg vm RegId.CGAS ->
  read (memory vm) c (saturating_mul 32 n) = Ok bs /\ u64_ok k /\
  saturating_mul (saturating_mul (saturating_mul k 2) 32)
    (word_cost (gas_costs vm) g_new_storage_per_byte) <= reg vm RegId.CGAS.
Proof.
  intros Hi [Hc _] Hn Hr Hp Hg. apply read_inv in Hr as Hlen; [|apply Hi|done|lia].
  destruct Hlen as ((_ & _ & Hle & _) & Hlen & _). change MEM_SIZE with 67108864 in Hle.
  replace (saturating_mul 32 n) with (32 * n) by (unfold saturating_mul; lia).
  destruct (chunks_exact_whole bs n Hlen Hn) as [Hcl _].
  apply insert_range_frame in Hp as (_ & _ & _ & _ & Hk); [|apply Hi|apply chunks_exact_slots].
  pose proof (proj1 (wf_costs vm (ic_wf _ _ Hi)) g_new_storage_per_byte) as Hw.
  rewrite Hcl in Hk. split_and!; [done|unfold u64_ok; lia|].
  set (w := word_cost _ _) in *. unfold saturating_mul, u64_ok in *.
  assert (Z.min (Z.min (k * 2) (U64 - 1) * 32) (U64 - 1) <= 64 * n) by lia. nia.
Qed.

Lemma state_clear_qword_run a rb n vm d key p :
  in_contract vm d -> 16 <= rb < 64 -> n < U32 -> read_bytes (memory vm) a 32 = Ok key ->
  contract_state_remove_range (storage vm) d key n = Some p ->
  exists vm', state_clear_qword a rb n vm = (Ok tt, vm').
Proof.
  intros Hi Hb Hn Hk Hp. unfold state_clear_qword.
  erewrite mbind_Ok by (apply write_reg_key_run; lia).
  erewrite mbind_Ok by (by apply to_usize_run). erewrite mbind_Ok by (by apply internal_contract_run).
  erewrite mbind_Ok by (by apply mem_read_bytes_run). destruct p as [b s'].
  erewrite mbind_Ok by (unfold update_storage; by rewrite Hp).
  apply (update_tail_run _ _ false 0); [apply vm_wf_set_storage, Hi|apply Hi|done|apply bool_word_ok|done|done].
Qed.
End Runs.

(** ** The refinement *)

#[local] Ltac same_value H H' := rewrite H in H'; injection H' as <-.


(** [SRW] and [SWW] implement reading and writing a word of the running contract's map
    of slots. With writable registers, a readable key, a storage that answers and, for a
    write, the gas for a new slot, the instructions return: [SRW] yields the first word of
    the slot and whether it is set and changes neither storage nor memory; [SWW] sets exactly
    that slot, so that the word reads back, reports whether the slot was created, and leaves
    the other slots, the code, the balances and the state of other contracts alone. *)
Theorem state_words_refine {S} `{Sha256} `{StateLaws S} (vm : Interpreter S) (d : ContractId) :
  in_contract vm d ->
  (forall ra rb c key o,
     16 <= ra < 64 -> 16 <= rb < 64 -> ra <> rb -> read_bytes (memory vm) c 32 = Ok key ->
     contract_state (storage vm) d key = Some o ->
     exists vm', state_read_word ra rb c vm = (Ok tt, vm') /\
       SlotSpec.read_word (slot (storage vm) d) key = (reg vm' ra, negb (reg vm' rb =? 0)) /\
       storage vm' = storage vm /\ memory vm' = memory vm) /\
  (forall a rb w key p,
     16 <= rb < 64 -> u64_ok w -> u64_ok a -> read_bytes (memory vm) a 32 = Ok key ->
     contract_state_replace (storage vm) d key (SlotSpec.word_slot w) = Some p ->
     saturating_mul 64 (word_cost (gas_costs vm) g_new_storage_per_byte) <= reg vm RegId.CGAS ->
     exists vm', state_write_word a rb w vm = (Ok tt, vm') /\
       SlotSpec.read_word (slot (storage vm') d) key = (w, true) /\
       SlotSpec.update (slot (storage vm) d) key [Some (SlotSpec.word_slot w)] (slot (storage vm') d) /\
       reg vm' rb = bool_word (bool_decide (slot (storage vm) d key = None)) /\
       only_slots d vm vm' /\ memory vm' = memory vm).
Proof.
  intros Hi. pose proof Hi as [Hwf Hs Hf Hd Hpc]. split.
  - intros ra rb c key o Ha Hb Hne Hk Ho.
    destruct (state_read_word_run ra rb c vm d key o) as [vm' E]; try done || lia. exists vm'.
    split; [done|]. apply state_read_word_exact in E as (d' & key' & Hd' & Hk' & E); try done || (unfold RegId.ok; lia).
    same_value Hd Hd'. same_value Hk Hk'. done.
  - intros a rb w key p Hb Hw Ha Hk Hp Hg.
    destruct (state_write_word_run a rb w vm d key p) as [vm' E]; try done. exists vm'.
    split; [done|].
    apply state_write_word_exact in E as (d' & key' & Hd' & Hk' & Hr & Hn & Ho & E); try done || (unfold RegId.ok; lia).
    same_value Hd Hd'. same_value Hk Hk'. split_and!; try apply E; [done|]. apply update_single; [|done..].
    by eapply read_bytes_len.
Qed.

(** [SRWQ], [SWWQ] and [SCWQ] implement reading, writing and clearing a range of the
    running contract's map of slots that does not pass the last key. Under the same
    conditions they return: [SRWQ] writes the bytes of the slots, zeros for unset ones, to
    owned memory and reports whether all are set; [SWWQ] sets the slots of the range to the
    consecutive 32-byte pieces of the source and counts those that were unset; [SCWQ] unsets
    them and reports whether all were set. Nothing else in the storage changes. *)
Theorem state_ranges_refine {S} `{Sha256} `{StateLaws S} (vm : Interpreter S) (d : ContractId) :
  in_contract vm d ->
  (forall a rb c n key o,
     u64_ok a -> u64_ok c -> 16 <= rb < 64 -> 0 <= n < U32 -> read_bytes (memory vm) c 32 = Ok key ->
     from_be_bytes key + n <= key_space -> accessible (memory vm) a (32 * n) ->
     has_ownership_range (ownership_registers vm) (mkRange a (a + 32 * n)) = true ->
     contract_state_range (storage vm) d key n = Some o ->
     exists vm', state_read_qword a rb c n vm = (Ok tt, vm') /\
       let l := SlotSpec.range (slot (storage vm) d) key n in
       mem_upd (memory vm) a (SlotSpec.range_bytes l) (memory vm') /\
       zlen (SlotSpec.range_bytes l) = 32 * n /\ reg vm' rb = bool_word (SlotSpec.all_set l) /\
       storage vm' = storage vm) /\
  (forall a rb c n key bs k s',
     u64_ok a -> u64_ok c -> 16 <= rb < 64 -> 0 <= n -> read_bytes (memory vm) a 32 = Ok key ->
     from_be_bytes key + n <= key_space -> read (memory vm) c (32 * n) = Ok bs ->
     contract_state_insert_range (storage vm) d key (chunks_exact 32 bs) = Some (k, s') ->
     saturating_mul (64 * n) (word_cost (gas_costs vm) g_new_storage_per_byte) <= reg vm RegId.CGAS ->
     exists vm' l, state_write_qword a rb c n vm = (Ok tt, vm') /\
       concat l = bs /\ zlen l = n /\ Forall slot_ok l /\
       SlotSpec.update (slot (storage vm) d) key (map Some l) (slot (storage vm') d) /\
       reg vm' rb = SlotSpec.unset_count (SlotSpec.range (slot (storage vm) d) key n) /\
       only_slots d vm vm' /\ memory vm' = memory vm) /\
  (forall a rb n key p,
     u64_ok a -> 16 <= rb < 64 -> 0 <= n < U32 -> read_bytes (memory vm) a 32 = Ok key ->
     from_be_bytes key + n <= key_space -> contract_state_remove_range (storage vm) d key n = Some p ->
     exists vm', state_clear_qword a rb n vm = (Ok tt, vm') /\
       SlotSpec.update (slot (storage vm) d) key (replicate (Z.to_nat n) None) (slot (storage vm') d) /\
       reg vm' rb = bool_word (SlotSpec.all_set (SlotSpec.range (slot (storage vm) d) key n)) /\
       only_slots d vm vm' /\ memory vm' = memory vm).
Proof.
  intros Hi. pose proof Hi as [Hwf Hs Hf Hd Hpc]. split_and!.
  - intros a rb c n key o Ha Hc Hb Hn Hk Hspace Hacc Hown Ho.
    destruct (state_read_qword_run a rb c n vm d key o) as [vm' E]; try done. exists vm'.
    split; [done|].
    apply state_read_qword_exact in E as (d' & key' & Hd' & Hk' & Hst & E); try done || (unfold RegId.ok; lia).
    same_value Hd Hd'. same_value Hk Hk'. destruct (E Hspace) as (? & ? & ?). done.
  - intros a rb c n key bs k s' Ha Hc Hb Hn Hk Hspace Hbs Hp Hg.
    destruct (insert_run_gas vm c n bs k key d s') as (Hread & Hk' & Hg'); try done.
    destruct (state_write_qword_run a rb c n vm d key bs k s') as [vm' E]; try done. exists vm'.
    pose proof E as (d' & key' & bs' & Hd' & Hk2 & Hbs' & Ho & Hm & E')%state_write_qword_exact;
      try done || (unfold RegId.ok; lia).
    same_value Hd Hd'. same_value Hk Hk2. same_value Hbs Hbs'. destruct (E' Hspace) as (l & ? & ? & ? & ? & ?). by exists l.
  - intros a rb n key p Ha Hb Hn Hk Hspace Hp.
    destruct (state_clear_qword_run a rb n vm d key p) as [vm' E]; try done || lia. exists vm'.
    split; [done|].
    apply state_clear_qword_exact in E as (d' & key' & Hd' & Hk' & Ho & Hm & E); try done || (unfold RegId.ok; lia).
    same_value Hd Hd'. same_value Hk Hk'. destruct (E Hspace). done.
Qed.

#[local] Existing Instances sha_identity powf_zero powf_zero_law wide_std wide_std_laws tai64_zero crypto_none.

(** The contract called by [vm_run] at its first instruction, and the conditions of the
    theorems for the key at address 0. *)
Definition state_ok (v : Interpreter SlotStorage) : bool :=
  bool_decide (running v = Some zeroed) && (reg v RegId.PC + Instruction_SIZE <? U64) &&
  (saturating_mul 64 (word_cost (gas_costs v) g_new_storage_per_byte) <=? reg v RegId.CGAS) &&
  match read_bytes (memory v) 0 32 with
  | Ok k =>
      (from_be_bytes k + 1 <=? key_space) &&
      bool_decide (is_Some (contract_state_replace (storage v) zeroed k (SlotSpec.word_slot 77))) &&
      bool_decide (is_Some (contract_state_remove_range (storage v) zeroed k 1))
  | _ => false
  end.

Lemma called_contract : exists vm, in_contract vm zeroed /\ state_ok vm = true.
Proof.
  assert (Hc : after 1 state_ok vm_run = true) by (vm_compute; reflexivity).
  unfold after in Hc. destruct (iterate 1 vm_run) as [vm|] eqn:E; [|discriminate].
  destruct (reachable_inv vm_run vm vm_run_inv (iterate_rtc 1 _ _ E)) as [Hi _].
  exists vm. split; [|done]. pose proof Hc as Hr. unfold state_ok in Hr.
  rewrite !andb_true_iff in Hr. destruct Hr as [[[Hr Hpc] _] _].
  split; [apply Hi|apply Hi|by apply call_inv_frame_inv, Hi|by apply bool_decide_eq_true in Hr|lia].
Qed.

Lemma state_words_refine_witness :
  exists (vm vm' : Interpreter SlotStorage) key,
    state_write_word 0 16 77 vm = (Ok tt, vm') /\
    SlotSpec.read_word (slot (storage vm') zeroed) key = (77, true).
Proof.
  destruct called_contract as (vm & Hi & Hc). unfold state_ok in Hc. rewrite andb_true_iff in Hc.
  destruct Hc as [Hc Hk]. destruct (read_bytes (memory vm) 0 32) as [key| |] eqn:Er; try discriminate.
  rewrite !andb_true_iff in Hk, Hc. destruct Hk as [[_ Hp%bool_decide_eq_true] _], Hc as [_ Hg].
  destruct Hp as [p Hp].
  destruct (state_words_refine vm zeroed Hi) as [_ Hw].
  destruct (Hw 0 16 77 key p) as (vm' & E & Hr & _);
    [lia|split; [discriminate|reflexivity]|split; [discriminate|reflexivity]|exact Er|exact Hp|lia|].
  exists vm, vm', key. split; [exact E|exact Hr].
Defined.

Lemma state_ranges_refine_witness :
  exists (vm vm' : Interpreter SlotStorage) key,
    state_clear_qword 0 16 1 vm = (Ok tt, vm') /\ slot (storage vm') zeroed (key_add key 0) = None.
Proof.
  destruct called_contract as (vm & Hi & Hc). unfold state_ok in Hc. rewrite andb_true_iff in Hc.
  destruct Hc as [_ Hk]. destruct (read_bytes (memory vm) 0 32) as [key| |] eqn:Er; try discriminate.
  rewrite !andb_true_iff in Hk. destruct Hk as [[Hs _] Hp%bool_decide_eq_true]. destruct Hp as [p Hp].
  destruct (state_ranges_refine vm zeroed Hi) as (_ & _ & Hw).
  destruct (Hw 0 16 1 key p) as (vm' & E & [Hu _] & _);
    [split; [discriminate|reflexivity]|lia|lia|exact Er|apply Z.leb_le; exact Hs|exact Hp|].
  exists vm, vm', key. split; [exact E|]. unfold SlotSpec.range in Hu.
  change (seqZ 0 _) with [0] in Hu. cbn [map] in Hu.
  exact (f_equal (fun l => match l with o :: _ => o | [] => Some [] end) Hu).
Defined.
