(* ===== verification/Bisim.v ===== *)
(** * Runs do not depend on dead memory

    The heap buffer of a [MemoryInstance] is kept across resets
    (src/fuel-vm/src/interpreter/memory.rs), so a machine that is used again still holds bytes of
    its previous run. Two memories that agree on the stack and on the live heap are equivalent
    ([mem_sim]); this file shows that every operation on memory, every instruction handler and
    the loops of Run respect the equivalence, whatever the buffers hold beyond the live heap.
    Client components use it to replace a used memory by a fresh one. *)

From Stdlib Require Import Strings.Byte.
From S2P Require Import Prelude Asm Merkle Receipts Memory State Gas Alu.
From S2P Require Import MemOps WideInt Storage Flow Calls Blockchain Crypto Opcodes Steps Run.

(** ** Equivalent memories *)

(** The buffers end in the same live heap; what precedes it differs. *)
Record mem_sim (m m' : MemoryInstance) : Prop := {
  sim_wf : mem_wf m;
  sim_wf' : mem_wf m';
  sim_stack : stack m' = stack m;
  sim_hp : mhp m' = mhp m;
  sim_live : exists dead dead' live, heap m = dead ++ live /\ heap m' = dead' ++ live /\ zlen live = MEM_SIZE - mhp m
}.

#[export] Instance mem_sim_sym : Symmetric mem_sim.
Proof.
  intros m m' [H1 H2 H3 H4 (d & d' & l & E & E' & Hl)]. split; try done. exists d', d, l. split_and!; [done..|lia].
Qed.

Lemma mem_sim_refl m : mem_wf m -> mem_sim m m.
Proof.
  intros Hm. split; try done. pose proof Hm as [].
  exists (take (Z.to_nat (zlen (heap m) - (MEM_SIZE - mhp m))) (heap m)),
    (take (Z.to_nat (zlen (heap m) - (MEM_SIZE - mhp m))) (heap m)),
    (drop (Z.to_nat (zlen (heap m) - (MEM_SIZE - mhp m))) (heap m)). rewrite !take_drop. split_and!; [done..|].
  unfold zlen in *. rewrite length_drop. lia.
Qed.

#[export] Instance mem_sim_trans : Transitive mem_sim.
Proof.
  intros m1 m2 m3 [A1 A2 A3 A4 (d & d' & l & E & E' & Hl)] [B1 B2 B3 B4 (f & f' & k & F & F' & Hk)].
  split; try done; [congruence..|]. exists d, f', l. split_and!; [done| |lia].
  rewrite E' in F. apply app_inj_2 in F as [_ ->]; [done|]. unfold zlen in *. lia.
Qed.

(** Nothing of a used memory is left after a reset. *)
Lemma reset_sim m m' : mem_wf m -> mem_wf m' -> mem_sim (reset m) (reset m').
Proof.
  intros Hm Hm'. split; [by apply reset_wf..|done|done|]. exists (heap m), (heap m'), [].
  rewrite !app_nil_r. split_and!; done.
Qed.

(** *** Ranges of a buffer that lie in its live part *)

Section Suffix.
Context {A : Type}.
Implicit Types (d l : list A).

Lemma zget_suffix d l i : 0 <= i -> zget (d ++ l) (i + zlen d) = zget l i.
Proof. intros Hi. rewrite zget_app. pose proof (zlen_nonneg d). case_if; [lia|]. f_equal. lia. Qed.

Lemma zslice_suffix d l a b : 0 <= a -> zslice (d ++ l) (a + zlen d) (b + zlen d) = zslice l a b.
Proof.
  intros Ha. unfold zslice. replace (b + zlen d - (a + zlen d)) with (b - a) by lia. f_equal.
  unfold zlen. rewrite drop_app_ge by lia. f_equal. lia.
Qed.

Lemma zsplice_suffix d l a x : 0 <= a -> zsplice (d ++ l) (a + zlen d) x = d ++ zsplice l a x.
Proof.
  intros Ha. unfold zsplice, zlen. rewrite take_app_ge by lia. rewrite <- app_assoc. f_equal.
  rewrite drop_app_ge by lia. f_equal; [f_equal; lia|]. f_equal. f_equal. lia.
Qed.

Lemma index_suffix {E} d l a b :
  0 <= a -> index_range (E := E) (d ++ l) (a + zlen d) (b + zlen d) = index_range l a b.
Proof.
  intros Ha. unfold index_range. rewrite zslice_suffix, zlen_app by done. pose proof (zlen_nonneg d).
  repeat case_if; zbool; try lia; done.
Qed.
End Suffix.

(** ** Relating results *)

Definition outcome_rel {E A B} (R : A -> B -> Prop) (x : outcome E A) (y : outcome E B) : Prop :=
  match x, y with
  | Ok a, Ok b => R a b
  | Err e, Err e' => e = e'
  | Crash, Crash => True
  | _, _ => False
  end.

Lemma outcome_rel_bind {E A A' B B'} (R : A -> A' -> Prop) (Q : B -> B' -> Prop) (x : outcome E A) y f g :
  outcome_rel R x y -> (forall a b, R a b -> outcome_rel Q (f a) (g b)) -> outcome_rel Q (obind x f) (obind y g).
Proof. destruct x, y; cbn; try done; auto. Qed.

Lemma outcome_rel_map_err {E F A B} (R : A -> B -> Prop) (h : E -> F) (x : outcome E A) y :
  outcome_rel R x y -> outcome_rel R (omap_err h x) (omap_err h y).
Proof. destruct x, y; cbn; try done. congruence. Qed.

Lemma outcome_rel_eq {E A} (x y : outcome E A) : x = y -> outcome_rel eq x y.
Proof. intros ->. by destruct y. Qed.

(** ** Memory operations *)

Section Memory.
Implicit Types (m : MemoryInstance).

Lemma sim_verify m m' a n : mem_sim m m' -> verify m' a n = verify m a n.
Proof. intros []. unfold verify. by rewrite sim_stack0, sim_hp0. Qed.

(** A verified range that is not in the stack lies in the live heap. *)
Lemma verify_heap m a n r :
  mem_wf m -> verify m a n = Ok r -> zlen (stack m) < r_end r -> mhp m <= r_start r.
Proof.
  intros Hm. unfold verify, to_addr, obind. repeat (case_if; try done). intros [= <-]. cbn. lia.
Qed.

(** The offset of an address in the two buffers. *)
Lemma sim_offsets m m' :
  mem_sim m m' -> exists dead dead' live, heap m = dead ++ live /\ heap m' = dead' ++ live /\
    zlen live = MEM_SIZE - mhp m /\ heap_offset m = mhp m - zlen dead /\ heap_offset m' = mhp m - zlen dead'.
Proof.
  intros [Hm Hm' Hs Hh (d & d' & l & E & E' & Hl)]. exists d, d', l. split_and!; [done..| |];
    rewrite heap_offset_wf by done; rewrite ?E, ?E', zlen_app; lia.
Qed.

Lemma live_ofs x hp n : x - (hp - n) = x - hp + n.
Proof. lia. Qed.

(** Offsets of addresses of the live heap in a buffer with [n] dead bytes. *)
Lemma usub_live {E B} (a b hp n : Z) (f : Z -> Z -> outcome E B) :
  hp <= a -> 0 <= n -> (forall x y, y < x -> f x y = Crash) ->
  (let? start := usub a (hp - n) in let? end_ := usub b (hp - n) in f start end_) = f (a - hp + n) (b - hp + n).
Proof.
  intros Ha Hn Hf. unfold usub. rewrite (proj2 (Z.leb_le _ _)) by lia. cbn [obind]. case_if; cbn [obind]; [f_equal; lia|].
  rewrite Hf; [done|lia].
Qed.

Lemma index_range_neg {E A} (l : list A) a b : b < a -> index_range (E := E) l a b = Crash.
Proof. intros Hb. unfold index_range. case_if; [lia|done]. Qed.

Lemma sim_read m m' a n : mem_sim m m' -> read m' a n = read m a n.
Proof.
  intros Hs. unfold read. rewrite (sim_verify m m') by done. destruct (verify m a n) as [r| |] eqn:Ev; [|done..].
  cbn [obind]. rewrite (sim_stack _ _ Hs). case_if; [done|].
  pose proof (verify_heap m a n r (sim_wf _ _ Hs) Ev ltac:(lia)) as Hr.
  destruct (sim_offsets m m' Hs) as (d & d' & l & E1 & E2 & Hl & Ho & Ho'). rewrite Ho, Ho', E1, E2.
  pose proof (zlen_nonneg d). pose proof (zlen_nonneg d'). rewrite !(proj2 (Z.leb_le _ _)) by lia.
  rewrite !usub_live by (lia || intros; by apply index_range_neg). by rewrite !index_suffix by lia.
Qed.

Lemma sim_read_bytes m m' a n : mem_sim m m' -> read_bytes m' a n = read_bytes m a n.
Proof. intros Hs. unfold read_bytes. by rewrite (sim_read m m'). Qed.

(** Slices of the two memories that denote the same addresses. *)
Definition slice_sim m m' (s s' : SliceMut) : Prop :=
  match s_region s, s_region s' with
  | StackRegion, StackRegion => s_start s' = s_start s /\ s_end s' = s_end s
  | HeapRegion, HeapRegion => mhp m - heap_offset m <= s_start s /\
      s_start s' + heap_offset m' = s_start s + heap_offset m /\ s_end s' + heap_offset m' = s_end s + heap_offset m
  | _, _ => False
  end.

Lemma slice_sim_len m m' s s' : slice_sim m m' s s' -> slice_len s' = slice_len s.
Proof. unfold slice_sim, slice_len. destruct (s_region s), (s_region s'); intros Hs; try done; lia. Qed.

Lemma sim_write_noownerchecks m m' a n :
  mem_sim m m' -> 0 <= n ->
  outcome_rel (slice_sim m m') (write_noownerchecks m a n) (write_noownerchecks m' a n).
Proof.
  intros Hs Hn. unfold write_noownerchecks. rewrite (sim_verify m m') by done.
  destruct (verify m a n) as [r|e|] eqn:Ev; [|done..]. cbn [obind]. rewrite (sim_stack _ _ Hs). case_if; [done|].
  pose proof (verify_heap m a n r (sim_wf _ _ Hs) Ev ltac:(lia)) as Hr.
  assert (Hlen : r_start r <= r_end r).
  { revert Ev. unfold verify, to_addr, obind, saturating_add. repeat (case_if; try done); intros [= <-]; cbn; mem_lia. }
  destruct (sim_offsets m m' Hs) as (d & d' & l & E1 & E2 & Hl & Ho & Ho').
  pose proof (zlen_nonneg d). pose proof (zlen_nonneg d'). rewrite !(proj2 (Z.leb_le _ _)) by lia.
  unfold usub. rewrite !(proj2 (Z.leb_le _ _)) by lia. cbn. lia.
Qed.

Lemma sim_write m m' o a n :
  mem_sim m m' -> outcome_rel (slice_sim m m') (write m o a n) (write m' o a n).
Proof.
  intros Hs. unfold write. rewrite (sim_verify m m') by done. destruct (verify m a n) as [r|e|]; [|done..]. cbn [obind].
  destruct (verify_ownership o r); [|done..]. cbn [obind]. apply sim_write_noownerchecks; [done|].
  unfold range_len. case_if; lia.
Qed.

(** Writing to the live part of a buffer. *)
Lemma copy_suffix {E} (d l : list byte) a b x :
  0 <= a ->
  copy_from_slice (E := E) (d ++ l) (a + zlen d) (b + zlen d) x = let? l' := copy_from_slice l a b x in Ok (d ++ l').
Proof.
  intros Ha. unfold copy_from_slice. rewrite zsplice_suffix, zlen_app by done. pose proof (zlen_nonneg d).
  repeat case_if; cbn; try done; try lia.
Qed.
Lemma copy_from_slice_len {E} (l : list byte) a b x l' :
  copy_from_slice (E := E) l a b x = Ok l' -> zlen l' = zlen l.
Proof. unfold copy_from_slice. case_if; [|done]. intros [= <-]. rewrite zlen_splice; lia. Qed.

(** A change of the live heap, or of the stack. *)
Lemma sim_set_heap m m' d d' l :
  mem_sim m m' -> zlen l = MEM_SIZE - mhp m -> zlen (d ++ l) = zlen (heap m) -> zlen (d' ++ l) = zlen (heap m') ->
  mem_sim (mkMemory (stack m) (d ++ l) (mhp m)) (mkMemory (stack m') (d' ++ l) (mhp m')).
Proof.
  intros [[] [] Hs Hh _] Hl Hd Hd'. rewrite Hs, Hh in *.
  split; cbn; [split; cbn; lia..|done|done|]. by exists d, d', l.
Qed.
Lemma sim_set_stack m m' st :
  mem_sim m m' -> zlen st <= mhp m -> mem_sim (mkMemory st (heap m) (mhp m)) (mkMemory st (heap m') (mhp m')).
Proof.
  intros [[] [] Hs Hh Hl] Hst. rewrite Hh in *. split; cbn; [split; cbn; lia..|done|done|done].
Qed.

Lemma sim_slice_copy m m' s s' x :
  mem_sim m m' -> slice_sim m m' s s' ->
  outcome_rel (fun n n' => mem_sim n n' /\ same_shape m n /\ same_shape m' n')
    (slice_copy_from_slice m s x) (slice_copy_from_slice m' s' x).
Proof.
  intros Hs Hsl. unfold slice_copy_from_slice. unfold slice_sim in Hsl.
  destruct (s_region s), (s_region s'); try done.
  - destruct Hsl as [-> ->]. rewrite (sim_stack _ _ Hs).
    destruct (copy_from_slice (stack m) _ _ x) as [st|e|] eqn:E; [|done..]. cbn.
    pose proof (copy_from_slice_len _ _ _ _ _ E) as Hl. split; [|split; split_and!; cbn; rewrite ?Hl, ?(sim_stack _ _ Hs); done].
    apply sim_set_stack; [done|]. rewrite Hl. apply (sim_wf _ _ Hs).
  - destruct (sim_offsets m m' Hs) as (d & d' & l & E1 & E2 & Hl & Ho & Ho'). destruct Hsl as (H1 & H2 & H3).
    replace (s_start s) with (s_start s - zlen d + zlen d) by lia. replace (s_end s) with (s_end s - zlen d + zlen d) by lia.
    replace (s_start s') with (s_start s - zlen d + zlen d') by lia. replace (s_end s') with (s_end s - zlen d + zlen d') by lia.
    rewrite E1, E2, !copy_suffix by lia. destruct (copy_from_slice l _ _ x) as [l'|e|] eqn:E; [|done..]. cbn.
    pose proof (copy_from_slice_len _ _ _ _ _ E) as Hl'.
    split; [|split; split_and!; cbn; rewrite ?E1, ?E2, ?zlen_app; lia].
    apply sim_set_heap; [done|lia|rewrite E1, !zlen_app; lia|rewrite E2, !zlen_app; lia].
Qed.

(** Slices stay good while the buffers keep their shape. *)
Lemma slice_sim_shape m m' n n' s s' :
  same_shape m n -> same_shape m' n' -> slice_sim m m' s s' -> slice_sim n n' s s'.
Proof.
  intros (_ & H1 & H2) (_ & H3 & _). unfold slice_sim, heap_offset. by rewrite H1, H2, H3.
Qed.

Lemma sim_slice_fill m m' s s' x :
  mem_sim m m' -> slice_sim m m' s s' ->
  outcome_rel (fun n n' => mem_sim n n' /\ same_shape m n /\ same_shape m' n') (slice_fill m s x) (slice_fill m' s' x).
Proof. intros Hm Hs. unfold slice_fill. rewrite (slice_sim_len _ _ _ _ Hs). by apply sim_slice_copy. Qed.

(** Forget that the shape is kept. *)
Lemma outcome_sim {E} m m' (x y : outcome E MemoryInstance) :
  outcome_rel (fun n n' => mem_sim n n' /\ same_shape m n /\ same_shape m' n') x y -> outcome_rel mem_sim x y.
Proof. destruct x, y; cbn; tauto. Qed.

Lemma sim_write_bytes m m' o a x :
  mem_sim m m' -> outcome_rel mem_sim (write_bytes m o a x) (write_bytes m' o a x).
Proof.
  intros Hm. unfold write_bytes. eapply outcome_rel_bind; [by apply sim_write|].
  intros s s' Hs. by eapply outcome_sim, sim_slice_copy.
Qed.

Lemma sim_write_bytes_noownerchecks m m' a x :
  mem_sim m m' -> outcome_rel mem_sim (write_bytes_noownerchecks m a x) (write_bytes_noownerchecks m' a x).
Proof.
  intros Hm. unfold write_bytes_noownerchecks. eapply outcome_rel_bind; [apply sim_write_noownerchecks; [done|apply zlen_nonneg]|].
  intros s s' Hs. by eapply outcome_sim, sim_slice_copy.
Qed.

Lemma sim_clear m m' o a n x :
  mem_sim m m' ->
  outcome_rel mem_sim (let? s := write m o a n in slice_fill m s x) (let? s := write m' o a n in slice_fill m' s x).
Proof.
  intros Hm. eapply outcome_rel_bind; [by apply sim_write|]. intros s s' Hs. by eapply outcome_sim, sim_slice_fill.
Qed.

Lemma sim_grow_stack m m' n : mem_sim m m' -> outcome_rel mem_sim (grow_stack m n) (grow_stack m' n).
Proof.
  intros Hm. unfold grow_stack. rewrite (sim_stack _ _ Hm), (sim_hp _ _ Hm). repeat case_if; cbn; try done.
  rewrite <- (sim_hp _ _ Hm) at 2. apply sim_set_stack; [done|]. pose proof (zlen_nonneg (stack m)).
  rewrite zlen_resize; lia.
Qed.

(** Memories that show the same bytes are equivalent. *)
Lemma mem_sim_get m m' :
  mem_wf m -> mem_wf m' -> stack m' = stack m -> mhp m' = mhp m ->
  (forall x, mhp m <= x -> mem_get m' x = mem_get m x) -> mem_sim m m'.
Proof.
  intros Hm Hm' Hs Hh Hg. destruct (mem_sim_refl m Hm) as [_ _ _ _ (d & _ & l & E & _ & Hl)].
  destruct (mem_sim_refl m' Hm') as [_ _ _ _ (d' & _ & l' & E' & _ & Hl')]. split; try done. exists d, d', l.
  split_and!; [done| |done]. rewrite E'. f_equal. apply zlist_eq; [lia|]. intros i Hi.
  specialize (Hg (i + mhp m) ltac:(lia)). revert Hg. unfold mem_get. rewrite Hs, Hh.
  assert (Hlt : zlen (stack m) <= mhp m) by apply Hm. repeat case_if; try lia.
  rewrite !heap_offset_wf by done. rewrite E, E', !zlen_app.
  replace (i + mhp m - (MEM_SIZE - (zlen d + zlen l))) with (i + zlen d) by lia.
  replace (i + mhp m - (MEM_SIZE - (zlen d' + zlen l'))) with (i + zlen d') by lia.
  by rewrite !zget_suffix by lia.
Qed.

Lemma grow_heap_neg m sp n : mem_wf m -> n < 0 ->
  match grow_heap_by m sp n with Ok _ => False | Err e => e = MemoryGrowthOverlap /\ mhp m - n < sp | Crash => sp <= mhp m - n end.
Proof.
  intros [] Hn. unfold grow_heap_by. rewrite checked_sub_Some by lia. cbn [ok_or obind]. case_if; [split; [done|lia]|].
  unfold usub at 1. case_if; [|done]. cbn [obind]. case_if; [|lia].
  unfold usub. repeat (case_if; cbn [obind]; try done). unfold vec_fill. case_if; [lia|done].
Qed.

Lemma sim_get m m' x : mem_sim m m' -> mem_get m' x = mem_get m x.
Proof.
  intros Hs. destruct (sim_offsets m m' Hs) as (d & d' & l & E & E' & _ & Ho & Ho'). unfold mem_get.
  rewrite (sim_stack _ _ Hs), (sim_hp _ _ Hs), E, E', Ho, Ho'. repeat case_if; try done.
  by rewrite !live_ofs, !zget_suffix by lia.
Qed.

Lemma sim_grow_heap m m' sp n :
  mem_sim m m' ->
  outcome_rel (fun x y => mem_sim (fst x) (fst y) /\ snd x = snd y) (grow_heap_by m sp n) (grow_heap_by m' sp n).
Proof.
  intros Hs. pose proof Hs as [Hm Hm' Hst Hhp _]. destruct (decide (n < 0)) as [Hn|Hn].
  { pose proof (grow_heap_neg m sp n Hm Hn) as H1. pose proof (grow_heap_neg m' sp n Hm' Hn) as H2. rewrite Hhp in H2.
    destruct (grow_heap_by m sp n), (grow_heap_by m' sp n); cbn; try done; try lia. intuition congruence. }
  pose proof (grow_heap_by_spec m sp n Hm ltac:(lia)) as H1. pose proof (grow_heap_by_spec m' sp n Hm' ltac:(lia)) as H2.
  rewrite Hhp, Hst in H2. destruct (decide (n <= mhp m /\ sp <= mhp m - n)) as [[Hle Hsp]|Hno].
  - destruct (grow_heap_by_Ok m sp n) as (h & _ & E); [done|lia..|].
    destruct (grow_heap_by_Ok m' sp n) as (h' & _ & E'); [done|rewrite ?Hhp; lia..|].
    rewrite Hhp, Hst in E'. rewrite E, E' in *. cbn. split; [|done].
    destruct H1 as (W1 & _ & _ & _ & _ & _ & G1), H2 as (W2 & _ & _ & _ & _ & _ & G2).
    apply mem_sim_get; try done. intros x _. by rewrite G1, G2, (sim_get m m').
  - destruct (grow_heap_by m sp n) as [[x hp]|e|]; [lia| |done].
    destruct (grow_heap_by m' sp n) as [[x' hp']|e'|]; [lia| |done]. cbn. intuition congruence.
Qed.

Lemma copy_within_suffix {E} (d l : list byte) a b x :
  0 <= a -> 0 <= x ->
  copy_within (E := E) (d ++ l) (a + zlen d) (b + zlen d) (x + zlen d) = let? l' := copy_within l a b x in Ok (d ++ l').
Proof.
  intros Ha Hx. unfold copy_within. rewrite zslice_suffix, zsplice_suffix, zlen_app by done. pose proof (zlen_nonneg d).
  repeat case_if; cbn; try done; try lia.
Qed.
Lemma copy_within_len {E} (l : list byte) a b x l' : copy_within (E := E) l a b x = Ok l' -> zlen l' = zlen l.
Proof.
  unfold copy_within. case_if; [|done]. intros [= <-]. rewrite zlen_splice; [done|lia|]. rewrite zlen_slice; lia.
Qed.
Lemma copy_within_neg {E} (l : list byte) a b x : b < a -> copy_within (E := E) l a b x = Crash.
Proof. intros Hb. unfold copy_within. case_if; [lia|done]. Qed.
Lemma copy_from_slice_neg {E} (l : list byte) a b x : b < a -> copy_from_slice (E := E) l a b x = Crash.
Proof. intros Hb. unfold copy_from_slice. case_if; [lia|done]. Qed.

Lemma verify_order m a n r : verify m a n = Ok r -> (r_end r < r_start r <-> n < 0).
Proof. unfold verify, to_addr, obind, saturating_add. repeat (case_if; try done); intros [= <-]; cbn; mem_lia. Qed.

(** A negative length panics in the end, if it is not refused before. *)
Lemma usub_crash {E B} a b (f : Z -> outcome E B) : (b <= a -> f (a - b) = Crash) -> obind (usub a b) f = Crash.
Proof. intros Hf. unfold usub. case_if; [by apply Hf|done]. Qed.

Lemma sim_memcopy m m' a b n o : mem_sim m m' -> outcome_rel mem_sim (memcopy m a b n o) (memcopy m' a b n o).
Proof.
  intros Hs. unfold memcopy. rewrite !(sim_verify m m') by done.
  destruct (verify m a n) as [ra|e|] eqn:Ea; [|done..]. destruct (verify m b n) as [rb|e|] eqn:Eb; [|done..]. cbn [obind].
  case_if; [done|]. destruct (verify_ownership o ra); [|done..]. cbn [obind]. rewrite (sim_stack _ _ Hs).
  pose proof (verify_heap m a n ra (sim_wf _ _ Hs) Ea) as Ha. pose proof (verify_heap m b n rb (sim_wf _ _ Hs) Eb) as Hb.
  destruct (sim_offsets m m' Hs) as (d & d' & l & E1 & E2 & Hl & Ho & Ho'). rewrite Ho, Ho', E1, E2.
  pose proof (zlen_nonneg d). pose proof (zlen_nonneg d'). pose proof (wf_stack _ (sim_wf _ _ Hs)) as Hst.
  clear E. assert (Hset : forall st, zlen st = zlen (stack m) ->
    mem_sim (mkMemory st (d ++ l) (mhp m)) (mkMemory st (d' ++ l) (mhp m'))).
  { intros st Hl'. rewrite <- E1, <- E2. apply sim_set_stack; [done|lia]. }
  assert (Hseth : forall l', zlen l' = zlen l ->
    mem_sim (mkMemory (stack m) (d ++ l') (mhp m)) (mkMemory (stack m) (d' ++ l') (mhp m'))).
  { intros l' Hl'. rewrite <- (sim_stack _ _ Hs) at 2. apply sim_set_heap; [done|lia|rewrite E1|rewrite E2]; rewrite !zlen_app; lia. }
  pose proof (verify_order _ _ _ _ Ea) as Na. pose proof (verify_order _ _ _ _ Eb) as Nb.
  destruct (decide (n < 0)) as [Hn|Hn].
  { assert (Hcrash : forall x y : outcome PanicReason MemoryInstance, x = Crash -> y = Crash -> outcome_rel mem_sim x y)
      by (by intros x y -> ->).
    rewrite !index_range_neg, !copy_within_neg by lia.
    repeat case_if; try done; apply Hcrash;
      repeat (apply usub_crash; intros ?); by rewrite ?index_range_neg, ?copy_within_neg by lia. }
  unfold usub.
  destruct (r_end rb <=? zlen (stack m)) eqn:Eb'; zbool; destruct (r_end ra <=? zlen (stack m)) eqn:Ea'; zbool.
  - destruct (copy_within (stack m) _ _ _) as [st| |] eqn:E; [|done..]. cbn. eapply Hset, copy_within_len, E.
  - specialize (Ha ltac:(lia)). rewrite !(proj2 (Z.leb_le _ _)) by lia. cbn [obind].
    destruct (index_range (stack m) _ _) as [x| |]; [|done..]. cbn [obind].
    rewrite !live_ofs, !copy_suffix by lia. destruct (copy_from_slice l _ _ x) as [l'| |] eqn:E; [|done..].
    cbn. eapply Hseth, copy_from_slice_len, E.
  - specialize (Hb ltac:(lia)). rewrite !(proj2 (Z.leb_le _ _)) by lia. cbn [obind].
    rewrite !live_ofs, !index_suffix by lia. destruct (index_range l _ _) as [x| |]; [|done..]. cbn [obind].
    destruct (copy_from_slice (stack m) _ _ x) as [st| |] eqn:E; [|done..]. cbn. eapply Hset, copy_from_slice_len, E.
  - specialize (Ha ltac:(lia)). specialize (Hb ltac:(lia)). rewrite !(proj2 (Z.leb_le _ _)) by lia. cbn [obind].
    rewrite !live_ofs, !copy_within_suffix by lia. destruct (copy_within l _ _ _) as [l'| |] eqn:E; [|done..].
    cbn. eapply Hseth, copy_within_len, E.
Qed.

Lemma sim_split_at_mut m m' s s' mid :
  slice_sim m m' s s' ->
  outcome_rel (fun p p' => slice_sim m m' (fst p) (fst p') /\ slice_sim m m' (snd p) (snd p'))
    (split_at_mut s mid) (split_at_mut s' mid).
Proof.
  intros Hs. unfold split_at_mut. rewrite (slice_sim_len _ _ _ _ Hs). case_if; [|done]. cbn. unfold slice_sim in *.
  destruct (s_region s), (s_region s'); cbn; try done; lia.
Qed.

Lemma sim_push_loop bitmask regs : forall m m' s s' i k,
  mem_sim m m' -> slice_sim m m' s s' -> 0 <= k ->
  outcome_rel mem_sim (push_loop m s bitmask i k regs) (push_loop m' s' bitmask i k regs).
Proof.
  induction regs as [|r regs IH]; intros m m' s s' i k Hm Hs Hk; cbn [push_loop]; [done|].
  case_if; [|by apply IH]. rewrite (slice_sim_len _ _ _ _ Hs). case_if; [done|].
  eapply outcome_rel_bind; [apply sim_slice_copy; [done|]|].
  - unfold slice_sim, WORD_SIZE in *. cbn. destruct (s_region s), (s_region s'); cbn; try done; lia.
  - intros n n' (Hn & H1 & H2). apply IH; [done| |lia]. by apply (slice_sim_shape m m').
Qed.

Lemma sim_copy_from_storage rd m m' o a n ofs len e :
  mem_sim m m' ->
  outcome_rel mem_sim (copy_from_storage_zero_fill rd m o a n ofs len e)
    (copy_from_storage_zero_fill rd m' o a n ofs len e).
Proof.
  intros Hm. unfold copy_from_storage_zero_fill.
  eapply outcome_rel_bind; [by apply outcome_rel_map_err, sim_write|]. intros s s' Hs.
  apply (outcome_rel_bind (fun p p' => mem_sim (fst p) (fst p') /\ slice_sim (fst p) (fst p') s s' /\ snd p = snd p')).
  - case_if; [|done]. rewrite (slice_sim_len _ _ _ _ Hs).
    eapply outcome_rel_bind; [by apply outcome_rel_eq|]. intros x ? <-.
    eapply outcome_rel_bind; [by apply outcome_rel_map_err, sim_split_at_mut|]. intros [p1 p2] [q1 q2] [Hp1 Hp2].
    eapply outcome_rel_bind; [by apply outcome_rel_eq|]. intros f ? <-.
    eapply outcome_rel_bind; [by apply outcome_rel_eq|]. intros bs ? <-.
    eapply outcome_rel_bind; [by apply outcome_rel_map_err, sim_slice_copy|]. intros m1 m1' (H1 & H2 & H3).
    cbn. split_and!; [done|by apply (slice_sim_shape m m')|done].
  - intros [m1 x] [m1' y] (H1 & H2 & Exy). cbn [fst snd] in *. subst y.
    eapply outcome_rel_bind; [by apply outcome_rel_map_err, sim_split_at_mut|]. intros [p1 p2] [q1 q2] [Hp1 Hp2].
    by eapply outcome_rel_map_err, outcome_sim, sim_slice_fill.
Qed.
End Memory.

(** ** Handlers *)

Section Handlers.
Context {S : Type}.
Implicit Types (vm : Interpreter S).

(** Machines that differ in dead memory only. *)
Definition vm_sim vm vm' : Prop := vm' = set_memory vm (memory vm') /\ mem_sim (memory vm) (memory vm').

Lemma vm_sim_set vm m m' : mem_sim m m' -> vm_sim (set_memory vm m) (set_memory vm m').
Proof. done. Qed.

#[export] Instance vm_sim_sym : Symmetric vm_sim.
Proof. intros vm vm' [E Hm]. split; [|by symmetry]. rewrite E. by destruct vm. Qed.
#[export] Instance vm_sim_trans : Transitive vm_sim.
Proof. intros v1 v2 v3 [E1 H1] [E2 H2]. split; [|by etrans].
  assert (set_memory v2 (memory v3) = set_memory v1 (memory v3)) as <- by (by rewrite E1). done.
Qed.

(** A handler that maps equivalent machines to equivalent ones, with related results. *)
Definition handler_rel {A B} (R : A -> B -> Prop) (f : M S A) (g : M S B) : Prop :=
  forall vm vm', vm_sim vm vm' ->
    outcome_rel R (fst (f vm)) (fst (g vm')) /\ vm_sim (snd (f vm)) (snd (g vm')).
Definition respects {A} (f : M S A) : Prop := handler_rel eq f f.

Lemma handler_rel_bind {A A' B B'} (R : A -> A' -> Prop) (Q : B -> B' -> Prop) f f' g g' :
  handler_rel R f f' -> (forall a a', R a a' -> handler_rel Q (g a) (g' a')) ->
  handler_rel Q (mbind_ f g) (mbind_ f' g').
Proof.
  intros Hf Hg vm vm' Hs. specialize (Hf vm vm' Hs). unfold mbind_.
  destruct (f vm) as [[a|e|] v], (f' vm') as [[a'|e'|] v']; cbn in *; try tauto. apply (Hg a a'); tauto.
Qed.

Lemma respects_bind {A B} (f : M S A) (g : A -> M S B) :
  respects f -> (forall a, respects (g a)) -> respects (mbind_ f g).
Proof. intros Hf Hg. eapply handler_rel_bind; [exact Hf|]. intros a ? <-. apply Hg. Qed.

Lemma respects_lift {A} (x : outcome RuntimeError A) : respects (lift x).
Proof. intros vm vm' Hs. split; [by apply outcome_rel_eq|done]. Qed.
Lemma respects_lift_panic {A} (x : outcome PanicReason A) : respects (lift_panic x).
Proof. apply respects_lift. Qed.
Lemma respects_mret {A} (a : A) : respects (mret a).
Proof. by intros vm vm' Hs. Qed.
Lemma respects_merr {A} e : respects (merr (A := A) e).
Proof. by intros vm vm' Hs. Qed.
Lemma respects_mcrash {A} : respects (mcrash (A := A)).
Proof. by intros vm vm' Hs. Qed.

(** What a handler reads is not the memory, or is read from the live memory. *)
Definition observes {A} (f : Interpreter S -> A) : Prop := forall vm vm', vm_sim vm vm' -> f vm' = f vm.
Lemma respects_gets {A} (f : Interpreter S -> A) : observes f -> respects (gets f).
Proof. intros Hf vm vm' Hs. split; [|done]. cbn. by rewrite (Hf vm vm'). Qed.
Lemma observes_params : observes interpreter_params.
Proof. by intros vm vm' [-> _]. Qed.
Lemma observes_read vm vm' a n : vm_sim vm vm' -> read (memory vm') a n = read (memory vm) a n.
Proof. intros [_ Hm]. by apply sim_read. Qed.

(** A change of the machine that leaves the memory alone. *)
Lemma respects_modify (f : Interpreter S -> Interpreter S) :
  (forall vm m, f (set_memory vm m) = set_memory (f vm) m) -> (forall vm, memory (f vm) = memory vm) -> respects (modify f).
Proof.
  intros Hf Hm vm vm' [E Hs]. split; [done|]. cbn. split.
  - rewrite E, Hf at 1. by rewrite Hm.
  - by rewrite !Hm.
Qed.

Lemma respects_update_memory (f : MemoryInstance -> outcome PanicReason MemoryInstance) :
  (forall m m', mem_sim m m' -> outcome_rel mem_sim (f m) (f m')) -> respects (update_memory f).
Proof.
  intros Hf vm vm' Hs. pose proof Hs as [E Hm]. unfold update_memory. specialize (Hf _ _ Hm).
  destruct (f (memory vm)), (f (memory vm')); cbn in *; try done.
  - split; [done|]. rewrite E. by apply (vm_sim_set vm).
  - by subst.
Qed.

Lemma respects_update_memory_from (f : S -> MemoryInstance -> outcome RuntimeError MemoryInstance) :
  (forall s m m', mem_sim m m' -> outcome_rel mem_sim (f s m) (f s m')) -> respects (update_memory_from f).
Proof.
  intros Hf vm vm' Hs. pose proof Hs as [E Hm]. unfold update_memory_from.
  assert (Est : storage vm' = storage vm) by (by rewrite E). rewrite Est. specialize (Hf (storage vm) _ _ Hm).
  destruct (f _ (memory vm)), (f _ (memory vm')); cbn in *; try done.
  split; [done|]. rewrite E. by apply (vm_sim_set vm).
Qed.

Lemma respects_vm_grow_heap_by n : respects (vm_grow_heap_by n).
Proof.
  intros vm vm' Hs. pose proof Hs as [E Hm]. unfold vm_grow_heap_by.
  assert (Er : reg vm' RegId.SP = reg vm RegId.SP) by (by rewrite E). rewrite Er.
  pose proof (sim_grow_heap _ _ (reg vm RegId.SP) n Hm) as Hg.
  destruct (grow_heap_by (memory vm) _ n) as [[m hp]| |], (grow_heap_by (memory vm') _ n) as [[m' hp']| |]; cbn in *; try done.
  - destruct Hg as [Hg <-]. split; [done|]. rewrite E. split; done.
  - by subst.
Qed.

(** A handler that does not look at the memory. *)
Lemma respects_frame {A} (f : M S A) :
  (forall vm m, f (set_memory vm m) = (fst (f vm), set_memory (snd (f vm)) m)) -> (forall vm, memory (snd (f vm)) = memory vm) ->
  respects f.
Proof.
  intros Hf Hm vm vm' [E Hs]. rewrite E, Hf. cbn [fst snd]. split; [by apply outcome_rel_eq|].
  split; [done|]. cbn. by rewrite Hm.
Qed.

Lemma respects_push_receipt `{Sha256} r : respects (push_receipt r).
Proof.
  apply respects_frame; intros vm; unfold push_receipt; [intros m; cbn|]; by destruct (receipts_push (receipts vm) r).
Qed.
Lemma respects_pop_frame : respects pop_frame.
Proof. apply respects_frame; intros vm; unfold pop_frame; [intros m; cbn|]; by destruct (frames vm). Qed.
Lemma respects_update_storage {A} (f : S -> outcome RuntimeError (A * S)) : respects (update_storage f).
Proof.
  apply respects_frame; intros vm; unfold update_storage; [intros m; cbn|]; by destruct (f (storage vm)) as [[]| |].
Qed.

Lemma respects_checked_balance_sub a n : respects (checked_balance_sub a n).
Proof.
  intros vm vm' Hs. pose proof Hs as [E Hm]. unfold checked_balance_sub.
  assert (Eb : balances vm' = balances vm) by (by rewrite E). rewrite Eb.
  destruct (balances vm !! a) as [b|]; [|done]. destruct (checked_sub (bal_value b) n) as [v|]; [|done].
  pose proof (sim_write_bytes_noownerchecks _ _ (saturating_add (bal_offset b) 32) (to_be_bytes 8 v) Hm) as Hw.
  unfold set_memory_balance_inner. cbn [bal_offset bal_value].
  destruct (write_bytes_noownerchecks (memory vm) _ _), (write_bytes_noownerchecks (memory vm') _ _); cbn in *; try done;
    (split; [done|]; rewrite E; by split).
Qed.

Lemma respects_mem_read a n : respects (mem_read a n).
Proof. intros vm vm' Hs. split; [|done]. cbn. rewrite (observes_read vm vm') by done. by apply outcome_rel_eq. Qed.
Lemma respects_mem_read_bytes a n : respects (mem_read_bytes a n).
Proof.
  intros vm vm' Hs. split; [|done]. cbn. unfold read_bytes. rewrite (observes_read vm vm') by done. by apply outcome_rel_eq.
Qed.

(** The memory is only consulted. *)
Lemma respects_gets_memory {A} (g : MemoryInstance -> outcome RuntimeError A) :
  (forall m m', mem_sim m m' -> g m' = g m) -> respects (m <- gets memory ;; lift (g m)).
Proof. intros Hg vm vm' [E Hm]. split; [|done]. cbn. rewrite (Hg _ _ Hm). by apply outcome_rel_eq. Qed.
(** A slice is asked for and dropped. *)
Lemma respects_gets_slice {A B} (R : MemoryInstance -> MemoryInstance -> A -> A -> Prop)
    (g : MemoryInstance -> outcome PanicReason A) (k : M S B) :
  (forall m m', mem_sim m m' -> outcome_rel (R m m') (g m) (g m')) -> respects k ->
  respects (m <- gets memory ;; lift_panic (g m) ;;; k).
Proof.
  intros Hg Hk vm vm' Hs. unfold mbind_, gets, lift_panic, lift. specialize (Hg _ _ (proj2 Hs)).
  destruct (g (memory vm)), (g (memory vm')); cbn in *; try done; [by apply Hk|by subst].
Qed.

Lemma observes_current_contract : observes current_contract.
Proof.
  intros vm vm' Hs. unfold current_contract, read_bytes. rewrite (observes_read vm vm') by done.
  by destruct Hs as [-> _].
Qed.
Lemma observes_internal_contract : observes internal_contract.
Proof. intros vm vm' Hs. unfold internal_contract. by rewrite (observes_current_contract vm vm'). Qed.
Lemma observes_internal_contract_or_default : observes internal_contract_or_default.
Proof. intros vm vm' Hs. unfold internal_contract_or_default. by rewrite (observes_internal_contract vm vm'). Qed.
Lemma observes_metadata_value arg : observes (fun vm => metadata_value vm arg).
Proof. by intros vm vm' [-> _]. Qed.
End Handlers.

Create HintDb sim discriminated.
#[export] Hint Resolve respects_push_receipt respects_pop_frame respects_update_storage respects_checked_balance_sub
  respects_mem_read respects_mem_read_bytes respects_vm_grow_heap_by respects_lift respects_lift_panic respects_mret
  respects_merr respects_mcrash observes_current_contract observes_internal_contract
  observes_internal_contract_or_default : sim.
#[export] Hint Resolve sim_write_bytes sim_write_bytes_noownerchecks sim_clear sim_grow_stack sim_memcopy
  sim_copy_from_storage : sim.

(** Walk through the body of a handler. *)
Ltac sim_step :=
  lazymatch goal with
  | |- respects (mbind_ _ _) => apply respects_bind; [|intros ?; cbv beta zeta]
  | |- respects (gets _) => apply respects_gets; solve [eauto 2 with sim|by intros ? ? [-> _]]
  | |- respects (modify _) => apply respects_modify; by intros
  | |- respects (update_memory _) => apply respects_update_memory; intros; solve [eauto 3 with sim]
  | |- respects (update_memory_from _) => apply respects_update_memory_from; intros; solve [eauto 3 with sim]
  | |- respects (if ?b then _ else _) => destruct b
  | |- respects (match ?x with _ => _ end) => destruct x
  | |- respects (let x := _ in _) => cbv zeta
  | |- respects ?f => first [solve [eauto 2 with sim]|unfold_head f; cbv zeta]
  end.
Ltac sim_body := repeat sim_step.

(** ** Handlers that hold a slice *)

Section Under.
Context {S : Type} (m0 m0' : MemoryInstance).
Implicit Types (vm : Interpreter S).

(** While the buffers have the shapes of [m0] and [m0'], slices of these stay good. *)
Definition under {A B} (R : A -> B -> Prop) (f : M S A) (g : M S B) : Prop :=
  forall vm vm', vm_sim vm vm' -> same_shape m0 (memory vm) -> same_shape m0' (memory vm') ->
    outcome_rel R (fst (f vm)) (fst (g vm')) /\ vm_sim (snd (f vm)) (snd (g vm')) /\
    same_shape m0 (memory (snd (f vm))) /\ same_shape m0' (memory (snd (g vm'))).

Lemma under_bind {A A' B B'} (R : A -> A' -> Prop) (Q : B -> B' -> Prop) f f' g g' :
  under R f f' -> (forall a a', R a a' -> under Q (g a) (g' a')) -> under Q (mbind_ f g) (mbind_ f' g').
Proof.
  intros Hf Hg vm vm' Hs H1 H2. specialize (Hf vm vm' Hs H1 H2). unfold mbind_.
  destruct (f vm) as [[a|e|] v], (f' vm') as [[a'|e'|] v']; cbn in *; try tauto. apply (Hg a a'); tauto.
Qed.

(** Handlers that keep the memory. *)
Lemma under_frame {A} (f : M S A) : respects f -> (forall vm, memory (snd (f vm)) = memory vm) -> under eq f f.
Proof. intros Hf Hm vm vm' Hs H1 H2. destruct (Hf vm vm' Hs). by rewrite !Hm. Qed.

Lemma under_lift_panic {A B} (R : A -> B -> Prop) x y : outcome_rel R x y -> under R (lift_panic x) (lift_panic y).
Proof. intros Hx vm vm' Hs H1 H2. split; [by apply outcome_rel_map_err|done]. Qed.

Lemma under_memory {A B} (R : A -> B -> Prop) (k : MemoryInstance -> M S A) (k' : MemoryInstance -> M S B) :
  (forall m m', mem_sim m m' -> same_shape m0 m -> same_shape m0' m' -> under R (k m) (k' m')) ->
  under R (mbind_ (gets memory) k) (mbind_ (gets memory) k').
Proof. intros Hk vm vm' Hs H1 H2. by apply (Hk _ _ (proj2 Hs) H1 H2). Qed.

Lemma same_shape_trans m1 m2 m3 : same_shape m1 m2 -> same_shape m2 m3 -> same_shape m1 m3.
Proof. intros (? & ? & ?) (? & ? & ?). split_and!; congruence. Qed.
Lemma slice_sim_back n n' s s' :
  same_shape m0 n -> same_shape m0' n' -> slice_sim n n' s s' -> slice_sim m0 m0' s s'.
Proof. intros (? & ? & ?) (? & ? & ?). by apply slice_sim_shape. Qed.

Lemma under_slice (f g : MemoryInstance -> outcome PanicReason MemoryInstance) s s' :
  slice_sim m0 m0' s s' ->
  (forall m m', mem_sim m m' -> slice_sim m m' s s' ->
    outcome_rel (fun n n' => mem_sim n n' /\ same_shape m n /\ same_shape m' n') (f m) (g m')) ->
  under eq (update_memory f) (update_memory g).
Proof.
  intros Hs Hf vm vm' Hv H1 H2. pose proof Hv as [E Hm]. unfold update_memory.
  specialize (Hf _ _ Hm (slice_sim_shape _ _ _ _ _ _ H1 H2 Hs)).
  destruct (f (memory vm)), (g (memory vm')); cbn in *; try done.
  - destruct Hf as (Hn & Hs1 & Hs2). split; [done|]. rewrite E.
    split; [by apply (vm_sim_set vm)|]. split; by eapply same_shape_trans.
  - by subst.
Qed.
End Under.

Lemma respects_under {S A} (f : M S A) : (forall m m', mem_sim m m' -> under m m' eq f f) -> respects f.
Proof. intros Hf vm vm' Hs. by destruct (Hf _ _ (proj2 Hs) vm vm' Hs) as (? & ? & _). Qed.

Ltac under_frame := eapply under_bind; [apply under_frame; [solve [sim_body]|done]|intros ? ? <-; cbv beta zeta].

Section Instructions.
Context {S : Type} `{Sha256} `{Powf} `{WideLib} `{Crypto} `{InterpreterStorage S}.

Lemma count_ones_nonneg n : forall x, 0 <= count_ones n x.
Proof. induction n as [|n IH]; intros x; cbn; [lia|]. specialize (IH (x / 2)). destruct (Z.odd x); cbn; lia. Qed.

Lemma respects_push_selected_registers seg bitmask : respects (push_selected_registers (S := S) seg bitmask).
Proof.
  unfold push_selected_registers. cbv zeta. apply (handler_rel_bind (fun x y => x = y /\ 0 <= x)).
  { intros vm vm' Hs. split; [|done]. pose proof (count_ones_nonneg 32 bitmask).
    generalize dependent (count_ones 32 bitmask). intros n Hn. case_if; [|done]. split; [done|]. unfold WORD_SIZE. lia. }
  intros size ? [<- Hsize]. apply respects_bind; [sim_body|]. intros sp. apply respects_bind; [sim_body|]. intros _.
  apply respects_bind; [sim_body|]. intros regs. apply respects_bind; [|intros ?; sim_body].
  apply respects_update_memory. intros m m' Hm. eapply outcome_rel_bind; [by apply sim_write_noownerchecks|].
  intros s s' Hs. by apply sim_push_loop.
Qed.

Lemma respects_code_copy a b c d : respects (code_copy (S := S) a b c d).
Proof.
  unfold code_copy. do 4 (sim_step; [sim_body|]).
  eapply respects_gets_slice; [intros m m' Hm; by apply sim_write|]. sim_body.
Qed.

Lemma respects_code_root a b : respects (code_root (S := S) a b).
Proof.
  unfold code_root. do 3 (sim_step; [sim_body|]).
  eapply respects_gets_slice; [intros m m' Hm; by apply sim_write_noownerchecks|]. sim_body.
Qed.

Lemma respects_message_output a b c d : respects (message_output (S := S) a b c d).
Proof.
  unfold message_output. do 2 (sim_step; [sim_body|]). case_if; [sim_body|]. do 5 (sim_step; [sim_body|]).
  sim_step; [|sim_body]. apply respects_gets_memory. intros m m' Hm. by rewrite (sim_read_bytes m m').
Qed.

Lemma respects_state_read_qword a b c d : respects (state_read_qword (S := S) a b c d).
Proof.
  unfold state_read_qword. do 5 (sim_step; [sim_body|]). apply respects_under. intros m0 m0' _.
  apply under_memory. intros m m' Hm Hsh Hsh'.
  eapply under_bind; [apply under_lift_panic, sim_write, Hm|]. intros s s' Hs.
  do 3 under_frame. eapply under_bind; [|intros ? ? _; apply under_frame; [sim_body|]].
  - apply (under_slice _ _ _ _ s s'); [by eapply slice_sim_back|]. intros n n' Hn Hs'. by apply sim_slice_copy.
  - intros vm. unfold inc_pc, mbind_, get_reg, gets, lift_panic, lift, put_reg, modify.
    by destruct (checked_add _ _).
Qed.

(** With a negative size the slice cannot be split for the frame. *)
Lemma call_write_neg ci frame vm vm' :
  vm_sim vm vm' -> ci_total_size_in_stack ci < 0 ->
  outcome_rel eq (fst (call_write (S := S) ci frame vm)) (fst (call_write ci frame vm')) /\
  vm_sim (snd (call_write ci frame vm)) (snd (call_write ci frame vm')).
Proof.
  intros Hs Hn. pose proof Hs as [E Hm]. unfold call_write, mbind_, get_reg, gets, lift_panic, lift.
  assert (Er : reg vm' RegId.FP = reg vm RegId.FP) by (by rewrite E). rewrite Er. unfold write_noownerchecks.
  rewrite (sim_verify _ _ _ _ Hm). destruct (verify (memory vm) _ _) as [r|e|] eqn:Ev; [|done..]. cbn [obind].
  apply verify_order in Ev. unfold split_at_mut, slice_len.
  assert (Hlen : serialized_size = 600) by done. rewrite Hlen, (sim_stack _ _ Hm).
  unfold usub. repeat (case_if; cbn [obind omap_err s_start s_end]; try lia; try done).
Qed.

Lemma respects_call_write ci frame : respects (call_write (S := S) ci frame).
Proof.
  intros vm vm' Hs. destruct (decide (ci_total_size_in_stack ci < 0)) as [Hn|Hn]; [by apply call_write_neg|].
  revert vm vm' Hs. change (respects (call_write (S := S) ci frame)). unfold call_write.
  apply respects_under. intros m0 m0' _. under_frame. apply under_memory. intros m m' Hm Hsh Hsh'.
  eapply under_bind; [apply under_lift_panic, sim_write_noownerchecks; [exact Hm|lia]|]. intros s s' Hs.
  apply (slice_sim_back m0 m0') in Hs; [|done..].
  eapply under_bind; [by apply under_lift_panic, sim_split_at_mut|]. intros p p' [Hp1 Hp2].
  eapply under_bind; [apply (under_slice _ _ _ _ _ _ Hp1); intros n n' Hn' Hs'; by apply sim_slice_copy|]. intros ? ? _.
  eapply under_bind; [by apply under_lift_panic, sim_split_at_mut|]. intros q q' [Hq1 Hq2].
  do 2 under_frame.
  eapply under_bind; [apply (under_slice _ _ _ _ _ _ Hq1); intros n n' Hn' Hs'; by apply sim_slice_copy|]. intros ? ? _.
  apply (under_slice _ _ _ _ _ _ Hq2). intros n n' Hn' Hs'. by apply sim_slice_fill.
Qed.
#[local] Hint Resolve respects_push_selected_registers respects_code_copy respects_code_root respects_message_output
  respects_state_read_qword respects_call_write : sim.

Lemma execute_respects i : respects (execute_instruction (S := S) i).
Proof.
  unfold execute_instruction. destruct i as [o bs]. unfold op_unpack. cbn [opcode op_bytes].
  destruct o; cbn [layout];
    cbn [ra_rb_rc_from_bytes ra_rb_from_bytes ra_rb_rc_rd_from_bytes
      ra_rb_rc_imm06_from_bytes ra_rb_imm12_from_bytes ra_imm18_from_bytes].
  all: sim_body.
Qed.

(** ** Runs *)

Lemma respects_instruction_inner predicate raw : respects (instruction_inner (S := S) predicate raw).
Proof.
  unfold instruction_inner. sim_step; [sim_body|]. case_if; [sim_body|]. apply execute_respects.
Qed.

Lemma execute_sim predicate (vm vm' : Interpreter S) :
  vm_sim vm vm' -> fst (execute predicate vm') = fst (execute predicate vm) /\
  vm_sim (snd (execute predicate vm)) (snd (execute predicate vm')).
Proof.
  intros Hs. unfold execute, fetch_instruction. pose proof Hs as [E Hm].
  assert (Er : forall i, reg vm' i = reg vm i) by (intros i; by rewrite E).
  rewrite !Er, (sim_read_bytes _ _ _ _ Hm). destruct (read_bytes (memory vm) _ _) as [raw|e|]; [|done..].
  case_if; [done|]. destruct (respects_instruction_inner predicate raw vm vm' Hs) as [Hr Hv].
  destruct (instruction_inner predicate raw vm) as [r v], (instruction_inner predicate raw vm') as [r' v']. cbn in *.
  split; [|done]. destruct r, r'; cbn in *; try done; by subst.
Qed.

(** The result of a run, and the machine after it, up to dead memory. *)
Definition run_rel {A} (x y : RunOutcome A * Interpreter S) : Prop := fst y = fst x /\ vm_sim (snd x) (snd y).

Lemma verify_predicate_sim fuel : forall vm vm' : Interpreter S,
  vm_sim vm vm' -> run_rel (verify_predicate fuel vm) (verify_predicate fuel vm').
Proof.
  induction fuel as [|fuel IH]; intros vm vm' Hs; [done|]. cbn [verify_predicate].
  destruct (execute_sim true vm vm' Hs) as [He Hv].
  destruct (execute true vm) as [r v], (execute true vm') as [r' v']. cbn in *. subst r'.
  destruct r as [[]| |]; try done; [by apply IH|]. case_if; done.
Qed.

Lemma respects_append_panic_receipt r : respects (append_panic_receipt (S := S) r).
Proof.
  unfold append_panic_receipt. do 4 (sim_step; [sim_body|]). sim_step; [sim_body|].
  apply respects_frame; intros vm; [intros m; cbn|]; by destruct (receipts_push _ _).
Qed.

Lemma run_loop_sim fuel : forall vm vm' : Interpreter S,
  vm_sim vm vm' -> run_rel (run_loop fuel vm) (run_loop fuel vm').
Proof.
  induction fuel as [|fuel IH]; intros vm vm' Hs; [done|]. cbn [run_loop].
  assert (Ef : frames vm' = frames vm) by (destruct Hs as [E _]; by rewrite E). rewrite Ef.
  destruct (execute_sim false vm vm' Hs) as [He Hv].
  destruct (execute false vm) as [r v], (execute false vm') as [r' v']. cbn [fst snd] in *. subst r'.
  destruct r as [[]|e|]; try done; try by apply IH.
  - case_if; [by apply IH|done].
  - case_if; [by apply IH|done].
  - destruct (instruction_result e) as [result|]; [|done].
    destruct (respects_append_panic_receipt result v v' Hv) as [Ha Hav].
    destruct (append_panic_receipt result v) as [[[]|?|] w], (append_panic_receipt result v') as [[[]|?|] w'];
      cbn in Ha, Hav; try done; by split.
Qed.

Lemma run_program_sim is_empty limit fuel (vm vm' : Interpreter S) :
  vm_sim vm vm' -> run_rel (run_program is_empty limit fuel vm) (run_program is_empty limit fuel vm').
Proof.
  assert (Hrr : forall result state v v', vm_sim v v' ->
    run_rel (result_receipt limit result state v) (result_receipt limit result state v')).
  { intros result state v v' Hs. unfold result_receipt, remaining_gas. pose proof Hs as [E Hm].
    assert (Er : reg v' RegId.GGAS = reg v RegId.GGAS) by (by rewrite E).
    assert (Ex : receipts v' = receipts v) by (by rewrite E). rewrite Er, Ex.
    destruct (checked_sub _ _); [|done]. destruct (receipts_push _ _); try done. rewrite E. by split. }
  intros Hs. unfold run_program. destruct is_empty.
  - assert (Hret : respects (ret (S := S) 1)) by sim_body. destruct (Hret vm vm' Hs) as [Hr Hv].
    destruct (ret 1 vm) as [[[]|e|] v], (ret 1 vm') as [[[]|e'|] v']; cbn in Hr, Hv; try done; [by apply Hrr|by subst].
  - destruct (run_loop_sim fuel vm vm' Hs) as [Hr Hv].
    destruct (run_loop fuel vm) as [r v], (run_loop fuel vm') as [r' v']. cbn [fst snd] in *. subst r'.
    destruct r as [[]| | | |]; try done. by apply Hrr.
Qed.
End Instructions.
