(* ===== verification/Canonical.v ===== *)
(** * Canonical serialization

    src/fuel-types/src/canonical.rs and the derive macros of
    src/fuel-derive/src/canonical/: the traits [Serialize] and [Deserialize] as a record of
    operations ([Codec]), one instance per primitive and container, and one combinator per
    shape of derived code (structures, prefixed structures, enumerations). Every value is
    encoded in a static part, of known size, and a dynamic part; decoding reads the static
    parts of all fields before the first dynamic part, so the result of [decode_static] is a
    partly filled value, of the type [Static]: for a vector, the capacity reserved for it.

    [lawful] is the contract of a codec: a valid value encodes, its sizes are the lengths of
    the encoding (saturated), and decoding gives the value back and leaves what follows. *)

From Stdlib Require Import Strings.Byte.
From S2P Require Import Prelude.

(** ** Errors and buffers *)

(** [canonical::Error]; [Unknown] carries a message. *)
Inductive CanonicalError : Type :=
| BufferIsTooShort | UnknownDiscriminant | InvalidPrefix | AllocationLimit | Unknown.

Abbreviation decoded A := (outcome CanonicalError (A * list byte)) (only parsing).

(** [Input for &[u8]]: the buffer is what is left to read. *)
Definition input_peek (n : Z) (buf : list byte) : outcome CanonicalError (list byte) :=
  if zlen buf <? n then Err BufferIsTooShort else Ok (take (Z.to_nat n) buf).
Definition input_read (n : Z) (buf : list byte) : decoded (list byte) :=
  if zlen buf <? n then Err BufferIsTooShort
  else Ok (take (Z.to_nat n) buf, drop (Z.to_nat n) buf).
Definition input_skip (n : Z) (buf : list byte) : outcome CanonicalError (list byte) :=
  if zlen buf <? n then Err BufferIsTooShort else Ok (drop (Z.to_nat n) buf).
Definition read_byte (buf : list byte) : decoded byte :=
  match buf with
  | [] => Err BufferIsTooShort
  | b :: rest => Ok (b, rest)
  end.

(** ** Alignment *)

Definition ALIGN : Z := 8.
Definition alignment_bytes (len : Z) : Z :=
  let modulo := len mod ALIGN in
  if modulo =? 0 then 0 else ALIGN - modulo.
Definition aligned_size (len : Z) : Z := saturating_add len (alignment_bytes len).
Definition padding (len : Z) : list byte := replicate (Z.to_nat (alignment_bytes len)) x00.

Definition VEC_DECODE_LIMIT : Z := 100 * 2 ^ 20.

(** The capacity of [Vec::with_capacity(n)]; the standard library promises at least [n]. *)
Class Alloc : Type := with_capacity : Z -> Z.
(** What decoding relies on: the capacity is the requested one. *)
Class ExactAlloc `{Alloc} : Prop := with_capacity_exact n : with_capacity n = n.

(** ** The traits *)

Record Codec (T : Type) : Type := mkCodec {
  Static : Type;
  size_static : T -> Z;
  size_dynamic : T -> Z;
  encode_static : T -> outcome CanonicalError (list byte);
  encode_dynamic : T -> outcome CanonicalError (list byte);
  decode_static : list byte -> decoded Static;
  decode_dynamic : Static -> list byte -> decoded T
}.
Arguments Static {T} _.
Arguments size_static {T} _ _.
Arguments size_dynamic {T} _ _.
Arguments encode_static {T} _ _.
Arguments encode_dynamic {T} _ _.
Arguments decode_static {T} _ _.
Arguments decode_dynamic {T} _ _ _.

Section Trait.
Context {T : Type} (c : Codec T).

Definition size (x : T) : Z := saturating_add (size_static c x) (size_dynamic c x).
Definition encode (x : T) : outcome CanonicalError (list byte) :=
  let? s := encode_static c x in
  let? d := encode_dynamic c x in
  Ok (s ++ d).
Definition decode (buf : list byte) : decoded T :=
  let? '(object, buf) := decode_static c buf in
  decode_dynamic c object buf.
(** [to_bytes] expects that encoding succeeds. *)
Definition canonical_to_bytes (x : T) : outcome CanonicalError (list byte) :=
  match encode x with
  | Ok bs => Ok bs
  | _ => Crash
  end.
Definition canonical_from_bytes (buf : list byte) : outcome CanonicalError T :=
  let? '(x, _) := decode buf in Ok x.
End Trait.

(** ** Primitives: [impl_for_primitives] *)

(** The integer of [n] bytes. *)
Definition c_uint (n : nat) : Codec Z := {|
  Static := Z;
  size_static _ := aligned_size (Z.of_nat n);
  size_dynamic _ := 0;
  encode_static x := Ok (padding (Z.of_nat n) ++ to_be_bytes n x);
  encode_dynamic _ := Ok [];
  decode_static buf :=
    let? buf := input_skip (alignment_bytes (Z.of_nat n)) buf in
    let? '(asset, buf) := input_read (Z.of_nat n) buf in
    Ok (from_be_bytes asset, buf);
  decode_dynamic x buf := Ok (x, buf)
|}.
Definition c_u8 : Codec Z := c_uint 1.
Definition c_u16 : Codec Z := c_uint 2.
Definition c_u32 : Codec Z := c_uint 4.
Definition c_u64 : Codec Z := c_uint 8.
Definition c_u128 : Codec Z := c_uint 16.

Definition c_unit : Codec unit := {|
  Static := unit;
  size_static _ := 0;
  size_dynamic _ := 0;
  encode_static _ := Ok [];
  encode_dynamic _ := Ok [];
  decode_static buf := Ok (tt, buf);
  decode_dynamic _ buf := Ok (tt, buf)
|}.

(** ** Vectors *)

Section Vec.
Context `{Alloc}.

Definition vec_encode_static {T} (l : list T) : outcome CanonicalError (list byte) :=
  if VEC_DECODE_LIMIT <? zlen l then Err AllocationLimit else encode c_u64 (zlen l).

(** The capacity reserved for the elements. *)
Definition vec_decode_static (buf : list byte) : decoded Z :=
  let? '(cap, buf) := decode c_u64 buf in
  if VEC_DECODE_LIMIT <? cap then Err AllocationLimit else Ok (with_capacity cap, buf).

(** [Vec<u8>]: bytes are not padded one by one. *)
Fixpoint read_bytes_loop (n : nat) (buf : list byte) : decoded (list byte) :=
  match n with
  | O => Ok ([], buf)
  | S n =>
      let? '(b, buf) := read_byte buf in
      let? '(l, buf) := read_bytes_loop n buf in
      Ok (b :: l, buf)
  end.
Definition c_bytes : Codec (list byte) := {|
  Static := Z;
  size_static _ := 8;
  size_dynamic l := aligned_size (zlen l);
  encode_static := vec_encode_static;
  encode_dynamic l := Ok (l ++ padding (zlen l));
  decode_static := vec_decode_static;
  decode_dynamic capacity buf :=
    let? '(l, buf) := read_bytes_loop (Z.to_nat capacity) buf in
    let? buf := input_skip (alignment_bytes capacity) buf in
    Ok (l, buf)
|}.

(** [Vec<T>] for the other types. *)
Context {T : Type} (c : Codec T).

(** [iter().map(..).reduce(usize::saturating_add).unwrap_or_default()] *)
Definition sum_sizes (f : T -> Z) (l : list T) : Z :=
  match l with
  | [] => 0
  | x :: l => foldl (fun acc y => saturating_add acc (f y)) (f x) l
  end.
Fixpoint encode_all (f : T -> outcome CanonicalError (list byte)) (l : list T)
  : outcome CanonicalError (list byte) :=
  match l with
  | [] => Ok []
  | x :: l =>
      let? b := f x in
      let? bs := encode_all f l in
      Ok (b ++ bs)
  end.
Fixpoint decode_loop (n : nat) (buf : list byte) : decoded (list T) :=
  match n with
  | O => Ok ([], buf)
  | S n =>
      let? '(x, buf) := decode c buf in
      let? '(l, buf) := decode_loop n buf in
      Ok (x :: l, buf)
  end.
Definition c_vec : Codec (list T) := {|
  Static := Z;
  size_static _ := 8;
  size_dynamic l := aligned_size (sum_sizes (size c) l);
  encode_static := vec_encode_static;
  encode_dynamic := encode_all (encode c);
  decode_static := vec_decode_static;
  decode_dynamic capacity := decode_loop (Z.to_nat capacity)
|}.
End Vec.

(** ** Arrays *)

(** [[u8; N]] *)
Definition c_array (n : Z) : Codec (list byte) := {|
  Static := list byte;
  size_static _ := aligned_size n;
  size_dynamic _ := 0;
  encode_static l := Ok (l ++ padding n);
  encode_dynamic _ := Ok [];
  decode_static buf :=
    let? '(bytes, buf) := input_read n buf in
    let? buf := input_skip (alignment_bytes n) buf in
    Ok (bytes, buf);
  decode_dynamic bytes buf := Ok (bytes, buf)
|}.

(** [[T; N]] for the other types. *)
Section Array.
Context {T : Type} (c : Codec T) (n : nat).

Fixpoint array_decode_static (n : nat) (buf : list byte) : decoded (list (Static c)) :=
  match n with
  | O => Ok ([], buf)
  | S n =>
      let? '(x, buf) := decode_static c buf in
      let? '(l, buf) := array_decode_static n buf in
      Ok (x :: l, buf)
  end.
Fixpoint array_decode_dynamic (s : list (Static c)) (buf : list byte) : decoded (list T) :=
  match s with
  | [] => Ok ([], buf)
  | x :: s =>
      let? '(y, buf) := decode_dynamic c x buf in
      let? '(l, buf) := array_decode_dynamic s buf in
      Ok (y :: l, buf)
  end.
Definition c_array_of : Codec (list T) := {|
  Static := list (Static c);
  size_static l := aligned_size (sum_sizes (size_static c) l);
  size_dynamic l := aligned_size (sum_sizes (size_dynamic c) l);
  encode_static := encode_all (encode_static c);
  encode_dynamic := encode_all (encode_dynamic c);
  decode_static := array_decode_static n;
  decode_dynamic := array_decode_dynamic
|}.
End Array.

(** ** Derived code *)

(** The fields of a structure, in order (serialize.rs, deserialize.rs). *)
Definition c_pair {A B} (a : Codec A) (b : Codec B) : Codec (A * B) := {|
  Static := Static a * Static b;
  size_static x := saturating_add (size_static a x.1) (size_static b x.2);
  size_dynamic x := saturating_add (size_dynamic a x.1) (size_dynamic b x.2);
  encode_static x :=
    let? s := encode_static a x.1 in
    let? t := encode_static b x.2 in
    Ok (s ++ t);
  encode_dynamic x :=
    let? s := encode_dynamic a x.1 in
    let? t := encode_dynamic b x.2 in
    Ok (s ++ t);
  decode_static buf :=
    let? '(s, buf) := decode_static a buf in
    let? '(t, buf) := decode_static b buf in
    Ok ((s, t), buf);
  decode_dynamic st buf :=
    let? '(x, buf) := decode_dynamic a st.1 buf in
    let? '(y, buf) := decode_dynamic b st.2 buf in
    Ok ((x, y), buf)
|}.

(** A structure with the fields [to x], built by [of_]; [SA] is the partly filled structure. *)
Definition c_struct {A B} (c : Codec B) (to : A -> B) (of_ : B -> A) {SA}
    (static_to : SA -> Static c) (static_of : Static c -> SA) : Codec A := {|
  Static := SA;
  size_static x := size_static c (to x);
  size_dynamic x := size_dynamic c (to x);
  encode_static x := encode_static c (to x);
  encode_dynamic x := encode_dynamic c (to x);
  decode_static buf :=
    let? '(s, buf) := decode_static c buf in
    Ok (static_of s, buf);
  decode_dynamic s buf :=
    let? '(x, buf) := decode_dynamic c (static_to s) buf in
    Ok (of_ x, buf)
|}.

(** An enumeration without fields, with the discriminants [to]. *)
Definition c_repr {A} (to : A -> Z) (of_ : Z -> option A) : Codec A := {|
  Static := A;
  size_static _ := 8;
  size_dynamic _ := 0;
  encode_static x := encode c_u64 (to x);
  encode_dynamic _ := Ok [];
  decode_static buf :=
    let? '(d, buf) := decode c_u64 buf in
    let? x := ok_or (of_ d) UnknownDiscriminant in
    Ok (x, buf);
  decode_dynamic x buf := Ok (x, buf)
|}.

(** [#[canonical(prefix = ..)]] *)
Definition c_prefixed {A} (c : Codec A) {P} `{EqDecision P} (to : P -> Z) (of_ : Z -> option P)
    (prefix : P) : Codec A := {|
  Static := Static c;
  size_static x := saturating_add 8 (size_static c x);
  size_dynamic := size_dynamic c;
  encode_static x :=
    let? p := encode (c_repr to of_) prefix in
    let? s := encode_static c x in
    Ok (p ++ s);
  encode_dynamic := encode_dynamic c;
  decode_static buf :=
    match decode_static (c_repr to of_) buf with
    | Ok (p, buf) => if decide (p = prefix) then decode_static c buf else Err InvalidPrefix
    | Err _ => Err InvalidPrefix
    | Crash => Crash
    end;
  decode_dynamic := decode_dynamic c
|}.

(** A variant of an enumeration: its discriminant, its fields, how it is built and matched. *)
Record Variant (T : Type) : Type := mkVariant {
  v_discriminant : Z;
  v_fields : Type;
  v_codec : Codec v_fields;
  v_make : v_fields -> T;
  v_match : T -> option v_fields
}.
Arguments v_discriminant {T} _.
Arguments v_fields {T} _.
Arguments v_codec {T} _.
Arguments v_make {T} _ _.
Arguments v_match {T} _ _.

Section Enum.
Context {T : Type}.
Implicit Types (vs : list (Variant T)).

(** The partly filled variant. *)
Fixpoint enum_static vs : Type :=
  match vs with
  | [] => Empty_set
  | v :: vs => Static (v_codec v) + enum_static vs
  end.

(** [match self { V1 {..} => .., V2 {..} => .. }] *)
Fixpoint enum_size (f : forall v : Variant T, v_fields v -> Z) vs (x : T) : Z :=
  match vs with
  | [] => 0
  | v :: vs =>
      match v_match v x with
      | Some y => f v y
      | None => enum_size f vs x
      end
  end.
Fixpoint enum_encode (f : forall v : Variant T, v_fields v -> outcome CanonicalError (list byte))
    vs (x : T) : outcome CanonicalError (list byte) :=
  match vs with
  | [] => Err UnknownDiscriminant
  | v :: vs =>
      match v_match v x with
      | Some y => f v y
      | None => enum_encode f vs x
      end
  end.
Fixpoint enum_decode_static vs (d : Z) (buf : list byte) : decoded (enum_static vs) :=
  match vs with
  | [] => Err UnknownDiscriminant
  | v :: vs =>
      if d =? v_discriminant v then
        let? '(s, buf) := decode_static (v_codec v) buf in
        Ok (inl s, buf)
      else
        let? '(s, buf) := enum_decode_static vs d buf in
        Ok (inr s, buf)
  end.
Fixpoint enum_decode_dynamic vs : enum_static vs -> list byte -> decoded T :=
  match vs with
  | [] => fun s _ => match s with end
  | v :: vs => fun s buf =>
      match s with
      | inl s =>
          let? '(y, buf) := decode_dynamic (v_codec v) s buf in
          Ok (v_make v y, buf)
      | inr s => enum_decode_dynamic vs s buf
      end
  end.

Definition c_enum vs : Codec T := {|
  Static := enum_static vs;
  size_static := enum_size (fun v y => saturating_add 8 (size_static (v_codec v) y)) vs;
  size_dynamic := enum_size (fun v y => size_dynamic (v_codec v) y) vs;
  encode_static := enum_encode (fun v y =>
    let? d := encode c_u64 (v_discriminant v) in
    let? s := encode_static (v_codec v) y in
    Ok (d ++ s)) vs;
  encode_dynamic := enum_encode (fun v y => encode_dynamic (v_codec v) y) vs;
  decode_static buf :=
    let? '(d, buf) := decode c_u64 buf in
    enum_decode_static vs d buf;
  decode_dynamic := enum_decode_dynamic vs
|}.
End Enum.

(** ** The contract *)

Definition USIZE_MAX : Z := U64 - 1.

(** [s] is what decoding the static part of [x] yields; [bs] and [bd] are the two parts. *)
Record encodes {T} (c : Codec T) (x : T) (s : Static c) (bs bd : list byte) : Prop := {
  en_static : encode_static c x = Ok bs;
  en_dynamic : encode_dynamic c x = Ok bd;
  en_size_static : size_static c x = Z.min (zlen bs) USIZE_MAX;
  en_size_dynamic : size_dynamic c x = Z.min (zlen bd) USIZE_MAX;
  en_aligned_static : zlen bs mod ALIGN = 0;
  en_aligned_dynamic : zlen bd mod ALIGN = 0;
  en_decode_static rest : decode_static c (bs ++ rest) = Ok (s, rest);
  en_decode_dynamic rest : decode_dynamic c s (bd ++ rest) = Ok (x, rest)
}.

Definition lawful {T} (c : Codec T) (valid : T -> Prop) : Prop :=
  forall x, valid x -> exists s bs bd, encodes c x s bs bd.

Lemma saturating_add_min a b :
  0 <= a -> 0 <= b ->
  saturating_add (Z.min a USIZE_MAX) (Z.min b USIZE_MAX) = Z.min (a + b) USIZE_MAX.
Proof. unfold saturating_add, USIZE_MAX. lia. Qed.

Lemma alignment_bytes_range n : 0 <= alignment_bytes n < 8 /\ (n + alignment_bytes n) mod ALIGN = 0.
Proof.
  unfold alignment_bytes, ALIGN. pose proof (Z.mod_pos_bound n 8 ltac:(lia)).
  case_if; [split; [lia|by rewrite Z.add_0_r]|]. split; [lia|].
  replace (n + (8 - n mod 8)) with ((n / 8 + 1) * 8) by (pose proof (Z.div_mod n 8); lia).
  apply Z_mod_mult.
Qed.

Lemma alignment_bytes_aligned n : n mod ALIGN = 0 -> alignment_bytes n = 0.
Proof. intros E. unfold alignment_bytes. by rewrite E. Qed.

Lemma zlen_padding n : zlen (padding n) = alignment_bytes n.
Proof.
  unfold padding. rewrite zlen_replicate. pose proof (alignment_bytes_range n) as [? _]. lia.
Qed.

Lemma aligned_size_min n :
  0 <= n -> aligned_size (Z.min n USIZE_MAX) = Z.min (n + alignment_bytes n) USIZE_MAX.
Proof.
  intros Hn. pose proof (alignment_bytes_range n) as [? _].
  unfold aligned_size, saturating_add, USIZE_MAX in *.
  destruct (Z.min_spec n (U64 - 1)) as [[? ->]|[? ->]]; [done|].
  change (alignment_bytes (U64 - 1)) with 1. lia.
Qed.

Lemma mod_add_0 a b : a mod ALIGN = 0 -> b mod ALIGN = 0 -> (a + b) mod ALIGN = 0.
Proof. intros Ha Hb. by rewrite Zplus_mod, Ha, Hb. Qed.

Lemma input_skip_app a rest : input_skip (zlen a) (a ++ rest) = Ok rest.
Proof.
  unfold input_skip. rewrite zlen_app. pose proof (zlen_nonneg rest). case_if; [lia|].
  by rewrite drop_app_length' by (unfold zlen; lia).
Qed.

Lemma input_read_app a rest : input_read (zlen a) (a ++ rest) = Ok (a, rest).
Proof.
  unfold input_read. rewrite zlen_app. pose proof (zlen_nonneg rest). case_if; [lia|].
  by rewrite take_app_length', drop_app_length' by (unfold zlen; lia).
Qed.

Lemma read_bytes_loop_app l rest : read_bytes_loop (length l) (l ++ rest) = Ok (l, rest).
Proof. induction l as [|b l IH]; [done|]. cbn. by rewrite IH. Qed.

(** The whole encoding. *)
Lemma encodes_all {T} (c : Codec T) x s bs bd :
  encodes c x s bs bd ->
  encode c x = Ok (bs ++ bd) /\ size c x = Z.min (zlen (bs ++ bd)) USIZE_MAX /\
  zlen (bs ++ bd) mod ALIGN = 0 /\ forall rest, decode c ((bs ++ bd) ++ rest) = Ok (x, rest).
Proof.
  intros []. unfold encode, size, decode. rewrite en_static0, en_dynamic0. cbn.
  rewrite en_size_static0, en_size_dynamic0, saturating_add_min, zlen_app by apply zlen_nonneg.
  split_and!; [done|done|by apply mod_add_0|]. intros rest.
  rewrite <- app_assoc, en_decode_static0. cbn. apply en_decode_dynamic0.
Qed.

(** ** Primitives and containers are lawful *)

Lemma c_uint_encodes n x :
  0 <= x < 256 ^ Z.of_nat n ->
  encodes (c_uint n) x x (padding (Z.of_nat n) ++ to_be_bytes n x) [].
Proof.
  intros Hx. pose proof (alignment_bytes_range (Z.of_nat n)) as [? Ha].
  assert (Hl : zlen (padding (Z.of_nat n) ++ to_be_bytes n x) = Z.of_nat n + alignment_bytes (Z.of_nat n))
    by (rewrite zlen_app, zlen_padding, zlen_to_be_bytes; lia).
  split; try done; cbn [c_uint size_static decode_static].
  - by rewrite Hl.
  - by rewrite Hl.
  - intros rest. rewrite <- zlen_padding, <- app_assoc, input_skip_app. cbn [obind].
    rewrite <- (zlen_to_be_bytes n x), input_read_app. cbn [obind].
    by rewrite to_from_be_bytes.
Qed.

Lemma c_uint_lawful n : lawful (c_uint n) (fun x => 0 <= x < 256 ^ Z.of_nat n).
Proof. intros x Hx. eexists _, _, _. by apply c_uint_encodes. Qed.

Lemma c_unit_lawful : lawful c_unit (fun _ => True).
Proof. intros [] _. by exists tt, [], []. Qed.

Lemma c_array_encodes n l :
  zlen l = n -> encodes (c_array n) l l (l ++ padding n) [].
Proof.
  intros Hl. pose proof (alignment_bytes_range n) as [? Ha].
  assert (Hz : zlen (l ++ padding n) = n + alignment_bytes n)
    by (rewrite zlen_app, zlen_padding; lia).
  split; try done; cbn [c_array size_static decode_static].
  - by rewrite Hz.
  - by rewrite Hz.
  - intros rest. replace (input_read n) with (input_read (zlen l)) by congruence.
    rewrite <- app_assoc, input_read_app. cbn [obind].
    by rewrite <- zlen_padding, input_skip_app.
Qed.

Lemma c_array_lawful n : lawful (c_array n) (fun l => zlen l = n).
Proof. intros l Hl. eexists _, _, _. by apply c_array_encodes. Qed.

(** The length of a vector. *)
Definition vec_ok {T} (l : list T) : Prop := zlen l <= VEC_DECODE_LIMIT.

Section VecLaws.
Context `{Alloc} `{!ExactAlloc}.

Lemma vec_static {T} (l : list T) :
  vec_ok l ->
  vec_encode_static l = Ok (to_be_bytes 8 (zlen l)) /\
  forall rest, vec_decode_static (to_be_bytes 8 (zlen l) ++ rest) = Ok (zlen l, rest).
Proof.
  unfold vec_ok, VEC_DECODE_LIMIT. intros Hl. pose proof (zlen_nonneg l).
  assert (Hr : 0 <= zlen l < 256 ^ Z.of_nat 8) by (change (256 ^ Z.of_nat 8) with U64; lia).
  destruct (encodes_all _ _ _ _ _ (c_uint_encodes 8 (zlen l) Hr)) as (He & _ & _ & Hd).
  rewrite app_nil_r in He, Hd. change (padding (Z.of_nat 8) ++ ?t) with t in He, Hd.
  unfold vec_encode_static, vec_decode_static, VEC_DECODE_LIMIT. split.
  - case_if; [lia|]. exact He.
  - intros rest. rewrite Hd. cbn [obind]. case_if; [lia|]. by rewrite with_capacity_exact.
Qed.

Lemma c_bytes_encodes l :
  vec_ok l -> encodes c_bytes l (zlen l) (to_be_bytes 8 (zlen l)) (l ++ padding (zlen l)).
Proof.
  intros Hl. destruct (vec_static l Hl) as [He Hd]. pose proof (alignment_bytes_range (zlen l)) as [? Ha].
  split; cbn [c_bytes size_static size_dynamic encode_static encode_dynamic decode_static decode_dynamic];
    try done.
  - by rewrite zlen_app, zlen_padding.
  - by rewrite zlen_app, zlen_padding.
  - intros rest. replace (Z.to_nat (zlen l)) with (length l) by (unfold zlen; lia).
    rewrite <- app_assoc, read_bytes_loop_app. cbn [obind]. by rewrite <- zlen_padding, input_skip_app.
Qed.

Lemma c_bytes_lawful : lawful c_bytes vec_ok.
Proof. intros l Hl. eexists _, _, _. by apply c_bytes_encodes. Qed.

(** The elements of a vector, one after the other. *)
Inductive encodes_list {T} (c : Codec T) : list T -> list byte -> Prop :=
| el_nil : encodes_list c [] []
| el_cons x l s bs bd rest :
    encodes c x s bs bd -> encodes_list c l rest -> encodes_list c (x :: l) ((bs ++ bd) ++ rest).

Lemma encodes_list_valid {T} (c : Codec T) valid l :
  lawful c valid -> Forall valid l -> exists bs, encodes_list c l bs.
Proof.
  intros Hc. induction 1 as [|x l Hx Hl (bs & IH)]; [eexists; constructor|].
  destruct (Hc x Hx) as (s & b1 & b2 & He). eexists. by econstructor.
Qed.

Lemma foldl_encodings {T} (c : Codec T) l bs (f : T -> Z) :
  encodes_list c l bs -> (forall x s b1 b2, encodes c x s b1 b2 -> f x = Z.min (zlen (b1 ++ b2)) USIZE_MAX) ->
  forall a, 0 <= a ->
  foldl (fun acc y => saturating_add acc (f y)) (Z.min a USIZE_MAX) l = Z.min (a + zlen bs) USIZE_MAX.
Proof.
  intros Hl Hf. induction Hl as [|x l s b1 b2 rest He Hl IH]; intros a Ha; cbn [foldl].
  - change (zlen []) with 0. by rewrite Z.add_0_r.
  - pose proof (zlen_nonneg (b1 ++ b2)).
    rewrite (Hf _ _ _ _ He), saturating_add_min, IH, (zlen_app (b1 ++ b2) rest) by lia. f_equal. lia.
Qed.

Lemma encodes_list_spec {T} (c : Codec T) l bs :
  encodes_list c l bs ->
  encode_all (encode c) l = Ok bs /\ zlen bs mod ALIGN = 0 /\
  sum_sizes (size c) l = Z.min (zlen bs) USIZE_MAX /\
  forall rest, decode_loop c (length l) (bs ++ rest) = Ok (l, rest).
Proof.
  intros Hl. assert (Hsum : sum_sizes (size c) l = Z.min (zlen bs) USIZE_MAX).
  { destruct Hl as [|x l s b1 b2 rest He Hl]; [done|]. cbn [sum_sizes].
    assert (Hsz : forall y t c1 c2, encodes c y t c1 c2 -> size c y = Z.min (zlen (c1 ++ c2)) USIZE_MAX)
      by (intros y t c1 c2 Hy; by apply encodes_all in Hy as (_ & ? & _)).
    rewrite (Hsz _ _ _ _ He), (foldl_encodings c l rest) by (done || apply zlen_nonneg).
    by rewrite (zlen_app (b1 ++ b2) rest). }
  split_and!; [|  |done|]; clear Hsum.
  - induction Hl as [|x l s b1 b2 rest He Hl IH]; [done|]. cbn [encode_all].
    apply encodes_all in He as (-> & _). cbn [obind]. by rewrite IH.
  - induction Hl as [|x l s b1 b2 rest He Hl IH]; [done|]. rewrite zlen_app.
    apply encodes_all in He as (_ & _ & ? & _). by apply mod_add_0.
  - induction Hl as [|x l s b1 b2 bs He Hl IH]; intros rest; [done|]. cbn [length decode_loop].
    apply encodes_all in He as (_ & _ & _ & Hd). rewrite <- (app_assoc (b1 ++ b2)), Hd. cbn [obind].
    by rewrite IH.
Qed.

Lemma c_vec_encodes {T} (c : Codec T) l bs :
  vec_ok l -> encodes_list c l bs -> encodes (c_vec c) l (zlen l) (to_be_bytes 8 (zlen l)) bs.
Proof.
  intros Hl Hbs. destruct (vec_static l Hl) as [He Hd].
  destruct (encodes_list_spec c l bs Hbs) as (Ha & Hal & Hs & Hdec).
  split; cbn [c_vec size_static size_dynamic encode_static encode_dynamic decode_static decode_dynamic];
    try done.
  - rewrite Hs, aligned_size_min, alignment_bytes_aligned, Z.add_0_r by (done || apply zlen_nonneg). done.
  - intros rest. replace (Z.to_nat (zlen l)) with (length l) by (unfold zlen; lia). apply Hdec.
Qed.

Lemma c_vec_lawful {T} (c : Codec T) valid :
  lawful c valid -> lawful (c_vec c) (fun l => vec_ok l /\ Forall valid l).
Proof.
  intros Hc l [Hl Hv]. destruct (encodes_list_valid c valid l Hc Hv) as [bs Hbs].
  eexists _, _, _. by apply c_vec_encodes.
Qed.
End VecLaws.

(** ** Derived code is lawful *)

Lemma c_pair_encodes {A B} (a : Codec A) (b : Codec B) x y s t b1 b2 d1 d2 :
  encodes a x s b1 d1 -> encodes b y t b2 d2 ->
  encodes (c_pair a b) (x, y) (s, t) (b1 ++ b2) (d1 ++ d2).
Proof.
  intros [] [].
  split; cbn [c_pair size_static size_dynamic encode_static encode_dynamic decode_static decode_dynamic fst snd].
  - by rewrite en_static0, en_static1.
  - by rewrite en_dynamic0, en_dynamic1.
  - by rewrite en_size_static0, en_size_static1, saturating_add_min, zlen_app by apply zlen_nonneg.
  - by rewrite en_size_dynamic0, en_size_dynamic1, saturating_add_min, zlen_app by apply zlen_nonneg.
  - rewrite zlen_app. by apply mod_add_0.
  - rewrite zlen_app. by apply mod_add_0.
  - intros rest. rewrite <- app_assoc, en_decode_static0. cbn [obind]. by rewrite en_decode_static1.
  - intros rest. rewrite <- app_assoc, en_decode_dynamic0. cbn [obind]. by rewrite en_decode_dynamic1.
Qed.

Lemma c_pair_lawful {A B} (a : Codec A) (b : Codec B) va vb :
  lawful a va -> lawful b vb -> lawful (c_pair a b) (fun x => va x.1 /\ vb x.2).
Proof.
  intros Ha Hb [x y] [Hx Hy]. destruct (Ha x Hx) as (s & b1 & d1 & H1), (Hb y Hy) as (t & b2 & d2 & H2).
  eexists _, _, _. by apply c_pair_encodes.
Qed.

Lemma c_struct_encodes {A B} (c : Codec B) (to : A -> B) of_ SA (sto : SA -> Static c) sof x s bs bd :
  of_ (to x) = x -> sto (sof s) = s -> encodes c (to x) s bs bd ->
  encodes (c_struct c to of_ sto sof) x (sof s) bs bd.
Proof.
  intros Ho Hs []. split; try done; cbn [c_struct decode_static decode_dynamic].
  - intros rest. by rewrite en_decode_static0.
  - intros rest. rewrite Hs, en_decode_dynamic0. cbn [obind]. by rewrite Ho.
Qed.

Lemma c_repr_encodes {A} (to : A -> Z) of_ x :
  0 <= to x < U64 -> of_ (to x) = Some x ->
  encodes (c_repr to of_) x x (to_be_bytes 8 (to x)) [].
Proof.
  intros Hr Ho.
  destruct (encodes_all _ _ _ _ _ (c_uint_encodes 8 (to x) Hr)) as (He & _ & _ & Hd).
  rewrite app_nil_r in He, Hd. change (padding (Z.of_nat 8) ++ ?t) with t in He, Hd.
  split; try done. intros rest. cbn [c_repr decode_static]. change c_u64 with (c_uint 8).
  rewrite Hd. cbn [obind]. by rewrite Ho.
Qed.

Lemma c_prefixed_encodes {A} (c : Codec A) {P} `{EqDecision P} (to : P -> Z) of_ (prefix : P) x s bs bd :
  0 <= to prefix < U64 -> of_ (to prefix) = Some prefix -> encodes c x s bs bd ->
  encodes (c_prefixed c to of_ prefix) x s (to_be_bytes 8 (to prefix) ++ bs) bd.
Proof.
  intros Hr Ho []. pose proof (c_repr_encodes to of_ prefix Hr Ho) as Hp.
  destruct (encodes_all _ _ _ _ _ Hp) as (He & _). rewrite app_nil_r in He.
  split; try done; cbn [c_prefixed size_static encode_static decode_static].
  - by rewrite He, en_static0.
  - rewrite en_size_static0, zlen_app, zlen_to_be_bytes. change 8 with (Z.min 8 USIZE_MAX) at 1.
    by rewrite saturating_add_min by (done || apply zlen_nonneg).
  - rewrite zlen_app, zlen_to_be_bytes. by apply mod_add_0.
  - intros rest. rewrite <- app_assoc, (en_decode_static _ _ _ _ _ Hp). by case_decide.
Qed.

(** [x] is matched by a variant of [vs] with the discriminant [d] and lawful fields. *)
Inductive enum_matches {T} (d : Z) (x : T) : list (Variant T) -> Prop :=
| em_here v vs y s bs bd :
    v_match v x = Some y -> v_make v y = x -> v_discriminant v = d ->
    encodes (v_codec v) y s bs bd -> enum_matches d x (v :: vs)
| em_later v vs :
    v_match v x = None -> d <> v_discriminant v -> enum_matches d x vs ->
    enum_matches d x (v :: vs).

Lemma c_enum_encodes {T} (d : Z) (x : T) vs :
  0 <= d < U64 -> enum_matches d x vs -> exists s bs bd, encodes (c_enum vs) x s bs bd.
Proof.
  intros Hd Hm.
  destruct (encodes_all _ _ _ _ _ (c_uint_encodes 8 d Hd)) as (He & _ & _ & Hdec).
  rewrite app_nil_r in He, Hdec. change (padding (Z.of_nat 8) ++ ?t) with t in He, Hdec.
  cut (exists s b bd,
    encode_static (c_enum vs) x = Ok (to_be_bytes 8 d ++ b) /\ encode_dynamic (c_enum vs) x = Ok bd /\
    size_static (c_enum vs) x = Z.min (8 + zlen b) USIZE_MAX /\
    size_dynamic (c_enum vs) x = Z.min (zlen bd) USIZE_MAX /\
    zlen b mod ALIGN = 0 /\ zlen bd mod ALIGN = 0 /\
    (forall rest, enum_decode_static vs d (b ++ rest) = Ok (s, rest)) /\
    (forall rest, enum_decode_dynamic vs s (bd ++ rest) = Ok (x, rest))).
  { intros (s & b & bd & H1 & H2 & H3 & H4 & H5 & H6 & H7 & H8).
    exists s, (to_be_bytes 8 d ++ b), bd. split; try done.
    - by rewrite H3, zlen_app, zlen_to_be_bytes.
    - rewrite zlen_app, zlen_to_be_bytes. by apply mod_add_0.
    - intros rest. cbn [c_enum decode_static]. change c_u64 with (c_uint 8).
      rewrite <- app_assoc, Hdec. cbn [obind]. apply H7. }
  induction Hm as [v vs y s bs bd Hv Hy Hvd []|v vs Hv Hne Hm (s & b & bd & H1 & H2 & H3 & H4 & H5 & H6 & H7 & H8)].
  - exists (inl s), bs, bd. cbn [c_enum encode_static encode_dynamic size_static size_dynamic
      enum_encode enum_size enum_decode_static enum_decode_dynamic].
    rewrite Hv, Hvd, en_static0, en_dynamic0, en_size_static0, en_size_dynamic0.
    change c_u64 with (c_uint 8). rewrite He. cbn [obind]. split_and!; try done.
    + change 8 with (Z.min 8 USIZE_MAX) at 1. by rewrite saturating_add_min by (done || apply zlen_nonneg).
    + intros rest. rewrite Z.eqb_refl, en_decode_static0. done.
    + intros rest. rewrite en_decode_dynamic0. cbn [obind]. by rewrite Hy.
  - exists (inr s), b, bd. cbn [c_enum encode_static encode_dynamic size_static size_dynamic
      enum_encode enum_size enum_decode_static enum_decode_dynamic] in *.
    rewrite Hv. split_and!; try done.
    intros rest. case_if; [lia|]. by rewrite H7.
Qed.

(** ** Injectivity *)

Lemma encodes_fun {T} (c : Codec T) x s bs bd s' bs' bd' :
  encodes c x s bs bd -> encodes c x s' bs' bd' -> bs' = bs /\ bd' = bd.
Proof. intros [] []. split; congruence. Qed.

Lemma lawful_inj {T} (c : Codec T) valid x y bs :
  lawful c valid -> valid x -> valid y -> encode c x = Ok bs -> encode c y = Ok bs ->
  x = y.
Proof.
  intros Hc Hx Hy E1 E2.
  destruct (Hc x Hx) as (s & b1 & d1 & H1), (Hc y Hy) as (t & b2 & d2 & H2).
  apply encodes_all in H1 as (F1 & _ & _ & D1), H2 as (F2 & _ & _ & D2).
  rewrite F1 in E1. rewrite F2 in E2. specialize (D1 []). specialize (D2 []). congruence.
Qed.
