(* ===== verification/TxTypes.v ===== *)
(** * Transactions and their encodings

    The data types of src/fuel-tx/src/transaction.rs and transaction/types/, with the derived
    and hand-written implementations of canonical serialization: inputs (types/input.rs,
    input/coin.rs, message.rs, contract.rs, repr.rs), outputs (types/output.rs), policies
    (policies.rs), the bodies of the six kinds of transaction, and the transaction itself.

    Inputs are decoded in two steps, so their types are parameterised by the type [B] of byte
    vectors: a byte list, or the capacity reserved for it. The cached metadata of transactions
    is left out (it is skipped by serialization and ignored by equality). [TxPointer] has the
    16-bit index of the default build. *)

From Stdlib Require Import Strings.Byte.
From S2P Require Import Prelude Asm Merkle Receipts Canonical.

Definition c_bytes32 : Codec Bytes32 := c_array 32.

(** ** Identifiers of outputs *)

Record UtxoId : Type := mkUtxoId { utxo_tx_id : Bytes32; utxo_output_index : Z }.
Record TxPointer : Type := mkTxPointer { txp_block_height : Z; txp_tx_index : Z }.

Definition utxo_id_fields (u : UtxoId) : Bytes32 * Z := (utxo_tx_id u, utxo_output_index u).
Definition utxo_id_of (x : Bytes32 * Z) : UtxoId := mkUtxoId x.1 x.2.
Definition c_utxo_id : Codec UtxoId :=
  c_struct (c_pair c_bytes32 c_u16) utxo_id_fields utxo_id_of utxo_id_fields utxo_id_of.

Definition tx_pointer_fields (p : TxPointer) : Z * Z := (txp_block_height p, txp_tx_index p).
Definition tx_pointer_of (x : Z * Z) : TxPointer := mkTxPointer x.1 x.2.
Definition c_tx_pointer : Codec TxPointer :=
  c_struct (c_pair c_u32 c_u16) tx_pointer_fields tx_pointer_of tx_pointer_fields tx_pointer_of.

Definition utxo_id_default : UtxoId := mkUtxoId zeroed 0.
Definition tx_pointer_default : TxPointer := mkTxPointer 0 0.

(** ** Inputs *)

(** [Empty<Type>]: encoded as the default value, decoded and dropped. *)
Inductive Empty : Type := mkEmpty.
Definition c_empty {T} (c : Codec T) (default : T) : Codec Empty := {|
  Static := Empty;
  size_static _ := size_static c default;
  size_dynamic _ := 0;
  encode_static _ := encode_static c default;
  encode_dynamic _ := Ok [];
  decode_static buf :=
    let? '(_, buf) := decode_static c buf in
    Ok (mkEmpty, buf);
  decode_dynamic _ buf := Ok (mkEmpty, buf)
|}.

(** [Coin<Specification>]: the types of the fields that depend on the specification. *)
Record Coin (W G P D : Type) : Type := mkCoin {
  coin_utxo_id : UtxoId;
  coin_owner : Bytes32;
  coin_amount : Z;
  coin_asset_id : AssetId;
  coin_tx_pointer : TxPointer;
  coin_witness_index : W;
  coin_predicate_gas_used : G;
  coin_predicate : P;
  coin_predicate_data : D
}.
Arguments mkCoin {W G P D} _ _ _ _ _ _ _ _ _.
Arguments coin_utxo_id {W G P D} _.
Arguments coin_owner {W G P D} _.
Arguments coin_amount {W G P D} _.
Arguments coin_asset_id {W G P D} _.
Arguments coin_tx_pointer {W G P D} _.
Arguments coin_witness_index {W G P D} _.
Arguments coin_predicate_gas_used {W G P D} _.
Arguments coin_predicate {W G P D} _.
Arguments coin_predicate_data {W G P D} _.

(** [CoinFull], [CoinSigned], [CoinPredicate] *)
Definition CoinFull (B : Type) : Type := Coin Z Z B B.
Definition CoinSigned : Type := Coin Z Empty Empty Empty.
Definition CoinPredicate (B : Type) : Type := Coin Empty Z B B.

Definition coin_fields {W G P D} (c : Coin W G P D) :=
  (coin_utxo_id c, (coin_owner c, (coin_amount c, (coin_asset_id c, (coin_tx_pointer c,
    (coin_witness_index c, (coin_predicate_gas_used c, (coin_predicate c,
    coin_predicate_data c)))))))).
Definition coin_of {W G P D}
    (x : UtxoId * (Bytes32 * (Z * (AssetId * (TxPointer * (W * (G * (P * D)))))))) : Coin W G P D :=
  let '(u, (o, (a, (s, (t, (w, (g, (p, d)))))))) := x in mkCoin u o a s t w g p d.

Definition c_coin {W G P D} (w : Codec W) (g : Codec G) (p : Codec P) (d : Codec D)
  : Codec (Coin W G P D) :=
  @c_struct _ _ (c_pair c_utxo_id (c_pair c_bytes32 (c_pair c_u64 (c_pair c_bytes32 (c_pair c_tx_pointer
      (c_pair w (c_pair g (c_pair p d))))))))
    coin_fields coin_of (Coin (Static w) (Static g) (Static p) (Static d)) coin_fields coin_of.

Definition into_signed {B} (c : CoinFull B) : CoinSigned :=
  mkCoin (coin_utxo_id c) (coin_owner c) (coin_amount c) (coin_asset_id c) (coin_tx_pointer c)
    (coin_witness_index c) mkEmpty mkEmpty mkEmpty.
Definition into_predicate {B} (c : CoinFull B) : CoinPredicate B :=
  mkCoin (coin_utxo_id c) (coin_owner c) (coin_amount c) (coin_asset_id c) (coin_tx_pointer c)
    mkEmpty (coin_predicate_gas_used c) (coin_predicate c) (coin_predicate_data c).

(** [Message<Specification>] *)
Record Message (W G A P D : Type) : Type := mkMessage {
  msg_sender : Bytes32;
  msg_recipient : Bytes32;
  msg_amount : Z;
  msg_nonce : Bytes32;
  msg_witness_index : W;
  msg_predicate_gas_used : G;
  msg_data : A;
  msg_predicate : P;
  msg_predicate_data : D
}.
Arguments mkMessage {W G A P D} _ _ _ _ _ _ _ _ _.
Arguments msg_sender {W G A P D} _.
Arguments msg_recipient {W G A P D} _.
Arguments msg_amount {W G A P D} _.
Arguments msg_nonce {W G A P D} _.
Arguments msg_witness_index {W G A P D} _.
Arguments msg_predicate_gas_used {W G A P D} _.
Arguments msg_data {W G A P D} _.
Arguments msg_predicate {W G A P D} _.
Arguments msg_predicate_data {W G A P D} _.

Definition FullMessage (B : Type) : Type := Message Z Z B B B.
Definition MessageDataSigned (B : Type) : Type := Message Z Empty B Empty Empty.
Definition MessageDataPredicate (B : Type) : Type := Message Empty Z B B B.
Definition MessageCoinSigned : Type := Message Z Empty Empty Empty Empty.
Definition MessageCoinPredicate (B : Type) : Type := Message Empty Z Empty B B.

Definition message_fields {W G A P D} (m : Message W G A P D) :=
  (msg_sender m, (msg_recipient m, (msg_amount m, (msg_nonce m, (msg_witness_index m,
    (msg_predicate_gas_used m, (msg_data m, (msg_predicate m, msg_predicate_data m)))))))).
Definition message_of {W G A P D}
    (x : Bytes32 * (Bytes32 * (Z * (Bytes32 * (W * (G * (A * (P * D)))))))) : Message W G A P D :=
  let '(s, (r, (a, (n, (w, (g, (b, (p, d)))))))) := x in mkMessage s r a n w g b p d.

Definition c_message {W G A P D} (w : Codec W) (g : Codec G) (a : Codec A) (p : Codec P) (d : Codec D)
  : Codec (Message W G A P D) :=
  @c_struct _ _ (c_pair c_bytes32 (c_pair c_bytes32 (c_pair c_u64 (c_pair c_bytes32
      (c_pair w (c_pair g (c_pair a (c_pair p d))))))))
    message_fields message_of (Message (Static w) (Static g) (Static a) (Static p) (Static d))
    message_fields message_of.

Definition into_message_data_signed {B} (m : FullMessage B) : MessageDataSigned B :=
  mkMessage (msg_sender m) (msg_recipient m) (msg_amount m) (msg_nonce m) (msg_witness_index m)
    mkEmpty (msg_data m) mkEmpty mkEmpty.
Definition into_message_data_predicate {B} (m : FullMessage B) : MessageDataPredicate B :=
  mkMessage (msg_sender m) (msg_recipient m) (msg_amount m) (msg_nonce m) mkEmpty
    (msg_predicate_gas_used m) (msg_data m) (msg_predicate m) (msg_predicate_data m).
Definition into_coin_signed {B} (m : FullMessage B) : MessageCoinSigned :=
  mkMessage (msg_sender m) (msg_recipient m) (msg_amount m) (msg_nonce m) (msg_witness_index m)
    mkEmpty mkEmpty mkEmpty mkEmpty.
Definition into_coin_predicate {B} (m : FullMessage B) : MessageCoinPredicate B :=
  mkMessage (msg_sender m) (msg_recipient m) (msg_amount m) (msg_nonce m) mkEmpty
    (msg_predicate_gas_used m) mkEmpty (msg_predicate m) (msg_predicate_data m).

(** [input::contract::Contract] *)
Record InputContract : Type := mkInputContract {
  inc_utxo_id : UtxoId;
  inc_balance_root : Bytes32;
  inc_state_root : Bytes32;
  inc_tx_pointer : TxPointer;
  inc_contract_id : ContractId
}.
Definition input_contract_fields (c : InputContract) :=
  (inc_utxo_id c, (inc_balance_root c, (inc_state_root c, (inc_tx_pointer c, inc_contract_id c)))).
Definition input_contract_of (x : UtxoId * (Bytes32 * (Bytes32 * (TxPointer * ContractId)))) : InputContract :=
  let '(u, (b, (s, (t, i)))) := x in mkInputContract u b s t i.
Definition c_input_contract : Codec InputContract :=
  c_struct (c_pair c_utxo_id (c_pair c_bytes32 (c_pair c_bytes32 (c_pair c_tx_pointer c_bytes32))))
    input_contract_fields input_contract_of input_contract_fields input_contract_of.

(** [Input] *)
Inductive Input_ (B : Type) : Type :=
| Input_CoinSigned (coin : CoinSigned)
| Input_CoinPredicate (coin : CoinPredicate B)
| Input_Contract (contract : InputContract)
| Input_MessageCoinSigned (message : MessageCoinSigned)
| Input_MessageCoinPredicate (message : MessageCoinPredicate B)
| Input_MessageDataSigned (message : MessageDataSigned B)
| Input_MessageDataPredicate (message : MessageDataPredicate B).
Arguments Input_CoinSigned {B} _.
Arguments Input_CoinPredicate {B} _.
Arguments Input_Contract {B} _.
Arguments Input_MessageCoinSigned {B} _.
Arguments Input_MessageCoinPredicate {B} _.
Arguments Input_MessageDataSigned {B} _.
Arguments Input_MessageDataPredicate {B} _.
Definition Input : Type := Input_ (list byte).

Inductive InputRepr : Type := InputRepr_Coin | InputRepr_Contract | InputRepr_Message.
Definition input_repr_to (r : InputRepr) : Z :=
  match r with InputRepr_Coin => 0 | InputRepr_Contract => 1 | InputRepr_Message => 2 end.
Definition input_repr_of (d : Z) : option InputRepr :=
  match d with
  | 0 => Some InputRepr_Coin
  | 1 => Some InputRepr_Contract
  | 2 => Some InputRepr_Message
  | _ => None
  end.
Definition c_input_repr : Codec InputRepr := c_repr input_repr_to input_repr_of.

(** [InputRepr::from_input] *)
Definition repr_from_input {B} (i : Input_ B) : InputRepr :=
  match i with
  | Input_CoinSigned _ | Input_CoinPredicate _ => InputRepr_Coin
  | Input_Contract _ => InputRepr_Contract
  | _ => InputRepr_Message
  end.

Section InputCodec.
Context `{Alloc}.

Definition c_coin_full : Codec (CoinFull (list byte)) := c_coin c_u16 c_u64 c_bytes c_bytes.
Definition c_coin_signed : Codec CoinSigned :=
  c_coin c_u16 (c_empty c_u64 0) (c_empty c_bytes []) (c_empty c_bytes []).
Definition c_coin_predicate : Codec (CoinPredicate (list byte)) :=
  c_coin (c_empty c_u16 0) c_u64 c_bytes c_bytes.
Definition c_full_message : Codec (FullMessage (list byte)) :=
  c_message c_u16 c_u64 c_bytes c_bytes c_bytes.
Definition c_message_coin_signed : Codec MessageCoinSigned :=
  c_message c_u16 (c_empty c_u64 0) (c_empty c_bytes []) (c_empty c_bytes []) (c_empty c_bytes []).
Definition c_message_coin_predicate : Codec (MessageCoinPredicate (list byte)) :=
  c_message (c_empty c_u16 0) c_u64 (c_empty c_bytes []) c_bytes c_bytes.
Definition c_message_data_signed : Codec (MessageDataSigned (list byte)) :=
  c_message c_u16 (c_empty c_u64 0) c_bytes (c_empty c_bytes []) (c_empty c_bytes []).
Definition c_message_data_predicate : Codec (MessageDataPredicate (list byte)) :=
  c_message (c_empty c_u16 0) c_u64 c_bytes c_bytes c_bytes.

Definition input_size_static (i : Input) : Z :=
  saturating_add
    (match i with
     | Input_CoinSigned coin => size_static c_coin_signed coin
     | Input_CoinPredicate coin => size_static c_coin_predicate coin
     | Input_Contract contract => size_static c_input_contract contract
     | Input_MessageCoinSigned message => size_static c_message_coin_signed message
     | Input_MessageCoinPredicate message => size_static c_message_coin_predicate message
     | Input_MessageDataSigned message => size_static c_message_data_signed message
     | Input_MessageDataPredicate message => size_static c_message_data_predicate message
     end) 8.
Definition input_size_dynamic (i : Input) : Z :=
  match i with
  | Input_CoinSigned coin => size_dynamic c_coin_signed coin
  | Input_CoinPredicate coin => size_dynamic c_coin_predicate coin
  | Input_Contract contract => size_dynamic c_input_contract contract
  | Input_MessageCoinSigned message => size_dynamic c_message_coin_signed message
  | Input_MessageCoinPredicate message => size_dynamic c_message_coin_predicate message
  | Input_MessageDataSigned message => size_dynamic c_message_data_signed message
  | Input_MessageDataPredicate message => size_dynamic c_message_data_predicate message
  end.
Definition input_encode_static (i : Input) : outcome CanonicalError (list byte) :=
  let? d := encode_static c_input_repr (repr_from_input i) in
  let? b := match i with
            | Input_CoinSigned coin => encode_static c_coin_signed coin
            | Input_CoinPredicate coin => encode_static c_coin_predicate coin
            | Input_Contract contract => encode_static c_input_contract contract
            | Input_MessageCoinSigned message => encode_static c_message_coin_signed message
            | Input_MessageCoinPredicate message => encode_static c_message_coin_predicate message
            | Input_MessageDataSigned message => encode_static c_message_data_signed message
            | Input_MessageDataPredicate message => encode_static c_message_data_predicate message
            end in
  Ok (d ++ b).
Definition input_encode_dynamic (i : Input) : outcome CanonicalError (list byte) :=
  let? d := encode_dynamic c_input_repr (repr_from_input i) in
  let? b := match i with
            | Input_CoinSigned coin => encode_dynamic c_coin_signed coin
            | Input_CoinPredicate coin => encode_dynamic c_coin_predicate coin
            | Input_Contract contract => encode_dynamic c_input_contract contract
            | Input_MessageCoinSigned message => encode_dynamic c_message_coin_signed message
            | Input_MessageCoinPredicate message => encode_dynamic c_message_coin_predicate message
            | Input_MessageDataSigned message => encode_dynamic c_message_data_signed message
            | Input_MessageDataPredicate message => encode_dynamic c_message_data_predicate message
            end in
  Ok (d ++ b).

(** Which variant it is depends on the capacities read. *)
Definition input_decode_static (buf : list byte) : decoded (Input_ Z) :=
  let? '(repr, buf) := omap_err (fun _ => UnknownDiscriminant) (decode c_input_repr buf) in
  match repr with
  | InputRepr_Coin =>
      let? '(coin, buf) := decode_static c_coin_full buf in
      Ok (if coin_predicate coin =? 0 then Input_CoinSigned (into_signed coin)
          else Input_CoinPredicate (into_predicate coin), buf)
  | InputRepr_Contract =>
      let? '(contract, buf) := decode_static c_input_contract buf in
      Ok (Input_Contract contract, buf)
  | InputRepr_Message =>
      let? '(message, buf) := decode_static c_full_message buf in
      Ok (match msg_data message =? 0, msg_predicate message =? 0 with
          | true, true => Input_MessageCoinSigned (into_coin_signed message)
          | true, false => Input_MessageCoinPredicate (into_coin_predicate message)
          | false, true => Input_MessageDataSigned (into_message_data_signed message)
          | false, false => Input_MessageDataPredicate (into_message_data_predicate message)
          end, buf)
  end.
Definition input_decode_dynamic (i : Input_ Z) (buf : list byte) : decoded Input :=
  match i with
  | Input_CoinSigned coin =>
      let? '(x, buf) := decode_dynamic c_coin_signed coin buf in Ok (Input_CoinSigned x, buf)
  | Input_CoinPredicate coin =>
      let? '(x, buf) := decode_dynamic c_coin_predicate coin buf in Ok (Input_CoinPredicate x, buf)
  | Input_Contract contract =>
      let? '(x, buf) := decode_dynamic c_input_contract contract buf in Ok (Input_Contract x, buf)
  | Input_MessageCoinSigned message =>
      let? '(x, buf) := decode_dynamic c_message_coin_signed message buf in
      Ok (Input_MessageCoinSigned x, buf)
  | Input_MessageCoinPredicate message =>
      let? '(x, buf) := decode_dynamic c_message_coin_predicate message buf in
      Ok (Input_MessageCoinPredicate x, buf)
  | Input_MessageDataSigned message =>
      let? '(x, buf) := decode_dynamic c_message_data_signed message buf in
      Ok (Input_MessageDataSigned x, buf)
  | Input_MessageDataPredicate message =>
      let? '(x, buf) := decode_dynamic c_message_data_predicate message buf in
      Ok (Input_MessageDataPredicate x, buf)
  end.

Definition c_input : Codec Input := {|
  Static := Input_ Z;
  size_static := input_size_static;
  size_dynamic := input_size_dynamic;
  encode_static := input_encode_static;
  encode_dynamic := input_encode_dynamic;
  decode_static := input_decode_static;
  decode_dynamic := input_decode_dynamic
|}.
End InputCodec.

(** ** Outputs *)

(** [output::contract::Contract] *)
Record OutputContract : Type := mkOutputContract {
  outc_input_index : Z;
  outc_balance_root : Bytes32;
  outc_state_root : Bytes32
}.
Definition output_contract_fields (c : OutputContract) :=
  (outc_input_index c, (outc_balance_root c, outc_state_root c)).
Definition output_contract_of (x : Z * (Bytes32 * Bytes32)) : OutputContract :=
  let '(i, (b, s)) := x in mkOutputContract i b s.
Definition c_output_contract : Codec OutputContract :=
  c_struct (c_pair c_u16 (c_pair c_bytes32 c_bytes32))
    output_contract_fields output_contract_of output_contract_fields output_contract_of.

Inductive Output : Type :=
| Output_Coin (to : Bytes32) (amount : Z) (asset_id : AssetId)
| Output_Contract (contract : OutputContract)
| Output_Change (to : Bytes32) (amount : Z) (asset_id : AssetId)
| Output_Variable (to : Bytes32) (amount : Z) (asset_id : AssetId)
| Output_ContractCreated (contract_id : ContractId) (state_root : Bytes32).

Definition c_coin_output : Codec (Bytes32 * (Z * AssetId)) :=
  c_pair c_bytes32 (c_pair c_u64 c_bytes32).
Definition output_variants : list (Variant Output) := [
  mkVariant Output 0 _ c_coin_output (fun x => Output_Coin x.1 x.2.1 x.2.2)
    (fun o => if o is Output_Coin t a i then Some (t, (a, i)) else None);
  mkVariant Output 1 _ c_output_contract Output_Contract
    (fun o => if o is Output_Contract c then Some c else None);
  mkVariant Output 2 _ c_coin_output (fun x => Output_Change x.1 x.2.1 x.2.2)
    (fun o => if o is Output_Change t a i then Some (t, (a, i)) else None);
  mkVariant Output 3 _ c_coin_output (fun x => Output_Variable x.1 x.2.1 x.2.2)
    (fun o => if o is Output_Variable t a i then Some (t, (a, i)) else None);
  mkVariant Output 4 _ (c_pair c_bytes32 c_bytes32) (fun x => Output_ContractCreated x.1 x.2)
    (fun o => if o is Output_ContractCreated c s then Some (c, s) else None)].
Definition c_output : Codec Output := c_enum output_variants.

(** ** Policies *)

(** [bits] is a set of flags, one per policy; [values] has a word for each. *)
Record Policies : Type := mkPolicies { pol_bits : Z; pol_values : list Z }.

Inductive PolicyType : Type := Tip | WitnessLimit | Maturity | MaxFee | Expiration.
Definition policy_index (p : PolicyType) : Z :=
  match p with Tip => 0 | WitnessLimit => 1 | Maturity => 2 | MaxFee => 3 | Expiration => 4 end.
Definition all_policies : list PolicyType := [Tip; WitnessLimit; Maturity; MaxFee; Expiration].
Definition POLICIES_NUMBER : Z := 5.
(** [PoliciesBits::all().bits()] *)
Definition ALL_POLICIES_BITS : Z := 31.

(** [bits.contains(policy_type.bit())] *)
Definition policy_set (bits : Z) (p : PolicyType) : bool := Z.testbit bits (policy_index p).
(** [u32::count_ones] *)
Definition count_ones (bits : Z) : Z := zlen (filter (fun i => Z.testbit bits i = true) (seqZ 0 32)).

Definition policies_new : Policies := mkPolicies 0 (replicate 5 0).
Definition policy_value (values : list Z) (p : PolicyType) : Z :=
  default 0 (zget values (policy_index p)).
Definition policies_get (p : Policies) (t : PolicyType) : option Z :=
  if policy_set (pol_bits p) t then Some (policy_value (pol_values p) t) else None.
Definition policies_set (p : Policies) (t : PolicyType) (value : option Z) : Policies :=
  match value with
  | Some v => mkPolicies (Z.lor (pol_bits p) (Z.shiftl 1 (policy_index t)))
                (<[Z.to_nat (policy_index t) := v]> (pol_values p))
  | None => mkPolicies (Z.ldiff (pol_bits p) (Z.shiftl 1 (policy_index t)))
              (<[Z.to_nat (policy_index t) := 0]> (pol_values p))
  end.
Definition values_for_bitmask (bits : Z) (default_values : list Z) : list Z :=
  map (fun t => if policy_set bits t then policy_value default_values t else 0) all_policies.
Definition policies_is_valid (p : Policies) : bool :=
  let expected_values := values_for_bitmask (pol_bits p) (pol_values p) in
  if ALL_POLICIES_BITS <? pol_bits p then false
  else if negb (bool_decide (pol_values p = expected_values)) then false
  else if match policies_get p Maturity with Some m => U32 <=? m | None => false end then false
  else if match policies_get p Expiration with Some e => U32 <=? e | None => false end then false
  else true.

(** The values of the set policies, in the order of the flags. *)
Fixpoint policies_encode_values (bits : Z) (l : list (Z * PolicyType))
  : outcome CanonicalError (list byte) :=
  match l with
  | [] => Ok []
  | (value, t) :: l =>
      let? b := if policy_set bits t then encode c_u64 value else Ok [] in
      let? bs := policies_encode_values bits l in
      Ok (b ++ bs)
  end.
Fixpoint policies_decode_values (bits : Z) (ts : list PolicyType) (values : list Z)
    (buf : list byte) : decoded (list Z) :=
  match ts with
  | [] => Ok (values, buf)
  | t :: ts =>
      let? '(values, buf) :=
        if policy_set bits t then
          let? '(v, buf) := decode c_u64 buf in
          Ok (<[Z.to_nat (policy_index t) := v]> values, buf)
        else Ok (values, buf) in
      policies_decode_values bits ts values buf
  end.
Definition c_policies : Codec Policies := {|
  Static := Policies;
  size_static p := size_static c_u32 (pol_bits p);
  size_dynamic p := count_ones (pol_bits p) * size c_u64 0;
  encode_static p := encode_static c_u32 (pol_bits p);
  encode_dynamic p := policies_encode_values (pol_bits p) (zip (pol_values p) all_policies);
  decode_static buf :=
    let? '(bits, buf) := decode c_u32 buf in
    if ALL_POLICIES_BITS <? bits then Err Unknown
    else Ok (mkPolicies bits (replicate 5 0), buf);
  decode_dynamic p buf :=
    let? '(values, buf) := policies_decode_values (pol_bits p) all_policies (pol_values p) buf in
    let p := mkPolicies (pol_bits p) values in
    if match policies_get p Maturity with Some m => U32 <=? m | None => false end then Err Unknown
    else if match policies_get p Expiration with Some e => U32 <=? e | None => false end
    then Err Unknown
    else Ok (p, buf)
|}.

(** ** Bodies *)

Inductive TransactionRepr : Type :=
| TxRepr_Script | TxRepr_Create | TxRepr_Mint | TxRepr_Upgrade | TxRepr_Upload | TxRepr_Blob.
#[export] Instance tx_repr_eq_dec : EqDecision TransactionRepr.
Proof. solve_decision. Defined.
Definition tx_repr_to (r : TransactionRepr) : Z :=
  match r with
  | TxRepr_Script => 0 | TxRepr_Create => 1 | TxRepr_Mint => 2
  | TxRepr_Upgrade => 3 | TxRepr_Upload => 4 | TxRepr_Blob => 5
  end.
Definition tx_repr_of (d : Z) : option TransactionRepr :=
  match d with
  | 0 => Some TxRepr_Script | 1 => Some TxRepr_Create | 2 => Some TxRepr_Mint
  | 3 => Some TxRepr_Upgrade | 4 => Some TxRepr_Upload | 5 => Some TxRepr_Blob
  | _ => None
  end.
Definition c_tx_repr : Codec TransactionRepr := c_repr tx_repr_to tx_repr_of.
Definition c_body {A} (c : Codec A) (r : TransactionRepr) : Codec A :=
  c_prefixed c tx_repr_to tx_repr_of r.

Record ScriptBody : Type := mkScriptBody {
  script_gas_limit : Z;
  receipts_root_field : Bytes32;
  script : list byte;
  script_data : list byte
}.
Record StorageSlot : Type := mkStorageSlot { slot_key : Bytes32; slot_value : Bytes32 }.
Record CreateBody : Type := mkCreateBody {
  bytecode_witness_index : Z;
  salt : Bytes32;
  storage_slots : list StorageSlot
}.
Inductive UpgradePurpose : Type :=
| Upgrade_ConsensusParameters (witness_index : Z) (checksum : Bytes32)
| Upgrade_StateTransition (root : Bytes32).
Record UploadBody : Type := mkUploadBody {
  upload_root : Bytes32;
  upload_witness_index : Z;
  upload_subsection_index : Z;
  upload_subsections_number : Z;
  upload_proof_set : list Bytes32
}.
Record BlobBody : Type := mkBlobBody { blob_body_id : BlobId; blob_witness_index : Z }.

Definition c_storage_slot : Codec StorageSlot :=
  c_struct (c_pair c_bytes32 c_bytes32) (fun s => (slot_key s, slot_value s))
    (fun x => mkStorageSlot x.1 x.2) (fun s => (slot_key s, slot_value s))
    (fun x => mkStorageSlot x.1 x.2).
Definition upgrade_variants : list (Variant UpgradePurpose) := [
  mkVariant UpgradePurpose 0 _ (c_pair c_u16 c_bytes32)
    (fun x => Upgrade_ConsensusParameters x.1 x.2)
    (fun p => if p is Upgrade_ConsensusParameters w c then Some (w, c) else None);
  mkVariant UpgradePurpose 1 _ c_bytes32 Upgrade_StateTransition
    (fun p => if p is Upgrade_StateTransition r then Some r else None)].
Definition c_upgrade_purpose : Codec UpgradePurpose := c_enum upgrade_variants.

Section Bodies.
Context `{Alloc}.

Definition c_script_body : Codec ScriptBody :=
  c_body (c_struct (c_pair c_u64 (c_pair c_bytes32 (c_pair c_bytes c_bytes)))
    (fun b => (script_gas_limit b, (receipts_root_field b, (script b, script_data b))))
    (fun x => let '(g, (r, (s, d))) := x in mkScriptBody g r s d) id id) TxRepr_Script.
Definition c_create_body : Codec CreateBody :=
  c_body (c_struct (c_pair c_u16 (c_pair c_bytes32 (c_vec c_storage_slot)))
    (fun b => (bytecode_witness_index b, (salt b, storage_slots b)))
    (fun x => let '(w, (s, l)) := x in mkCreateBody w s l) id id) TxRepr_Create.
Definition c_upgrade_body : Codec UpgradePurpose := c_body c_upgrade_purpose TxRepr_Upgrade.
Definition c_upload_body : Codec UploadBody :=
  c_body (c_struct (c_pair c_bytes32 (c_pair c_u16 (c_pair c_u16 (c_pair c_u16 (c_vec c_bytes32)))))
    (fun b => (upload_root b, (upload_witness_index b, (upload_subsection_index b,
      (upload_subsections_number b, upload_proof_set b)))))
    (fun x => let '(r, (w, (i, (n, p)))) := x in mkUploadBody r w i n p) id id) TxRepr_Upload.
Definition c_blob_body : Codec BlobBody :=
  c_body (c_struct (c_pair c_bytes32 c_u16) (fun b => (blob_body_id b, blob_witness_index b))
    (fun x => mkBlobBody x.1 x.2) id id) TxRepr_Blob.
End Bodies.

(** ** Transactions *)

(** [ChargeableTransaction<Body, _>]; a witness is its data. *)
Record Chargeable (Body : Type) : Type := mkChargeable {
  tx_body : Body;
  tx_policies : Policies;
  tx_inputs : list Input;
  tx_outputs : list Output;
  tx_witnesses : list (list byte)
}.
Arguments mkChargeable {Body} _ _ _ _ _.
Arguments tx_body {Body} _.
Arguments tx_policies {Body} _.
Arguments tx_inputs {Body} _.
Arguments tx_outputs {Body} _.
Arguments tx_witnesses {Body} _.

Record Mint : Type := mkMint {
  mint_tx_pointer : TxPointer;
  mint_input_contract : InputContract;
  mint_output_contract : OutputContract;
  mint_amount : Z;
  mint_asset_id : AssetId;
  mint_gas_price : Z
}.

Inductive Transaction : Type :=
| Tx_Script (tx : Chargeable ScriptBody)
| Tx_Create (tx : Chargeable CreateBody)
| Tx_Mint (tx : Mint)
| Tx_Upgrade (tx : Chargeable UpgradePurpose)
| Tx_Upload (tx : Chargeable UploadBody)
| Tx_Blob (tx : Chargeable BlobBody).

Definition c_mint : Codec Mint :=
  c_body (c_struct (c_pair c_tx_pointer (c_pair c_input_contract (c_pair c_output_contract
      (c_pair c_u64 (c_pair c_bytes32 c_u64)))))
    (fun m => (mint_tx_pointer m, (mint_input_contract m, (mint_output_contract m,
      (mint_amount m, (mint_asset_id m, mint_gas_price m))))))
    (fun x => let '(t, (i, (o, (a, (s, g))))) := x in mkMint t i o a s g) id id) TxRepr_Mint.

Section Codec.
Context `{Alloc}.

Definition chargeable_fields {Body} (t : Chargeable Body) :=
  (tx_body t, (tx_policies t, (tx_inputs t, (tx_outputs t, tx_witnesses t)))).
Definition chargeable_of {Body}
    (x : Body * (Policies * (list Input * (list Output * list (list byte))))) : Chargeable Body :=
  let '(b, (p, (i, (o, w)))) := x in mkChargeable b p i o w.
Definition c_chargeable {Body} (c : Codec Body) : Codec (Chargeable Body) :=
  c_struct (c_pair c (c_pair c_policies (c_pair (c_vec c_input) (c_pair (c_vec c_output) (c_vec c_bytes)))))
    chargeable_fields chargeable_of id id.

Definition c_script : Codec (Chargeable ScriptBody) := c_chargeable c_script_body.
Definition c_create : Codec (Chargeable CreateBody) := c_chargeable c_create_body.
Definition c_upgrade : Codec (Chargeable UpgradePurpose) := c_chargeable c_upgrade_body.
Definition c_upload : Codec (Chargeable UploadBody) := c_chargeable c_upload_body.
Definition c_blob : Codec (Chargeable BlobBody) := c_chargeable c_blob_body.

(** A partly decoded transaction. *)
Inductive TxStatic : Type :=
| TxS_Script (s : Static c_script)
| TxS_Create (s : Static c_create)
| TxS_Mint (s : Static c_mint)
| TxS_Upgrade (s : Static c_upgrade)
| TxS_Upload (s : Static c_upload)
| TxS_Blob (s : Static c_blob).

Definition tx_decode_static (buf : list byte) : decoded TxStatic :=
  let? discriminant_buffer := input_peek 8 buf in
  let? '(discriminant, _) := decode c_tx_repr discriminant_buffer in
  match discriminant with
  | TxRepr_Script => let? '(s, buf) := decode_static c_script buf in Ok (TxS_Script s, buf)
  | TxRepr_Create => let? '(s, buf) := decode_static c_create buf in Ok (TxS_Create s, buf)
  | TxRepr_Mint => let? '(s, buf) := decode_static c_mint buf in Ok (TxS_Mint s, buf)
  | TxRepr_Upgrade => let? '(s, buf) := decode_static c_upgrade buf in Ok (TxS_Upgrade s, buf)
  | TxRepr_Upload => let? '(s, buf) := decode_static c_upload buf in Ok (TxS_Upload s, buf)
  | TxRepr_Blob => let? '(s, buf) := decode_static c_blob buf in Ok (TxS_Blob s, buf)
  end.
Definition tx_decode_dynamic (s : TxStatic) (buf : list byte) : decoded Transaction :=
  match s with
  | TxS_Script s => let? '(t, buf) := decode_dynamic c_script s buf in Ok (Tx_Script t, buf)
  | TxS_Create s => let? '(t, buf) := decode_dynamic c_create s buf in Ok (Tx_Create t, buf)
  | TxS_Mint s => let? '(t, buf) := decode_dynamic c_mint s buf in Ok (Tx_Mint t, buf)
  | TxS_Upgrade s => let? '(t, buf) := decode_dynamic c_upgrade s buf in Ok (Tx_Upgrade t, buf)
  | TxS_Upload s => let? '(t, buf) := decode_dynamic c_upload s buf in Ok (Tx_Upload t, buf)
  | TxS_Blob s => let? '(t, buf) := decode_dynamic c_blob s buf in Ok (Tx_Blob t, buf)
  end.

(** [match self { Self::Script(tx) => f(tx), .. }] *)
Definition tx_dispatch {R} (f : forall T, Codec T -> T -> R) (t : Transaction) : R :=
  match t with
  | Tx_Script tx => f _ c_script tx
  | Tx_Create tx => f _ c_create tx
  | Tx_Mint tx => f _ c_mint tx
  | Tx_Upgrade tx => f _ c_upgrade tx
  | Tx_Upload tx => f _ c_upload tx
  | Tx_Blob tx => f _ c_blob tx
  end.

Definition c_transaction : Codec Transaction := {|
  Static := TxStatic;
  size_static := tx_dispatch (fun _ => size_static);
  size_dynamic := tx_dispatch (fun _ => size_dynamic);
  encode_static := tx_dispatch (fun _ => encode_static);
  encode_dynamic := tx_dispatch (fun _ => encode_dynamic);
  decode_static := tx_decode_static;
  decode_dynamic := tx_decode_dynamic
|}.
End Codec.
