(* ===== verification/TxCodec.v ===== *)
(** * Transactions survive serialization

    Every valid transaction encodes, and decodes to itself (src/fuel-tx, the [Serialize] and
    [Deserialize] implementations of TxTypes.v). Validity is what the types guarantee (widths
    and array lengths), the limit on the length of vectors, the rules of [Policies::is_valid],
    and that the variant of an input fits its fields: a predicate variant has a predicate, a
    message with data has data. *)

From Stdlib Require Import Strings.Byte.
From S2P Require Import Prelude Asm Merkle Receipts Canonical TxTypes.

(** ** Validity *)

Definition u16_ok (x : Z) : Prop := 0 <= x < 256 ^ Z.of_nat 2.
Definition u32_ok (x : Z) : Prop := 0 <= x < 256 ^ Z.of_nat 4.

Definition utxo_id_ok (u : UtxoId) : Prop := bytes32_ok (utxo_tx_id u) /\ u16_ok (utxo_output_index u).
Definition tx_pointer_ok (p : TxPointer) : Prop := u32_ok (txp_block_height p) /\ u16_ok (txp_tx_index p).

(** The fields common to all coins and to all messages. *)
Definition coin_ok {W G P D} (c : Coin W G P D) : Prop :=
  utxo_id_ok (coin_utxo_id c) /\ bytes32_ok (coin_owner c) /\ u64_ok (coin_amount c) /\
  bytes32_ok (coin_asset_id c) /\ tx_pointer_ok (coin_tx_pointer c).
Definition message_ok {W G A P D} (m : Message W G A P D) : Prop :=
  bytes32_ok (msg_sender m) /\ bytes32_ok (msg_recipient m) /\ u64_ok (msg_amount m) /\
  bytes32_ok (msg_nonce m).
Definition input_contract_ok (c : InputContract) : Prop :=
  utxo_id_ok (inc_utxo_id c) /\ bytes32_ok (inc_balance_root c) /\ bytes32_ok (inc_state_root c) /\
  tx_pointer_ok (inc_tx_pointer c) /\ bytes32_ok (inc_contract_id c).

Definition input_ok (i : Input) : Prop :=
  match i with
  | Input_CoinSigned c => coin_ok c /\ u16_ok (coin_witness_index c)
  | Input_CoinPredicate c =>
      coin_ok c /\ u64_ok (coin_predicate_gas_used c) /\ vec_ok (coin_predicate c) /\
      vec_ok (coin_predicate_data c) /\ coin_predicate c <> []
  | Input_Contract c => input_contract_ok c
  | Input_MessageCoinSigned m => message_ok m /\ u16_ok (msg_witness_index m)
  | Input_MessageCoinPredicate m =>
      message_ok m /\ u64_ok (msg_predicate_gas_used m) /\ vec_ok (msg_predicate m) /\
      vec_ok (msg_predicate_data m) /\ msg_predicate m <> []
  | Input_MessageDataSigned m =>
      message_ok m /\ u16_ok (msg_witness_index m) /\ vec_ok (msg_data m) /\ msg_data m <> []
  | Input_MessageDataPredicate m =>
      message_ok m /\ u64_ok (msg_predicate_gas_used m) /\ vec_ok (msg_data m) /\
      vec_ok (msg_predicate m) /\ vec_ok (msg_predicate_data m) /\ msg_data m <> [] /\
      msg_predicate m <> []
  end.

Definition output_contract_ok (c : OutputContract) : Prop :=
  u16_ok (outc_input_index c) /\ bytes32_ok (outc_balance_root c) /\ bytes32_ok (outc_state_root c).
Definition output_ok (o : Output) : Prop :=
  match o with
  | Output_Coin t a i | Output_Change t a i | Output_Variable t a i =>
      bytes32_ok t /\ u64_ok a /\ bytes32_ok i
  | Output_Contract c => output_contract_ok c
  | Output_ContractCreated c s => bytes32_ok c /\ bytes32_ok s
  end.

Definition policies_ok (p : Policies) : Prop :=
  0 <= pol_bits p /\ Forall u64_ok (pol_values p) /\ policies_is_valid p = true.

Definition script_body_ok (b : ScriptBody) : Prop :=
  u64_ok (script_gas_limit b) /\ bytes32_ok (receipts_root_field b) /\ vec_ok (script b) /\
  vec_ok (script_data b).
Definition storage_slot_ok (s : StorageSlot) : Prop := bytes32_ok (slot_key s) /\ bytes32_ok (slot_value s).
Definition create_body_ok (b : CreateBody) : Prop :=
  u16_ok (bytecode_witness_index b) /\ bytes32_ok (salt b) /\ vec_ok (storage_slots b) /\
  Forall storage_slot_ok (storage_slots b).
Definition upgrade_ok (p : UpgradePurpose) : Prop :=
  match p with
  | Upgrade_ConsensusParameters w c => u16_ok w /\ bytes32_ok c
  | Upgrade_StateTransition r => bytes32_ok r
  end.
Definition upload_body_ok (b : UploadBody) : Prop :=
  bytes32_ok (upload_root b) /\ u16_ok (upload_witness_index b) /\ u16_ok (upload_subsection_index b) /\
  u16_ok (upload_subsections_number b) /\ vec_ok (upload_proof_set b) /\
  Forall bytes32_ok (upload_proof_set b).
Definition blob_body_ok (b : BlobBody) : Prop := bytes32_ok (blob_body_id b) /\ u16_ok (blob_witness_index b).
Definition chargeable_ok {Body} (body_ok : Body -> Prop) (t : Chargeable Body) : Prop :=
  body_ok (tx_body t) /\ policies_ok (tx_policies t) /\
  (vec_ok (tx_inputs t) /\ Forall input_ok (tx_inputs t)) /\
  (vec_ok (tx_outputs t) /\ Forall output_ok (tx_outputs t)) /\
  (vec_ok (tx_witnesses t) /\ Forall vec_ok (tx_witnesses t)).
Definition mint_ok (m : Mint) : Prop :=
  tx_pointer_ok (mint_tx_pointer m) /\ input_contract_ok (mint_input_contract m) /\
  output_contract_ok (mint_output_contract m) /\ u64_ok (mint_amount m) /\
  bytes32_ok (mint_asset_id m) /\ u64_ok (mint_gas_price m).
Definition tx_ok (t : Transaction) : Prop :=
  match t with
  | Tx_Script t => chargeable_ok script_body_ok t
  | Tx_Create t => chargeable_ok create_body_ok t
  | Tx_Mint m => mint_ok m
  | Tx_Upgrade t => chargeable_ok upgrade_ok t
  | Tx_Upload t => chargeable_ok upload_body_ok t
  | Tx_Blob t => chargeable_ok blob_body_ok t
  end.

(** ** Encodings with a known static part *)

Definition statics {T} (c : Codec T) (x : T) (s : Static c) : Prop := exists bs bd, encodes c x s bs bd.

Lemma s_uint n x : 0 <= x < 256 ^ Z.of_nat n -> statics (c_uint n) x x.
Proof. intros Hx. eexists _, _. by apply c_uint_encodes. Qed.
Lemma s_u64 x : u64_ok x -> statics c_u64 x x.
Proof. apply (s_uint 8). Qed.
Lemma s_u32 x : u32_ok x -> statics c_u32 x x.
Proof. apply (s_uint 4). Qed.
Lemma s_u16 x : u16_ok x -> statics c_u16 x x.
Proof. apply (s_uint 2). Qed.
Lemma s_bytes32 x : bytes32_ok x -> statics c_bytes32 x x.
Proof. intros Hx. eexists _, _. by apply c_array_encodes. Qed.
Lemma s_pair {A B} (a : Codec A) (b : Codec B) x y s t :
  statics a x s -> statics b y t -> statics (c_pair a b) (x, y) (s, t).
Proof. intros (? & ? & H1) (? & ? & H2). eexists _, _. by apply c_pair_encodes. Qed.

Lemma s_struct {A B} (c : Codec B) (to : A -> B) of_ SA (sto : SA -> Static c) sof x s s' :
  statics c (to x) s -> of_ (to x) = x -> sto (sof s) = s -> s' = sof s ->
  statics (c_struct c to of_ sto sof) x s'.
Proof. intros (b1 & d1 & He) Ho Hs ->. exists b1, d1. by apply c_struct_encodes. Qed.

Lemma s_body {A} (c : Codec A) r x s : statics c x s -> statics (c_body c r) x s.
Proof.
  intros (b1 & d1 & He). eexists _, _. apply c_prefixed_encodes; [by destruct r..|exact He].
Qed.

Create HintDb codec discriminated.
#[export] Hint Resolve s_u64 s_u32 s_u16 s_bytes32 s_pair : codec.

(** The fields of a structure. *)
Ltac s_fields := repeat eapply s_pair; cbn; eauto with codec.

Lemma s_utxo_id u : utxo_id_ok u -> statics c_utxo_id u u.
Proof.
  intros [H1 H2]. destruct u as [t i]. cbn in *.
  eapply s_struct; [s_fields|done..].
Qed.

Lemma s_tx_pointer p : tx_pointer_ok p -> statics c_tx_pointer p p.
Proof.
  intros [H1 H2]. destruct p as [h i]. cbn in *.
  eapply s_struct; [s_fields|done..].
Qed.
#[export] Hint Resolve s_utxo_id s_tx_pointer : codec.

Lemma s_coin {W G P D} (w : Codec W) (g : Codec G) (p : Codec P) (d : Codec D) u o a i t xw xg xp xd sw sg sp sd :
  coin_ok (mkCoin u o a i t xw xg xp xd) ->
  statics w xw sw -> statics g xg sg -> statics p xp sp -> statics d xd sd ->
  statics (c_coin w g p d) (mkCoin u o a i t xw xg xp xd) (mkCoin u o a i t sw sg sp sd).
Proof.
  intros (Hu & Ho & Ha & Hi & Ht) Hw Hg Hp Hd. cbn in *. unfold c_coin.
  eapply s_struct; [s_fields|done..].
Qed.

Lemma s_message {W G A P D} (w : Codec W) (g : Codec G) (c : Codec A) (p : Codec P) (d : Codec D)
    s r a n xw xg xc xp xd sw sg sc sp sd :
  message_ok (mkMessage s r a n xw xg xc xp xd) ->
  statics w xw sw -> statics g xg sg -> statics c xc sc -> statics p xp sp -> statics d xd sd ->
  statics (c_message w g c p d) (mkMessage s r a n xw xg xc xp xd) (mkMessage s r a n sw sg sc sp sd).
Proof.
  intros (Hs & Hr & Ha & Hn) Hw Hg Hc Hp Hd. cbn in *. unfold c_message.
  eapply s_struct; [s_fields|done..].
Qed.

Lemma s_input_contract c : input_contract_ok c -> statics c_input_contract c c.
Proof.
  intros (H1 & H2 & H3 & H4 & H5). destruct c as [u b s t i]. cbn in *.
  eapply s_struct; [s_fields|done..].
Qed.

Lemma s_output_contract c : output_contract_ok c -> statics c_output_contract c c.
Proof.
  intros (H1 & H2 & H3). destruct c as [i b s]. cbn in *.
  eapply s_struct; [s_fields|done..].
Qed.

(** A dropped field. *)
Lemma s_empty {T} (c : Codec T) x s bs : encodes c x s bs [] -> statics (c_empty c x) mkEmpty mkEmpty.
Proof.
  intros He. exists bs, []. destruct He as [H1 H2 H3 H4 H5 H6 H7 H8].
  split; try done; cbn [c_empty decode_static]. intros rest. by rewrite H7.
Qed.

(** ** Inputs *)

Section Inputs.
Context `{Alloc} `{!ExactAlloc}.

Lemma s_bytes l : vec_ok l -> statics c_bytes l (zlen l).
Proof. intros Hl. eexists _, _. by apply c_bytes_encodes. Qed.

Lemma s_no_u64 : statics (c_empty c_u64 0) mkEmpty mkEmpty.
Proof. by eapply s_empty, (c_uint_encodes 8). Qed.
Lemma s_no_u16 : statics (c_empty c_u16 0) mkEmpty mkEmpty.
Proof. by eapply s_empty, (c_uint_encodes 2). Qed.
Lemma s_no_bytes : statics (c_empty c_bytes []) mkEmpty mkEmpty.
Proof. by eapply s_empty, (c_bytes_encodes []). Qed.

Lemma input_repr_encodes r :
  encodes c_input_repr r r (to_be_bytes 8 (input_repr_to r)) [].
Proof. apply c_repr_encodes; by destruct r. Qed.

(** One variant: the bytes [bs] and [bd] of its fields, and the variant found by decoding. *)
Lemma s_input_variant i r bs bd si :
  repr_from_input i = r ->
  input_encode_static i = Ok (to_be_bytes 8 (input_repr_to r) ++ bs) ->
  input_encode_dynamic i = Ok bd ->
  input_size_static i = saturating_add (Z.min (zlen bs) USIZE_MAX) 8 ->
  input_size_dynamic i = Z.min (zlen bd) USIZE_MAX ->
  zlen bs mod ALIGN = 0 -> zlen bd mod ALIGN = 0 ->
  (forall rest, input_decode_static (to_be_bytes 8 (input_repr_to r) ++ (bs ++ rest)) = Ok (si, rest)) ->
  (forall rest, input_decode_dynamic si (bd ++ rest) = Ok (i, rest)) ->
  statics c_input i si.
Proof.
  intros Hr He Hed Hs Hsd Ha Had Hd Hdd. exists (to_be_bytes 8 (input_repr_to r) ++ bs), bd.
  split; try done; cbn [c_input size_static decode_static].
  - rewrite Hs, zlen_app, zlen_to_be_bytes. pose proof (zlen_nonneg bs).
    unfold saturating_add, USIZE_MAX. lia.
  - rewrite zlen_app, zlen_to_be_bytes. by apply mod_add_0.
Qed.

Lemma input_decode_repr {A} r buf (k : InputRepr -> list byte -> decoded A) :
  (let? '(r, buf) := omap_err (fun _ => UnknownDiscriminant)
     (decode c_input_repr (to_be_bytes 8 (input_repr_to r) ++ buf)) in k r buf) = k r buf.
Proof.
  destruct (encodes_all _ _ _ _ _ (input_repr_encodes r)) as (_ & _ & _ & Hd).
  rewrite app_nil_r in Hd. by rewrite Hd.
Qed.

Lemma nonempty_len {A} (l : list A) : l <> [] -> zlen l <> 0.
Proof. intros Hl. destruct l; [done|]. unfold zlen. cbn. lia. Qed.
Lemma s_bytes_nil : statics c_bytes [] 0.
Proof. by apply (s_bytes []). Qed.
Lemma s_zero_u64 : statics c_u64 0 0.
Proof. by apply s_u64. Qed.
Lemma s_zero_u16 : statics c_u16 0 0.
Proof. by apply s_u16. Qed.
Hint Resolve s_bytes s_bytes_nil s_zero_u64 s_zero_u16 s_no_u64 s_no_u16 s_no_bytes : codec.

(** A variant is written with its own codec [cv] and read with the full one [cf]; the static
    bytes are the same, and [si] is the variant found in the full static part. *)
Lemma s_input_by {V F} i r (cv : Codec V) x sv (cf : Codec F) fx sf si :
  statics cv x sv -> statics cf fx sf -> encode_static cf fx = encode_static cv x ->
  repr_from_input i = r ->
  input_encode_static i =
    (let? d := encode_static c_input_repr r in let? b := encode_static cv x in Ok (d ++ b)) ->
  input_encode_dynamic i = (let? b := encode_dynamic cv x in Ok b) ->
  input_size_static i = saturating_add (size_static cv x) 8 ->
  input_size_dynamic i = size_dynamic cv x ->
  (forall buf rest, decode_static cf buf = Ok (sf, rest) ->
     input_decode_static (to_be_bytes 8 (input_repr_to r) ++ buf) = Ok (si, rest)) ->
  (forall buf rest, decode_dynamic cv sv buf = Ok (x, rest) ->
     input_decode_dynamic si buf = Ok (i, rest)) ->
  statics c_input i si.
Proof.
  intros (bs & bd & [V1 V2 V3 V4 V5 V6 V7 V8]) (fs & fd & [F1 F2 F3 F4 F5 F6 F7 F8]) Hfv Hr He Hed Hs Hsd Hd Hdd.
  assert (fs = bs) as -> by congruence.
  apply (s_input_variant i r bs bd); try done.
  - rewrite He, (en_static _ _ _ _ _ (input_repr_encodes r)), V1. done.
  - by rewrite Hed, V2.
  - by rewrite Hs, V3.
  - by rewrite Hsd, V4.
  - intros rest. by apply Hd.
  - intros rest. by apply Hdd.
Qed.

Ltac input_by :=
  match goal with
  | |- input_encode_static _ = _ => reflexivity
  | |- forall buf rest, _ -> input_decode_static _ = _ =>
      let E := fresh "E" in
      intros ? ? E; unfold input_decode_static; rewrite input_decode_repr; rewrite E; cbn;
      rewrite ?(proj2 (Z.eqb_neq _ 0)) by (by apply nonempty_len); reflexivity
  | |- forall buf rest, _ -> input_decode_dynamic _ _ = _ =>
      let E := fresh "E" in intros ? ? E; cbn [input_decode_dynamic]; etrans; [apply (f_equal (fun z => obind z _)), E|reflexivity]
  | |- _ => reflexivity
  end.

Lemma s_input_coin_signed (c : CoinSigned) :
  input_ok (Input_CoinSigned c) -> statics c_input (Input_CoinSigned c) (Input_CoinSigned c).
Proof.
  intros [Hc Hw]. destruct c as [u o a i t w [] [] []]. cbn in Hw.
  eapply (s_input_by _ InputRepr_Coin c_coin_signed _ _ c_coin_full (mkCoin u o a i t w 0 [] []));
    [apply s_coin; eauto with codec..| | | | | | | |]; input_by.
Qed.

Lemma s_input_coin_predicate (c : CoinPredicate (list byte)) :
  input_ok (Input_CoinPredicate c) -> exists s, statics c_input (Input_CoinPredicate c) s.
Proof.
  intros (Hc & Hg & Hp & Hd & Hne). destruct c as [u o a i t [] g p d]. cbn in *. eexists.
  eapply (s_input_by _ InputRepr_Coin c_coin_predicate _ _ c_coin_full (mkCoin u o a i t 0 g p d));
    [apply s_coin; eauto with codec..| | | | | | | |]; input_by.
Qed.

Lemma s_input_contract_variant c :
  input_contract_ok c -> exists s, statics c_input (Input_Contract c) s.
Proof.
  intros Hc. eexists.
  eapply (s_input_by _ InputRepr_Contract c_input_contract _ _ c_input_contract c);
    [by apply s_input_contract..| | | | | | | |]; input_by.
Qed.

Lemma s_input_message_coin_signed (m : MessageCoinSigned) :
  input_ok (Input_MessageCoinSigned m) -> exists s, statics c_input (Input_MessageCoinSigned m) s.
Proof.
  intros [Hm Hw]. destruct m as [s r a n w [] [] [] []]. cbn in Hw. eexists.
  eapply (s_input_by _ InputRepr_Message c_message_coin_signed _ _ c_full_message
    (mkMessage s r a n w 0 [] [] [])); [apply s_message; eauto with codec..| | | | | | | |]; input_by.
Qed.

Lemma s_input_message_coin_predicate (m : MessageCoinPredicate (list byte)) :
  input_ok (Input_MessageCoinPredicate m) -> exists s, statics c_input (Input_MessageCoinPredicate m) s.
Proof.
  intros (Hm & Hg & Hp & Hd & Hne). destruct m as [s r a n [] g [] p d]. cbn in *. eexists.
  eapply (s_input_by _ InputRepr_Message c_message_coin_predicate _ _ c_full_message
    (mkMessage s r a n 0 g [] p d)); [apply s_message; eauto with codec..| | | | | | | |]; input_by.
Qed.

Lemma s_input_message_data_signed (m : MessageDataSigned (list byte)) :
  input_ok (Input_MessageDataSigned m) -> exists s, statics c_input (Input_MessageDataSigned m) s.
Proof.
  intros (Hm & Hw & Hb & Hne). destruct m as [s r a n w [] b [] []]. cbn in *. eexists.
  eapply (s_input_by _ InputRepr_Message c_message_data_signed _ _ c_full_message
    (mkMessage s r a n w 0 b [] [])); [apply s_message; eauto with codec..| | | | | | | |]; input_by.
Qed.

Lemma s_input_message_data_predicate (m : MessageDataPredicate (list byte)) :
  input_ok (Input_MessageDataPredicate m) -> exists s, statics c_input (Input_MessageDataPredicate m) s.
Proof.
  intros (Hm & Hg & Hb & Hp & Hd & Hbn & Hne). destruct m as [s r a n [] g b p d]. cbn in *. eexists.
  eapply (s_input_by _ InputRepr_Message c_message_data_predicate _ _ c_full_message
    (mkMessage s r a n 0 g b p d)); [apply s_message; eauto with codec..| | | | | | | |]; input_by.
Qed.

Lemma c_input_lawful : lawful c_input input_ok.
Proof.
  intros [c|c|c|m|m|m|m] Hi;
    [destruct (s_input_coin_signed c Hi) as (? & ? & ?)
    |destruct (s_input_coin_predicate c Hi) as (? & ? & ? & ?)
    |destruct (s_input_contract_variant c Hi) as (? & ? & ? & ?)
    |destruct (s_input_message_coin_signed m Hi) as (? & ? & ? & ?)
    |destruct (s_input_message_coin_predicate m Hi) as (? & ? & ? & ?)
    |destruct (s_input_message_data_signed m Hi) as (? & ? & ? & ?)
    |destruct (s_input_message_data_predicate m Hi) as (? & ? & ? & ?)]; eauto.
Qed.
End Inputs.

(** ** Outputs and purposes of upgrades *)

(** The matching variant comes first, or later. *)
Ltac enum_variant :=
  lazymatch goal with
  | |- enum_matches ?d ?x (?v :: _) =>
      lazymatch eval hnf in (v_match v x) with
      | Some _ => eapply em_here; [reflexivity|reflexivity|reflexivity|eassumption]
      | None => eapply em_later; [reflexivity|cbn; lia|enum_variant]
      end
  end.

Lemma s_coin_output t a i :
  bytes32_ok t -> u64_ok a -> bytes32_ok i -> statics c_coin_output (t, (a, i)) (t, (a, i)).
Proof. intros. unfold c_coin_output. s_fields. Qed.

Lemma c_output_lawful : lawful c_output output_ok.
Proof.
  intros [t a i|c|t a i|t a i|c s] Ho; cbn in Ho.
  1, 3, 4: destruct Ho as (Ht & Ha & Hi); destruct (s_coin_output t a i Ht Ha Hi) as (b & d & He).
  - apply (c_enum_encodes 0); [done|]. unfold output_variants. enum_variant.
  - apply (c_enum_encodes 2); [done|]. unfold output_variants. enum_variant.
  - apply (c_enum_encodes 3); [done|]. unfold output_variants. enum_variant.
  - destruct (s_output_contract c Ho) as (b & d & He).
    apply (c_enum_encodes 1); [done|]. unfold output_variants. enum_variant.
  - destruct Ho as [Hc Hs]. destruct (s_pair _ _ _ _ _ _ (s_bytes32 _ Hc) (s_bytes32 _ Hs)) as (b & d & He).
    apply (c_enum_encodes 4); [done|]. unfold output_variants. enum_variant.
Qed.

Lemma c_upgrade_purpose_lawful : lawful c_upgrade_purpose upgrade_ok.
Proof.
  intros [w c|r] Hp; cbn in Hp.
  - destruct Hp as [Hw Hc]. destruct (s_pair _ _ _ _ _ _ (s_u16 _ Hw) (s_bytes32 _ Hc)) as (b & d & He).
    apply (c_enum_encodes 0); [done|]. unfold upgrade_variants. enum_variant.
  - destruct (s_bytes32 _ Hp) as (b & d & He).
    apply (c_enum_encodes 1); [done|]. unfold upgrade_variants. enum_variant.
Qed.

(** ** Policies *)

Definition policy_bytes (bits v : Z) (t : PolicyType) : list byte :=
  if policy_set bits t then to_be_bytes 8 v else [].

Lemma u64_encodes v :
  u64_ok v -> encode c_u64 v = Ok (to_be_bytes 8 v) /\
  forall rest, decode c_u64 (to_be_bytes 8 v ++ rest) = Ok (v, rest).
Proof.
  intros Hv. destruct (encodes_all _ _ _ _ _ (c_uint_encodes 8 v Hv)) as (He & _ & _ & Hd).
  rewrite app_nil_r in He, Hd. by change (padding (Z.of_nat 8) ++ ?t) with t in He, Hd.
Qed.

Lemma policies_encode_step bits v t l bs :
  u64_ok v -> policies_encode_values bits l = Ok bs ->
  policies_encode_values bits ((v, t) :: l) = Ok (policy_bytes bits v t ++ bs).
Proof.
  intros Hv Hl. cbn [policies_encode_values]. unfold policy_bytes.
  destruct (policy_set bits t); [rewrite (proj1 (u64_encodes v Hv))|]; cbn [obind]; by rewrite Hl.
Qed.

Lemma policies_decode_step bits v t ts values rest :
  u64_ok v ->
  policies_decode_values bits (t :: ts) values (policy_bytes bits v t ++ rest) =
  policies_decode_values bits ts
    (if policy_set bits t then <[Z.to_nat (policy_index t) := v]> values else values) rest.
Proof.
  intros Hv. cbn [policies_decode_values]. unfold policy_bytes.
  destruct (policy_set bits t); [|done]. by rewrite (proj2 (u64_encodes v Hv)).
Qed.

Lemma count_ones_policies bits :
  0 <= bits <= ALL_POLICIES_BITS ->
  count_ones bits = zlen (filter (fun t => policy_set bits t = true) all_policies).
Proof.
  intros Hb. assert (Hin : bits ∈ seqZ 0 32) by (apply elem_of_seqZ; unfold ALL_POLICIES_BITS in Hb; lia).
  revert Hin. clear Hb.
  cut (Forall (fun b => count_ones b = zlen (filter (fun t => policy_set b t = true) all_policies)) (seqZ 0 32)).
  { rewrite Forall_forall. auto. }
  change (seqZ 0 32) with (Z.of_nat <$> seq 0 32). cbn [seq fmap list_fmap].
  repeat (constructor; [reflexivity|]). constructor.
Qed.

Lemma policies_valid_values p :
  policies_is_valid p = true ->
  pol_bits p <= ALL_POLICIES_BITS /\ pol_values p = values_for_bitmask (pol_bits p) (pol_values p) /\
  match policies_get p Maturity with Some m => U32 <=? m | None => false end = false /\
  match policies_get p Expiration with Some e => U32 <=? e | None => false end = false.
Proof.
  unfold policies_is_valid. destruct (ALL_POLICIES_BITS <? pol_bits p) eqn:E1; [done|].
  case_bool_decide as E2; [|done]. cbn [negb].
  destruct (match policies_get p Maturity with Some m => U32 <=? m | None => false end) eqn:E3; [done|].
  destruct (match policies_get p Expiration with Some e => U32 <=? e | None => false end) eqn:E4; [done|].
  intros _. split_and!; try done. lia.
Qed.

Lemma zlen_policy_bytes bits v t : zlen (policy_bytes bits v t) = if policy_set bits t then 8 else 0.
Proof. unfold policy_bytes. destruct (policy_set bits t); [apply zlen_to_be_bytes|done]. Qed.

Lemma c_policies_encodes p :
  policies_ok p -> exists s bs bd, encodes c_policies p s bs bd.
Proof.
  intros (H0 & Hu & Hv). apply policies_valid_values in Hv as (Hb & Hval & Hm & He).
  destruct p as [bits values]. cbn [pol_bits pol_values] in *. cbn [values_for_bitmask all_policies map] in Hval.
  destruct values as [|v0 [|v1 [|v2 [|v3 [|v4 [|]]]]]]; try done.
  apply Forall_cons in Hu as [U0 Hu]. apply Forall_cons in Hu as [U1 Hu].
  apply Forall_cons in Hu as [U2 Hu]. apply Forall_cons in Hu as [U3 Hu]. apply Forall_cons in Hu as [U4 _].
  assert (Hr : 0 <= bits < 256 ^ Z.of_nat 4) by (unfold ALL_POLICIES_BITS in Hb; change (256 ^ Z.of_nat 4) with U32; lia).
  pose proof (c_uint_encodes 4 bits Hr) as Hbits.
  destruct (encodes_all _ _ _ _ _ Hbits) as (_ & _ & _ & Hd). rewrite app_nil_r in Hd.
  destruct Hbits as [E1 _ E3 _ E5 _ _ _].
  exists (mkPolicies bits (replicate 5 0)), (padding (Z.of_nat 4) ++ to_be_bytes 4 bits),
    (policy_bytes bits v0 Tip ++ policy_bytes bits v1 WitnessLimit ++ policy_bytes bits v2 Maturity ++
     policy_bytes bits v3 MaxFee ++ policy_bytes bits v4 Expiration ++ []).
  split; try done.
  - cbn [c_policies encode_dynamic pol_bits pol_values zip zip_with all_policies].
    by repeat (apply policies_encode_step; [done|]).
  - cbn [c_policies size_dynamic pol_bits]. rewrite count_ones_policies by lia.
    rewrite !zlen_app, !zlen_policy_bytes. clear. unfold all_policies. rewrite !filter_cons.
    repeat case_decide; simplify_eq/=; repeat case_match; simplify_eq; reflexivity.
  - rewrite !zlen_app, !zlen_policy_bytes. clear. repeat case_match; reflexivity.
  - intros rest. cbn [c_policies decode_static]. change c_u32 with (c_uint 4). rewrite Hd. cbn [obind].
    case_if; [lia|done].
  - intros rest. cbn [c_policies decode_dynamic pol_bits pol_values].
    unfold all_policies. rewrite <- !app_assoc, !policies_decode_step by done.
    cbn [policies_decode_values obind app].
    match goal with |- context [mkPolicies bits ?l] => replace l with [v0; v1; v2; v3; v4] end.
    + by rewrite Hm, He.
    + rewrite Hval. clear. cbn.
      repeat case_match; reflexivity.
Qed.

(** ** Bodies and transactions *)

Lemma s_storage_slot s : storage_slot_ok s -> statics c_storage_slot s s.
Proof.
  intros [H1 H2]. destruct s as [k v]. cbn in *. eapply s_struct; [s_fields|done..].
Qed.

(** What [lawful] says of one value, and back. *)
Lemma lawful_ex {T} (c : Codec T) valid x : lawful c valid -> valid x -> exists s, statics c x s.
Proof. intros Hc Hx. destruct (Hc x Hx) as (s & bs & bd & He). by exists s, bs, bd. Qed.
Lemma ex_lawful {T} (c : Codec T) (valid : T -> Prop) :
  (forall x, valid x -> exists s, statics c x s) -> lawful c valid.
Proof. intros Hc x Hx. destruct (Hc x Hx) as (s & bs & bd & He). by exists s, bs, bd. Qed.

Section Bodies.
Context `{Alloc} `{!ExactAlloc}.
Hint Resolve s_bytes : codec.

Lemma s_vec {T} (c : Codec T) valid l :
  lawful c valid -> vec_ok l -> Forall valid l -> statics (c_vec c) l (zlen l).
Proof.
  intros Hc Hl Hv. destruct (encodes_list_valid c valid l Hc Hv) as [bs Hbs].
  eexists _, _. by apply c_vec_encodes.
Qed.

Lemma c_script_body_lawful : lawful c_script_body script_body_ok.
Proof.
  apply ex_lawful. intros [g r s d] (Hg & Hr & Hs & Hd). cbn in *. eexists.
  apply s_body. eapply s_struct; [s_fields|done..].
Qed.

Lemma c_create_body_lawful : lawful c_create_body create_body_ok.
Proof.
  apply ex_lawful. intros [w s l] (Hw & Hs & Hl & Hf). cbn in *. eexists.
  apply s_body. eapply s_struct; [s_fields|done..].
  eapply s_vec; [|done..]. apply ex_lawful. intros x Hx. eexists. by apply s_storage_slot.
Qed.

Lemma c_upgrade_body_lawful : lawful c_upgrade_body upgrade_ok.
Proof.
  apply ex_lawful. intros p Hp. destruct (lawful_ex _ _ p c_upgrade_purpose_lawful Hp) as [s Hs].
  exists s. by apply s_body.
Qed.

Lemma c_upload_body_lawful : lawful c_upload_body upload_body_ok.
Proof.
  apply ex_lawful. intros [r w i n p] (Hr & Hw & Hi & Hn & Hp & Hf). cbn in *. eexists.
  apply s_body. eapply s_struct; [s_fields|done..].
  eapply s_vec; [|done..]. apply ex_lawful. intros x Hx. eexists. by apply s_bytes32.
Qed.

Lemma c_blob_body_lawful : lawful c_blob_body blob_body_ok.
Proof.
  apply ex_lawful. intros [i w] (Hi & Hw). cbn in *. eexists.
  apply s_body. eapply s_struct; [s_fields|done..].
Qed.

Lemma c_mint_lawful : lawful c_mint mint_ok.
Proof.
  apply ex_lawful. intros [t i o a s g] (Ht & Hi & Ho & Ha & Hs & Hg). cbn in *. eexists.
  apply s_body. pose proof (s_input_contract i Hi). pose proof (s_output_contract o Ho).
  eapply s_struct; [s_fields|done..].
Qed.

Lemma c_chargeable_lawful {Body} (c : Codec Body) body_ok :
  lawful c body_ok -> lawful (c_chargeable c) (chargeable_ok body_ok).
Proof.
  intros Hc. apply ex_lawful. intros [b p i o w] (Hb & Hp & [Hi Hif] & [Ho Hof] & [Hw Hwf]). cbn in *.
  destruct (lawful_ex _ _ b Hc Hb) as [sb Hsb].
  destruct (c_policies_encodes p Hp) as (sp & bs & bd & Hsp).
  eexists. eapply s_struct; [|done..]. cbn [chargeable_fields tx_body tx_policies tx_inputs tx_outputs tx_witnesses].
  apply s_pair; [exact Hsb|]. apply s_pair; [by eexists _, _|].
  apply s_pair; [eapply s_vec, Hif; [apply c_input_lawful|done]|].
  apply s_pair; [eapply s_vec, Hof; [apply c_output_lawful|done]|].
  eapply s_vec, Hwf; [apply c_bytes_lawful|done].
Qed.

(** A body starts with its discriminant. *)
Definition starts_with (r : TransactionRepr) (bs : list byte) : Prop :=
  exists b, bs = to_be_bytes 8 (tx_repr_to r) ++ b.

Lemma encode_tx_repr r : encode c_tx_repr r = Ok (to_be_bytes 8 (tx_repr_to r)).
Proof. by destruct r. Qed.

Lemma body_starts {A} (c : Codec A) r x bs :
  encode_static (c_body c r) x = Ok bs -> starts_with r bs.
Proof.
  cbn [c_body c_prefixed encode_static]. change (c_repr tx_repr_to tx_repr_of) with c_tx_repr.
  rewrite encode_tx_repr. cbn [obind]. destruct (encode_static c x) as [b| |]; [|done..].
  cbn [obind]. intros [= <-]. by exists b.
Qed.

Lemma chargeable_starts {A} (c : Codec A) r x bs :
  encode_static (c_chargeable (c_body c r)) x = Ok bs -> starts_with r bs.
Proof.
  cbn [c_chargeable c_struct c_pair encode_static chargeable_fields fst snd].
  destruct (encode_static (c_body c r) (tx_body x)) as [b| |] eqn:E; [|done..]. cbn [obind].
  match goal with |- context [obind ?z _ = Ok bs] => destruct z as [t| |]; [|done..] end. cbn [obind].
  intros [= <-]. destruct (body_starts c r _ _ E) as [b' ->]. exists (b' ++ t). by rewrite app_assoc.
Qed.

Lemma tx_peek r bs rest :
  starts_with r bs ->
  input_peek 8 (bs ++ rest) = Ok (to_be_bytes 8 (tx_repr_to r)) /\
  decode c_tx_repr (to_be_bytes 8 (tx_repr_to r)) = Ok (r, []).
Proof.
  intros [b ->]. split; [|by destruct r]. unfold input_peek.
  rewrite <- app_assoc, zlen_app, zlen_to_be_bytes. pose proof (zlen_nonneg (b ++ rest)). case_if; [lia|].
  by rewrite take_app_length' by (rewrite length_to_be_bytes; lia).
Qed.

(** One kind of transaction. *)
Lemma s_transaction {T} (c : Codec T) x r (tag : T -> Transaction) (stag : Static c -> TxStatic) s bs bd :
  encodes c x s bs bd -> starts_with r bs ->
  (forall R (f : forall T, Codec T -> T -> R), tx_dispatch f (tag x) = f _ c x) ->
  (forall buf peeked p', input_peek 8 buf = Ok peeked -> decode c_tx_repr peeked = Ok (r, p') ->
     tx_decode_static buf = (let? '(s, buf) := decode_static c buf in Ok (stag s, buf))) ->
  (forall buf, tx_decode_dynamic (stag s) buf =
     (let? '(t, buf) := decode_dynamic c s buf in Ok (tag t, buf))) ->
  encodes c_transaction (tag x) (stag s) bs bd.
Proof.
  intros [H1 H2 H3 H4 H5 H6 H7 H8] Hr Hf Hs Hd.
  split; cbn [c_transaction encode_static encode_dynamic size_static size_dynamic decode_static decode_dynamic];
    rewrite ?Hf; try done.
  - intros rest. destruct (tx_peek r bs rest Hr) as [Hp Hq]. by rewrite (Hs _ _ _ Hp Hq), H7.
  - intros rest. by rewrite Hd, H8.
Qed.

Ltac s_transaction Hlaw Hstarts r tag stag :=
  intros Ht; destruct (Hlaw _ Ht) as (s & bs & bd & He); exists (stag s), bs, bd;
  apply (s_transaction _ _ r tag stag _ _ _ He);
    [eapply Hstarts, (en_static _ _ _ _ _ He)|done
    |intros buf pk p' Hpk Hp; unfold tx_decode_static; by rewrite Hpk; cbn [obind]; rewrite Hp|done].

Lemma c_transaction_lawful : lawful c_transaction tx_ok.
Proof.
  intros [t|t|m|t|t|t]; cbn [tx_ok].
  - s_transaction (c_chargeable_lawful _ _ c_script_body_lawful) @chargeable_starts TxRepr_Script Tx_Script TxS_Script.
  - s_transaction (c_chargeable_lawful _ _ c_create_body_lawful) @chargeable_starts TxRepr_Create Tx_Create TxS_Create.
  - s_transaction c_mint_lawful @body_starts TxRepr_Mint Tx_Mint TxS_Mint.
  - s_transaction (c_chargeable_lawful _ _ c_upgrade_body_lawful) @chargeable_starts TxRepr_Upgrade Tx_Upgrade TxS_Upgrade.
  - s_transaction (c_chargeable_lawful _ _ c_upload_body_lawful) @chargeable_starts TxRepr_Upload Tx_Upload TxS_Upload.
  - s_transaction (c_chargeable_lawful _ _ c_blob_body_lawful) @chargeable_starts TxRepr_Blob Tx_Blob TxS_Blob.
Qed.
End Bodies.

(** C12: every valid transaction serializes; the bytes have the announced size, a whole number
    of words, and decoding them gives the transaction back and consumes exactly them, whatever
    follows. *)
Theorem transaction_roundtrip `{Alloc} `{!ExactAlloc} (t : Transaction) :
  tx_ok t ->
  exists bs, canonical_to_bytes c_transaction t = Ok bs /\
    size c_transaction t = Z.min (zlen bs) USIZE_MAX /\ zlen bs mod ALIGN = 0 /\
    (forall rest, decode c_transaction (bs ++ rest) = Ok (t, rest)) /\
    canonical_from_bytes c_transaction bs = Ok t.
Proof.
  intros Ht. destruct (c_transaction_lawful t Ht) as (s & b1 & b2 & He).
  apply encodes_all in He as (Hb & Hs & Ha & Hd). exists (b1 ++ b2).
  unfold canonical_to_bytes, canonical_from_bytes. rewrite Hb. split_and!; try done.
  specialize (Hd []). rewrite app_nil_r in Hd. by rewrite Hd.
Qed.

(** Distinct transactions have distinct encodings. *)
Lemma transaction_bytes_inj `{Alloc} `{!ExactAlloc} (t u : Transaction) bs :
  tx_ok t -> tx_ok u -> canonical_to_bytes c_transaction t = Ok bs ->
  canonical_to_bytes c_transaction u = Ok bs -> t = u.
Proof.
  unfold canonical_to_bytes. intros Ht Hu.
  destruct (encode c_transaction t) as [b| |] eqn:E1; [|done..].
  destruct (encode c_transaction u) as [b'| |] eqn:E2; [|done..]. intros [= ->] [= ->].
  exact (lawful_inj _ _ _ _ _ c_transaction_lawful Ht Hu E1 E2).
Qed.

(** ** A script with a coin, a message with a predicate, and policies *)

Module TxExample.
Definition exact_alloc : Alloc := fun n => n.
Lemma exact_alloc_exact : @ExactAlloc exact_alloc.
Proof. done. Qed.

Definition b32 (b : byte) : Bytes32 := replicate 32 b.
Definition coin : CoinSigned :=
  mkCoin (mkUtxoId (b32 x01) 3) (b32 x02) 1000 (b32 x00) tx_pointer_default 0 mkEmpty mkEmpty mkEmpty.
Definition message : MessageDataPredicate (list byte) :=
  mkMessage (b32 x03) (b32 x04) 7 (b32 x05) mkEmpty 90 [x01; x02] [x24; x40; x00; x00] [xff].
Definition body : ScriptBody := mkScriptBody 500 zeroed [x24; x00; x00; x00] [x07; x08; x09].
Definition chargeable : Chargeable ScriptBody :=
  mkChargeable body (mkPolicies 12 [0; 0; 5; 100; 0])
    [Input_CoinSigned coin; Input_MessageDataPredicate message]
    [Output_Change (b32 x02) 0 (b32 x00)] [[x11; x12]].
Definition tx : Transaction := Tx_Script chargeable.

Lemma tx_valid : tx_ok tx.
Proof.
  unfold tx, tx_ok, chargeable_ok, script_body_ok, policies_ok, chargeable.
  cbn [tx_body tx_policies tx_inputs tx_outputs tx_witnesses].
  repeat match goal with
  | |- _ /\ _ => split
  | |- Forall _ _ => constructor
  | |- input_ok _ => cbn [input_ok message]; unfold coin_ok, message_ok, utxo_id_ok, tx_pointer_ok
  | |- output_ok _ => cbn [output_ok]
  | |- u64_ok _ => done
  | |- _ => done
  end.
Qed.
End TxExample.

Lemma transaction_roundtrip_witness :
  exists bs, @canonical_to_bytes _ (@c_transaction TxExample.exact_alloc) TxExample.tx = Ok bs /\
    @canonical_from_bytes _ (@c_transaction TxExample.exact_alloc) bs = Ok TxExample.tx.
Proof.
  destruct (@transaction_roundtrip TxExample.exact_alloc TxExample.exact_alloc_exact TxExample.tx
    TxExample.tx_valid) as (bs & E & _ & _ & _ & F).
  by exists bs.
Defined.
