(* ===== verification/TxInput.v ===== *)
(** * The fields of inputs and transactions

    Accessors of src/fuel-tx: [impl Input] of transaction/types/input.rs, the offsets of the
    fields of an input (input/consts.rs, input/repr.rs), the policies as fields
    (transaction.rs, module [field]), the assets of the inputs (trait [Executable]), and the
    errors of the validity rules (validity/error.rs). *)

From Stdlib Require Import Strings.Byte.
From S2P Require Import Prelude Asm Merkle Receipts Flow Blockchain Canonical TxTypes.

(** ** Validity errors *)

Inductive ValidityError : Type :=
| TransactionMetadataMismatch
| NoSpendableInput
| InputWitnessIndexBounds (index : Z)
| InputPredicateEmpty (index : Z)
| InputPredicateLength (index : Z)
| InputPredicateDataLength (index : Z)
| InputPredicateOwner (index : Z)
| InputInvalidSignature (index : Z)
| InputContractAssociatedOutputContract (index : Z)
| InputMessageDataLength (index : Z)
| DuplicateInputUtxoId (utxo_id : UtxoId)
| DuplicateInputNonce (nonce : Bytes32)
| DuplicateInputContractId (contract_id : ContractId)
| OutputContractInputIndex (index : Z)
| TransactionInputContainsNonBaseAssetId (index : Z)
| TransactionInputContainsContract (index : Z)
| TransactionInputContainsMessageData (index : Z)
| TransactionOutputContainsContract (index : Z)
| TransactionOutputContainsVariable (index : Z)
| TransactionChangeChangeUsesNotBaseAsset (index : Z)
| TransactionCreateOutputContractCreatedDoesntMatch (index : Z)
| TransactionCreateOutputContractCreatedMultiple (index : Z)
| TransactionCreateBytecodeLen
| TransactionCreateBytecodeWitnessIndex
| TransactionCreateStorageSlotMax
| TransactionCreateStorageSlotOrder
| TransactionScriptLength
| TransactionScriptDataLength
| TransactionOutputContainsContractCreated (index : Z)
| TransactionMintIncorrectBlockHeight
| TransactionMintIncorrectOutputIndex
| TransactionMintNonBaseAsset
| TransactionUpgradeNoPrivilegedAddress
| TransactionUpgradeConsensusParametersChecksumMismatch
| TransactionUpgradeConsensusParametersSerialization
| TransactionUpgradeConsensusParametersDeserialization
| TransactionUploadRootVerificationFailed
| TransactionUploadTooManyBytecodeSubsections
| TransactionSizeLimitExceeded
| TransactionMaxGasExceeded
| TransactionWitnessLimitExceeded
| TransactionPoliciesAreInvalid
| TransactionNoGasPricePolicy
| TransactionMaturity
| TransactionExpiration
| TransactionMaxFeeNotSet
| TransactionInputsMax
| TransactionOutputsMax
| TransactionWitnessesMax
| TransactionOutputChangeAssetIdDuplicated (asset_id : AssetId)
| TransactionOutputChangeAssetIdNotFound (asset_id : AssetId)
| TransactionOutputCoinAssetIdNotFound (asset_id : AssetId)
| InsufficientFeeAmount (expected provided : Z)
| InsufficientInputAmount (asset : AssetId) (expected provided : Z)
| BalanceOverflow
| GasCostsCoinsOverflow
| SerializedInputTooLarge (index : Z)
| SerializedOutputTooLarge (index : Z)
| SerializedWitnessTooLarge (index : Z)
| TransactionOutputDoesntContainContractCreated
| TransactionBlobIdVerificationFailed.

(** ** Inputs *)

Module Inp.
Definition utxo_id (i : Input) : option UtxoId :=
  match i with
  | Input_CoinSigned c => Some (coin_utxo_id c)
  | Input_CoinPredicate c => Some (coin_utxo_id c)
  | Input_Contract c => Some (inc_utxo_id c)
  | _ => None
  end.
Definition input_owner (i : Input) : option Bytes32 :=
  match i with
  | Input_CoinSigned c => Some (coin_owner c)
  | Input_CoinPredicate c => Some (coin_owner c)
  | Input_MessageCoinSigned m => Some (msg_recipient m)
  | Input_MessageCoinPredicate m => Some (msg_recipient m)
  | Input_MessageDataSigned m => Some (msg_recipient m)
  | Input_MessageDataPredicate m => Some (msg_recipient m)
  | Input_Contract _ => None
  end.
Definition asset_id (i : Input) (base_asset_id : AssetId) : option AssetId :=
  match i with
  | Input_CoinSigned c => Some (coin_asset_id c)
  | Input_CoinPredicate c => Some (coin_asset_id c)
  | Input_Contract _ => None
  | _ => Some base_asset_id
  end.
Definition contract_id (i : Input) : option ContractId :=
  if i is Input_Contract c then Some (inc_contract_id c) else None.
Definition amount (i : Input) : option Z :=
  match i with
  | Input_CoinSigned c => Some (coin_amount c)
  | Input_CoinPredicate c => Some (coin_amount c)
  | Input_MessageCoinSigned m => Some (msg_amount m)
  | Input_MessageCoinPredicate m => Some (msg_amount m)
  | Input_MessageDataSigned m => Some (msg_amount m)
  | Input_MessageDataPredicate m => Some (msg_amount m)
  | Input_Contract _ => None
  end.
Definition witness_index (i : Input) : option Z :=
  match i with
  | Input_CoinSigned c => Some (coin_witness_index c)
  | Input_MessageCoinSigned m => Some (msg_witness_index m)
  | Input_MessageDataSigned m => Some (msg_witness_index m)
  | _ => None
  end.
Definition nonce (i : Input) : option Bytes32 :=
  match i with
  | Input_MessageCoinSigned m => Some (msg_nonce m)
  | Input_MessageCoinPredicate m => Some (msg_nonce m)
  | Input_MessageDataSigned m => Some (msg_nonce m)
  | Input_MessageDataPredicate m => Some (msg_nonce m)
  | _ => None
  end.
Definition tx_pointer (i : Input) : option TxPointer :=
  match i with
  | Input_CoinSigned c => Some (coin_tx_pointer c)
  | Input_CoinPredicate c => Some (coin_tx_pointer c)
  | Input_Contract c => Some (inc_tx_pointer c)
  | _ => None
  end.
Definition input_data (i : Input) : option (list byte) :=
  match i with
  | Input_MessageDataSigned m => Some (msg_data m)
  | Input_MessageDataPredicate m => Some (msg_data m)
  | _ => None
  end.
Definition input_data_len (i : Input) : option Z :=
  match i with
  | Input_MessageDataSigned m => Some (zlen (msg_data m))
  | Input_MessageDataPredicate m => Some (zlen (msg_data m))
  | Input_MessageCoinSigned _ | Input_MessageCoinPredicate _ => Some 0
  | _ => None
  end.
Definition input_predicate (i : Input) : option (list byte) :=
  match i with
  | Input_CoinPredicate c => Some (coin_predicate c)
  | Input_MessageCoinPredicate m => Some (msg_predicate m)
  | Input_MessageDataPredicate m => Some (msg_predicate m)
  | _ => None
  end.
Definition input_predicate_data (i : Input) : option (list byte) :=
  match i with
  | Input_CoinPredicate c => Some (coin_predicate_data c)
  | Input_MessageCoinPredicate m => Some (msg_predicate_data m)
  | Input_MessageDataPredicate m => Some (msg_predicate_data m)
  | _ => None
  end.
Definition predicate_gas_used (i : Input) : option Z :=
  match i with
  | Input_CoinPredicate c => Some (coin_predicate_gas_used c)
  | Input_MessageCoinPredicate m => Some (msg_predicate_gas_used m)
  | Input_MessageDataPredicate m => Some (msg_predicate_gas_used m)
  | _ => None
  end.
Definition predicate_len (i : Input) : option Z :=
  match i with
  | Input_CoinPredicate c => Some (zlen (coin_predicate c))
  | Input_MessageCoinPredicate m => Some (zlen (msg_predicate m))
  | Input_MessageDataPredicate m => Some (zlen (msg_predicate m))
  | Input_Contract _ => None
  | _ => Some 0
  end.
Definition predicate_data_len (i : Input) : option Z :=
  match i with
  | Input_CoinPredicate c => Some (zlen (coin_predicate_data c))
  | Input_MessageCoinPredicate m => Some (zlen (msg_predicate_data m))
  | Input_MessageDataPredicate m => Some (zlen (msg_predicate_data m))
  | Input_Contract _ => None
  | _ => Some 0
  end.
Definition balance_root (i : Input) : option Bytes32 :=
  if i is Input_Contract c then Some (inc_balance_root c) else None.
Definition state_root (i : Input) : option Bytes32 :=
  if i is Input_Contract c then Some (inc_state_root c) else None.
Definition sender (i : Input) : option Bytes32 :=
  match i with
  | Input_MessageCoinSigned m => Some (msg_sender m)
  | Input_MessageCoinPredicate m => Some (msg_sender m)
  | Input_MessageDataSigned m => Some (msg_sender m)
  | Input_MessageDataPredicate m => Some (msg_sender m)
  | _ => None
  end.
Definition recipient (i : Input) : option Bytes32 :=
  match i with
  | Input_MessageCoinSigned m => Some (msg_recipient m)
  | Input_MessageCoinPredicate m => Some (msg_recipient m)
  | Input_MessageDataSigned m => Some (msg_recipient m)
  | Input_MessageDataPredicate m => Some (msg_recipient m)
  | _ => None
  end.
Definition is_coin (i : Input) : bool :=
  match i with Input_CoinSigned _ | Input_CoinPredicate _ => true | _ => false end.

Definition set_predicate_gas_used (i : Input) (gas : Z) : Input :=
  match i with
  | Input_CoinPredicate c =>
      Input_CoinPredicate (mkCoin (coin_utxo_id c) (coin_owner c) (coin_amount c) (coin_asset_id c)
        (coin_tx_pointer c) (coin_witness_index c) gas (coin_predicate c) (coin_predicate_data c))
  | Input_MessageCoinPredicate m =>
      Input_MessageCoinPredicate (mkMessage (msg_sender m) (msg_recipient m) (msg_amount m)
        (msg_nonce m) (msg_witness_index m) gas (msg_data m) (msg_predicate m) (msg_predicate_data m))
  | Input_MessageDataPredicate m =>
      Input_MessageDataPredicate (mkMessage (msg_sender m) (msg_recipient m) (msg_amount m)
        (msg_nonce m) (msg_witness_index m) gas (msg_data m) (msg_predicate m) (msg_predicate_data m))
  | i => i
  end.

(** [Input::owner] of a public key. *)
Definition owner `{Sha256} (pk : list byte) : Bytes32 := sha256 pk.

(** [ContractId::SEED] *)
Definition SEED : list byte := [x46; x55; x45; x4c].
(** The code root panics on a tree of impossible height. *)
Definition predicate_owner `{Sha256} {E} (predicate : list byte) : outcome E Bytes32 :=
  match root_from_code predicate with
  | Ok root => Ok (sha256 (SEED ++ root))
  | _ => Crash
  end.
Definition is_predicate_owner_valid `{Sha256} {E} (owner : Bytes32) (predicate : list byte)
  : outcome E bool :=
  let? o := predicate_owner predicate in Ok (bool_decide (owner = o)).
End Inp.
