(* ===== verification/TxId.v ===== *)
(** * Identifiers of transactions

    [prepare_sign] of src/fuel-tx (transaction/types/: input/coin.rs, message.rs, contract.rs,
    output.rs, script.rs, mint.rs, chargeable_transaction.rs) clears the fields that are filled
    after signing, and [id] hashes the chain id and the encoding of the cleared transaction
    without its witnesses (transaction/id.rs, types.rs).

    The id commits to everything else: [transaction_id_binding]. The cached id of a transaction
    whose metadata was computed is the value of [tx_id] at that time. *)

From Stdlib Require Import Strings.Byte.
From S2P Require Import Prelude Asm Merkle Receipts Canonical TxTypes TxCodec.

(** ** Clearing *)

(** [AsField::as_mut_field] of a counter of gas: only a present field is cleared. *)
Class AsField (G : Type) : Type := clear_field : G -> G.
#[export] Instance as_field_word : AsField Z := fun _ => 0.
#[export] Instance as_field_empty : AsField Empty := fun e => e.

Definition coin_prepare_sign {W G P D} `{AsField G} (c : Coin W G P D) : Coin W G P D :=
  mkCoin (coin_utxo_id c) (coin_owner c) (coin_amount c) (coin_asset_id c) tx_pointer_default
    (coin_witness_index c) (clear_field (coin_predicate_gas_used c)) (coin_predicate c)
    (coin_predicate_data c).
Definition message_prepare_sign {W G A P D} `{AsField G} (m : Message W G A P D) : Message W G A P D :=
  mkMessage (msg_sender m) (msg_recipient m) (msg_amount m) (msg_nonce m) (msg_witness_index m)
    (clear_field (msg_predicate_gas_used m)) (msg_data m) (msg_predicate m) (msg_predicate_data m).
Definition input_contract_prepare_sign (c : InputContract) : InputContract :=
  mkInputContract utxo_id_default zeroed zeroed tx_pointer_default (inc_contract_id c).
Definition output_contract_prepare_sign (c : OutputContract) : OutputContract :=
  mkOutputContract (outc_input_index c) zeroed zeroed.

Definition input_prepare_sign (i : Input) : Input :=
  match i with
  | Input_CoinSigned coin => Input_CoinSigned (coin_prepare_sign coin)
  | Input_CoinPredicate coin => Input_CoinPredicate (coin_prepare_sign coin)
  | Input_Contract contract => Input_Contract (input_contract_prepare_sign contract)
  | Input_MessageCoinSigned message => Input_MessageCoinSigned (message_prepare_sign message)
  | Input_MessageCoinPredicate message => Input_MessageCoinPredicate (message_prepare_sign message)
  | Input_MessageDataSigned message => Input_MessageDataSigned (message_prepare_sign message)
  | Input_MessageDataPredicate message => Input_MessageDataPredicate (message_prepare_sign message)
  end.
Definition output_prepare_sign (o : Output) : Output :=
  match o with
  | Output_Contract contract => Output_Contract (output_contract_prepare_sign contract)
  | Output_Change to _ asset_id => Output_Change to 0 asset_id
  | Output_Variable _ _ _ => Output_Variable zeroed 0 zeroed
  | o => o
  end.

(** [PrepareSign] of the bodies. *)
Class PrepareSign (Body : Type) : Type := prepare_sign : Body -> Body.
#[export] Instance script_prepare_sign : PrepareSign ScriptBody := fun b =>
  mkScriptBody (script_gas_limit b) zeroed (script b) (script_data b).
#[export] Instance create_prepare_sign : PrepareSign CreateBody := fun b => b.
#[export] Instance upgrade_prepare_sign : PrepareSign UpgradePurpose := fun b => b.
#[export] Instance upload_prepare_sign : PrepareSign UploadBody := fun b => b.
#[export] Instance blob_prepare_sign : PrepareSign BlobBody := fun b => b.

Definition chargeable_prepare_sign {Body} `{PrepareSign Body} (t : Chargeable Body) : Chargeable Body :=
  mkChargeable (prepare_sign (tx_body t)) (tx_policies t) (map input_prepare_sign (tx_inputs t))
    (map output_prepare_sign (tx_outputs t)) (tx_witnesses t).
Definition clear_witnesses {Body} (t : Chargeable Body) : Chargeable Body :=
  mkChargeable (tx_body t) (tx_policies t) (tx_inputs t) (tx_outputs t) [].
Definition mint_prepare_sign (m : Mint) : Mint :=
  mkMint (mint_tx_pointer m) (input_contract_prepare_sign (mint_input_contract m))
    (output_contract_prepare_sign (mint_output_contract m)) (mint_amount m) (mint_asset_id m)
    (mint_gas_price m).

(** ** Ids *)

Section Ids.
Context `{Alloc} `{Sha256}.

Definition compute_transaction_id {T} (c : Codec T) (chain_id : Z) (tx : T)
  : outcome CanonicalError Bytes32 :=
  let? bytes := canonical_to_bytes c tx in
  Ok (sha256 (to_be_bytes 8 chain_id ++ bytes)).

Definition chargeable_id {Body} `{PrepareSign Body} (c : Codec Body) (chain_id : Z)
    (t : Chargeable Body) : outcome CanonicalError Bytes32 :=
  compute_transaction_id (c_chargeable c) chain_id (clear_witnesses (chargeable_prepare_sign t)).
Definition mint_id (chain_id : Z) (m : Mint) : outcome CanonicalError Bytes32 :=
  compute_transaction_id c_mint chain_id (mint_prepare_sign m).

Definition tx_id (chain_id : Z) (t : Transaction) : outcome CanonicalError Bytes32 :=
  match t with
  | Tx_Script t => chargeable_id c_script_body chain_id t
  | Tx_Create t => chargeable_id c_create_body chain_id t
  | Tx_Mint m => mint_id chain_id m
  | Tx_Upgrade t => chargeable_id c_upgrade_body chain_id t
  | Tx_Upload t => chargeable_id c_upload_body chain_id t
  | Tx_Blob t => chargeable_id c_blob_body chain_id t
  end.
End Ids.

(** ** What is signed *)

(** The transaction without the fields that may change after signing. *)
Definition signed_part (t : Transaction) : Transaction :=
  match t with
  | Tx_Script t => Tx_Script (clear_witnesses (chargeable_prepare_sign t))
  | Tx_Create t => Tx_Create (clear_witnesses (chargeable_prepare_sign t))
  | Tx_Mint m => Tx_Mint (mint_prepare_sign m)
  | Tx_Upgrade t => Tx_Upgrade (clear_witnesses (chargeable_prepare_sign t))
  | Tx_Upload t => Tx_Upload (clear_witnesses (chargeable_prepare_sign t))
  | Tx_Blob t => Tx_Blob (clear_witnesses (chargeable_prepare_sign t))
  end.

Lemma zeroed_ok : bytes32_ok zeroed.
Proof. done. Qed.
Lemma utxo_id_default_ok : utxo_id_ok utxo_id_default.
Proof. done. Qed.
Lemma tx_pointer_default_ok : tx_pointer_ok tx_pointer_default.
Proof. done. Qed.
#[export] Hint Resolve zeroed_ok utxo_id_default_ok tx_pointer_default_ok : codec.

Lemma input_prepare_sign_ok i : input_ok i -> input_ok (input_prepare_sign i).
Proof.
  destruct i as [[] |[] |[] |[] |[] |[] |[]]; cbn; unfold input_contract_ok, coin_ok, message_ok; cbn;
    intuition eauto with codec; done.
Qed.

Lemma output_prepare_sign_ok o : output_ok o -> output_ok (output_prepare_sign o).
Proof.
  destruct o as [|[]| | |]; cbn; unfold output_contract_ok; cbn; intuition eauto with codec; done.
Qed.

Lemma chargeable_prepare_ok {Body} `{PrepareSign Body} (body_ok : Body -> Prop) t :
  (forall b, body_ok b -> body_ok (prepare_sign b)) -> chargeable_ok body_ok t ->
  chargeable_ok body_ok (clear_witnesses (chargeable_prepare_sign t)).
Proof.
  intros Hb (H1 & H2 & [H3 H4] & [H5 H6] & _). unfold chargeable_ok, vec_ok, zlen in *. cbn.
  rewrite !length_map. split_and!;
    first [done|by apply Hb|by constructor
          |apply Forall_map; eapply Forall_impl; eauto using input_prepare_sign_ok, output_prepare_sign_ok].
Qed.

Lemma signed_part_ok t : tx_ok t -> tx_ok (signed_part t).
Proof.
  destruct t as [t|t|[]|t|t|t]; cbn [tx_ok signed_part]; intros Ht;
    try (apply chargeable_prepare_ok; [done|exact Ht]).
  - apply chargeable_prepare_ok; [|done]. intros [] (? & ? & ? & ?). split_and!; done.
  - destruct Ht as (H1 & (H2 & H3 & H4 & H5 & H6) & (H7 & H8 & H9) & H10 & H11 & H12).
    split_and!; try done; repeat split; done.
Qed.

(** The id hashes the chain id and the encoding of the signed part. *)
Lemma tx_id_signed_part `{Alloc} `{Sha256} chain_id t :
  tx_id chain_id t = compute_transaction_id c_transaction chain_id (signed_part t).
Proof. by destruct t. Qed.

(** ** What an id binds

    Two transactions agree when they differ at most in what may change after signing: the
    witnesses, the receipts root, the gas used by predicates, the pointers of inputs, the
    roots and the spent output of contracts, the amounts of change, and variable outputs. *)

Definition coin_agree {W G P D} (c d : Coin W G P D) : Prop :=
  coin_utxo_id c = coin_utxo_id d /\ coin_owner c = coin_owner d /\ coin_amount c = coin_amount d /\
  coin_asset_id c = coin_asset_id d /\ coin_witness_index c = coin_witness_index d /\
  coin_predicate c = coin_predicate d /\ coin_predicate_data c = coin_predicate_data d.
Definition message_agree {W G A P D} (m n : Message W G A P D) : Prop :=
  msg_sender m = msg_sender n /\ msg_recipient m = msg_recipient n /\ msg_amount m = msg_amount n /\
  msg_nonce m = msg_nonce n /\ msg_witness_index m = msg_witness_index n /\ msg_data m = msg_data n /\
  msg_predicate m = msg_predicate n /\ msg_predicate_data m = msg_predicate_data n.
Definition input_agree (i j : Input) : Prop :=
  match i, j with
  | Input_CoinSigned c, Input_CoinSigned d => coin_agree c d
  | Input_CoinPredicate c, Input_CoinPredicate d => coin_agree c d
  | Input_Contract c, Input_Contract d => inc_contract_id c = inc_contract_id d
  | Input_MessageCoinSigned m, Input_MessageCoinSigned n => message_agree m n
  | Input_MessageCoinPredicate m, Input_MessageCoinPredicate n => message_agree m n
  | Input_MessageDataSigned m, Input_MessageDataSigned n => message_agree m n
  | Input_MessageDataPredicate m, Input_MessageDataPredicate n => message_agree m n
  | _, _ => False
  end.
Definition output_agree (o p : Output) : Prop :=
  match o, p with
  | Output_Contract c, Output_Contract d => outc_input_index c = outc_input_index d
  | Output_Change t _ a, Output_Change t' _ a' => t = t' /\ a = a'
  | Output_Variable _ _ _, Output_Variable _ _ _ => True
  | _, _ => o = p
  end.
Definition script_agree (b c : ScriptBody) : Prop :=
  script_gas_limit b = script_gas_limit c /\ script b = script c /\ script_data b = script_data c.
Definition chargeable_agree {Body} (body_agree : Body -> Body -> Prop) (t u : Chargeable Body) : Prop :=
  body_agree (tx_body t) (tx_body u) /\ tx_policies t = tx_policies u /\
  Forall2 input_agree (tx_inputs t) (tx_inputs u) /\ Forall2 output_agree (tx_outputs t) (tx_outputs u).
Definition mint_agree (m n : Mint) : Prop :=
  mint_tx_pointer m = mint_tx_pointer n /\ mint_amount m = mint_amount n /\
  mint_asset_id m = mint_asset_id n /\ mint_gas_price m = mint_gas_price n /\
  inc_contract_id (mint_input_contract m) = inc_contract_id (mint_input_contract n) /\
  outc_input_index (mint_output_contract m) = outc_input_index (mint_output_contract n).
Definition agree (t u : Transaction) : Prop :=
  match t, u with
  | Tx_Script t, Tx_Script u => chargeable_agree script_agree t u
  | Tx_Create t, Tx_Create u => chargeable_agree eq t u
  | Tx_Mint m, Tx_Mint n => mint_agree m n
  | Tx_Upgrade t, Tx_Upgrade u => chargeable_agree eq t u
  | Tx_Upload t, Tx_Upload u => chargeable_agree eq t u
  | Tx_Blob t, Tx_Blob u => chargeable_agree eq t u
  | _, _ => False
  end.

Lemma input_agree_spec i j : input_prepare_sign i = input_prepare_sign j <-> input_agree i j.
Proof.
  destruct i as [[]|[]|[]|[]|[]|[]|[]], j as [[]|[]|[]|[]|[]|[]|[]]; cbn; try done;
    unfold coin_prepare_sign, message_prepare_sign, input_contract_prepare_sign, coin_agree, message_agree,
      clear_field, as_field_empty, as_field_word; cbn;
    repeat match goal with e : Empty |- _ => destruct e end; split; intros; destruct_and?; simplify_eq; done.
Qed.

Lemma output_agree_spec o p : output_prepare_sign o = output_prepare_sign p <-> output_agree o p.
Proof.
  destruct o as [|[]| | |], p as [|[]| | |]; cbn; try done;
    unfold output_contract_prepare_sign; cbn; split; intros; destruct_and?; simplify_eq; done.
Qed.

Lemma map_agree {A B} (f : A -> B) (R : A -> A -> Prop) l k :
  (forall x y, f x = f y <-> R x y) -> map f l = map f k <-> Forall2 R l k.
Proof.
  intros HR. split.
  - revert k. induction l as [|x l IH]; intros [|y k]; cbn; try done. intros [= Hxy Hl]. constructor; [by apply HR|by apply IH].
  - induction 1 as [|x y l k Hxy _ IH]; [done|]. cbn. by rewrite IH, (proj2 (HR x y) Hxy).
Qed.

Lemma chargeable_agree_spec {Body} `{PrepareSign Body} (R : Body -> Body -> Prop) t u :
  (forall b c, prepare_sign b = prepare_sign c <-> R b c) ->
  clear_witnesses (chargeable_prepare_sign t) = clear_witnesses (chargeable_prepare_sign u) <-> chargeable_agree R t u.
Proof.
  intros HR. unfold chargeable_agree, clear_witnesses, chargeable_prepare_sign. cbn.
  rewrite <- HR, <- (map_agree _ _ _ _ input_agree_spec), <- (map_agree _ _ _ _ output_agree_spec).
  split; [by intros [= -> -> -> ->]|by intros (-> & -> & -> & ->)].
Qed.

Lemma signed_part_agree t u : signed_part t = signed_part u <-> agree t u.
Proof.
  assert (Hs : forall b c : ScriptBody, prepare_sign b = prepare_sign c <-> script_agree b c).
  { intros [] []. unfold prepare_sign, script_prepare_sign, script_agree. cbn. split; [by intros [=]|by intros (-> & -> & ->)]. }
  destruct t as [t|t|m|t|t|t], u as [u|u|n|u|u|u]; cbn [signed_part agree]; try done.
  3: { destruct m as [? [] [] ? ? ?], n as [? [] [] ? ? ?]. unfold mint_agree, mint_prepare_sign. cbn.
       unfold input_contract_prepare_sign, output_contract_prepare_sign. cbn. split; intros; destruct_and?; simplify_eq; done. }
  all: rewrite <- chargeable_agree_spec by (exact Hs || (intros; reflexivity)); split; congruence.
Qed.

(** C13: every valid transaction has an id. Transactions of the same chain that agree, that is,
    differ at most in what may change after signing, have the same id; and two transactions
    with the same id are of the same chain and agree, unless SHA-256 maps the two distinct
    strings they are hashed from to the same digest. *)
Theorem transaction_id_binding `{Alloc} `{!ExactAlloc} `{Sha256} (chain1 chain2 : Z) (t u : Transaction) :
  u64_ok chain1 -> u64_ok chain2 -> tx_ok t -> tx_ok u ->
  exists i j, tx_id chain1 t = Ok i /\ tx_id chain2 u = Ok j /\
    (chain1 = chain2 -> agree t u -> i = j) /\
    (i = j -> (chain1 = chain2 /\ agree t u) \/
       exists bt bu, canonical_to_bytes c_transaction (signed_part t) = Ok bt /\
         canonical_to_bytes c_transaction (signed_part u) = Ok bu /\
         to_be_bytes 8 chain1 ++ bt <> to_be_bytes 8 chain2 ++ bu /\
         sha256 (to_be_bytes 8 chain1 ++ bt) = sha256 (to_be_bytes 8 chain2 ++ bu)).
Proof.
  intros Hc1 Hc2 Ht Hu. apply signed_part_ok in Ht, Hu.
  rewrite !tx_id_signed_part. unfold compute_transaction_id, canonical_to_bytes.
  destruct (c_transaction_lawful _ Ht) as (s1 & b1 & d1 & E1), (c_transaction_lawful _ Hu) as (s2 & b2 & d2 & E2).
  apply encodes_all in E1 as (F1 & _ & _ & D1), E2 as (F2 & _ & _ & D2).
  rewrite F1, F2. cbn [obind]. eexists _, _. split; [done|]. split; [done|]. split.
  - intros <- E. apply signed_part_agree in E. rewrite E in F1. replace (b1 ++ d1) with (b2 ++ d2) by congruence. done.
  - intros E. destruct (decide (to_be_bytes 8 chain1 ++ b1 ++ d1 = to_be_bytes 8 chain2 ++ b2 ++ d2)) as [Eb|Hne].
    + left. apply app_inj_1 in Eb as [Ec Eb]; [|by rewrite !length_to_be_bytes]. split.
      * pose proof (to_from_be_bytes 8 chain1 Hc1). pose proof (to_from_be_bytes 8 chain2 Hc2). congruence.
      * apply signed_part_agree. specialize (D1 []). specialize (D2 []). rewrite Eb in D1. congruence.
    + right. by eexists _, _.
Qed.

Lemma transaction_id_binding_witness :
  let sha : Sha256 := fun l => take 32 (l ++ replicate 32 x00) in
  exists i j, @tx_id TxExample.exact_alloc sha 7 TxExample.tx = Ok i /\
    @tx_id TxExample.exact_alloc sha 7
      (Tx_Script (mkChargeable TxExample.body (mkPolicies 12 [0; 0; 5; 100; 0])
        [Input_CoinSigned TxExample.coin; Input_MessageDataPredicate TxExample.message]
        [Output_Change (TxExample.b32 x02) 600 (TxExample.b32 x00)] [])) = Ok j /\ i = j.
Proof.
  intros sha.
  destruct (@transaction_id_binding TxExample.exact_alloc TxExample.exact_alloc_exact sha 7 7 TxExample.tx
    (Tx_Script (mkChargeable TxExample.body (mkPolicies 12 [0; 0; 5; 100; 0])
        [Input_CoinSigned TxExample.coin; Input_MessageDataPredicate TxExample.message]
        [Output_Change (TxExample.b32 x02) 600 (TxExample.b32 x00)] [])))
    as (i & j & Hi & Hj & Hsame & _); [done|done|exact TxExample.tx_valid| |].
  - destruct TxExample.tx_valid as (H1 & H2 & H3 & _). split; [exact H1|]. split; [exact H2|]. split; [exact H3|].
    split; split; try done; repeat constructor; done.
  - exists i, j. split; [exact Hi|]. split; [exact Hj|].
    apply Hsame; [done|]. split_and!; try done; repeat constructor.
Defined.
