(* ===== verification/TxSign.v ===== *)
(** * Signing and checking signatures

    [Signable::sign_inputs] (src/fuel-tx/src/transaction/id.rs), [Witness::recover_witness]
    (types/witness.rs), [Input::check_signature] with its cache of recovered addresses
    (validity.rs) and [check_signatures] (types/chargeable_transaction.rs).

    The signature scheme is that of the curve libraries behind fuel-crypto: a parameter, with
    the law that recovering the key of a signature of a message gives the public key. *)

From Stdlib Require Import Strings.Byte.
From stdpp Require Import sorting.
From S2P Require Import Prelude Asm Merkle Receipts Flow Blockchain Canonical TxTypes TxCodec TxInput TxId.

Definition SIGNATURE_LEN : Z := 64.

(** [PublicKey::from], [Signature::sign] and [Signature::recover] *)
Class SigScheme : Type := {
  SecretKey : Type;
  public_key : SecretKey -> list byte;
  sig_sign : SecretKey -> Bytes32 -> list byte;
  sig_recover : list byte -> Bytes32 -> option (list byte)
}.
Class SigLaws `{SigScheme} : Prop := {
  sig_len sk m : zlen (sig_sign sk m) = SIGNATURE_LEN;
  sig_recover_sign sk m : sig_recover (sig_sign sk m) m = Some (public_key sk)
}.

Section Sign.
Context `{Alloc} `{Sha256} `{SigScheme}.

(** ** Signing *)

(** [Itertools::dedup] of a sorted sequence *)
Fixpoint dedup (l : list Z) : list Z :=
  match l with
  | x :: ((y :: _) as l') => if x =? y then dedup l' else x :: dedup l'
  | l => l
  end.

(** The witness of an input that [pk] owns. *)
Definition owned_witness (pk : Bytes32) (i : Input) : option Z :=
  match i with
  | Input_CoinSigned c => if bool_decide (coin_owner c = pk) then Some (coin_witness_index c) else None
  | Input_MessageCoinSigned m =>
      if bool_decide (msg_recipient m = pk) then Some (msg_witness_index m) else None
  | Input_MessageDataSigned m =>
      if bool_decide (msg_recipient m = pk) then Some (msg_witness_index m) else None
  | _ => None
  end.
Definition witness_indexes (pk : Bytes32) (inputs : list Input) : list Z :=
  dedup (merge_sort Z.le (omap (owned_witness pk) inputs)).

(** [if let Some(w) = witnesses.get_mut(w) { *w = signature }], for each index *)
Definition set_witnesses (signature : list byte) (witnesses : list (list byte)) (indexes : list Z)
  : list (list byte) :=
  foldl (fun ws w => <[Z.to_nat w := signature]> ws) witnesses indexes.

Definition with_witnesses {Body} (t : Chargeable Body) (ws : list (list byte)) : Chargeable Body :=
  mkChargeable (tx_body t) (tx_policies t) (tx_inputs t) (tx_outputs t) ws.

Definition sign_inputs {Body} `{PrepareSign Body} (c : Codec Body) (secret : SecretKey) (chain_id : Z)
    (t : Chargeable Body) : outcome CanonicalError (Chargeable Body) :=
  let pk := Inp.owner (public_key secret) in
  let? id := chargeable_id c chain_id t in
  let signature := sig_sign secret id in
  Ok (with_witnesses t (set_witnesses signature (tx_witnesses t) (witness_indexes pk (tx_inputs t)))).

(** ** Checking *)

Definition recover_witness (witness : list byte) (txhash : Bytes32) (input_index : Z)
  : outcome ValidityError Bytes32 :=
  if negb (zlen witness =? SIGNATURE_LEN) then Err (InputInvalidSignature input_index)
  else match sig_recover witness txhash with
       | Some pk => Ok (Inp.owner pk)
       | None => Err (InputInvalidSignature input_index)
       end.

(** The cache maps the index of a witness to the address recovered from it. *)
Definition recover_address (index : Z) (txhash : Bytes32) (witnesses : list (list byte)) (witness_index : Z)
  : outcome ValidityError Bytes32 :=
  let? witness := ok_or (zget witnesses witness_index) (InputWitnessIndexBounds index) in
  recover_witness witness txhash index.
Definition recover_cached (index : Z) (txhash : Bytes32) (witnesses : list (list byte)) (witness_index : Z)
    (recovery_cache : option (gmap Z Bytes32)) : outcome ValidityError (Bytes32 * option (gmap Z Bytes32)) :=
  match recovery_cache with
  | Some cache =>
      match cache !! witness_index with
      | Some a => Ok (a, Some cache)
      | None =>
          let? a := recover_address index txhash witnesses witness_index in
          Ok (a, Some (<[witness_index := a]> cache))
      end
  | None =>
      let? a := recover_address index txhash witnesses witness_index in
      Ok (a, None)
  end.

Definition check_signed (index : Z) (txhash : Bytes32) (witnesses : list (list byte))
    (recovery_cache : option (gmap Z Bytes32)) (witness_index : Z) (owner : Bytes32)
  : outcome ValidityError (option (gmap Z Bytes32)) :=
  let? '(recovered, cache) := recover_cached index txhash witnesses witness_index recovery_cache in
  if bool_decide (owner = recovered) then Ok cache else Err (InputInvalidSignature index).
Definition check_predicate (index : Z) (recovery_cache : option (gmap Z Bytes32)) (owner : Bytes32)
    (predicate : list byte) : outcome ValidityError (option (gmap Z Bytes32)) :=
  let? ok := Inp.is_predicate_owner_valid owner predicate in
  if ok : bool then Ok recovery_cache else Err (InputPredicateOwner index).

Definition check_signature (i : Input) (index : Z) (txhash : Bytes32) (witnesses : list (list byte))
    (recovery_cache : option (gmap Z Bytes32)) : outcome ValidityError (option (gmap Z Bytes32)) :=
  match i with
  | Input_CoinSigned c =>
      check_signed index txhash witnesses recovery_cache (coin_witness_index c) (coin_owner c)
  | Input_MessageCoinSigned m =>
      check_signed index txhash witnesses recovery_cache (msg_witness_index m) (msg_recipient m)
  | Input_MessageDataSigned m =>
      check_signed index txhash witnesses recovery_cache (msg_witness_index m) (msg_recipient m)
  | Input_CoinPredicate c => check_predicate index recovery_cache (coin_owner c) (coin_predicate c)
  | Input_MessageCoinPredicate m =>
      check_predicate index recovery_cache (msg_recipient m) (msg_predicate m)
  | Input_MessageDataPredicate m =>
      check_predicate index recovery_cache (msg_recipient m) (msg_predicate m)
  | Input_Contract _ => Ok recovery_cache
  end.

Fixpoint check_each (inputs : list Input) (index : Z) (id : Bytes32) (witnesses : list (list byte))
    (recovery_cache : option (gmap Z Bytes32)) : outcome ValidityError unit :=
  match inputs with
  | [] => Ok tt
  | i :: inputs =>
      let? cache := check_signature i index id witnesses recovery_cache in
      check_each inputs (index + 1) id witnesses cache
  end.
(** [check_signatures], with the id of the transaction *)
Definition chargeable_check_signatures {Body} `{PrepareSign Body} (c : Codec Body) (chain_id : Z)
    (t : Chargeable Body) : outcome ValidityError unit :=
  match chargeable_id c chain_id t with
  | Ok id => check_each (tx_inputs t) 0 id (tx_witnesses t) (Some ∅)
  | _ => Crash
  end.
Definition check_signatures (chain_id : Z) (t : Transaction) : outcome ValidityError unit :=
  match t with
  | Tx_Script t => chargeable_check_signatures c_script_body chain_id t
  | Tx_Create t => chargeable_check_signatures c_create_body chain_id t
  | Tx_Mint _ => Ok tt
  | Tx_Upgrade t => chargeable_check_signatures c_upgrade_body chain_id t
  | Tx_Upload t => chargeable_check_signatures c_upload_body chain_id t
  | Tx_Blob t => chargeable_check_signatures c_blob_body chain_id t
  end.

(** ** What a valid signature is *)

(** The address that signed an input and the witness it points to. *)
Definition signer (i : Input) : option (Z * Bytes32) :=
  match i with
  | Input_CoinSigned c => Some (coin_witness_index c, coin_owner c)
  | Input_MessageCoinSigned m => Some (msg_witness_index m, msg_recipient m)
  | Input_MessageDataSigned m => Some (msg_witness_index m, msg_recipient m)
  | _ => None
  end.
Definition predicate_owned (i : Input) : option (list byte * Bytes32) :=
  match i with
  | Input_CoinPredicate c => Some (coin_predicate c, coin_owner c)
  | Input_MessageCoinPredicate m => Some (msg_predicate m, msg_recipient m)
  | Input_MessageDataPredicate m => Some (msg_predicate m, msg_recipient m)
  | _ => None
  end.

(** The witness [w] is a signature of [id] by [owner]. *)
Definition signed_by (id : Bytes32) (ws : list (list byte)) (w : Z) (owner : Bytes32) : Prop :=
  exists s pk, zget ws w = Some s /\ zlen s = SIGNATURE_LEN /\ sig_recover s id = Some pk /\
    owner = Inp.owner pk.
(** The owner of the input agreed to spend it in the transaction [id]. *)
Definition authorised (id : Bytes32) (ws : list (list byte)) (i : Input) : Prop :=
  match signer i, predicate_owned i with
  | Some (w, owner), _ => signed_by id ws w owner
  | _, Some (p, owner) => @Inp.predicate_owner _ ValidityError p = Ok owner
  | _, _ => True
  end.

Lemma recover_address_spec index id ws w a :
  recover_address index id ws w = Ok a <-> signed_by id ws w a.
Proof.
  unfold recover_address, recover_witness, signed_by. destruct (zget ws w) as [s|]; cbn [ok_or obind].
  2:{ split; [done|]. intros (s & pk & E & _). done. }
  destruct (Z.eqb_spec (zlen s) SIGNATURE_LEN) as [El|Hl]; cbn [negb].
  2:{ split; [done|]. intros (s' & pk & [= <-] & ? & _). done. }
  destruct (sig_recover s id) as [pk|] eqn:Er.
  2:{ split; [done|]. intros (s' & pk & [= <-] & _ & ? & _). congruence. }
  split; [intros [= <-]; eauto 6|]. intros (s' & pk' & [= <-] & _ & ? & ->). congruence.
Qed.

(** The cache holds addresses that were recovered. *)
Definition cache_ok (id : Bytes32) (ws : list (list byte)) (cache : option (gmap Z Bytes32)) : Prop :=
  forall m w a, cache = Some m -> m !! w = Some a -> signed_by id ws w a.

Lemma signed_by_fun id ws w a b : signed_by id ws w a -> signed_by id ws w b -> a = b.
Proof. intros (s & pk & E1 & _ & E2 & ->) (s' & pk' & E3 & _ & E4 & ->). congruence. Qed.

Lemma check_signed_spec index id ws cache w owner :
  cache_ok id ws cache ->
  (signed_by id ws w owner ->
    exists cache', check_signed index id ws cache w owner = Ok cache' /\ cache_ok id ws cache') /\
  (forall cache', check_signed index id ws cache w owner = Ok cache' -> signed_by id ws w owner).
Proof.
  intros Hc. unfold check_signed, recover_cached.
  assert (Hins : forall m, cache = Some m -> signed_by id ws w owner -> cache_ok id ws (Some (<[w := owner]> m))).
  { intros m Em Ho m' w' a [= <-] Ha. apply lookup_insert_Some in Ha as [[<- <-]|[_ Ha]]; eauto. }
  destruct cache as [m|]; [destruct (m !! w) as [a|] eqn:Ea|]; cbn [obind].
  - specialize (Hc m w a eq_refl Ea) as Hs. split.
    + intros Ho. rewrite (signed_by_fun id ws w owner a Ho Hs). rewrite bool_decide_true by done. by exists (Some m).
    + intros cache'. case_bool_decide; [by subst|done].
  - split.
    + intros Ho. rewrite (proj2 (recover_address_spec index id ws w owner) Ho).
      cbn [obind]. rewrite bool_decide_true by done. eauto.
    + intros cache' E. destruct (recover_address index id ws w) as [a| |] eqn:Er; [|done..]. cbn [obind] in E.
      case_bool_decide; [|done]. subst. by apply recover_address_spec in Er.
  - split.
    + intros Ho. rewrite (proj2 (recover_address_spec index id ws w owner) Ho).
      cbn [obind]. rewrite bool_decide_true by done. by exists None.
    + intros cache' E. destruct (recover_address index id ws w) as [a| |] eqn:Er; [|done..]. cbn [obind] in E.
      case_bool_decide; [|done]. subst. by apply recover_address_spec in Er.
Qed.

Lemma check_signature_spec i index id ws cache :
  cache_ok id ws cache ->
  (authorised id ws i ->
    exists cache', check_signature i index id ws cache = Ok cache' /\ cache_ok id ws cache') /\
  (forall cache', check_signature i index id ws cache = Ok cache' -> authorised id ws i).
Proof.
  intros Hc.
  destruct i as [c|c|c|m|m|m|m]; cbn [check_signature authorised signer predicate_owned];
    try (apply check_signed_spec; exact Hc).
  2: by split; eauto.
  all: unfold check_predicate, Inp.is_predicate_owner_valid.
  all: match goal with |- context [Inp.predicate_owner ?p] => destruct (Inp.predicate_owner p) as [o| |] end;
    cbn [obind]; split; try done.
  all: first [intros [= ->]; rewrite bool_decide_true by done; eauto
             |intros cache'; case_bool_decide; [by subst|done]].
Qed.

Lemma check_signature_cache i index id ws cache cache' :
  cache_ok id ws cache -> check_signature i index id ws cache = Ok cache' -> cache_ok id ws cache'.
Proof.
  intros Hc E. destruct (check_signature_spec i index id ws cache Hc) as [K1 K2].
  destruct (K1 (K2 _ E)) as (c & E' & Hc'). rewrite E' in E. by injection E as <-.
Qed.

Lemma check_each_spec inputs : forall index id ws cache,
  cache_ok id ws cache ->
  check_each inputs index id ws cache = Ok tt <-> Forall (authorised id ws) inputs.
Proof.
  induction inputs as [|i inputs IH]; intros index id ws cache Hc; cbn [check_each]; [done|].
  rewrite Forall_cons. destruct (check_signature_spec i index id ws cache Hc) as [K1 K2]. split.
  - destruct (check_signature i index id ws cache) as [cache'| |] eqn:E; [|done..]. cbn [obind]. intros Hr.
    split; [by eapply K2|]. eapply IH, Hr. by eapply check_signature_cache.
  - intros [Hi Hr]. destruct (K1 Hi) as (cache' & -> & Hc'). by apply IH.
Qed.

Lemma check_signatures_spec {Body} `{PrepareSign Body} (c : Codec Body) chain_id t id :
  chargeable_id c chain_id t = Ok id ->
  chargeable_check_signatures c chain_id t = Ok tt <-> Forall (authorised id (tx_witnesses t)) (tx_inputs t).
Proof.
  intros E. unfold chargeable_check_signatures. rewrite E. apply check_each_spec.
  intros m w a [= <-]. by rewrite lookup_empty.
Qed.

(** ** Signing keeps the id and authorises *)

Lemma elem_of_dedup l x : x ∈ dedup l <-> x ∈ l.
Proof.
  induction l as [|a [|b l] IH]; [done..|]. cbn [dedup]. destruct (Z.eqb_spec a b) as [->|_].
  - rewrite IH. set_solver.
  - rewrite elem_of_cons, IH. set_solver.
Qed.

Lemma elem_of_witness_indexes pk inputs w :
  w ∈ witness_indexes pk inputs <-> exists i, i ∈ inputs /\ signer i = Some (w, pk).
Proof.
  unfold witness_indexes. rewrite elem_of_dedup, merge_sort_Permutation, list_elem_of_omap.
  split; intros (i & Hi & E); exists i; split; try done; revert E;
    destruct i; cbn [owned_witness signer]; try done; repeat case_bool_decide; congruence.
Qed.

Lemma set_witnesses_lookup s l : forall ws k,
  set_witnesses s ws l !! k =
  if decide (k ∈ Z.to_nat <$> l) then (fun _ => s) <$> ws !! k else ws !! k.
Proof.
  induction l as [|w l IH]; intros ws k; cbn [set_witnesses foldl]; [done|].
  fold (set_witnesses s (<[Z.to_nat w := s]> ws) l). rewrite IH, fmap_cons.
  destruct (decide (Z.to_nat w = k)) as [<-|Hne].
  - rewrite (decide_True (P := _ ∈ _ :: _)) by set_solver.
    destruct (decide (Z.to_nat w < length ws)%nat) as [Hlt|Hge].
    + rewrite list_lookup_insert_eq by done. destruct (lookup_lt_is_Some_2 _ _ Hlt) as [x ->]. by case_decide.
    + rewrite list_insert_ge, (lookup_ge_None_2 ws) by lia. by case_decide.
  - rewrite list_lookup_insert_ne by done.
    case_decide as E1; case_decide as E2; set_solver.
Qed.

(** The id does not depend on the witnesses. *)
Lemma chargeable_id_witnesses {Body} `{PrepareSign Body} (c : Codec Body) chain_id t ws :
  chargeable_id c chain_id (with_witnesses t ws) = chargeable_id c chain_id t.
Proof. done. Qed.

(** All inputs that share a witness have the same owner. *)
Definition witnesses_consistent (inputs : list Input) : Prop :=
  forall i j w a b, i ∈ inputs -> j ∈ inputs -> signer i = Some (w, a) -> signer j = Some (w, b) -> a = b.
Definition witnesses_bounded (ws : list (list byte)) (inputs : list Input) : Prop :=
  forall i w a, i ∈ inputs -> signer i = Some (w, a) -> 0 <= w < zlen ws.

Lemma zget_nat {A} (l : list A) w : 0 <= w -> zget l w = l !! Z.to_nat w.
Proof. intros Hw. unfold zget. case_if; [lia|done]. Qed.

Context `{!SigLaws}.

(** Signing with [sk] fills the witnesses of its inputs and keeps the other signatures. *)
Lemma set_witnesses_signed sk id ws inputs i w a :
  let ws' := set_witnesses (sig_sign sk id) ws (witness_indexes (Inp.owner (public_key sk)) inputs) in
  witnesses_consistent inputs -> witnesses_bounded ws inputs -> i ∈ inputs -> signer i = Some (w, a) ->
  a = Inp.owner (public_key sk) \/ signed_by id ws w a -> signed_by id ws' w a.
Proof.
  intros ws' Hc Hb Hi Hs Ha. destruct (Hb i w a Hi Hs) as [Hw0 Hw].
  assert (Hlt : (Z.to_nat w < length ws)%nat) by (unfold zlen in Hw; lia).
  destruct (lookup_lt_is_Some_2 _ _ Hlt) as [old Hold].
  assert (Hget : zget ws' w = if decide (Z.to_nat w ∈ Z.to_nat <$> witness_indexes (Inp.owner (public_key sk)) inputs)
                 then Some (sig_sign sk id) else Some old).
  { rewrite zget_nat by done. unfold ws'. rewrite set_witnesses_lookup, Hold. by case_decide. }
  case_decide as E.
  - apply list_elem_of_fmap in E as (v & Ev & Hv). apply elem_of_witness_indexes in Hv as (j & Hj & Hsj).
    destruct (Hb j v _ Hj Hsj) as [Hv0 _]. assert (v = w) as -> by lia.
    rewrite (Hc i j w a _ Hi Hj Hs Hsj).
    exists (sig_sign sk id), (public_key sk). split_and!; [done|apply sig_len|apply sig_recover_sign|done].
  - destruct Ha as [->|Ha].
    + destruct E. apply list_elem_of_fmap. exists w. split; [done|]. apply elem_of_witness_indexes. eauto.
    + destruct Ha as (s & pk & E1 & E2). exists s, pk. split; [|done].
      rewrite Hget. rewrite zget_nat in E1 by done. congruence.
Qed.

Lemma zlen_set_witnesses s l : forall ws, zlen (set_witnesses s ws l) = zlen ws.
Proof.
  induction l as [|w l IH]; intros ws; [done|]. cbn [set_witnesses foldl].
  fold (set_witnesses s (<[Z.to_nat w := s]> ws) l). rewrite IH. unfold zlen. by rewrite length_insert.
Qed.

(** Signing with several keys, one after the other. *)
Fixpoint sign_all {Body} `{PrepareSign Body} (c : Codec Body) (keys : list SecretKey) (chain_id : Z)
    (t : Chargeable Body) : outcome CanonicalError (Chargeable Body) :=
  match keys with
  | [] => Ok t
  | sk :: keys => let? t := sign_inputs c sk chain_id t in sign_all c keys chain_id t
  end.

Lemma sign_all_spec {Body} `{PrepareSign Body} (c : Codec Body) chain_id id keys : forall t,
  chargeable_id c chain_id t = Ok id -> witnesses_consistent (tx_inputs t) ->
  witnesses_bounded (tx_witnesses t) (tx_inputs t) ->
  exists ws, sign_all c keys chain_id t = Ok (with_witnesses t ws) /\
    forall i w a, i ∈ tx_inputs t -> signer i = Some (w, a) ->
      (exists sk, sk ∈ keys /\ a = Inp.owner (public_key sk)) \/ signed_by id (tx_witnesses t) w a ->
      signed_by id ws w a.
Proof.
  induction keys as [|sk keys IH]; intros t Hid Hc Hb.
  - exists (tx_witnesses t). split; [by destruct t|]. intros i w a Hi Hs [(sk & Hsk & _)|Ha]; [set_solver|done].
  - cbn [sign_all]. unfold sign_inputs. rewrite Hid. cbn [obind].
    match goal with |- context [with_witnesses t ?ws1] => set (ws' := ws1) end.
    destruct (IH (with_witnesses t ws')) as (ws & E & Hws); [done|done| |].
    { intros i w a Hi Hs. unfold ws'. cbn. rewrite zlen_set_witnesses. by eapply Hb. }
    exists ws. split; [exact E|]. intros i w a Hi Hs Ha. apply (Hws i w a Hi Hs).
    destruct Ha as [(sk' & Hin & ->)|Ha].
    + apply elem_of_cons in Hin as [->|Hin]; [right|left; eauto].
      eapply set_witnesses_signed; eauto.
    + right. eapply set_witnesses_signed; eauto.
Qed.
End Sign.


(** ** An example: one coin and one predicate *)

Module SignExample.
Definition sha : Sha256 := fun l => take 32 (l ++ replicate 32 x00).
(** A scheme whose keys are bytes. *)
Definition scheme : SigScheme := {|
  SecretKey := byte;
  public_key sk := [sk];
  sig_sign sk _ := replicate 64 sk;
  sig_recover s _ := match s with sk :: _ => Some [sk] | [] => None end
|}.
Lemma scheme_laws : @SigLaws scheme.
Proof. split; intros sk m; reflexivity. Qed.

Definition key : byte := x2a.
Definition coin : CoinSigned :=
  mkCoin (mkUtxoId zeroed 0) (@Inp.owner sha [key]) 10 zeroed tx_pointer_default 0 mkEmpty mkEmpty mkEmpty.
Definition predicate : list byte := [x24; x40; x00; x00].
Definition predicate_coin : CoinPredicate (list byte) :=
  mkCoin (mkUtxoId zeroed 1) (default [] (match @Inp.predicate_owner sha unit predicate with Ok o => Some o | _ => None end))
    10 zeroed tx_pointer_default mkEmpty 0 predicate [].
Definition tx : Chargeable ScriptBody :=
  mkChargeable TxExample.body (mkPolicies 8 [0; 0; 0; 100; 0])
    [Input_CoinSigned coin; Input_CoinPredicate predicate_coin] [] [[]].

Lemma signed_tx_valid : chargeable_ok script_body_ok tx.
Proof.
  destruct TxExample.tx_valid as (Hb & _). split; [exact Hb|].
  split; [split_and!; [done|repeat constructor; done|done]|].
  split; [|by repeat constructor]. split; [done|]. repeat constructor; vm_compute; done.
Qed.
End SignExample.

