(* ===== verification/TxFee.v ===== *)
(** * Gas and fees of transactions

    src/fuel-tx/src/transaction/fee.rs with the implementations of [Chargeable] of the five
    kinds of transaction (types/script.rs, create.rs, upgrade.rs, upload.rs, blob.rs).

    A result is [Crash] where the code panics: a dependent cost with zero units per gas, or a
    zero gas price factor. *)

From Stdlib Require Import Strings.Byte.
From S2P Require Import Prelude Asm Merkle Receipts Memory State Gas Canonical TxTypes TxCodec TxInput.

Definition saturating_add_u128 (a b : Z) : Z := Z.min (a + b) (U128 - 1).

Record FeeParameters : Type := mkFeeParameters { gas_price_factor : Z; gas_per_byte : Z }.

(** ** Policies as fields (transaction.rs, module [field]) *)

Definition tip {Body} (t : Chargeable Body) : Z := default 0 (policies_get (tx_policies t) Tip).
Definition witness_limit {Body} (t : Chargeable Body) : Z :=
  default 0 (policies_get (tx_policies t) WitnessLimit).
Definition max_fee_limit {Body} (t : Chargeable Body) : Z :=
  default 0 (policies_get (tx_policies t) MaxFee).

(** ** [Chargeable] *)

Section Fee.
Context `{Alloc}.

Definition witnesses_size {Body} (t : Chargeable Body) : Z :=
  size_dynamic (c_vec c_bytes) (tx_witnesses t).

(** The inputs that are charged: signed inputs of distinct witnesses, and predicates. *)
Fixpoint charged_inputs (witness_cache : gset Z) (inputs : list Input) : list Input :=
  match inputs with
  | [] => []
  | i :: inputs =>
      match i with
      | Input_CoinSigned _ | Input_MessageCoinSigned _ | Input_MessageDataSigned _ =>
          let w := default 0 (Inp.witness_index i) in
          if bool_decide (w ∈ witness_cache) then charged_inputs witness_cache inputs
          else i :: charged_inputs ({[w]} ∪ witness_cache) inputs
      | Input_CoinPredicate _ | Input_MessageCoinPredicate _ | Input_MessageDataPredicate _ =>
          i :: charged_inputs witness_cache inputs
      | Input_Contract _ => charged_inputs witness_cache inputs
      end
  end.

Definition input_gas (gas_costs : GasCosts) (bytes_size : Z) (i : Input) : outcome RuntimeError Z :=
  match i with
  | Input_CoinSigned _ | Input_MessageCoinSigned _ | Input_MessageDataSigned _ =>
      Ok (word_cost gas_costs g_eck1)
  | Input_CoinPredicate _ | Input_MessageCoinPredicate _ | Input_MessageDataPredicate _ =>
      let? vm_initialization_gas := resolve (dep_cost gas_costs d_vm_initialization) bytes_size in
      let? root_gas := resolve (dep_cost gas_costs d_contract_root) (default 0 (Inp.predicate_len i)) in
      Ok (saturating_add (saturating_add root_gas (default 0 (Inp.predicate_gas_used i)))
            vm_initialization_gas)
  | Input_Contract _ => Ok 0
  end.
Fixpoint sum_gas (gas_costs : GasCosts) (bytes_size : Z) (acc : Z) (inputs : list Input)
  : outcome RuntimeError Z :=
  match inputs with
  | [] => Ok acc
  | i :: inputs =>
      let? cost := input_gas gas_costs bytes_size i in
      sum_gas gas_costs bytes_size (saturating_add acc cost) inputs
  end.
Definition gas_used_by_inputs {Body} (metered_bytes_size : Z) (gas_costs : GasCosts) (t : Chargeable Body)
  : outcome RuntimeError Z :=
  sum_gas gas_costs metered_bytes_size 0 (charged_inputs ∅ (tx_inputs t)).

(** [min_gas], for the size and the metadata gas of a kind of transaction *)
Definition base_min_gas {Body} (metered_bytes_size : Z) (metadata_gas : outcome RuntimeError Z)
    (t : Chargeable Body) (gas_costs : GasCosts) (fee : FeeParameters) : outcome RuntimeError Z :=
  let? vm_initialization_gas := resolve (dep_cost gas_costs d_vm_initialization) metered_bytes_size in
  let bytes_gas := saturating_mul (gas_per_byte fee) metered_bytes_size in
  let? inputs_gas := gas_used_by_inputs metered_bytes_size gas_costs t in
  let? metadata_gas := metadata_gas in
  Ok (saturating_add (saturating_add (saturating_add inputs_gas metadata_gas) bytes_gas)
        vm_initialization_gas).

(** The length of a witness, or zero. *)
Definition witness_len {Body} (t : Chargeable Body) (index : Z) : Z :=
  default 0 (zlen <$> zget (tx_witnesses t) index).

(** What the kinds of transaction define themselves. *)
Class ChargeableBody (Body : Type) : Type := {
  body_codec : Codec Body;
  gas_used_by_metadata : Chargeable Body -> GasCosts -> outcome RuntimeError Z;
  (** added to [min_gas] *)
  storage_gas : Chargeable Body -> GasCosts -> Z;
  (** added to [max_gas] *)
  execution_gas : Chargeable Body -> Z
}.

Definition metered_bytes_size `{ChargeableBody Body} (t : Chargeable Body) : Z :=
  size (c_chargeable body_codec) t.
(** Gas required to calculate the id. *)
Definition tx_id_gas {Body} (c : Codec Body) (t : Chargeable Body) (gas_costs : GasCosts)
  : outcome RuntimeError Z :=
  resolve (dep_cost gas_costs d_s256) (size (c_chargeable c) t).

#[export] Instance chargeable_script : ChargeableBody ScriptBody := {|
  body_codec := c_script_body;
  gas_used_by_metadata t gas_cost := tx_id_gas c_script_body t gas_cost;
  storage_gas _ _ := 0;
  execution_gas t := script_gas_limit (tx_body t)
|}.
#[export] Instance chargeable_create : ChargeableBody CreateBody := {|
  body_codec := c_create_body;
  gas_used_by_metadata t gas_costs :=
    let contract_len := witness_len t (bytecode_witness_index (tx_body t)) in
    let? contract_root_gas := resolve (dep_cost gas_costs d_contract_root) contract_len in
    let? state_root_gas :=
      resolve (dep_cost gas_costs d_state_root) (zlen (storage_slots (tx_body t))) in
    let? contract_id_gas := resolve (dep_cost gas_costs d_s256) (4 + 32 + 32 + 32) in
    let? tx_id_gas := tx_id_gas c_create_body t gas_costs in
    Ok (saturating_add (saturating_add (saturating_add contract_root_gas state_root_gas)
          contract_id_gas) tx_id_gas);
  storage_gas _ _ := 0;
  execution_gas _ := 0
|}.
#[export] Instance chargeable_upgrade : ChargeableBody UpgradePurpose := {|
  body_codec := c_upgrade_body;
  gas_used_by_metadata t gas_cost :=
    let? tx_id_gas := tx_id_gas c_upgrade_body t gas_cost in
    let? purpose_gas :=
      match tx_body t with
      | Upgrade_ConsensusParameters witness_index _ =>
          resolve (dep_cost gas_cost d_s256) (witness_len t witness_index)
      | Upgrade_StateTransition _ => Ok 0
      end in
    Ok (saturating_add tx_id_gas purpose_gas);
  storage_gas _ _ := 0;
  execution_gas _ := 0
|}.
#[export] Instance chargeable_upload : ChargeableBody UploadBody := {|
  body_codec := c_upload_body;
  gas_used_by_metadata t gas_cost :=
    let? tx_id_gas := tx_id_gas c_upload_body t gas_cost in
    let? leaf_hash_gas :=
      resolve (dep_cost gas_cost d_s256) (witness_len t (upload_witness_index (tx_body t))) in
    let? verify_proof_gas :=
      resolve (dep_cost gas_cost d_state_root) (upload_subsections_number (tx_body t)) in
    Ok (saturating_add (saturating_add tx_id_gas leaf_hash_gas) verify_proof_gas);
  storage_gas t gas_costs :=
    saturating_mul (word_cost gas_costs g_new_storage_per_byte)
      (witness_len t (upload_witness_index (tx_body t)));
  execution_gas _ := 0
|}.
#[export] Instance chargeable_blob : ChargeableBody BlobBody := {|
  body_codec := c_blob_body;
  gas_used_by_metadata t gas_cost :=
    let? id_gas := tx_id_gas c_blob_body t gas_cost in
    let? blob_gas := resolve (dep_cost gas_cost d_s256) (witness_len t (blob_witness_index (tx_body t))) in
    Ok (saturating_add id_gas blob_gas);
  storage_gas _ _ := 0;
  execution_gas _ := 0
|}.

Section Chargeable.
Context {Body : Type} `{ChargeableBody Body}.
Implicit Types (t : Chargeable Body) (gas_costs : GasCosts) (fee : FeeParameters).

Definition min_gas t gas_costs fee : outcome RuntimeError Z :=
  let? gas := base_min_gas (metered_bytes_size t) (gas_used_by_metadata t gas_costs) t gas_costs fee in
  Ok (saturating_add gas (storage_gas t gas_costs)).

Definition max_gas t gas_costs fee : outcome RuntimeError Z :=
  let remaining_allowed_witness_gas :=
    saturating_mul (saturating_sub (witness_limit t) (witnesses_size t)) (gas_per_byte fee) in
  let? min_gas := min_gas t gas_costs fee in
  Ok (saturating_add (saturating_add min_gas remaining_allowed_witness_gas) (execution_gas t)).

(** [u128::div_ceil] panics on zero. *)
Definition gas_to_fee (gas gas_price factor : Z) : outcome RuntimeError Z :=
  let total_price := gas * gas_price in
  if factor =? 0 then Crash
  else let d := total_price / factor in
       Ok (if 0 <? total_price mod factor then d + 1 else d).

Definition min_fee t gas_costs fee gas_price : outcome RuntimeError Z :=
  let? gas := min_gas t gas_costs fee in
  let? gas_fee := gas_to_fee gas gas_price (gas_price_factor fee) in
  Ok (saturating_add_u128 gas_fee (tip t)).
Definition max_fee t gas_costs fee gas_price : outcome RuntimeError Z :=
  let? gas := max_gas t gas_costs fee in
  let? gas_fee := gas_to_fee gas gas_price (gas_price_factor fee) in
  Ok (saturating_add_u128 gas_fee (tip t)).

(** [u64::try_from(..).ok()] *)
Definition to_u64 (x : Z) : option Z := if x <? U64 then Some x else None.

Definition refund_fee t gas_costs fee used_gas gas_price : outcome RuntimeError (option Z) :=
  let? min_gas := min_gas t gas_costs fee in
  let total_used_gas := saturating_add min_gas used_gas in
  let? gas_fee := gas_to_fee total_used_gas gas_price (gas_price_factor fee) in
  let used_fee := saturating_add_u128 gas_fee (tip t) in
  Ok (match to_u64 used_fee with
      | Some used_fee => checked_sub (max_fee_limit t) used_fee
      | None => None
      end).

(** [TransactionFee] *)
Record TransactionFee : Type := mkTransactionFee {
  fee_min_fee : Z; fee_max_fee : Z; fee_min_gas : Z; fee_max_gas : Z
}.
Definition checked_from_tx gas_costs fee t gas_price : outcome RuntimeError (option TransactionFee) :=
  let? min_gas := min_gas t gas_costs fee in
  let? max_gas := max_gas t gas_costs fee in
  let? min_fee := min_fee t gas_costs fee gas_price in
  match to_u64 min_fee with
  | None => Ok None
  | Some min_fee =>
      let? max_fee := max_fee t gas_costs fee gas_price in
      match to_u64 max_fee with
      | None => Ok None
      | Some max_fee =>
          if max_fee <? min_fee then Ok None
          else Ok (Some (mkTransactionFee min_fee max_fee min_gas max_gas))
      end
  end.
End Chargeable.
End Fee.

(** ** Fees are bounded and exact *)

Definition fee_ok (fee : FeeParameters) : Prop := 0 < gas_price_factor fee < U64 /\ u64_ok (gas_per_byte fee).

(** What a kind of transaction promises: its costs are words. *)
Class ChargeableLaws `{Alloc} (Body : Type) `{!ChargeableBody Body} (body_ok : Body -> Prop) : Prop := {
  ch_lawful : lawful body_codec body_ok;
  ch_metadata t gas_costs :
    costs_ok gas_costs -> chargeable_ok body_ok t ->
    exists v, gas_used_by_metadata t gas_costs = Ok v /\ u64_ok v;
  ch_storage t gas_costs : costs_ok gas_costs -> u64_ok (storage_gas t gas_costs);
  ch_execution t : chargeable_ok body_ok t -> u64_ok (execution_gas t)
}.

Lemma zero_ok : u64_ok 0.
Proof. done. Qed.
Lemma saturating_add_ok a b : u64_ok a -> u64_ok b -> u64_ok (saturating_add a b) /\ a <= saturating_add a b.
Proof. unfold saturating_add, u64_ok. lia. Qed.
Lemma saturating_mul_ok a b : 0 <= a -> 0 <= b -> u64_ok (saturating_mul a b).
Proof. unfold saturating_mul, u64_ok. nia. Qed.
Lemma size_ok {T} (c : Codec T) valid x : lawful c valid -> valid x -> u64_ok (size c x).
Proof.
  intros Hc Hx. destruct (Hc x Hx) as (s & bs & bd & He). apply encodes_all in He as (_ & -> & _).
  pose proof (zlen_nonneg (bs ++ bd)). unfold USIZE_MAX, u64_ok. lia.
Qed.
Lemma vec_ok_u64 {A} (l : list A) : vec_ok l -> u64_ok (zlen l).
Proof. unfold vec_ok, VEC_DECODE_LIMIT, u64_ok. pose proof (zlen_nonneg l). lia. Qed.

Lemma zget_In {A} (l : list A) i x : zget l i = Some x -> x ∈ l.
Proof. unfold zget. case_if; [done|]. apply list_elem_of_lookup_2. Qed.

Section Laws.
Context `{Alloc} `{!ExactAlloc}.

Lemma witness_len_ok {Body} (body_ok : Body -> Prop) t i : chargeable_ok body_ok t -> u64_ok (witness_len t i).
Proof.
  intros (_ & _ & _ & _ & _ & Hw). unfold witness_len.
  destruct (zget (tx_witnesses t) i) as [w|] eqn:E; cbn; [|done].
  apply zget_In in E. rewrite Forall_forall in Hw. by apply vec_ok_u64, Hw.
Qed.

Lemma resolve_u64 c units : cost_ok c -> u64_ok units -> exists v, resolve c units = Ok v /\ u64_ok v.
Proof. intros Hc Hu. destruct (resolve_ok c units Hc Hu) as (v & E & Hv & _). eauto. Qed.

(** Resolve the next cost; add two resolved ones. *)
Ltac cost_step :=
  match goal with
  | |- context [resolve ?c ?u] =>
      let v := fresh "v" in let E := fresh "E" in let Hv := fresh "Hv" in
      destruct (resolve_u64 c u) as (v & E & Hv);
        [by match goal with Hg : costs_ok _ |- _ => apply Hg end| |rewrite E; cbn [obind]; clear E]
  | |- exists v, Ok _ = Ok v /\ u64_ok v => eexists; split; [reflexivity|]
  | |- u64_ok (saturating_add _ _) => apply saturating_add_ok
  end.

Lemma tx_id_gas_ok {Body} (c : Codec Body) body_ok t g :
  lawful c body_ok -> costs_ok g -> chargeable_ok body_ok t ->
  exists v, tx_id_gas c t g = Ok v /\ u64_ok v.
Proof.
  intros Hc Hg Ht. apply resolve_u64; [apply Hg|]. eapply size_ok; [by apply c_chargeable_lawful|exact Ht].
Qed.

#[export] Instance script_laws : ChargeableLaws ScriptBody script_body_ok.
Proof.
  split; [exact c_script_body_lawful| |intros; exact zero_ok|].
  - intros t g Hg Ht. exact (tx_id_gas_ok _ script_body_ok t g c_script_body_lawful Hg Ht).
  - intros t (Hb & _). apply Hb.
Qed.

#[export] Instance create_laws : ChargeableLaws CreateBody create_body_ok.
Proof.
  split; [exact c_create_body_lawful| |intros; exact zero_ok|intros; exact zero_ok].
  intros t g Hg Ht. cbn [gas_used_by_metadata chargeable_create].
  destruct (tx_id_gas_ok _ create_body_ok t g c_create_body_lawful Hg Ht) as (v & Ev & Hv). rewrite Ev.
  repeat cost_step; try assumption; [by eapply witness_len_ok| |split; lia].
  destruct Ht as [(_ & _ & Hl & _) _]. by apply vec_ok_u64.
Qed.

#[export] Instance upgrade_laws : ChargeableLaws UpgradePurpose upgrade_ok.
Proof.
  split; [exact c_upgrade_body_lawful| |intros; exact zero_ok|intros; exact zero_ok].
  intros t g Hg Ht. cbn [gas_used_by_metadata chargeable_upgrade].
  destruct (tx_id_gas_ok _ upgrade_ok t g c_upgrade_body_lawful Hg Ht) as (v & Ev & Hv). rewrite Ev. cbn [obind].
  destruct (tx_body t); cbn [obind]; repeat cost_step; try assumption; try exact zero_ok. by eapply witness_len_ok.
Qed.

#[export] Instance upload_laws : ChargeableLaws UploadBody upload_body_ok.
Proof.
  split; [exact c_upload_body_lawful| | |intros; exact zero_ok].
  - intros t g Hg Ht. cbn [gas_used_by_metadata chargeable_upload].
    destruct (tx_id_gas_ok _ upload_body_ok t g c_upload_body_lawful Hg Ht) as (v & Ev & Hv). rewrite Ev. cbn [obind].
    repeat cost_step; try assumption; [by eapply witness_len_ok|].
    destruct Ht as [(_ & _ & _ & Hn & _) _]. unfold u16_ok, u64_ok in *. lia.
  - intros t g Hg. cbn. apply saturating_mul_ok; [apply Hg|]. unfold witness_len.
    destruct (zget _ _); cbn; [apply zlen_nonneg|done].
Qed.

#[export] Instance blob_laws : ChargeableLaws BlobBody blob_body_ok.
Proof.
  split; [exact c_blob_body_lawful| |intros; exact zero_ok|intros; exact zero_ok].
  intros t g Hg Ht. cbn [gas_used_by_metadata chargeable_blob].
  destruct (tx_id_gas_ok _ blob_body_ok t g c_blob_body_lawful Hg Ht) as (v & Ev & Hv). rewrite Ev. cbn [obind].
  repeat cost_step; try assumption. by eapply witness_len_ok.
Qed.
End Laws.

(** Division of the price, rounded up. *)
Definition ceil_div (a b : Z) : Z := (a + b - 1) / b.

Lemma ceil_div_spec a b :
  0 < b -> (if 0 <? a mod b then a / b + 1 else a / b) = ceil_div a b.
Proof.
  intros Hb. unfold ceil_div. pose proof (Z.div_mod a b ltac:(lia)). pose proof (Z.mod_pos_bound a b Hb).
  case_if.
  - apply Z.div_unique with (a mod b - 1); lia.
  - apply Z.div_unique with (b - 1); lia.
Qed.

Lemma ceil_div_mono a a' b : 0 < b -> a <= a' -> ceil_div a b <= ceil_div a' b.
Proof. intros. unfold ceil_div. apply Z.div_le_mono; lia. Qed.

Lemma ceil_div_bound a b : 0 < b -> 0 <= a -> 0 <= ceil_div a b <= a.
Proof.
  intros Hb Ha. unfold ceil_div. split; [apply Z.div_pos; lia|].
  destruct (decide (a = 0)) as [->|]; [rewrite Z.div_small; lia|].
  apply Z.div_le_upper_bound; nia.
Qed.

Section Bounds.
Context `{Alloc} `{!ExactAlloc} {Body : Type} `{!ChargeableBody Body} (body_ok : Body -> Prop)
  `{!ChargeableLaws Body body_ok}.
Context (g : GasCosts) (fee : FeeParameters) (Hg : costs_ok g) (Hfee : fee_ok fee).
Implicit Types (t : Chargeable Body).

Lemma metered_ok t : chargeable_ok body_ok t -> u64_ok (metered_bytes_size t).
Proof. intros Ht. eapply size_ok; [|exact Ht]. apply c_chargeable_lawful, ch_lawful. Qed.

Lemma policies_get_ok p k : policies_ok p -> u64_ok (default 0 (policies_get p k)).
Proof.
  intros (_ & Hv & _). unfold policies_get. destruct (policy_set _ _); cbn; [|exact zero_ok].
  unfold policy_value. destruct (zget (pol_values p) (policy_index k)) as [v|] eqn:E; cbn; [|exact zero_ok].
  apply zget_In in E. rewrite Forall_forall in Hv. by apply Hv.
Qed.

Lemma charged_inputs_sub l : forall cache, Forall input_ok l -> Forall input_ok (charged_inputs cache l).
Proof.
  induction l as [|i l IH]; intros cache Hl; [done|]. apply Forall_cons in Hl as [Hi Hl].
  cbn [charged_inputs]. destruct i; try (constructor; [exact Hi|]); try (by apply IH);
    case_bool_decide; try (constructor; [exact Hi|]); by apply IH.
Qed.

Lemma input_gas_ok bytes i : u64_ok bytes -> input_ok i -> exists v, input_gas g bytes i = Ok v /\ u64_ok v.
Proof.
  intros Hb Hi.
  assert (Hres : forall p u, vec_ok p -> u64_ok u ->
    exists v, (let? vm_gas := resolve (dep_cost g d_vm_initialization) bytes in
               let? root_gas := resolve (dep_cost g d_contract_root) (zlen (A := byte) p) in
               Ok (saturating_add (saturating_add root_gas u) vm_gas)) = Ok v /\ u64_ok v).
  { intros p u Hp Hu.
    destruct (resolve_u64 (dep_cost g d_vm_initialization) bytes) as (v & -> & Hv); [apply Hg|done|].
    destruct (resolve_u64 (dep_cost g d_contract_root) (zlen p)) as (w & -> & Hw); [apply Hg|by apply vec_ok_u64|].
    eexists. split; [reflexivity|]. apply saturating_add_ok; [|done]. by apply saturating_add_ok. }
  assert (Hs : exists v, Ok (E := RuntimeError) (word_cost g g_eck1) = Ok v /\ u64_ok v)
    by (eexists; split; [reflexivity|apply Hg]).
  destruct i as [c|c|c|m|m|m|m]; cbn [input_gas Inp.predicate_len Inp.predicate_gas_used default];
    try exact Hs; try (eexists; split; [reflexivity|exact zero_ok]);
    apply Hres; by destruct Hi as (? & ? & ? & ?); intuition.
Qed.

Lemma sum_gas_ok bytes l : u64_ok bytes -> forall acc,
  u64_ok acc -> Forall input_ok l -> exists v, sum_gas g bytes acc l = Ok v /\ u64_ok v.
Proof.
  intros Hb. induction l as [|i l IH]; intros acc Ha Hl; [by exists acc|].
  apply Forall_cons in Hl as [Hi Hl]. cbn [sum_gas]. destruct (input_gas_ok bytes i Hb Hi) as (v & -> & Hv).
  cbn [obind]. apply IH; [|done]. by apply saturating_add_ok.
Qed.

Lemma min_gas_ok t : chargeable_ok body_ok t -> exists v, min_gas t g fee = Ok v /\ u64_ok v.
Proof.
  intros Ht. pose proof (metered_ok t Ht) as Hm. unfold min_gas, base_min_gas, gas_used_by_inputs.
  destruct (resolve_u64 (dep_cost g d_vm_initialization) (metered_bytes_size t)) as (v & -> & Hv); [apply Hg|done|].
  destruct (sum_gas_ok (metered_bytes_size t) (charged_inputs ∅ (tx_inputs t)) Hm 0 zero_ok) as (w & -> & Hw).
  { apply charged_inputs_sub. by destruct Ht as (_ & _ & [_ Hi] & _). }
  destruct (ch_metadata t g Hg Ht) as (x & -> & Hx). cbn [obind].
  eexists. split; [reflexivity|]. destruct Hfee as [_ Hb].
  repeat apply saturating_add_ok; try done; [apply saturating_mul_ok; [apply Hb|apply Hm]|by apply ch_storage].
Qed.

Lemma max_gas_ok t v :
  chargeable_ok body_ok t -> min_gas t g fee = Ok v -> u64_ok v ->
  exists m, max_gas t g fee = Ok m /\ v <= m < U64.
Proof.
  intros Ht E Hv. unfold max_gas. rewrite E. cbn [obind]. eexists. split; [reflexivity|].
  pose proof (ch_execution t Ht) as He. destruct Hfee as [_ Hb].
  assert (Hr : u64_ok (saturating_mul (saturating_sub (witness_limit t) (witnesses_size t)) (gas_per_byte fee)))
    by (apply saturating_mul_ok; [unfold saturating_sub; lia|apply Hb]).
  destruct (saturating_add_ok _ _ Hv Hr) as [H1 H2]. destruct (saturating_add_ok _ _ H1 He) as [[_ H3] H4]. lia.
Qed.

(** The fee of an amount of gas. *)
Definition fee_of t (gas_price gas : Z) : Z := ceil_div (gas * gas_price) (gas_price_factor fee) + tip t.

Lemma gas_to_fee_ok gas price :
  gas_to_fee gas price (gas_price_factor fee) = Ok (ceil_div (gas * price) (gas_price_factor fee)).
Proof.
  destruct Hfee as [Hf _]. unfold gas_to_fee. case_if; [lia|]. by rewrite ceil_div_spec by lia.
Qed.

Lemma fee_of_bound t price gas :
  chargeable_ok body_ok t -> u64_ok price -> u64_ok gas -> 0 <= fee_of t price gas < U128.
Proof.
  intros (_ & Hp & _) Hpr Hgas. pose proof (policies_get_ok _ Tip Hp) as Ht. unfold fee_of.
  destruct Hfee as [Hf _]. fold (tip t) in Ht. unfold u64_ok in *.
  pose proof (ceil_div_bound (gas * price) (gas_price_factor fee) ltac:(lia) ltac:(nia)). nia.
Qed.

Lemma fee_of_mono t price g1 g2 : u64_ok price -> g1 <= g2 -> fee_of t price g1 <= fee_of t price g2.
Proof.
  intros Hp Hle. unfold fee_of. destruct Hfee as [Hf _].
  pose proof (ceil_div_mono (g1 * price) (g2 * price) (gas_price_factor fee)). unfold u64_ok in *. nia.
Qed.

Lemma saturating_add_fee t price gas :
  chargeable_ok body_ok t -> u64_ok price -> u64_ok gas ->
  saturating_add_u128 (ceil_div (gas * price) (gas_price_factor fee)) (tip t) = fee_of t price gas.
Proof.
  intros Ht Hp Hgas. pose proof (fee_of_bound t price gas Ht Hp Hgas). unfold saturating_add_u128, fee_of in *. lia.
Qed.
End Bounds.

(** The refund after using [used] gas. *)
Lemma refund_fee_exact `{Alloc} `{!ExactAlloc} {Body : Type} `{!ChargeableBody Body} (body_ok : Body -> Prop)
    `{!ChargeableLaws Body body_ok} (g : GasCosts) (fee : FeeParameters) (t : Chargeable Body) (price lo hi used : Z) :
  costs_ok g -> fee_ok fee -> chargeable_ok body_ok t -> u64_ok price ->
  min_gas t g fee = Ok lo -> max_gas t g fee = Ok hi -> 0 <= lo -> hi < U64 ->
  0 <= used -> lo + used <= hi -> fee_of fee t price hi <= max_fee_limit t ->
  refund_fee t g fee used price = Ok (Some (max_fee_limit t - fee_of fee t price (lo + used))) /\
  fee_of fee t price lo <= fee_of fee t price (lo + used) <= fee_of fee t price hi.
Proof.
  intros Hg Hfee Ht Hp Elo Ehi Hlo Hhi Hu Hul Hlim.
  assert (Hused : u64_ok (lo + used)) by (unfold u64_ok in *; lia).
  pose proof (fee_of_mono fee Hfee t price lo (lo + used) Hp ltac:(lia)).
  pose proof (fee_of_mono fee Hfee t price (lo + used) hi Hp Hul). split; [|done].
  pose proof (fee_of_bound body_ok fee Hfee t price (lo + used) Ht Hp Hused).
  unfold refund_fee, to_u64. rewrite Elo. cbn [obind].
  replace (saturating_add lo used) with (lo + used) by (unfold saturating_add, u64_ok in *; lia).
  rewrite gas_to_fee_ok by done. cbn [obind]. rewrite (saturating_add_fee body_ok) by done.
  assert (Hml : u64_ok (max_fee_limit t)) by (apply policies_get_ok, Ht).
  unfold u64_ok in Hml. case_if; [|lia]. by rewrite checked_sub_Some by lia.
Qed.

(** The bounds and the summary that checking a ready transaction uses. *)
Lemma fee_summary `{Alloc} `{!ExactAlloc} {Body : Type} `{!ChargeableBody Body} (body_ok : Body -> Prop)
    `{!ChargeableLaws Body body_ok} (g : GasCosts) (fee : FeeParameters) (t : Chargeable Body) (price : Z) :
  costs_ok g -> fee_ok fee -> chargeable_ok body_ok t -> u64_ok price ->
  exists lo hi, min_gas t g fee = Ok lo /\ max_gas t g fee = Ok hi /\ 0 <= lo <= hi /\ hi < U64 /\
    min_fee t g fee price = Ok (fee_of fee t price lo) /\
    max_fee t g fee price = Ok (fee_of fee t price hi) /\
    0 <= fee_of fee t price lo <= fee_of fee t price hi /\
    checked_from_tx g fee t price =
      Ok (if fee_of fee t price hi <? U64
          then Some (mkTransactionFee (fee_of fee t price lo) (fee_of fee t price hi) lo hi) else None).
Proof.
  intros Hg Hfee Ht Hp.
  destruct (min_gas_ok body_ok g fee Hg Hfee t Ht) as (lo & Elo & Hlo).
  destruct (max_gas_ok body_ok g fee Hfee t lo Ht Elo Hlo) as (hi & Ehi & Hle & Hhi).
  assert (Hhi' : u64_ok hi) by (unfold u64_ok in *; lia).
  pose proof (fee_of_bound body_ok fee Hfee t price lo Ht Hp Hlo) as Hb.
  pose proof (fee_of_mono fee Hfee t price lo hi Hp Hle) as Hmono.
  assert (Emin : min_fee t g fee price = Ok (fee_of fee t price lo)).
  { unfold min_fee. rewrite Elo. cbn [obind]. rewrite gas_to_fee_ok by done. cbn [obind].
    by rewrite (saturating_add_fee body_ok). }
  assert (Emax : max_fee t g fee price = Ok (fee_of fee t price hi)).
  { unfold max_fee. rewrite Ehi. cbn [obind]. rewrite gas_to_fee_ok by done. cbn [obind].
    by rewrite (saturating_add_fee body_ok). }
  exists lo, hi. split_and!; try done; [apply Hlo|apply Hb|].
  unfold checked_from_tx, to_u64. rewrite Elo, Ehi, Emin, Emax. cbn [obind].
  repeat case_if; try done; lia.
Qed.

(** For every kind of transaction the minimal and maximal gas are words, the first at most
    the second; the fees are the exact prices rounded up plus the tip, never saturated, and
    ordered like the gas; [checked_from_tx] fails exactly when the maximal fee is not a word.
    A transaction whose fee limit covers its maximal fee can be refunded after any use of gas
    within its maximal gas, and pays exactly the price of the gas it used. *)
Theorem fee_bounds `{Alloc} `{!ExactAlloc} {Body : Type} `{!ChargeableBody Body} (body_ok : Body -> Prop)
    `{!ChargeableLaws Body body_ok} (g : GasCosts) (fee : FeeParameters) (t : Chargeable Body) (price : Z) :
  costs_ok g -> fee_ok fee -> chargeable_ok body_ok t -> u64_ok price ->
  exists lo hi, min_gas t g fee = Ok lo /\ max_gas t g fee = Ok hi /\ 0 <= lo <= hi /\ hi < U64 /\
    min_fee t g fee price = Ok (fee_of fee t price lo) /\
    max_fee t g fee price = Ok (fee_of fee t price hi) /\
    0 <= fee_of fee t price lo <= fee_of fee t price hi /\
    checked_from_tx g fee t price =
      Ok (if fee_of fee t price hi <? U64
          then Some (mkTransactionFee (fee_of fee t price lo) (fee_of fee t price hi) lo hi) else None) /\
    forall used, 0 <= used -> lo + used <= hi -> fee_of fee t price hi <= max_fee_limit t ->
      refund_fee t g fee used price = Ok (Some (max_fee_limit t - fee_of fee t price (lo + used))) /\
      fee_of fee t price lo <= fee_of fee t price (lo + used) <= fee_of fee t price hi.
Proof.
  intros Hg Hfee Ht Hp. destruct (fee_summary body_ok g fee t price Hg Hfee Ht Hp) as (lo & hi & Elo & Ehi & Hle & Hhi & Hrest).
  exists lo, hi. do 4 (split; [done|]). destruct Hrest as (H1' & H2' & H3' & H4'). do 4 (split; [done|]).
  intros used Hu Hul Hlim. apply (refund_fee_exact body_ok g fee t price lo hi); try done; apply Hle.
Qed.

Module FeeExample.
Definition costs : GasCosts := mkGasCosts (fun _ => 2) (fun _ => HeavyOperation 3 1).
Definition params : FeeParameters := mkFeeParameters 1000 4.
Lemma costs_valid : costs_ok costs.
Proof. split; intros c; [done|split; done]. Qed.
End FeeExample.

Lemma fee_bounds_witness :
  exists lo hi, @min_gas TxExample.exact_alloc _ (@chargeable_script TxExample.exact_alloc)
      TxExample.chargeable FeeExample.costs FeeExample.params = Ok lo /\
    @max_gas TxExample.exact_alloc _ (@chargeable_script TxExample.exact_alloc)
      TxExample.chargeable FeeExample.costs FeeExample.params = Ok hi /\ 0 <= lo <= hi.
Proof.
  destruct (@fee_bounds TxExample.exact_alloc TxExample.exact_alloc_exact _
    (@chargeable_script TxExample.exact_alloc) script_body_ok
    (@script_laws TxExample.exact_alloc TxExample.exact_alloc_exact)
    FeeExample.costs FeeExample.params TxExample.chargeable 1) as (lo & hi & H1 & H2 & H3 & _).
  - exact FeeExample.costs_valid.
  - done.
  - exact TxExample.tx_valid.
  - done.
  - exists lo, hi. split; [exact H1|]. split; [exact H2|exact H3].
Defined.
