(* ===== verification/TxOffsets.v ===== *)
(** * Where the fields of a transaction lie in its encoding

    The offsets of src/fuel-tx that the virtual machine hands to programs: of the parts of an
    input or output (input/consts.rs, input/repr.rs, output/consts.rs, output/repr.rs), of the
    bodies (the module [field] of types/script.rs, create.rs, upgrade.rs, upload.rs, blob.rs),
    of policies, inputs, outputs and witnesses (chargeable_transaction.rs), and the cached
    copies of the latter (metadata.rs).

    Each is computed from the sizes of what precedes the field; [vectors_layout] shows that the
    bytes of inputs, outputs and witnesses are found there, and the file Gtf does so for every
    field a program can ask for. *)

From Stdlib Require Import Strings.Byte.
From S2P Require Import Prelude Asm Merkle Receipts Memory State Canonical TxTypes TxCodec TxInput.

Definition LEN32 : Z := 32.
Definition UTXO_ID_LEN : Z := LEN32 + 8.
Definition TX_POINTER_LEN : Z := 2 * WORD_SIZE.
Definition SLOT_SIZE : Z := LEN32 + LEN32.

(** ** Inputs (input/consts.rs) *)

Definition INPUT_UTXO_ID_OFFSET : Z := WORD_SIZE.
Definition INPUT_COIN_OWNER_OFFSET : Z := INPUT_UTXO_ID_OFFSET + UTXO_ID_LEN.
Definition INPUT_COIN_ASSET_ID_OFFSET : Z := INPUT_COIN_OWNER_OFFSET + LEN32 + WORD_SIZE.
Definition INPUT_COIN_TX_POINTER_OFFSET : Z := INPUT_COIN_ASSET_ID_OFFSET + LEN32.
Definition INPUT_COIN_FIXED_SIZE : Z :=
  INPUT_COIN_TX_POINTER_OFFSET + TX_POINTER_LEN + WORD_SIZE + WORD_SIZE + WORD_SIZE + WORD_SIZE.
Definition INPUT_CONTRACT_BALANCE_ROOT_OFFSET : Z := INPUT_UTXO_ID_OFFSET + UTXO_ID_LEN.
Definition INPUT_CONTRACT_STATE_ROOT_OFFSET : Z := INPUT_CONTRACT_BALANCE_ROOT_OFFSET + LEN32.
Definition INPUT_CONTRACT_TX_POINTER_OFFSET : Z := INPUT_CONTRACT_STATE_ROOT_OFFSET + LEN32.
Definition INPUT_CONTRACT_ID_OFFSET : Z := INPUT_CONTRACT_TX_POINTER_OFFSET + TX_POINTER_LEN.
Definition INPUT_MESSAGE_SENDER_OFFSET : Z := WORD_SIZE.
Definition INPUT_MESSAGE_RECIPIENT_OFFSET : Z := INPUT_MESSAGE_SENDER_OFFSET + LEN32.
Definition INPUT_NONCE_RECIPIENT_OFFSET : Z := INPUT_MESSAGE_RECIPIENT_OFFSET + LEN32 + WORD_SIZE.
Definition INPUT_MESSAGE_FIXED_SIZE : Z :=
  INPUT_NONCE_RECIPIENT_OFFSET + LEN32 + WORD_SIZE + WORD_SIZE + WORD_SIZE + WORD_SIZE + WORD_SIZE.

Module InpOff.
Definition utxo_id_offset (r : InputRepr) : option Z :=
  match r with InputRepr_Coin | InputRepr_Contract => Some INPUT_UTXO_ID_OFFSET | InputRepr_Message => None end.
Definition owner_offset (r : InputRepr) : option Z :=
  match r with
  | InputRepr_Coin => Some INPUT_COIN_OWNER_OFFSET
  | InputRepr_Message => Some INPUT_MESSAGE_RECIPIENT_OFFSET
  | InputRepr_Contract => None
  end.
Definition asset_id_offset (r : InputRepr) : option Z :=
  if r is InputRepr_Coin then Some INPUT_COIN_ASSET_ID_OFFSET else None.
Definition data_offset (r : InputRepr) : option Z :=
  if r is InputRepr_Message then Some INPUT_MESSAGE_FIXED_SIZE else None.
Definition coin_predicate_offset (r : InputRepr) : option Z :=
  if r is InputRepr_Coin then Some INPUT_COIN_FIXED_SIZE else None.
Definition contract_balance_root_offset (r : InputRepr) : option Z :=
  if r is InputRepr_Contract then Some INPUT_CONTRACT_BALANCE_ROOT_OFFSET else None.
Definition contract_state_root_offset (r : InputRepr) : option Z :=
  if r is InputRepr_Contract then Some INPUT_CONTRACT_STATE_ROOT_OFFSET else None.
Definition contract_id_offset (r : InputRepr) : option Z :=
  if r is InputRepr_Contract then Some INPUT_CONTRACT_ID_OFFSET else None.
Definition message_sender_offset (r : InputRepr) : option Z :=
  if r is InputRepr_Message then Some INPUT_MESSAGE_SENDER_OFFSET else None.
Definition message_recipient_offset (r : InputRepr) : option Z :=
  if r is InputRepr_Message then Some INPUT_MESSAGE_RECIPIENT_OFFSET else None.
Definition message_nonce_offset (r : InputRepr) : option Z :=
  if r is InputRepr_Message then Some INPUT_NONCE_RECIPIENT_OFFSET else None.
Definition tx_pointer_offset (r : InputRepr) : option Z :=
  match r with
  | InputRepr_Coin => Some INPUT_COIN_TX_POINTER_OFFSET
  | InputRepr_Contract => Some INPUT_CONTRACT_TX_POINTER_OFFSET
  | InputRepr_Message => None
  end.

(** [bytes::padded_len(..).unwrap_or(usize::MAX)] *)
Definition padded (l : list byte) : Z := default USIZE_MAX (padded_len_usize (zlen l)).

Definition predicate_offset (i : Input) : option Z :=
  match i with
  | Input_CoinPredicate _ => coin_predicate_offset InputRepr_Coin
  | Input_MessageCoinPredicate _ => data_offset InputRepr_Message
  | Input_MessageDataPredicate m =>
      (fun o => saturating_add o (padded (msg_data m))) <$> data_offset InputRepr_Message
  | _ => None
  end.
Definition predicate_data_offset (i : Input) : option Z :=
  match Inp.input_predicate i with
  | Some p => (fun o => saturating_add o (padded p)) <$> predicate_offset i
  | None => None
  end.
End InpOff.

(** ** Outputs (output/consts.rs, output/repr.rs) *)

Inductive OutputRepr : Type :=
| OutputRepr_Coin | OutputRepr_Contract | OutputRepr_Change | OutputRepr_Variable
| OutputRepr_ContractCreated.
Definition output_repr_to (r : OutputRepr) : Z :=
  match r with
  | OutputRepr_Coin => 0 | OutputRepr_Contract => 1 | OutputRepr_Change => 2
  | OutputRepr_Variable => 3 | OutputRepr_ContractCreated => 4
  end.
Definition from_output (o : Output) : OutputRepr :=
  match o with
  | Output_Coin _ _ _ => OutputRepr_Coin
  | Output_Contract _ => OutputRepr_Contract
  | Output_Change _ _ _ => OutputRepr_Change
  | Output_Variable _ _ _ => OutputRepr_Variable
  | Output_ContractCreated _ _ => OutputRepr_ContractCreated
  end.

Definition OUTPUT_CCV_TO_OFFSET : Z := WORD_SIZE.
Definition OUTPUT_CCV_ASSET_ID_OFFSET : Z := OUTPUT_CCV_TO_OFFSET + LEN32 + WORD_SIZE.
Definition OUTPUT_CONTRACT_BALANCE_ROOT_OFFSET : Z := WORD_SIZE + WORD_SIZE.
Definition OUTPUT_CONTRACT_STATE_ROOT_OFFSET : Z := OUTPUT_CONTRACT_BALANCE_ROOT_OFFSET + LEN32.
Definition OUTPUT_CONTRACT_CREATED_ID_OFFSET : Z := WORD_SIZE.
Definition OUTPUT_CONTRACT_CREATED_STATE_ROOT_OFFSET : Z := OUTPUT_CONTRACT_CREATED_ID_OFFSET + LEN32.

Module OutOff.
Definition to_offset (r : OutputRepr) : option Z :=
  match r with
  | OutputRepr_Coin | OutputRepr_Change | OutputRepr_Variable => Some OUTPUT_CCV_TO_OFFSET
  | _ => None
  end.
Definition asset_id_offset (r : OutputRepr) : option Z :=
  match r with
  | OutputRepr_Coin | OutputRepr_Change | OutputRepr_Variable => Some OUTPUT_CCV_ASSET_ID_OFFSET
  | _ => None
  end.
Definition contract_balance_root_offset (r : OutputRepr) : option Z :=
  if r is OutputRepr_Contract then Some OUTPUT_CONTRACT_BALANCE_ROOT_OFFSET else None.
Definition contract_state_root_offset (r : OutputRepr) : option Z :=
  if r is OutputRepr_Contract then Some OUTPUT_CONTRACT_STATE_ROOT_OFFSET else None.
Definition contract_created_state_root_offset (r : OutputRepr) : option Z :=
  if r is OutputRepr_ContractCreated then Some OUTPUT_CONTRACT_CREATED_STATE_ROOT_OFFSET else None.
Definition contract_id_offset (r : OutputRepr) : option Z :=
  if r is OutputRepr_ContractCreated then Some OUTPUT_CONTRACT_CREATED_ID_OFFSET else None.
End OutOff.

(** ** Bodies *)

Section Bodies.

(** Script *)
Definition script_gas_limit_offset_static : Z := WORD_SIZE.
Definition receipts_root_offset_static : Z := saturating_add script_gas_limit_offset_static WORD_SIZE.
Definition script_offset_static : Z :=
  saturating_add receipts_root_offset_static
    (LEN32 + WORD_SIZE + WORD_SIZE + WORD_SIZE + WORD_SIZE + WORD_SIZE + WORD_SIZE).
Definition script_data_offset (b : ScriptBody) : Z :=
  saturating_add script_offset_static (InpOff.padded (script b)).

(** Create *)
Definition create_witness_index_offset_static : Z := WORD_SIZE.
Definition salt_offset_static : Z := saturating_add create_witness_index_offset_static WORD_SIZE.
Definition storage_slots_offset_static : Z :=
  saturating_add salt_offset_static
    (LEN32 + WORD_SIZE + WORD_SIZE + WORD_SIZE + WORD_SIZE + WORD_SIZE).
Definition checked_mul (a b : Z) : option Z := if a * b <? U64 then Some (a * b) else None.
Definition storage_slots_offset_at (b : CreateBody) (idx : Z) : option Z :=
  if idx <? zlen (storage_slots b) then
    match checked_mul idx SLOT_SIZE with
    | Some o => checked_add storage_slots_offset_static o
    | None => None
    end
  else None.

(** Upgrade *)
Definition upgrade_purpose_offset_static : Z := WORD_SIZE.

(** Upload *)
Definition bytecode_root_offset_static : Z := WORD_SIZE.
Definition upload_witness_index_offset_static : Z := saturating_add bytecode_root_offset_static LEN32.
Definition subsection_index_offset_static : Z :=
  saturating_add upload_witness_index_offset_static WORD_SIZE.
Definition subsections_number_offset_static : Z :=
  saturating_add subsection_index_offset_static WORD_SIZE.
Definition proof_set_offset_static : Z :=
  saturating_add subsections_number_offset_static
    (WORD_SIZE + WORD_SIZE + WORD_SIZE + WORD_SIZE + WORD_SIZE + WORD_SIZE).
Definition proof_set_offset_at (b : UploadBody) (idx : Z) : option Z :=
  if idx <? zlen (upload_proof_set b) then
    match checked_mul idx LEN32 with
    | Some o => checked_add proof_set_offset_static o
    | None => None
    end
  else None.

(** Blob *)
Definition blob_id_offset_static : Z := WORD_SIZE.
Definition blob_witness_index_offset_static : Z := saturating_add blob_id_offset_static LEN32.
End Bodies.

(** [ChargeableBody::body_offset_end] *)
Class BodyOffset (Body : Type) : Type := body_offset_end : Body -> Z.
#[export] Instance script_body_offset : BodyOffset ScriptBody := fun b =>
  saturating_add (script_data_offset b) (InpOff.padded (script_data b)).
#[export] Instance create_body_offset : BodyOffset CreateBody := fun b =>
  saturating_add storage_slots_offset_static (saturating_mul (zlen (storage_slots b)) SLOT_SIZE).
#[export] Instance upgrade_body_offset : BodyOffset UpgradePurpose := fun b =>
  saturating_add (saturating_add upgrade_purpose_offset_static (size c_upgrade_purpose b))
    (WORD_SIZE + WORD_SIZE + WORD_SIZE + WORD_SIZE).
#[export] Instance upload_body_offset : BodyOffset UploadBody := fun b =>
  saturating_add proof_set_offset_static (saturating_mul (zlen (upload_proof_set b)) LEN32).
#[export] Instance blob_body_offset : BodyOffset BlobBody := fun _ =>
  saturating_add blob_witness_index_offset_static
    (WORD_SIZE + WORD_SIZE + WORD_SIZE + WORD_SIZE + WORD_SIZE).

(** ** The common part (chargeable_transaction.rs) *)

Section Offsets.
Context `{Alloc} {Body : Type} `{BodyOffset Body}.
Implicit Types (t : Chargeable Body).

Definition policies_offset t : Z := body_offset_end (tx_body t).
Definition inputs_offset t : Z :=
  saturating_add (policies_offset t) (size_dynamic c_policies (tx_policies t)).
Definition inputs_offset_at t (idx : Z) : option Z :=
  if idx <? zlen (tx_inputs t)
  then Some (saturating_add (inputs_offset t) (sum_sizes (size c_input) (take (Z.to_nat idx) (tx_inputs t))))
  else None.
Definition inputs_predicate_offset_at t (idx : Z) : option (Z * Z) :=
  match zget (tx_inputs t) idx with
  | None => None
  | Some input =>
      match InpOff.predicate_offset input with
      | None => None
      | Some predicate =>
          match inputs_offset_at t idx, Inp.predicate_len input with
          | Some inputs, Some len =>
              match padded_len_usize len with
              | Some padded => Some (saturating_add inputs predicate, padded)
              | None => None
              end
          | _, _ => None
          end
      end
  end.
Definition outputs_offset t : Z :=
  saturating_add (inputs_offset t) (sum_sizes (size c_input) (tx_inputs t)).
Definition outputs_offset_at t (idx : Z) : option Z :=
  if idx <? zlen (tx_outputs t)
  then Some (saturating_add (outputs_offset t) (sum_sizes (size c_output) (take (Z.to_nat idx) (tx_outputs t))))
  else None.
Definition witnesses_offset t : Z :=
  saturating_add (outputs_offset t) (sum_sizes (size c_output) (tx_outputs t)).
Definition witnesses_offset_at t (idx : Z) : option Z :=
  if idx <? zlen (tx_witnesses t)
  then Some (saturating_add (witnesses_offset t) (sum_sizes (size c_bytes) (take (Z.to_nat idx) (tx_witnesses t))))
  else None.

(** [CommonMetadata::compute], without the id *)
Record CommonMetadata : Type := mkCommonMetadata {
  cm_inputs_offset : Z;
  cm_inputs_offset_at : list Z;
  cm_inputs_predicate_offset_at : list (option (Z * Z));
  cm_outputs_offset : Z;
  cm_outputs_offset_at : list Z;
  cm_witnesses_offset : Z;
  cm_witnesses_offset_at : list Z
}.

(** The loop over inputs, outputs or witnesses. *)
Fixpoint offsets_loop {T} (f : T -> Z) (too_large : Z -> ValidityError) (l : list T) (index offset : Z)
  : outcome ValidityError (list Z) :=
  match l with
  | [] => Ok []
  | x :: l =>
      let i := offset in
      let? offset := ok_or (checked_add offset (f x)) (too_large index) in
      let? rest := offsets_loop f too_large l (index + 1) offset in
      Ok (i :: rest)
  end.

Definition metadata_compute t : outcome ValidityError CommonMetadata :=
  let inputs_predicate_offset_at :=
    map (inputs_predicate_offset_at t) (seqZ 0 (zlen (tx_inputs t))) in
  let? inputs_offset_at :=
    offsets_loop (size c_input) SerializedInputTooLarge (tx_inputs t) 0 (inputs_offset t) in
  let? outputs_offset_at :=
    offsets_loop (size c_output) SerializedOutputTooLarge (tx_outputs t) 0 (outputs_offset t) in
  let? witnesses_offset_at :=
    offsets_loop (size c_bytes) SerializedWitnessTooLarge (tx_witnesses t) 0 (witnesses_offset t) in
  Ok (mkCommonMetadata (inputs_offset t) inputs_offset_at inputs_predicate_offset_at (outputs_offset t)
        outputs_offset_at (witnesses_offset t) witnesses_offset_at).
End Offsets.

(** ** The bytes are there *)

(** [x] lies at offset [o] of [bs]. *)
Definition at_offset {A} (bs : list A) (o : Z) (x : list A) : Prop :=
  exists pre post, bs = pre ++ x ++ post /\ zlen pre = o.

Lemma at_offset_app {A} (pre bs : list A) o x : at_offset bs o x -> at_offset (pre ++ bs) (zlen pre + o) x.
Proof.
  intros (p & q & -> & <-). exists (pre ++ p), q. by rewrite <- app_assoc, zlen_app.
Qed.

Lemma at_offset_in {A} (bs : list A) o x p y : at_offset bs o x -> at_offset x p y -> at_offset bs (o + p) y.
Proof.
  intros (a & b & -> & <-) (a' & b' & -> & <-). exists (a ++ a'), (b' ++ b).
  rewrite zlen_app. split; [by rewrite <- !app_assoc|done].
Qed.

Section Layout.
Context `{Alloc} `{!ExactAlloc}.

Lemma encodes_list_at {T} (c : Codec T) l bs i x :
  encodes_list c l bs -> l !! i = Some x ->
  exists pre e post, bs = pre ++ e ++ post /\ encodes_list c (take i l) pre /\ encode c x = Ok e.
Proof.
  intros Hl. revert i. induction Hl as [|y l s bs bd rest He Hl IH]; intros i Hi; [done|].
  destruct i as [|i].
  - injection Hi as ->. exists [], (bs ++ bd), rest. split; [done|]. split; [constructor|].
    by apply encodes_all in He as (He & _).
  - destruct (IH i Hi) as (pre & e & post & -> & Hp & Hx).
    exists ((bs ++ bd) ++ pre), e, post. split; [by rewrite (app_assoc (bs ++ bd))|].
    split; [by econstructor|done].
Qed.

Lemma sum_sizes_list {T} (c : Codec T) l bs :
  encodes_list c l bs -> sum_sizes (size c) l = Z.min (zlen bs) USIZE_MAX.
Proof. intros Hl. by destruct (encodes_list_spec c l bs Hl) as (_ & _ & ? & _). Qed.

Context {Body : Type} (c : Codec Body) (body_ok : Body -> Prop) (Hlaw : lawful c body_ok).

(** The parts of the encoding of a transaction. *)
Lemma chargeable_layout t :
  chargeable_ok body_ok t ->
  exists sb bb db bp dp bi bo bw,
    encodes c (tx_body t) sb bb db /\ zlen bp = 8 /\
    size_dynamic c_policies (tx_policies t) = Z.min (zlen dp) USIZE_MAX /\
    encodes_list c_input (tx_inputs t) bi /\ encodes_list c_output (tx_outputs t) bo /\
    encodes_list c_bytes (tx_witnesses t) bw /\
    encode (c_chargeable c) t =
      Ok ((bb ++ bp ++ to_be_bytes 8 (zlen (tx_inputs t)) ++ to_be_bytes 8 (zlen (tx_outputs t)) ++
           to_be_bytes 8 (zlen (tx_witnesses t))) ++ db ++ dp ++ bi ++ bo ++ bw).
Proof.
  intros (Hb & Hp & [Hi Hif] & [Ho Hof] & [Hw Hwf]).
  destruct (Hlaw _ Hb) as (sb & bb & db & Eb).
  destruct (c_policies_encodes _ Hp) as (sp & bp & dp & Ep).
  destruct (encodes_list_valid _ _ _ c_input_lawful Hif) as [bi Ei].
  destruct (encodes_list_valid _ _ _ c_output_lawful Hof) as [bo Eo].
  destruct (encodes_list_valid _ _ _ c_bytes_lawful Hwf) as [bw Ew].
  exists sb, bb, db, bp, dp, bi, bo, bw. split_and!; try done.
  - pose proof (en_size_static _ _ _ _ _ Ep) as E. change (size_static c_policies (tx_policies t)) with 8 in E.
    unfold USIZE_MAX in E. lia.
  - apply Ep.
  - pose proof (c_pair_encodes _ _ _ _ _ _ _ _ _ _ Eb (c_pair_encodes _ _ _ _ _ _ _ _ _ _ Ep
      (c_pair_encodes _ _ _ _ _ _ _ _ _ _ (c_vec_encodes _ _ _ Hi Ei)
        (c_pair_encodes _ _ _ _ _ _ _ _ _ _ (c_vec_encodes _ _ _ Ho Eo) (c_vec_encodes _ _ _ Hw Ew))))) as E.
    apply encodes_all in E as (E & _). exact E.
Qed.
End Layout.

(** A body ends where its offset says. *)
Class BodyOffsetLaw `{Alloc} {Body : Type} (c : Codec Body) (body_ok : Body -> Prop) `{!BodyOffset Body} : Prop :=
  body_offset_exact b s bb db :
    body_ok b -> encodes c b s bb db -> body_offset_end b = Z.min (zlen bb + 32 + zlen db) USIZE_MAX.

Lemma padded_eq l :
  vec_ok l -> InpOff.padded l = aligned_size (zlen l) /\ 0 <= aligned_size (zlen l) <= VEC_DECODE_LIMIT + 8.
Proof.
  unfold vec_ok, VEC_DECODE_LIMIT. intros Hl. pose proof (zlen_nonneg l).
  pose proof (alignment_bytes_range (zlen l)) as [Hr _]. unfold aligned_size, saturating_add.
  unfold InpOff.padded, padded_len_usize, checked_add, WORD_SIZE in *. revert Hr. unfold alignment_bytes, ALIGN.
  change (100 * 2 ^ 20) with 104857600 in *.
  destruct (zlen l mod 8 =? 0) eqn:E; intros; cbn [default]; unfold id; [lia|]. case_if; cbn [default]; unfold id; lia.
Qed.

Section BodyLaws.
Context `{Alloc} `{!ExactAlloc}.

(** The two sizes of a body, from its codec. *)
Lemma body_sizes {Body} (c : Codec Body) b s bb db k :
  encodes c b s bb db -> size_static c b = k -> k < USIZE_MAX ->
  zlen bb = k /\ size_dynamic c b = Z.min (zlen db) USIZE_MAX.
Proof. intros [] Hs Hk. split; [|done]. lia. Qed.

Lemma zlen_cons_succ {A} (x : A) l : zlen (x :: l) = 1 + zlen l.
Proof. unfold zlen. cbn [length]. lia. Qed.

(** Vectors of elements of the same size. *)
Lemma sum_sizes_const {T} (f : T -> Z) k l :
  0 <= k -> k mod 8 = 0 -> k < USIZE_MAX -> (forall x, x ∈ l -> f x = k) ->
  aligned_size (sum_sizes f l) = Z.min (zlen l * k) USIZE_MAX.
Proof.
  intros Hk Hm Hs Hf. assert (sum_sizes f l = Z.min (zlen l * k) USIZE_MAX) as ->.
  { destruct l as [|x l]; [done|]. cbn [sum_sizes]. rewrite Hf by set_solver.
    assert (Hl : forall a l', 0 <= a -> (forall y, y ∈ l' -> f y = k) ->
      foldl (fun acc y => saturating_add acc (f y)) (Z.min a USIZE_MAX) l' = Z.min (a + zlen l' * k) USIZE_MAX).
    { intros a l'. revert a. induction l' as [|y l' IH]; intros a Ha Hy; cbn [foldl].
      - change (zlen []) with 0. f_equal. lia.
      - rewrite (Hy y) by set_solver. replace k with (Z.min k USIZE_MAX) by lia.
        rewrite saturating_add_min, (IH (a + k)) by (lia || set_solver). rewrite zlen_cons_succ.
        replace (Z.min k USIZE_MAX) with k by lia. f_equal. lia. }
    replace k with (Z.min k USIZE_MAX) at 1 by lia. rewrite Hl by (done || set_solver).
    rewrite zlen_cons_succ. f_equal. lia. }
  assert (0 <= zlen l * k) by (pose proof (zlen_nonneg l); nia).
  rewrite aligned_size_min by done. rewrite alignment_bytes_aligned; [by rewrite Z.add_0_r|].
  unfold ALIGN. by rewrite Z.mul_mod, Hm, Z.mul_0_r.
Qed.

Lemma sat_mul_len {A} (l : list A) k : 0 <= k -> saturating_mul (zlen l) k = Z.min (zlen l * k) USIZE_MAX.
Proof. done. Qed.

Ltac body_law He k :=
  let Hb := fresh "Hb" in let Hd := fresh "Hd" in
  destruct (body_sizes _ _ _ _ _ k He eq_refl eq_refl) as [Hb Hd]; cbn in Hd;
  match goal with |- context [zlen ?db] => pose proof (zlen_nonneg db) end; rewrite Hb.

#[export] Instance script_offset_law : BodyOffsetLaw c_script_body script_body_ok.
Proof.
  intros b s bb db (_ & _ & H1 & H2) He. body_law He 64.
  unfold body_offset_end, script_body_offset, script_data_offset.
  destruct (padded_eq _ H1) as [-> ?], (padded_eq _ H2) as [-> ?]. revert Hd.
  change script_offset_static with 96. unfold saturating_add, USIZE_MAX, VEC_DECODE_LIMIT in *.
  pose proof (zlen_nonneg db). lia.
Qed.

#[export] Instance create_offset_law : BodyOffsetLaw c_create_body create_body_ok.
Proof.
  intros b s bb db (_ & _ & H1 & H2) He. body_law He 56. rewrite (sum_sizes_const _ 64) in Hd by (done || by intros).
  unfold body_offset_end, create_body_offset. rewrite sat_mul_len by done. revert Hd.
  change storage_slots_offset_static with 88. change SLOT_SIZE with 64. unfold saturating_add, USIZE_MAX in *.
  pose proof (zlen_nonneg db). pose proof (zlen_nonneg (storage_slots b)). lia.
Qed.

#[export] Instance upload_offset_law : BodyOffsetLaw c_upload_body upload_body_ok.
Proof.
  intros b s bb db H1 He. body_law He 72. rewrite (sum_sizes_const _ 32) in Hd by (done || by intros).
  unfold body_offset_end, upload_body_offset. rewrite sat_mul_len by done. revert Hd.
  change proof_set_offset_static with 104. change LEN32 with 32. unfold saturating_add, USIZE_MAX in *.
  pose proof (zlen_nonneg db). pose proof (zlen_nonneg (upload_proof_set b)). lia.
Qed.

#[export] Instance blob_offset_law : BodyOffsetLaw c_blob_body blob_body_ok.
Proof.
  intros b s bb db H1 He. body_law He 48. unfold body_offset_end, blob_body_offset.
  change (saturating_add blob_witness_index_offset_static _) with 80. unfold USIZE_MAX in *.
  pose proof (zlen_nonneg db). change (saturating_add 0 0) with 0 in Hd. lia.
Qed.

#[export] Instance upgrade_offset_law : BodyOffsetLaw c_upgrade_body upgrade_ok.
Proof.
  intros b s bb db H1 He. unfold body_offset_end, upgrade_body_offset.
  destruct b as [w c|r].
  - body_law He 56. change (saturating_add (saturating_add _ _) _) with 88. unfold USIZE_MAX in *.
    pose proof (zlen_nonneg db). change (saturating_add 0 0) with 0 in Hd. lia.
  - body_law He 48. change (saturating_add (saturating_add _ _) _) with 80. unfold USIZE_MAX in *.
    pose proof (zlen_nonneg db). lia.
Qed.
End BodyLaws.

(** ** Offsets are exact *)

Section Exact.
Context `{Alloc} `{!ExactAlloc} {Body : Type} (c : Codec Body) (body_ok : Body -> Prop)
  `{!BodyOffset Body} (Hlaw : lawful c body_ok) `{!BodyOffsetLaw c body_ok}.
Implicit Types (t : Chargeable Body).

(** The three vectors of the encoding, and where they start. *)
Lemma vectors_layout t bs :
  chargeable_ok body_ok t -> encode (c_chargeable c) t = Ok bs -> zlen bs <= USIZE_MAX ->
  exists pre bi bo bw, bs = pre ++ bi ++ bo ++ bw /\
    encodes_list c_input (tx_inputs t) bi /\ encodes_list c_output (tx_outputs t) bo /\
    encodes_list c_bytes (tx_witnesses t) bw /\
    inputs_offset t = zlen pre /\ outputs_offset t = zlen pre + zlen bi /\
    witnesses_offset t = zlen pre + zlen bi + zlen bo.
Proof.
  intros Ht Ebs Hlen.
  destruct (chargeable_layout c body_ok Hlaw t Ht) as (sb & bb & db & bp & dp & bi & bo & bw & Eb & Hbp & Hdp & Ei & Eo & Ew & E).
  match type of E with _ = Ok (?st ++ _) => set (static := st) in * end.
  assert (bs = static ++ db ++ dp ++ bi ++ bo ++ bw) as -> by congruence. clear E Ebs.
  assert (Hst : zlen static = zlen bb + 32) by (unfold static; rewrite !zlen_app, !zlen_to_be_bytes, Hbp; lia).
  rewrite !zlen_app, Hst in Hlen.
  pose proof (zlen_nonneg bb). pose proof (zlen_nonneg db). pose proof (zlen_nonneg dp). pose proof (zlen_nonneg bi).
  pose proof (zlen_nonneg bo). pose proof (zlen_nonneg bw).
  assert (Hin : inputs_offset t = zlen bb + 32 + zlen db + zlen dp).
  { unfold inputs_offset, policies_offset. rewrite Hdp.
    rewrite (body_offset_exact (tx_body t) sb bb db (proj1 Ht) Eb), saturating_add_min by lia. lia. }
  assert (Hout : outputs_offset t = inputs_offset t + zlen bi).
  { unfold outputs_offset. rewrite (sum_sizes_list _ _ _ Ei), Hin. unfold saturating_add, USIZE_MAX in *. lia. }
  assert (Hwit : witnesses_offset t = outputs_offset t + zlen bo).
  { unfold witnesses_offset. rewrite (sum_sizes_list _ _ _ Eo), Hout, Hin. unfold saturating_add, USIZE_MAX in *. lia. }
  exists (static ++ db ++ dp), bi, bo, bw. rewrite !zlen_app, Hst. split_and!; try done; [by rewrite <- !app_assoc|lia..].
Qed.

(** An element of one of the vectors. *)
Lemma element_at {T} (e : Codec T) l x i base pre bs post all :
  encodes_list e l bs -> l !! i = Some x -> all = pre ++ bs ++ post -> base = zlen pre -> zlen all <= USIZE_MAX ->
  exists b, encode e x = Ok b /\
    at_offset all (saturating_add base (sum_sizes (size e) (take i l))) b.
Proof.
  intros Hl Hi -> -> Hall. destruct (encodes_list_at e l bs i x Hl Hi) as (p & b & q & -> & Hp & Hb).
  exists b. split; [done|]. exists (pre ++ p), (q ++ post). rewrite (sum_sizes_list _ _ _ Hp).
  split; [by rewrite <- !app_assoc|]. rewrite !zlen_app in *.
  pose proof (zlen_nonneg pre). pose proof (zlen_nonneg p). pose proof (zlen_nonneg b). pose proof (zlen_nonneg q).
  pose proof (zlen_nonneg post). unfold saturating_add, USIZE_MAX in *. lia.
Qed.

Lemma zget_lookup {A} (l : list A) i x : zget l i = Some x -> 0 <= i < zlen l /\ l !! Z.to_nat i = Some x.
Proof.
  unfold zget, zlen. case_if; [done|]. intros Hx. split; [|done]. apply lookup_lt_Some in Hx. lia.
Qed.

Lemma take_sub {A} i (l : list A) x : x ∈ take i l -> x ∈ l.
Proof.
  intros Hx. apply list_elem_of_lookup_1 in Hx as [k Hk]. apply lookup_take_Some in Hk as [Hk _].
  by eapply list_elem_of_lookup_2.
Qed.

(** The sum of sizes, before saturation. *)
Definition total {T} (f : T -> Z) (l : list T) : Z := foldr (fun x acc => f x + acc) 0 l.

Lemma sum_sizes_total {T} (f : T -> Z) l :
  (forall x, x ∈ l -> 0 <= f x <= USIZE_MAX) -> 0 <= total f l /\ sum_sizes f l = Z.min (total f l) USIZE_MAX.
Proof.
  intros Hf.
  assert (Hfold : forall l' a, (forall x, x ∈ l' -> 0 <= f x <= USIZE_MAX) -> 0 <= a ->
    0 <= total f l' /\
    foldl (fun acc y => saturating_add acc (f y)) (Z.min a USIZE_MAX) l' = Z.min (a + total f l') USIZE_MAX).
  { induction l' as [|y l' IH]; intros a Hl Ha; cbn [foldl total foldr]; [split; [done|f_equal; lia]|].
    fold (total f l'). pose proof (Hl y ltac:(set_solver)) as Hy.
    replace (f y) with (Z.min (f y) USIZE_MAX) at 2 by lia. rewrite saturating_add_min by lia.
    destruct (IH (a + f y)) as [Ht ->]; [set_solver|lia|]. split; [lia|f_equal; lia]. }
  destruct l as [|x l]; [done|]. cbn [sum_sizes total foldr]. fold (total f l).
  pose proof (Hf x ltac:(set_solver)) as Hx. replace (f x) with (Z.min (f x) USIZE_MAX) at 2 by lia.
  destruct (Hfold l (f x)) as [Ht ->]; [set_solver|lia|]. split; [lia|done].
Qed.

(** The cached offsets. *)
Lemma offsets_loop_spec {T} (f : T -> Z) err l : forall index offset os,
  (forall x, x ∈ l -> 0 <= f x <= USIZE_MAX) -> 0 <= offset < U64 -> offsets_loop f err l index offset = Ok os ->
  length os = length l /\
  forall i, (i < length l)%nat -> os !! i = Some (saturating_add offset (sum_sizes f (take i l))).
Proof.
  induction l as [|x l IH]; intros index offset os Hf Ho E; cbn [offsets_loop] in E.
  - injection E as <-. split; [done|]. cbn. lia.
  - pose proof (Hf x ltac:(set_solver)) as Hx.
    unfold checked_add in E. destruct (offset + f x <? U64) eqn:Hc; [|done]. cbn [ok_or obind] in E.
    destruct (offsets_loop f err l (index + 1) (offset + f x)) as [rest| |] eqn:Er; [|done..].
    injection E as <-. 
    destruct (IH (index + 1) (offset + f x) rest) as [Hlen Hr]; [set_solver|lia|done|].
    split; [by cbn; rewrite Hlen|]. intros [|i] Hi; cbn [take lookup list_lookup].
    + cbn [sum_sizes]. unfold saturating_add. f_equal. lia.
    + cbn in Hi. rewrite Hr by lia. f_equal.
      destruct (sum_sizes_total f (take i l)) as [H1 ->].
      { intros y Hy. apply Hf. right. by eapply take_sub. }
      destruct (sum_sizes_total f (x :: take i l)) as [H2 ->].
      { intros y Hy. apply Hf. apply elem_of_cons in Hy as [->|Hy]; [by left|right].
        by eapply take_sub. }
      cbn [total foldr] in *. fold (total f (take i l)) in *. unfold saturating_add, USIZE_MAX in *. lia.
Qed.
End Exact.
