(* ===== verification/TxFieldBytes.v ===== *)
(** * The bytes of the fields of inputs and outputs

    The encoding of each input and output, spelled out, and the position of every field in it:
    the constants of input/consts.rs and output/consts.rs (src/fuel-tx/src/transaction/types)
    are the offsets of the fields they name, and [predicate_offset] and
    [predicate_data_offset] those of the predicate and its data. *)

From Stdlib Require Import Strings.Byte.
From S2P Require Import Prelude Asm Merkle Receipts Memory State Canonical TxTypes TxCodec TxInput TxOffsets.

Definition b16 (x : Z) : list byte := padding (Z.of_nat 2) ++ to_be_bytes 2 x.
Definition b32w (x : Z) : list byte := padding (Z.of_nat 4) ++ to_be_bytes 4 x.
Definition b64 (x : Z) : list byte := padding (Z.of_nat 8) ++ to_be_bytes 8 x.
Definition padded_bytes (l : list byte) : list byte := l ++ padding (zlen l).
Definition len_bytes (l : list byte) : list byte := to_be_bytes 8 (zlen l).
Definition utxo_bytes (u : UtxoId) : list byte := (utxo_tx_id u ++ padding 32) ++ b16 (utxo_output_index u).
Definition pointer_bytes (p : TxPointer) : list byte := b32w (txp_block_height p) ++ b16 (txp_tx_index p).

Lemma e_bytes32 b : bytes32_ok b -> encodes c_bytes32 b b (b ++ padding 32) [].
Proof. apply c_array_encodes. Qed.
Lemma e_u64 x : u64_ok x -> encodes c_u64 x x (b64 x) [].
Proof. apply (c_uint_encodes 8). Qed.
Lemma e_u16 x : u16_ok x -> encodes c_u16 x x (b16 x) [].
Proof. apply (c_uint_encodes 2). Qed.
Lemma e_u32 x : u32_ok x -> encodes c_u32 x x (b32w x) [].
Proof. apply (c_uint_encodes 4). Qed.
Lemma e_utxo u : utxo_id_ok u -> encodes c_utxo_id u u (utxo_bytes u) [].
Proof.
  intros [H1 H2]. destruct u as [t i]. refine (c_struct_encodes (c_pair c_bytes32 c_u16) utxo_id_fields utxo_id_of _ utxo_id_fields utxo_id_of
    (mkUtxoId t i) (t, i) _ _ eq_refl eq_refl _).
  exact (c_pair_encodes _ _ _ _ _ _ _ _ _ _ (e_bytes32 t H1) (e_u16 i H2)).
Qed.
Lemma e_pointer p : tx_pointer_ok p -> encodes c_tx_pointer p p (pointer_bytes p) [].
Proof.
  intros [H1 H2]. destruct p as [h i]. refine (c_struct_encodes (c_pair c_u32 c_u16) tx_pointer_fields tx_pointer_of _ tx_pointer_fields tx_pointer_of
    (mkTxPointer h i) (h, i) _ _ eq_refl eq_refl _).
  exact (c_pair_encodes _ _ _ _ _ _ _ _ _ _ (e_u32 h H1) (e_u16 i H2)).
Qed.
(** The fields of coins and messages; [bw], [bg], .. are those of the varying fields. *)
Definition coin_bytes {W G P D} (c : Coin W G P D) (bw bg bp bd : list byte) : list byte :=
  utxo_bytes (coin_utxo_id c) ++ (coin_owner c ++ padding 32) ++ b64 (coin_amount c) ++
  (coin_asset_id c ++ padding 32) ++ pointer_bytes (coin_tx_pointer c) ++ bw ++ bg ++ bp ++ bd.
Definition message_bytes {W G A P D} (m : Message W G A P D) (bw bg ba bp bd : list byte) : list byte :=
  (msg_sender m ++ padding 32) ++ (msg_recipient m ++ padding 32) ++ b64 (msg_amount m) ++
  (msg_nonce m ++ padding 32) ++ bw ++ bg ++ ba ++ bp ++ bd.
Definition contract_bytes (c : InputContract) : list byte :=
  utxo_bytes (inc_utxo_id c) ++ (inc_balance_root c ++ padding 32) ++ (inc_state_root c ++ padding 32) ++
  pointer_bytes (inc_tx_pointer c) ++ (inc_contract_id c ++ padding 32).

Lemma e_coin {W G P D} (w : Codec W) (g : Codec G) (p : Codec P) (d : Codec D) (c : Coin W G P D)
    sw sg sp sd bw bg bp bd dw dg dp dd :
  coin_ok c -> encodes w (coin_witness_index c) sw bw dw -> encodes g (coin_predicate_gas_used c) sg bg dg ->
  encodes p (coin_predicate c) sp bp dp -> encodes d (coin_predicate_data c) sd bd dd ->
  exists s, encodes (c_coin w g p d) c s (coin_bytes c bw bg bp bd) (dw ++ dg ++ dp ++ dd).
Proof.
  intros (Hu & Ho & Ha & Hi & Ht) Hw Hg Hp Hd. destruct c as [u o a i t xw xg xp xd]. cbn in *.
  eexists. unfold c_coin, coin_bytes. eapply c_struct_encodes; [done| |]; cycle 1.
  - exact (c_pair_encodes _ _ _ _ _ _ _ _ _ _ (e_utxo u Hu) (c_pair_encodes _ _ _ _ _ _ _ _ _ _ (e_bytes32 o Ho)
      (c_pair_encodes _ _ _ _ _ _ _ _ _ _ (e_u64 a Ha) (c_pair_encodes _ _ _ _ _ _ _ _ _ _ (e_bytes32 i Hi)
      (c_pair_encodes _ _ _ _ _ _ _ _ _ _ (e_pointer t Ht) (c_pair_encodes _ _ _ _ _ _ _ _ _ _ Hw
      (c_pair_encodes _ _ _ _ _ _ _ _ _ _ Hg (c_pair_encodes _ _ _ _ _ _ _ _ _ _ Hp Hd)))))))).
  - done.
Qed.

Lemma e_message {W G A P D} (w : Codec W) (g : Codec G) (a : Codec A) (p : Codec P) (d : Codec D)
    (m : Message W G A P D) sw sg sa sp sd bw bg ba bp bd dw dg da dp dd :
  message_ok m -> encodes w (msg_witness_index m) sw bw dw -> encodes g (msg_predicate_gas_used m) sg bg dg ->
  encodes a (msg_data m) sa ba da -> encodes p (msg_predicate m) sp bp dp ->
  encodes d (msg_predicate_data m) sd bd dd ->
  exists s, encodes (c_message w g a p d) m s (message_bytes m bw bg ba bp bd) (dw ++ dg ++ da ++ dp ++ dd).
Proof.
  intros (Hs & Hr & Ha & Hn) Hw Hg Hda Hp Hd. destruct m as [s r x n xw xg xa xp xd]. cbn in *.
  eexists. unfold c_message, message_bytes. eapply c_struct_encodes; [done| |]; cycle 1.
  - exact (c_pair_encodes _ _ _ _ _ _ _ _ _ _ (e_bytes32 s Hs) (c_pair_encodes _ _ _ _ _ _ _ _ _ _ (e_bytes32 r Hr)
      (c_pair_encodes _ _ _ _ _ _ _ _ _ _ (e_u64 x Ha) (c_pair_encodes _ _ _ _ _ _ _ _ _ _ (e_bytes32 n Hn)
      (c_pair_encodes _ _ _ _ _ _ _ _ _ _ Hw (c_pair_encodes _ _ _ _ _ _ _ _ _ _ Hg
      (c_pair_encodes _ _ _ _ _ _ _ _ _ _ Hda (c_pair_encodes _ _ _ _ _ _ _ _ _ _ Hp Hd)))))))).
  - done.
Qed.

Lemma e_contract c : input_contract_ok c -> encodes c_input_contract c c (contract_bytes c) [].
Proof.
  intros (H1 & H2 & H3 & H4 & H5). destruct c as [u b s t i]. cbn in *.
  refine (c_struct_encodes (c_pair c_utxo_id (c_pair c_bytes32 (c_pair c_bytes32 (c_pair c_tx_pointer c_bytes32))))
    input_contract_fields input_contract_of _ input_contract_fields input_contract_of
    (mkInputContract u b s t i) (u, (b, (s, (t, i)))) _ _ eq_refl eq_refl _).
  exact (c_pair_encodes _ _ _ _ _ _ _ _ _ _ (e_utxo u H1) (c_pair_encodes _ _ _ _ _ _ _ _ _ _ (e_bytes32 b H2)
    (c_pair_encodes _ _ _ _ _ _ _ _ _ _ (e_bytes32 s H3)
      (c_pair_encodes _ _ _ _ _ _ _ _ _ _ (e_pointer t H4) (e_bytes32 i H5))))).
Qed.

(** A dropped field is written as its default. *)
Lemma e_empty {T} (c : Codec T) x s bs : encodes c x s bs [] -> encodes (c_empty c x) mkEmpty mkEmpty bs [].
Proof.
  intros He. destruct He as [H1 H2 H3 H4 H5 H6 H7 H8].
  split; try done; cbn [c_empty decode_static]. intros rest. by rewrite H7.
Qed.

Section InputBytes.
Context `{Alloc} `{!ExactAlloc}.

Lemma e_bytes l : vec_ok l -> encodes c_bytes l (zlen l) (len_bytes l) (padded_bytes l).
Proof. apply c_bytes_encodes. Qed.
Lemma e_no_u64 : encodes (c_empty c_u64 0) mkEmpty mkEmpty (b64 0) [].
Proof. by eapply e_empty, e_u64. Qed.
Lemma e_no_u16 : encodes (c_empty c_u16 0) mkEmpty mkEmpty (b16 0) [].
Proof. by eapply e_empty, e_u16. Qed.
Lemma e_no_bytes : encodes (c_empty c_bytes []) mkEmpty mkEmpty (len_bytes []) [].
Proof. by eapply e_empty, (c_bytes_encodes []). Qed.

Definition tag (r : InputRepr) : list byte := to_be_bytes 8 (input_repr_to r).

(** The whole encoding of an input. *)
Definition input_bytes (i : Input) : list byte :=
  match i with
  | Input_CoinSigned c =>
      tag InputRepr_Coin ++ coin_bytes c (b16 (coin_witness_index c)) (b64 0) (len_bytes []) (len_bytes [])
  | Input_CoinPredicate c =>
      (tag InputRepr_Coin ++ coin_bytes c (b16 0) (b64 (coin_predicate_gas_used c)) (len_bytes (coin_predicate c))
         (len_bytes (coin_predicate_data c))) ++
      padded_bytes (coin_predicate c) ++ padded_bytes (coin_predicate_data c)
  | Input_Contract c => tag InputRepr_Contract ++ contract_bytes c
  | Input_MessageCoinSigned m =>
      tag InputRepr_Message ++
      message_bytes m (b16 (msg_witness_index m)) (b64 0) (len_bytes []) (len_bytes []) (len_bytes [])
  | Input_MessageCoinPredicate m =>
      (tag InputRepr_Message ++
       message_bytes m (b16 0) (b64 (msg_predicate_gas_used m)) (len_bytes []) (len_bytes (msg_predicate m))
         (len_bytes (msg_predicate_data m))) ++
      padded_bytes (msg_predicate m) ++ padded_bytes (msg_predicate_data m)
  | Input_MessageDataSigned m =>
      (tag InputRepr_Message ++
       message_bytes m (b16 (msg_witness_index m)) (b64 0) (len_bytes (msg_data m)) (len_bytes []) (len_bytes [])) ++
      padded_bytes (msg_data m)
  | Input_MessageDataPredicate m =>
      (tag InputRepr_Message ++
       message_bytes m (b16 0) (b64 (msg_predicate_gas_used m)) (len_bytes (msg_data m)) (len_bytes (msg_predicate m))
         (len_bytes (msg_predicate_data m))) ++
      padded_bytes (msg_data m) ++ padded_bytes (msg_predicate m) ++ padded_bytes (msg_predicate_data m)
  end.

Lemma encode_input_by {V} i r (c : Codec V) x s bs bd bytes :
  encodes c x s bs bd ->
  encode c_input i = (let? st := (let? d := encode_static c_input_repr r in let? b := encode_static c x in Ok (d ++ b)) in
                      let? dy := (let? d := encode_dynamic c_input_repr r in let? b := encode_dynamic c x in Ok (d ++ b)) in
                      Ok (st ++ dy)) ->
  bytes = (tag r ++ bs) ++ bd -> encode c_input i = Ok bytes.
Proof.
  intros [E1 E2 _ _ _ _ _ _] -> ->. rewrite (en_static _ _ _ _ _ (input_repr_encodes r)), E1. cbn [obind].
  rewrite (en_dynamic _ _ _ _ _ (input_repr_encodes r)), E2. done.
Qed.

Lemma encode_input i : input_ok i -> encode c_input i = Ok (input_bytes i).
Proof.
  destruct i as [c|c|c|m|m|m|m]; intros Hi; cbn [input_bytes].
  - destruct c as [u o a i t w [] [] []], Hi as [Hc Hw].
    destruct (e_coin c_u16 (c_empty c_u64 0) (c_empty c_bytes []) (c_empty c_bytes []) _ _ _ _ _ _ _ _ _ _ _ _ _ Hc
      (e_u16 _ Hw) e_no_u64 e_no_bytes e_no_bytes) as [s He].
    eapply (encode_input_by _ InputRepr_Coin c_coin_signed); [exact He|reflexivity|by rewrite app_nil_r].
  - destruct c as [u o a i t [] g p d], Hi as (Hc & Hg & Hp & Hd & _).
    destruct (e_coin (c_empty c_u16 0) c_u64 c_bytes c_bytes _ _ _ _ _ _ _ _ _ _ _ _ _ Hc
      e_no_u16 (e_u64 _ Hg) (e_bytes _ Hp) (e_bytes _ Hd)) as [s He].
    eapply (encode_input_by _ InputRepr_Coin c_coin_predicate); [exact He|reflexivity|done].
  - eapply (encode_input_by _ InputRepr_Contract c_input_contract); [by apply e_contract|reflexivity|by rewrite app_nil_r].
  - destruct m as [s r a n w [] [] [] []], Hi as [Hm Hw].
    destruct (e_message c_u16 (c_empty c_u64 0) (c_empty c_bytes []) (c_empty c_bytes []) (c_empty c_bytes [])
      _ _ _ _ _ _ _ _ _ _ _ _ _ _ _ _ Hm (e_u16 _ Hw) e_no_u64 e_no_bytes e_no_bytes e_no_bytes) as [st He].
    eapply (encode_input_by _ InputRepr_Message c_message_coin_signed); [exact He|reflexivity|by rewrite app_nil_r].
  - destruct m as [s r a n [] g [] p d], Hi as (Hm & Hg & Hp & Hd & _).
    destruct (e_message (c_empty c_u16 0) c_u64 (c_empty c_bytes []) c_bytes c_bytes
      _ _ _ _ _ _ _ _ _ _ _ _ _ _ _ _ Hm e_no_u16 (e_u64 _ Hg) e_no_bytes (e_bytes _ Hp) (e_bytes _ Hd)) as [st He].
    eapply (encode_input_by _ InputRepr_Message c_message_coin_predicate); [exact He|reflexivity|done].
  - destruct m as [s r a n w [] b [] []], Hi as (Hm & Hw & Hb & _).
    destruct (e_message c_u16 (c_empty c_u64 0) c_bytes (c_empty c_bytes []) (c_empty c_bytes [])
      _ _ _ _ _ _ _ _ _ _ _ _ _ _ _ _ Hm (e_u16 _ Hw) e_no_u64 (e_bytes _ Hb) e_no_bytes e_no_bytes) as [st He].
    eapply (encode_input_by _ InputRepr_Message c_message_data_signed); [exact He|reflexivity|by rewrite !app_nil_r].
  - destruct m as [s r a n [] g b p d], Hi as (Hm & Hg & Hb & Hp & Hd & _).
    destruct (e_message (c_empty c_u16 0) c_u64 c_bytes c_bytes c_bytes
      _ _ _ _ _ _ _ _ _ _ _ _ _ _ _ _ Hm e_no_u16 (e_u64 _ Hg) (e_bytes _ Hb) (e_bytes _ Hp) (e_bytes _ Hd)) as [st He].
    eapply (encode_input_by _ InputRepr_Message c_message_data_predicate); [exact He|reflexivity|done].
Qed.
End InputBytes.

(** The whole encoding of an output. *)
Definition output_bytes (o : Output) : list byte :=
  match o with
  | Output_Coin t a i => b64 0 ++ (t ++ padding 32) ++ b64 a ++ (i ++ padding 32)
  | Output_Contract c =>
      b64 1 ++ b16 (outc_input_index c) ++ (outc_balance_root c ++ padding 32) ++ (outc_state_root c ++ padding 32)
  | Output_Change t a i => b64 2 ++ (t ++ padding 32) ++ b64 a ++ (i ++ padding 32)
  | Output_Variable t a i => b64 3 ++ (t ++ padding 32) ++ b64 a ++ (i ++ padding 32)
  | Output_ContractCreated c s => b64 4 ++ (c ++ padding 32) ++ (s ++ padding 32)
  end.

Lemma encode_output o : encode c_output o = Ok (output_bytes o).
Proof.
  cut (exists bs, encode_static c_output o = Ok bs /\ encode_dynamic c_output o = Ok [] /\ bs = output_bytes o).
  { intros (bs & E1 & E2 & ->). unfold encode. rewrite E1, E2. cbn [obind]. by rewrite app_nil_r. }
  destruct o as [t a i|c|t a i|t a i|c s]; eexists; (split; [reflexivity|split; reflexivity]).
Qed.

(** ** Positions *)

Lemma at_here {A} (x post : list A) : at_offset (x ++ post) 0 x.
Proof. by exists [], post. Qed.
Lemma at_whole {A} (x : list A) : at_offset x 0 x.
Proof. exists [], []. by rewrite app_nil_r. Qed.
Lemma at_skip {A} (pre bs : list A) k o x :
  zlen pre = k -> at_offset bs (o - k) x -> at_offset (pre ++ bs) o x.
Proof. intros <- Hx. replace o with (zlen pre + (o - zlen pre)) by lia. by apply at_offset_app. Qed.
Lemma at_left {A} (a b : list A) o x : at_offset a o x -> at_offset (a ++ b) o x.
Proof. intros (p & q & -> & Hp). exists p, (q ++ b). by rewrite <- !app_assoc. Qed.

Lemma zlen_b16 x : zlen (b16 x) = 8.
Proof. unfold b16. by rewrite zlen_app, zlen_padding, zlen_to_be_bytes. Qed.
Lemma zlen_b32w x : zlen (b32w x) = 8.
Proof. unfold b32w. by rewrite zlen_app, zlen_padding, zlen_to_be_bytes. Qed.
Lemma zlen_b64 x : zlen (b64 x) = 8.
Proof. unfold b64. by rewrite zlen_app, zlen_padding, zlen_to_be_bytes. Qed.
Lemma zlen_len_bytes l : zlen (len_bytes l) = 8.
Proof. apply zlen_to_be_bytes. Qed.
Lemma zlen_tag r : zlen (tag r) = 8.
Proof. apply zlen_to_be_bytes. Qed.
Lemma zlen_padded32 b : bytes32_ok b -> zlen (b ++ padding 32) = 32.
Proof. intros Hb. by rewrite zlen_app, Hb. Qed.
Lemma zlen_utxo u : utxo_id_ok u -> zlen (utxo_bytes u) = 40.
Proof. intros [Hu _]. unfold utxo_bytes. by rewrite zlen_app, zlen_b16, zlen_padded32. Qed.
Lemma zlen_pointer p : zlen (pointer_bytes p) = 16.
Proof. unfold pointer_bytes. by rewrite zlen_app, zlen_b16, zlen_b32w. Qed.
Lemma zlen_padded_bytes l : vec_ok l -> zlen (padded_bytes l) = aligned_size (zlen l).
Proof.
  intros Hl. destruct (padded_eq l Hl) as [_ Hs]. unfold padded_bytes. rewrite zlen_app, zlen_padding.
  unfold aligned_size, saturating_add, VEC_DECODE_LIMIT in *. lia.
Qed.

Create HintDb lens discriminated.
#[export] Hint Resolve zlen_b16 zlen_b32w zlen_b64 zlen_len_bytes zlen_tag zlen_padded32 zlen_utxo
  zlen_pointer zlen_padded_bytes : lens.

(** Walk over the parts of an encoding. *)
Ltac at_walk :=
  lazymatch goal with
  | |- at_offset ((?a ++ padding 32) ++ _) 0 ?a => apply at_left, at_here
  | |- at_offset (?a ++ padding 32) 0 ?a => apply at_here
  | |- at_offset (?a ++ _) 0 ?a => apply at_here
  | |- at_offset ?a 0 ?a => apply at_whole
  | |- at_offset (utxo_bytes ?u ++ _) 0 (utxo_tx_id ?u) => apply at_left, at_left, at_here
  | |- at_offset (_ ++ _) _ _ =>
      eapply at_skip; [solve [eauto with lens nocore]|
        match goal with |- at_offset _ ?o _ => let o' := eval vm_compute in o in change o with o' end; at_walk]
  end.

(** The fixed fields of coins, contracts and messages. *)
Section Coins.
Context {W G P D : Type} (c : Coin W G P D) (bw bg bp bd : list byte).
Hypothesis Hc : coin_ok c.
Lemma coin_fields_at :
  let e := tag InputRepr_Coin ++ coin_bytes c bw bg bp bd in
  at_offset e INPUT_UTXO_ID_OFFSET (utxo_tx_id (coin_utxo_id c)) /\
  at_offset e INPUT_COIN_OWNER_OFFSET (coin_owner c) /\
  at_offset e INPUT_COIN_ASSET_ID_OFFSET (coin_asset_id c) /\
  at_offset e INPUT_COIN_TX_POINTER_OFFSET (pointer_bytes (coin_tx_pointer c)).
Proof.
  destruct Hc as (Hu & Ho & Ha & Hi & Ht). unfold coin_bytes.
  change INPUT_UTXO_ID_OFFSET with 8. change INPUT_COIN_OWNER_OFFSET with 48.
  change INPUT_COIN_ASSET_ID_OFFSET with 88. change INPUT_COIN_TX_POINTER_OFFSET with 120.
  split_and!; at_walk.
Qed.
End Coins.

Lemma contract_fields_at c :
  input_contract_ok c ->
  let e := tag InputRepr_Contract ++ contract_bytes c in
  at_offset e INPUT_UTXO_ID_OFFSET (utxo_tx_id (inc_utxo_id c)) /\
  at_offset e INPUT_CONTRACT_BALANCE_ROOT_OFFSET (inc_balance_root c) /\
  at_offset e INPUT_CONTRACT_STATE_ROOT_OFFSET (inc_state_root c) /\
  at_offset e INPUT_CONTRACT_TX_POINTER_OFFSET (pointer_bytes (inc_tx_pointer c)) /\
  at_offset e INPUT_CONTRACT_ID_OFFSET (inc_contract_id c).
Proof.
  intros (H1 & H2 & H3 & H4 & H5). unfold contract_bytes.
  change INPUT_UTXO_ID_OFFSET with 8. change INPUT_CONTRACT_BALANCE_ROOT_OFFSET with 48.
  change INPUT_CONTRACT_STATE_ROOT_OFFSET with 80. change INPUT_CONTRACT_TX_POINTER_OFFSET with 112.
  change INPUT_CONTRACT_ID_OFFSET with 128.
  split_and!; at_walk.
Qed.

Lemma message_fields_at {W G A P D} (m : Message W G A P D) bw bg ba bp bd :
  message_ok m ->
  let e := tag InputRepr_Message ++ message_bytes m bw bg ba bp bd in
  at_offset e INPUT_MESSAGE_SENDER_OFFSET (msg_sender m) /\
  at_offset e INPUT_MESSAGE_RECIPIENT_OFFSET (msg_recipient m) /\
  at_offset e INPUT_NONCE_RECIPIENT_OFFSET (msg_nonce m).
Proof.
  intros (H1 & H2 & H3 & H4). unfold message_bytes.
  change INPUT_MESSAGE_SENDER_OFFSET with 8. change INPUT_MESSAGE_RECIPIENT_OFFSET with 40.
  change INPUT_NONCE_RECIPIENT_OFFSET with 80.
  split_and!; at_walk.
Qed.

Lemma output_fields_at o :
  output_ok o ->
  match o with
  | Output_Coin t _ i | Output_Change t _ i | Output_Variable t _ i =>
      at_offset (output_bytes o) OUTPUT_CCV_TO_OFFSET t /\
      at_offset (output_bytes o) OUTPUT_CCV_ASSET_ID_OFFSET i
  | Output_Contract c =>
      at_offset (output_bytes o) OUTPUT_CONTRACT_BALANCE_ROOT_OFFSET (outc_balance_root c) /\
      at_offset (output_bytes o) OUTPUT_CONTRACT_STATE_ROOT_OFFSET (outc_state_root c)
  | Output_ContractCreated c s =>
      at_offset (output_bytes o) OUTPUT_CONTRACT_CREATED_ID_OFFSET c /\
      at_offset (output_bytes o) OUTPUT_CONTRACT_CREATED_STATE_ROOT_OFFSET s
  end.
Proof.
  change OUTPUT_CCV_TO_OFFSET with 8. change OUTPUT_CCV_ASSET_ID_OFFSET with 48.
  change OUTPUT_CONTRACT_BALANCE_ROOT_OFFSET with 16. change OUTPUT_CONTRACT_STATE_ROOT_OFFSET with 48.
  change OUTPUT_CONTRACT_CREATED_ID_OFFSET with 8. change OUTPUT_CONTRACT_CREATED_STATE_ROOT_OFFSET with 40.
  destruct o as [t a i|c|t a i|t a i|c s]; cbn [output_ok output_bytes].
  1, 3, 4: intros (H1 & H2 & H3); split; at_walk.
  - intros (H1 & H2 & H3). split; at_walk.
  - intros (H1 & H2). split; at_walk.
Qed.

(** The variable fields follow the fixed ones. *)
Lemma zlen_coin_static {W G P D} (c : Coin W G P D) bw bg bp bd :
  coin_ok c -> zlen bw = 8 -> zlen bg = 8 -> zlen bp = 8 -> zlen bd = 8 ->
  zlen (tag InputRepr_Coin ++ coin_bytes c bw bg bp bd) = INPUT_COIN_FIXED_SIZE.
Proof.
  intros (Hu & Ho & Ha & Hi & Ht) Ew Eg Ep Ed. unfold coin_bytes.
  rewrite (zlen_app (tag _)), (zlen_app (utxo_bytes _)), (zlen_app (coin_owner c ++ _)), (zlen_app (b64 _)),
    (zlen_app (coin_asset_id c ++ _)), (zlen_app (pointer_bytes _)), (zlen_app bw), (zlen_app bg), (zlen_app bp),
    !zlen_padded32, zlen_utxo, zlen_tag, zlen_b64, zlen_pointer, Ew, Eg, Ep, Ed by done.
  reflexivity.
Qed.

Lemma zlen_message_static {W G A P D} (m : Message W G A P D) bw bg ba bp bd :
  message_ok m -> zlen bw = 8 -> zlen bg = 8 -> zlen ba = 8 -> zlen bp = 8 -> zlen bd = 8 ->
  zlen (tag InputRepr_Message ++ message_bytes m bw bg ba bp bd) = INPUT_MESSAGE_FIXED_SIZE.
Proof.
  intros (Hs & Hr & Ha & Hn) Ew Eg Ea Ep Ed. unfold message_bytes.
  rewrite (zlen_app (tag _)), (zlen_app (msg_sender m ++ _)), (zlen_app (msg_recipient m ++ _)), (zlen_app (b64 _)),
    (zlen_app (msg_nonce m ++ _)), (zlen_app bw), (zlen_app bg), (zlen_app ba), (zlen_app bp),
    !zlen_padded32, zlen_tag, zlen_b64, Ew, Eg, Ea, Ep, Ed by done.
  reflexivity.
Qed.

Lemma sat_small o l : vec_ok l -> 0 <= o <= 2 ^ 40 -> saturating_add o (InpOff.padded l) = o + zlen (padded_bytes l).
Proof.
  intros Hl Ho. rewrite zlen_padded_bytes by done. destruct (padded_eq l Hl) as [-> Hs].
  unfold saturating_add, VEC_DECODE_LIMIT in *. lia.
Qed.

Lemma padded_small l : vec_ok l -> 0 <= zlen (padded_bytes l) <= 2 ^ 30.
Proof.
  intros Hl. rewrite zlen_padded_bytes by done. destruct (padded_eq l Hl) as [_ Hs].
  unfold VEC_DECODE_LIMIT in *. lia.
Qed.

Lemma after_static {A} (st bs : list A) k o x :
  zlen st = k -> at_offset bs o x -> at_offset (st ++ bs) (k + o) x.
Proof. intros <-. apply at_offset_app. Qed.

Lemma after_first {A} (a b post : list A) : at_offset (a ++ b ++ post) (zlen a) b.
Proof. by exists a, post. Qed.

Lemma after_last {A} (a b : list A) : at_offset (a ++ b) (zlen a) b.
Proof. exists a, []. by rewrite app_nil_r. Qed.

Hint Resolve zlen_b16 zlen_b64 zlen_len_bytes : core.

Lemma predicate_at i p d :
  input_ok i -> Inp.input_predicate i = Some p -> Inp.input_predicate_data i = Some d ->
  exists o o', InpOff.predicate_offset i = Some o /\ InpOff.predicate_data_offset i = Some o' /\
    at_offset (input_bytes i) o (padded_bytes p) /\ at_offset (input_bytes i) o' (padded_bytes d).
Proof.
  destruct i as [c|c|c|m|m|m|m]; try done; cbn [Inp.input_predicate Inp.input_predicate_data];
    intros Hi [= <-] [= <-]; cbn [input_bytes].
  - destruct Hi as (Hc & Hg & Hp & Hd & _). eexists _, _. split_and!; [reflexivity..| |].
    + replace INPUT_COIN_FIXED_SIZE with (INPUT_COIN_FIXED_SIZE + 0) by lia.
      apply after_static; [by apply zlen_coin_static|apply at_here].
    + rewrite sat_small by done. apply after_static; [by apply zlen_coin_static|]. apply after_last.
  - destruct Hi as (Hc & Hg & Hp & Hd & _). eexists _, _. split_and!; [reflexivity..| |].
    + replace INPUT_MESSAGE_FIXED_SIZE with (INPUT_MESSAGE_FIXED_SIZE + 0) by lia.
      apply after_static; [by apply zlen_message_static|apply at_here].
    + rewrite sat_small by done. apply after_static; [by apply zlen_message_static|]. apply after_last.
  - destruct Hi as (Hc & Hg & Hb & Hp & Hd & _). pose proof (padded_small _ Hb).
    exists (saturating_add INPUT_MESSAGE_FIXED_SIZE (InpOff.padded (msg_data m))),
      (saturating_add (saturating_add INPUT_MESSAGE_FIXED_SIZE (InpOff.padded (msg_data m)))
        (InpOff.padded (msg_predicate m))).
    split_and!; [reflexivity..| |].
    + rewrite sat_small by done. apply after_static; [by apply zlen_message_static|]. apply after_first.
    + rewrite (sat_small _ (msg_data m)), sat_small by (done || (change INPUT_MESSAGE_FIXED_SIZE with 152; lia)).
      rewrite <- Z.add_assoc. apply after_static; [by apply zlen_message_static|]. rewrite <- zlen_app, app_assoc. apply after_last.
Qed.

Lemma data_at i a :
  input_ok i -> Inp.input_data i = Some a -> at_offset (input_bytes i) INPUT_MESSAGE_FIXED_SIZE (padded_bytes a).
Proof.
  replace INPUT_MESSAGE_FIXED_SIZE with (INPUT_MESSAGE_FIXED_SIZE + 0) by lia.
  destruct i as [c|c|c|m|m|m|m]; try done; cbn [Inp.input_data input_bytes]; intros (Hm & _) [= <-];
    (apply after_static; [by apply zlen_message_static|]); [apply at_whole|apply at_here].
Qed.
