(* ===== verification/Gtf.v ===== *)
(** * Reading the fields of the transaction: GTF

    [GTFArgs] (src/fuel-asm/src/args.rs) and [GTFInput::get_transaction_field]
    (src/fuel-vm/src/interpreter/metadata.rs): the value or the address of a field of the
    transaction that is being executed, which initialization copied to the memory of the
    virtual machine at [tx_offset].

    [field_of] says which field each selector names, without any offsets; [gtf_exact] shows
    that the instruction returns the values it names, and the addresses of the bytes it names. *)

From Stdlib Require Import Strings.Byte.
From S2P Require Import Prelude Asm Merkle Receipts Memory State Alu Canonical TxTypes TxCodec TxInput TxOffsets TxFieldBytes.

Inductive GTFArgs : Type :=
| GTF_Type | GTF_ScriptGasLimit | GTF_ScriptLength | GTF_ScriptDataLength | GTF_ScriptInputsCount
| GTF_ScriptOutputsCount | GTF_ScriptWitnessesCount | GTF_Script | GTF_ScriptData
| GTF_ScriptInputAtIndex | GTF_ScriptOutputAtIndex | GTF_ScriptWitnessAtIndex | GTF_TxLength
| GTF_CreateBytecodeWitnessIndex | GTF_CreateStorageSlotsCount | GTF_CreateInputsCount
| GTF_CreateOutputsCount | GTF_CreateWitnessesCount | GTF_CreateSalt | GTF_CreateStorageSlotAtIndex
| GTF_CreateInputAtIndex | GTF_CreateOutputAtIndex | GTF_CreateWitnessAtIndex | GTF_InputType
| GTF_InputCoinTxId | GTF_InputCoinOutputIndex | GTF_InputCoinOwner | GTF_InputCoinAmount
| GTF_InputCoinAssetId | GTF_InputCoinTxPointer | GTF_InputCoinWitnessIndex
| GTF_InputCoinPredicateLength | GTF_InputCoinPredicateDataLength | GTF_InputCoinPredicate
| GTF_InputCoinPredicateData | GTF_InputCoinPredicateGasUsed | GTF_InputContractTxId
| GTF_InputContractOutputIndex | GTF_InputContractId | GTF_InputMessageSender
| GTF_InputMessageRecipient | GTF_InputMessageAmount | GTF_InputMessageNonce
| GTF_InputMessageWitnessIndex | GTF_InputMessageDataLength | GTF_InputMessagePredicateLength
| GTF_InputMessagePredicateDataLength | GTF_InputMessageData | GTF_InputMessagePredicate
| GTF_InputMessagePredicateData | GTF_InputMessagePredicateGasUsed | GTF_OutputType
| GTF_OutputCoinTo | GTF_OutputCoinAmount | GTF_OutputCoinAssetId | GTF_OutputContractInputIndex
| GTF_OutputContractCreatedContractId | GTF_OutputContractCreatedStateRoot | GTF_WitnessDataLength
| GTF_WitnessData | GTF_PolicyTypes | GTF_PolicyTip | GTF_PolicyWitnessLimit | GTF_PolicyMaturity
| GTF_PolicyMaxFee | GTF_PolicyExpiration | GTF_UploadRoot | GTF_UploadWitnessIndex
| GTF_UploadSubsectionIndex | GTF_UploadSubsectionsCount | GTF_UploadProofSetCount
| GTF_UploadProofSetAtIndex | GTF_BlobId | GTF_BlobWitnessIndex | GTF_UpgradePurpose
| GTF_TxInputsCount | GTF_TxOutputsCount | GTF_TxWitnessesCount | GTF_TxInputAtIndex
| GTF_TxOutputAtIndex | GTF_TxWitnessAtIndex.

Definition gtf_try_from (v : Z) : option GTFArgs :=
  match v with
  | 1 => Some GTF_Type
  | 2 => Some GTF_ScriptGasLimit
  | 3 => Some GTF_ScriptLength
  | 4 => Some GTF_ScriptDataLength
  | 5 => Some GTF_ScriptInputsCount
  | 6 => Some GTF_ScriptOutputsCount
  | 7 => Some GTF_ScriptWitnessesCount
  | 9 => Some GTF_Script
  | 10 => Some GTF_ScriptData
  | 11 => Some GTF_ScriptInputAtIndex
  | 12 => Some GTF_ScriptOutputAtIndex
  | 13 => Some GTF_ScriptWitnessAtIndex
  | 14 => Some GTF_TxLength
  | 257 => Some GTF_CreateBytecodeWitnessIndex
  | 258 => Some GTF_CreateStorageSlotsCount
  | 259 => Some GTF_CreateInputsCount
  | 260 => Some GTF_CreateOutputsCount
  | 261 => Some GTF_CreateWitnessesCount
  | 262 => Some GTF_CreateSalt
  | 263 => Some GTF_CreateStorageSlotAtIndex
  | 264 => Some GTF_CreateInputAtIndex
  | 265 => Some GTF_CreateOutputAtIndex
  | 266 => Some GTF_CreateWitnessAtIndex
  | 512 => Some GTF_InputType
  | 513 => Some GTF_InputCoinTxId
  | 514 => Some GTF_InputCoinOutputIndex
  | 515 => Some GTF_InputCoinOwner
  | 516 => Some GTF_InputCoinAmount
  | 517 => Some GTF_InputCoinAssetId
  | 518 => Some GTF_InputCoinTxPointer
  | 519 => Some GTF_InputCoinWitnessIndex
  | 521 => Some GTF_InputCoinPredicateLength
  | 522 => Some GTF_InputCoinPredicateDataLength
  | 523 => Some GTF_InputCoinPredicate
  | 524 => Some GTF_InputCoinPredicateData
  | 525 => Some GTF_InputCoinPredicateGasUsed
  | 544 => Some GTF_InputContractTxId
  | 545 => Some GTF_InputContractOutputIndex
  | 549 => Some GTF_InputContractId
  | 576 => Some GTF_InputMessageSender
  | 577 => Some GTF_InputMessageRecipient
  | 578 => Some GTF_InputMessageAmount
  | 579 => Some GTF_InputMessageNonce
  | 580 => Some GTF_InputMessageWitnessIndex
  | 581 => Some GTF_InputMessageDataLength
  | 582 => Some GTF_InputMessagePredicateLength
  | 583 => Some GTF_InputMessagePredicateDataLength
  | 584 => Some GTF_InputMessageData
  | 585 => Some GTF_InputMessagePredicate
  | 586 => Some GTF_InputMessagePredicateData
  | 587 => Some GTF_InputMessagePredicateGasUsed
  | 768 => Some GTF_OutputType
  | 769 => Some GTF_OutputCoinTo
  | 770 => Some GTF_OutputCoinAmount
  | 771 => Some GTF_OutputCoinAssetId
  | 772 => Some GTF_OutputContractInputIndex
  | 775 => Some GTF_OutputContractCreatedContractId
  | 776 => Some GTF_OutputContractCreatedStateRoot
  | 1024 => Some GTF_WitnessDataLength
  | 1025 => Some GTF_WitnessData
  | 1280 => Some GTF_PolicyTypes
  | 1281 => Some GTF_PolicyTip
  | 1282 => Some GTF_PolicyWitnessLimit
  | 1283 => Some GTF_PolicyMaturity
  | 1284 => Some GTF_PolicyMaxFee
  | 1285 => Some GTF_PolicyExpiration
  | 1536 => Some GTF_UploadRoot
  | 1537 => Some GTF_UploadWitnessIndex
  | 1538 => Some GTF_UploadSubsectionIndex
  | 1539 => Some GTF_UploadSubsectionsCount
  | 1540 => Some GTF_UploadProofSetCount
  | 1541 => Some GTF_UploadProofSetAtIndex
  | 1792 => Some GTF_BlobId
  | 1793 => Some GTF_BlobWitnessIndex
  | 2048 => Some GTF_UpgradePurpose
  | 2304 => Some GTF_TxInputsCount
  | 2305 => Some GTF_TxOutputsCount
  | 2306 => Some GTF_TxWitnessesCount
  | 2307 => Some GTF_TxInputAtIndex
  | 2308 => Some GTF_TxOutputAtIndex
  | 2309 => Some GTF_TxWitnessAtIndex
  | _ => None
  end.

Definition U16 : Z := 65536.

(** ** The kinds of executable transactions *)

Inductive ExecutableTxType : Type :=
| ExTx_Script (b : ScriptBody)
| ExTx_Create (b : CreateBody)
| ExTx_Upgrade (b : UpgradePurpose)
| ExTx_Upload (b : UploadBody)
| ExTx_Blob (b : BlobBody).
Class ExecutableBody (Body : Type) : Type := {
  transaction_type : TransactionRepr;
  executable_type : Body -> ExecutableTxType
}.
#[export] Instance executable_script : ExecutableBody ScriptBody :=
  {| transaction_type := TxRepr_Script; executable_type := ExTx_Script |}.
#[export] Instance executable_create : ExecutableBody CreateBody :=
  {| transaction_type := TxRepr_Create; executable_type := ExTx_Create |}.
#[export] Instance executable_upgrade : ExecutableBody UpgradePurpose :=
  {| transaction_type := TxRepr_Upgrade; executable_type := ExTx_Upgrade |}.
#[export] Instance executable_upload : ExecutableBody UploadBody :=
  {| transaction_type := TxRepr_Upload; executable_type := ExTx_Upload |}.
#[export] Instance executable_blob : ExecutableBody BlobBody :=
  {| transaction_type := TxRepr_Blob; executable_type := ExTx_Blob |}.

(** ** [Input] and [Output] predicates *)

Definition is_contract (i : Input) : bool := if i is Input_Contract _ then true else false.
Definition is_message (i : Input) : bool :=
  match i with
  | Input_MessageCoinSigned _ | Input_MessageCoinPredicate _ | Input_MessageDataSigned _
  | Input_MessageDataPredicate _ => true
  | _ => false
  end.
Definition output_amount (o : Output) : option Z :=
  match o with
  | Output_Coin _ a _ | Output_Change _ a _ | Output_Variable _ a _ => Some a
  | _ => None
  end.
Definition output_input_index (o : Output) : option Z :=
  if o is Output_Contract c then Some (outc_input_index c) else None.
Definition output_is_coin (o : Output) : bool := if o is Output_Coin _ _ _ then true else false.
Definition output_is_change (o : Output) : bool := if o is Output_Change _ _ _ then true else false.
Definition output_is_contract (o : Output) : bool := if o is Output_Contract _ then true else false.
Definition output_is_contract_created (o : Output) : bool :=
  if o is Output_ContractCreated _ _ then true else false.

(** ** [get_transaction_field] *)

Section GTF.
Context `{Alloc} {Body : Type} `{!BodyOffset Body} `{!ExecutableBody Body}.
Implicit Types (tx : Chargeable Body).

(** [tx.inputs().get(b).filter(p)] *)
Definition input_if tx (b : Z) (p : Input -> bool) : option Input :=
  match zget (tx_inputs tx) b with
  | Some i => if p i then Some i else None
  | None => None
  end.
Definition output_if tx (b : Z) (p : Output -> bool) : option Output :=
  match zget (tx_outputs tx) b with
  | Some o => if p o then Some o else None
  | None => None
  end.
(** [.and_then(|ofs| tx.inputs_offset_at(b).map(|o| o.saturating_add(ofs)))] *)
Definition in_input tx (b : Z) (field : option Z) : option Z :=
  match field, inputs_offset_at tx b with
  | Some ofs, Some o => Some (saturating_add o ofs)
  | _, _ => None
  end.
Definition in_output tx (b : Z) (field : option Z) : option Z :=
  match field, outputs_offset_at tx b with
  | Some ofs, Some o => Some (saturating_add o ofs)
  | _, _ => None
  end.
(** A field of an input with the given representation. *)
Definition input_pointer tx ofs b p (f : InputRepr -> option Z) : outcome PanicReason Z :=
  let? o := ok_or (input_if tx b p ≫= fun i => in_input tx b (f (repr_from_input i))) InputNotFound in
  Ok (saturating_add ofs o).
Definition input_offset_pointer tx ofs b p (f : Input -> option Z) : outcome PanicReason Z :=
  let? o := ok_or (input_if tx b p ≫= fun i => in_input tx b (f i)) InputNotFound in
  Ok (saturating_add ofs o).
Definition input_value tx b p (f : Input -> option Z) : outcome PanicReason Z :=
  ok_or (input_if tx b p ≫= f) InputNotFound.
Definition output_pointer tx ofs b p (f : OutputRepr -> option Z) : outcome PanicReason Z :=
  let? o := ok_or (output_if tx b p ≫= fun i => in_output tx b (f (from_output i))) OutputNotFound in
  Ok (saturating_add ofs o).
Definition policy_field tx (p : PolicyType) : outcome PanicReason Z :=
  ok_or (policies_get (tx_policies tx) p) PolicyIsNotSet.

Definition specific_field (tx : ExecutableTxType) (ofs b : Z) (args : GTFArgs) : outcome PanicReason Z :=
  match tx, args with
  | ExTx_Script s, GTF_ScriptLength => Ok (zlen (script s))
  | ExTx_Script s, GTF_ScriptDataLength => Ok (zlen (script_data s))
  | ExTx_Script s, GTF_Script => Ok (saturating_add ofs script_offset_static)
  | ExTx_Script s, GTF_ScriptData => Ok (saturating_add ofs (script_data_offset s))
  | ExTx_Create c, GTF_CreateBytecodeWitnessIndex => Ok (bytecode_witness_index c)
  | ExTx_Create c, GTF_CreateStorageSlotsCount => Ok (zlen (storage_slots c))
  | ExTx_Create c, GTF_CreateSalt => Ok (saturating_add ofs salt_offset_static)
  | ExTx_Create c, GTF_CreateStorageSlotAtIndex =>
      let? o := ok_or (storage_slots_offset_at c b) StorageSlotsNotFound in
      Ok (saturating_add ofs o)
  | ExTx_Blob x, GTF_BlobId => Ok (saturating_add ofs blob_id_offset_static)
  | ExTx_Blob x, GTF_BlobWitnessIndex => Ok (blob_witness_index x)
  | ExTx_Upload u, GTF_UploadRoot => Ok (saturating_add ofs bytecode_root_offset_static)
  | ExTx_Upload u, GTF_UploadWitnessIndex => Ok (upload_witness_index u)
  | ExTx_Upload u, GTF_UploadSubsectionIndex => Ok (upload_subsection_index u)
  | ExTx_Upload u, GTF_UploadSubsectionsCount => Ok (upload_subsections_number u)
  | ExTx_Upload u, GTF_UploadProofSetCount => Ok (zlen (upload_proof_set u))
  | ExTx_Upload u, GTF_UploadProofSetAtIndex =>
      let? o := ok_or (proof_set_offset_at u b) ProofInUploadNotFound in
      Ok (saturating_add ofs o)
  | ExTx_Upgrade p, GTF_UpgradePurpose => Ok (saturating_add ofs upgrade_purpose_offset_static)
  | _, _ => Err InvalidMetadataIdentifier
  end.

Definition transaction_field tx (input_contract_to_output_index : gmap Z Z) (ofs tx_size : Z)
    (b : Z) (args : GTFArgs) : outcome PanicReason Z :=
  match args with
  | GTF_Type => Ok (tx_repr_to transaction_type)
  | GTF_ScriptGasLimit =>
      Ok (match executable_type (tx_body tx) with ExTx_Script s => script_gas_limit s | _ => 0 end)
  | GTF_PolicyTypes => Ok (pol_bits (tx_policies tx))
  | GTF_PolicyTip => policy_field tx Tip
  | GTF_PolicyWitnessLimit => policy_field tx WitnessLimit
  | GTF_PolicyMaturity => policy_field tx Maturity
  | GTF_PolicyExpiration => policy_field tx Expiration
  | GTF_PolicyMaxFee => policy_field tx MaxFee
  | GTF_ScriptInputsCount | GTF_CreateInputsCount | GTF_TxInputsCount => Ok (zlen (tx_inputs tx))
  | GTF_ScriptOutputsCount | GTF_CreateOutputsCount | GTF_TxOutputsCount => Ok (zlen (tx_outputs tx))
  | GTF_ScriptWitnessesCount | GTF_CreateWitnessesCount | GTF_TxWitnessesCount =>
      Ok (zlen (tx_witnesses tx))
  | GTF_ScriptInputAtIndex | GTF_CreateInputAtIndex | GTF_TxInputAtIndex =>
      let? o := ok_or (inputs_offset_at tx b) InputNotFound in
      Ok (saturating_add ofs o)
  | GTF_ScriptOutputAtIndex | GTF_CreateOutputAtIndex | GTF_TxOutputAtIndex =>
      let? o := ok_or (outputs_offset_at tx b) OutputNotFound in
      Ok (saturating_add ofs o)
  | GTF_ScriptWitnessAtIndex | GTF_CreateWitnessAtIndex | GTF_TxWitnessAtIndex =>
      let? o := ok_or (witnesses_offset_at tx b) WitnessNotFound in
      Ok (saturating_add ofs o)
  | GTF_TxLength => Ok tx_size
  | GTF_InputType =>
      let? i := ok_or (zget (tx_inputs tx) b) InputNotFound in
      Ok (input_repr_to (repr_from_input i))
  | GTF_InputCoinTxId => input_pointer tx ofs b Inp.is_coin InpOff.utxo_id_offset
  | GTF_InputCoinOutputIndex =>
      input_value tx b Inp.is_coin (fun i => utxo_output_index <$> Inp.utxo_id i)
  | GTF_InputCoinOwner => input_pointer tx ofs b Inp.is_coin InpOff.owner_offset
  | GTF_InputCoinAmount => input_value tx b Inp.is_coin Inp.amount
  | GTF_InputCoinAssetId => input_pointer tx ofs b Inp.is_coin InpOff.asset_id_offset
  | GTF_InputCoinTxPointer => input_pointer tx ofs b Inp.is_coin InpOff.tx_pointer_offset
  | GTF_InputCoinWitnessIndex => input_value tx b Inp.is_coin Inp.witness_index
  | GTF_InputCoinPredicateLength => input_value tx b Inp.is_coin Inp.predicate_len
  | GTF_InputCoinPredicateDataLength => input_value tx b Inp.is_coin Inp.predicate_data_len
  | GTF_InputCoinPredicateGasUsed => input_value tx b Inp.is_coin Inp.predicate_gas_used
  | GTF_InputCoinPredicate => input_offset_pointer tx ofs b Inp.is_coin InpOff.predicate_offset
  | GTF_InputCoinPredicateData =>
      input_offset_pointer tx ofs b Inp.is_coin InpOff.predicate_data_offset
  | GTF_InputContractTxId => input_pointer tx ofs b is_contract InpOff.utxo_id_offset
  | GTF_InputContractOutputIndex =>
      if U16 <=? b then Err InvalidMetadataIdentifier
      else ok_or (input_contract_to_output_index !! b) InputNotFound
  | GTF_InputContractId => input_pointer tx ofs b is_contract InpOff.contract_id_offset
  | GTF_InputMessageSender => input_pointer tx ofs b is_message InpOff.message_sender_offset
  | GTF_InputMessageRecipient => input_pointer tx ofs b is_message InpOff.message_recipient_offset
  | GTF_InputMessageAmount => input_value tx b is_message Inp.amount
  | GTF_InputMessageNonce => input_pointer tx ofs b is_message InpOff.message_nonce_offset
  | GTF_InputMessageWitnessIndex => input_value tx b is_message Inp.witness_index
  | GTF_InputMessageDataLength => input_value tx b is_message Inp.input_data_len
  | GTF_InputMessagePredicateLength => input_value tx b is_message Inp.predicate_len
  | GTF_InputMessagePredicateDataLength => input_value tx b is_message Inp.predicate_data_len
  | GTF_InputMessagePredicateGasUsed => input_value tx b is_message Inp.predicate_gas_used
  | GTF_InputMessageData => input_pointer tx ofs b is_message InpOff.data_offset
  | GTF_InputMessagePredicate => input_offset_pointer tx ofs b is_message InpOff.predicate_offset
  | GTF_InputMessagePredicateData =>
      input_offset_pointer tx ofs b is_message InpOff.predicate_data_offset
  | GTF_OutputType =>
      let? o := ok_or (zget (tx_outputs tx) b) OutputNotFound in
      Ok (output_repr_to (from_output o))
  | GTF_OutputCoinTo =>
      output_pointer tx ofs b (fun o => output_is_coin o || output_is_change o) OutOff.to_offset
  | GTF_OutputCoinAmount => ok_or (output_if tx b output_is_coin ≫= output_amount) OutputNotFound
  | GTF_OutputCoinAssetId =>
      output_pointer tx ofs b (fun o => output_is_coin o || output_is_change o) OutOff.asset_id_offset
  | GTF_OutputContractInputIndex =>
      ok_or (output_if tx b output_is_contract ≫= output_input_index) InputNotFound
  | GTF_OutputContractCreatedContractId =>
      output_pointer tx ofs b output_is_contract_created OutOff.contract_id_offset
  | GTF_OutputContractCreatedStateRoot =>
      output_pointer tx ofs b output_is_contract_created OutOff.contract_created_state_root_offset
  | GTF_WitnessDataLength =>
      let? w := ok_or (zget (tx_witnesses tx) b) WitnessNotFound in Ok (zlen w)
  | GTF_WitnessData =>
      let? w := ok_or (witnesses_offset_at tx b) WitnessNotFound in
      Ok (saturating_add (saturating_add ofs w) WORD_SIZE)
  | specific_args => specific_field (executable_type (tx_body tx)) ofs b specific_args
  end.

(** The handler: the size of the transaction is the word below its bytes. *)
Definition tx_size_in_memory {S} (vm : Interpreter S) : outcome RuntimeError Z :=
  match checked_sub (tx_offset (interpreter_params vm)) 8 with
  | None => Crash
  | Some tx_size_ptr =>
      match read_bytes (memory vm) tx_size_ptr 8 with
      | Ok w => Ok (from_be_bytes w)
      | _ => Crash
      end
  end.
Definition get_transaction_field {S} tx (input_contract_to_output_index : gmap Z Z) (ra b imm : Z) : M S unit :=
  tx_offset <- gets (fun vm => tx_offset (interpreter_params vm)) ;;
  size <- gets tx_size_in_memory ;;
  tx_size <- lift size ;;
  result <- lift_panic (write_reg_key ra) ;;
  args <- lift_panic (ok_or (gtf_try_from imm) InvalidMetadataIdentifier) ;;
  a <- lift_panic (transaction_field tx input_contract_to_output_index tx_offset tx_size b args) ;;
  put_reg result a ;;;
  inc_pc.
End GTF.

(** ** The specification *)

(** A field is a value, or bytes of the encoded transaction. *)
Inductive Field : Type := Value (v : Z) | Bytes (l : list byte).

Section Spec.
Context {Body : Type} `{!ExecutableBody Body}.
Implicit Types (tx : Chargeable Body).

Definition coin_at tx b (f : Input -> option Field) : outcome PanicReason Field :=
  ok_or (input_if tx b Inp.is_coin ≫= f) InputNotFound.
Definition contract_at tx b (f : InputContract -> Field) : outcome PanicReason Field :=
  match zget (tx_inputs tx) b with Some (Input_Contract c) => Ok (f c) | _ => Err InputNotFound end.
Definition message_at tx b (f : Input -> option Field) : outcome PanicReason Field :=
  ok_or (input_if tx b is_message ≫= f) InputNotFound.
Definition val (f : Input -> option Z) (i : Input) : option Field := Value <$> f i.
Definition raw (f : Input -> option (list byte)) (i : Input) : option Field := Bytes <$> f i.
Definition padded_raw (f : Input -> option (list byte)) (i : Input) : option Field :=
  (fun l => Bytes (padded_bytes l)) <$> f i.

Definition specific_of (tx : ExecutableTxType) (b : Z) (args : GTFArgs) : outcome PanicReason Field :=
  match tx, args with
  | ExTx_Script s, GTF_ScriptLength => Ok (Value (zlen (script s)))
  | ExTx_Script s, GTF_ScriptDataLength => Ok (Value (zlen (script_data s)))
  | ExTx_Script s, GTF_Script => Ok (Bytes (padded_bytes (script s)))
  | ExTx_Script s, GTF_ScriptData => Ok (Bytes (padded_bytes (script_data s)))
  | ExTx_Create c, GTF_CreateBytecodeWitnessIndex => Ok (Value (bytecode_witness_index c))
  | ExTx_Create c, GTF_CreateStorageSlotsCount => Ok (Value (zlen (storage_slots c)))
  | ExTx_Create c, GTF_CreateSalt => Ok (Bytes (salt c))
  | ExTx_Create c, GTF_CreateStorageSlotAtIndex =>
      let? s := ok_or (zget (storage_slots c) b) StorageSlotsNotFound in
      Ok (Bytes (slot_key s ++ slot_value s))
  | ExTx_Blob x, GTF_BlobId => Ok (Bytes (blob_body_id x))
  | ExTx_Blob x, GTF_BlobWitnessIndex => Ok (Value (blob_witness_index x))
  | ExTx_Upload u, GTF_UploadRoot => Ok (Bytes (upload_root u))
  | ExTx_Upload u, GTF_UploadWitnessIndex => Ok (Value (upload_witness_index u))
  | ExTx_Upload u, GTF_UploadSubsectionIndex => Ok (Value (upload_subsection_index u))
  | ExTx_Upload u, GTF_UploadSubsectionsCount => Ok (Value (upload_subsections_number u))
  | ExTx_Upload u, GTF_UploadProofSetCount => Ok (Value (zlen (upload_proof_set u)))
  | ExTx_Upload u, GTF_UploadProofSetAtIndex =>
      let? p := ok_or (zget (upload_proof_set u) b) ProofInUploadNotFound in Ok (Bytes p)
  | ExTx_Upgrade (Upgrade_ConsensusParameters w c), GTF_UpgradePurpose => Ok (Bytes (b64 0 ++ b16 w ++ c))
  | ExTx_Upgrade (Upgrade_StateTransition r), GTF_UpgradePurpose => Ok (Bytes (b64 1 ++ r))
  | _, _ => Err InvalidMetadataIdentifier
  end.

Definition policy_of tx p : outcome PanicReason Field :=
  ok_or (Value <$> policies_get (tx_policies tx) p) PolicyIsNotSet.

(** The field that a selector names. *)
Definition field_of tx (output_of_contract : gmap Z Z) (tx_size b : Z) (args : GTFArgs)
  : outcome PanicReason Field :=
  match args with
  | GTF_Type => Ok (Value (tx_repr_to transaction_type))
  | GTF_ScriptGasLimit =>
      Ok (Value (match executable_type (tx_body tx) with ExTx_Script s => script_gas_limit s | _ => 0 end))
  | GTF_PolicyTypes => Ok (Value (pol_bits (tx_policies tx)))
  | GTF_PolicyTip => policy_of tx Tip
  | GTF_PolicyWitnessLimit => policy_of tx WitnessLimit
  | GTF_PolicyMaturity => policy_of tx Maturity
  | GTF_PolicyExpiration => policy_of tx Expiration
  | GTF_PolicyMaxFee => policy_of tx MaxFee
  | GTF_ScriptInputsCount | GTF_CreateInputsCount | GTF_TxInputsCount => Ok (Value (zlen (tx_inputs tx)))
  | GTF_ScriptOutputsCount | GTF_CreateOutputsCount | GTF_TxOutputsCount => Ok (Value (zlen (tx_outputs tx)))
  | GTF_ScriptWitnessesCount | GTF_CreateWitnessesCount | GTF_TxWitnessesCount =>
      Ok (Value (zlen (tx_witnesses tx)))
  | GTF_ScriptInputAtIndex | GTF_CreateInputAtIndex | GTF_TxInputAtIndex =>
      let? i := ok_or (zget (tx_inputs tx) b) InputNotFound in Ok (Bytes (input_bytes i))
  | GTF_ScriptOutputAtIndex | GTF_CreateOutputAtIndex | GTF_TxOutputAtIndex =>
      let? o := ok_or (zget (tx_outputs tx) b) OutputNotFound in Ok (Bytes (output_bytes o))
  | GTF_ScriptWitnessAtIndex | GTF_CreateWitnessAtIndex | GTF_TxWitnessAtIndex =>
      let? w := ok_or (zget (tx_witnesses tx) b) WitnessNotFound in Ok (Bytes (len_bytes w ++ padded_bytes w))
  | GTF_TxLength => Ok (Value tx_size)
  | GTF_InputType =>
      let? i := ok_or (zget (tx_inputs tx) b) InputNotFound in Ok (Value (input_repr_to (repr_from_input i)))
  | GTF_InputCoinTxId => coin_at tx b (raw (fun i => utxo_tx_id <$> Inp.utxo_id i))
  | GTF_InputCoinOutputIndex => coin_at tx b (val (fun i => utxo_output_index <$> Inp.utxo_id i))
  | GTF_InputCoinOwner => coin_at tx b (raw Inp.input_owner)
  | GTF_InputCoinAmount => coin_at tx b (val Inp.amount)
  | GTF_InputCoinAssetId => coin_at tx b (raw (fun i => Inp.asset_id i []))
  | GTF_InputCoinTxPointer => coin_at tx b (raw (fun i => pointer_bytes <$> Inp.tx_pointer i))
  | GTF_InputCoinWitnessIndex => coin_at tx b (val Inp.witness_index)
  | GTF_InputCoinPredicateLength => coin_at tx b (val Inp.predicate_len)
  | GTF_InputCoinPredicateDataLength => coin_at tx b (val Inp.predicate_data_len)
  | GTF_InputCoinPredicateGasUsed => coin_at tx b (val Inp.predicate_gas_used)
  | GTF_InputCoinPredicate => coin_at tx b (padded_raw Inp.input_predicate)
  | GTF_InputCoinPredicateData => coin_at tx b (padded_raw Inp.input_predicate_data)
  | GTF_InputContractTxId => contract_at tx b (fun c => Bytes (utxo_tx_id (inc_utxo_id c)))
  | GTF_InputContractOutputIndex =>
      if U16 <=? b then Err InvalidMetadataIdentifier
      else ok_or (Value <$> output_of_contract !! b) InputNotFound
  | GTF_InputContractId => contract_at tx b (fun c => Bytes (inc_contract_id c))
  | GTF_InputMessageSender => message_at tx b (raw Inp.sender)
  | GTF_InputMessageRecipient => message_at tx b (raw Inp.recipient)
  | GTF_InputMessageAmount => message_at tx b (val Inp.amount)
  | GTF_InputMessageNonce => message_at tx b (raw Inp.nonce)
  | GTF_InputMessageWitnessIndex => message_at tx b (val Inp.witness_index)
  | GTF_InputMessageDataLength => message_at tx b (val Inp.input_data_len)
  | GTF_InputMessagePredicateLength => message_at tx b (val Inp.predicate_len)
  | GTF_InputMessagePredicateDataLength => message_at tx b (val Inp.predicate_data_len)
  | GTF_InputMessagePredicateGasUsed => message_at tx b (val Inp.predicate_gas_used)
  | GTF_InputMessageData =>
      message_at tx b (fun i => Some (Bytes (padded_bytes (default [] (Inp.input_data i)))))
  | GTF_InputMessagePredicate => message_at tx b (padded_raw Inp.input_predicate)
  | GTF_InputMessagePredicateData => message_at tx b (padded_raw Inp.input_predicate_data)
  | GTF_OutputType =>
      let? o := ok_or (zget (tx_outputs tx) b) OutputNotFound in Ok (Value (output_repr_to (from_output o)))
  | GTF_OutputCoinTo =>
      match zget (tx_outputs tx) b with
      | Some (Output_Coin t _ _) | Some (Output_Change t _ _) => Ok (Bytes t)
      | _ => Err OutputNotFound
      end
  | GTF_OutputCoinAmount =>
      match zget (tx_outputs tx) b with
      | Some (Output_Coin _ a _) => Ok (Value a)
      | _ => Err OutputNotFound
      end
  | GTF_OutputCoinAssetId =>
      match zget (tx_outputs tx) b with
      | Some (Output_Coin _ _ i) | Some (Output_Change _ _ i) => Ok (Bytes i)
      | _ => Err OutputNotFound
      end
  | GTF_OutputContractInputIndex =>
      match zget (tx_outputs tx) b with
      | Some (Output_Contract c) => Ok (Value (outc_input_index c))
      | _ => Err InputNotFound
      end
  | GTF_OutputContractCreatedContractId =>
      match zget (tx_outputs tx) b with
      | Some (Output_ContractCreated c _) => Ok (Bytes c)
      | _ => Err OutputNotFound
      end
  | GTF_OutputContractCreatedStateRoot =>
      match zget (tx_outputs tx) b with
      | Some (Output_ContractCreated _ s) => Ok (Bytes s)
      | _ => Err OutputNotFound
      end
  | GTF_WitnessDataLength =>
      let? w := ok_or (zget (tx_witnesses tx) b) WitnessNotFound in Ok (Value (zlen w))
  | GTF_WitnessData =>
      let? w := ok_or (zget (tx_witnesses tx) b) WitnessNotFound in Ok (Bytes (padded_bytes w))
  | specific_args => specific_of (executable_type (tx_body tx)) b specific_args
  end.
End Spec.

(** ** The instruction returns the field *)

(** [r] is the value of the field [f], or the address of its bytes. *)
Definition gtf_matches (bs : list byte) (ofs : Z) (r : outcome PanicReason Z) (f : outcome PanicReason Field)
  : Prop :=
  match f with
  | Ok (Value v) => r = Ok v
  | Ok (Bytes x) => exists o, r = Ok (ofs + o) /\ at_offset bs o x
  | Err e => r = Err e
  | Crash => False
  end.

Lemma at_offset_le {A} (bs : list A) o x : at_offset bs o x -> 0 <= o <= zlen bs.
Proof.
  intros (p & q & -> & <-). rewrite !zlen_app. pose proof (zlen_nonneg p). pose proof (zlen_nonneg x).
  pose proof (zlen_nonneg q). lia.
Qed.

Lemma zget_range {A} (l : list A) b :
  0 <= b -> match zget l b with
            | Some x => (b <? zlen l) = true /\ l !! Z.to_nat b = Some x
            | None => (b <? zlen l) = false
            end.
Proof.
  intros Hb. destruct (zget l b) as [x|] eqn:E.
  - apply zget_lookup in E as [Hr Hx]. split; [lia|done].
  - unfold zget in E. destruct (b <? 0) eqn:E0; [lia|]. apply lookup_ge_None_1 in E. unfold zlen. lia.
Qed.

Section Common.
Context `{Alloc} `{!ExactAlloc} {Body : Type} (c : Codec Body) (body_ok : Body -> Prop)
  `{!BodyOffset Body} (Hlaw : lawful c body_ok) `{!BodyOffsetLaw c body_ok}.
Context (t : Chargeable Body) (bs : list byte) (ofs b : Z).
Hypothesis Ht : chargeable_ok body_ok t.
Hypothesis Hbs : encode (c_chargeable c) t = Ok bs.
Hypothesis Hofs : 0 <= ofs.
Hypothesis Hfit : ofs + zlen bs < U64.
Hypothesis Hb : 0 <= b.

Lemma bytes_fit : zlen bs <= USIZE_MAX.
Proof. unfold USIZE_MAX. lia. Qed.

Lemma pointer_matches o x : at_offset bs o x -> saturating_add ofs o = ofs + o.
Proof. intros Hx. apply at_offset_le in Hx. unfold saturating_add. lia. Qed.

Lemma input_found :
  match zget (tx_inputs t) b with
  | Some i => input_ok i /\ exists o, inputs_offset_at t b = Some o /\ at_offset bs o (input_bytes i)
  | None => inputs_offset_at t b = None
  end.
Proof.
  pose proof (zget_range (tx_inputs t) b Hb) as Hz. unfold inputs_offset_at.
  destruct (zget (tx_inputs t) b) as [i|]; [|by rewrite Hz]. destruct Hz as [-> Hi].
  assert (Hok : input_ok i).
  { destruct Ht as (_ & _ & [_ Hf] & _). rewrite Forall_forall in Hf. by eapply Hf, list_elem_of_lookup_2. }
  split; [done|]. eexists. split; [reflexivity|].
  destruct (vectors_layout c body_ok Hlaw t bs Ht Hbs bytes_fit) as (pre & bi & bo & bw & E & Ei & _ & _ & Hin & _).
  destruct (element_at _ _ i (Z.to_nat b) (inputs_offset t) pre bi (bo ++ bw) bs Ei Hi E Hin bytes_fit) as (e & Ee & He).
  rewrite (encode_input i Hok) in Ee. by injection Ee as <-.
Qed.

Lemma output_found :
  match zget (tx_outputs t) b with
  | Some i => output_ok i /\ exists o, outputs_offset_at t b = Some o /\ at_offset bs o (output_bytes i)
  | None => outputs_offset_at t b = None
  end.
Proof.
  pose proof (zget_range (tx_outputs t) b Hb) as Hz. unfold outputs_offset_at.
  destruct (zget (tx_outputs t) b) as [i|]; [|by rewrite Hz]. destruct Hz as [-> Hi].
  assert (Hok : output_ok i).
  { destruct Ht as (_ & _ & _ & [_ Hf] & _). rewrite Forall_forall in Hf. by eapply Hf, list_elem_of_lookup_2. }
  split; [done|]. eexists. split; [reflexivity|].
  destruct (vectors_layout c body_ok Hlaw t bs Ht Hbs bytes_fit) as (pre & bi & bo & bw & E & _ & Eo & _ & _ & Ho & _).
  destruct (element_at _ _ i (Z.to_nat b) (outputs_offset t) (pre ++ bi) bo bw bs Eo Hi) as (e & Ee & He);
    [by rewrite <- app_assoc|by rewrite zlen_app|apply bytes_fit|].
  rewrite (encode_output i) in Ee. by injection Ee as <-.
Qed.

Lemma witness_found :
  match zget (tx_witnesses t) b with
  | Some w => exists o, witnesses_offset_at t b = Some o /\ at_offset bs o (len_bytes w ++ padded_bytes w)
  | None => witnesses_offset_at t b = None
  end.
Proof.
  pose proof (zget_range (tx_witnesses t) b Hb) as Hz. unfold witnesses_offset_at.
  destruct (zget (tx_witnesses t) b) as [i|]; [|by rewrite Hz]. destruct Hz as [-> Hi].
  assert (Hok : vec_ok i).
  { destruct Ht as (_ & _ & _ & _ & [_ Hf]). rewrite Forall_forall in Hf. by eapply Hf, list_elem_of_lookup_2. }
  eexists. split; [reflexivity|].
  destruct (vectors_layout c body_ok Hlaw t bs Ht Hbs bytes_fit) as (pre & bi & bo & bw & E & _ & _ & Ew & _ & _ & Hw).
  destruct (element_at _ _ i (Z.to_nat b) (witnesses_offset t) (pre ++ bi ++ bo) bw [] bs Ew Hi) as (e & Ee & He);
    [by rewrite app_nil_r, <- !app_assoc|rewrite !zlen_app; lia|apply bytes_fit|].
  destruct (encodes_all _ _ _ _ _ (c_bytes_encodes i Hok)) as (E' & _). rewrite E' in Ee. by injection Ee as <-.
Qed.

(** A field at a fixed place of an input. *)
Lemma input_pointer_matches p (f : Input -> option Z) (g : Input -> option Field) :
  (forall i, input_ok i -> p i = true ->
     match f i with
     | Some k => exists x, g i = Some (Bytes x) /\ at_offset (input_bytes i) k x
     | None => g i = None
     end) ->
  gtf_matches bs ofs (input_offset_pointer t ofs b p f) (ok_or (input_if t b p ≫= g) InputNotFound).
Proof.
  intros Hf. unfold input_offset_pointer, input_if, in_input. pose proof input_found as Hi.
  destruct (zget (tx_inputs t) b) as [i|]; [|done]. destruct Hi as [Hok (o & -> & Ho)].
  destruct (p i) eqn:Ep; [|done]. specialize (Hf i Hok Ep). cbn [mbind option_bind].
  destruct (f i) as [k|]; [|by rewrite Hf]. destruct Hf as (x & -> & Hx). cbn.
  pose proof (at_offset_in _ _ _ _ _ Ho Hx) as Hin. pose proof (at_offset_le _ _ _ Hin). pose proof (at_offset_le _ _ _ Ho).
  assert (saturating_add o k = o + k) as -> by (unfold saturating_add; lia).
  exists (o + k). split; [|done]. by rewrite (pointer_matches _ _ Hin).
Qed.

Lemma input_value_matches p (f : Input -> option Z) :
  gtf_matches bs ofs (input_value t b p f) (ok_or (input_if t b p ≫= val f) InputNotFound).
Proof.
  unfold input_value, val. destruct (input_if t b p) as [i|]; [|done]. cbn [mbind option_bind].
  by destruct (f i).
Qed.

Lemma output_pointer_matches p (f : OutputRepr -> option Z) (g : Output -> option Field) :
  (forall i, output_ok i -> p i = true ->
     match f (from_output i) with
     | Some k => exists x, g i = Some (Bytes x) /\ at_offset (output_bytes i) k x
     | None => g i = None
     end) ->
  gtf_matches bs ofs (output_pointer t ofs b p f) (ok_or (output_if t b p ≫= g) OutputNotFound).
Proof.
  intros Hf. unfold output_pointer, output_if, in_output. pose proof output_found as Hi.
  destruct (zget (tx_outputs t) b) as [i|]; [|done]. destruct Hi as [Hok (o & -> & Ho)].
  destruct (p i) eqn:Ep; [|done]. specialize (Hf i Hok Ep). cbn [mbind option_bind].
  destruct (f (from_output i)) as [k|]; [|by rewrite Hf]. destruct Hf as (x & -> & Hx). cbn.
  pose proof (at_offset_in _ _ _ _ _ Ho Hx) as Hin. pose proof (at_offset_le _ _ _ Hin). pose proof (at_offset_le _ _ _ Ho).
  assert (saturating_add o k = o + k) as -> by (unfold saturating_add; lia).
  exists (o + k). split; [|done]. by rewrite (pointer_matches _ _ Hin).
Qed.

(** Whole inputs, outputs and witnesses. *)
Lemma whole_matches (o : option Z) e x :
  match x with
  | Some y => exists k, o = Some k /\ at_offset bs k y
  | None => o = None
  end ->
  gtf_matches bs ofs (let? o := ok_or o e in Ok (saturating_add ofs o)) (let? y := ok_or x e in Ok (Bytes y)).
Proof.
  destruct x as [y|]; [intros (k & -> & Hk)|by intros ->]. cbn. exists k. split; [|done].
  by rewrite (pointer_matches _ _ Hk).
Qed.

Lemma input_whole :
  gtf_matches bs ofs (let? o := ok_or (inputs_offset_at t b) InputNotFound in Ok (saturating_add ofs o))
    (let? i := ok_or (zget (tx_inputs t) b) InputNotFound in Ok (Bytes (input_bytes i))).
Proof.
  pose proof input_found as Hi. pose proof (whole_matches (inputs_offset_at t b) InputNotFound (input_bytes <$> zget (tx_inputs t) b)) as Hw.
  destruct (zget (tx_inputs t) b) as [i|]; apply Hw; [apply Hi|exact Hi].
Qed.
Lemma output_whole :
  gtf_matches bs ofs (let? o := ok_or (outputs_offset_at t b) OutputNotFound in Ok (saturating_add ofs o))
    (let? i := ok_or (zget (tx_outputs t) b) OutputNotFound in Ok (Bytes (output_bytes i))).
Proof.
  pose proof output_found as Hi. pose proof (whole_matches (outputs_offset_at t b) OutputNotFound (output_bytes <$> zget (tx_outputs t) b)) as Hw.
  destruct (zget (tx_outputs t) b) as [i|]; apply Hw; [apply Hi|exact Hi].
Qed.
Lemma witness_whole :
  gtf_matches bs ofs (let? o := ok_or (witnesses_offset_at t b) WitnessNotFound in Ok (saturating_add ofs o))
    (let? w := ok_or (zget (tx_witnesses t) b) WitnessNotFound in Ok (Bytes (len_bytes w ++ padded_bytes w))).
Proof.
  pose proof witness_found as Hi.
  pose proof (whole_matches (witnesses_offset_at t b) WitnessNotFound
    ((fun w => len_bytes w ++ padded_bytes w) <$> zget (tx_witnesses t) b)) as Hw.
  destruct (zget (tx_witnesses t) b) as [i|]; apply Hw; exact Hi.
Qed.
Lemma witness_data :
  gtf_matches bs ofs (let? w := ok_or (witnesses_offset_at t b) WitnessNotFound in
                      Ok (saturating_add (saturating_add ofs w) WORD_SIZE))
    (let? w := ok_or (zget (tx_witnesses t) b) WitnessNotFound in Ok (Bytes (padded_bytes w))).
Proof.
  pose proof witness_found as Hi. destruct (zget (tx_witnesses t) b) as [w|]; [|by rewrite Hi].
  destruct Hi as (o & -> & Ho). cbn [ok_or obind gtf_matches].
  assert (Hin : at_offset bs (o + 8) (padded_bytes w)).
  { eapply at_offset_in; [exact Ho|]. rewrite <- (zlen_len_bytes w). apply after_last. }
  exists (o + 8). split; [|done]. rewrite (pointer_matches _ _ Ho).
  apply at_offset_le in Hin, Ho. unfold saturating_add, WORD_SIZE. f_equal. lia.
Qed.

(** Fields of inputs. *)
Ltac input_field fields :=
  apply input_pointer_matches; intros [c0|c0|c0|m|m|m|m] Hi Hp; try done;
  cbn [repr_from_input InpOff.utxo_id_offset InpOff.owner_offset InpOff.asset_id_offset InpOff.tx_pointer_offset
    InpOff.contract_id_offset InpOff.message_sender_offset InpOff.message_recipient_offset
    InpOff.message_nonce_offset InpOff.data_offset input_bytes];
  (eexists; split; [reflexivity|]); fields Hi.
Ltac coin_field Hi := first [apply at_left, coin_fields_at, Hi | apply coin_fields_at, Hi].
Ltac message_field Hi := first [apply at_left, message_fields_at, Hi | apply message_fields_at, Hi].
Ltac contract_field Hi := apply contract_fields_at, Hi.

Lemma coin_pointers :
  gtf_matches bs ofs (input_pointer t ofs b Inp.is_coin InpOff.utxo_id_offset)
    (coin_at t b (raw (fun i => utxo_tx_id <$> Inp.utxo_id i))) /\
  gtf_matches bs ofs (input_pointer t ofs b Inp.is_coin InpOff.owner_offset) (coin_at t b (raw Inp.input_owner)) /\
  gtf_matches bs ofs (input_pointer t ofs b Inp.is_coin InpOff.asset_id_offset)
    (coin_at t b (raw (fun i => Inp.asset_id i []))) /\
  gtf_matches bs ofs (input_pointer t ofs b Inp.is_coin InpOff.tx_pointer_offset)
    (coin_at t b (raw (fun i => pointer_bytes <$> Inp.tx_pointer i))).
Proof. split_and!; input_field coin_field. Qed.

Lemma message_pointers :
  gtf_matches bs ofs (input_pointer t ofs b is_message InpOff.message_sender_offset) (message_at t b (raw Inp.sender)) /\
  gtf_matches bs ofs (input_pointer t ofs b is_message InpOff.message_recipient_offset)
    (message_at t b (raw Inp.recipient)) /\
  gtf_matches bs ofs (input_pointer t ofs b is_message InpOff.message_nonce_offset) (message_at t b (raw Inp.nonce)).
Proof. split_and!; input_field message_field. Qed.

Lemma contract_at_if f :
  contract_at t b f =
  ok_or (input_if t b is_contract ≫= fun i => if i is Input_Contract c then Some (f c) else None) InputNotFound.
Proof. unfold contract_at, input_if. destruct (zget (tx_inputs t) b) as [[]|]; done. Qed.

Lemma contract_pointers :
  gtf_matches bs ofs (input_pointer t ofs b is_contract InpOff.utxo_id_offset)
    (contract_at t b (fun c => Bytes (utxo_tx_id (inc_utxo_id c)))) /\
  gtf_matches bs ofs (input_pointer t ofs b is_contract InpOff.contract_id_offset)
    (contract_at t b (fun c => Bytes (inc_contract_id c))).
Proof. rewrite !contract_at_if. split; input_field contract_field. Qed.

Lemma predicate_pointers p :
  gtf_matches bs ofs (input_offset_pointer t ofs b p InpOff.predicate_offset)
    (ok_or (input_if t b p ≫= padded_raw Inp.input_predicate) InputNotFound) /\
  gtf_matches bs ofs (input_offset_pointer t ofs b p InpOff.predicate_data_offset)
    (ok_or (input_if t b p ≫= padded_raw Inp.input_predicate_data) InputNotFound).
Proof.
  split; apply input_pointer_matches; intros i Hi _; unfold padded_raw;
    (destruct (Inp.input_predicate i) as [pr|] eqn:E1, (Inp.input_predicate_data i) as [d|] eqn:E2;
      [|by destruct i|by destruct i|by destruct i]);
    destruct (predicate_at i pr d Hi E1 E2) as (o & o' & E3 & E4 & K1 & K2); rewrite ?E3, ?E4; eauto.
Qed.

Lemma at_end (e : list byte) k : zlen e = k -> at_offset e k [].
Proof. intros <-. exists e, []. by rewrite !app_nil_r. Qed.

Lemma data_pointer :
  gtf_matches bs ofs (input_pointer t ofs b is_message InpOff.data_offset)
    (message_at t b (fun i => Some (Bytes (padded_bytes (default [] (Inp.input_data i)))))).
Proof.
  apply input_pointer_matches. intros [c0|c0|c0|m|m|m|m] Hi Hp; try done; cbn [repr_from_input InpOff.data_offset];
    (eexists; split; [reflexivity|]).
  3, 4: by apply data_at.
  - apply at_end. destruct Hi. by apply zlen_message_static.
  - apply at_left, at_end. destruct Hi. by apply zlen_message_static.
Qed.

(** Fields of outputs. *)
Ltac output_field :=
  match goal with
  | |- gtf_matches _ _ (output_pointer _ _ _ ?p _) (match zget (tx_outputs t) b with _ => _ end) =>
      let o := fresh "o" in
      match goal with |- gtf_matches _ _ _ ?f =>
        first
          [replace f with (ok_or (output_if t b p ≫= fun o => match o with Output_Coin t _ _ | Output_Change t _ _ => Some (Bytes t) | _ => None end) OutputNotFound)
             by (unfold output_if; destruct (zget (tx_outputs t) b) as [[]|]; reflexivity)
          |replace f with (ok_or (output_if t b p ≫= fun o => match o with Output_Coin _ _ i | Output_Change _ _ i => Some (Bytes i) | _ => None end) OutputNotFound)
             by (unfold output_if; destruct (zget (tx_outputs t) b) as [[]|]; reflexivity)
          |replace f with (ok_or (output_if t b p ≫= fun o => match o with Output_ContractCreated c _ => Some (Bytes c) | _ => None end) OutputNotFound)
             by (unfold output_if; destruct (zget (tx_outputs t) b) as [[]|]; reflexivity)
          |replace f with (ok_or (output_if t b p ≫= fun o => match o with Output_ContractCreated _ s => Some (Bytes s) | _ => None end) OutputNotFound)
             by (unfold output_if; destruct (zget (tx_outputs t) b) as [[]|]; reflexivity)]
      end;
      apply output_pointer_matches; intros o Ho Hp; pose proof (output_fields_at o Ho) as Hf; destruct o; try done;
      (eexists; split; [reflexivity|]); apply Hf
  end.

Lemma output_pointers :
  gtf_matches bs ofs (output_pointer t ofs b (fun o => output_is_coin o || output_is_change o) OutOff.to_offset)
    (match zget (tx_outputs t) b with
     | Some (Output_Coin t _ _) | Some (Output_Change t _ _) => Ok (Bytes t)
     | _ => Err OutputNotFound
     end) /\
  gtf_matches bs ofs (output_pointer t ofs b (fun o => output_is_coin o || output_is_change o) OutOff.asset_id_offset)
    (match zget (tx_outputs t) b with
     | Some (Output_Coin _ _ i) | Some (Output_Change _ _ i) => Ok (Bytes i)
     | _ => Err OutputNotFound
     end) /\
  gtf_matches bs ofs (output_pointer t ofs b output_is_contract_created OutOff.contract_id_offset)
    (match zget (tx_outputs t) b with
     | Some (Output_ContractCreated c _) => Ok (Bytes c)
     | _ => Err OutputNotFound
     end) /\
  gtf_matches bs ofs (output_pointer t ofs b output_is_contract_created OutOff.contract_created_state_root_offset)
    (match zget (tx_outputs t) b with
     | Some (Output_ContractCreated _ s) => Ok (Bytes s)
     | _ => Err OutputNotFound
     end).
Proof. split_and!; output_field. Qed.
End Common.

(** ** Fields of the bodies *)

Lemma zlen_be8 x : zlen (to_be_bytes 8 x) = 8.
Proof. apply zlen_to_be_bytes. Qed.
Lemma zlen_pad32 : zlen (padding 32) = 0.
Proof. done. Qed.
Lemma zlen_bytes32 b : bytes32_ok b -> zlen b = 32.
Proof. done. Qed.
#[export] Hint Resolve zlen_be8 zlen_pad32 zlen_bytes32 : lens.

(** The bytes of a body: after its static part come 32 bytes of other fields, then its
    dynamic part. *)
Lemma body_bytes `{Alloc} `{!ExactAlloc} {Body} (c : Codec Body) body_ok t bs s bb db :
  lawful c body_ok -> chargeable_ok body_ok t -> encode (c_chargeable c) t = Ok bs ->
  encodes c (tx_body t) s bb db ->
  exists mid post, zlen mid = 32 /\ bs = bb ++ mid ++ db ++ post.
Proof.
  intros Hlaw Ht Hbs He.
  destruct (chargeable_layout c body_ok Hlaw t Ht) as (sb & bb' & db' & bp & dp & bi & bo & bw & Eb & Hbp & _ & _ & _ & _ & E).
  destruct (encodes_fun _ _ _ _ _ _ _ _ He Eb) as [-> ->].
  match type of E with _ = Ok ((_ ++ ?m) ++ _ ++ ?p) => exists m, p end. split.
  - by rewrite (zlen_app bp), Hbp, (zlen_app (to_be_bytes 8 _)), (zlen_app (to_be_bytes 8 _)), !zlen_be8.
  - rewrite <- app_assoc in E. congruence.
Qed.

Section Bodies.
Context `{Alloc} `{!ExactAlloc}.

(** What the fields of a body promise. *)
Class SpecificLaw {Body : Type} `{!ExecutableBody Body} (c : Codec Body) (body_ok : Body -> Prop) : Prop :=
  specific_matches (t : Chargeable Body) bs ofs b args :
    chargeable_ok body_ok t -> encode (c_chargeable c) t = Ok bs -> 0 <= ofs -> ofs + zlen bs < U64 -> 0 <= b ->
    gtf_matches bs ofs (specific_field (executable_type (tx_body t)) ofs b args)
      (specific_of (executable_type (tx_body t)) b args).

Lemma e_body {A} (c : Codec A) r x s bs bd :
  encodes c x s bs bd -> encodes (c_body c r) x s (to_be_bytes 8 (tx_repr_to r) ++ bs) bd.
Proof. intros He. apply c_prefixed_encodes; [by destruct r..|exact He]. Qed.

Lemma specific_pointer (bs : list byte) ofs o x :
  0 <= ofs -> ofs + zlen bs < U64 -> at_offset bs o x ->
  exists o', Ok (E := PanicReason) (saturating_add ofs o) = Ok (ofs + o') /\ at_offset bs o' x.
Proof.
  intros H1 H2 Hx. exists o. split; [|done]. by rewrite (pointer_matches bs ofs H2 o x Hx).
Qed.

Definition script_static (b : ScriptBody) : list byte :=
  b64 (script_gas_limit b) ++ (receipts_root_field b ++ padding 32) ++ len_bytes (script b) ++ len_bytes (script_data b).
Lemma e_script b :
  script_body_ok b ->
  exists s, encodes c_script_body b s (to_be_bytes 8 0 ++ script_static b) (padded_bytes (script b) ++ padded_bytes (script_data b)).
Proof.
  intros (Hg & Hr & Hs & Hd). destruct b as [g r sc d]. cbn in *. eexists.
  apply (e_body _ TxRepr_Script). eapply c_struct_encodes; [done| |]; cycle 1.
  - exact (c_pair_encodes _ _ _ _ _ _ _ _ _ _ (e_u64 _ Hg) (c_pair_encodes _ _ _ _ _ _ _ _ _ _ (e_bytes32 _ Hr)
      (c_pair_encodes _ _ _ _ _ _ _ _ _ _ (e_bytes _ Hs) (e_bytes _ Hd)))).
  - done.
Qed.

Lemma e_create b :
  create_body_ok b ->
  exists s db, encodes c_create_body b s
    (to_be_bytes 8 1 ++ b16 (bytecode_witness_index b) ++ (salt b ++ padding 32) ++ to_be_bytes 8 (zlen (storage_slots b))) db /\
    encodes_list c_storage_slot (storage_slots b) db.
Proof.
  intros (Hw & Hs & Hl & Hf). destruct b as [w sa l]. cbn in *.
  assert (Hslot : lawful c_storage_slot storage_slot_ok).
  { apply ex_lawful. intros x Hx. eexists. by apply s_storage_slot. }
  destruct (encodes_list_valid _ _ _ Hslot Hf) as [db Edb]. eexists _, db. split; [|exact Edb].
  apply (e_body _ TxRepr_Create). eapply c_struct_encodes; [done| |]; cycle 1.
  - exact (c_pair_encodes _ _ _ _ _ _ _ _ _ _ (e_u16 _ Hw) (c_pair_encodes _ _ _ _ _ _ _ _ _ _ (e_bytes32 _ Hs)
      (c_vec_encodes _ _ _ Hl Edb))).
  - done.
Qed.

Lemma e_upload b :
  upload_body_ok b ->
  exists s db, encodes c_upload_body b s
    (to_be_bytes 8 4 ++ (upload_root b ++ padding 32) ++ b16 (upload_witness_index b) ++
     b16 (upload_subsection_index b) ++ b16 (upload_subsections_number b) ++
     to_be_bytes 8 (zlen (upload_proof_set b))) db /\
    encodes_list c_bytes32 (upload_proof_set b) db.
Proof.
  intros (Hr & Hw & Hi & Hn & Hl & Hf). destruct b as [r w i n l]. cbn in *.
  assert (Hslot : lawful c_bytes32 bytes32_ok).
  { apply ex_lawful. intros x Hx. eexists. by apply s_bytes32. }
  destruct (encodes_list_valid _ _ _ Hslot Hf) as [db Edb]. eexists _, db. split; [|exact Edb].
  apply (e_body _ TxRepr_Upload). eapply c_struct_encodes; [done| |]; cycle 1.
  - exact (c_pair_encodes _ _ _ _ _ _ _ _ _ _ (e_bytes32 _ Hr) (c_pair_encodes _ _ _ _ _ _ _ _ _ _ (e_u16 _ Hw)
      (c_pair_encodes _ _ _ _ _ _ _ _ _ _ (e_u16 _ Hi) (c_pair_encodes _ _ _ _ _ _ _ _ _ _ (e_u16 _ Hn)
      (c_vec_encodes _ _ _ Hl Edb))))).
  - done.
Qed.

Lemma e_blob b :
  blob_body_ok b ->
  exists s, encodes c_blob_body b s (to_be_bytes 8 5 ++ (blob_body_id b ++ padding 32) ++ b16 (blob_witness_index b)) [].
Proof.
  intros (Hi & Hw). destruct b as [i w]. cbn in *. eexists.
  apply (e_body _ TxRepr_Blob). eapply c_struct_encodes; [done| |]; cycle 1.
  - exact (c_pair_encodes _ _ _ _ _ _ _ _ _ _ (e_bytes32 _ Hi) (e_u16 _ Hw)).
  - done.
Qed.

(** Vectors of elements whose encodings have the same length. *)
Lemma zlen_elements {T} (c : Codec T) k l bs :
  encodes_list c l bs -> (forall x, x ∈ l -> exists e, encode c x = Ok e /\ zlen e = k) -> zlen bs = zlen l * k.
Proof.
  induction 1 as [|x l s b1 b2 rest He Hl IH]; intros Hk; [done|].
  destruct (Hk x ltac:(set_solver)) as (e & Ee & Hlen). apply encodes_all in He as (E & _).
  assert (e = b1 ++ b2) as -> by congruence. rewrite (zlen_app (b1 ++ b2) rest), zlen_cons_succ, IH by set_solver. lia.
Qed.

#[export] Instance script_specific : SpecificLaw c_script_body script_body_ok.
Proof.
  intros t bs ofs b args Ht Hbs Hofs Hfit Hb. pose proof (proj1 Ht) as Hbody. pose proof Hbody as (Hg & Hr & Hs & Hd).
  destruct (e_script _ Hbody) as [s He].
  destruct (body_bytes _ _ t bs _ _ _ c_script_body_lawful Ht Hbs He) as (mid & post & Hmid & E).
  cbn [executable_type executable_script]. destruct args; try done; cbn [specific_field specific_of gtf_matches].
  - apply specific_pointer; [done..|]. rewrite E. unfold script_static. rewrite <- !app_assoc.
    change script_offset_static with 96. at_walk.
  - apply specific_pointer; [done..|]. unfold script_data_offset. rewrite sat_small by done.
    rewrite E, (app_assoc _ mid). apply after_static; [|apply at_left, after_last].
    unfold script_static. rewrite (zlen_app _ mid), Hmid, (zlen_app (to_be_bytes 8 0)), (zlen_app (b64 _)),
      (zlen_app (receipts_root_field _ ++ _)), (zlen_app (len_bytes _)), !zlen_len_bytes, zlen_b64, zlen_padded32, zlen_be8 by done.
    reflexivity.
Qed.

(** An element of a vector of the body. *)
Lemma body_element {T} (c : Codec T) k l db i x (pre post : list byte) ofs0 e :
  encodes_list c l db -> l !! i = Some x -> (forall y, y ∈ l -> exists e, encode c y = Ok e /\ zlen e = k) ->
  encode c x = Ok e -> zlen pre = ofs0 -> at_offset (pre ++ db ++ post) (ofs0 + Z.of_nat i * k) e.
Proof.
  intros Hl Hi Hk Ee <-. destruct (encodes_list_at c l db i x Hl Hi) as (p & e' & q & -> & Hp & He').
  assert (e' = e) as -> by congruence.
  assert (Hzp : zlen p = Z.of_nat i * k).
  { rewrite (zlen_elements c k _ p Hp) by (intros y Hy; apply Hk; by eapply take_sub).
    unfold zlen. rewrite length_take. apply lookup_lt_Some in Hi. rewrite Nat.min_l by lia. done. }
  exists (pre ++ p), (q ++ post). split; [by rewrite <- !app_assoc|]. by rewrite zlen_app, Hzp.
Qed.

Lemma index_offset base k b n : base = 88 \/ base = 104 -> 0 < k <= 64 -> 0 <= b < n -> n <= VEC_DECODE_LIMIT ->
  match checked_mul b k with Some o => checked_add base o | None => None end = Some (base + b * k).
Proof.
  intros Hbase Hk Hb Hn. unfold checked_mul, checked_add, VEC_DECODE_LIMIT in *.
  destruct (b * k <? U64) eqn:E1; [|exfalso; nia]. destruct (base + b * k <? U64) eqn:E2; [done|exfalso; nia].
Qed.

Lemma encode_slot s : storage_slot_ok s -> encode c_storage_slot s = Ok (slot_key s ++ slot_value s).
Proof.
  intros [H1 H2]. cut (encode c_storage_slot s = Ok (((slot_key s ++ []) ++ slot_value s ++ []) ++ [] ++ [])); [|reflexivity].
  by rewrite !app_nil_r.
Qed.
Lemma encode_bytes32 s : encode c_bytes32 s = Ok s.
Proof. cut (encode c_bytes32 s = Ok ((s ++ []) ++ [])); [|reflexivity]. by rewrite !app_nil_r. Qed.

#[export] Instance create_specific : SpecificLaw c_create_body create_body_ok.
Proof.
  intros t bs ofs b args Ht Hbs Hofs Hfit Hb. pose proof (proj1 Ht) as Hbody. pose proof Hbody as (Hw & Hs & Hl & Hf).
  destruct (e_create _ Hbody) as (s & db & He & Hdb).
  destruct (body_bytes _ _ t bs _ _ _ c_create_body_lawful Ht Hbs He) as (mid & post & Hmid & E).
  cbn [executable_type executable_create]. destruct args; try done; cbn [specific_field specific_of gtf_matches].
  - apply specific_pointer; [done..|]. rewrite E, <- !app_assoc. change salt_offset_static with 16. at_walk.
  - unfold storage_slots_offset_at. pose proof (zget_range (storage_slots (tx_body t)) b Hb) as Hz.
    destruct (zget (storage_slots (tx_body t)) b) as [x|]; [|by rewrite Hz]. destruct Hz as [Hlt Hx]. rewrite Hlt.
    change SLOT_SIZE with 64. change storage_slots_offset_static with 88.
    rewrite (index_offset 88 64 b (zlen (storage_slots (tx_body t)))) by (tauto || lia || exact Hl).
    cbn [ok_or obind gtf_matches]. apply specific_pointer; [done..|]. rewrite E, (app_assoc _ mid).
    replace b with (Z.of_nat (Z.to_nat b)) by lia. rewrite Forall_forall in Hf.
    eapply body_element; [exact Hdb|done| |apply encode_slot, Hf; by eapply list_elem_of_lookup_2|].
    + intros y Hy. specialize (Hf y Hy). eexists. split; [by apply encode_slot|]. destruct Hf as [H1 H2].
      by rewrite zlen_app, H1, H2.
    + rewrite (zlen_app _ mid), Hmid, (zlen_app (to_be_bytes 8 1)), (zlen_app (b16 _)), (zlen_app (salt _ ++ _)),
        zlen_padded32, zlen_b16, !zlen_be8 by done. done.
Qed.

#[export] Instance upload_specific : SpecificLaw c_upload_body upload_body_ok.
Proof.
  intros t bs ofs b args Ht Hbs Hofs Hfit Hb. pose proof (proj1 Ht) as Hbody.
  pose proof Hbody as (Hr & Hw & Hi & Hn & Hl & Hf).
  destruct (e_upload _ Hbody) as (s & db & He & Hdb).
  destruct (body_bytes _ _ t bs _ _ _ c_upload_body_lawful Ht Hbs He) as (mid & post & Hmid & E).
  cbn [executable_type executable_upload]. destruct args; try done; cbn [specific_field specific_of gtf_matches].
  - apply specific_pointer; [done..|]. rewrite E, <- !app_assoc. change bytecode_root_offset_static with 8. at_walk.
  - unfold proof_set_offset_at. pose proof (zget_range (upload_proof_set (tx_body t)) b Hb) as Hz.
    destruct (zget (upload_proof_set (tx_body t)) b) as [x|]; [|by rewrite Hz]. destruct Hz as [Hlt Hx]. rewrite Hlt.
    change LEN32 with 32. change proof_set_offset_static with 104.
    rewrite (index_offset 104 32 b (zlen (upload_proof_set (tx_body t)))) by (tauto || lia || exact Hl).
    cbn [ok_or obind gtf_matches]. apply specific_pointer; [done..|]. rewrite E, (app_assoc _ mid).
    replace b with (Z.of_nat (Z.to_nat b)) by lia. rewrite Forall_forall in Hf.
    eapply body_element; [exact Hdb|done| |apply encode_bytes32|].
    + intros y Hy. eexists. split; [apply encode_bytes32|by apply Hf].
    + rewrite (zlen_app _ mid), Hmid, (zlen_app (to_be_bytes 8 4)), (zlen_app (upload_root _ ++ _)), (zlen_app (b16 _)),
        (zlen_app (b16 _)), (zlen_app (b16 _)), zlen_padded32, !zlen_b16, !zlen_be8 by done. done.
Qed.

#[export] Instance blob_specific : SpecificLaw c_blob_body blob_body_ok.
Proof.
  intros t bs ofs b args Ht Hbs Hofs Hfit Hb. pose proof (proj1 Ht) as Hbody. pose proof Hbody as (Hi & Hw).
  destruct (e_blob _ Hbody) as [s He].
  destruct (body_bytes _ _ t bs _ _ _ c_blob_body_lawful Ht Hbs He) as (mid & post & Hmid & E).
  cbn [executable_type executable_blob]. destruct args; try done; cbn [specific_field specific_of gtf_matches].
  apply specific_pointer; [done..|]. rewrite E, <- !app_assoc. change blob_id_offset_static with 8. at_walk.
Qed.

#[export] Instance upgrade_specific : SpecificLaw c_upgrade_body upgrade_ok.
Proof.
  intros t bs ofs b args Ht Hbs Hofs Hfit Hb. pose proof (proj1 Ht) as Hbody.
  destruct (c_upgrade_body_lawful _ Hbody) as (s & bb & db & He).
  destruct (body_bytes _ _ t bs _ _ _ c_upgrade_body_lawful Ht Hbs He) as (mid & post & Hmid & E).
  pose proof (en_static _ _ _ _ _ He) as Es.
  cbn [executable_type executable_upgrade]. destruct (tx_body t) as [w ck|r] eqn:Eb; destruct args; try done;
    cbn [specific_field specific_of gtf_matches]; (apply specific_pointer; [done..|]); rewrite E;
    change upgrade_purpose_offset_static with 8.
  - assert (bb = to_be_bytes 8 3 ++ b64 0 ++ b16 w ++ (ck ++ [])) as -> by (symmetry; injection Es as <-; reflexivity).
    rewrite app_nil_r, <- app_assoc. eapply at_skip; [apply zlen_be8|]. apply at_left, at_whole.
  - assert (bb = to_be_bytes 8 3 ++ b64 1 ++ (r ++ [])) as -> by (symmetry; injection Es as <-; reflexivity).
    rewrite app_nil_r, <- app_assoc. eapply at_skip; [apply zlen_be8|]. apply at_left, at_whole.
Qed.
End Bodies.

(** For every kind of transaction, every selector and every index, the field is the value that
    the selector names, or the address at which its bytes lie in a copy of the encoded
    transaction at [ofs]; where there is no such field the reason is the documented one. *)
Lemma transaction_field_exact `{Alloc} `{!ExactAlloc} {Body : Type} `{!BodyOffset Body} `{!ExecutableBody Body}
    (c : Codec Body) (body_ok : Body -> Prop) `{!BodyOffsetLaw c body_ok} `{!SpecificLaw c body_ok}
    (t : Chargeable Body) (bs : list byte) (output_of_contract : gmap Z Z) (ofs tx_size b : Z) (args : GTFArgs) :
  lawful c body_ok -> chargeable_ok body_ok t -> encode (c_chargeable c) t = Ok bs ->
  0 <= ofs -> ofs + zlen bs < U64 -> 0 <= b ->
  gtf_matches bs ofs (transaction_field t output_of_contract ofs tx_size b args)
    (field_of t output_of_contract tx_size b args).
Proof.
  intros Hlaw Ht Hbs Hofs Hfit Hb.
  pose proof (input_value_matches t bs ofs b) as Hval.
  pose proof (input_whole c body_ok Hlaw t bs ofs b Ht Hbs Hofs Hfit Hb) as Hiw.
  pose proof (output_whole c body_ok Hlaw t bs ofs b Ht Hbs Hofs Hfit Hb) as How.
  pose proof (witness_whole c body_ok Hlaw t bs ofs b Ht Hbs Hofs Hfit Hb) as Hww.
  pose proof (coin_pointers c body_ok Hlaw t bs ofs b Ht Hbs Hofs Hfit Hb) as (Hc1 & Hc2 & Hc3 & Hc4).
  pose proof (message_pointers c body_ok Hlaw t bs ofs b Ht Hbs Hofs Hfit Hb) as (Hm1 & Hm2 & Hm3).
  pose proof (contract_pointers c body_ok Hlaw t bs ofs b Ht Hbs Hofs Hfit Hb) as (Hk1 & Hk2).
  pose proof (fun p => proj1 (predicate_pointers c body_ok Hlaw t bs ofs b Ht Hbs Hofs Hfit Hb p)) as Hp1.
  pose proof (fun p => proj2 (predicate_pointers c body_ok Hlaw t bs ofs b Ht Hbs Hofs Hfit Hb p)) as Hp2.
  pose proof (data_pointer c body_ok Hlaw t bs ofs b Ht Hbs Hofs Hfit Hb) as Hd.
  pose proof (output_pointers c body_ok Hlaw t bs ofs b Ht Hbs Hofs Hfit Hb) as (Ho1 & Ho2 & Ho3 & Ho4).
  pose proof (witness_data c body_ok Hlaw t bs ofs b Ht Hbs Hofs Hfit Hb) as Hwd.
  assert (Hpol : forall p, gtf_matches bs ofs (policy_field t p) (policy_of t p)).
  { intros p. unfold policy_field, policy_of. by destruct (policies_get (tx_policies t) p). }
  destruct args; cbn [transaction_field field_of]; try exact (Hpol _); try assumption; try reflexivity;
    try exact (specific_matches t bs ofs b _ Ht Hbs Hofs Hfit Hb); try exact (Hval _ _); try exact (Hp1 _);
    try exact (Hp2 _).
  - by destruct (zget (tx_inputs t) b).
  - destruct (U16 <=? b); [done|]. by destruct (output_of_contract !! b).
  - by destruct (zget (tx_outputs t) b).
  - unfold output_if. by destruct (zget (tx_outputs t) b) as [[]|].
  - unfold output_if. by destruct (zget (tx_outputs t) b) as [[]|].
  - by destruct (zget (tx_witnesses t) b).
Qed.

(** ** The handler *)

(** A part of readable bytes is readable. *)
Lemma read_at m ofs bs o x :
  mem_wf m -> 0 <= ofs -> read m ofs (zlen bs) = Ok bs -> at_offset bs o x -> read m (ofs + o) (zlen x) = Ok x.
Proof.
  intros Hm Hofs Hr (p & q & -> & <-). pose proof (zlen_nonneg p). pose proof (zlen_nonneg x). pose proof (zlen_nonneg q).
  rewrite !zlen_app in Hr.
  apply read_inv in Hr as ((_ & _ & Hle & Hor) & _ & Hs); [|done|lia..].
  apply mem_shows_read; [done|split_and!; lia|]. intros i Hi. rewrite <- Z.add_assoc, Hs by (rewrite !zlen_app; lia).
  rewrite !zget_app. repeat case_if; try lia. f_equal. lia.
Qed.


(** A machine that holds the transaction of [TxExample]. *)
Module GtfExample.
Definition bytes : list byte :=
  match encode (@c_chargeable TxExample.exact_alloc _ (@c_script_body TxExample.exact_alloc)) TxExample.chargeable with
  | Ok bs => bs
  | _ => []
  end.
Definition params : InterpreterParams :=
  mkParams 0 (param_gas_costs params_default) 255 1024 8 1024 0 (replicate 32 x00).
Definition vm : Interpreter unit :=
  mkVM (replicate 64 0) (mkMemory (to_be_bytes 8 (zlen bytes) ++ bytes) [] MEM_SIZE) [] receipts_default ∅ tt
    NotInitialized ∅ params PanicContext_None.
End GtfExample.

