(* ===== verification/TxBalances.v ===== *)
(** * Balances before and after execution

    What a transaction has to spend and what is left of it: the free balances that checking a
    transaction computes from its inputs, outputs and fee limit
    (src/fuel-vm/src/checked_transaction/balances.rs), the balances the machine starts with
    ([RuntimeBalances], src/fuel-vm/src/interpreter/balances.rs), and the outputs that are
    filled in after execution ([update_outputs], src/fuel-vm/src/interpreter.rs, and
    [finalize_outputs], post_execution.rs).

    A [BTreeMap] or [HashMap] from assets to words is a [gmap]; iterating over a [BTreeMap] or
    sorting by asset visits the entries in the order of the bytes ([Sparse.key_ltb]). *)

From Stdlib Require Import Strings.Byte.
From stdpp Require Import sorting.
From S2P Require Import Prelude Sparse Asm Merkle Receipts Memory State Gas Canonical TxTypes TxCodec TxInput TxFee TxOffsets.

(** ** Free balances *)

Record AvailableBalances : Type := mkAvailable {
  non_retryable_balances : gmap AssetId Z;
  retryable_balance : Z
}.

(** [let balance = m.entry(asset).or_default(); *balance = balance.checked_add(amount)?] *)
Definition entry_add (m : gmap AssetId Z) (asset : AssetId) (amount : Z) : option (gmap AssetId Z) :=
  (fun v => <[asset := v]> m) <$> checked_add (default 0 (m !! asset)) amount.

Fixpoint add_up_loop (base_asset_id : AssetId) (inputs : list Input) (m : gmap AssetId Z) (r : Z)
  : option (gmap AssetId Z * Z) :=
  match inputs with
  | [] => Some (m, r)
  | i :: rest =>
      match i with
      | Input_CoinPredicate c =>
          entry_add m (coin_asset_id c) (coin_amount c) ≫= fun m => add_up_loop base_asset_id rest m r
      | Input_CoinSigned c =>
          entry_add m (coin_asset_id c) (coin_amount c) ≫= fun m => add_up_loop base_asset_id rest m r
      | Input_MessageCoinSigned g =>
          entry_add m base_asset_id (msg_amount g) ≫= fun m => add_up_loop base_asset_id rest m r
      | Input_MessageCoinPredicate g =>
          entry_add m base_asset_id (msg_amount g) ≫= fun m => add_up_loop base_asset_id rest m r
      | Input_MessageDataSigned g => checked_add r (msg_amount g) ≫= fun r => add_up_loop base_asset_id rest m r
      | Input_MessageDataPredicate g => checked_add r (msg_amount g) ≫= fun r => add_up_loop base_asset_id rest m r
      | Input_Contract _ => add_up_loop base_asset_id rest m r
      end
  end.
Definition add_up_input_balances (inputs : list Input) (base_asset_id : AssetId) : option (gmap AssetId Z * Z) :=
  add_up_loop base_asset_id inputs ∅ 0.

Definition deduct_max_fee_from_base_asset (m : gmap AssetId Z) (base_asset_id : AssetId) (max_fee : Z)
  : outcome ValidityError (gmap AssetId Z) :=
  let base_asset_balance := default 0 (m !! base_asset_id) in
  let? b := ok_or (checked_sub base_asset_balance max_fee) (InsufficientFeeAmount max_fee base_asset_balance) in
  Ok (<[base_asset_id := b]> m).

Fixpoint reduce_free_balances_by_coin_outputs (m : gmap AssetId Z) (outputs : list Output)
  : outcome ValidityError (gmap AssetId Z) :=
  match outputs with
  | [] => Ok m
  | Output_Coin _ amount asset_id :: rest =>
      let? balance := ok_or (m !! asset_id) (TransactionOutputCoinAssetIdNotFound asset_id) in
      let? b := ok_or (checked_sub balance amount) (InsufficientInputAmount asset_id amount balance) in
      reduce_free_balances_by_coin_outputs (<[asset_id := b]> m) rest
  | _ :: rest => reduce_free_balances_by_coin_outputs m rest
  end.

Definition initial_free_balances {Body} (t : Chargeable Body) (base_asset_id : AssetId)
  : outcome ValidityError AvailableBalances :=
  let? '(m, r) := ok_or (add_up_input_balances (tx_inputs t) base_asset_id) BalanceOverflow in
  let? max_fee := ok_or (policies_get (tx_policies t) MaxFee) TransactionMaxFeeNotSet in
  let? m := deduct_max_fee_from_base_asset m base_asset_id max_fee in
  let? m := reduce_free_balances_by_coin_outputs m (tx_outputs t) in
  Ok (mkAvailable m r).

(** ** The balances of the machine *)

Record InitialBalances : Type := mkInitialBalances {
  non_retryable : gmap AssetId Z;
  retryable : option (Z * AssetId)
}.

Definition VM_MEMORY_BALANCES_OFFSET : Z := 32 + 32.
Definition BALANCE_ENTRY_SIZE : Z := 32 + WORD_SIZE.

Definition asset_le (x y : AssetId * Z) : Prop := Sparse.key_ltb y.1 x.1 = false.
#[export] Instance asset_le_dec x y : Decision (asset_le x y) := decide (Sparse.key_ltb y.1 x.1 = false).

Definition balance_offset (i : Z) : Z :=
  saturating_add VM_MEMORY_BALANCES_OFFSET (saturating_mul i BALANCE_ENTRY_SIZE).
Fixpoint balances_fold (i : Z) (l : list (AssetId * Z)) (state : RuntimeBalances)
  : outcome ValidityError RuntimeBalances :=
  match l with
  | [] => Ok state
  | (asset, balance) :: rest =>
      let entry := default (mkBalance 0 (balance_offset i)) (state !! asset) in
      let? v := ok_or (checked_add (bal_value entry) balance) BalanceOverflow in
      balances_fold (i + 1) rest (<[asset := mkBalance v (bal_offset entry)]> state)
  end.
Definition try_from_iter (l : list (AssetId * Z)) : outcome ValidityError RuntimeBalances :=
  balances_fold 0 (merge_sort asset_le l) ∅.

Definition runtime_balances_try_from (initial : InitialBalances) : outcome ValidityError RuntimeBalances :=
  let? m :=
    match retryable initial with
    | Some (amount, base_asset_id) => ok_or (entry_add (non_retryable initial) base_asset_id amount) BalanceOverflow
    | None => Ok (non_retryable initial)
    end in
  try_from_iter (merge_sort asset_le (map_to_list m)).

(** ** After execution *)

(** Indexing a map panics on a missing key. *)
Definition map_index {E : Type} (m : gmap AssetId Z) (a : AssetId) : outcome E Z := expect (m !! a).
Definition balances_index {E : Type} (m : RuntimeBalances) (a : AssetId) : outcome E Z := expect (bal_value <$> m !! a).

Definition update_output (revert : bool) (gas_refund : Z) (initial : InitialBalances) (balances : RuntimeBalances)
    (base_asset_id : AssetId) (o : Output) : outcome ValidityError Output :=
  match o with
  | Output_Change to amount asset_id =>
      if revert && bool_decide (asset_id = base_asset_id) then
        let? b := map_index (non_retryable initial) base_asset_id in
        let? v := ok_or (checked_add b gas_refund) BalanceOverflow in
        Ok (Output_Change to v asset_id)
      else if revert then
        let? v := map_index (non_retryable initial) asset_id in
        Ok (Output_Change to v asset_id)
      else if bool_decide (asset_id = base_asset_id) then
        let? b := balances_index balances asset_id in
        let? v := ok_or (checked_add b gas_refund) BalanceOverflow in
        Ok (Output_Change to v asset_id)
      else
        let? v := balances_index balances asset_id in
        Ok (Output_Change to v asset_id)
  | Output_Variable to amount asset_id => if revert then Ok (Output_Variable to 0 asset_id) else Ok o
  | _ => Ok o
  end.
Fixpoint try_for_each {E A} (f : A -> outcome E A) (l : list A) : outcome E (list A) :=
  match l with
  | [] => Ok []
  | x :: rest => let? y := f x in let? rest := try_for_each f rest in Ok (y :: rest)
  end.

Section Update.
Context `{Alloc} {Body : Type} `{!ChargeableBody Body}.

Definition with_outputs (t : Chargeable Body) (outputs : list Output) : Chargeable Body :=
  mkChargeable (tx_body t) (tx_policies t) (tx_inputs t) outputs (tx_witnesses t).

Definition update_outputs (t : Chargeable Body) (revert : bool) (used_gas : Z) (initial : InitialBalances)
    (balances : RuntimeBalances) (gas_costs : GasCosts) (fee_params : FeeParameters) (base_asset_id : AssetId)
    (gas_price : Z) : outcome ValidityError (Chargeable Body) :=
  match refund_fee t gas_costs fee_params used_gas gas_price with
  | Ok refund =>
      let? gas_refund := ok_or refund GasCostsCoinsOverflow in
      let? outputs :=
        try_for_each (update_output revert gas_refund initial balances base_asset_id) (tx_outputs t) in
      Ok (with_outputs t outputs)
  | _ => Crash
  end.

Definition finalize_outputs (t : Chargeable Body) (gas_costs : GasCosts) (fee_params : FeeParameters)
    (base_asset_id : AssetId) (revert : bool) (used_gas : Z) (initial : InitialBalances)
    (balances : RuntimeBalances) (gas_price : Z) : outcome RuntimeError (Chargeable Body) :=
  omap_err (fun _ => Bug UncomputableRefund)
    (update_outputs t revert used_gas initial balances gas_costs fee_params base_asset_id gas_price).
End Update.

(** ** What the free balances are *)

(** The coins an input brings: of which asset, or as a message that can be retried. *)
Definition credits (base : AssetId) (i : Input) : option (AssetId * Z) :=
  match i with
  | Input_CoinSigned c => Some (coin_asset_id c, coin_amount c)
  | Input_CoinPredicate c => Some (coin_asset_id c, coin_amount c)
  | Input_MessageCoinSigned g => Some (base, msg_amount g)
  | Input_MessageCoinPredicate g => Some (base, msg_amount g)
  | _ => None
  end.
Definition retries (i : Input) : Z :=
  match i with
  | Input_MessageDataSigned g => msg_amount g
  | Input_MessageDataPredicate g => msg_amount g
  | _ => 0
  end.
Definition of_asset (a : AssetId) (c : option (AssetId * Z)) : Z :=
  match c with Some (b, v) => if bool_decide (a = b) then v else 0 | None => 0 end.
Definition credited (base a : AssetId) (inputs : list Input) : Z := total (fun i => of_asset a (credits base i)) inputs.

Definition pays_out (o : Output) : option (AssetId * Z) :=
  match o with Output_Coin _ v a => Some (a, v) | _ => None end.
Definition paid (a : AssetId) (outputs : list Output) : Z := total (fun o => of_asset a (pays_out o)) outputs.

Definition brings (base a : AssetId) (i : Input) : Prop := fst <$> credits base i = Some a.

Definition words (m : gmap AssetId Z) : Prop := map_Forall (fun _ v => u64_ok v) m.

Lemma of_asset_nonneg a (c : option (AssetId * Z)) : (forall b v, c = Some (b, v) -> 0 <= v) -> 0 <= of_asset a c.
Proof. destruct c as [[b v]|]; cbn; [|done]. intros Hv. specialize (Hv b v eq_refl). case_bool_decide; lia. Qed.

Lemma total_nonneg {T} (f : T -> Z) l : Forall (fun x => 0 <= f x) l -> 0 <= total f l.
Proof. induction 1; cbn; [lia|]. fold (total f l). lia. Qed.

Lemma credits_ok base i b v : input_ok i -> credits base i = Some (b, v) -> u64_ok v.
Proof.
  destruct i as [[]|[]|[]|[]|[]|[]|[]]; cbn; try done; unfold coin_ok, message_ok; cbn; intros Hi [= <- <-]; tauto.
Qed.
Lemma retries_ok i : input_ok i -> u64_ok (retries i).
Proof. destruct i as [[]|[]|[]|[]|[]|[]|[]]; cbn; try done; unfold message_ok; cbn; tauto. Qed.
Lemma pays_out_ok o b v : output_ok o -> pays_out o = Some (b, v) -> u64_ok v.
Proof. destruct o; cbn; try done. intros Ho [= <- <-]. tauto. Qed.

Lemma credited_nonneg base a l : Forall input_ok l -> 0 <= credited base a l.
Proof.
  intros Hl. apply total_nonneg. eapply Forall_impl; [exact Hl|]. intros i Hi. apply of_asset_nonneg.
  intros b v Hc. by apply (credits_ok base i b v Hi).
Qed.
Lemma retries_nonneg l : Forall input_ok l -> 0 <= total retries l.
Proof. intros Hl. apply total_nonneg. eapply Forall_impl; [exact Hl|]. intros i Hi. by apply retries_ok. Qed.
Lemma paid_nonneg a l : Forall output_ok l -> 0 <= paid a l.
Proof.
  intros Hl. apply total_nonneg. eapply Forall_impl; [exact Hl|]. intros i Hi. apply of_asset_nonneg.
  intros b v Hc. by apply (pays_out_ok i b v Hi).
Qed.

(** One step of the loop, by what the input brings. *)
Lemma add_up_step base i l m r :
  input_ok i ->
  add_up_loop base (i :: l) m r =
    match credits base i with
    | Some (a, v) => entry_add m a v ≫= fun m => add_up_loop base l m r
    | None => checked_add r (retries i) ≫= fun r => add_up_loop base l m r
    end \/ (exists c, i = Input_Contract c) /\ add_up_loop base (i :: l) m r = add_up_loop base l m r.
Proof. destruct i; cbn; try (left; reflexivity). right. eauto. Qed.

Lemma words_lookup m a : words m -> u64_ok (default 0 (m !! a)).
Proof. intros Hm. destruct (m !! a) eqn:E; [by apply (Hm a)|done]. Qed.

Lemma entry_add_spec m a v :
  words m -> u64_ok v ->
  match entry_add m a v with
  | Some m' => words m' /\ (forall b, default 0 (m' !! b) = default 0 (m !! b) + of_asset b (Some (a, v))) /\
      (forall b, is_Some (m' !! b) <-> is_Some (m !! b) \/ b = a)
  | None => U64 <= default 0 (m !! a) + v
  end.
Proof.
  intros Hm Hv. unfold entry_add. pose proof (words_lookup m a Hm) as Hw. unfold u64_ok in *. unfold checked_add.
  case_if; [|cbn; lia]. cbn [fmap option_fmap option_map]. split_and!.
  - apply map_Forall_insert_2; [|exact Hm]. unfold u64_ok. lia.
  - intros b. cbn [of_asset]. case_bool_decide as Hb.
    + subst b. by rewrite lookup_insert_eq.
    + rewrite lookup_insert_ne by done. lia.
  - intros b. destruct (decide (b = a)) as [->|Hb].
    + rewrite lookup_insert_eq. split; [by right|by eexists].
    + rewrite lookup_insert_ne by done. tauto.
Qed.

Lemma add_up_loop_spec base l : forall m r,
  Forall input_ok l -> words m -> u64_ok r ->
  match add_up_loop base l m r with
  | Some (m', r') => words m' /\ u64_ok r' /\ r' = r + total retries l /\
      (forall a, default 0 (m' !! a) = default 0 (m !! a) + credited base a l) /\
      (forall a, is_Some (m' !! a) <-> is_Some (m !! a) \/ Exists (brings base a) l)
  | None => U64 <= r + total retries l \/ exists a, U64 <= default 0 (m !! a) + credited base a l
  end.
Proof.
  induction l as [|i l IH]; intros m r Hl Hm Hr.
  { cbn. split_and!; try done; [lia|intros a; lia|]. intros a. rewrite Exists_nil. tauto. }
  apply Forall_cons in Hl as [Hi Hl]. pose proof (credited_nonneg base) as Hcr.
  assert (Hcons : forall a, credited base a (i :: l) = of_asset a (credits base i) + credited base a l) by done.
  assert (Hret : total retries (i :: l) = retries i + total retries l) by done.
  assert (Hex : forall a, Exists (brings base a) (i :: l) <-> brings base a i \/ Exists (brings base a) l) by (intros a; apply Exists_cons).
  unfold brings at 2 in Hex.
  destruct (add_up_step base i l m r Hi) as [->|[[c ->] ->]]; cycle 1.
  { specialize (IH m r Hl Hm Hr). cbn [credits retries] in *. destruct (add_up_loop base l m r) as [[m' r']|].
    - destruct IH as (H1 & H2 & H3 & H4 & H5). split_and!; [done|done|lia| |].
      + intros a. rewrite H4, Hcons. cbn. lia.
      + intros a. rewrite H5, Hex. cbn. intuition congruence.
    - destruct IH as [IH|[a IH]]; [left; lia|right; exists a; rewrite Hcons; cbn; lia]. }
  destruct (credits base i) as [[a v]|] eqn:Ec.
  - pose proof (credits_ok _ _ _ _ Hi Ec) as Hv. pose proof (entry_add_spec m a v Hm Hv) as He.
    assert (Hr0 : retries i = 0) by (by destruct i).
    destruct (entry_add m a v) as [m1|]; cbn [mbind option_bind].
    + destruct He as (Hm1 & Hd & Hs). specialize (IH m1 r Hl Hm1 Hr). destruct (add_up_loop base l m1 r) as [[m' r']|].
      * destruct IH as (H1 & H2 & H3 & H4 & H5). split_and!; [done|done|lia| |].
        -- intros b. rewrite H4, Hd, Hcons. lia.
        -- intros b. rewrite H5, Hs, Hex. cbn. intuition congruence.
      * destruct IH as [IH|[b IH]]; [left; lia|right; exists b; rewrite Hcons; rewrite Hd in IH; lia].
    + right. exists a. rewrite Hcons. cbn. rewrite bool_decide_true by done. specialize (Hcr a l Hl). lia.
  - pose proof (retries_ok i Hi) as Hv. pose proof (retries_nonneg l Hl) as Hrn. unfold u64_ok in Hv, Hr. unfold checked_add.
    case_if; cbn [mbind option_bind].
    + specialize (IH m (r + retries i) Hl Hm ltac:(unfold u64_ok; lia)).
      destruct (add_up_loop base l m (r + retries i)) as [[m' r']|].
      * destruct IH as (H1 & H2 & H3 & H4 & H5). split_and!; [done|done|lia| |].
        -- intros b. rewrite H4, Hcons. cbn. lia.
        -- intros b. rewrite H5, Hex. cbn. intuition congruence.
      * destruct IH as [IH|[b IH]]; [left; lia|right; exists b; rewrite Hcons; cbn; lia].
    + left. lia.
Qed.

(** Paying the coin outputs. *)
Lemma reduce_spec l : forall m,
  Forall output_ok l -> words m ->
  match reduce_free_balances_by_coin_outputs m l with
  | Ok m' => words m' /\ (forall a, default 0 (m !! a) = default 0 (m' !! a) + paid a l) /\
      (forall a, is_Some (m' !! a) <-> is_Some (m !! a)) /\
      Forall (fun o => forall a v, pays_out o = Some (a, v) -> is_Some (m !! a)) l
  | Err (TransactionOutputCoinAssetIdNotFound a) => m !! a = None /\ Exists (fun o => fst <$> pays_out o = Some a) l
  | Err (InsufficientInputAmount a _ _) => default 0 (m !! a) < paid a l
  | _ => False
  end.
Proof.
  induction l as [|o l IH]; intros m Hl Hm; cbn [reduce_free_balances_by_coin_outputs].
  { split_and!; [done| |done|constructor]. intros a. cbn. lia. }
  apply Forall_cons in Hl as [Ho Hl].
  assert (Hcons : forall a, paid a (o :: l) = of_asset a (pays_out o) + paid a l) by done.
  assert (Hskip : pays_out o = None ->
    match reduce_free_balances_by_coin_outputs m l with
    | Ok m' => words m' /\ (forall a, default 0 (m !! a) = default 0 (m' !! a) + paid a (o :: l)) /\
        (forall a, is_Some (m' !! a) <-> is_Some (m !! a)) /\
        Forall (fun o => forall a v, pays_out o = Some (a, v) -> is_Some (m !! a)) (o :: l)
    | Err (TransactionOutputCoinAssetIdNotFound a) =>
        m !! a = None /\ Exists (fun o => fst <$> pays_out o = Some a) (o :: l)
    | Err (InsufficientInputAmount a _ _) => default 0 (m !! a) < paid a (o :: l)
    | _ => False
    end).
  { intros E. specialize (IH m Hl Hm). destruct (reduce_free_balances_by_coin_outputs m l) as [m'|[]|]; try done.
    - destruct IH as (H1 & H2 & H3 & H4). split_and!; [done| |done|].
      + intros a. rewrite Hcons, E. cbn. rewrite H2. lia.
      + constructor; [|done]. intros a v. by rewrite E.
    - destruct IH as [H1 H2]. split; [done|by right].
    - rewrite Hcons, E. cbn. lia. }
  destruct o as [to v a| | | |]; try (apply Hskip; reflexivity). clear Hskip.
  pose proof (pays_out_ok (Output_Coin to v a) a v Ho eq_refl) as Hv. unfold u64_ok in Hv.
  cbn [pays_out of_asset] in Hcons. destruct (m !! a) as [b|] eqn:Ea; cbn [ok_or obind]; cycle 1.
  { split; [done|]. by left. }
  pose proof (Hm a b Ea) as Hb. unfold u64_ok in Hb.
  destruct (checked_sub b v) as [b'|] eqn:Eb; cbn [ok_or obind]; cycle 1.
  { rewrite Ea, Hcons, bool_decide_true by done. cbn. pose proof (paid_nonneg a l Hl). unfold checked_sub in Eb.
    destruct (v <=? b) eqn:Ev; [done|lia]. }
  assert (b' = b - v /\ v <= b) as [-> Hle] by (unfold checked_sub in Eb; destruct (v <=? b) eqn:Ev; [|done]; simplify_eq; lia).
  set (m1 := <[a := b - v]> m).
  assert (Hm1 : words m1) by (apply map_Forall_insert_2; [unfold u64_ok; lia|exact Hm]).
  assert (Hd1 : forall x, default 0 (m !! x) = default 0 (m1 !! x) + of_asset x (Some (a, v))).
  { intros x. cbn [of_asset]. subst m1. case_bool_decide as Hx.
    - subst x. rewrite lookup_insert_eq, Ea. cbn. lia.
    - rewrite lookup_insert_ne by done. lia. }
  assert (Hs1 : forall x, is_Some (m1 !! x) <-> is_Some (m !! x)).
  { intros x. subst m1. destruct (decide (x = a)) as [->|Hx].
    - rewrite lookup_insert_eq, Ea. split; by eexists.
    - by rewrite lookup_insert_ne. }
  specialize (IH m1 Hl Hm1). destruct (reduce_free_balances_by_coin_outputs m1 l) as [m'|[]|]; try done.
  - destruct IH as (H1 & H2 & H3 & H4). split_and!; [done| | |].
    + intros x. rewrite Hcons, Hd1, H2. cbn [of_asset]. lia.
    + intros x. by rewrite H3, Hs1.
    + constructor.
      * intros x w [= <- <-]. rewrite Ea. by eexists.
      * eapply Forall_impl; [exact H4|]. intros o' Ho' x w Hxw. apply Hs1. by eapply Ho'.
  - destruct IH as [H1 H2]. split; [|by right]. apply eq_None_not_Some. rewrite <- Hs1, H1. by intros [? [=]].
  - rewrite Hd1, Hcons. cbn [of_asset]. lia.
Qed.

(** ** The balances the machine starts with *)

#[export] Instance asset_le_total : Total asset_le.
Proof.
  intros [x v] [y w]. unfold asset_le. cbn. clear v w. revert y.
  induction x as [|a x IH]; intros [|b y]; cbn; auto.
  destruct (IH y) as [E|E]; rewrite E, ?andb_false_r, ?orb_false_r;
    destruct (byte_val a <? byte_val b) eqn:E1, (byte_val b <? byte_val a) eqn:E2, (byte_val a =? byte_val b) eqn:E3,
      (byte_val b =? byte_val a) eqn:E4; cbn; try lia; auto.
Qed.
#[export] Instance asset_le_trans : Transitive asset_le.
Proof.
  intros [x v] [y w] [z u]. unfold asset_le. cbn. clear v w u. revert y z.
  induction x as [|a x IH]; intros [|b y] [|c z]; cbn; try done.
  intros H1 H2. apply orb_false_iff in H1 as [H1 H1'], H2 as [H2 H2']. apply orb_false_iff. split; [lia|].
  destruct (byte_val c =? byte_val a) eqn:E; [|done]. cbn.
  assert ((byte_val b =? byte_val a) = true) as E1 by lia. assert ((byte_val c =? byte_val b) = true) as E2 by lia.
  rewrite E1 in H1'. rewrite E2 in H2'. by apply (IH y).
Qed.

Lemma balances_fold_spec l : forall i st,
  NoDup l.*1 -> (forall a, a ∈ l.*1 -> st !! a = None) -> Forall (fun x => u64_ok x.2) l ->
  exists st', balances_fold i l st = Ok st' /\
    (forall k a v, l !! k = Some (a, v) -> st' !! a = Some (mkBalance v (balance_offset (i + Z.of_nat k)))) /\
    (forall a, a ∉ l.*1 -> st' !! a = st !! a).
Proof.
  unfold RuntimeBalances. induction l as [|[a v] l IH]; intros i st Hnd Hst Hw; cbn [balances_fold]; [by exists st|].
  unfold RuntimeBalances in *.
  cbn in Hnd. apply NoDup_cons in Hnd as [Ha Hnd]. apply Forall_cons in Hw as [Hv Hw]. unfold u64_ok in Hv. cbn in Hv.
  rewrite Hst by (cbn; set_solver). cbn [default bal_value bal_offset]. rewrite checked_add_Some by (cbn; lia).
  cbn [ok_or obind]. rewrite Z.add_0_l.
  destruct (IH (i + 1) (<[a := mkBalance v (balance_offset i)]> st)) as (st' & -> & H1 & H2); [done| |done|].
  { intros b Hb. rewrite lookup_insert_ne by (intros ->; done). apply Hst. cbn. set_solver. }
  exists st'. split_and!; [done| |].
  - intros [|k] b w Hk; cbn in Hk.
    + injection Hk as <- <-. rewrite H2, lookup_insert_eq by done. do 3 f_equal. lia.
    + rewrite (H1 k b w Hk). do 3 f_equal. lia.
  - intros b Hb. cbn in Hb. rewrite H2 by set_solver. rewrite lookup_insert_ne by set_solver. done.
Qed.

(** The entries, in the order of their assets. *)
Definition sorted_entries (m : gmap AssetId Z) : list (AssetId * Z) := merge_sort asset_le (map_to_list m).

Lemma sorted_entries_perm m : sorted_entries m ≡ₚ map_to_list m.
Proof. apply merge_sort_Permutation. Qed.
Lemma sorted_entries_elem m a v : (a, v) ∈ sorted_entries m <-> m !! a = Some v.
Proof. by rewrite sorted_entries_perm, elem_of_map_to_list. Qed.
Lemma sorted_entries_NoDup m : NoDup (sorted_entries m).*1.
Proof. rewrite (sorted_entries_perm m). apply NoDup_fst_map_to_list. Qed.
Lemma sorted_entries_sorted m : StronglySorted asset_le (sorted_entries m).
Proof. apply Sorted_StronglySorted; [apply _|]. apply Sorted_merge_sort, _. Qed.

(** The balances of the machine hold the amounts of the map; the entry of the [k]-th asset lies
    after those of the [k] smaller ones. *)
Definition balances_of (m : gmap AssetId Z) (rb : RuntimeBalances) : Prop :=
  exists l, l ≡ₚ map_to_list m /\ StronglySorted asset_le l /\
    (forall k a v, l !! k = Some (a, v) -> rb !! a = Some (mkBalance v (balance_offset (Z.of_nat k)))) /\
    (forall a, m !! a = None -> rb !! a = None).

Lemma balances_of_value m rb a : balances_of m rb -> bal_value <$> rb !! a = m !! a.
Proof.
  intros (l & Hp & _ & H1 & H2). destruct (m !! a) as [v|] eqn:E; [|by rewrite H2].
  assert (Hin : (a, v) ∈ l) by (by rewrite Hp, elem_of_map_to_list).
  apply list_elem_of_lookup_1 in Hin as [k Hk]. by rewrite (H1 k a v Hk).
Qed.

Lemma try_from_iter_spec m :
  words m -> exists rb, try_from_iter (sorted_entries m) = Ok rb /\ balances_of m rb.
Proof.
  intros Hm. set (l := merge_sort asset_le (sorted_entries m)).
  assert (Hp : l ≡ₚ map_to_list m) by (subst l; by rewrite merge_sort_Permutation, sorted_entries_perm).
  destruct (balances_fold_spec l 0 ∅) as (rb & E & H1 & H2).
  - rewrite Hp. apply NoDup_fst_map_to_list.
  - done.
  - rewrite Hp. apply Forall_forall. intros [a v] Hin. apply elem_of_map_to_list in Hin. by apply (Hm a).
  - exists rb. split; [done|]. exists l. split_and!; [done| |done|].
    + apply Sorted_StronglySorted; [apply _|]. apply Sorted_merge_sort, _.
    + intros a Ha. rewrite H2; [done|]. rewrite Hp. intros Hin. apply list_elem_of_fmap in Hin as ([b v] & -> & Hin).
      apply elem_of_map_to_list in Hin. cbn in Ha. congruence.
Qed.

Lemma runtime_balances_spec m r base :
  words m -> u64_ok r ->
  match runtime_balances_try_from (mkInitialBalances m (Some (r, base))) with
  | Ok rb => balances_of (<[base := default 0 (m !! base) + r]> m) rb
  | Err e => e = BalanceOverflow /\ U64 <= default 0 (m !! base) + r
  | Crash => False
  end.
Proof.
  intros Hm Hr. unfold runtime_balances_try_from. cbn [retryable non_retryable].
  pose proof (entry_add_spec m base r Hm Hr) as He. unfold entry_add in *. unfold checked_add in *.
  destruct (_ <? U64) eqn:E; cbn [fmap option_fmap option_map ok_or obind] in *; [|split; [done|lia]].
  destruct He as [Hw _]. destruct (try_from_iter_spec _ Hw) as (rb & E' & Hb). unfold sorted_entries in E'. by rewrite E'.
Qed.

(** ** What comes in goes out *)

Definition change_of (o : Output) : option (AssetId * Z) :=
  match o with Output_Change _ v a => Some (a, v) | _ => None end.
Definition change (a : AssetId) (outputs : list Output) : Z := total (fun o => of_asset a (change_of o)) outputs.
Definition change_assets (outputs : list Output) : list AssetId := omap (fun o => fst <$> change_of o) outputs.

(** What settling does to an output, when the change of asset [a] is [f a]. *)
Definition settled (revert : bool) (f : AssetId -> Z) (o o' : Output) : Prop :=
  match o with
  | Output_Change to _ a => o' = Output_Change to (f a) a
  | Output_Variable to v a => o' = Output_Variable to (if revert then 0 else v) a
  | _ => o' = o
  end.

Lemma change_settled revert f (l l' : list Output) (a : AssetId) :
  Forall2 (settled revert f) l l' -> NoDup (change_assets l) ->
  change a l' = if decide (a ∈ change_assets l) then f a else 0.
Proof.
  induction 1 as [|o o' l l' Ho Hl IH]; intros Hnd; [done|].
  assert (Hc : change a (o' :: l') = of_asset a (change_of o') + change a l') by done. rewrite Hc. clear Hc.
  unfold change_assets in *. cbn [omap list_omap] in *.
  destruct o as [to v b|c|to v b|to v b|c s]; cbn [settled change_of fmap option_fmap option_map] in *; subst o';
    cbn [change_of of_asset]; try (rewrite IH by done; lia).
  cbn [fst] in *. apply NoDup_cons in Hnd as [Hb Hnd]. rewrite IH by done. case_bool_decide as E.
  - subst b. rewrite decide_False by done. rewrite decide_True by set_solver. lia.
  - destruct (decide (a ∈ _)) as [Hin|Hin]; [rewrite decide_True by set_solver|rewrite decide_False by set_solver]; lia.
Qed.

Lemma paid_settled revert f l l' a : Forall2 (settled revert f) l l' -> paid a l' = paid a l.
Proof.
  induction 1 as [|o o' l l' Ho Hl IH]; [done|].
  change (of_asset a (pays_out o') + paid a l' = of_asset a (pays_out o) + paid a l). rewrite IH. f_equal.
  destruct o; cbn in Ho; by subst o'.
Qed.

(** The amount of change for each asset. *)
Definition change_amount (revert : bool) (refund : Z) (m : gmap AssetId Z) (rb : RuntimeBalances) (base a : AssetId) : Z :=
  (if revert then default 0 (m !! a) else default 0 (bal_value <$> rb !! a)) + if bool_decide (a = base) then refund else 0.

Lemma update_output_settled (revert : bool) (refund : Z) (m : gmap AssetId Z) (r : option (Z * AssetId)) (rb : RuntimeBalances)
    (base : AssetId) (l : list Output) :
  (forall a, a ∈ change_assets l ->
    (if revert then is_Some (m !! a) else is_Some (rb !! a)) /\ 0 <= change_amount revert refund m rb base a) ->
  match try_for_each (update_output revert refund (mkInitialBalances m r) rb base) l with
  | Ok l' => Forall2 (settled revert (change_amount revert refund m rb base)) l l'
  | Err e => e = BalanceOverflow /\ base ∈ change_assets l /\ U64 <= change_amount revert refund m rb base base
  | Crash => False
  end.
Proof.
  induction l as [|o l IH]; intros Hl; [constructor|]. cbn [try_for_each].
  assert (Hrest : forall a, a ∈ change_assets l -> a ∈ change_assets (o :: l)).
  { intros a Ha. unfold change_assets in *. cbn. destruct (fst <$> change_of o); set_solver. }
  specialize (IH (fun a Ha => Hl a (Hrest a Ha))).
  assert (Hstep : match update_output revert refund (mkInitialBalances m r) rb base o with
    | Ok o' => settled revert (change_amount revert refund m rb base) o o'
    | Err e => e = BalanceOverflow /\ base ∈ change_assets (o :: l) /\ U64 <= change_amount revert refund m rb base base
    | Crash => False
    end).
  { destruct o as [to v b|c|to v b|to v b|c s]; cbn [update_output settled]; try done; [|by destruct revert].
    destruct (Hl b) as [Hs Hnn]; [unfold change_assets; cbn; set_solver|].
    unfold map_index, balances_index. cbn [non_retryable]. unfold change_amount in *.
    assert (Hb : b = base -> base ∈ change_assets (Output_Change to v b :: l)) by (intros ->; unfold change_assets; cbn; set_solver).
    destruct (decide (b = base)) as [E|E]; [rewrite (bool_decide_true _ E) in *; specialize (Hb E); subst b
      |rewrite (bool_decide_false _ E) in *]; destruct revert; destruct Hs as [x Hx]; cbn [andb];
      rewrite Hx in *; cbn [expect obind fmap option_fmap option_map default] in *;
      unfold checked_add; try (rewrite Z.add_0_r; done);
      (destruct (_ <? U64) eqn:E2; cbn [ok_or obind]; [done|]); split_and!; try done;
      rewrite bool_decide_true by done; rewrite ?Hx; cbn; lia. }
  destruct (update_output _ _ _ _ _ o) as [o'|e|]; cbn [obind]; [|done|done].
  destruct (try_for_each _ l) as [l'|e|]; cbn [obind]; [by constructor| |done].
  destruct IH as (-> & Hin & Hov). split_and!; [done|by apply Hrest|done].
Qed.

(** Reserving the fee limit. *)
Lemma deduct_spec m base f :
  words m -> u64_ok f ->
  match deduct_max_fee_from_base_asset m base f with
  | Ok m' => words m' /\
      (forall a, default 0 (m !! a) = default 0 (m' !! a) + if bool_decide (a = base) then f else 0) /\
      (forall a, is_Some (m' !! a) <-> a = base \/ is_Some (m !! a))
  | Err e => e = InsufficientFeeAmount f (default 0 (m !! base)) /\ default 0 (m !! base) < f
  | Crash => False
  end.
Proof.
  intros Hm Hf. unfold deduct_max_fee_from_base_asset, checked_sub. pose proof (words_lookup m base Hm) as Hb.
  unfold u64_ok in *. destruct (f <=? default 0 (m !! base)) eqn:E; cbn [ok_or obind]; [|split; [done|lia]].
  split_and!.
  - apply map_Forall_insert_2; [unfold u64_ok; lia|exact Hm].
  - intros a. destruct (decide (a = base)) as [->|Hne].
    + rewrite lookup_insert_eq, bool_decide_true by done. cbn. lia.
    + rewrite lookup_insert_ne, bool_decide_false by done. lia.
  - intros a. destruct (decide (a = base)) as [->|Hne].
    + rewrite lookup_insert_eq. split; [by left|by eexists].
    + rewrite lookup_insert_ne by done. tauto.
Qed.

Lemma free_balances_spec {Body : Type} (body_ok : Body -> Prop) (t : Chargeable Body) (base : AssetId) :
  chargeable_ok body_ok t ->
  let credited a := credited base a (tx_inputs t) in
  let fee a := if bool_decide (a = base) then max_fee_limit t else 0 in
  match initial_free_balances t base with
  | Ok av =>
      (forall a, u64_ok (credited a)) /\
      words (non_retryable_balances av) /\ u64_ok (retryable_balance av) /\
      (forall a, credited a = default 0 (non_retryable_balances av !! a) + paid a (tx_outputs t) + fee a) /\
      retryable_balance av = total retries (tx_inputs t) /\
      (forall a, is_Some (non_retryable_balances av !! a) <-> a = base \/ Exists (brings base a) (tx_inputs t))
  | Err BalanceOverflow => U64 <= total retries (tx_inputs t) \/ exists a, U64 <= credited a
  | Err TransactionMaxFeeNotSet => policies_get (tx_policies t) MaxFee = None
  | Err (InsufficientFeeAmount expected provided) =>
      expected = max_fee_limit t /\ provided = credited base /\ provided < expected
  | Err (TransactionOutputCoinAssetIdNotFound a) =>
      a <> base /\ ~ Exists (brings base a) (tx_inputs t) /\ Exists (fun o => fst <$> pays_out o = Some a) (tx_outputs t)
  | Err (InsufficientInputAmount a _ _) => credited a < paid a (tx_outputs t) + fee a
  | _ => False
  end.
Proof.
  intros (_ & Hpol & [_ Hin] & [_ Hout] & _) cr fee. unfold initial_free_balances, add_up_input_balances.
  pose proof (add_up_loop_spec base (tx_inputs t) ∅ 0 Hin ltac:(apply map_Forall_empty) ltac:(done)) as Ha.
  destruct (add_up_loop base (tx_inputs t) ∅ 0) as [[m r]|]; cbn [ok_or obind]; cycle 1.
  { destruct Ha as [Ha|[a Ha]]; [by left|right]. exists a. subst cr. rewrite lookup_empty in Ha. cbn in Ha. exact Ha. }
  destruct Ha as (Hm & Hr & -> & Hd & Hs).
  assert (Hd' : forall a, default 0 (m !! a) = cr a) by (intros a; rewrite Hd, lookup_empty; done).
  destruct (policies_get (tx_policies t) MaxFee) as [f|] eqn:Ef; cbn [ok_or obind]; [|done].
  assert (Hf : max_fee_limit t = f) by (unfold max_fee_limit; by rewrite Ef).
  assert (Hfw : u64_ok f) by (rewrite <- Hf; apply policies_get_ok, Hpol).
  pose proof (deduct_spec m base f Hm Hfw) as Hded.
  destruct (deduct_max_fee_from_base_asset m base f) as [m1|e|]; cbn [obind]; [| |done]; cycle 1.
  { destruct Hded as [-> Hlt]. rewrite Hd' in *. by split_and!. }
  destruct Hded as (Hm1 & Hd1 & Hs1). rewrite <- Hf in Hd1.
  assert (Hs1' : forall a, is_Some (m1 !! a) <-> a = base \/ Exists (brings base a) (tx_inputs t)).
  { intros a. rewrite Hs1, Hs, lookup_empty, is_Some_alt. tauto. }
  pose proof (reduce_spec (tx_outputs t) m1 Hout Hm1) as Hred.
  destruct (reduce_free_balances_by_coin_outputs m1 (tx_outputs t)) as [m2|[]|]; cbn [obind]; try done.
  - destruct Hred as (Hm2 & Hd2 & Hs2 & _). cbn [non_retryable_balances retryable_balance]. split_and!; [|done|done| |lia|].
    + intros a. change (total _ _) with (cr a). rewrite <- Hd'. by apply words_lookup.
    + intros a. change (total _ _) with (cr a). rewrite <- Hd', Hd1, Hd2. subst fee. cbn. lia.
    + intros a. by rewrite Hs2, Hs1'.
  - destruct Hred as [Hnone Hex]. apply eq_None_not_Some in Hnone. rewrite Hs1' in Hnone. tauto.
  - rewrite <- Hd', Hd1. subst fee. cbn. lia.
Qed.

(** The free balances of a valid transaction account for its inputs: for every asset, the
    coins that the inputs bring are the free balance, plus the coin outputs, plus, for the base
    asset, the fee limit; the amounts of data messages are kept apart. The balance of an asset
    exists exactly if an input brings it or it is the base asset. The computation fails only if
    a sum is not a word, if there is no fee limit, or if the inputs do not cover the fee limit
    or the coin outputs, with the matching error. *)
Theorem free_balances_exact {Body : Type} (body_ok : Body -> Prop) (t : Chargeable Body) (base : AssetId) :
  chargeable_ok body_ok t ->
  let credited a := credited base a (tx_inputs t) in
  let fee a := if bool_decide (a = base) then max_fee_limit t else 0 in
  match initial_free_balances t base with
  | Ok av =>
      words (non_retryable_balances av) /\ u64_ok (retryable_balance av) /\
      (forall a, credited a = default 0 (non_retryable_balances av !! a) + paid a (tx_outputs t) + fee a) /\
      retryable_balance av = total retries (tx_inputs t) /\
      (forall a, is_Some (non_retryable_balances av !! a) <-> a = base \/ Exists (brings base a) (tx_inputs t))
  | Err BalanceOverflow => U64 <= total retries (tx_inputs t) \/ exists a, U64 <= credited a
  | Err TransactionMaxFeeNotSet => policies_get (tx_policies t) MaxFee = None
  | Err (InsufficientFeeAmount expected provided) =>
      expected = max_fee_limit t /\ provided = credited base /\ provided < expected
  | Err (TransactionOutputCoinAssetIdNotFound a) =>
      a <> base /\ ~ Exists (brings base a) (tx_inputs t) /\ Exists (fun o => fst <$> pays_out o = Some a) (tx_outputs t)
  | Err (InsufficientInputAmount a _ _) => credited a < paid a (tx_outputs t) + fee a
  | _ => False
  end.
Proof.
  intros Ht cr fee. pose proof (free_balances_spec body_ok t base Ht) as Hs. cbn zeta in Hs.
  destruct (initial_free_balances t base) as [av|[]|]; try exact Hs. apply Hs.
Qed.

(** What settling does to the outputs, for use below. *)
Lemma update_outputs_settles `{Alloc} `{!ExactAlloc} {Body : Type} `{!ChargeableBody Body} (body_ok : Body -> Prop)
    `{!ChargeableLaws Body body_ok} (g : GasCosts) (fee : FeeParameters) (t : Chargeable Body) (price lo hi used : Z)
    (base : AssetId) (av : AvailableBalances) (rb0 rb : RuntimeBalances) (revert : bool) :
  costs_ok g -> fee_ok fee -> chargeable_ok body_ok t -> u64_ok price ->
  min_gas t g fee = Ok lo -> max_gas t g fee = Ok hi -> 0 <= lo -> hi < U64 ->
  0 <= used -> lo + used <= hi -> fee_of fee t price hi <= max_fee_limit t ->
  initial_free_balances t base = Ok av ->
  let initial := mkInitialBalances (non_retryable_balances av) (Some (retryable_balance av, base)) in
  runtime_balances_try_from initial = Ok rb0 ->
  (forall a, is_Some (rb !! a) <-> is_Some (rb0 !! a)) ->
  (forall a b, rb !! a = Some b -> u64_ok (bal_value b)) ->
  NoDup (change_assets (tx_outputs t)) ->
  Forall (fun a => a = base \/ Exists (brings base a) (tx_inputs t)) (change_assets (tx_outputs t)) ->
  let spent a := default 0 (bal_value <$> rb0 !! a) - default 0 (bal_value <$> rb !! a) in
  let of_base (a : AssetId) (x : Z) := if bool_decide (a = base) then x else 0 in
  let charged := fee_of fee t price (lo + used) in
  match update_outputs t revert used initial rb g fee base price with
  | Ok t' => exists amount,
      t' = with_outputs t (tx_outputs t') /\ Forall2 (settled revert amount) (tx_outputs t) (tx_outputs t') /\
      forall a, a ∈ change_assets (tx_outputs t) ->
        if revert
        then credited base a (tx_inputs t) = paid a (tx_outputs t') + change a (tx_outputs t') + of_base a charged
        else credited base a (tx_inputs t) + of_base a (total retries (tx_inputs t)) =
          paid a (tx_outputs t') + change a (tx_outputs t') + spent a + of_base a charged
  | Err e => e = BalanceOverflow /\ revert = false /\
      U64 <= credited base base (tx_inputs t) + total retries (tx_inputs t) - spent base
  | Crash => False
  end.
Proof.
  intros Hg Hfee Ht Hp Elo Ehi Hlo Hhi Hu Hul Hlim Eav initial Erb Hdom Hval Hnd Hch spent of_base charged.
  destruct (refund_fee_exact body_ok g fee t price lo hi used) as [Eref Hcharged]; [done..|].
  pose proof (free_balances_spec body_ok t base Ht) as Hfb. rewrite Eav in Hfb. destruct Hfb as (Hcw & Hw & Hr & Hcr & Hret & Hs).
  pose proof (runtime_balances_spec _ _ base Hw Hr) as Hrb. fold initial in Hrb. rewrite Erb in Hrb.
  set (m := non_retryable_balances av) in *.
  assert (Hrb0 : forall a, default 0 (bal_value <$> rb0 !! a) = default 0 (m !! a) + of_base a (retryable_balance av)).
  { intros a. rewrite (balances_of_value _ _ a Hrb). subst of_base. cbn. destruct (decide (a = base)) as [->|Hne].
    - by rewrite lookup_insert_eq, bool_decide_true.
    - rewrite lookup_insert_ne, bool_decide_false by done. lia. }
  assert (Hsome : forall a, a ∈ change_assets (tx_outputs t) -> is_Some (m !! a) /\ is_Some (rb !! a)).
  { intros a Ha. rewrite Forall_forall in Hch. apply Hch, Hs in Ha. split; [done|]. apply Hdom.
    apply (fmap_is_Some bal_value). rewrite (balances_of_value _ _ a Hrb).
    destruct (decide (a = base)) as [->|Hne]; [rewrite lookup_insert_eq; by eexists|by rewrite lookup_insert_ne]. }
  assert (Hnn : forall a, 0 <= default 0 (bal_value <$> rb !! a)).
  { intros a. destruct (rb !! a) as [b|] eqn:E; cbn; [by apply (Hval a b)|done]. }
  set (refund := max_fee_limit t - charged) in *.
  unfold update_outputs. rewrite Eref. cbn [ok_or obind].
  assert (Hpre : forall a, a ∈ change_assets (tx_outputs t) ->
    (if revert then is_Some (m !! a) else is_Some (rb !! a)) /\ 0 <= change_amount revert refund m rb base a).
  { intros a Ha. destruct (Hsome a Ha). split; [by destruct revert|]. specialize (Hnn a). pose proof (words_lookup m a Hw).
    unfold change_amount, u64_ok, refund, charged in *. destruct revert; case_bool_decide; lia. }
  pose proof (update_output_settled revert refund m (Some (retryable_balance av, base)) rb base (tx_outputs t) Hpre) as Hup.
  fold initial in Hup. unfold change_amount in Hup.
  destruct (try_for_each _ (tx_outputs t)) as [l'|e|]; cbn [obind].
  - eexists. split; [done|]. cbn [with_outputs tx_outputs]. split; [exact Hup|]. intros a Ha.
    rewrite (paid_settled _ _ _ _ a Hup), (change_settled _ _ _ _ a Hup Hnd), decide_True by done.
    rewrite Hcr. subst spent of_base. cbn in *. rewrite Hrb0. destruct revert; case_bool_decide; lia.
  - destruct Hup as (-> & Hin & Hov).
    pose proof (fee_of_bound body_ok fee Hfee t price lo Ht Hp ltac:(unfold u64_ok; lia)).
    rewrite bool_decide_true in Hov by done. specialize (Hcr base). rewrite bool_decide_true in Hcr by done.
    pose proof (paid_nonneg base (tx_outputs t) (proj2 (proj1 (proj2 (proj2 (proj2 Ht)))))).
    pose proof (words_lookup m base Hw). unfold u64_ok in *. subst spent of_base. cbn in *.
    specialize (Hrb0 base). rewrite bool_decide_true in Hrb0 by done. destruct revert; [|split_and!; [done..|lia]].
    exfalso. specialize (Hcw base). unfold u64_ok in *. lia.
  - exact Hup.
Qed.

(** After execution every coin is accounted for. Take a transaction whose free balances are
    [av], which uses gas within its limit and whose fee limit covers its maximal fee, and whose
    change outputs are of distinct assets that it has; let [rb0] be the balances the machine
    started with and [rb] those it ended with. Settling keeps the coin and contract outputs and
    the recipients. If the execution reverted, what the inputs bring of an asset with a change
    output is its coin outputs, its change and, for the base asset, the price of the gas used.
    Otherwise it is, counting data messages, the same plus what the execution spent. Settling
    fails only if the execution succeeded and the inputs bring more of the base asset than a
    word can hold. *)
Theorem settlement_accounts `{Alloc} `{!ExactAlloc} {Body : Type} `{!ChargeableBody Body} (body_ok : Body -> Prop)
    `{!ChargeableLaws Body body_ok} (g : GasCosts) (fee : FeeParameters) (t : Chargeable Body) (price lo hi used : Z)
    (base : AssetId) (av : AvailableBalances) (rb0 rb : RuntimeBalances) (revert : bool) :
  costs_ok g -> fee_ok fee -> chargeable_ok body_ok t -> u64_ok price ->
  min_gas t g fee = Ok lo -> max_gas t g fee = Ok hi -> 0 <= lo -> hi < U64 ->
  0 <= used -> lo + used <= hi -> fee_of fee t price hi <= max_fee_limit t ->
  initial_free_balances t base = Ok av ->
  let initial := mkInitialBalances (non_retryable_balances av) (Some (retryable_balance av, base)) in
  runtime_balances_try_from initial = Ok rb0 ->
  (forall a, is_Some (rb !! a) <-> is_Some (rb0 !! a)) ->
  (forall a b, rb !! a = Some b -> u64_ok (bal_value b)) ->
  NoDup (change_assets (tx_outputs t)) ->
  Forall (fun a => a = base \/ Exists (brings base a) (tx_inputs t)) (change_assets (tx_outputs t)) ->
  let spent a := default 0 (bal_value <$> rb0 !! a) - default 0 (bal_value <$> rb !! a) in
  let of_base (a : AssetId) (x : Z) := if bool_decide (a = base) then x else 0 in
  let charged := fee_of fee t price (lo + used) in
  match update_outputs t revert used initial rb g fee base price with
  | Ok t' => exists amount,
      t' = with_outputs t (tx_outputs t') /\ Forall2 (settled revert amount) (tx_outputs t) (tx_outputs t') /\
      forall a, a ∈ change_assets (tx_outputs t) ->
        if revert
        then credited base a (tx_inputs t) = paid a (tx_outputs t') + change a (tx_outputs t') + of_base a charged
        else credited base a (tx_inputs t) + of_base a (total retries (tx_inputs t)) =
          paid a (tx_outputs t') + change a (tx_outputs t') + spent a + of_base a charged
  | Err e => e = BalanceOverflow /\ revert = false /\
      U64 <= credited base base (tx_inputs t) + total retries (tx_inputs t) - spent base
  | Crash => False
  end.
Proof. exact (update_outputs_settles body_ok g fee t price lo hi used base av rb0 rb revert). Qed.

Lemma free_balances_exact_witness :
  initial_free_balances TxExample.chargeable (TxExample.b32 x00)
  = Ok (mkAvailable {[ TxExample.b32 x00 := 900 ]} 7) /\
  credited (TxExample.b32 x00) (TxExample.b32 x00) (tx_inputs TxExample.chargeable) = 900 + 0 + 100.
Proof.
  assert (E : initial_free_balances TxExample.chargeable (TxExample.b32 x00)
    = Ok (mkAvailable {[ TxExample.b32 x00 := 900 ]} 7)) by (vm_compute; reflexivity).
  pose proof (free_balances_exact script_body_ok TxExample.chargeable (TxExample.b32 x00) TxExample.tx_valid) as H.
  cbn zeta in H. rewrite E in H. split; [exact E|]. destruct H as (_ & _ & H & _).
  exact (H (TxExample.b32 x00)).
Defined.

Module SettleExample.
Definition base : AssetId := TxExample.b32 x00.
(** A generous fee limit. *)
Definition tx : Chargeable ScriptBody :=
  mkChargeable TxExample.body (mkPolicies 8 [0; 0; 0; 500; 0]) (tx_inputs TxExample.chargeable)
    (tx_outputs TxExample.chargeable) (tx_witnesses TxExample.chargeable).
Lemma settle_tx_valid : chargeable_ok script_body_ok tx.
Proof.
  destruct TxExample.tx_valid as (H1 & _ & H3). split; [exact H1|]. split; [|exact H3].
  unfold policies_ok. cbn. repeat split; repeat constructor; done.
Qed.
Definition started : RuntimeBalances :=
  match runtime_balances_try_from (mkInitialBalances {[ base := 500 ]} (Some (7, base))) with Ok rb => rb | _ => ∅ end.
Definition ended : RuntimeBalances := {[ base := mkBalance 400 64 ]}.
Lemma settle_available : initial_free_balances tx base = Ok (mkAvailable {[ base := 500 ]} 7).
Proof. vm_compute. reflexivity. Qed.
Lemma settle_started :
  runtime_balances_try_from (mkInitialBalances {[ base := 500 ]} (Some (7, base))) = Ok started /\
  balances_of (<[base := 507]> {[ base := 500 ]}) started.
Proof.
  pose proof (runtime_balances_spec {[ base := 500 ]} 7 base ltac:(by apply map_Forall_singleton) ltac:(done)) as H.
  rewrite lookup_singleton_eq in H. cbn [default] in H. unfold started.
  destruct (runtime_balances_try_from _) as [rb|e|]; [by split| |done]. destruct H as [_ H]. cbn in H. lia.
Qed.
Lemma settle_min_gas : @min_gas TxExample.exact_alloc _ (@chargeable_script TxExample.exact_alloc) tx FeeExample.costs FeeExample.params = Ok 4028.
Proof. vm_compute. reflexivity. Qed.
Lemma settle_max_gas : @max_gas TxExample.exact_alloc _ (@chargeable_script TxExample.exact_alloc) tx FeeExample.costs FeeExample.params = Ok 4528.
Proof. vm_compute. reflexivity. Qed.
Lemma settle_fee : fee_of FeeExample.params tx 100 4528 <= max_fee_limit tx.
Proof. vm_compute. discriminate. Qed.
Lemma settle_changes :
  (fun r => match r with Ok t' => change base (tx_outputs t') | _ => 0 end)
    (@update_outputs TxExample.exact_alloc _ (@chargeable_script TxExample.exact_alloc) tx false 100
      (mkInitialBalances {[ base := 500 ]} (Some (7, base))) ended FeeExample.costs FeeExample.params base 100) = 487.
Proof. vm_compute. reflexivity. Qed.
Lemma same_assets : forall a, is_Some (ended !! a) <-> is_Some (started !! a).
Proof.
  intros a. rewrite <- (fmap_is_Some bal_value (started !! a)), (balances_of_value _ _ a (proj2 settle_started)).
  unfold ended, RuntimeBalances. destruct (decide (base = a)) as [<-|Hne].
  - rewrite lookup_singleton_eq, lookup_insert_eq. split; intros _; by eexists.
  - by rewrite lookup_insert_ne, !lookup_singleton_ne.
Qed.
Lemma ended_words : forall a b, ended !! a = Some b -> u64_ok (bal_value b).
Proof.
  intros a b Hab. unfold ended, RuntimeBalances in Hab. apply lookup_singleton_Some in Hab as [_ <-].
  unfold u64_ok. cbn [bal_value]. lia.
Qed.
End SettleExample.

Lemma settlement_accounts_witness :
  match @update_outputs TxExample.exact_alloc _ (@chargeable_script TxExample.exact_alloc) SettleExample.tx false 100
      (mkInitialBalances {[ SettleExample.base := 500 ]} (Some (7, SettleExample.base))) SettleExample.ended
      FeeExample.costs FeeExample.params SettleExample.base 100 with
  | Ok t' => change SettleExample.base (tx_outputs t') = 487 /\ exists amount,
      Forall2 (settled false amount) (tx_outputs SettleExample.tx) (tx_outputs t')
  | _ => False
  end.
Proof.
  assert (Hfee : fee_ok FeeExample.params) by done.
  assert (Hprice : u64_ok 100) by done.
  pose proof (@settlement_accounts TxExample.exact_alloc TxExample.exact_alloc_exact _
    (@chargeable_script TxExample.exact_alloc) script_body_ok
    (@script_laws TxExample.exact_alloc TxExample.exact_alloc_exact) FeeExample.costs FeeExample.params SettleExample.tx
    100 4028 4528 100 SettleExample.base (mkAvailable {[ SettleExample.base := 500 ]} 7) SettleExample.started SettleExample.ended false
    FeeExample.costs_valid Hfee SettleExample.settle_tx_valid Hprice SettleExample.settle_min_gas
    SettleExample.settle_max_gas) as H.
  specialize (H ltac:(lia) ltac:(lia) ltac:(lia) ltac:(lia) SettleExample.settle_fee SettleExample.settle_available
    (proj1 SettleExample.settle_started) SettleExample.same_assets SettleExample.ended_words (NoDup_singleton _)
    (proj2 (Forall_singleton _ _) (or_introl eq_refl))).
  cbn [non_retryable_balances retryable_balance] in H. pose proof SettleExample.settle_changes as Hc.
  destruct (@update_outputs _ _ _ _ _ _ _ _ _ _ _ _) as [t'|e|].
  - split; [exact Hc|]. destruct H as (amount & _ & H & _). exists amount. exact H.
  - discriminate Hc.
  - exact H.
Defined.
