(* ===== verification/Init.v ===== *)
(** * Initializing the machine

    [init_inner], [init_script] and [init_predicate]
    (src/fuel-vm/src/interpreter/initialization.rs), [RuntimeBalances::to_vm] (balances.rs),
    [RuntimePredicate::from_tx] (predicate.rs) and [TxParameters::tx_offset] of fuel-tx: the
    machine is cleared, and the id of the transaction, the base asset, the balances, the size
    and the bytes of the transaction are put at the bottom of its stack.

    The state of a run is a [Machine]: the [Interpreter] with the parts of it that concern the
    transaction. [init_script_ready] and [init_predicate_ready] show that initialization
    establishes the invariants under which the runs are proved safe (Run), and the memory
    layout under which the fields of the transaction are found (Gtf). *)

From Stdlib Require Import Strings.Byte.
From S2P Require Import Prelude Asm Merkle Receipts Memory State Gas Alu MemOps Storage Flow Calls Blockchain.
From S2P Require Import MemStorage SlotStorage Crypto Opcodes Steps Run.
From S2P Require Import Canonical TxTypes TxCodec TxInput TxId TxSign TxFee TxOffsets TxFieldBytes Gtf TxBalances.

Record Machine (S Body : Type) : Type := mkMachine {
  m_vm : Interpreter S;
  m_tx : Chargeable Body;
  m_contract_outputs : gmap Z Z;
  m_initial_balances : InitialBalances
}.
Arguments mkMachine {S Body} _ _ _ _.
Arguments m_vm {S Body} _.
Arguments m_tx {S Body} _.
Arguments m_contract_outputs {S Body} _.
Arguments m_initial_balances {S Body} _.

(** [TxParameters::tx_offset] *)
Definition tx_params_tx_offset (max_inputs : Z) : outcome PanicReason Z :=
  let? balances_size := expect (checked_mul max_inputs BALANCE_ENTRY_SIZE) in
  Ok (saturating_add balances_size (32 + WORD_SIZE + 32)).

(** [RuntimePredicate::from_tx] *)
Definition predicate_from_tx `{Alloc} {Body} `{!BodyOffset Body} (tx : Chargeable Body) (tx_offset idx : Z)
  : option RuntimePredicate :=
  match inputs_predicate_offset_at tx idx with
  | Some (ofs, len) => Some (mkRuntimePredicate (range_new (saturating_add ofs tx_offset) len) idx)
  | None => None
  end.

Definition contract_inputs (inputs : list Input) : gset ContractId :=
  list_to_set (omap (fun i => if i is Input_Contract c then Some (inc_contract_id c) else None) inputs).
(** [collect] into a map keeps the last of two outputs with the same input. *)
Fixpoint contract_outputs (output_idx : Z) (outputs : list Output) (m : gmap Z Z) : outcome RuntimeError (gmap Z Z) :=
  match outputs with
  | [] => Ok m
  | Output_Contract c :: rest =>
      if output_idx <? U16 then contract_outputs (output_idx + 1) rest (<[outc_input_index c := output_idx]> m)
      else Crash
  | _ :: rest => contract_outputs (output_idx + 1) rest m
  end.

Section Init.
Context `{Alloc} `{Sha256} {S : Type}.

(** [expect] on a memory update. *)
Definition write_expect (addr : Z) (data : list byte) : M S unit :=
  fun vm =>
    match write_bytes_noownerchecks (memory vm) addr data with
    | Ok m => (Ok tt, set_memory vm m)
    | _ => (Crash, vm)
    end.
Definition grow_stack_expect (new_ssp : Z) : M S unit :=
  fun vm =>
    match grow_stack (memory vm) new_ssp with
    | Ok m => (Ok tt, set_memory vm m)
    | _ => (Crash, vm)
    end.

(** [push_stack!] *)
Definition push_stack (data : list byte) : M S unit :=
  old_ssp <- get_reg RegId.SSP ;;
  new_ssp <- lift (expect (checked_add old_ssp (zlen data))) ;;
  update_memory (fun m => grow_stack m new_ssp) ;;;
  put_reg RegId.SSP new_ssp ;;;
  write_expect old_ssp data.

(** [to_vm]: the writes are disjoint, so the order of the hash map does not matter. *)
Fixpoint write_balances (l : list (AssetId * Balance)) : M S unit :=
  match l with
  | [] => mret tt
  | (asset, balance) :: rest =>
      write_expect (bal_offset balance) asset ;;;
      write_expect (saturating_add (bal_offset balance) 32) (to_be_bytes 8 (bal_value balance)) ;;;
      write_balances rest
  end.
Definition to_vm (balances : RuntimeBalances) : M S unit :=
  max <- gets (fun vm => max_inputs (interpreter_params vm)) ;;
  ssp <- get_reg RegId.SSP ;;
  new_ssp <- lift (expect (checked_add ssp (saturating_mul max BALANCE_ENTRY_SIZE))) ;;
  grow_stack_expect new_ssp ;;;
  put_reg RegId.SSP new_ssp ;;;
  write_balances (map_to_list balances) ;;;
  modify (fun vm => set_balances vm balances).

(** The cleared machine. *)
Definition clear_registers : list Z := reg_put (reg_put (replicate 64 0) RegId.ONE 1) RegId.HP VM_MAX_RAM.
Definition clear_vm (input_contracts : gset ContractId) (vm : Interpreter S) : Interpreter S :=
  mkVM clear_registers (reset (memory vm)) [] (receipts_clear (receipts vm)) input_contracts (storage vm)
    (context vm) (balances vm) (interpreter_params vm) (panic_context vm).

Context {Body : Type} `{!PrepareSign Body} `{!BodyOffset Body} `{!ExecutableBody Body}.

(** The id and the bytes of a transaction; encoding it panics if it fails. *)
Definition expect_bytes {A} (x : outcome CanonicalError A) : outcome RuntimeError A :=
  match x with Ok a => Ok a | _ => Crash end.

Definition init_inner (c : Codec Body) (tx : Chargeable Body) (initial_balances : InitialBalances)
    (runtime_balances : RuntimeBalances) (gas_limit : Z) (vm : Interpreter S)
  : outcome RuntimeError (Machine S Body) :=
  let tx := chargeable_prepare_sign tx in
  let? index := contract_outputs 0 (tx_outputs tx) ∅ in
  let run : M S unit :=
    chain <- gets (fun vm => chain_id (interpreter_params vm)) ;;
    id <- lift (expect_bytes (chargeable_id c chain tx)) ;;
    push_stack id ;;;
    base <- gets (fun vm => base_asset_id (interpreter_params vm)) ;;
    push_stack base ;;;
    to_vm runtime_balances ;;;
    set_gas gas_limit ;;;
    push_stack (to_be_bytes 8 (size (c_chargeable c) tx)) ;;;
    tx_bytes <- lift (expect_bytes (canonical_to_bytes (c_chargeable c) tx)) ;;
    push_stack tx_bytes ;;;
    ssp <- get_reg RegId.SSP ;;
    put_reg RegId.SP ssp in
  match run (clear_vm (contract_inputs (tx_inputs tx)) vm) with
  | (Ok _, vm) => Ok (mkMachine vm tx index initial_balances)
  | (Err e, _) => Err e
  | (Crash, _) => Crash
  end.

(** Errors of [init_script]: [InterpreterError] from a [RuntimeError] or a [ValidityError]. *)
Inductive InitError : Type := Init_Runtime (e : RuntimeError) | Init_Validity (e : ValidityError).

Definition set_program (machine : Machine S Body) (offset : Z) : Machine S Body :=
  mkMachine (set_reg (set_reg (m_vm machine) RegId.PC offset) RegId.IS offset) (m_tx machine)
    (m_contract_outputs machine) (m_initial_balances machine).

(** [block_height] is what the storage answers; a script has the given balances from checking. *)
Definition init_script (c : Codec Body) (block_height : option Z) (tx : Chargeable Body) (initial_balances : InitialBalances)
    (vm : Interpreter S) : outcome InitError (Machine S Body) :=
  let? block_height := ok_or block_height (Init_Runtime Storage) in
  let vm := set_context vm (Script_ block_height) in
  let gas_limit := match executable_type (tx_body tx) with ExTx_Script s => script_gas_limit s | _ => 0 end in
  let? runtime_balances := omap_err Init_Validity (runtime_balances_try_from initial_balances) in
  let? machine := omap_err Init_Runtime (init_inner c tx initial_balances runtime_balances gas_limit vm) in
  match executable_type (tx_body (m_tx machine)) with
  | ExTx_Script _ =>
      Ok (set_program machine (saturating_add (tx_offset (interpreter_params vm)) script_offset_static))
  | _ => Ok machine
  end.

(** A predicate runs without balances. *)
Definition init_predicate (c : Codec Body) (context : Context_) (tx : Chargeable Body) (gas_limit : Z) (vm : Interpreter S)
  : outcome InitError (Machine S Body) :=
  let vm := set_context vm context in
  let initial_balances := mkInitialBalances ∅ None in
  let? runtime_balances := omap_err Init_Validity (runtime_balances_try_from initial_balances) in
  let? program := expect (context_predicate context) in
  let? machine := omap_err Init_Runtime (init_inner c tx initial_balances runtime_balances gas_limit vm) in
  Ok (set_program machine (r_start (rp_range program))).
End Init.

(** ** The stack during initialization *)

Section Stack.
Context {S : Type}.
Implicit Types (vm : Interpreter S).

(** Everything is on the stack, which ends at [top]. *)
Record stacked vm (top : Z) : Prop := {
  st_ssp : reg vm RegId.SSP = top;
  st_regs : zlen (registers vm) = 64;
  st_wf : mem_wf (memory vm);
  st_hp : mhp (memory vm) = MEM_SIZE;
  st_top : zlen (stack (memory vm)) = top
}.

Lemma stacked_set_memory vm top m :
  stacked vm top -> same_shape (memory vm) m -> stacked (set_memory vm m) top.
Proof.
  intros [] Hs. pose proof (same_shape_wf _ _ Hs st_wf0) as Hwf. destruct Hs as (Hs1 & _ & Hs2).
  split; cbn [memory set_memory]; try done; congruence.
Qed.

Lemma stacked_grow vm top n :
  stacked vm top -> 0 <= n -> top + n <= VM_MAX_RAM ->
  exists m, grow_stack (memory vm) (top + n) = Ok m /\
    stacked (set_memory (set_reg vm RegId.SSP (top + n)) m) (top + n) /\
    forall x, x < top -> mem_get m x = mem_get (memory vm) x.
Proof.
  intros [] Hn Hle. pose proof (zlen_nonneg (stack (memory vm))) as Htop. rewrite st_top0 in Htop.
  pose proof (grow_stack_spec (memory vm) (top + n) st_wf0 ltac:(lia)) as Hg.
  destruct (grow_stack (memory vm) (top + n)) as [m|e|]; [|exfalso; destruct Hg as [_ Hg]; mem_lia|done].
  destruct Hg as (Hwf & _ & Hhp & Hlen & Hget). exists m. split; [done|]. split.
  - split; cbn [memory set_memory set_reg registers]; try done.
    + rewrite reg_set_memory. by apply reg_set_eq.
    + by rewrite zlen_set_reg.
    + congruence.
    + rewrite Hlen, st_top0. lia.
  - intros x Hx. rewrite Hget, st_top0. case_if; [lia|done].
Qed.

Lemma push_stack_eq vm top d :
  stacked vm top -> top + zlen d <= VM_MAX_RAM ->
  exists m, push_stack d vm = (Ok tt, set_memory (set_reg vm RegId.SSP (top + zlen d)) m) /\
    stacked (set_memory (set_reg vm RegId.SSP (top + zlen d)) m) (top + zlen d) /\
    mem_shows m top d /\ forall x, x < top -> mem_get m x = mem_get (memory vm) x.
Proof.
  intros Hst Hle. pose proof (zlen_nonneg d) as Hd.
  destruct (stacked_grow vm top (zlen d) Hst Hd Hle) as (m1 & Hg & Hst1 & Hlow).
  destruct Hst1 as [Hssp Hregs Hwf Hhp Htop]. cbn [memory set_memory] in *.
  assert (Hacc : accessible m1 top (zlen d)).
  { pose proof (zlen_nonneg (stack (memory vm))). rewrite (st_top _ _ Hst) in *. split_and!; [lia|lia|mem_lia|lia]. }
  destruct (write_bytes_noownerchecks_Ok m1 top d Hwf Hacc) as (m & Hw & Hu).
  exists m. split; [|split; [|split]].
  - unfold push_stack, mbind_, get_reg, gets, lift, update_memory, put_reg, modify, write_expect.
    rewrite (st_ssp _ _ Hst). unfold checked_add. rewrite (proj2 (Z.ltb_lt _ _)) by (unfold VM_MAX_RAM in *; lia).
    cbn [expect]. rewrite Hg. rewrite memory_set_reg. cbn [memory set_memory]. by rewrite Hw.
  - destruct Hu as [Hs _]. pose proof (same_shape_wf _ _ Hs Hwf) as Hwf'. destruct Hs as (Hs1 & _ & Hs2).
    split; cbn [memory set_memory]; try done; congruence.
  - by apply mem_upd_shows in Hu.
  - intros x Hx. rewrite <- (Hlow x Hx). destruct Hu as [_ Hu]. rewrite Hu. case_if; [lia|done].
Qed.

(** The window of an entry of the balances. *)
Definition window (e : AssetId * Balance) (x : Z) : Prop := bal_offset e.2 <= x < bal_offset e.2 + 40.

Lemma write_balances_eq l : forall vm,
  mem_wf (memory vm) ->
  Forall (fun e => zlen e.1 = 32 /\ 0 <= bal_offset e.2 /\ bal_offset e.2 + 40 <= zlen (stack (memory vm))) l ->
  NoDup l -> (forall e f x, e ∈ l -> f ∈ l -> window e x -> window f x -> e = f) ->
  exists m, write_balances l vm = (Ok tt, set_memory vm m) /\ same_shape (memory vm) m /\
    (forall x, (forall e, e ∈ l -> ~ window e x) -> mem_get m x = mem_get (memory vm) x) /\
    Forall (fun e => mem_shows m (bal_offset e.2) (e.1 ++ to_be_bytes 8 (bal_value e.2))) l.
Proof.
  induction l as [|[a b] l IH]; intros vm Hwf Hl Hnd Hdis.
  { exists (memory vm). split; [by destruct vm|]. done. }
  apply Forall_cons in Hl as [(Ha & Ho & Hfit) Hl]. cbn [fst snd] in *. apply NoDup_cons in Hnd as [Hnin Hnd].
  assert (Hms : zlen (stack (memory vm)) <= MEM_SIZE) by (destruct Hwf; lia).
  destruct (write_bytes_noownerchecks_Ok (memory vm) (bal_offset b) a Hwf) as (m1 & E1 & Hu1).
  { rewrite Ha. split_and!; lia. }
  assert (Hwf1 := mem_upd_wf _ _ _ _ Hu1 Hwf). pose proof (proj1 (proj1 Hu1)) as Hs1.
  assert (Esat : saturating_add (bal_offset b) 32 = bal_offset b + 32) by (unfold saturating_add; mem_lia).
  destruct (write_bytes_noownerchecks_Ok m1 (bal_offset b + 32) (to_be_bytes 8 (bal_value b)) Hwf1) as (m2 & E2 & Hu2).
  { rewrite zlen_to_be_bytes. split_and!; lia. }
  assert (Hwf2 := mem_upd_wf _ _ _ _ Hu2 Hwf1). pose proof (proj1 Hu1) as Hsh1. pose proof (proj1 Hu2) as Hsh2.
  assert (Hsh : same_shape (memory vm) m2) by (destruct Hsh1 as (? & ? & ?), Hsh2 as (? & ? & ?); split_and!; congruence).
  assert (Hget2 : forall x, ~ window (a, b) x -> mem_get m2 x = mem_get (memory vm) x).
  { intros x Hx. unfold window in Hx. cbn in Hx. destruct Hu1 as [_ Hu1], Hu2 as [_ Hu2]. rewrite Hu2, Hu1, Ha, zlen_to_be_bytes.
    repeat case_if; try lia. done. }
  assert (Hshow2 : mem_shows m2 (bal_offset b) (a ++ to_be_bytes 8 (bal_value b))).
  { intros i Hi. rewrite zlen_app, Ha, zlen_to_be_bytes in Hi. destruct Hu1 as [_ Hu1], Hu2 as [_ Hu2].
    rewrite Hu2, Hu1, zget_app, Ha, zlen_to_be_bytes. repeat case_if; try lia; f_equal; lia. }
  destruct (IH (set_memory vm m2)) as (m & Ew & Hsh' & Hout & Hshows); cbn [memory set_memory].
  - done.
  - rewrite (proj1 Hsh). done.
  - done.
  - intros e f x He Hf. apply Hdis; by right.
  - exists m. split_and!.
    + cbn [write_balances]. unfold mbind_, write_expect. cbn [fst snd]. rewrite E1. cbn [memory set_memory].
      rewrite Esat, E2. exact Ew.
    + destruct Hsh as (? & ? & ?), Hsh' as (? & ? & ?). cbn [memory set_memory] in *. split_and!; congruence.
    + intros x Hx. rewrite Hout, Hget2; [done|apply Hx; left|intros e He; apply Hx; by right].
    + constructor; [|exact Hshows]. cbn [fst snd]. intros i Hi. rewrite Hout; [by apply Hshow2|].
      intros e He Hw. rewrite zlen_app, Ha, zlen_to_be_bytes in Hi.
      assert ((a, b) = e) as <-; [|done]. apply (Hdis _ _ (bal_offset b + i)); [left|by right| |done].
      unfold window. cbn. lia.
Qed.
End Stack.

Lemma balance_offset_eq k : 0 <= k < U16 -> balance_offset k = 64 + 40 * k.
Proof.
  intros Hk. unfold balance_offset, saturating_add, saturating_mul, VM_MEMORY_BALANCES_OFFSET, BALANCE_ENTRY_SIZE, WORD_SIZE, U16 in *.
  lia.
Qed.

Lemma balances_of_entry m (rb : RuntimeBalances) :
  balances_of m rb -> Z.of_nat (base.size m) < U16 ->
  exists pos : AssetId -> Z, forall a b, rb !! a = Some b ->
    0 <= pos a < Z.of_nat (base.size m) /\ bal_offset b = 64 + 40 * pos a /\ m !! a = Some (bal_value b) /\
    forall a' b', rb !! a' = Some b' -> pos a = pos a' -> a = a'.
Proof.
  intros (l & Hp & _ & Hl & Hn) Hsz. assert (Hlen : length l = base.size m).
  { rewrite Hp. by rewrite <- length_map_to_list. }
  assert (Hpos : forall a b, rb !! a = Some b -> exists k v, l !! k = Some (a, v) /\ b = mkBalance v (balance_offset (Z.of_nat k))).
  { intros a b Hb. destruct (m !! a) as [v|] eqn:E; [|by rewrite Hn in Hb].
    assert (Hin : (a, v) ∈ l) by (by rewrite Hp, elem_of_map_to_list).
    apply list_elem_of_lookup_1 in Hin as [k Hk]. rewrite (Hl k a v Hk) in Hb. exists k, v. split; [done|congruence]. }
  exists (fun a => default 0 (Z.of_nat ∘ fst <$> list_find (fun e => e.1 = a) l)). intros a b Hb.
  assert (Hfind : forall a b, rb !! a = Some b -> exists k v, list_find (fun e => e.1 = a) l = Some (k, (a, v)) /\ l !! k = Some (a, v) /\
    b = mkBalance v (balance_offset (Z.of_nat k))).
  { intros x y Hy. destruct (Hpos x y Hy) as (k & v & Hk & ->).
    destruct (list_find_elem_of (fun e : AssetId * Z => e.1 = x) l (x, v)) as [[k' [x' v']] Hf];
      [by eapply list_elem_of_lookup_2|done|].
    pose proof Hf as Hf'. apply list_find_Some in Hf' as (Hk' & Ex & _). cbn in Ex. subst x'.
    exists k', v'. split_and!; [done|done|]. pose proof (Hl k' x v' Hk') as E. rewrite (Hl k x v Hk) in E. congruence. }
  destruct (Hfind a b Hb) as (k & v & Ef & Hk & ->). rewrite Ef. cbn.
  pose proof (lookup_lt_Some _ _ _ Hk) as Hlt. rewrite Hlen in Hlt.
  split_and!; [lia|lia|apply balance_offset_eq; unfold U16 in *; lia| |].
  - apply elem_of_map_to_list. rewrite <- Hp. by eapply list_elem_of_lookup_2.
  - intros a' b' Hb' E. destruct (Hfind a' b' Hb') as (k' & v' & Ef' & Hk' & _). rewrite Ef' in E. cbn in E.
    assert (k = k') as <- by lia. congruence.
Qed.

Lemma to_vm_eq {S} (vm : Interpreter S) m rb :
  let n := max_inputs (interpreter_params vm) in
  stacked vm 64 -> balances_of m rb -> Z.of_nat (base.size m) <= n -> n < U16 -> 64 + 40 * n <= VM_MAX_RAM ->
  (forall a, is_Some (m !! a) -> zlen a = 32) ->
  let vm' mm := set_balances (set_memory (set_reg vm RegId.SSP (64 + 40 * n)) mm) rb in
  exists mm, to_vm rb vm = (Ok tt, vm' mm) /\ stacked (vm' mm) (64 + 40 * n) /\
    (forall x, x < 64 -> mem_get mm x = mem_get (memory vm) x) /\
    forall a b, rb !! a = Some b -> mem_shows mm (bal_offset b) (a ++ to_be_bytes 8 (bal_value b)).
Proof.
  intros n Hst Hb Hsz Hn Hle Hlen vm'. assert (Hn0 : 0 <= n) by lia.
  destruct (balances_of_entry m rb Hb ltac:(lia)) as [pos Hpos].
  destruct (stacked_grow vm 64 (40 * n) Hst ltac:(lia) Hle) as (m1 & Hg & Hst1 & Hlow).
  set (vm1 := set_memory (set_reg vm RegId.SSP (64 + 40 * n)) m1) in *.
  destruct (write_balances_eq (map_to_list rb) vm1) as (mm & Ew & Hsh & Hout & Hshow).
  - apply Hst1.
  - apply Forall_forall. intros [a b] Hin. apply elem_of_map_to_list in Hin. cbn [fst snd].
    destruct (Hpos a b Hin) as (Hk & -> & Hm & _). split; [apply Hlen; by eexists|]. rewrite (st_top _ _ Hst1). lia.
  - apply NoDup_map_to_list.
  - intros [a b] [a' b'] x He Hf. apply elem_of_map_to_list in He, Hf. unfold window. cbn [snd].
    destruct (Hpos a b He) as (_ & -> & _ & Hinj), (Hpos a' b' Hf) as (_ & -> & _ & _). intros Hx Hx'.
    assert (a = a') as <- by (apply (Hinj a' b' Hf); lia). congruence.
  - exists mm. split_and!.
    + unfold to_vm, mbind_, get_reg, gets, lift, put_reg, modify, grow_stack_expect. fold n. rewrite (st_ssp _ _ Hst).
      assert (Emul : saturating_mul n BALANCE_ENTRY_SIZE = 40 * n) by (unfold saturating_mul, BALANCE_ENTRY_SIZE, WORD_SIZE, U16 in *; lia).
      rewrite Emul. unfold checked_add. rewrite (proj2 (Z.ltb_lt _ _)) by (unfold VM_MAX_RAM in *; lia). cbn [expect].
      rewrite Hg.
      match goal with |- context [write_balances ?l ?v] =>
        assert (E : write_balances l v = (Ok tt, set_memory vm1 mm)) by exact Ew; rewrite E end. done.
    + pose proof (stacked_set_memory vm1 _ mm Hst1 Hsh) as []. split; done.
    + intros x Hx. rewrite <- Hlow by lia. apply Hout. intros [a b] Hin. apply elem_of_map_to_list in Hin. unfold window. cbn.
      destruct (Hpos a b Hin) as (Hk & -> & _). lia.
    + intros a b Hab. rewrite Forall_forall in Hshow. apply (Hshow (a, b)). by apply elem_of_map_to_list.
Qed.

(** ** Preparing for signing twice *)

Class PrepareIdem (Body : Type) `{PrepareSign Body} : Prop :=
  prepare_sign_idem (b : Body) : prepare_sign (prepare_sign b) = prepare_sign b.
#[export] Instance script_idem : PrepareIdem ScriptBody.
Proof. by intros []. Qed.
#[export] Instance create_idem : PrepareIdem CreateBody.
Proof. done. Qed.
#[export] Instance upgrade_idem : PrepareIdem UpgradePurpose.
Proof. done. Qed.
#[export] Instance upload_idem : PrepareIdem UploadBody.
Proof. done. Qed.
#[export] Instance blob_idem : PrepareIdem BlobBody.
Proof. done. Qed.

Section Prepared.
Context {Body : Type} `{!PrepareSign Body} `{!PrepareIdem Body}.

Lemma map_idem {A} (f : A -> A) l : (forall x, f (f x) = f x) -> map f (map f l) = map f l.
Proof. intros Hf. rewrite map_map. by apply map_ext. Qed.

Lemma chargeable_prepare_idem (t : Chargeable Body) :
  chargeable_prepare_sign (chargeable_prepare_sign t) = chargeable_prepare_sign t.
Proof.
  unfold chargeable_prepare_sign. cbn. rewrite prepare_sign_idem, !map_idem; [done| |].
  - by intros [].
  - by intros [].
Qed.

Lemma chargeable_prepared_ok (body_ok : Body -> Prop) t :
  (forall b, body_ok b -> body_ok (prepare_sign b)) -> chargeable_ok body_ok t ->
  chargeable_ok body_ok (chargeable_prepare_sign t).
Proof.
  intros Hb Ht. destruct (chargeable_prepare_ok body_ok t Hb Ht) as (H1 & H2 & H3 & H4 & _).
  destruct Ht as (_ & _ & _ & _ & H5). exact (conj H1 (conj H2 (conj H3 (conj H4 H5)))).
Qed.
End Prepared.

(** ** What initialization establishes *)

(** The memory and the registers after initialization, for the bytes [bs] of the prepared
    transaction. *)
Record initialized {S} (vm0 vm : Interpreter S) (id bs : list byte) (rb : RuntimeBalances) (gas_limit : Z) : Prop := {
  in_wf : mem_wf (memory vm);
  in_id : read (memory vm) 0 32 = Ok id;
  in_base : read (memory vm) 32 32 = Ok (base_asset_id (interpreter_params vm));
  in_balances a b : rb !! a = Some b -> read (memory vm) (bal_offset b) 40 = Ok (a ++ to_be_bytes 8 (bal_value b));
  in_size : read (memory vm) (tx_offset (interpreter_params vm) - 8) 8 = Ok (to_be_bytes 8 (zlen bs));
  in_bytes : read (memory vm) (tx_offset (interpreter_params vm)) (zlen bs) = Ok bs;
  in_hp : mhp (memory vm) = MEM_SIZE;
  in_stack : zlen (stack (memory vm)) = tx_offset (interpreter_params vm) + zlen bs;
  in_len : zlen (registers vm) = 64;
  in_regs i : 0 <= i < 64 -> reg vm i =
    if i =? RegId.ONE then 1 else if i =? RegId.HP then VM_MAX_RAM
    else if (i =? RegId.SSP) || (i =? RegId.SP) then tx_offset (interpreter_params vm) + zlen bs
    else if (i =? RegId.GGAS) || (i =? RegId.CGAS) then gas_limit else 0;
  in_frames : frames vm = [];
  in_receipts : receipts vm = receipts_default;
  in_context : context vm = context vm0;
  in_storage : storage vm = storage vm0;
  in_free : balances vm = rb;
  in_params : interpreter_params vm = interpreter_params vm0
}.

Lemma shows_read_stack m a d :
  mem_wf m -> 0 <= a -> a + zlen d <= zlen (stack m) -> mem_shows m a d -> read m a (zlen d) = Ok d.
Proof.
  intros Hwf Ha Hle Hs. apply mem_shows_read; [done| |done]. destruct Hwf. pose proof (zlen_nonneg d).
  split_and!; lia.
Qed.

Lemma shows_below m m' top a d :
  mem_shows m a d -> a + zlen d <= top -> (forall x, x < top -> mem_get m' x = mem_get m x) -> mem_shows m' a d.
Proof. intros Hs Hle Hlow i Hi. rewrite Hlow by lia. by apply Hs. Qed.

Lemma reg_set_cases {S} (vm : Interpreter S) i v j :
  zlen (registers vm) = 64 -> 0 <= i < 64 -> 0 <= j < 64 -> reg (set_reg vm i v) j = if j =? i then v else reg vm j.
Proof.
  intros Hl Hi Hj. case_if; zbool; [subst; by apply reg_set_eq|]. apply reg_set_ne; lia.
Qed.

Lemma reg_clear {S} ics (vm : Interpreter S) i :
  0 <= i < 64 ->
  reg (clear_vm ics vm) i = if i =? RegId.ONE then 1 else if i =? RegId.HP then VM_MAX_RAM else 0.
Proof.
  intros Hi. change (reg_get clear_registers i = if i =? RegId.ONE then 1 else if i =? RegId.HP then VM_MAX_RAM else 0).
  assert (Hin : i ∈ seqZ 0 64) by (apply elem_of_seqZ; lia). clear Hi. revert i Hin. apply Forall_forall.
  vm_compute. repeat constructor.
Qed.

(** What the bottom of the stack shows. *)
Record layout (m : MemoryInstance) (n : Z) (id base : list byte) (rb : RuntimeBalances) (bs : list byte) : Prop := {
  lo_id : mem_shows m 0 id /\ zlen id = 32;
  lo_base : mem_shows m 32 base /\ zlen base = 32;
  lo_balances a b : rb !! a = Some b -> zlen a = 32 /\ 64 <= bal_offset b /\ bal_offset b + 40 <= 64 + 40 * n /\
    mem_shows m (bal_offset b) (a ++ to_be_bytes 8 (bal_value b));
  lo_size : mem_shows m (64 + 40 * n) (to_be_bytes 8 (zlen bs));
  lo_bytes : mem_shows m (72 + 40 * n) bs
}.

Lemma layout_initialized {S} (vm0 vm : Interpreter S) n id bs rb gas :
  layout (memory vm) n id (base_asset_id (interpreter_params vm)) rb bs -> 0 <= n ->
  tx_offset (interpreter_params vm) = 72 + 40 * n -> stacked vm (72 + 40 * n + zlen bs) ->
  (forall i, 0 <= i < 64 -> reg vm i =
    if i =? RegId.ONE then 1 else if i =? RegId.HP then VM_MAX_RAM
    else if (i =? RegId.SSP) || (i =? RegId.SP) then 72 + 40 * n + zlen bs
    else if (i =? RegId.GGAS) || (i =? RegId.CGAS) then gas else 0) ->
  frames vm = [] -> receipts vm = receipts_default -> context vm = context vm0 -> storage vm = storage vm0 ->
  balances vm = rb -> interpreter_params vm = interpreter_params vm0 ->
  initialized vm0 vm id bs rb gas.
Proof.
  intros [[Hid1 Hid2] [Hb1 Hb2] Hbal Hsz Hbs] Hn Hofs [] Hregs ? ? ? ? ? ?. pose proof (zlen_nonneg bs).
  assert (Hw8 : zlen (to_be_bytes 8 (zlen bs)) = 8) by apply zlen_to_be_bytes.
  split; rewrite ?Hofs; try done.
  - pose proof (shows_read_stack (memory vm) 0 id st_wf0 ltac:(lia) ltac:(lia) Hid1) as Hr. by rewrite Hid2 in Hr.
  - pose proof (shows_read_stack (memory vm) 32 (base_asset_id (interpreter_params vm)) st_wf0 ltac:(lia) ltac:(lia) Hb1) as Hr. by rewrite Hb2 in Hr.
  - intros a b Hab. destruct (Hbal a b Hab) as (Ha & Hlo & Hhi & Hs).
    assert (He : zlen (a ++ to_be_bytes 8 (bal_value b)) = 40) by (by rewrite zlen_app, Ha, zlen_to_be_bytes).
    pose proof (shows_read_stack (memory vm) (bal_offset b) (a ++ to_be_bytes 8 (bal_value b)) st_wf0 ltac:(lia) ltac:(rewrite He; lia) Hs) as Hr. by rewrite He in Hr.
  - replace (72 + 40 * n - 8) with (64 + 40 * n) by lia.
    pose proof (shows_read_stack (memory vm) (64 + 40 * n) (to_be_bytes 8 (zlen bs)) st_wf0 ltac:(lia) ltac:(rewrite Hw8; lia) Hsz) as Hr. by rewrite Hw8 in Hr.
  - apply shows_read_stack; [done|lia|lia|done].
Qed.

Section Ready.
Context `{Alloc} `{!ExactAlloc} `{Sha256} {S Body : Type}.
Context `{!PrepareSign Body} `{!PrepareIdem Body} `{!BodyOffset Body} `{!ExecutableBody Body}.
Context (c : Codec Body) (body_ok : Body -> Prop).
Hypothesis (Hlaw : lawful c body_ok) (Hprep : forall b, body_ok b -> body_ok (prepare_sign b)).
Hypothesis Hsha : forall l, zlen (sha256 l) = 32.

(** What the consensus parameters and the checks of a transaction guarantee: the transaction is
    valid and fits, and there are at most [max_inputs] balances. *)
Record initializable (vm : Interpreter S) (t : Chargeable Body) (m : gmap AssetId Z) (bs : list byte) : Prop := {
  ib_tx : chargeable_ok body_ok t;
  ib_outputs : zlen (tx_outputs t) <= U16;
  ib_bytes : encode (c_chargeable c) (chargeable_prepare_sign t) = Ok bs;
  ib_max : max_inputs (interpreter_params vm) < U16;
  ib_offset : tx_params_tx_offset (max_inputs (interpreter_params vm)) = Ok (tx_offset (interpreter_params vm));
  ib_fits : tx_offset (interpreter_params vm) + zlen bs <= VM_MAX_RAM;
  ib_base : zlen (base_asset_id (interpreter_params vm)) = 32;
  ib_balances : Z.of_nat (base.size m) <= max_inputs (interpreter_params vm);
  ib_assets a : is_Some (m !! a) -> zlen a = 32;
  ib_mem : mem_wf (memory vm)
}.

Lemma tx_offset_eq n ofs : 0 <= n < U16 -> tx_params_tx_offset n = Ok ofs -> ofs = 72 + 40 * n.
Proof.
  intros Hn. unfold tx_params_tx_offset, checked_mul, BALANCE_ENTRY_SIZE, WORD_SIZE, U16 in *.
  destruct (n * _ <? U64) eqn:E; [|lia]. cbn [expect obind]. unfold saturating_add. intros [= <-]. lia.
Qed.

Lemma contract_outputs_ok l : forall i m, 0 <= i -> i + zlen l <= U16 -> exists m', contract_outputs i l m = Ok m'.
Proof.
  induction l as [|o l IH]; intros i m Hi Hl; [by eexists|]. rewrite zlen_cons_succ in Hl. pose proof (zlen_nonneg l).
  destruct o; cbn [contract_outputs]; try (apply IH; lia). case_if; [apply IH; lia|lia].
Qed.

Lemma id_bytes chain t : chargeable_ok body_ok t ->
  exists id, chargeable_id c chain t = Ok id /\ zlen id = 32 /\ chargeable_id c chain (chargeable_prepare_sign t) = Ok id.
Proof.
  intros Ht. unfold chargeable_id. rewrite chargeable_prepare_idem. unfold compute_transaction_id, canonical_to_bytes.
  destruct (c_chargeable_lawful c body_ok Hlaw _ (chargeable_prepare_ok body_ok t Hprep Ht)) as (s & b1 & b2 & He).
  apply encodes_all in He as (-> & _). cbn [obind]. eauto.
Qed.

Lemma init_inner_spec vm t m bs initial rb gas_limit :
  initializable vm t m bs -> balances_of m rb ->
  exists id vm' index,
    init_inner c t initial rb gas_limit vm = Ok (mkMachine vm' (chargeable_prepare_sign t) index initial) /\
    contract_outputs 0 (tx_outputs (chargeable_prepare_sign t)) ∅ = Ok index /\
    chargeable_id c (chain_id (interpreter_params vm)) t = Ok id /\
    input_contracts vm' = contract_inputs (tx_inputs (chargeable_prepare_sign t)) /\
    initialized vm vm' id bs rb gas_limit.
Proof.
  intros [] Hb. set (p := interpreter_params vm) in *. set (t' := chargeable_prepare_sign t) in *.
  assert (Hn : 0 <= max_inputs p) by (pose proof (zlen_nonneg bs); lia).
  pose proof (tx_offset_eq _ _ (conj Hn ib_max0) ib_offset0) as Hofs. pose proof (zlen_nonneg bs) as Hbs.
  destruct (id_bytes (chain_id p) t ib_tx0) as (id & Eid & Hid & Eid'). fold t' in Eid'.
  destruct (contract_outputs_ok (tx_outputs t') 0 ∅) as [index Eix]; [done|subst t'; unfold zlen in *; cbn; rewrite length_map; lia|].
  assert (Esize : size (c_chargeable c) t' = zlen bs).
  { destruct (c_chargeable_lawful c body_ok Hlaw _ (chargeable_prepared_ok body_ok t Hprep ib_tx0)) as (s & b1 & b2 & He).
    apply encodes_all in He as (E & Hs & _). fold t' in E, Hs. rewrite Hs. assert (bs = b1 ++ b2) as <- by congruence.
    unfold USIZE_MAX, VM_MAX_RAM in *. lia. }
  set (vm0 := clear_vm (contract_inputs (tx_inputs t')) vm).
  assert (Hst0 : stacked vm0 0).
  { split; cbn; try done. by apply reset_wf. }
  assert (Hw8 : zlen (to_be_bytes 8 (zlen bs)) = 8) by apply zlen_to_be_bytes.
  destruct (push_stack_eq vm0 0 id Hst0 ltac:(rewrite Hid; done)) as (m1 & E1 & Hst1 & Hsh1 & Hlow1).
  rewrite Hid in *. set (vm1 := set_memory _ m1) in *.
  destruct (push_stack_eq vm1 32 (base_asset_id p) Hst1 ltac:(rewrite ib_base0; done)) as (m2 & E2 & Hst2 & Hsh2 & Hlow2).
  rewrite ib_base0 in *. set (vm2 := set_memory _ m2) in *.
  destruct (to_vm_eq vm2 m rb Hst2 Hb ib_balances0 ib_max0 ltac:(change (interpreter_params vm2) with p; lia) ib_assets0)
    as (m3 & E3 & Hst3 & Hlow3 & Hshow3). change (interpreter_params vm2) with p in *.
  set (vm3 := set_balances _ rb) in *.
  set (vm4 := set_reg (set_reg vm3 RegId.GGAS gas_limit) RegId.CGAS gas_limit).
  assert (Hst4 : stacked vm4 (64 + 40 * max_inputs p)).
  { destruct Hst3. by split. }
  destruct (push_stack_eq vm4 _ (to_be_bytes 8 (zlen bs)) Hst4 ltac:(rewrite Hw8; lia)) as (m5 & E5 & Hst5 & Hsh5 & Hlow5).
  rewrite Hw8 in *. set (vm5 := set_memory _ m5) in *.
  destruct (push_stack_eq vm5 _ bs Hst5 ltac:(lia)) as (m6 & E6 & Hst6 & Hsh6 & Hlow6).
  set (vm6 := set_memory _ m6) in *.
  exists id, (set_reg vm6 RegId.SP (reg vm6 RegId.SSP)), index.
  split; [|split; [done|split; [done|split; [done|]]]].
  { unfold init_inner. fold t'. rewrite Eix. cbn [obind]. fold vm0.
    unfold mbind_ at 1. unfold gets at 1. change (interpreter_params vm0) with p.
    unfold mbind_ at 1. rewrite Eid'. unfold lift at 1. cbn [expect_bytes].
    unfold mbind_ at 1. rewrite E1. unfold mbind_ at 1. unfold gets at 1. change (interpreter_params vm1) with p.
    unfold mbind_ at 1. rewrite E2. unfold mbind_ at 1. rewrite E3. fold vm3.
    unfold mbind_ at 1. change (set_gas gas_limit vm3) with (Ok (E := RuntimeError) tt, vm4).
    rewrite Esize. unfold mbind_ at 1. rewrite E5. unfold mbind_ at 1. unfold canonical_to_bytes, lift. rewrite ib_bytes0.
    cbn [expect_bytes]. unfold mbind_ at 1. rewrite E6. reflexivity. }
  assert (Hlay : layout m6 (max_inputs p) id (base_asset_id p) rb bs).
  { assert (Hsh1' : mem_shows m2 0 id) by (apply (shows_below m1 m2 32); [done|rewrite Hid; lia|done]).
    split.
    + split; [|done]. apply (shows_below m5 m6 (64 + 40 * max_inputs p + 8)); [|rewrite Hid; lia|done].
      apply (shows_below m3 m5 (64 + 40 * max_inputs p)); [|rewrite Hid; lia|done].
      apply (shows_below m2 m3 64); [done|rewrite Hid; lia|done].
    + split; [|done]. apply (shows_below m5 m6 (64 + 40 * max_inputs p + 8)); [|rewrite ib_base0; lia|done].
      apply (shows_below m3 m5 (64 + 40 * max_inputs p)); [|rewrite ib_base0; lia|done].
      apply (shows_below m2 m3 64); [done|rewrite ib_base0; lia|done].
    + intros a b Hab. destruct (balances_of_entry m rb Hb ltac:(lia)) as [pos Hpos].
      destruct (Hpos a b Hab) as (Hk & Hoff & Hm & _). specialize (Hshow3 a b Hab).
      assert (Ha : zlen a = 32) by (apply ib_assets0; by eexists). split_and!; [done|lia|lia|].
      apply (shows_below m5 m6 (64 + 40 * max_inputs p + 8)); [|rewrite zlen_app, Ha, zlen_to_be_bytes; lia|done].
      apply (shows_below m3 m5 (64 + 40 * max_inputs p)); [done|rewrite zlen_app, Ha, zlen_to_be_bytes; lia|done].
    + apply (shows_below m5 m6 (64 + 40 * max_inputs p + 8)); [done|rewrite Hw8; lia|done].
    + replace (72 + 40 * max_inputs p) with (64 + 40 * max_inputs p + 8) by lia. done. }
  apply (layout_initialized vm _ (max_inputs p)); try done.
  - destruct Hst6. split; try done; [rewrite reg_set_ne by done; lia|]. rewrite memory_set_reg. lia.
  - assert (Hl : zlen (registers vm6) = 64) by apply Hst6. assert (Hl0 : zlen (registers vm0) = 64) by done.
    intros i Hi. rewrite reg_set_cases, (st_ssp _ _ Hst6) by done.
    change (reg vm6 i) with (reg (set_reg (set_reg (set_reg (set_reg (set_reg (set_reg (set_reg vm0 RegId.SSP 32) RegId.SSP (32 + 32))
      RegId.SSP (64 + 40 * max_inputs p)) RegId.GGAS gas_limit) RegId.CGAS gas_limit) RegId.SSP (64 + 40 * max_inputs p + 8))
      RegId.SSP (64 + 40 * max_inputs p + 8 + zlen bs)) i).
    rewrite !reg_set_cases by (rewrite ?zlen_set_reg; done). subst vm0. rewrite reg_clear by done. clear.
    repeat case_if; zbool; subst; try done; try lia.
Qed.
End Ready.

(** ** The invariants of runs *)

Section Wf.
Context `{Sha256} {S : Type}.

Lemma initialized_wf (vm0 vm : Interpreter S) id bs rb gas :
  initialized vm0 vm id bs rb gas -> params_ok (interpreter_params vm0) -> context_ok (context vm0) -> u64_ok gas ->
  vm_wf vm.
Proof.
  intros [] Hp Hc Hg. pose proof in_wf0 as []. pose proof (zlen_nonneg bs).
  assert (Htop : 0 <= tx_offset (interpreter_params vm) + zlen bs <= VM_MAX_RAM).
  { rewrite <- in_stack0. split; [apply zlen_nonneg|]. unfold MEM_SIZE in *. lia. }
  split; rewrite ?in_frames0, ?in_receipts0, ?in_context0, ?in_params0; try done.
  - split; [done|]. apply Forall_lookup. intros k v Hk. pose proof (lookup_lt_Some _ _ _ Hk) as Hlt. unfold zlen in in_len0.
    assert (Hv : reg vm (Z.of_nat k) = v).
    { unfold reg, reg_get, zget. rewrite (proj2 (Z.ltb_ge _ _)) by lia. rewrite Nat2Z.id, Hk. done. }
    rewrite <- Hv, in_regs0 by lia. unfold u64_ok, VM_MAX_RAM in *. repeat case_if; try lia.
  - by rewrite in_regs0.
  - by rewrite in_regs0.
  - by rewrite in_regs0, in_hp0.
  - rewrite !in_regs0 by done. done.
  - rewrite !in_regs0 by done. cbn. lia.
  - rewrite in_regs0 by done. cbn. lia.
  - rewrite !in_regs0 by done. cbn. lia.
  - apply receipts_default_ok.
Qed.
End Wf.

Lemma balances_of_ok m rb : balances_of m rb -> words m -> balances_ok rb.
Proof.
  intros Hb Hm a b Hab. pose proof (balances_of_value m rb a Hb) as Hv. rewrite Hab in Hv. cbn in Hv.
  split; [by apply (Hm a)|]. destruct Hb as (l & Hp & _ & Hl & _).
  assert (Hin : (a, bal_value b) ∈ l) by (by rewrite Hp, elem_of_map_to_list).
  apply list_elem_of_lookup_1 in Hin as [k Hk]. rewrite (Hl k a _ Hk) in Hab. injection Hab as <-. cbn.
  unfold balance_offset, saturating_add, saturating_mul, VM_MEMORY_BALANCES_OFFSET, BALANCE_ENTRY_SIZE, WORD_SIZE. lia.
Qed.

(** ** Scripts *)

Section Script.
Context `{Alloc} `{!ExactAlloc} `{Sha256}.

(** The code of a script lies where initialization points. *)
Lemma script_code_at t bs :
  chargeable_ok script_body_ok t -> encode (c_chargeable c_script_body) t = Ok bs ->
  at_offset bs 96 (padded_bytes (script (tx_body t))).
Proof.
  intros Ht Hbs. pose proof (proj1 Ht) as Hbody. destruct (e_script _ Hbody) as [s He].
  destruct (body_bytes _ _ t bs _ _ _ c_script_body_lawful Ht Hbs He) as (mid & post & Hmid & E).
  pose proof Hbody as (Hg & Hr & Hs & Hd). rewrite E. unfold script_static. rewrite <- !app_assoc. at_walk.
Qed.

Lemma script_prepare_valid b : script_body_ok b -> script_body_ok (prepare_sign b).
Proof. destruct b. intros (? & ? & ? & ?). split_and!; done. Qed.
End Script.

Lemma wf_set_program {S} `{Sha256} (vm : Interpreter S) a b :
  vm_wf vm -> u64_ok a -> u64_ok b -> vm_wf (set_reg (set_reg vm RegId.PC a) RegId.IS b).
Proof.
  intros [] Ha Hb.
  assert (Hreg : forall i, 0 <= i < 64 -> i <> RegId.PC -> i <> RegId.IS ->
    reg (set_reg (set_reg vm RegId.PC a) RegId.IS b) i = reg vm i) by (intros; by rewrite !reg_set_ne).
  split; try (rewrite !Hreg by done; done); try done. repeat apply regs_ok_put; done.
Qed.

(** Pointing an initialized machine at a program outside any call. *)
Lemma initialized_program {S} `{Sha256} `{StorageLaws S} (vm0 vm1 : Interpreter S) id bs rb gas pc :
  initialized vm0 vm1 id bs rb gas -> params_ok (interpreter_params vm0) -> context_ok (context vm0) -> u64_ok gas ->
  storage_wf (storage vm0) -> balances_ok rb -> 32 <= tx_offset (interpreter_params vm1) -> u64_ok pc ->
  let vm2 := set_reg (set_reg vm1 RegId.PC pc) RegId.IS pc in
  vm_wf vm2 /\ money_wf vm2 /\ frames vm2 = [] /\ context vm2 = context vm0 /\ 32 <= reg vm2 RegId.SSP /\
  reg vm2 RegId.FP = 0 /\ reg vm2 RegId.PC = pc /\ reg vm2 RegId.IS = pc /\ reg vm2 RegId.GGAS = gas.
Proof.
  intros Hin Hp Hc Hg Hs Hb Hofs Hpc vm2. pose proof (initialized_wf _ _ _ _ _ _ Hin Hp Hc Hg) as Hwf1.
  assert (Hwf2 : vm_wf vm2) by (by apply wf_set_program).
  assert (Hother : forall i, 0 <= i < 64 -> i <> RegId.PC -> i <> RegId.IS -> reg vm2 i = reg vm1 i)
    by (intros; subst vm2; by rewrite !reg_set_ne).
  destruct Hin. pose proof (zlen_nonneg bs). split_and!; try done.
  - split; [change (storage vm2) with (storage vm1); by rewrite in_storage0|].
    change (balances vm2) with (balances vm1). by rewrite in_free0.
  - rewrite Hother, in_regs0 by done. cbn. lia.
  - by rewrite Hother, in_regs0.
  - subst vm2. by rewrite reg_set_ne, reg_set_eq by done.
  - subst vm2. apply reg_set_eq; [by rewrite zlen_set_reg|done].
  - by rewrite Hother, in_regs0.
Qed.

(** Initializing for a script: the machine that results, with what settling needs of it. *)
Lemma init_script_spec `{Alloc} `{!ExactAlloc} `{Sha256} {S : Type} `{StorageLaws S}
    (vm : Interpreter S) (t : Chargeable ScriptBody) (m : gmap AssetId Z) (r height : Z) (bs : list byte) :
  (forall l, zlen (sha256 l) = 32) ->
  let base := base_asset_id (interpreter_params vm) in
  let free := <[base := default 0 (m !! base) + r]> m in
  initializable c_script_body script_body_ok vm t free bs -> params_ok (interpreter_params vm) ->
  storage_wf (storage vm) -> 0 <= height < U32 -> words m -> u64_ok r -> default 0 (m !! base) + r < U64 ->
  exists machine id rb,
    init_script c_script_body (Some height) t (mkInitialBalances m (Some (r, base))) vm = Ok machine /\
    let vm' := m_vm machine in
    runtime_balances_try_from (mkInitialBalances m (Some (r, base))) = Ok rb /\
    reg vm' RegId.SSP = tx_offset (interpreter_params vm) + zlen bs /\
    m_initial_balances machine = mkInitialBalances m (Some (r, base)) /\ storage vm' = storage vm /\
    m_tx machine = chargeable_prepare_sign t /\ agree (Tx_Script t) (Tx_Script (m_tx machine)) /\
    script_inv vm' /\ interpreter_params vm' = interpreter_params vm /\
    read (memory vm') 0 32 = Ok id /\ chargeable_id c_script_body (chain_id (interpreter_params vm)) t = Ok id /\
    read (memory vm') 32 32 = Ok base /\
    balances_of free rb /\ balances vm' = rb /\
    (forall a b, rb !! a = Some b -> read (memory vm') (bal_offset b) 40 = Ok (a ++ to_be_bytes 8 (bal_value b))) /\
    read (memory vm') (tx_offset (interpreter_params vm) - 8) 8 = Ok (to_be_bytes 8 (zlen bs)) /\
    read (memory vm') (tx_offset (interpreter_params vm)) (zlen bs) = Ok bs /\
    (let code := padded_bytes (script (tx_body t)) in
     read (memory vm') (reg vm' RegId.PC) (zlen code) = Ok code /\ reg vm' RegId.IS = reg vm' RegId.PC) /\
    reg vm' RegId.GGAS = script_gas_limit (tx_body t) /\ frames vm' = [] /\ rx_receipts (receipts vm') = [].
Proof.
  intros Hsha base free Hib Hparams Hstore Hh Hm Hr Hfit.
  pose proof (runtime_balances_spec m r base Hm Hr) as Hrb. unfold init_script. cbn [ok_or obind].
  destruct (runtime_balances_try_from _) as [rb|e|] eqn:Erb; [|lia|done]. cbn [omap_err obind]. fold free in Hrb.
  destruct (init_inner_spec c_script_body script_body_ok c_script_body_lawful script_prepare_valid Hsha
    (set_context vm (Script_ height)) t free bs (mkInitialBalances m (Some (r, base))) rb
    (script_gas_limit (tx_body t))) as (id & vm1 & index & E & _ & Eid & Ein & Hin).
  { destruct Hib. by split. }
  { exact Hrb. }
  cbn [executable_type executable_script]. rewrite E. cbn [omap_err obind m_tx].
  cbn [executable_type executable_script]. change (interpreter_params (set_context vm (Script_ height))) with (interpreter_params vm).
  set (ofs := tx_offset (interpreter_params vm)) in *.
  assert (Hofs0 : 0 <= ofs) by apply Hparams. destruct Hib. fold ofs in ib_fits0.
  pose proof (chargeable_prepared_ok script_body_ok t script_prepare_valid ib_tx0) as Hpt.
  pose proof (script_code_at _ _ Hpt ib_bytes0) as Hcode.
  eexists _, id, rb. split; [reflexivity|]. cbn zeta. cbn [m_vm m_tx set_program].
  assert (Hofs : tx_offset (interpreter_params vm1) = ofs) by (by rewrite (in_params _ _ _ _ _ _ Hin)).
  assert (Hpc : saturating_add ofs script_offset_static = ofs + 96).
  { change script_offset_static with 96. pose proof (at_offset_le _ _ _ Hcode). unfold saturating_add, VM_MAX_RAM in *. lia. }
  rewrite Hpc. set (vm2 := set_reg (set_reg vm1 RegId.PC (ofs + 96)) RegId.IS (ofs + 96)).
  pose proof (tx_offset_eq _ _ (conj (Z.le_trans _ _ _ (Nat2Z.is_nonneg _) ib_balances0) ib_max0) ib_offset0) as Ho. fold ofs in Ho.
  destruct (initialized_program _ vm1 id bs rb _ (ofs + 96) Hin) as (Hwf2 & Hmw2 & Hf2 & Hc2 & Hssp2 & Hfp2 & Hpc2 & His2 & Hg2);
    [done|done|apply Hpt|done| |lia| |].
  { apply (balances_of_ok free); [done|]. apply map_Forall_insert_2; [|done]. pose proof (words_lookup m base Hm). unfold u64_ok in *. lia. }
  { pose proof (at_offset_le _ _ _ Hcode). unfold u64_ok, VM_MAX_RAM in *. lia. }
  fold vm2 in Hwf2, Hmw2, Hf2, Hc2, Hssp2, Hfp2, Hpc2, His2, Hg2. destruct Hin. rewrite Hofs in *.
  cbn [context storage interpreter_params set_context] in *. split_and!; try done.
  - subst vm2. rewrite !reg_set_ne, in_regs0 by done. reflexivity.
  - apply signed_part_agree. cbn. by rewrite chargeable_prepare_idem.
  - split; [done|done| |by rewrite Hf2]. split; [done| |by rewrite Hf2]. exists height. by rewrite Hf2.
  - change (memory vm2) with (memory vm1). rewrite in_base0. by rewrite in_params0.
  - rewrite Hpc2. change (memory vm2) with (memory vm1). by apply (read_at _ _ bs).
  - congruence.
  - change (receipts vm2) with (receipts vm1). by rewrite in_receipts0.
Qed.

(** Initializing the machine with a checked script that fits, whatever the machine ran
    before, succeeds and establishes what running it relies on: the invariant of running scripts
    holds; the memory shows the id of the transaction, the base asset, every balance at its
    offset, and the size and the bytes of the transaction as it was signed; the program counter
    points at the script's code; the gas is the script's limit; and there are no frames and no
    receipts. *)
Theorem init_script_ready `{Alloc} `{!ExactAlloc} `{Sha256} {S : Type} `{StorageLaws S}
    (vm : Interpreter S) (t : Chargeable ScriptBody) (m : gmap AssetId Z) (r height : Z) (bs : list byte) :
  (forall l, zlen (sha256 l) = 32) ->
  let base := base_asset_id (interpreter_params vm) in
  let free := <[base := default 0 (m !! base) + r]> m in
  initializable c_script_body script_body_ok vm t free bs -> params_ok (interpreter_params vm) ->
  storage_wf (storage vm) -> 0 <= height < U32 -> words m -> u64_ok r -> default 0 (m !! base) + r < U64 ->
  exists machine id rb,
    init_script c_script_body (Some height) t (mkInitialBalances m (Some (r, base))) vm = Ok machine /\
    let vm' := m_vm machine in
    m_tx machine = chargeable_prepare_sign t /\ agree (Tx_Script t) (Tx_Script (m_tx machine)) /\
    script_inv vm' /\ interpreter_params vm' = interpreter_params vm /\
    read (memory vm') 0 32 = Ok id /\ chargeable_id c_script_body (chain_id (interpreter_params vm)) t = Ok id /\
    read (memory vm') 32 32 = Ok base /\
    balances_of free rb /\ balances vm' = rb /\
    (forall a b, rb !! a = Some b -> read (memory vm') (bal_offset b) 40 = Ok (a ++ to_be_bytes 8 (bal_value b))) /\
    read (memory vm') (tx_offset (interpreter_params vm) - 8) 8 = Ok (to_be_bytes 8 (zlen bs)) /\
    read (memory vm') (tx_offset (interpreter_params vm)) (zlen bs) = Ok bs /\
    (let code := padded_bytes (script (tx_body t)) in
     read (memory vm') (reg vm' RegId.PC) (zlen code) = Ok code /\ reg vm' RegId.IS = reg vm' RegId.PC) /\
    reg vm' RegId.GGAS = script_gas_limit (tx_body t) /\ frames vm' = [] /\ rx_receipts (receipts vm') = [].
Proof.
  intros Hsha base free Hib Hparams Hstore Hh Hm Hr Hfit.
  destruct (init_script_spec vm t m r height bs) as (machine & id & rb & E & _ & _ & _ & _ & Hall); [done..|].
  exists machine, id, rb. split; [exact E|exact Hall].
Qed.

(** ** Predicates *)

Lemma prepared_predicate i : Inp.input_predicate (input_prepare_sign i) = Inp.input_predicate i.
Proof. by destruct i. Qed.

Section Predicate.
Context `{Alloc} `{!ExactAlloc} {Body : Type} `{!BodyOffset Body} (c : Codec Body) (body_ok : Body -> Prop)
  `{!BodyOffsetLaw c body_ok}.
Hypothesis Hlaw : lawful c body_ok.

(** The program of a predicate is the padded code of its input. *)
Lemma predicate_program (t : Chargeable Body) bs ofs idx i code :
  chargeable_ok body_ok t -> encode (c_chargeable c) t = Ok bs -> 0 <= ofs -> ofs + zlen bs <= VM_MAX_RAM -> 0 <= idx ->
  zget (tx_inputs t) idx = Some i -> Inp.input_predicate i = Some code ->
  exists o, predicate_from_tx t ofs idx =
      Some (mkRuntimePredicate (mkRange (ofs + o) (ofs + o + zlen (padded_bytes code))) idx) /\
    at_offset bs o (padded_bytes code).
Proof.
  intros Ht Hbs Hofs Hfit Hidx Hi Hcode. assert (Hfit' : ofs + zlen bs < U64) by (unfold VM_MAX_RAM in *; lia).
  pose proof (input_found c body_ok Hlaw t bs ofs idx Ht Hbs Hofs Hfit' Hidx) as Hf. rewrite Hi in Hf.
  destruct Hf as [Hok (o & Eo & Hat)].
  destruct (Inp.input_predicate_data i) as [d|] eqn:Ed; [|by destruct i].
  destruct (predicate_at i code d Hok Hcode Ed) as (k & _ & Ek & _ & Hk & _).
  pose proof (at_offset_in _ _ _ _ _ Hat Hk) as Hin. exists (o + k). split; [|done].
  assert (Hvec : vec_ok code) by (destruct i; cbn in Hcode; simplify_eq; cbn in Hok; intuition).
  assert (Elen : Inp.predicate_len i = Some (zlen code)) by (destruct i; cbn in Hcode; simplify_eq; done).
  destruct (padded_eq code Hvec) as [Hp Hpr]. unfold InpOff.padded in Hp.
  assert (Ep : padded_len_usize (zlen code) = Some (zlen (padded_bytes code))).
  { rewrite (zlen_padded_bytes code Hvec). destruct (padded_len_usize (zlen code)) as [x|]; cbn in Hp; [congruence|].
    unfold USIZE_MAX, VEC_DECODE_LIMIT in *. lia. }
  unfold predicate_from_tx, inputs_predicate_offset_at. rewrite Hi, Ek, Eo, Elen, Ep.
  pose proof (at_offset_le _ _ _ Hin) as Hle. pose proof (at_offset_le _ _ _ Hat). pose proof (at_offset_le _ _ _ Hk).
  assert (Hend : o + k + zlen (padded_bytes code) <= zlen bs).
  { destruct Hin as (p & q & -> & <-). rewrite !zlen_app. pose proof (zlen_nonneg q). lia. }
  unfold range_new, saturating_add, VM_MAX_RAM in *. do 3 f_equal; lia.
Qed.
End Predicate.

(** Initializing the machine for a predicate input of a checked transaction that fits
    succeeds: the program that is verified is the code of that input, found at the program
    counter, and the machine is well-formed, outside any call and without balances, with the
    given gas, as the verification of predicates requires. *)
Lemma init_predicate_ready `{Alloc} `{!ExactAlloc} `{Sha256} {S : Type} `{StorageLaws S} {Body : Type}
    `{!PrepareSign Body} `{!PrepareIdem Body} `{!BodyOffset Body} (c : Codec Body) (body_ok : Body -> Prop)
    `{!BodyOffsetLaw c body_ok}
    (vm : Interpreter S) (t : Chargeable Body) (bs : list byte) (idx gas : Z) (i : Input) (code : list byte) :
  lawful c body_ok -> (forall b, body_ok b -> body_ok (prepare_sign b)) -> (forall l, zlen (sha256 l) = 32) ->
  initializable c body_ok vm t ∅ bs -> params_ok (interpreter_params vm) -> storage_wf (storage vm) ->
  u64_ok gas -> u64_ok idx -> zget (tx_inputs t) idx = Some i -> Inp.input_predicate i = Some code ->
  exists program machine,
    predicate_from_tx (chargeable_prepare_sign t) (tx_offset (interpreter_params vm)) idx = Some program /\
    init_predicate c (PredicateVerification program) t gas vm = Ok machine /\
    let vm' := m_vm machine in
    vm_wf vm' /\ money_wf vm' /\ predicate_inv vm' /\ interpreter_params vm' = interpreter_params vm /\
    balances vm' = ∅ /\ reg vm' RegId.GGAS = gas /\
    read (memory vm') (reg vm' RegId.PC) (zlen (padded_bytes code)) = Ok (padded_bytes code) /\
    r_end (rp_range program) = reg vm' RegId.PC + zlen (padded_bytes code).
Proof.
  intros Hlaw Hprep Hsha Hib Hparams Hstore Hgas Hidx Hi Hcode. set (ofs := tx_offset (interpreter_params vm)).
  assert (Hofs0 : 0 <= ofs) by apply Hparams. pose proof Hib as []. fold ofs in ib_fits0.
  pose proof (tx_offset_eq _ _ (conj (Z.le_trans _ _ _ (Nat2Z.is_nonneg _) ib_balances0) ib_max0) ib_offset0) as Ho. fold ofs in Ho.
  destruct (predicate_program c body_ok Hlaw (chargeable_prepare_sign t) bs ofs idx (input_prepare_sign i) code)
    as (o & Ep & Hat); [by apply chargeable_prepared_ok|done|done|done|apply Hidx| |by rewrite prepared_predicate|].
  { cbn. apply zget_lookup in Hi as [Hr Hl]. unfold zget. rewrite (proj2 (Z.ltb_ge _ _)) by lia. by rewrite list_lookup_fmap, Hl. }
  destruct (init_inner_spec c body_ok Hlaw Hprep Hsha
    (set_context vm (PredicateVerification (mkRuntimePredicate (mkRange (ofs + o) (ofs + o + zlen (padded_bytes code))) idx)))
    t ∅ bs (mkInitialBalances ∅ None) ∅ gas) as (id & vm1 & index & E & _ & _ & _ & Hin).
  { by split. }
  { exists []. rewrite map_to_list_empty. split_and!; [done|constructor|done|done]. }
  eexists _, _. split; [exact Ep|]. split.
  { unfold init_predicate. change (runtime_balances_try_from (mkInitialBalances ∅ None)) with (Ok (E := ValidityError) (∅ : RuntimeBalances)).
    cbn [omap_err obind context_predicate expect]. rewrite E. reflexivity. }
  cbn zeta. cbn [m_vm set_program rp_range r_start r_end].
  assert (Hofs : tx_offset (interpreter_params vm1) = ofs) by (by rewrite (in_params _ _ _ _ _ _ Hin)).
  destruct (initialized_program _ vm1 id bs ∅ gas (ofs + o) Hin) as (Hwf2 & Hmw2 & Hf2 & Hc2 & Hssp2 & Hfp2 & Hpc2 & His2 & Hg2);
    [done|done|done|done|done|lia| |].
  { pose proof (at_offset_le _ _ _ Hat). unfold u64_ok, VM_MAX_RAM in *. lia. }
  destruct Hin. rewrite Hofs in *. split_and!; try done.
  - split_and!; [done|by rewrite Hc2|done].
  - rewrite Hpc2, !memory_set_reg. by apply (read_at _ _ bs).
  - by rewrite Hpc2.
Qed.

(** ** An example: the script of [TxExample] on a used machine *)

Module InitExample.
#[local] Instance tai64_zero : Tai64.
Proof. refine {| UNIX_EPOCH := 0 |}. split; discriminate. Defined.
#[local] Instance alloc : Alloc := TxExample.exact_alloc.
#[local] Instance alloc_exact : ExactAlloc := TxExample.exact_alloc_exact.
#[local] Instance sha : Sha256 := SignExample.sha.

Definition bytes : list byte :=
  match encode (c_chargeable c_script_body) (chargeable_prepare_sign TxExample.chargeable) with
  | Ok bs => bs
  | _ => []
  end.
Definition params : InterpreterParams := mkParams 1 free_costs 2 1024 152 1024 7 (TxExample.b32 x00).
Definition store : SlotStorage := mkSlots (memory_storage_new 5 zeroed).
(** A machine that stopped inside another run. *)
Definition vm : Interpreter SlotStorage :=
  mkVM (replicate 64 3) (mkMemory [x01; x02] [] MEM_SIZE) [] receipts_default {[ zeroed ]} store
    NotInitialized ∅ params PanicContext_None.
Definition free : gmap AssetId Z := {[ TxExample.b32 x00 := 900 ]}.

Lemma sha_len : forall l, zlen (sha256 l) = 32.
Proof.
  intros l. unfold zlen, sha256, sha, SignExample.sha. rewrite length_take, length_app, length_replicate. lia.
Qed.
Lemma params_valid : params_ok params.
Proof. split; [exact free_costs_ok|]. repeat split; reflexivity || discriminate. Qed.
Lemma store_valid : storage_wf store.
Proof. exact (memory_storage_new_wf 5 zeroed). Qed.
Lemma bytes_eq : encode (c_chargeable c_script_body) (chargeable_prepare_sign TxExample.chargeable) = Ok bytes.
Proof. vm_compute. reflexivity. Qed.
Lemma example_fits : 152 + zlen bytes <= VM_MAX_RAM.
Proof. vm_compute. discriminate. Qed.
Lemma mem_valid : mem_wf (memory vm).
Proof. split; vm_compute; repeat split; discriminate. Qed.

(** Any balances of few enough assets can be started with. *)
Lemma example_initializable m :
  Z.of_nat (base.size m) <= 2 -> (forall a, is_Some (m !! a) -> zlen a = 32) ->
  initializable c_script_body script_body_ok vm TxExample.chargeable m bytes.
Proof.
  intros Hm Ha. split; [exact TxExample.tx_valid|done|exact bytes_eq|done|reflexivity|exact example_fits|done|done|done|exact mem_valid].
Qed.
Definition with_retryable : gmap AssetId Z :=
  <[TxExample.b32 x00 := default 0 (free !! TxExample.b32 x00) + 90]> free.
Lemma free_initializable :
  initializable c_script_body script_body_ok vm TxExample.chargeable with_retryable bytes.
Proof.
  unfold with_retryable, free. rewrite insert_singleton_eq. apply example_initializable.
  - by rewrite map_size_singleton.
  - intros a [v Hv]. apply lookup_singleton_Some in Hv as [<- _]. reflexivity.
Qed.
Lemma empty_initializable : initializable c_script_body script_body_ok vm TxExample.chargeable ∅ bytes.
Proof. apply example_initializable; [done|]. intros a [v Hv]. by rewrite lookup_empty in Hv. Qed.
Lemma free_words : words free.
Proof. apply map_Forall_singleton. done. Qed.
Lemma free_fits : default 0 (free !! TxExample.b32 x00) + 90 < U64.
Proof. unfold free. by rewrite lookup_singleton_eq. Qed.
End InitExample.

Lemma init_script_ready_witness :
  exists machine,
    @init_script TxExample.exact_alloc InitExample.sha _ _ _ _ (@c_script_body TxExample.exact_alloc) (Some 5)
      TxExample.chargeable (mkInitialBalances InitExample.free (Some (90, TxExample.b32 x00))) InitExample.vm = Ok machine /\
    read (memory (m_vm machine)) (reg (m_vm machine) RegId.PC) 8 = Ok [x24; x00; x00; x00; x00; x00; x00; x00].
Proof.
  destruct (@init_script_ready TxExample.exact_alloc TxExample.exact_alloc_exact InitExample.sha SlotStorage
    (@slot_storage_interface InitExample.sha InitExample.tai64_zero) (@slot_storage_laws InitExample.sha InitExample.tai64_zero)
    InitExample.vm TxExample.chargeable InitExample.free 90 5 InitExample.bytes InitExample.sha_len)
    as (machine & id & rb & E & Hrest).
  - exact InitExample.free_initializable.
  - exact InitExample.params_valid.
  - exact InitExample.store_valid.
  - done.
  - exact InitExample.free_words.
  - done.
  - exact InitExample.free_fits.
  - exists machine. split; [exact E|]. cbn zeta in Hrest.
    destruct Hrest as (_ & _ & _ & _ & _ & _ & _ & _ & _ & _ & _ & _ & [Hc _] & _). exact Hc.
Defined.

Lemma init_predicate_ready_witness :
  exists machine program,
    @init_predicate TxExample.exact_alloc InitExample.sha _ _ _ (@c_script_body TxExample.exact_alloc)
      (PredicateVerification program) TxExample.chargeable 1000 InitExample.vm = Ok machine /\
    read (memory (m_vm machine)) (reg (m_vm machine) RegId.PC) 8 = Ok [x24; x40; x00; x00; x00; x00; x00; x00].
Proof.
  destruct (@init_predicate_ready TxExample.exact_alloc TxExample.exact_alloc_exact InitExample.sha SlotStorage
    (@slot_storage_interface InitExample.sha InitExample.tai64_zero) (@slot_storage_laws InitExample.sha InitExample.tai64_zero)
    ScriptBody _ _ _ (@c_script_body TxExample.exact_alloc) script_body_ok (@script_offset_law TxExample.exact_alloc)
    InitExample.vm TxExample.chargeable InitExample.bytes 1 1000 (Input_MessageDataPredicate TxExample.message)
    [x24; x40; x00; x00]) as (program & machine & _ & E & _ & _ & _ & _ & _ & _ & Hc & _).
  - exact (@c_script_body_lawful TxExample.exact_alloc TxExample.exact_alloc_exact).
  - exact script_prepare_valid.
  - exact InitExample.sha_len.
  - exact InitExample.empty_initializable.
  - exact InitExample.params_valid.
  - exact InitExample.store_valid.
  - done.
  - done.
  - reflexivity.
  - reflexivity.
  - exists machine, program. split; [exact E|exact Hc].
Defined.
