(* ===== verification/Prepared.v ===== *)
(** * What preparing a transaction for signing changes

    The machine runs a transaction after [prepare_sign] ([init_inner],
    src/fuel-vm/src/interpreter/initialization.rs), and computes the refund of the fee from
    that transaction (src/fuel-tx/src/transaction/fee.rs). Preparing keeps the sizes and the free
    balances. It clears the gas that predicates declare, so the prepared transaction has less
    minimal gas: by exactly the gas declared ([prepared_min_gas]). *)

From Stdlib Require Import Strings.Byte.
From S2P Require Import Prelude Asm Merkle Receipts Memory State Gas Canonical TxTypes TxCodec TxInput TxId TxFee TxOffsets.
From S2P Require Import TxBalances Init.

(** ** Sizes *)

Section Sizes.
Context `{Alloc}.

#[local] Opaque saturating_add.
Lemma input_prepare_size i : size c_input (input_prepare_sign i) = size c_input i.
Proof. destruct i as [[]|[]|[]|[]|[]|[]|[]]; reflexivity. Qed.
Lemma output_prepare_size o : size c_output (output_prepare_sign o) = size c_output o.
Proof. destruct o as [|[]| | |]; reflexivity. Qed.

Lemma sum_sizes_map {T} (f : T -> Z) (g : T -> T) l : (forall x, f (g x) = f x) -> sum_sizes f (map g l) = sum_sizes f l.
Proof.
  intros Hf. destruct l as [|x l]; [done|]. cbn [map sum_sizes]. rewrite Hf.
  generalize (f x). induction l as [|y l IH]; intros a; cbn [map foldl]; [done|]. by rewrite Hf, IH.
Qed.

Lemma chargeable_size {Body} (c : Codec Body) t :
  size (c_chargeable c) t =
  saturating_add
    (saturating_add (size_static c (tx_body t)) (saturating_add (size_static c_policies (tx_policies t))
      (saturating_add 8 (saturating_add 8 8))))
    (saturating_add (size_dynamic c (tx_body t)) (saturating_add (size_dynamic c_policies (tx_policies t))
      (saturating_add (aligned_size (sum_sizes (size c_input) (tx_inputs t)))
        (saturating_add (aligned_size (sum_sizes (size c_output) (tx_outputs t)))
          (aligned_size (sum_sizes (size c_bytes) (tx_witnesses t))))))).
Proof. reflexivity. Qed.

(** Preparing a body keeps its sizes. *)
Class PrepareSize (Body : Type) `{!ChargeableBody Body} `{!PrepareSign Body} : Prop :=
  prepare_size b : size_static body_codec (prepare_sign b) = size_static body_codec b /\
                   size_dynamic body_codec (prepare_sign b) = size_dynamic body_codec b.
#[export] Instance script_prepare_size : PrepareSize ScriptBody.
Proof. intros []. split; reflexivity. Qed.
#[export] Instance create_prepare_size : PrepareSize CreateBody.
Proof. intros b. split; reflexivity. Qed.
#[export] Instance upgrade_prepare_size : PrepareSize UpgradePurpose.
Proof. intros b. split; reflexivity. Qed.
#[export] Instance upload_prepare_size : PrepareSize UploadBody.
Proof. intros b. split; reflexivity. Qed.
#[export] Instance blob_prepare_size : PrepareSize BlobBody.
Proof. intros b. split; reflexivity. Qed.

#[local] Transparent saturating_add.

Lemma prepared_size {Body} `{!ChargeableBody Body} `{!PrepareSign Body} `{!PrepareSize Body} (t : Chargeable Body) :
  metered_bytes_size (chargeable_prepare_sign t) = metered_bytes_size t.
Proof.
  unfold metered_bytes_size. rewrite !chargeable_size. unfold chargeable_prepare_sign.
  cbn [tx_body tx_policies tx_inputs tx_outputs tx_witnesses].
  destruct (prepare_size (tx_body t)) as [-> ->].
  rewrite (sum_sizes_map _ _ _ input_prepare_size), (sum_sizes_map _ _ _ output_prepare_size). reflexivity.
Qed.
End Sizes.

(** ** Gas *)

(** The gas that the predicates of a transaction declare. *)
Definition declared_gas (inputs : list Input) : Z := total (fun i => default 0 (Inp.predicate_gas_used i)) inputs.

(** [x'] is [x] less [d], unless [x] is saturated. *)
Definition less (x x' d : Z) : Prop := 0 <= x' <= x /\ 0 <= d /\ (x < U64 - 1 -> x' + d = x).

Lemma less_refl x : 0 <= x -> less x x 0.
Proof. unfold less. lia. Qed.
Lemma less_add x x' d y y' e : less x x' d -> less y y' e -> less (saturating_add x y) (saturating_add x' y') (d + e).
Proof. unfold less, saturating_add. lia. Qed.
Lemma less_add_same x x' d y : less x x' d -> 0 <= y -> less (saturating_add x y) (saturating_add x' y) d.
Proof. unfold less, saturating_add. lia. Qed.

Section Gas.
Context `{Alloc} `{!ExactAlloc} (g : GasCosts) (fee : FeeParameters).
Hypothesis (Hg : costs_ok g) (Hfee : fee_ok fee).

Lemma charged_inputs_prepared l : forall cache,
  charged_inputs cache (map input_prepare_sign l) = map input_prepare_sign (charged_inputs cache l).
Proof.
  induction l as [|i l IH]; intros cache; [done|]. cbn [map charged_inputs].
  destruct i as [[]|[]|c|[]|[]|[]|[]]; cbn; rewrite ?IH; try done; by case_bool_decide; cbn; rewrite ?IH.
Qed.

Lemma declared_charged l : forall cache, declared_gas (charged_inputs cache l) = declared_gas l.
Proof.
  induction l as [|i l IH]; intros cache; [done|]. cbn [charged_inputs].
  destruct i; try case_bool_decide; unfold declared_gas, total in *; cbn; rewrite ?IH; lia.
Qed.

(** What a predicate of this length costs, with the gas [u] it declares. *)
Definition predicate_cost (bytes len u : Z) : outcome RuntimeError Z :=
  let? vm_initialization_gas := resolve (dep_cost g d_vm_initialization) bytes in
  let? root_gas := resolve (dep_cost g d_contract_root) len in
  Ok (saturating_add (saturating_add root_gas u) vm_initialization_gas).
Lemma predicate_cost_less bytes (p : list byte) u :
  u64_ok bytes -> vec_ok p -> u64_ok u ->
  exists v v', predicate_cost bytes (zlen p) u = Ok v /\ predicate_cost bytes (zlen p) 0 = Ok v' /\ less v v' u.
Proof.
  intros Hb Hp Hu. unfold predicate_cost.
  destruct (resolve_u64 (dep_cost g d_vm_initialization) bytes) as (v & -> & Hv); [apply Hg|done|].
  destruct (resolve_u64 (dep_cost g d_contract_root) (zlen p)) as (w & -> & Hw); [apply Hg|by apply vec_ok_u64|].
  do 2 eexists. split; [reflexivity|]. split; [reflexivity|]. unfold less, saturating_add, u64_ok in *. lia.
Qed.

Lemma input_gas_prepared bytes i :
  u64_ok bytes -> input_ok i -> exists v v', input_gas g bytes i = Ok v /\ input_gas g bytes (input_prepare_sign i) = Ok v' /\
    less v v' (default 0 (Inp.predicate_gas_used i)).
Proof.
  intros Hb Hi. assert (Hs : 0 <= word_cost g g_eck1) by apply Hg.
  destruct i as [c|c|c|m|m|m|m];
    try (do 2 eexists; split; [reflexivity|]; split; [reflexivity|]; by apply less_refl).
  - destruct c; apply predicate_cost_less; [done|apply Hi..].
  - destruct m; apply predicate_cost_less; [done|apply Hi..].
  - destruct m; apply predicate_cost_less; [done|apply Hi..].
Qed.

Lemma sum_gas_prepared bytes l : forall acc acc' d,
  u64_ok bytes -> Forall input_ok l -> less acc acc' d ->
  exists v v', sum_gas g bytes acc l = Ok v /\ sum_gas g bytes acc' (map input_prepare_sign l) = Ok v' /\
    less v v' (d + declared_gas l).
Proof.
  induction l as [|i l IH]; intros acc acc' d Hb Hl Ha; cbn [sum_gas map].
  - exists acc, acc'. by rewrite Z.add_0_r.
  - apply Forall_cons in Hl as [Hi Hl]. destruct (input_gas_prepared bytes i Hb Hi) as (v & v' & -> & -> & Hv).
    cbn [obind]. destruct (IH _ _ _ Hb Hl (less_add _ _ _ _ _ _ Ha Hv)) as (w & w' & Ew & Ew' & Hw).
    exists w, w'. split; [done|]. split; [done|]. unfold declared_gas, total in *. cbn [foldr]. by rewrite Z.add_assoc.
Qed.

Definition script_gas (n : Z) (charged : list Input) : outcome RuntimeError Z :=
  let? gas :=
    let? vm_initialization_gas := resolve (dep_cost g d_vm_initialization) n in
    let? inputs_gas := sum_gas g n 0 charged in
    let? id_gas := resolve (dep_cost g d_s256) n in
    Ok (saturating_add (saturating_add (saturating_add inputs_gas id_gas) (saturating_mul (gas_per_byte fee) n))
          vm_initialization_gas) in
  Ok (saturating_add gas 0).
#[local] Opaque size saturating_add.
Lemma script_min_gas (t : Chargeable ScriptBody) :
  min_gas t g fee = script_gas (metered_bytes_size t) (charged_inputs ∅ (tx_inputs t)).
Proof. reflexivity. Qed.
#[local] Transparent size saturating_add.

(** The minimal gas of the prepared script is less by what its predicates declare. *)
Lemma prepared_min_gas (t : Chargeable ScriptBody) :
  chargeable_ok script_body_ok t ->
  exists lo lo', min_gas t g fee = Ok lo /\ min_gas (chargeable_prepare_sign t) g fee = Ok lo' /\
    less lo lo' (declared_gas (tx_inputs t)).
Proof.
  intros Ht. pose proof (metered_ok script_body_ok t Ht) as Hm.
  rewrite !script_min_gas, prepared_size. cbn [tx_inputs chargeable_prepare_sign]. rewrite charged_inputs_prepared.
  set (n := metered_bytes_size t) in *. clearbody n. unfold script_gas.
  destruct (resolve_u64 (dep_cost g d_vm_initialization) n) as (v & -> & Hv); [apply Hg|done|].
  destruct (resolve_u64 (dep_cost g d_s256) n) as (x & -> & Hx); [apply Hg|done|].
  destruct (sum_gas_prepared n (charged_inputs ∅ (tx_inputs t)) 0 0 0) as (w & w' & -> & -> & Hw);
    [done| |by apply less_refl|].
  { apply charged_inputs_sub. by destruct Ht as (_ & _ & [_ Hi] & _). }
  rewrite declared_charged, Z.add_0_l in Hw. cbn [obind]. do 2 eexists. split; [reflexivity|]. split; [reflexivity|].
  destruct Hfee as [_ Hb]. pose proof (saturating_mul_ok (gas_per_byte fee) n (proj1 Hb) (proj1 Hm)) as [Hmul _].
  unfold u64_ok in *. repeat apply less_add_same; try done; lia.
Qed.

Lemma prepared_max_gas (t : Chargeable ScriptBody) :
  chargeable_ok script_body_ok t ->
  exists hi hi', max_gas t g fee = Ok hi /\ max_gas (chargeable_prepare_sign t) g fee = Ok hi' /\
    less hi hi' (declared_gas (tx_inputs t)).
Proof.
  intros Ht. destruct (prepared_min_gas t Ht) as (lo & lo' & E & E' & Hl). unfold max_gas. rewrite E, E'. cbn [obind].
  do 2 eexists. split; [reflexivity|]. split; [reflexivity|].
  change (witness_limit (chargeable_prepare_sign t)) with (witness_limit t).
  change (witnesses_size (chargeable_prepare_sign t)) with (witnesses_size t).
  destruct Hfee as [_ [Hb _]]. destruct Ht as ((Hgl & _) & _).
  assert (Hr : 0 <= saturating_mul (saturating_sub (witness_limit t) (witnesses_size t)) (gas_per_byte fee))
    by (apply saturating_mul_ok; [unfold saturating_sub; lia|done]).
  apply less_add_same; [by apply less_add_same|apply Hgl].
Qed.
End Gas.

(** ** Balances *)

Section Balances.
Context {Body : Type} `{!PrepareSign Body}.
Implicit Types (t : Chargeable Body).

Lemma add_up_prepared base l : forall m r, add_up_loop base (map input_prepare_sign l) m r = add_up_loop base l m r.
Proof.
  induction l as [|i l IH]; intros m r; [done|]. cbn [map add_up_loop].
  destruct i as [[]|[]|c|[]|[]|[]|[]]; cbn; try apply IH;
    (destruct (entry_add _ _ _) || destruct (checked_add _ _)); cbn; done || apply IH.
Qed.
Lemma reduce_prepared l : forall m,
  reduce_free_balances_by_coin_outputs m (map output_prepare_sign l) = reduce_free_balances_by_coin_outputs m l.
Proof.
  induction l as [|o l IH]; intros m; [done|]. cbn [map reduce_free_balances_by_coin_outputs].
  destruct o as [to v a|[]| | |]; cbn; try apply IH.
  destruct (ok_or _ _); [|done..]. cbn [obind]. destruct (ok_or _ _); [|done..]. apply IH.
Qed.
Lemma prepared_free_balances t base :
  initial_free_balances (chargeable_prepare_sign t) base = initial_free_balances t base.
Proof.
  unfold initial_free_balances, add_up_input_balances, chargeable_prepare_sign. cbn [tx_inputs tx_outputs tx_policies].
  rewrite add_up_prepared. destruct (ok_or _ _) as [[m r]| |]; [|done..]. cbn [obind].
  destruct (ok_or _ _) as [f| |]; [|done..]. cbn [obind].
  destruct (deduct_max_fee_from_base_asset _ _ _); [|done..]. cbn [obind]. by rewrite reduce_prepared.
Qed.

Lemma prepared_change_assets l : change_assets (map output_prepare_sign l) = change_assets l.
Proof.
  unfold change_assets. induction l as [|o l IH]; [done|]. cbn [map]. destruct o as [|[]| | |]; cbn; by rewrite ?IH.
Qed.
Lemma prepared_credits base i : credits base (input_prepare_sign i) = credits base i.
Proof. by destruct i as [[]|[]|c|[]|[]|[]|[]]. Qed.
Lemma prepared_credited base a l : credited base a (map input_prepare_sign l) = credited base a l.
Proof.
  unfold credited, total. induction l as [|i l IH]; [done|]. cbn [map foldr]. by rewrite IH, prepared_credits.
Qed.
Lemma prepared_retries l : total retries (map input_prepare_sign l) = total retries l.
Proof.
  unfold total. induction l as [|i l IH]; [done|]. cbn [map foldr]. rewrite IH. by destruct i as [[]|[]|c|[]|[]|[]|[]].
Qed.
Lemma prepared_brings base a l :
  Exists (brings base a) (map input_prepare_sign l) <-> Exists (brings base a) l.
Proof.
  rewrite Exists_map. unfold brings. split; (intros Hx; eapply Exists_impl; [exact Hx|]; cbn; intros i; by rewrite prepared_credits).
Qed.
End Balances.
