(* ===== verification/Reuse.v ===== *)
(** * Using a machine again

    Initialization (Init: [init_inner], [init_script] and [init_predicate] of
    src/fuel-vm/src/interpreter/initialization.rs) starts from whatever machine is at hand, and
    keeps its heap buffer. Together with Bisim: a run does not depend on what the machine did
    before ([machine_reuse]), so no byte of an earlier transaction can reach a later one. *)

From Stdlib Require Import Strings.Byte.
From S2P Require Import Prelude Asm Merkle Receipts Memory State Gas Alu MemOps WideInt Storage MemStorage SlotStorage Flow Calls.
From S2P Require Import Blockchain Crypto Opcodes Steps Run Bisim.
From S2P Require Import Canonical TxTypes TxCodec TxInput TxId TxSign TxFee TxOffsets TxFieldBytes Gtf TxBalances Init.

Section Reuse.
Context `{Alloc} `{Sha256} {S : Type}.
Implicit Types (vm : Interpreter S).

(** ** Initialization respects the equivalence of memories *)

Lemma respects_write_expect a d : respects (write_expect (S := S) a d).
Proof.
  intros vm vm' Hs. pose proof Hs as [E Hm]. unfold write_expect.
  pose proof (sim_write_bytes_noownerchecks _ _ a d Hm) as Hw.
  destruct (write_bytes_noownerchecks (memory vm) a d), (write_bytes_noownerchecks (memory vm') a d); cbn in *; try done.
  split; [done|]. rewrite E. by apply (vm_sim_set vm).
Qed.
Lemma respects_grow_stack_expect n : respects (grow_stack_expect (S := S) n).
Proof.
  intros vm vm' Hs. pose proof Hs as [E Hm]. unfold grow_stack_expect. pose proof (sim_grow_stack _ _ n Hm) as Hw.
  destruct (grow_stack (memory vm) n), (grow_stack (memory vm') n); cbn in *; try done.
  split; [done|]. rewrite E. by apply (vm_sim_set vm).
Qed.
#[local] Hint Resolve respects_write_expect respects_grow_stack_expect : sim.

Lemma respects_write_balances l : respects (write_balances (S := S) l).
Proof. induction l as [|[a b] l IH]; cbn [write_balances]; sim_body. Qed.
#[local] Hint Resolve respects_write_balances : sim.

(** ** The old balances are not read *)

Definition ignores {A} (f : M S A) : Prop :=
  forall vm b, f (set_balances vm b) = (fst (f vm), set_balances (snd (f vm)) b).
Lemma ignores_bind {A B} (f : M S A) (g : A -> M S B) : ignores f -> (forall a, ignores (g a)) -> ignores (mbind_ f g).
Proof.
  intros Hf Hg vm b. unfold mbind_. rewrite Hf. destruct (f vm) as [[a|e|] v]; cbn; [apply Hg|done..].
Qed.
Lemma ignores_lift {A} (x : outcome RuntimeError A) : ignores (lift x).
Proof. done. Qed.
Lemma ignores_gets {A} (f : Interpreter S -> A) : (forall vm b, f (set_balances vm b) = f vm) -> ignores (gets f).
Proof. intros Hf vm b. unfold gets. by rewrite Hf. Qed.
Lemma ignores_put_reg i v : ignores (put_reg (S := S) i v).
Proof. done. Qed.
Lemma ignores_update_memory f : ignores (update_memory (S := S) f).
Proof. intros vm b. unfold update_memory. cbn. by destruct (f (memory vm)). Qed.
Lemma ignores_write_expect a d : ignores (write_expect (S := S) a d).
Proof. intros vm b. unfold write_expect. cbn. by destruct (write_bytes_noownerchecks (memory vm) a d). Qed.
Lemma ignores_grow_stack_expect n : ignores (grow_stack_expect (S := S) n).
Proof. intros vm b. unfold grow_stack_expect. cbn. by destruct (grow_stack (memory vm) n). Qed.
Lemma ignores_write_balances l : ignores (write_balances (S := S) l).
Proof.
  induction l as [|[a b] l IH]; cbn [write_balances]; [done|].
  repeat (apply ignores_bind; [apply ignores_write_expect|intros _]). exact IH.
Qed.
Lemma ignores_push_stack d : ignores (push_stack (S := S) d).
Proof.
  unfold push_stack. apply ignores_bind; [by apply ignores_gets|]. intros ssp. apply ignores_bind; [apply ignores_lift|].
  intros n. apply ignores_bind; [apply ignores_update_memory|]. intros _. apply ignores_bind; [apply ignores_put_reg|].
  intros _. apply ignores_write_expect.
Qed.

(** A handler that puts its own balances in place: with what results, and in which state it
    succeeds, does not depend on the old ones. *)
Definition forgets {A} (f : M S A) : Prop :=
  forall vm b, match f vm with (Ok a, v) => f (set_balances vm b) = (Ok a, v) | (x, _) => fst (f (set_balances vm b)) = x end.
Lemma ignores_forgets {A B} (f : M S A) (g : A -> M S B) :
  ignores f -> (forall a, forgets (g a)) -> forgets (mbind_ f g).
Proof.
  intros Hf Hg vm b. unfold mbind_. rewrite Hf. destruct (f vm) as [[a|e|] v]; cbn [fst snd]; [apply Hg|done..].
Qed.
Lemma forgets_bind {A B} (f : M S A) (g : A -> M S B) : forgets f -> forgets (mbind_ f g).
Proof.
  intros Hf vm b. specialize (Hf vm b). unfold mbind_. destruct (f vm) as [[a|e|] v].
  - rewrite Hf. by destruct (g a v) as [[]].
  - by destruct (f (set_balances vm b)) as [[]]; cbn in *; simplify_eq.
  - by destruct (f (set_balances vm b)) as [[]]; cbn in *; simplify_eq.
Qed.
Lemma forgets_to_vm rb : forgets (to_vm (S := S) rb).
Proof.
  unfold to_vm. repeat (apply ignores_forgets; [|intros ?]);
    try first [by apply ignores_gets|apply ignores_lift|apply ignores_grow_stack_expect|apply ignores_put_reg
      |apply ignores_write_balances].
  done.
Qed.

Context {Body : Type} `{!PrepareSign Body} `{!BodyOffset Body} `{!ExecutableBody Body}.

(** Machines for the same storage and parameters, with nothing in flight. *)
Record same_setup vm vm' : Prop := {
  ss_mem : mem_wf (memory vm);
  ss_mem' : mem_wf (memory vm');
  ss_storage : storage vm' = storage vm;
  ss_context : context vm' = context vm;
  ss_params : interpreter_params vm' = interpreter_params vm;
  ss_panic : panic_context vm' = panic_context vm
}.

Definition machine_sim (m m' : Machine S Body) : Prop :=
  vm_sim (m_vm m) (m_vm m') /\ m_tx m' = m_tx m /\ m_contract_outputs m' = m_contract_outputs m /\
  m_initial_balances m' = m_initial_balances m.

Lemma clear_sim vm vm' ics :
  same_setup vm vm' -> vm_sim (clear_vm ics vm) (set_balances (clear_vm ics vm') (balances vm)).
Proof.
  intros []. split; [|by apply reset_sim]. unfold clear_vm, set_balances. cbn. by rewrite ss_storage0, ss_context0, ss_params0, ss_panic0.
Qed.

Lemma init_inner_sim (c : Codec Body) tx initial rb gas vm vm' :
  same_setup vm vm' ->
  outcome_rel machine_sim (init_inner c tx initial rb gas vm) (init_inner c tx initial rb gas vm').
Proof.
  intros Hs. unfold init_inner. destruct (contract_outputs _ _ _) as [index|e|]; [|done..]. cbn [obind].
  match goal with |- outcome_rel _ (match ?f _ with _ => _ end) _ => set (run := f) end.
  assert (Hr : respects run) by (subst run; sim_body).
  assert (Hf : forgets run).
  { subst run. apply ignores_forgets; [by apply ignores_gets|]. intros chain.
    apply ignores_forgets; [apply ignores_lift|]. intros id. apply ignores_forgets; [apply ignores_push_stack|]. intros _.
    apply ignores_forgets; [by apply ignores_gets|]. intros base. apply ignores_forgets; [apply ignores_push_stack|]. intros _.
    apply forgets_bind, forgets_to_vm. }
  set (ics := contract_inputs _). destruct (Hr _ _ (clear_sim vm vm' ics Hs)) as [Ho Hv].
  specialize (Hf (clear_vm ics vm') (balances vm)).
  destruct (run (clear_vm ics vm')) as [[a'|e'|] v']; rewrite Hf in Ho; [rewrite Hf in Hv|..];
    destruct (run (clear_vm ics vm)) as [[a|e|] v]; cbn in *; done.
Qed.

Lemma same_setup_context vm vm' ctx : same_setup vm vm' -> same_setup (set_context vm ctx) (set_context vm' ctx).
Proof. intros []. by split. Qed.

Lemma set_program_sim m m' ofs : machine_sim m m' -> machine_sim (set_program m ofs) (set_program m' ofs).
Proof.
  intros ([E Hm] & H1 & H2 & H3). split_and!; cbn; try done. split; [|done]. cbn. by rewrite E.
Qed.

Lemma init_script_sim (c : Codec Body) height tx initial vm vm' :
  same_setup (set_context vm NotInitialized) (set_context vm' NotInitialized) ->
  outcome_rel machine_sim (init_script c height tx initial vm) (init_script c height tx initial vm').
Proof.
  intros Hs. unfold init_script. destruct height as [h|]; [|done]. cbn [ok_or obind].
  destruct (runtime_balances_try_from initial) as [rb|e|]; [|done..]. cbn [omap_err obind].
  eapply outcome_rel_bind.
  { apply outcome_rel_map_err, init_inner_sim. exact (same_setup_context _ _ (Script_ h) Hs). }
  intros m m' Hm. pose proof Hm as (_ & -> & _). destruct (executable_type _); try done.
  assert (E : interpreter_params (set_context vm' (Script_ h)) = interpreter_params (set_context vm (Script_ h))) by apply Hs.
  rewrite E. by apply set_program_sim.
Qed.

Lemma init_predicate_sim (c : Codec Body) ctx tx gas vm vm' :
  same_setup (set_context vm NotInitialized) (set_context vm' NotInitialized) ->
  outcome_rel machine_sim (init_predicate c ctx tx gas vm) (init_predicate c ctx tx gas vm').
Proof.
  intros Hs. unfold init_predicate. destruct (runtime_balances_try_from _) as [rb|e|]; [|done..]. cbn [omap_err obind].
  destruct (context_predicate ctx) as [p|]; [|done]. cbn [expect obind]. eapply outcome_rel_bind.
  { apply outcome_rel_map_err, init_inner_sim. exact (same_setup_context _ _ ctx Hs). }
  intros m m' Hm. by apply set_program_sim.
Qed.
End Reuse.

(** What of a machine can be observed after a run. *)
Definition observably_same {S} (vm vm' : Interpreter S) : Prop :=
  registers vm' = registers vm /\ frames vm' = frames vm /\ receipts vm' = receipts vm /\ storage vm' = storage vm /\
  balances vm' = balances vm /\ context vm' = context vm /\ forall x, mem_get (memory vm') x = mem_get (memory vm) x.

Lemma vm_sim_observably {S} (vm vm' : Interpreter S) : vm_sim vm vm' -> observably_same vm vm'.
Proof.
  intros [E Hm]. unfold observably_same. rewrite E. split_and!; try done. intros x. by apply sim_get.
Qed.

(** A machine that is used again behaves like a new one. Initialize two machines with the same
    storage and parameters, and no pending panic context, for the same script; whatever they
    ran before and whatever their memories hold, either both are initialized or both fail with
    the same error, and then running the program ends in the same result with the same
    registers, frames, receipts, storage, balances and accessible memory. *)
Theorem machine_reuse `{Alloc} `{Sha256} `{Powf} `{WideLib} `{Crypto} {S : Type} `{InterpreterStorage S} {Body : Type}
    `{!PrepareSign Body} `{!BodyOffset Body} `{!ExecutableBody Body} (c : Codec Body) (height : option Z)
    (tx : Chargeable Body) (initial : InitialBalances) (vm vm' : Interpreter S) :
  mem_wf (memory vm) -> mem_wf (memory vm') -> storage vm' = storage vm ->
  interpreter_params vm' = interpreter_params vm -> panic_context vm' = panic_context vm ->
  match init_script c height tx initial vm, init_script c height tx initial vm' with
  | Ok m, Ok m' => m_tx m' = m_tx m /\ m_contract_outputs m' = m_contract_outputs m /\
      m_initial_balances m' = m_initial_balances m /\ observably_same (m_vm m) (m_vm m') /\
      forall is_empty limit fuel,
        let r := run_program is_empty limit fuel (m_vm m) in
        let r' := run_program is_empty limit fuel (m_vm m') in
        fst r' = fst r /\ observably_same (snd r) (snd r')
  | Err e, Err e' => e' = e
  | Crash, Crash => True
  | _, _ => False
  end.
Proof.
  intros Hm Hm' Hst Hp Hpc.
  pose proof (init_script_sim c height tx initial vm vm' ltac:(by split)) as Hi.
  destruct (init_script c height tx initial vm) as [m| |], (init_script c height tx initial vm') as [m'| |]; cbn in Hi; try done.
  destruct Hi as (Hv & Htx & Hout & Hib). split_and!; try done; [by apply vm_sim_observably|].
  intros is_empty limit fuel. destruct (run_program_sim is_empty limit fuel _ _ Hv) as [Hr Hs].
  split; [done|by apply vm_sim_observably].
Qed.

(** A machine whose heap buffer holds bytes of an earlier run, and a new one. *)
Module ReuseExample.
Definition used : Interpreter SlotStorage :=
  set_memory InitExample.vm (mkMemory [x01; x02] (replicate 256 xff) (MEM_SIZE - 8)).
Definition fresh : Interpreter SlotStorage :=
  mkVM (replicate 64 0) mem_new [] receipts_default ∅ InitExample.store NotInitialized ∅ InitExample.params PanicContext_None.
Definition started (vm : Interpreter SlotStorage) : outcome InitError (Machine SlotStorage ScriptBody) :=
  @init_script TxExample.exact_alloc InitExample.sha _ _ _ _ (@c_script_body TxExample.exact_alloc) (Some 5)
    TxExample.chargeable (mkInitialBalances InitExample.free (Some (90, TxExample.b32 x00))) vm.
Lemma used_wf : mem_wf (memory used).
Proof. split; vm_compute; repeat split; discriminate. Qed.
Definition is_ok {E A} (x : outcome E A) : bool := match x with Ok _ => true | _ => false end.
Lemma both_started : is_ok (started used) = true /\ is_ok (started fresh) = true.
Proof. split; vm_compute; reflexivity. Qed.
End ReuseExample.

Lemma machine_reuse_witness :
  exists m m', ReuseExample.started ReuseExample.used = Ok m /\ ReuseExample.started ReuseExample.fresh = Ok m' /\
    observably_same (m_vm m) (m_vm m').
Proof.
  pose proof (@machine_reuse TxExample.exact_alloc InitExample.sha powf_zero wide_std crypto_none SlotStorage
    (@slot_storage_interface InitExample.sha InitExample.tai64_zero) _ _ _ _ (@c_script_body TxExample.exact_alloc) (Some 5)
    TxExample.chargeable (mkInitialBalances InitExample.free (Some (90, TxExample.b32 x00))) ReuseExample.used
    ReuseExample.fresh ReuseExample.used_wf mem_new_wf eq_refl eq_refl eq_refl) as H.
  destruct ReuseExample.both_started as [E1 E2]. unfold ReuseExample.started in *.
  destruct (@init_script _ _ _ _ _ _ _ _ _ _ ReuseExample.used) as [m| |]; [|discriminate E1..].
  destruct (@init_script _ _ _ _ _ _ _ _ _ _ ReuseExample.fresh) as [m'| |]; [|discriminate E2..].
  exists m, m'. split; [reflexivity|]. split; [reflexivity|]. apply H.
Defined.
