(* ===== verification/TxValidity.v ===== *)
(** * The validity rules of transactions

    [FormatValidityChecks::check_without_signatures] of src/fuel-tx: the rules common to the
    chargeable transactions ([check_common_part], [Input::check_without_signature] and
    [Output::check] of transaction/validity.rs), the rules of each kind ([check_unique_rules] of
    types/script.rs, create.rs, upgrade.rs, upload.rs, blob.rs), those of mint transactions
    (types/mint.rs), and the consensus parameters they depend on (consensus_parameters.rs).

    Transactions carry no cached metadata here: what [Create] and [Upgrade] would cache is
    computed. Decoding new consensus parameters is left to a third-party decoder
    ([ParametersDecoder]). *)

From Stdlib Require Import Strings.Byte Sorting.Sorted.
From S2P Require Import Prelude Sparse Asm Merkle MerkleProof Receipts Memory State Gas Blockchain Canonical TxTypes.
From S2P Require Import TxCodec TxInput TxId TxSign TxFee TxBalances.

(** ** Consensus parameters *)

Record TxParameters : Type := mkTxParameters {
  tp_max_inputs : Z; tp_max_outputs : Z; tp_max_witnesses : Z; tp_max_gas_per_tx : Z; tp_max_size : Z;
  tp_max_bytecode_subsections : Z
}.
Record PredicateParameters : Type := mkPredicateParameters {
  pp_max_predicate_length : Z; pp_max_predicate_data_length : Z; pp_max_message_data_length : Z;
  pp_max_gas_per_predicate : Z
}.
Record ScriptParameters : Type := mkScriptParameters { sp_max_script_length : Z; sp_max_script_data_length : Z }.
Record ContractParameters : Type := mkContractParameters { kp_contract_max_size : Z; kp_max_storage_slots : Z }.

(** What the accessors answer, for both versions. *)
Record ConsensusParameters : Type := mkConsensusParameters {
  cp_tx_params : TxParameters;
  cp_predicate_params : PredicateParameters;
  cp_script_params : ScriptParameters;
  cp_contract_params : ContractParameters;
  cp_fee_params : FeeParameters;
  cp_chain_id : Z;
  cp_gas_costs : GasCosts;
  cp_base_asset_id : AssetId;
  cp_block_gas_limit : Z;
  cp_privileged_address : Bytes32
}.

(** [postcard::from_bytes::<ConsensusParameters>] *)
Class ParametersDecoder := decode_parameters : list byte -> option ConsensusParameters.

(** ** Helpers *)

(** [iter().enumerate().try_for_each(f)] *)
Fixpoint try_each {A} (f : Z -> A -> outcome ValidityError unit) (index : Z) (l : list A) : outcome ValidityError unit :=
  match l with
  | [] => Ok tt
  | x :: rest => let? _ := f index x in try_each f (index + 1) rest
  end.

(** [iter.duplicates().next()] *)
Fixpoint next_duplicate {A} `{EqDecision A} (seen : list A) (l : list A) : option A :=
  match l with
  | [] => None
  | x :: rest => if decide (x ∈ seen) then Some x else next_duplicate (x :: seen) rest
  end.

(** [iter.unique()] *)
Fixpoint unique {A} `{EqDecision A} (seen : list A) (l : list A) : list A :=
  match l with
  | [] => []
  | x :: rest => if decide (x ∈ seen) then unique seen rest else x :: unique (x :: seen) rest
  end.

#[export] Instance utxo_id_eq_dec : EqDecision UtxoId.
Proof. solve_decision. Defined.

(** [slice.get(i)] *)
Definition witness_at (witnesses : list (list byte)) (i : Z) : option (list byte) := zget witnesses i.

(** ** Inputs and outputs *)

Definition count_contract_outputs (outputs : list Output) (index : Z) : Z :=
  zlen (omap (fun o => if o is Output_Contract c then if outc_input_index c =? index then Some tt else None else None) outputs).

Definition check_without_signature (i : Input) (index : Z) (outputs : list Output) (witnesses : list (list byte))
    (params : PredicateParameters) : outcome ValidityError unit :=
  if match Inp.input_predicate i with Some p => zlen p =? 0 | None => false end then Err (InputPredicateEmpty index)
  else if match Inp.input_predicate i with Some p => pp_max_predicate_length params <? zlen p | None => false end
  then Err (InputPredicateLength index)
  else if match Inp.input_predicate_data i with Some d => pp_max_predicate_data_length params <? zlen d | None => false end
  then Err (InputPredicateDataLength index)
  else if match Inp.witness_index i with Some w => zlen witnesses <=? w | None => false end
  then Err (InputWitnessIndexBounds index)
  else if match i with Input_Contract _ => negb (1 =? count_contract_outputs outputs index) | _ => false end
  then Err (InputContractAssociatedOutputContract index)
  else if match Inp.input_data i with
    | Some d => (zlen d =? 0) || (pp_max_message_data_length params <? zlen d)
    | None => false
    end
  then Err (InputMessageDataLength index)
  else Ok tt.

Definition output_check (o : Output) (index : Z) (inputs : list Input) : outcome ValidityError unit :=
  match o with
  | Output_Contract c =>
      match zget inputs (outc_input_index c) with
      | Some (Input_Contract _) => Ok tt
      | _ => Err (OutputContractInputIndex index)
      end
  | _ => Ok tt
  end.

(** [Executable::input_asset_ids] *)
Definition input_asset_ids {Body} (t : Chargeable Body) (base : AssetId) : list AssetId :=
  omap (fun i =>
    match i with
    | Input_CoinPredicate c => Some (coin_asset_id c)
    | Input_CoinSigned c => Some (coin_asset_id c)
    | Input_MessageCoinSigned _ | Input_MessageCoinPredicate _ | Input_MessageDataPredicate _ | Input_MessageDataSigned _ => Some base
    | Input_Contract _ => None
    end) (tx_inputs t).
Definition input_asset_ids_unique {Body} (t : Chargeable Body) (base : AssetId) : list AssetId :=
  unique [] (input_asset_ids t base).

(** [field::Maturity] and [field::Expiration] *)
Definition maturity {Body} (t : Chargeable Body) : Z :=
  match policies_get (tx_policies t) Maturity with Some v => if v <? U32 then v else U32 - 1 | None => 0 end.
Definition expiration {Body} (t : Chargeable Body) : Z :=
  match policies_get (tx_policies t) Expiration with Some v => if v <? U32 then v else U32 - 1 | None => U32 - 1 end.

Definition is_spendable (i : Input) : bool :=
  match i with
  | Input_CoinSigned _ | Input_CoinPredicate _ | Input_MessageCoinSigned _ | Input_MessageCoinPredicate _ => true
  | _ => false
  end.

Definition ensure (b : bool) (e : ValidityError) : outcome ValidityError unit := if b then Ok tt else Err e.

(** The number of change outputs of an asset. *)
Definition count_change (outputs : list Output) (asset : AssetId) : Z :=
  zlen (omap (fun o => if o is Output_Change _ _ a then if bool_decide (asset = a) then Some tt else None else None) outputs).

Definition check_output {Body} (t : Chargeable Body) (base : AssetId) (index : Z) (o : Output) : outcome ValidityError unit :=
  let? _ := output_check o index (tx_inputs t) in
  let? _ :=
    match o with
    | Output_Change _ _ a => ensure (bool_decide (a ∈ input_asset_ids t base)) (TransactionOutputChangeAssetIdNotFound a)
    | _ => Ok tt
    end in
  match o with
  | Output_Coin _ _ a => ensure (bool_decide (a ∈ input_asset_ids t base)) (TransactionOutputCoinAssetIdNotFound a)
  | _ => Ok tt
  end.

Section Checks.
Context `{Alloc} `{Sha256} `{ParametersDecoder}.

Definition check_size (tx_size : Z) (params : TxParameters) : outcome ValidityError unit :=
  ensure (tx_size <=? tp_max_size params) TransactionSizeLimitExceeded.

Section Common.
Context {Body : Type} `{!ChargeableBody Body}.
Implicit Types (t : Chargeable Body).

Definition check_common_part (t : Chargeable Body) (block_height : Z) (params : ConsensusParameters)
  : outcome ValidityError unit :=
  let tx_params := cp_tx_params params in
  let base := cp_base_asset_id params in
  let? _ := check_size (size (c_chargeable body_codec) t) tx_params in
  let? _ := ensure (policies_is_valid (tx_policies t)) TransactionPoliciesAreInvalid in
  let? _ :=
    match policies_get (tx_policies t) WitnessLimit with
    | Some limit => ensure (witnesses_size t <=? limit) TransactionWitnessLimitExceeded
    | None => Ok tt
    end in
  let? gas := match max_gas t (cp_gas_costs params) (cp_fee_params params) with Ok g => Ok g | _ => Crash end in
  let? _ := ensure (gas <=? tp_max_gas_per_tx tx_params) TransactionMaxGasExceeded in
  let? _ := ensure (policy_set (pol_bits (tx_policies t)) MaxFee) TransactionMaxFeeNotSet in
  let? _ := ensure (maturity t <=? block_height) TransactionMaturity in
  let? _ := ensure (block_height <=? expiration t) TransactionExpiration in
  let? _ := ensure (zlen (tx_inputs t) <=? tp_max_inputs tx_params) TransactionInputsMax in
  let? _ := ensure (zlen (tx_outputs t) <=? tp_max_outputs tx_params) TransactionOutputsMax in
  let? _ := ensure (zlen (tx_witnesses t) <=? tp_max_witnesses tx_params) TransactionWitnessesMax in
  let? _ := ensure (existsb is_spendable (tx_inputs t)) NoSpendableInput in
  let? _ := try_each (fun _ asset =>
      ensure (count_change (tx_outputs t) asset <=? 1) (TransactionOutputChangeAssetIdDuplicated asset))
    0 (input_asset_ids_unique t base) in
  let? _ := match next_duplicate [] (omap (fun i => if Inp.is_coin i then Inp.utxo_id i else None) (tx_inputs t)) with
            | Some u => Err (DuplicateInputUtxoId u) | None => Ok tt end in
  let? _ := match next_duplicate [] (omap Inp.contract_id (tx_inputs t)) with
            | Some c => Err (DuplicateInputContractId c) | None => Ok tt end in
  let? _ := match next_duplicate [] (omap Inp.nonce (tx_inputs t)) with
            | Some n => Err (DuplicateInputNonce n) | None => Ok tt end in
  let? _ := try_each (fun index i => check_without_signature i index (tx_outputs t) (tx_witnesses t) (cp_predicate_params params))
    0 (tx_inputs t) in
  try_each (check_output t base) 0 (tx_outputs t).
End Common.

(** ** The rules of each kind *)

Class UniqueRules (Body : Type) : Type :=
  check_unique_rules : Chargeable Body -> ConsensusParameters -> outcome ValidityError unit.

#[export] Instance script_unique_rules : UniqueRules ScriptBody := fun t params =>
  let? _ := ensure (zlen (script (tx_body t)) <=? sp_max_script_length (cp_script_params params)) TransactionScriptLength in
  let? _ := ensure (zlen (script_data (tx_body t)) <=? sp_max_script_data_length (cp_script_params params))
    TransactionScriptDataLength in
  try_each (fun index o =>
    match o with
    | Output_ContractCreated _ _ => Err (TransactionOutputContainsContractCreated index)
    | _ => Ok tt
    end) 0 (tx_outputs t).

(** The inputs of the other kinds: only spendable inputs of the base asset. *)
Definition check_base_input (base : AssetId) (index : Z) (i : Input) : outcome ValidityError unit :=
  let? _ :=
    match Inp.asset_id i base with
    | Some a => ensure (bool_decide (a = base)) (TransactionInputContainsNonBaseAssetId index)
    | None => Ok tt
    end in
  match i with
  | Input_Contract _ => Err (TransactionInputContainsContract index)
  | Input_MessageDataSigned _ | Input_MessageDataPredicate _ => Err (TransactionInputContainsMessageData index)
  | _ => Ok tt
  end.

(** The outputs of upgrades, uploads and blobs. *)
Definition check_plain_output (base : AssetId) (index : Z) (o : Output) : outcome ValidityError unit :=
  match o with
  | Output_Contract _ => Err (TransactionOutputContainsContract index)
  | Output_Variable _ _ _ => Err (TransactionOutputContainsVariable index)
  | Output_Change _ _ a => ensure (bool_decide (a = base)) (TransactionChangeChangeUsesNotBaseAsset index)
  | Output_ContractCreated _ _ => Err (TransactionOutputContainsContractCreated index)
  | Output_Coin _ _ _ => Ok tt
  end.

(** [windows(2).all(|s| s[0] < s[1])]: slots are ordered by their keys. *)
Fixpoint slots_sorted (l : list StorageSlot) : bool :=
  match l with
  | a :: ((b :: _) as rest) => Sparse.key_ltb (slot_key a) (slot_key b) && slots_sorted rest
  | _ => true
  end.

(** [Contract::initial_state_root] hashes the keys of the slots. *)
Definition initial_state_root (slots : list StorageSlot) : outcome ValidityError Bytes32 :=
  match Sparse.root_from_set (map (fun s => (sha256 (slot_key s), slot_value s)) slots) with
  | Ok r => Ok r
  | _ => Crash
  end.
Definition contract_id_of (salt root state_root : Bytes32) : ContractId := sha256 (Inp.SEED ++ salt ++ root ++ state_root).

Record CreateMetadata : Type := mkCreateMetadata {
  cm_contract_id : ContractId; cm_contract_root : Bytes32; cm_state_root : Bytes32
}.
Definition contract_try_from (t : Chargeable CreateBody) : outcome ValidityError (list byte) :=
  ok_or (witness_at (tx_witnesses t) (bytecode_witness_index (tx_body t))) TransactionCreateBytecodeWitnessIndex.
Definition create_metadata (t : Chargeable CreateBody) : outcome ValidityError CreateMetadata :=
  let? contract := contract_try_from t in
  let? contract_root := match root_from_code contract with Ok r => Ok r | _ => Crash end in
  let? state_root := initial_state_root (storage_slots (tx_body t)) in
  Ok (mkCreateMetadata (contract_id_of (salt (tx_body t)) contract_root state_root) contract_root state_root).

(** The loop over the outputs of a create transaction; the flag is [contract_created]. *)
Fixpoint check_create_outputs (base : AssetId) (m : CreateMetadata) (index : Z) (created : bool) (outputs : list Output)
  : outcome ValidityError bool :=
  match outputs with
  | [] => Ok created
  | o :: rest =>
      let? created :=
        match o with
        | Output_Contract _ => Err (TransactionOutputContainsContract index)
        | Output_Variable _ _ _ => Err (TransactionOutputContainsVariable index)
        | Output_Change _ _ a =>
            let? _ := ensure (bool_decide (a = base)) (TransactionChangeChangeUsesNotBaseAsset index) in Ok created
        | Output_ContractCreated id state_root =>
            if bool_decide (id <> cm_contract_id m) || bool_decide (state_root <> cm_state_root m)
            then Err (TransactionCreateOutputContractCreatedDoesntMatch index)
            else if created then Err (TransactionCreateOutputContractCreatedMultiple index)
            else Ok true
        | Output_Coin _ _ _ => Ok created
        end in
      check_create_outputs base m (index + 1) created rest
  end.

#[export] Instance create_unique_rules : UniqueRules CreateBody := fun t params =>
  let base := cp_base_asset_id params in
  let? witness := ok_or (witness_at (tx_witnesses t) (bytecode_witness_index (tx_body t))) TransactionCreateBytecodeWitnessIndex in
  let? _ := ensure (zlen witness <=? kp_contract_max_size (cp_contract_params params)) TransactionCreateBytecodeLen in
  let? _ := ensure (zlen (storage_slots (tx_body t)) <=? kp_max_storage_slots (cp_contract_params params))
    TransactionCreateStorageSlotMax in
  let? _ := ensure (slots_sorted (storage_slots (tx_body t))) TransactionCreateStorageSlotOrder in
  let? _ := try_each (check_base_input base) 0 (tx_inputs t) in
  let? m := create_metadata t in
  let? created := check_create_outputs base m 0 false (tx_outputs t) in
  ensure created TransactionOutputDoesntContainContractCreated.

Inductive UpgradeMetadata : Type :=
| UM_ConsensusParameters (consensus_parameters : ConsensusParameters) (calculated_checksum : Bytes32)
| UM_StateTransition.
(** [UpgradeMetadata::compute] *)
Definition upgrade_metadata (t : Chargeable UpgradePurpose) : outcome ValidityError UpgradeMetadata :=
  match tx_body t with
  | Upgrade_ConsensusParameters index checksum =>
      let? witness := ok_or (witness_at (tx_witnesses t) index) (InputWitnessIndexBounds index) in
      let actual_checksum := sha256 witness in
      let? _ := ensure (bool_decide (actual_checksum = checksum)) TransactionUpgradeConsensusParametersChecksumMismatch in
      let? params := ok_or (decode_parameters witness) TransactionUpgradeConsensusParametersDeserialization in
      Ok (UM_ConsensusParameters params actual_checksum)
  | Upgrade_StateTransition _ => Ok UM_StateTransition
  end.

#[export] Instance upgrade_unique_rules : UniqueRules UpgradePurpose := fun t params =>
  let base := cp_base_asset_id params in
  let? _ := ensure (existsb (fun i => bool_decide (Inp.input_owner i = Some (cp_privileged_address params))) (tx_inputs t))
    TransactionUpgradeNoPrivilegedAddress in
  let? _ := upgrade_metadata t in
  let? _ := try_each (check_base_input base) 0 (tx_inputs t) in
  try_each (check_plain_output base) 0 (tx_outputs t).

#[export] Instance upload_unique_rules : UniqueRules UploadBody := fun t params =>
  let base := cp_base_asset_id params in
  let b := tx_body t in
  let? _ := ensure (upload_subsections_number b <=? tp_max_bytecode_subsections (cp_tx_params params))
    TransactionUploadTooManyBytecodeSubsections in
  let? witness := ok_or (witness_at (tx_witnesses t) (upload_witness_index b)) (InputWitnessIndexBounds (upload_witness_index b)) in
  let? result :=
    match MerkleProof.verify (upload_root b) witness (upload_proof_set b) (upload_subsection_index b) (upload_subsections_number b) with
    | Ok r => Ok r
    | _ => Crash
    end in
  let? _ := ensure result TransactionUploadRootVerificationFailed in
  let? _ := try_each (check_base_input base) 0 (tx_inputs t) in
  try_each (check_plain_output base) 0 (tx_outputs t).

#[export] Instance blob_unique_rules : UniqueRules BlobBody := fun t params =>
  let base := cp_base_asset_id params in
  let b := tx_body t in
  let? witness := ok_or (witness_at (tx_witnesses t) (blob_witness_index b)) (InputWitnessIndexBounds (blob_witness_index b)) in
  let? _ := ensure (bool_decide (sha256 witness = blob_body_id b)) TransactionBlobIdVerificationFailed in
  let? _ := try_each (check_base_input base) 0 (tx_inputs t) in
  try_each (check_plain_output base) 0 (tx_outputs t).

(** ** Transactions *)

Definition chargeable_check_without_signatures {Body} `{!ChargeableBody Body} `{!UniqueRules Body} (t : Chargeable Body)
    (block_height : Z) (params : ConsensusParameters) : outcome ValidityError unit :=
  let? _ := check_common_part t block_height params in
  check_unique_rules t params.

Definition mint_check_without_signatures (t : Mint) (block_height : Z) (params : ConsensusParameters)
  : outcome ValidityError unit :=
  let? _ := check_size (size c_mint t) (cp_tx_params params) in
  let? _ := ensure (txp_block_height (mint_tx_pointer t) =? block_height) TransactionMintIncorrectBlockHeight in
  let? _ := ensure (outc_input_index (mint_output_contract t) =? 0) TransactionMintIncorrectOutputIndex in
  ensure (bool_decide (mint_asset_id t = cp_base_asset_id params)) TransactionMintNonBaseAsset.

Definition check_without_signatures (t : Transaction) (block_height : Z) (params : ConsensusParameters)
  : outcome ValidityError unit :=
  match t with
  | Tx_Script t => chargeable_check_without_signatures t block_height params
  | Tx_Create t => chargeable_check_without_signatures t block_height params
  | Tx_Mint t => mint_check_without_signatures t block_height params
  | Tx_Upgrade t => chargeable_check_without_signatures t block_height params
  | Tx_Upload t => chargeable_check_without_signatures t block_height params
  | Tx_Blob t => chargeable_check_without_signatures t block_height params
  end.

Definition check `{SigScheme} (t : Transaction) (block_height : Z) (params : ConsensusParameters) : outcome ValidityError unit :=
  let? _ := check_without_signatures t block_height params in
  check_signatures (cp_chain_id params) t.
End Checks.

(** ** What the helpers decide *)

Lemma try_each_spec {A} (f : Z -> A -> outcome ValidityError unit) l : forall k,
  match try_each f k l with
  | Ok _ => forall j x, zget l j = Some x -> f (k + j) x = Ok tt
  | Err e => exists j x, zget l j = Some x /\ f (k + j) x = Err e
  | Crash => exists j x, zget l j = Some x /\ f (k + j) x = Crash
  end.
Proof.
  assert (Hcons : forall (x : A) l' j y, zget (x :: l') j = Some y <-> j = 0 /\ y = x \/ zget l' (j - 1) = Some y).
  { intros x l' j y. change (x :: l') with ([x] ++ l'). rewrite zget_app. change (zlen [x]) with 1.
    destruct (Z.ltb_spec j 1); unfold zget.
    - destruct (Z.ltb_spec j 0) as [Hlt|Hge], (Z.ltb_spec (j - 1) 0) as [Hlt'|Hge']; try lia.
      + split; [done|]. intros [[? _]|?]; [lia|done].
      + assert (j = 0) as -> by lia. cbn. split; [intros [= <-]; by left|]. intros [[_ ->]|?]; done.
    - destruct (Z.ltb_spec (j - 1) 0); [lia|]. split; [by right|]. intros [[? _]|?]; [lia|done]. }
  induction l as [|x l IH]; intros k; cbn [try_each].
  { intros j y Hj. apply zget_Some_len in Hj. unfold zlen in Hj. cbn in Hj. lia. }
  destruct (f k x) as [[]|e|] eqn:Ef; cbn [obind].
  - specialize (IH (k + 1)). destruct (try_each f (k + 1) l) as [[]|e|].
    + intros j y Hj. apply Hcons in Hj as [[-> ->]|Hj]; [by rewrite Z.add_0_r|]. specialize (IH _ _ Hj). by replace (k + j) with (k + 1 + (j - 1)) by lia.
    + destruct IH as (j & y & Hj & E). exists (j + 1), y. split; [apply Hcons; right; by replace (j + 1 - 1) with j by lia|].
      by replace (k + (j + 1)) with (k + 1 + j) by lia.
    + destruct IH as (j & y & Hj & E). exists (j + 1), y. split; [apply Hcons; right; by replace (j + 1 - 1) with j by lia|].
      by replace (k + (j + 1)) with (k + 1 + j) by lia.
  - exists 0, x. split; [apply Hcons; by left|by rewrite Z.add_0_r].
  - exists 0, x. split; [apply Hcons; by left|by rewrite Z.add_0_r].
Qed.

(** An element occurs twice. *)
Definition twice {A} (x : A) (l : list A) : Prop := exists l1 l2 l3, l = l1 ++ x :: l2 ++ x :: l3.

Lemma twice_cons {A} (x y : A) l : twice x l -> twice x (y :: l).
Proof. intros (l1 & l2 & l3 & ->). by exists (y :: l1), l2, l3. Qed.
Lemma twice_head {A} (x : A) l : x ∈ l -> twice x (x :: l).
Proof. intros (l1 & l2 & ->)%list_elem_of_split. by exists [], l1, l2. Qed.
Lemma twice_not_NoDup {A} (x : A) l : twice x l -> ~ NoDup l.
Proof. intros (l1 & l2 & l3 & ->) Hnd. apply NoDup_app in Hnd as (_ & _ & Hnd). apply NoDup_cons in Hnd as [Hx _]. set_solver. Qed.

Lemma NoDup_twice {A} `{EqDecision A} (l : list A) : (forall x, ~ twice x l) -> NoDup l.
Proof.
  induction l as [|x l IH]; intros Ht; constructor.
  - intros Hx. by apply (Ht x), twice_head.
  - apply IH. intros y Hy. by apply (Ht y), twice_cons.
Qed.

Lemma next_duplicate_spec {A} `{EqDecision A} (l : list A) : forall seen,
  match next_duplicate seen l with
  | Some x => x ∈ seen /\ x ∈ l \/ twice x l
  | None => NoDup l /\ forall x, x ∈ l -> x ∉ seen
  end.
Proof.
  induction l as [|x l IH]; intros seen; cbn [next_duplicate].
  { split; [constructor|]. intros y Hy. by apply not_elem_of_nil in Hy. }
  case_decide as Hx; [left; split; [done|left]|]. specialize (IH (x :: seen)). destruct (next_duplicate (x :: seen) l) as [y|].
  - destruct IH as [[Hy Hl]|Ht]; [|right; by apply twice_cons].
    apply elem_of_cons in Hy as [->|Hy]; [right; by apply twice_head|]. left. split; [done|by right].
  - destruct IH as [Hnd Hs]. split.
    + constructor; [|done]. intros Hin. apply (Hs x Hin). left.
    + intros y [->|Hy]%elem_of_cons; [done|]. specialize (Hs y Hy). set_solver.
Qed.

Lemma unique_elem {A} `{EqDecision A} (l : list A) : forall seen x, x ∈ unique seen l <-> x ∈ l /\ x ∉ seen.
Proof.
  induction l as [|y l IH]; intros seen x; cbn [unique]; [set_solver|].
  case_decide; rewrite ?elem_of_cons, IH; [|destruct (decide (x = y)); set_solver]. set_solver.
Qed.

Lemma zget_elem {A} (l : list A) x : x ∈ l <-> exists j, zget l j = Some x.
Proof.
  split.
  - intros [k Hk]%list_elem_of_lookup_1. exists (Z.of_nat k). unfold zget. by rewrite (proj2 (Z.ltb_ge _ _)), Nat2Z.id by lia.
  - intros [j Hj]. unfold zget in Hj. destruct (j <? 0); [done|]. by eapply list_elem_of_lookup_2.
Qed.

(** Change outputs are counted in the list of their assets. *)
Lemma count_change_spec outputs a : count_change outputs a = zlen (filter (fun b => a = b) (change_assets outputs)).
Proof.
  unfold count_change. induction outputs as [|o outputs IH]; [done|]. unfold zlen in *.
  destruct o as [| |to v b| |]; try exact IH. change (change_assets (Output_Change to v b :: outputs)) with (b :: change_assets outputs).
  cbn [omap list_omap]. case_bool_decide as Ha.
  - rewrite filter_cons_True by done. cbn [length]. lia.
  - rewrite filter_cons_False by done. exact IH.
Qed.

Lemma count_twice {A} `{EqDecision A} (l : list A) a : 1 < zlen (filter (fun b => a = b) l) <-> twice a l.
Proof.
  assert (Hin : forall l, 0 < zlen (filter (fun b => a = b) l) <-> a ∈ l).
  { clear l. intros l. split.
    - intros Hl. destruct (filter _ l) as [|b r] eqn:E; [unfold zlen in Hl; cbn in Hl; lia|].
      assert (Hb : b ∈ filter (fun b => a = b) l) by (rewrite E; left). apply list_elem_of_filter in Hb as [-> Hb]. done.
    - intros Hl. assert (Ha : a ∈ filter (fun b => a = b) l) by (by apply list_elem_of_filter).
      destruct (filter _ l); [by apply not_elem_of_nil in Ha|unfold zlen; cbn; lia]. }
  split.
  - induction l as [|b l IH]; [unfold zlen; cbn; lia|]. destruct (decide (a = b)) as [<-|Hne].
    + rewrite filter_cons_True by done. intros Hl. apply twice_head, Hin. unfold zlen in *. cbn in Hl. lia.
    + rewrite filter_cons_False by done. intros Hl. by apply twice_cons, IH.
  - intros (l1 & l2 & l3 & ->). rewrite filter_app, filter_cons_True, filter_app, filter_cons_True by done.
    unfold zlen. rewrite length_app. cbn. rewrite length_app. cbn. lia.
Qed.

(** Exactly one element of a list is selected. *)
Lemma omap_one {A B} (f : A -> option B) l :
  zlen (omap f l) = 1 <->
  exists j x, zget l j = Some x /\ is_Some (f x) /\ forall j' x', zget l j' = Some x' -> is_Some (f x') -> j' = j.
Proof.
  assert (H0 : forall l, zlen (omap f l) = 0 <-> forall x, x ∈ l -> f x = None).
  { clear l. induction l as [|x l IH]; [split; [intros _ y Hy; by apply not_elem_of_nil in Hy|done]|].
    cbn. destruct (f x) eqn:E.
    - split; [unfold zlen; cbn; lia|]. intros Hx. specialize (Hx x ltac:(left)). congruence.
    - rewrite IH. split; [|set_solver]. intros Hl y [->|Hy]%elem_of_cons; auto. }
  assert (Hz : forall (l : list A) (k : nat), zget l (Z.of_nat k) = l !! k)
    by (intros l' k; unfold zget; by rewrite (proj2 (Z.ltb_ge _ _)), Nat2Z.id by lia).
  transitivity (exists (k : nat) x, l !! k = Some x /\ is_Some (f x) /\ forall k' x', l !! k' = Some x' -> is_Some (f x') -> k' = k).
  - induction l as [|x l IH]; [split; [done|intros (k & x & Hk & _); done]|]. cbn. destruct (f x) as [b|] eqn:E.
    + transitivity (zlen (omap f l) = 0); [unfold zlen; cbn; lia|]. rewrite H0. split.
      * intros Hl. exists 0%nat, x. split_and!; [done|by eexists|]. intros [|k'] x' Hk' [? Hf]; [done|].
        change (l !! k' = Some x') in Hk'. apply list_elem_of_lookup_2 in Hk'. rewrite (Hl x' Hk') in Hf. done.
      * intros (k & y & Hk & Hy & Hu). assert (k = 0%nat) as -> by (symmetry; apply (Hu 0%nat x); [done|by eexists]).
        intros z [k' Hk']%list_elem_of_lookup_1. destruct (f z) eqn:Ez; [|done].
        assert (S k' = 0%nat) by (apply (Hu (S k') z); [done|by eexists]). lia.
    + rewrite IH. split.
      * intros (k & y & Hk & Hy & Hu). exists (S k), y. split_and!; [done|done|]. intros [|k'] x' Hk' Hf; [|f_equal; by eapply Hu].
        cbn in Hk'. injection Hk' as <-. rewrite E in Hf. by destruct Hf.
      * intros ([|k] & y & Hk & Hy & Hu); [cbn in Hk; injection Hk as <-; rewrite E in Hy; by destruct Hy|].
        exists k, y. split_and!; [done|done|]. intros k' x' Hk' Hf. specialize (Hu (S k') x' Hk' Hf). lia.
  - split.
    + intros (k & x & Hk & Hx & Hu). exists (Z.of_nat k), x. split_and!; [by rewrite Hz|done|]. intros j' x' Hj Hf.
      pose proof (zget_Some_len _ _ _ Hj). replace j' with (Z.of_nat (Z.to_nat j')) in Hj by lia. rewrite Hz in Hj. specialize (Hu _ _ Hj Hf). lia.
    + intros (j & x & Hj & Hx & Hu). pose proof (zget_Some_len _ _ _ Hj). exists (Z.to_nat j), x.
      replace j with (Z.of_nat (Z.to_nat j)) in Hj by lia. rewrite Hz in Hj. split_and!; [done|done|]. intros k' x' Hk' Hf.
      rewrite <- Hz in Hk'. specialize (Hu _ _ Hk' Hf). lia.
Qed.

(** ** The rules, declaratively *)

(** The output at [j] is the only one for the contract of the input at [index]. *)
Definition only_output_for (outputs : list Output) (index : Z) : Prop :=
  exists j c, zget outputs j = Some (Output_Contract c) /\ outc_input_index c = index /\
    forall j' c', zget outputs j' = Some (Output_Contract c') -> outc_input_index c' = index -> j' = j.

Lemma count_contract_outputs_one outputs index : count_contract_outputs outputs index = 1 <-> only_output_for outputs index.
Proof.
  unfold count_contract_outputs. rewrite omap_one. split.
  - intros (j & o & Hj & Ho & Hu). destruct o as [|c| | |]; try by destruct Ho.
    destruct (Z.eqb_spec (outc_input_index c) index) as [E|]; [|by destruct Ho]. exists j, c. split_and!; [done|done|].
    intros j' c' Hj' Hc'. apply (Hu j' (Output_Contract c') Hj'). rewrite (proj2 (Z.eqb_eq _ _)) by done. by eexists.
  - intros (j & c & Hj & Hc & Hu). exists j, (Output_Contract c). split_and!; [done|rewrite (proj2 (Z.eqb_eq _ _)) by done; by eexists|].
    intros j' o Hj' Ho. destruct o as [|c'| | |]; try by destruct Ho.
    destruct (Z.eqb_spec (outc_input_index c') index); [by apply (Hu j' c')|by destruct Ho].
Qed.

Record input_rules {Body} (t : Chargeable Body) (params : PredicateParameters) (index : Z) (i : Input) : Prop := {
  ir_predicate p : Inp.input_predicate i = Some p -> 1 <= zlen p <= pp_max_predicate_length params;
  ir_predicate_data d : Inp.input_predicate_data i = Some d -> zlen d <= pp_max_predicate_data_length params;
  ir_witness w : Inp.witness_index i = Some w -> w < zlen (tx_witnesses t);
  ir_contract c : i = Input_Contract c -> only_output_for (tx_outputs t) index;
  ir_data d : Inp.input_data i = Some d -> 1 <= zlen d <= pp_max_message_data_length params
}.

Section Rules.
Context `{Alloc} {Body : Type} `{!ChargeableBody Body}.
Implicit Types (t : Chargeable Body).

Definition coin_ids t : list UtxoId := omap (fun i => if Inp.is_coin i then Inp.utxo_id i else None) (tx_inputs t).

Record common_rules t (height : Z) (params : ConsensusParameters) : Prop := {
  cr_size : size (c_chargeable body_codec) t <= tp_max_size (cp_tx_params params);
  cr_policies : policies_is_valid (tx_policies t) = true;
  cr_witness_limit v : policies_get (tx_policies t) WitnessLimit = Some v -> witnesses_size t <= v;
  cr_gas : exists g, max_gas t (cp_gas_costs params) (cp_fee_params params) = Ok g /\ g <= tp_max_gas_per_tx (cp_tx_params params);
  cr_max_fee : is_Some (policies_get (tx_policies t) MaxFee);
  cr_height : maturity t <= height <= expiration t;
  cr_inputs_max : zlen (tx_inputs t) <= tp_max_inputs (cp_tx_params params);
  cr_outputs_max : zlen (tx_outputs t) <= tp_max_outputs (cp_tx_params params);
  cr_witnesses_max : zlen (tx_witnesses t) <= tp_max_witnesses (cp_tx_params params);
  cr_spendable : Exists (fun i => is_spendable i = true) (tx_inputs t);
  cr_change : NoDup (change_assets (tx_outputs t));
  cr_change_known a : a ∈ change_assets (tx_outputs t) -> a ∈ input_asset_ids t (cp_base_asset_id params);
  cr_coin_known to v a : Output_Coin to v a ∈ tx_outputs t -> a ∈ input_asset_ids t (cp_base_asset_id params);
  cr_coins : NoDup (coin_ids t);
  cr_contracts : NoDup (omap Inp.contract_id (tx_inputs t));
  cr_nonces : NoDup (omap Inp.nonce (tx_inputs t));
  cr_inputs index i : zget (tx_inputs t) index = Some i -> input_rules t (cp_predicate_params params) index i;
  cr_contract_outputs c : Output_Contract c ∈ tx_outputs t -> exists k, zget (tx_inputs t) (outc_input_index c) = Some (Input_Contract k)
}.

(** Which rule an error reports as broken. *)
Definition common_broken t (height : Z) (params : ConsensusParameters) (e : ValidityError) : Prop :=
  let tp := cp_tx_params params in
  let pp := cp_predicate_params params in
  let at_ index (P : Input -> Prop) := exists i, zget (tx_inputs t) index = Some i /\ P i in
  match e with
  | TransactionSizeLimitExceeded => tp_max_size tp < size (c_chargeable body_codec) t
  | TransactionPoliciesAreInvalid => policies_is_valid (tx_policies t) = false
  | TransactionWitnessLimitExceeded => exists v, policies_get (tx_policies t) WitnessLimit = Some v /\ v < witnesses_size t
  | TransactionMaxGasExceeded =>
      exists g, max_gas t (cp_gas_costs params) (cp_fee_params params) = Ok g /\ tp_max_gas_per_tx tp < g
  | TransactionMaxFeeNotSet => policies_get (tx_policies t) MaxFee = None
  | TransactionMaturity => height < maturity t
  | TransactionExpiration => expiration t < height
  | TransactionInputsMax => tp_max_inputs tp < zlen (tx_inputs t)
  | TransactionOutputsMax => tp_max_outputs tp < zlen (tx_outputs t)
  | TransactionWitnessesMax => tp_max_witnesses tp < zlen (tx_witnesses t)
  | NoSpendableInput => Forall (fun i => is_spendable i = false) (tx_inputs t)
  | TransactionOutputChangeAssetIdDuplicated a => twice a (change_assets (tx_outputs t))
  | TransactionOutputChangeAssetIdNotFound a =>
      a ∈ change_assets (tx_outputs t) /\ a ∉ input_asset_ids t (cp_base_asset_id params)
  | TransactionOutputCoinAssetIdNotFound a =>
      (exists to v, Output_Coin to v a ∈ tx_outputs t) /\ a ∉ input_asset_ids t (cp_base_asset_id params)
  | DuplicateInputUtxoId u => twice u (coin_ids t)
  | DuplicateInputContractId c => twice c (omap Inp.contract_id (tx_inputs t))
  | DuplicateInputNonce n => twice n (omap Inp.nonce (tx_inputs t))
  | InputPredicateEmpty index => at_ index (fun i => Inp.input_predicate i = Some [])
  | InputPredicateLength index => at_ index (fun i => exists p, Inp.input_predicate i = Some p /\ pp_max_predicate_length pp < zlen p)
  | InputPredicateDataLength index =>
      at_ index (fun i => exists d, Inp.input_predicate_data i = Some d /\ pp_max_predicate_data_length pp < zlen d)
  | InputWitnessIndexBounds index => at_ index (fun i => exists w, Inp.witness_index i = Some w /\ zlen (tx_witnesses t) <= w)
  | InputContractAssociatedOutputContract index =>
      at_ index (fun i => (exists c, i = Input_Contract c) /\ ~ only_output_for (tx_outputs t) index)
  | InputMessageDataLength index =>
      at_ index (fun i => exists d, Inp.input_data i = Some d /\ (d = [] \/ pp_max_message_data_length pp < zlen d))
  | OutputContractInputIndex index => exists c, zget (tx_outputs t) index = Some (Output_Contract c) /\
      ~ exists k, zget (tx_inputs t) (outc_input_index c) = Some (Input_Contract k)
  | _ => False
  end.

Lemma zlen_0 {A} (l : list A) : zlen l = 0 -> l = [].
Proof. destruct l; [done|unfold zlen; cbn; lia]. Qed.

Lemma check_without_signature_spec t height params index i :
  zget (tx_inputs t) index = Some i ->
  match check_without_signature i index (tx_outputs t) (tx_witnesses t) (cp_predicate_params params) with
  | Ok _ => input_rules t (cp_predicate_params params) index i
  | Err e => common_broken t height params e
  | Crash => False
  end.
Proof.
  intros Hi. unfold check_without_signature.
  destruct (match Inp.input_predicate i with Some p => zlen p =? 0 | None => false end) eqn:E1.
  { destruct (Inp.input_predicate i) as [p|] eqn:Ep; [|done]. zbool. apply zlen_0 in E1 as ->. by exists i. }
  destruct (match Inp.input_predicate i with Some p => _ <? zlen p | None => false end) eqn:E2.
  { destruct (Inp.input_predicate i) as [p|] eqn:Ep; [|done]. zbool. exists i. split; [done|]. by exists p. }
  destruct (match Inp.input_predicate_data i with Some d => _ | None => false end) eqn:E3.
  { destruct (Inp.input_predicate_data i) as [p|] eqn:Ep; [|done]. zbool. exists i. split; [done|]. by exists p. }
  destruct (match Inp.witness_index i with Some w => _ | None => false end) eqn:E4.
  { destruct (Inp.witness_index i) as [w|] eqn:Ew; [|done]. zbool. exists i. split; [done|]. by exists w. }
  destruct (match i with Input_Contract _ => _ | _ => false end) eqn:E5.
  { destruct i as [| |c| | | |]; try done. exists (Input_Contract c). split_and!; [done|by exists c|].
    rewrite <- count_contract_outputs_one. lia. }
  destruct (match Inp.input_data i with Some d => _ | None => false end) eqn:E6.
  { destruct (Inp.input_data i) as [d|] eqn:Ed; [|done]. exists i. split; [done|]. exists d. split; [done|].
    apply orb_true_iff in E6 as [E6|E6]; zbool; [left; by apply zlen_0|by right]. }
  split.
  - intros p Hp. rewrite Hp in *. pose proof (zlen_nonneg p). lia.
  - intros d Hd. rewrite Hd in *. lia.
  - intros w Hw. rewrite Hw in *. lia.
  - intros c ->. apply count_contract_outputs_one. lia.
  - intros d Hd. rewrite Hd in *. pose proof (zlen_nonneg d). lia.
Qed.

Lemma elem_of_change_assets outputs a : a ∈ change_assets outputs <-> exists to v, Output_Change to v a ∈ outputs.
Proof.
  unfold change_assets. rewrite list_elem_of_omap. split.
  - intros (o & Ho & E). destruct o; try done. cbn in E. injection E as ->. by eexists _, _.
  - intros (to & v & Ho). by exists (Output_Change to v a).
Qed.

Lemma check_output_spec t height params index o :
  zget (tx_outputs t) index = Some o ->
  match check_output t (cp_base_asset_id params) index o with
  | Ok _ =>
      (forall c, o = Output_Contract c -> exists k, zget (tx_inputs t) (outc_input_index c) = Some (Input_Contract k)) /\
      (forall to v a, o = Output_Change to v a -> a ∈ input_asset_ids t (cp_base_asset_id params)) /\
      (forall to v a, o = Output_Coin to v a -> a ∈ input_asset_ids t (cp_base_asset_id params))
  | Err e => common_broken t height params e
  | Crash => False
  end.
Proof.
  intros Ho. assert (Hin : o ∈ tx_outputs t) by (apply zget_elem; by exists index). unfold check_output, ensure.
  destruct o as [to v a|c|to v a| |]; cbn [output_check obind].
  - case_bool_decide as Ha; [split_and!; intros; simplify_eq; done|]. split; [by exists to, v|done].
  - destruct (zget (tx_inputs t) (outc_input_index c)) as [[]|] eqn:E; cbn [obind];
      try (split_and!; intros; simplify_eq; by eexists); (exists c; split; [done|]; rewrite E; by intros [k ?]).
  - case_bool_decide as Ha; cbn [obind]; [split_and!; intros; simplify_eq; done|]. split; [|done].
    apply elem_of_change_assets. by exists to, v.
  - split_and!; intros; simplify_eq.
  - split_and!; intros; simplify_eq.
Qed.

Lemma policies_set_get p ty : policy_set (pol_bits p) ty = match policies_get p ty with Some _ => true | None => false end.
Proof. unfold policies_get. by destruct (policy_set (pol_bits p) ty). Qed.

(** The checks of the common part, in order. *)
Lemma common_part_spec t height params :
  match check_common_part t height params with
  | Ok _ => common_rules t height params
  | Err e => common_broken t height params e
  | Crash => forall g, max_gas t (cp_gas_costs params) (cp_fee_params params) <> Ok g
  end.
Proof.
  unfold check_common_part, check_size, ensure.
  destruct (Z.leb_spec (size (c_chargeable body_codec) t) (tp_max_size (cp_tx_params params))) as [Hsize|]; cbn [obind]; [|done].
  destruct (policies_is_valid (tx_policies t)) eqn:Hpol; cbn [obind]; [|done].
  match goal with |- context [obind ?x _] => assert (Hw : x = Ok tt \/ x = Err TransactionWitnessLimitExceeded /\
    exists v, policies_get (tx_policies t) WitnessLimit = Some v /\ v < witnesses_size t) end.
  { destruct (policies_get (tx_policies t) WitnessLimit) as [v|]; [|by left]. destruct (Z.leb_spec (witnesses_size t) v); [by left|right].
    split; [done|]. by exists v. }
  match type of Hw with ?x = _ \/ _ => assert (Hw' : x = Ok tt -> forall v, policies_get (tx_policies t) WitnessLimit = Some v -> witnesses_size t <= v) end.
  { intros E v Hv. rewrite Hv in E. destruct (Z.leb_spec (witnesses_size t) v); [done|discriminate E]. }
  destruct Hw as [Hw|[-> Hw]]; [|cbn [obind]; exact Hw]. rewrite Hw. specialize (Hw' Hw). clear Hw. cbn [obind].
  destruct (max_gas t (cp_gas_costs params) (cp_fee_params params)) as [g|e|] eqn:Hgas; cbn [obind]; [|done..].
  destruct (Z.leb_spec g (tp_max_gas_per_tx (cp_tx_params params))) as [Hg|]; cbn [obind]; [|exists g; split; [exact Hgas|done]].
  rewrite policies_set_get. destruct (policies_get (tx_policies t) MaxFee) as [fee|] eqn:Hfee; cbn [obind]; [|exact Hfee].
  destruct (Z.leb_spec (maturity t) height) as [Hmat|]; cbn [obind]; [|done].
  destruct (Z.leb_spec height (expiration t)) as [Hexp|]; cbn [obind]; [|done].
  destruct (Z.leb_spec (zlen (tx_inputs t)) (tp_max_inputs (cp_tx_params params))) as [Hin|]; cbn [obind]; [|done].
  destruct (Z.leb_spec (zlen (tx_outputs t)) (tp_max_outputs (cp_tx_params params))) as [Hout|]; cbn [obind]; [|done].
  destruct (Z.leb_spec (zlen (tx_witnesses t)) (tp_max_witnesses (cp_tx_params params))) as [Hwit|]; cbn [obind]; [|done].
  destruct (existsb is_spendable (tx_inputs t)) eqn:Hsp; cbn [obind]; cycle 1.
  { apply Forall_forall. intros i Hi. apply not_true_is_false. intros E. apply not_true_iff_false in Hsp. apply Hsp, existsb_exists.
    exists i. split; [by apply list_elem_of_In|done]. }
  pose proof (try_each_spec (fun _ asset => ensure (count_change (tx_outputs t) asset <=? 1) (TransactionOutputChangeAssetIdDuplicated asset))
    (input_asset_ids_unique t (cp_base_asset_id params)) 0) as Hdup. unfold ensure in Hdup.
  destruct (try_each _ 0 (input_asset_ids_unique t (cp_base_asset_id params))) as [[]|e|]; cbn [obind]; cycle 1.
  { destruct Hdup as (j & a & _ & E). destruct (Z.leb_spec (count_change (tx_outputs t) a) 1); [done|]. injection E as <-.
    cbn. apply count_twice. by rewrite <- count_change_spec. }
  { destruct Hdup as (j & a & _ & E). by destruct (count_change (tx_outputs t) a <=? 1). }
  pose proof (next_duplicate_spec (coin_ids t) []) as Hcoins. fold (coin_ids t).
  destruct (next_duplicate [] (coin_ids t)) as [u|]; cbn [obind].
  { destruct Hcoins as [[Hu _]|?]; [by apply not_elem_of_nil in Hu|done]. }
  pose proof (next_duplicate_spec (omap Inp.contract_id (tx_inputs t)) []) as Hcontracts.
  destruct (next_duplicate [] (omap Inp.contract_id (tx_inputs t))) as [u|]; cbn [obind].
  { destruct Hcontracts as [[Hu _]|?]; [by apply not_elem_of_nil in Hu|done]. }
  pose proof (next_duplicate_spec (omap Inp.nonce (tx_inputs t)) []) as Hnonces.
  destruct (next_duplicate [] (omap Inp.nonce (tx_inputs t))) as [u|]; cbn [obind].
  { destruct Hnonces as [[Hu _]|?]; [by apply not_elem_of_nil in Hu|done]. }
  pose proof (try_each_spec (fun index i => check_without_signature i index (tx_outputs t) (tx_witnesses t) (cp_predicate_params params))
    (tx_inputs t) 0) as Hinputs.
  destruct (try_each _ 0 (tx_inputs t)) as [[]|e|]; cbn [obind]; cycle 1.
  { destruct Hinputs as (j & i & Hj & E). rewrite Z.add_0_l in E. pose proof (check_without_signature_spec t height params j i Hj) as Hs.
    by rewrite E in Hs. }
  { destruct Hinputs as (j & i & Hj & E). rewrite Z.add_0_l in E. pose proof (check_without_signature_spec t height params j i Hj) as Hs.
    by rewrite E in Hs. }
  pose proof (try_each_spec (check_output t (cp_base_asset_id params)) (tx_outputs t) 0) as Houtputs.
  destruct (try_each _ 0 (tx_outputs t)) as [[]|e|]; cycle 1.
  { destruct Houtputs as (j & o & Hj & E). rewrite Z.add_0_l in E. pose proof (check_output_spec t height params j o Hj) as Hs. by rewrite E in Hs. }
  { destruct Houtputs as (j & o & Hj & E). rewrite Z.add_0_l in E. pose proof (check_output_spec t height params j o Hj) as Hs. by rewrite E in Hs. }
  assert (Hout' : forall o, o ∈ tx_outputs t ->
    (forall c, o = Output_Contract c -> exists k, zget (tx_inputs t) (outc_input_index c) = Some (Input_Contract k)) /\
    (forall to v a, o = Output_Change to v a -> a ∈ input_asset_ids t (cp_base_asset_id params)) /\
    (forall to v a, o = Output_Coin to v a -> a ∈ input_asset_ids t (cp_base_asset_id params))).
  { intros o [j Hj]%zget_elem. pose proof (check_output_spec t height params j o Hj) as Hs.
    pose proof (Houtputs j o Hj) as Hj'. rewrite Z.add_0_l in Hj'. by rewrite Hj' in Hs. }
  assert (Hknown : forall a, a ∈ change_assets (tx_outputs t) -> a ∈ input_asset_ids t (cp_base_asset_id params)).
  { intros a (to & v & Ha)%elem_of_change_assets. destruct (Hout' _ Ha) as (_ & Hc & _). by eapply Hc. }
  split; try done.
  - exists g. split; [exact Hgas|done].
  - apply existsb_exists in Hsp as (i & Hi & E). apply Exists_exists. exists i. split; [by apply list_elem_of_In|done].
  - apply NoDup_twice. intros a Ha. assert (Hin_a : a ∈ change_assets (tx_outputs t)).
    { destruct Ha as (l1 & l2 & l3 & ->). set_solver. }
    apply count_twice in Ha. rewrite <- count_change_spec in Ha.
    assert (Hu : a ∈ input_asset_ids_unique t (cp_base_asset_id params)) by (apply unique_elem; split; [by apply Hknown|apply not_elem_of_nil]).
    apply zget_elem in Hu as [j Hj]. specialize (Hdup j a Hj). destruct (Z.leb_spec (count_change (tx_outputs t) a) 1); [lia|discriminate Hdup].
  - intros to v a Ha. destruct (Hout' _ Ha) as (_ & _ & Hc). by eapply Hc.
  - apply Hcoins.
  - apply Hcontracts.
  - apply Hnonces.
  - intros j i Hj. pose proof (check_without_signature_spec t height params j i Hj) as Hs. specialize (Hinputs j i Hj).
    rewrite Z.add_0_l in Hinputs. by rewrite Hinputs in Hs.
  - intros c Hc. destruct (Hout' _ Hc) as (Hk & _). by eapply Hk.
Qed.
End Rules.

(** An error of the common part is about a rule that is broken. *)
Lemma common_broken_invalid `{Alloc} {Body} `{!ChargeableBody Body} (t : Chargeable Body) height params e :
  common_broken t height params e -> ~ common_rules t height params.
Proof.
  intros Hb Hr. destruct Hr. unfold common_broken in Hb.
  assert (Hnd : forall A (x : A) l, twice x l -> NoDup l -> False) by (intros A x l Ht Hl; by apply (twice_not_NoDup x l)).
  assert (Hlen : forall (d : list byte) n, 1 <= zlen d <= n -> d <> [] /\ ~ n < zlen d).
  { intros d n Hd. split; [intros ->; unfold zlen in Hd; cbn in Hd; lia|lia]. }
  destruct e; try done; try lia; try congruence; try (by eapply Hnd);
    try (destruct Hb as (i & Hi & Hb); destruct (cr_inputs0 _ _ Hi));
    repeat match goal with
      | E : ?f = Some _, Hr : forall _, ?f = Some _ -> _ |- _ => specialize (Hr _ E); cbn beta in Hr
      | Hx : exists _, _ |- _ => destruct Hx
      | Hx : _ /\ _ |- _ => destruct Hx
      end; try done; try lia; try congruence.
  - apply Exists_exists in cr_spendable0 as (i & Hi & E). rewrite Forall_forall in Hb. specialize (Hb i Hi). congruence.
  - match goal with Hn : ~ only_output_for _ _ |- _ => apply Hn end. by eapply ir_contract0.
  - match goal with Hd : 1 <= zlen ?d, Hd' : zlen ?d <= _, Ho : _ \/ _ |- _ => destruct (Hlen d _ (conj Hd Hd')); by destruct Ho end.
  - match goal with Hn : ~ (exists _, _) |- _ => apply Hn end. apply cr_contract_outputs0, zget_elem. by exists index.
  - match goal with E : max_gas _ _ _ = Ok ?x, E' : max_gas _ _ _ = Ok ?y |- _ => assert (x = y) by congruence end. lia.
  - rewrite Hb in cr_max_fee0. by destruct cr_max_fee0.
  - match goal with Hn : _ ∉ input_asset_ids _ _ |- _ => by apply Hn, cr_change_known0 end.
  - match goal with Hn : _ ∉ input_asset_ids _ _ |- _ => apply Hn end. by eapply cr_coin_known0.
Qed.

(** Whether the common part passes. *)
Lemma check_common_part_iff `{Alloc} {Body} `{!ChargeableBody Body} (t : Chargeable Body) height params :
  check_common_part t height params = Ok tt <-> common_rules t height params.
Proof.
  pose proof (common_part_spec t height params) as Hs. destruct (check_common_part t height params) as [[]|e|].
  - done.
  - split; [discriminate|]. intros Hr. by apply common_broken_invalid in Hs.
  - split; [discriminate|]. intros Hr. destruct (cr_gas _ _ _ Hr) as (g & Hg & _). by destruct (Hs g).
Qed.

(** ** The rules of each kind, declaratively *)

Lemma try_each_Ok {A} (f : Z -> A -> outcome ValidityError unit) (P : A -> Prop) l :
  (forall k x, f k x = Ok tt <-> P x) -> forall k, try_each f k l = Ok tt <-> Forall P l.
Proof.
  intros Hf. induction l as [|x l IH]; intros k; cbn [try_each]; [split; [constructor|done]|].
  rewrite Forall_cons, <- (IH (k + 1)), <- (Hf k x). destruct (f k x) as [[]|e|]; cbn [obind]; intuition congruence.
Qed.

Lemma ensure_Ok b e : ensure b e = Ok tt <-> b = true.
Proof. by destruct b. Qed.

Lemma obind_Ok {A} (x : outcome ValidityError A) (f : A -> outcome ValidityError unit) :
  obind x f = Ok tt <-> exists a, x = Ok a /\ f a = Ok tt.
Proof. destruct x as [a|e|]; cbn; split; try done; [by exists a|by intros (b & [= ->] & Hb)|by intros (b & ? & _)..]. Qed.

(** Spends only the base asset, without the data of a message. *)
Definition base_input (base : AssetId) (i : Input) : Prop := is_spendable i = true /\ Inp.asset_id i base = Some base.
(** Pays coins, or change of the base asset. *)
Definition plain_output (base : AssetId) (o : Output) : Prop :=
  match o with Output_Coin _ _ _ => True | Output_Change _ _ a => a = base | _ => False end.

Lemma check_base_input_Ok base k i : check_base_input base k i = Ok tt <-> base_input base i.
Proof.
  unfold check_base_input, base_input, ensure.
  destruct i; cbn [Inp.asset_id is_spendable]; try case_bool_decide; cbn [obind]; intuition congruence.
Qed.
Lemma check_plain_output_Ok base k o : check_plain_output base k o = Ok tt <-> plain_output base o.
Proof. destruct o; cbn; rewrite ?ensure_Ok, ?bool_decide_eq_true; intuition congruence. Qed.

Section Kinds.
Context `{Alloc} `{Sha256} `{ParametersDecoder}.

(** What a kind of transaction demands of its own fields. *)
Class KindRules (Body : Type) : Type := kind_rules : Chargeable Body -> ConsensusParameters -> Prop.
(** The checks of a kind decide its rules. *)
Class LawfulRules (Body : Type) `{!UniqueRules Body} `{!KindRules Body} : Prop :=
  unique_rules_exact t params : check_unique_rules t params = Ok tt <-> kind_rules t params.

#[export] Instance script_rules : KindRules ScriptBody := fun t params =>
  zlen (script (tx_body t)) <= sp_max_script_length (cp_script_params params) /\
  zlen (script_data (tx_body t)) <= sp_max_script_data_length (cp_script_params params) /\
  Forall (fun o => forall id root, o <> Output_ContractCreated id root) (tx_outputs t).

(** The outputs of a create transaction: the contract with the id and the state root that
    its code, salt and slots determine, once; coins; change of the base asset. *)
Definition create_output (base : AssetId) (m : CreateMetadata) (o : Output) : Prop :=
  match o with
  | Output_ContractCreated id root => id = cm_contract_id m /\ root = cm_state_root m
  | o => plain_output base o
  end.
Definition creations (outputs : list Output) : list ContractId :=
  omap (fun o => if o is Output_ContractCreated id _ then Some id else None) outputs.

#[export] Instance create_rules : KindRules CreateBody := fun t params =>
  let base := cp_base_asset_id params in
  exists code m,
    witness_at (tx_witnesses t) (bytecode_witness_index (tx_body t)) = Some code /\
    zlen code <= kp_contract_max_size (cp_contract_params params) /\
    zlen (storage_slots (tx_body t)) <= kp_max_storage_slots (cp_contract_params params) /\
    Sorted (fun a b => Sparse.key_ltb (slot_key a) (slot_key b) = true) (storage_slots (tx_body t)) /\
    Forall (base_input base) (tx_inputs t) /\
    create_metadata t = Ok m /\
    Forall (create_output base m) (tx_outputs t) /\
    zlen (creations (tx_outputs t)) = 1.

#[export] Instance upgrade_rules : KindRules UpgradePurpose := fun t params =>
  let base := cp_base_asset_id params in
  Exists (fun i => Inp.input_owner i = Some (cp_privileged_address params)) (tx_inputs t) /\
  match tx_body t with
  | Upgrade_ConsensusParameters index checksum => exists encoded,
      witness_at (tx_witnesses t) index = Some encoded /\ sha256 encoded = checksum /\ is_Some (decode_parameters encoded)
  | Upgrade_StateTransition _ => True
  end /\
  Forall (base_input base) (tx_inputs t) /\ Forall (plain_output base) (tx_outputs t).

#[export] Instance upload_rules : KindRules UploadBody := fun t params =>
  let base := cp_base_asset_id params in
  let b := tx_body t in
  upload_subsections_number b <= tp_max_bytecode_subsections (cp_tx_params params) /\
  (exists subsection, witness_at (tx_witnesses t) (upload_witness_index b) = Some subsection /\
    MerkleProof.verify (upload_root b) subsection (upload_proof_set b) (upload_subsection_index b) (upload_subsections_number b) = Ok true) /\
  Forall (base_input base) (tx_inputs t) /\ Forall (plain_output base) (tx_outputs t).

#[export] Instance blob_rules : KindRules BlobBody := fun t params =>
  let base := cp_base_asset_id params in
  (exists blob, witness_at (tx_witnesses t) (blob_witness_index (tx_body t)) = Some blob /\ sha256 blob = blob_body_id (tx_body t)) /\
  Forall (base_input base) (tx_inputs t) /\ Forall (plain_output base) (tx_outputs t).

Lemma base_inputs_Ok base k l : try_each (check_base_input base) k l = Ok tt <-> Forall (base_input base) l.
Proof. apply try_each_Ok, check_base_input_Ok. Qed.
Lemma plain_outputs_Ok base k l : try_each (check_plain_output base) k l = Ok tt <-> Forall (plain_output base) l.
Proof. apply try_each_Ok, check_plain_output_Ok. Qed.

(** A step that produces nothing. *)
Lemma then_Ok (x : outcome ValidityError unit) y : obind x (fun _ => y) = Ok tt <-> x = Ok tt /\ y = Ok tt.
Proof. destruct x as [[]|e|]; cbn; intuition congruence. Qed.
Lemma ok_or_bind_Ok {A} (o : option A) (e : ValidityError) (f : A -> outcome ValidityError unit) :
  obind (ok_or o e) f = Ok tt <-> exists a, o = Some a /\ f a = Ok tt.
Proof. destruct o as [a|]; cbn; split; try done; [by exists a|by intros (b & [= ->] & Hb)|by intros (b & ? & _)]. Qed.

#[export] Instance script_lawful : LawfulRules ScriptBody.
Proof.
  intros t params. unfold check_unique_rules, script_unique_rules, kind_rules, script_rules.
  rewrite !then_Ok, !ensure_Ok, !Z.leb_le, try_each_Ok; [done|]. intros k o. destruct o; naive_solver.
Qed.

Lemma slots_sorted_Sorted l : slots_sorted l = true <-> Sorted (fun a b => Sparse.key_ltb (slot_key a) (slot_key b) = true) l.
Proof.
  induction l as [|a l IH]; [split; [constructor|done]|]. destruct l as [|b l].
  { split; [intros _; repeat constructor|done]. }
  change (slots_sorted (a :: b :: l)) with (Sparse.key_ltb (slot_key a) (slot_key b) && slots_sorted (b :: l)).
  rewrite andb_true_iff, IH. split.
  - intros [Hab Hl]. constructor; [done|by constructor].
  - intros Hs. inversion Hs as [|? ? Hl Hh]; subst. by inversion Hh.
Qed.

Lemma check_create_outputs_Ok base m l : forall k created b,
  check_create_outputs base m k created l = Ok b <->
  Forall (create_output base m) l /\
    ((created = true /\ creations l = [] /\ b = true) \/ (created = false /\ creations l = [] /\ b = false) \/
     (created = false /\ zlen (creations l) = 1 /\ b = true)).
Proof.
  induction l as [|o l IH]; intros k created b; cbn [check_create_outputs].
  { rewrite Forall_nil. unfold creations, zlen. destruct created, b; cbn; naive_solver. }
  rewrite Forall_cons. destruct o as [| |to v a| |id root]; cbn [obind create_output plain_output].
  - rewrite IH. by unfold creations; cbn; intuition.
  - by intuition.
  - unfold ensure. case_bool_decide; cbn [obind]; [rewrite IH; unfold creations; cbn; by intuition|]. by intuition.
  - by intuition.
  - pose proof (zlen_nonneg (creations l)). change (creations (Output_ContractCreated id root :: l)) with (id :: creations l).
    assert (Hz : zlen (id :: creations l) = 1 <-> creations l = []).
    { unfold zlen. cbn. split; [|intros ->; done]. intros Hl. destruct (creations l); [done|cbn in Hl; lia]. }
    rewrite Hz. case_bool_decide as Hid; cbn [orb obind]; [split; [discriminate|by intros [[[? ?] _] _]]|].
    case_bool_decide as Hroot; cbn [obind]; [split; [discriminate|by intros [[[? ?] _] _]]|].
    subst id root.
    destruct created; cbn [obind]; [split; [discriminate|by intros [_ [(_ & ? & _)|[(? & _)|(? & _)]]]]|].
    rewrite IH. intuition congruence.
Qed.

#[export] Instance create_lawful : LawfulRules CreateBody.
Proof.
  intros t params. unfold check_unique_rules, create_unique_rules, kind_rules, create_rules.
  rewrite ok_or_bind_Ok. repeat setoid_rewrite then_Ok. repeat setoid_rewrite obind_Ok.
  repeat setoid_rewrite ensure_Ok. repeat setoid_rewrite Z.leb_le.
  setoid_rewrite slots_sorted_Sorted. setoid_rewrite base_inputs_Ok. setoid_rewrite check_create_outputs_Ok. split.
  - intros (code & Hcode & Hlen & Hslots & Hsorted & Hin & m & Hm & b & [Hout Hb] & ->). exists code, m. split_and!; try done.
    destruct Hb as [(? & _)|[(_ & _ & ?)|(_ & ? & _)]]; done.
  - intros (code & m & Hcode & Hlen & Hslots & Hsorted & Hin & Hm & Hout & Hone). exists code. split_and!; try done.
    exists m. split; [done|]. exists true. split; [|done]. split; [done|]. by right; right.
Qed.

Lemma and_congr (A B C D : Prop) : (A <-> C) -> (B <-> D) -> (A /\ B <-> C /\ D).
Proof. tauto. Qed.

#[export] Instance upgrade_lawful : LawfulRules UpgradePurpose.
Proof.
  intros t params. unfold check_unique_rules, upgrade_unique_rules, kind_rules, upgrade_rules.
  rewrite then_Ok, ensure_Ok, obind_Ok. apply and_congr.
  { rewrite existsb_exists, Exists_exists. setoid_rewrite bool_decide_eq_true. setoid_rewrite list_elem_of_In. done. }
  transitivity ((exists m, upgrade_metadata t = Ok m) /\
    Forall (base_input (cp_base_asset_id params)) (tx_inputs t) /\ Forall (plain_output (cp_base_asset_id params)) (tx_outputs t)).
  { setoid_rewrite then_Ok. setoid_rewrite base_inputs_Ok. setoid_rewrite plain_outputs_Ok. naive_solver. }
  apply and_congr; [|done]. unfold upgrade_metadata. destruct (tx_body t) as [index checksum|root]; [|naive_solver].
  destruct (witness_at (tx_witnesses t) index) as [w|]; cbn [ok_or obind]; [|naive_solver]. unfold ensure.
  case_bool_decide; cbn [obind]; [|naive_solver]. destruct (decode_parameters w) eqn:E; cbn [ok_or obind].
  - split; [intros _|eauto]. exists w. rewrite E. eauto.
  - split; [by intros [m ?]|]. intros (e & [= <-] & _ & Hs). rewrite E in Hs. by destruct Hs.
Qed.

#[export] Instance upload_lawful : LawfulRules UploadBody.
Proof.
  intros t params. unfold check_unique_rules, upload_unique_rules, kind_rules, upload_rules.
  rewrite then_Ok, ensure_Ok, Z.leb_le, ok_or_bind_Ok, <- base_inputs_Ok, <- plain_outputs_Ok. split.
  - intros (Hn & w & Hw & (r & Hr & Hrest)%obind_Ok). rewrite !then_Ok, ensure_Ok in Hrest.
    destruct Hrest as (-> & Hin & Hout). split_and!; try done.
    exists w. split; [done|]. by destruct (MerkleProof.verify _ _ _ _ _); simplify_eq.
  - intros (Hn & (w & Hw & Hr) & Hin & Hout). split; [done|]. exists w. split; [done|]. by rewrite Hr, Hin, Hout.
Qed.


#[export] Instance blob_lawful : LawfulRules BlobBody.
Proof.
  intros t params. unfold check_unique_rules, blob_unique_rules, kind_rules, blob_rules.
  rewrite ok_or_bind_Ok. repeat setoid_rewrite then_Ok. repeat setoid_rewrite ensure_Ok.
  repeat setoid_rewrite base_inputs_Ok. repeat setoid_rewrite plain_outputs_Ok. repeat setoid_rewrite bool_decide_eq_true. naive_solver.
Qed.

Definition mint_rules (t : Mint) (height : Z) (params : ConsensusParameters) : Prop :=
  size c_mint t <= tp_max_size (cp_tx_params params) /\
  txp_block_height (mint_tx_pointer t) = height /\
  outc_input_index (mint_output_contract t) = 0 /\
  mint_asset_id t = cp_base_asset_id params.

Definition chargeable_valid {Body} `{!ChargeableBody Body} `{!KindRules Body} (t : Chargeable Body) height params : Prop :=
  common_rules t height params /\ kind_rules t params.
(** Why an error is reported: it names a common rule that is broken, or the common rules hold
    and those of the kind do not. *)
Definition chargeable_rejected {Body} `{!ChargeableBody Body} `{!KindRules Body} (t : Chargeable Body) height params e : Prop :=
  common_broken t height params e \/ common_rules t height params /\ ~ kind_rules t params.

Definition valid (t : Transaction) (height : Z) (params : ConsensusParameters) : Prop :=
  match t with
  | Tx_Script t => chargeable_valid t height params
  | Tx_Create t => chargeable_valid t height params
  | Tx_Mint t => mint_rules t height params
  | Tx_Upgrade t => chargeable_valid t height params
  | Tx_Upload t => chargeable_valid t height params
  | Tx_Blob t => chargeable_valid t height params
  end.
Definition rejected (t : Transaction) (height : Z) (params : ConsensusParameters) (e : ValidityError) : Prop :=
  match t with
  | Tx_Script t => chargeable_rejected t height params e
  | Tx_Create t => chargeable_rejected t height params e
  | Tx_Mint t =>
      match e with
      | TransactionSizeLimitExceeded => tp_max_size (cp_tx_params params) < size c_mint t
      | TransactionMintIncorrectBlockHeight => txp_block_height (mint_tx_pointer t) <> height
      | TransactionMintIncorrectOutputIndex => outc_input_index (mint_output_contract t) <> 0
      | TransactionMintNonBaseAsset => mint_asset_id t <> cp_base_asset_id params
      | _ => False
      end
  | Tx_Upgrade t => chargeable_rejected t height params e
  | Tx_Upload t => chargeable_rejected t height params e
  | Tx_Blob t => chargeable_rejected t height params e
  end.

Lemma chargeable_check_spec {Body} `{!ChargeableBody Body} `{!UniqueRules Body} `{!KindRules Body} `{!LawfulRules Body}
    (t : Chargeable Body) height params :
  match chargeable_check_without_signatures t height params with
  | Ok _ => chargeable_valid t height params
  | Err e => chargeable_rejected t height params e /\ ~ chargeable_valid t height params
  | Crash => ~ chargeable_valid t height params
  end.
Proof.
  unfold chargeable_check_without_signatures, chargeable_valid, chargeable_rejected.
  pose proof (common_part_spec t height params) as Hc. pose proof (unique_rules_exact t params) as Hu.
  destruct (check_common_part t height params) as [[]|e|]; cbn [obind].
  - destruct (check_unique_rules t params) as [[]|e|]; [tauto| |].
    + assert (Hn : ~ kind_rules t params) by (intros Hk; apply Hu in Hk; discriminate Hk). tauto.
    + intros [_ Hk]. apply Hu in Hk. discriminate Hk.
  - pose proof (common_broken_invalid _ _ _ _ Hc). tauto.
  - intros [Hr _]. destruct (cr_gas _ _ _ Hr) as (g & Hg & _). by destruct (Hc g).
Qed.
End Kinds.

(** C15: the validity check of every kind of transaction accepts exactly the transactions that
    satisfy the rules, stated declaratively: the common ones (size, policies, witness limit,
    gas, fee policy, maturity and expiration, counts, a spendable input, distinct coins,
    contracts and messages, change and coin outputs only of assets that are brought and at
    most one change output of each, lengths of predicates and data, contract inputs and outputs
    that belong to each other) and those of its kind (bounds of scripts; a created contract whose
    id and state root are those of its code, salt and sorted slots, once; the privileged address
    and the checksum of an upgrade; the Merkle proof of an uploaded subsection; the id of a blob;
    only inputs of the base asset; the fields of a mint). A rejection with an error names a
    common rule that is broken, or comes from the rules of the kind. *)
Theorem validity_exact `{Alloc} `{Sha256} `{ParametersDecoder} (t : Transaction) (height : Z) (params : ConsensusParameters) :
  match check_without_signatures t height params with
  | Ok _ => valid t height params
  | Err e => rejected t height params e /\ ~ valid t height params
  | Crash => ~ valid t height params
  end.
Proof.
  destruct t as [t|t|t|t|t|t]; cbn [check_without_signatures valid rejected]; cycle 2; [|exact (chargeable_check_spec t height params)..].
  unfold mint_check_without_signatures, check_size, ensure, mint_rules.
  destruct (Z.leb_spec (size c_mint t) (tp_max_size (cp_tx_params params))); cbn [obind]; [|split; [done|intros (? & _); lia]].
  destruct (Z.eqb_spec (txp_block_height (mint_tx_pointer t)) height); cbn [obind]; [|split; [done|by intros (_ & ? & _)]].
  destruct (Z.eqb_spec (outc_input_index (mint_output_contract t)) 0); cbn [obind]; [|split; [done|by intros (_ & _ & ? & _)]].
  case_bool_decide; [done|]. split; [done|by intros (_ & _ & _ & ?)].
Qed.

(** What a valid transaction promises to settlement: its change outputs are of distinct assets
    among those it has. *)
Lemma common_rules_changes `{Alloc} {Body} `{!ChargeableBody Body} (t : Chargeable Body) height params :
  common_rules t height params ->
  let base := cp_base_asset_id params in
  NoDup (change_assets (tx_outputs t)) /\
  Forall (fun a => a = base \/ Exists (brings base a) (tx_inputs t)) (change_assets (tx_outputs t)).
Proof.
  intros Hr base. split; [apply Hr|]. apply Forall_forall. intros a Ha. apply (cr_change_known _ _ _ Hr) in Ha.
  unfold input_asset_ids in Ha. apply list_elem_of_omap in Ha as (i & Hi & E). fold base in E.
  destruct i as [c|c|c|m|m|m|m]; try (injection E as ->; by left); [..|done];
    injection E as <-; right; apply Exists_exists; eexists; (split; [exact Hi|done]).
Qed.
