(* ===== verification/Predicates.v ===== *)
(** * Checking and estimating predicates

    The module [predicates] of src/fuel-vm/src/interpreter/executors/main.rs: the predicates of
    a transaction are run one after the other on one memory ([run_predicates]) or as tasks of an
    executor ([run_predicate_async]), to verify the declared gas or to estimate it, and the
    results are put together ([finalize_check_predicate]). The storage of a predicate
    ([PredicateStorage], src/fuel-vm/src/storage/predicate.rs) offers blobs and refuses
    everything else.

    The executor and the pool of memories are supplied by the embedder: parameters here. *)

From Stdlib Require Import Strings.Byte.
From S2P Require Import Prelude Asm Merkle Receipts Memory State Gas Alu MemOps WideInt Storage MemStorage SlotStorage Flow Calls.
From S2P Require Import Blockchain BlockchainSafe Crypto Opcodes Steps Run Bisim.
From S2P Require Import Canonical TxTypes TxCodec TxInput TxId TxSign TxFee TxOffsets TxFieldBytes Gtf TxBalances Init Reuse.
From S2P Require Import Prepared TxValidity.

(** ** The storage of predicates *)

(** [PredicateStorageRequirements]: [StorageRead<BlobData>], [None] on an error of the backend. *)
Class PredicateStorageRequirements (D : Type) : Type := {
  pred_blob_size : D -> BlobId -> option (option Z);
  pred_blob_read : D -> BlobId -> Z -> Z -> option (option (list byte))
}.

Record PredicateStorage (D : Type) : Type := mkPredicateStorage { ps_storage : D }.
Arguments mkPredicateStorage {D} _.
Arguments ps_storage {D} _.

(** Everything but blobs is an [UnsupportedStorageOperation]. *)
#[export] Instance predicate_storage {D} `{PredicateStorageRequirements D} : InterpreterStorage (PredicateStorage D) := {|
  storage_contract _ _ := None;
  storage_contract_size _ _ := None;
  storage_contract_read _ _ _ _ := None;
  storage_blob_size s b := pred_blob_size (ps_storage s) b;
  storage_blob_read s b off len := pred_blob_read (ps_storage s) b off len;
  contract_asset_id_balance _ _ _ := None;
  contract_asset_id_balance_replace _ _ _ _ := None;
  contract_state _ _ _ := None;
  contract_state_replace _ _ _ _ := None;
  contract_state_range _ _ _ _ := None;
  contract_state_insert_range _ _ _ _ := None;
  contract_state_remove_range _ _ _ _ := None;
  timestamp_at _ _ := None;
  block_hash_at _ _ := None;
  storage_coinbase _ := None
|}.

(** [EmptyStorage] *)
Definition EmptyStorage : Type := unit.
#[export] Instance empty_storage : PredicateStorageRequirements EmptyStorage := {|
  pred_blob_size _ _ := None;
  pred_blob_read _ _ _ _ := None
|}.

(** What [StorageRead] documents of blobs. *)
Class BlobLaws (D : Type) `{PredicateStorageRequirements D} : Prop := {
  pred_blob_range s b n : pred_blob_size s b = Some (Some n) -> 0 <= n < 2 ^ 63;
  pred_blob_fills s b off len bs :
    0 <= off -> 0 <= len -> pred_blob_read s b off len = Some (Some bs) -> zlen bs = len
}.
#[export] Instance empty_blob_laws : BlobLaws EmptyStorage.
Proof. by split. Qed.

#[export] Instance predicate_storage_laws {D} `{BlobLaws D} : StorageLaws (PredicateStorage D).
Proof.
  refine {| storage_wf _ := True |}; try done.
  - intros s b n _. apply pred_blob_range.
  - intros s b off len bs _. apply pred_blob_fills.
Defined.
#[export] Instance predicate_state_laws {D} `{BlobLaws D} : StateLaws (PredicateStorage D).
Proof. by split. Qed.

(** ** Parameters *)

Record CheckPredicateParams : Type := mkCheckPredicateParams {
  cpp_gas_costs : GasCosts;
  cpp_chain_id : Z;
  cpp_max_gas_per_predicate : Z;
  cpp_max_gas_per_tx : Z;
  cpp_max_inputs : Z;
  cpp_contract_max_size : Z;
  cpp_max_message_data_length : Z;
  cpp_tx_offset : Z;
  cpp_fee_params : FeeParameters;
  cpp_base_asset_id : AssetId
}.
(** [From<&ConsensusParameters>]; computing the offset panics if it overflows. *)
Definition check_predicate_params (p : ConsensusParameters) : outcome PanicReason CheckPredicateParams :=
  let? tx_offset := tx_params_tx_offset (tp_max_inputs (cp_tx_params p)) in
  Ok (mkCheckPredicateParams (cp_gas_costs p) (cp_chain_id p) (pp_max_gas_per_predicate (cp_predicate_params p))
    (tp_max_gas_per_tx (cp_tx_params p)) (tp_max_inputs (cp_tx_params p)) (kp_contract_max_size (cp_contract_params p))
    (pp_max_message_data_length (cp_predicate_params p)) tx_offset (cp_fee_params p) (cp_base_asset_id p)).
(** [InterpreterParams::new] *)
Definition interpreter_params_new (gas_price : Z) (p : CheckPredicateParams) : InterpreterParams :=
  mkParams gas_price (cpp_gas_costs p) (cpp_max_inputs p) (cpp_contract_max_size p) (cpp_tx_offset p)
    (cpp_max_message_data_length p) (cpp_chain_id p) (cpp_base_asset_id p).

(** [Interpreter::with_storage] *)
Definition with_storage {S} (memory : MemoryInstance) (storage : S) (params : InterpreterParams) : Interpreter S :=
  mkVM (replicate 64 0) memory [] receipts_default ∅ storage NotInitialized ∅ params PanicContext_None.

(** ** Errors *)

Inductive PredicateVerificationFailed : Type :=
| PVF_GasMismatch (index : Z)
| PVF_OutOfGas (index : Z)
| PVF_InvalidOwner (index : Z)
| PVF_False (index : Z)
| PVF_GasNotSpecified (index : Z)
| PVF_TransactionExceedsTotalGasAllowance (max_gas : Z)
| PVF_GasOverflow
| PVF_Bug (bug : BugVariant)
| PVF_PanicInstruction (index : Z) (instruction : PanicInstruction)
| PVF_Panic (index : Z) (reason : PanicReason)
| PVF_Storage (index : Z).

(** [InterpreterError::panic_reason] *)
Definition panic_reason (e : InterpreterError) : option PanicReason :=
  match e with
  | IE_PanicInstruction r => Some (p_reason r)
  | IE_Panic r => Some r
  | _ => None
  end.
Definition interpreter_error (index : Z) (error : InterpreterError) : PredicateVerificationFailed :=
  if bool_decide (panic_reason error = Some OutOfGas) then PVF_OutOfGas index
  else
    match error with
    | IE_Panic reason => PVF_Panic index reason
    | IE_PanicInstruction instruction => PVF_PanicInstruction index instruction
    | IE_Bug bug => PVF_Bug bug
    | IE_Storage => PVF_Storage index
    end.
(** Initialization can also fail with a validity error, the last case of the source's match. *)
Definition init_error (index : Z) (error : InitError) : PredicateVerificationFailed :=
  match error with
  | Init_Runtime e => interpreter_error index (interpreter_error_from e)
  | Init_Validity _ => PVF_False index
  end.

(** ** Checking one predicate *)

Inductive PredicateAction : Type := Verifying | Estimating (available_gas : Z).

(** A result of a task: the gas used, or why the predicate failed. *)
Definition Check : Type := Z * (PredicateVerificationFailed + Z).

(** Go on after a run that ended. *)
Definition rbind {A B} (x : RunOutcome A) (f : A -> RunOutcome B) : RunOutcome B :=
  match x with
  | Finished a => f a
  | Failed e => Failed e
  | HostPanic => HostPanic
  | Outside o => Outside o
  | OutOfFuel => OutOfFuel
  end.

Module Pred.
Section Check.
Context `{Alloc} `{Sha256} `{Powf} `{WideLib} `{Crypto} {D : Type} `{PredicateStorageRequirements D}.
Context {Body : Type} `{!ChargeableBody Body} `{!PrepareSign Body} `{!BodyOffset Body}.
Implicit Types (tx : Chargeable Body).

(** The owner of a predicate is the root of its code. *)
Definition owner_valid (i : Input) : outcome PredicateVerificationFailed bool :=
  match i with
  | Input_CoinPredicate c => Inp.is_predicate_owner_valid (coin_owner c) (coin_predicate c)
  | Input_MessageDataPredicate m => Inp.is_predicate_owner_valid (msg_recipient m) (msg_predicate m)
  | Input_MessageCoinPredicate m => Inp.is_predicate_owner_valid (msg_recipient m) (msg_predicate m)
  | _ => Ok true
  end.

(** The verdict on a run that ended with [result] in [vm]. *)
Definition judge (index : Z) (action : PredicateAction) (available_gas : Z)
    (result : InterpreterError + ProgramState) (vm : Interpreter (PredicateStorage D))
  : Z * option PredicateVerificationFailed :=
  match checked_sub available_gas (remaining_gas vm) with
  | None => (0, Some (PVF_Bug GlobalGasUnderflow))
  | Some gas_used =>
      match action with
      | Verifying =>
          match result with
          | inr (PS_Return 1) =>
              (gas_used, if negb (remaining_gas vm =? 0) then Some (PVF_GasMismatch index) else None)
          | inl err => (gas_used, Some (interpreter_error index err))
          | inr _ => (gas_used, Some (PVF_False index))
          end
      | Estimating _ => (gas_used, None)
      end
  end.

(** Returns the gas used, the verdict, and the memory, which is borrowed. A memory on which
    initialization failed is left to the next user, who resets it; here it is returned as it
    was. *)
Definition check_predicate (fuel : nat) tx (index : Z) (predicate_action : PredicateAction) (predicate : RuntimePredicate)
    (params : CheckPredicateParams) (memory : MemoryInstance) (storage : D)
  : RunOutcome (Z * option PredicateVerificationFailed) * MemoryInstance :=
  let owner := match predicate_action with
               | Verifying => match zget (tx_inputs tx) index with Some input => owner_valid input | None => Crash end
               | Estimating _ => Ok true
               end in
  match owner with
  | Ok false => (Finished (0, Some (PVF_InvalidOwner index)), memory)
  | Ok true =>
      let vm := with_storage memory (mkPredicateStorage storage) (interpreter_params_new 0 params) in
      let (context, gas) := match predicate_action with
                            | Verifying => (PredicateVerification predicate, zget (tx_inputs tx) index ≫= Inp.predicate_gas_used)
                            | Estimating available_gas => (PredicateEstimation predicate, Some available_gas)
                            end in
      match gas with
      | None => (HostPanic, memory)
      | Some available_gas =>
          match init_predicate body_codec context tx available_gas vm with
          | Err err => (Finished (0, Some (init_error index err)), memory)
          | Crash => (HostPanic, memory)
          | Ok machine =>
              match verify_predicate fuel (m_vm machine) with
              | (Finished st, vm) => (Finished (judge index predicate_action available_gas (inr st) vm), State.memory vm)
              | (Failed e, vm) => (Finished (judge index predicate_action available_gas (inl e) vm), State.memory vm)
              | (HostPanic, vm) => (HostPanic, State.memory vm)
              | (Outside o, vm) => (Outside o, State.memory vm)
              | (OutOfFuel, vm) => (OutOfFuel, State.memory vm)
              end
          end
      end
  | _ => (HostPanic, memory)
  end.

(** [(index, result.map(|()| gas_used))] *)
Definition to_check (index : Z) (r : Z * option PredicateVerificationFailed) : Check :=
  (index, match snd r with Some e => inl e | None => inr (fst r) end).

(** ** All predicates *)

(** The loop of [run_predicates] over the indices of the inputs. *)
Fixpoint run_each (estimating : bool) (fuel : nat) tx (params : CheckPredicateParams) (storage : D) (indices : list Z)
    (global_available_gas : Z) (memory : MemoryInstance) : RunOutcome (list Check) * MemoryInstance :=
  match indices with
  | [] => (Finished [], memory)
  | index :: rest =>
      match predicate_from_tx tx (cpp_tx_offset params) index with
      | None => run_each estimating fuel tx params storage rest global_available_gas memory
      | Some predicate =>
          let available_gas := Z.min global_available_gas (cpp_max_gas_per_predicate params) in
          let action := if estimating then Estimating available_gas else Verifying in
          let (r, memory) := check_predicate fuel tx index action predicate params memory storage in
          match r with
          | Finished r =>
              let (checks, memory) :=
                run_each estimating fuel tx params storage rest (saturating_sub global_available_gas (fst r)) memory in
              (rbind checks (fun l => Finished (to_check index r :: l)), memory)
          | r => (rbind r (fun _ => Finished []), memory)
          end
      end
  end.

Fixpoint apply_estimates (inputs : list Input) (checks : list Check) : outcome PredicateVerificationFailed (list Input) :=
  match checks with
  | [] => Ok inputs
  | (_, inl _) :: rest => apply_estimates inputs rest
  | (input_index, inr gas_used) :: rest =>
      match zget inputs input_index with
      | Some i =>
          match Inp.input_predicate i with
          | Some _ => apply_estimates (<[Z.to_nat input_index := Inp.set_predicate_gas_used i gas_used]> inputs) rest
          | None => Crash
          end
      | None => Crash
      end
  end.

Fixpoint cumulate (gas : Z) (checks : list Check) : outcome PredicateVerificationFailed Z :=
  match checks with
  | [] => Ok gas
  | (input_index, inr gas_used) :: rest =>
      let? gas := ok_or (checked_add gas gas_used) (PVF_OutOfGas input_index) in cumulate gas rest
  | (_, inl failed) :: _ => Err failed
  end.

Definition with_inputs tx (inputs : list Input) : Chargeable Body :=
  mkChargeable (tx_body tx) (tx_policies tx) inputs (tx_outputs tx) (tx_witnesses tx).

(** Returns the gas used by all predicates, and the transaction with the estimates. *)
Definition finalize_check_predicate (estimating : bool) tx (checks : list Check) (params : CheckPredicateParams)
  : outcome PredicateVerificationFailed Z * Chargeable Body :=
  match (if estimating then apply_estimates (tx_inputs tx) checks else Ok (tx_inputs tx)) with
  | Ok inputs =>
      let tx := with_inputs tx inputs in
      match max_gas tx (cpp_gas_costs params) (cpp_fee_params params) with
      | Ok max_gas =>
          if cpp_max_gas_per_tx params <? max_gas
          then (Err (PVF_TransactionExceedsTotalGasAllowance max_gas), tx)
          else (cumulate 0 checks, tx)
      | _ => (Crash, tx)
      end
  | _ => (Crash, tx)
  end.

Definition input_indices tx : list Z := seqZ 0 (zlen (tx_inputs tx)).

Definition run_predicates (estimating : bool) (fuel : nat) tx (params : CheckPredicateParams) (memory : MemoryInstance)
    (storage : D) : RunOutcome (outcome PredicateVerificationFailed Z * Chargeable Body) * MemoryInstance :=
  match max_gas tx (cpp_gas_costs params) (cpp_fee_params params) with
  | Ok max_gas =>
      let global_available_gas := saturating_sub (cpp_max_gas_per_tx params) max_gas in
      let (checks, memory) :=
        run_each estimating fuel tx params storage (input_indices tx) global_available_gas memory in
      (rbind checks (fun checks => Finished (finalize_check_predicate estimating tx checks params)), memory)
  | _ => (HostPanic, memory)
  end.

(** The tasks, each with a memory of the pool. *)
Fixpoint run_tasks (fuel : nat) tx (action : PredicateAction) (params : CheckPredicateParams) (storage : D)
    (get_new : Z -> MemoryInstance) (indices : list Z) : RunOutcome (list Check) :=
  match indices with
  | [] => Finished []
  | index :: rest =>
      match predicate_from_tx tx (cpp_tx_offset params) index with
      | None => run_tasks fuel tx action params storage get_new rest
      | Some predicate =>
          rbind (fst (check_predicate fuel tx index action predicate params (get_new index) storage)) (fun r =>
          rbind (run_tasks fuel tx action params storage get_new rest) (fun l => Finished (to_check index r :: l)))
      end
  end.

(** [execute_tasks] answers with the results of the tasks, in an order of its own. *)
Definition run_predicate_async (execute_tasks : list Check -> list Check) (get_new : Z -> MemoryInstance)
    (estimating : bool) (fuel : nat) tx (params : CheckPredicateParams) (storage : D)
  : RunOutcome (outcome PredicateVerificationFailed Z * Chargeable Body) :=
  let action :=
    if estimating then Estimating (Z.min (cpp_max_gas_per_predicate params) (cpp_max_gas_per_tx params)) else Verifying in
  rbind (run_tasks fuel tx action params storage get_new (input_indices tx)) (fun checks =>
  Finished (finalize_check_predicate estimating tx (execute_tasks checks) params)).

Definition check_predicates (fuel : nat) tx params (memory : MemoryInstance) (storage : D) :=
  run_predicates false fuel tx params memory storage.
Definition estimate_predicates (fuel : nat) tx params (memory : MemoryInstance) (storage : D) :=
  run_predicates true fuel tx params memory storage.
Definition check_predicates_async execute_tasks get_new (fuel : nat) tx params (storage : D) :=
  run_predicate_async execute_tasks get_new false fuel tx params storage.
Definition estimate_predicates_async execute_tasks get_new (fuel : nat) tx params (storage : D) :=
  run_predicate_async execute_tasks get_new true fuel tx params storage.
End Check.
End Pred.

(** ** The memory does not matter *)

Section Memory.
Context `{Alloc} `{Sha256} `{Powf} `{WideLib} `{Crypto} {D : Type} `{PredicateStorageRequirements D}.
Context {Body : Type} `{!ChargeableBody Body} `{!PrepareSign Body} `{!BodyOffset Body}.
Implicit Types (tx : Chargeable Body).

Lemma check_predicate_sim fuel tx index action predicate params storage m m' :
  mem_wf m -> mem_wf m' ->
  let r := Pred.check_predicate fuel tx index action predicate params m storage in
  let r' := Pred.check_predicate fuel tx index action predicate params m' storage in
  fst r' = fst r /\ mem_wf (snd r) /\ mem_wf (snd r').
Proof.
  intros Hm Hm'. unfold Pred.check_predicate. destruct (match action with Verifying => _ | _ => _ end) as [[]| |]; try done.
  destruct (match action with Verifying => _ | _ => _ end) as [ctx [gas|]]; [|done].
  pose proof (init_predicate_sim body_codec ctx tx gas
    (with_storage m (mkPredicateStorage storage) (interpreter_params_new 0 params))
    (with_storage m' (mkPredicateStorage storage) (interpreter_params_new 0 params)) ltac:(by split)) as Hi.
  destruct (init_predicate _ _ _ _ (with_storage m _ _)) as [v|e|], (init_predicate _ _ _ _ (with_storage m' _ _)) as [v'|e'|];
    cbn in Hi; try done; [|by subst].
  destruct Hi as [Hv _]. destruct (verify_predicate_sim fuel _ _ Hv) as [Hr Hs].
  destruct (verify_predicate fuel (m_vm v)) as [r w], (verify_predicate fuel (m_vm v')) as [r' w'].
  cbn [fst snd] in *. subst r'. destruct Hs as [E Hmem]. pose proof (sim_wf _ _ Hmem). pose proof (sim_wf' _ _ Hmem).
  assert (Ej : forall x, Pred.judge index action gas x w' = Pred.judge index action gas x w).
  { intros x. unfold Pred.judge, remaining_gas. by rewrite E. }
  destruct r; cbn [fst snd]; rewrite ?Ej; done.
Qed.

(** Verifying one after the other, or as tasks with memories of their own. *)
Lemma run_each_tasks fuel tx params storage get_new indices : forall gas memory,
  mem_wf memory -> (forall i, mem_wf (get_new i)) ->
  fst (Pred.run_each false fuel tx params storage indices gas memory) =
  Pred.run_tasks fuel tx Verifying params storage get_new indices.
Proof.
  induction indices as [|index rest IH]; intros gas memory Hm Hg; [done|]. cbn [Pred.run_each Pred.run_tasks].
  destruct (predicate_from_tx tx (cpp_tx_offset params) index) as [p|]; [|by apply IH].
  destruct (check_predicate_sim fuel tx index Verifying p params storage memory (get_new index) Hm (Hg index)) as (E & Hw & _).
  destruct (Pred.check_predicate _ _ _ _ _ _ memory _) as [r memory']. cbn [fst snd] in *. rewrite E.
  destruct r; cbn [rbind fst]; try done.
  specialize (IH (saturating_sub gas (fst a)) memory' Hw Hg).
  destruct (Pred.run_each _ _ _ _ _ rest _ memory') as [checks m2]. cbn [fst] in *. by rewrite <- IH.
Qed.

End Memory.

(** ** Adding up the results *)

Definition passed (c : Check) : Prop := exists g, snd c = inr g.
Definition check_gas (c : Check) : Z := match snd c with inr g => g | inl _ => 0 end.

Lemma total_perm {T} (f : T -> Z) l k : l ≡ₚ k -> total f l = total f k.
Proof. unfold total. induction 1; cbn; lia. Qed.

Lemma total_cons {T} (f : T -> Z) x l : total f (x :: l) = f x + total f l.
Proof. done. Qed.

Lemma passed_or_failed (l : list Check) : Forall passed l \/ exists i e, (i, inl e) ∈ l.
Proof.
  induction l as [|[i [e|g]] l IH]; [by left|right; exists i, e; by left|]. destruct IH as [IH|(j & e & IH)].
  - left. constructor; [by eexists|done].
  - right. exists j, e. by right.
Qed.

(** The sum is a word if all predicates passed; the order of the results does not matter. *)
Lemma cumulate_spec checks : forall gas,
  Forall (fun c => 0 <= check_gas c) checks -> u64_ok gas ->
  match Pred.cumulate gas checks with
  | Ok g => Forall passed checks /\ g = gas + total check_gas checks /\ g < U64
  | Err e => (exists i, (i, inl e) ∈ checks) \/ (exists i, e = PVF_OutOfGas i) /\ U64 <= gas + total check_gas checks
  | Crash => False
  end.
Proof.
  induction checks as [|[i [e|g]] checks IH]; intros gas Hc Hg; cbn [Pred.cumulate].
  - split; [done|]. cbn. unfold u64_ok in Hg. lia.
  - left. exists i. by left.
  - apply Forall_cons in Hc as [Hi Hc]. rewrite total_cons. cbn [check_gas snd] in *.
    pose proof (total_nonneg _ _ Hc) as Hn. unfold u64_ok, checked_add in *.
    case_if; cbn [ok_or obind]; [|right; split; [by eexists|lia]]. specialize (IH (gas + g) Hc ltac:(lia)).
    destruct (Pred.cumulate (gas + g) checks) as [g'|e|]; [| |done].
    + destruct IH as (Hf & -> & Hlt). split_and!; [constructor; [by eexists|done]|lia|lia].
    + destruct IH as [[j Hj]|[He Hs]]; [left; exists j; by right|right; split; [done|lia]].
Qed.

Lemma cumulate_perm checks checks' :
  checks ≡ₚ checks' -> Forall (fun c => 0 <= check_gas c) checks ->
  match Pred.cumulate 0 checks, Pred.cumulate 0 checks' with
  | Ok g, Ok g' => g' = g
  | Err _, Err _ => True
  | _, _ => False
  end.
Proof.
  intros Hp Hc. assert (Hc' : Forall (fun c => 0 <= check_gas c) checks') by (by rewrite <- Hp).
  pose proof (cumulate_spec checks 0 Hc zero_ok) as H1. pose proof (cumulate_spec checks' 0 Hc' zero_ok) as H2.
  rewrite <- (total_perm check_gas _ _ Hp) in H2.
  assert (Hfail : forall i e (l : list Check), (i, inl e) ∈ l -> ~ Forall passed l).
  { intros i e l Hin Hf. rewrite Forall_forall in Hf. by destruct (Hf _ Hin). }
  destruct (Pred.cumulate 0 checks) as [g|e|], (Pred.cumulate 0 checks') as [g'|e'|]; try done.
  - destruct H1 as (_ & -> & _), H2 as (_ & -> & _). done.
  - destruct H1 as (Hf & -> & Hlt), H2 as [[i Hi]|[_ H2]]; [|lia]. rewrite Hp in Hf. by destruct (Hfail _ _ _ Hi).
  - destruct H2 as (Hf & -> & Hlt), H1 as [[i Hi]|[_ H1]]; [|lia]. rewrite <- Hp in Hf. by destruct (Hfail _ _ _ Hi).
Qed.

Section Agree.
Context `{Alloc} `{Sha256} `{Powf} `{WideLib} `{Crypto} {D : Type} `{PredicateStorageRequirements D}.
Context {Body : Type} `{!ChargeableBody Body} `{!PrepareSign Body} `{!BodyOffset Body}.
Implicit Types (tx : Chargeable Body).

Lemma judge_gas index action gas x (vm : Interpreter (PredicateStorage D)) : 0 <= fst (Pred.judge index action gas x vm).
Proof.
  unfold Pred.judge, checked_sub. case_if; [|done]. destruct action, x as [|[[|[]|]| |]]; cbn; lia.
Qed.
Lemma check_predicate_gas fuel tx index action p params m storage :
  match fst (Pred.check_predicate fuel tx index action p params m storage) with Finished r => 0 <= fst r | _ => True end.
Proof.
  unfold Pred.check_predicate. destruct (match action with Verifying => _ | _ => _ end) as [[]| |]; try done.
  destruct (match action with Verifying => _ | _ => _ end) as [ctx [gas|]]; [|done].
  destruct (init_predicate _ _ _ _ _) as [v|e|]; try done.
  destruct (verify_predicate fuel (m_vm v)) as [[] w]; try done; apply judge_gas.
Qed.
Lemma run_tasks_gas fuel tx action params storage get_new indices l :
  Pred.run_tasks fuel tx action params storage get_new indices = Finished l -> Forall (fun c => 0 <= check_gas c) l.
Proof.
  revert l. induction indices as [|index rest IH]; intros l; cbn [Pred.run_tasks]; [by intros [= <-]|].
  destruct (predicate_from_tx tx _ index) as [p|]; [|apply IH].
  pose proof (check_predicate_gas fuel tx index action p params (get_new index) storage) as Hg.
  destruct (fst (Pred.check_predicate _ _ _ _ _ _ _ _)) as [r| | | |]; try done. cbn [rbind].
  destruct (Pred.run_tasks _ _ _ _ _ _ rest) as [k| | | |]; try done. cbn [rbind]. intros [= <-].
  constructor; [|by apply IH]. unfold Pred.to_check, check_gas. cbn. by destruct r as [g [e|]].
Qed.
End Agree.

(** Two runs over all predicates agree: in the gas, in failing, and in what stopped them. *)
Definition verdicts_agree {A} (x y : RunOutcome (outcome PredicateVerificationFailed Z * A)) : Prop :=
  match x, y with
  | Finished (Ok g, a), Finished (Ok g', a') => g' = g /\ a' = a
  | Finished (Err _, a), Finished (Err _, a') => a' = a
  | Failed e, Failed e' => e' = e
  | HostPanic, HostPanic => True
  | Outside o, Outside o' => o' = o
  | OutOfFuel, OutOfFuel => True
  | _, _ => False
  end.

(** Verifying the predicates of a transaction in parallel gives the same verdict as verifying
    them one after the other: the same gas if all pass, and a failure in the same cases, however
    the executor orders the results, whatever memories the pool hands out and whatever the
    shared memory of the sequential run held before. *)
Theorem parallel_verification_agrees `{Alloc} `{Sha256} `{Powf} `{WideLib} `{Crypto} {D : Type} `{PredicateStorageRequirements D}
    {Body : Type} `{!ChargeableBody Body} `{!PrepareSign Body} `{!BodyOffset Body}
    (execute_tasks : list Check -> list Check) (get_new : Z -> MemoryInstance) (fuel : nat) (tx : Chargeable Body)
    (params : CheckPredicateParams) (memory : MemoryInstance) (storage : D) (limit : Z) :
  (forall l, execute_tasks l ≡ₚ l) -> (forall i, mem_wf (get_new i)) -> mem_wf memory ->
  max_gas tx (cpp_gas_costs params) (cpp_fee_params params) = Ok limit ->
  verdicts_agree (fst (Pred.check_predicates fuel tx params memory storage))
    (Pred.check_predicates_async execute_tasks get_new fuel tx params storage).
Proof.
  intros Hex Hpool Hm Hgas. unfold Pred.check_predicates, Pred.check_predicates_async, Pred.run_predicates, Pred.run_predicate_async.
  rewrite Hgas. set (g := saturating_sub _ _).
  pose proof (run_each_tasks fuel tx params storage get_new (Pred.input_indices tx) g memory Hm Hpool) as He.
  pose proof (run_tasks_gas fuel tx Verifying params storage get_new (Pred.input_indices tx)) as Hn.
  destruct (Pred.run_each _ _ _ _ _ _ _ _) as [r memory']. cbn [fst] in He. subst r.
  destruct (Pred.run_tasks _ _ _ _ _ _ _) as [l| | | |]; cbn [rbind fst]; try done.
  unfold Pred.finalize_check_predicate. assert (Etx : Pred.with_inputs tx (tx_inputs tx) = tx) by (by destruct tx). rewrite Etx, Hgas.
  case_if; [done|]. pose proof (cumulate_perm l (execute_tasks l) (symmetry (Hex l)) (Hn l eq_refl)) as Hc.
  destruct (Pred.cumulate 0 l), (Pred.cumulate 0 (execute_tasks l)); try done.
Qed.

(** ** The verdict is exact *)

(** Where a predicate lies does not depend on the fields that are not signed. *)
Class PrepareOffset (Body : Type) `{PrepareSign Body} `{!BodyOffset Body} : Prop :=
  prepare_offset b : body_offset_end (prepare_sign b) = body_offset_end b.
#[export] Instance script_prepare_offset : PrepareOffset ScriptBody.
Proof. intros []. reflexivity. Qed.
#[export] Instance create_prepare_offset : PrepareOffset CreateBody.
Proof. intros b. reflexivity. Qed.
#[export] Instance upgrade_prepare_offset : PrepareOffset UpgradePurpose.
Proof. intros b. reflexivity. Qed.
#[export] Instance upload_prepare_offset : PrepareOffset UploadBody.
Proof. intros b. reflexivity. Qed.
#[export] Instance blob_prepare_offset : PrepareOffset BlobBody.
Proof. intros b. reflexivity. Qed.

Lemma prepared_from_tx `{Alloc} {Body} `{!PrepareSign Body} `{!BodyOffset Body} `{!PrepareOffset Body} (t : Chargeable Body) ofs idx :
  predicate_from_tx (chargeable_prepare_sign t) ofs idx = predicate_from_tx t ofs idx.
Proof.
  unfold predicate_from_tx, inputs_predicate_offset_at, inputs_offset_at, inputs_offset, policies_offset.
  cbn [tx_inputs tx_body tx_policies chargeable_prepare_sign].
  rewrite prepare_offset, <- fmap_take, (sum_sizes_map _ _ _ input_prepare_size). unfold zlen, zget. rewrite length_map.
  destruct (idx <? 0); [done|]. rewrite list_lookup_fmap. destruct (tx_inputs t !! Z.to_nat idx) as [i|]; [|done].
  by destruct i.
Qed.

Section Exact.
Context `{Alloc} `{!ExactAlloc} `{Sha256} `{Powf} `{WideLib} `{!PowfLaw} `{!WideLaws} `{Crypto} {D : Type} `{BlobLaws D}.
Context {Body : Type} `{!ChargeableBody Body} (body_ok : Body -> Prop) `{!ChargeableLaws Body body_ok}.
Context `{!PrepareSign Body} `{!PrepareIdem Body} `{!BodyOffset Body} `{!BodyOffsetLaw body_codec body_ok} `{!PrepareOffset Body}.
Hypothesis Hprep : forall b, body_ok b -> body_ok (prepare_sign b).
Hypothesis Hsha : forall l, zlen (sha256 l) = 32.

(** A valid transaction that fits, under parameters that are words. *)
Record checkable (t : Chargeable Body) (params : CheckPredicateParams) (bs : list byte) : Prop := {
  ck_tx : chargeable_ok body_ok t;
  ck_outputs : zlen (tx_outputs t) <= U16;
  ck_bytes : encode (c_chargeable body_codec) (chargeable_prepare_sign t) = Ok bs;
  ck_max : 0 <= cpp_max_inputs params < U16;
  ck_offset : tx_params_tx_offset (cpp_max_inputs params) = Ok (cpp_tx_offset params);
  ck_fits : cpp_tx_offset params + zlen bs <= VM_MAX_RAM;
  ck_base : zlen (cpp_base_asset_id params) = 32;
  ck_params : params_ok (interpreter_params_new 0 params);
  ck_costs : costs_at_least 1 (cpp_gas_costs params);
  ck_fee : fee_ok (cpp_fee_params params)
}.

(** The predicate returns one and uses exactly the gas it declares. *)
Definition accepts (fuel : nat) (t : Chargeable Body) (params : CheckPredicateParams) (storage : D) (idx : Z) (gas : Z) : Prop :=
  exists program machine vm,
    predicate_from_tx t (cpp_tx_offset params) idx = Some program /\
    init_predicate body_codec (PredicateVerification program) t gas
      (with_storage mem_new (mkPredicateStorage storage) (interpreter_params_new 0 params)) = Ok machine /\
    verify_predicate fuel (m_vm machine) = (Finished (PS_Return 1), vm) /\ remaining_gas vm = 0.

(** The input at [idx] is guarded by a predicate. *)
Definition guarded (t : Chargeable Body) (idx : Z) (i : Input) (code : list byte) (gas : Z) : Prop :=
  zget (tx_inputs t) idx = Some i /\ Inp.input_predicate i = Some code /\ Inp.predicate_gas_used i = Some gas.

Lemma guarded_ok t idx i code gas :
  chargeable_ok body_ok t -> guarded t idx i code gas -> input_ok i /\ vec_ok code /\ u64_ok gas.
Proof.
  intros (_ & _ & [_ Hi] & _) (Hz & Hc & Hg). rewrite Forall_forall in Hi. specialize (Hi i (zget_In _ _ _ Hz)).
  split; [done|]. destruct i; cbn in Hc, Hg; simplify_eq; cbn in Hi; tauto.
Qed.

Lemma owner_valid_total t idx i code gas :
  chargeable_ok body_ok t -> guarded t idx i code gas -> exists b, Pred.owner_valid i = Ok b.
Proof.
  intros Ht Hg. destruct (guarded_ok _ _ _ _ _ Ht Hg) as (_ & Hv & _). destruct Hg as (_ & Hc & _).
  assert (Hl : zlen code < 2 ^ 63) by (unfold vec_ok, VEC_DECODE_LIMIT in Hv; lia).
  unfold Pred.owner_valid, Inp.is_predicate_owner_valid, Inp.predicate_owner.
  destruct i; cbn in Hc; simplify_eq; rewrite root_from_code_Ok by done; by eexists.
Qed.

(** Checking one predicate, on any memory. *)
Lemma check_predicate_spec fuel t params bs storage memory idx i code gas :
  checkable t params bs -> mem_wf memory -> u64_ok idx -> guarded t idx i code gas -> gas < Z.of_nat fuel ->
  exists program, predicate_from_tx t (cpp_tx_offset params) idx = Some program /\
  match fst (Pred.check_predicate fuel t idx Verifying program params memory storage) with
  | Finished (g, None) => g = gas /\ Pred.owner_valid i = Ok true /\ accepts fuel t params storage idx gas
  | Finished (_, Some e) => (forall b, e <> PVF_Bug b) /\
      (Pred.owner_valid i = Ok false \/ ~ accepts fuel t params storage idx gas)
  | Outside o => unmodelled o = true
  | _ => False
  end.
Proof.
  intros [] Hm Hidx Hg Hfuel. destruct (guarded_ok _ _ _ _ _ ck_tx0 Hg) as (_ & _ & Hgas).
  destruct (owner_valid_total _ _ _ _ _ ck_tx0 Hg) as [b Hb]. destruct Hg as (Hz & Hc & Hu).
  set (vm0 := with_storage mem_new (mkPredicateStorage storage) (interpreter_params_new 0 params)).
  destruct (init_predicate_ready body_codec body_ok vm0 t bs idx gas i code)
    as (program & machine & Ep & Ei & Hwf & Hmw & Hinv & Hpar & _ & Hgg & _); [apply ch_lawful|done|done| |done|done|done|done|done|done|].
  { split; try done; [apply ck_max0|rewrite map_size_empty; apply ck_max0|intros a [v Hv]; by rewrite lookup_empty in Hv]. }
  rewrite prepared_from_tx in Ep. change (tx_offset _) with (cpp_tx_offset params) in Ep. exists program. split; [exact Ep|].
  destruct (check_predicate_sim fuel t idx Verifying program params storage mem_new memory mem_new_wf Hm) as (-> & _ & _).
  unfold Pred.check_predicate. rewrite Hz, Hb. destruct b; cbn [fst]; [|split; [done|by left]]. cbn [mbind option_bind]. rewrite Hu.
  fold vm0. rewrite Ei.
  pose proof (verify_predicate_spec fuel (m_vm machine) Hwf Hmw Hinv) as Hs. unfold gas_costs in Hs. rewrite Hpar, Hgg in Hs.
  specialize (Hs ck_costs0 Hfuel).
  assert (Hacc : forall v, accepts fuel t params storage idx gas -> forall r, verify_predicate fuel (m_vm machine) = (r, v) ->
    r = Finished (PS_Return 1) /\ remaining_gas v = 0).
  { intros v (p & mm & w & E1 & E2 & E3 & E4) r Er. fold vm0 in E2.
    rewrite Ep in E1. injection E1 as <-. rewrite Ei in E2. injection E2 as <-. rewrite Er in E3. by simplify_eq. }
  pose proof (verify_predicate_outside fuel (m_vm machine)) as Ho.
  destruct (verify_predicate fuel (m_vm machine)) as [r v] eqn:Ev.
  destruct r as [st|e| |o|]; cbn [fst]; try done.
  - destruct Hs as (-> & Hwf' & Hst). pose proof (pr_gas _ _ Hst) as Hle. rewrite Hgg in Hle.
    unfold Pred.judge, remaining_gas in *. rewrite checked_sub_Some by done. case_if; zbool.
    + split; [done|]. right. intros Ha. by destruct (Hacc v Ha _ eq_refl).
    + split_and!; [lia|done|]. by exists program, machine, v.
  - destruct Hs as [He Hle]. rewrite Hgg in Hle. unfold Pred.judge, remaining_gas in *.
    rewrite checked_sub_Some by lia. split; [|right; intros Ha; by destruct (Hacc v Ha _ eq_refl)].
    intros bug. unfold interpreter_error. case_bool_decide; [done|]. destruct e; try done. by destruct He.
Qed.

(** Either an input is guarded, or there is nothing to run. *)
Lemma guarded_or_not t idx ofs :
  (exists i code gas, guarded t idx i code gas) \/
  predicate_from_tx t ofs idx = None /\ forall i, zget (tx_inputs t) idx = Some i -> Inp.predicate_gas_used i = None.
Proof.
  unfold predicate_from_tx, inputs_predicate_offset_at, guarded. destruct (zget (tx_inputs t) idx) as [i|]; [|by right].
  destruct i; cbn; (left; by eexists _, _, _) || (right; split; [done|by intros ? [= <-]]).
Qed.

Definition declared (t : Chargeable Body) (idx : Z) : Z :=
  match zget (tx_inputs t) idx with Some i => default 0 (Inp.predicate_gas_used i) | None => 0 end.

(** Every predicate among the given inputs is owned and accepts. *)
Definition all_accept fuel t params storage (indices : list Z) : Prop :=
  forall idx i code gas, idx ∈ indices -> guarded t idx i code gas ->
    Pred.owner_valid i = Ok true /\ accepts fuel t params storage idx gas.

Lemma all_accept_cons fuel t params storage idx indices :
  (forall i code gas, guarded t idx i code gas -> Pred.owner_valid i = Ok true /\ accepts fuel t params storage idx gas) ->
  all_accept fuel t params storage indices -> all_accept fuel t params storage (idx :: indices).
Proof. intros Hi Hall j i code gas Hj Hg. apply elem_of_cons in Hj as [->|Hj]; [by eapply Hi|by eapply Hall]. Qed.
Lemma all_accept_tail fuel t params storage idx indices :
  all_accept fuel t params storage (idx :: indices) -> all_accept fuel t params storage indices.
Proof. intros Hall k i code gas Hk. apply Hall. by right. Qed.
Lemma guarded_fun t idx i code gas i' code' gas' :
  guarded t idx i code gas -> guarded t idx i' code' gas' -> i' = i /\ gas' = gas.
Proof. intros (K1 & K2 & K3) (K4 & K5 & K6). split; congruence. Qed.

Lemma run_tasks_spec fuel t params bs storage indices :
  checkable t params bs -> (forall i, i ∈ tx_inputs t -> default 0 (Inp.predicate_gas_used i) < Z.of_nat fuel) ->
  Forall u64_ok indices ->
  match Pred.run_tasks fuel t Verifying params storage (fun _ => mem_new) indices with
  | Finished l =>
      (Forall passed l -> all_accept fuel t params storage indices /\ total check_gas l = total (declared t) indices) /\
      (forall i e, (i, inl e) ∈ l -> (forall b, e <> PVF_Bug b) /\ ~ all_accept fuel t params storage indices)
  | Outside o => unmodelled o = true
  | _ => False
  end.
Proof.
  intros Hck Hfuel. induction indices as [|idx indices IH]; intros Hidx; cbn [Pred.run_tasks].
  { split; [intros _; split; [|done]; intros j i code gas Hj; by apply not_elem_of_nil in Hj|].
    intros i e He. by apply not_elem_of_nil in He. }
  apply Forall_cons in Hidx as [Hu Hidx]. specialize (IH Hidx).
  destruct (guarded_or_not t idx (cpp_tx_offset params)) as [(i & code & gas & Hg)|[En Hn]].
  - assert (Hlt : gas < Z.of_nat fuel).
    { destruct Hg as (Hz & _ & Hg). specialize (Hfuel i (zget_In _ _ _ Hz)). by rewrite Hg in Hfuel. }
    assert (Hdec : declared t idx = gas) by (destruct Hg as (Hz & _ & Hg'); unfold declared; by rewrite Hz, Hg').
    destruct (check_predicate_spec fuel t params bs storage mem_new idx i code gas Hck mem_new_wf Hu Hg Hlt) as (p & -> & Hc).
    destruct (fst (Pred.check_predicate _ _ _ _ _ _ _ _)) as [[g [e|]]| | | |]; cbn [rbind]; try done.
    + destruct (Pred.run_tasks _ _ _ _ _ _ indices) as [l| | | |]; cbn [rbind]; try done. destruct IH as [_ IH]. split.
      * intros Hp. apply Forall_cons in Hp as [[? [=]] _].
      * intros j e' [[= -> ->]|Hin]%elem_of_cons.
        -- split; [apply Hc|]. intros Ha. destruct (Ha idx i code gas) as [A B]; [by left|done|]. destruct Hc as [_ [?|?]]; [congruence|done].
        -- destruct (IH _ _ Hin) as [Hb Hna]. split; [done|]. by intros Hall'%all_accept_tail.
    + destruct (Pred.run_tasks _ _ _ _ _ _ indices) as [l| | | |]; cbn [rbind]; try done. destruct IH as [IHp IH], Hc as (-> & Ho & Ha). split.
      * intros [_ Hp]%Forall_cons. destruct (IHp Hp) as [Hall Ht]. split.
        -- apply all_accept_cons; [|done]. intros i' code' gas' Hg'. by destruct (guarded_fun _ _ _ _ _ _ _ _ Hg Hg') as [-> ->].
        -- rewrite !total_cons, Ht, Hdec. done.
      * intros j e' [[=]|Hin]%elem_of_cons. destruct (IH _ _ Hin) as [Hb Hna]. split; [done|]. by intros Hall'%all_accept_tail.
  - rewrite En. destruct (Pred.run_tasks _ _ _ _ _ _ indices) as [l| | | |]; try done. destruct IH as [IHp IH]. split.
    + intros Hp. destruct (IHp Hp) as [Hall Ht]. split.
      * apply all_accept_cons; [|done]. intros i' code' gas' (Hz & _ & Hg'). rewrite (Hn _ Hz) in Hg'. done.
      * rewrite total_cons, Ht. unfold declared at 2. destruct (zget (tx_inputs t) idx) as [i|]; [rewrite (Hn i eq_refl); done|done].
    + intros j e Hin. destruct (IH _ _ Hin) as [Hb Hna]. split; [done|]. by intros Hall'%all_accept_tail.
Qed.

Lemma input_indices_ok t : chargeable_ok body_ok t -> Forall u64_ok (Pred.input_indices t).
Proof.
  intros (_ & _ & [Hl _] & _). apply Forall_forall. intros k Hk. apply elem_of_seqZ in Hk.
  unfold vec_ok, VEC_DECODE_LIMIT, u64_ok in *. lia.
Qed.
End Exact.

(** Verifying the predicates of a valid transaction that fits is exact. With at least as much
    fuel as any predicate declares gas (plus one), verification ends: it succeeds, with the
    gas that all predicates declare, only if every predicate is owned by its code, returns one
    and uses exactly its declared gas, and the gas of the transaction is within the limit; it
    fails only if one of these does not hold or the sum of the gas is not a word; it never
    panics the host, never reports an internal bug, and leaves the transaction as it is. The
    memory it is given does not matter. *)
Lemma check_predicates_exact `{Alloc} `{!ExactAlloc} `{Sha256} `{Powf} `{WideLib} `{!PowfLaw} `{!WideLaws} `{Crypto} {D : Type} `{BlobLaws D}
    {Body : Type} `{!ChargeableBody Body} (body_ok : Body -> Prop) `{!ChargeableLaws Body body_ok} `{!PrepareSign Body}
    `{!PrepareIdem Body} `{!BodyOffset Body} `{!BodyOffsetLaw body_codec body_ok} `{!PrepareOffset Body}
    (fuel : nat) (t : Chargeable Body) (params : CheckPredicateParams) (bs : list byte) (memory : MemoryInstance) (storage : D) :
  (forall b, body_ok b -> body_ok (prepare_sign b)) -> (forall l, zlen (sha256 l) = 32) ->
  checkable body_ok t params bs -> mem_wf memory ->
  (forall i, i ∈ tx_inputs t -> default 0 (Inp.predicate_gas_used i) < Z.of_nat fuel) ->
  let indices := Pred.input_indices t in
  let gas := total (declared t) indices in
  match fst (Pred.check_predicates fuel t params memory storage) with
  | Finished (Ok g, t') => t' = t /\ g = gas /\ g < U64 /\ all_accept fuel t params storage indices /\
      exists limit, max_gas t (cpp_gas_costs params) (cpp_fee_params params) = Ok limit /\ limit <= cpp_max_gas_per_tx params
  | Finished (Err e, t') => t' = t /\ (forall b, e <> PVF_Bug b) /\
      (~ all_accept fuel t params storage indices \/ U64 <= gas \/
       exists limit, max_gas t (cpp_gas_costs params) (cpp_fee_params params) = Ok limit /\ cpp_max_gas_per_tx params < limit)
  | Outside o => unmodelled o = true
  | _ => False
  end.
Proof.
  intros Hprep Hsha Hck Hm Hfuel indices gas. pose proof (ck_tx _ _ _ _ Hck) as Ht.
  destruct (min_gas_ok body_ok (cpp_gas_costs params) (cpp_fee_params params)
    (proj1 (ck_params _ _ _ _ Hck)) (ck_fee _ _ _ _ Hck) t Ht) as (lo & Elo & Hlo).
  destruct (max_gas_ok body_ok (cpp_gas_costs params) (cpp_fee_params params)
    (ck_fee _ _ _ _ Hck) t lo Ht Elo Hlo) as (limit & Elim & _).
  unfold Pred.check_predicates, Pred.run_predicates. rewrite Elim.
  pose proof (run_each_tasks fuel t params storage (fun _ => mem_new) indices
    (saturating_sub (cpp_max_gas_per_tx params) limit) memory Hm (fun _ => mem_new_wf)) as He. fold indices.
  pose proof (run_tasks_spec body_ok Hprep Hsha fuel t params bs storage indices Hck Hfuel (input_indices_ok _ t Ht)) as Hs.
  pose proof (run_tasks_gas fuel t Verifying params storage (fun _ => mem_new) indices) as Hn.
  destruct (Pred.run_each _ _ _ _ _ _ _ _) as [r memory']. cbn [fst] in He. subst r.
  destruct (Pred.run_tasks _ _ _ _ _ _ _) as [l| | | |]; cbn [rbind fst]; try done.
  unfold Pred.finalize_check_predicate. assert (Etx : Pred.with_inputs t (tx_inputs t) = t) by (by destruct t). rewrite Etx, Elim.
  destruct Hs as [Hp Hf]. case_if; [split_and!; [done..|right; right; by exists limit]|].
  pose proof (cumulate_spec l 0 (Hn l eq_refl) zero_ok) as Hc. destruct (Pred.cumulate 0 l) as [g|e|]; [| |done].
  - destruct Hc as (Hpass & -> & Hlt). destruct (Hp Hpass) as [Hall Hsum]. split_and!; [done|lia|lia|done|by exists limit].
  - split; [done|]. destruct Hc as [[i Hin]|[[i ->] Hov]].
    + destruct (Hf i e Hin). split; [done|by left].
    + split; [done|].
      destruct (passed_or_failed l) as [Hpass|(j & e & Hin)]; [|left; by destruct (Hf j e Hin)].
      destruct (Hp Hpass) as [_ Hsum]. right. left. lia.
Qed.

(** ** An example: a coin guarded by a predicate that returns one *)

Module PredExample.
#[local] Instance alloc : Alloc := TxExample.exact_alloc.
#[local] Instance sha : Sha256 := SignExample.sha.

(** [RET $one] costs two, which is what the input declares. *)
Definition code : list byte := [x24; x04; x00; x00].
Definition coin : CoinPredicate (list byte) :=
  mkCoin (mkUtxoId zeroed 1) (default [] (match @Inp.predicate_owner sha unit code with Ok o => Some o | _ => None end))
    10 zeroed tx_pointer_default mkEmpty 2 code [].
Definition tx : Chargeable ScriptBody :=
  mkChargeable TxExample.body (mkPolicies 8 [0; 0; 0; 100; 0]) [Input_CoinPredicate coin; Input_CoinPredicate coin] [] [[]].
Definition params : CheckPredicateParams :=
  mkCheckPredicateParams FeeExample.costs 7 1000000 100000000 2 1024 1024 152 FeeExample.params (TxExample.b32 x00).
Definition bytes : list byte :=
  match encode (c_chargeable c_script_body) (chargeable_prepare_sign tx) with Ok bs => bs | _ => [] end.
Definition used : MemoryInstance := mkMemory [x01; x02] (replicate 256 xff) (MEM_SIZE - 8).
Definition verify : RunOutcome (outcome PredicateVerificationFailed Z * Chargeable ScriptBody) :=
  fst (@Pred.check_predicates alloc sha powf_zero wide_std crypto_none EmptyStorage _ _ (@chargeable_script alloc) _ _ 5 tx params used tt).
Definition verify_async : RunOutcome (outcome PredicateVerificationFailed Z * Chargeable ScriptBody) :=
  @Pred.check_predicates_async alloc sha powf_zero wide_std crypto_none EmptyStorage _ _ (@chargeable_script alloc) _ _
    (@rev _) (fun _ => used) 5 tx params tt.
Definition gas_of (r : RunOutcome (outcome PredicateVerificationFailed Z * Chargeable ScriptBody)) : option Z :=
  match r with Finished (Ok g, _) => Some g | _ => None end.

Lemma used_memory_wf : mem_wf used.
Proof. split; vm_compute; repeat split; discriminate. Qed.
Lemma verified : gas_of verify = Some 4.
Proof. vm_compute. reflexivity. Qed.
Lemma guarded_tx_valid : chargeable_ok script_body_ok tx.
Proof.
  destruct TxExample.tx_valid as (Hb & _). split; [exact Hb|].
  split; [split_and!; [done|repeat constructor; done|done]|].
  split; [|by repeat constructor]. split; [done|]. repeat constructor; vm_compute; done.
Qed.
Lemma tx_checkable : @checkable alloc ScriptBody (@chargeable_script alloc) script_body_ok _ tx params bytes.
Proof.
  split; [exact guarded_tx_valid|done|vm_compute; reflexivity|done|reflexivity|vm_compute; discriminate|reflexivity| | |done].
  - split; [exact FeeExample.costs_valid|]. repeat split; reflexivity || discriminate.
  - split; intros c; done.
Qed.
Definition limit : Z :=
  match @max_gas alloc _ (@chargeable_script alloc) tx (cpp_gas_costs params) (cpp_fee_params params) with Ok g => g | _ => 0 end.
Lemma limit_eq : @max_gas alloc _ (@chargeable_script alloc) tx (cpp_gas_costs params) (cpp_fee_params params) = Ok limit.
Proof. vm_compute. reflexivity. Qed.
End PredExample.

Lemma parallel_verification_agrees_witness :
  verdicts_agree PredExample.verify PredExample.verify_async /\ PredExample.gas_of PredExample.verify = Some 4.
Proof.
  pose proof (@parallel_verification_agrees PredExample.alloc PredExample.sha powf_zero wide_std crypto_none EmptyStorage _ ScriptBody
    (@chargeable_script PredExample.alloc) _ _ (@rev _) (fun _ => PredExample.used) 5 PredExample.tx PredExample.params
    PredExample.used tt PredExample.limit (fun l => symmetry (Permutation_rev l)) (fun _ => PredExample.used_memory_wf)
    PredExample.used_memory_wf PredExample.limit_eq) as H.
  split; [exact H|exact PredExample.verified].
Defined.
