(* ===== verification/Checked.v ===== *)
(** * Checked and ready transactions

    src/fuel-vm/src/checked_transaction.rs and checked_transaction/types.rs: a transaction is
    checked in three steps, which a bitmask records ([Checked]): the basic checks with the
    metadata they produce ([into_checked_basic]), the signatures and the predicates. The last
    check is against the gas price ([into_ready]). The conversions between the checked
    transactions of a kind and of any kind are here too.

    The basic checks compute the cached metadata of the transaction ([precompute]): the id that
    later steps use is the cached one, whatever chain they are asked for. The assertions of
    debug builds are part of the model. *)

From Stdlib Require Import Strings.Byte.
From S2P Require Import Prelude Asm Merkle Receipts Memory State Gas Alu MemOps WideInt Storage MemStorage SlotStorage Flow Calls.
From S2P Require Import Blockchain BlockchainSafe Crypto Opcodes Steps Run Bisim.
From S2P Require Import Canonical TxTypes TxCodec TxInput TxId TxSign TxFee TxOffsets TxFieldBytes Gtf TxBalances Init Reuse.
From S2P Require Import Prepared TxValidity Predicates.

(** ** Checks *)

Module Checks.
Definition Basic : Z := 1.
Definition Signatures : Z := 2.
Definition Predicates : Z := 4.
Definition contains (bits other : Z) : bool := Z.land bits other =? other.
Definition insert (bits other : Z) : Z := Z.lor bits other.
End Checks.

Inductive CheckError : Type :=
| Check_Validity (e : ValidityError)
| Check_PredicateVerificationFailed (e : PredicateVerificationFailed)
| Check_InsufficientMaxFee (max_fee_from_policies max_fee_from_gas_price : Z).

(** ** Metadata *)

(** Of a script *)
Record ScriptCheckedMetadata : Type := mkScriptMetadata {
  smd_base_asset_id : AssetId;
  smd_non_retryable_balances : gmap AssetId Z;
  smd_retryable_balance : Z * AssetId;
  smd_block_height : Z;
  smd_min_gas : Z;
  smd_max_gas : Z
}.
(** Of the other kinds, which declare the same fields *)
Record FreeCheckedMetadata : Type := mkFreeMetadata {
  fmd_base_asset_id : AssetId;
  fmd_free_balances : gmap AssetId Z;
  fmd_block_height : Z;
  fmd_min_gas : Z;
  fmd_max_gas : Z
}.

Definition script_metadata (base : AssetId) (av : AvailableBalances) (height min max : Z)
  : outcome CheckError ScriptCheckedMetadata :=
  Ok (mkScriptMetadata base (non_retryable_balances av) (retryable_balance av, base) height min max).
(** [debug_assert_eq!(retryable_balance, 0)] is kept, as a panic: no valid transaction meets it. *)
Definition free_metadata (base : AssetId) (av : AvailableBalances) (height min max : Z)
  : outcome CheckError FreeCheckedMetadata :=
  if retryable_balance av =? 0 then Ok (mkFreeMetadata base (non_retryable_balances av) height min max) else Crash.

(** [CheckedMetadata::balances] *)
Definition script_balances (m : ScriptCheckedMetadata) : InitialBalances :=
  mkInitialBalances (smd_non_retryable_balances m) (Some (smd_retryable_balance m)).
Definition free_balances (m : FreeCheckedMetadata) : InitialBalances := mkInitialBalances (fmd_free_balances m) None.

(** [IntoChecked::Metadata] and [Cacheable::precompute] of the bodies *)
Class CheckedBody (Body : Type) : Type := {
  Metadata : Type;
  metadata_of : AssetId -> AvailableBalances -> Z -> Z -> Z -> outcome CheckError Metadata;
  metadata_balances : Metadata -> InitialBalances;
  body_metadata : Chargeable Body -> outcome ValidityError unit
}.

Section Kinds.
Context `{Alloc} `{Sha256} `{ParametersDecoder}.

#[export] Instance script_checked : CheckedBody ScriptBody := {|
  metadata_of := script_metadata; metadata_balances := script_balances; body_metadata _ := Ok tt
|}.
#[export] Instance create_checked : CheckedBody CreateBody := {|
  metadata_of := free_metadata; metadata_balances := free_balances;
  body_metadata t := let? _ := create_metadata t in Ok tt
|}.
#[export] Instance upgrade_checked : CheckedBody UpgradePurpose := {|
  metadata_of := free_metadata; metadata_balances := free_balances;
  body_metadata t := let? _ := upgrade_metadata t in Ok tt
|}.
#[export] Instance upload_checked : CheckedBody UploadBody := {|
  metadata_of := free_metadata; metadata_balances := free_balances; body_metadata _ := Ok tt
|}.
#[export] Instance blob_checked : CheckedBody BlobBody := {|
  metadata_of := free_metadata; metadata_balances := free_balances; body_metadata _ := Ok tt
|}.
End Kinds.

(** What [precompute] caches of a chargeable transaction, besides what [body_metadata] computes
    again when it is needed. *)
Definition Cached : Type := Bytes32 * CommonMetadata.

Record Checked (Body : Type) `{CheckedBody Body} : Type := mkChecked {
  transaction : Chargeable Body;
  cached : Cached;
  metadata : Metadata;
  checks_bitmask : Z
}.
Arguments mkChecked {Body _} _ _ _ _.
Arguments transaction {Body _} _.
Arguments cached {Body _} _.
Arguments metadata {Body _} _.
Arguments checks_bitmask {Body _} _.

Record Ready (Body : Type) `{CheckedBody Body} : Type := mkReady { gas_price : Z; ready_checked : Checked Body }.
Arguments mkReady {Body _} _ _.
Arguments gas_price {Body _} _.
Arguments ready_checked {Body _} _.

(** ** Checking a chargeable transaction *)

(** Look through a result that a run ended with. *)
Definition check_ok {E A} (f : E -> CheckError) (x : outcome E A) : RunOutcome (outcome CheckError A) :=
  match x with Ok a => Finished (Ok a) | Err e => Finished (Err (f e)) | Crash => HostPanic end.
Definition cbind {A B} (x : RunOutcome (outcome CheckError A)) (f : A -> RunOutcome (outcome CheckError B))
  : RunOutcome (outcome CheckError B) :=
  rbind x (fun r => match r with Ok a => f a | Err e => Finished (Err e) | Crash => HostPanic end).

Module Check.
Section Chargeable.
Context `{Alloc} `{Sha256} `{SigScheme} {Body : Type} `{!ChargeableBody Body} `{!PrepareSign Body} `{!BodyOffset Body}.
Context `{!UniqueRules Body} `{!CheckedBody Body}.
Implicit Types (t : Chargeable Body) (c : Checked Body).

Definition precompute (chain_id : Z) t : outcome ValidityError Cached :=
  match chargeable_id body_codec chain_id t with
  | Ok id =>
      let? common := metadata_compute t in
      let? _ := body_metadata t in
      Ok (id, common)
  | _ => Crash
  end.

Definition expect_gas {A} (x : outcome RuntimeError A) : outcome CheckError A := match x with Ok a => Ok a | _ => Crash end.

Definition into_checked_basic t (block_height : Z) (params : ConsensusParameters) : outcome CheckError (Checked Body) :=
  let base := cp_base_asset_id params in
  let? cache := omap_err Check_Validity (precompute (cp_chain_id params) t) in
  let? _ := omap_err Check_Validity (chargeable_check_without_signatures t block_height params) in
  let? av := omap_err Check_Validity (initial_free_balances t base) in
  let? min := expect_gas (min_gas t (cp_gas_costs params) (cp_fee_params params)) in
  let? max := expect_gas (max_gas t (cp_gas_costs params) (cp_fee_params params)) in
  let? m := metadata_of base av block_height min max in
  Ok (mkChecked t cache m Checks.Basic).

(** The id of the checked transaction is the cached one. *)
Definition id c : Bytes32 := fst (cached c).
Definition insert_check c (check : Z) : Checked Body :=
  mkChecked (transaction c) (cached c) (metadata c) (Checks.insert (checks_bitmask c) check).

Definition check_signatures c : outcome CheckError (Checked Body) :=
  if Checks.contains (checks_bitmask c) Checks.Signatures then Ok c
  else
    let t := transaction c in
    let? _ := omap_err Check_Validity (check_each (tx_inputs t) 0 (id c) (tx_witnesses t) (Some ∅)) in
    Ok (insert_check c Checks.Signatures).

Context `{Powf} `{WideLib} `{Crypto} {D : Type} `{PredicateStorageRequirements D}.

(** The verdict of a predicate check on a checked transaction *)
Definition with_verdict c (r : outcome PredicateVerificationFailed Z * Chargeable Body)
  : RunOutcome (outcome CheckError (Checked Body)) :=
  check_ok Check_PredicateVerificationFailed (let? _ := fst r in Ok (insert_check c Checks.Predicates)).
Definition check_predicates (fuel : nat) c (params : CheckPredicateParams) (memory : MemoryInstance) (storage : D)
  : RunOutcome (outcome CheckError (Checked Body)) :=
  if Checks.contains (checks_bitmask c) Checks.Predicates then Finished (Ok c)
  else rbind (fst (Pred.check_predicates fuel (transaction c) params memory storage)) (with_verdict c).
Definition check_predicates_async (execute_tasks : list Predicates.Check -> list Predicates.Check) (get_new : Z -> MemoryInstance)
    (fuel : nat) c (params : CheckPredicateParams) (storage : D) : RunOutcome (outcome CheckError (Checked Body)) :=
  if Checks.contains (checks_bitmask c) Checks.Predicates then Finished (Ok c)
  else rbind (Pred.check_predicates_async execute_tasks get_new fuel (transaction c) params storage) (with_verdict c).

Definition into_checked_reusable_memory (fuel : nat) t (block_height : Z) (params : ConsensusParameters) (memory : MemoryInstance)
    (storage : D) : RunOutcome (outcome CheckError (Checked Body)) :=
  match check_predicate_params params with
  | Ok check_predicate_params =>
      cbind (check_ok (fun e => e) (into_checked_basic t block_height params)) (fun c =>
      cbind (check_ok (fun e => e) (check_signatures c)) (fun c =>
      check_predicates fuel c check_predicate_params memory storage))
  | _ => HostPanic
  end.
End Chargeable.

Section IntoChecked.
Context `{Alloc} `{Sha256} `{SigScheme} {Body : Type} `{!ChargeableBody Body} `{!PrepareSign Body} `{!BodyOffset Body}.
Context `{!UniqueRules Body} `{!CheckedBody Body} `{Powf} `{WideLib} `{Crypto}.

Definition into_checked (fuel : nat) (t : Chargeable Body) (block_height : Z) (params : ConsensusParameters)
  : RunOutcome (outcome CheckError (Checked Body)) :=
  into_checked_reusable_memory fuel t block_height params mem_new (tt : EmptyStorage).

Definition into_ready (c : Checked Body) (gas_price : Z) (gas_costs : GasCosts) (fee_parameters : FeeParameters)
    (block_height : option Z) : outcome CheckError (Ready Body) :=
  let t := transaction c in
  let? fee := expect_gas (checked_from_tx gas_costs fee_parameters t gas_price) in
  let? fee := ok_or fee (Check_Validity BalanceOverflow) in
  let max_fee_from_policies := max_fee_limit t in
  let max_fee_from_gas_price := fee_max_fee fee in
  let? _ :=
    match block_height with
    | Some block_height =>
        if expiration t <? block_height then Err (Check_Validity TransactionExpiration) else Ok tt
    | None => Ok tt
    end in
  if max_fee_from_policies <? max_fee_from_gas_price
  then Err (Check_InsufficientMaxFee max_fee_from_policies max_fee_from_gas_price)
  else Ok (mkReady gas_price c).
Definition decompose (r : Ready Body) : Z * Checked Body := (gas_price r, ready_checked r).
End IntoChecked.
End Check.

(** ** Checked transactions of any kind *)

Record CheckedMint : Type := mkCheckedMint { cm_transaction : Mint; cm_cached_id : Bytes32; cm_checks_bitmask : Z }.

Section Any.
Context `{Alloc} `{Sha256} `{ParametersDecoder}.

(** [CheckedTransaction] *)
Inductive CheckedTransaction : Type :=
| Checked_Script (c : Checked ScriptBody)
| Checked_Create (c : Checked CreateBody)
| Checked_Mint (c : CheckedMint)
| Checked_Upgrade (c : Checked UpgradePurpose)
| Checked_Upload (c : Checked UploadBody)
| Checked_Blob (c : Checked BlobBody).

(** [CheckedMetadata] of a [Transaction] *)
Inductive AnyMetadata : Type :=
| Metadata_Script (m : ScriptCheckedMetadata)
| Metadata_Create (m : FreeCheckedMetadata)
| Metadata_Mint
| Metadata_Upgrade (m : FreeCheckedMetadata)
| Metadata_Upload (m : FreeCheckedMetadata)
| Metadata_Blob (m : FreeCheckedMetadata).

(** What a transaction of any kind caches: the id, and the offsets of a chargeable one. *)
Inductive AnyCache : Type := Cache_Chargeable (c : Cached) | Cache_Mint (id : Bytes32).

(** [Checked<Transaction>] *)
Record AnyChecked : Type := mkAnyChecked {
  any_transaction : Transaction; any_cached : AnyCache; any_metadata : AnyMetadata; any_checks_bitmask : Z
}.

(** [From<Checked<Transaction>> for CheckedTransaction]; other combinations are [unreachable!]. *)
Definition checked_transaction (c : AnyChecked) : outcome CheckError CheckedTransaction :=
  let bits := any_checks_bitmask c in
  match any_transaction c, any_metadata c, any_cached c with
  | Tx_Script t, Metadata_Script m, Cache_Chargeable k => Ok (Checked_Script (mkChecked t k m bits))
  | Tx_Create t, Metadata_Create m, Cache_Chargeable k => Ok (Checked_Create (mkChecked t k m bits))
  | Tx_Mint t, Metadata_Mint, Cache_Mint id => Ok (Checked_Mint (mkCheckedMint t id bits))
  | Tx_Upgrade t, Metadata_Upgrade m, Cache_Chargeable k => Ok (Checked_Upgrade (mkChecked t k m bits))
  | Tx_Upload t, Metadata_Upload m, Cache_Chargeable k => Ok (Checked_Upload (mkChecked t k m bits))
  | Tx_Blob t, Metadata_Blob m, Cache_Chargeable k => Ok (Checked_Blob (mkChecked t k m bits))
  | _, _, _ => Crash
  end.
(** [From<CheckedTransaction> for Checked<Transaction>] *)
Definition any_checked (c : CheckedTransaction) : AnyChecked :=
  match c with
  | Checked_Script c => mkAnyChecked (Tx_Script (transaction c)) (Cache_Chargeable (cached c)) (Metadata_Script (metadata c)) (checks_bitmask c)
  | Checked_Create c => mkAnyChecked (Tx_Create (transaction c)) (Cache_Chargeable (cached c)) (Metadata_Create (metadata c)) (checks_bitmask c)
  | Checked_Mint c => mkAnyChecked (Tx_Mint (cm_transaction c)) (Cache_Mint (cm_cached_id c)) Metadata_Mint (cm_checks_bitmask c)
  | Checked_Upgrade c => mkAnyChecked (Tx_Upgrade (transaction c)) (Cache_Chargeable (cached c)) (Metadata_Upgrade (metadata c)) (checks_bitmask c)
  | Checked_Upload c => mkAnyChecked (Tx_Upload (transaction c)) (Cache_Chargeable (cached c)) (Metadata_Upload (metadata c)) (checks_bitmask c)
  | Checked_Blob c => mkAnyChecked (Tx_Blob (transaction c)) (Cache_Chargeable (cached c)) (Metadata_Blob (metadata c)) (checks_bitmask c)
  end.

Context `{SigScheme} `{Powf} `{WideLib} `{Crypto} {D : Type} `{PredicateStorageRequirements D}.

(** The checks of a mint *)
Definition mint_into_checked_basic (t : Mint) (block_height : Z) (params : ConsensusParameters) : outcome CheckError CheckedMint :=
  match mint_id (cp_chain_id params) t with
  | Ok id =>
      let? _ := omap_err Check_Validity (mint_check_without_signatures t block_height params) in
      Ok (mkCheckedMint t id Checks.Basic)
  | _ => Crash
  end.
Definition mint_insert_check (c : CheckedMint) (check : Z) : CheckedMint :=
  mkCheckedMint (cm_transaction c) (cm_cached_id c) (Checks.insert (cm_checks_bitmask c) check).
(** A mint has no signatures and no predicates. *)
Definition mint_check_signatures (c : CheckedMint) : CheckedMint :=
  if Checks.contains (cm_checks_bitmask c) Checks.Signatures then c else mint_insert_check c Checks.Signatures.
Definition mint_check_predicates (c : CheckedMint) : CheckedMint := mint_insert_check c Checks.Predicates.

Definition map_checked {A B} (f : A -> B) (x : outcome CheckError A) : outcome CheckError B := let? a := x in Ok (f a).

Definition any_into_checked_basic (t : Transaction) (block_height : Z) (params : ConsensusParameters)
  : outcome CheckError AnyChecked :=
  map_checked any_checked
    match t with
    | Tx_Script t => map_checked Checked_Script (Check.into_checked_basic t block_height params)
    | Tx_Create t => map_checked Checked_Create (Check.into_checked_basic t block_height params)
    | Tx_Mint t => map_checked Checked_Mint (mint_into_checked_basic t block_height params)
    | Tx_Upgrade t => map_checked Checked_Upgrade (Check.into_checked_basic t block_height params)
    | Tx_Upload t => map_checked Checked_Upload (Check.into_checked_basic t block_height params)
    | Tx_Blob t => map_checked Checked_Blob (Check.into_checked_basic t block_height params)
    end.

Definition lift_checked {A} (f : A -> CheckedTransaction) (x : RunOutcome (outcome CheckError A))
  : RunOutcome (outcome CheckError AnyChecked) := rbind x (fun r => Finished (map_checked (fun a => any_checked (f a)) r)).
Definition any_check_predicates (fuel : nat) (c : AnyChecked) (params : CheckPredicateParams) (memory : MemoryInstance)
    (storage : D) : RunOutcome (outcome CheckError AnyChecked) :=
  cbind (check_ok (fun e => e) (checked_transaction c)) (fun c =>
  match c with
  | Checked_Script c => lift_checked Checked_Script (Check.check_predicates fuel c params memory storage)
  | Checked_Create c => lift_checked Checked_Create (Check.check_predicates fuel c params memory storage)
  | Checked_Mint c => Finished (Ok (any_checked (Checked_Mint (mint_check_predicates c))))
  | Checked_Upgrade c => lift_checked Checked_Upgrade (Check.check_predicates fuel c params memory storage)
  | Checked_Upload c => lift_checked Checked_Upload (Check.check_predicates fuel c params memory storage)
  | Checked_Blob c => lift_checked Checked_Blob (Check.check_predicates fuel c params memory storage)
  end).
Definition any_check_predicates_async (execute_tasks : list Predicates.Check -> list Predicates.Check)
    (get_new : Z -> MemoryInstance) (fuel : nat) (c : AnyChecked) (params : CheckPredicateParams) (storage : D)
  : RunOutcome (outcome CheckError AnyChecked) :=
  cbind (check_ok (fun e => e) (checked_transaction c)) (fun c =>
  match c with
  | Checked_Script c => lift_checked Checked_Script (Check.check_predicates_async execute_tasks get_new fuel c params storage)
  | Checked_Create c => lift_checked Checked_Create (Check.check_predicates_async execute_tasks get_new fuel c params storage)
  | Checked_Mint c => Finished (Ok (any_checked (Checked_Mint (mint_check_predicates c))))
  | Checked_Upgrade c => lift_checked Checked_Upgrade (Check.check_predicates_async execute_tasks get_new fuel c params storage)
  | Checked_Upload c => lift_checked Checked_Upload (Check.check_predicates_async execute_tasks get_new fuel c params storage)
  | Checked_Blob c => lift_checked Checked_Blob (Check.check_predicates_async execute_tasks get_new fuel c params storage)
  end).

(** [EstimatePredicates for Transaction]: the error, and the transaction with the estimates. *)
Definition estimate {Body} (f : Chargeable Body -> Transaction)
    (x : RunOutcome (outcome PredicateVerificationFailed Z * Chargeable Body))
  : RunOutcome (outcome CheckError unit * Transaction) :=
  rbind x (fun '(r, t) => Finished (let? _ := omap_err Check_PredicateVerificationFailed r in Ok tt, f t)).
Definition any_estimate_predicates (fuel : nat) (t : Transaction) (params : CheckPredicateParams) (memory : MemoryInstance)
    (storage : D) : RunOutcome (outcome CheckError unit * Transaction) :=
  match t with
  | Tx_Script t => estimate Tx_Script (fst (Pred.estimate_predicates fuel t params memory storage))
  | Tx_Create t => estimate Tx_Create (fst (Pred.estimate_predicates fuel t params memory storage))
  | Tx_Mint t => Finished (Ok tt, Tx_Mint t)
  | Tx_Upgrade t => estimate Tx_Upgrade (fst (Pred.estimate_predicates fuel t params memory storage))
  | Tx_Upload t => estimate Tx_Upload (fst (Pred.estimate_predicates fuel t params memory storage))
  | Tx_Blob t => estimate Tx_Blob (fst (Pred.estimate_predicates fuel t params memory storage))
  end.
Definition any_estimate_predicates_async (execute_tasks : list Predicates.Check -> list Predicates.Check)
    (get_new : Z -> MemoryInstance) (fuel : nat) (t : Transaction) (params : CheckPredicateParams) (storage : D)
  : RunOutcome (outcome CheckError unit * Transaction) :=
  match t with
  | Tx_Script t => estimate Tx_Script (Pred.estimate_predicates_async execute_tasks get_new fuel t params storage)
  | Tx_Create t => estimate Tx_Create (Pred.estimate_predicates_async execute_tasks get_new fuel t params storage)
  | Tx_Mint t => Finished (Ok tt, Tx_Mint t)
  | Tx_Upgrade t => estimate Tx_Upgrade (Pred.estimate_predicates_async execute_tasks get_new fuel t params storage)
  | Tx_Upload t => estimate Tx_Upload (Pred.estimate_predicates_async execute_tasks get_new fuel t params storage)
  | Tx_Blob t => estimate Tx_Blob (Pred.estimate_predicates_async execute_tasks get_new fuel t params storage)
  end.
End Any.

Lemma checked_transaction_any `{Alloc} `{Sha256} `{ParametersDecoder} (c : CheckedTransaction) :
  checked_transaction (any_checked c) = Ok c.
Proof. by destruct c as [[]|[]|[]|[]|[]|[]]. Qed.

(** The conversion of what was checked never reaches [unreachable!], and keeps the transaction. *)
Lemma map_checked_basic `{Alloc} `{Sha256} `{ParametersDecoder} {Body} `{CheckedBody Body}
    (f : Checked Body -> CheckedTransaction) (x : outcome CheckError (Checked Body)) a :
  map_checked any_checked (map_checked f x) = Ok a -> exists c, x = Ok c /\ checked_transaction a = Ok (f c).
Proof. destruct x as [c| |]; cbn; [|done..]. intros [= <-]. exists c. split; [done|]. apply checked_transaction_any. Qed.

(** ** What the checks establish *)

(** What checking relies on of a kind of transaction: valid transactions have metadata, and the
    assertion of debug builds holds for them. *)
Class CheckedLaws `{Sha256} `{ParametersDecoder} (Body : Type) `{!CheckedBody Body} `{!KindRules Body} : Prop := {
  body_metadata_ok t params : kind_rules t params -> body_metadata t = Ok tt;
  metadata_total t params base av height min max :
    kind_rules t params -> retryable_balance av = total retries (tx_inputs t) ->
    exists m, metadata_of base av height min max = Ok m;
  metadata_initial base av height min max m :
    metadata_of base av height min max = Ok m ->
    non_retryable (metadata_balances m) = non_retryable_balances av /\
    match retryable (metadata_balances m) with
    | Some r => r = (retryable_balance av, base)
    | None => retryable_balance av = 0
    end
}.

Lemma spendable_retries i : is_spendable i = true -> retries i = 0.
Proof. by destruct i. Qed.
Lemma base_inputs_retries base l : Forall (base_input base) l -> total retries l = 0.
Proof.
  unfold total. induction 1 as [|i l [Hi _] _ IH]; [done|]. cbn [foldr]. by rewrite IH, (spendable_retries i Hi).
Qed.
Lemma free_metadata_total base av height min max :
  retryable_balance av = 0 -> exists m, free_metadata base av height min max = Ok m.
Proof. intros E. unfold free_metadata. rewrite E. by eexists. Qed.
Lemma free_metadata_initial base av height min max m :
  free_metadata base av height min max = Ok m -> fmd_free_balances m = non_retryable_balances av /\ retryable_balance av = 0.
Proof. unfold free_metadata. case_if; [|done]. intros [= <-]. zbool. done. Qed.

Section Laws.
Context `{Alloc} `{Sha256} `{ParametersDecoder}.
#[export] Instance script_checked_laws : CheckedLaws ScriptBody.
Proof. split; [done| |by intros ? ? ? ? ? ? [= <-]]. intros. by eexists. Qed.
#[export] Instance create_checked_laws : CheckedLaws CreateBody.
Proof.
  split; [|intros ? ? ? ? ? ? ? (? & ? & ? & ? & ? & ? & Hb & _) E|intros; by apply free_metadata_initial in H2].
  - intros t params (? & m & ? & ? & ? & ? & ? & Em & _). cbn. by rewrite Em.
  - apply free_metadata_total. rewrite E. by eapply base_inputs_retries.
Qed.
#[export] Instance upgrade_checked_laws : CheckedLaws UpgradePurpose.
Proof.
  split; [|intros ? ? ? ? ? ? ? (? & ? & Hb & _) E|intros; by apply free_metadata_initial in H2].
  - intros t params (_ & Hp & _). cbn. unfold upgrade_metadata. destruct (tx_body t) as [index checksum|]; [|done].
    destruct Hp as (w & -> & <- & [x Hx]). cbn. rewrite bool_decide_true by done. cbn. by rewrite Hx.
  - apply free_metadata_total. rewrite E. by eapply base_inputs_retries.
Qed.
#[export] Instance upload_checked_laws : CheckedLaws UploadBody.
Proof.
  split; [done|intros ? ? ? ? ? ? ? (? & ? & Hb & _) E|intros; by apply free_metadata_initial in H2].
  apply free_metadata_total. rewrite E. by eapply base_inputs_retries.
Qed.
#[export] Instance blob_checked_laws : CheckedLaws BlobBody.
Proof.
  split; [done|intros ? ? ? ? ? ? ? (? & Hb & _) E|intros; by apply free_metadata_initial in H2].
  apply free_metadata_total. rewrite E. by eapply base_inputs_retries.
Qed.
End Laws.

Section Establish.
Context `{Alloc} `{!ExactAlloc} `{Sha256} `{ParametersDecoder} `{SigScheme}.
Context {Body : Type} `{!ChargeableBody Body} (body_ok : Body -> Prop) `{!ChargeableLaws Body body_ok}.
Context `{!PrepareSign Body} `{!PrepareIdem Body} `{!PrepareSize Body} `{!BodyOffset Body} `{!BodyOffsetLaw body_codec body_ok}.
Context `{!UniqueRules Body} `{!KindRules Body} `{!LawfulRules Body} `{!CheckedBody Body} `{!CheckedLaws Body}.
Hypothesis Hprep : forall b, body_ok b -> body_ok (prepare_sign b).
Hypothesis Hsha : forall l, zlen (sha256 l) = 32.
Implicit Types (t : Chargeable Body) (c : Checked Body).

(** Parameters of a chain: words, with room in memory for the largest transaction, a gas limit
    that saturated sums exceed, and a cost for every instruction. *)
Record sane (params : ConsensusParameters) (cpp : CheckPredicateParams) : Prop := {
  sa_params : check_predicate_params params = Ok cpp;
  sa_gas : tp_max_gas_per_tx (cp_tx_params params) < U64 - 1;
  sa_max : 0 <= tp_max_inputs (cp_tx_params params) < U16;
  sa_outputs : tp_max_outputs (cp_tx_params params) <= U16;
  sa_fits : cpp_tx_offset cpp + tp_max_size (cp_tx_params params) <= VM_MAX_RAM;
  sa_base : zlen (cp_base_asset_id params) = 32;
  sa_words : params_ok (interpreter_params_new 0 cpp);
  sa_costs : costs_at_least 1 (cp_gas_costs params);
  sa_fee : fee_ok (cp_fee_params params)
}.

Lemma sane_fields params cpp :
  sane params cpp ->
  cpp_max_inputs cpp = tp_max_inputs (cp_tx_params params) /\ cpp_gas_costs cpp = cp_gas_costs params /\
  cpp_fee_params cpp = cp_fee_params params /\ cpp_base_asset_id cpp = cp_base_asset_id params /\
  cpp_chain_id cpp = cp_chain_id params /\ cpp_max_gas_per_tx cpp = tp_max_gas_per_tx (cp_tx_params params) /\
  tx_params_tx_offset (cpp_max_inputs cpp) = Ok (cpp_tx_offset cpp) /\ 0 <= cpp_tx_offset cpp.
Proof.
  intros Hs. destruct (sa_words _ _ Hs) as (_ & _ & Hofs & _). destruct Hs. unfold check_predicate_params in sa_params0.
  destruct (tx_params_tx_offset _) as [ofs| |] eqn:E; [|done..]. injection sa_params0 as <-. cbn in *. split_and!; try done. apply Hofs.
Qed.

(** The size of a transaction is the length of its bytes, unless saturated. *)
Lemma metered_bytes t :
  chargeable_ok body_ok t -> metered_bytes_size t < USIZE_MAX ->
  exists bs, encode (c_chargeable body_codec) t = Ok bs /\ metered_bytes_size t = zlen bs.
Proof.
  intros Ht Hlt. destruct (c_chargeable_lawful body_codec body_ok ch_lawful t Ht) as (s & bs & bd & He).
  pose proof (en_size_static _ _ _ _ _ He). pose proof (en_size_dynamic _ _ _ _ _ He).
  apply encodes_all in He as (He & _). exists (bs ++ bd). split; [exact He|].
  unfold metered_bytes_size, size in *. rewrite zlen_app. pose proof (zlen_nonneg bs). pose proof (zlen_nonneg bd).
  unfold saturating_add, USIZE_MAX in *. lia.
Qed.

(** The offsets of a transaction that fits are computed. *)
Lemma offsets_loop_ok {T} (cd : Codec T) too_large l bs :
  encodes_list cd l bs -> forall index offset, 0 <= offset -> offset + zlen bs <= USIZE_MAX ->
  exists r, offsets_loop (size cd) too_large l index offset = Ok r.
Proof.
  induction 1 as [|x l s b bd rest He Hl IH]; intros index offset Ho Hle; [by eexists|]. cbn [offsets_loop].
  pose proof (en_size_static _ _ _ _ _ He). pose proof (en_size_dynamic _ _ _ _ _ He).
  rewrite !zlen_app in Hle. pose proof (zlen_nonneg b). pose proof (zlen_nonneg bd). pose proof (zlen_nonneg rest).
  assert (E : size cd x = zlen b + zlen bd) by (unfold size, saturating_add, USIZE_MAX in *; lia). rewrite E.
  unfold USIZE_MAX in *. rewrite checked_add_Some by lia. cbn [ok_or obind].
  destruct (IH (index + 1) (offset + (zlen b + zlen bd))) as [r ->]; [lia|lia|]. by eexists.
Qed.
Lemma metadata_compute_ok t bs :
  chargeable_ok body_ok t -> encode (c_chargeable body_codec) t = Ok bs -> zlen bs <= USIZE_MAX ->
  exists m, metadata_compute t = Ok m.
Proof.
  intros Ht E Hlen.
  destruct (vectors_layout body_codec body_ok ch_lawful t bs Ht E Hlen) as (pre & bi & bo & bw & -> & Hi & Ho & Hw & E1 & E2 & E3).
  rewrite !zlen_app in Hlen. pose proof (zlen_nonneg pre). pose proof (zlen_nonneg bi). pose proof (zlen_nonneg bo).
  pose proof (zlen_nonneg bw). unfold metadata_compute. rewrite E1, E2, E3.
  destruct (offsets_loop_ok c_input SerializedInputTooLarge _ _ Hi 0 (zlen pre)) as [ri ->]; [lia|lia|]. cbn [obind].
  destruct (offsets_loop_ok c_output SerializedOutputTooLarge _ _ Ho 0 (zlen pre + zlen bi)) as [ro ->]; [lia|lia|]. cbn [obind].
  destruct (offsets_loop_ok c_bytes SerializedWitnessTooLarge _ _ Hw 0 (zlen pre + zlen bi + zlen bo)) as [rw ->]; [lia|lia|].
  by eexists.
Qed.

(** A checked transaction knows its id and its free balances. *)
Record checked_as t height params c : Prop := {
  ca_tx : transaction c = t;
  ca_id : chargeable_id body_codec (cp_chain_id params) t = Ok (Check.id c);
  ca_valid : chargeable_valid t height params;
  ca_balances : exists av, initial_free_balances t (cp_base_asset_id params) = Ok av /\
    non_retryable (metadata_balances (metadata c)) = non_retryable_balances av /\
    match retryable (metadata_balances (metadata c)) with
    | Some r => r = (retryable_balance av, cp_base_asset_id params)
    | None => retryable_balance av = 0
    end
}.
Definition funded t params : Prop := exists av, initial_free_balances t (cp_base_asset_id params) = Ok av.

Lemma free_balances_no_crash t base : chargeable_ok body_ok t -> initial_free_balances t base <> Crash.
Proof. intros Ht E. pose proof (free_balances_spec body_ok t base Ht) as Hf. by rewrite E in Hf. Qed.

(** What is cached of a valid transaction *)
Lemma precompute_valid t height params cpp :
  chargeable_ok body_ok t -> sane params cpp -> chargeable_valid t height params ->
  exists m, metadata_compute t = Ok m /\ body_metadata t = Ok tt.
Proof.
  intros Ht Hs [Hr Hk]. pose proof (cr_size _ _ _ Hr) as Hsz. pose proof (sa_fits _ _ Hs).
  destruct (sane_fields _ _ Hs) as (_ & _ & _ & _ & _ & _ & _ & Hofs).
  change (size (c_chargeable body_codec) t) with (metered_bytes_size t) in Hsz.
  destruct (metered_bytes t Ht) as (bs & Ebs & Hlen); [unfold VM_MAX_RAM, USIZE_MAX in *; lia|].
  destruct (metadata_compute_ok t bs Ht Ebs) as [m Em]; [unfold VM_MAX_RAM, USIZE_MAX in *; lia|].
  exists m. split; [done|]. by eapply body_metadata_ok.
Qed.
Lemma gas_total t params cpp :
  chargeable_ok body_ok t -> sane params cpp ->
  exists lo hi, min_gas t (cp_gas_costs params) (cp_fee_params params) = Ok lo /\
    max_gas t (cp_gas_costs params) (cp_fee_params params) = Ok hi.
Proof.
  intros Ht Hs. destruct (sane_fields _ _ Hs) as (_ & Eg & _). destruct Hs.
  assert (Hg : costs_ok (cp_gas_costs params)) by (rewrite <- Eg; apply sa_words0).
  destruct (min_gas_ok body_ok _ _ Hg sa_fee0 t Ht) as (lo & Elo & Hlo).
  destruct (max_gas_ok body_ok _ _ sa_fee0 t lo Ht Elo Hlo) as (hi & Ehi & _). by exists lo, hi.
Qed.

(** The basic checks accept the valid transactions whose inputs cover the fee limit and the coin
    outputs. *)
Lemma basic_spec t height params cpp :
  chargeable_ok body_ok t -> sane params cpp ->
  match Check.into_checked_basic t height params with
  | Ok c => checked_as t height params c /\ checks_bitmask c = Checks.Basic
  | Err _ => ~ (chargeable_valid t height params /\ funded t params)
  | Crash => ~ chargeable_valid t height params
  end.
Proof.
  intros Ht Hs. unfold Check.into_checked_basic, Check.precompute, funded.
  destruct (id_bytes body_codec body_ok ch_lawful Hprep Hsha (cp_chain_id params) t Ht) as (id & Eid & _). rewrite Eid.
  pose proof (precompute_valid t height params cpp Ht Hs) as Hpre.
  destruct (metadata_compute t) as [common|e|]; cbn [obind omap_err];
    [|intros [(? & [=] & _)%Hpre _]|intros (? & [=] & _)%Hpre].
  destruct (body_metadata t) as [[]|e|]; cbn [obind omap_err];
    [|intros [(? & _ & [=])%Hpre _]|intros (? & _ & [=])%Hpre]. clear Hpre.
  pose proof (chargeable_check_spec t height params) as Hv.
  destruct (chargeable_check_without_signatures t height params) as [[]|e|]; cbn [obind omap_err]; [|tauto|done].
  destruct (initial_free_balances t (cp_base_asset_id params)) as [av|e|] eqn:Eav; cbn [obind omap_err];
    [|by intros [_ [? [=]]]|by destruct (free_balances_no_crash t (cp_base_asset_id params) Ht)].
  destruct (gas_total t params cpp Ht Hs) as (lo & hi & -> & ->). cbn [obind Check.expect_gas].
  pose proof (free_balances_spec body_ok t (cp_base_asset_id params) Ht) as Hf. rewrite Eav in Hf.
  destruct Hf as (_ & _ & _ & _ & Hret & _), (Hv) as [_ Hk].
  destruct (metadata_total t params (cp_base_asset_id params) av height lo hi Hk Hret) as [m Em]. rewrite Em. cbn [obind].
  split; [|done]. split; [done..|]. exists av. split; [done|]. cbn [metadata]. by eapply metadata_initial.
Qed.

Lemma valid_checkable t height params cpp :
  chargeable_ok body_ok t -> common_rules t height params -> sane params cpp ->
  exists bs, checkable body_ok t cpp bs.
Proof.
  intros Ht Hr Hs. destruct (sane_fields params cpp Hs) as (E1 & E2 & E3 & E4 & E5 & E6 & E7 & Hofs). destruct Hs.
  pose proof (chargeable_prepared_ok body_ok t Hprep Ht) as Hpt. pose proof (cr_size _ _ _ Hr) as Hsz.
  change (size (c_chargeable body_codec) t) with (metered_bytes_size t) in Hsz. rewrite <- prepared_size in Hsz.
  assert (Hlt : metered_bytes_size (chargeable_prepare_sign t) < USIZE_MAX) by (unfold VM_MAX_RAM, USIZE_MAX in *; lia).
  destruct (metered_bytes _ Hpt Hlt) as (bs & Ebs & Hlen). exists bs. pose proof (cr_outputs_max _ _ _ Hr).
  split; try done; rewrite ?E1, ?E2, ?E3, ?E4; try done; [lia|].
  rewrite Hlen in Hsz. lia.
Qed.

(** The check of the signatures of a valid transaction ends in a verdict. *)
Lemma check_signature_no_crash i index id ws cache : input_ok i -> check_signature i index id ws cache <> Crash.
Proof.
  intros Hi. assert (Hs : forall w o, check_signed index id ws cache w o <> Crash).
  { intros w o. unfold check_signed, recover_cached, recover_address, recover_witness.
    destruct cache as [m|]; [destruct (m !! w)|]; cbn [obind]; try (by case_bool_decide);
      (destruct (zget ws w); [|done]; cbn [ok_or obind]; case_if; [done|]; destruct (sig_recover _ _); [|done];
       cbn [obind]; by case_bool_decide). }
  assert (Hp : forall o code, vec_ok code -> check_predicate index cache o code <> Crash).
  { intros o code Hv. unfold check_predicate, Inp.is_predicate_owner_valid, Inp.predicate_owner.
    rewrite root_from_code_Ok by (unfold vec_ok, VEC_DECODE_LIMIT in Hv; lia). cbn [obind]. by case_bool_decide. }
  destruct i; cbn [check_signature]; try apply Hs; try done; apply Hp; cbn in Hi; tauto.
Qed.
Lemma check_each_no_crash l : forall index id ws cache, Forall input_ok l -> check_each l index id ws cache <> Crash.
Proof.
  induction l as [|i l IH]; intros index id ws cache Hl; cbn [check_each]; [done|]. apply Forall_cons in Hl as [Hi Hl].
  pose proof (check_signature_no_crash i index id ws cache Hi). by destruct (check_signature i index id ws cache); [apply IH| |].
Qed.

Lemma signatures_step t height params c :
  chargeable_ok body_ok t -> checked_as t height params c -> checks_bitmask c = Checks.Basic ->
  match Check.check_signatures c with
  | Ok c' => checked_as t height params c' /\ checks_bitmask c' = 3 /\ Check.id c' = Check.id c /\
      Forall (authorised (Check.id c) (tx_witnesses t)) (tx_inputs t)
  | Err _ => ~ Forall (authorised (Check.id c) (tx_witnesses t)) (tx_inputs t)
  | Crash => False
  end.
Proof.
  intros (_ & _ & [_ Hi] & _) Hc Hb. unfold Check.check_signatures. rewrite Hb, (ca_tx _ _ _ _ Hc). change (Checks.contains _ _) with false. cbn match.
  assert (Hs : check_each (tx_inputs t) 0 (Check.id c) (tx_witnesses t) (Some ∅) = Ok tt <->
    Forall (authorised (Check.id c) (tx_witnesses t)) (tx_inputs t))
    by (apply check_each_spec; intros m w a [= <-]; by rewrite lookup_empty).
  pose proof (check_each_no_crash (tx_inputs t) 0 (Check.id c) (tx_witnesses t) (Some ∅) Hi) as Hnc.
  destruct (check_each _ _ _ _ _) as [[]|e|]; cbn [omap_err obind]; [|by intros [=]%Hs|done].
  split; [|split; [|split; [done|by apply Hs]]].
  - destruct Hc. by split.
  - cbn. by rewrite Hb.
Qed.
End Establish.

(** ** All the checks *)

Section All.
Context `{Alloc} `{!ExactAlloc} `{Sha256} `{ParametersDecoder} `{SigScheme} `{Powf} `{WideLib} `{!PowfLaw} `{!WideLaws} `{Crypto} {D : Type} `{BlobLaws D}.
Context {Body : Type} `{!ChargeableBody Body} (body_ok : Body -> Prop) `{!ChargeableLaws Body body_ok}.
Context `{!PrepareSign Body} `{!PrepareIdem Body} `{!PrepareSize Body} `{!BodyOffset Body} `{!BodyOffsetLaw body_codec body_ok}.
Context `{!PrepareOffset Body} `{!UniqueRules Body} `{!KindRules Body} `{!LawfulRules Body} `{!CheckedBody Body} `{!CheckedLaws Body}.
Implicit Types (t : Chargeable Body).

(** What the checks together accept: a valid transaction whose inputs cover what it promises to
    pay, all of whose inputs are authorised for its id and all of whose predicates are owned by
    their code, return one and use exactly the gas that they declare, which is a word in total. *)
Record acceptable (fuel : nat) t (height : Z) (params : ConsensusParameters) (cpp : CheckPredicateParams) (storage : D) : Prop := {
  ac_valid : chargeable_valid t height params;
  ac_funded : funded t params;
  ac_signed id : chargeable_id body_codec (cp_chain_id params) t = Ok id -> Forall (authorised id (tx_witnesses t)) (tx_inputs t);
  ac_predicates : all_accept fuel t cpp storage (Pred.input_indices t);
  ac_gas : total (declared t) (Pred.input_indices t) < U64
}.
End All.

(** C8: all checks of a transaction together (basic validity and metadata, signatures,
    predicates) are exact. Under parameters of a sane chain and with at least as much fuel as any
    predicate declares gas (plus one), checking a transaction as decoding leaves it always ends. It
    returns a checked transaction, with the bits of all three checks, only if the transaction is
    acceptable: it satisfies all validity rules, its inputs cover the fee limit and the coin
    outputs, every input is authorised for the id of the transaction, every predicate is owned
    by its code, returns one and uses exactly its declared gas. The checked transaction is the
    given one, with its id cached and its free balances as metadata. An error is returned only if
    the transaction is not acceptable, and the host panics only for an invalid transaction (whose
    size or metadata overflows). The memory given to reuse does not matter. The one other outcome
    is that a predicate reached an instruction that is not modelled (TRO, GTF, ECAL or EPAR): of
    such a transaction nothing is said. *)
Theorem checks_exact `{Alloc} `{!ExactAlloc} `{Sha256} `{ParametersDecoder} `{SigScheme} `{Powf} `{WideLib} `{!PowfLaw} `{!WideLaws} `{Crypto} {D : Type}
    `{BlobLaws D} {Body : Type} `{!ChargeableBody Body} (body_ok : Body -> Prop) `{!ChargeableLaws Body body_ok}
    `{!PrepareSign Body} `{!PrepareIdem Body} `{!PrepareSize Body} `{!BodyOffset Body} `{!BodyOffsetLaw body_codec body_ok}
    `{!PrepareOffset Body} `{!UniqueRules Body} `{!KindRules Body} `{!LawfulRules Body} `{!CheckedBody Body} `{!CheckedLaws Body}
    (fuel : nat) (t : Chargeable Body) (height : Z) (params : ConsensusParameters) (cpp : CheckPredicateParams)
    (memory : MemoryInstance) (storage : D) :
  (forall b, body_ok b -> body_ok (prepare_sign b)) -> (forall l, zlen (sha256 l) = 32) ->
  chargeable_ok body_ok t -> sane params cpp -> mem_wf memory ->
  (forall i, i ∈ tx_inputs t -> default 0 (Inp.predicate_gas_used i) < Z.of_nat fuel) ->
  match Check.into_checked_reusable_memory fuel t height params memory storage with
  | Finished (Ok c) =>
      acceptable fuel t height params cpp storage /\ checked_as t height params c /\
      checks_bitmask c = Z.lor Checks.Basic (Z.lor Checks.Signatures Checks.Predicates)
  | Finished (Err _) => ~ acceptable fuel t height params cpp storage
  | Outside o => unmodelled o = true
  | HostPanic => ~ chargeable_valid t height params
  | _ => False
  end.
Proof.
  intros Hprep Hsha Ht Hs Hm Hfuel. unfold Check.into_checked_reusable_memory. rewrite (sa_params _ _ Hs).
  pose proof (basic_spec body_ok Hprep Hsha t height params cpp Ht Hs) as Hb.
  destruct (Check.into_checked_basic t height params) as [c|e|]; cbn; [|intros []; tauto|done].
  destruct Hb as [Hc Hbits]. pose proof (signatures_step body_ok t height params c Ht Hc Hbits) as Hsig.
  destruct (Check.check_signatures c) as [c'|e|]; cbn; [|intros Ha; by apply Hsig, (ac_signed _ _ _ _ _ _ Ha), Hc|done].
  destruct Hsig as (Hc' & Hbits' & Hid & Hauth). unfold Check.check_predicates. rewrite Hbits', (ca_tx _ _ _ _ Hc').
  change (Checks.contains _ _) with false. cbn match.
  destruct (valid_checkable body_ok Hprep t height params cpp Ht (proj1 (ca_valid _ _ _ _ Hc)) Hs) as [bs Hck].
  pose proof (check_predicates_exact body_ok fuel t cpp bs memory storage Hprep Hsha Hck Hm Hfuel) as Hp. cbn zeta in Hp.
  destruct (fst (Pred.check_predicates fuel t cpp memory storage)) as [[[g|e|] t']| | | |]; cbn; try done.
  - destruct Hp as (_ & -> & Hg & Hall & _). split; [|split].
    + split; [apply Hc| |intros id Eid|done|done].
      * destruct (ca_balances _ _ _ _ Hc) as (av & Eav & _). by exists av.
      * rewrite (ca_id _ _ _ _ Hc) in Eid. by injection Eid as <-.
    + destruct Hc'. by split.
    + by rewrite Hbits'.
  - intros Ha. destruct Hp as (_ & _ & [Hn|[Hg|(limit & Elim & Hlt)]]); [by apply Hn, Ha|by apply ac_gas in Ha; lia|].
    destruct (sane_fields _ _ Hs) as (_ & Eg & Ef & _ & _ & Emax & _). rewrite Eg, Ef in Elim. rewrite Emax in Hlt.
    destruct (cr_gas _ _ _ (proj1 (ac_valid _ _ _ _ _ _ Ha))) as (g & Eg' & Hle). rewrite Elim in Eg'. injection Eg' as <-. lia.
Qed.

(** ** An example: a signed coin and a coin guarded by a predicate *)

Module CheckedExample.
#[local] Instance alloc : Alloc := TxExample.exact_alloc.
#[local] Instance sha : Sha256 := SignExample.sha.
#[local] Instance decoder : ParametersDecoder := fun _ => None.

Definition params : ConsensusParameters :=
  mkConsensusParameters (mkTxParameters 2 2 2 100000000 4096 16) (mkPredicateParameters 1024 1024 1024 1000000)
    (mkScriptParameters 1024 1024) (mkContractParameters 1024 16) FeeExample.params 7 FeeExample.costs zeroed 100000000 zeroed.
Definition cpp : CheckPredicateParams :=
  mkCheckPredicateParams FeeExample.costs 7 1000000 100000000 2 1024 1024 152 FeeExample.params zeroed.
Definition tx : Chargeable ScriptBody :=
  mkChargeable TxExample.body (mkPolicies 8 [0; 0; 0; 20; 0])
    [Input_CoinSigned SignExample.coin; Input_CoinPredicate PredExample.coin] [] [replicate 64 SignExample.key].
Notation into_checked :=
  (@Check.into_checked_reusable_memory alloc sha SignExample.scheme ScriptBody (@chargeable_script alloc) _ _ _ _
    powf_zero wide_std crypto_none EmptyStorage _ 5 tx 3 params PredExample.used tt).

Lemma params_sane : sane params cpp.
Proof.
  split; [vm_compute; reflexivity|done..|vm_compute; discriminate|vm_compute; discriminate|done| | |done].
  - split; [exact FeeExample.costs_valid|]. repeat split; reflexivity || discriminate.
  - split; intros c; done.
Qed.
Lemma checked_tx_valid : chargeable_ok script_body_ok tx.
Proof.
  destruct TxExample.tx_valid as (Hb & _). split; [exact Hb|].
  split; [split_and!; [done|repeat constructor; done|done]|].
  split; [|by repeat constructor]. split; [done|]. repeat constructor; vm_compute; done.
Qed.
Lemma all_checked : match into_checked with Finished (Ok c) => checks_bitmask c | _ => 0 end = 7.
Proof. vm_compute. reflexivity. Qed.
End CheckedExample.

Lemma checks_exact_witness :
  exists c, CheckedExample.into_checked = Finished (Ok c) /\
    @checked_as CheckedExample.alloc CheckedExample.sha ScriptBody
      (@chargeable_script CheckedExample.alloc) _ _ _ CheckedExample.tx 3 CheckedExample.params c.
Proof.
  pose proof (@checks_exact CheckedExample.alloc TxExample.exact_alloc_exact CheckedExample.sha CheckedExample.decoder
    SignExample.scheme powf_zero wide_std powf_zero_law wide_std_laws crypto_none EmptyStorage _ _ ScriptBody
    (@chargeable_script CheckedExample.alloc) script_body_ok
    (@script_laws TxExample.exact_alloc TxExample.exact_alloc_exact) _ _ _ _
    (@script_offset_law TxExample.exact_alloc) _ _ _ _ _ _ 5 CheckedExample.tx 3 CheckedExample.params CheckedExample.cpp
    PredExample.used tt script_prepare_valid InitExample.sha_len CheckedExample.checked_tx_valid CheckedExample.params_sane
    PredExample.used_memory_wf) as H.
  assert (Hf : forall i, i ∈ tx_inputs CheckedExample.tx -> default 0 (Inp.predicate_gas_used i) < Z.of_nat 5).
  { apply (proj1 (Forall_forall _ _)). repeat constructor. }
  specialize (H Hf). pose proof CheckedExample.all_checked as E.
  destruct (Check.into_checked_reusable_memory _ _ _ _ _ _) as [[c|e|]| | | |]; [|discriminate E..].
  exists c. split; [reflexivity|]. exact (proj1 (proj2 H)).
Defined.
