(* ===== verification/TxExec.v ===== *)
(** * Executing create, upgrade, upload and blob transactions

    [deploy_inner], [upgrade_inner], [upload_inner], [upload_bytecode_subsection] and
    [blob_inner] of src/fuel-vm/src/interpreter/executors/main.rs, with the entry points
    [deploy], [upgrade], [upload] and [blob] that call them, and the parts of
    [InterpreterStorage] they use (src/fuel-vm/src/storage/interpreter.rs, memory.rs).

    These executions run no program: they change the storage of the chain and fill in the
    outputs. The storage is reached through an interface ([LedgerStorage]) whose laws
    ([LedgerLaws]) say that it implements a [Ledger] of plain maps; the in-memory backend is an
    instance. An operation returns its result and the storage, which can have changed even if the
    result is an error. Transactions carry no cached metadata: it is computed. *)

From Stdlib Require Import Strings.Byte.
From S2P Require Import Prelude Sparse Asm Merkle MerkleProof Receipts Memory State Gas Blockchain Canonical TxTypes.
From S2P Require Import TxCodec TxInput TxId TxSign TxFee TxBalances TxValidity.

(** ** The storage *)

Inductive UploadedBytecode : Type :=
| Uncompleted (bytecode : list byte) (uploaded_subsections_number : Z)
| Completed (bytecode : list byte).

(** The tables of the chain that these transactions change. *)
Record Ledger : Type := mkLedger {
  l_code : gmap ContractId (list byte);
  l_slots : gmap (ContractId * Bytes32) (list byte);
  l_blobs : gmap BlobId (list byte);
  l_uploads : gmap Bytes32 UploadedBytecode;
  l_parameters : gmap Z ConsensusParameters;
  l_transitions : gmap Z Bytes32;
  l_parameters_version : Z;
  l_transition_version : Z
}.
Definition with_code (l : Ledger) x :=
  mkLedger x (l_slots l) (l_blobs l) (l_uploads l) (l_parameters l) (l_transitions l) (l_parameters_version l) (l_transition_version l).
Definition with_slots (l : Ledger) x :=
  mkLedger (l_code l) x (l_blobs l) (l_uploads l) (l_parameters l) (l_transitions l) (l_parameters_version l) (l_transition_version l).
Definition with_blobs (l : Ledger) x :=
  mkLedger (l_code l) (l_slots l) x (l_uploads l) (l_parameters l) (l_transitions l) (l_parameters_version l) (l_transition_version l).
Definition with_uploads (l : Ledger) x :=
  mkLedger (l_code l) (l_slots l) (l_blobs l) x (l_parameters l) (l_transitions l) (l_parameters_version l) (l_transition_version l).
Definition with_parameters (l : Ledger) x :=
  mkLedger (l_code l) (l_slots l) (l_blobs l) (l_uploads l) x (l_transitions l) (l_parameters_version l) (l_transition_version l).
Definition with_transitions (l : Ledger) x :=
  mkLedger (l_code l) (l_slots l) (l_blobs l) (l_uploads l) (l_parameters l) x (l_parameters_version l) (l_transition_version l).

(** The operations of the storage; [None] is an error of the storage. *)
Class LedgerStorage (S : Type) : Type := {
  storage_contract_exists : S -> ContractId -> option bool;
  storage_contract_insert : S -> ContractId -> list byte -> option S;
  contract_state_insert : S -> ContractId -> Bytes32 -> list byte -> option S;
  blob_data_replace : S -> BlobId -> list byte -> option (option (list byte) * S);
  uploaded_bytecode_get : S -> Bytes32 -> option (option UploadedBytecode);
  uploaded_bytecode_insert : S -> Bytes32 -> UploadedBytecode -> option S;
  consensus_parameters_version : S -> option Z;
  state_transition_version : S -> option Z;
  set_consensus_parameters : S -> Z -> ConsensusParameters -> option (option ConsensusParameters * S);
  set_state_transition_bytecode : S -> Z -> Bytes32 -> option (option Bytes32 * S)
}.

(** What a storage promises: it implements the maps of a ledger. *)
Class LedgerLaws (S : Type) `{LedgerStorage S} : Type := {
  ledger : S -> Ledger;
  exists_law s id b : storage_contract_exists s id = Some b -> b = bool_decide (is_Some (l_code (ledger s) !! id));
  code_law s id code s' :
    storage_contract_insert s id code = Some s' -> ledger s' = with_code (ledger s) (<[id := code]> (l_code (ledger s)));
  slot_law s id k v s' :
    contract_state_insert s id k v = Some s' -> ledger s' = with_slots (ledger s) (<[(id, k) := v]> (l_slots (ledger s)));
  blob_law s id d o s' :
    blob_data_replace s id d = Some (o, s') ->
    o = l_blobs (ledger s) !! id /\ ledger s' = with_blobs (ledger s) (<[id := d]> (l_blobs (ledger s)));
  upload_get_law s r o : uploaded_bytecode_get s r = Some o -> o = l_uploads (ledger s) !! r;
  upload_law s r u s' :
    uploaded_bytecode_insert s r u = Some s' -> ledger s' = with_uploads (ledger s) (<[r := u]> (l_uploads (ledger s)));
  parameters_version_law s v : consensus_parameters_version s = Some v -> v = l_parameters_version (ledger s);
  transition_version_law s v : state_transition_version s = Some v -> v = l_transition_version (ledger s);
  parameters_law s v p o s' :
    set_consensus_parameters s v p = Some (o, s') ->
    o = l_parameters (ledger s) !! v /\ ledger s' = with_parameters (ledger s) (<[v := p]> (l_parameters (ledger s)));
  transition_law s v r o s' :
    set_state_transition_bytecode s v r = Some (o, s') ->
    o = l_transitions (ledger s) !! v /\ ledger s' = with_transitions (ledger s) (<[v := r]> (l_transitions (ledger s)))
}.

(** The in-memory tables. *)
#[export] Instance memory_ledger : LedgerStorage Ledger := {
  storage_contract_exists l id := Some (bool_decide (is_Some (l_code l !! id)));
  storage_contract_insert l id code := Some (with_code l (<[id := code]> (l_code l)));
  contract_state_insert l id k v := Some (with_slots l (<[(id, k) := v]> (l_slots l)));
  blob_data_replace l id d := Some (l_blobs l !! id, with_blobs l (<[id := d]> (l_blobs l)));
  uploaded_bytecode_get l r := Some (l_uploads l !! r);
  uploaded_bytecode_insert l r u := Some (with_uploads l (<[r := u]> (l_uploads l)));
  consensus_parameters_version l := Some (l_parameters_version l);
  state_transition_version l := Some (l_transition_version l);
  set_consensus_parameters l v p := Some (l_parameters l !! v, with_parameters l (<[v := p]> (l_parameters l)));
  set_state_transition_bytecode l v r := Some (l_transitions l !! v, with_transitions l (<[v := r]> (l_transitions l)))
}.
#[export] Instance memory_ledger_laws : LedgerLaws Ledger.
Proof. exists id; cbn; intros; simplify_eq; done. Defined.

(** ** Operations *)

(** [InterpreterError], the variants that arise here. *)
Inductive ExecutionError : Type :=
| Exec_Panic (reason : PanicReason)
| Exec_Bug (bug : BugVariant)
| Exec_Storage
| Exec_Validity (e : ValidityError)
| Exec_WrongGasPrice (expected actual : Z).
Definition exec_from_runtime (e : RuntimeError) : ExecutionError :=
  match e with Recoverable r => Exec_Panic r | Bug b => Exec_Bug b | Storage => Exec_Storage end.

(** What the executions take from the interpreter. *)
Record ExecParams : Type := mkExecParams {
  xp_gas_costs : GasCosts; xp_fee_params : FeeParameters; xp_base_asset_id : AssetId; xp_gas_price : Z
}.

Section Exec.
Context `{Alloc} `{Sha256} `{ParametersDecoder} {S : Type} `{LedgerStorage S}.

(** A result and the storage after it. *)
Definition X (A : Type) : Type := S -> outcome ExecutionError A * S.
Definition xret {A} (x : outcome ExecutionError A) : X A := fun s => (x, s).
Definition xbind {A B} (x : X A) (f : A -> X B) : X B := fun s =>
  match x s with
  | (Ok a, s) => f a s
  | (Err e, s) => (Err e, s)
  | (Crash, s) => (Crash, s)
  end.
(** [map_err(RuntimeError::Storage)?] *)
Definition query {A} (f : S -> option A) : X A := fun s => (ok_or (f s) Exec_Storage, s).
Definition change {A} (f : S -> option (A * S)) : X A := fun s =>
  match f s with Some (a, s) => (Ok a, s) | None => (Err Exec_Storage, s) end.
Definition change_ (f : S -> option S) : X unit := change (fun s => (fun s => (tt, s)) <$> f s).
Definition panic_if (b : bool) (reason : PanicReason) : X unit := xret (if b then Err (Exec_Panic reason) else Ok tt).

#[local] Notation "'let!' x ':=' c 'in' k" := (xbind c (fun x => k)) (at level 10, x name, c at level 100, k at level 200).

(** [finalize_outputs] after an execution without a program. *)
Definition settle {Body} `{!ChargeableBody Body} (t : Chargeable Body) (initial : InitialBalances) (p : ExecParams)
  : outcome ExecutionError (Chargeable Body) :=
  let? balances := omap_err Exec_Validity (runtime_balances_try_from initial) in
  omap_err exec_from_runtime
    (finalize_outputs t (xp_gas_costs p) (xp_fee_params p) (xp_base_asset_id p) false 0 initial balances (xp_gas_price p)).

Fixpoint insert_slots (id : ContractId) (slots : list StorageSlot) : X unit :=
  match slots with
  | [] => xret (Ok tt)
  | sl :: rest => let! _ := change_ (fun s => contract_state_insert s id (slot_key sl) (slot_value sl)) in insert_slots id rest
  end.
Definition deploy_contract_with_id (slots : list StorageSlot) (contract : list byte) (id : ContractId) : X unit :=
  let! _ := change_ (fun s => storage_contract_insert s id contract) in insert_slots id slots.

Definition deploy_inner (create : Chargeable CreateBody) (initial : InitialBalances) (p : ExecParams) : X (Chargeable CreateBody) :=
  let! contract := xret (omap_err Exec_Validity (contract_try_from create)) in
  let! m := xret (omap_err Exec_Validity (create_metadata create)) in
  let id := cm_contract_id m in
  let! exists_ := query (fun s => storage_contract_exists s id) in
  let! _ := panic_if exists_ ContractIdAlreadyDeployed in
  let! _ := deploy_contract_with_id (storage_slots (tx_body create)) contract id in
  xret (settle create initial p).

Definition contains_state_transition_bytecode_root (root : Bytes32) : X bool :=
  let! b := query (fun s => uploaded_bytecode_get s root) in
  xret (Ok (match b with Some (Completed _) => true | _ => false end)).

Definition get_consensus_parameters (m : UpgradeMetadata) : outcome ExecutionError ConsensusParameters :=
  match m with
  | UM_ConsensusParameters params _ => Ok params
  | UM_StateTransition => Err (Exec_Validity TransactionMetadataMismatch)
  end.

(** [u32::saturating_add] *)
Definition next_version (v : Z) : Z := Z.min (v + 1) (U32 - 1).

Definition upgrade_inner (upgrade : Chargeable UpgradePurpose) (initial : InitialBalances) (p : ExecParams)
  : X (Chargeable UpgradePurpose) :=
  let! _ :=
    match tx_body upgrade with
    | Upgrade_ConsensusParameters _ _ =>
        let! m := xret (omap_err Exec_Validity (upgrade_metadata upgrade)) in
        let! params := xret (get_consensus_parameters m) in
        let! current_version := query consensus_parameters_version in
        let! prev := change (fun s => set_consensus_parameters s (next_version current_version) params) in
        panic_if (bool_decide (is_Some prev)) OverridingConsensusParameters
    | Upgrade_StateTransition root =>
        let! exists_ := contains_state_transition_bytecode_root root in
        let! _ := panic_if (negb exists_) UnknownStateTransactionBytecodeRoot in
        let! current_version := query state_transition_version in
        let! prev := change (fun s => set_state_transition_bytecode s (next_version current_version) root) in
        panic_if (bool_decide (is_Some prev)) OverridingStateTransactionBytecode
    end in
  xret (settle upgrade initial p).

Definition upload_bytecode_subsection (upload : Chargeable UploadBody) (uploaded_bytecode : list byte)
    (uploaded_subsections_number : Z) : outcome ExecutionError UploadedBytecode :=
  let b := tx_body upload in
  if negb (upload_subsection_index b =? uploaded_subsections_number) then Err (Exec_Panic ThePartIsNotSequentiallyConnected)
  else
    let? subsection := ok_or (witness_at (tx_witnesses upload) (upload_witness_index b)) (Exec_Bug WitnessIndexOutOfBounds) in
    let uploaded_bytecode := uploaded_bytecode ++ subsection in
    let? new_number :=
      ok_or (if uploaded_subsections_number + 1 <? 2 ^ 16 then Some (uploaded_subsections_number + 1) else None)
        (Exec_Panic ArithmeticOverflow) in
    if upload_subsections_number b <? new_number then Err (Exec_Bug NextSubsectionIndexIsHigherThanTotalNumberOfParts)
    else if upload_subsections_number b =? new_number then Ok (Completed uploaded_bytecode)
    else Ok (Uncompleted uploaded_bytecode new_number).

Definition upload_inner (upload : Chargeable UploadBody) (initial : InitialBalances) (p : ExecParams) : X (Chargeable UploadBody) :=
  let root := upload_root (tx_body upload) in
  let! uploaded := query (fun s => uploaded_bytecode_get s root) in
  let! new_bytecode :=
    match default (Uncompleted [] 0) uploaded with
    | Uncompleted bytecode number => xret (upload_bytecode_subsection upload bytecode number)
    | Completed _ => xret (Err (Exec_Panic BytecodeAlreadyUploaded))
    end in
  let! _ := change_ (fun s => uploaded_bytecode_insert s root new_bytecode) in
  xret (settle upload initial p).

Definition blob_inner (blob : Chargeable BlobBody) (initial : InitialBalances) (p : ExecParams) : X (Chargeable BlobBody) :=
  let! blob_data := xret (ok_or (witness_at (tx_witnesses blob) (blob_witness_index (tx_body blob))) (Exec_Bug WitnessIndexOutOfBounds)) in
  let! old := change (fun s => blob_data_replace s (blob_body_id (tx_body blob)) blob_data) in
  let! _ := panic_if (bool_decide (is_Some old)) BlobIdAlreadyUploaded in
  xret (settle blob initial p).
End Exec.
Arguments X S A : clear implicits.

(** ** What the executions do to the ledger *)

(** A kind of transaction that is executed without a program: its execution, and what it means
    for the ledger: a panic, or a new ledger. *)
Class Publication (Body : Type) `{ParametersDecoder} `{Sha256} `{Alloc} : Type := {
  publish {S} `{LedgerStorage S} : Chargeable Body -> InitialBalances -> ExecParams -> X S (Chargeable Body);
  published : Chargeable Body -> Ledger -> PanicReason + Ledger
}.

Section Published.
Context `{Alloc} `{Sha256} `{ParametersDecoder}.

(** A new contract with its code and slots. *)
Definition put_slots (id : ContractId) (slots : list StorageSlot) (m : gmap (ContractId * Bytes32) (list byte)) :=
  fold_left (fun m sl => <[(id, slot_key sl) := slot_value sl]> m) slots m.
Definition created (t : Chargeable CreateBody) (l : Ledger) : PanicReason + Ledger :=
  match contract_try_from t, create_metadata t with
  | Ok code, Ok m =>
      let id := cm_contract_id m in
      match l_code l !! id with
      | Some _ => inl ContractIdAlreadyDeployed
      | None => inr (with_slots (with_code l (<[id := code]> (l_code l))) (put_slots id (storage_slots (tx_body t)) (l_slots l)))
      end
  | _, _ => inr l
  end.
#[export] Instance create_publication : Publication CreateBody := {|
  publish S _ := deploy_inner; published := created
|}.

(** The next version gets the parameters or the bytecode, unless it has some already. *)
Definition upgraded (t : Chargeable UpgradePurpose) (l : Ledger) : PanicReason + Ledger :=
  match tx_body t with
  | Upgrade_ConsensusParameters index _ =>
      let v := next_version (l_parameters_version l) in
      match l_parameters l !! v, witness_at (tx_witnesses t) index ≫= decode_parameters with
      | Some _, _ => inl OverridingConsensusParameters
      | None, Some params => inr (with_parameters l (<[v := params]> (l_parameters l)))
      | None, None => inr l
      end
  | Upgrade_StateTransition root =>
      let v := next_version (l_transition_version l) in
      match l_uploads l !! root, l_transitions l !! v with
      | Some (Completed _), Some _ => inl OverridingStateTransactionBytecode
      | Some (Completed _), None => inr (with_transitions l (<[v := root]> (l_transitions l)))
      | _, _ => inl UnknownStateTransactionBytecodeRoot
      end
  end.
#[export] Instance upgrade_publication : Publication UpgradePurpose := {|
  publish S _ := upgrade_inner; published := upgraded
|}.

(** What is uploaded for a root so far: the bytes of how many subsections. *)
Definition progress (l : Ledger) (root : Bytes32) : option (list byte * Z) :=
  match l_uploads l !! root with
  | Some (Completed _) => None
  | Some (Uncompleted bytecode number) => Some (bytecode, number)
  | None => Some ([], 0)
  end.
Definition uploaded (t : Chargeable UploadBody) (l : Ledger) : PanicReason + Ledger :=
  let b := tx_body t in
  let part := default [] (witness_at (tx_witnesses t) (upload_witness_index b)) in
  match progress l (upload_root b) with
  | None => inl BytecodeAlreadyUploaded
  | Some (bytecode, number) =>
      if upload_subsection_index b =? number then
        let u := if number + 1 =? upload_subsections_number b then Completed (bytecode ++ part) else Uncompleted (bytecode ++ part) (number + 1) in
        inr (with_uploads l (<[upload_root b := u]> (l_uploads l)))
      else inl ThePartIsNotSequentiallyConnected
  end.
#[export] Instance upload_publication : Publication UploadBody := {|
  publish S _ := upload_inner; published := uploaded
|}.

Definition blob_published (t : Chargeable BlobBody) (l : Ledger) : PanicReason + Ledger :=
  let id := blob_body_id (tx_body t) in
  match l_blobs l !! id with
  | Some _ => inl BlobIdAlreadyUploaded
  | None => inr (with_blobs l (<[id := default [] (witness_at (tx_witnesses t) (blob_witness_index (tx_body t)))]> (l_blobs l)))
  end.
#[export] Instance blob_publication : Publication BlobBody := {|
  publish S _ := blob_inner; published := blob_published
|}.

(** An execution implements what it means for the ledger; apart from that only the storage or
    filling in the outputs can fail. *)
Definition refines {Body} `{!ChargeableBody Body} `{!Publication Body} {S} `{LedgerLaws S} (t : Chargeable Body)
    (initial : InitialBalances) (p : ExecParams) (s : S) (r : outcome ExecutionError (Chargeable Body) * S) : Prop :=
  match r with
  | (Ok t', s') => published t (ledger s) = inr (ledger s') /\ settle t initial p = Ok t'
  | (Err (Exec_Panic reason), s') => published t (ledger s) = inl reason
  | (Err Exec_Storage, s') => True
  | (Err e, s') => settle t initial p = Err e
  | (Crash, s') => settle t initial p = Crash
  end.
Class LawfulPublication (Body : Type) (body_ok : Body -> Prop) `{!ChargeableBody Body} `{!Publication Body} `{!KindRules Body} : Prop :=
  publish_refines : forall (S : Type) (st : LedgerStorage S) (laws : LedgerLaws S) t params initial p (s : S),
    body_ok (tx_body t) -> kind_rules t params -> refines t initial p s (publish t initial p s).

(** Filling in the outputs does not panic with a reason, and fails not because of the storage. *)
Lemma settle_error {Body} `{!ChargeableBody Body} (t : Chargeable Body) initial p e :
  settle t initial p = Err e -> (exists v, e = Exec_Validity v) \/ e = Exec_Bug UncomputableRefund.
Proof.
  unfold settle, finalize_outputs. destruct (runtime_balances_try_from initial) as [rb|v|]; cbn; [|intros [= <-]; eauto|done].
  destruct (update_outputs _ _ _ _ _ _ _ _ _); cbn; intros [= <-]; eauto.
Qed.

Lemma settle_refines {Body} `{!ChargeableBody Body} `{!Publication Body} {S} `{LedgerLaws S} (t : Chargeable Body) initial p (s s' : S) :
  published t (ledger s) = inr (ledger s') -> refines t initial p s (settle t initial p, s').
Proof.
  intros Hp. unfold refines. destruct (settle t initial p) as [t'|e|] eqn:E; [done| |done].
  destruct (settle_error t initial p e E) as [[v ->]| ->]; done.
Qed.

(** A step through the storage that fails ends the execution. *)
Ltac storage_step :=
  unfold query, change_, change;
  match goal with
  | |- context [ok_or ?o Exec_Storage] => destruct o eqn:?; cbn [ok_or]; [|exact I]
  | |- context [_ <$> storage_contract_insert ?s ?a ?b] =>
      destruct (storage_contract_insert s a b) eqn:?; cbn [fmap option_fmap option_map]; [|exact I]
  | |- context [_ <$> uploaded_bytecode_insert ?s ?a ?b] =>
      destruct (uploaded_bytecode_insert s a b) eqn:?; cbn [fmap option_fmap option_map]; [|exact I]
  | |- context [blob_data_replace ?s ?a ?b] => destruct (blob_data_replace s a b) as [[? ?]|] eqn:?; [|exact I]
  | |- context [set_consensus_parameters ?s ?a ?b] => destruct (set_consensus_parameters s a b) as [[? ?]|] eqn:?; [|exact I]
  | |- context [set_state_transition_bytecode ?s ?a ?b] => destruct (set_state_transition_bytecode s a b) as [[? ?]|] eqn:?; [|exact I]
  end.

#[export] Instance blob_lawful_publication : LawfulPublication BlobBody (fun _ => True).
Proof.
  intros S st laws t params initial p s _ ((blob & Hb & _) & _). cbn [publish blob_publication]. unfold blob_inner, xbind, xret.
  rewrite Hb. cbn [ok_or]. storage_step. match goal with E : blob_data_replace _ _ _ = _ |- _ => apply blob_law in E as [-> El] end.
  unfold panic_if, xret. cbn [published blob_publication]. case_bool_decide as Ho.
  - destruct Ho as [x Ho]. unfold refines. cbn [published blob_publication]. unfold blob_published. by rewrite Ho.
  - apply settle_refines. cbn [published blob_publication]. unfold blob_published. rewrite Hb, El.
    destruct (l_blobs (ledger s) !! blob_body_id (tx_body t)); [by destruct Ho|done].
Qed.
Lemma insert_slots_spec {S} `{LedgerLaws S} id slots : forall s : S,
  match insert_slots id slots s with
  | (Ok _, s') => ledger s' = with_slots (ledger s) (put_slots id slots (l_slots (ledger s)))
  | (Err e, _) => e = Exec_Storage
  | (Crash, _) => False
  end.
Proof.
  induction slots as [|sl slots IH]; intros s; cbn [insert_slots]; [cbn; by destruct (ledger s)|].
  unfold xbind, change_, change. destruct (contract_state_insert s id (slot_key sl) (slot_value sl)) as [s1|] eqn:E; cbn; [|done].
  apply slot_law in E. specialize (IH s1). destruct (insert_slots id slots s1) as [[[]|e|] s2]; [|done|done].
  rewrite IH, E. done.
Qed.

#[export] Instance create_lawful_publication : LawfulPublication CreateBody (fun _ => True).
Proof.
  intros S st laws t params initial p s _ Hk. destruct Hk as (code & m & Hcode & _ & _ & _ & _ & Hm & _).
  assert (Ht : contract_try_from t = Ok code) by (unfold contract_try_from; by rewrite Hcode).
  cbn [publish create_publication]. unfold deploy_inner, xbind, xret. rewrite Ht, Hm. cbn [omap_err]. storage_step.
  match goal with E : storage_contract_exists _ _ = _ |- _ => apply exists_law in E as -> end. unfold panic_if, xret.
  assert (Hpub : published t (ledger s) = created t (ledger s)) by done. unfold created in Hpub. rewrite Ht, Hm in Hpub.
  case_bool_decide as Ho.
  - destruct Ho as [x Ho]. unfold refines. rewrite Hpub. by rewrite Ho.
  - assert (Ho' : l_code (ledger s) !! cm_contract_id m = None) by (by apply eq_None_not_Some). rewrite Ho' in Hpub.
    unfold deploy_contract_with_id, xbind. storage_step. match goal with E : storage_contract_insert _ _ _ = Some ?s1 |- _ => rename s1 into s0; apply code_law in E end.
    pose proof (insert_slots_spec (cm_contract_id m) (storage_slots (tx_body t)) s0) as Hs.
    destruct (insert_slots _ _ s0) as [[[]|e|] s2]; [|by subst e|done]. apply settle_refines. rewrite Hpub, Hs. by match goal with E : ledger s0 = _ |- _ => rewrite E end.
Qed.

#[export] Instance upgrade_lawful_publication : LawfulPublication UpgradePurpose (fun _ => True).
Proof.
  intros S st laws t params initial p s _ (_ & Hk & _). cbn [publish upgrade_publication]. unfold upgrade_inner.
  assert (Hpub : published t (ledger s) = upgraded t (ledger s)) by done. unfold upgraded in Hpub.
  destruct (tx_body t) as [index checksum|root] eqn:Et; unfold xbind, xret.
  - destruct Hk as (w & Hw & Hsum & [params' Hd]).
    assert (Hm : upgrade_metadata t = Ok (UM_ConsensusParameters params' (sha256 w))).
    { unfold upgrade_metadata. rewrite Et, Hw. cbn [ok_or obind]. unfold ensure. rewrite bool_decide_true by done. cbn [obind]. by rewrite Hd. }
    rewrite Hm. cbn [omap_err get_consensus_parameters]. rewrite Hw in Hpub. cbn [mbind option_bind] in Hpub. rewrite Hd in Hpub.
    storage_step. match goal with E : consensus_parameters_version _ = _ |- _ => apply parameters_version_law in E as -> end.
    storage_step. match goal with E : set_consensus_parameters _ _ _ = _ |- _ => apply parameters_law in E as [-> El] end.
    unfold panic_if, xret. case_bool_decide as Ho.
    + destruct Ho as [x Ho]. rewrite Ho in Hpub. exact Hpub.
    + apply settle_refines. rewrite Hpub, El. destruct (l_parameters (ledger s) !! _); [by destruct Ho|done].
  - unfold contains_state_transition_bytecode_root, xbind, xret. storage_step.
    match goal with E : uploaded_bytecode_get _ _ = _ |- _ => apply upload_get_law in E as -> end. unfold panic_if, xret.
    destruct (l_uploads (ledger s) !! root) as [[b k|b]|] eqn:Eu; cbn [negb]; [exact Hpub| |exact Hpub].
    storage_step. match goal with E : state_transition_version _ = _ |- _ => apply transition_version_law in E as -> end.
    storage_step. match goal with E : set_state_transition_bytecode _ _ _ = _ |- _ => apply transition_law in E as [-> El] end.
    case_bool_decide as Ho.
    + destruct Ho as [x Ho]. rewrite Ho in Hpub. exact Hpub.
    + apply settle_refines. rewrite Hpub, El. destruct (l_transitions (ledger s) !! _); [by destruct Ho|done].
Qed.

(** The fields of an upload are words of sixteen bits, its siblings digests. *)
Definition upload_fields_ok (b : UploadBody) : Prop :=
  0 <= upload_subsection_index b < 2 ^ 16 /\ 0 <= upload_subsections_number b < 2 ^ 16 /\
  Forall (fun h => length h = 32%nat) (upload_proof_set b).

Lemma upload_proved t params :
  upload_fields_ok (tx_body t) -> kind_rules t params ->
  let b := tx_body t in
  exists part, witness_at (tx_witnesses t) (upload_witness_index b) = Some part /\
    upload_subsection_index b < upload_subsections_number b /\
    zlen (upload_proof_set b) = zlen (sides (upload_subsections_number b) (upload_subsection_index b)) /\
    climb (leaf_sum part) (sides (upload_subsections_number b) (upload_subsection_index b)) (upload_proof_set b) = upload_root b.
Proof.
  intros (Hi & Hn & _) (_ & (part & Hw & Hv) & _) b. fold b in Hw, Hv, Hi, Hn. exists part. split; [done|].
  rewrite verify_climb in Hv by lia. injection Hv as Hv. by apply bool_decide_eq_true in Hv.
Qed.

#[export] Instance upload_lawful_publication : LawfulPublication UploadBody upload_fields_ok.
Proof.
  intros S st laws t params initial p s Hb Hk. pose proof Hb as (Hi & Hn & _).
  destruct (upload_proved t params Hb Hk) as (part & Hw & Hlt & _).
  cbn [publish upload_publication]. unfold upload_inner, xbind, xret. storage_step.
  match goal with E : uploaded_bytecode_get _ _ = _ |- _ => apply upload_get_law in E as -> end.
  assert (Hpub : published t (ledger s) = uploaded t (ledger s)) by done. unfold uploaded, progress in Hpub. rewrite Hw in Hpub.
  assert (Hpart : forall bytes k, l_uploads (ledger s) !! upload_root (tx_body t) = Some (Uncompleted bytes k) \/
      l_uploads (ledger s) !! upload_root (tx_body t) = None /\ bytes = [] /\ k = 0 ->
    refines t initial p s (let '(r, s) := (upload_bytecode_subsection t bytes k, s) in
      match r with
      | Ok a => let '(r, s) := change_ (fun s => uploaded_bytecode_insert s (upload_root (tx_body t)) a) s in
          match r with Ok _ => (settle t initial p, s) | Err e => (Err e, s) | Crash => (Crash, s) end
      | Err e => (Err e, s)
      | Crash => (Crash, s)
      end)).
  { intros bytes k Hst. unfold upload_bytecode_subsection.
    assert (Hpub' : published t (ledger s) = if upload_subsection_index (tx_body t) =? k
      then inr (with_uploads (ledger s) (<[upload_root (tx_body t) :=
        if k + 1 =? upload_subsections_number (tx_body t) then Completed (bytes ++ part) else Uncompleted (bytes ++ part) (k + 1)]> (l_uploads (ledger s))))
      else inl ThePartIsNotSequentiallyConnected) by (destruct Hst as [Hst|(Hst & -> & ->)]; rewrite Hst in Hpub; exact Hpub).
    destruct (Z.eqb_spec (upload_subsection_index (tx_body t)) k) as [Ek|]; cbn [negb]; [|exact Hpub'].
    rewrite Hw. cbn [ok_or obind]. rewrite (proj2 (Z.ltb_lt (k + 1) _)) by lia. cbn [ok_or obind].
    rewrite (proj2 (Z.ltb_ge _ (k + 1))) by lia. rewrite Z.eqb_sym.
    destruct (k + 1 =? upload_subsections_number (tx_body t)); cbn iota beta; storage_step;
      (match goal with E : uploaded_bytecode_insert _ _ _ = _ |- _ => apply upload_law in E; apply settle_refines; by rewrite Hpub', E end). }
  destruct (l_uploads (ledger s) !! upload_root (tx_body t)) as [[bytes k|bytes]|] eqn:Eu; cbn [default].
  - apply (Hpart bytes k). by left.
  - exact Hpub.
  - apply (Hpart [] 0). by right.
Qed.
End Published.


(** ** Uploading a bytecode *)

Section Uploads.
Context `{Alloc} `{Sha256} `{ParametersDecoder} {S : Type} `{LedgerLaws S}.
(** The rules in force, the number of subsections each root is uploaded in, and the strings
    hashed. *)
Context (params : ConsensusParameters) (number : Bytes32 -> Z) (U : list byte -> Prop).

(** An execution of a valid transaction. *)
Inductive publication : S -> S -> Prop :=
| pub_create (t : Chargeable CreateBody) initial p t' s s' :
    kind_rules t params -> publish t initial p s = (Ok t', s') -> publication s s'
| pub_upgrade (t : Chargeable UpgradePurpose) initial p t' s s' :
    kind_rules t params -> publish t initial p s = (Ok t', s') -> publication s s'
| pub_blob (t : Chargeable BlobBody) initial p t' s s' :
    kind_rules t params -> publish t initial p s = (Ok t', s') -> publication s s'
| pub_upload (t : Chargeable UploadBody) initial p t' s s' :
    let b := tx_body t in
    upload_fields_ok b -> kind_rules t params -> upload_subsections_number b = number (upload_root b) ->
    Forall U (proof_inputs (default [] (witness_at (tx_witnesses t) (upload_witness_index b)))
      (sides (upload_subsections_number b) (upload_subsection_index b)) (upload_proof_set b)) ->
    publish t initial p s = (Ok t', s') -> publication s s'.

(** Subsections with proofs for the root. *)
Definition proved (root : Bytes32) (l : list (list byte)) : Prop := forall i d, zget l i = Some d ->
  exists proof, Forall (fun h => length h = 32%nat) proof /\ length proof = length (sides (number root) i) /\
    Forall U (proof_inputs d (sides (number root) i) proof) /\ climb (leaf_sum d) (sides (number root) i) proof = root.

Definition authentic (l : Ledger) : Prop := forall root u, l_uploads l !! root = Some u ->
  match u with
  | Uncompleted bytecode k => exists parts, zlen parts = k /\ k < number root /\ bytecode = concat parts /\ proved root parts
  | Completed bytecode => exists parts, zlen parts = number root /\ parts <> [] /\ bytecode = concat parts /\ proved root parts
  end.

Lemma published_Ok {Body} `{!ChargeableBody Body} `{!Publication Body} `{!KindRules Body} (body_ok : Body -> Prop)
    `{!LawfulPublication Body body_ok} (t : Chargeable Body) initial p (s s' : S) t' :
  body_ok (tx_body t) -> kind_rules t params -> publish t initial p s = (Ok t', s') -> published t (ledger s) = inr (ledger s').
Proof. intros Hb Hk E. pose proof (publish_refines S _ _ t params initial p s Hb Hk) as Hr. rewrite E in Hr. apply Hr. Qed.

Lemma proved_snoc root parts d proof :
  proved root parts -> Forall (fun h => length h = 32%nat) proof -> length proof = length (sides (number root) (zlen parts)) ->
  Forall U (proof_inputs d (sides (number root) (zlen parts)) proof) ->
  climb (leaf_sum d) (sides (number root) (zlen parts)) proof = root -> proved root (parts ++ [d]).
Proof.
  intros Hp Hf Hl HU Hc i x Hx. rewrite zget_app in Hx. destruct (Z.ltb_spec i (zlen parts)); [by apply Hp|].
  pose proof (zget_Some_len _ _ _ Hx) as Hi. change (zlen [d]) with 1 in Hi. assert (i = zlen parts) as -> by lia.
  rewrite Z.sub_diag in Hx. injection Hx as <-. by exists proof.
Qed.

Lemma uploads_authentic_step (s s' : S) : publication s s' -> authentic (ledger s) -> authentic (ledger s').
Proof.
  intros Hs Ha. assert (Hkeep : l_uploads (ledger s') = l_uploads (ledger s) -> authentic (ledger s')).
  { intros E root u Hu. rewrite E in Hu. by apply Ha. }
  destruct Hs as [t initial p t' s s' Hk E|t initial p t' s s' Hk E|t initial p t' s s' Hk E|t initial p t' s s' b Hb Hk Hn HU E].
  - apply (published_Ok (fun _ => True)) in E; [|done|done]. cbn in E. unfold created in E.
    destruct (contract_try_from t), (create_metadata t); try (apply Hkeep; congruence).
    destruct (l_code (ledger s) !! _); [done|]. injection E as E. apply Hkeep. by rewrite <- E.
  - apply (published_Ok (fun _ => True)) in E; [|done|done]. cbn in E. unfold upgraded in E. apply Hkeep.
    destruct (tx_body t); repeat case_match; try discriminate E; injection E as E; by rewrite <- E.
  - apply (published_Ok (fun _ => True)) in E; [|done|done]. cbn in E. unfold blob_published in E.
    destruct (l_blobs (ledger s) !! _); [done|]. injection E as E. apply Hkeep. by rewrite <- E.
  - apply (published_Ok upload_fields_ok) in E; [|done|done]. cbn in E. unfold uploaded in E. fold b in E.
    destruct (upload_proved t params Hb Hk) as (part & Hw & Hlt & Hlen & Hc). fold b in Hw, Hlt, Hlen, Hc.
    rewrite Hw in E, HU. cbn [default] in E, HU.
    destruct (progress (ledger s) (upload_root b)) as [[bytes k]|] eqn:Ep; [|done].
    destruct (Z.eqb_spec (upload_subsection_index b) k) as [Ek|]; [|done]. injection E as E.
    assert (Hparts : exists parts, zlen parts = k /\ bytes = concat parts /\ proved (upload_root b) parts).
    { unfold progress in Ep. destruct (l_uploads (ledger s) !! upload_root b) as [[bs j|]|] eqn:Eu; simplify_eq.
      - destruct (Ha _ _ Eu) as (parts & ? & _ & ? & ?). by exists parts.
      - exists []. split_and!; [done|done|]. intros i d Hd. apply zget_Some_len in Hd. change (zlen []) with 0 in Hd. lia. }
    destruct Hparts as (parts & Hz & -> & Hp).
    assert (Hp' : proved (upload_root b) (parts ++ [part])).
    { assert (Ez : zlen parts = upload_subsection_index b) by lia.
      apply (proved_snoc _ _ _ (upload_proof_set b)); rewrite ?Ez, <- ?Hn; [done|apply Hb|apply Nat2Z.inj; exact Hlen|done|done]. }
    assert (Hz' : zlen (parts ++ [part]) = k + 1) by (rewrite zlen_app, Hz; done).
    assert (Econ : concat (parts ++ [part]) = concat parts ++ part) by (rewrite concat_app; cbn; by rewrite app_nil_r).
    intros root u Hu. rewrite <- E in Hu. cbn [l_uploads with_uploads] in Hu. destruct (decide (upload_root b = root)) as [<-|Hne].
    + rewrite lookup_insert_eq in Hu. injection Hu as <-. destruct (Z.eqb_spec (k + 1) (upload_subsections_number b)) as [Ek'|Hne'].
      * exists (parts ++ [part]). split_and!; [lia|by destruct parts|done|done].
      * exists (parts ++ [part]). split_and!; [done|lia|done|done].
    + rewrite lookup_insert_ne in Hu by done. by apply Ha.
Qed.
End Uploads.

(** From a ledger without uploads, whatever valid create, upgrade, blob and upload
    transactions are executed, in any order and for any number of roots, if all the uploads for a
    root announce the same number of subsections, a bytecode that is completed consists of that
    many subsections whose Merkle root is the root it is stored under, unless two of the
    strings hashed for the proofs collide. *)
Theorem uploads_authentic `{Alloc} `{Sha256} `{ParametersDecoder} {S : Type} `{LedgerLaws S} (params : ConsensusParameters)
    (number : Bytes32 -> Z) (U : list byte -> Prop) (s0 s : S) (root : Bytes32) (bytecode : list byte) :
  (forall l, length (sha256 l) = 32%nat) -> ~ collides U -> l_uploads (ledger s0) = ∅ ->
  rtc (publication params number U) s0 s -> l_uploads (ledger s) !! root = Some (Completed bytecode) ->
  exists parts, bytecode = concat parts /\ zlen parts = number root /\ mth parts = root.
Proof.
  intros Hsha HU Hempty Hrun Hc. assert (Ha : authentic number U (ledger s)).
  { revert Hrun. apply (rtc_ind_r (fun s => authentic number U (ledger s))).
    - intros r u Hu. rewrite Hempty in Hu. done.
    - intros x y _ Hxy. by apply (uploads_authentic_step params). }
  destruct (Ha root _ Hc) as (parts & Hz & Hne & -> & Hp). exists parts. split_and!; [done|done|]. symmetry.
  apply (climbs_determine Hsha U); [done|done|]. rewrite Hz. exact Hp.
Qed.
