(* ===== verification/Upload.v ===== *)
(** * Splitting a bytecode and uploading it

    [UploadSubsection::split_bytecode] (src/fuel-tx/src/transaction/types/upload.rs) and
    [Transaction::upload_from_subsection] (src/fuel-tx/src/transaction.rs), composed with the
    Merkle tree they use (BinaryTree) and the execution of the transactions they make (TxExec). *)

From Stdlib Require Import Strings.Byte.
From S2P Require Import Prelude Sparse SparseSpec Asm Merkle MerkleProof BinaryTree Receipts Memory State Gas Blockchain Canonical TxTypes.
From S2P Require Import TxCodec TxInput TxId TxSign TxFee TxBalances TxValidity TxExec.

Record UploadSubsection : Type := mkUploadSubsection {
  us_root : Bytes32;
  us_subsection : list byte;
  us_subsection_index : Z;
  us_subsections_number : Z;
  us_proof_set : list Bytes32
}.
Inductive SplitError : Type := SubsectionSizeTooSmall.

Section Split.
Context `{Sha256}.

(** [in_memory::MerkleTree::push] drops the result. *)
Definition in_memory_push (t : MerkleTree) (data : list byte) : MerkleTree := (tree_push t data).2.

(** The proofs of the subsections. *)
Fixpoint prove_subsections (t : MerkleTree) (root : Bytes32) (number index : Z) (l : list (list byte))
  : outcome SplitError (list UploadSubsection) :=
  match l with
  | [] => Ok []
  | subsection :: rest =>
      match prove t index with
      | Ok (_, proof_set) =>
          let? subsections := prove_subsections t root number (index + 1) rest in
          Ok (mkUploadSubsection root subsection index number proof_set :: subsections)
      | _ => Crash
      end
  end.

(** [chunks] panics on a size of zero. *)
Definition split_bytecode (bytecode : list byte) (subsection_size : Z) : outcome SplitError (list UploadSubsection) :=
  if subsection_size =? 0 then Crash
  else
    let subsections := chunks subsection_size bytecode in
    if 2 ^ 16 - 1 <? zlen subsections then Err SubsectionSizeTooSmall
    else
      let merkle_tree := fold_left in_memory_push subsections tree_new in
      match tree_root merkle_tree with
      | Ok merkle_root => prove_subsections merkle_tree merkle_root (zlen subsections) 0 subsections
      | _ => Crash
      end.
End Split.

Definition upload_from_subsection (subsection : UploadSubsection) (policies : Policies) (inputs : list Input)
    (outputs : list Output) (witnesses : list (list byte)) : Chargeable UploadBody :=
  mkChargeable
    (mkUploadBody (us_root subsection) (Z.min (zlen witnesses) (2 ^ 16 - 1)) (us_subsection_index subsection)
      (us_subsections_number subsection) (us_proof_set subsection))
    policies inputs outputs (witnesses ++ [us_subsection subsection]).

(** Executing uploads one after the other. *)
Fixpoint upload_all `{Alloc} {S} `{LedgerStorage S} (l : list (Chargeable UploadBody)) (initial : InitialBalances) (p : ExecParams)
  : X S unit :=
  match l with
  | [] => xret (Ok tt)
  | t :: rest => xbind (upload_inner t initial p) (fun _ => upload_all rest initial p)
  end.

(** ** Splitting *)

Lemma chunks_fuel_concat {A} (n : nat) : (0 < n)%nat -> forall fuel (l : list A),
  (length l <= fuel)%nat -> concat (chunks_fuel fuel n l) = l.
Proof.
  intros Hn. induction fuel as [|fuel IH]; intros [|a l] Hf; try done; [cbn in Hf; lia|].
  cbn [chunks_fuel concat]. rewrite IH, take_drop; [done|]. rewrite length_drop. cbn in *. lia.
Qed.
Lemma chunks_concat {A} n (l : list A) : 0 < n -> concat (chunks n l) = l.
Proof. intros Hn. apply chunks_fuel_concat; lia. Qed.

Section SplitSpec.
Context `{Sha256}.

Lemma in_memory_push_all l : forall t t', push_all t l = (Ok tt, t') -> fold_left in_memory_push l t = t'.
Proof.
  induction l as [|d l IH]; intros t t'; cbn [push_all fold_left]; [by intros [= ->]|]. unfold in_memory_push at 2.
  destruct (tree_push t d) as [[[]|e|] t1]; cbn; [by apply IH|done|done].
Qed.

Definition subsection_at (leaves : list (list byte)) (i : Z) (d : list byte) : UploadSubsection :=
  mkUploadSubsection (mth leaves) d i (zlen leaves) (audit leaves i).

Lemma prove_subsections_spec leaves t l : forall pre,
  represents leaves t -> zlen leaves < 2 ^ 63 -> leaves = pre ++ l ->
  prove_subsections t (mth leaves) (zlen leaves) (zlen pre) l = Ok (imap (fun k d => subsection_at leaves (zlen pre + Z.of_nat k) d) l).
Proof.
  induction l as [|d l IH]; intros pre Ht Hlen E; cbn [prove_subsections]; [done|].
  assert (Hi : zlen pre < zlen leaves) by (rewrite E, zlen_app; unfold zlen; cbn; lia).
  pose proof (zlen_nonneg pre). rewrite (prove_spec leaves t _ Ht Hlen), (proj2 (Z.ltb_lt _ _)) by lia.
  assert (Ez : zlen (pre ++ [d]) = zlen pre + 1) by (rewrite zlen_app; done). rewrite <- Ez.
  rewrite (IH (pre ++ [d]) Ht Hlen) by (by rewrite E, <- app_assoc). cbn [obind]. f_equal. cbn [imap]. f_equal.
  - by rewrite Z.add_0_r.
  - apply imap_ext. intros k x _. unfold compose. rewrite Ez. f_equal. lia.
Qed.

Lemma split_bytecode_spec bytecode size :
  0 < size -> zlen (chunks size bytecode) < 2 ^ 16 ->
  let leaves := chunks size bytecode in
  split_bytecode bytecode size = Ok (imap (fun k d => subsection_at leaves (Z.of_nat k) d) leaves).
Proof.
  intros Hsize Hn leaves. unfold split_bytecode. fold leaves in Hn |- *. rewrite (proj2 (Z.eqb_neq _ _)), (proj2 (Z.ltb_ge _ _)) by lia.
  destruct (push_all_spec leaves [] tree_new represents_new) as (t & E & Ht); [cbn; lia|]. cbn [app] in Ht.
  rewrite (in_memory_push_all _ _ _ E), (tree_root_spec leaves t Ht) by lia.
  exact (prove_subsections_spec leaves t leaves [] Ht ltac:(lia) eq_refl).
Qed.
End SplitSpec.

(** ** Uploading *)

Section UploadSpec.
Context `{Alloc} `{Sha256}.
Context (policies : Policies) (inputs : list Input) (outputs : list Output) (witnesses : list (list byte)).
Context (initial : InitialBalances) (p : ExecParams).
Hypothesis Hwit : zlen witnesses < 2 ^ 16.

Let tx_of (sub : UploadSubsection) := upload_from_subsection sub policies inputs outputs witnesses.

Lemma progress_default l root bytes k :
  progress l root = Some (bytes, k) -> default (Uncompleted [] 0) (l_uploads l !! root) = Uncompleted bytes k.
Proof. unfold progress. by destruct (l_uploads l !! root) as [[]|]; intros; simplify_eq. Qed.

Lemma progress_new l root : l_uploads l !! root = None -> progress l root = Some ([], 0).
Proof. unfold progress. by intros ->. Qed.

Lemma upload_next leaves i d l bytes :
  progress l (mth leaves) = Some (bytes, i) -> 0 <= i < zlen leaves -> zlen leaves < 2 ^ 16 ->
  (exists t', settle (tx_of (subsection_at leaves i d)) initial p = Ok t') ->
  exists t', upload_inner (tx_of (subsection_at leaves i d)) initial p l = (Ok t',
    with_uploads l (<[mth leaves := if i + 1 =? zlen leaves then Completed (bytes ++ d) else Uncompleted (bytes ++ d) (i + 1)]> (l_uploads l))).
Proof.
  intros Hp Hi Hn [t' Ht']. exists t'. pose proof (zlen_nonneg witnesses).
  assert (Hw : witness_at (tx_witnesses (tx_of (subsection_at leaves i d))) (upload_witness_index (tx_body (tx_of (subsection_at leaves i d)))) = Some d).
  { unfold witness_at. cbn. rewrite Z.min_l by lia. rewrite zget_app, Z.ltb_irrefl, Z.sub_diag. done. }
  set (t := tx_of (subsection_at leaves i d)) in *.
  assert (Hsub : upload_bytecode_subsection t bytes i =
    Ok (if i + 1 =? zlen leaves then Completed (bytes ++ d) else Uncompleted (bytes ++ d) (i + 1))).
  { unfold upload_bytecode_subsection. rewrite Hw. change (upload_subsection_index (tx_body t)) with i.
    change (upload_subsections_number (tx_body t)) with (zlen leaves). rewrite Z.eqb_refl. cbn [negb ok_or obind].
    rewrite (proj2 (Z.ltb_lt (i + 1) _)) by lia. cbn [ok_or obind]. rewrite (proj2 (Z.ltb_ge (zlen leaves) _)), (Z.eqb_sym (zlen leaves)) by lia.
    by destruct (i + 1 =? zlen leaves). }
  unfold upload_inner, xbind, query, xret. change (upload_root (tx_body t)) with (mth leaves).
  cbn [uploaded_bytecode_get memory_ledger ok_or].
  match goal with |- context [default ?a ?x] => rewrite (progress_default l (mth leaves) bytes i Hp : default a x = _) end.
  rewrite Hsub. unfold change_, change. cbn. by rewrite Ht'.
Qed.

Lemma upload_rest leaves rest : forall pre l,
  leaves = pre ++ rest -> rest <> [] -> zlen leaves < 2 ^ 16 -> progress l (mth leaves) = Some (concat pre, zlen pre) ->
  (forall i d, zget leaves i = Some d -> exists t', settle (tx_of (subsection_at leaves i d)) initial p = Ok t') ->
  exists l', upload_all (map tx_of (imap (fun k d => subsection_at leaves (zlen pre + Z.of_nat k) d) rest)) initial p l = (Ok tt, l') /\
    l_uploads l' = <[mth leaves := Completed (concat leaves)]> (l_uploads l).
Proof.
  induction rest as [|d rest IH]; intros pre l E Hne Hn Hp Hset; [done|]. cbn [imap map upload_all]. rewrite Z.add_0_r.
  assert (Hi : 0 <= zlen pre < zlen leaves) by (pose proof (zlen_nonneg pre); rewrite E, zlen_app; unfold zlen; cbn; lia).
  assert (Hd : zget leaves (zlen pre) = Some d) by (rewrite E, zget_app, Z.ltb_irrefl, Z.sub_diag; done).
  destruct (upload_next leaves (zlen pre) d l _ Hp Hi Hn (Hset _ _ Hd)) as (t' & Eu). unfold xbind. rewrite Eu.
  assert (Ez : zlen (pre ++ [d]) = zlen pre + 1) by (rewrite zlen_app; done).
  assert (Ec : concat (pre ++ [d]) = concat pre ++ d) by (rewrite concat_app; cbn; by rewrite app_nil_r).
  destruct rest as [|d' rest].
  - assert (zlen leaves = zlen pre + 1) as Hz by (by rewrite E). rewrite Hz, Z.eqb_refl. cbn [imap map upload_all].
    unfold xret. eexists. split; [done|]. cbn [l_uploads with_uploads]. by rewrite E, Ec.
  - assert (Hz : zlen pre + 1 <> zlen leaves) by (rewrite E, zlen_app; unfold zlen; cbn; lia).
    rewrite (proj2 (Z.eqb_neq _ _) Hz). set (l1 := with_uploads l _).
    destruct (IH (pre ++ [d]) l1) as (l' & Er & El); [by rewrite E, <- app_assoc|done|done| |done|].
    { unfold progress, l1. cbn [l_uploads with_uploads]. rewrite lookup_insert_eq, Ez, Ec. done. }
    exists l'. split.
    + rewrite <- Er. f_equal. f_equal. apply imap_ext. intros k x _. unfold compose. rewrite Ez. f_equal. lia.
    + rewrite El. unfold l1. cbn [l_uploads with_uploads]. by rewrite insert_insert_eq.
Qed.
End UploadSpec.

(** C17: splitting a bytecode and uploading its subsections round trips. Any non-empty bytecode
    is split into subsections of the given size if there are fewer than 2^16 of them; each comes
    with a proof that the validity check accepts for the common root. Executing the
    transactions made from them, in order, on a ledger that has nothing for this root, with
    outputs that can be filled in, completes the upload: exactly the bytecode is stored under the
    root, and nothing else is uploaded. *)
Theorem split_upload_roundtrip `{Alloc} `{Sha256} (bytecode : list byte) (size : Z) (policies : Policies) (inputs : list Input)
    (outputs : list Output) (witnesses : list (list byte)) (initial : InitialBalances) (p : ExecParams) (l : Ledger) :
  0 < size -> bytecode <> [] -> zlen (chunks size bytecode) < 2 ^ 16 -> zlen witnesses < 2 ^ 16 ->
  let tx_of sub := upload_from_subsection sub policies inputs outputs witnesses in
  (forall i d, zget (chunks size bytecode) i = Some d ->
    exists t', settle (tx_of (subsection_at (chunks size bytecode) i d)) initial p = Ok t') ->
  l_uploads l !! mth (chunks size bytecode) = None ->
  exists subs l', split_bytecode bytecode size = Ok subs /\
    Forall (fun sub => us_root sub = mth (chunks size bytecode) /\
      MerkleProof.verify (us_root sub) (us_subsection sub) (us_proof_set sub) (us_subsection_index sub) (us_subsections_number sub) = Ok true) subs /\
    upload_all (map tx_of subs) initial p l = (Ok tt, l') /\
    l_uploads l' = <[mth (chunks size bytecode) := Completed bytecode]> (l_uploads l).
Proof.
  intros Hsize Hne Hn Hwit tx_of Hset Hnew. set (leaves := chunks size bytecode) in *.
  assert (Hcat : concat leaves = bytecode) by (by apply chunks_concat).
  assert (Hl : leaves <> []) by (intros E; apply Hne; by rewrite <- Hcat, E).
  destruct (upload_rest policies inputs outputs witnesses initial p Hwit leaves leaves [] l eq_refl Hl Hn) as (l' & E & El).
  { by apply progress_new. }
  { exact Hset. }
  eexists _, l'. split; [by apply split_bytecode_spec|]. split_and!; [|exact E|by rewrite El, Hcat].
  apply Forall_forall. intros sub (k & d & -> & Hd)%elem_of_lookup_imap_1. split; [done|]. cbn.
  apply verify_accepts; [|unfold leaves in Hn; lia]. unfold zget. rewrite (proj2 (Z.ltb_ge _ _)), Nat2Z.id by lia. done.
Qed.

(** ** Examples *)

Module UploadExample.
#[local] Instance sha : Sha256 := SparseExamples.checksum.
#[local] Instance alloc : Alloc := TxExample.exact_alloc.
#[local] Instance decoder : ParametersDecoder := fun _ => None.

Definition base : AssetId := TxExample.b32 x00.
(** Any limits that are large enough. *)
Definition params : ConsensusParameters :=
  mkConsensusParameters (mkTxParameters 8 8 8 1000000 10000 16) (mkPredicateParameters 1000 1000 1000 100000)
    (mkScriptParameters 1000 1000) (mkContractParameters 1000 10) FeeExample.params 1 FeeExample.costs base 1000000 (TxExample.b32 x02).
Definition exec_params : ExecParams := mkExecParams FeeExample.costs FeeExample.params base 0.
Definition coin_input : Input := Input_CoinSigned (mkCoin (mkUtxoId (TxExample.b32 x01) 3) (TxExample.b32 x02) 1000 base tx_pointer_default 0 mkEmpty mkEmpty mkEmpty).
Definition policies : Policies := mkPolicies 8 [0; 0; 0; 5; 0].
Definition initial : InitialBalances := mkInitialBalances {[ base := 995 ]} (Some (0, base)).
Definition empty_ledger : Ledger := mkLedger ∅ ∅ ∅ ∅ ∅ ∅ 0 0.

(** A subsection as a transaction. *)
Definition upload (root : Bytes32) (part : list byte) (index number : Z) (proof : list Bytes32) : Chargeable UploadBody :=
  upload_from_subsection (mkUploadSubsection root part index number proof) policies [coin_input] [] [].

(** Five subsections, and uploads of the first, the second and the last one. *)
Definition parts : list (list byte) := [[x0a]; [x0b]; [x0c]; [x0d]; [x0e]].
Definition root5 : Bytes32 := mth parts.
Definition first : Chargeable UploadBody := upload root5 [x0a] 0 5 (audit parts 0).
Definition second : Chargeable UploadBody := upload root5 [x0b] 1 5 (audit parts 1).
Definition last : Chargeable UploadBody := upload root5 [x0e] 2 3 [mth (take 4 parts)].

(** A bytecode of one subsection. *)
Definition single : Chargeable UploadBody := upload (leaf_sum [x0a]) [x0a] 0 1 [].
Definition single_inputs (x : list byte) : Prop := x = [PREFIX_LEAF] ++ [x0a].
Lemma single_rules : kind_rules single params.
Proof. apply unique_rules_exact. vm_compute. done. Qed.
Lemma single_fields : upload_fields_ok (tx_body single).
Proof. split_and!; [done|done|done|done|constructor]. Qed.
Lemma single_free : ~ collides single_inputs.
Proof. intros (x & y & -> & -> & Hne & _). done. Qed.
Definition after_single : Ledger := (@publish _ _ _ _ (@upload_publication _ _ _) Ledger memory_ledger single initial exec_params empty_ledger).2.
Lemma single_step : publication params (fun _ => 1) single_inputs empty_ledger after_single.
Proof.
  assert (E : exists t', publish single initial exec_params empty_ledger = (Ok t', after_single)) by (vm_compute; by eexists).
  destruct E as [t' E]. apply (pub_upload params (fun _ => 1) single_inputs single initial exec_params t');
    [apply single_fields|apply single_rules|done|by constructor|exact E].
Qed.

Definition blob : Chargeable BlobBody := mkChargeable (mkBlobBody (sha256 [x01; x02]) 0) policies [coin_input] [] [[x01; x02]].
Lemma blob_ok : kind_rules blob params.
Proof. apply unique_rules_exact. vm_compute. done. Qed.
End UploadExample.

(** The number of subsections is not part of what a root commits to. Three uploads under the
    root of five subsections, each of which passes the validity check, complete a bytecode of
    three subsections that is not the one the root stands for: the first two announce five
    subsections, the last one announces three, and proves the fifth subsection as the third. *)
Theorem mixed_uploads_wrong_bytecode :
  let check t := @check_without_signatures UploadExample.alloc UploadExample.sha UploadExample.decoder (Tx_Upload t) 10 UploadExample.params in
  check UploadExample.first = Ok tt /\ check UploadExample.second = Ok tt /\ check UploadExample.last = Ok tt /\
  match @upload_all UploadExample.alloc Ledger memory_ledger [UploadExample.first; UploadExample.second; UploadExample.last]
    UploadExample.initial UploadExample.exec_params UploadExample.empty_ledger with
  | (Ok _, l) => l_uploads l !! UploadExample.root5 = Some (Completed [x0a; x0b; x0e]) /\
      concat UploadExample.parts <> [x0a; x0b; x0e]
  | _ => False
  end.
Proof. vm_compute. split_and!; done. Qed.

Lemma uploads_authentic_witness :
  l_uploads UploadExample.after_single !! @leaf_sum UploadExample.sha [x0a] = Some (Completed [x0a]) /\
  exists parts, [x0a] = concat parts /\ zlen parts = 1 /\ @mth UploadExample.sha parts = @leaf_sum UploadExample.sha [x0a].
Proof.
  assert (E : l_uploads UploadExample.after_single !! @leaf_sum UploadExample.sha [x0a] = Some (Completed [x0a])) by (vm_compute; reflexivity).
  split; [exact E|].
  exact (@uploads_authentic UploadExample.alloc UploadExample.sha UploadExample.decoder Ledger memory_ledger memory_ledger_laws
    UploadExample.params (fun _ => 1) UploadExample.single_inputs UploadExample.empty_ledger UploadExample.after_single
    (@leaf_sum UploadExample.sha [x0a]) [x0a] SparseExamples.checksum_length UploadExample.single_free eq_refl
    (rtc_once _ _ UploadExample.single_step) E).
Defined.


Lemma split_upload_roundtrip_witness :
  exists subs l', @split_bytecode UploadExample.sha [x01; x02; x03] 2 = Ok subs /\
    @upload_all UploadExample.alloc Ledger memory_ledger
      (map (fun sub => upload_from_subsection sub UploadExample.policies [UploadExample.coin_input] [] []) subs)
      UploadExample.initial UploadExample.exec_params UploadExample.empty_ledger = (Ok tt, l') /\
    l_uploads l' !! @mth UploadExample.sha [[x01; x02]; [x03]] = Some (Completed [x01; x02; x03]).
Proof.
  pose proof (@split_upload_roundtrip UploadExample.alloc UploadExample.sha [x01; x02; x03] 2 UploadExample.policies
    [UploadExample.coin_input] [] [] UploadExample.initial UploadExample.exec_params UploadExample.empty_ledger) as Hr.
  cbn zeta in Hr. destruct Hr as (subs & l' & E1 & _ & E2 & E3); [lia|discriminate|reflexivity|reflexivity| |reflexivity|].
  - intros i d Hd. assert (Hi := zget_Some_len _ _ _ Hd). change (zlen (chunks 2 [x01; x02; x03])) with 2 in Hi.
    assert (i = 0 \/ i = 1) as [-> | ->] by lia; vm_compute in Hd; injection Hd as <-; vm_compute; by eexists.
  - exists subs, l'. split; [exact E1|]. split; [exact E2|].
    change (chunks 2 [x01; x02; x03]) with [[x01; x02]; [x03]] in E3. rewrite E3. apply lookup_insert_eq.
Defined.
