(* ===== verification/Transact.v ===== *)
(** * Executing ready transactions

    The entry points of the machine: [transact], [run] and the end of [run_program] for
    scripts, [deploy], [upgrade], [upload] and [blob] without a machine (src/fuel-vm/src/
    interpreter/executors/main.rs), writing the settled outputs back to memory
    (src/fuel-vm/src/interpreter/internal.rs), and [Transactor::transact] on checked transactions
    (src/fuel-vm/src/transactor.rs).

    Here the parts of the development meet: a transaction that was checked (Checked) and is ready
    starts the machine (Init), runs within its gas (Run, Ending), and its outputs are settled
    (TxBalances) for the transaction as prepared for signing (Prepared). What the code reads from
    the interpreter and the records of the model do not hold, the fee parameters and the height of
    the block that the storage answers, is an argument. After an error the state of the machine
    is not part of the result. *)

From Stdlib Require Import Strings.Byte.
From S2P Require Import Prelude Asm Merkle Receipts Memory State Gas Alu MemOps WideInt Storage MemStorage SlotStorage Flow Calls.
From S2P Require Import Blockchain Crypto Opcodes Steps Run Ending.
From S2P Require Import Canonical TxTypes TxCodec TxInput TxId TxSign TxFee TxOffsets TxFieldBytes Gtf TxBalances Init.
From S2P Require Import Prepared TxValidity Predicates Checked TxExec.

(** [InterpreterError], the variants that arise here. *)
Inductive TransactError : Type :=
| Transact_Interpreter (e : InterpreterError)
| Transact_CheckError (e : CheckError)
| Transact_WrongGasPrice (expected actual : Z).
Definition transact_from_runtime (e : RuntimeError) : TransactError := Transact_Interpreter (interpreter_error_from e).
Definition transact_from_init (e : InitError) : TransactError :=
  match e with
  | Init_Runtime e => transact_from_runtime e
  | Init_Validity e => Transact_CheckError (Check_Validity e)
  end.
Definition transact_from_exec (e : ExecutionError) : TransactError :=
  match e with
  | Exec_Panic r => Transact_Interpreter (IE_Panic r)
  | Exec_Bug b => Transact_Interpreter (IE_Bug b)
  | Exec_Storage => Transact_Interpreter IE_Storage
  | Exec_Validity e => Transact_CheckError (Check_Validity e)
  | Exec_WrongGasPrice expected actual => Transact_WrongGasPrice expected actual
  end.

(** A result that does not need the machine to run. *)
Definition finish {A} (x : outcome TransactError A) : RunOutcome (outcome TransactError A) :=
  match x with Crash => HostPanic | _ => Finished x end.

Definition is_revert (state : ProgramState) : bool := match state with PS_Revert _ => true | _ => false end.

(** ** Outputs in memory *)

Section Outputs.
Context `{Alloc} {Body : Type} `{!BodyOffset Body}.
Implicit Types (tx : Chargeable Body) (m : MemoryInstance).

Definition absolute_output_offset tx (tx_offset idx : Z) : option Z :=
  (fun offset => saturating_add tx_offset offset) <$> outputs_offset_at tx idx.
Definition absolute_output_mem_range tx (tx_offset idx : Z) : option MemoryRange :=
  match absolute_output_offset tx tx_offset idx, zget (tx_outputs tx) idx with
  | Some offset, Some output => Some (mkRange offset (saturating_add offset (size c_output output)))
  | _, _ => None
  end.

(** [Serialize::encode] into a slice of memory: an error if the bytes do not fit. *)
Definition encode_to_slice m (s : SliceMut) (bs : list byte) : outcome RuntimeError MemoryInstance :=
  if slice_len s <? zlen bs then Crash
  else omap_err Recoverable (slice_copy_from_slice m (mkSlice (s_region s) (s_start s) (s_start s + zlen bs)) bs).
Definition update_memory_output tx (tx_offset idx : Z) m : outcome RuntimeError MemoryInstance :=
  let? range := ok_or (absolute_output_mem_range tx tx_offset idx) (Recoverable OutputNotFound) in
  let? mem := omap_err Recoverable (write_noownerchecks m (r_start range) (Z.max 0 (r_end range - r_start range))) in
  let? output := expect (zget (tx_outputs tx) idx) in
  let? bs := expect_bytes (encode c_output output) in
  encode_to_slice m mem bs.

Fixpoint update_memory_outputs tx (tx_offset : Z) (indices : list Z) m : outcome RuntimeError MemoryInstance :=
  match indices with
  | [] => Ok m
  | idx :: rest => let? m := update_memory_output tx tx_offset idx m in update_memory_outputs tx tx_offset rest m
  end.
End Outputs.

(** ** Running *)

Section Transact.
Context `{Alloc} `{Sha256} `{Powf} `{WideLib} `{Crypto} {S : Type} `{InterpreterStorage S} `{LedgerStorage S}.

Definition update_transaction_outputs {Body} `{!BodyOffset Body} (machine : Machine S Body)
  : outcome TransactError (Machine S Body) :=
  let vm := m_vm machine in
  let? m := omap_err transact_from_runtime
    (update_memory_outputs (m_tx machine) (tx_offset (interpreter_params vm)) (seqZ 0 (zlen (tx_outputs (m_tx machine)))) (memory vm)) in
  Ok (mkMachine (set_memory vm m) (m_tx machine) (m_contract_outputs machine) (m_initial_balances machine)).
Definition with_vm {Body} (machine : Machine S Body) (vm : Interpreter S) : Machine S Body :=
  mkMachine vm (m_tx machine) (m_contract_outputs machine) (m_initial_balances machine).
Definition with_tx {Body} (machine : Machine S Body) (tx : Chargeable Body) : Machine S Body :=
  mkMachine (m_vm machine) tx (m_contract_outputs machine) (m_initial_balances machine).

(** [*script.receipts_root_mut() = self.receipts.root()] *)
Definition with_receipts_root (tx : Chargeable ScriptBody) (root : Bytes32) : Chargeable ScriptBody :=
  let b := tx_body tx in
  mkChargeable (mkScriptBody (script_gas_limit b) root (script b) (script_data b)) (tx_policies tx) (tx_inputs tx)
    (tx_outputs tx) (tx_witnesses tx).

(** The end of [run_program]: the outputs and the receipts root *)
Definition finalize_script (fee : FeeParameters) (state : ProgramState) (machine : Machine S ScriptBody)
  : outcome TransactError (ProgramState * Machine S ScriptBody) :=
  let vm := m_vm machine in
  let p := interpreter_params vm in
  let gas_limit := script_gas_limit (tx_body (m_tx machine)) in
  let? gas_used := ok_or (checked_sub gas_limit (remaining_gas vm)) (Transact_Interpreter (IE_Bug GlobalGasUnderflow)) in
  let? tx := omap_err transact_from_runtime
    (finalize_outputs (m_tx machine) (param_gas_costs p) fee (base_asset_id p) (is_revert state) gas_used
      (m_initial_balances machine) (balances vm) (State.gas_price p)) in
  let? machine := update_transaction_outputs (with_tx machine tx) in
  match receipts_root (receipts vm) with
  | Ok root => Ok (state, with_tx machine (with_receipts_root (m_tx machine) root))
  | _ => Crash
  end.
Definition run_script (fuel : nat) (fee : FeeParameters) (machine : Machine S ScriptBody)
  : RunOutcome (outcome TransactError (ProgramState * Machine S ScriptBody)) :=
  let b := tx_body (m_tx machine) in
  match run_program (bool_decide (script b = [])) (script_gas_limit b) fuel (m_vm machine) with
  | (Finished state, vm) => finish (finalize_script fee state (with_vm machine vm))
  | (Failed e, _) => Finished (Err (Transact_Interpreter e))
  | (HostPanic, _) => HostPanic
  | (Outside o, _) => Outside o
  | (OutOfFuel, _) => OutOfFuel
  end.

(** The other kinds run no program. *)
Definition exec_params (fee : FeeParameters) (vm : Interpreter S) : ExecParams :=
  let p := interpreter_params vm in mkExecParams (param_gas_costs p) fee (base_asset_id p) (State.gas_price p).
Definition run_publication {Body} `{!ParametersDecoder} `{!Publication Body} `{!BodyOffset Body} (fee : FeeParameters)
    (machine : Machine S Body) : RunOutcome (outcome TransactError (ProgramState * Machine S Body)) :=
  let vm := m_vm machine in
  let (r, s) := publish (m_tx machine) (m_initial_balances machine) (exec_params fee vm) (storage vm) in
  finish (
    let? tx := omap_err transact_from_exec r in
    let? machine := update_transaction_outputs (with_tx (with_vm machine (set_storage vm s)) tx) in
    Ok (PS_Return 1, machine)).

(** How [run] goes on, by the kind of the transaction *)
Class Runnable (Body : Type) : Type :=
  run_body : nat -> FeeParameters -> Machine S Body -> RunOutcome (outcome TransactError (ProgramState * Machine S Body)).
#[export] Instance script_runnable : Runnable ScriptBody := run_script.
#[export] Instance publication_runnable {Body} `{!ParametersDecoder} `{!Publication Body} `{!BodyOffset Body} : Runnable Body :=
  fun _ fee machine => run_publication fee machine.

(** The input contracts exist. *)
Fixpoint check_contracts (s : S) (inputs : list Input) : outcome TransactError unit :=
  match inputs with
  | [] => Ok tt
  | Input_Contract c :: rest =>
      let? exists_ := ok_or (storage_contract_exists s (inc_contract_id c)) (Transact_Interpreter IE_Storage) in
      if exists_ : bool then check_contracts s rest else Err (Transact_Interpreter (IE_Panic InputContractDoesNotExist))
  | _ :: rest => check_contracts s rest
  end.

Section Body.
Context {Body : Type} `{!ChargeableBody Body} `{!PrepareSign Body} `{!BodyOffset Body} `{!ExecutableBody Body} `{!CheckedBody Body}.

Definition run `{!Runnable Body} (fuel : nat) (fee : FeeParameters) (machine : Machine S Body)
  : RunOutcome (outcome TransactError (ProgramState * Machine S Body)) :=
  match check_contracts (storage (m_vm machine)) (tx_inputs (m_tx machine)) with
  | Ok _ => run_body fuel fee machine
  | Err e => Finished (Err e)
  | Crash => HostPanic
  end.

Definition gas_price_matches (ready : Ready Body) (vm : Interpreter S) : outcome TransactError unit :=
  let expected := State.gas_price (interpreter_params vm) in
  if Checked.gas_price ready =? expected then Ok tt else Err (Transact_WrongGasPrice expected (Checked.gas_price ready)).
Definition verify_ready_tx (ready : Ready Body) (vm : Interpreter S) : outcome TransactError unit := gas_price_matches ready vm.

Definition transact `{!Runnable Body} (fuel : nat) (fee : FeeParameters) (block_height : option Z) (ready : Ready Body)
    (vm : Interpreter S) : RunOutcome (outcome TransactError (ProgramState * Machine S Body)) :=
  match verify_ready_tx ready vm with
  | Ok _ =>
      let '(_, c) := Check.decompose ready in
      match init_script body_codec block_height (transaction c) (metadata_balances (metadata c)) vm with
      | Ok machine => run fuel fee machine
      | Err e => Finished (Err (transact_from_init e))
      | Crash => HostPanic
      end
  | Err e => Finished (Err e)
  | Crash => HostPanic
  end.

(** [Transactor::transact]: the last check, against the gas price and the height of the machine,
    and then the execution. *)
Definition transact_checked `{!Runnable Body} (fuel : nat) (fee : FeeParameters) (block_height : option Z) (c : Checked Body)
    (vm : Interpreter S) : RunOutcome (outcome TransactError (ProgramState * Machine S Body)) :=
  let p := interpreter_params vm in
  match Check.into_ready c (State.gas_price p) (param_gas_costs p) fee (context_block_height (context vm)) with
  | Ok ready => transact fuel fee block_height ready vm
  | Err e => Finished (Err (Transact_CheckError e))
  | Crash => HostPanic
  end.

(** [deploy], [upgrade], [upload] and [blob]: the execution without initializing the machine *)
Definition execute_ready `{!ParametersDecoder} `{!Publication Body} (fee : FeeParameters) (ready : Ready Body)
    (vm : Interpreter S) : outcome TransactError (Chargeable Body) * S :=
  match verify_ready_tx ready vm with
  | Ok _ =>
      let '(_, c) := Check.decompose ready in
      let (r, s) := publish (transaction c) (metadata_balances (metadata c)) (exec_params fee vm) (storage vm) in
      (omap_err transact_from_exec r, s)
  | Err e => (Err e, storage vm)
  | Crash => (Crash, storage vm)
  end.
(** [Transactor::deploy] and the others: ready without a block height *)
Definition execute_checked `{!ParametersDecoder} `{!Publication Body} (fee : FeeParameters) (c : Checked Body)
    (vm : Interpreter S) : outcome TransactError (Chargeable Body) * S :=
  let p := interpreter_params vm in
  match Check.into_ready c (State.gas_price p) (param_gas_costs p) fee None with
  | Ok ready => execute_ready fee ready vm
  | Err e => (Err (Transact_CheckError e), storage vm)
  | Crash => (Crash, storage vm)
  end.
End Body.
End Transact.

(** ** What is written back *)

Section WriteBack.
Context `{Alloc} `{!ExactAlloc} {Body : Type} `{!BodyOffset Body}.
Implicit Types (tx : Chargeable Body) (m : MemoryInstance).

Lemma encode_to_slice_Ok m s a bs :
  mem_wf m -> slice_denotes m s a (zlen bs) -> exists m', encode_to_slice m s bs = Ok m' /\ mem_upd m a bs m'.
Proof.
  intros Hm Hs. destruct (slice_copy_Ok m s a _ bs Hm Hs eq_refl) as (m' & E & Hu). exists m'. split; [|done].
  assert (El : s_end s = s_start s + zlen bs) by (destruct Hs as (_ & _ & Hs); destruct (s_region s); lia).
  unfold encode_to_slice, slice_len. rewrite El. case_if; [lia|]. rewrite <- El. destruct s. cbn. by rewrite E.
Qed.

Lemma output_size o : output_ok o -> zlen (output_bytes o) < USIZE_MAX -> size c_output o = zlen (output_bytes o).
Proof.
  intros Ho Hlt. destruct (c_output_lawful o Ho) as (s & b & d & He).
  pose proof (en_size_static _ _ _ _ _ He). pose proof (en_size_dynamic _ _ _ _ _ He).
  apply encodes_all in He as (He & _). rewrite encode_output in He. injection He as E. rewrite E, zlen_app in *.
  pose proof (zlen_nonneg b). pose proof (zlen_nonneg d). unfold size, saturating_add, USIZE_MAX in *. lia.
Qed.

Lemma update_memory_output_Ok tx ofs pre o rest b m :
  tx_outputs tx = pre ++ o :: rest -> encodes_list c_output pre b -> output_ok o -> mem_wf m ->
  0 <= ofs -> 0 <= outputs_offset tx -> ofs + outputs_offset tx + zlen b + zlen (output_bytes o) <= zlen (stack m) ->
  exists m', update_memory_output tx ofs (zlen pre) m = Ok m' /\
    mem_upd m (ofs + outputs_offset tx + zlen b) (output_bytes o) m'.
Proof.
  intros Eo Hpre Ho Hm Hofs Hbase Hle. pose proof (zlen_nonneg b). pose proof (zlen_nonneg (output_bytes o)).
  pose proof (zlen_nonneg pre). assert (Hst : zlen (stack m) <= MEM_SIZE) by (destruct Hm; lia). unfold MEM_SIZE, VM_MAX_RAM in Hst.
  assert (Hget : zget (tx_outputs tx) (zlen pre) = Some o).
  { rewrite Eo, zget_app. case_if; [lia|]. by rewrite Z.sub_diag. }
  assert (Hat : outputs_offset_at tx (zlen pre) = Some (outputs_offset tx + zlen b)).
  { unfold outputs_offset_at. rewrite Eo, zlen_app, zlen_cons_succ. pose proof (zlen_nonneg rest). case_if; [|lia].
    replace (Z.to_nat (zlen pre)) with (length pre) by (unfold zlen; lia). rewrite take_app_length, (sum_sizes_list _ _ _ Hpre). unfold saturating_add, USIZE_MAX in *. f_equal. lia. }
  unfold update_memory_output, absolute_output_mem_range, absolute_output_offset. rewrite Hat, Hget. cbn [fmap option_fmap option_map ok_or obind r_start r_end].
  rewrite output_size by (try done; unfold USIZE_MAX; lia).
  assert (E1 : saturating_add ofs (outputs_offset tx + zlen b) = ofs + outputs_offset tx + zlen b) by (unfold saturating_add; lia).
  rewrite E1. set (a := ofs + outputs_offset tx + zlen b) in *.
  assert (E2 : Z.max 0 (saturating_add a (zlen (output_bytes o)) - a) = zlen (output_bytes o)) by (unfold saturating_add; lia).
  rewrite E2.
  destruct (write_noownerchecks_Ok m a (zlen (output_bytes o)) Hm) as (s & -> & Hs).
  { split_and!; unfold MEM_SIZE, VM_MAX_RAM; lia. }
  cbn [omap_err obind expect]. rewrite encode_output. cbn [expect_bytes obind]. by apply encode_to_slice_Ok.
Qed.

Lemma update_memory_outputs_Ok tx ofs post : forall pre b m,
  tx_outputs tx = pre ++ post -> encodes_list c_output pre b -> Forall output_ok post -> mem_wf m ->
  let bytes := concat (map output_bytes post) in
  0 <= ofs -> 0 <= outputs_offset tx -> ofs + outputs_offset tx + zlen b + zlen bytes <= zlen (stack m) ->
  exists m', update_memory_outputs tx ofs (seqZ (zlen pre) (zlen post)) m = Ok m' /\
    mem_upd m (ofs + outputs_offset tx + zlen b) bytes m'.
Proof.
  induction post as [|o post IH]; intros pre b m Eo Hpre Hok Hm bytes Hofs Hbase Hle.
  { exists m. split; [done|apply mem_upd_nil]. }
  apply Forall_cons in Hok as [Ho Hok]. subst bytes. cbn [map concat] in *. rewrite zlen_app in Hle.
  pose proof (zlen_nonneg (concat (map output_bytes post))). pose proof (zlen_nonneg post).
  destruct (update_memory_output_Ok tx ofs pre o post b m Eo Hpre Ho Hm Hofs Hbase) as (m1 & E1 & Hu1); [lia|].
  destruct (c_output_lawful o Ho) as (s & b1 & b2 & He). pose proof He as He'.
  apply encodes_all in He' as (He' & _). rewrite encode_output in He'. injection He' as E.
  assert (Hpre' : encodes_list c_output (pre ++ [o]) (b ++ output_bytes o)).
  { rewrite E. clear -Hpre He. induction Hpre as [|x l s' c d rest Hx Hl IHl].
    - rewrite app_nil_l, <- (app_nil_r (b1 ++ b2)). by eapply el_cons; [|constructor].
    - rewrite <- app_assoc. cbn. by econstructor. }
  destruct (IH (pre ++ [o]) (b ++ output_bytes o) m1) as (m2 & E2 & Hu2); [by rewrite <- app_assoc|done|done| |done|done| |].
  { by eapply mem_upd_wf. }
  { rewrite (proj1 (proj1 Hu1)), zlen_app. lia. }
  exists m2. rewrite zlen_cons_succ, seqZ_cons by lia. cbn [update_memory_outputs]. rewrite E1. cbn [obind].
  rewrite zlen_app in E2. rewrite zlen_app in Hu2. change (zlen [o]) with 1 in E2.
  replace (Z.succ (zlen pre)) with (zlen pre + 1) by lia. replace (Z.pred (1 + zlen post)) with (zlen post) by lia.
  split; [exact E2|]. apply (mem_upd_app _ _ _ m1); [done|]. by replace (ofs + outputs_offset tx + zlen b + zlen (output_bytes o)) with
    (ofs + outputs_offset tx + (zlen b + zlen (output_bytes o))) by lia.
Qed.
End WriteBack.

(** ** Ready transactions *)

Lemma into_ready_spec `{Alloc} `{!ExactAlloc} `{Sha256} {Body : Type} `{!ChargeableBody Body} (body_ok : Body -> Prop)
    `{!ChargeableLaws Body body_ok} `{!CheckedBody Body} (c : Checked Body) (price : Z) (g : GasCosts) (fee : FeeParameters)
    (height : option Z) :
  costs_ok g -> fee_ok fee -> chargeable_ok body_ok (transaction c) -> u64_ok price ->
  match Check.into_ready c price g fee height with
  | Ok ready => ready = mkReady price c /\
      exists hi, max_gas (transaction c) g fee = Ok hi /\ fee_of fee (transaction c) price hi <= max_fee_limit (transaction c)
  | Err _ => True
  | Crash => False
  end.
Proof.
  intros Hg Hfee Ht Hp. destruct (fee_summary body_ok g fee (transaction c) price Hg Hfee Ht Hp)
    as (lo & hi & _ & Ehi & _ & _ & _ & _ & _ & Esum).
  unfold Check.into_ready. rewrite Esum. cbn [Check.expect_gas obind]. case_if; [|done]. cbn [ok_or obind fee_max_fee].
  destruct height as [h|]; [case_if; [done|]|]; cbn [obind]; case_if; try done; zbool; split; try done; by exists hi.
Qed.

(** ** How many balances a machine starts with *)

Section Sizes.
Context {Body : Type} (body_ok : Body -> Prop).
Implicit Types (t : Chargeable Body) (base : AssetId).

Lemma size_list_to_set_le {A} `{Countable A} (l : list A) : (base.size (list_to_set l : gset A) <= length l)%nat.
Proof.
  induction l as [|x l IH]; [by rewrite list_to_set_nil, size_empty|]. rewrite list_to_set_cons, size_union_alt, size_singleton.
  assert (base.size ((list_to_set l : gset A) ∖ {[x]}) <= base.size (list_to_set l : gset A))%nat by (apply subseteq_size; set_solver). cbn. lia.
Qed.

Lemma brings_credited base a l : credited base a l <> 0 -> Exists (brings base a) l.
Proof.
  unfold credited, total. induction l as [|i l IH]; [done|]. cbn [foldr]. rewrite Exists_cons. intros Hne.
  destruct (decide (of_asset a (credits base i) = 0)) as [E|Hi]; [right; apply IH; lia|left].
  unfold brings. destruct (credits base i) as [[b v]|]; [|done]. cbn in *. case_bool_decide; congruence.
Qed.

Lemma free_size t base av x n :
  chargeable_ok body_ok t -> initial_free_balances t base = Ok av -> zlen (tx_inputs t) <= n ->
  zlen (tx_inputs t) < n \/ 0 < max_fee_limit t ->
  Z.of_nat (base.size (<[base := x]> (non_retryable_balances av))) <= n.
Proof.
  intros Ht Eav Hn Hor. pose proof (free_balances_spec body_ok t base Ht) as Hf. rewrite Eav in Hf.
  destruct Hf as (_ & Hw & _ & Hcr & _ & Hs). set (m := non_retryable_balances av) in *.
  set (assets := omap (fun i => fst <$> credits base i) (tx_inputs t)).
  assert (Hin : forall a, Exists (brings base a) (tx_inputs t) -> a ∈ assets).
  { intros a (i & Hi & Hb)%Exists_exists. apply list_elem_of_omap. by exists i. }
  assert (Hlen : (length assets <= length (tx_inputs t))%nat) by (unfold assets; clear; induction (tx_inputs t) as [|i l IH]; [done|]; cbn; case_match; cbn; lia).
  rewrite <- size_dom. unfold zlen in *.
  destruct (decide (base ∈ assets)) as [Hb|Hb].
  - transitivity (Z.of_nat (base.size (list_to_set assets : gset AssetId))).
    + apply inj_le, subseteq_size. intros a. rewrite elem_of_dom, elem_of_list_to_set.
      destruct (decide (a = base)) as [->|Hne]; [done|]. rewrite lookup_insert_ne by done. rewrite Hs. intros [->|He]; [done|by apply Hin].
    + pose proof (size_list_to_set_le assets). lia.
  - assert (Hlt : Z.of_nat (length (tx_inputs t)) < n).
    { destruct Hor as [|Hfee]; [done|]. destruct Hb. apply Hin, brings_credited. rewrite Hcr, bool_decide_true by done.
      pose proof (words_lookup m base Hw). pose proof (paid_nonneg base (tx_outputs t) (proj2 (proj1 (proj2 (proj2 (proj2 Ht)))))).
      unfold u64_ok in *. lia. }
    transitivity (Z.of_nat (base.size (list_to_set (base :: assets) : gset AssetId))).
    + apply inj_le, subseteq_size. intros a. rewrite elem_of_dom, elem_of_list_to_set, elem_of_cons.
      destruct (decide (a = base)) as [->|Hne]; [by left|]. rewrite lookup_insert_ne by done. rewrite Hs. intros [->|He]; [done|right; by apply Hin].
    + pose proof (size_list_to_set_le (base :: assets)) as Hc. cbn [length] in Hc. lia.
Qed.

Lemma free_asset_len t base av x a :
  chargeable_ok body_ok t -> zlen base = 32 -> initial_free_balances t base = Ok av ->
  is_Some (<[base := x]> (non_retryable_balances av) !! a) -> zlen a = 32.
Proof.
  intros Ht Hb Eav. destruct (decide (a = base)) as [->|Hne]; [done|]. rewrite lookup_insert_ne by done.
  pose proof (free_balances_spec body_ok t base Ht) as Hf. rewrite Eav in Hf. destruct Hf as (_ & _ & _ & _ & _ & Hs).
  rewrite Hs. intros [->|(i & Hi & E)%Exists_exists]; [done|]. destruct Ht as (_ & _ & [_ Hok] & _).
  rewrite Forall_forall in Hok. specialize (Hok i Hi). unfold brings in E.
  destruct i as [[]|[]|[]|[]|[]|[]|[]]; cbn in E, Hok; try done; injection E as <-; unfold coin_ok in Hok; cbn in Hok; try done; tauto.
Qed.
End Sizes.

(** ** Settling a script *)

Lemma update_output_valid revert refund m r rb base o o' :
  output_ok o -> words m -> (forall a b, rb !! a = Some b -> u64_ok (bal_value b)) -> 0 <= refund ->
  update_output revert refund (mkInitialBalances m r) rb base o = Ok o' -> output_ok o'.
Proof.
  intros Ho Hm Hrb Hrf. destruct o as [to v b|c|to v b|to v b|c s]; cbn [update_output non_retryable]; try (by intros [= <-]).
  - cbn in Ho. destruct Ho as (H1 & _ & H3). unfold map_index, balances_index, checked_add.
    assert (Hval : forall x, m !! b = Some x \/ bal_value <$> rb !! b = Some x -> u64_ok x).
    { intros x [E|E]; [by apply (Hm b)|]. apply fmap_Some in E as (y & E & ->). by apply (Hrb b). }
    unfold u64_ok in *. destruct revert; cbn [andb]; (case_bool_decide as E; [subst b|]).
    1: destruct (m !! base) as [x|] eqn:Ex. 3: destruct (m !! b) as [x|] eqn:Ex. 5: destruct (bal_value <$> rb !! base) as [x|] eqn:Ex.
    7: destruct (bal_value <$> rb !! b) as [x|] eqn:Ex.
    all: cbn [expect obind]; try done; specialize (Hval x ltac:(auto)); try case_if; cbn [ok_or obind]; try done;
      intros [= <-]; cbn; unfold u64_ok; split_and!; done || lia.
  - destruct revert; intros [= <-]; cbn in *; [|done]. split_and!; [apply Ho|done|apply Ho].
Qed.
Lemma update_outputs_valid revert refund m r rb base l : forall l',
  Forall output_ok l -> words m -> (forall a b, rb !! a = Some b -> u64_ok (bal_value b)) -> 0 <= refund ->
  try_for_each (update_output revert refund (mkInitialBalances m r) rb base) l = Ok l' -> Forall output_ok l'.
Proof.
  induction l as [|o l IH]; intros l' Hl Hm Hrb Hrf; cbn [try_for_each]; [by intros [= <-]|]. apply Forall_cons in Hl as [Ho Hl].
  destruct (update_output _ _ _ _ _ o) as [o'| |] eqn:E; [|done..]. cbn [obind].
  destruct (try_for_each _ l) as [k| |] eqn:Ek; [|done..]. cbn [obind]. intros [= <-].
  constructor; [by eapply update_output_valid|by eapply IH].
Qed.

(** Reverted outputs do not depend on the final balances. *)
Lemma update_outputs_reverted `{Alloc} {Body} `{!ChargeableBody Body} (t : Chargeable Body) used initial rb rb' g fee base price :
  update_outputs t true used initial rb g fee base price = update_outputs t true used initial rb' g fee base price.
Proof.
  assert (E : forall refund l, try_for_each (update_output true refund initial rb base) l = try_for_each (update_output true refund initial rb' base) l).
  { intros refund l. induction l as [|o l IH]; [done|]. cbn [try_for_each]. rewrite IH. done. }
  unfold update_outputs. destruct (refund_fee _ _ _ _ _) as [[r|]| |]; [|done..]. cbn [ok_or obind]. by rewrite E.
Qed.

(** Settled outputs take as many bytes. *)
Lemma settled_bytes revert f o o' : settled revert f o o' -> zlen (output_bytes o') = zlen (output_bytes o).
Proof. destruct o; cbn [settled]; intros ->; cbn [output_bytes]; rewrite ?zlen_app, ?zlen_to_be_bytes; reflexivity. Qed.
Lemma settled_all_bytes revert f l l' :
  Forall2 (settled revert f) l l' -> zlen (concat (map output_bytes l')) = zlen (concat (map output_bytes l)).
Proof.
  induction 1 as [|o o' l l' Ho _ IH]; [done|]. cbn [map concat]. by rewrite !zlen_app, IH, (settled_bytes _ _ _ _ Ho).
Qed.
Lemma encodes_outputs `{Alloc} l b : encodes_list c_output l b -> b = concat (map output_bytes l).
Proof.
  induction 1 as [|o l s b d rest Ho _ IH]; [done|]. apply encodes_all in Ho as (Ho & _). rewrite encode_output in Ho.
  cbn [map concat]. injection Ho as ->. by rewrite <- IH.
Qed.

(** Writing back the settled outputs of a transaction that lies on the stack *)
Lemma write_back `{Alloc} `{!ExactAlloc} {Body} `{!ChargeableBody Body} (body_ok : Body -> Prop) `{!ChargeableLaws Body body_ok}
    `{!BodyOffset Body} `{!BodyOffsetLaw body_codec body_ok} (t : Chargeable Body) bs ofs revert f outputs m :
  chargeable_ok body_ok t -> encode (c_chargeable body_codec) t = Ok bs -> mem_wf m ->
  0 <= ofs -> ofs + zlen bs <= zlen (stack m) ->
  Forall2 (settled revert f) (tx_outputs t) outputs -> Forall output_ok outputs ->
  let t' := with_outputs t outputs in
  let bytes := concat (map output_bytes outputs) in
  exists m', update_memory_outputs t' ofs (seqZ 0 (zlen outputs)) m = Ok m' /\
    mem_upd m (ofs + outputs_offset t') bytes m' /\ read m' (ofs + outputs_offset t') (zlen bytes) = Ok bytes.
Proof.
  intros Ht Ebs Hm Hofs Hfit Hset Hok t' bytes. assert (Hst : zlen (stack m) <= MEM_SIZE) by (destruct Hm; lia).
  destruct (vectors_layout body_codec body_ok ch_lawful t bs Ht Ebs) as (pre & bi & bo & bw & -> & _ & Eo & _ & _ & Ho & _).
  { unfold USIZE_MAX, MEM_SIZE, VM_MAX_RAM in *. lia. }
  apply encodes_outputs in Eo. subst bo. pose proof (settled_all_bytes _ _ _ _ Hset) as El. fold bytes in El.
  rewrite !zlen_app in Hfit. pose proof (zlen_nonneg pre). pose proof (zlen_nonneg bi). pose proof (zlen_nonneg bw). pose proof (zlen_nonneg bytes).
  change (outputs_offset t) with (outputs_offset t') in Ho.
  destruct (update_memory_outputs_Ok t' ofs outputs [] [] m) as (m' & E & Hu); [done|constructor|done|done|done|lia| |].
  { change (zlen (@nil byte)) with 0. fold bytes. lia. }
  fold bytes in Hu. change (zlen (@nil byte)) with 0 in Hu. rewrite Z.add_0_r in Hu. exists m'. split; [exact E|]. split; [done|].
  apply mem_shows_read; [by eapply mem_upd_wf| |by eapply mem_upd_shows].
  split_and!; [lia|done|lia|left]. rewrite (proj1 (proj1 Hu)). lia.
Qed.

Section Settle.
Context `{Alloc} `{!ExactAlloc} (params : ConsensusParameters) (cpp : CheckPredicateParams) (price : Z).
Hypothesis (Hs : sane params cpp) (Hprice : u64_ok price).
Implicit Types (t : Chargeable ScriptBody).
#[local] Notation base := (cp_base_asset_id params).
#[local] Notation costs := (cp_gas_costs params).
#[local] Notation fee := (cp_fee_params params).

Lemma sane_costs : costs_ok costs.
Proof. destruct (sane_fields _ _ Hs) as (_ & <- & _). apply (sa_words _ _ Hs). Qed.

(** The price that is paid: of the gas used and the minimal gas less what the predicates declare. *)
Definition charged t (lo used : Z) : Z := fee_of fee t price (lo - declared_gas (tx_inputs t) + used).
Definition initial_balances (av : AvailableBalances) : InitialBalances :=
  mkInitialBalances (non_retryable_balances av) (Some (retryable_balance av, base)).
Definition of_base (a : AssetId) (x : Z) : Z := if bool_decide (a = base) then x else 0.

(** Every coin that the inputs bring, of an asset with a change output *)
Definition accounted_for t (lo used : Z) (revert : bool) (initial final : RuntimeBalances) (outputs : list Output) (a : AssetId) : Prop :=
  let spent := default 0 (bal_value <$> initial !! a) - default 0 (bal_value <$> final !! a) in
  if revert
  then credited base a (tx_inputs t) = paid a outputs + TxBalances.change a outputs + of_base a (charged t lo used)
  else credited base a (tx_inputs t) + of_base a (total retries (tx_inputs t)) =
       paid a outputs + TxBalances.change a outputs + spent + of_base a (charged t lo used).

Lemma script_gas_within t hi :
  0 <= script_gas_limit (tx_body t) -> max_gas t costs fee = Ok hi -> hi < U64 - 1 -> forall lo, min_gas t costs fee = Ok lo -> lo + script_gas_limit (tx_body t) <= hi.
Proof.
  unfold max_gas. intros Hl E Hhi lo Elo. rewrite Elo in E. cbn [obind] in E. injection E as <-. cbn [execution_gas chargeable_script] in *.
  destruct (sa_fee _ _ Hs) as [_ [Hb _]].
  assert (Hw : 0 <= saturating_sub (witness_limit t) (witnesses_size t)) by (unfold saturating_sub; lia).
  destruct (saturating_mul_ok _ _ Hw Hb) as [Hm _]. unfold saturating_add in *. lia.
Qed.
(** Settling the prepared script, in terms of the script as checked *)
Lemma settle_prepared t height hi av rb0 rb used revert :
  chargeable_ok script_body_ok t -> common_rules t height params ->
  max_gas t costs fee = Ok hi -> fee_of fee t price hi <= max_fee_limit t ->
  initial_free_balances t base = Ok av -> runtime_balances_try_from (initial_balances av) = Ok rb0 ->
  (forall a, (is_Some (rb !! a) <-> is_Some (rb0 !! a)) /\ free rb a <= free rb0 a) ->
  (forall a b, rb !! a = Some b -> u64_ok (bal_value b)) ->
  0 <= used <= script_gas_limit (tx_body t) ->
  let t' := chargeable_prepare_sign t in
  exists lo, min_gas t costs fee = Ok lo /\
  match update_outputs t' revert used (initial_balances av) rb costs fee base price with
  | Ok t'' => exists amount, t'' = with_outputs t' (tx_outputs t'') /\
      Forall2 (settled revert amount) (tx_outputs t') (tx_outputs t'') /\ Forall output_ok (tx_outputs t'') /\
      forall a, a ∈ change_assets (tx_outputs t) -> accounted_for t lo used revert rb0 rb (tx_outputs t'') a
  | Err _ => U64 <= credited base base (tx_inputs t) + total retries (tx_inputs t)
  | Crash => False
  end.
Proof.
  intros Ht Hr Ehi Hlim Eav Erb Hdom Hval Hused t'. pose proof sane_costs as Hg. pose proof (sa_fee _ _ Hs) as Hfee.
  pose proof (chargeable_prepared_ok script_body_ok t script_prepare_valid Ht) as Ht'. fold t' in Ht'.
  destruct (prepared_min_gas costs fee Hg Hfee t Ht) as (lo & lo' & Elo & Elo' & Hless). exists lo. split; [done|].
  destruct (prepared_max_gas costs fee Hg Hfee t Ht) as (h & hi' & Eh & Ehi' & Hless'). rewrite Ehi in Eh. injection Eh as <-.
  destruct (cr_gas _ _ _ Hr) as (h & Eh & Hmax). rewrite Ehi in Eh. injection Eh as <-. pose proof (sa_gas _ _ Hs) as Hsat.
  destruct (min_gas_ok script_body_ok costs fee Hg Hfee t Ht) as (l & El & Hl). rewrite Elo in El. injection El as <-.
  destruct (max_gas_ok script_body_ok costs fee Hfee t lo Ht Elo Hl) as (h & Eh & Hlohi). rewrite Ehi in Eh. injection Eh as <-.
  destruct Hless as (Hlo' & _ & Hdecl), Hless' as (Hhi' & _ & _). specialize (Hdecl ltac:(lia)).
  assert (Hin : lo' + used <= hi').
  { pose proof (script_gas_within t' hi' (proj1 (proj1 (proj1 Ht))) Ehi' ltac:(lia) lo' Elo'). cbn in *. lia. }
  assert (Hfe : fee_of fee t' price hi' <= max_fee_limit t').
  { etrans; [|exact Hlim]. apply (fee_of_mono fee Hfee t price); [done|lia]. }
  destruct (common_rules_changes t height params Hr) as [Hnd Hch].
  destruct (refund_fee_exact script_body_ok costs fee t' price lo' hi' used) as [Eref Hb]; try done; try lia.
  pose proof (update_outputs_settles script_body_ok costs fee t' price lo' hi' used base av rb0 rb revert) as Hset.
  assert (Eca : change_assets (tx_outputs t') = change_assets (tx_outputs t)) by apply prepared_change_assets.
  assert (Ecr : forall a, credited base a (tx_inputs t') = credited base a (tx_inputs t)) by (intros a; apply prepared_credited).
  assert (Ert : total retries (tx_inputs t') = total retries (tx_inputs t)) by apply prepared_retries.
  rewrite Eca, Ert, (prepared_free_balances t base) in Hset.
  specialize (Hset Hg Hfee Ht' Hprice Elo' Ehi' ltac:(lia) ltac:(lia) ltac:(lia) Hin Hfe Eav Erb (fun a => proj1 (Hdom a)) Hval Hnd).
  assert (Hbr : Forall (fun a => a = base \/ Exists (brings base a) (tx_inputs t')) (change_assets (tx_outputs t))).
  { eapply Forall_impl; [exact Hch|]. intros a [->|Ha]; [by left|right; by apply prepared_brings]. }
  specialize (Hset Hbr). fold (initial_balances av) in Hset.
  destruct (update_outputs t' revert used (initial_balances av) rb costs fee base price) as [t''|e|] eqn:Eup; [| |done].
  - destruct Hset as (amount & Et & Hout & Hacc). exists amount. split; [done|]. split; [done|]. split.
    + unfold update_outputs in Eup. rewrite Eref in Eup. cbn [ok_or obind] in Eup.
      destruct (try_for_each _ (tx_outputs t')) as [l| |] eqn:El; [|done..]. injection Eup as <-. cbn [tx_outputs with_outputs].
      pose proof (free_balances_spec script_body_ok t base Ht) as Hf. rewrite Eav in Hf.
      eapply update_outputs_valid; [apply Ht'|apply Hf|exact Hval| |exact El]. lia.
    + intros a Ha. specialize (Hacc a Ha). unfold accounted_for, charged, of_base.
      rewrite Ecr in Hacc. replace (lo - declared_gas (tx_inputs t) + used) with (lo' + used) by lia. exact Hacc.
  - destruct Hset as (_ & _ & Hov). rewrite Ecr in Hov. destruct (Hdom base) as [_ Hle]. unfold free in Hle.
    destruct (rb !! base), (rb0 !! base); cbn in *; lia.
Qed.
End Settle.

(** ** Scripts *)

Section Script.
Context `{Alloc} `{!ExactAlloc} `{Sha256} `{Powf} `{WideLib} `{!PowfLaw} `{!WideLaws} `{Crypto} {S : Type} `{StateLaws S} `{LedgerStorage S}.
Context (params : ConsensusParameters) (cpp : CheckPredicateParams) (price : Z).
Hypothesis (Hs : sane params cpp) (Hprice : u64_ok price).
Implicit Types (t : Chargeable ScriptBody) (machine : Machine S ScriptBody) (vm : Interpreter S).
#[local] Notation base := (cp_base_asset_id params).
#[local] Notation costs := (cp_gas_costs params).
#[local] Notation fee := (cp_fee_params params).

(** A script has been executed: it used [used] gas, its minimal gas is [lo], its inputs have the
    free balances [av], and [amount] is the change of each asset. *)
Record executed t (state : ProgramState) machine (lo used : Z) (av : AvailableBalances) (amount : AssetId -> Z) : Prop := {
  ex_min_gas : min_gas t costs fee = Ok lo;
  ex_free : initial_free_balances t base = Ok av;
  ex_used : 0 <= used <= script_gas_limit (tx_body t);
  ex_receipts : exists result l, rx_receipts (receipts (m_vm machine)) = l ++ [Receipt_ScriptResult result used] /\ result_ok result state l;
  ex_tx : m_tx machine = with_receipts_root (with_outputs (chargeable_prepare_sign t) (tx_outputs (m_tx machine)))
            (mth (map receipt_to_bytes (rx_receipts (receipts (m_vm machine)))));
  ex_outputs : Forall2 (settled (is_revert state) amount) (tx_outputs (chargeable_prepare_sign t)) (tx_outputs (m_tx machine));
  ex_coins : exists initial, runtime_balances_try_from (initial_balances params av) = Ok initial /\
    forall a, a ∈ change_assets (tx_outputs t) ->
      accounted_for params price t lo used (is_revert state) initial (balances (m_vm machine)) (tx_outputs (m_tx machine)) a;
  ex_memory : let bytes := concat (map output_bytes (tx_outputs (m_tx machine))) in
    read (memory (m_vm machine)) (tx_offset (interpreter_params (m_vm machine)) + outputs_offset (m_tx machine)) (zlen bytes) = Ok bytes
}.

(** The machine that a ready script starts. *)
Record started t (bs : list byte) (av : AvailableBalances) (rb0 : RuntimeBalances) machine : Prop := {
  sd_tx : m_tx machine = chargeable_prepare_sign t;
  sd_bytes : encode (c_chargeable body_codec) (chargeable_prepare_sign t) = Ok bs;
  sd_initial : m_initial_balances machine = initial_balances params av;
  sd_balances : runtime_balances_try_from (initial_balances params av) = Ok rb0;
  sd_free : balances (m_vm machine) = rb0;
  sd_ok : balances_ok rb0;
  sd_inv : script_inv (m_vm machine);
  sd_params : interpreter_params (m_vm machine) = interpreter_params_new price cpp;
  sd_ssp : reg (m_vm machine) RegId.SSP = cpp_tx_offset cpp + zlen bs;
  sd_gas : reg (m_vm machine) RegId.GGAS = script_gas_limit (tx_body t);
  sd_frames : frames (m_vm machine) = []
}.

Lemma receipts_root_offset t root : outputs_offset (with_receipts_root t root) = outputs_offset t.
Proof. by destruct t as [[] ? ? ? ?]. Qed.

(** The balances from which the outputs are settled *)
Lemma final_balances t bs av rb0 machine k state vm :
  started t bs av rb0 machine -> ended k (m_vm machine) state vm ->
  let rb := if is_revert state then rb0 else balances vm in
  (forall a, (is_Some (rb !! a) <-> is_Some (rb0 !! a)) /\ free rb a <= free rb0 a) /\
  (forall a b, rb !! a = Some b -> u64_ok (bal_value b)).
Proof.
  intros Hst He rb. subst rb. destruct (is_revert state) eqn:Er.
  - split; [done|]. intros a b Hab. by apply (sd_ok _ _ _ _ _ Hst a b).
  - destruct (en_assets _ _ _ _ He) as [Ha Hb]; [by intros w ->|]. rewrite <- (sd_free _ _ _ _ _ Hst). split; [exact Ha|].
    intros a b Hab. by apply (Hb a b).
Qed.

Lemma finalize_script_spec t height hi bs av rb0 machine state vm :
  chargeable_ok script_body_ok t -> common_rules t height params ->
  max_gas t costs fee = Ok hi -> fee_of fee t price hi <= max_fee_limit t -> initial_free_balances t base = Ok av ->
  started t bs av rb0 machine -> ended (cpp_tx_offset cpp + zlen bs) (m_vm machine) state vm ->
  accounted (script_gas_limit (tx_body t)) (m_vm machine) state vm ->
  match finalize_script fee state (with_vm machine vm) with
  | Ok (state', machine') => state' = state /\ exists lo used amount, executed t state machine' lo used av amount
  | Err e => e = Transact_Interpreter (IE_Bug UncomputableRefund) /\
      U64 <= credited base base (tx_inputs t) + total retries (tx_inputs t)
  | Crash => False
  end.
Proof.
  intros Ht Hr Ehi Hlim Eav Hst He (result & l & Hrx & Hg & Hres & Hroot). destruct (sane_fields _ _ Hs) as (_ & Ec & _ & Eb & _ & _ & _ & Hofs).
  set (used := script_gas_limit (tx_body t) - reg vm RegId.GGAS) in *. rewrite (sd_gas _ _ _ _ _ Hst) in Hg.
  unfold finalize_script, with_vm. cbn [m_vm m_tx m_initial_balances].
  rewrite (en_params _ _ _ _ He), (sd_params _ _ _ _ _ Hst), (sd_tx _ _ _ _ _ Hst), (sd_initial _ _ _ _ _ Hst).
  change (script_gas_limit (tx_body (chargeable_prepare_sign t))) with (script_gas_limit (tx_body t)).
  unfold remaining_gas. rewrite checked_sub_Some by lia. fold used. cbn [ok_or obind].
  cbn [param_gas_costs base_asset_id State.gas_price interpreter_params_new]. rewrite Ec, Eb.
  set (rb := if is_revert state then rb0 else balances vm).
  destruct (final_balances t bs av rb0 machine _ state vm Hst He) as [Hdom Hval]. fold rb in Hdom, Hval.
  assert (Eup : forall t' i, update_outputs t' (is_revert state) used i (balances vm) costs fee base price =
    update_outputs t' (is_revert state) used i rb costs fee base price).
  { intros t' i. unfold rb. destruct (is_revert state); [apply update_outputs_reverted|done]. }
  destruct (settle_prepared params cpp price Hs Hprice t height hi av rb0 rb used (is_revert state)) as (lo & Elo & Hset); try done; [apply Hst|lia|].
  unfold finalize_outputs. rewrite Eup. destruct (update_outputs _ _ _ _ _ _ _ _ _) as [t''|e|]; cbn [omap_err obind]; [|done|done].
  destruct Hset as (amount & Et & Hout & Hok & Hacc).
  destruct (write_back script_body_ok (chargeable_prepare_sign t) bs (cpp_tx_offset cpp) (is_revert state) amount (tx_outputs t'') (memory vm))
    as (m & Em & Hu & Hread); [by apply chargeable_prepared_ok, Ht; apply script_prepare_valid|apply Hst|apply He|done|apply He|done|done|].
  rewrite <- Et in Em, Hu, Hread. unfold update_transaction_outputs, with_tx. cbn [m_vm m_tx].
  rewrite (en_params _ _ _ _ He), (sd_params _ _ _ _ _ Hst). cbn [tx_offset interpreter_params_new]. rewrite Em. cbn [omap_err obind m_vm m_tx].
  rewrite Hroot. split; [done|]. exists lo, used, amount.
  split; cbn [m_vm m_tx with_receipts_root with_outputs tx_outputs]; try done; try lia; [by exists result, l| | |].
  - by rewrite <- Et.
  - exists rb0. split; [apply Hst|]. intros a Ha. specialize (Hacc a Ha). revert Hacc. unfold rb, accounted_for. by destruct (is_revert state).
  - cbn [memory interpreter_params set_memory]. rewrite (en_params _ _ _ _ He), (sd_params _ _ _ _ _ Hst).
    rewrite receipts_root_offset. exact Hread.
Qed.

(** A machine of the chain, whatever it ran before *)
Record idle vm : Prop := {
  id_params : interpreter_params vm = interpreter_params_new price cpp;
  id_storage : storage_wf (storage vm);
  id_memory : mem_wf (memory vm)
}.

Lemma checked_balances t height (c : Checked ScriptBody) :
  checked_as t height params c ->
  exists av, initial_free_balances t base = Ok av /\ metadata_balances (metadata c) = initial_balances params av.
Proof.
  intros Hc. destruct (ca_balances _ _ _ _ Hc) as (av & Eav & Em & Er). exists av. split; [done|].
  unfold initial_balances. rewrite <- Em. cbn [retryable metadata_balances script_checked script_balances] in *. by rewrite <- Er.
Qed.

Lemma script_initializable t height vm av x :
  chargeable_ok script_body_ok t -> common_rules t height params -> idle vm ->
  initial_free_balances t base = Ok av ->
  zlen (tx_inputs t) < tp_max_inputs (cp_tx_params params) \/ 0 < max_fee_limit t ->
  exists bs, initializable c_script_body script_body_ok vm t (<[base := x]> (non_retryable_balances av)) bs.
Proof.
  intros Ht Hr Hid Eav Hroom. destruct (valid_checkable script_body_ok script_prepare_valid t height params cpp Ht Hr Hs) as [bs []].
  destruct (sane_fields _ _ Hs) as (Emax & _ & _ & Eb & _). exists bs.
  split; rewrite ?(id_params _ Hid); cbn [max_inputs tx_offset base_asset_id interpreter_params_new]; try done; [lia| | |apply Hid].
  - rewrite Emax. eapply free_size; [done|done|apply Hr|done].
  - intros a. eapply free_asset_len; [done| |done]. by rewrite <- Eb.
Qed.

Lemma start_script t height h (c : Checked ScriptBody) vm :
  (forall l, zlen (sha256 l) = 32) -> chargeable_ok script_body_ok t -> common_rules t height params ->
  checked_as t height params c -> idle vm -> 0 <= h < U32 ->
  zlen (tx_inputs t) < tp_max_inputs (cp_tx_params params) \/ 0 < max_fee_limit t ->
  exists av, initial_free_balances t base = Ok av /\
  match init_script body_codec (Some h) t (metadata_balances (metadata c)) vm with
  | Ok machine => exists bs rb0, started t bs av rb0 machine
  | Err e => e = Init_Validity BalanceOverflow /\ U64 <= credited base base (tx_inputs t) + total retries (tx_inputs t)
  | Crash => False
  end.
Proof.
  intros Hsha Ht Hr Hc Hid Hh Hroom. destruct (checked_balances t height c Hc) as (av & Eav & Em). exists av. split; [done|]. rewrite Em.
  pose proof (free_balances_spec script_body_ok t base Ht) as Hf. rewrite Eav in Hf. destruct Hf as (_ & Hw & Hret & Hcr & Eret & _).
  set (m := non_retryable_balances av) in *. set (r := retryable_balance av) in *.
  destruct (sane_fields _ _ Hs) as (_ & _ & _ & Eb & _).
  assert (Ebase : base_asset_id (interpreter_params vm) = base) by (rewrite (id_params _ Hid); exact Eb).
  destruct (Z.lt_ge_cases (default 0 (m !! base) + r) U64) as [Hfit|Hov].
  - destruct (script_initializable t height vm av (default 0 (m !! base) + r) Ht Hr Hid Eav Hroom) as [bs Hib]. fold m in Hib.
    destruct (init_script_spec vm t m r h bs) as (machine & id & rb0 & E & Hm); try done; try (rewrite Ebase; done).
    { rewrite (id_params _ Hid). destruct (sa_words _ _ Hs) as (? & _ & ? & ?). by split_and!. }
    { apply Hid. }
    rewrite Ebase in *. cbn zeta in Hm. unfold initial_balances. fold m r. change (body_codec (Body := ScriptBody)) with c_script_body. rewrite E. exists bs, rb0.
    destruct Hm as (Erb & Hssp & Hini & _ & Htx & _ & Hinv & Hpar & _ & _ & _ & Hbo & Hfree & _ & _ & _ & _ & Hgas & Hfr & _).
    split; try done; [apply Hib| | |].
    + apply (balances_of_ok _ _ Hbo). apply map_Forall_insert_2; [|done]. pose proof (words_lookup m base Hw). unfold u64_ok in *. lia.
    + by rewrite Hpar, (id_params _ Hid).
    + by rewrite Hssp, (id_params _ Hid).
  - assert (E : runtime_balances_try_from (mkInitialBalances m (Some (r, base))) = Err BalanceOverflow).
    { unfold runtime_balances_try_from. cbn [retryable non_retryable]. unfold entry_add, checked_add. case_if; [lia|done]. }
    unfold init_script. cbn [ok_or obind]. unfold initial_balances. fold m r. rewrite E. split; [done|].
    specialize (Hcr base). rewrite bool_decide_true in Hcr by done.
    pose proof (paid_nonneg base (tx_outputs t) (proj2 (proj1 (proj2 (proj2 (proj2 Ht)))))).
    assert (0 <= max_fee_limit t) by (apply (policies_get_ok (tx_policies t) MaxFee), Ht). lia.
Qed.
(** How executing a checked script can fail: the storage, a missing input contract, the implicit
    return of an empty script, or base coins that do not fit a word together with the amounts of
    data messages. *)
Definition failure t (e : TransactError) : Prop :=
  e = Transact_Interpreter IE_Storage \/ e = Transact_Interpreter (IE_Panic InputContractDoesNotExist) \/
  (script (tx_body t) = [] /\ exists r, e = Transact_Interpreter (IE_Panic r)) \/
  ((e = Transact_CheckError (Check_Validity BalanceOverflow) \/ e = Transact_Interpreter (IE_Bug UncomputableRefund)) /\
   U64 <= credited base base (tx_inputs t) + total retries (tx_inputs t)).

Lemma check_contracts_spec (s : S) l :
  match check_contracts s l with
  | Ok _ => True
  | Err e => e = Transact_Interpreter IE_Storage \/ e = Transact_Interpreter (IE_Panic InputContractDoesNotExist)
  | Crash => False
  end.
Proof.
  induction l as [|i l IH]; [done|]. destruct i; cbn [check_contracts]; try exact IH.
  destruct (storage_contract_exists _ _) as [[]|]; cbn [ok_or obind]; [exact IH|by right|by left].
Qed.

Lemma run_script_spec fuel t height hi bs av rb0 machine :
  chargeable_ok script_body_ok t -> common_rules t height params ->
  max_gas t costs fee = Ok hi -> fee_of fee t price hi <= max_fee_limit t -> initial_free_balances t base = Ok av ->
  started t bs av rb0 machine -> script_gas_limit (tx_body t) < Z.of_nat fuel ->
  match run_script fuel fee machine with
  | Finished (Ok (state, machine')) => exists lo used av amount, executed t state machine' lo used av amount
  | Finished (Err e) => failure t e
  | Outside o => script (tx_body t) <> [] /\ unmodelled o = true
  | _ => False
  end.
Proof.
  intros Ht Hr Ehi Hlim Eav Hst Hfuel. unfold run_script. rewrite (sd_tx _ _ _ _ _ Hst).
  change (script_gas_limit (tx_body (chargeable_prepare_sign t))) with (script_gas_limit (tx_body t)).
  change (script (tx_body (chargeable_prepare_sign t))) with (script (tx_body t)).
  set (empty := bool_decide (script (tx_body t) = [])). destruct (sane_fields _ _ Hs) as (_ & Ec & _).
  assert (Hk : costs_at_least 1 (gas_costs (m_vm machine))).
  { unfold gas_costs. rewrite (sd_params _ _ _ _ _ Hst). cbn. rewrite Ec. apply (sa_costs _ _ Hs). }
  pose proof (run_program_ends empty (script_gas_limit (tx_body t)) fuel (m_vm machine) (sd_inv _ _ _ _ _ Hst) Hk) as Hrun.
  rewrite (sd_gas _ _ _ _ _ Hst) in Hrun. specialize (Hrun (Z.le_refl _) Hfuel).
  pose proof (run_program_ended (cpp_tx_offset cpp + zlen bs) empty (script_gas_limit (tx_body t)) fuel (m_vm machine)
    (sd_inv _ _ _ _ _ Hst) (sd_frames _ _ _ _ _ Hst)) as Hend. rewrite (sd_ssp _ _ _ _ _ Hst) in Hend. specialize (Hend (Z.le_refl _)).
  destruct (run_program _ _ _ _) as [[state|e| |o|] vm]; try done.
  - pose proof (finalize_script_spec t height hi bs av rb0 machine state vm Ht Hr Ehi Hlim Eav Hst Hend Hrun) as Hf.
    destruct (finalize_script fee state (with_vm machine vm)) as [[state' machine']|e|]; cbn [finish]; [| |done].
    + destruct Hf as [-> (lo & used & amount & Hex)]. by exists lo, used, av, amount.
    + destruct Hf as [-> Hov]. right. right. right. split; [by right|done].
  - destruct Hrun as [->|[He [r ->]]]; [by left|right; right; left]. subst empty. split; [by apply bool_decide_eq_true in He|by eexists].
  - subst empty. destruct Hrun as [He Ho]. by apply bool_decide_eq_false in He.
Qed.
End Script.


(** ** An example: a script with a predicate input *)

Module TransactExample.
#[local] Instance tai64_zero : Tai64 := InitExample.tai64_zero.
#[local] Instance alloc : Alloc := TxExample.exact_alloc.
#[local] Instance sha : Sha256 := SignExample.sha.
#[local] Instance powf : Powf := powf_zero.
#[local] Existing Instance wide_std.
#[local] Instance crypto : Crypto := crypto_none.
#[local] Instance decoder : ParametersDecoder := CheckedExample.decoder.

(** A storage of contracts; the other tables fail. *)
#[export] Instance contracts_only : LedgerStorage SlotStorage := {
  storage_contract_exists s id := Some (bool_decide (is_Some (contracts (ms_memory (slot_memory s)) !! id)));
  storage_contract_insert _ _ _ := None;
  contract_state_insert _ _ _ _ := None;
  blob_data_replace _ _ _ := None;
  uploaded_bytecode_get _ _ := None;
  uploaded_bytecode_insert _ _ _ := None;
  consensus_parameters_version _ := None;
  state_transition_version _ := None;
  set_consensus_parameters _ _ _ := None;
  set_state_transition_bytecode _ _ _ := None
}.

Definition tx : Chargeable ScriptBody :=
  mkChargeable TxExample.body (mkPolicies 8 [0; 0; 0; 20; 0])
    [Input_CoinSigned SignExample.coin; Input_CoinPredicate PredExample.coin] [Output_Change (TxExample.b32 x02) 0 zeroed]
    [replicate 64 SignExample.key].
(** A machine that stopped inside another run *)
Definition vm : Interpreter SlotStorage :=
  mkVM (replicate 64 3) (mkMemory [x01; x02] [] MEM_SIZE) [] receipts_default {[ zeroed ]} InitExample.store
    NotInitialized ∅ (interpreter_params_new 1 CheckedExample.cpp) PanicContext_None.
Notation checked := (@Check.into_checked_basic alloc sha ScriptBody (@chargeable_script alloc) _ _ _ _ tx 3 CheckedExample.params).
Notation executing c :=
  (@transact_checked alloc sha SlotStorage contracts_only ScriptBody (@chargeable_script alloc) _ _ _
    (@script_runnable alloc sha powf wide_std crypto SlotStorage (@slot_storage_interface sha tai64_zero))
    501 FeeExample.params (Some 5) c vm).

Lemma script_valid : chargeable_ok script_body_ok tx.
Proof.
  destruct TxExample.tx_valid as (Hb & _). split; [exact Hb|].
  split; [split_and!; [done|repeat constructor; done|done]|].
  split; [|split; [split; [done|]|]; repeat constructor; done]. split; [done|]. repeat constructor; vm_compute; done.
Qed.
Lemma idle_machine : idle CheckedExample.cpp 1 vm.
Proof. split; [reflexivity|exact (memory_storage_new_wf 5 zeroed)|]. split; vm_compute; repeat split; discriminate. Qed.
(** The script returns zero and uses two gas; of the twenty coins it pays a fee of five. *)
Definition expected (r : RunOutcome (outcome TransactError (ProgramState * Machine SlotStorage ScriptBody))) : Prop :=
  match r with
  | Finished (Ok (PS_Return 0, machine)) => tx_outputs (m_tx machine) = [Output_Change (TxExample.b32 x02) 15 zeroed]
  | _ => False
  end.
Lemma finishes : match checked with Ok c => expected (executing c) | _ => False end.
Proof. vm_compute. reflexivity. Qed.
End TransactExample.


(** The room that [to_vm] reserves is for one balance per allowed input, and the base asset always
    takes one: on a chain that allows one input, a valid transaction that spends a coin of another
    asset under a fee limit of zero panics the host when the machine is initialized. *)
Module NoRoomExample.
#[local] Instance tai64_zero : Tai64 := InitExample.tai64_zero.
#[local] Instance alloc : Alloc := TxExample.exact_alloc.
#[local] Instance sha : Sha256 := SignExample.sha.

Definition params : ConsensusParameters :=
  mkConsensusParameters (mkTxParameters 1 2 2 100000000 4096 16) (mkPredicateParameters 1024 1024 1024 1000000)
    (mkScriptParameters 1024 1024) (mkContractParameters 1024 16) FeeExample.params 7 FeeExample.costs zeroed 100000000 zeroed.
Definition cpp : CheckPredicateParams :=
  mkCheckPredicateParams FeeExample.costs 7 1000000 100000000 1 1024 1024 152 FeeExample.params zeroed.
Definition coin : CoinSigned :=
  mkCoin (mkUtxoId zeroed 3) (TxExample.b32 x02) 1000 (TxExample.b32 x07) tx_pointer_default 0 mkEmpty mkEmpty mkEmpty.
Definition tx : Chargeable ScriptBody :=
  mkChargeable TxExample.body (mkPolicies 8 [0; 0; 0; 0; 0]) [Input_CoinSigned coin] [] [replicate 64 SignExample.key].
Definition vm : Interpreter SlotStorage :=
  mkVM (replicate 64 0) mem_new [] receipts_default ∅ InitExample.store NotInitialized ∅ (interpreter_params_new 0 cpp) PanicContext_None.

Lemma no_room :
  match Check.into_checked_basic tx 3 params with
  | Ok c => init_script body_codec (Some 5) (transaction c) (metadata_balances (metadata c)) vm = Crash
  | _ => False
  end.
Proof. vm_compute. reflexivity. Qed.
End NoRoomExample.
